(* ===== verification/_CoqProject ===== *)
-Q . S2P
Prelude.v
GoStrings.v
GoUtf8.v
Utf8Facts.v
GoCodec.v
Frames.v
GoPath.v
Script.v
Policy.v
Residency.v
SideQueue.v
QueueSteps.v
QueueFrames.v
QueueOrder.v
QueueAccount.v
RelayPool.v
Session.v
Trust.v
Approvals.v
Console.v
Gate.v
Workspace.v
WorkspaceInv.v
WorkspacePages.v
FileEdit.v
FileRead.v
FileGuard.v
Transfer.v
Termsafe.v
Release.v
Update.v
WebFetch.v
Jobs.v
Sessions.v
SessionInv.v
SessionFate.v
Dial.v
PollRefine.v
HttpConn.v
LinkFrames.v
Link.v
LinkOps.v
Tables.v
Accounts.v
Friends.v
Grants.v
McpAuth.v
OAuth.v
StoreOps.v
ShareInv.v
AccountInv.v
TokenInv.v
CredInv.v
GrantInv.v
LedgerInv.v
OAuthInv.v
RefreshInv.v
Contact.v
Enroll.v
Portal.v
DeviceConn.v
ConsoleRpc.v
PortalDevices.v
PhoneWatch.v
Lark.v
Logs.v
WebFetchRuns.v
DeviceInv.v
Leases.v
