(* ===== verification/Prelude.v ===== *)
(** * wanctl: a verification development

    wanctl lets a person, or a program acting for one, run commands and move
    files on machines behind NAT.  A device runs an agent, which polls a relay; a
    controller dials the device through the relay, and the two speak TLS end to
    end over the relayed bytes.  The device decides what it serves: it pairs
    controllers with its owner's consent and gates every request with rules, a
    mode, and approvals.  The relay decides who may dial whom, carries the bytes
    in order, and keeps its memory bounded.  The relay also keeps the accounts:
    people sign in, become friends, share devices, lend them for a while to a
    program, and let that program in through OAuth.  All of it is rows of one
    database, and the queries over them.  A web portal administers the devices of
    an account over connections of its own, and carries their questions to the
    owner's phone and to Feishu.  Binaries replace themselves with signed
    releases.

    This library models those decisions, that carrier and those services from the
    Go sources under [src/] (most of them in [src/internal/], whose files are named
    below without it), and proves what makes them correct.

    ** The parts and the files

    Foundations.  [Prelude] (this file): Go's [(T, error)] results, reachability
    and the invariant rule, the list lemmas and tactics the components share
    (those about a pool of goroutines included), time and 32-bit arithmetic.
    [GoStrings], [GoUtf8], [GoCodec], [GoPath]: the functions of Go's standard
    library the modelled code calls, executable, on byte strings; SHA-256 and
    base64 included.  [Utf8Facts]: that a valid text can be cut where a rune
    starts, and what JSON makes of text that is not valid.

    The device.
    - [Script] (script/script.go): how a script travels as an inert command, and
      the token that names its bytes.
    - [Policy] (policy/policy.go, approver.go): the [engine] with its rules and
      mode, the matching of commands and paths, what a remembered answer
      becomes, the files a restart reads, and the class [Approver] with its three
      instances.
    - [Session] (sessionauth/sessionauth.go as Module [Auth],
      delegation/delegation.go as Module [Delegation]): capability sets, the
      metadata a session is opened with, what a credential gives access to.
    - [Trust] (transport/trust.go): pinned and trusted peers and their file.
    - [Approvals] (agent/approvals.go): approvals that arrive late, and the
      decisions a phone sends.
    - [Console] (console/console.go): the owner's queue of approvals and pairing
      requests.
    - [Gate] (agent/agent.go, agent/delegation.go, the entry of workspace.go): an
      [agent] is the record of all of these; [gate] and [gateFile] decide one
      request, [handleSession] admits a session, [serveAuthorized] is one turn
      of its request loop.  It is written against the class [Approver].
    - [Jobs] (agent/jobs.go, [doExecPoll]): background jobs and their output.
    - [Workspace] (agent/workspace.go): the shells a device keeps for its
      controllers, and the ledger of what ran in them.  [WorkspaceInv]: its
      handlers and the goroutines of its commands as a transition system, with its
      invariant.  [WorkspacePages]: the pages of a command's output, and the loop
      of the controller that prints them ([awaitWorkspace] of src/workspace.go).
    - [ConsoleRpc] (the console RPCs of agent.go with the calls of
      portal/deviceconn.go that ask for them, config/portal_admins.go): what a
      device does for the portal.
    - Files.  [Frames] (protocol/protocol.go): frames on a byte stream.
      [FileGuard] (server/files.go): which files an operation may touch, over a
      file system that may change between any two calls.  [FileRead] and
      [FileEdit] (server/fileops.go): reading a range of lines, replacing strings,
      writing a text.  [Transfer] (server/files.go, client/files.go,
      readbytes.go): uploads and downloads, both ends.
    - [Logs] (eventlog/eventlog.go, serverlog/serverlog.go, server/spill.go):
      what is written down, and how much of it.

    The relay.
    - [Residency] (relay/resident.go): the account of bytes in memory.
    - [SideQueue] (the [sideQueue] of relay/http.go): one direction of a session;
      each definition is one critical section of the code.
    - [QueueSteps], [QueueFrames], [QueueOrder], [QueueAccount]: the direction as
      a transition system whose events are those critical sections and channel
      operations, so every interleaving of writers and polls is a run; frame
      lemmas; the invariant about order; the invariant about memory.
    - [RelayPool]: all directions of a relay drawing on one account.
    - [Dial] (relay.go, shared.go, device_id.go, delegation_auth.go): names,
      grants and the authority a session is opened with.
    - [Sessions] (the handlers of relay/http.go, bridge.go, http_disconnect.go):
      the registry of sessions and devices, every HTTP handler that changes it
      and both sweepers.  [SessionInv], [SessionFate]: its invariant, and what
      becomes of a session.
    - [PollRefine]: the polls of the handlers are runs of [QueueSteps].

    The controller's end of the carrier.
    - [HttpConn] (httpconn/httpconn.go): the [writer] that batches and numbers
      uploads, the retries of a request, the lanes requests travel on, the
      [reader] with its window of polls.  What each HTTP request came to is an
      argument.
    - [LinkFrames], [Link]: a writer, a direction of the relay and a reader,
      joined by a carrier that loses, repeats, delays and reorders, as one
      executable step relation ([lstep]) and its invariant ([link_ok]).
    - [LinkOps]: the operations of a connection and the handlers of the relay
      are runs of that relation.
    - [Termsafe] (termsafe/termsafe.go): making text from elsewhere safe to show,
      whole and as a stream in pieces.

    Releases.
    - [Release] (release/release.go, versionmeta): versions, manifests and their
      signatures.  [Update] (update.go, autoupdate.go, portal_install.go,
      update_unix.go and parts of daemon.go): replacing the running binary.

    The relay's database.
    - [Tables]: a [store] is the record of the tables the migrations create, each
      a list of rows, and the operations on a table the SQL is read with.
    - [Accounts] (relay/admin.go, pgstore.go, disable.go, access.go, device_id.go):
      accounts, invites, identities, credentials, access requests, devices and
      their names.  [Friends] (relay/friends.go and the share queries): friends
      and shares.  [Grants] (relay/delegation_store.go, delegation_cleanup.go,
      scoped_store.go): delegation requests and grants, scoped tokens, the ledger
      of the jobs they start.
    - [McpAuth] (mcpauth/mcpauth.go): the sealed credentials of a client; the
      cipher is a parameter.  [OAuth] (relay/oauth.go, oauth_pg.go): clients, the
      consent page, codes, refresh tokens, the token endpoint.
    - [StoreOps]: every query as an [op]; [apply_op] runs one, [dstep] is the
      transition system, [stored] its reachable stores, and the frame lemmas say
      which tables a query leaves alone.
    - [Leases] (relay/delegation_auth.go, disable.go): what a relay holds open for
      an account, and how a disabled account, a revoked grant or a share that was
      taken back ends it.
    - [Contact] (relay/contact.go, migration 012): confirmed addresses and the
      links that confirm them.  [Enroll] (relay/enroll.go): one-time codes.
    - [WebFetch], [WebFetchRuns] (webfetch/handler.go): operations asked for by
      fetching a URL: the limits and the cutting of answers, then the handler as a
      program of calls to its stores, any number of which interleave with the
      queries above.
    - Invariants of [stored], one file per subject: [ShareInv], [AccountInv],
      [TokenInv], [CredInv], [GrantInv], [LedgerInv], [DeviceInv].  [OAuthInv]
      and [RefreshInv] are about the OAuth handlers interleaved with every query
      ([traffic], [tstep], [running]).

    The portal.
    - [Portal] (portal/auth.go, email.go, pages.go, the middleware of portal.go):
      who is signed in and where a visitor is sent.
    - [DeviceConn] (portal/deviceconn.go, the pool of portal.go): the connection to
      a device's console, shared by callers, a read loop and subscribers.
    - [PortalDevices] (the device handlers of portal.go, adb_pair.go, install.go,
      activity.go, approvalphone_api.go): who may do what to which device.
    - [PhoneWatch] (portal/phonewatch.go, approvalwatch.go, protocol/approval.go):
      the approval phone.  [Lark] (portal/larkwatch.go, lark/grants.go,
      lark/action.go): the same decisions over Feishu.

    How they meet: [Dial] produces the [Auth.session_open] that [Sessions]
    announces and [Gate] checks ([dial_authority] proves the device accepts it);
    the rows it looks up are those of [Tables], and what a stored grant says of
    them is [GrantInv.approved_grant_resolves]; [Sessions] stores a [SideQueue]
    for each direction and moves [Residency]; [Gate] calls [Policy], [Approvals],
    [Console], [Trust] and the approver; [Workspace] asks the gate again before
    every command; [Transfer] speaks [Frames] and what it may open is decided as
    in [FileGuard]; [WebFetch] cuts what [FileRead] returns; [WebFetchRuns] runs
    over the [store] of [Tables]; [PortalDevices] looks devices up with [Dial] and
    asks them what [ConsoleRpc] answers, over the connections of [DeviceConn].

    ** What the theorems show

    Most of these are safety theorems over every interleaving of a transition
    system; the lemmas named with them are facts of their own.

    - Authority: [Gate.gate_justified], [Gate.session_admission],
      [Gate.serve_within_session] (and [Gate.trusted_admitted]: a trusted
      controller is let in), [Dial.dial_authority]: nothing is served that was not
      allowed.  The lemmas [Gate.gateFile_root], [SessionFate.session_parties] and
      [Session.Auth.ValidFor_limits] say where file operations may go, who the two
      ends of a session are, and what limits it.
    - Consent: [Console.pairing_needs_owner]; the lemmas
      [Approvals.late_grant_binds], [Console.flood_keeps_waiting],
      [Approvals.late_grant_once], [Approvals.outbox_keeps_decisions],
      [Trust.Pin_binds], [Trust.store_survives_restart], [Jobs.job_output].
      [PhoneWatch.phone_decides_once] and [Lark.callback_decides_once]: a decision
      that comes from a phone or a chat is carried out at most once, on the request
      it was made for; the lemmas [PhoneWatch.onTargetState_runs],
      [PhoneWatch.reconcile_runs] and [PhoneWatch.unlinked_phone_watches_nothing]
      relate whole functions to the steps, [PhoneWatch.prune_bounds] and
      [Lark.Watchers.applyConfigs_watches] say what is kept and who is watched.
    - Rules: [Policy.prefix_rule_single_command] bounds what a rule lets through,
      as do the lemmas [Policy.script_rule_same_bytes] and
      [Policy.Within_containment];
      the lemmas [Policy.remembered_rule_allows] and [Policy.remembered_dir_rule]
      say a remembered answer is honoured, [Policy.Allowed_same_class] and
      [Policy.restart_preserves_engine] that kinds never mix and that a restart
      changes nothing.  [ConsoleRpc.revoked_or_unchanged]: a revocation is done or
      nothing is.
    - Workspaces: [Workspace.workspace_runs_authorized],
      [WorkspaceInv.request_runs_once], [WorkspaceInv.requests_end],
      [WorkspacePages.await_prints_output]; the lemmas
      [WorkspaceInv.workspace_bounded], [WorkspaceInv.workspace_private],
      [WorkspaceInv.stopped_runs_nothing] and [WorkspacePages.pages_reassemble].
      Jobs: the lemma [Jobs.jobs_bounded].
    - Files: [FileGuard.config_is_unreachable] and the lemma
      [FileGuard.operations_are_placed] about what may be opened;
      [Transfer.upload_is_atomic], [Transfer.push_delivers] and the lemma
      [Transfer.download_is_complete]; [FileRead.read_is_streamed];
      [FileEdit.edit_all_or_nothing] with the lemmas
      [FileEdit.batch_is_simultaneous] and [FileEdit.batch_order_irrelevant]; the
      lemma [Frames.frames_arrive].
    - Output: [Logs.Spill.spill_is_prefix] (a file that is advertised holds the
      output); the lemmas [Logs.EventLog.log_keeps_newest],
      [Logs.EventLog.Append_fits], [Logs.EventLog.Read_newest],
      [Logs.ServerLog.appendLocked_ok], [Logs.ServerLog.untruncated_is_complete];
      the lemmas [Termsafe.escape_is_safe] and [Termsafe.stream_is_whole].
    - The stream: [QueueOrder.stream_in_order] (what a reader is handed is a
      prefix of what was written, with nothing lost, repeated or reordered); the
      lemmas [PollRefine.polls_refine], [QueueOrder.chunk_kept_until_acked] and
      [QueueAccount.gap_write_admitted] (the write that fills a gap always finds
      room).  From end to end: [Link.link_carries] (every byte offered to [Write]
      is in exactly one place, in order, up to what [Read] returned); the lemmas
      [Link.clean_end_complete] and [Link.window_bounded];
      [LinkOps.writer_refines] and [LinkOps.handlers_answer_link] tie the link to
      the code at both ends; [HttpConn.post_retries_safely],
      [HttpConn.downPoll_ends] and [HttpConn.acquireLane_spec] are about one
      request.
    - Memory and ends of sessions, as lemmas: [QueueAccount.direction_account],
      [RelayPool.relay_account], [SessionInv.sessions_bounded],
      [SessionFate.close_keeps_backlog], [SessionFate.gone_agent_told],
      [SessionFate.sweep_drops_abandoned].
    - Accounts: [AccountInv.one_account_per_identity],
      [CredInv.access_wellformed] (what a credential resolves to); the lemmas
      [AccountInv.identity_keeps_namespace] and [CredInv.disabling_is_reversible].
      Sharing: [ShareInv.share_needs_friends], [GrantInv.approved_grant_resolves];
      the lemmas [DeviceInv.device_target_verdict] and
      [DeviceInv.registration_keeps_shares].
    - Tokens: [TokenInv.revocation_is_final], [Leases.disabled_account_is_offline]
      (no session and no device stays open); the lemmas
      [Leases.dead_credential_refused], [Leases.shares_looked_at],
      [TokenInv.scoped_tokens_bounded], [LedgerInv.jobs_run_once] and
      [LedgerInv.cleanup_is_one_sweep].  OAuth: [OAuthInv.consent_before_tokens],
      [RefreshInv.refresh_rotates_once]; the lemmas [RefreshInv.oauth_tokens_work]
      and [McpAuth.credentials_roundtrip].  [Enroll.code_enrolls_once].
      [Contact.contact_was_confirmed], with the lemmas [Contact.link_spent_once]
      and [Contact.confirmations_limited].
    - Web fetch: [WebFetchRuns.operations_run_once],
      [WebFetchRuns.operations_are_granted], [WebFetchRuns.slots_returned],
      [WebFetch.fetched_pages_whole].
    - The portal: [Portal.only_github_signs_in] and the lemma
      [Portal.mutations_are_own]; [PortalDevices.devices_are_administered];
      [DeviceConn.answers_are_own] and the lemma
      [DeviceConn.Pool.no_connection_leaks].
    - Releases: [Update.update_installs_signed]; the lemmas
      [Release.manifest_is_signed], [Release.version_order] and
      [Update.update_starts_no_agent].
    - Encodings, as lemmas: [Script.command_canonical],
      [Script.Short_only_tokens], [Session.Auth.capabilities_roundtrip].

    Some lemmas record what the code does and does not mean to do:
    [WorkspaceInv.double_close_loses_workspace],
    [FileEdit.overlapping_occurrence_accepted], [Contact.Demo.late_mail_kills_newer],
    [Enroll.alphabet_has_L], [DeviceConn.Demo.stale_answer],
    [PortalDevices.Demo.refusal_reported_done], [PortalDevices.Demo.grantee_repins],
    [Update.Demo.readonly_directory_recurses],
    [Lark.Demo.gone_reported_allowed], [Lark.Demo.result_overwritten],
    [Leases.Demo.dial_outlives_share].

    ** Conventions

    State is passed explicitly.  The clock is an argument; times and durations
    are nanoseconds in [Z].  A mutex makes a definition: what the code does
    between a lock and its unlock is one step, and where a handler waits it is
    cut in two.  ([SideQueue.free] is one step as well, although a poll may receive
    while the code empties the channel: what it then takes is left out.)  What
    happens at the other end of a wait (another handler's step,
    a timeout, a client that left) is an argument or another event of the
    transition system.  A Go map is a [gmap]; a loop over one that can stop early
    takes the order of its visits as an argument, or is followed in the model's
    order where the result does not depend on it.  An object two holders share is
    an index into a store of objects.  A goroutine is the list of the steps it has
    still to make, and a step of the system picks any of them; where a handler
    only calls out, it is a tree of calls with a continuation for every answer
    ([WebFetchRuns]).  Byte counts are [Z]; they stay far from
    the ends of [int64] (a direction holds at most 32 MiB), and sequence numbers
    are [nat]: 2^64 writes do not happen.

    Fuel.  Recursion over a string that consumes at least one byte takes the
    string's length ([GoUtf8], [Gate.peerText]); [SideQueue.settleHeld] takes one
    more than the writes held, of which it removes one each turn;
    [SideQueue.fill] takes the chunks queued.  [QueueFrames] and [PollRefine]
    prove the last two finish.  [HttpConn.post] and [HttpConn.downPoll] have the
    code's own budgets of attempts; [HttpConn.downPoll_ends] proves a poll uses
    them up or answers.  [HttpConn.send_batches] takes the bytes that wait, of
    which each turn sends at least one.  [Grants.cleanup_loop] takes the number of
    requests, and [LedgerInv.cleanup_is_one_sweep] proves that enough.
    [Frames.frames_fuel], [FileRead.feed_fuel], [Termsafe.each_fuel],
    [WebFetch.valid_prefix] and [Logs.ServerLog.take_lines] take the bytes there
    are and use up at least one a turn ([Frames.frames_fuel_enough],
    [FileRead.feed_piece], [Termsafe.each_fuel_enough],
    [Logs.ServerLog.Write_drains]). [FileGuard.real_prefix] and
    [FileGuard.target_walk] take the length of the path, which has at least as
    many bytes as components ([FileGuard.target_walk_all] says that each directory
    was looked at); [Release.walk] takes twice the tokens, as [Release.walk_value]
    needs. The waits of [Update] poll as often as their timeout allows
    ([Update.await_polls]). [WebFetch.read_on] and [WorkspacePages.collect] are
    readers that come back, with a theorem that enough visits read everything.

    A transaction, or a statement on its own, is one step.  The OAuth handlers are
    one step each: the two statements that store a client, and the exchange of a
    code with the tokens it mints, are not cut apart.

    ** What is not modelled

    The shell parser (mvdan.cc/sh), [filepath.EvalSymlinks] and the file system
    beneath it, [uuid], [mail.ParseAddress], [url.Parse], Unicode case folding of
    labels, the cipher of [McpAuth], Ed25519, the expressions that redact logs and
    the random source are parameters; [Dial] takes the rows it looks up as
    arguments.  JSON enters decoded, except for the tokens [Release] walks; where
    text that is not UTF-8 may pass through it, what comes out is
    [Utf8Facts.json_text] ([Portal], [WorkspacePages]).
    [filepath] is the Unix one.

    Left out: the regular expression of [NestedPowerShellExpansion]; failures of
    the file system in the stores of the device's own state, other than an
    unwritable policy directory and, in [ConsoleRpc], files of peers and portals
    that cannot be replaced; the processes of the operating system that run
    commands, and screens; TLS; the WebSocket carrier; elevation channels and adb;
    the audit and notification tables and the rows a promotion moves in them; the
    migrations as programs (relay/migrate.go); the static token store; the
    pictures of cards and the client of Feishu; the portal's consent pages, its
    documents and its assets; the documents of the web-fetch adapter; the MCP
    server; the parsing of command lines.  The manifest lists each part with its
    reason. *)

From Stdlib Require Export ZArith Lia Bool Ascii String.
From stdpp Require Export base option list gmap strings relations.

(** ** Results: a Go function returning [(T, error)] *)

Declare Scope go_scope.
Delimit Scope go_scope with go.

(** [Ok v] is [(v, nil)], [Err e] is [(_, e)] with a non-nil error. *)
Inductive result (E A : Type) : Type :=
| Ok (a : A)
| Err (e : E).
Arguments Ok {E A} a.
Arguments Err {E A} e.

Definition result_bind {E A B} (m : result E A) (k : A → result E B) : result E B :=
  match m with Ok a => k a | Err e => Err e end.

Notation "'try' x := m 'in' k" := (result_bind m (λ x, k))
  (at level 10, x name, m at level 100, k at level 200) : go_scope.

Definition is_ok {E A} (m : result E A) : bool :=
  match m with Ok _ => true | Err _ => false end.

Lemma result_bind_ok {E A B} (m : result E A) (k : A → result E B) b :
  result_bind m k = Ok b ↔ ∃ a, m = Ok a ∧ k a = Ok b.
Proof. destruct m; simpl; split; [eauto|intros (? & [= <-] & ?); done|done|intros (? & ? & ?); done]. Qed.

(** ** Reachability and invariants of step relations *)

Section reachability.
Context {S : Type} (init : S → Prop) (step : S → S → Prop).

Definition reachable (s : S) : Prop := ∃ s0, init s0 ∧ rtc step s0 s.

Lemma reachable_init s : init s → reachable s.
Proof. intros H. exists s. split; [done | apply rtc_refl]. Qed.

Lemma reachable_step s s' : reachable s → step s s' → reachable s'.
Proof. intros (s0 & H0 & Hr) Hs. exists s0. split; [done|]. by eapply rtc_r. Qed.

(** The rule every invariant of the development is proved with. *)
Lemma invariant_reachable (I : S → Prop) :
  (∀ s, init s → I s) →
  (∀ s s', I s → step s s' → I s') →
  ∀ s, reachable s → I s.
Proof.
  intros Hi Hp s (s0 & H0 & Hr). pose proof (Hi _ H0) as HI. clear H0.
  induction Hr as [|x y z Hxy _ IH]; [done|]. apply IH. by eapply Hp.
Qed.
End reachability.

(** ** Shared automation *)

Create HintDb wanctl discriminated.
Create Rewrite HintDb wanctl.

(** Break a boolean hypothesis or goal into propositions. *)
Ltac bsplit :=
  repeat match goal with
  | H : _ && _ = true |- _ => apply andb_true_iff in H; destruct H
  | H : _ || _ = false |- _ => apply orb_false_iff in H; destruct H
  | H : negb _ = true |- _ => apply negb_true_iff in H
  | H : negb _ = false |- _ => apply negb_false_iff in H
  | H : bool_decide _ = true |- _ => apply bool_decide_eq_true_1 in H
  | H : bool_decide _ = false |- _ => apply bool_decide_eq_false_1 in H
  | H : (_ =? _)%Z = true |- _ => apply Z.eqb_eq in H
  | H : (_ =? _)%Z = false |- _ => apply Z.eqb_neq in H
  | H : (_ <? _)%Z = true |- _ => apply Z.ltb_lt in H
  | H : (_ <? _)%Z = false |- _ => apply Z.ltb_ge in H
  | H : (_ <=? _)%Z = true |- _ => apply Z.leb_le in H
  | H : (_ <=? _)%Z = false |- _ => apply Z.leb_gt in H
  | H : (_ =? _)%nat = true |- _ => apply Nat.eqb_eq in H
  | H : (_ =? _)%nat = false |- _ => apply Nat.eqb_neq in H
  | H : (_ <? _)%nat = true |- _ => apply Nat.ltb_lt in H
  | H : (_ <? _)%nat = false |- _ => apply Nat.ltb_ge in H
  | H : (_ <=? _)%nat = true |- _ => apply Nat.leb_le in H
  | H : (_ <=? _)%nat = false |- _ => apply Nat.leb_gt in H
  end.

(** The same with string comparisons. *)
Ltac ssplit :=
  bsplit;
  repeat match goal with
  | H : String.eqb _ _ = true |- _ => apply String.eqb_eq in H
  | H : String.eqb _ _ = false |- _ => apply String.eqb_neq in H
  end.

(** Case on the scrutinee of the outermost [if]/[match] of the goal. *)
Ltac case_goal :=
  match goal with
  | |- context [match ?x with _ => _ end] => destruct x eqn:?
  end.

(** Case on the scrutinee of an [if]/[match] in hypothesis [H], dropping the
    branches that contradict it. *)
Ltac case_hyp H :=
  repeat (match type of H with
  | context [match ?x with _ => _ end] => destruct x eqn:?; try discriminate H
  end).

(** ** Go slices and maps *)

(** [slices.DeleteFunc l f]: the elements [f] does not select, in order. *)
Definition delete_func {A} (f : A → bool) (l : list A) : list A :=
  List.filter (λ x, negb (f x)) l.

Lemma elem_of_filter_b {A} (f : A → bool) l x :
  x ∈ List.filter f l ↔ x ∈ l ∧ f x = true.
Proof. rewrite !list_elem_of_In. apply filter_In. Qed.

Lemma elem_of_delete_func {A} (f : A → bool) l x :
  x ∈ delete_func f l ↔ x ∈ l ∧ f x = false.
Proof. unfold delete_func. rewrite elem_of_filter_b, negb_true_iff. done. Qed.

Lemma delete_func_length {A} (f : A → bool) l : length (delete_func f l) ≤ length l.
Proof. apply List.filter_length_le. Qed.

Lemma delete_func_sublist {A} (f : A → bool) l : sublist (delete_func f l) l.
Proof.
  unfold delete_func. induction l as [|x l IH]; simpl; [constructor|].
  destruct (f x); simpl; by constructor.
Qed.

Lemma delete_func_id {A} (f : A → bool) l :
  (∀ x, x ∈ l → f x = false) → delete_func f l = l.
Proof.
  unfold delete_func. induction l as [|x l IH]; intros H; simpl; [done|].
  rewrite (H x) by (left). simpl. f_equal. apply IH. intros y Hy. apply H. by right.
Qed.

(** The first element [f] selects, as a range loop with an early return. *)
Definition find_first {A} (f : A → bool) (l : list A) : option A := List.find f l.

Lemma find_first_Some {A} (f : A → bool) l x :
  find_first f l = Some x → x ∈ l ∧ f x = true.
Proof. intros H. apply List.find_some in H. by rewrite list_elem_of_In. Qed.

Lemma find_first_None {A} (f : A → bool) l :
  find_first f l = None ↔ ∀ x, x ∈ l → f x = false.
Proof.
  split.
  - intros H x Hx. eapply List.find_none; [exact H|]. by apply list_elem_of_In.
  - induction l as [|y l IH]; intros H; simpl; [done|].
    rewrite (H y) by left. apply IH. intros z Hz. apply H. by right.
Qed.

(** [any f l] is the loop that returns [true] at the first selected element. *)
Definition any {A} (f : A → bool) (l : list A) : bool := existsb f l.

Lemma any_true {A} (f : A → bool) l : any f l = true ↔ ∃ x, x ∈ l ∧ f x = true.
Proof.
  unfold any. rewrite existsb_exists. split; intros (x & H & ?); exists x;
    (split; [|done]); by apply list_elem_of_In.
Qed.

Lemma any_false {A} (f : A → bool) l : any f l = false ↔ ∀ x, x ∈ l → f x = false.
Proof.
  rewrite <- not_true_iff_false, any_true. split.
  - intros H x Hx. apply not_true_iff_false. intros ?. apply H. eauto.
  - intros H (x & Hx & E). rewrite H in E; done.
Qed.

(** Sums over lists, for the accounting invariants. *)
Definition sum_Z {A} (f : A → Z) (l : list A) : Z := foldr (λ x acc, (f x + acc)%Z) 0%Z l.

Lemma sum_Z_app {A} (f : A → Z) l1 l2 : sum_Z f (l1 ++ l2) = (sum_Z f l1 + sum_Z f l2)%Z.
Proof. induction l1; simpl; lia. Qed.

Lemma sum_Z_nonneg {A} (f : A → Z) l : (∀ x, (0 ≤ f x)%Z) → (0 ≤ sum_Z f l)%Z.
Proof. intros H. induction l as [|x l IH]; simpl; [lia|]. specialize (H x). lia. Qed.

(** The same over the values of a map. *)
Section msum.
Context {K : Type} `{Countable K} {A : Type} (f : A → Z).

Definition msum (m : gmap K A) : Z := map_fold (λ _ b acc, (f b + acc)%Z) 0%Z m.

Lemma msum_empty : msum ∅ = 0%Z.
Proof. apply map_fold_empty. Qed.

Lemma msum_insert m k b : m !! k = None → msum (<[k := b]> m) = (f b + msum m)%Z.
Proof. intros E. unfold msum. rewrite map_fold_insert_L; [done| |done]. intros; lia. Qed.

Lemma msum_delete m k b : m !! k = Some b → msum m = (f b + msum (delete k m))%Z.
Proof.
  intros E. rewrite <- (msum_insert (delete k m) k b) by apply lookup_delete_eq. by rewrite insert_delete_id.
Qed.

Lemma msum_update m k b b' : m !! k = Some b → msum (<[k := b']> m) = (msum m - f b + f b')%Z.
Proof.
  intros E. rewrite <- insert_delete_eq, msum_insert by apply lookup_delete_eq. rewrite (msum_delete m k b E). lia.
Qed.

Lemma msum_nonneg m : (∀ b, (0 ≤ f b)%Z) → (0 ≤ msum m)%Z.
Proof.
  intros P. induction m as [|k b m E IH] using map_ind; [by rewrite msum_empty|].
  rewrite msum_insert by done. specialize (P b). lia.
Qed.
End msum.

#[export] Hint Resolve delete_func_length delete_func_sublist reachable_init : wanctl.
#[export] Hint Rewrite @elem_of_delete_func @elem_of_filter_b @sum_Z_app : wanctl.

(** ** Goroutines

    The goroutines of a component are a list; one of them moves on, or ends. *)

Definition olist {A} (o : option A) : list A := match o with Some x => [x] | None => [] end.

Lemma insert_middle {A} (l1 : list A) x y l2 : <[length l1 := y]> (l1 ++ x :: l2) = l1 ++ y :: l2.
Proof. induction l1 as [|z l1 IH]; simpl; [done|]. by rewrite IH. Qed.

Lemma delete_middle {A} (l1 : list A) x l2 : delete (length l1) (l1 ++ x :: l2) = l1 ++ l2.
Proof. induction l1 as [|z l1 IH]; simpl; [done|]. by rewrite IH. Qed.

Lemma replace_nth {A} (l1 : list A) x l2 (next : option A) :
  match next with Some y => <[length l1 := y]> (l1 ++ x :: l2) | None => delete (length l1) (l1 ++ x :: l2) end = l1 ++ olist next ++ l2.
Proof. destruct next; simpl; [apply insert_middle|apply delete_middle]. Qed.

(** [f] names what a goroutine holds: a move may give it up, not take more. *)
Lemma omap_next {A B} (f : A → option B) l1 p l2 (next : option A) x :
  (∀ q, next = Some q → f q = None ∨ f q = f p) → x ∈ omap f (l1 ++ olist next ++ l2) → x ∈ omap f (l1 ++ p :: l2).
Proof.
  intros F. rewrite !omap_app. destruct next as [q|]; simpl; [|destruct (f p); set_solver].
  destruct (F q eq_refl) as [->| ->]; destruct (f p); set_solver.
Qed.

Lemma omap_next_NoDup {A B} (f : A → option B) l1 p l2 (next : option A) :
  (∀ q, next = Some q → f q = None ∨ f q = f p) → NoDup (omap f (l1 ++ p :: l2)) → NoDup (omap f (l1 ++ olist next ++ l2)).
Proof.
  intros F N. eapply sublist_NoDup; [exact N|]. clear N. rewrite !omap_app. apply sublist_app; [done|].
  destruct next as [q|]; simpl; [|destruct (f p); [by apply sublist_cons|done]]. destruct (F q eq_refl) as [->| ->]; destruct (f p); simpl; try done; by apply sublist_cons.
Qed.

(** What only the goroutine that moves held is free afterwards, if it gave it
    up. *)
Lemma omap_next_free {A B} (f : A → option B) l1 p l2 (next : option A) x :
  NoDup (omap f (l1 ++ p :: l2)) → f p = Some x → (∀ q, next = Some q → f q = None) → x ∉ omap f (l1 ++ olist next ++ l2).
Proof.
  rewrite !omap_app. simpl. intros N E F. rewrite E in N. apply NoDup_app in N as (_ & D & [N2 _]%NoDup_cons).
  assert (omap f (olist next) = []) as -> by (destruct next as [q|]; [simpl; by rewrite (F q eq_refl)|done]).
  intros [Hx|Hx]%elem_of_app; [by apply (D _ Hx); left|done].
Qed.

(** ** Integers *)

(** Go durations and times are nanoseconds; times count from the zero
    [time.Time], so [t.IsZero()] is [is_zero t]. *)
Definition second : Z := 1000000000.
Definition minute : Z := 60 * second.
Definition hour : Z := 60 * minute.
Definition is_zero (t : Z) : bool := (t =? 0)%Z.

(** [uint32] arithmetic. *)
Definition w32 : Z := 2 ^ 32.
Definition wrap32 (x : Z) : Z := (x mod w32)%Z.

Lemma wrap32_range x : (0 ≤ wrap32 x < w32)%Z.
Proof. apply Z.mod_pos_bound. reflexivity. Qed.

Lemma wrap32_small x : (0 ≤ x < w32)%Z → wrap32 x = x.
Proof. apply Z.mod_small. Qed.

Lemma wrap32_add_l x y : wrap32 (wrap32 x + y) = wrap32 (x + y).
Proof. unfold wrap32. by rewrite Zplus_mod_idemp_l. Qed.
