(* ===== verification/GoStrings.v ===== *)
(** Go strings as the program uses them: byte strings ([String.string] is a
    list of 8-bit characters) and the functions of [strings] the modelled
    packages call, with the lemmas about them that the components share. *)

From S2P Require Import Prelude.

Local Open Scope Z_scope.

#[global] Arguments String.append !_ _ / : simpl nomatch.

(** ** Bytes *)

Definition byte_val (c : ascii) : Z := Z.of_N (N_of_ascii c).
Definition byte_of (z : Z) : ascii := ascii_of_N (Z.to_N z).

Lemma byte_val_range c : 0 <= byte_val c < 256.
Proof. unfold byte_val. pose proof (N_ascii_bounded c). lia. Qed.

Lemma byte_of_val c : byte_of (byte_val c) = c.
Proof. unfold byte_of, byte_val. rewrite N2Z.id. apply ascii_N_embedding. Qed.

Lemma byte_val_of z : 0 <= z < 256 -> byte_val (byte_of z) = z.
Proof. intros H. unfold byte_of, byte_val. rewrite N_ascii_embedding; lia. Qed.

Lemma byte_val_inj c d : byte_val c = byte_val d -> c = d.
Proof. intros H. by rewrite <- (byte_of_val c), H, byte_of_val. Qed.

(** ** Slices of strings *)

Abbreviation slen := String.length.

Definition newline : string := String "010" "".

Fixpoint stake (n : nat) (s : string) : string :=
  match n, s with
  | S n, String c s => String c (stake n s)
  | _, _ => EmptyString
  end.

Fixpoint sdrop (n : nat) (s : string) : string :=
  match n, s with
  | S n, String _ s => sdrop n s
  | _, _ => s
  end.

(** [s[lo:hi]] *)
Definition slice (lo hi : nat) (s : string) : string := stake (hi - lo) (sdrop lo s).

Fixpoint sget (n : nat) (s : string) : option ascii :=
  match n, s with
  | _, EmptyString => None
  | O, String c _ => Some c
  | S n, String _ s => sget n s
  end.

Lemma slen_app s t : slen (s ++ t)%string = (slen s + slen t)%nat.
Proof. induction s; simpl; [done|lia]. Qed.

Lemma app_assoc_s (s t u : string) : (s ++ (t ++ u) = (s ++ t) ++ u)%string.
Proof. induction s; simpl; [done|]. by f_equal. Qed.

Lemma app_nil_s (s : string) : (s ++ "" = s)%string.
Proof. induction s; simpl; [done|]. by f_equal. Qed.

Lemma app_inv_head_s (s t u : string) : (s ++ t = s ++ u)%string -> t = u.
Proof. induction s; simpl; [done|]. intros [=]. auto. Qed.

Lemma slen_nil s : slen s = 0%nat -> s = ""%string.
Proof. by destruct s. Qed.

Lemma stake_sdrop n s : (stake n s ++ sdrop n s)%string = s.
Proof. revert s. induction n; destruct s; simpl; try done. by f_equal. Qed.

Lemma stake_app s t : stake (slen s) (s ++ t)%string = s.
Proof. induction s; simpl; [by destruct t|]. by f_equal. Qed.

Lemma sdrop_app s t : sdrop (slen s) (s ++ t)%string = t.
Proof. induction s; simpl; done. Qed.

Lemma stake_all n s : (slen s <= n)%nat -> stake n s = s.
Proof.
  revert s. induction n; destruct s; simpl; intros; try done; [lia|].
  f_equal. apply IHn. simpl in *. lia.
Qed.

Lemma slen_stake n s : slen (stake n s) = Nat.min n (slen s).
Proof. revert s. induction n; destruct s; simpl; try done. f_equal. apply IHn. Qed.

Lemma slen_sdrop n s : slen (sdrop n s) = (slen s - n)%nat.
Proof.
  revert s. induction n as [|n IH]; destruct s; simpl; auto with arith.
Qed.

Lemma stake_app_le n s t : (n <= slen s)%nat -> stake n (s ++ t)%string = stake n s.
Proof. revert n. induction s; intros [|n] H; simpl in *; try done; [lia|]. f_equal. apply IHs. lia. Qed.

Lemma stake_app_add n s t : stake (slen s + n) (s ++ t)%string = (s ++ stake n t)%string.
Proof. induction s; simpl; [done|]. by f_equal. Qed.

Lemma stake_stake m n s : stake m (stake n s) = stake (Nat.min m n) s.
Proof. revert m s. induction n; intros [|m] [|c s]; simpl; try done. by f_equal. Qed.

Lemma sdrop_all n s : (slen s <= n)%nat -> sdrop n s = ""%string.
Proof. intros H. apply slen_nil. rewrite slen_sdrop. lia. Qed.

Lemma sapp_eq_len a b c d :
  (a ++ b = c ++ d)%string -> slen a = slen c -> a = c /\ b = d.
Proof.
  revert c. induction a as [|x a IH]; intros [|y c]; simpl; try done.
  intros [= -> H] [= L]. by destruct (IH c H L) as [-> ->].
Qed.

(** ** Prefixes and suffixes ([strings.HasPrefix], [HasSuffix], [CutPrefix],
    [TrimPrefix]) *)

Fixpoint has_prefix (s p : string) {struct p} : bool :=
  match p, s with
  | EmptyString, _ => true
  | String a p, String b s => Ascii.eqb a b && has_prefix s p
  | String _ _, EmptyString => false
  end.

Definition has_suffix (s p : string) : bool :=
  (slen p <=? slen s)%nat && String.eqb (sdrop (slen s - slen p) s) p.

Definition cut_prefix (s p : string) : option string :=
  if has_prefix s p then Some (sdrop (slen p) s) else None.

Lemma has_prefix_spec s p : has_prefix s p = true <-> exists t, s = (p ++ t)%string.
Proof.
  revert s. induction p as [|a p IH]; intros s; simpl; [split; eauto|].
  destruct s as [|b s]; [split; [done|by intros [t [=]]]|].
  rewrite andb_true_iff, Ascii.eqb_eq, IH. split.
  - intros [-> [t ->]]. by exists t.
  - intros [t [= -> ->]]. eauto.
Qed.

Lemma has_prefix_app p t : has_prefix (p ++ t)%string p = true.
Proof. apply has_prefix_spec. eauto. Qed.

Lemma has_suffix_spec s p : has_suffix s p = true <-> exists t, s = (t ++ p)%string.
Proof.
  unfold has_suffix. rewrite andb_true_iff, Nat.leb_le, String.eqb_eq. split.
  - intros [L E]. exists (stake (slen s - slen p) s). rewrite <- E at 2.
    by rewrite stake_sdrop.
  - intros [t ->]. rewrite slen_app. split; [lia|].
    replace (slen t + slen p - slen p)%nat with (slen t) by lia. apply sdrop_app.
Qed.

Lemma cut_prefix_Some s p t : cut_prefix s p = Some t <-> s = (p ++ t)%string.
Proof.
  unfold cut_prefix. destruct (has_prefix s p) eqn:E.
  - apply has_prefix_spec in E as [u ->]. rewrite sdrop_app. split; [by intros [= ->]|].
    intros H. f_equal. by eapply app_inv_head_s.
  - split; [done|]. intros ->. by rewrite has_prefix_app in E.
Qed.

(** [strings.Contains] *)
Fixpoint contains (s sub : string) : bool :=
  has_prefix s sub ||
  match s with EmptyString => false | String _ s' => contains s' sub end.

Lemma contains_spec s sub :
  contains s sub = true <-> exists a b, s = (a ++ sub ++ b)%string.
Proof.
  induction s as [|c s IH]; cbn [contains]; rewrite orb_true_iff, has_prefix_spec.
  - split; [|intros (a & b & H); left; exists b; destruct a; done].
    intros [[t E]|?]; [|done]. exists ""%string, t. done.
  - rewrite IH. split.
    + intros [[t E]|(a & b & ->)]; [by exists ""%string, t|].
      by exists (String c a), b.
    + intros ([|c' a] & b & E); [left; eauto|]. right. injection E as -> ->. eauto.
Qed.

(** [strings.Cut s sep] for a one-byte separator. *)
Fixpoint cut_at (c : ascii) (s : string) : option (string * string) :=
  match s with
  | EmptyString => None
  | String d s' =>
      if Ascii.eqb c d then Some (""%string, s')
      else match cut_at c s' with
           | Some (a, b) => Some (String d a, b)
           | None => None
           end
  end.

Lemma cut_at_Some c s a b : cut_at c s = Some (a, b) -> s = (a ++ String c b)%string.
Proof.
  revert a. induction s as [|d s IH]; simpl; [done|]. intros a.
  destruct (Ascii.eqb_spec c d) as [->|]; [by intros [= <- <-]|].
  destruct (cut_at c s) as [[a' b']|]; [|done]. intros [= <- <-]. simpl.
  by rewrite (IH a').
Qed.

(** Characters satisfying a predicate throughout. *)
Fixpoint sforall (f : ascii -> bool) (s : string) : bool :=
  match s with EmptyString => true | String c s => f c && sforall f s end.

Lemma sforall_app f s t : sforall f (s ++ t)%string = sforall f s && sforall f t.
Proof. induction s; simpl; [done|]. by rewrite IHs, andb_assoc. Qed.

Fixpoint sfilter (f : ascii -> bool) (s : string) : string :=
  match s with
  | EmptyString => EmptyString
  | String c s => if f c then String c (sfilter f s) else sfilter f s
  end.

Lemma sfilter_all f s : sforall f s = true -> sfilter f s = s.
Proof.
  induction s as [|c s IH]; simpl; [done|]. intros H. apply andb_true_iff in H as [-> H].
  by rewrite IH.
Qed.

(** [strings.ToLower] on ASCII strings. *)
Definition lower_byte (c : ascii) : ascii :=
  let v := byte_val c in
  if (65 <=? v) && (v <=? 90) then byte_of (v + 32) else c.

Fixpoint to_lower (s : string) : string :=
  match s with
  | EmptyString => EmptyString
  | String c s => String (lower_byte c) (to_lower s)
  end.

(** ** [strings.Split] on one byte and [strings.Join] *)

Fixpoint split_on (c : ascii) (s : string) : list string :=
  match s with
  | EmptyString => [""%string]
  | String d s =>
      if Ascii.eqb d c then ""%string :: split_on c s
      else match split_on c s with
           | w :: ws => String d w :: ws
           | [] => [String d ""]
           end
  end.

Fixpoint join (sep : string) (l : list string) : string :=
  match l with
  | [] => ""
  | [w] => w
  | w :: l => (w ++ sep ++ join sep l)%string
  end.

Lemma split_on_cons c s : ∃ w ws, split_on c s = w :: ws.
Proof.
  induction s as [|d s (w & ws & IH)]; simpl; [eauto|].
  destruct (Ascii.eqb d c); [eauto|]. rewrite IH. eauto.
Qed.

Lemma join_cons sep w ws : ws <> [] -> join sep (w :: ws) = (w ++ sep ++ join sep ws)%string.
Proof. by destruct ws. Qed.

Lemma join_split c s : join (String c "") (split_on c s) = s.
Proof.
  induction s as [|d s IH]; simpl; [done|].
  destruct (split_on_cons c s) as (w & ws & E). destruct (Ascii.eqb_spec d c) as [->|N].
  - rewrite E in *. rewrite join_cons by done. by rewrite IH.
  - rewrite E in *. destruct ws as [|x ws]; [by rewrite <- IH|].
    rewrite join_cons in * by done. by rewrite <- IH.
Qed.

(** ** Cutting twice *)

Lemma sdrop_sdrop m n s : sdrop m (sdrop n s) = sdrop (n + m) s.
Proof. revert s. induction n as [|n IH]; intros s; [done|]. destruct s; simpl; [by destruct m|]. apply IH. Qed.

Lemma sget_sdrop m n s : sget m (sdrop n s) = sget (n + m) s.
Proof. revert s. induction n as [|n IH]; intros s; [done|]. destruct s; simpl; [by destruct m|]. apply IH. Qed.

Lemma sdrop_app_le n s t : (n <= slen s)%nat -> sdrop n (s ++ t)%string = (sdrop n s ++ t)%string.
Proof. revert s. induction n as [|n IH]; intros s; [done|]. destruct s; simpl; [lia|]. intros L. apply IH. lia. Qed.

Lemma stake_add m n s : stake (m + n) s = (stake m s ++ stake n (sdrop m s))%string.
Proof. revert s. induction m as [|m IH]; intros s; [done|]. destruct s; simpl; [by destruct n|]. by rewrite IH. Qed.

Lemma sdrop_stake m n s : sdrop m (stake n s) = stake (n - m) (sdrop m s).
Proof.
  revert n s. induction m as [|m IH]; intros n s; [by rewrite Nat.sub_0_r|]. destruct n as [|n]; [done|].
  destruct s; simpl; [by destruct (n - m)%nat|apply IH].
Qed.

Lemma sget_stake i n s : (i < n)%nat -> sget i (stake n s) = sget i s.
Proof. revert n s. induction i as [|i IH]; intros [|n] [|c s]; simpl; intros L; try done; try lia. apply IH. lia. Qed.

Lemma sget_app_l i s t : (i < slen s)%nat -> sget i (s ++ t)%string = sget i s.
Proof. revert s. induction i as [|i IH]; intros [|c s]; simpl; intros L; try done; try lia. apply IH. lia. Qed.

(** ** Lengths as [int64] *)

Definition zlen (s : string) : Z := Z.of_nat (slen s).

Lemma zlen_app s t : zlen (s ++ t) = (zlen s + zlen t)%Z.
Proof. unfold zlen. rewrite slen_app. lia. Qed.

Lemma zlen_cons c s : (zlen (String c s) = zlen s + 1)%Z.
Proof. unfold zlen. simpl String.length. lia. Qed.
Lemma zlen_nonneg s : (0 <= zlen s)%Z.
Proof. unfold zlen. lia. Qed.
