(* ===== verification/GoUtf8.v ===== *)
(** Go's [unicode/utf8] decoding, and the Unicode-aware [strings.TrimSpace]
    built on it.  [decode_rune] follows [utf8.DecodeRune]: an invalid or
    truncated encoding yields [(RuneError, 1)], an empty input [(RuneError, 0)]. *)

From S2P Require Import Prelude GoStrings.

Local Open Scope Z_scope.

Definition rune_error : Z := 65533.
Definition utf_max : nat := 4.
Definition rune_self : Z := 128.

(** What a lead byte promises: the length of the encoding and the range of
    the second byte (Go's [first] and [acceptRanges] tables). *)
Definition lead_info (b0 : Z) : option (nat * Z * Z) :=
  if (194 <=? b0) && (b0 <=? 223) then Some (2%nat, 128, 191)
  else if b0 =? 224 then Some (3%nat, 160, 191)
  else if b0 =? 237 then Some (3%nat, 128, 159)
  else if (225 <=? b0) && (b0 <=? 239) then Some (3%nat, 128, 191)
  else if b0 =? 240 then Some (4%nat, 144, 191)
  else if (241 <=? b0) && (b0 <=? 243) then Some (4%nat, 128, 191)
  else if b0 =? 244 then Some (4%nat, 128, 143)
  else None.

Definition in_range (lo hi b : Z) : bool := (lo <=? b) && (b <=? hi).
Definition is_cont (b : Z) : bool := in_range 128 191 b.
Definition low6 (b : Z) : Z := Z.land b 63.

Definition decode_rune (s : string) : Z * nat :=
  match s with
  | EmptyString => (rune_error, 0%nat)
  | String c0 s1 =>
    let b0 := byte_val c0 in
    if b0 <? rune_self then (b0, 1%nat) else
    match lead_info b0, s1 with
    | Some (sz, lo, hi), String c1 s2 =>
      let b1 := byte_val c1 in
      if negb (in_range lo hi b1) then (rune_error, 1%nat) else
      if (sz =? 2)%nat then (Z.lor (Z.shiftl (Z.land b0 31) 6) (low6 b1), 2%nat) else
      match s2 with
      | EmptyString => (rune_error, 1%nat)
      | String c2 s3 =>
        let b2 := byte_val c2 in
        if negb (is_cont b2) then (rune_error, 1%nat) else
        if (sz =? 3)%nat
        then (Z.lor (Z.lor (Z.shiftl (Z.land b0 15) 12) (Z.shiftl (low6 b1) 6)) (low6 b2), 3%nat) else
        match s3 with
        | EmptyString => (rune_error, 1%nat)
        | String c3 _ =>
          let b3 := byte_val c3 in
          if negb (is_cont b3) then (rune_error, 1%nat) else
          (Z.lor (Z.lor (Z.lor (Z.shiftl (Z.land b0 7) 18) (Z.shiftl (low6 b1) 12))
                        (Z.shiftl (low6 b2) 6)) (low6 b3), 4%nat)
        end
      end
    | _, _ => (rune_error, 1%nat)
    end
  end.

(** [utf8.RuneStart] and [utf8.FullRune]. *)
Definition rune_start (b : Z) : bool := negb (Z.land b 192 =? 128).

Definition full_rune (s : string) : bool :=
  match s with
  | EmptyString => false
  | String c0 s1 =>
    match lead_info (byte_val c0) with
    | None => true                      (* ASCII or an invalid lead: size 1 *)
    | Some (sz, lo, hi) =>
      if (sz <=? slen s)%nat then true else
      match s1 with
      | EmptyString => false
      | String c1 s2 =>
        if negb (in_range lo hi (byte_val c1)) then true else
        match s2 with
        | EmptyString => false
        | String c2 _ => negb (is_cont (byte_val c2))
        end
      end
    end
  end.

(** [utf8.ValidString]: no position decodes to an error of size one. *)
Fixpoint valid_string_fuel (fuel : nat) (s : string) : bool :=
  match fuel, s with
  | _, EmptyString => true
  | O, _ => false
  | S n, _ =>
    let '(r, k) := decode_rune s in
    if (r =? rune_error) && (k =? 1)%nat then false
    else valid_string_fuel n (sdrop k s)
  end.
Definition valid_string (s : string) : bool := valid_string_fuel (slen s) s.

(** [[]rune(s)]: the runes of a string, errors as [RuneError]. *)
Fixpoint runes_fuel (fuel : nat) (s : string) : list Z :=
  match fuel, s with
  | _, EmptyString => []
  | O, _ => []
  | S n, _ => let '(r, k) := decode_rune s in r :: runes_fuel n (sdrop k s)
  end.
Definition runes (s : string) : list Z := runes_fuel (slen s) s.

(** [unicode.IsSpace] *)
Definition is_space (r : Z) : bool :=
  in_range 9 13 r || (r =? 32) || (r =? 133) || (r =? 160) || (r =? 5760)
  || in_range 8192 8202 r || (r =? 8232) || (r =? 8233) || (r =? 8239)
  || (r =? 8287) || (r =? 12288).

(** [utf8.DecodeLastRuneInString]: the lead byte is searched for at most
    [utf8.UTFMax] bytes back. *)
Definition try_last (s : string) (k : nat) : option (Z * nat) :=
  let i := (slen s - k)%nat in
  if (slen s <? k)%nat then None else
  match sget i s with
  | Some c =>
      if rune_start (byte_val c)
      then let '(r, size) := decode_rune (sdrop i s) in
           Some (if (size =? k)%nat then (r, k) else (rune_error, 1%nat))
      else None
  | None => None
  end.

Definition decode_last_rune (s : string) : Z * nat :=
  match sget (slen s - 1) s with
  | None => (rune_error, 0%nat)
  | Some c =>
      if byte_val c <? rune_self then (byte_val c, 1%nat)
      else match try_last s 2, try_last s 3, try_last s 4 with
           | Some d, _, _ => d
           | None, Some d, _ => d
           | None, None, Some d => d
           | None, None, None => (rune_error, 1%nat)
           end
  end.

(** [strings.TrimSpace] = trim the space runes on the left, then on the right. *)
Fixpoint trim_left_fuel (fuel : nat) (s : string) : string :=
  match fuel with
  | O => s
  | S n =>
    match s with
    | EmptyString => EmptyString
    | _ => let '(r, k) := decode_rune s in
           if is_space r then trim_left_fuel n (sdrop k s) else s
    end
  end.
Definition trim_left (s : string) : string := trim_left_fuel (slen s) s.

Fixpoint trim_right_fuel (fuel : nat) (s : string) : string :=
  match fuel with
  | O => s
  | S n =>
    match s with
    | EmptyString => EmptyString
    | _ => let '(r, k) := decode_last_rune s in
           if is_space r then trim_right_fuel n (stake (slen s - k) s) else s
    end
  end.
Definition trim_right (s : string) : string := trim_right_fuel (slen s) s.

Definition trim_space (s : string) : string := trim_right (trim_left s).

(** [strings.Fields]: the maximal runs of non-space runes. *)
Fixpoint fields_fuel (fuel : nat) (s cur : string) : list string :=
  let flush rest := if String.eqb cur "" then rest else cur :: rest in
  match fuel, s with
  | _, EmptyString => flush []
  | O, _ => []
  | S n, _ =>
    let '(r, k) := decode_rune s in
    if is_space r then flush (fields_fuel n (sdrop k s) "")
    else fields_fuel n (sdrop k s) (cur ++ stake k s)
  end.
Definition fields (s : string) : list string := fields_fuel (slen s) s "".

(** [strings.ToLower s == target] for an ASCII [target]: outside ASCII only
    U+0130 and the Kelvin sign have an ASCII lower case. *)
Definition lower_rune (r : Z) : Z :=
  if in_range 65 90 r then r + 32
  else if r =? 304 then 105
  else if r =? 8490 then 107
  else r.
Definition lower_is (s target : string) : bool :=
  bool_decide (map lower_rune (runes s) = runes target).

(** [strings.EqualFold s target] for a lower-case ASCII [target]: simple
    folding adds the long s and the Kelvin sign to the ASCII letters. *)
Definition fold_rune (r : Z) : Z :=
  if in_range 65 90 r then r + 32
  else if r =? 383 then 115
  else if r =? 8490 then 107
  else r.
Definition equal_fold (s target : string) : bool :=
  bool_decide (map fold_rune (runes s) = runes target).

(** ** Lemmas *)

Ltac case_all := repeat match goal with
  | |- context [match ?x with _ => _ end] => destruct x eqn:?
  end.

Lemma decode_rune_size s : s <> ""%string -> (1 <= snd (decode_rune s) <= 4)%nat.
Proof.
  destruct s as [|c s]; [done|]. intros _. unfold decode_rune.
  case_all; simpl; lia.
Qed.

Lemma decode_rune_le s : (snd (decode_rune s) <= slen s)%nat.
Proof. destruct s as [|c s]; [done|]. unfold decode_rune. case_all; simpl; lia. Qed.

(** A non-empty prefix decodes to the same rune or to an error. *)
Lemma decode_rune_prefix u v :
  u <> ""%string ->
  decode_rune u = decode_rune (u ++ v)%string \/ decode_rune u = (rune_error, 1%nat).
Proof.
  destruct u as [|c0 u]; [done|]. intros _. simpl. unfold decode_rune.
  destruct (byte_val c0 <? rune_self); [by left|].
  destruct (lead_info (byte_val c0)) as [[[sz lo] hi]|]; [|by left].
  destruct u as [|c1 u]; simpl; [by right|].
  destruct (negb (in_range lo hi (byte_val c1))); [by left|].
  destruct (sz =? 2)%nat; [by left|].
  destruct u as [|c2 u]; simpl; [by right|].
  destruct (negb (is_cont (byte_val c2))); [by left|].
  destruct (sz =? 3)%nat; [by left|].
  destruct u as [|c3 u]; simpl; [by right|]. by left.
Qed.

Lemma is_space_rune_error : is_space rune_error = false.
Proof. reflexivity. Qed.

Definition head_ok (s : string) : Prop :=
  s = ""%string \/ is_space (fst (decode_rune s)) = false.
Definition last_ok (s : string) : Prop :=
  s = ""%string \/ is_space (fst (decode_last_rune s)) = false.

Lemma trim_left_fuel_ok n s : (slen s <= n)%nat -> head_ok (trim_left_fuel n s).
Proof.
  revert s. induction n as [|n IH]; intros s L.
  { left. simpl. apply slen_nil. lia. }
  destruct s as [|c s]; [by left|]. cbn [trim_left_fuel].
  destruct (decode_rune (String c s)) as [r k] eqn:E.
  destruct (is_space r) eqn:Sp; [|right; by rewrite E].
  apply IH. rewrite slen_sdrop.
  pose proof (decode_rune_size (String c s) ltac:(done)) as H. rewrite E in H. simpl in *. lia.
Qed.

Lemma trim_left_id s : head_ok s -> trim_left s = s.
Proof.
  intros [->|H]; [done|]. unfold trim_left. destruct s as [|c s]; [done|].
  cbn [String.length trim_left_fuel].
  destruct (decode_rune (String c s)) as [r k]. simpl in H. by rewrite H.
Qed.

Lemma sget_lt n s : (n < slen s)%nat -> is_Some (sget n s).
Proof.
  revert s. induction n; intros [|c s]; simpl; intros L; try lia; [by eexists|].
  apply IHn. lia.
Qed.

Lemma try_last_size s k d : try_last s k = Some d -> (1 <= k)%nat -> (1 <= snd d)%nat.
Proof.
  unfold try_last. intros H L. case_hyp H; simplify_eq/=; lia.
Qed.

Lemma decode_last_size s : s <> ""%string -> (1 <= snd (decode_last_rune s))%nat.
Proof.
  intros H. unfold decode_last_rune.
  destruct (sget_lt (slen s - 1) s) as [c ->]; [destruct s; simpl; [done|lia]|].
  destruct (byte_val c <? rune_self); [done|].
  destruct (try_last s 2) eqn:E2; [exact (try_last_size s 2 _ E2 ltac:(lia))|].
  destruct (try_last s 3) eqn:E3; [exact (try_last_size s 3 _ E3 ltac:(lia))|].
  destruct (try_last s 4) eqn:E4; [exact (try_last_size s 4 _ E4 ltac:(lia))|done].
Qed.

Lemma trim_right_fuel_ok n s : (slen s <= n)%nat -> last_ok (trim_right_fuel n s).
Proof.
  revert s. induction n as [|n IH]; intros s L.
  { left. simpl. apply slen_nil. lia. }
  destruct s as [|c s]; [by left|]. cbn [trim_right_fuel].
  destruct (decode_last_rune (String c s)) as [r k] eqn:E.
  destruct (is_space r) eqn:Sp; [|right; by rewrite E].
  apply IH. rewrite slen_stake.
  pose proof (decode_last_size (String c s) ltac:(done)) as H. rewrite E in H. simpl in *. lia.
Qed.

Lemma trim_right_id s : last_ok s -> trim_right s = s.
Proof.
  intros [->|H]; [done|]. unfold trim_right. destruct s as [|c s]; [done|].
  cbn [String.length trim_right_fuel].
  destruct (decode_last_rune (String c s)) as [r k]. simpl in H. by rewrite H.
Qed.

Lemma trim_right_fuel_prefix n s : exists v, s = (trim_right_fuel n s ++ v)%string.
Proof.
  revert s. induction n as [|n IH]; intros s; [exists ""%string; by rewrite app_nil_s|].
  destruct s as [|c s]; [by exists ""%string|]. cbn [trim_right_fuel].
  destruct (decode_last_rune (String c s)) as [r k].
  destruct (is_space r); [|exists ""%string; by rewrite app_nil_s].
  set (t := stake _ _). destruct (IH t) as [v Hv].
  exists (v ++ sdrop (slen (String c s) - k) (String c s))%string.
  rewrite app_assoc_s, <- Hv. unfold t. by rewrite stake_sdrop.
Qed.

Lemma head_ok_prefix u v : head_ok (u ++ v)%string -> head_ok u.
Proof.
  intros H. destruct (decide (u = ""%string)) as [->|Hu]; [by left|]. right.
  destruct (decode_rune_prefix u v Hu) as [E|E]; rewrite E; [|done].
  destruct H as [H|H]; [by destruct u|done].
Qed.

Lemma trim_space_ok s : head_ok (trim_space s) /\ last_ok (trim_space s).
Proof.
  split; [|by apply trim_right_fuel_ok].
  destruct (trim_right_fuel_prefix (slen (trim_left s)) (trim_left s)) as [v Hv].
  apply (head_ok_prefix _ v). unfold trim_space, trim_right. rewrite <- Hv.
  by apply trim_left_fuel_ok.
Qed.

Lemma trim_space_id s : head_ok s -> last_ok s -> trim_space s = s.
Proof. intros H L. unfold trim_space. rewrite (trim_left_id s H). by apply trim_right_id. Qed.

(** Trimming twice is trimming once, for every byte string. *)
Lemma trim_space_idem s : trim_space (trim_space s) = trim_space s.
Proof. destruct (trim_space_ok s). by apply trim_space_id. Qed.

(** Printable ASCII is left alone at both ends. *)
Definition graphic (c : ascii) : bool := in_range 33 126 (byte_val c).

Lemma graphic_val c : graphic c = true -> 33 <= byte_val c <= 126.
Proof. unfold graphic, in_range. intros H. bsplit. lia. Qed.

Lemma graphic_not_space c : graphic c = true -> is_space (byte_val c) = false.
Proof.
  intros H%graphic_val. unfold is_space, in_range.
  repeat (apply orb_false_iff; split); try (apply andb_false_iff); lia.
Qed.

Lemma head_ok_graphic c s : graphic c = true -> head_ok (String c s).
Proof.
  intros H. right. unfold decode_rune, rune_self. pose proof (graphic_val c H).
  destruct (Z.ltb_spec (byte_val c) 128); [|lia]. by apply graphic_not_space.
Qed.

Lemma sget_app s t n : sget (slen s + n) (s ++ t)%string = sget n t.
Proof. induction s; simpl; done. Qed.

Lemma last_ok_graphic s c : graphic c = true -> last_ok (s ++ String c "")%string.
Proof.
  intros H. right. unfold decode_last_rune, rune_self. rewrite slen_app. simpl.
  replace (slen s + 1 - 1)%nat with (slen s + 0)%nat by lia. rewrite sget_app. simpl.
  pose proof (graphic_val c H). destruct (Z.ltb_spec (byte_val c) 128); [|lia].
  by apply graphic_not_space.
Qed.

Lemma trim_space_graphic c s d :
  graphic c = true -> graphic d = true ->
  trim_space (String c (s ++ String d "")) = String c (s ++ String d "").
Proof.
  intros Hc Hd. apply trim_space_id; [by apply head_ok_graphic|].
  apply (last_ok_graphic (String c s) d Hd).
Qed.

#[export] Hint Rewrite trim_space_idem : wanctl.
