(* ===== verification/Utf8Facts.v ===== *)
(** Facts about UTF-8 texts: a valid string is a sequence of runes, can be cut
    before any byte that starts a rune, and is what two valid strings make; and
    what is left of any string that travels as JSON. *)

From S2P Require Import Prelude GoStrings GoUtf8.

Local Open Scope Z_scope.

(** Whether a string starts with something that is not a rune. *)
Definition bad_head (s : string) : bool := let '(r, k) := decode_rune s in (r =? rune_error) && (k =? 1)%nat.

Definition rune_len (s : string) : nat := snd (decode_rune s).

Lemma rune_len_pos s : s ≠ ""%string → (1 <= rune_len s <= 4)%nat.
Proof. apply decode_rune_size. Qed.

Lemma rune_len_le s : (rune_len s <= slen s)%nat.
Proof. apply decode_rune_le. Qed.

(** Induction rune by rune. *)
Lemma rune_ind (P : string → Prop) :
  P ""%string → (∀ s, s ≠ ""%string → P (sdrop (rune_len s) s) → P s) → ∀ s, P s.
Proof.
  intros H0 HS s. remember (slen s) as n eqn:E. revert s E.
  induction n as [n IH] using lt_wf_ind. intros s ->. destruct (decide (s = ""%string)) as [->|N]; [done|].
  apply HS; [done|]. eapply IH; [|reflexivity]. rewrite slen_sdrop. pose proof (rune_len_pos s N). pose proof (rune_len_le s). lia.
Qed.

Lemma valid_fuel_enough n m s : (slen s <= n)%nat → (slen s <= m)%nat → valid_string_fuel n s = valid_string_fuel m s.
Proof.
  revert m s. induction n as [|n IH]; intros m s Ln Lm.
  { rewrite (slen_nil s) by lia. by destruct m. }
  destruct s as [|c s]; [by destruct m|]. destruct m as [|m]; [simpl in *; lia|].
  cbn [valid_string_fuel]. destruct (decode_rune (String c s)) as [r k] eqn:D. case_match; [done|].
  pose proof (rune_len_pos (String c s) ltac:(done)) as K. unfold rune_len in K. rewrite D in K. cbn [snd] in K.
  apply IH; rewrite slen_sdrop; simpl in *; lia.
Qed.

Lemma valid_step s : s ≠ ""%string → valid_string s = negb (bad_head s) && valid_string (sdrop (rune_len s) s).
Proof.
  intros N. destruct s as [|c s]; [done|]. unfold valid_string at 1, bad_head, rune_len. cbn [String.length valid_string_fuel].
  destruct (decode_rune (String c s)) as [r k] eqn:D. cbn [snd]. destruct (_ && _) eqn:B; [done|]. simpl.
  pose proof (rune_len_pos (String c s) N) as K. unfold rune_len in K. rewrite D in K. cbn [snd] in K.
  apply valid_fuel_enough; rewrite slen_sdrop; simpl; lia.
Qed.

(** A good head is a good head of anything that begins with it, and its own. *)
Lemma decode_app s t : s ≠ ""%string → bad_head s = false → decode_rune (s ++ t) = decode_rune s.
Proof.
  intros N B. destruct (decode_rune_prefix s t N) as [->|E]; [done|]. unfold bad_head in B. rewrite E in B. done.
Qed.

Lemma decode_head s : decode_rune (stake (rune_len s) s) = decode_rune s.
Proof.
  unfold rune_len. destruct s as [|c0 s]; [done|]. unfold decode_rune.
  repeat (case_match; simpl in *; simplify_eq; try done).
  all: repeat match goal with H : ?b = _ |- context [?b] => rewrite H end; try done.
Qed.

(** The bytes of a rune after the first do not start one. *)
Lemma lead_info_range b sz lo hi : lead_info b = Some (sz, lo, hi) → (2 <= sz <= 4)%nat ∧ 128 <= lo ∧ hi <= 191.
Proof. unfold lead_info. repeat (case_match; try done); intros [= <- <- <-]; lia. Qed.

(** A fact of every byte, checked on each. *)
Lemma byte_all (f : Z → bool) : forallb (λ n, f (Z.of_nat n)) (seq 0 256) = true → ∀ c, f (byte_val c) = true.
Proof.
  intros H c. rewrite forallb_forall in H. pose proof (byte_val_range c) as R.
  replace (byte_val c) with (Z.of_nat (Z.to_nat (byte_val c))) by lia. apply H. apply in_seq. lia.
Qed.

Lemma cont_not_start c : 128 <= byte_val c <= 191 → rune_start (byte_val c) = false.
Proof.
  intros H. pose proof (byte_all (λ b, negb (in_range 128 191 b) || negb (rune_start b)) ltac:(vm_compute; reflexivity) c) as B.
  cbn beta in B. unfold in_range in B. rewrite (proj2 (Z.leb_le _ _)), (proj2 (Z.leb_le _ _)) in B by lia.
  by destruct (rune_start (byte_val c)).
Qed.

Lemma tail_not_start s i c :
  bad_head s = false → (0 < i < rune_len s)%nat → sget i s = Some c → rune_start (byte_val c) = false.
Proof.
  unfold bad_head, rune_len. destruct s as [|c0 s]; [simpl; lia|]. unfold decode_rune.
  destruct (byte_val c0 <? rune_self); [simpl; lia|].
  destruct (lead_info (byte_val c0)) as [[[sz lo] hi]|] eqn:L; [|simpl; lia]. apply lead_info_range in L.
  destruct s as [|c1 s]; [simpl; lia|]. unfold in_range, is_cont, in_range.
  destruct (negb ((lo <=? byte_val c1) && _)) eqn:R1; [simpl; lia|]. apply negb_false_iff in R1. bsplit.
  destruct (sz =? 2)%nat.
  { simpl. intros _ Hi. assert (i = 1)%nat as -> by lia. intros [= <-]. apply cont_not_start. lia. }
  destruct s as [|c2 s]; [simpl; lia|].
  destruct (negb (_ && _)) eqn:R2; [simpl; lia|]. apply negb_false_iff in R2. bsplit.
  destruct (sz =? 3)%nat.
  { simpl. intros _ Hi. assert (i = 1 ∨ i = 2)%nat as [-> | ->] by lia; intros [= <-]; apply cont_not_start; lia. }
  destruct s as [|c3 s]; [simpl; lia|].
  destruct (negb (_ && _)) eqn:R3; [simpl; lia|]. apply negb_false_iff in R3. bsplit.
  simpl. intros _ Hi. assert (i = 1 ∨ i = 2 ∨ i = 3)%nat as [-> | [-> | ->]] by lia; intros [= <-]; apply cont_not_start; lia.
Qed.

Lemma bad_head_rune s : bad_head (stake (rune_len s) s) = bad_head s.
Proof. unfold bad_head. by rewrite decode_head. Qed.

Lemma bad_head_app s t : s ≠ ""%string → bad_head s = false → bad_head (s ++ t) = false.
Proof. intros N B. unfold bad_head. by rewrite decode_app. Qed.

Lemma valid_app s t : valid_string s = true → valid_string t = true → valid_string (s ++ t) = true.
Proof.
  induction s as [|s N IH] using rune_ind; [done|]. intros V T. rewrite valid_step in V by done. bsplit.
  rewrite valid_step by (by destruct s). rewrite bad_head_app by done. simpl.
  assert (rune_len (s ++ t) = rune_len s) as -> by (unfold rune_len; by rewrite decode_app).
  rewrite sdrop_app_le by apply rune_len_le. by apply IH.
Qed.

(** Where a valid text may be cut. *)
Definition at_rune (e : nat) (s : string) : Prop := (slen s <= e)%nat ∨ ∃ c, sget e s = Some c ∧ rune_start (byte_val c) = true.

Lemma valid_cut s e :
  valid_string s = true → at_rune e s → valid_string (stake e s) = true ∧ valid_string (sdrop e s) = true.
Proof.
  revert e. induction s as [|s N IH] using rune_ind; [by intros []|]. intros e V C. pose proof V as V'.
  rewrite valid_step in V by done. bsplit. pose proof (rune_len_pos s N) as P. pose proof (rune_len_le s) as L.
  destruct (decide (e = 0%nat)) as [->|Ne]; [by destruct s|].
  destruct (decide (e < rune_len s)%nat) as [Lt|Ge].
  { destruct C as [C|(c & G & S)]; [lia|]. rewrite (tail_not_start s e c) in S; [done|done|lia|done]. }
  destruct (IH (e - rune_len s)%nat) as [V1 V2]; [done| |].
  { destruct C as [C|(c & G & S)]; [left; rewrite slen_sdrop; lia|]. right. exists c. split; [|done].
    rewrite sget_sdrop. by replace (rune_len s + (e - rune_len s))%nat with e by lia. }
  rewrite sdrop_sdrop in V2. replace (rune_len s + (e - rune_len s))%nat with e in V2 by lia. split; [|done].
  replace (stake e s) with (stake (rune_len s) s ++ stake (e - rune_len s) (sdrop (rune_len s) s))%string.
  - apply valid_app; [|done]. destruct (decide (stake (rune_len s) s = ""%string)) as [->|N']; [done|].
    rewrite valid_step, bad_head_rune by done. unfold rune_len at 1. rewrite decode_head. fold (rune_len s).
    rewrite sdrop_all by (rewrite slen_stake; lia). by rewrite H.
  - replace e with (rune_len s + (e - rune_len s))%nat at 2 by lia. by rewrite stake_add.
Qed.

Lemma good_head_start c s : bad_head (String c s) = false → rune_start (byte_val c) = true.
Proof.
  intros B. pose proof (byte_all (λ b, (negb (b <? 128) && match lead_info b with None => true | _ => false end) || rune_start b)
    ltac:(vm_compute; reflexivity) c) as A. cbn beta in A.
  unfold bad_head, decode_rune, rune_self in B. destruct (byte_val c <? 128); [done|].
  destruct (lead_info (byte_val c)); [done|]. done.
Qed.

Lemma valid_head_start c s : valid_string (String c s) = true → rune_start (byte_val c) = true.
Proof. intros V. rewrite valid_step in V by done. bsplit. by eapply good_head_start. Qed.

(** Within four bytes of any byte of a valid text a rune starts. *)
Lemma start_near s i :
  valid_string s = true → (i < slen s)%nat → ∃ b c, (b <= i <= b + 3)%nat ∧ sget b s = Some c ∧ rune_start (byte_val c) = true.
Proof.
  revert i. induction s as [|s N IH] using rune_ind; [simpl; lia|]. intros i V L.
  pose proof V as V'. rewrite valid_step in V by done. bsplit. pose proof (rune_len_pos s N).
  destruct (decide (i < rune_len s)%nat) as [Lt|Ge].
  - destruct s as [|c s]; [done|]. exists 0%nat, c. split; [lia|]. split; [done|]. by eapply valid_head_start.
  - destruct (IH (i - rune_len s)%nat) as (b & c & R & G & S); [done|rewrite slen_sdrop; lia|].
    exists (rune_len s + b)%nat, c. rewrite sget_sdrop in G. split; [lia|done].
Qed.

(** A rune cut short is not full. *)
Lemma full_rune_short s n : bad_head s = false → (0 < n < rune_len s)%nat → full_rune (stake n s) = false.
Proof.
  unfold bad_head, rune_len. destruct s as [|c0 s]; [simpl; lia|]. unfold decode_rune.
  destruct (byte_val c0 <? rune_self); [simpl; lia|].
  destruct (lead_info (byte_val c0)) as [[[sz lo] hi]|] eqn:L; [|simpl; lia]. pose proof (lead_info_range _ _ _ _ L).
  destruct s as [|c1 s]; [simpl; lia|].
  destruct (negb (in_range lo hi (byte_val c1))) eqn:R1; [simpl; lia|].
  destruct (Nat.eqb_spec sz 2) as [->|N2].
  { simpl. intros _ Hn. assert (n = 1)%nat as -> by lia. simpl. by rewrite L. }
  destruct s as [|c2 s]; [simpl; lia|]. destruct (negb (is_cont (byte_val c2))) eqn:R2; [simpl; lia|].
  destruct (Nat.eqb_spec sz 3) as [->|N3].
  { simpl. intros _ Hn. assert (n = 1 ∨ n = 2)%nat as [-> | ->] by lia; simpl; rewrite L; simpl; [done|]. by rewrite R1. }
  destruct s as [|c3 s]; [simpl; lia|]. assert (sz = 4)%nat as -> by lia. destruct (negb (is_cont (byte_val c3))); [simpl; lia|].
  simpl. intros _ Hn. assert (n = 1 ∨ n = 2 ∨ n = 3)%nat as [-> | [-> | ->]] by lia; simpl; rewrite L; simpl; rewrite ?R1, ?R2; done.
Qed.

(** After a rune of a valid text comes another, or the end. *)
Lemma after_rune s : valid_string s = true → s ≠ ""%string → at_rune (rune_len s) s.
Proof.
  intros V N. rewrite valid_step in V by done. bsplit. destruct (sdrop (rune_len s) s) as [|c t] eqn:E.
  - left. apply (f_equal String.length) in E. rewrite slen_sdrop in E. simpl in E. lia.
  - right. exists c. split; [|by eapply valid_head_start].
    replace (rune_len s) with (rune_len s + 0)%nat by lia. by rewrite <- sget_sdrop, E.
Qed.

(** ** Text that went through JSON *)

(** What [json.Unmarshal] gives back of a string that [json.Marshal] wrote: the
    string, where it is UTF-8, with U+FFFD for every other byte. *)
Definition replacement : string := String "239" (String "191" (String "189" "")).

Fixpoint json_text_fuel (fuel : nat) (s : string) : string :=
  match fuel, s with
  | _, EmptyString => ""
  | O, _ => ""
  | S n, _ => (if bad_head s then replacement else stake (rune_len s) s) ++ json_text_fuel n (sdrop (rune_len s) s)
  end.
Definition json_text (s : string) : string := json_text_fuel (slen s) s.

Lemma json_text_fuel_enough n m s : (slen s <= n)%nat → (slen s <= m)%nat → json_text_fuel n s = json_text_fuel m s.
Proof.
  revert m s. induction n as [|n IH]; intros m s Ln Lm.
  { rewrite (slen_nil s) by lia. by destruct m. }
  destruct s as [|c s]; [by destruct m|]. destruct m as [|m]; [simpl in *; lia|].
  pose proof (rune_len_pos (String c s) ltac:(done)) as P. cbn [json_text_fuel]. f_equal. apply IH; rewrite slen_sdrop; simpl in *; lia.
Qed.

Lemma json_text_step s : s ≠ ""%string →
  json_text s = ((if bad_head s then replacement else stake (rune_len s) s) ++ json_text (sdrop (rune_len s) s))%string.
Proof.
  intros N. destruct s as [|c s]; [done|]. unfold json_text at 1. cbn [String.length json_text_fuel]. f_equal.
  pose proof (rune_len_pos (String c s) N) as P. apply json_text_fuel_enough; rewrite slen_sdrop; simpl in *; lia.
Qed.

(** Text that is UTF-8 comes back as it was, and what comes back is UTF-8. *)
Lemma json_text_valid s : valid_string s = true → json_text s = s.
Proof.
  induction s as [|s N IH] using rune_ind; [done|]. intros V. rewrite valid_step in V by done. bsplit.
  rewrite json_text_step by done. rewrite IH by done. destruct (bad_head s); [done|]. apply stake_sdrop.
Qed.

Lemma json_text_is_valid s : valid_string (json_text s) = true.
Proof.
  induction s as [|s N IH] using rune_ind; [done|]. rewrite json_text_step by done. apply valid_app; [|done].
  destruct (bad_head s) eqn:B; [done|]. rewrite valid_step by (pose proof (rune_len_pos s N); pose proof (rune_len_le s); destruct s; [done|]; destruct (rune_len _); [lia|done]).
  rewrite bad_head_rune, B. unfold rune_len at 1. rewrite decode_head. fold (rune_len s). rewrite sdrop_all by (rewrite slen_stake; lia). done.
Qed.

Lemma json_text_idem s : json_text (json_text s) = json_text s.
Proof. apply json_text_valid, json_text_is_valid. Qed.

(** A text of ASCII characters begins with one, and what follows is treated on
    its own. *)
Lemma json_text_ascii c s : byte_val c < 128 → json_text (String c s) = String c (json_text s).
Proof.
  intros L. rewrite json_text_step by done. unfold bad_head, rune_len, decode_rune, rune_self.
  rewrite (proj2 (Z.ltb_lt _ _) L). cbn [snd stake sdrop]. rewrite (proj2 (Z.eqb_neq (byte_val c) rune_error)) by (unfold rune_error; lia). done.
Qed.

Lemma json_text_high c s : 128 <= byte_val c → ∃ d t, json_text (String c s) = String d t ∧ 128 <= byte_val d.
Proof.
  intros L. rewrite json_text_step by done. destruct (bad_head _); [by eexists _, _|].
  pose proof (rune_len_pos (String c s) ltac:(done)) as P. destruct (rune_len (String c s)) as [|k]; [lia|]. cbn [stake]. by eexists _, _.
Qed.
