(* ===== verification/GoCodec.v ===== *)
(** The codecs of Go's standard library the program depends on, executable:
    [encoding/base64] (StdEncoding), [encoding/hex], [crypto/sha256] and
    [unicode/utf16], with the round trips and lengths the components use. *)

From S2P Require Import Prelude GoStrings GoUtf8.

Local Open Scope Z_scope.

(** ** Byte lists *)

Fixpoint bytes_of (s : string) : list Z :=
  match s with EmptyString => [] | String c s => byte_val c :: bytes_of s end.
Fixpoint of_bytes (l : list Z) : string :=
  match l with [] => EmptyString | b :: l => String (byte_of b) (of_bytes l) end.

Lemma slen_of_bytes l : slen (of_bytes l) = length l.
Proof. induction l; simpl; congruence. Qed.

Lemma of_bytes_of s : of_bytes (bytes_of s) = s.
Proof. induction s; simpl; [done|]. by rewrite byte_of_val, IHs. Qed.

(** ** [hex.EncodeToString]: lower case, two digits a byte *)

Definition hex_digit (v : Z) : ascii :=
  if v <? 10 then byte_of (48 + v) else byte_of (87 + v).

Fixpoint hex_encode (s : string) : string :=
  match s with
  | EmptyString => EmptyString
  | String c s =>
      String (hex_digit (byte_val c / 16)) (String (hex_digit (byte_val c mod 16)) (hex_encode s))
  end.

Definition lower_hex_char (c : ascii) : bool :=
  let v := byte_val c in in_range 48 57 v || in_range 97 102 v.

Lemma hex_digit_lower v : 0 <= v < 16 -> lower_hex_char (hex_digit v) = true.
Proof.
  intros H. unfold hex_digit, lower_hex_char, in_range.
  destruct (Z.ltb_spec v 10); rewrite byte_val_of by lia; apply orb_true_iff;
    rewrite !andb_true_iff, !Z.leb_le; lia.
Qed.

Lemma hex_encode_lower s : sforall lower_hex_char (hex_encode s) = true.
Proof.
  induction s as [|c s IH]; simpl; [done|]. pose proof (byte_val_range c).
  rewrite IH, !hex_digit_lower; [done| |]; Z.div_mod_to_equations; lia.
Qed.

Lemma slen_hex_encode s : slen (hex_encode s) = (2 * slen s)%nat.
Proof. induction s; simpl; lia. Qed.

(** ** [base64.StdEncoding] *)

Definition b64_char (v : Z) : ascii :=
  if v <? 26 then byte_of (65 + v)
  else if v <? 52 then byte_of (97 + (v - 26))
  else if v <? 62 then byte_of (48 + (v - 52))
  else if v =? 62 then "+"%char else "/"%char.

Definition b64_value (c : ascii) : option Z :=
  let v := byte_val c in
  if in_range 65 90 v then Some (v - 65)
  else if in_range 97 122 v then Some (v - 97 + 26)
  else if in_range 48 57 v then Some (v - 48 + 52)
  else if v =? 43 then Some 62
  else if v =? 47 then Some 63
  else None.

Fixpoint b64_encode (s : string) : string :=
  match s with
  | EmptyString => EmptyString
  | String a EmptyString =>
      let a := byte_val a in
      String (b64_char (a / 4)) (String (b64_char (a mod 4 * 16)) "==")
  | String a (String b EmptyString) =>
      let a := byte_val a in let b := byte_val b in
      String (b64_char (a / 4)) (String (b64_char (a mod 4 * 16 + b / 16))
        (String (b64_char (b mod 16 * 4)) "="))
  | String a (String b (String c s)) =>
      let a := byte_val a in let b := byte_val b in let c := byte_val c in
      String (b64_char (a / 4)) (String (b64_char (a mod 4 * 16 + b / 16))
        (String (b64_char (b mod 16 * 4 + c / 64)) (String (b64_char (c mod 64)) (b64_encode s))))
  end.

(** Quanta of four; padding only ends the input ([Encoding.decodeQuantum]). *)
Fixpoint b64_quanta (s : string) : option string :=
  match s with
  | EmptyString => Some EmptyString
  | String c0 (String c1 (String c2 (String c3 rest))) =>
    match b64_value c0, b64_value c1 with
    | Some v0, Some v1 =>
      let b0 := byte_of (v0 * 4 + v1 / 16) in
      match b64_value c2 with
      | Some v2 =>
        let b1 := byte_of (v1 mod 16 * 16 + v2 / 4) in
        match b64_value c3 with
        | Some v3 =>
          match b64_quanta rest with
          | Some t => Some (String b0 (String b1 (String (byte_of (v2 mod 4 * 64 + v3)) t)))
          | None => None
          end
        | None => if Ascii.eqb c3 "=" && String.eqb rest "" then Some (String b0 (String b1 "")) else None
        end
      | None => if Ascii.eqb c2 "=" && Ascii.eqb c3 "=" && String.eqb rest "" then Some (String b0 "") else None
      end
    | _, _ => None
    end
  | _ => None
  end.

Definition not_newline (c : ascii) : bool :=
  negb ((byte_val c =? 10) || (byte_val c =? 13)).

(** [DecodeString] skips line breaks wherever they are. *)
Definition b64_decode (s : string) : option string := b64_quanta (sfilter not_newline s).

Lemma b64_char_facts v :
  0 <= v < 64 ->
  b64_value (b64_char v) = Some v /\ graphic (b64_char v) = true.
Proof.
  intros H.
  assert (Hall : forallb (fun i => let v := Z.of_nat i in
      bool_decide (b64_value (b64_char v) = Some v) && graphic (b64_char v)) (seq 0 64) = true)
    by (vm_compute; reflexivity).
  rewrite forallb_forall in Hall. specialize (Hall (Z.to_nat v)).
  rewrite in_seq in Hall. specialize (Hall ltac:(lia)). cbv zeta in Hall.
  rewrite Z2Nat.id in Hall by lia. by bsplit.
Qed.

Lemma str_ind3 (P : string -> Prop) :
  P ""%string -> (forall a, P (String a "")) -> (forall a b, P (String a (String b ""))) ->
  (forall a b c s, P s -> P (String a (String b (String c s)))) -> forall s, P s.
Proof.
  intros H0 H1 H2 H3 s. remember (slen s) as n eqn:E. revert s E.
  induction (lt_wf n) as [n _ IH]. intros [|a [|b [|c s]]] ->; auto.
  apply H3. eapply IH; [|done]. simpl. lia.
Qed.

Ltac b64_bounds a := pose proof (byte_val_range a).

Lemma b64_quanta_encode s : b64_quanta (b64_encode s) = Some s.
Proof.
  induction s as [|a|a b|a b c s IH] using str_ind3; [done|..];
    cbn [b64_encode]; b64_bounds a; try b64_bounds b; try b64_bounds c;
    cbn [b64_quanta];
    repeat match goal with |- context [b64_value (b64_char ?v)] =>
      rewrite (proj1 (b64_char_facts v ltac:(Z.div_mod_to_equations; lia))) end;
    cbn -[Z.mul Z.add Z.div Z.modulo].
  - do 2 f_equal. apply byte_val_inj. rewrite byte_val_of; Z.div_mod_to_equations; lia.
  - do 2 f_equal; [|f_equal]; apply byte_val_inj;
      rewrite byte_val_of; Z.div_mod_to_equations; lia.
  - rewrite IH. do 2 f_equal; [|f_equal; [|f_equal]]; apply byte_val_inj;
      rewrite byte_val_of; Z.div_mod_to_equations; lia.
Qed.

Lemma graphic_not_newline c : graphic c = true -> not_newline c = true.
Proof. intros H%graphic_val. unfold not_newline. apply negb_true_iff, orb_false_iff. lia. Qed.

Lemma b64_encode_graphic s : sforall graphic (b64_encode s) = true.
Proof.
  induction s as [|a|a b|a b c s IH] using str_ind3; [done|..];
    cbn [b64_encode sforall]; b64_bounds a; try b64_bounds b; try b64_bounds c;
    repeat match goal with |- context [graphic (b64_char ?v)] =>
      rewrite (proj2 (b64_char_facts v ltac:(Z.div_mod_to_equations; lia))) end; try done.
Qed.

Lemma sforall_impl f g s :
  (forall c, f c = true -> g c = true) -> sforall f s = true -> sforall g s = true.
Proof.
  intros H. induction s as [|c s IH]; simpl; [done|]. intros Hs.
  apply andb_true_iff in Hs as [? ?]. by rewrite H, IH.
Qed.

Lemma b64_decode_encode s : b64_decode (b64_encode s) = Some s.
Proof.
  unfold b64_decode. rewrite sfilter_all; [apply b64_quanta_encode|].
  eapply sforall_impl; [apply graphic_not_newline|apply b64_encode_graphic].
Qed.

(** ** [unicode/utf16] *)

Definition utf16_units (r : Z) : list Z :=
  if in_range 55296 57343 r || negb (in_range 0 1114111 r) then [rune_error]
  else if r <? 65536 then [r]
  else [55296 + (r - 65536) / 1024; 56320 + (r - 65536) mod 1024].

(** [utf16LE] of script.go: [utf16.Encode([]rune(s))], little-endian. *)
Definition utf16LE (s : string) : string :=
  of_bytes (List.flat_map (fun u => [u mod 256; u / 256]) (List.flat_map utf16_units (runes s))).

(** ** [sha256.Sum256] *)

Definition rotr (n x : Z) : Z := wrap32 (Z.lor (Z.shiftr x n) (Z.shiftl x (32 - n))).
Definition big_sigma0 x := Z.lxor (Z.lxor (rotr 2 x) (rotr 13 x)) (rotr 22 x).
Definition big_sigma1 x := Z.lxor (Z.lxor (rotr 6 x) (rotr 11 x)) (rotr 25 x).
Definition small_sigma0 x := Z.lxor (Z.lxor (rotr 7 x) (rotr 18 x)) (Z.shiftr x 3).
Definition small_sigma1 x := Z.lxor (Z.lxor (rotr 17 x) (rotr 19 x)) (Z.shiftr x 10).
Definition sha_ch x y z := Z.lxor (Z.land x y) (Z.land (Z.lxor x (w32 - 1)) z).
Definition sha_maj x y z := Z.lxor (Z.lxor (Z.land x y) (Z.land x z)) (Z.land y z).

Definition sha_k : list Z :=
 [1116352408; 1899447441; 3049323471; 3921009573; 961987163; 1508970993; 2453635748; 2870763221;
  3624381080; 310598401; 607225278; 1426881987; 1925078388; 2162078206; 2614888103; 3248222580;
  3835390401; 4022224774; 264347078; 604807628; 770255983; 1249150122; 1555081692; 1996064986;
  2554220882; 2821834349; 2952996808; 3210313671; 3336571891; 3584528711; 113926993; 338241895;
  666307205; 773529912; 1294757372; 1396182291; 1695183700; 1986661051; 2177026350; 2456956037;
  2730485921; 2820302411; 3259730800; 3345764771; 3516065817; 3600352804; 4094571909; 275423344;
  430227734; 506948616; 659060556; 883997877; 958139571; 1322822218; 1537002063; 1747873779;
  1955562222; 2024104815; 2227730452; 2361852424; 2428436474; 2756734187; 3204031479; 3329325298].

Record sha_state := ShaState { sa : Z; sb : Z; sc : Z; sd : Z; se : Z; sf : Z; sg : Z; sh : Z }.

Definition sha_init : sha_state :=
  ShaState 1779033703 3144134277 1013904242 2773480762 1359893119 2600822924 528734635 1541459225.

Definition sha_round (st : sha_state) (kw : Z * Z) : sha_state :=
  let t1 := wrap32 (sh st + big_sigma1 (se st) + sha_ch (se st) (sf st) (sg st) + fst kw + snd kw) in
  let t2 := wrap32 (big_sigma0 (sa st) + sha_maj (sa st) (sb st) (sc st)) in
  ShaState (wrap32 (t1 + t2)) (sa st) (sb st) (sc st) (wrap32 (sd st + t1)) (se st) (sf st) (sg st).

Definition be32_list (l : list Z) : Z := fold_left (fun acc b => acc * 256 + b) l 0.

Fixpoint sha_words (n : nat) (l : list Z) : list Z :=
  match n with O => [] | S n => be32_list (take 4 l) :: sha_words n (drop 4 l) end.

(** The message schedule, newest word first. *)
Fixpoint sha_extend (n : nat) (w : list Z) : list Z :=
  match n with
  | O => w
  | S n =>
    let at_ i := nth i w 0 in
    sha_extend n (wrap32 (small_sigma1 (at_ 1%nat) + at_ 6%nat + small_sigma0 (at_ 14%nat) + at_ 15%nat) :: w)
  end.

Definition sha_block (st : sha_state) (block : list Z) : sha_state :=
  let w := rev (sha_extend 48 (rev (sha_words 16 block))) in
  let r := fold_left sha_round (combine sha_k w) st in
  ShaState (wrap32 (sa st + sa r)) (wrap32 (sb st + sb r)) (wrap32 (sc st + sc r)) (wrap32 (sd st + sd r))
           (wrap32 (se st + se r)) (wrap32 (sf st + sf r)) (wrap32 (sg st + sg r)) (wrap32 (sh st + sh r)).

Fixpoint sha_blocks (n : nat) (st : sha_state) (l : list Z) : sha_state :=
  match n with O => st | S n => sha_blocks n (sha_block st (take 64 l)) (drop 64 l) end.

Fixpoint be_bytes (n : nat) (x : Z) : list Z :=
  match n with O => [] | S n => be_bytes n (x / 256) ++ [x mod 256] end.

Definition sha_pad (l : list Z) : list Z :=
  let n := Z.of_nat (length l) in
  l ++ [128] ++ repeat 0 (Z.to_nat ((55 - n) mod 64)) ++ be_bytes 8 (8 * n).

Definition sha256 (s : string) : string :=
  let p := sha_pad (bytes_of s) in
  let r := sha_blocks (length p / 64) sha_init p in
  of_bytes (be_bytes 4 (sa r) ++ be_bytes 4 (sb r) ++ be_bytes 4 (sc r) ++ be_bytes 4 (sd r) ++
            be_bytes 4 (se r) ++ be_bytes 4 (sf r) ++ be_bytes 4 (sg r) ++ be_bytes 4 (sh r)).

Lemma sha256_length s : slen (sha256 s) = 32%nat.
Proof. unfold sha256. by rewrite slen_of_bytes. Qed.

(** The FIPS 180-4 test vector. *)
Example sha256_abc : hex_encode (sha256 "abc")
  = "ba7816bf8f01cfea414140de5dae2223b00361a396177a9cb410ff61f20015ad"%string.
Proof. vm_compute. reflexivity. Qed.

Example b64_abcd : b64_encode "abcd" = "YWJjZA=="%string.
Proof. vm_compute. reflexivity. Qed.

(** ** HMAC-SHA256 *)

Definition hmac_pad (v : Z) (key : list Z) : string := of_bytes (map (Z.lxor v) (key ++ repeat 0 (64 - length key))).
Definition hmac_sha256 (key msg : string) : string :=
  let key := bytes_of (if (64 <? slen key)%nat then sha256 key else key) in
  sha256 (hmac_pad 92 key ++ sha256 (hmac_pad 54 key ++ msg)).

Lemma hmac_length key msg : slen (hmac_sha256 key msg) = 32%nat.
Proof. apply sha256_length. Qed.

Example hmac_quick : hex_encode (hmac_sha256 "key" "The quick brown fox jumps over the lazy dog")
  = "f7bc83f430538424b13298e6aa6fb143ef4d59a14946175997479dbc2d1a3cd8"%string.
Proof. vm_compute. reflexivity. Qed.

(** ** [strconv.ParseUint(s, 10, 64)] and [strconv.Atoi] *)

Definition digit_value (c : ascii) : option Z :=
  let z := byte_val c in if (48 <=? z) && (z <=? 57) then Some (z - 48) else None.

Fixpoint digits (acc : Z) (s : string) : option Z :=
  match s with
  | EmptyString => Some acc
  | String c s => match digit_value c with Some d => digits (10 * acc + d) s | None => None end
  end.

Definition ParseUint (s : string) : option Z :=
  if String.eqb s "" then None
  else match digits 0 s with Some n => if n <? 2 ^ 64 then Some n else None | None => None end.

Definition Atoi (s : string) : option Z :=
  match s with
  | String "-" s => match ParseUint s with Some n => if n <=? 2 ^ 63 then Some (- n) else None | None => None end
  | String "+" s | s => match ParseUint s with Some n => if n <? 2 ^ 63 then Some n else None | None => None end
  end.

(** Digests are compared, never computed, in proofs. *)
#[global] Opaque sha256.

(** ** Numbers as strings, for instances of the parameters *)

Fixpoint bits (p : positive) : string :=
  match p with xH => "" | xO p => String "0" (bits p) | xI p => String "1" (bits p) end.
Fixpoint unbits (s : string) : positive :=
  match s with EmptyString => xH | String c s => if Ascii.eqb c "1" then xI (unbits s) else xO (unbits s) end.

Lemma unbits_bits p : unbits (bits p) = p.
Proof. induction p; simpl; by rewrite ?IHp. Qed.
