(* ===== verification/Frames.v ===== *)
(** [internal/protocol/protocol.go]: frames on a byte stream.

    [ReadFrame] reads what [WriteFrame] wrote, frame by frame, whatever follows;
    a stream that breaks off inside a frame yields the frames before it. *)

From S2P Require Import Prelude GoStrings GoCodec.

Local Open Scope Z_scope.

Definition FrameJSON : Z := 1.
Definition FrameStdout : Z := 2.
Definition FrameStderr : Z := 3.
Definition FrameData : Z := 5.
Definition MaxFrame : Z := Z.shiftl 16 20.
Definition MaxFileSize : Z := Z.shiftl 1 30.

(** A frame: its type byte and its payload. *)
Definition frame : Type := Z * string.

Definition header (f : frame) : string := of_bytes (f.1 :: be_bytes 4 (zlen f.2)).

(** [WriteFrame]: the bytes written, unless the payload is too large. *)
Definition WriteFrame (f : frame) : option string :=
  if MaxFrame <? zlen f.2 then None else Some (header f ++ f.2)%string.

Inductive read_frame_error := Closed | TooLarge (n : Z).

(** [ReadFrame]: the next frame and the bytes after it.  The argument is all that
    will ever arrive; [Closed] is the end of the stream, in a frame or not. *)
Definition ReadFrame (b : string) : result read_frame_error (frame * string) :=
  if (slen b <? 5)%nat then Err Closed
  else
    let n := be32_list (bytes_of (slice 1 5 b)) in
    if MaxFrame <? n then Err (TooLarge n)
    else
      let rest := sdrop 5 b in
      if zlen rest <? n then Err Closed
      else Ok ((match b with String c _ => byte_val c | EmptyString => 0 end, stake (Z.to_nat n) rest), sdrop (Z.to_nat n) rest).

(** The frames a reader meets before the end of the stream. *)
Fixpoint frames_fuel (fuel : nat) (b : string) : list frame :=
  match fuel with
  | O => []
  | S fuel => match ReadFrame b with Ok (f, rest) => f :: frames_fuel fuel rest | Err _ => [] end
  end.
Definition frames_of (b : string) : list frame := frames_fuel (slen b) b.

(** The bytes of written frames. *)
Definition frame_bytes (f : frame) : string := header f ++ f.2.
Definition bytes_of_frames (fs : list frame) : string := String.concat "" (frame_bytes <$> fs).

Definition frame_ok (f : frame) : Prop := 0 <= f.1 < 256 ∧ zlen f.2 <= MaxFrame.

Example frames_sample :
  frames_of (bytes_of_frames [(FrameData, "abc"); (FrameJSON, "{}")] ++ "xy")%string = [(FrameData, "abc"%string); (FrameJSON, "{}"%string)].
Proof. vm_compute. reflexivity. Qed.

(** ** Four bytes and their value *)

Lemma be_bytes_length n x : length (be_bytes n x) = n.
Proof. revert x. induction n as [|n IH]; intros x; [done|]. simpl. rewrite length_app, IH. simpl. lia. Qed.

Lemma be_bytes_range n x : Forall (λ b, 0 <= b < 256) (be_bytes n x).
Proof.
  revert x. induction n as [|n IH]; intros x; [done|]. apply Forall_app. split; [apply IH|].
  repeat constructor; pose proof (Z.mod_pos_bound x 256); lia.
Qed.

Lemma be_bytes_value n x : 0 <= x < 256 ^ Z.of_nat n → be32_list (be_bytes n x) = x.
Proof.
  revert x. induction n as [|n IH]; intros x R; [simpl in R; unfold be32_list; simpl; lia|].
  unfold be32_list in *. cbn [be_bytes]. rewrite fold_left_app. cbn [fold_left].
  assert (256 ^ Z.of_nat (S n) = 256 * 256 ^ Z.of_nat n) as P by (rewrite Nat2Z.inj_succ, Z.pow_succ_r; lia).
  rewrite IH; [pose proof (Z.div_mod x 256); lia|]. split; [apply Z.div_pos; lia|]. apply Z.div_lt_upper_bound; lia.
Qed.

Lemma bytes_of_bytes l : Forall (λ b, 0 <= b < 256) l → bytes_of (of_bytes l) = l.
Proof. induction 1 as [|b l R _ IH]; [done|]. simpl. by rewrite byte_val_of, IH. Qed.

Lemma of_bytes_app l m : of_bytes (l ++ m) = (of_bytes l ++ of_bytes m)%string.
Proof. induction l as [|b l IH]; [done|]. simpl. by rewrite IH. Qed.

(** ** Reading what was written *)

Lemma slen_header f : slen (header f) = 5%nat.
Proof. unfold header. rewrite slen_of_bytes. cbn [length]. by rewrite be_bytes_length. Qed.

Lemma MaxFrame_fits : MaxFrame < 256 ^ 4.
Proof. reflexivity. Qed.

#[local] Opaque MaxFrame be_bytes.

Lemma read_header f t :
  frame_ok f → slen (header f ++ t) = (5 + slen t)%nat ∧ be32_list (bytes_of (slice 1 5 (header f ++ t))) = zlen f.2 ∧
  sdrop 5 (header f ++ t) = t ∧ ∃ s, (header f ++ t)%string = String (byte_of f.1) s.
Proof.
  intros [Ty Le]. pose proof (slen_header f) as L. pose proof (zlen_nonneg f.2). pose proof MaxFrame_fits as MF.
  split_and!.
  - rewrite slen_app. lia.
  - set (q := of_bytes (be_bytes 4 (zlen f.2))). assert (slen q = 4%nat) as Lq by (unfold q; by rewrite slen_of_bytes, be_bytes_length).
    change (slice 1 5 (header f ++ t)) with (stake 4 (q ++ t)). rewrite <- Lq, stake_app. unfold q.
    rewrite bytes_of_bytes by apply be_bytes_range. apply be_bytes_value. change (Z.of_nat 4) with 4. lia.
  - rewrite <- L. apply sdrop_app.
  - unfold header. simpl. by eexists.
Qed.

Lemma ReadFrame_written f t : frame_ok f → ReadFrame (frame_bytes f ++ t) = Ok (f, t).
Proof.
  intros O. unfold frame_bytes. rewrite <- app_assoc_s. destruct (read_header f (f.2 ++ t) O) as (L & V & D & s & E).
  destruct O as [Ty Le]. unfold ReadFrame. rewrite L, V, D. destruct (Nat.ltb_spec (5 + slen (f.2 ++ t)) 5); [lia|].
  destruct (Z.ltb_spec MaxFrame (zlen f.2)); [lia|]. rewrite zlen_app. pose proof (zlen_nonneg t).
  destruct (Z.ltb_spec (zlen f.2 + zlen t) (zlen f.2)); [lia|]. rewrite E, byte_val_of by done.
  unfold zlen. rewrite Nat2Z.id, stake_app, sdrop_app. by destruct f.
Qed.

(** A proper beginning of a written frame is not one. *)
Lemma ReadFrame_cut f n : frame_ok f → (n < slen (frame_bytes f))%nat → ReadFrame (stake n (frame_bytes f)) = Err Closed.
Proof.
  intros O L. unfold ReadFrame. rewrite slen_stake, Nat.min_l by lia. destruct (Nat.ltb_spec n 5) as [|Ge]; [done|].
  assert (stake n (frame_bytes f) = header f ++ stake (n - 5) f.2)%string as ->.
  { unfold frame_bytes. replace n with (slen (header f) + (n - 5))%nat at 1 by (rewrite slen_header; lia). apply stake_app_add. }
  destruct (read_header f (stake (n - 5) f.2) O) as (_ & V & D & _). destruct O as [Ty Le]. rewrite V, D.
  destruct (Z.ltb_spec MaxFrame (zlen f.2)); [lia|]. unfold frame_bytes in L. rewrite slen_app, slen_header in L.
  unfold zlen. rewrite slen_stake. destruct (Z.ltb_spec (Z.of_nat (Nat.min (n - 5) (slen f.2))) (Z.of_nat (slen f.2))); [done|lia].
Qed.

Lemma ReadFrame_shorter b f t : ReadFrame b = Ok (f, t) → (slen t + 5 <= slen b)%nat.
Proof.
  unfold ReadFrame. destruct (Nat.ltb_spec (slen b) 5) as [|L]; [done|]. repeat (case_match; [done|]). intros E.
  assert (t = sdrop (Z.to_nat (be32_list (bytes_of (slice 1 5 b)))) (sdrop 5 b)) as -> by congruence. rewrite !slen_sdrop. lia.
Qed.

Lemma frames_fuel_enough n m b : (slen b <= n)%nat → (slen b <= m)%nat → frames_fuel n b = frames_fuel m b.
Proof.
  revert m b. assert (∀ n b, (slen b < 5)%nat → frames_fuel n b = []) as Short.
  { intros k b L. destruct k; [done|]. simpl. unfold ReadFrame. by rewrite (proj2 (Nat.ltb_lt _ _)). }
  induction n as [|n IH]; intros m b Ln Lm; [rewrite !Short; [done|lia..]|].
  destruct m as [|m]; [rewrite !Short; [done|lia..]|]. cbn [frames_fuel]. destruct (ReadFrame b) as [[f t]|] eqn:R; [|done].
  f_equal. apply ReadFrame_shorter in R. apply IH; lia.
Qed.

Lemma frames_of_cons f t : frame_ok f → frames_of (frame_bytes f ++ t) = f :: frames_of t.
Proof.
  intros O. unfold frames_of. assert (5 + slen t <= slen (frame_bytes f ++ t))%nat as L.
  { unfold frame_bytes. rewrite !slen_app, slen_header. lia. }
  destruct (slen (frame_bytes f ++ t)) as [|n] eqn:E; [lia|]. cbn [frames_fuel]. rewrite ReadFrame_written by done.
  f_equal. apply frames_fuel_enough; lia.
Qed.

Lemma bytes_of_frames_cons f fs : bytes_of_frames (f :: fs) = (frame_bytes f ++ bytes_of_frames fs)%string.
Proof. unfold bytes_of_frames. destruct fs; simpl; [by rewrite app_nil_s|done]. Qed.

Lemma frames_of_stake fs n :
  Forall frame_ok fs → ∃ k, (k <= length fs)%nat ∧ frames_of (stake n (bytes_of_frames fs)) = take k fs ∧
    ((slen (bytes_of_frames fs) <= n)%nat → k = length fs).
Proof.
  intros F. revert n. induction F as [|f fs O F IH]; intros n; [by exists 0%nat; destruct n|].
  rewrite bytes_of_frames_cons. destruct (decide (n < slen (frame_bytes f))%nat) as [L|L].
  - exists 0%nat. split; [lia|]. rewrite stake_app_le by lia. split; [|rewrite slen_app; lia]. unfold frames_of.
    destruct (slen (stake n (frame_bytes f))); [done|]. cbn [frames_fuel]. by rewrite ReadFrame_cut.
  - destruct (IH (n - slen (frame_bytes f))%nat) as (k & Lk & E & Full). exists (S k). split; [simpl; lia|].
    replace n with (slen (frame_bytes f) + (n - slen (frame_bytes f)))%nat at 1 by lia.
    rewrite stake_app_add, frames_of_cons, E by done. split; [done|]. rewrite slen_app. intros Le. simpl. f_equal. apply Full. lia.
Qed.

(** Frames arrive as they were written.  From the bytes of any frames within
    the limit, followed by anything, the reader takes exactly those frames and
    leaves the rest; a stream that breaks off anywhere yields the frames that
    were complete and nothing else; and a payload over the limit is refused by
    the writer before a byte is sent. *)
Lemma frames_arrive fs t n :
  Forall frame_ok fs →
  (∀ f, f ∈ fs → WriteFrame f = Some (frame_bytes f)) ∧
  frames_of (bytes_of_frames fs ++ t) = fs ++ frames_of t ∧
  (∃ k, frames_of (stake n (bytes_of_frames fs)) = take k fs) ∧
  ∀ f, MaxFrame < zlen f.2 → WriteFrame f = None.
Proof.
  intros F. split_and!.
  - intros f I. rewrite Forall_forall in F. destruct (F f I) as [_ L]. unfold WriteFrame.
    by destruct (Z.ltb_spec MaxFrame (zlen f.2)); [lia|].
  - induction F as [|f fs O F IH]; [done|]. rewrite bytes_of_frames_cons, <- app_assoc_s, frames_of_cons by done. simpl. by rewrite IH.
  - destruct (frames_of_stake fs n F) as (k & _ & E & _). by exists k.
  - intros f L. unfold WriteFrame. by rewrite (proj2 (Z.ltb_lt _ _)).
Qed.

Lemma frames_arrive_witness :
  Forall frame_ok [(FrameData, "abc"%string)] ∧
  frames_of (bytes_of_frames [(FrameData, "abc"%string)] ++ "x") = [(FrameData, "abc"%string)] ++ frames_of "x".
Proof.
  assert (Forall frame_ok [(FrameData, "abc"%string)]) as F.
  { repeat constructor; simpl; try (unfold FrameData; lia). vm_compute. discriminate. }
  split; [exact F|]. apply (frames_arrive [(FrameData, "abc"%string)] "x" 3 F).
Defined.
