(* ===== verification/GoPath.v ===== *)
(** [path/filepath] on Unix: [Clean], [Dir], [Base], [Join], [Rel], [Ext] and [IsAbs], on the
    components of a path, and the lemma that relates string prefixes of cleaned
    paths to prefixes of component lists. *)

From S2P Require Import Prelude GoStrings.

Local Open Scope Z_scope.

Definition slash : ascii := "/"%char.

Fixpoint split_slash (s : string) : list string :=
  match s with
  | EmptyString => [""%string]
  | String c s' =>
      if Ascii.eqb c slash then ""%string :: split_slash s'
      else match split_slash s' with
           | h :: t => String c h :: t
           | [] => [String c ""]
           end
  end.

Fixpoint join_slash (l : list string) : string :=
  match l with
  | [] => ""
  | [x] => x
  | x :: l => (x ++ String slash (join_slash l))%string
  end.

Definition is_abs (s : string) : bool := has_prefix s "/".

(** One component of [filepath.Clean]'s loop; [stack] holds the kept
    components, last first. *)
Definition clean_step (rooted : bool) (stack : list string) (c : string) : list string :=
  if String.eqb c "" || String.eqb c "." then stack
  else if String.eqb c ".." then
    match stack with
    | [] => if rooted then [] else [".."%string]
    | top :: rest => if String.eqb top ".." then ".."%string :: stack else rest
    end
  else c :: stack.

Definition clean_parts (s : string) : list string :=
  rev (fold_left (clean_step (is_abs s)) (split_slash s) []).

Definition render (rooted : bool) (l : list string) : string :=
  if rooted then String slash (join_slash l)
  else match l with [] => "." | _ => join_slash l end.

Definition clean (s : string) : string := render (is_abs s) (clean_parts s).

(** [filepath.Dir]: clean what precedes the last component. *)
Fixpoint upto_last_slash (s : string) : string :=
  match s with
  | EmptyString => EmptyString
  | String c s' =>
      let r := upto_last_slash s' in
      if Ascii.eqb c slash then String c r
      else if String.eqb r "" then "" else String c r
  end.
Definition dir (s : string) : string := clean (upto_last_slash s).

(** [filepath.Join] of two elements that are not empty. *)
Definition path_join (a b : string) : string := clean (a ++ String slash b).

(** [filepath.Base]: the last component; the slashes at the end are dropped. *)
Definition base (s : string) : string :=
  if String.eqb s "" then "."
  else match rev (filter (λ c, c ≠ ""%string) (split_slash s)) with [] => "/" | c :: _ => c end.

(** [filepath.Ext]: from the last dot of the last component. *)
Fixpoint last_dot (s : string) (acc : string) : string :=
  match s with
  | EmptyString => acc
  | String c s' =>
      if Ascii.eqb c slash then last_dot s' ""
      else if Ascii.eqb c "." then last_dot s' s
      else last_dot s' acc
  end.
Definition ext (s : string) : string := last_dot s "".

(** ** Components of a cleaned path *)

Definition no_slash (s : string) : bool := sforall (fun c => negb (Ascii.eqb c slash)) s.

(** What [Clean] leaves in a component. *)
Definition good_part (s : string) : Prop := no_slash s = true /\ s <> ""%string /\ s <> "."%string.

Lemma split_slash_nonnil s : split_slash s <> [].
Proof. destruct s as [|c s]; simpl; [done|]. destruct (Ascii.eqb c slash); [done|]. by destruct (split_slash s). Qed.

Lemma split_slash_no_slash s : Forall (fun p => no_slash p = true) (split_slash s).
Proof.
  induction s as [|c s IH]; simpl; [by repeat constructor|].
  destruct (Ascii.eqb c slash) eqn:E; [by constructor|].
  destruct (split_slash s) as [|h t]; inversion IH; subst; repeat constructor; auto;
    unfold no_slash; simpl; by rewrite E.
Qed.

Lemma split_slash_part s : no_slash s = true -> split_slash s = [s].
Proof.
  unfold no_slash. induction s as [|c s IH]; simpl; [done|]. intros H.
  apply andb_true_iff in H as [Hc Hs]. apply negb_true_iff in Hc. by rewrite Hc, IH.
Qed.

Lemma split_slash_app a b :
  split_slash (a ++ String slash b)%string = split_slash a ++ split_slash b.
Proof.
  induction a as [|c a IH]; simpl; [done|].
  destruct (Ascii.eqb c slash); [by rewrite IH|]. rewrite IH.
  destruct (split_slash a) eqn:E; [by apply split_slash_nonnil in E|done].
Qed.

Lemma split_join l : l <> [] -> Forall (fun p => no_slash p = true) l -> split_slash (join_slash l) = l.
Proof.
  induction l as [|x l IH]; [done|]. intros _ H. inversion H; subst.
  destruct l as [|y l]; [by apply split_slash_part|].
  change (join_slash (x :: y :: l)) with (x ++ String slash (join_slash (y :: l)))%string.
  rewrite split_slash_app, split_slash_part, IH; done.
Qed.

Lemma join_app l1 l2 :
  l1 <> [] -> l2 <> [] ->
  join_slash (l1 ++ l2) = (join_slash l1 ++ String slash (join_slash l2))%string.
Proof.
  intros H1 H2. induction l1 as [|x l1 IH]; [done|].
  destruct l1 as [|y l1]; [by destruct l2|].
  change ((x :: y :: l1) ++ l2) with (x :: ((y :: l1) ++ l2)).
  change (join_slash (x :: (y :: l1) ++ l2)) with (x ++ String slash (join_slash ((y :: l1) ++ l2)))%string.
  rewrite IH by done.
  change (join_slash (x :: y :: l1)) with (x ++ String slash (join_slash (y :: l1)))%string.
  by rewrite <- app_assoc_s.
Qed.

Lemma clean_step_good rooted stack c :
  no_slash c = true -> Forall good_part stack -> Forall good_part (clean_step rooted stack c).
Proof.
  intros Hc H. unfold clean_step.
  destruct (String.eqb_spec c ""), (String.eqb_spec c "."); simpl; try done.
  destruct (String.eqb_spec c ".."); [|by repeat constructor].
  assert (good_part "..") by (by repeat split).
  destruct stack as [|top rest]; [destruct rooted; by repeat constructor|].
  inversion H; subst. destruct (String.eqb top ".."); [|done]. by constructor.
Qed.

Lemma clean_parts_good s : Forall good_part (clean_parts s).
Proof.
  unfold clean_parts. apply Forall_rev.
  assert (forall l st, Forall (fun p => no_slash p = true) l -> Forall good_part st ->
            Forall good_part (fold_left (clean_step (is_abs s)) l st)) as G.
  { induction l as [|x l IH]; intros st Hl Hst; simpl; [done|]. inversion Hl; subst.
    apply IH; [done|]. by apply clean_step_good. }
  apply G; [apply split_slash_no_slash|constructor].
Qed.

(** A rooted path keeps no [..]. *)
Lemma clean_parts_rooted s : is_abs s = true -> Forall (fun p => p <> ".."%string) (clean_parts s).
Proof.
  intros R. unfold clean_parts. rewrite R. apply Forall_rev.
  assert (forall l st, Forall (fun p => p <> ".."%string) st ->
            Forall (fun p => p <> ".."%string) (fold_left (clean_step true) l st)) as G;
    [|by apply G].
  induction l as [|x l IH]; intros st Hst; simpl; [done|]. apply IH. unfold clean_step.
  destruct (_ || _); [done|]. destruct (String.eqb_spec x ".."); [|by constructor].
  destruct st as [|top rest]; [done|]. inversion Hst; subst.
  by destruct (String.eqb_spec top "..").
Qed.

Lemma good_no_slash l : Forall good_part l -> Forall (fun p => no_slash p = true) l.
Proof. intros H. eapply Forall_impl; [exact H|]. by intros ? [? _]. Qed.

Lemma join_first_slash l x : Forall good_part l -> join_slash l <> String slash x.
Proof.
  intros H E. destruct l as [|h t]; [done|].
  pose proof (f_equal split_slash E) as E'. rewrite split_join in E' by (done || by apply good_no_slash).
  simpl in E'. inversion H as [|? ? (_ & Hne & _)]; subst. by injection E' as -> _.
Qed.

Lemma join_prefix_slash l1 l2 t :
  Forall good_part l1 -> Forall good_part l2 -> l1 <> [] ->
  join_slash l2 = (join_slash l1 ++ String slash t)%string ->
  exists rest, l2 = l1 ++ rest /\ rest <> [].
Proof.
  intros G1 G2 N E. exists (split_slash t). split; [|apply split_slash_nonnil].
  destruct l2 as [|y l2]; [by destruct (join_slash l1)|].
  pose proof (f_equal split_slash E) as E'.
  rewrite split_slash_app, !split_join in E'; (done || by apply good_no_slash).
Qed.

Lemma join_inj l1 l2 :
  Forall good_part l1 -> Forall good_part l2 -> join_slash l1 = join_slash l2 -> l1 = l2.
Proof.
  intros G1 G2 E. destruct l1 as [|x l1], l2 as [|y l2]; try done.
  - exfalso. apply (f_equal split_slash) in E. rewrite (split_join (y :: l2)) in E
      by (done || by apply good_no_slash). inversion G2 as [|? ? (_ & ? & _)]; subst. by injection E.
  - exfalso. apply (f_equal split_slash) in E. rewrite (split_join (x :: l1)) in E
      by (done || by apply good_no_slash). inversion G1 as [|? ? (_ & ? & _)]; subst. by injection E.
  - apply (f_equal split_slash) in E. rewrite !split_join in E; (done || by apply good_no_slash).
Qed.

Lemma good_not_dot x l : Forall good_part (x :: l) -> forall t, join_slash (x :: l) <> ("." ++ String slash t)%string.
Proof.
  intros G t E. pose proof (f_equal split_slash E) as E'.
  rewrite split_join in E' by (done || by apply good_no_slash).
  rewrite split_slash_app in E'. inversion G as [|? ? (_ & _ & Hd)]; subst.
  simpl in E'. by injection E' as -> _.
Qed.

(** The string test of [policy.Within] decides component containment. *)
Lemma render_within r1 l1 r2 l2 :
  Forall good_part l1 -> Forall good_part l2 ->
  ((render r2 l2 = render r1 l1 \/ has_prefix (render r2 l2) (render r1 l1 ++ "/") = true) <->
   r1 = r2 /\ (l2 = l1 \/ l1 <> [] /\ exists rest, l2 = l1 ++ rest /\ rest <> [])).
Proof.
  intros G1 G2. rewrite has_prefix_spec.
  assert (D : forall l, Forall good_part l -> forall x, render false l <> String slash x).
  { intros [|h t] G x; [done|]. by apply (join_first_slash (h :: t)). }
  assert (Dot : forall h t, Forall good_part (h :: t) -> join_slash (h :: t) <> "."%string).
  { intros h t G E. apply (f_equal split_slash) in E. rewrite split_join in E
      by (done || by apply good_no_slash). inversion G as [|? ? (_ & _ & ?)]; subst. by injection E. }
  assert (A : forall (a b : string), (a ++ "/" ++ b)%string = (a ++ String slash b)%string) by done.
  split.
  - intros [E|[t E]].
    + destruct r1, r2; simpl in E.
      * injection E as E. split; [done|]. left. by apply join_inj.
      * by apply (D l2) in E.
      * symmetry in E. by apply (D l1) in E.
      * split; [done|]. left. destruct l1, l2; try done.
        -- by apply Dot in E.
        -- symmetry in E. by apply Dot in E.
        -- by apply join_inj.
    + rewrite <- app_assoc_s, A in E. destruct r1, r2; simpl in E.
      * injection E as E. split; [done|]. right. destruct l1 as [|x l1].
        { by apply join_first_slash in E. }
        split; [done|]. by eapply join_prefix_slash.
      * by apply (D l2) in E.
      * exfalso. destruct l1 as [|x l1]; [done|].
        destruct (join_slash (x :: l1)) eqn:J; [|injection E as <- _; by apply (join_first_slash (x :: l1)) in J].
        apply (f_equal split_slash) in J. rewrite split_join in J
          by (done || by apply good_no_slash). inversion G1 as [|? ? (_ & ? & _)]; subst. by injection J.
      * split; [done|]. destruct l1 as [|x l1].
        { destruct l2 as [|y l2]; [done|]. by apply good_not_dot in E. }
        right. split; [done|]. destruct l2 as [|y l2].
        { exfalso. destruct (join_slash (x :: l1)) as [|c s] eqn:J.
          - apply (f_equal split_slash) in J. rewrite split_join in J
              by (done || by apply good_no_slash). inversion G1 as [|? ? (_ & ? & _)]; subst. by injection J.
          - injection E as _ E. by destruct s. }
        by eapply join_prefix_slash.
  - intros [-> [->|(N & rest & -> & Nr)]]; [by left|]. right. exists (join_slash rest).
    rewrite <- app_assoc_s, A. destruct r2; simpl; rewrite join_app by done; [done|].
    destruct l1; [done|]. destruct rest; [done|]. reflexivity.
Qed.

(** ** Cleaning is idempotent on rooted paths, and [Dir] drops a component *)

Lemma clean_fold_push rooted l st :
  Forall good_part l -> Forall (fun p => p <> ".."%string) l ->
  fold_left (clean_step rooted) l st = rev l ++ st.
Proof.
  revert st. induction l as [|x l IH]; intros st G N; [done|]. simpl.
  inversion G as [|? ? (_ & He & Hd) G']; inversion N; subst. rewrite IH by done.
  unfold clean_step. rewrite <- app_assoc. f_equal.
  destruct (String.eqb_spec x ""), (String.eqb_spec x "."), (String.eqb_spec x ".."); done.
Qed.

Lemma clean_parts_render l :
  Forall good_part l -> Forall (fun p => p <> ".."%string) l ->
  clean_parts (render true l) = l.
Proof.
  intros G N. unfold clean_parts. change (is_abs (render true l)) with true.
  unfold render. destruct l as [|x l]; [done|].
  change (fold_left (clean_step true) (split_slash (String slash (join_slash (x :: l)))) [])
    with (fold_left (clean_step true) (split_slash (join_slash (x :: l))) (@nil string)).
  rewrite split_join by (done || by apply good_no_slash).
  rewrite clean_fold_push by done. by rewrite app_nil_r, rev_involutive.
Qed.

Lemma is_abs_clean s : is_abs s = true -> is_abs (clean s) = true.
Proof. intros H. unfold clean. by rewrite H. Qed.

Lemma clean_parts_clean s : is_abs s = true -> clean_parts (clean s) = clean_parts s.
Proof.
  intros H. unfold clean. rewrite H.
  apply clean_parts_render; [apply clean_parts_good|by apply clean_parts_rooted].
Qed.

Lemma clean_idem_rooted s : is_abs s = true -> clean (clean s) = clean s.
Proof.
  intros H. pose proof (is_abs_clean s H) as H'.
  unfold clean at 1. rewrite H', clean_parts_clean by done. unfold clean. by rewrite H.
Qed.

Lemma upto_last_slash_app a b :
  no_slash b = true -> upto_last_slash (a ++ String slash b)%string = (a ++ "/")%string.
Proof.
  intros Hb. assert (upto_last_slash b = ""%string) as E.
  { unfold no_slash in Hb. induction b as [|c b IH]; simpl in *; [done|].
    apply andb_true_iff in Hb as [Hc Hb]. apply negb_true_iff in Hc. by rewrite Hc, IH. }
  induction a as [|c a IH]; simpl; [by rewrite E|]. rewrite IH.
  destruct (Ascii.eqb c slash); [done|]. by destruct a.
Qed.

Lemma dir_render l x :
  Forall good_part (l ++ [x]) -> Forall (fun p => p <> ".."%string) (l ++ [x]) ->
  dir (render true (l ++ [x])) = render true l.
Proof.
  intros G N. apply Forall_app in G as [Gl Gx], N as [Nl _].
  inversion Gx as [|? ? (Hx & _ & _) _]; subst.
  destruct l as [|y l].
  - unfold render, dir. simpl join_slash. change (String slash x) with ("" ++ String slash x)%string.
    rewrite upto_last_slash_app by done. reflexivity.
  - unfold render at 1, dir. rewrite join_app by done. simpl join_slash at 2.
    change (String slash (join_slash (y :: l) ++ String slash x))
      with (String slash (join_slash (y :: l)) ++ String slash x)%string.
    rewrite upto_last_slash_app by done.
    unfold clean. change (is_abs (String slash (join_slash (y :: l)) ++ "/")) with true. f_equal.
    unfold clean_parts. change (is_abs (String slash (join_slash (y :: l)) ++ "/")) with true.
    change (String slash (join_slash (y :: l)) ++ "/")%string
      with ("" ++ String slash (join_slash (y :: l) ++ String slash ""))%string.
    rewrite !split_slash_app, split_join by (done || by apply good_no_slash).
    rewrite !fold_left_app. change (fold_left (clean_step true) (split_slash "") []) with (@nil string).
    rewrite (clean_fold_push true (y :: l)) by done.
    change (rev (rev (y :: l) ++ []) = y :: l). by rewrite app_nil_r, rev_involutive.
Qed.

(** ** [filepath.Rel] between two rooted paths: up from the base to what the two
    share, and down to the target. *)
Fixpoint strip_common (b t : list string) : list string * list string :=
  match b, t with
  | x :: b', y :: t' => if String.eqb x y then strip_common b' t' else (b, t)
  | _, _ => (b, t)
  end.

Definition Rel (b t : string) : string :=
  let '(up, down) := strip_common (clean_parts b) (clean_parts t) in
  render false (replicate (length up) ".."%string ++ down).

Lemma strip_common_spec b t : ∃ l, b = l ++ (strip_common b t).1 ∧ t = l ++ (strip_common b t).2.
Proof.
  revert t. induction b as [|x b IH]; intros t; [by exists []|]. destruct t as [|y t]; [by exists []|]. simpl.
  destruct (String.eqb_spec x y) as [->|]; [|by exists []]. destruct (IH t) as (l & E1 & E2). exists (y :: l). simpl. by rewrite <- E1, <- E2.
Qed.
