(* ===== verification/Script.v ===== *)
(** [internal/script]: how a script crosses to the device as an inert command
    string, and the token that names one script ([script:sh:<sha256>]).  The
    regular expression of [NestedPowerShellExpansion] is not modelled. *)

From S2P Require Import Prelude GoStrings GoUtf8 GoCodec GoPath.

Local Open Scope Z_scope.
Local Open Scope string_scope.

Definition max_command : Z := 24000.
Definition ps_prologue : string := "$ProgressPreference='SilentlyContinue';" ++ newline.

Inductive interp := PowerShell | POSIX.

#[export] Instance interp_eq_dec : EqDecision interp.
Proof. solve_decision. Defined.

(** [string(interp)] *)
Definition interp_name (i : interp) : string :=
  match i with PowerShell => "powershell" | POSIX => "sh" end.

Inductive script_error :=
| CannotInfer (path : string)
| UnknownInterp (s : string)
| NotUTF8
| TooLarge (n : nat).

(** ** Choosing an interpreter *)

Definition ForPath (path : string) : result script_error interp :=
  let e := ext path in
  if lower_is e ".ps1" then Ok PowerShell
  else if lower_is e ".sh" || lower_is e ".bash" || lower_is e "" then Ok POSIX
  else Err (CannotInfer path).

Definition ParseInterp (s : string) : result script_error interp :=
  let t := trim_space s in
  if lower_is t "powershell" || lower_is t "pwsh" || lower_is t "ps1" then Ok PowerShell
  else if lower_is t "sh" || lower_is t "bash" || lower_is t "posix" then Ok POSIX
  else Err (UnknownInterp s).

(** ** Rendering a script as a command *)

(** The UTF-8 byte order mark. *)
Definition utf8_bom : string := String "239" (String "187" (String "191" "")).

Definition trim_bom (s : string) : string :=
  match cut_prefix s utf8_bom with Some t => t | None => s end.

Definition SessionSource (i : interp) (source : string) : result script_error string :=
  match i with
  | POSIX => Ok source
  | PowerShell =>
      let src := trim_bom source in
      if negb (valid_string src) then Err NotUTF8 else Ok (ps_prologue ++ src)
  end.

Definition posix_pre : string := "printf %s '".
Definition posix_post : string := "' | base64 -d | sh".
Definition ps_pre : string := "powershell -NoProfile -NonInteractive -EncodedCommand '".
Definition ps_post : string := "'".

Definition check_size (cmd : string) : result script_error string :=
  if (max_command <? Z.of_nat (slen cmd))%Z then Err (TooLarge (slen cmd)) else Ok cmd.

Definition Command (i : interp) (script : string) : result script_error string :=
  match i with
  | PowerShell =>
      match SessionSource i script with
      | Err e => Err e
      | Ok src => check_size (ps_pre ++ b64_encode (utf16LE src) ++ ps_post)
      end
  | POSIX => check_size (posix_pre ++ b64_encode script ++ posix_post)
  end.

(** ** Hints about lost quoting *)

Definition isPOSIXShell (command : string) : bool :=
  String.eqb command "sh" || String.eqb command "bash" || String.eqb command "zsh".

Fixpoint trim_left_semi (s : string) : string :=
  match s with
  | String c s' => if Ascii.eqb c ";" then trim_left_semi s' else s
  | EmptyString => EmptyString
  end.
Fixpoint trim_right_semi (s : string) : string :=
  match s with
  | EmptyString => EmptyString
  | String c s' =>
      let r := trim_right_semi s' in
      if Ascii.eqb c ";" && String.eqb r "" then "" else String c r
  end.
(** [strings.Trim(field, ";")] *)
Definition trim_semi (s : string) : string := trim_right_semi (trim_left_semi s).

Definition containsShellControlWord (command : string) : bool :=
  any (fun f => let t := trim_semi f in
                String.eqb t "do" || String.eqb t "done" || String.eqb t "fi") (fields command).

Definition join_sp (l : list string) : string := String.concat " " l.

Definition POSIXShellQuoteLoss (args : list string) : bool :=
  if (length args <? 2)%nat then false else
  let body := join_sp (drop 2 args) in
  if (3 <=? length args)%nat && isPOSIXShell (nth 0 args "") && String.eqb (nth 1 args "") "-c"
     && (1 <? length (fields body))%nat
  then true else
  let command := join_sp args in
  contains command ";" || contains command "&&" || contains command "||"
  || containsShellControlWord command.

(** [strings.EqualFold] against ".ps1". *)
Definition BomlessNonASCIIPowerShell (remotePath data : string) : bool :=
  if negb (equal_fold (ext remotePath) ".ps1") then false
  else if has_prefix data utf8_bom then false
  else negb (sforall (fun c => (byte_val c <? 128)%Z) data).

(** ** The token of a script *)

Definition canonical_prefix : string := "script:".
Definition short_hex : nat := 16.

Definition wrapped (c pre post : string) : bool :=
  (slen pre + slen post <=? slen c)%nat && has_prefix c pre && has_suffix c post.

Definition transportPayload (command : string) : option (interp * string) :=
  let c := trim_space command in
  if wrapped c posix_pre posix_post
  then Some (POSIX, slice (slen posix_pre) (slen c - slen posix_post) c)
  else if wrapped c ps_pre ps_post
  then Some (PowerShell, slice (slen ps_pre) (slen c - slen ps_post) c)
  else None.

Definition token_of (i : interp) (raw : string) : string :=
  canonical_prefix ++ interp_name i ++ ":" ++ hex_encode (sha256 raw).

Definition Canonical (command : string) : option string :=
  match transportPayload command with
  | None => None
  | Some (i, enc) =>
      match b64_decode enc with
      | None => None
      | Some raw => Some (token_of i raw)
      end
  end.

Definition isLowerHex (s : string) : bool := sforall lower_hex_char s.

Definition Short (token : string) : string :=
  match cut_prefix token canonical_prefix with
  | None => token
  | Some rest =>
      match cut_at ":" rest with
      | None => token
      | Some (i, digest) =>
          if negb (String.eqb i "sh" || String.eqb i "powershell") then token
          else if negb (slen digest =? 64)%nat || negb (isLowerHex digest) then token
          else canonical_prefix ++ i ++ ":" ++ stake short_hex digest ++ "…"
      end
  end.

(** ** Lemmas *)

Lemma slice_mid pre mid post :
  slice (slen pre) (slen (pre ++ mid ++ post) - slen post) (pre ++ mid ++ post) = mid.
Proof.
  unfold slice. rewrite sdrop_app, !slen_app.
  replace (slen pre + (slen mid + slen post) - slen post - slen pre)%nat with (slen mid) by lia.
  apply stake_app.
Qed.

Lemma wrapped_spec c pre post :
  wrapped c pre post = true <-> exists mid, c = pre ++ mid ++ post.
Proof.
  unfold wrapped. rewrite !andb_true_iff, Nat.leb_le, has_prefix_spec, has_suffix_spec. split.
  - intros [[L [t ->]] [u E]]. rewrite slen_app in L.
    exists (stake (slen t - slen post) t). f_equal.
    assert (slen pre + slen t = slen u + slen post)%nat as Hl by (rewrite <- !slen_app; by rewrite E).
    assert (pre ++ stake (slen t - slen post) t = u) as <-.
    { rewrite <- (stake_sdrop (slen t - slen post) t), app_assoc_s in E.
      apply sapp_eq_len in E as [E _]; [done|]. rewrite slen_app, slen_stake. lia. }
    apply (app_inv_head_s pre). by rewrite app_assoc_s.
  - intros [mid ->]. rewrite !slen_app. repeat split; [lia|eauto|].
    exists (pre ++ mid). by rewrite app_assoc_s.
Qed.

(** The payload sits exactly between the two fixed parts, so slicing it out
    never goes out of range. *)
Lemma transportPayload_Some command i enc :
  transportPayload command = Some (i, enc) ->
  trim_space command =
    match i with
    | POSIX => posix_pre ++ enc ++ posix_post
    | PowerShell => ps_pre ++ enc ++ ps_post
    end.
Proof.
  unfold transportPayload. generalize (trim_space command) as c. intros c.
  destruct (wrapped c posix_pre posix_post) eqn:E1.
  - apply wrapped_spec in E1 as [mid ->]. rewrite slice_mid. by intros [= <- <-].
  - destruct (wrapped c ps_pre ps_post) eqn:E2; [|done].
    apply wrapped_spec in E2 as [mid ->]. rewrite slice_mid. by intros [= <- <-].
Qed.

Lemma transportPayload_posix enc :
  transportPayload (posix_pre ++ enc ++ posix_post) = Some (POSIX, enc).
Proof.
  unfold transportPayload.
  assert (trim_space (posix_pre ++ enc ++ posix_post) = posix_pre ++ enc ++ posix_post) as ->.
  { change posix_post with ("' | base64 -d | s" ++ "h"). rewrite (app_assoc_s enc).
    apply (trim_space_graphic "p" ("rintf %s '" ++ enc ++ "' | base64 -d | s")); done. }
  rewrite (proj2 (wrapped_spec _ _ _)) by eauto. by rewrite slice_mid.
Qed.

Lemma transportPayload_ps enc :
  transportPayload (ps_pre ++ enc ++ ps_post) = Some (PowerShell, enc).
Proof.
  unfold transportPayload.
  assert (trim_space (ps_pre ++ enc ++ ps_post) = ps_pre ++ enc ++ ps_post) as ->.
  { apply (trim_space_graphic "p"
      ("owershell -NoProfile -NonInteractive -EncodedCommand '" ++ enc)); done. }
  destruct (wrapped _ posix_pre posix_post) eqn:W.
  - apply wrapped_spec in W as [mid W]. discriminate W.
  - rewrite (proj2 (wrapped_spec _ _ _)) by eauto. by rewrite slice_mid.
Qed.

Lemma trim_space_app_token (s t : string) c d :
  graphic c = true -> graphic d = true -> s = String c (t ++ String d "") -> trim_space s = s.
Proof. intros Hc Hd ->. by apply trim_space_graphic. Qed.

Lemma sforall_last f s : sforall f s = true -> s <> "" -> exists t d, s = t ++ String d "" /\ f d = true.
Proof.
  induction s as [|c s IH]; [done|]. simpl. intros H _. apply andb_true_iff in H as [Hc Hs].
  destruct s as [|c' s]; [by exists "", c|].
  destruct (IH Hs ltac:(done)) as (t & d & -> & Hd). by exists (String c t), d.
Qed.

Lemma lower_hex_graphic c : lower_hex_char c = true -> graphic c = true.
Proof.
  unfold lower_hex_char, graphic, in_range. intros H. apply orb_true_iff in H.
  destruct H; bsplit; apply andb_true_iff; rewrite !Z.leb_le; lia.
Qed.

Lemma hex_encode_nonempty s : s <> "" -> hex_encode s <> "".
Proof. by destruct s. Qed.

Lemma sha256_nonempty s : sha256 s <> "".
Proof. intros E. pose proof (sha256_length s) as L. by rewrite E in L. Qed.

(** A token is printable at both ends: trimming leaves it alone. *)
Lemma trim_token i raw : trim_space (token_of i raw) = token_of i raw.
Proof.
  destruct (sforall_last lower_hex_char (hex_encode (sha256 raw))) as (t & d & E & Hd).
  { apply hex_encode_lower. }
  { apply hex_encode_nonempty, sha256_nonempty. }
  apply (trim_space_app_token _ ("cript:" ++ interp_name i ++ ":" ++ t) "s" d); [done| |].
  { by apply lower_hex_graphic. }
  unfold token_of, canonical_prefix. rewrite E. destruct i; reflexivity.
Qed.

Lemma token_prefix i raw : has_prefix (token_of i raw) canonical_prefix = true.
Proof. apply has_prefix_app. Qed.

Lemma Canonical_Some command tok :
  Canonical command = Some tok ->
  exists i enc raw, transportPayload command = Some (i, enc) /\ b64_decode enc = Some raw
                    /\ tok = token_of i raw.
Proof.
  unfold Canonical. destruct (transportPayload command) as [[i enc]|]; [|done].
  destruct (b64_decode enc) as [raw|] eqn:E; [|done]. intros [= <-]. eauto 6.
Qed.

Lemma Canonical_trim command : Canonical (trim_space command) = Canonical command.
Proof. unfold Canonical, transportPayload. by rewrite trim_space_idem. Qed.

(** No command is itself the token it carries. *)
Lemma Canonical_not_token command tok :
  has_prefix command canonical_prefix = true -> Canonical command = Some tok ->
  trim_space command = command -> False.
Proof.
  intros P H T. apply Canonical_Some in H as (i & enc & raw & H & _ & _).
  apply transportPayload_Some in H. rewrite T in H. apply has_prefix_spec in P as [t ->].
  by destruct i.
Qed.

Lemma hex_digit_inj a b : (0 <= a < 16)%Z -> (0 <= b < 16)%Z -> hex_digit a = hex_digit b -> a = b.
Proof.
  intros Ha Hb E. apply (f_equal byte_val) in E. revert E. unfold hex_digit.
  destruct (Z.ltb_spec a 10), (Z.ltb_spec b 10); rewrite !byte_val_of by lia; lia.
Qed.

Lemma hex_encode_inj s t : hex_encode s = hex_encode t -> s = t.
Proof.
  revert t. induction s as [|c s IH]; intros [|d t]; simpl; try done. intros [= H1 H2 H3].
  pose proof (byte_val_range c). pose proof (byte_val_range d).
  apply hex_digit_inj in H1, H2; try (Z.div_mod_to_equations; lia).
  f_equal; [|by apply IH]. apply byte_val_inj. Z.div_mod_to_equations. lia.
Qed.

Lemma token_of_inj i j r r' : token_of i r = token_of j r' -> i = j /\ sha256 r = sha256 r'.
Proof.
  unfold token_of. intros E. apply app_inv_head_s in E.
  assert (i = j /\ hex_encode (sha256 r) = hex_encode (sha256 r')) as [-> H].
  { revert E. generalize (hex_encode (sha256 r)), (hex_encode (sha256 r')). intros a b E.
    destruct i, j; simpl in E; try discriminate E; by injection E as E. }
  split; [done|]. by apply hex_encode_inj.
Qed.

(** The bytes the device runs for source [src]. *)
Definition carried (i : interp) (src : string) : string :=
  match i with POSIX => src | PowerShell => utf16LE src end.

(** ** Properties *)

(** The command a script is rendered into is recognised as carrying exactly
    that script: its token is the SHA-256 of the bytes the device will run,
    and the size limit is the only thing that can refuse a POSIX script. *)
Lemma command_canonical i script src :
  SessionSource i script = Ok src ->
  let cmd := match i with
             | POSIX => posix_pre ++ b64_encode src ++ posix_post
             | PowerShell => ps_pre ++ b64_encode (utf16LE src) ++ ps_post end in
  Canonical cmd = Some (token_of i (carried i src)) /\
  Command i script = if (max_command <? Z.of_nat (slen cmd))%Z then Err (TooLarge (slen cmd)) else Ok cmd.
Proof.
  intros H cmd. destruct i.
  - unfold Canonical, Command, check_size, cmd. rewrite H, transportPayload_ps, b64_decode_encode. done.
  - injection H as <-. unfold Canonical, Command, check_size, cmd.
    rewrite transportPayload_posix, b64_decode_encode. done.
Qed.

Lemma command_canonical_witness :
  SessionSource POSIX "echo hi" = Ok "echo hi" /\
  Canonical "printf %s 'ZWNobyBoaQ==' | base64 -d | sh" = Some (token_of POSIX "echo hi").
Proof. split; [reflexivity|]. exact (proj1 (command_canonical POSIX "echo hi" "echo hi" eq_refl)). Defined.

Lemma cut_at_interp i s : cut_at ":" (interp_name i ++ ":" ++ s) = Some (interp_name i, s).
Proof. by destruct i. Qed.

(** [Short] abbreviates a token of this package to its first sixteen digits
    and an ellipsis, and returns every other string untouched: whatever it
    changes is a prefix, a known interpreter and 64 lower-case hex digits. *)
Lemma Short_only_tokens :
  (forall i raw, Short (token_of i raw) =
     canonical_prefix ++ interp_name i ++ ":" ++ stake short_hex (hex_encode (sha256 raw)) ++ "…") /\
  (forall t, Short t = t \/
     exists i digest, t = canonical_prefix ++ interp_name i ++ ":" ++ digest
       /\ slen digest = 64%nat /\ isLowerHex digest = true
       /\ Short t = canonical_prefix ++ interp_name i ++ ":" ++ stake short_hex digest ++ "…").
Proof.
  split.
  - intros i raw. unfold Short, token_of.
    rewrite (proj2 (cut_prefix_Some _ canonical_prefix _) eq_refl), cut_at_interp.
    rewrite slen_hex_encode, sha256_length. unfold isLowerHex. rewrite hex_encode_lower.
    by destruct i.
  - intros t. unfold Short. destruct (cut_prefix t canonical_prefix) as [rest|] eqn:P; [|by left].
    apply cut_prefix_Some in P as ->. destruct (cut_at ":" rest) as [[i d]|] eqn:C; [|by left].
    apply cut_at_Some in C as ->.
    destruct (negb (String.eqb i "sh" || String.eqb i "powershell")) eqn:I; [by left|].
    destruct (negb (slen d =? 64)%nat || negb (isLowerHex d)) eqn:D; [by left|]. right.
    bsplit. apply orb_true_iff in I as [I|I]; apply String.eqb_eq in I as ->;
      [exists POSIX, d|exists PowerShell, d]; done.
Qed.
