(* ===== verification/Policy.v ===== *)
(** [internal/policy]: the device's permission engine - kinds, rules, command
    and path matching, the rule a remembered answer becomes, the persisted
    rule and mode files, and the approvers behind the [Approver] interface. *)

From S2P Require Import Prelude GoStrings GoUtf8 GoCodec GoPath Script.

Local Open Scope string_scope.

(** ** Data *)

Definition mode := string.
Definition ModeNormal : mode := "normal".
Definition ModeBypass : mode := "bypass".

Inductive scope := ScopeDir | ScopeGlobal | ScopeOther (s : string).
Definition scope_name (s : scope) : string :=
  match s with ScopeDir => "dir" | ScopeGlobal => "global" | ScopeOther s => s end.

(** [policy.Kind] is a string; [KindOther] is any value but the five known. *)
Inductive kind := KindExec | KindRead | KindWrite | KindLogs | KindExecElevated | KindOther (s : string).

#[export] Instance scope_eq_dec : EqDecision scope.
Proof. solve_decision. Defined.
#[export] Instance kind_eq_dec : EqDecision kind.
Proof. solve_decision. Defined.

Definition is_exec (k : kind) : bool :=
  match k with KindExec | KindExecElevated => true | _ => false end.

Record request := Request {
  req_kind : kind; req_cmd : string; req_path : string; req_cwd : string;
  req_peer : string; req_via : string }.

Record rule := Rule {
  r_kind : kind; r_pattern : string; r_dir : string; r_scope : scope; r_added : Z }.

#[export] Instance rule_eq_dec : EqDecision rule.
Proof. solve_decision. Defined.

Record decision := Decision { d_allow : bool; d_remember : bool; d_scope : scope }.

(** [Decision{Allow: b}] *)
Definition allow_once : decision := Decision true false (ScopeOther "").
Definition deny : decision := Decision false false (ScopeOther "").

(** ** Paths *)

Definition Within (d path : string) : bool :=
  if String.eqb d "" then true else
  let d := clean d in
  let path := clean path in
  String.eqb path d || has_prefix path (d ++ "/").

(** ** Commands *)

Definition ps_eval_seqs : list string := ["@("; "$("; "&{"; ".{"; "${"; "`"; ";"; "|"; "&"].
Definition hasPowerShellEval (c : string) : bool := any (contains c) ps_eval_seqs.

(** What [mvdan.cc/sh] reports of a parsed statement: its flags, and the kinds
    of nodes [syntax.Walk] visits in it. *)
Inductive node := NodeCmdSubst | NodeProcSubst | NodeOther.
Record stmt := Stmt {
  negated : bool; background : bool; coprocess : bool; disown : bool;
  semicolon_valid : bool; redirs : nat; is_call_expr : bool; nodes : list node }.

Definition unsafe_node (n : node) : bool :=
  match n with NodeCmdSubst | NodeProcSubst => true | NodeOther => false end.

Section matching.
(** The third-party shell parser: [None] is a parse error. *)
Context (parse : string → option (list stmt)).

Definition isSingleSimpleCommand (command : string) : bool :=
  match parse command with
  | Some [s] =>
      if negated s || background s || coprocess s || disown s || semicolon_valid s
         || negb (redirs s =? 0)%nat then false
      else if negb (is_call_expr s) then false
      else negb (any unsafe_node (nodes s))
  | _ => false
  end.

Definition matchCommand (p c : string) (psShell : bool) : bool :=
  let p := trim_space p in
  let c := trim_space c in
  if has_prefix p canonical_prefix then
    match Canonical c with Some tok => String.eqb tok p | None => false end
  else if String.eqb c p then true
  else if String.eqb p "*" then true
  else if negb (isSingleSimpleCommand c) then false
  else if psShell && hasPowerShellEval c then false
  else if has_suffix p " *" then has_prefix c (stake (slen p - 1) p)
  else has_prefix c (p ++ " ").

Definition MatchCommand (p c : string) : bool := matchCommand p c false.

Definition scope_covers (r : rule) (req : request) : bool :=
  bool_decide (r_scope r = ScopeGlobal)
  || (bool_decide (r_scope r = ScopeDir) && String.eqb (r_dir r) (req_cwd req)
      && negb (String.eqb (req_cwd req) "")).

Definition ruleMatchesShell (r : rule) (req : request) (psShell : bool) : bool :=
  match req_kind req with
  | KindExec | KindExecElevated =>
      if negb (bool_decide (r_kind r = req_kind req))
         || negb (matchCommand (r_pattern r) (req_cmd req) psShell)
      then false else scope_covers r req
  | KindRead =>
      (bool_decide (r_kind r = KindRead) || bool_decide (r_kind r = KindWrite))
      && Within (r_pattern r) (req_path req)
  | KindWrite => bool_decide (r_kind r = KindWrite) && Within (r_pattern r) (req_path req)
  | KindLogs => bool_decide (r_kind r = KindLogs) && bool_decide (r_scope r = ScopeGlobal)
  | KindOther _ => false
  end.
End matching.

(** [RuleFor] and what it remembers of a command. *)
Definition CommandPattern (cmd : string) : string :=
  let cmd := trim_space cmd in
  match Canonical cmd with Some tok => tok | None => cmd end.

Definition CommandLabel (cmd : string) : string :=
  let cmd := trim_space cmd in
  match Canonical cmd with Some tok => Short tok | None => cmd end.

Definition RuleFor (req : request) (sc : scope) (now : Z) : rule :=
  match req_kind req with
  | KindExec | KindExecElevated =>
      if bool_decide (sc = ScopeDir) && negb (String.eqb (req_cwd req) "")
      then Rule (req_kind req) (CommandPattern (req_cmd req)) (req_cwd req) sc now
      else Rule (req_kind req) (CommandPattern (req_cmd req)) "" ScopeGlobal now
  | KindRead | KindWrite =>
      if bool_decide (sc = ScopeDir)
      then Rule (req_kind req) (dir (req_path req)) "" sc now
      else Rule (req_kind req) "" "" sc now
  | KindLogs => Rule KindLogs "*" "" ScopeGlobal now
  | KindOther _ => Rule (req_kind req) "" "" sc now
  end.

(** ** The engine and its files *)

(** The rule file as [json.Unmarshal] sees it. *)
Inductive rules_file := RulesAbsent | RulesUnreadable | RulesCorrupt | RulesSaved (l : list rule).

Record disk := Disk { mode_file : option string; rules_on_disk : rules_file; writable : bool }.

Record engine := Engine { rules : list rule; e_mode : mode; psShell : bool }.

Inductive policy_error := ErrRead | ErrParse | ErrWrite | ErrInvalidIndex.

#[export] Instance policy_error_eq_dec : EqDecision policy_error.
Proof. solve_decision. Defined.

(** [loadMode]: "" if the file is absent or holds anything else. *)
Definition loadMode (d : disk) : mode :=
  match mode_file d with
  | None => ""
  | Some b =>
      let m := trim_space b in
      if String.eqb m ModeNormal || String.eqb m ModeBypass then m else ""
  end.

Definition saveMode (e : engine) (d : disk) : disk :=
  if writable d then Disk (Some (e_mode e ++ newline)) (rules_on_disk d) (writable d) else d.

(** [save]: a temporary file and a rename, so a failed write changes nothing. *)
Definition save (e : engine) (d : disk) : result policy_error () * disk :=
  if writable d then (Ok (), Disk (mode_file d) (RulesSaved (rules e)) (writable d))
  else (Err ErrWrite, d).

Definition Open (m : mode) (d : disk) : result policy_error engine * disk :=
  let explicit := negb (String.eqb m "") in
  let m := if explicit then m else loadMode d in
  let m := if String.eqb m "" then ModeNormal else m in
  let e := Engine [] m false in
  let d := if explicit then saveMode e d else d in
  match rules_on_disk d with
  | RulesAbsent => (Ok e, d)
  | RulesUnreadable => (Err ErrRead, d)
  | RulesCorrupt => (Err ErrParse, d)
  | RulesSaved l => (Ok (Engine l m false), d)
  end.

Definition SetPowerShell (v : bool) (e : engine) : engine := Engine (rules e) (e_mode e) v.

Definition SetMode (m : mode) (e : engine) (d : disk) : engine * disk :=
  let e := Engine (rules e) m (psShell e) in (e, saveMode e d).

Definition Add (r : rule) (now : Z) (e : engine) (d : disk) : engine * (result policy_error () * disk) :=
  let r := if is_zero (r_added r) then Rule (r_kind r) (r_pattern r) (r_dir r) (r_scope r) now else r in
  let e := Engine (rules e ++ [r]) (e_mode e) (psShell e) in
  (e, save e d).

Definition Remove (i : Z) (e : engine) (d : disk) : engine * (result policy_error () * disk) :=
  if (i <? 0)%Z || (Z.of_nat (length (rules e)) <=? i)%Z then (e, (Err ErrInvalidIndex, d))
  else
    let n := Z.to_nat i in
    let e := Engine (take n (rules e) ++ drop (S n) (rules e)) (e_mode e) (psShell e) in
    (e, save e d).

Definition Bypasses (e : engine) (k : kind) (elevationEnabled : bool) : bool :=
  if negb (String.eqb (e_mode e) ModeBypass) then false
  else match k with KindExecElevated => elevationEnabled | _ => true end.

Definition Allowed (parse : string → option (list stmt)) (e : engine) (req : request) : bool :=
  any (λ r, ruleMatchesShell parse r req (psShell e)) (rules e).

Definition AllowedFileRoot (parse : string → option (list stmt)) (e : engine) (req : request) : option string :=
  match req_kind req with
  | KindRead | KindWrite =>
      match find_first (λ r, ruleMatchesShell parse r req (psShell e)) (rules e) with
      | Some r => Some (r_pattern r)
      | None => None
      end
  | _ => None
  end.

(** ** Approvers *)

(** The [Approver] interface: [Ask] may act on the approver's own state. *)
Class Approver (A : Type) := ask : A → request → decision * A.

Inductive AllowApprover := MkAllowApprover.
Inductive DenyApprover := MkDenyApprover.
#[export] Instance allow_approver : Approver AllowApprover := λ a _, (allow_once, a).
#[export] Instance deny_approver : Approver DenyApprover := λ a _, (deny, a).

(** [short] of a fingerprint, for the prompt. *)
Definition short (s : string) : string :=
  if (25 <? slen s)%nat then stake 14 s ++ "…" ++ sdrop (slen s - 6) s
  else if String.eqb s "" then "(unknown)" else s.

(** What [ConsoleApprover.Ask] prints, line by line. *)
Definition ask_prompt (req : request) : list string :=
  let peer := short (req_peer req) in
  let cwd := if String.eqb (req_cwd req) "" then [] else ["    cwd: " ++ req_cwd req] in
  match req_kind req with
  | KindExec => ["  Approve COMMAND from " ++ peer; "    cmd: " ++ CommandLabel (req_cmd req)] ++ cwd
  | KindExecElevated =>
      ["  Approve ELEVATED COMMAND from " ++ peer; "    cmd: " ++ CommandLabel (req_cmd req)]
      ++ (if String.eqb (req_via req) "" then [] else ["    via: " ++ req_via req]) ++ cwd
  | KindRead => ["  Approve READ from " ++ peer; "    path: " ++ req_path req]
  | KindWrite => ["  Approve WRITE from " ++ peer; "    path: " ++ req_path req]
  | KindLogs => ["  Approve EVENT LOG READ from " ++ peer]
  | KindOther _ => []
  end.

(** The answer the console reads, as a decision. *)
Definition console_answer (k : kind) (line : string) : decision :=
  let a := trim_space line in
  if lower_is a "y" || lower_is a "yes" then allow_once
  else if lower_is a "a" then
    match k with KindLogs => allow_once | _ => Decision true true ScopeDir end
  else if lower_is a "g" then Decision true true ScopeGlobal
  else deny.

(** A console approver: the lines still to be read, what was printed so far. *)
Record ConsoleApprover := Console { input : list string; printed : list string }.

#[export] Instance console_approver : Approver ConsoleApprover := λ c req,
  let out := (printed c ++ ask_prompt req)%list in
  match input c with
  | [] => (console_answer (req_kind req) "", Console [] out)
  | line :: rest => (console_answer (req_kind req) line, Console rest out)
  end.

(** ** Lemmas *)

Lemma Within_parts d path :
  Within d path = true ↔
  d = "" ∨ (is_abs d = is_abs path ∧
            (clean_parts path = clean_parts d ∨
             clean_parts d ≠ [] ∧ ∃ rest, clean_parts path = (clean_parts d ++ rest)%list ∧ rest ≠ [])).
Proof.
  unfold Within. destruct (String.eqb_spec d "") as [->|Hd]; [by split; [left|]|].
  rewrite orb_true_iff, String.eqb_eq.
  assert (E : (clean path = clean d ∨ has_prefix (clean path) (clean d ++ "/") = true) ↔ _)
    by (apply (render_within (is_abs d) (clean_parts d) (is_abs path) (clean_parts path));
        apply clean_parts_good).
  rewrite E. split; [by right|]. by intros [?|H].
Qed.

Lemma CommandPattern_cases cmd :
  (∃ tok, Canonical cmd = Some tok ∧ CommandPattern cmd = tok) ∨
  (Canonical cmd = None ∧ CommandPattern cmd = trim_space cmd).
Proof.
  unfold CommandPattern. rewrite Canonical_trim. destruct (Canonical cmd); eauto.
Qed.

(** A remembered command pattern matches the command it was remembered for,
    unless the command's text merely starts like a token. *)
Lemma matchCommand_remembered parse cmd ps :
  has_prefix (trim_space cmd) canonical_prefix = false →
  matchCommand parse (CommandPattern cmd) cmd ps = true.
Proof.
  intros Hp. unfold matchCommand.
  destruct (CommandPattern_cases cmd) as [(tok & H & ->)|[H ->]].
  - pose proof (Canonical_Some _ _ H) as (i & enc & raw & _ & _ & ->).
    rewrite trim_token, token_prefix, Canonical_trim, H. apply String.eqb_refl.
  - by rewrite trim_space_idem, Hp, String.eqb_refl.
Qed.

Lemma Allowed_true parse e req :
  Allowed parse e req = true ↔ ∃ r, r ∈ rules e ∧ ruleMatchesShell parse r req (psShell e) = true.
Proof. apply any_true. Qed.

Lemma loadMode_saveMode e d :
  writable d = true → e_mode e = ModeNormal ∨ e_mode e = ModeBypass →
  loadMode (saveMode e d) = e_mode e.
Proof.
  intros W H. unfold saveMode. rewrite W. unfold loadMode. cbn [mode_file].
  destruct H as [-> | ->]; vm_compute; reflexivity.
Qed.

Lemma Bypasses_true e k el :
  Bypasses e k el = true ↔ e_mode e = ModeBypass ∧ (k = KindExecElevated → el = true).
Proof.
  unfold Bypasses. destruct (String.eqb_spec (e_mode e) ModeBypass); simpl.
  - destruct k; split; try (intros _; by split); try (intros [_ H]; auto); intros H; by split.
  - split; [done|]. by intros [? _].
Qed.

Lemma prefix_stake p q : p = q ++ " *" → stake (slen p - 1) p = q ++ " ".
Proof.
  intros ->. rewrite slen_app. replace (slen q + slen " *" - 1)%nat with (slen (q ++ " ")).
  - change (q ++ " *") with (q ++ (" " ++ "*")). rewrite app_assoc_s. apply stake_app.
  - rewrite slen_app. simpl. lia.
Qed.

Lemma scope_covers_true r req :
  scope_covers r req = true →
  r_scope r = ScopeGlobal ∨ r_scope r = ScopeDir ∧ r_dir r = req_cwd req ∧ req_cwd req ≠ "".
Proof.
  unfold scope_covers. intros [H|H]%orb_true_iff; bsplit; [by left|]. right.
  apply String.eqb_eq in H1. apply String.eqb_neq in H0. done.
Qed.

(** ** Properties *)

(** A rule that names a script allows exactly the commands that carry a
    script with the same digest for the same interpreter, whatever the shell,
    and nothing whose text merely looks like the token. *)
Lemma script_rule_same_bytes parse i raw c ps :
  matchCommand parse (token_of i raw) c ps = true ↔
  ∃ enc raw', transportPayload c = Some (i, enc) ∧ b64_decode enc = Some raw' ∧ sha256 raw' = sha256 raw.
Proof.
  unfold matchCommand. rewrite trim_token, token_prefix, Canonical_trim. split.
  - destruct (Canonical c) as [tok|] eqn:E; [|done]. intros H. apply String.eqb_eq in H as ->.
    apply Canonical_Some in E as (j & enc & raw' & ? & ? & E). apply token_of_inj in E as [-> ?]. eauto.
  - intros (enc & raw' & Ht & Hd & Hs). unfold Canonical. rewrite Ht, Hd. unfold token_of. rewrite Hs.
    apply String.eqb_refl.
Qed.

(** C34: a prefix rule authorizes only one simple command: when the command is
    not the rule's own text and the rule is neither [*] nor a script token, the
    shell parser sees a single call with no redirection, job control or
    substitution, on a PowerShell device no evaluation syntax occurs, and the
    command is the rule's words followed by further arguments. *)
Theorem prefix_rule_single_command parse p c ps :
  matchCommand parse p c ps = true →
  has_prefix (trim_space p) canonical_prefix = false →
  trim_space p ≠ "*" → trim_space c ≠ trim_space p →
  (∃ s, parse (trim_space c) = Some [s] ∧ is_call_expr s = true ∧ redirs s = 0%nat ∧
        background s = false ∧ negated s = false ∧ coprocess s = false ∧ disown s = false ∧
        semicolon_valid s = false ∧ ∀ n, n ∈ nodes s → n = NodeOther) ∧
  (ps = true → ∀ q, q ∈ ps_eval_seqs → contains (trim_space c) q = false) ∧
  ∃ words args, trim_space c = words ++ " " ++ args ∧
                (trim_space p = words ∨ trim_space p = words ++ " *").
Proof.
  unfold matchCommand. generalize (trim_space p) as p'; generalize (trim_space c) as c'.
  intros c' p' M S Hstar Heq. rewrite S in M.
  rewrite (proj2 (String.eqb_neq c' p') Heq), (proj2 (String.eqb_neq p' "*") Hstar) in M.
  destruct (isSingleSimpleCommand parse c') eqn:E1; [|done]. simpl in M.
  destruct (ps && hasPowerShellEval c') eqn:E2; [done|]. repeat split.
  - unfold isSingleSimpleCommand in E1. destruct (parse c') as [[|s [|]]|]; try done.
    destruct (_ || _) eqn:F in E1; [done|]. destruct (negb (is_call_expr s)) eqn:G; [done|].
    apply negb_true_iff in E1. bsplit. exists s. repeat split; try done.
    intros n Hn. pose proof (proj1 (any_false _ _) E1 n Hn). by destruct n.
  - intros -> q Hq. simpl in E2. exact (proj1 (any_false _ _) E2 q Hq).
  - destruct (has_suffix p' " *") eqn:Suf.
    + apply has_suffix_spec in Suf as [q Hq]. rewrite (prefix_stake _ _ Hq) in M.
      apply has_prefix_spec in M as [t ->]. exists q, t. rewrite <- app_assoc_s. auto.
    + apply has_prefix_spec in M as [t ->]. exists p', t. rewrite <- app_assoc_s. auto.
Qed.

Definition plain_stmt : stmt := Stmt false false false false false 0 true [NodeOther].

Lemma prefix_rule_single_command_witness :
  matchCommand (λ _, Some [plain_stmt]) "ping *" "ping 1.1.1.1" true = true ∧
  ∃ words args, trim_space "ping 1.1.1.1" = words ++ " " ++ args ∧
                (trim_space "ping *" = words ∨ trim_space "ping *" = words ++ " *").
Proof.
  split; [vm_compute; reflexivity|].
  refine (proj2 (proj2 (prefix_rule_single_command (λ _, Some [plain_stmt]) "ping *" "ping 1.1.1.1" true _ _ _ _)));
    vm_compute; first [reflexivity | discriminate].
Defined.

(** A rule set allows a request only through a rule of its own class: an
    elevated command needs an elevated rule, a plain command a plain one, a
    write a write rule; only a read may ride a write rule, and only a global
    rule covers the log. *)
Lemma Allowed_same_class parse e req :
  Allowed parse e req = true →
  ∃ r, r ∈ rules e ∧
    match req_kind req with
    | KindExec | KindExecElevated =>
        r_kind r = req_kind req ∧ matchCommand parse (r_pattern r) (req_cmd req) (psShell e) = true
        ∧ (r_scope r = ScopeGlobal ∨ r_scope r = ScopeDir ∧ r_dir r = req_cwd req ∧ req_cwd req ≠ "")
    | KindRead => (r_kind r = KindRead ∨ r_kind r = KindWrite) ∧ Within (r_pattern r) (req_path req) = true
    | KindWrite => r_kind r = KindWrite ∧ Within (r_pattern r) (req_path req) = true
    | KindLogs => r_kind r = KindLogs ∧ r_scope r = ScopeGlobal
    | KindOther _ => False
    end.
Proof.
  intros (r & Hr & M)%Allowed_true. exists r. split; [done|]. revert M. unfold ruleMatchesShell.
  destruct (req_kind req); intros M; try done.
  - destruct (_ || _) eqn:E in M; [done|]. bsplit. by apply scope_covers_true in M.
  - bsplit. split; [|done]. apply orb_true_iff in H as [H|H]; bsplit; auto.
  - by bsplit.
  - by bsplit.
  - destruct (_ || _) eqn:E in M; [done|]. bsplit. by apply scope_covers_true in M.
Qed.

Lemma Allowed_same_class_witness :
  let e := Engine [Rule KindExecElevated "id" "" ScopeGlobal 1%Z] ModeNormal false in
  let req := Request KindExecElevated "id" "" "/" "fp" "" in
  Allowed (λ _, None) e req = true ∧ ∃ r, r ∈ rules e ∧ r_kind r = KindExecElevated.
Proof.
  split; [vm_compute; reflexivity|].
  destruct (Allowed_same_class (λ _, None)
    (Engine [Rule KindExecElevated "id" "" ScopeGlobal 1%Z] ModeNormal false)
    (Request KindExecElevated "id" "" "/" "fp" "")) as (r & Hr & Hk & _).
  { vm_compute. reflexivity. }
  exists r. exact (conj Hr Hk).
Defined.

Lemma RuleFor_exec req sc now :
  is_exec (req_kind req) = true →
  r_kind (RuleFor req sc now) = req_kind req ∧
  r_pattern (RuleFor req sc now) = CommandPattern (req_cmd req) ∧
  scope_covers (RuleFor req sc now) req = true.
Proof.
  intros H. unfold RuleFor, scope_covers.
  destruct (req_kind req); try done; (destruct (bool_decide_reflect (sc = ScopeDir)) as [->|];
    [destruct (String.eqb_spec (req_cwd req) "")|]; simpl; repeat split; try done;
    by rewrite String.eqb_refl).
Qed.

Lemma RuleFor_added req sc now : r_added (RuleFor req sc now) = now.
Proof.
  unfold RuleFor. destruct (req_kind req); try done; destruct (bool_decide _); try done;
    by destruct (negb _).
Qed.

Lemma Allowed_after_Add parse r now e d req :
  r_added r ≠ 0%Z → ruleMatchesShell parse r req (psShell e) = true →
  Allowed parse (fst (Add r now e d)) req = true.
Proof.
  intros Hz M. unfold Add, is_zero. rewrite (proj2 (Z.eqb_neq _ _) Hz).
  apply Allowed_true. exists r. simpl. split; [|done]. apply elem_of_app. right. by left.
Qed.

(** What the owner asks to remember takes effect: after the rule built for
    a request is added, the same request is allowed without asking - for a
    command in any scope, directory and shell (unless its text poses as a
    script token), and for a file request remembered globally. *)
Lemma remembered_rule_allows parse req sc now e d :
  now ≠ 0%Z →
  match req_kind req with
  | KindExec | KindExecElevated => has_prefix (trim_space (req_cmd req)) canonical_prefix = false
  | KindRead | KindWrite => sc = ScopeGlobal
  | KindLogs => True
  | KindOther _ => False
  end →
  Allowed parse (fst (Add (RuleFor req sc now) now e d)) req = true.
Proof.
  intros Hnow H. apply Allowed_after_Add; [by rewrite RuleFor_added|].
  destruct (is_exec (req_kind req)) eqn:X.
  - destruct (RuleFor_exec req sc now X) as (K & P & S). unfold ruleMatchesShell.
    assert (matchCommand parse (CommandPattern (req_cmd req)) (req_cmd req) (psShell e) = true) as M.
    { apply matchCommand_remembered. by destruct (req_kind req). }
    rewrite K, P, S, M. destruct (req_kind req); try done; by rewrite bool_decide_true.
  - unfold ruleMatchesShell, RuleFor. destruct (req_kind req); subst; done.
Qed.

Lemma remembered_rule_allows_witness :
  let req := Request KindExec "ls -l" "" "/srv" "fp" "" in
  Allowed (λ _, None) (fst (Add (RuleFor req ScopeDir 5) 5 (Engine [] ModeNormal false)
    (Disk None RulesAbsent true))) req = true.
Proof.
  apply (remembered_rule_allows (λ _, None) (Request KindExec "ls -l" "" "/srv" "fp" "") ScopeDir 5
    (Engine [] ModeNormal false) (Disk None RulesAbsent true)); [discriminate|vm_compute; reflexivity].
Defined.

(** A directory rule reaches exactly what is under the directory.  For a
    rooted rule directory, [Within] holds of a path precisely when the path is
    rooted and its cleaned components extend the directory's - never a sibling
    whose name starts the same, and never a climb: no [..] is left in it. *)
Lemma Within_containment d path :
  is_abs d = true →
  Within d path = true ↔
  is_abs path = true ∧ (clean_parts d = [] → clean_parts path = []) ∧
  (∃ rest, clean_parts path = (clean_parts d ++ rest)%list) ∧
  Forall (λ p, p ≠ "..") (clean_parts path).
Proof.
  intros A. rewrite Within_parts. split.
  - intros [->|[E H]]; [done|]. rewrite A in E.
    split; [done|]. split; [|split; [|by apply clean_parts_rooted]].
    + intros N. destruct H as [H|[H _]]; congruence.
    + destruct H as [H|[_ (rest & H & _)]]; [exists []; by rewrite app_nil_r|eauto].
  - intros (P & N & (rest & E) & _). right. rewrite A, P. split; [done|].
    destruct rest as [|x rest]; [left; by rewrite app_nil_r in E|]. right.
    split; [|by exists (x :: rest)]. intros D. rewrite D in E, N. by rewrite N in E.
Qed.

Lemma Within_containment_witness :
  is_abs "/data" = true ∧ Within "/data" "/data/../data/x" = true ∧ Within "/data" "/database" = false.
Proof.
  split; [reflexivity|]. split; [|vm_compute; reflexivity].
  apply (Within_containment "/data" "/data/../data/x" eq_refl).
  split; [reflexivity|]. split; [intros E; vm_compute in E; discriminate E|].
  split; [exists ["x"]; vm_compute; reflexivity|].
  vm_compute. repeat constructor; discriminate.
Defined.

(** "remember this directory" on a file.  For a cleaned absolute path the
    rule covers the file it was remembered for exactly when the file is not
    directly under the root: the rule for [/f] is the directory [/], which
    [Within] never extends below itself, so the same request is asked again. *)
Lemma remembered_dir_rule parse req now l x :
  req_kind req = KindRead ∨ req_kind req = KindWrite →
  is_abs (req_path req) = true → clean (req_path req) = req_path req →
  clean_parts (req_path req) = (l ++ [x])%list →
  ruleMatchesShell parse (RuleFor req ScopeDir now) req false = true ↔ l ≠ [].
Proof.
  intros K A C P.
  pose proof (clean_parts_good (req_path req)) as G. pose proof (clean_parts_rooted _ A) as N.
  assert (D : dir (req_path req) = render true l).
  { rewrite <- C. unfold clean. rewrite A, P. apply dir_render; by rewrite <- P. }
  assert (W : Within (render true l) (req_path req) = true ↔ l ≠ []).
  { rewrite P in G, N. apply Forall_app in G as [Gl _], N as [Nl _].
    rewrite (Within_containment (render true l)) by done.
    rewrite clean_parts_render, P by done. split.
    - intros (_ & H & _) ->. by specialize (H eq_refl).
    - intros Hl. split; [done|]. split; [done|]. split; [by exists [x]|].
      rewrite <- P. by apply clean_parts_rooted. }
  rewrite <- W, <- D. unfold ruleMatchesShell, RuleFor. by destruct K as [-> | ->].
Qed.

Lemma remembered_dir_rule_witness :
  ruleMatchesShell (λ _, None) (RuleFor (Request KindRead "" "/f" "" "fp" "") ScopeDir 1)
    (Request KindRead "" "/f" "" "fp" "") false = false.
Proof.
  apply not_true_iff_false. intros H. apply (remembered_dir_rule (λ _, None) (Request KindRead "" "/f" "" "fp" "") 1 [] "f") in H;
    [done|by left|reflexivity|vm_compute; reflexivity|vm_compute; reflexivity].
Defined.

(** ** The persisted engine: what a restart reads back *)

Inductive engine_op := OpAdd (r : rule) (now : Z) | OpRemove (i : Z) | OpSetMode (m : mode).

Definition apply_op (o : engine_op) (s : engine * disk) : engine * disk :=
  let '(e, d) := s in
  match o with
  | OpAdd r now => let '(e, (_, d)) := Add r now e d in (e, d)
  | OpRemove i => let '(e, (_, d)) := Remove i e d in (e, d)
  | OpSetMode m => SetMode m e d
  end.

Definition valid_mode (m : mode) : Prop := m = ModeNormal ∨ m = ModeBypass.
Definition valid_op (o : engine_op) : Prop := match o with OpSetMode m => valid_mode m | _ => True end.

(** The files say what the engine holds in memory. *)
Definition persisted (s : engine * disk) : Prop :=
  let '(e, d) := s in
  writable d = true ∧ valid_mode (e_mode e) ∧
  (loadMode d = e_mode e ∨ loadMode d = "" ∧ e_mode e = ModeNormal) ∧
  (rules_on_disk d = RulesSaved (rules e) ∨ rules_on_disk d = RulesAbsent ∧ rules e = []).

Lemma loadMode_save e d r d' : save e d = (r, d') → loadMode d' = loadMode d.
Proof. unfold save. destruct (writable d); by intros [= _ <-]. Qed.

Lemma persisted_op o s : valid_op o → persisted s → persisted (apply_op o s).
Proof.
  destruct s as [e d]. intros V (W & M & L & R). destruct o as [r now|i|m]; simpl.
  - unfold save. rewrite W. simpl. auto.
  - unfold Remove. destruct (_ || _); [simpl; auto|]. unfold save. rewrite W. simpl. auto.
  - split; [unfold saveMode; by rewrite W|]. split; [done|]. split.
    + left. apply (loadMode_saveMode (Engine (rules e) m (psShell e))); [done|exact V].
    + unfold saveMode. by rewrite W.
Qed.

Lemma persisted_open m d e d' :
  Open m d = (Ok e, d') → writable d = true → m = "" ∨ valid_mode m → persisted (e, d').
Proof.
  unfold Open. intros O W V.
  assert (Hm : ∀ m' d'', (let e0 := Engine [] m' false in
     match rules_on_disk d'' with
     | RulesAbsent => (Ok e0, d'') | RulesUnreadable => (Err ErrRead, d'')
     | RulesCorrupt => (Err ErrParse, d'') | RulesSaved l => (Ok (Engine l m' false), d'')
     end) = (Ok e, d') → writable d'' = true → valid_mode m' →
     (loadMode d'' = m' ∨ loadMode d'' = "" ∧ m' = ModeNormal) → persisted (e, d')).
  { intros m' d'' E W' V' L'. destruct (rules_on_disk d'') eqn:R; try done;
      injection E as <- <-; (split; [done|]); (split; [done|]); (split; [done|]); simpl; auto. }
  destruct (String.eqb_spec m "") as [->|Hne]; simpl in O.
  - destruct (String.eqb_spec (loadMode d) "") as [E|E].
    + eapply (Hm ModeNormal d); [exact O|done|by left|auto].
    + eapply (Hm (loadMode d) d); [exact O|done| |by left].
      unfold loadMode in *. destruct (mode_file d); [|done].
      destruct (_ || _) eqn:X in E |- *; [|done]. apply orb_true_iff in X as [X|X];
        apply String.eqb_eq in X; rewrite X; [by left|by right].
  - destruct V as [?|V]; [done|].
    assert (String.eqb m "" = false) as Em by (by destruct V as [-> | ->]). rewrite Em in O.
    eapply (Hm m (saveMode (Engine [] m false) d)); [exact O| |done|left].
    + unfold saveMode. by rewrite W.
    + by apply loadMode_saveMode.
Qed.

(** Nothing an owner decided is lost by a restart.  From any opened engine
    whose directory can be written, after any sequence of added and removed
    rules and mode switches, opening the files again without a mode flag gives
    the same rules in the same order and the same mode. *)
Lemma restart_preserves_engine m0 d0 e0 d ops e' d' :
  Open m0 d0 = (Ok e0, d) → writable d0 = true → m0 = "" ∨ valid_mode m0 →
  Forall valid_op ops →
  fold_left (λ s o, apply_op o s) ops (e0, d) = (e', d') →
  Open "" d' = (Ok (Engine (rules e') (e_mode e') false), d').
Proof.
  intros O W V H F.
  assert (P : persisted (e', d')).
  { rewrite <- F. pose proof (persisted_open _ _ _ _ O W V) as P. revert P. clear -H.
    generalize (e0, d). induction H as [|o ops Ho _ IH]; intros s P; [done|].
    apply IH. by apply persisted_op. }
  destruct P as (_ & M & L & R). unfold Open. simpl.
  assert ((if String.eqb (loadMode d') "" then ModeNormal else loadMode d') = e_mode e') as ->.
  { destruct L as [-> | [-> ->]]; [|done]. by destruct M as [-> | ->]. }
  destruct R as [-> | [-> ->]]; done.
Qed.

Lemma restart_preserves_engine_witness :
  let d0 := Disk None RulesAbsent true in
  let r := Rule KindExec "ls" "" ScopeGlobal 7%Z in
  let d' := Disk (Some ("bypass" ++ newline)) (RulesSaved [r]) true in
  Open "" d' = (Ok (Engine [r] ModeBypass false), d').
Proof.
  refine (restart_preserves_engine "" (Disk None RulesAbsent true) (Engine [] ModeNormal false)
    (Disk None RulesAbsent true) [OpAdd (Rule KindExec "ls" "" ScopeGlobal 7%Z) 7%Z; OpSetMode ModeBypass]
    (Engine [Rule KindExec "ls" "" ScopeGlobal 7%Z] ModeBypass false) _ _ eq_refl _ _ _);
    [reflexivity|by left|repeat constructor; by right|reflexivity].
Defined.
