(* ===== verification/Residency.v ===== *)
(** [internal/relay/resident.go]: the account every direction of every HTTP
    session draws on - the relay's total and each namespace's share of it. *)

From S2P Require Import Prelude.

Local Open Scope Z_scope.

Definition maxResidentPerDirection : Z := Z.shiftl 32 20.
Definition maxResidentPerNamespace : Z := 2 * maxResidentPerDirection.
Definition maxResidentTotal : Z := Z.shiftl 256 20.
(** [limits.RelayHTTPUploadBytes] *)
Definition maxUploadBytes : Z := Z.shiftl 1 20.
Definition residencyReportEvery : Z := 10 * minute.

(** One namespace's part; [refs] counts the queues that charge it. *)
Record nsShare := NsShare { sh_used : Z; sh_refs : Z }.

(** [room] is whether a writer waits on the account (the channel that release
    closes); a queue names its share by its namespace. *)
Record residency := Residency {
  p_limit : Z; p_used : Z; p_nsLimit : Z; p_ns : gmap string nsShare; p_room : bool;
  p_peak : Z; p_waitsTotal : Z; p_waitsNS : Z; p_reported : Z }.

Definition newResidency (now : Z) : residency :=
  Residency maxResidentTotal 0 maxResidentPerNamespace ∅ false 0 0 0 now.

Definition set_ns (m : gmap string nsShare) (p : residency) : residency :=
  Residency (p_limit p) (p_used p) (p_nsLimit p) m (p_room p) (p_peak p) (p_waitsTotal p) (p_waitsNS p) (p_reported p).

Definition set_room (b : bool) (p : residency) : residency :=
  Residency (p_limit p) (p_used p) (p_nsLimit p) (p_ns p) b (p_peak p) (p_waitsTotal p) (p_waitsNS p) (p_reported p).

Definition join (ns : string) (p : residency) : residency :=
  match p_ns p !! ns with
  | Some sh => set_ns (<[ns := NsShare (sh_used sh) (sh_refs sh + 1)]> (p_ns p)) p
  | None => set_ns (<[ns := NsShare 0 1]> (p_ns p)) p
  end.

Definition leave (sh : option string) (p : residency) : residency :=
  match sh with
  | None => p
  | Some ns =>
      match p_ns p !! ns with
      | None => p
      | Some s =>
          let refs := sh_refs s - 1 in
          if refs =? 0 then set_ns (delete ns (p_ns p)) p
          else set_ns (<[ns := NsShare (sh_used s) refs]> (p_ns p)) p
      end
  end.

(** What namespace [sh] has charged; 0 for an exempt queue. *)
Definition share_used (sh : option string) (p : residency) : Z :=
  match sh with
  | None => 0
  | Some ns => match p_ns p !! ns with Some s => sh_used s | None => 0 end
  end.

#[global] Arguments share_used : simpl never.

(** Add [n] to a share's charge. *)
Definition charge_share (sh : option string) (n : Z) (p : residency) : gmap string nsShare :=
  match sh with
  | None => p_ns p
  | Some ns =>
      match p_ns p !! ns with
      | Some s => <[ns := NsShare (sh_used s + n) (sh_refs s)]> (p_ns p)
      | None => p_ns p
      end
  end.

(** [reserve]: [None] on success, [Some nsFull] when the caller must wait. *)
Definition reserve (sh : option string) (n spare : Z) (p : residency) : option bool * residency :=
  let overTotal := p_limit p - spare <? p_used p + n in
  let overNS := match sh with
                | None => false
                | Some _ => p_nsLimit p - spare <? share_used sh p + n
                end in
  if overTotal || overNS then (Some (negb overTotal), set_room true p)
  else
    let used := p_used p + n in
    (None, Residency (p_limit p) used (p_nsLimit p) (charge_share sh n p) (p_room p)
             (Z.max (p_peak p) used) (p_waitsTotal p) (p_waitsNS p) (p_reported p)).

Definition noteWait (nsFull : bool) (p : residency) : residency :=
  Residency (p_limit p) (p_used p) (p_nsLimit p) (p_ns p) (p_room p) (p_peak p)
    (if nsFull then p_waitsTotal p else p_waitsTotal p + 1)
    (if nsFull then p_waitsNS p + 1 else p_waitsNS p) (p_reported p).

Definition release (sh : option string) (n : Z) (p : residency) : residency :=
  if n =? 0 then p
  else Residency (p_limit p) (p_used p - n) (p_nsLimit p) (charge_share sh (- n) p) false
         (p_peak p) (p_waitsTotal p) (p_waitsNS p) (p_reported p).

Definition resident_now (p : residency) : Z := p_used p.

(** The figures of one report line. *)
Record report_line := ReportLine {
  rl_peak : Z; rl_since : Z; rl_limit : Z; rl_nsLimit : Z; rl_used : Z;
  rl_sessions : Z; rl_waitsTotal : Z; rl_waitsNS : Z }.

Definition report (now sessions : Z) (p : residency) : option report_line * residency :=
  if (now - p_reported p <? residencyReportEvery)
     || ((p_peak p =? 0) && (p_waitsTotal p =? 0) && (p_waitsNS p =? 0))
  then (None, p)
  else (Some (ReportLine (p_peak p) (now - p_reported p) (p_limit p) (p_nsLimit p) (p_used p)
                sessions (p_waitsTotal p) (p_waitsNS p)),
        Residency (p_limit p) (p_used p) (p_nsLimit p) (p_ns p) (p_room p) (p_used p) 0 0 now).

(** ** What the queues rely on *)

(** A charge moves the total and the caller's share by the same amount, and no
    other share. *)
Record charged (sh : option string) (n : Z) (p p' : residency) : Prop := {
  ch_total : p_used p' = p_used p + n;
  ch_share : ∀ ns, share_used (Some ns) p' =
               share_used (Some ns) p + (if decide (sh = Some ns ∧ is_Some (p_ns p !! ns)) then n else 0);
  ch_refs : ∀ ns, sh_refs <$> p_ns p' !! ns = sh_refs <$> p_ns p !! ns;
  ch_limits : p_limit p' = p_limit p ∧ p_nsLimit p' = p_nsLimit p }.

Lemma charge_share_lookup sh n p ns :
  charge_share sh n p !! ns =
    if decide (sh = Some ns) then (λ s, NsShare (sh_used s + n) (sh_refs s)) <$> p_ns p !! ns
    else p_ns p !! ns.
Proof.
  unfold charge_share. destruct sh as [m|]; [|by case_decide].
  destruct (decide (m = ns)) as [->|N].
  - rewrite decide_True by done. destruct (p_ns p !! ns) eqn:E; [by rewrite lookup_insert_eq|by rewrite E].
  - rewrite decide_False by congruence. destruct (p_ns p !! m); [by rewrite lookup_insert_ne|done].
Qed.

Lemma charge_share_used sh n p r ns :
  (match charge_share sh n p !! ns with Some s => sh_used s | None => 0 end) =
  share_used (Some ns) p + (if decide (sh = Some ns ∧ is_Some (p_ns p !! ns)) then n else 0) ∧
  (r = charge_share sh n p → sh_refs <$> r !! ns = sh_refs <$> p_ns p !! ns).
Proof.
  rewrite charge_share_lookup. unfold share_used. split.
  - destruct (decide (sh = Some ns)); destruct (p_ns p !! ns) eqn:E; simpl; case_decide as D; try lia;
      exfalso; try (apply D; split; [done|eauto]); destruct D as [? [? ?]]; congruence.
  - intros ->. rewrite charge_share_lookup. case_decide; [|done]. by destruct (p_ns p !! ns).
Qed.

Lemma reserve_charged sh n spare p p' : reserve sh n spare p = (None, p') → charged sh n p p'.
Proof.
  unfold reserve. destruct (_ || _); [done|]. intros [= <-]. split; simpl; try done.
  - intros ns. exact (proj1 (charge_share_used sh n p ∅ ns)).
  - intros ns. exact (proj2 (charge_share_used sh n p _ ns) eq_refl).
Qed.

Lemma reserve_wait sh n spare p b p' : reserve sh n spare p = (Some b, p') → p' = set_room true p.
Proof. unfold reserve. destruct (_ || _); [by intros [= _ <-]|done]. Qed.

Lemma release_charged sh n p : charged sh (- n) p (release sh n p).
Proof.
  unfold release. destruct (Z.eqb_spec n 0) as [->|].
  - split; [lia|intros ns; case_decide; lia|done|done].
  - split; simpl; [lia| | |done].
    + intros ns. exact (proj1 (charge_share_used sh (- n) p ∅ ns)).
    + intros ns. exact (proj2 (charge_share_used sh (- n) p _ ns) eq_refl).
Qed.

(** A reservation that succeeds leaves [spare] free at both levels. *)
Lemma reserve_fits sh n spare p p' :
  reserve sh n spare p = (None, p') →
  p_used p' ≤ p_limit p - spare ∧ (sh ≠ None → share_used sh p + n ≤ p_nsLimit p - spare).
Proof.
  unfold reserve. destruct (_ || _) eqn:E; [done|]. intros [= <-]. apply orb_false_iff in E as [E1 E2].
  apply Z.ltb_ge in E1. split; [done|]. intros H. destruct sh; [|done]. by apply Z.ltb_ge in E2.
Qed.

Lemma charged_trans sh a b p p' p'' :
  charged sh a p p' → charged sh b p' p'' → charged sh (a + b) p p''.
Proof.
  intros [T1 S1 R1 [L1 N1]] [T2 S2 R2 [L2 N2]]. split; [lia| | |split; congruence].
  - intros ns. rewrite S2, S1.
    assert (is_Some (p_ns p' !! ns) ↔ is_Some (p_ns p !! ns)) as E.
    { rewrite <- (fmap_is_Some sh_refs (p_ns p' !! ns)), R1. apply fmap_is_Some. }
    repeat case_decide; try lia; naive_solver.
  - intros ns. by rewrite R2.
Qed.

Lemma charged_refl sh p p' :
  p_used p' = p_used p → p_ns p' = p_ns p → p_limit p' = p_limit p → p_nsLimit p' = p_nsLimit p →
  charged sh 0 p p'.
Proof.
  intros U N L1 L2. split; [lia| |by intros; rewrite N|done].
  intros ns. unfold share_used. rewrite N. case_decide; lia.
Qed.
