(* ===== verification/SideQueue.v ===== *)
(** [internal/relay/http.go], [sideQueue]: one direction of a relayed session.
    The relay never inspects the bytes, so the byte type is a parameter.  Each
    definition is one critical section (under [ackMu], or [seqMu] and [ackMu])
    of the code; the waits between them are the [MustWait] results. *)

From S2P Require Import Prelude Residency.

Local Open Scope Z_scope.

(** Capacity of the channel. *)
Definition queueChunks : Z := 256.
Definition maxDrainBytes : Z := Z.shiftl 2 20.
Definition maxDrainLimit : Z := Z.shiftl 16 20.

Section side_queue.
Context {B : Type}.
Implicit Types (b data : list B).

Definition blen (b : list B) : Z := Z.of_nat (length b).

(** [room] is whether a writer waits on this direction; [pooled] whether
    [attach] tied it to the relay's account; [share] the namespace it charges. *)
Record sideQueue := SideQueue {
  ch : list (list B); done : bool;
  seq : nat; assigned : gmap nat (list B); unacked : list B; head : list B;
  seqNext : nat; seqHeld : gmap nat (list B); inflight : bool;
  limit : Z; resident : Z; slots : Z; room : bool;
  pooled : bool; share : option string; freed : bool }.

Definition newSideQueue : sideQueue :=
  SideQueue [] false 0 ∅ [] [] 1 ∅ false maxResidentPerDirection 0 0 false false None false.

(** Field updates. *)
Definition with_acct (res sl : Z) (rm : bool) (q : sideQueue) : sideQueue :=
  SideQueue (ch q) (done q) (seq q) (assigned q) (unacked q) (head q) (seqNext q) (seqHeld q)
    (inflight q) (limit q) res sl rm (pooled q) (share q) (freed q).
Definition with_ch (c : list (list B)) (q : sideQueue) : sideQueue :=
  SideQueue c (done q) (seq q) (assigned q) (unacked q) (head q) (seqNext q) (seqHeld q)
    (inflight q) (limit q) (resident q) (slots q) (room q) (pooled q) (share q) (freed q).
Definition with_up (n : nat) (held : gmap nat (list B)) (q : sideQueue) : sideQueue :=
  SideQueue (ch q) (done q) (seq q) (assigned q) (unacked q) (head q) n held
    (inflight q) (limit q) (resident q) (slots q) (room q) (pooled q) (share q) (freed q).
Definition with_down (n : nat) (m : gmap nat (list B)) (u : list B) (q : sideQueue) : sideQueue :=
  SideQueue (ch q) (done q) n m u (head q) (seqNext q) (seqHeld q)
    (inflight q) (limit q) (resident q) (slots q) (room q) (pooled q) (share q) (freed q).
Definition with_head (h : list B) (q : sideQueue) : sideQueue :=
  SideQueue (ch q) (done q) (seq q) (assigned q) (unacked q) h (seqNext q) (seqHeld q)
    (inflight q) (limit q) (resident q) (slots q) (room q) (pooled q) (share q) (freed q).
Definition with_inflight (f : bool) (q : sideQueue) : sideQueue :=
  SideQueue (ch q) (done q) (seq q) (assigned q) (unacked q) (head q) (seqNext q) (seqHeld q)
    f (limit q) (resident q) (slots q) (room q) (pooled q) (share q) (freed q).
Definition with_done (q : sideQueue) : sideQueue :=
  SideQueue (ch q) true (seq q) (assigned q) (unacked q) (head q) (seqNext q) (seqHeld q)
    (inflight q) (limit q) (resident q) (slots q) (room q) (pooled q) (share q) (freed q).

Definition attach (ns : string) (q : sideQueue) (p : residency) : sideQueue * residency :=
  let sh := if String.eqb ns "" then None else Some ns in
  (SideQueue (ch q) (done q) (seq q) (assigned q) (unacked q) (head q) (seqNext q) (seqHeld q)
     (inflight q) (limit q) (resident q) (slots q) (room q) true sh (freed q),
   match sh with Some ns => join ns p | None => p end).

(** ** Room *)

(** What a write learns when it asks for room. *)
Inductive admission := Granted | MustWait | RepeatWrite | OutOfWindow | QueueClosed.

#[export] Instance admission_eq_dec : EqDecision admission.
Proof. solve_decision. Defined.

Definition seqWindowLocked (q : sideQueue) : Z := Z.max (limit q / maxUploadBytes - 2) 1.

Definition wakeLocked (q : sideQueue) : sideQueue := with_acct (resident q) (slots q) false q.

Definition releaseLocked (n sl : Z) (q : sideQueue) (p : residency) : sideQueue * residency :=
  if freed q || ((n =? 0) && (sl =? 0)) then (q, p)
  else
    let q := wakeLocked (with_acct (resident q - n) (slots q - sl) (room q) q) in
    (q, if pooled q then release (share q) n p else p).

(** [reserveLocked]: [None] on success, else whether the relay's account was
    the one without room and whether it was the namespace's share. *)
Definition reserveLocked (n : Z) (ahead : bool) (q : sideQueue) (p : residency)
  : option (bool * bool) * sideQueue * residency :=
  let spare := if ahead then maxUploadBytes else 0 in
  let spareSlots := if ahead then 1 else 0 in
  if (limit q - spare <? resident q + n) || (queueChunks - spareSlots <? slots q + 1)
  then (Some (false, false), with_acct (resident q) (slots q) true q, p)
  else
    let grant := with_acct (resident q + n) (slots q + 1) (room q) q in
    if pooled q then
      match reserve (share q) n spare p with
      | (Some nsFull, p) => (Some (true, nsFull), q, p)
      | (None, p) => (None, grant, p)
      end
    else (None, grant, p).

(** [tryReserve]; [waited] is whether this write was already counted. *)
Definition tryReserve (n : Z) (ahead waited : bool) (q : sideQueue) (p : residency)
  : admission * bool * sideQueue * residency :=
  if done q then (QueueClosed, waited, q, p)
  else if n =? 0 then (Granted, waited, q, p)
  else
    match reserveLocked n ahead q p with
    | (None, q, p) => (Granted, waited, q, p)
    | (Some (onPool, nsFull), q, p) =>
        if onPool && negb waited then (MustWait, true, q, noteWait nsFull p)
        else (MustWait, waited, q, p)
    end.

(** One pass of [admitSeq]'s loop; on [MustWait] the writer waits for [room]
    to be closed and passes again. *)
Definition admitSeq (sq : nat) (n : Z) (waited : bool) (q : sideQueue) (p : residency)
  : admission * bool * sideQueue * residency :=
  let next := seqNext q in
  let held := match seqHeld q !! sq with Some _ => true | None => false end in
  if (sq <? next)%nat || held then (RepeatWrite, waited, q, p)
  else if Z.of_nat next + seqWindowLocked q <? Z.of_nat sq then (OutOfWindow, waited, q, p)
  else tryReserve n (next <? sq)%nat waited q p.

(** [sideQueue.reserve]: one pass, for a writer that does not number writes. *)
Definition reserveWrite (n : Z) (waited : bool) (q : sideQueue) (p : residency)
  : admission * bool * sideQueue * residency := tryReserve n false waited q p.

Definition keepLocked (reserved used : Z) (q : sideQueue) (p : residency) : sideQueue * residency :=
  let sl := if (0 <? reserved) && (used =? 0) then 1 else 0 in
  releaseLocked (reserved - used) sl q p.

Definition unreserve (reserved : Z) (q : sideQueue) (p : residency) : sideQueue * residency :=
  keepLocked reserved 0 q p.

(** ** Taking writes into the stream *)

Inductive commit := Committed | CommitClosed.

(** [q.ch <- b], for a write whose slot is held. *)
Definition send (b : list B) (q : sideQueue) : sideQueue :=
  if blen b =? 0 then q else with_ch (ch q ++ [b]) q.

Definition enqueueLocked (b : list B) (reserved : Z) (q : sideQueue) (p : residency)
  : commit * sideQueue * residency :=
  if done q then let '(q, p) := keepLocked reserved 0 q p in (CommitClosed, q, p)
  else let '(q, p) := keepLocked reserved (blen b) q p in (Committed, send b q, p).

Definition enqueue := enqueueLocked.

(** The loop of [commitSeq] that follows a gap being filled. *)
Fixpoint settleHeld (fuel : nat) (q : sideQueue) : sideQueue :=
  match fuel with
  | O => q
  | S fuel =>
      let n := S (seqNext q) in
      match seqHeld q !! n with
      | None => with_up n (seqHeld q) q
      | Some b => settleHeld fuel (send b (with_up n (delete n (seqHeld q)) q))
      end
  end.

Definition commitSeq (sq : nat) (b : list B) (reserved : Z) (q : sideQueue) (p : residency)
  : commit * sideQueue * residency :=
  if done q then let '(q, p) := keepLocked reserved 0 q p in (CommitClosed, q, p)
  else if (match seqHeld q !! sq with Some _ => true | None => false end) || (sq <? seqNext q)%nat
  then let '(q, p) := keepLocked reserved 0 q p in (Committed, q, p)
  else if (seqNext q <? sq)%nat
  then let '(q, p) := keepLocked reserved (blen b) q p in
       (Committed, with_up (seqNext q) (<[sq := b]> (seqHeld q)) q, p)
  else
    match enqueueLocked b reserved q p with
    | (CommitClosed, q, p) => (CommitClosed, q, p)
    | (Committed, q, p) => (Committed, wakeLocked (settleHeld (S (size (seqHeld q))) q), p)
    end.

(** [close] and [free].  The code empties [ch] one chunk at a time under the two
    locks, while a poll that is receiving takes chunks without them; here it is
    one step, so what such a poll still takes from a queue being freed is left
    out: it may miss chunks that [free] dropped before. *)
Definition close (q : sideQueue) : sideQueue := with_done q.

Definition free (q : sideQueue) (p : residency) : sideQueue * residency :=
  let q := close q in
  if freed q then (q, p)
  else
    let p := if pooled q then leave (share q) (release (share q) (resident q) p) else p in
    (SideQueue [] (done q) (seq q) ∅ [] [] (seqNext q) ∅ (inflight q) (limit q) 0 0 false
       (pooled q) (share q) true, p).

(** ** Draining *)

Definition beginTake (q : sideQueue) : sideQueue := with_inflight true q.
Definition endTake (q : sideQueue) : sideQueue := with_inflight false q.

Definition settled (q : sideQueue) : bool :=
  done q && negb (inflight q) && (size (assigned q) =? 0)%nat
  && (blen (head q) =? 0) && (length (ch q) =? 0)%nat.

Definition undelivered (q : sideQueue) : bool * bool :=
  (inflight q, negb (size (assigned q) =? 0)%nat).

Definition min_key {A} (m : gmap nat A) : option nat :=
  map_fold (λ k _ acc, match acc with None => Some k | Some j => Some (Nat.min k j) end) None m.

Definition oldest (m : gmap nat (list B)) : list B :=
  match min_key m with Some k => default [] (m !! k) | None => [] end.

Definition bytes_in (m : gmap nat (list B)) : Z := map_fold (λ _ b acc, blen b + acc) 0 m.

Definition dropAcked (ack : nat) (q : sideQueue) (p : residency) : sideQueue * residency :=
  let gone := filter (λ kb : nat * list B, kb.1 ≤ ack)%nat (assigned q) in
  let kept := filter (λ kb : nat * list B, ¬ (kb.1 ≤ ack)%nat) (assigned q) in
  releaseLocked (bytes_in gone) 0 (with_down (seq q) kept (oldest kept) q) p.

Definition assign (sq : nat) (data : list B) (q : sideQueue) : sideQueue :=
  with_down (seq q) (<[sq := data]> (assigned q))
    (if blen (unacked q) =? 0 then data else unacked q) q.

(** [appendCapped] of [drainUpTo]: [out] grows by what still fits under
    [lim], the rest is parked in [head]. *)
Definition appendCapped (lim : Z) (out b : list B) (q : sideQueue) : list B * sideQueue :=
  let rm := Z.to_nat (lim - blen out) in
  if (rm <? length b)%nat then (out ++ take rm b, with_head (drop rm b) q) else (out ++ b, q).

(** Start of [drainUpTo]: the split tail is served before the channel. *)
Definition drainHead (lim : Z) (q : sideQueue) : list B * sideQueue :=
  let h := head q in
  let q := with_head [] q in
  if 0 <? blen h then appendCapped lim [] h q else ([], q).

(** One [case b := <-q.ch: took(b)]. *)
Definition drainRecv (lim : Z) (out : list B) (q : sideQueue) : option (list B * sideQueue) :=
  match ch q with
  | [] => None
  | b :: rest => Some (appendCapped lim out b (with_ch rest q))
  end.

(** [fill] on what is queued now; returns also how many chunks were taken. *)
Fixpoint fill (fuel : nat) (lim : Z) (out : list B) (taken : Z) (q : sideQueue) : list B * Z * sideQueue :=
  match fuel with
  | O => (out, taken, q)
  | S fuel =>
      if blen out <? lim then
        match drainRecv lim out q with
        | Some (out, q) => fill fuel lim out (taken + 1) q
        | None => (out, taken, q)
        end
      else (out, taken, q)
  end.

(** [drainUpTo] when nothing arrives while it runs: what is queued, capped at
    [lim]; [closed] is whether the queue is closed with nothing left. The slots
    of the chunks taken are given back at the end. *)
Definition drainUpTo (lim : Z) (q : sideQueue) (p : residency) : list B * bool * sideQueue * residency :=
  let '(out, q) := drainHead lim q in
  let '(out, taken, q) := fill (length (ch q)) lim out 0 q in
  let '(q, p) := if 0 <? taken then releaseLocked 0 taken q p else (q, p) in
  (out, done q && (blen out =? 0), q, p).

Definition drain (q : sideQueue) (p : residency) := drainUpTo maxDrainBytes q p.

(** What a poll answers: a numbered chunk, nothing, or the end. *)
Inductive reply := Chunk (data : list B) (sq : nat) | Empty | Closed | Stale.

(** The first assigned sequence above [ack], up to [seq]. *)
Fixpoint replay (m : gmap nat (list B)) (k : nat) (n : nat) : option (list B * nat) :=
  match n with
  | O => None
  | S n => match m !! k with Some b => Some (b, k) | None => replay m (S k) n end
  end.

(** [takeUpTo] by the poll that holds the turn, with nothing arriving while it
    drains. *)
Definition takeUpTo (ack : nat) (lim : Z) (q : sideQueue) (p : residency) : reply * sideQueue * residency :=
  let q := beginTake q in
  let '(q, p) := dropAcked ack q p in
  match replay (assigned q) (S ack) (seq q - ack) with
  | Some (b, k) => (Chunk b k, endTake q, p)
  | None =>
      let '(data, closed, q, p) := drainUpTo lim q p in
      if blen data =? 0 then ((if closed then Closed else Empty), endTake q, p)
      else
        let sq := S (seq q) in
        (Chunk data sq, endTake (assign sq data (with_down sq (assigned q) (unacked q) q)), p)
  end.

Definition takeQ (ack : nat) (q : sideQueue) (p : residency) := takeUpTo ack maxDrainBytes q p.

(** [takeWindow] for poll number [want]: [None] is a future poll that waits
    for its predecessor without the turn. *)
Definition takeWindow (ack want : nat) (lim : Z) (q : sideQueue) (p : residency)
  : option reply * sideQueue * residency :=
  let '(q, p) := dropAcked ack q p in
  match assigned q !! want with
  | Some b => (Some (Chunk b want), q, p)
  | None =>
      if (want <=? seq q)%nat then (Some Stale, q, p)
      else if (S (seq q) <? want)%nat then (None, q, p)
      else
        let '(data, closed, q, p) := drainUpTo lim (beginTake q) p in
        if blen data =? 0 then (Some (if closed then Closed else Empty), endTake q, p)
        else (Some (Chunk data want), endTake (assign want data (with_down want (assigned q) (unacked q) q)), p)
  end.

(** [pollDrain]: a reader that does not acknowledge. *)
Definition pollDrain (q : sideQueue) (p : residency) : list B * bool * sideQueue * residency :=
  let '(data, closed, q, p) := drain (beginTake q) p in
  let '(q, p) := releaseLocked (blen data) 0 q p in
  (data, closed, endTake q, p).
End side_queue.

Arguments sideQueue : clear implicits.
Arguments reply : clear implicits.
