(* ===== verification/QueueSteps.v ===== *)
(** The life of one direction of a relayed session as a transition system.  A
    state is the queue of [SideQueue] together with what other goroutines hold
    of it: writes admitted and not yet committed, and the poll that has the
    turn.  Every event is one critical section (or one channel operation) of the
    code, so the interleavings are those of its locks; the relay's account may
    change between two events in any way, because other sessions charge it.
    Two histories are kept beside the state: the writes taken into the stream
    and the chunks handed to readers. *)

From S2P Require Import Prelude Residency SideQueue.

Local Open Scope Z_scope.

(** ** Sums over the maps of a queue *)

Lemma msum_filter {A} (f : A → Z) (P : nat * A → Prop) `{∀ x, Decision (P x)} m :
  msum f m = msum f (filter P m) + msum f (filter (λ x, ¬ P x) m).
Proof.
  induction m as [|k b m E IH] using map_ind; [by rewrite !map_filter_empty|].
  assert (∀ (Q : nat * A → Prop) (D : ∀ x, Decision (Q x)), filter Q m !! k = None) as N.
  { intros Q D. apply map_lookup_filter_None. by left. }
  rewrite msum_insert by done. destruct (decide (P (k, b))) as [HP|HP].
  - rewrite map_filter_insert_True by done. rewrite map_filter_insert_False by naive_solver.
    rewrite msum_insert by apply N. rewrite delete_id by done. lia.
  - rewrite map_filter_insert_False by done. rewrite map_filter_insert_True by done.
    rewrite msum_insert by apply N. rewrite delete_id by done. lia.
Qed.

Lemma sum_Z_insert {A} (f : A → Z) l i x y :
  l !! i = Some x → sum_Z f (<[i := y]> l) = sum_Z f l - f x + f y.
Proof.
  revert i. induction l as [|z l IH]; intros [|i]; simpl; intros H; try done.
  - injection H as ->. lia.
  - rewrite (IH _ H). lia.
Qed.

Lemma sum_Z_delete {A} (f : A → Z) l i x :
  l !! i = Some x → sum_Z f l = f x + sum_Z f (delete i l).
Proof.
  revert i. induction l as [|z l IH]; intros [|i]; simpl; intros H; try done.
  - injection H as ->. lia.
  - rewrite (IH _ H). lia.
Qed.

Lemma Forall_delete_l {A} (P : A → Prop) l i : Forall P l → Forall P (delete i l).
Proof.
  intros H. revert i. induction H as [|x l Hx Hl IH]; intros [|i]; simpl; [done|done|done|].
  constructor; [done|apply IH].
Qed.

(** ** States and events *)

Section steps.
Context {B : Type}.

(** A write admitted and not yet committed: its number ([None] for a writer
    that does not number writes), the room it was given, and whether it was
    admitted ahead of a gap. *)
Record pending := Pending { pd_seq : option nat; pd_n : Z; pd_ahead : bool }.

(** Who polls: [takeUpTo], [takeWindow] for poll [want], or [pollDrain]. *)
Inductive reader := Acked | Windowed (want : nat) | Unacked.

(** Where the poll that has the turn is: it has just taken it, it has looked at
    what is assigned, it drains, it has given its slots back, it has published
    its chunk. *)
Inductive phase := Turn | Start | Draining | Drained | Published.

(** [pl_got] is a chunk received and not yet appended to [pl_out]. *)
Record poll := Poll {
  pl_reader : reader; pl_lim : Z; pl_phase : phase;
  pl_got : list B; pl_out : list B; pl_taken : Z }.

Record sys := Sys {
  queue : sideQueue B; pend : list pending; hand : option poll;
  entries : list (option nat * list B);
  outs : list (option nat * list B) }.

Inductive event :=
| EAdmit (sq : nat) (n : Z) (waited : bool)
| EReserve (n : Z) (waited : bool)
| ECommit (i : nat) (b : list B)
| EEnqueue (i : nat) (b : list B)
| EUnreserve (i : nat)
| ETurn (r : reader) (lim : Z)
| ELook (ack : nat)
| EWindow (ack want : nat)
| EHead
| EAppend
| ERecv
| EDrained
| EPublish
| EEnd
| EClose
| EFree.

Definition start (q : sideQueue B) : sys := Sys q [] None [] [].

Definition with_queue (q : sideQueue B) (s : sys) : sys := Sys q (pend s) (hand s) (entries s) (outs s).

(** The held writes that follow number [k], in order. *)
Fixpoint held_run (fuel k : nat) (m : gmap nat (list B)) : list (option nat * list B) :=
  match fuel with
  | O => []
  | S fuel => match m !! k with
              | None => []
              | Some b => (Some k, b) :: held_run fuel (S k) (delete k m)
              end
  end.

(** What [commitSeq] adds to the stream. *)
Definition taken_by_commit (sq : nat) (b : list B) (q : sideQueue B) : list (option nat * list B) :=
  if negb (done q) && (sq =? seqNext q)%nat && (match seqHeld q !! sq with None => true | Some _ => false end)
  then (Some sq, b) :: held_run (S (size (seqHeld q))) (S sq) (seqHeld q)
  else [].

Definition admitted (a : admission) (pd : pending) (l : list pending) : list pending :=
  match a with Granted => l ++ [pd] | _ => l end.

(** Number the finished chunk of a poll gets. *)
Definition publish_seq (r : reader) (q : sideQueue B) : option nat :=
  match r with Acked => Some (S (seq q)) | Windowed want => Some want | Unacked => None end.

(** Each event on the queue, with the relay's account. *)
Definition step (e : event) (s : sys) (p : residency) : option (sys * residency) :=
  let q := queue s in
  match e, hand s with
  | EAdmit sq n w, _ =>
      if n <? 0 then None else
      let '(a, _, q', p) := admitSeq sq n w q p in
      Some (Sys q' (admitted a (Pending (Some sq) n (seqNext q <? sq)%nat) (pend s))
              (hand s) (entries s) (outs s), p)
  | EReserve n w, _ =>
      if n <? 0 then None else
      let '(a, _, q', p) := reserveWrite n w q p in
      Some (Sys q' (admitted a (Pending None n false) (pend s)) (hand s) (entries s) (outs s), p)
  | ECommit i b, _ =>
      match pend s !! i with
      | Some (Pending (Some sq) n _) =>
          if n <? blen b then None else
          let '(_, q', p) := commitSeq sq b n q p in
          Some (Sys q' (delete i (pend s)) (hand s) (entries s ++ taken_by_commit sq b q) (outs s), p)
      | _ => None
      end
  | EEnqueue i b, _ =>
      match pend s !! i with
      | Some (Pending None n _) =>
          if n <? blen b then None else
          let '(c, q', p) := enqueue b n q p in
          Some (Sys q' (delete i (pend s)) (hand s)
                  (match c with Committed => entries s ++ [(None, b)] | CommitClosed => entries s end)
                  (outs s), p)
      | _ => None
      end
  | EUnreserve i, _ =>
      match pend s !! i with
      | Some pd => let '(q', p) := unreserve (pd_n pd) q p in
                   Some (Sys q' (delete i (pend s)) (hand s) (entries s) (outs s), p)
      | None => None
      end
  | EClose, _ => Some (with_queue (close q) s, p)
  | EFree, _ => let '(q', p) := free q p in Some (with_queue q' s, p)
  | EWindow ack want, _ =>
      let '(q', p) := dropAcked ack q p in Some (with_queue q' s, p)
  | ETurn r lim, None =>
      if (lim <=? 0) || (match r with Windowed want => negb (want =? S (seq q))%nat | _ => false end) then None
      else Some (Sys (beginTake q) (pend s)
                   (Some (Poll r lim (match r with Acked => Turn | _ => Start end) [] [] 0))
                   (entries s) (outs s), p)
  | ELook ack, Some (Poll Acked lim Turn got out tk) =>
      let '(q', p) := dropAcked ack q p in
      let ph := match replay (assigned q') (S ack) (seq q' - ack) with
                | Some _ => Published | None => Start end in
      Some (Sys q' (pend s) (Some (Poll Acked lim ph got out tk)) (entries s) (outs s), p)
  | EHead, Some (Poll r lim Start _ out tk) =>
      Some (Sys (with_head [] q) (pend s) (Some (Poll r lim Draining (head q) out tk)) (entries s) (outs s), p)
  | EAppend, Some (Poll r lim Draining got out tk) =>
      let '(out', q') := appendCapped lim out got q in
      Some (Sys q' (pend s) (Some (Poll r lim Draining [] out' tk)) (entries s) (outs s), p)
  | ERecv, Some (Poll r lim Draining [] out tk) =>
      match ch q with
      | b :: rest => if blen out <? lim
                     then Some (Sys (with_ch rest q) (pend s) (Some (Poll r lim Draining b out (tk + 1)))
                                  (entries s) (outs s), p)
                     else None
      | [] => None
      end
  | EDrained, Some (Poll r lim Draining [] out tk) =>
      let '(q', p) := if 0 <? tk then releaseLocked 0 tk q p else (q, p) in
      Some (Sys q' (pend s) (Some (Poll r lim Drained [] out 0)) (entries s) (outs s), p)
  | EPublish, Some (Poll r lim Drained _ out tk) =>
      let h := Some (Poll r lim Published [] [] tk) in
      if (blen out =? 0) then Some (Sys q (pend s) h (entries s) (outs s), p) else
      match publish_seq r q with
      | Some sq => Some (Sys (assign sq out (with_down sq (assigned q) (unacked q) q)) (pend s) h
                           (entries s) (outs s ++ [(Some sq, out)]), p)
      | None => let '(q', p) := releaseLocked (blen out) 0 q p in
                Some (Sys q' (pend s) h (entries s) (outs s ++ [(None, out)]), p)
      end
  | EEnd, Some (Poll _ _ Published _ _ _) =>
      Some (Sys (endTake q) (pend s) None (entries s) (outs s), p)
  | _, _ => None
  end.

(** A run of events. *)
Fixpoint exec (es : list event) (s : sys) (p : residency) : option (sys * residency) :=
  match es with
  | [] => Some (s, p)
  | e :: es => match step e s p with Some (s, p) => exec es s p | None => None end
  end.

(** A step of this direction while the rest of the relay charges the account
    as it likes: [p] is any account.  [w] is the stream a numbering writer
    sends: every try of write [k] carries [w k]. *)
Definition honest (w : nat → list B) (s : sys) (e : event) : Prop :=
  match e with
  | ECommit i b => ∀ sq n a, pend s !! i = Some (Pending (Some sq) n a) → b = w sq
  | _ => True
  end.

Definition steps (w : nat → list B) (s s' : sys) : Prop :=
  ∃ e p p', honest w s e ∧ step e s p = Some (s', p').

Definition running (w : nat → list B) : sys → Prop :=
  reachable (λ s, ∃ ns p, s = start (attach ns newSideQueue p).1 ∨ s = start newSideQueue) (steps w).
End steps.
