(* ===== verification/QueueFrames.v ===== *)
(** What each operation of [SideQueue] changes, as equations on the queue: the
    lemmas both invariants of the transition system are proved with. *)

From S2P Require Import Prelude Residency SideQueue QueueSteps.

Local Open Scope Z_scope.

Section frames.
Context {B : Type}.
Implicit Types (q : sideQueue B) (p : residency).

Lemma blen_nonneg (b : list B) : 0 ≤ blen b.
Proof. unfold blen. lia. Qed.

Lemma blen_app (a b : list B) : blen (a ++ b) = blen a + blen b.
Proof. unfold blen. rewrite length_app. lia. Qed.

Lemma blen_nil : blen (@nil B) = 0.
Proof. reflexivity. Qed.

Lemma blen_0 (b : list B) : blen b = 0 ↔ b = [].
Proof. unfold blen. destruct b; simpl; split; intros; (done || lia). Qed.

(** What a release of [n] gives back: nothing once the queue is freed. *)
Definition live (q : sideQueue B) (n : Z) : Z := if freed q then 0 else n.

(** The account after the queue's charge moved by [n]. *)
Definition moved (q : sideQueue B) (n : Z) (p p' : residency) : Prop :=
  if pooled q then charged (share q) n p p' else p' = p.

Lemma moved_refl q p : moved q 0 p p.
Proof. unfold moved. destruct (pooled q); [by apply charged_refl|done]. Qed.

Lemma moved_eq q n m p p' : moved q n p p' → n = m → moved q m p p'.
Proof. by intros H ->. Qed.

Lemma releaseLocked_spec n sl q p q' p' :
  releaseLocked n sl q p = (q', p') →
  (∃ rm, q' = with_acct (resident q - live q n) (slots q - live q sl) rm q) ∧
  moved q (- live q n) p p'.
Proof.
  unfold releaseLocked, live. destruct (freed q) eqn:F; simpl.
  - intros [= <- <-]. split; [|apply moved_refl].
    exists (room q). rewrite !Z.sub_0_r. by destruct q.
  - destruct (n =? 0) eqn:N, (sl =? 0) eqn:S; simpl; intros [= <- <-]; bsplit; subst;
      try (split; [exists false; done|]; unfold moved; destruct (pooled q); [apply release_charged|done]).
    split; [exists (room q); rewrite !Z.sub_0_r; by destruct q|apply moved_refl].
Qed.

Lemma keepLocked_spec n u q p q' p' :
  keepLocked n u q p = (q', p') →
  (∃ rm, q' = with_acct (resident q - live q (n - u))
              (slots q - live q (if (0 <? n) && (u =? 0) then 1 else 0)) rm q) ∧
  moved q (- live q (n - u)) p p'.
Proof. unfold keepLocked. apply releaseLocked_spec. Qed.

Lemma reserveLocked_spec n a q p r q' p' :
  reserveLocked n a q p = (r, q', p') →
  (r = None → q' = with_acct (resident q + n) (slots q + 1) (room q) q ∧ moved q n p p' ∧
              resident q + n ≤ limit q - (if a then maxUploadBytes else 0) ∧
              slots q + 1 ≤ queueChunks - (if a then 1 else 0)) ∧
  (r ≠ None → (∃ rm, q' = with_acct (resident q) (slots q) rm q) ∧
              p_used p' = p_used p ∧ p_ns p' = p_ns p ∧ p_limit p' = p_limit p ∧ p_nsLimit p' = p_nsLimit p).
Proof.
  unfold reserveLocked. destruct (_ || _) eqn:E.
  - intros [= <- <- <-]. split; [done|]. intros _. split; [by eexists|done].
  - bsplit. destruct (pooled q) eqn:P.
    + destruct (reserve _ _ _ _) as [[nf|] p0] eqn:R; intros [= <- <- <-].
      * split; [done|]. intros _. apply reserve_wait in R as ->. split; [|done].
        exists (room q). by destruct q.
      * split; [|done]. intros _. unfold moved. rewrite P. apply reserve_charged in R. done.
    + intros [= <- <- <-]. split; [|done]. intros _. unfold moved. rewrite P. done.
Qed.

Lemma p_same_moved q p p' :
  p_used p' = p_used p → p_ns p' = p_ns p → p_limit p' = p_limit p → p_nsLimit p' = p_nsLimit p →
  (pooled q = false → p' = p) → moved q 0 p p'.
Proof. intros. unfold moved. destruct (pooled q); [by apply charged_refl|auto]. Qed.

(** Room a write of [n] bytes holds. *)
Definition slot_of (n : Z) : Z := if 0 <? n then 1 else 0.

Lemma tryReserve_spec n a w q p r w' q' p' :
  0 ≤ n → tryReserve n a w q p = (r, w', q', p') →
  (r = Granted → done q = false ∧ moved q n p p' ∧
     (∃ rm, q' = with_acct (resident q + n) (slots q + slot_of n) rm q) ∧
     (0 < n → resident q + n ≤ limit q - (if a then maxUploadBytes else 0) ∧
              slots q + 1 ≤ queueChunks - (if a then 1 else 0))) ∧
  (r ≠ Granted → moved q 0 p p' ∧ ∃ rm, q' = with_acct (resident q) (slots q) rm q).
Proof.
  intros Hn. unfold tryReserve, slot_of. destruct (done q) eqn:D.
  { intros [= <- <- <- <-]. split; [done|]. intros _. split; [apply moved_refl|].
    exists (room q). by destruct q. }
  destruct (Z.eqb_spec n 0) as [->|Hn0].
  { intros [= <- <- <- <-]. split; [|done]. intros _. split; [done|]. split; [apply moved_refl|].
    split; [|simpl; lia]. exists (room q). simpl. rewrite !Z.add_0_r. by destruct q. }
  destruct (reserveLocked n a q p) as [[[[onp nf]|] q0] p0] eqn:R;
    pose proof (reserveLocked_spec _ _ _ _ _ _ _ R) as [H1 H2].
  - specialize (H2 ltac:(done)) as (H2 & U & N & L1 & L2).
    assert (pooled q = false → p0 = p ∧ onp = false) as NP.
    { clear - R. unfold reserveLocked. unfold reserveLocked in R.
      intros P. rewrite P in R. destruct (_ || _); [|done]. by injection R. }
    destruct (onp && negb w) eqn:O; intros [= <- <- <- <-]; (split; [done|]; intros _; split; [|exact H2]).
    + apply p_same_moved; try done. intros P. apply NP in P as [_ ->]. done.
    + apply p_same_moved; try done. intros P. by apply NP in P as [-> _].
  - specialize (H1 eq_refl) as (Q & M & L1 & L2). intros [= <- <- <- <-]. split; [|done].
    intros _. rewrite (proj2 (Z.ltb_lt 0 n)) by lia. split; [done|]. split; [done|].
    split; [eauto|]. done.
Qed.

Lemma admitSeq_spec sq n w q p r w' q' p' :
  admitSeq sq n w q p = (r, w', q', p') →
  (r = Granted → (seqNext q ≤ sq)%nat ∧ seqHeld q !! sq = None) ∧
  ((∃ t, tryReserve n (seqNext q <? sq)%nat w q p = (r, t, q', p')) ∨ (r ≠ Granted ∧ q' = q ∧ p' = p)).
Proof.
  unfold admitSeq. destruct (_ || _) eqn:E.
  - intros [= <- <- <- <-]. split; [done|]. by right.
  - bsplit. destruct (seqHeld q !! sq) eqn:HH; [done|]. destruct (_ <? Z.of_nat sq) eqn:W.
    + intros [= <- <- <- <-]. split; [done|]. by right.
    + intros T. split; [done|]. left. eauto.
Qed.

(** ** Sizes of what the queue holds *)

(** Slots of the nonempty chunks. *)
Definition ne (b : list B) : Z := if blen b =? 0 then 0 else 1.

Lemma ne_range (b : list B) : 0 ≤ ne b ≤ 1.
Proof. unfold ne. destruct (_ =? _); lia. Qed.

Lemma ne_slot (b : list B) : ne b = slot_of (blen b).
Proof.
  unfold ne, slot_of. pose proof (blen_nonneg b).
  destruct (Z.eqb_spec (blen b) 0), (Z.ltb_spec 0 (blen b)); lia.
Qed.

Lemma ne_length (l : list (list B)) : Forall (λ b, b ≠ []) l → sum_Z ne l = Z.of_nat (length l).
Proof.
  induction 1 as [|b l Hb Hl IH]; simpl; [done|]. rewrite IH. unfold ne.
  destruct (Z.eqb_spec (blen b) 0) as [E|]; [by apply blen_0 in E|]. lia.
Qed.

Lemma blen_concat (l : list (list B)) : blen (concat l) = sum_Z blen l.
Proof. induction l as [|b l IH]; simpl; [done|]. rewrite blen_app. lia. Qed.

(** [send] adds [b] to the stream and its size to the channel. *)
Lemma send_spec (b : list B) q :
  ∃ l, send b q = with_ch (ch q ++ l) q ∧ concat l = b ∧ sum_Z ne l = ne b ∧ Forall (λ b, b ≠ []) l.
Proof.
  unfold send, ne. destruct (Z.eqb_spec (blen b) 0) as [E|E].
  - exists []. apply blen_0 in E as ->. rewrite app_nil_r. by destruct q.
  - exists [b]. simpl. rewrite app_nil_r. repeat split.
    + unfold ne. destruct (Z.eqb_spec (blen b) 0); lia.
    + constructor; [|done]. intros ->. by apply E.
Qed.

Lemma held_run_length (m : gmap nat (list B)) fuel k :
  (length (held_run fuel k m) ≤ fuel)%nat.
Proof.
  revert m k. induction fuel as [|f IH]; intros m k; simpl; [lia|].
  destruct (m !! k); simpl; [specialize (IH (delete k m) (S k))|]; lia.
Qed.

(** [settleHeld] moves the run of held writes after [seqNext] into the stream
    and stops at the first gap. *)
Lemma settleHeld_spec fuel q :
  (size (seqHeld q) < fuel)%nat →
  (∀ k, is_Some (seqHeld q !! k) → (seqNext q < k)%nat) →
  let run := held_run fuel (S (seqNext q)) (seqHeld q) in
  ∃ l held,
    settleHeld fuel q = with_ch (ch q ++ l) (with_up (S (seqNext q + length run)) held q) ∧
    concat l = concat (snd <$> run) ∧ Forall (λ b, b ≠ []) l ∧
    omap fst run = List.seq (S (seqNext q)) (length run) ∧
    (∀ k b, (Some k, b) ∈ run → seqHeld q !! k = Some b) ∧
    held ⊆ seqHeld q ∧
    (∀ k, is_Some (held !! k) → (S (seqNext q + length run) < k)%nat) ∧
    msum blen (seqHeld q) = blen (concat l) + msum blen held ∧
    msum ne (seqHeld q) = sum_Z ne l + msum ne held.
Proof.
  revert q. induction fuel as [|f IH]; intros q Hf Hk; [lia|]. simpl.
  destruct (seqHeld q !! S (seqNext q)) as [b|] eqn:E.
  - set (q1 := with_up (S (seqNext q)) (delete (S (seqNext q)) (seqHeld q)) q).
    destruct (send_spec b q1) as (l1 & -> & C1 & N1 & F1).
    destruct (IH (with_ch (ch q1 ++ l1) q1)) as (l & held & Q & C & F & O & R & SU & K & M1 & M2); [simpl..|rewrite Q; clear Q IH; simpl in *].
    + rewrite map_size_delete_Some by eauto.
      assert (size (seqHeld q) ≠ 0)%nat by (intros Z; apply map_size_empty_iff in Z; rewrite Z in E; done). lia.
    + intros k Hd. apply lookup_delete_is_Some in Hd as [N Hd]. apply Hk in Hd. lia.
    + exists (l1 ++ l), held. split_and!.
      * unfold with_ch, with_up; simpl. rewrite <- app_assoc. f_equal. lia.
      * rewrite concat_app, C1, C. done.
      * by apply Forall_app.
      * change (S (seqNext q) :: omap fst (held_run f (S (S (seqNext q))) (delete (S (seqNext q)) (seqHeld q)))
                = S (seqNext q) :: List.seq (S (S (seqNext q)))
                    (length (held_run f (S (S (seqNext q))) (delete (S (seqNext q)) (seqHeld q))))).
        by f_equal.
      * intros k b' Hin. apply elem_of_cons in Hin as [[= -> ->]|Hin]; [done|].
        apply R in Hin. by apply lookup_delete_Some in Hin as [_ ?].
      * etrans; [exact SU|apply delete_subseteq].
      * intros k Hh. specialize (K k Hh). lia.
      * rewrite (msum_delete _ _ _ _ E), concat_app, blen_app, C1. lia.
      * rewrite (msum_delete _ _ _ _ E), sum_Z_app, N1. lia.
  - exists [], (seqHeld q). simpl. rewrite app_nil_r, Nat.add_0_r. split_and!; try done.
    + set_solver.
    + intros k Hk'. assert (k ≠ S (seqNext q)) by (intros ->; rewrite E in Hk'; by destruct Hk').
      specialize (Hk k Hk'). lia.
Qed.

(** ** Committing and taking writes *)

Lemma enqueue_spec b n q p c q' p' :
  enqueue b n q p = (c, q', p') →
  (done q = true ∧ c = CommitClosed ∧ keepLocked n 0 q p = (q', p')) ∨
  (done q = false ∧ c = Committed ∧ ∃ q1, keepLocked n (blen b) q p = (q1, p') ∧ q' = send b q1).
Proof.
  unfold enqueue, enqueueLocked. destruct (done q) eqn:D; destruct (keepLocked _ _ _ _) as [q1 p1];
    intros [= <- <- <-]; [left|right]; eauto.
Qed.

(** The four ways [commitSeq] goes: closed or a repeat, ahead of a gap, or the
    next write, which takes the held run with it. *)
Lemma commitSeq_spec sq b n q p c q' p' :
  commitSeq sq b n q p = (c, q', p') →
  (keepLocked n 0 q p = (q', p') ∧ taken_by_commit sq b q = []) ∨
  (done q = false ∧ seqHeld q !! sq = None ∧ taken_by_commit sq b q = [] ∧ (seqNext q < sq)%nat ∧
     ∃ q1, keepLocked n (blen b) q p = (q1, p') ∧ q' = with_up (seqNext q1) (<[sq := b]> (seqHeld q1)) q1) ∨
  (done q = false ∧ seqHeld q !! sq = None ∧ sq = seqNext q ∧
     taken_by_commit sq b q = (Some sq, b) :: held_run (S (size (seqHeld q))) (S sq) (seqHeld q) ∧
     ∃ q1, keepLocked n (blen b) q p = (q1, p') ∧
           q' = wakeLocked (settleHeld (S (size (seqHeld (send b q1)))) (send b q1))).
Proof.
  unfold commitSeq, taken_by_commit. destruct (done q) eqn:D; simpl.
  { destruct (keepLocked n 0 q p); intros [= <- <- <-]. by left. }
  destruct (seqHeld q !! sq) eqn:H; simpl.
  { rewrite andb_false_r. destruct (keepLocked n 0 q p); intros [= <- <- <-]. by left. }
  rewrite andb_true_r. destruct (sq <? seqNext q)%nat eqn:L; bsplit.
  { rewrite (proj2 (Nat.eqb_neq _ _)) by lia. destruct (keepLocked n 0 q p); intros [= <- <- <-]. by left. }
  destruct (seqNext q <? sq)%nat eqn:G; bsplit.
  { rewrite (proj2 (Nat.eqb_neq _ _)) by lia. destruct (keepLocked n (blen b) q p) eqn:K; intros [= <- <- <-].
    right. left. eauto 10. }
  rewrite (proj2 (Nat.eqb_eq _ _)) by lia. unfold enqueueLocked. rewrite D.
  destruct (keepLocked n (blen b) q p) as [q1 p1] eqn:K; intros [= <- <- <-].
  right. right. split_and!; try done; [lia|]. eauto.
Qed.

Lemma commitSeq_assigned sq b n q p c q' p' :
  commitSeq sq b n q p = (c, q', p') → assigned q' = assigned q.
Proof.
  assert (∀ fuel (q0 : sideQueue B), assigned (settleHeld fuel q0) = assigned q0) as SH.
  { induction fuel as [|f IH]; intros q0; simpl; [done|]. destruct (seqHeld q0 !! _); [|done].
    rewrite IH. unfold send. by destruct (_ =? _). }
  intros R. apply commitSeq_spec in R as [[R _]|[(_ & _ & _ & _ & q1 & R & ->)|(_ & _ & _ & _ & q1 & R & ->)]];
    apply keepLocked_spec in R as [[rm ->] _]; [done|done|].
  match goal with |- assigned (wakeLocked ?x) = _ => change (assigned x = assigned q) end.
  rewrite SH. unfold send. by destruct (_ =? _).
Qed.

(** [dropAcked] forgets chunks and gives their bytes back. *)
Lemma dropAcked_spec ack q p q' p' :
  dropAcked ack q p = (q', p') →
  ∃ kept u rm n,
    q' = with_acct (resident q - live q n) (slots q) rm (with_down (seq q) kept u q) ∧
    moved q (- live q n) p p' ∧ kept ⊆ assigned q ∧
    (∀ k b, kept !! k = Some b ↔ assigned q !! k = Some b ∧ (ack < k)%nat) ∧
    msum blen (assigned q) = n + msum blen kept ∧ 0 ≤ n.
Proof.
  unfold dropAcked. intros R. apply releaseLocked_spec in R as [[rm ->] M].
  exists (filter (λ x, ¬ (x.1 ≤ ack)%nat) (assigned q)), (oldest (filter (λ x, ¬ (x.1 ≤ ack)%nat) (assigned q))),
    rm, (bytes_in (filter (λ x, (x.1 ≤ ack)%nat) (assigned q))).
  split_and!.
  - unfold live. simpl. destruct (freed q); by rewrite !Z.sub_0_r.
  - exact M.
  - apply map_filter_subseteq.
  - intros k b. rewrite map_lookup_filter_Some. simpl. split; intros [? ?]; split; (done || lia).
  - apply (msum_filter blen (λ x : nat * list B, (x.1 ≤ ack)%nat)).
  - apply msum_nonneg, blen_nonneg.
Qed.

Lemma appendCapped_spec lim (out got out' : list B) q q' :
  appendCapped lim out got q = (out', q') →
  (q' = q ∧ out' = out ++ got) ∨
  (∃ a h, got = a ++ h ∧ h ≠ [] ∧ q' = with_head h q ∧ out' = out ++ a ∧ lim ≤ blen out').
Proof.
  unfold appendCapped. destruct (Nat.ltb_spec (Z.to_nat (lim - blen out)) (length got)); intros [= <- <-]; [right|by left].
  exists (take (Z.to_nat (lim - blen out)) got), (drop (Z.to_nat (lim - blen out)) got).
  rewrite take_drop. split_and!; try done.
  - intros E. apply (f_equal length) in E. rewrite length_drop in E. simpl in E. lia.
  - rewrite blen_app. unfold blen at 2. rewrite length_take. lia.
Qed.
End frames.
