(* ===== verification/QueueOrder.v ===== *)
(** The stream of one direction: what a numbering writer sends enters once and
    in order, and what readers are handed is a prefix of it. *)

From S2P Require Import Prelude Residency SideQueue QueueSteps QueueFrames.

Local Open Scope Z_scope.

Section order.
Context {B : Type} (w : nat → list B).
Implicit Types (q : sideQueue B) (s : sys (B:=B)).

Definition h_out s : list B := match hand s with Some pl => pl_out pl | None => [] end.
Definition h_got s : list B := match hand s with Some pl => pl_got pl | None => [] end.

(** What a poll holds in each phase. *)
Record poll_ok (q : sideQueue B) (pl : poll (B:=B)) : Prop := {
  pk_idle : pl_phase pl ≠ Draining → pl_phase pl ≠ Drained → pl_out pl = [];
  pk_got : pl_phase pl ≠ Draining → pl_got pl = [] ∧ pl_taken pl = 0;
  pk_head : pl_phase pl = Draining → head q = [] ∨ (pl_got pl = [] ∧ pl_lim pl ≤ blen (pl_out pl));
  pk_window : ∀ want, pl_reader pl = Windowed want → pl_phase pl ≠ Published → want = S (seq q) }.

Lemma poll_ok_ext q q' pl : head q' = head q → seq q' = seq q → poll_ok q pl → poll_ok q' pl.
Proof. intros H1 H2 []. split; rewrite ?H1, ?H2; done. Qed.

Lemma hand_ok_ext q q' (h : option (poll (B:=B))) :
  match h with Some pl => poll_ok q pl | None => True end →
  head q' = head q → seq q' = seq q → match h with Some pl => poll_ok q' pl | None => True end.
Proof. destruct h; [|done]. intros. by eapply poll_ok_ext. Qed.

Record ordered s : Prop := {
  o_next : (1 ≤ seqNext (queue s))%nat;
  o_held : ∀ k b, seqHeld (queue s) !! k = Some b → (seqNext (queue s) < k)%nat ∧ b = w k;
  o_entries : omap fst (entries s) = List.seq 1 (seqNext (queue s) - 1);
  o_words : ∀ k b, (Some k, b) ∈ entries s → b = w k;
  o_log : ∃ rest, concat (snd <$> entries s) =
            concat (snd <$> outs s) ++ h_out s ++ h_got s ++ head (queue s) ++ concat (ch (queue s)) ++ rest
            ∧ (freed (queue s) = false → rest = []);
  o_outs : omap fst (outs s) = List.seq 1 (seq (queue s));
  o_assigned : ∀ k b, assigned (queue s) !! k = Some b → (Some k, b) ∈ outs s;
  o_ch : Forall (λ b, b ≠ []) (ch (queue s));
  o_poll : match hand s with Some pl => poll_ok (queue s) pl | None => True end;
  o_freed : freed (queue s) = true → done (queue s) = true }.

(** The invariant does not read the account. *)
Lemma ordered_acct s res sl rm l q :
  ordered s → q = with_acct res sl rm (queue s) → ordered (Sys q l (hand s) (entries s) (outs s)).
Proof. intros [] ->. split; simpl; try done. by eapply hand_ok_ext. Qed.

Lemma ordered_release s n sl q p p' l :
  ordered s → releaseLocked n sl (queue s) p = (q, p') → ordered (Sys q l (hand s) (entries s) (outs s)).
Proof. intros O R. apply releaseLocked_spec in R as [[rm R] _]. by eapply ordered_acct. Qed.

Lemma ordered_try s n a wt r t q p p' l :
  0 ≤ n → ordered s → tryReserve n a wt (queue s) p = (r, t, q, p') →
  ordered (Sys q l (hand s) (entries s) (outs s)).
Proof.
  intros Hn O R. apply tryReserve_spec in R as [R1 R2]; [|done].
  destruct (decide (r = Granted)) as [E|E].
  - destruct (R1 E) as (_ & _ & [rm Q] & _). by eapply ordered_acct.
  - destruct (R2 E) as (_ & rm & Q). by eapply ordered_acct.
Qed.

Lemma not_done_live s : ordered s → done (queue s) = false → freed (queue s) = false.
Proof. intros O D. destruct (freed (queue s)) eqn:F; [|done]. apply (o_freed s O) in F. congruence. Qed.

(** Writes [new] enter the stream and the channel. *)
Lemma ordered_append s q l new cs :
  ordered s → freed (queue s) = false →
  ch q = ch (queue s) ++ cs → concat cs = concat (snd <$> new) → Forall (λ b, b ≠ []) cs →
  (∃ n held, (seqNext (queue s) ≤ n)%nat ∧
     (∀ k, is_Some (held !! k) → (n < k)%nat) ∧ held ⊆ seqHeld (queue s) ∧
     seqNext q = n ∧ seqHeld q = held ∧ omap fst new = List.seq (seqNext (queue s)) (n - seqNext (queue s))) →
  (∀ k b, (Some k, b) ∈ new → b = w k) →
  head q = head (queue s) → seq q = seq (queue s) → assigned q = assigned (queue s) →
  freed q = freed (queue s) → done q = done (queue s) →
  ordered (Sys q l (hand s) (entries s ++ new) (outs s)).
Proof.
  intros [] F C E Fc (n & held & Hn & Hk & Hs & N & H & O) W Hh Hsq Ha Hf Hd.
  split; simpl; try (rewrite ?Hh, ?Hsq, ?Ha, ?Hf, ?Hd, ?N, ?H; done).
  - rewrite N. lia.
  - intros k b Hb. rewrite N. rewrite H in Hb. split; [apply Hk; eauto|].
    eapply o_held0. by eapply lookup_weaken.
  - rewrite omap_app, o_entries0, O, N.
    replace (n - 1)%nat with (seqNext (queue s) - 1 + (n - seqNext (queue s)))%nat by lia.
    rewrite seq_app. f_equal. f_equal. lia.
  - intros k b [Hb|Hb]%elem_of_app; eauto.
  - destruct o_log0 as (rest & L & R). rewrite R in L by done. exists []. split; [|done].
    rewrite fmap_app, concat_app, L, C, concat_app, E, Hh, !app_nil_r.
    unfold h_out, h_got. simpl. by rewrite <- !app_assoc.
  - rewrite C. by apply Forall_app.
  - by eapply hand_ok_ext.
Qed.

(** ** Every event keeps it *)

Lemma ordered_admit s p s' p' sq n wt :
  ordered s → step (EAdmit sq n wt) s p = Some (s', p') → ordered s'.
Proof.
  unfold step. intros O. destruct (Z.ltb_spec n 0); [done|].
  destruct (admitSeq _ _ _ _ _) as [[[a t] q'] p1] eqn:R. intros [= <- <-].
  apply admitSeq_spec in R as [_ [[t' R]|(_ & -> & ->)]].
  - by eapply ordered_try.
  - apply (ordered_acct s (resident (queue s)) (slots (queue s)) (room (queue s))); [done|]. by destruct (queue s).
Qed.

Lemma ordered_reserve s p s' p' n wt :
  ordered s → step (EReserve n wt) s p = Some (s', p') → ordered s'.
Proof.
  unfold step. intros O. destruct (Z.ltb_spec n 0); [done|].
  destruct (reserveWrite _ _ _ _) as [[[a t] q'] p1] eqn:R. intros [= <- <-].
  unfold reserveWrite in R. by eapply ordered_try.
Qed.

Lemma ordered_commitSeq s sq b n p c q p' l :
  ordered s → commitSeq sq b n (queue s) p = (c, q, p') → b = w sq →
  ordered (Sys q l (hand s) (entries s ++ taken_by_commit sq b (queue s)) (outs s)).
Proof.
  intros O R ->. apply commitSeq_spec in R as [[R ->]|[(D & H & -> & L & q1 & R & ->)|(D & H & -> & -> & q1 & R & ->)]].
  - rewrite app_nil_r. by eapply ordered_release.
  - rewrite app_nil_r. apply keepLocked_spec in R as [[rm ->] _]. destruct O. split; simpl; try done.
    + intros k b. intros [[<- <-]|[_ Hb]]%lookup_insert_Some; [done|eauto].
    + by eapply hand_ok_ext.
  - pose proof (not_done_live _ O D) as F.
    apply keepLocked_spec in R as [[rm ->] _].
    destruct (send_spec (w (seqNext (queue s))) (with_acct (resident (queue s) - live (queue s) (n - blen (w (seqNext (queue s)))))
       (slots (queue s) - live (queue s) (if (0 <? n) && (blen (w (seqNext (queue s))) =? 0) then 1 else 0)) rm (queue s)))
      as (l1 & -> & C1 & _ & F1).
    set (q2 := with_ch _ _).
    destruct (settleHeld_spec (S (size (seqHeld q2))) q2) as (l2 & held & -> & C2 & F2 & O2 & R2 & S2 & K2 & _); [lia| |].
    { intros k [b Hb]. by apply (o_held s O) in Hb as [? _]. }
    apply (ordered_append s _ _ _ (l1 ++ l2)); try done; simpl.
    + by rewrite app_assoc.
    + by rewrite concat_app, C1, C2.
    + by apply Forall_app.
    + eexists _, held. split_and!; [|exact K2|exact S2|done|done|].
      * simpl. lia.
      * etrans; [apply (f_equal (cons (seqNext (queue s))) O2)|]. set (k := length _).
        replace (S (seqNext q2 + k) - seqNext (queue s))%nat with (S k) by (simpl; lia). done.
    + intros k b [[= -> ->]|Hb]%elem_of_cons; [done|]. apply R2 in Hb. by apply (o_held s O) in Hb as [_ ?].
Qed.

Lemma ordered_commit s p s' p' i b :
  ordered s → honest w s (ECommit i b) → step (ECommit i b) s p = Some (s', p') → ordered s'.
Proof.
  simpl. intros O HW. destruct (pend s !! i) as [[[sq|] n a]|] eqn:P; try done.
  destruct (n <? blen b); [done|]. destruct (commitSeq _ _ _ _ _) as [[c q'] p1] eqn:R. intros [= <- <-].
  eapply ordered_commitSeq; eauto.
Qed.

Lemma ordered_enqueue s p s' p' i b :
  ordered s → step (EEnqueue i b) s p = Some (s', p') → ordered s'.
Proof.
  simpl. intros O. destruct (pend s !! i) as [[[sq|] n a]|] eqn:P; try done.
  destruct (n <? blen b); [done|]. destruct (enqueue _ _ _ _) as [[c q'] p1] eqn:R. intros [= <- <-].
  apply enqueue_spec in R as [(D & -> & R)|(D & -> & q1 & R & ->)]; [by eapply ordered_release|].
  pose proof (not_done_live _ O D). apply keepLocked_spec in R as [[rm ->] _].
  set (q2 := with_acct _ _ _ _). destruct (send_spec b q2) as (l1 & -> & C1 & _ & F1).
  apply (ordered_append s _ _ _ l1); try done; simpl.
  - by rewrite C1, app_nil_r.
  - eexists _, _. split_and!; [reflexivity| |reflexivity|done|done|by rewrite Nat.sub_diag].
    intros k [b' Hb]. by apply (o_held s O) in Hb as [? _].
  - intros k b' Hb. apply list_elem_of_singleton in Hb. done.
Qed.

Lemma ordered_close s : ordered s → ordered (with_queue (close (queue s)) s).
Proof. intros []. split; simpl; try done. by eapply hand_ok_ext. Qed.

Lemma ordered_free s p : ordered s → ordered (with_queue (free (queue s) p).1 s).
Proof.
  intros O. unfold free. destruct (freed (close (queue s))) eqn:F; [by apply ordered_close|].
  destruct O. split; simpl; try done.
  - destruct o_log0 as (rest & L & _).
    exists (head (queue s) ++ concat (ch (queue s)) ++ rest). split; [|done]. exact L.
  - destruct (hand s); [|done]. destruct o_poll0. split; simpl; try done. by left.
Qed.

Lemma ordered_dropAcked s ack p q p' h :
  ordered s → dropAcked ack (queue s) p = (q, p') →
  match h with Some pl => poll_ok (queue s) pl ∧ pl_out pl = h_out s ∧ pl_got pl = h_got s
             | None => h_out s = [] ∧ h_got s = [] end →
  ordered (Sys q (pend s) h (entries s) (outs s)).
Proof.
  intros [] R Hh. apply dropAcked_spec in R as (kept & u & rm & n & -> & _ & S & _).
  split; simpl; try done.
  - destruct o_log0 as (rest & L & R). exists rest. split; [|done]. rewrite L. unfold h_out at 2, h_got at 2. simpl.
    destruct h; [destruct Hh as (_ & -> & ->)|destruct Hh as [-> ->]]; done.
  - intros k b Hk. eapply o_assigned0, lookup_weaken; eauto.
  - destruct h; [|done]. destruct Hh as ([] & _). by split.
Qed.

(** The reader's own steps leave the writer's side alone and move bytes along
    [out ++ got ++ head ++ channel]. *)
Lemma ordered_read s q h new :
  ordered s →
  seqNext q = seqNext (queue s) → seqHeld q = seqHeld (queue s) →
  freed q = freed (queue s) → done q = done (queue s) →
  h_out s ++ h_got s ++ head (queue s) ++ concat (ch (queue s)) =
    concat (snd <$> new) ++ match h with Some pl => pl_out pl ++ pl_got pl | None => [] end
      ++ head q ++ concat (ch q) →
  omap fst new = List.seq (S (seq (queue s))) (seq q - seq (queue s)) → (seq (queue s) ≤ seq q)%nat →
  (∀ k b, assigned q !! k = Some b → (Some k, b) ∈ outs s ++ new) →
  Forall (λ b, b ≠ []) (ch q) →
  match h with Some pl => poll_ok q pl | None => True end →
  ordered (Sys q (pend s) h (entries s) (outs s ++ new)).
Proof.
  intros [] N H F D L O Hs A C P. split; simpl; rewrite ?N, ?H, ?F, ?D; try done.
  - destruct o_log0 as (rest & E & R). exists rest. split; [|done]. rewrite E, fmap_app, concat_app.
    transitivity (concat (snd <$> outs s) ++ (h_out s ++ h_got s ++ head (queue s) ++ concat (ch (queue s))) ++ rest).
    { by rewrite <- !app_assoc. }
    rewrite L. unfold h_out, h_got. simpl. destruct h; by rewrite <- !app_assoc.
  - rewrite omap_app, o_outs0, O. rewrite <- seq_app. f_equal. lia.
Qed.

Lemma ordered_read0 s q h :
  ordered s →
  seqNext q = seqNext (queue s) → seqHeld q = seqHeld (queue s) →
  freed q = freed (queue s) → done q = done (queue s) → seq q = seq (queue s) →
  assigned q = assigned (queue s) →
  h_out s ++ h_got s ++ head (queue s) ++ concat (ch (queue s)) =
    match h with Some pl => pl_out pl ++ pl_got pl | None => [] end ++ head q ++ concat (ch q) →
  Forall (λ b, b ≠ []) (ch q) →
  match h with Some pl => poll_ok q pl | None => True end →
  ordered (Sys q (pend s) h (entries s) (outs s)).
Proof.
  intros O ? ? ? ? Hs Ha L C P. rewrite <- (app_nil_r (outs s)). apply ordered_read; try done.
  - by rewrite Hs, Nat.sub_diag.
  - lia.
  - rewrite Ha, app_nil_r. apply O.
Qed.

Lemma ordered_turn s p s' p' r lim : ordered s → step (ETurn r lim) s p = Some (s', p') → ordered s'.
Proof.
  intros O. simpl. destruct (hand s) eqn:E; [done|]. destruct (_ || _) eqn:G; [done|]. intros [= <- <-].
  bsplit. apply ordered_read0; try done.
  - unfold h_out, h_got. by rewrite E.
  - apply O.
  - split; simpl; try done; [by destruct r|]. intros want -> _. by bsplit.
Qed.

Lemma ordered_look s p s' p' ack : ordered s → step (ELook ack) s p = Some (s', p') → ordered s'.
Proof.
  intros O. simpl. destruct (hand s) as [[[] lim [] got out tk]|] eqn:E; try done.
  destruct (dropAcked ack (queue s) p) as [q' p1] eqn:R. intros [= <- <-].
  pose proof (o_poll s O) as P. rewrite E in P. destruct P as [P1 P2 P3 P4]. simpl in *.
  eapply ordered_dropAcked; [done|exact R|]. unfold h_out, h_got. rewrite E. split; [|done].
  destruct (replay _ _ _); split; simpl; try done; intros _; auto.
Qed.

Lemma ordered_window s p s' p' ack want : ordered s → step (EWindow ack want) s p = Some (s', p') → ordered s'.
Proof.
  intros O. simpl. destruct (dropAcked ack (queue s) p) as [q' p1] eqn:R. intros [= <- <-].
  eapply ordered_dropAcked; [done|exact R|]. unfold h_out, h_got.
  pose proof (o_poll s O). by destruct (hand s).
Qed.

Lemma ordered_head s p s' p' : ordered s → step EHead s p = Some (s', p') → ordered s'.
Proof.
  intros O. simpl. destruct (hand s) as [[r lim [] got out tk]|] eqn:E; try done. intros [= <- <-].
  pose proof (o_poll s O) as P. rewrite E in P. destruct P as [P1 P2 P3 P4]. simpl in *.
  destruct P2 as [-> ->]; [done|].
  apply ordered_read0; try done; simpl.
  - unfold h_out, h_got. rewrite E. simpl. by rewrite P1.
  - apply O.
  - split; simpl; try done; auto.
Qed.

Lemma ordered_append' s p s' p' : ordered s → step EAppend s p = Some (s', p') → ordered s'.
Proof.
  intros O. simpl. destruct (hand s) as [[r lim [] got out tk]|] eqn:E; try done.
  destruct (appendCapped lim out got (queue s)) as [out' q'] eqn:R. intros [= <- <-].
  pose proof (o_poll s O) as P. rewrite E in P. destruct P as [P1 P2 P3 P4]. simpl in *.
  specialize (P3 eq_refl).
  apply appendCapped_spec in R as [[-> ->]|(a & h & -> & Hh & -> & -> & L)].
  - apply ordered_read0; try done; simpl; [|apply O|].
    + unfold h_out, h_got. rewrite E. simpl. by rewrite <- !app_assoc.
    + split; simpl; try done. intros _. destruct P3 as [?|[-> ?]]; [by left|right]. by rewrite app_nil_r.
  - destruct P3 as [P3|[P3 _]]; [|by destruct a, h].
    apply ordered_read0; try done; simpl; [|apply O|].
    + unfold h_out, h_got. rewrite E. simpl. rewrite P3. by rewrite <- !app_assoc.
    + split; simpl; try done. auto.
Qed.

Lemma ordered_recv s p s' p' : ordered s → step ERecv s p = Some (s', p') → ordered s'.
Proof.
  intros O. simpl. destruct (hand s) as [[r lim [] [] out tk]|] eqn:E; try done.
  destruct (ch (queue s)) as [|b rest] eqn:C; [done|]. destruct (Z.ltb_spec (blen out) lim); [|done].
  intros [= <- <-]. pose proof (o_poll s O) as P. rewrite E in P. destruct P as [P1 P2 P3 P4]. simpl in *.
  pose proof (o_ch s O) as F. rewrite C in F. inversion F.
  destruct (P3 eq_refl) as [P3'|[_ ?]]; [|lia].
  apply ordered_read0; try done; simpl.
  - unfold h_out, h_got. rewrite E, C, P3'. simpl. by rewrite <- !app_assoc.
  - split; simpl; try done; auto.
Qed.

Lemma ordered_drained s p s' p' : ordered s → step EDrained s p = Some (s', p') → ordered s'.
Proof.
  intros O. simpl. destruct (hand s) as [[r lim [] [] out tk]|] eqn:E; try done.
  pose proof (o_poll s O) as P. rewrite E in P. destruct P as [P1 P2 P3 P4]. simpl in *.
  destruct (if 0 <? tk then _ else _) as [q' p1] eqn:R. intros [= <- <-].
  assert (∃ res sl rm, q' = with_acct res sl rm (queue s)) as (res & sl & rm & ->).
  { destruct (0 <? tk).
    - apply releaseLocked_spec in R as [[rm ->] _]. eauto.
    - injection R as <- <-. exists (resident (queue s)), (slots (queue s)), (room (queue s)). by destruct (queue s). }
  apply ordered_read0; try done; simpl.
  - unfold h_out, h_got. rewrite E. simpl. by rewrite ?app_nil_r.
  - apply O.
  - split; simpl; try done; auto.
Qed.

Lemma ordered_publish s p s' p' : ordered s → step EPublish s p = Some (s', p') → ordered s'.
Proof.
  intros O. simpl. destruct (hand s) as [[r lim [] got out tk]|] eqn:E; try done.
  pose proof (o_poll s O) as P. rewrite E in P. destruct P as [P1 P2 P3 P4]. simpl in *.
  destruct P2 as [-> ->]; [done|].
  destruct (Z.eqb_spec (blen out) 0) as [Z|NZ].
  { intros [= <- <-]. apply blen_0 in Z as ->. apply ordered_read0; try done; simpl.
    - unfold h_out, h_got. by rewrite E.
    - apply O. }
  destruct (publish_seq r (queue s)) as [sq|] eqn:PS.
  - assert (sq = S (seq (queue s))) as ->.
    { destruct r; simpl in PS; simplify_eq; try done. by apply P4. }
    intros [= <- <-]. apply ordered_read; try done; simpl.
    + unfold h_out, h_got. rewrite E. simpl. by rewrite app_nil_r.
    + replace (S (seq (queue s)) - seq (queue s))%nat with 1%nat by lia. done.
    + lia.
    + intros k b [[<- <-]|[_ Hb]]%lookup_insert_Some; apply elem_of_app; [right; left|left].
      by apply (o_assigned s O).
    + apply O.
  - destruct r; try done. destruct (releaseLocked _ _ _ _) as [q' p1] eqn:R. intros [= <- <-].
    apply releaseLocked_spec in R as [[rm ->] _]. apply ordered_read; try done; simpl.
    + unfold h_out, h_got. rewrite E. simpl. by rewrite app_nil_r.
    + by rewrite Nat.sub_diag.
    + intros k b Hb. apply elem_of_app. left. by apply (o_assigned s O).
    + apply O.
Qed.

Lemma ordered_end s p s' p' : ordered s → step EEnd s p = Some (s', p') → ordered s'.
Proof.
  intros O. simpl. destruct (hand s) as [[r lim [] got out tk]|] eqn:E; try done. intros [= <- <-].
  pose proof (o_poll s O) as P. rewrite E in P. destruct P as [P1 P2 _ _]. simpl in *.
  apply ordered_read0; try done; simpl; [|apply O].
  unfold h_out, h_got. rewrite E. simpl. rewrite P1 by done. by destruct P2 as [-> _].
Qed.

(** ** Reachable states *)

Lemma ordered_start q :
  seqNext q = 1%nat → seqHeld q = ∅ → head q = [] → ch q = [] → seq q = 0%nat → assigned q = ∅ →
  freed q = false → ordered (start q).
Proof.
  intros N H Hd C S A F. split; simpl; rewrite ?N, ?H, ?S, ?A, ?C, ?F, ?Hd; try done; set_solver.
Qed.

Lemma ordered_running s : running w s → ordered s.
Proof.
  apply invariant_reachable.
  - intros s0 (ns & p & [->| ->]); apply ordered_start; done.
  - intros s0 s1 O (e & p & p' & HW & St). destruct e.
    + by eapply ordered_admit.
    + by eapply ordered_reserve.
    + by eapply ordered_commit.
    + by eapply ordered_enqueue.
    + simpl in St. destruct (pend s0 !! i); [|done].
      destruct (unreserve _ _ _) as [q' p1] eqn:R. injection St as <- <-.
      unfold unreserve in R. by eapply ordered_release.
    + by eapply ordered_turn.
    + by eapply ordered_look.
    + by eapply ordered_window.
    + by eapply ordered_head.
    + by eapply ordered_append'.
    + by eapply ordered_recv.
    + by eapply ordered_drained.
    + by eapply ordered_publish.
    + by eapply ordered_end.
    + injection St as <- <-. by apply ordered_close.
    + simpl in St. destruct (free (queue s0) p) as [q' p1] eqn:R. injection St as <- <-.
      pose proof (ordered_free s0 p O) as H. by rewrite R in H.
Qed.
End order.

Section stream.
Context {B : Type} (w : nat → list B).
Implicit Types (s : sys (B:=B)).

(** Histories only grow. *)
Lemma step_outs s p s' p' e : step e s p = Some (s', p') → outs s `prefix_of` outs s'.
Proof.
  intros H. assert (outs s' = outs s ∨ ∃ x, outs s' = outs s ++ [x]) as [-> |[x ->]];
    [|done|by apply prefix_app_r].
  destruct e; simpl in H; case_hyp H; simplify_eq; simpl; eauto.
Qed.

Lemma numbered_entries (l : list (option nat * list B)) :
  Forall (λ e, is_Some e.1) l → (∀ k b, (Some k, b) ∈ l → b = w k) →
  snd <$> l = w <$> omap fst l.
Proof.
  induction 1 as [|[o b] l [k Hk] Hl IH]; intros W; [done|]. simpl in *. subst o. simpl.
  rewrite (W k b) by left. f_equal. apply IH. intros j c Hj. apply W. by right.
Qed.

Lemma outs_unique s k b b' :
  ordered w s → (Some k, b) ∈ outs s → (Some k, b') ∈ outs s → b = b'.
Proof.
  intros O Hb Hb'. pose proof (o_outs w s O) as N. assert (NoDup (omap fst (outs s))) as ND.
  { rewrite N. apply NoDup_ListNoDup, seq_NoDup. }
  clear N. induction (outs s) as [|[[j|] c] l IH]; simpl in *; [set_solver| |].
  - apply NoDup_cons in ND as [Nj ND].
    apply elem_of_cons in Hb as [Hb|Hb]; apply elem_of_cons in Hb' as [Hb'|Hb']; simplify_eq; auto.
    + destruct Nj. apply list_elem_of_omap. eauto.
    + destruct Nj. apply list_elem_of_omap. eauto.
  - apply elem_of_cons in Hb as [Hb|Hb]; apply elem_of_cons in Hb' as [Hb'|Hb']; simplify_eq; auto.
Qed.

Lemma published_fresh s r lim out tk g sq :
  ordered w s → hand s = Some (Poll r lim Drained g out tk) → publish_seq r (queue s) = Some sq →
  assigned (queue s) !! sq = None.
Proof.
  intros O H P. destruct (assigned (queue s) !! sq) as [b|] eqn:A; [|done]. exfalso.
  apply (o_assigned w s O) in A.
  assert (sq = S (seq (queue s))) as ->.
  { pose proof (o_poll w s O) as K. rewrite H in K. destruct K as [_ _ _ K4].
    destruct r; simpl in P; simplify_eq; try done. by apply K4. }
  assert (S (seq (queue s)) ∈ omap fst (outs s)) as I by (apply list_elem_of_omap; eauto).
  rewrite (o_outs w s O) in I. apply elem_of_seq in I. lia.
Qed.

(** A run whose commits carry the writer's stream. *)
Fixpoint honest_run (es : list event) (s : sys (B:=B)) (p : residency) : Prop :=
  match es with
  | [] => True
  | e :: es => honest w s e ∧ match step e s p with Some (s, p) => honest_run es s p | None => True end
  end.

Lemma exec_running es s p s' p' :
  running w s → honest_run es s p → exec es s p = Some (s', p') → running w s'.
Proof.
  revert s p. induction es as [|e es IH]; intros s p R H E; simpl in *; [by simplify_eq|].
  destruct H as [H1 H2]. destruct (step e s p) as [[s1 p1]|] eqn:St; [|done].
  eapply IH; [|exact H2|exact E]. eapply reachable_step; [exact R|]. exists e, p, p1. done.
Qed.

(** How a step changes the chunks that wait for an acknowledgement. *)
Lemma step_assigned s p s' p' e :
  step e s p = Some (s', p') →
  assigned (queue s') = assigned (queue s) ∨
  (∃ r lim out tk g sq, hand s = Some (Poll r lim Drained g out tk) ∧ publish_seq r (queue s) = Some sq ∧
     assigned (queue s') = <[sq := out]> (assigned (queue s))) ∨
  e = EFree ∨
  (∃ ack, (e = ELook ack ∨ ∃ want, e = EWindow ack want) ∧
     ∀ k b, assigned (queue s') !! k = Some b ↔ assigned (queue s) !! k = Some b ∧ (ack < k)%nat).
Proof.
  intros H.
  assert (∀ n sl q q' p0 p1, releaseLocked n sl q p0 = (q', p1) → assigned q' = assigned (B:=B) q) as RL.
  { intros n sl q q' p0 p1 R. by apply releaseLocked_spec in R as [[rm ->] _]. }
  destruct e.
  all: try by (unfold step in H; case_hyp H; simplify_eq; simpl; auto).
  - left. unfold step in H. destruct (Z.ltb_spec n 0); [done|].
    destruct (admitSeq _ _ _ _ _) as [[[a t] q'] p1] eqn:R. injection H as <- <-.
    apply admitSeq_spec in R as [_ [[t' R]|(_ & -> & _)]]; [|done].
    apply tryReserve_spec in R as [R1 R2]; [|done]. simpl. destruct (decide (a = Granted)) as [Ea|Ea].
    + by destruct (R1 Ea) as (_ & _ & [rm ->] & _).
    + by destruct (R2 Ea) as (_ & rm & ->).
  - left. unfold step in H. destruct (Z.ltb_spec n 0); [done|].
    destruct (reserveWrite _ _ _ _) as [[[a t] q'] p1] eqn:R. injection H as <- <-.
    apply tryReserve_spec in R as [R1 R2]; [|done]. simpl. destruct (decide (a = Granted)) as [Ea|Ea].
    + by destruct (R1 Ea) as (_ & _ & [rm ->] & _).
    + by destruct (R2 Ea) as (_ & rm & ->).
  - left. unfold step in H. destruct (pend s !! i) as [[[sq|] n a]|]; try done. destruct (n <? blen b); [done|].
    destruct (commitSeq _ _ _ _ _) as [[c q'] p1] eqn:R. injection H as <- <-. simpl.
    by apply commitSeq_assigned in R.
  - left. unfold step in H. destruct (pend s !! i) as [[[sq|] n a]|]; try done. destruct (n <? blen b); [done|].
    destruct (enqueue _ _ _ _) as [[c q'] p1] eqn:R. injection H as <- <-. simpl.
    apply enqueue_spec in R as [(_ & _ & R)|(_ & _ & q1 & R & ->)]; unfold keepLocked in R; apply RL in R; [done|].
    destruct (send_spec b q1) as (l & -> & _). done.
  - left. simpl in H. destruct (pend s !! i); [|done]. destruct (unreserve _ _ _) eqn:R. injection H as <- <-.
    unfold unreserve, keepLocked in R. by apply RL in R.
  - right. right. right. exists ack. split; [by left|]. simpl in H.
    destruct (hand s) as [[[] lim [] got out tk]|]; try done. destruct (dropAcked _ _ _) eqn:R. injection H as <- <-.
    by apply dropAcked_spec in R as (kept & u & rm & n & -> & _ & _ & K & _).
  - right. right. right. exists ack. split; [right; eauto|]. simpl in H.
    destruct (dropAcked _ _ _) eqn:R. injection H as <- <-.
    by apply dropAcked_spec in R as (kept & u & rm & n & -> & _ & _ & K & _).
  - left. simpl in H. destruct (hand s) as [[r lim [] got out tk]|]; try done.
    destruct (appendCapped _ _ _ _) eqn:R. injection H as <- <-.
    by apply appendCapped_spec in R as [[-> _]|(? & ? & _ & _ & -> & _)].
  - left. simpl in H. destruct (hand s) as [[r lim [] [] out tk]|]; try done.
    destruct (0 <? tk); [|by injection H as <- <-]. destruct (releaseLocked _ _ _ _) eqn:R. injection H as <- <-.
    by eapply RL.
  - simpl in H. destruct (hand s) as [[r lim [] got out tk]|]; try done.
    destruct (blen out =? 0); [injection H as <- <-; by left|].
    destruct (publish_seq r (queue s)) as [sq|] eqn:P.
    + injection H as <- <-. right. left. simpl. eauto 10.
    + left. destruct (releaseLocked _ _ _ _) eqn:R. injection H as <- <-. by eapply RL.
Qed.

(** C36: a direction is a reliable stream.  When the writer numbers its writes
    1, 2, ... and every retry of a write repeats its bytes, then at any moment,
    however uploads, retries, polls, acknowledgements and closes interleave,
    the bytes handed to readers, followed by what the relay still holds for
    them, are exactly the writes 1 to [seqNext - 1] in order: each entered
    once, none was dropped or reordered; and only freeing the session drops
    bytes.  (Freeing is one step here: of what a poll that is receiving at that
    very moment still takes, after chunks were dropped, nothing is said.) *)
Theorem stream_in_order s :
  running w s → Forall (λ e, is_Some e.1) (entries s) →
  ∃ rest,
    concat (w <$> List.seq 1 (seqNext (queue s) - 1)) =
      concat (snd <$> outs s) ++ (h_out s ++ h_got s ++ head (queue s) ++ concat (ch (queue s))) ++ rest ∧
    (freed (queue s) = false → rest = []).
Proof.
  intros R N. pose proof (ordered_running w s R) as O.
  destruct (o_log w s O) as (rest & L & Hr). exists rest. split; [|done].
  rewrite <- (o_entries w s O), <- numbered_entries by (done || apply O).
  by rewrite L, <- !app_assoc.
Qed.

(** The chunk that waits under number [k] for its acknowledgement. *)
Definition waiting_chunk s (k : nat) : option (list B) := assigned (queue s) !! k.

(** Polling again is safe.  A chunk that was handed out under a number is
    the one every later poll for that number gets, whatever happened in
    between. *)
Lemma replayed_chunk_same s s' k b b' :
  running w s → rtc (steps w) s s' →
  (Some k, b) ∈ outs s → waiting_chunk s' k = Some b' → b' = b.
Proof.
  intros R T Hb Hb'.
  assert (running w s' ∧ outs s `prefix_of` outs s') as [R' P].
  { induction T as [s|s s1 s2 (e & p & p' & HW & St) T IH]; [done|].
    destruct IH as [? P]; [by eapply reachable_step; [|exists e, p, p']| |done|].
    - eapply elem_of_prefix; [exact Hb|]. by eapply step_outs.
    - split; [done|]. etrans; [by eapply step_outs|done]. }
  pose proof (ordered_running w s' R') as O.
  eapply outs_unique; [exact O| |].
  - by apply (o_assigned w s' O).
  - by eapply elem_of_prefix.
Qed.

(** A chunk handed out stays with the relay until a poll acknowledges it
    or the session is freed. *)
Lemma chunk_kept_until_acked s s' p p' e k b :
  running w s → step e s p = Some (s', p') → waiting_chunk s k = Some b →
  waiting_chunk s' k = Some b ∨ e = EFree ∨
  (∃ ack, (e = ELook ack ∨ ∃ want, e = EWindow ack want) ∧ (k ≤ ack)%nat).
Proof.
  unfold waiting_chunk. intros R St Hk. destruct (step_assigned s p s' p' e St) as [E|[(r & lim & out & tk & g & sq & H & Q & E)|[->|(ack & D & E)]]].
  - left. by rewrite E.
  - left. rewrite E. rewrite lookup_insert_ne; [done|]. intros ->.
    pose proof (published_fresh s r lim out tk g k (ordered_running w s R) H Q). congruence.
  - right. by left.
  - destruct (decide (k ≤ ack)%nat); [right; right; eauto|left]. apply E. split; [done|lia].
Qed.
End stream.

(** ** A concrete run: the second write arrives first, one poll takes one and a
    half writes, the next poll asks again for the same chunk. *)

Definition run_writes (k : nat) : list nat := [k; k].

Definition run_events : list (event (B:=nat)) :=
  [EAdmit 2 2 false; EAdmit 1 2 false; ECommit 0 [2; 2]%nat; ECommit 0 [1; 1]%nat;
   ETurn Acked 3; ELook 0; EHead; EAppend; ERecv; EAppend; ERecv; EAppend; EDrained; EPublish; EEnd].

Definition run_state : sys (B:=nat) :=
  match exec run_events (start newSideQueue) (newResidency 0) with
  | Some (s, _) => s
  | None => start newSideQueue
  end.

Lemma run_honest : honest_run run_writes run_events (start newSideQueue) (newResidency 0).
Proof. vm_compute. repeat split; intros; simplify_eq; reflexivity. Qed.

Lemma run_running : running run_writes run_state.
Proof.
  unfold run_state. destruct (exec _ _ _) as [[s p]|] eqn:E.
  - eapply exec_running; [|exact run_honest|exact E]. apply reachable_init. exists ""%string, (newResidency 0). by right.
  - vm_compute in E. discriminate.
Qed.

Lemma stream_in_order_witness :
  running run_writes run_state ∧
  ∃ rest,
    concat (run_writes <$> List.seq 1 (seqNext (queue run_state) - 1)) =
      concat (snd <$> outs run_state) ++
        (h_out run_state ++ h_got run_state ++ head (queue run_state) ++ concat (ch (queue run_state))) ++ rest ∧
    (freed (queue run_state) = false → rest = []).
Proof.
  split; [apply run_running|]. apply (stream_in_order run_writes run_state run_running).
  vm_compute. repeat constructor; eexists; reflexivity.
Defined.

Lemma replayed_chunk_same_witness :
  waiting_chunk run_state 1 = Some [1; 1; 2]%nat ∧ [1; 1; 2]%nat = [1; 1; 2]%nat.
Proof.
  split; [vm_compute; reflexivity|].
  apply (replayed_chunk_same run_writes run_state run_state 1 _ _ run_running (rtc_refl _ _)).
  - vm_compute. left.
  - vm_compute. reflexivity.
Defined.

Lemma chunk_kept_until_acked_witness :
  match step (ETurn Acked 8) run_state (newResidency 0) with
  | Some (s, _) => waiting_chunk s 1 = Some [1; 1; 2]%nat ∨
      ETurn (B:=nat) Acked 8 = EFree ∨
      (∃ ack, (ETurn (B:=nat) Acked 8 = ELook ack ∨ ∃ want, ETurn (B:=nat) Acked 8 = EWindow ack want) ∧ (1 ≤ ack)%nat)
  | None => False
  end.
Proof.
  destruct (step _ _ _) as [[s p]|] eqn:E; [|vm_compute in E; discriminate].
  apply (chunk_kept_until_acked run_writes run_state s (newResidency 0) p _ 1 _ run_running E).
  vm_compute. reflexivity.
Defined.
