(* ===== verification/QueueAccount.v ===== *)
(** The account of one direction: what is counted is what is held, it stays
    under the cap, the channel never blocks a committed write, and the write
    that fills a gap always finds room once the readers have caught up. *)

From S2P Require Import Prelude Residency SideQueue QueueSteps QueueFrames QueueOrder.

Local Open Scope Z_scope.

Section account.
Context {B : Type} (w : nat → list B).
Implicit Types (q : sideQueue B) (s : sys (B:=B)).

Definition h_taken s : Z := match hand s with Some pl => pl_taken pl | None => 0 end.

(** The bytes that are somewhere between a writer and the reader's
    acknowledgement, and the slots of the chunks that are or may come to be in
    the channel. *)
Definition bytes_of s : Z :=
  sum_Z blen (ch (queue s)) + blen (head (queue s)) + msum blen (seqHeld (queue s))
  + msum blen (assigned (queue s)) + blen (h_out s) + blen (h_got s) + sum_Z pd_n (pend s).
Definition slots_of s : Z :=
  sum_Z ne (ch (queue s)) + msum ne (seqHeld (queue s)) + sum_Z (λ pd, slot_of (pd_n pd)) (pend s) + h_taken s.

(** What waits behind a gap. *)
Definition ahead_n (pd : pending) : Z := if pd_ahead pd then pd_n pd else 0.
Definition ahead_slot (pd : pending) : Z := if pd_ahead pd then slot_of (pd_n pd) else 0.
Definition ahead_bytes s : Z := msum blen (seqHeld (queue s)) + sum_Z ahead_n (pend s).
Definition ahead_slots s : Z := msum ne (seqHeld (queue s)) + sum_Z ahead_slot (pend s).

Definition pend_ok (n : nat) (pd : pending) : Prop :=
  0 ≤ pd_n pd ∧ (pd_ahead pd = false → ∀ sq, pd_seq pd = Some sq → (sq ≤ n)%nat).

Record accounted s : Prop := {
  a_bytes : freed (queue s) = false → resident (queue s) = bytes_of s ∧ slots (queue s) = slots_of s;
  a_freed : freed (queue s) = true → resident (queue s) = 0 ∧ slots (queue s) = 0;
  a_cap : resident (queue s) ≤ limit (queue s) ∧ slots (queue s) ≤ queueChunks;
  a_limit : limit (queue s) = maxResidentPerDirection;
  a_pend : Forall (pend_ok (seqNext (queue s))) (pend s);
  a_taken : 0 ≤ h_taken s;
  a_ahead : freed (queue s) = false →
    ahead_bytes s ≤ limit (queue s) - maxUploadBytes ∧ ahead_slots s ≤ queueChunks - 1 }.

Lemma slot_of_nonneg n : 0 ≤ slot_of n.
Proof. unfold slot_of. destruct (_ <? _); lia. Qed.

Lemma pend_ok_mono n m pd : (n ≤ m)%nat → pend_ok n pd → pend_ok m pd.
Proof. intros L [H1 H2]. split; [done|]. intros A sq E. specialize (H2 A sq E). lia. Qed.

Lemma pend_sums l n : Forall (pend_ok n) l →
  0 ≤ sum_Z ahead_n l ≤ sum_Z pd_n l ∧ 0 ≤ sum_Z ahead_slot l ≤ sum_Z (λ pd, slot_of (pd_n pd)) l.
Proof.
  induction 1 as [|pd l [Hn _] Hl IH]; simpl; [lia|].
  unfold ahead_n at 1 3, ahead_slot at 1 3. pose proof (slot_of_nonneg (pd_n pd)).
  destruct (pd_ahead pd); lia.
Qed.

Lemma sum_Z_ne_nonneg (l : list (list B)) : 0 ≤ sum_Z ne l.
Proof. apply sum_Z_nonneg. intros x. pose proof (ne_range x). lia. Qed.
Lemma sum_Z_blen_nonneg (l : list (list B)) : 0 ≤ sum_Z blen l.
Proof. apply sum_Z_nonneg, blen_nonneg. Qed.
Lemma msum_blen_nonneg (m : gmap nat (list B)) : 0 ≤ msum blen m.
Proof. apply msum_nonneg, blen_nonneg. Qed.
Lemma msum_ne_nonneg (m : gmap nat (list B)) : 0 ≤ msum ne m.
Proof. apply msum_nonneg. intros x. pose proof (ne_range x). lia. Qed.

(** A step that moves the account by what it moves of the holdings. *)
Lemma accounted_move s s' dn ds :
  accounted s →
  limit (queue s') = limit (queue s) → freed (queue s') = freed (queue s) →
  resident (queue s') = resident (queue s) - live (queue s) dn →
  slots (queue s') = slots (queue s) - live (queue s) ds → 0 ≤ dn → 0 ≤ ds →
  (freed (queue s) = false → bytes_of s' = bytes_of s - dn ∧ slots_of s' = slots_of s - ds ∧
     ahead_bytes s' ≤ ahead_bytes s ∧ ahead_slots s' ≤ ahead_slots s) →
  Forall (pend_ok (seqNext (queue s'))) (pend s') → 0 ≤ h_taken s' →
  accounted s'.
Proof.
  unfold live. intros [] L F R S Dn Ds M P T. split; rewrite ?L, ?F, ?R, ?S; try done.
  - intros E. rewrite E. destruct (M E) as (-> & -> & _). destruct (a_bytes0 E). lia.
  - intros E. rewrite E. destruct (a_freed0 E). lia.
  - destruct (freed (queue s)); lia.
  - intros E. destruct (M E) as (_ & _ & ? & ?), (a_ahead0 E). lia.
Qed.

Lemma accounted_same s s' :
  accounted s →
  limit (queue s') = limit (queue s) → freed (queue s') = freed (queue s) →
  resident (queue s') = resident (queue s) → slots (queue s') = slots (queue s) →
  (freed (queue s) = false → bytes_of s' = bytes_of s ∧ slots_of s' = slots_of s ∧
     ahead_bytes s' ≤ ahead_bytes s ∧ ahead_slots s' ≤ ahead_slots s) →
  Forall (pend_ok (seqNext (queue s'))) (pend s') → 0 ≤ h_taken s' →
  accounted s'.
Proof.
  intros A L F R S M P T.
  assert (live (queue s) 0 = 0) as Z0 by (unfold live; destruct (freed (queue s)); reflexivity).
  apply (accounted_move s s' 0 0); rewrite ?Z0, ?Z.sub_0_r; try done.
Qed.

(** A write is admitted: it is counted before it is read. *)
Lemma accounted_grant s n a o wt r t q p p' :
  ordered w s → accounted s → 0 ≤ n → tryReserve n a wt (queue s) p = (r, t, q, p') →
  (a = false → ∀ sq, o = Some sq → (sq ≤ seqNext (queue s))%nat) →
  accounted (Sys q (admitted r (Pending o n a) (pend s)) (hand s) (entries s) (outs s)).
Proof.
  intros O A Hn R Ha. apply tryReserve_spec in R as [R1 R2]; [|done].
  destruct (decide (r = Granted)) as [->|E].
  - destruct (R1 eq_refl) as (D & _ & [rm ->] & Fit). pose proof (not_done_live w s O D) as F.
    destruct A as [Ab Af Ac Al Ap At Aa].
    destruct (Ab F) as [Ab1 Ab2], (Aa F) as [Aa1 Aa2].
    destruct (pend_sums _ _ Ap) as [PS1 PS2].
    assert (Forall (pend_ok (seqNext (queue s))) (pend s ++ [Pending o n a])) as Ap'.
    { apply Forall_app. split; [done|]. constructor; [|done]. split; [done|]. apply Ha. }
    pose proof (sum_Z_blen_nonneg (ch (queue s))). pose proof (blen_nonneg (head (queue s))).
    pose proof (msum_blen_nonneg (assigned (queue s))). pose proof (blen_nonneg (h_out s)).
    pose proof (blen_nonneg (h_got s)). pose proof (sum_Z_ne_nonneg (ch (queue s))).
    assert (0 < maxUploadBytes) as MU by done.
    unfold bytes_of, slots_of, ahead_bytes, ahead_slots in *.
    split; simpl; unfold bytes_of, slots_of, ahead_bytes, ahead_slots, h_out, h_got, h_taken in *;
      simpl; rewrite ?sum_Z_app; simpl; try done.
    + intros _. lia.
    + congruence.
    + unfold slot_of. destruct (Z.ltb_spec 0 n), a; simpl in Fit; lia.
    + intros _. unfold ahead_n at 2, ahead_slot at 2; simpl.
      destruct a; unfold slot_of; destruct (Z.ltb_spec 0 n); simpl in Fit; lia.
  - destruct (R2 E) as (_ & rm & ->).
    replace (admitted r _ _) with (pend s) by (by destruct r).
    apply (accounted_same s); try done; apply A.
Qed.

(** [keepLocked] after a write of [n] reserved bytes kept [u]. *)
Lemma kept_slots n u :
  0 ≤ u ≤ n → (if (0 <? n) && (u =? 0) then 1 else 0) = slot_of n - slot_of u.
Proof.
  unfold slot_of. destruct (Z.ltb_spec 0 n), (Z.eqb_spec u 0), (Z.ltb_spec 0 u); simpl; lia.
Qed.

Lemma slot_of_mono u n : u ≤ n → slot_of u ≤ slot_of n.
Proof. unfold slot_of. destruct (Z.ltb_spec 0 n), (Z.ltb_spec 0 u); lia. Qed.

(** The write at index [i] leaves [pend], [u] of its bytes are kept. *)
Lemma accounted_settle s s' i pd n u q1 p p1 dh :
  ordered w s → accounted s → pend s !! i = Some pd → pd_n pd = n → 0 ≤ u ≤ n →
  keepLocked n u (queue s) p = (q1, p1) →
  resident (queue s') = resident q1 → slots (queue s') = slots q1 →
  limit (queue s') = limit q1 → freed (queue s') = freed q1 →
  pend s' = delete i (pend s) → hand s' = hand s → head (queue s') = head q1 →
  assigned (queue s') = assigned q1 → (seqNext (queue s) ≤ seqNext (queue s'))%nat →
  (freed (queue s) = false →
     sum_Z blen (ch (queue s')) + msum blen (seqHeld (queue s')) =
       sum_Z blen (ch (queue s)) + msum blen (seqHeld (queue s)) + u ∧
     sum_Z ne (ch (queue s')) + msum ne (seqHeld (queue s')) =
       sum_Z ne (ch (queue s)) + msum ne (seqHeld (queue s)) + slot_of u ∧
     msum blen (seqHeld (queue s')) ≤ msum blen (seqHeld (queue s)) + dh ∧
     msum ne (seqHeld (queue s')) ≤ msum ne (seqHeld (queue s)) + slot_of dh) →
  0 ≤ dh ≤ ahead_n pd →
  accounted s'.
Proof.
  intros O A P N U K R S L F PD H HD AS SN C D.
  apply keepLocked_spec in K as [[rm ->] _]. simpl in *.
  rewrite kept_slots in S by done. pose proof (slot_of_mono u n ltac:(lia)).
  apply (accounted_move s s' (n - u) (slot_of n - slot_of u)); try done; [lia|lia| | |].
  - intros Fr. destruct (C Fr) as (C1 & C2 & C3 & C4).
    unfold bytes_of, slots_of, ahead_bytes, ahead_slots, h_out, h_got, h_taken.
    rewrite PD, H, HD, AS. rewrite !(sum_Z_delete _ (pend s) i pd P). subst n.
    assert (slot_of dh ≤ ahead_slot pd) as SD.
    { unfold ahead_slot, ahead_n in *. destruct (pd_ahead pd); [apply slot_of_mono; lia|].
      unfold slot_of. destruct (Z.ltb_spec 0 dh); lia. }
    split_and!; lia.
  - rewrite PD. apply Forall_delete_l. eapply Forall_impl; [apply A|]. intros. by eapply pend_ok_mono.
  - unfold h_taken. rewrite H. apply A.
Qed.

Lemma accounted_refused s i pd q p p' es :
  ordered w s → accounted s → pend s !! i = Some pd → keepLocked (pd_n pd) 0 (queue s) p = (q, p') →
  accounted (Sys q (delete i (pend s)) (hand s) es (outs s)).
Proof.
  intros O A P K. pose proof K as K'. apply keepLocked_spec in K' as [[rm ->] _].
  pose proof (a_pend s A) as PO. eapply Forall_lookup_1 in PO as [PO _]; [|exact P].
  apply (accounted_settle s _ i pd (pd_n pd) 0 _ p p' 0 O A P eq_refl ltac:(lia) K); try done; simpl.
  - intros _. unfold slot_of. simpl. lia.
  - unfold ahead_n. destruct (pd_ahead pd); lia.
Qed.

Lemma accounted_commitSeq s i sq n a b c q p p' es :
  ordered w s → accounted s → pend s !! i = Some (Pending (Some sq) n a) → blen b ≤ n →
  commitSeq sq b n (queue s) p = (c, q, p') →
  accounted (Sys q (delete i (pend s)) (hand s) es (outs s)).
Proof.
  intros O A P Hb R. pose proof (blen_nonneg b) as Nb.
  apply commitSeq_spec in R as [[R _]|[(D & H & _ & G & q1 & R & ->)|(D & H & -> & _ & q1 & R & ->)]].
  - by apply (accounted_refused s i (Pending (Some sq) n a) q p p').
  - pose proof R as R'. apply keepLocked_spec in R' as [[rm ->] _].
    assert (a = true) as ->.
    { pose proof (a_pend s A) as PO. eapply Forall_lookup_1 in PO as [_ PO]; [|exact P].
      destruct a; [done|]. specialize (PO eq_refl sq eq_refl). lia. }
    apply (accounted_settle s _ i _ n (blen b) _ p p' (blen b) O A P eq_refl ltac:(lia) R); try done; simpl.
    intros _. rewrite !msum_insert by done. rewrite ne_slot. lia.
  - pose proof R as R'. apply keepLocked_spec in R' as [[rm ->] _].
    destruct (send_spec b (with_acct (resident (queue s) - live (queue s) (n - blen b))
       (slots (queue s) - live (queue s) (if (0 <? n) && (blen b =? 0) then 1 else 0)) rm (queue s)))
      as (l1 & -> & C1 & N1 & F1).
    set (q2 := with_ch _ _).
    destruct (settleHeld_spec (S (size (seqHeld q2))) q2) as (l2 & held & -> & C2 & F2 & O2 & R2 & S2 & K2 & M1 & M2); [lia| |].
    { intros k [b' Hb']. by apply (o_held w s O) in Hb' as [? _]. }
    set (run := length _) in *.
    apply (accounted_settle s _ i _ n (blen b) _ p p' 0 O A P eq_refl ltac:(lia) R); try done; simpl in *; [lia| |].
    + intros _. rewrite !sum_Z_app, N1, M1, M2, <- !blen_concat, C1, ne_slot.
      pose proof (blen_nonneg (concat l2)). pose proof (sum_Z_ne_nonneg l2). unfold slot_of at 3; simpl. lia.
    + unfold ahead_n. simpl. destruct a; lia.
Qed.

Lemma accounted_enqueue s i n a b c q p p' es :
  ordered w s → accounted s → pend s !! i = Some (Pending None n a) → blen b ≤ n →
  enqueue b n (queue s) p = (c, q, p') →
  accounted (Sys q (delete i (pend s)) (hand s) es (outs s)).
Proof.
  intros O A P Hb R. pose proof (blen_nonneg b) as Nb.
  apply enqueue_spec in R as [(_ & _ & R)|(_ & _ & q1 & R & ->)].
  - by apply (accounted_refused s i (Pending None n a) q p p').
  - pose proof R as R'. apply keepLocked_spec in R' as [[rm ->] _]. set (q1 := with_acct _ _ _ _) in *.
    destruct (send_spec b q1) as (l & -> & C & N & F).
    apply (accounted_settle s _ i _ n (blen b) _ p p' 0 O A P eq_refl ltac:(lia) R); try done; simpl.
    + intros _. rewrite !sum_Z_app, N, <- !blen_concat, C, ne_slot. unfold slot_of at 3; simpl. lia.
    + unfold ahead_n. simpl. destruct a; lia.
Qed.

(** The reader's steps move bytes and give back slots and acknowledged bytes. *)
Lemma accounted_read s q h os dn ds p p' rm :
  accounted s → moved (queue s) (- live (queue s) dn) p p' →
  (∃ q0, q = with_acct (resident (queue s) - live (queue s) dn) (slots (queue s) - live (queue s) ds) rm q0 ∧
     limit q0 = limit (queue s) ∧ freed q0 = freed (queue s) ∧ seqNext q0 = seqNext (queue s) ∧
     seqHeld q0 = seqHeld (queue s)) →
  0 ≤ dn → 0 ≤ ds →
  (freed (queue s) = false →
   bytes_of (Sys q (pend s) h (entries s) os) = bytes_of s - dn ∧
   slots_of (Sys q (pend s) h (entries s) os) = slots_of s - ds) →
  0 ≤ h_taken (Sys q (pend s) h (entries s) os) →
  accounted (Sys q (pend s) h (entries s) os).
Proof.
  intros A _ (q0 & -> & L & F & N & H) Dn Ds M T.
  apply (accounted_move s _ dn ds); try done; simpl; rewrite ?N; [|apply A].
  intros E. destruct (M E) as [-> ->]. unfold ahead_bytes, ahead_slots. simpl. rewrite H. lia.
Qed.

Lemma accounted_read0 s q h os :
  accounted s →
  resident q = resident (queue s) → slots q = slots (queue s) → limit q = limit (queue s) →
  freed q = freed (queue s) → seqNext q = seqNext (queue s) → seqHeld q = seqHeld (queue s) →
  (freed (queue s) = false →
   bytes_of (Sys q (pend s) h (entries s) os) = bytes_of s ∧
   slots_of (Sys q (pend s) h (entries s) os) = slots_of s) →
  0 ≤ h_taken (Sys q (pend s) h (entries s) os) →
  accounted (Sys q (pend s) h (entries s) os).
Proof.
  intros A R S L F N H M T. apply (accounted_same s); try done; simpl; rewrite ?N; [|apply A].
  intros E. destruct (M E) as [-> ->]. unfold ahead_bytes, ahead_slots. simpl. rewrite H. lia.
Qed.

Lemma accounted_dropAcked s ack q p p' h :
  accounted s → dropAcked ack (queue s) p = (q, p') →
  match h with Some pl => pl_out pl | None => [] end = h_out s →
  match h with Some pl => pl_got pl | None => [] end = h_got s →
  match h with Some pl => pl_taken pl | None => 0 end = h_taken s →
  accounted (Sys q (pend s) h (entries s) (outs s)).
Proof.
  intros A R H1 H2 H3. apply dropAcked_spec in R as (kept & u & rm & n & -> & M & _ & _ & E & Hn).
  assert (live (queue s) 0 = 0) as L0 by (unfold live; destruct (freed (queue s)); reflexivity).
  apply (accounted_read s _ h _ n 0 p p' rm A M); try done.
  - exists (with_down (seq (queue s)) kept u (queue s)). rewrite L0, Z.sub_0_r. done.
  - intros _. unfold bytes_of, slots_of. unfold h_out at 1, h_got at 1, h_taken at 1. simpl. rewrite H1, H2, H3. lia.
  - unfold h_taken. simpl. rewrite H3. apply A.
Qed.

Ltac open_hand E := unfold bytes_of, slots_of, h_out, h_got, h_taken in *; rewrite ?E in *; simpl in *.

Lemma accounted_append s p s' p' : ordered w s → accounted s → step EAppend s p = Some (s', p') → accounted s'.
Proof.
  intros O A. simpl. destruct (hand s) as [[r lim [] got out tk]|] eqn:E; try done.
  destruct (appendCapped lim out got (queue s)) as [out' q'] eqn:R. intros [= <- <-].
  pose proof (o_poll w s O) as P. rewrite E in P. destruct P as [_ _ P3 _]. specialize (P3 eq_refl). simpl in P3.
  pose proof (a_taken s A) as T. apply appendCapped_spec in R as [[-> ->]|(a & h & -> & Hh & -> & -> & _)].
  - apply accounted_read0; try done; open_hand E; [|done]. intros _. rewrite blen_app. rewrite ?blen_nil. lia.
  - destruct P3 as [P3|[P3 _]]; [|by destruct a, h].
    apply accounted_read0; try done; open_hand E; [|done]. intros _. rewrite P3, !blen_app, ?blen_nil. lia.
Qed.

Lemma accounted_recv s p s' p' : ordered w s → accounted s → step ERecv s p = Some (s', p') → accounted s'.
Proof.
  intros O A. simpl. destruct (hand s) as [[r lim [] [] out tk]|] eqn:E; try done.
  destruct (ch (queue s)) as [|b rest] eqn:C; [done|]. destruct (Z.ltb_spec (blen out) lim); [|done].
  intros [= <- <-]. pose proof (a_taken s A) as T. pose proof (o_ch w s O) as F. rewrite C in F. inversion F as [|? ? Hb].
  apply accounted_read0; try done; open_hand E; [|lia]. intros _. rewrite C. simpl.
  assert (ne b = 1) as ->.
  { unfold ne. destruct (Z.eqb_spec (blen b) 0) as [Z|]; [by apply blen_0 in Z|done]. }
  rewrite ?blen_nil. lia.
Qed.

Lemma accounted_drained s p s' p' : accounted s → step EDrained s p = Some (s', p') → accounted s'.
Proof.
  intros A. simpl. destruct (hand s) as [[r lim [] [] out tk]|] eqn:E; try done.
  pose proof (a_taken s A) as T. unfold h_taken in T. rewrite E in T. simpl in T.
  assert (live (queue s) 0 = 0) as L0 by (unfold live; destruct (freed (queue s)); reflexivity).
  destruct (Z.ltb_spec 0 tk).
  - destruct (releaseLocked _ _ _ _) as [q' p1] eqn:R. intros [= <- <-].
    apply releaseLocked_spec in R as [[rm ->] M].
    apply (accounted_read s _ _ _ 0 tk p p1 rm A M); try done; [by eexists|].
    intros _. open_hand E. lia.
  - intros [= <- <-]. apply accounted_read0; try done. open_hand E. assert (tk = 0) by lia. intros _. lia.
Qed.

Lemma accounted_publish s p s' p' : ordered w s → accounted s → step EPublish s p = Some (s', p') → accounted s'.
Proof.
  intros O A. simpl. destruct (hand s) as [[r lim [] got out tk]|] eqn:E; try done.
  pose proof (a_taken s A) as T. unfold h_taken in T. rewrite E in T. simpl in T.
  pose proof (o_poll w s O) as P. rewrite E in P. destruct P as [_ P2 _ _]. simpl in P2. destruct P2 as [-> ->]; [done|].
  assert (live (queue s) 0 = 0) as L0 by (unfold live; destruct (freed (queue s)); reflexivity).
  destruct (Z.eqb_spec (blen out) 0) as [Z|NZ].
  { intros [= <- <-]. apply accounted_read0; try done; open_hand E. intros _. rewrite ?blen_nil. lia. }
  destruct (publish_seq r (queue s)) as [sq|] eqn:PS.
  - intros [= <- <-]. pose proof (published_fresh w s _ _ _ _ _ sq O E PS) as Fr.
    apply accounted_read0; try done. open_hand E. intros _. rewrite msum_insert by done. rewrite ?blen_nil. lia.
  - destruct (releaseLocked _ _ _ _) as [q' p1] eqn:R. intros [= <- <-].
    apply releaseLocked_spec in R as [[rm ->] M].
    apply (accounted_read s _ _ _ (blen out) 0 p p1 rm A M); try done; [by eexists|apply blen_nonneg|].
    intros _. open_hand E. rewrite ?blen_nil. lia.
Qed.

Lemma accounted_free s p : accounted s → accounted (with_queue (free (queue s) p).1 s).
Proof.
  intros A. unfold free. destruct (freed (close (queue s))) eqn:F.
  - by apply (accounted_same s); try done; apply A.
  - destruct A. assert (0 < maxUploadBytes ∧ 0 < queueChunks ∧ 0 < maxResidentPerDirection) as MU by done.
    split; simpl; try done. lia.
Qed.

Lemma accounted_start q :
  ch q = [] → head q = [] → seqHeld q = ∅ → assigned q = ∅ → resident q = 0 → slots q = 0 →
  freed q = false → limit q = maxResidentPerDirection → accounted (start q).
Proof.
  intros C H1 H2 H3 R S F L. assert (maxUploadBytes = 1048576 ∧ queueChunks = 256 ∧ maxResidentPerDirection = 33554432) as MU by done.
  split; simpl; unfold bytes_of, slots_of, ahead_bytes, ahead_slots, h_out, h_got, h_taken; simpl;
    rewrite ?C, ?H1, ?H2, ?H3, ?R, ?S, ?F, ?L, ?msum_empty; simpl; try done; lia.
Qed.

Lemma accounted_step s p s' p' e :
  ordered w s → accounted s → step e s p = Some (s', p') → accounted s'.
Proof.
  intros O A St. destruct e.
  - unfold step in St. destruct (Z.ltb_spec n 0); [done|].
    destruct (admitSeq _ _ _ _ _) as [[[a t] q'] p1] eqn:R. injection St as <- <-.
    apply admitSeq_spec in R as [H1 [[t' R]|(H2 & -> & ->)]].
    + eapply (accounted_grant s n _ (Some sq)); [done|done|done|exact R|].
      intros Hb j [= <-]. bsplit. lia.
    + replace (admitted a _ _) with (pend s) by (by destruct a). by apply (accounted_same s); try done; apply A.
  - unfold step in St. destruct (Z.ltb_spec n 0); [done|].
    destruct (reserveWrite _ _ _ _) as [[[a t] q'] p1] eqn:R. injection St as <- <-.
    eapply (accounted_grant s n false None); [done|done|done|exact R|done].
  - unfold step in St. destruct (pend s !! i) as [[[sq|] n a]|] eqn:P; try done. destruct (Z.ltb_spec n (blen b)); [done|].
    destruct (commitSeq _ _ _ _ _) as [[c q'] p1] eqn:R. injection St as <- <-. by eapply accounted_commitSeq.
  - unfold step in St. destruct (pend s !! i) as [[[sq|] n a]|] eqn:P; try done. destruct (Z.ltb_spec n (blen b)); [done|].
    destruct (enqueue _ _ _ _) as [[c q'] p1] eqn:R. injection St as <- <-. by eapply accounted_enqueue.
  - simpl in St. destruct (pend s !! i) eqn:P; [|done]. destruct (unreserve _ _ _) as [q' p1] eqn:R.
    injection St as <- <-. by eapply accounted_refused.
  - simpl in St. destruct (hand s) eqn:E; [done|]. destruct (_ || _); [done|]. injection St as <- <-.
    apply accounted_read0; try done. open_hand E. done.
  - simpl in St. destruct (hand s) as [[[] lim [] got out tk]|] eqn:E; try done.
    destruct (dropAcked ack (queue s) p) as [q' p1] eqn:R. injection St as <- <-.
    eapply accounted_dropAcked; [done|exact R|..]; unfold h_out, h_got, h_taken; by rewrite E.
  - simpl in St. destruct (dropAcked ack (queue s) p) as [q' p1] eqn:R. injection St as <- <-.
    by eapply accounted_dropAcked.
  - simpl in St. destruct (hand s) as [[r lim [] got out tk]|] eqn:E; try done. injection St as <- <-.
    pose proof (o_poll w s O) as P. rewrite E in P. destruct P as [P1 P2 _ _]. simpl in *.
    pose proof (a_taken s A) as T. destruct P2 as [-> ->]; [done|]. rewrite P1 in * by done.
    apply accounted_read0; try done; open_hand E. intros _. rewrite !blen_nil. lia.
  - by eapply accounted_append.
  - by eapply accounted_recv.
  - by eapply accounted_drained.
  - by eapply accounted_publish.
  - simpl in St. destruct (hand s) as [[r lim [] got out tk]|] eqn:E; try done. injection St as <- <-.
    pose proof (o_poll w s O) as P. rewrite E in P. destruct P as [P1 P2 _ _]. simpl in *.
    destruct P2 as [-> ->]; [done|]. rewrite P1 in * by done.
    apply accounted_read0; try done; open_hand E. done.
  - injection St as <- <-. by apply (accounted_same s); try done; apply A.
  - simpl in St. destruct (free (queue s) p) as [q' p1] eqn:R. injection St as <- <-.
    pose proof (accounted_free s p A) as H. by rewrite R in H.
Qed.

Lemma accounted_running s : running w s → ordered w s ∧ accounted s.
Proof.
  intros R. split; [by apply ordered_running|].
  destruct R as (s0 & (ns & p & H0) & T).
  assert (running w s0) as R0 by (apply reachable_init; eauto).
  assert (accounted s0) as A0 by (destruct H0 as [->| ->]; apply accounted_start; done).
  clear H0. induction T as [s|s s1 s2 (e & p1 & p2 & HW & St) T IH]; [done|].
  apply IH; [eapply reachable_step; [exact R0|]; exists e, p1, p2; done|].
  eapply accounted_step; [|exact A0|exact St]. by apply ordered_running.
Qed.

(** The account of a direction is exact and bounded, whatever the
    interleaving: until the session is freed, [resident] is the bytes held in
    the channel, the split tail, the out-of-order writes, the unacknowledged
    chunks, the poll that drains and the uploads being read; it never passes
    32 MiB; and the channel never holds more chunks than its 256 places, so
    committing an admitted write never blocks under the lock. *)
Lemma direction_account s :
  running w s →
  (freed (queue s) = false → resident (queue s) = bytes_of s ∧ slots (queue s) = slots_of s) ∧
  (freed (queue s) = true → resident (queue s) = 0 ∧ slots (queue s) = 0) ∧
  resident (queue s) ≤ maxResidentPerDirection ∧
  (freed (queue s) = false → Z.of_nat (length (ch (queue s))) ≤ queueChunks).
Proof.
  intros R. destruct (accounted_running s R) as [O [Ab Af Ac Al Ap At Aa]]. split_and!; try done; [lia|].
  intros F. destruct (Ab F) as [_ S]. rewrite <- ne_length by apply O.
  destruct (pend_sums _ _ Ap) as [_ PS]. pose proof (msum_ne_nonneg (seqHeld (queue s))).
  unfold slots_of in S. lia.
Qed.

(** The readers hold and are owed nothing. *)
Definition caught_up s : Prop :=
  ch (queue s) = [] ∧ head (queue s) = [] ∧ assigned (queue s) = ∅ ∧ hand s = None.

(** A gap never wedges a direction.  Once the readers have taken and
    acknowledged everything that is in order, and no in-order upload is still
    being read, the write the stream waits for, of at most one upload body, is
    never kept waiting by the direction's own caps, however many later writes
    are held or being read: only the relay's shared account can delay it. *)
Lemma gap_write_admitted s n p :
  running w s → done (queue s) = false → 0 < n ≤ maxUploadBytes →
  caught_up s →
  Forall (λ pd, pd_ahead pd = true) (pend s) →
  ∃ r q' p', reserveLocked n false (queue s) p = (r, q', p') ∧
    (r = None ∨ ∃ nsFull, pooled (queue s) = true ∧ r = Some (true, nsFull)).
Proof.
  intros R D Hn (C & H & A & Ha) P. destruct (accounted_running s R) as [O [Ab Af Ac Al Ap At Aa]].
  pose proof (not_done_live w s O D) as F. destruct (Ab F) as [Ab1 Ab2], (Aa F) as [Aa1 Aa2].
  assert (sum_Z ahead_n (pend s) = sum_Z pd_n (pend s) ∧
          sum_Z ahead_slot (pend s) = sum_Z (λ pd, slot_of (pd_n pd)) (pend s)) as [E1 E2].
  { clear -P. induction P as [|pd l Hp Hl [IH1 IH2]]; simpl; [done|].
    rewrite IH1, IH2. unfold ahead_n at 1, ahead_slot at 1. by rewrite Hp. }
  unfold bytes_of, slots_of, ahead_bytes, ahead_slots, h_out, h_got, h_taken in *.
  rewrite C, H, A, Ha, E1, E2, ?msum_empty in *. simpl in *. rewrite !(blen_nil (B:=B)) in Ab1.
  unfold reserveLocked. rewrite (proj2 (Z.ltb_ge _ _)) by lia. rewrite (proj2 (Z.ltb_ge _ _)) by lia. simpl.
  destruct (pooled (queue s)); [|eauto 10].
  destruct (reserve _ _ _ _) as [[nf|] p1]; eauto 10.
Qed.
End account.

Lemma direction_account_witness :
  freed (queue run_state) = false ∧ resident (queue run_state) = 4 ∧
  Z.of_nat (length (ch (queue run_state))) ≤ queueChunks.
Proof.
  split; [vm_compute; reflexivity|]. split; [vm_compute; reflexivity|].
  apply (direction_account run_writes run_state run_running). vm_compute. reflexivity.
Defined.

(** The second write is held and the first has not come. *)
Definition gap_events : list (event (B:=nat)) := [EAdmit 2 2 false; ECommit 0 [2; 2]%nat].
Definition gap_state : sys (B:=nat) :=
  match exec gap_events (start newSideQueue) (newResidency 0) with
  | Some (s, _) => s
  | None => start newSideQueue
  end.

Lemma gap_running : running run_writes gap_state.
Proof.
  unfold gap_state. destruct (exec _ _ _) as [[s p]|] eqn:E.
  - eapply exec_running; [| |exact E].
    + apply reachable_init. exists ""%string, (newResidency 0). by right.
    + vm_compute. repeat split; intros; simplify_eq; reflexivity.
  - vm_compute in E. discriminate.
Qed.

Lemma gap_write_admitted_witness :
  seqHeld (queue gap_state) !! 2%nat = Some [2; 2]%nat ∧
  ∃ r q' p', reserveLocked maxUploadBytes false (queue gap_state) (newResidency 0) = (r, q', p') ∧
    (r = None ∨ ∃ nsFull, pooled (queue gap_state) = true ∧ r = Some (true, nsFull)).
Proof.
  split; [vm_compute; reflexivity|].
  apply (gap_write_admitted run_writes gap_state maxUploadBytes (newResidency 0) gap_running);
    try (vm_compute; reflexivity).
  - split; vm_compute; [reflexivity|discriminate].
  - vm_compute. repeat split.
  - vm_compute. constructor.
Defined.
