(* ===== verification/RelayPool.v ===== *)
(** Every direction of every session of a relay, sharing one account.  A state
    is the list of directions and the account; a step opens a direction in a
    namespace or is one event of one direction. *)

From S2P Require Import Prelude Residency SideQueue QueueSteps QueueFrames QueueOrder QueueAccount.

Local Open Scope Z_scope.

Section pool.
Context {B : Type} (w : nat → list B).
Implicit Types (q : sideQueue B) (s : sys (B:=B)).

(** What one event does to the account: [d] bytes more (or fewer) for this
    direction, and nothing that the account refused. *)
Record charge_step (q q' : sideQueue B) (p p' : residency) : Prop := {
  cs_pooled : pooled q' = pooled q;
  cs_share : share q' = share q;
  cs_freed : freed q' = freed q;
  cs_moved : moved q (resident q' - resident q) p p';
  cs_fits : resident q' ≤ resident q ∨
    (pooled q = true → p_used p' ≤ p_limit p ∧
       (share q ≠ None → share_used (share q) p + (resident q' - resident q) ≤ p_nsLimit p)) }.

Lemma charge_acct q q' p p' d sl rm :
  0 ≤ d → moved q (- live q d) p p' → q' = with_acct (resident q - live q d) sl rm q → charge_step q q' p p'.
Proof.
  intros D M ->. split; simpl; try done; [eapply moved_eq; [exact M|lia]|].
  left. unfold live. destruct (freed q); lia.
Qed.

Lemma charge_same q q' p :
  pooled q' = pooled q → share q' = share q → freed q' = freed q → resident q' = resident q →
  charge_step q q' p p.
Proof. intros P S F R. split; rewrite ?R; try done; [|by left]. eapply moved_eq; [apply moved_refl|lia]. Qed.

(** A change that does not touch the account may follow. *)
Lemma charge_then q q1 q' p p' :
  charge_step q q1 p p' →
  pooled q' = pooled q1 → share q' = share q1 → freed q' = freed q1 → resident q' = resident q1 →
  charge_step q q' p p'.
Proof. intros [] P S F R. split; rewrite ?R; congruence. Qed.

Lemma charge_before q q0 q' p p' :
  charge_step q0 q' p p' →
  pooled q0 = pooled q → share q0 = share q → freed q0 = freed q → resident q0 = resident q →
  charge_step q q' p p'.
Proof.
  intros [P' S' F' M Fit] P S F R. unfold moved in *. rewrite P, S, R in *. split; try done; congruence.
Qed.

Lemma charge_release n sl q q' p p' :
  0 ≤ n → releaseLocked n sl q p = (q', p') → charge_step q q' p p'.
Proof. intros N R. apply releaseLocked_spec in R as [[rm ->] M]. by eapply charge_acct. Qed.

Lemma charge_keep n u q q' p p' :
  u ≤ n → keepLocked n u q p = (q', p') → charge_step q q' p p'.
Proof. intros N. apply charge_release. lia. Qed.

Lemma tryReserve_fits n a wt q p t q' p' :
  0 < n → pooled q = true → tryReserve n a wt q p = (Granted, t, q', p') →
  p_used p' ≤ p_limit p ∧ (share q ≠ None → share_used (share q) p + n ≤ p_nsLimit p).
Proof.
  intros N P. unfold tryReserve. destruct (done q); [done|]. rewrite (proj2 (Z.eqb_neq _ _)) by lia.
  unfold reserveLocked. rewrite P. destruct (_ || _); [by destruct (_ && _)|].
  destruct (reserve _ _ _ _) as [[nf|] p0] eqn:R; [by destruct (_ && _)|].
  intros [= <- <- <-]. apply reserve_fits in R as [R1 R2].
  assert (0 < maxUploadBytes) by done. destruct a; cbv iota in R1, R2; split; try (intros HS; specialize (R2 HS)); lia.
Qed.

Lemma charge_try n a wt q p r t q' p' :
  0 ≤ n → tryReserve n a wt q p = (r, t, q', p') → charge_step q q' p p'.
Proof.
  intros N R. pose proof R as R'. apply tryReserve_spec in R as [R1 R2]; [|done].
  destruct (decide (r = Granted)) as [->|E].
  - destruct (R1 eq_refl) as (_ & M & [rm ->] & _). split; simpl; try done; [eapply moved_eq; [exact M|lia]|].
    destruct (decide (n = 0)) as [->|]; [left; lia|right]. intros P.
    replace (resident q + n - resident q) with n by lia. eapply tryReserve_fits; [lia|exact P|exact R'].
  - destruct (R2 E) as (M & rm & ->). split; simpl; try done; [eapply moved_eq; [exact M|lia]|left; lia].
Qed.

Lemma charge_send (b : list B) q q1 p p' :
  charge_step q q1 p p' → charge_step q (send b q1) p p'.
Proof. intros C. unfold send. destruct (_ =? _); [done|]. by eapply charge_then. Qed.

Lemma charge_settle fuel q q1 p p' :
  charge_step q q1 p p' → charge_step q (settleHeld fuel q1) p p'.
Proof.
  revert q1. induction fuel as [|f IH]; intros q1 C; simpl; [done|].
  destruct (seqHeld q1 !! _); [|by eapply charge_then].
  apply IH, charge_send. by eapply charge_then.
Qed.

Lemma charge_commit sq b n q c q' p p' :
  blen b ≤ n → commitSeq sq b n q p = (c, q', p') → charge_step q q' p p'.
Proof.
  intros N R. pose proof (blen_nonneg b).
  apply commitSeq_spec in R as [[R _]|[(_ & _ & _ & _ & q1 & R & ->)|(_ & _ & _ & _ & q1 & R & ->)]].
  - eapply charge_keep; [|exact R]. lia.
  - eapply charge_then; [eapply charge_keep; [exact N|exact R]|done..].
  - eapply charge_then; [apply charge_settle, charge_send; eapply charge_keep; [exact N|exact R]|done..].
Qed.

Lemma charge_dropAcked ack q q' p p' : dropAcked ack q p = (q', p') → charge_step q q' p p'.
Proof.
  intros R. apply dropAcked_spec in R as (kept & u & rm & n & -> & M & _ & _ & _ & N).
  apply (charge_then q (with_acct (resident q - live q n) (slots q) rm q)); [by eapply charge_acct|done..].
Qed.

Lemma step_charge s p s' p' e :
  ordered w s → accounted s → step e s p = Some (s', p') → e ≠ EFree →
  charge_step (queue s) (queue s') p p'.
Proof.
  intros O A St NF.
  destruct e; try done.
  - unfold step in St. destruct (Z.ltb_spec n 0); [done|].
    destruct (admitSeq _ _ _ _ _) as [[[a t] q'] p1] eqn:R. injection St as <- <-.
    apply admitSeq_spec in R as [_ [[t' R]|(_ & -> & ->)]]; [by eapply charge_try|by apply charge_same].
  - unfold step in St. destruct (Z.ltb_spec n 0); [done|].
    destruct (reserveWrite _ _ _ _) as [[[a t] q'] p1] eqn:R. injection St as <- <-. by eapply charge_try.
  - unfold step in St. destruct (pend s !! i) as [[[sq|] n a]|] eqn:P; try done. destruct (Z.ltb_spec n (blen b)); [done|].
    destruct (commitSeq _ _ _ _ _) as [[c q'] p1] eqn:R. injection St as <- <-. by eapply charge_commit.
  - unfold step in St. destruct (pend s !! i) as [[[sq|] n a]|] eqn:P; try done. destruct (Z.ltb_spec n (blen b)); [done|].
    destruct (enqueue _ _ _ _) as [[c q'] p1] eqn:R. injection St as <- <-. pose proof (blen_nonneg b).
    apply enqueue_spec in R as [(_ & _ & R)|(_ & _ & q1 & R & ->)].
    + eapply charge_keep; [|exact R]. lia.
    + apply charge_send. eapply charge_keep; [|exact R]. lia.
  - simpl in St. destruct (pend s !! i) eqn:P; [|done]. destruct (unreserve _ _ _) as [q' p1] eqn:R.
    injection St as <- <-. pose proof (a_pend s A) as PO. eapply Forall_lookup_1 in PO as [PO _]; [|exact P].
    eapply charge_keep; [exact PO|exact R].
  - simpl in St. destruct (hand s); [done|]. destruct (_ || _); [done|]. injection St as <- <-. by apply charge_same.
  - simpl in St. destruct (hand s) as [[[] lim [] got out tk]|]; try done.
    destruct (dropAcked _ _ _) eqn:R. injection St as <- <-. by eapply charge_dropAcked.
  - simpl in St. destruct (dropAcked _ _ _) eqn:R. injection St as <- <-. by eapply charge_dropAcked.
  - simpl in St. destruct (hand s) as [[r lim [] got out tk]|]; try done. injection St as <- <-. by apply charge_same.
  - simpl in St. destruct (hand s) as [[r lim [] got out tk]|]; try done.
    destruct (appendCapped _ _ _ _) eqn:R. injection St as <- <-.
    apply appendCapped_spec in R as [[-> _]|(? & ? & _ & _ & -> & _)]; by apply charge_same.
  - simpl in St. destruct (hand s) as [[r lim [] [] out tk]|]; try done.
    destruct (ch (queue s)); [done|]. destruct (_ <? _); [|done]. injection St as <- <-. by apply charge_same.
  - simpl in St. destruct (hand s) as [[r lim [] [] out tk]|]; try done.
    destruct (0 <? tk); [|injection St as <- <-; by apply charge_same].
    destruct (releaseLocked _ _ _ _) eqn:R. injection St as <- <-. by eapply charge_release.
  - simpl in St. destruct (hand s) as [[r lim [] got out tk]|]; try done.
    destruct (blen out =? 0); [injection St as <- <-; by apply charge_same|].
    destruct (publish_seq r (queue s)) as [sq|] eqn:P; [injection St as <- <-; by apply charge_same|].
    destruct (releaseLocked _ _ _ _) eqn:R. injection St as <- <-. eapply charge_release; [apply (blen_nonneg out)|exact R].
  - simpl in St. destruct (hand s) as [[r lim [] got out tk]|]; try done. injection St as <- <-. by apply charge_same.
  - injection St as <- <-. by apply charge_same.
Qed.

(** ** The relay *)

Record relay := Relay { dirs : list (sys (B:=B)); acct : residency }.

Inductive relay_step : relay → relay → Prop :=
| open_dir rl ns :
    relay_step rl (Relay (dirs rl ++ [start (attach ns newSideQueue (acct rl)).1])
                         (attach (B:=B) ns newSideQueue (acct rl)).2)
| dir_step rl i s s' e p' :
    dirs rl !! i = Some s → honest w s e → step e s (acct rl) = Some (s', p') →
    relay_step rl (Relay (<[i := s']> (dirs rl)) p').

Definition relay_reachable : relay → Prop :=
  reachable (λ rl, dirs rl = [] ∧ ∃ now, acct rl = newResidency now) relay_step.

(** What a direction has charged, to the relay and to namespace [ns]. *)
Definition charge_of s : Z := resident (queue s).
Definition charges (ns : string) s : bool :=
  negb (freed (queue s)) && bool_decide (share (queue s) = Some ns).
Definition ns_charge (ns : string) s : Z := if charges ns s then resident (queue s) else 0.
Definition ns_refs (ns : string) s : Z := if charges ns s then 1 else 0.

Definition live_queues (ns : string) (rl : relay) : Z := sum_Z (ns_refs ns) (dirs rl).

Record balanced (rl : relay) : Prop := {
  b_dirs : Forall (λ s, running w s ∧ pooled (queue s) = true) (dirs rl);
  b_total : p_used (acct rl) = sum_Z charge_of (dirs rl);
  b_ns : ∀ ns, share_used (Some ns) (acct rl) = sum_Z (ns_charge ns) (dirs rl);
  b_refs : ∀ ns, sh_refs <$> p_ns (acct rl) !! ns =
    if live_queues ns rl =? 0 then None else Some (live_queues ns rl);
  b_limits : p_limit (acct rl) = maxResidentTotal ∧ p_nsLimit (acct rl) = maxResidentPerNamespace;
  b_fits : p_used (acct rl) ≤ maxResidentTotal ∧
           ∀ ns, share_used (Some ns) (acct rl) ≤ maxResidentPerNamespace }.

Lemma sum_Z_ge {A} (f : A → Z) l x : (∀ y, 0 ≤ f y) → x ∈ l → f x ≤ sum_Z f l.
Proof.
  intros H. induction l as [|y l IH]; [set_solver|]. intros [->|Hx]%elem_of_cons; simpl.
  - pose proof (sum_Z_nonneg f l H). lia.
  - specialize (IH Hx). specialize (H y). lia.
Qed.

Lemma ns_refs_nonneg ns s : 0 ≤ ns_refs ns s.
Proof. unfold ns_refs. destruct (charges ns s); lia. Qed.

Lemma no_refs_no_charge ns l : sum_Z (ns_refs ns) l = 0 → sum_Z (ns_charge ns) l = 0.
Proof.
  induction l as [|s l IH]; simpl; [done|].
  pose proof (ns_refs_nonneg ns s). pose proof (sum_Z_nonneg (ns_refs ns) l (ns_refs_nonneg ns)).
  intros E. rewrite IH by lia. unfold ns_refs, ns_charge in *. destruct (charges ns s); lia.
Qed.

(** A live direction keeps its namespace's share in the account. *)
Lemma live_share rl s ns :
  balanced rl → s ∈ dirs rl → charges ns s = true → is_Some (p_ns (acct rl) !! ns).
Proof.
  intros Bal Hs C. pose proof (sum_Z_ge (ns_refs ns) (dirs rl) s (ns_refs_nonneg ns) Hs) as G.
  unfold ns_refs at 1 in G. rewrite C in G. pose proof (b_refs rl Bal ns) as R. unfold live_queues in R.
  rewrite (proj2 (Z.eqb_neq _ _)) in R by lia. by destruct (p_ns (acct rl) !! ns).
Qed.

Lemma charge_nonneg s : accounted s → 0 ≤ resident (queue s).
Proof.
  intros [Ab Af Ac Al Ap At Aa]. destruct (freed (queue s)) eqn:F; [destruct (Af eq_refl); lia|].
  destruct (Ab eq_refl) as [-> _]. unfold bytes_of. destruct (pend_sums _ _ Ap) as [? _].
  pose proof (sum_Z_blen_nonneg (ch (queue s))). pose proof (blen_nonneg (head (queue s))).
  pose proof (msum_blen_nonneg (assigned (queue s))). pose proof (blen_nonneg (h_out s)).
  pose proof (blen_nonneg (h_got s)). pose proof (msum_blen_nonneg (seqHeld (queue s))). lia.
Qed.

(** The share of [ns] moves with the charge of the direction that uses it. *)
Lemma balanced_charge rl i s s' p' :
  balanced rl → dirs rl !! i = Some s → running w s' →
  charge_step (queue s) (queue s') (acct rl) p' →
  balanced (Relay (<[i := s']> (dirs rl)) p').
Proof.
  intros Bal Hi R' [CP CS CF CM Fit].
  assert (s ∈ dirs rl) as Hin by (by eapply list_elem_of_lookup_2).
  destruct (proj1 (Forall_forall _ _) (b_dirs rl Bal) s Hin) as [R P].
  destruct (accounted_running w s R) as [_ A]. destruct (accounted_running w s' R') as [_ A'].
  unfold moved in CM. rewrite P in CM. destruct CM as [CT CSh CR [CL1 CL2]].
  assert (∀ ns, charges ns s' = charges ns s) as CC.
  { intros ns. unfold charges. by rewrite CS, CF. }
  assert (freed (queue s) = true → resident (queue s') = resident (queue s)) as Fz.
  { intros F. destruct (a_freed s A F) as [-> _]. rewrite <- CF in F. by destruct (a_freed s' A' F) as [-> _]. }
  assert (∀ ns, share_used (Some ns) p' = sum_Z (ns_charge ns) (<[i:=s']> (dirs rl))) as NS.
  { intros ns. rewrite CSh, (sum_Z_insert _ _ _ s) by done. rewrite (b_ns rl Bal).
    assert (ns_charge ns s' = if charges ns s then resident (queue s') else 0) as -> by (unfold ns_charge; by rewrite CC).
    assert (ns_charge ns s = if charges ns s then resident (queue s) else 0) as -> by done.
    destruct (charges ns s) eqn:C.
    - pose proof (live_share rl s ns Bal Hin C). unfold charges in C. bsplit.
      rewrite decide_True by done. lia.
    - destruct (freed (queue s)) eqn:F.
      + rewrite Fz by done. case_decide; lia.
      + unfold charges in C. rewrite F in C. simpl in C. apply bool_decide_eq_false_1 in C.
        rewrite decide_False by (by intros [? _]). lia. }
  pose proof (b_fits rl Bal) as [FT FN]. destruct (b_limits rl Bal) as [L1 L2].
  split; simpl.
  - apply Forall_insert; [apply Bal|]. split; [done|congruence].
  - rewrite CT, (sum_Z_insert _ _ _ s), (b_total rl Bal) by done. unfold charge_of. lia.
  - done.
  - intros ns. rewrite CR, (b_refs rl Bal). unfold live_queues. simpl.
    rewrite (sum_Z_insert _ _ _ s) by done.
    assert (ns_refs ns s' = ns_refs ns s) as -> by (unfold ns_refs; by rewrite CC).
    replace (_ - ns_refs ns s + _) with (sum_Z (ns_refs ns) (dirs rl)) by lia. done.
  - split; congruence.
  - destruct Fit as [Less|Fit].
    + split; [lia|]. intros ns. rewrite CSh. specialize (FN ns). case_decide; lia.
    + destruct (Fit P) as [Fit1 Fit2]. split; [congruence|]. intros ns. rewrite CSh. specialize (FN ns).
      case_decide as D; [|lia]. destruct D as [D _]. rewrite D in Fit2. specialize (Fit2 ltac:(done)). lia.
Qed.

(** Joining and leaving a share. *)
Lemma join_share ns p ns' :
  share_used (Some ns') (join ns p) = share_used (Some ns') p ∧
  sh_refs <$> p_ns (join ns p) !! ns' =
    if decide (ns = ns') then Some (default 0 (sh_refs <$> p_ns p !! ns) + 1) else sh_refs <$> p_ns p !! ns'.
Proof.
  unfold join, share_used. destruct (p_ns p !! ns) as [sh|] eqn:E; simpl.
  all: destruct (decide (ns = ns')) as [<-|N]; [rewrite lookup_insert_eq|rewrite lookup_insert_ne by done].
  all: by rewrite ?E.
Qed.

Lemma leave_share ns p ns' refs :
  sh_refs <$> p_ns p !! ns = Some refs →
  share_used (Some ns') (leave (Some ns) p) =
    (if decide (ns = ns' ∧ refs = 1) then 0 else share_used (Some ns') p) ∧
  sh_refs <$> p_ns (leave (Some ns) p) !! ns' =
    (if decide (ns = ns') then if refs - 1 =? 0 then None else Some (refs - 1) else sh_refs <$> p_ns p !! ns').
Proof.
  unfold leave, share_used. destruct (p_ns p !! ns) as [sh|] eqn:E; simpl; [|done]. intros [= <-].
  destruct (Z.eqb_spec (sh_refs sh - 1) 0) as [R|R]; simpl.
  - destruct (decide (ns = ns')) as [<-|N].
    + rewrite lookup_delete_eq. rewrite decide_True by (split; [done|lia]). done.
    + rewrite lookup_delete_ne by done. rewrite decide_False by tauto. done.
  - destruct (decide (ns = ns')) as [<-|N].
    + rewrite lookup_insert_eq. rewrite decide_False by lia. by rewrite E.
    + rewrite lookup_insert_ne by done. rewrite decide_False by tauto. done.
Qed.

Lemma leave_same sh p :
  p_used (leave sh p) = p_used p ∧ p_limit (leave sh p) = p_limit p ∧ p_nsLimit (leave sh p) = p_nsLimit p.
Proof.
  unfold leave. destruct sh as [ns|]; [|done]. destruct (p_ns p !! ns); [|done]. by destruct (_ =? _).
Qed.

Lemma balanced_open rl ns :
  balanced rl →
  balanced (Relay (dirs rl ++ [start (attach ns newSideQueue (acct rl)).1])
                  (attach (B:=B) ns newSideQueue (acct rl)).2).
Proof.
  intros Bal. set (s0 := start _).
  assert (running w s0) as R0 by (apply reachable_init; eauto).
  set (pa := (attach (B:=B) ns newSideQueue (acct rl)).2).
  assert (pa = if (ns =? "")%string then acct rl else join ns (acct rl)) as Hpa.
  { unfold pa, attach. simpl. by destruct (ns =? "")%string. }
  assert (p_used pa = p_used (acct rl) ∧ p_limit pa = p_limit (acct rl) ∧
          p_nsLimit pa = p_nsLimit (acct rl)) as (U & L1 & L2).
  { rewrite Hpa. destruct (ns =? "")%string; [done|]. unfold join. by destruct (_ !! _). }
  assert (∀ m, share_used (Some m) pa = share_used (Some m) (acct rl)) as SU.
  { intros m. rewrite Hpa. destruct (ns =? "")%string; [done|]. apply join_share. }
  assert (∀ m, ns_charge m s0 = 0) as C0 by (intros m; unfold ns_charge; by destruct (charges m s0)).
  clearbody pa. split; simpl.
  - apply Forall_app. split; [apply Bal|]. by constructor.
  - rewrite U, sum_Z_app, (b_total rl Bal). simpl. unfold charge_of, s0. simpl. lia.
  - intros m. rewrite SU, sum_Z_app, (b_ns rl Bal). simpl. rewrite C0. lia.
  - intros m. unfold live_queues. simpl. rewrite sum_Z_app. simpl.
    assert (ns_refs m s0 = if decide (ns = m ∧ ns ≠ ""%string) then 1 else 0) as ->.
    { unfold ns_refs, charges, s0. simpl. destruct (String.eqb_spec ns "").
      - rewrite bool_decide_false by done. rewrite decide_False by tauto. done.
      - case_decide as D; [destruct D as [-> _]; by rewrite bool_decide_true|].
        rewrite bool_decide_false; [done|]. intros [= ->]. tauto. }
    pose proof (sum_Z_nonneg (ns_refs m) (dirs rl) (ns_refs_nonneg m)) as NN.
    rewrite Hpa. destruct (String.eqb_spec ns "").
    + rewrite decide_False by tauto. rewrite !Z.add_0_r. apply Bal.
    + rewrite (proj2 (join_share ns (acct rl) m)). pose proof (b_refs rl Bal) as RR. unfold live_queues in RR.
      destruct (decide (ns = m)) as [->|N].
      * rewrite decide_True by done. rewrite RR. rewrite (proj2 (Z.eqb_neq (_ + (1 + 0)) 0)) by lia.
        destruct (Z.eqb_spec (sum_Z (ns_refs m) (dirs rl)) 0) as [->|]; simpl; f_equal; lia.
      * rewrite decide_False by tauto. by rewrite !Z.add_0_r.
  - destruct (b_limits rl Bal). split; congruence.
  - destruct (b_fits rl Bal) as [F1 F2]. split; [congruence|]. intros m. by rewrite SU.
Qed.

(** Freeing a direction takes its whole charge back and drops its share with
    its last user. *)
Lemma balanced_free rl i s q' p' :
  balanced rl → dirs rl !! i = Some s → freed (queue s) = false →
  free (queue s) (acct rl) = (q', p') → running w (with_queue q' s) →
  balanced (Relay (<[i := with_queue q' s]> (dirs rl)) p').
Proof.
  intros Bal Hi F R R'. assert (s ∈ dirs rl) as Hin by (by eapply list_elem_of_lookup_2).
  destruct (proj1 (Forall_forall _ _) (b_dirs rl Bal) s Hin) as [Rs P].
  destruct (accounted_running w s Rs) as [_ A]. pose proof (charge_nonneg s A) as NN.
  unfold free in R. unfold close in R. simpl in R. rewrite F, P in R. injection R as Q Hp.
  pose proof (release_charged (share (queue s)) (resident (queue s)) (acct rl)) as [CT CSh CR [CL1 CL2]].
  set (p1 := release _ _ _) in *.
  assert (∀ m, charges m (with_queue q' s) = false ∧ ns_charge m (with_queue q' s) = 0 ∧ ns_refs m (with_queue q' s) = 0) as ZC.
  { intros m. unfold ns_charge, ns_refs, charges. simpl. by rewrite <- Q. }
  assert (∀ m, charges m s = bool_decide (share (queue s) = Some m)) as CC by (intros m; unfold charges; by rewrite F).
  assert (∀ m, live_queues m (Relay (<[i:=with_queue q' s]> (dirs rl)) p') =
               live_queues m rl - (if bool_decide (share (queue s) = Some m) then 1 else 0)) as LQ.
  { intros m. unfold live_queues. simpl. rewrite (sum_Z_insert _ _ _ s) by done.
    destruct (ZC m) as (_ & _ & ->). unfold ns_refs at 2. rewrite CC. lia. }
  assert (∀ m, sum_Z (ns_charge m) (<[i:=with_queue q' s]> (dirs rl)) = share_used (Some m) p1) as NC.
  { intros m. rewrite (sum_Z_insert _ _ _ s), CSh, (b_ns rl Bal) by done. destruct (ZC m) as (_ & -> & _).
    unfold ns_charge at 2. rewrite CC. case_bool_decide as D.
    - rewrite decide_True; [lia|]. split; [done|]. eapply live_share; [done|exact Hin|]. rewrite CC. by apply bool_decide_eq_true.
    - rewrite decide_False by tauto. lia. }
  assert (p_used p' = p_used p1 ∧ p_limit p' = p_limit p1 ∧ p_nsLimit p' = p_nsLimit p1) as (U & L1 & L2).
  { rewrite <- Hp. apply leave_same. }
  assert (∀ m, share_used (Some m) p' = sum_Z (ns_charge m) (<[i:=with_queue q' s]> (dirs rl)) ∧
    sh_refs <$> p_ns p' !! m = if live_queues m (Relay (<[i:=with_queue q' s]> (dirs rl)) p') =? 0 then None
                               else Some (live_queues m (Relay (<[i:=with_queue q' s]> (dirs rl)) p'))) as SR.
  { intros m. pose proof (CR m) as CRm. rewrite (b_refs rl Bal) in CRm. rewrite LQ.
    destruct (share (queue s)) as [ns|] eqn:SH.
    - assert (1 ≤ live_queues ns rl) as G.
      { pose proof (sum_Z_ge (ns_refs ns) (dirs rl) s (ns_refs_nonneg ns) Hin) as G.
        unfold ns_refs at 1 in G. rewrite CC, bool_decide_true in G by done. exact G. }
      pose proof (CR ns) as CRn. rewrite (b_refs rl Bal), (proj2 (Z.eqb_neq _ _)) in CRn by lia.
      destruct (leave_share ns p1 m _ CRn) as [LS1 LS2]. rewrite <- Hp, LS1, LS2. split.
      + destruct (decide (ns = m ∧ live_queues ns rl = 1)) as [D|D]; [|by rewrite NC]. destruct D as [<- D]. symmetry. apply no_refs_no_charge.
        pose proof (LQ ns) as E. unfold live_queues in E at 1. simpl in E. rewrite E, bool_decide_true by done. lia.
      + destruct (decide (ns = m)) as [<-|N]; [by rewrite bool_decide_true|].
        rewrite bool_decide_false by congruence. by rewrite CRm, Z.sub_0_r.
    - rewrite <- Hp. change (leave None p1) with p1. split; [by rewrite NC|].
      rewrite CRm, bool_decide_false by done. by rewrite Z.sub_0_r. }
  destruct (b_fits rl Bal) as [F1 F2], (b_limits rl Bal).
  split; simpl.
  - apply Forall_insert; [apply Bal|]. split; [done|]. simpl. by rewrite <- Q.
  - rewrite U, CT, (sum_Z_insert _ _ _ s), (b_total rl Bal) by done.
    assert (charge_of (with_queue q' s) = 0) as -> by (unfold charge_of; by rewrite <- Q).
    change (charge_of s) with (resident (queue s)). lia.
  - intros m. apply SR.
  - intros m. apply SR.
  - split; congruence.
  - split; [lia|]. intros m. rewrite (proj1 (SR m)), NC, CSh. specialize (F2 m). case_decide; lia.
Qed.

Lemma balanced_step rl rl' : balanced rl → relay_step rl rl' → balanced rl'.
Proof.
  intros Bal St. destruct St as [rl ns|rl i s s' e p' Hi HW St]; [by apply balanced_open|].
  assert (s ∈ dirs rl) as Hin by (by eapply list_elem_of_lookup_2).
  destruct (proj1 (Forall_forall _ _) (b_dirs rl Bal) s Hin) as [R P].
  assert (running w s') as R' by (eapply reachable_step; [exact R|]; exists e, (acct rl), p'; done).
  destruct (accounted_running w s R) as [O A].
  assert (e = EFree ∨ e ≠ EFree) as [->|NE] by (destruct e; auto; by right).
  - simpl in St. destruct (free (queue s) (acct rl)) as [q' p1] eqn:Fr. injection St as <- <-.
    destruct (freed (queue s)) eqn:F; [|by eapply balanced_free].
    unfold free in Fr. simpl in Fr. rewrite F in Fr. injection Fr as <- <-.
    eapply balanced_charge; [done|exact Hi|done|]. by apply charge_same.
  - eapply balanced_charge; [done|exact Hi|done|]. by eapply step_charge.
Qed.

Lemma balanced_reachable rl : relay_reachable rl → balanced rl.
Proof.
  apply invariant_reachable; [|intros ? ?; apply balanced_step].
  intros rl0 [D [now E]]. unfold relay_reachable.
  split; unfold live_queues; rewrite ?D, ?E; simpl; try done.
Qed.

(** The relay's account is exact and bounded whatever the sessions do.  The
    total is the sum of what every direction has charged and never passes
    256 MiB; a namespace's share is the sum over its own live directions and
    never passes 64 MiB; and once every direction is freed nothing stays
    charged and no share is left behind. *)
Lemma relay_account rl :
  relay_reachable rl →
  p_used (acct rl) = sum_Z charge_of (dirs rl) ∧
  0 ≤ p_used (acct rl) ≤ maxResidentTotal ∧
  (∀ ns, share_used (Some ns) (acct rl) = sum_Z (ns_charge ns) (dirs rl) ∧
         share_used (Some ns) (acct rl) ≤ maxResidentPerNamespace) ∧
  (Forall (λ s, freed (queue s) = true) (dirs rl) → p_used (acct rl) = 0 ∧ p_ns (acct rl) = ∅).
Proof.
  intros R. pose proof (balanced_reachable rl R) as Bal. destruct (b_fits rl Bal) as [F1 F2].
  assert (Forall (λ s, 0 ≤ charge_of s ∧ (freed (queue s) = true → charge_of s = 0)) (dirs rl)) as NN.
  { eapply Forall_impl; [apply Bal|]. intros s [Rs _]. destruct (accounted_running w s Rs) as [_ A].
    split; [by apply charge_nonneg|]. intros F. by destruct (a_freed s A F). }
  split_and!; [apply Bal| |done| |].
  - rewrite (b_total rl Bal). clear -NN. induction NN as [|s l [H _] _ IH]; simpl; lia.
  - intros ns. split; [apply Bal|done].
  - intros FA. split.
    + rewrite (b_total rl Bal). clear -NN FA. induction NN as [|s l [_ H] _ IH]; simpl; [done|].
      inversion FA as [|? ? HF HA]; subst. rewrite H, IH; done.
    + apply map_empty. intros ns. pose proof (b_refs rl Bal ns) as RR.
      assert (live_queues ns rl = 0) as Z0.
      { unfold live_queues. clear -FA. induction FA as [|s l F _ IH]; simpl; [done|].
        unfold ns_refs at 1, charges. rewrite F, IH. done. }
      rewrite Z0 in RR. simpl in RR. by destruct (p_ns (acct rl) !! ns).
Qed.
End pool.

(** One direction of namespace "a" that holds four bytes. *)
Definition one_dir : relay (B:=nat) :=
  match exec run_events (start (attach "a" newSideQueue (newResidency 0)).1)
          (attach (B:=nat) "a" newSideQueue (newResidency 0)).2 with
  | Some (s, p) => Relay [s] p
  | None => Relay [] (newResidency 0)
  end.

Lemma relay_exec w (es : list (event (B:=nat))) s p s' p' :
  honest_run w es s p → exec es s p = Some (s', p') →
  relay_reachable w (Relay [s] p) → relay_reachable w (Relay [s'] p').
Proof.
  revert s p. induction es as [|e es IH]; intros s p H E R; simpl in *; [by simplify_eq|].
  destruct H as [H1 H2]. destruct (step e s p) as [[s1 p1]|] eqn:St; [|done].
  apply (IH s1 p1 H2 E). eapply reachable_step; [exact R|]. exact (dir_step w (Relay [s] p) 0 s s1 e p1 eq_refl H1 St).
Qed.

Lemma one_dir_reachable : relay_reachable run_writes one_dir.
Proof.
  unfold one_dir. destruct (exec _ _ _) as [[s p]|] eqn:E; [|vm_compute in E; discriminate].
  eapply relay_exec; [|exact E|].
  - clear E. vm_compute. repeat split; intros; simplify_eq; reflexivity.
  - apply (reachable_step _ _ (Relay [] (newResidency 0))); [apply reachable_init; split; [reflexivity|by exists 0]|].
    exact (open_dir run_writes (Relay [] (newResidency 0)) "a").
Qed.

Lemma relay_account_witness :
  p_used (acct one_dir) = 4 ∧ share_used (Some "a"%string) (acct one_dir) ≤ maxResidentPerNamespace.
Proof.
  split; [vm_compute; reflexivity|].
  destruct (relay_account run_writes one_dir one_dir_reachable) as (_ & _ & H & _). apply H.
Defined.
