(* ===== verification/Session.v ===== *)
(** [internal/sessionauth] and [internal/delegation]: what the relay says about
    a session on the agent's control channel, and the access a credential
    resolves to.  [time.Now] is the argument [now]. *)

From S2P Require Import Prelude GoStrings GoUtf8.

Local Open Scope Z_scope.

#[local] Arguments find_first : simpl never.

Module Auth.
(** ** Capabilities: a [uint8] of flags *)

Definition Exec : Z := 1.
Definition Read : Z := 2.
Definition Write : Z := 4.
Definition Logs : Z := 8.
Definition Console : Z := 16.

Definition UseCapabilities : Z := Z.lor (Z.lor (Z.lor Exec Read) Write) Logs.
Definition FullCapabilities : Z := Z.lor UseCapabilities Console.

Definition capabilityNames : list (string * Z) :=
  [("exec"%string, Exec); ("read"%string, Read); ("write"%string, Write);
   ("logs"%string, Logs); ("console"%string, Console)].

Definition Has (c required : Z) : bool := Z.land c required =? required.

Definition Valid (c : Z) : bool := negb (c =? 0) && (Z.ldiff c FullCapabilities =? 0).

Definition names (c : Z) : list string :=
  map fst (List.filter (λ item, Has c item.2) capabilityNames).

Definition to_string (c : Z) : string := join "," (names c).

Inductive parse_error := EmptyCapabilities | UnknownCapability (name : string) | DuplicateCapability (name : string).

(** The loop of [Parse] over the comma-separated names. *)
Fixpoint parse_names (l : list string) (caps : Z) : result parse_error Z :=
  match l with
  | [] => Ok caps
  | raw :: l =>
      let name := trim_space raw in
      match find_first (λ item : string * Z, String.eqb name item.1) capabilityNames with
      | None => Err (UnknownCapability name)
      | Some (_, found) =>
          if Has caps found then Err (DuplicateCapability name)
          else parse_names l (Z.lor caps found)
      end
  end.

Definition Parse (value : string) : result parse_error Z :=
  if String.eqb (trim_space value) "" then Err EmptyCapabilities
  else parse_names (split_on ","%char value) 0.

(** [MarshalJSON] and [UnmarshalJSON], on the JSON string they carry. *)
Definition MarshalJSON (c : Z) : option string := if Valid c then Some (to_string c) else None.
Definition UnmarshalJSON (value : string) : result parse_error Z := Parse value.

(** ** [Open]: the relay's metadata of one session *)

Record session_open := SessionOpen {
  Op : string; Session : string; URL : string;
  CallerNamespace : string; OwnerNamespace : string; Device : string;
  Capabilities : Z; GrantID : string; CredentialID : string;
  ControllerFingerprint : string; ExpiresAt : Z; ExecOnly : string }.

Definition empty (s : string) : bool := String.eqb s "".

Definition ControllerOK (o : session_open) (fp : string) : bool :=
  negb (empty (ExecOnly o)) || String.eqb (ControllerFingerprint o) fp.

Definition ValidFor (now : Z) (o : session_open) (device : string) : bool :=
  let expired := is_zero (ExpiresAt o) || negb (now <? ExpiresAt o) in
  let refused :=
    if negb (empty (ExecOnly o)) then
      empty (GrantID o) || empty (CredentialID o) || expired || negb (Capabilities o =? Exec)
    else
      negb (empty (GrantID o)) &&
        (empty (CredentialID o) || empty (ControllerFingerprint o) || expired
         || negb (Capabilities o =? UseCapabilities)) in
  if refused then false
  else negb (empty (Session o)) && negb (empty (CallerNamespace o)) && negb (empty (OwnerNamespace o))
       && String.eqb (Device o) device && Valid (Capabilities o).

(** ** Lemmas *)

Lemma valid_range c : 0 ≤ c → Valid c = true → 1 ≤ c ≤ 31.
Proof.
  unfold Valid. intros H V. bsplit.
  assert (Z.land c FullCapabilities = c) as E.
  { apply Z.bits_inj'. intros n Hn.
    pose proof (f_equal (λ z, Z.testbit z n) H1) as B. simpl in B.
    rewrite Z.ldiff_spec, Z.bits_0 in B. rewrite Z.land_spec.
    destruct (Z.testbit c n), (Z.testbit FullCapabilities n); done. }
  change FullCapabilities with (Z.ones 5) in E. rewrite Z.land_ones in E by done.
  pose proof (Z.mod_pos_bound c (2 ^ 5) ltac:(done)) as B. rewrite E in B. change (2 ^ 5) with 32 in B. lia.
Qed.

Lemma known_cap name found :
  find_first (λ item : string * Z, String.eqb name item.1) capabilityNames = Some found →
  1 ≤ found.2 ≤ 16.
Proof.
  intros H. apply find_first_Some in H as [H _]. unfold capabilityNames in H.
  repeat (apply elem_of_cons in H as [->|H]; [done|]). by apply elem_of_nil in H.
Qed.

Lemma lor_range a b : 0 ≤ a ≤ 31 → 1 ≤ b ≤ 16 → 1 ≤ Z.lor a b ≤ 31.
Proof.
  intros A B. assert (0 ≤ Z.lor a b) by (apply Z.lor_nonneg; lia).
  assert (Z.lor a b ≠ 0) by (intros E; apply Z.lor_eq_0_iff in E as [_ E]; lia).
  assert (Z.lor a b < 2 ^ 5); [|lia]. apply Z.log2_lt_cancel. rewrite Z.log2_lor by lia.
  assert (Z.log2 a ≤ Z.log2 31) by (apply Z.log2_le_mono; lia).
  assert (Z.log2 b ≤ Z.log2 16) by (apply Z.log2_le_mono; lia).
  change (Z.log2 31) with 4 in *. change (Z.log2 16) with 4 in *. change (Z.log2 (2 ^ 5)) with 5. lia.
Qed.

Lemma parse_names_valid l caps c :
  0 ≤ caps ≤ 31 → (l = [] → 1 ≤ caps) → parse_names l caps = Ok c → 1 ≤ c ≤ 31.
Proof.
  revert caps. induction l as [|raw l IH]; intros caps R N; cbn [parse_names].
  - intros [= <-]. specialize (N eq_refl). lia.
  - destruct (find_first _ _) as [[nm found]|] eqn:F; [|done]. apply known_cap in F. simpl in F.
    destruct (Has caps found); [done|]. pose proof (lor_range caps found R F). intros H'. apply IH in H'; lia.
Qed.

(** The valid values are 1 to 31. *)
Lemma valid_cases c : 1 ≤ c ≤ 31 → c ∈ seqZ 1 31.
Proof. rewrite elem_of_seqZ. lia. Qed.

Lemma valid_of_range c : 1 ≤ c ≤ 31 → Valid c = true.
Proof.
  intros R. apply valid_cases in R. revert c R. apply Forall_forall. vm_compute. repeat constructor.
Qed.

(** Capabilities survive the control channel: the text a valid value is
    sent as is accepted and gives back that value, and whatever text is
    accepted gives a valid value, never an empty or unknown one. *)
Lemma capabilities_roundtrip :
  (∀ c, 0 ≤ c → Valid c = true → Parse (to_string c) = Ok c) ∧
  (∀ value c, Parse value = Ok c → Valid c = true).
Proof.
  split.
  - intros c N V. pose proof (valid_range c N V) as R. apply valid_cases in R.
    assert (forallb (λ c, match Parse (to_string c) with Ok d => d =? c | Err _ => false end) (seqZ 1 31) = true) as F.
    { vm_compute. reflexivity. }
    rewrite forallb_forall in F. specialize (F c (proj1 (list_elem_of_In _ _) R)).
    destruct (Parse (to_string c)); [|done]. bsplit. congruence.
  - unfold Parse. intros value c. destruct (String.eqb _ _); [done|]. intros H. apply valid_of_range.
    eapply parse_names_valid; [|intros E|exact H]; [lia|].
    destruct (split_on_cons ","%char value) as (w & ws & E'). congruence.
Qed.

(** What the agent checks before it serves a session.  A session that is
    scoped to one command may only execute, a grant's session may use the device
    but not administer it, both only before their expiry and only with a
    credential; and the session names this device. *)
Lemma ValidFor_limits now o device :
  ValidFor now o device = true →
  Device o = device ∧ Valid (Capabilities o) = true ∧
  (ExecOnly o ≠ ""%string → Capabilities o = Exec ∧ Has (Capabilities o) Console = false) ∧
  (GrantID o ≠ ""%string → CredentialID o ≠ ""%string ∧ now < ExpiresAt o ∧
     Has (Capabilities o) Console = false ∧
     (ExecOnly o = ""%string → ControllerFingerprint o ≠ ""%string)) ∧
  (ExecOnly o ≠ ""%string → GrantID o ≠ ""%string).
Proof.
  unfold ValidFor, empty, is_zero. intros H.
  destruct (if negb (ExecOnly o =? "")%string then _ else _) eqn:R; [done|]. bsplit.
  destruct (String.eqb_spec (ExecOnly o) "") as [E|E]; simpl in R.
  - destruct (String.eqb_spec (GrantID o) "") as [G|G]; simpl in R; ssplit; [naive_solver|].
    assert (Capabilities o = UseCapabilities) as -> by done. naive_solver.
  - ssplit. assert (Capabilities o = Exec) as -> by done. naive_solver.
Qed.

(** A scoped session of device "box". *)
Definition sample_open : session_open :=
  SessionOpen "" "s1" "" "u2" "u1" "box" Exec "g1" "c1" "" 100 "uptime".

Lemma ValidFor_limits_witness :
  ValidFor 50 sample_open "box" = true ∧ Has (Capabilities sample_open) Console = false.
Proof.
  assert (ValidFor 50 sample_open "box" = true) as H by reflexivity. split; [exact H|].
  destruct (ValidFor_limits 50 sample_open "box" H) as (_ & _ & E & _). apply E. discriminate.
Defined.
End Auth.

Module Delegation.
Definition MaxGrantMinutes : Z := 1440.
Definition RequestWindow : Z := 10 * minute.
Definition TicketLifetime : Z := RequestWindow + MaxGrantMinutes * minute.
Definition MinRetention : Z := MaxGrantMinutes * minute + hour.
Definition JobsPerGrantHour : Z := 64.
Definition MinJobsPerGrant : Z := 64.
Definition ScopedTokenPrefix : string := "wcs_".

(** Go's integer division truncates. *)
Definition MaxJobs (granted : Z) : Z :=
  let hours := Z.quot (granted + hour - 1) hour in
  let n := hours * JobsPerGrantHour in
  if MinJobsPerGrant <? n then n else MinJobsPerGrant.

Record device := DelegatedDevice { d_Namespace : string; d_ID : string; d_Fingerprint : string }.

Definition Target (d : device) : string := (d_Namespace d ++ "/" ++ d_ID d)%string.

Record access := Access {
  ac_Namespace : string; ac_CredentialID : string; Delegated : bool; ac_GrantID : string;
  ac_ExpiresAt : Z; Devices : list device; ac_ControllerFingerprint : string;
  GrantedMinutes : Z; ac_ExecOnly : string }.

Definition Allows (now : Z) (a : access) (target : string) : bool :=
  if negb (Delegated a) then true
  else if is_zero (ac_ExpiresAt a) || negb (now <? ac_ExpiresAt a) then false
  else any (λ d, String.eqb (Target d) target) (Devices a).

Record request := DelegationRequest { DecidedAt : option Z; rq_ExpiresAt : option Z }.

Definition GrantedDuration (r : request) : Z :=
  match DecidedAt r, rq_ExpiresAt r with
  | Some d, Some e => e - d
  | _, _ => 0
  end.

(** The job allowance of a grant.  It is [JobsPerGrantHour] for every started
    hour of the approved window, never less than the floor, it does not
    shrink when the owner approves longer, and no grant an owner may approve
    passes 24 hours' worth. *)
Lemma MaxJobs_per_hour :
  (∀ g, MinJobsPerGrant ≤ MaxJobs g) ∧
  (∀ g h, g ≤ h → MaxJobs g ≤ MaxJobs h) ∧
  (∀ g k, 1 ≤ k → (k - 1) * hour < g ≤ k * hour → MaxJobs g = k * JobsPerGrantHour) ∧
  (∀ m, m ≤ MaxGrantMinutes → MaxJobs (m * minute) ≤ 24 * JobsPerGrantHour).
Proof.
  assert (∀ g, MinJobsPerGrant ≤ MaxJobs g) as Lo.
  { intros g. unfold MaxJobs. destruct (Z.ltb_spec MinJobsPerGrant (Z.quot (g + hour - 1) hour * JobsPerGrantHour)); lia. }
  assert (∀ g h, g ≤ h → MaxJobs g ≤ MaxJobs h) as Mono.
  { intros g h L. assert (Z.quot (g + hour - 1) hour ≤ Z.quot (h + hour - 1) hour) as Q.
    { apply Z.quot_le_mono; [done|lia]. }
    unfold MaxJobs, JobsPerGrantHour in *. repeat case_match; bsplit; lia. }
  assert (∀ g k, 1 ≤ k → (k - 1) * hour < g ≤ k * hour → MaxJobs g = k * JobsPerGrantHour) as Per.
  { intros g k K [L U]. unfold MaxJobs. assert (Z.quot (g + hour - 1) hour = k) as ->.
    { assert (hour = 3600000000000) as Hh by done. rewrite Z.quot_div_nonneg by lia. symmetry.
      apply (Z.div_unique _ _ _ (g + hour - 1 - hour * k)); lia. }
    unfold MinJobsPerGrant, JobsPerGrantHour. destruct (Z.ltb_spec 64 (k * 64)); lia. }
  split_and!; try done.
  intros m M. etrans; [apply (Mono _ (24 * hour))|]; [unfold MaxGrantMinutes, hour, minute, second in *; lia|].
  rewrite (Per (24 * hour) 24); [lia|lia|]. by split.
Qed.

(** A delegated credential reaches only the devices its grant lists and only
    until it expires. *)
Lemma Allows_delegated now a target :
  Delegated a = true →
  (Allows now a target = true ↔
    ac_ExpiresAt a ≠ 0 ∧ now < ac_ExpiresAt a ∧ ∃ d, d ∈ Devices a ∧ Target d = target).
Proof.
  intros D. unfold Allows, is_zero. rewrite D. simpl.
  destruct (Z.eqb_spec (ac_ExpiresAt a) 0); simpl; [naive_solver|].
  destruct (Z.ltb_spec now (ac_ExpiresAt a)); simpl; [|naive_solver lia].
  rewrite any_true. setoid_rewrite String.eqb_eq. naive_solver.
Qed.

(** A grant of one hour on one device, half an hour in. *)
Definition sample_access : access :=
  Access "u1" "c1" true "g1" hour [DelegatedDevice "u1" "box" "SHA256:x"] "SHA256:y" 60 "".

Lemma Allows_delegated_witness :
  Allows (30 * minute) sample_access "u1/box" = true ∧ Allows hour sample_access "u1/box" = false.
Proof.
  split; [|vm_compute; reflexivity].
  apply (Allows_delegated (30 * minute) sample_access "u1/box" eq_refl).
  split; [discriminate|]. split; [reflexivity|]. eexists. split; [left|reflexivity].
Defined.
End Delegation.
