(* ===== verification/Trust.v ===== *)
(** [internal/transport/trust.go]: the store of trusted peers.  Both sides keep
    one: the agent's known controllers and a controller's pinned devices.

    The map is a [gmap] over [peerKey]; a Go range over it visits the keys in
    any order, so the loops that can stop early take the order as an argument
    and the theorems hold for every order.  The file is the list of peers
    [save] wrote last; a store without a path never has one.  Failures of the
    file system are not modelled. *)

From S2P Require Import Prelude GoStrings GoUtf8 GoCodec.

Local Open Scope Z_scope.

Record peer := Peer { Fingerprint : string; Name : string; Label : string; Added : Z; LastSeen : Z }.

Record store := Store { persistent : bool; peers : gmap string peer; file : option (list peer) }.

Definition nul : ascii := "000"%char.
Definition peerKey (fp name : string) : string := (fp ++ String nul name)%string.

Definition NewMemStore : store := Store false ∅ None.

(** The map built from the entries of the file, in order. *)
Definition of_list (l : list peer) : gmap string peer :=
  foldl (λ m p, <[peerKey (Fingerprint p) (Name p) := p]> m) ∅ l.

Definition load (s : store) : store :=
  Store (persistent s) (match file s with None => ∅ | Some l => of_list l end) (file s).

Definition OpenStore (f : option (list peer)) : store := load (Store true ∅ f).

Definition save (s : store) : store :=
  if persistent s then Store true (peers s) (Some (snd <$> map_to_list (peers s))) else s.

Definition with_peers (m : gmap string peer) (s : store) : store := Store (persistent s) m (file s).

(** What [getByFingerprintLocked] may return: any entry with that fingerprint. *)
Definition has_fingerprint (fp : string) (m : gmap string peer) : bool :=
  any (λ kp : string * peer, String.eqb (Fingerprint kp.2) fp) (map_to_list m).

(** [Get] reads the file first, so a change made by another process is seen. *)
Definition Get (fp : string) (s : store) : option peer * store :=
  let s := if persistent s then load s else s in
  (snd <$> find_first (λ kp : string * peer, String.eqb (Fingerprint kp.2) fp) (map_to_list (peers s)), s).

Definition Has (fp : string) (s : store) : bool * store :=
  let '(r, s) := Get fp s in (match r with Some _ => true | None => false end, s).

Definition GetByName (name : string) (s : store) : option peer :=
  if String.eqb name "" then None
  else snd <$> find_first (λ kp : string * peer, String.eqb (Name kp.2) name) (map_to_list (peers s)).

Definition AddLabeled (now : Z) (fp name label : string) (s : store) : store :=
  save (with_peers (<[peerKey fp name := Peer fp name label now now]> (peers s)) s).

Definition Add (now : Z) (fp name : string) (s : store) : store := AddLabeled now fp name "" s.

Definition fingerprint_prefix : string := "SHA256:".

Definition ValidFingerprint (fp : string) : bool :=
  match cut_prefix fp fingerprint_prefix with
  | None => false
  | Some rest => match b64_decode rest with Some b => (slen b =? 32)%nat | None => false end
  end.

Inductive pin_error := NameRequired | InvalidFingerprint | Mismatch (stored offered : string).

(** The loop of [Pin] over the keys in the order the range visits them. *)
Fixpoint pin_loop (now : Z) (name fp : string) (replace : bool) (ks : list string) (m : gmap string peer)
  : result pin_error (bool * gmap string peer) :=
  match ks with
  | [] => Ok (false, m)
  | k :: ks =>
      match m !! k with
      | None => pin_loop now name fp replace ks m
      | Some p =>
          if negb (String.eqb (Name p) name) then pin_loop now name fp replace ks m
          else if String.eqb (Fingerprint p) fp
          then Ok (true, <[k := Peer (Fingerprint p) (Name p) (Label p) (Added p) now]> m)
          else if negb replace then Err (Mismatch (Fingerprint p) fp)
          else pin_loop now name fp replace ks (delete k m)
      end
  end.

Definition Pin (now : Z) (name fp : string) (replace : bool) (ks : list string) (s : store)
  : result pin_error store :=
  if String.eqb name "" then Err NameRequired
  else if negb (ValidFingerprint fp) then Err InvalidFingerprint
  else match pin_loop now name fp replace ks (peers s) with
       | Err e => Err e
       | Ok (true, m) => Ok (save (with_peers m s))
       | Ok (false, m) => Ok (save (with_peers (<[peerKey fp name := Peer fp name "" now now]> m) s))
       end.

Definition Touch (now : Z) (fp : string) (s : store) : store :=
  save (with_peers ((λ p, if String.eqb (Fingerprint p) fp
                          then Peer (Fingerprint p) (Name p) (Label p) (Added p) now else p) <$> peers s) s).

Definition List (s : store) : list peer := snd <$> map_to_list (peers s).

Definition RemoveName (name : string) (s : store) : store :=
  if String.eqb name "" then s
  else save (with_peers (filter (λ kp : string * peer, Name kp.2 ≠ name) (peers s)) s).

Definition Remove (fp : string) (s : store) : store :=
  save (with_peers (filter (λ kp : string * peer, Fingerprint kp.2 ≠ fp) (peers s)) s).

(** ** Well-formed stores *)

Definition no_nul (s : string) : bool := sforall (λ c, negb (Ascii.eqb c nul)) s.

Lemma peerKey_inj fp fp' n n' :
  no_nul fp = true → no_nul fp' = true → peerKey fp n = peerKey fp' n' → fp = fp' ∧ n = n'.
Proof.
  unfold peerKey, no_nul. revert fp'. induction fp as [|c fp IH]; intros [|c' fp']; simpl; intros H H'.
  - by intros [= ->].
  - bsplit. intros [= <- _]. done.
  - bsplit. intros [= -> _]. done.
  - bsplit. intros [= -> E]. destruct (IH fp') as [-> ->]; done.
Qed.

(** What holds of every character base64 is written with holds of what decodes. *)
Lemma b64_quanta_chars (f : ascii → bool) s t :
  (∀ c v, b64_value c = Some v → f c = true) → f "="%char = true → b64_quanta s = Some t → sforall f s = true.
Proof.
  intros V Pad. remember (slen s) as n eqn:N. revert s t N. induction (lt_wf n) as [n _ IH].
  intros [|c0 [|c1 [|c2 [|c3 s]]]] t ->; try done. cbn [b64_quanta sforall].
  destruct (b64_value c0) eqn:V0; [|done]. destruct (b64_value c1) eqn:V1; [|done].
  rewrite (V _ _ V0), (V _ _ V1).
  destruct (b64_value c2) eqn:V2; [rewrite (V _ _ V2)|].
  - destruct (b64_value c3) eqn:V3; [rewrite (V _ _ V3)|].
    + destruct (b64_quanta s) eqn:Q; [|done]. intros _. simpl. eapply IH; [|reflexivity|exact Q]. simpl. lia.
    + destruct (Ascii.eqb_spec c3 "="); [subst|done]. destruct (String.eqb_spec s ""); [subst|done]. by rewrite Pad.
  - destruct (Ascii.eqb_spec c2 "="); [subst|done]. destruct (Ascii.eqb_spec c3 "="); [subst|done].
    destruct (String.eqb_spec s ""); [subst|done]. by rewrite Pad.
Qed.

Lemma ValidFingerprint_chars (f : ascii → bool) fp :
  sforall f (fingerprint_prefix ++ "=") = true → (∀ c v, b64_value c = Some v → f c = true) → (∀ c, not_newline c = false → f c = true) →
  ValidFingerprint fp = true → sforall f fp = true.
Proof.
  intros P V Nn. unfold ValidFingerprint. destruct (cut_prefix fp _) as [rest|] eqn:E; [|done].
  apply cut_prefix_Some in E as ->. unfold b64_decode. destruct (b64_quanta _) eqn:Q; [|done]. intros _.
  rewrite sforall_app in P |- *. apply andb_true_iff in P as [-> Pad]. simpl in Pad. rewrite andb_true_r in Pad.
  apply (b64_quanta_chars f) in Q; [|done..]. simpl.
  revert Q. induction rest as [|c rest IH]; simpl; [done|]. destruct (not_newline c) eqn:N; simpl.
  - destruct (f c); [|done]. exact IH.
  - rewrite (Nn c N). exact IH.
Qed.

Lemma ValidFingerprint_without c fp :
  sforall (λ d, negb (Ascii.eqb d c)) (fingerprint_prefix ++ "=") = true → b64_value c = None → not_newline c = true →
  ValidFingerprint fp = true → sforall (λ d, negb (Ascii.eqb d c)) fp = true.
Proof.
  intros P V N. apply ValidFingerprint_chars; [done|..].
  - intros d v Hd. destruct (Ascii.eqb_spec d c) as [->|]; [congruence|done].
  - intros d Hd. destruct (Ascii.eqb_spec d c) as [->|]; [congruence|done].
Qed.

Lemma ValidFingerprint_no_nul fp : ValidFingerprint fp = true → no_nul fp = true.
Proof. by apply ValidFingerprint_without. Qed.

(** Every entry sits under its own key. *)
Definition keyed (m : gmap string peer) : Prop :=
  ∀ k p, m !! k = Some p → k = peerKey (Fingerprint p) (Name p) ∧ no_nul (Fingerprint p) = true.

(** The fingerprints pinned under a name. *)
Definition pinned (m : gmap string peer) (name fp : string) : Prop :=
  ∃ k p, m !! k = Some p ∧ Name p = name ∧ Fingerprint p = fp.

(** At most one fingerprint per name. *)
Definition single (m : gmap string peer) (name : string) : Prop :=
  ∀ fp fp', pinned m name fp → pinned m name fp' → fp = fp'.

Lemma keyed_delete m k : keyed m → keyed (delete k m).
Proof. intros K j p H. apply lookup_delete_Some in H as [_ H]. by apply K. Qed.

Lemma keyed_insert m p : keyed m → no_nul (Fingerprint p) = true → keyed (<[peerKey (Fingerprint p) (Name p) := p]> m).
Proof. intros K N j q [[<- <-]|[_ H]]%lookup_insert_Some; [done|by apply K]. Qed.

(** What the loop of [Pin] does, in any order. *)
Lemma pin_loop_ok now name fp replace ks m b m' :
  keyed m → pin_loop now name fp replace ks m = Ok (b, m') →
  keyed m' ∧
  (∀ n g, n ≠ name → pinned m' n g ↔ pinned m n g) ∧
  (∀ g, pinned m' name g → pinned m name g) ∧
  (b = true → pinned m' name fp) ∧
  (b = false → m' ⊆ m ∧ ∀ k p, m' !! k = Some p → Name p = name → k ∉ ks).
Proof.
  revert m. induction ks as [|k ks IH]; intros m K; cbn [pin_loop].
  { intros [= <- <-]. split_and!; try done. intros _. split; [done|]. intros k p _ _. apply not_elem_of_nil. }
  destruct (m !! k) as [p|] eqn:E.
  - destruct (String.eqb_spec (Name p) name) as [Nm|Nm]; cbn [negb].
    + destruct (String.eqb_spec (Fingerprint p) fp) as [F|F].
      * intros [= <- <-]. set (p' := Peer _ _ _ _ _).
        destruct (K k p E) as [Kk Kn].
        assert (∀ n g, pinned (<[k:=p']> m) n g ↔ pinned m n g) as P.
        { intros n g. split; intros (j & q & H & Hn & Hf).
          - apply lookup_insert_Some in H as [[<- <-]|[_ H]]; [exists k, p|exists j, q]; done.
          - destruct (decide (j = k)) as [->|N].
            + exists k, p'. rewrite lookup_insert_eq. simplify_eq. done.
            + exists j, q. by rewrite lookup_insert_ne. }
        split_and!; try done.
        -- intros j q [[<- <-]|[_ H]]%lookup_insert_Some; [done|by apply K].
        -- intros g. apply P.
        -- intros _. apply P. exists k, p. done.
      * destruct replace; cbn [negb]; [|done]. intros H.
        destruct (IH _ (keyed_delete m k K) H) as (K' & O & S & T & U). split_and!; try done.
        -- intros n g Hn. rewrite O by done. split; intros (j & q & Hj & Hq & Hf); exists j, q.
           ++ apply lookup_delete_Some in Hj as [_ ?]. done.
           ++ rewrite lookup_delete_ne; [done|]. intros ->. simplify_eq.
        -- intros g (j & q & Hj & Hq)%S. apply lookup_delete_Some in Hj as [_ ?]. by exists j, q.
        -- intros Hb. destruct (U Hb) as [U1 U2]. split; [etrans; [exact U1|apply delete_subseteq]|].
           intros j q Hj Hq. apply not_elem_of_cons. split; [|by eapply U2]. intros ->.
           pose proof (lookup_weaken _ _ _ _ Hj U1) as D. by rewrite lookup_delete_eq in D.
    + intros H. destruct (IH m K H) as (K' & O & S & T & U). split_and!; try done.
      intros Hb. destruct (U Hb) as [U1 U2]. split; [done|].
      intros j q Hj Hq. apply not_elem_of_cons. split; [|by eapply U2]. intros ->.
      pose proof (lookup_weaken _ _ _ _ Hj U1). congruence.
  - intros H. destruct (IH m K H) as (K' & O & S & T & U). split_and!; try done.
    intros Hb. destruct (U Hb) as [U1 U2]. split; [done|].
    intros j q Hj Hq. apply not_elem_of_cons. split; [|by eapply U2]. intros ->.
    pose proof (lookup_weaken _ _ _ _ Hj U1). congruence.
Qed.

Lemma pin_loop_err now name fp replace ks m e :
  pin_loop now name fp replace ks m = Err e →
  replace = false ∧ ∃ fp', pinned m name fp' ∧ fp' ≠ fp ∧ e = Mismatch fp' fp.
Proof.
  revert m. induction ks as [|k ks IH]; intros m; cbn [pin_loop]; [done|].
  destruct (m !! k) as [p|] eqn:E; [|apply IH].
  destruct (String.eqb_spec (Name p) name) as [Nm|Nm]; cbn [negb]; [|apply IH].
  destruct (String.eqb_spec (Fingerprint p) fp) as [F|F]; [done|].
  destruct replace; cbn [negb].
  - intros H. apply IH in H as [? _]. done.
  - intros [= <-]. split; [done|]. exists (Fingerprint p). split; [by exists k, p|done].
Qed.

(** Without [replace] the loop deletes nothing. *)
Lemma pin_loop_keep now name fp ks m b m' :
  pin_loop now name fp false ks m = Ok (b, m') →
  ∀ k p, k ∈ ks → m !! k = Some p → Name p = name → b = true.
Proof.
  revert m. induction ks as [|j ks IH]; intros m; cbn [pin_loop].
  - intros _ k p Hk. by apply elem_of_nil in Hk.
  - intros H k p Hk Hm Hn. apply elem_of_cons in Hk as [->|Hk].
    + rewrite Hm, (proj2 (String.eqb_eq _ _) Hn) in H. simpl in H.
      destruct (String.eqb (Fingerprint p) fp); simpl in H; by simplify_eq.
    + destruct (m !! j) as [q|]; [|by eapply IH].
      destruct (String.eqb (Name q) name); simpl in H; [|by eapply IH].
      destruct (String.eqb (Fingerprint q) fp); simpl in H; by simplify_eq.
Qed.

Lemma pinned_insert m p name g :
  keyed m → no_nul (Fingerprint p) = true →
  pinned (<[peerKey (Fingerprint p) (Name p) := p]> m) name g ↔
    pinned m name g ∨ (name = Name p ∧ g = Fingerprint p).
Proof.
  intros K N. split.
  - intros (k & q & [[<- <-]|[_ H]]%lookup_insert_Some & Hn & Hf); [right; split; congruence|left; by exists k, q].
  - intros [(k & q & H & Hn & Hf)|[-> ->]].
    + destruct (decide (k = peerKey (Fingerprint p) (Name p))) as [->|D].
      * destruct (K _ _ H) as [E Nq]. apply peerKey_inj in E as [E1 E2]; [|done|done].
        exists (peerKey (Fingerprint p) (Name p)), p. rewrite lookup_insert_eq. split; [done|]. split; congruence.
      * exists k, q. by rewrite lookup_insert_ne.
    + exists (peerKey (Fingerprint p) (Name p)), p. by rewrite lookup_insert_eq.
Qed.

Lemma peers_save s : peers (save s) = peers s.
Proof. unfold save. by destruct (persistent s). Qed.

(** Pinning a device's name.  Whatever order the map is walked in, a name
    that is pinned to another fingerprint is refused unless the caller asked to
    replace it, and nothing is stored; otherwise the name ends up pinned to
    exactly the offered fingerprint, every other name keeps its pins, and the
    store keeps one fingerprint per name. *)
Lemma Pin_binds now name fp replace ks s :
  keyed (peers s) → (∀ n, single (peers s) n) → (∀ k, is_Some (peers s !! k) → k ∈ ks) →
  name ≠ ""%string → ValidFingerprint fp = true →
  match Pin now name fp replace ks s with
  | Ok s' => (replace = false → ∀ fp', pinned (peers s) name fp' → fp' = fp) ∧
             (∀ g, pinned (peers s') name g ↔ g = fp) ∧
             (∀ n g, n ≠ name → pinned (peers s') n g ↔ pinned (peers s) n g) ∧
             keyed (peers s') ∧ (∀ n, single (peers s') n)
  | Err e => replace = false ∧ ∃ fp', pinned (peers s) name fp' ∧ fp' ≠ fp ∧ e = Mismatch fp' fp
  end.
Proof.
  intros K Si C Hn V. unfold Pin. rewrite (proj2 (String.eqb_neq _ _) Hn), V. simpl.
  destruct (pin_loop now name fp replace ks (peers s)) as [[b m']|e] eqn:L; [|by eapply pin_loop_err].
  destruct (pin_loop_ok _ _ _ _ _ _ _ _ K L) as (K' & O & Sn & T & U).
  pose proof (ValidFingerprint_no_nul fp V) as NN.
  assert (replace = false → ∀ fp', pinned (peers s) name fp' → fp' = fp) as Keep.
  { intros -> fp' P. destruct P as (k & p & Hp & Hpn & <-).
    pose proof (pin_loop_keep _ _ _ _ _ _ _ L k p ltac:(apply C; eauto) Hp Hpn) as ->.
    apply (Si name); [by exists k, p|]. by apply Sn, T. }
  assert (∃ m2, (if b then Ok (save (with_peers m' s))
                else Ok (save (with_peers (<[peerKey fp name := Peer fp name "" now now]> m') s)))
               = Ok (E:=pin_error) (save (with_peers m2 s)) ∧ keyed m2 ∧
               (∀ g, pinned m2 name g ↔ g = fp) ∧ (∀ n g, n ≠ name → pinned m2 n g ↔ pinned m' n g))
    as (m2 & -> & K2 & P2 & O2).
  { destruct b.
    - exists m'. split_and!; try done. intros g. split; [|intros ->; by apply T].
      intros P. apply (Si name); [by apply Sn|by apply Sn, T].
    - destruct (U eq_refl) as [U1 U2]. eexists. split; [reflexivity|].
      pose proof (pinned_insert m' (Peer fp name "" now now)) as PI. simpl in PI. split_and!.
      + apply (keyed_insert m' (Peer fp name "" now now)); done.
      + intros g. rewrite PI by done. split; [intros [(k & q & Hk & Hq & _)|[_ ->]]; [|done]|by intros ->; right].
        exfalso. eapply U2; [exact Hk|exact Hq|]. apply C. exists q. by eapply lookup_weaken.
      + intros n g Ng. rewrite PI by done. naive_solver. }
  rewrite peers_save. simpl. split_and!; try done.
  - intros n g Ng. by rewrite O2, O.
  - intros n g g' Hg Hg'. destruct (decide (n = name)) as [->|Ng].
    + apply P2 in Hg, Hg'. congruence.
    + rewrite O2, O in Hg, Hg' by done. by apply (Si n).
Qed.

(** A store that pins "box" to one device is offered another one. *)
Definition fp_of (c : ascii) : string :=
  ("SHA256:" ++ b64_encode (of_bytes (repeat (byte_val c) 32)))%string.
Definition pinned_box : store :=
  Store false {[ peerKey (fp_of "a") "box" := Peer (fp_of "a") "box" "" 1 1 ]} None.

Lemma pinned_box_lookup k p :
  peers pinned_box !! k = Some p → k = peerKey (fp_of "a") "box" ∧ p = Peer (fp_of "a") "box" "" 1 1.
Proof.
  unfold pinned_box. cbn [peers]. intros H. by apply lookup_singleton_Some in H as [<- <-].
Qed.

Lemma Pin_binds_witness :
  match Pin 2 "box" (fp_of "b") false [peerKey (fp_of "a") "box"] pinned_box with
  | Ok _ => False
  | Err e => e = Mismatch (fp_of "a") (fp_of "b")
  end ∧
  match Pin 2 "box" (fp_of "b") true [peerKey (fp_of "a") "box"] pinned_box with
  | Ok s' => ∀ g, pinned (peers s') "box" g ↔ g = fp_of "b"
  | Err _ => False
  end.
Proof.
  assert (keyed (peers pinned_box)) as K.
  { intros k p H. apply pinned_box_lookup in H as [-> ->]. split; [reflexivity|vm_compute; reflexivity]. }
  assert (∀ n, single (peers pinned_box) n) as Si.
  { intros n g g' (k & p & H & _ & <-) (k' & p' & H' & _ & <-).
    apply pinned_box_lookup in H as [_ ->]. apply pinned_box_lookup in H' as [_ ->]. reflexivity. }
  assert (∀ k, is_Some (peers pinned_box !! k) → k ∈ [peerKey (fp_of "a") "box"]) as C.
  { intros k [p H]. apply pinned_box_lookup in H as [-> _]. left. }
  split.
  - pose proof (Pin_binds 2 "box" (fp_of "b") false _ pinned_box K Si C ltac:(discriminate)
                  ltac:(vm_compute; reflexivity)) as P.
    destruct (Pin _ _ _ _ _ _) as [s'|e].
    + destruct P as (P & _). specialize (P eq_refl (fp_of "a")).
      discriminate P. exists (peerKey (fp_of "a") "box"), (Peer (fp_of "a") "box" "" 1 1).
      split; [apply lookup_singleton_eq|done].
    + destruct P as (_ & fp' & (k & p & H & _ & <-) & _ & ->).
      apply pinned_box_lookup in H as [_ ->]. reflexivity.
  - pose proof (Pin_binds 2 "box" (fp_of "b") true _ pinned_box K Si C ltac:(discriminate)
                  ltac:(vm_compute; reflexivity)) as P.
    destruct (Pin _ _ _ _ _ _) as [s'|e]; [apply P|]. by destruct P.
Defined.

(** ** The file *)

Lemma of_list_keyed l m :
  Forall (λ kp : string * peer, kp.1 = peerKey (Fingerprint kp.2) (Name kp.2)) l →
  foldl (λ (m : gmap string peer) p, <[peerKey (Fingerprint p) (Name p) := p]> m) m (snd <$> l) =
  foldl (λ (m : gmap string peer) (kp : string * peer), <[kp.1 := kp.2]> m) m l.
Proof.
  revert m. induction l as [|[k p] l IH]; intros m; simpl; [done|]. intros H. inversion H as [|? ? E F]; subst.
  simpl in E. subst k. by apply IH.
Qed.

Lemma foldl_insert_map (m0 : gmap string peer) l :
  NoDup (l.*1) → (∀ k, k ∈ l.*1 → m0 !! k = None) →
  foldl (λ (m : gmap string peer) (kp : string * peer), <[kp.1 := kp.2]> m) m0 l = list_to_map l ∪ m0.
Proof.
  revert m0. induction l as [|[k p] l IH]; intros m0; simpl; [by rewrite map_empty_union|].
  intros ND Hm. apply NoDup_cons in ND as [Nk ND]. rewrite IH; [|done|].
  - rewrite <- insert_union_l. apply map_eq. intros j.
    destruct (decide (j = k)) as [->|N].
    + rewrite lookup_insert_eq. rewrite lookup_union_r; [by rewrite lookup_insert_eq|].
      by apply not_elem_of_list_to_map_1.
    + rewrite lookup_insert_ne by done. rewrite !lookup_union. by rewrite lookup_insert_ne.
  - intros j Hj. rewrite lookup_insert_ne; [apply Hm; by right|]. intros ->. done.
Qed.

(** A restart loses no trust.  The file a store writes is read back as the
    same peers, so what was added, pinned or removed before the last save is
    what another process, or the next run, sees; and every operation leaves a
    store for which this holds. *)
Lemma store_survives_restart s :
  keyed (peers s) → persistent s = true →
  peers (OpenStore (file (save s))) = peers s ∧
  (∀ name, keyed (peers (RemoveName name s)) ∧
     ∀ n g, pinned (peers (RemoveName name s)) n g ↔ pinned (peers s) n g ∧ (n ≠ name ∨ name = ""%string)) ∧
  (∀ fp, keyed (peers (Remove fp s)) ∧
     ∀ n g, pinned (peers (Remove fp s)) n g ↔ pinned (peers s) n g ∧ g ≠ fp) ∧
  (∀ now fp, keyed (peers (Touch now fp s)) ∧
     ∀ n g, pinned (peers (Touch now fp s)) n g ↔ pinned (peers s) n g).
Proof.
  intros K P. split_and!.
  - unfold save, OpenStore, load, of_list. rewrite P. simpl. rewrite of_list_keyed.
    + rewrite foldl_insert_map; [|apply NoDup_fst_map_to_list|done].
      by rewrite list_to_map_to_list, map_union_empty.
    + apply Forall_forall. intros [k p] H. apply elem_of_map_to_list in H. by apply K in H as [-> _].
  - intros name. unfold RemoveName. destruct (String.eqb_spec name "") as [->|N].
    { split; [done|]. intros n g. naive_solver. }
    rewrite peers_save. simpl. split.
    + intros k p H. apply map_lookup_filter_Some in H as [H _]. by apply K.
    + intros n g. split.
      * intros (k & p & H & <- & <-). apply map_lookup_filter_Some in H as [H Hn]. simpl in Hn.
        split; [by exists k, p|by left].
      * intros [(k & p & H & <- & <-) [Hn|Hn]]; [|done]. exists k, p. rewrite map_lookup_filter_Some. done.
  - intros fp. unfold Remove. rewrite peers_save. simpl. split.
    + intros k p H. apply map_lookup_filter_Some in H as [H _]. by apply K.
    + intros n g. split.
      * intros (k & p & H & <- & <-). apply map_lookup_filter_Some in H as [H Hn]. simpl in Hn.
        split; [by exists k, p|done].
      * intros [(k & p & H & <- & <-) Hn]. exists k, p. rewrite map_lookup_filter_Some. done.
  - intros now fp. unfold Touch. rewrite peers_save. simpl.
    set (f := λ p : peer, if String.eqb (Fingerprint p) fp then _ else p).
    assert (∀ p, Name (f p) = Name p ∧ Fingerprint (f p) = Fingerprint p) as Ff.
    { intros p. unfold f. by destruct (String.eqb _ _). }
    split.
    + intros k p H. apply lookup_fmap_Some in H as (q & <- & H). destruct (Ff q) as [-> ->]. by apply K.
    + intros n g. split.
      * intros (k & p & H & <- & <-). apply lookup_fmap_Some in H as (q & <- & H).
        destruct (Ff q) as [-> ->]. by exists k, q.
      * intros (k & p & H & <- & <-). exists k, (f p). rewrite lookup_fmap, H. split; [done|]. apply Ff.
Qed.

Definition disk_store : store := Add 1 (fp_of "a") "box" (OpenStore None).

Lemma store_survives_restart_witness :
  peers (OpenStore (file (save disk_store))) = peers disk_store.
Proof.
  apply (store_survives_restart disk_store); [|reflexivity].
  unfold disk_store, Add, AddLabeled. rewrite peers_save. cbn [with_peers peers].
  intros k p H. apply lookup_insert_Some in H as [[<- <-]|[_ H]].
  - split; [reflexivity|vm_compute; reflexivity].
  - unfold OpenStore, load in H. cbn [peers file] in H. by apply lookup_empty_Some in H.
Defined.
