(* ===== verification/Approvals.v ===== *)
(** [internal/agent/approvals.go]: late approvals, which release one request
    after its wait ran out, and the outbox of decisions made on the approval
    phone.  Clock readings are arguments; what [encoding/json] decodes is an
    argument too, [None] when it fails. *)

From S2P Require Import Prelude GoStrings GoUtf8 GoPath Script Policy Trust.
From stdpp Require Import sorting.

Local Open Scope Z_scope.

(** ** Late grants *)

Definition maxLateGrants : nat := 32.
Definition maxAskedScripts : nat := 64.
Definition askedScriptTTL : Z := 24 * hour.
Definition LateGrantWindow : Z := 30 * minute.

(** [lg_id] is the identity of the pointer [find] returns and [take] compares. *)
Record lateGrant := LateGrant {
  lg_id : nat; lg_kind : kind; lg_fp : string; lg_cwd : string; lg_key : string; lg_expires : Z }.

Record askedScript := AskedScript {
  as_kind : kind; as_fp : string; as_label : string; as_token : string; as_at : Z }.

Record lateGrants := LateGrants { grants : list lateGrant; scripts : list askedScript; next_id : nat }.

Definition no_grants : lateGrants := LateGrants [] [] 0.

Definition grantKey (req : request) : option string :=
  match req_kind req with
  | KindExec | KindExecElevated => Some (CommandPattern (req_cmd req))
  | KindRead | KindWrite => Some (req_path req)
  | KindLogs => Some ""%string
  | KindOther _ => None
  end.

Definition lateGrantWindow (sec : Z) : Z :=
  let max := Z.quot LateGrantWindow second in
  if (sec =? 0) || (max <? sec) then LateGrantWindow
  else if sec <? 1 then second
  else sec * second.

Definition pruneLocked (now : Z) (g : lateGrants) : lateGrants :=
  LateGrants (delete_func (λ x, negb (now <? lg_expires x)) (grants g))
             (delete_func (λ s, askedScriptTTL <=? now - as_at s) (scripts g)) (next_id g).

Inductive grant_error :=
| NeedsLabel | LogsTakesNoLabel | UnknownKind | BadFingerprint | NoApprover | NeedsDirectory | AmbiguousScript.

(** The scripts a label names. *)
Definition names_script (k : kind) (fp label : string) (s : askedScript) : bool :=
  bool_decide (as_kind s = k) && String.eqb (as_fp s) fp && String.eqb (as_label s) label.

(** The loop of [resolveLocked]; [token] is what it found so far. *)
Fixpoint resolve_loop (k : kind) (fp label : string) (l : list askedScript) (token : string)
  : result grant_error string :=
  match l with
  | [] => Ok token
  | s :: l =>
      if negb (names_script k fp label s) then resolve_loop k fp label l token
      else if negb (String.eqb token "") && negb (String.eqb token (as_token s)) then Err AmbiguousScript
      else resolve_loop k fp label l (as_token s)
  end.

Definition resolveLocked (k : kind) (fp label : string) (g : lateGrants) : result grant_error string :=
  result_bind (resolve_loop k fp label (scripts g) "") (λ token,
    Ok (if String.eqb token "" then label else token)).

Definition same_grant (k : kind) (fp key cwd : string) (x : lateGrant) : bool :=
  bool_decide (lg_kind x = k) && String.eqb (lg_fp x) fp && String.eqb (lg_key x) key && String.eqb (lg_cwd x) cwd.

(** The checks of [install] before it takes the lock. *)
Definition install_check (k : kind) (label : string) : option grant_error :=
  match k with
  | KindExec | KindExecElevated | KindRead | KindWrite => if String.eqb label "" then Some NeedsLabel else None
  | KindLogs => if negb (String.eqb label "") then Some LogsTakesNoLabel else None
  | KindOther _ => Some UnknownKind
  end.

Definition install (now : Z) (k : kind) (label fp approver cwd : string) (window : Z) (g : lateGrants)
  : result grant_error () * lateGrants :=
  match install_check k label with
  | Some e => (Err e, g)
  | None =>
    if negb (ValidFingerprint fp) then (Err BadFingerprint, g)
    else if String.eqb approver "" then (Err NoApprover, g)
    else if is_exec k && (negb (is_abs cwd) || negb (String.eqb (clean cwd) cwd)) then (Err NeedsDirectory, g)
    else
      let cwd := if is_exec k then cwd else ""%string in
      let g := pruneLocked now g in
      match (if is_exec k then resolveLocked k fp label g else Ok label) with
      | Err e => (Err e, g)
      | Ok key =>
          let l := delete_func (same_grant k fp key cwd) (grants g) in
          let l := if (maxLateGrants <=? length l)%nat then drop 1 l else l in
          (Ok (), LateGrants (l ++ [LateGrant (next_id g) k fp cwd key (now + window)]) (scripts g) (S (next_id g)))
      end
  end.

Definition asked (now : Z) (req : request) (g : lateGrants) : lateGrants :=
  if negb (is_exec (req_kind req)) then g
  else
    let label := CommandLabel (req_cmd req) in
    let token := CommandPattern (req_cmd req) in
    if String.eqb label token then g
    else
      let g := pruneLocked now g in
      let l := delete_func (λ s, bool_decide (as_kind s = req_kind req) && String.eqb (as_fp s) (req_peer req)
                                 && String.eqb (as_token s) token) (scripts g) in
      let l := if (maxAskedScripts <=? length l)%nat then drop 1 l else l in
      LateGrants (grants g) (l ++ [AskedScript (req_kind req) (req_peer req) label token now]) (next_id g).

Definition find (now : Z) (req : request) (g : lateGrants) : option lateGrant * lateGrants :=
  let exec := is_exec (req_kind req) in
  let cwd := if exec then req_cwd req else ""%string in
  if exec && String.eqb cwd "" then (None, g)
  else match grantKey req with
       | None => (None, g)
       | Some key =>
           if String.eqb (req_peer req) "" then (None, g)
           else let g := pruneLocked now g in
                (find_first (same_grant (req_kind req) (req_peer req) key cwd) (grants g), g)
       end.

Definition take_grant (now : Z) (x : lateGrant) (g : lateGrants) : bool * lateGrants :=
  let g := pruneLocked now g in
  let l := delete_func (λ y, (lg_id y =? lg_id x)%nat) (grants g) in
  ((length l <? length (grants g))%nat, LateGrants l (scripts g) (next_id g)).

(** [useLateGrant]: the answer and its label, [None] when no grant handles the
    request. [checks] are the outcomes of the checks of the request. *)
Definition useLateGrant (now now' : Z) (req : request) (checks : list bool) (g : lateGrants)
  : option (bool * string) * lateGrants :=
  let '(r, g) := find now req g in
  match r with
  | None => (None, g)
  | Some x =>
      if negb (forallb (λ b, b) checks) then (Some (false, "delegation inactive"%string), g)
      else let '(ok, g) := take_grant now' x g in
           if ok then (Some (true, "late-approved"%string), g) else (None, g)
  end.

(** ** The phone's outbox *)

Definition maxOutbox : nat := 64.
Definition outboxTTL : Z := hour.
Definition maxApprovalCard : Z := Z.shiftl 16 10.

Record phoneDecision := PhoneDecision { pd_id : string; pd_verdict : string; pd_at : Z }.

Record approvalPhone := ApprovalPhone {
  outbox : gmap string phoneDecision; consoles : gset nat; nextID : nat }.

Definition newApprovalPhone : approvalPhone := ApprovalPhone ∅ ∅ 0.

Definition pruneOutboxLocked (now : Z) (m : gmap string phoneDecision) : gmap string phoneDecision :=
  filter (λ kd : string * phoneDecision, ¬ (outboxTTL ≤ now - pd_at kd.2)) m.

(** The loop that looks for the oldest decision, over the keys in the order
    the range visits them. *)
Fixpoint oldest_loop (m : gmap string phoneDecision) (ks : list string) (acc : string) : string :=
  match ks with
  | [] => acc
  | k :: ks =>
      match m !! k with
      | None => oldest_loop m ks acc
      | Some o =>
          let older := match m !! acc with Some a => pd_at o <? pd_at a | None => false end in
          oldest_loop m ks (if String.eqb acc "" || older then k else acc)
      end
  end.

(** [decide]: the new state, and the replies sent, one per live console. *)
Definition decide_late (now : Z) (ks : list string) (d : phoneDecision) (p : approvalPhone)
  : approvalPhone * list (nat * phoneDecision) :=
  let d := PhoneDecision (pd_id d) (pd_verdict d) now in
  let m := pruneOutboxLocked now (outbox p) in
  let m := match m !! pd_id d with
           | Some _ => m
           | None => if (maxOutbox <=? size m)%nat then delete (oldest_loop m ks "") m else m
           end in
  (ApprovalPhone (<[pd_id d := d]> m) (consoles p) (nextID p), (λ c, (c, d)) <$> elements (consoles p)).

Definition before (x y : phoneDecision) : Prop := pd_at x ≤ pd_at y.

#[export] Instance before_dec x y : Decision (before x y).
Proof. unfold before. apply _. Defined.

#[export] Instance before_total : Total before.
Proof. intros x y. unfold before. lia. Qed.

#[export] Instance before_trans : Transitive before.
Proof. intros x y z. unfold before. lia. Qed.

(** [attach]: the console's handle, and the unsettled decisions resent to it
    in the order they were made. *)
Definition attach (now : Z) (p : approvalPhone) : nat * list phoneDecision * approvalPhone :=
  let m := pruneOutboxLocked now (outbox p) in
  (nextID p, merge_sort before (snd <$> map_to_list m),
   ApprovalPhone m ({[nextID p]} ∪ consoles p) (S (nextID p))).

Definition detach (id : nat) (p : approvalPhone) : approvalPhone :=
  ApprovalPhone (outbox p) (consoles p ∖ {[id]}) (nextID p).

Inductive card_state := CardPending | CardExpired | CardDone | CardTest | CardOther (s : string).
Record card := Card { card_id : string; card_state_of : card_state }.
Inductive card_error := CardTooLarge | CardNotObject | CardNoID | CardUnknownState.

Definition decodeApprovalCard (size : Z) (decoded : option card) : result card_error card :=
  if maxApprovalCard <? size then Err CardTooLarge
  else match decoded with
       | None => Err CardNotObject
       | Some c =>
           if String.eqb (card_id c) "" then Err CardNoID
           else match card_state_of c with CardOther _ => Err CardUnknownState | _ => Ok c end
       end.

(** [show] as far as the outbox goes: a settled card ends its decision. *)
Definition show (c : card) (p : approvalPhone) : approvalPhone :=
  match card_state_of c with
  | CardDone => ApprovalPhone (delete (card_id c) (outbox p)) (consoles p) (nextID p)
  | _ => p
  end.

Definition approvalPush (size : Z) (decoded : option card) (p : option approvalPhone)
  : result (option card_error) () * option approvalPhone :=
  match p with
  | None => (Err None, None)
  | Some p => match decodeApprovalCard size decoded with
              | Err e => (Err (Some e), Some p)
              | Ok c => (Ok (), Some (show c p))
              end
  end.

(** [parseDecision] of a line that decodes to an id and a verdict. *)
Definition parseDecision (decoded : option (string * string)) : option phoneDecision :=
  match decoded with
  | Some (id, verdict) =>
      if String.eqb id "" then None
      else if negb (String.eqb verdict "y") && negb (String.eqb verdict "n") then None
      else Some (PhoneDecision id verdict 0)
  | None => None
  end.

#[global] Arguments take_grant : simpl never.
#[global] Arguments install : simpl never.
#[global] Arguments find : simpl never.
#[global] Arguments asked : simpl never.

(** ** What the grants guarantee *)

(** The size bounds, and one grant per identity. *)
Record grants_ok (g : lateGrants) : Prop := {
  g_bound : (length (grants g) ≤ maxLateGrants)%nat;
  s_bound : (length (scripts g) ≤ maxAskedScripts)%nat;
  g_ids : NoDup (lg_id <$> grants g);
  g_fresh : ∀ x, x ∈ grants g → (lg_id x < next_id g)%nat;
  s_tokens : ∀ s, s ∈ scripts g → as_token s ≠ ""%string }.

Lemma sublist_ids (l k : list lateGrant) : sublist l k → NoDup (lg_id <$> k) → NoDup (lg_id <$> l).
Proof. intros S N. eapply sublist_NoDup; [exact N|]. by apply fmap_sublist. Qed.

Lemma drop_sublist {A} n (l : list A) : sublist (drop n l) l.
Proof. rewrite <- (take_drop n l) at 2. by apply sublist_inserts_l. Qed.

(** Keeping room for one more in a list bounded by [n]. *)
Definition make_room {A} (n : nat) (l : list A) : list A := if (n <=? length l)%nat then drop 1 l else l.

Lemma make_room_spec {A} n (l : list A) :
  (1 ≤ n)%nat → (length l ≤ n)%nat → (length (make_room n l) < n)%nat ∧ sublist (make_room n l) l.
Proof.
  unfold make_room. intros N L. destruct (Nat.leb_spec n (length l)).
  - rewrite length_drop. split; [lia|apply drop_sublist].
  - split; [lia|done].
Qed.

Lemma pruneLocked_ok now g : grants_ok g → grants_ok (pruneLocked now g).
Proof.
  intros []. unfold pruneLocked. split; simpl.
  - etrans; [apply delete_func_length|done].
  - etrans; [apply delete_func_length|done].
  - eapply sublist_ids; [apply delete_func_sublist|done].
  - intros x [Hx _]%elem_of_delete_func. by apply g_fresh0.
  - intros s [Hs _]%elem_of_delete_func. by apply s_tokens0.
Qed.

Lemma install_new now k label fp approver cwd window g g' :
  install now k label fp approver cwd window g = (Ok (), g') →
  ∃ key l, g' = LateGrants (l ++ [LateGrant (next_id g) k fp (if is_exec k then cwd else "") key (now + window)])
                  (scripts (pruneLocked now g)) (S (next_id g)) ∧
    l = make_room maxLateGrants (delete_func (same_grant k fp key (if is_exec k then cwd else "")) (grants (pruneLocked now g))) ∧
    ValidFingerprint fp = true ∧ approver ≠ ""%string ∧
    (is_exec k = true → resolveLocked k fp label (pruneLocked now g) = Ok key ∧ is_abs cwd = true ∧ clean cwd = cwd) ∧
    (is_exec k = false → key = label).
Proof.
  unfold install. destruct (install_check k label); [done|].
  destruct (ValidFingerprint fp) eqn:V; [simpl|done].
  destruct (String.eqb_spec approver "") as [|A]; [done|].
  destruct (is_exec k) eqn:X; simpl.
  - destruct (negb (is_abs cwd) || _) eqn:C; [done|]. ssplit.
    destruct (resolveLocked k fp label (pruneLocked now g)) as [key|e] eqn:R; [|done].
    intros [= <-]. eexists key, _. split; [reflexivity|]. naive_solver.
  - intros [= <-]. eexists label, _. split; [reflexivity|]. naive_solver.
Qed.

Lemma install_err now k label fp approver cwd window g e g' :
  install now k label fp approver cwd window g = (Err e, g') → g' = g ∨ g' = pruneLocked now g.
Proof.
  unfold install. destruct (install_check k label); [intros [= _ <-]; by left|].
  repeat case_match; intros; simplify_eq; auto.
Qed.

Lemma install_ok now k label fp approver cwd window g r g' :
  grants_ok g → install now k label fp approver cwd window g = (r, g') → grants_ok g'.
Proof.
  intros G I. destruct r as [[]|e].
  - apply install_new in I as (key & l & -> & -> & _). pose proof (pruneLocked_ok now g G) as [B1 B2 N F T].
    set (l0 := delete_func _ _).
    assert (sublist l0 (grants (pruneLocked now g))) as S0 by apply delete_func_sublist.
    destruct (make_room_spec maxLateGrants l0) as [L S1]; [unfold maxLateGrants; lia| |].
    { etrans; [apply sublist_length, S0|done]. }
    assert (sublist (make_room maxLateGrants l0) (grants (pruneLocked now g))) as S by (by etrans).
    assert (∀ x, x ∈ make_room maxLateGrants l0 → (lg_id x < next_id g)%nat) as F'.
    { intros x Hx. apply F. eapply elem_of_sublist; [exact Hx|exact S]. }
    split; simpl; try done.
    + rewrite length_app. simpl. lia.
    + rewrite fmap_app. apply NoDup_app. split_and!; [by eapply sublist_ids| |apply NoDup_singleton].
      intros i (x & -> & Hx)%list_elem_of_fmap Hi. apply list_elem_of_singleton in Hi. simpl in Hi.
      apply F' in Hx. lia.
    + intros x [Hx|Hx]%elem_of_app; [apply F' in Hx; lia|]. apply list_elem_of_singleton in Hx as ->. simpl. lia.
  - apply install_err in I as [->| ->]; [done|by apply pruneLocked_ok].
Qed.

Lemma label_differs cmd : CommandLabel cmd ≠ CommandPattern cmd → CommandPattern cmd ≠ ""%string.
Proof.
  unfold CommandLabel, CommandPattern. destruct (Canonical (trim_space cmd)) as [tok|] eqn:C; [|done].
  intros _ ->. apply Canonical_Some in C as (i & enc & raw & _ & _ & C). by destruct i.
Qed.

Lemma asked_ok now req g : grants_ok g → grants_ok (asked now req g).
Proof.
  intros G. unfold asked. destruct (negb _); [done|].
  destruct (String.eqb_spec (CommandLabel (req_cmd req)) (CommandPattern (req_cmd req))) as [|D]; [done|].
  pose proof (pruneLocked_ok now g G) as [B1 B2 N F T].
  set (l0 := delete_func _ _). fold (make_room maxAskedScripts l0).
  assert (sublist l0 (scripts (pruneLocked now g))) as S0 by apply delete_func_sublist.
  destruct (make_room_spec maxAskedScripts l0) as [L S1]; [unfold maxAskedScripts; lia| |].
  { etrans; [apply sublist_length, S0|done]. }
  split; simpl; try done.
  - rewrite length_app. simpl. lia.
  - intros s [Hs|Hs]%elem_of_app.
    + apply T. eapply elem_of_sublist; [exact Hs|by etrans].
    + apply list_elem_of_singleton in Hs as ->. simpl. by apply label_differs.
Qed.

Lemma find_state now req g r g' :
  find now req g = (r, g') → g' = g ∨ g' = pruneLocked now g.
Proof. unfold find. repeat case_match; intros; simplify_eq; auto. Qed.

(** What [find] returns matches the request and has not expired. *)
Lemma find_Some now req g x g' :
  find now req g = (Some x, g') →
  g' = pruneLocked now g ∧ x ∈ grants g' ∧ x ∈ grants g ∧ now < lg_expires x ∧
  lg_kind x = req_kind req ∧ lg_fp x = req_peer req ∧ req_peer req ≠ ""%string ∧
  grantKey req = Some (lg_key x) ∧
  lg_cwd x = (if is_exec (req_kind req) then req_cwd req else "")%string ∧
  (is_exec (req_kind req) = true → req_cwd req ≠ ""%string).
Proof.
  unfold find. destruct (_ && _) eqn:E; [done|]. destruct (grantKey req) as [key|]; [|done].
  destruct (String.eqb_spec (req_peer req) ""); [done|]. intros [= F <-].
  apply find_first_Some in F as [I M]. split; [done|]. split; [done|].
  apply elem_of_delete_func in I as [I X]. unfold same_grant in M. ssplit. subst.
  split_and!; try done; try congruence. intros Hx. rewrite Hx in E. simpl in E. by apply String.eqb_neq in E.
Qed.

Lemma take_state now x g b g' :
  take_grant now x g = (b, g') →
  sublist (grants g') (grants (pruneLocked now g)) ∧ scripts g' = scripts (pruneLocked now g) ∧
  next_id g' = next_id g ∧ (∀ y, y ∈ grants g' → lg_id y ≠ lg_id x) ∧
  (b = true → ∃ y, y ∈ grants g ∧ lg_id y = lg_id x ∧ now < lg_expires y).
Proof.
  unfold take_grant. intros [= <- <-]. simpl. split_and!; try done.
  - apply delete_func_sublist.
  - intros y [_ E]%elem_of_delete_func. by bsplit.
  - intros L. bsplit.
    destruct (decide (Exists (λ y, lg_id y = lg_id x) (grants (pruneLocked now g)))) as [H|H].
    + apply Exists_exists in H as (y & Hy & E). exists y. apply elem_of_delete_func in Hy as [Hy N]. bsplit. done.
    + exfalso. rewrite delete_func_id in L; [lia|]. intros y Hy. apply Nat.eqb_neq. intros E.
      apply H, Exists_exists. eauto.
Qed.

Lemma sublist_grants_ok l g :
  grants_ok g → sublist l (grants g) → grants_ok (LateGrants l (scripts g) (next_id g)).
Proof.
  intros [] S. split; simpl; try done.
  - etrans; [by apply sublist_length|done].
  - by eapply sublist_ids.
  - intros x Hx. apply g_fresh0. by eapply elem_of_sublist.
Qed.

(** ** Runs *)

Inductive grant_event :=
| GInstall (now : Z) (k : kind) (label fp approver cwd : string) (window : Z)
| GAsked (now : Z) (req : request)
| GFind (now : Z) (req : request)
| GTake (now : Z) (x : lateGrant).

(** [spent] lists the grants whose [take] succeeded. *)
Inductive grant_step : lateGrants * list nat → grant_event → lateGrants * list nat → Prop :=
| step_install g sp now k label fp approver cwd window :
    grant_step (g, sp) (GInstall now k label fp approver cwd window)
               ((install now k label fp approver cwd window g).2, sp)
| step_asked g sp now req : grant_step (g, sp) (GAsked now req) (asked now req g, sp)
| step_find g sp now req : grant_step (g, sp) (GFind now req) ((find now req g).2, sp)
| step_take g sp now x :
    grant_step (g, sp) (GTake now x)
      ((take_grant now x g).2, if (take_grant now x g).1 then lg_id x :: sp else sp).

Definition grant_run : lateGrants * list nat → Prop :=
  reachable (λ s, s = (no_grants, [])) (λ s s', ∃ e, grant_step s e s').

Record spent_ok (s : lateGrants * list nat) : Prop := {
  sp_grants : grants_ok s.1;
  sp_once : NoDup s.2;
  sp_gone : ∀ x, x ∈ grants s.1 → lg_id x ∉ s.2;
  sp_old : ∀ i, i ∈ s.2 → (i < next_id s.1)%nat }.

Lemma spent_run s : grant_run s → spent_ok s.
Proof.
  apply invariant_reachable.
  - intros ? ->. split; simpl; try (by constructor); try (by intros ? ?%elem_of_nil).
    split; simpl; try (by constructor); try lia; by intros ? ?%elem_of_nil.
  - intros s0 s1 [G O Gn Od] [e St]. destruct St as [g sp now k label fp approver cwd window|g sp now req|g sp now req|g sp now x]; cbn [fst snd] in *.
    + destruct (install _ _ _ _ _ _ _ _) as [r g'] eqn:I. simpl. split; simpl; try done; [by eapply install_ok| |].
      * intros x Hx. destruct r as [[]|err].
        -- apply install_new in I as (key & l & -> & -> & _). simpl in Hx.
           apply elem_of_app in Hx as [Hx|Hx%list_elem_of_singleton].
           ++ apply Gn. destruct (make_room_spec maxLateGrants (delete_func (same_grant k fp key (if is_exec k then cwd else ""%string)) (grants (pruneLocked now g)))) as [_ S];
                [unfold maxLateGrants; lia|etrans; [apply delete_func_length|]; apply (pruneLocked_ok now g G)|].
              pose proof (elem_of_sublist _ _ _ Hx S) as Hx1. apply elem_of_delete_func in Hx1 as [Hx1 _].
              by apply elem_of_delete_func in Hx1 as [Hx1 _].
           ++ subst x. simpl. intros Hi. apply Od in Hi. lia.
        -- apply Gn. apply install_err in I as [->| ->]; [done|]. by apply elem_of_delete_func in Hx as [Hx _].
      * intros i Hi. apply Od in Hi. destruct r as [[]|err].
        -- apply install_new in I as (key & l & -> & _). simpl. lia.
        -- by apply install_err in I as [->| ->].
    + assert (sublist (grants (asked now req g)) (grants g) ∧ next_id (asked now req g) = next_id g) as [S E].
      { unfold asked. repeat case_match; try done; simpl; (split; [apply delete_func_sublist|done]). }
      split; simpl; try done; [by apply asked_ok| |by rewrite E].
      intros x Hx. apply Gn. by eapply elem_of_sublist.
    + destruct (find now req g) as [r g'] eqn:F. simpl. apply find_state in F as [->| ->]; split; simpl; try done.
      * by apply pruneLocked_ok.
      * intros x Hx. apply Gn. by apply elem_of_delete_func in Hx as [Hx _].
    + destruct (take_grant now x g) as [b g'] eqn:T. cbn [fst snd].
      pose proof (take_state _ _ _ _ _ T) as (S & Sc & Nx & Ne & B).
      assert (sublist (grants g') (grants g)) as S' by (etrans; [exact S|apply delete_func_sublist]).
      assert (grants_ok g') as G'.
      { pose proof (sublist_grants_ok _ _ (pruneLocked_ok now g G) S) as G'. rewrite <- Sc in G'.
        change (next_id (pruneLocked now g)) with (next_id g) in G'. rewrite <- Nx in G'. by destruct g'. }
      destruct b; split; simpl; try done.
      * apply NoDup_cons. split; [|done]. destruct (B eq_refl) as (y & Hy & <- & _). by apply Gn.
      * intros y Hy. apply not_elem_of_cons. split; [by apply Ne|]. apply Gn. by eapply elem_of_sublist.
      * rewrite Nx. intros i [->|Hi]%elem_of_cons; [|by apply Od]. destruct (B eq_refl) as (y & Hy & <- & _). by apply G.
      * intros y Hy. apply Gn. by eapply elem_of_sublist.
      * by rewrite Nx.
Qed.

(** ** What a label resolves to *)

Lemma resolve_loop_spec k fp label l token key :
  Forall (λ s, as_token s ≠ ""%string) l → resolve_loop k fp label l token = Ok key →
  ((∀ s, s ∈ l → names_script k fp label s = true → as_token s = key) ∧ (token ≠ ""%string → key = token)) ∧
  (token = ""%string → key = ""%string ∨ ∃ s, s ∈ l ∧ names_script k fp label s = true ∧ as_token s = key).
Proof.
  revert token. induction l as [|s l IH]; intros token F; cbn [resolve_loop].
  { intros [= <-]. split; [|by left]. split; [by intros s ?%elem_of_nil|done]. }
  inversion F as [|? ? Fs Fl]; subst.
  destruct (names_script k fp label s) eqn:N; cbn [negb].
  - destruct (negb (token =? "")%string && negb (token =? as_token s)%string) eqn:C; [done|]. intros H.
    destruct (IH (as_token s) Fl H) as [[I1 I2] _]. specialize (I2 Fs). subst key. split; [split|].
    + intros s' [->|Hs]%elem_of_cons N'; [done|by apply I1].
    + intros T. apply andb_false_iff in C as [C|C]; apply negb_false_iff in C; ssplit; congruence.
    + intros _. right. exists s. split; [left|done].
  - intros H. destruct (IH token Fl H) as [[I1 I2] I3]. split; [split|]; try done.
    + intros s' [->|Hs]%elem_of_cons N'; [congruence|by apply I1].
    + intros T. destruct (I3 T) as [?|(s' & Hs & ?)]; [by left|right]. exists s'. split; [by right|done].
Qed.

Lemma resolveLocked_spec k fp label g key :
  grants_ok g → resolveLocked k fp label g = Ok key →
  (key = label ∧ ∀ s, s ∈ scripts g → names_script k fp label s = false) ∨
  (∃ s, s ∈ scripts g ∧ names_script k fp label s = true ∧ as_token s = key ∧
     ∀ s', s' ∈ scripts g → names_script k fp label s' = true → as_token s' = key).
Proof.
  intros G. unfold resolveLocked. destruct (resolve_loop _ _ _ _ _) as [token|] eqn:R; [|done]. simpl.
  assert (Forall (λ s, as_token s ≠ ""%string) (scripts g)) as F by (apply Forall_forall, G).
  destruct (resolve_loop_spec _ _ _ _ _ _ F R) as [[H1 _] H2]. specialize (H2 eq_refl).
  destruct (String.eqb_spec token "") as [->|T]; intros [= <-].
  - left. split; [done|]. intros s Hs. destruct (names_script k fp label s) eqn:N; [|done].
    exfalso. apply (s_tokens g G s Hs). by apply H1.
  - right. destruct H2 as [?|(s & Hs & N & E)]; [done|]. exists s. done.
Qed.

(** A late approval releases only the request it was given for.  The grant
    the owner's late yes installs is found only for a request of the same kind
    from the same controller, before it expires, and for an execution only in
    the approved directory and only for one command: the command the card
    showed or, when the card showed the abbreviation of a script, the one
    script that this controller asked to run under that abbreviation, compared
    by its whole token.  An abbreviation that names two different scripts
    installs nothing. *)
Lemma late_grant_binds now now' k label fp approver cwd window g g' req x g'' :
  grants_ok g → is_exec k = true →
  install now k label fp approver cwd window g = (Ok (), g') →
  find now' req g' = (Some x, g'') → lg_id x = next_id g →
  req_kind req = k ∧ req_peer req = fp ∧ req_cwd req = cwd ∧ now' < now + window ∧
  let asked_before := scripts (pruneLocked now g) in
  (CommandPattern (req_cmd req) = label ∧ (∀ s, s ∈ asked_before → names_script k fp label s = false)) ∨
  (∃ s, s ∈ asked_before ∧ names_script k fp label s = true ∧ as_token s = CommandPattern (req_cmd req) ∧
     ∀ s', s' ∈ asked_before → names_script k fp label s' = true → as_token s' = as_token s).
Proof.
  intros G X I F Id. apply install_new in I as (key & l & -> & El & V & A & R & _).
  destruct (R X) as (R' & _ & _). rewrite X in *.
  apply find_Some in F as (-> & _ & Hin & Exp & Kx & Fx & _ & Key & Cx & _). simpl in Hin.
  assert (x = LateGrant (next_id g) k fp cwd key (now + window)) as ->.
  { apply elem_of_app in Hin as [Hin|Hin%list_elem_of_singleton]; [|done]. exfalso.
    subst l. destruct (make_room_spec maxLateGrants (delete_func (same_grant k fp key cwd) (grants (pruneLocked now g)))) as [_ S];
      [unfold maxLateGrants; lia|etrans; [apply delete_func_length|]; apply (pruneLocked_ok now g G)|].
    pose proof (elem_of_sublist _ _ _ Hin S) as H1. apply elem_of_delete_func in H1 as [H1 _].
    apply elem_of_delete_func in H1 as [H1 _]. apply (g_fresh g G) in H1. lia. }
  simpl in *. subst k fp. rewrite X in Cx. split_and!; try done.
  assert (key = CommandPattern (req_cmd req)) as ->.
  { unfold grantKey in Key. destruct (req_kind req); try done; by injection Key. }
  apply resolveLocked_spec in R' as [[E N]|(s & Hs & N & E & U)]; [left; done| |by apply pruneLocked_ok].
  right. exists s. split_and!; try done. intros s' Hs' N'. rewrite E. by apply U.
Qed.

(** A late approval is spent once.  However installs, requests and expiries
    interleave, no grant lets a second request through, a grant still listed
    has not been used, and the device remembers at most 32 grants and 64
    scripts. *)
Lemma late_grant_once g spent :
  grant_run (g, spent) →
  NoDup spent ∧ (∀ x, x ∈ grants g → lg_id x ∉ spent) ∧ (length spent ≤ next_id g)%nat ∧
  (length (grants g) ≤ maxLateGrants)%nat ∧ (length (scripts g) ≤ maxAskedScripts)%nat.
Proof.
  intros R. destruct (spent_run _ R) as [[] O Gn Od]. simpl in *. split_and!; try done.
  assert (spent ⊆+ seq 0 (next_id g)) as S.
  { apply NoDup_submseteq; [done|]. intros i Hi. apply elem_of_seq. apply Od in Hi. lia. }
  apply submseteq_length in S. by rewrite length_seq in S.
Qed.

(** How long a late approval stays usable: what the portal asks for, clamped
    between a second and half an hour, whatever number it sends. *)
Lemma lateGrantWindow_clamped sec :
  second ≤ lateGrantWindow sec ≤ LateGrantWindow ∧
  (1 ≤ sec ≤ 1800 → lateGrantWindow sec = sec * second).
Proof.
  unfold lateGrantWindow. change (Z.quot LateGrantWindow second) with 1800.
  assert (LateGrantWindow = 1800 * second) as -> by done. assert (second = 1000000000) as -> by done.
  destruct (Z.eqb_spec sec 0), (Z.ltb_spec 1800 sec), (Z.ltb_spec sec 1); simpl; lia.
Qed.

Lemma no_grants_ok : grants_ok no_grants.
Proof. split; simpl; try (by constructor); try lia; by intros ? ?%elem_of_nil. Qed.

Definition late_uptime : request := Request KindExec "uptime" "" "/home" (fp_of "a") "".
Definition late_grants : lateGrants :=
  (install 0 KindExec "uptime" (fp_of "a") "owner" "/home" minute no_grants).2.

Lemma late_grant_binds_witness :
  match find second late_uptime late_grants with
  | (Some x, _) => lg_id x = 0%nat ∧ req_cwd late_uptime = "/home"%string
  | (None, _) => False
  end.
Proof.
  destruct (install 0 KindExec "uptime" (fp_of "a") "owner" "/home" minute no_grants) as [r g'] eqn:I.
  assert (late_grants = g') as E by (unfold late_grants; by rewrite I).
  rewrite E. assert (r = Ok ()) as -> by (apply (f_equal fst) in I; simpl in I; rewrite <- I; vm_compute; reflexivity).
  destruct (find second late_uptime g') as [[x|] g''] eqn:F.
  - assert (lg_id x = 0%nat) as Id.
    { pose proof F as F0. rewrite <- E in F0. vm_compute in F0. injection F0 as F1 _. by rewrite <- F1. }
    split; [exact Id|].
    apply (late_grant_binds 0 second KindExec "uptime" (fp_of "a") "owner" "/home" minute no_grants g'
             late_uptime x g'' no_grants_ok eq_refl I F Id).
  - rewrite <- E in F. vm_compute in F. discriminate.
Defined.

Lemma late_grant_once_witness :
  NoDup (A:=nat) [] ∧ (length (grants late_grants) ≤ maxLateGrants)%nat.
Proof.
  destruct (late_grant_once late_grants []) as (N & _ & _ & L & _); [|split; [exact N|exact L]].
  apply (reachable_step _ _ (no_grants, [])); [by apply reachable_init|].
  eexists. apply (step_install no_grants [] 0 KindExec "uptime" (fp_of "a") "owner" "/home" minute).
Defined.

(** ** The outbox *)

Lemma oldest_loop_spec m ks acc :
  (∀ k, is_Some (m !! k) → k ≠ ""%string) →
  (acc = ""%string ∨ is_Some (m !! acc)) →
  let r := oldest_loop m ks acc in
  (r = ""%string → acc = ""%string ∧ ∀ k, k ∈ ks → m !! k = None) ∧
  (r ≠ ""%string → ∃ d, m !! r = Some d ∧
     (∀ k e, k ∈ ks → m !! k = Some e → pd_at d ≤ pd_at e) ∧ (∀ a, m !! acc = Some a → pd_at d ≤ pd_at a)).
Proof.
  intros Hm. revert acc. induction ks as [|k ks IH]; intros acc Ha; simpl.
  - split; [intros ->; split; [done|]; by intros ? ?%elem_of_nil|]. intros N. destruct Ha as [->|[a Ha]]; [done|].
    exists a. split; [done|]. split; [by intros ? ? ?%elem_of_nil|]. intros a' E. rewrite Ha in E. simplify_eq. lia.
  - destruct (m !! k) as [o|] eqn:E.
    + set (older := match m !! acc with Some a => _ | None => _ end).
      set (acc' := if (acc =? "")%string || older then k else acc).
      assert (acc' ≠ ""%string ∧ is_Some (m !! acc') ∧
              ∀ d, m !! acc' = Some d → pd_at d ≤ pd_at o ∧ ∀ a, m !! acc = Some a → pd_at d ≤ pd_at a) as (N & S & L).
      { unfold acc', older. destruct (String.eqb_spec acc "") as [->|NA]; simpl.
        - split; [by apply Hm; eauto|]. split; [by rewrite E|]. intros d Hd. rewrite E in Hd. simplify_eq.
          split; [lia|]. intros a Hb. exfalso. by apply (Hm ""%string); eauto.
        - destruct Ha as [?|[a Ha]]; [done|]. rewrite Ha. destruct (Z.ltb_spec (pd_at o) (pd_at a)).
          + split; [by apply Hm; eauto|]. split; [by rewrite E|]. intros d Hd. rewrite E in Hd. simplify_eq.
            split; [lia|]. intros a' [= <-]. lia.
          + split; [done|]. split; [by rewrite Ha|]. intros d Hd. rewrite Ha in Hd. simplify_eq.
            split; [lia|]. intros a' [= <-]. lia. }
      destruct (IH acc' ltac:(by right)) as [I1 I2]. split.
      * intros R. apply I1 in R as [R _]. done.
      * intros R. destruct (I2 R) as (d & Hd & D1 & D2). exists d. split; [done|].
        destruct S as [e Se]. specialize (D2 e Se). destruct (L e Se) as [L1 L2]. split.
        -- intros j f [->|Hj]%elem_of_cons Hf; [rewrite E in Hf; simplify_eq; lia|by eapply D1].
        -- intros a Hb. specialize (L2 a Hb). lia.
    + destruct (IH acc Ha) as [I1 I2]. split.
      * intros R. destruct (I1 R) as [? H]. split; [done|]. by intros j [->|Hj]%elem_of_cons; [|apply H].
      * intros R. destruct (I2 R) as (d & Hd & D1 & D2). exists d. split_and!; try done.
        intros j f [->|Hj]%elem_of_cons Hf; [by rewrite E in Hf|by eapply D1].
Qed.

#[local] Arguments Nat.leb : simpl never.

(** Decisions made on the phone are not lost.  A decision is kept, replacing
    an earlier one for the same request, and sent to every live console; the
    outbox never passes 64 entries; a decision leaves it only when the portal
    settles it, when it is an hour old, or, for a new one when the outbox is
    full, when none of the others is older; and a console that attaches later
    is resent everything unsettled, oldest first. *)
Lemma outbox_keeps_decisions now ks d p :
  (∀ k, is_Some (outbox p !! k) → k ≠ ""%string) → (size (outbox p) ≤ maxOutbox)%nat →
  (∀ k, is_Some (outbox p !! k) → k ∈ ks) →
  let '(p', sent) := decide_late now ks d p in
  outbox p' !! pd_id d = Some (PhoneDecision (pd_id d) (pd_verdict d) now) ∧
  sent.*1 = elements (consoles p) ∧ Forall (λ cd, cd.2 = PhoneDecision (pd_id d) (pd_verdict d) now) sent ∧
  (size (outbox p') ≤ maxOutbox)%nat ∧
  (∀ k e, k ≠ pd_id d → outbox p !! k = Some e → outbox p' !! k = None →
     outboxTTL ≤ now - pd_at e ∨
     (∀ j f, outbox p !! j = Some f → now - pd_at f < outboxTTL → pd_at e ≤ pd_at f)) ∧
  (let '(_, resent, p2) := attach now p' in
   Sorted before resent ∧ resent ≡ₚ snd <$> map_to_list (outbox p2) ∧
   (∀ k e, outbox p' !! k = Some e → now - pd_at e < outboxTTL → outbox p2 !! k = Some e)).
Proof.
  intros Hne Hsz Hks. unfold decide_late, attach. set (m := pruneOutboxLocked now (outbox p)).
  set (d' := PhoneDecision _ _ _). simpl.
  assert (m ⊆ outbox p) as Sub by apply map_filter_subseteq.
  assert (∀ k e, outbox p !! k = Some e → m !! k = None → outboxTTL ≤ now - pd_at e) as Pr.
  { intros k e He Hm. destruct (decide (outboxTTL ≤ now - pd_at e)); [done|]. exfalso.
    assert (m !! k = Some e) by (apply map_lookup_filter_Some; done). congruence. }
  assert ((size m ≤ maxOutbox)%nat) as Szm by (etrans; [by apply map_subseteq_size|done]).
  assert (∀ k, is_Some (m !! k) → k ≠ ""%string) as Hnm.
  { intros k [e He]. apply Hne. exists e. by eapply lookup_weaken. }
  set (m1 := match m !! pd_id d with Some _ => m | None => _ end).
  assert (m1 ⊆ m ∧ (size (<[pd_id d := d']> m1) ≤ maxOutbox)%nat ∧
          ∀ k e, m !! k = Some e → m1 !! k = None → ∀ j f, m !! j = Some f → pd_at e ≤ pd_at f) as (S1 & Sz1 & Ev).
  { unfold m1. destruct (m !! pd_id d) as [o|] eqn:E.
    - split_and!; [done| |congruence]. rewrite map_size_insert_Some by eauto. done.
    - destruct (Nat.leb_spec maxOutbox (size m)) as [F|F].
      + destruct (oldest_loop_spec m ks "" Hnm ltac:(by left)) as [O1 O2].
        assert (oldest_loop m ks "" ≠ ""%string) as N.
        { intros R. destruct (O1 R) as [_ Hall]. assert (m = ∅) as M0.
          { apply map_empty. intros k. destruct (m !! k) as [e|] eqn:Ek; [|done].
            rewrite <- Ek. apply Hall, Hks. exists e. by eapply lookup_weaken. }
          rewrite M0, map_size_empty in F. unfold maxOutbox in F. lia. }
        destruct (O2 N) as (o & Ho & Old & _). split_and!.
        * apply delete_subseteq.
        * rewrite map_size_insert_None by (rewrite lookup_delete_None; by right).
          rewrite map_size_delete_Some by eauto. unfold maxOutbox in *. lia.
        * intros k e He Hd j f Hf. apply lookup_delete_None in Hd as [<-|Hd]; [|congruence].
          rewrite Ho in He. simplify_eq. eapply Old; [|exact Hf]. apply Hks. exists f. by eapply lookup_weaken.
      + split_and!; [done| |congruence]. rewrite map_size_insert_None by done. lia. }
  split_and!.
  - apply lookup_insert_eq.
  - rewrite <- list_fmap_compose. apply list_fmap_id.
  - apply Forall_fmap. apply Forall_forall. done.
  - done.
  - intros k e Nk He Hp. rewrite lookup_insert_ne in Hp by done.
    destruct (m !! k) as [e'|] eqn:Ek; [|left; by eapply Pr].
    right. intros j f Hf Y. assert (e' = e) as -> by (pose proof (lookup_weaken _ _ _ _ Ek Sub); congruence).
    eapply Ev; [exact Ek|exact Hp|]. apply map_lookup_filter_Some. split; [exact Hf|]. simpl. lia.
  - apply Sorted_merge_sort. apply _.
  - apply merge_sort_Permutation.
  - intros k e He Y. apply map_lookup_filter_Some. split; [done|]. simpl. lia.
Qed.

Lemma outbox_keeps_decisions_witness :
  let '(p', sent) := decide_late 5 [] (PhoneDecision "r1" "y" 0) newApprovalPhone in
  outbox p' !! "r1"%string = Some (PhoneDecision "r1" "y" 5) ∧ sent = [].
Proof.
  pose proof (outbox_keeps_decisions 5 [] (PhoneDecision "r1" "y" 0) newApprovalPhone) as H.
  destruct (decide_late 5 [] (PhoneDecision "r1" "y" 0) newApprovalPhone) as [p' sent] eqn:D.
  destruct H as (H & _).
  - intros k [x Hk]. cbn [outbox newApprovalPhone] in Hk. by apply lookup_empty_Some in Hk.
  - vm_compute. lia.
  - intros k [x Hk]. cbn [outbox newApprovalPhone] in Hk. by apply lookup_empty_Some in Hk.
  - split; [exact H|]. apply (f_equal snd) in D. vm_compute in D. by rewrite D.
Defined.
