(* ===== verification/Console.v ===== *)
(** [internal/console/console.go]: the queue of approvals and pairing requests a
    device's owner answers.  Every definition is one critical section under
    [s.mu]; where the code blocks on a channel with a timeout, what happens
    when it wakes is a definition of its own.  A pairing request is an object
    that a waiting dial keeps a pointer to after it has left the map, so the
    objects live in a store of their own. *)

From S2P Require Import Prelude GoStrings GoUtf8 Script Policy.

Local Open Scope Z_scope.

Definition pairTTL : Z := 5 * minute.
Definition maxPendingPairs : nat := 16.
Definition pairNotifyWindow : Z := 30 * minute.
Definition DefaultTimeout : Z := 60 * second.
Definition MinTimeout : Z := 10 * second.
Definition MaxTimeout : Z := 10 * minute.

Record pairView := PairView { pv_FP : string; pv_Name : string; pv_Label : string; pv_Created : Z }.

(** [pp_decided] is whether the channel is closed. *)
Record pendingPair := PendingPair { pp_view : pairView; pp_decided : bool; pp_trust : bool; pp_expires : Z }.

Record pendingView := PendingView {
  v_ID : string; v_Kind : kind; v_Cmd : string; v_Path : string; v_Cwd : string; v_Peer : string; v_Created : Z }.

(** The decision channel has room for one answer. *)
Record pending := PendingAsk { p_view : pendingView; p_decided : option decision }.

Record service := Service {
  timeout : Z; pend : gmap string pending;
  pairs : gmap string nat; objects : gmap nat pendingPair; next_obj : nat;
  subs : nat; notified : gmap string Z; has_pairing_hook : bool }.

Definition New (hook : bool) : service := Service DefaultTimeout ∅ ∅ ∅ 0 0 ∅ hook.

Definition set_pairs (m : gmap string nat) (s : service) : service :=
  Service (timeout s) (pend s) m (objects s) (next_obj s) (subs s) (notified s) (has_pairing_hook s).
Definition set_object (i : nat) (p : pendingPair) (s : service) : service :=
  Service (timeout s) (pend s) (pairs s) (<[i := p]> (objects s)) (next_obj s) (subs s) (notified s) (has_pairing_hook s).
Definition set_pend (m : gmap string pending) (s : service) : service :=
  Service (timeout s) m (pairs s) (objects s) (next_obj s) (subs s) (notified s) (has_pairing_hook s).
Definition set_notified (m : gmap string Z) (s : service) : service :=
  Service (timeout s) (pend s) (pairs s) (objects s) (next_obj s) (subs s) m (has_pairing_hook s).

Definition SetTimeout (d : Z) (s : service) : Z * service :=
  let d := if d =? 0 then DefaultTimeout else d in
  let d := if d <? MinTimeout then MinTimeout else d in
  let d := if MaxTimeout <? d then MaxTimeout else d in
  (d, Service d (pend s) (pairs s) (objects s) (next_obj s) (subs s) (notified s) (has_pairing_hook s)).

Definition Timeout (s : service) : Z := timeout s.

(** The object behind a fingerprint. *)
Definition pair_of (fp : string) (s : service) : option pendingPair :=
  match pairs s !! fp with Some i => objects s !! i | None => None end.

Definition expired (now : Z) (s : service) (i : nat) : bool :=
  match objects s !! i with Some p => pp_expires p <? now | None => false end.

Definition pruneExpiredPairsLocked (now : Z) (s : service) : service :=
  set_pairs (filter (λ kv : string * nat, expired now s kv.2 = false) (pairs s)) s.

Definition undecided (s : service) (i : nat) : bool :=
  match objects s !! i with Some p => negb (pp_decided p) | None => false end.

Definition undecidedPairsLocked (s : service) : nat :=
  length (List.filter (λ kv : string * nat, undecided s kv.2) (map_to_list (pairs s))).

Definition claimPairNotifyLocked (now : Z) (fp : string) (s : service) : bool * service :=
  let m := filter (λ kv : string * Z, ¬ (pairNotifyWindow ≤ now - kv.2)) (notified s) in
  match m !! fp with
  | Some _ => (false, set_notified m s)
  | None => if (maxPendingPairs <=? size m)%nat then (false, set_notified m s)
            else (true, set_notified (<[fp := now]> m) s)
  end.

(** How [askPair] leaves its first critical section: with an answer, or
    waiting on an object. *)
Inductive ask_result := Answer (trust : bool) | TooManyPairings | Waiting (obj : nat).

(** [askPair] up to its wait; the boolean is whether the owner is notified. *)
Definition askPair (now : Z) (fp name label : string) (waitForDecision : bool) (s : service)
  : ask_result * bool * service :=
  let s := pruneExpiredPairsLocked now s in
  let hasFrontend := waitForDecision && (0 <? subs s)%nat in
  match pairs s !! fp with
  | Some i =>
      match objects s !! i with
      | None => (Answer false, false, s)
      | Some p =>
          if pp_decided p then (Answer (pp_trust p), false, set_pairs (delete fp (pairs s)) s)
          else
            let v := pp_view p in
            let v := PairView (pv_FP v) (if String.eqb name "" then pv_Name v else name)
                       (if String.eqb label "" then pv_Label v else label) (pv_Created v) in
            let s := set_object i (PendingPair v false (pp_trust p) (now + pairTTL)) s in
            ((if hasFrontend then Waiting i else Answer false), false, s)
      end
  | None =>
      if (maxPendingPairs <=? undecidedPairsLocked s)%nat then (TooManyPairings, false, s)
      else
        let i := next_obj s in
        let p := PendingPair (PairView fp name label now) false false (now + pairTTL) in
        let s := Service (timeout s) (pend s) (<[fp := i]> (pairs s)) (<[i := p]> (objects s)) (S i)
                   (subs s) (notified s) (has_pairing_hook s) in
        let '(report, s) := if has_pairing_hook s then claimPairNotifyLocked now fp s else (false, s) in
        ((if hasFrontend then Waiting i else Answer false), report, s)
  end.

(** [askPair] woken by a verdict on the object it waits on; on a timeout it
    answers [false] and changes nothing. *)
Definition askPair_wake (fp : string) (obj : nat) (s : service) : option (bool * service) :=
  match objects s !! obj with
  | Some p =>
      if pp_decided p
      then Some (pp_trust p, if bool_decide (pairs s !! fp = Some obj) then set_pairs (delete fp (pairs s)) s else s)
      else None
  | None => None
  end.

Definition AskPair (now : Z) (fp name label : string) (s : service) := askPair now fp name label true s.
Definition AskPairNonBlocking (now : Z) (fp name label : string) (s : service) := askPair now fp name label false s.

Definition DecidePair (now : Z) (fp : string) (trust : bool) (s : service) : bool * service :=
  let s := pruneExpiredPairsLocked now s in
  match pairs s !! fp with
  | None => (false, s)
  | Some i =>
      match objects s !! i with
      | None => (false, s)
      | Some p =>
          if pp_decided p then (false, s)
          else if trust
          then (true, set_object i (PendingPair (pp_view p) true true (now + pairTTL)) s)
          else (true, set_pairs (delete fp (pairs s)) (set_object i (PendingPair (pp_view p) true false (pp_expires p)) s))
      end
  end.

(** ** Approvals *)

(** [Ask] up to its wait: [None] when nobody watches and the answer is no. *)
Definition Ask (now : Z) (id : string) (req : request) (s : service) : option string * service :=
  if (subs s =? 0)%nat then (None, s)
  else
    let v := PendingView id (req_kind req) (CommandLabel (req_cmd req)) (req_path req) (req_cwd req) (req_peer req) now in
    (Some id, set_pend (<[id := PendingAsk v None]> (pend s)) s).

(** [Ask] done waiting, by an answer or by its timeout. *)
Definition Ask_wake (id : string) (timed_out : bool) (s : service) : option (decision * service) :=
  match pend s !! id with
  | Some p =>
      match p_decided p with
      | Some d => if timed_out then Some (deny, set_pend (delete id (pend s)) s)
                  else Some (d, set_pend (delete id (pend s)) s)
      | None => if timed_out then Some (deny, set_pend (delete id (pend s)) s) else None
      end
  | None => None
  end.

(** The decision a verdict stands for. *)
Definition verdict_decision (k : kind) (verdict : string) : decision :=
  if String.eqb verdict "y" || String.eqb verdict "yes" then allow_once
  else if String.eqb verdict "a" then
    match k with KindLogs => allow_once | _ => Decision true true ScopeDir end
  else if String.eqb verdict "g" then Decision true true ScopeGlobal
  else deny.

Definition Decide (id verdict : string) (s : service) : bool * service :=
  match pend s !! id with
  | None => (false, s)
  | Some p =>
      let d := verdict_decision (v_Kind (p_view p)) verdict in
      match p_decided p with
      | Some _ => (true, s)
      | None => (true, set_pend (<[id := PendingAsk (p_view p) (Some d)]> (pend s)) s)
      end
  end.

(** What a front-end sees of the waiting requests. *)
Definition State (now : Z) (s : service) : list pendingView * list pairView * service :=
  let s := pruneExpiredPairsLocked now s in
  (p_view ∘ snd <$> map_to_list (pend s),
   omap (λ kv : string * nat, match objects s !! kv.2 with
                              | Some p => if pp_decided p then None else Some (pp_view p)
                              | None => None end) (map_to_list (pairs s)), s).

Definition Subscribe (s : service) : service :=
  Service (timeout s) (pend s) (pairs s) (objects s) (next_obj s) (S (subs s)) (notified s) (has_pairing_hook s).
Definition Unsubscribe (s : service) : service :=
  Service (timeout s) (pend s) (pairs s) (objects s) (next_obj s) (Nat.pred (subs s)) (notified s) (has_pairing_hook s).

(** ** Runs of the pairing queue *)

Inductive pair_event :=
| EvAsk (now : Z) (fp name label : string) (wait : bool)
| EvWake (fp : string) (obj : nat)
| EvDecide (now : Z) (fp : string) (trust : bool)
| EvState (now : Z)
| EvSubscribe
| EvUnsubscribe.

(** The queue with its history, per controller and object: who waits, what the
    owner approved and when, and which dials were answered [true] - those that
    found the verdict waiting, with the time, and those that were woken. *)
Record queue_run := QueueRun {
  q_s : service; q_waiting : list (string * nat); q_approved : list (string * nat * Z);
  q_collected : list (string * nat * Z); q_woken : list (string * nat) }.

Definition ask_history (now : Z) (fp : string) (r : ask_result) (s s' : service) (q : queue_run) : queue_run :=
  QueueRun s'
    (match r with Waiting i => (fp, i) :: q_waiting q | _ => q_waiting q end) (q_approved q)
    (match r, pairs s !! fp with Answer true, Some i => (fp, i, now) :: q_collected q | _, _ => q_collected q end)
    (q_woken q).

Definition decide_history (now : Z) (fp : string) (approved : bool) (s' : service) (q : queue_run) : queue_run :=
  QueueRun s' (q_waiting q)
    (match pairs (q_s q) !! fp with
     | Some i => if approved then (fp, i, now) :: q_approved q else q_approved q
     | None => q_approved q end)
    (q_collected q) (q_woken q).

Definition with_service (s : service) (q : queue_run) : queue_run :=
  QueueRun s (q_waiting q) (q_approved q) (q_collected q) (q_woken q).

Inductive queue_step (q : queue_run) : pair_event → queue_run → Prop :=
| run_ask now fp name label wait r report s' :
    askPair now fp name label wait (q_s q) = (r, report, s') →
    queue_step q (EvAsk now fp name label wait) (ask_history now fp r (q_s q) s' q)
| run_wake fp obj trust s' :
    (fp, obj) ∈ q_waiting q → askPair_wake fp obj (q_s q) = Some (trust, s') →
    queue_step q (EvWake fp obj)
      (QueueRun s' (q_waiting q) (q_approved q) (q_collected q)
         (if trust then (fp, obj) :: q_woken q else q_woken q))
| run_decide now fp trust ok s' :
    DecidePair now fp trust (q_s q) = (ok, s') →
    queue_step q (EvDecide now fp trust) (decide_history now fp (ok && trust) s' q)
| run_state now : queue_step q (EvState now) (with_service (State now (q_s q)).2 q)
| run_subscribe : queue_step q EvSubscribe (with_service (Subscribe (q_s q)) q)
| run_unsubscribe : queue_step q EvUnsubscribe (with_service (Unsubscribe (q_s q)) q).

Definition queue_reachable : queue_run → Prop :=
  reachable (λ q, ∃ hook, q = QueueRun (New hook) [] [] [] []) (λ q q', ∃ e, queue_step q e q').

(** ** The invariant *)

(** The object [i] of controller [fp]. *)
Definition object_of (s : service) (fp : string) (i : nat) : Prop :=
  ∃ p, objects s !! i = Some p ∧ pv_FP (pp_view p) = fp.

Record queue_ok (q : queue_run) : Prop := {
  k_obj : ∀ fp i, pairs (q_s q) !! fp = Some i → object_of (q_s q) fp i ∧
            ∀ p, objects (q_s q) !! i = Some p → pp_decided p = true → pp_trust p = true;
  k_fresh : ∀ i, is_Some (objects (q_s q) !! i) → (i < next_obj (q_s q))%nat;
  k_waiting : ∀ fp i, (fp, i) ∈ q_waiting q → object_of (q_s q) fp i;
  k_approved : ∀ i p, objects (q_s q) !! i = Some p → pp_decided p = true → pp_trust p = true →
            ∃ t, (pv_FP (pp_view p), i, t) ∈ q_approved q ∧ pp_expires p = t + pairTTL;
  k_collected : ∀ fp i now, (fp, i, now) ∈ q_collected q →
            (∃ t, (fp, i, t) ∈ q_approved q ∧ now ≤ t + pairTTL) ∧ (i < next_obj (q_s q))%nat ∧
            ∀ fp', pairs (q_s q) !! fp' ≠ Some i;
  k_once : NoDup (q_collected q).*1;
  k_woken : ∀ fp i, (fp, i) ∈ q_woken q → ∃ t, (fp, i, t) ∈ q_approved q;
  k_bound : (undecidedPairsLocked (q_s q) ≤ maxPendingPairs)%nat;
  k_notified : (size (notified (q_s q)) ≤ maxPendingPairs)%nat }.

(** Counting the undecided entries. *)
Definition undecided_map (s : service) : gmap string nat :=
  filter (λ kv : string * nat, undecided s kv.2 = true) (pairs s).

Lemma undecided_count s : undecidedPairsLocked s = size (undecided_map s).
Proof.
  unfold undecidedPairsLocked, undecided_map. induction (pairs s) as [|k i m E IH] using map_ind; [done|].
  assert (∀ l l' : list (string * nat), l ≡ₚ l' →
    length (List.filter (λ kv, undecided s kv.2) l) = length (List.filter (λ kv, undecided s kv.2) l')) as P.
  { intros l l' H. induction H as [|x l l' _ IHp|x y l|l1 l2 l3 _ IH1 _ IH2]; simpl; [done| | |congruence].
    - destruct (undecided s x.2); simpl; congruence.
    - by destruct (undecided s x.2), (undecided s y.2). }
  rewrite (P _ _ (map_to_list_insert m k i E)). simpl. destruct (undecided s i) eqn:U; simpl.
  - rewrite map_filter_insert_True by done. rewrite map_size_insert_None; [by rewrite IH|].
    apply map_lookup_filter_None. by left.
  - rewrite map_filter_insert_False by (simpl; congruence). rewrite delete_id by done. done.
Qed.

Lemma undecided_le s s' :
  undecided_map s' ⊆ undecided_map s → (undecidedPairsLocked s' ≤ undecidedPairsLocked s)%nat.
Proof. intros H. rewrite !undecided_count. by apply map_subseteq_size. Qed.

Lemma prune_pairs now s : pairs (pruneExpiredPairsLocked now s) ⊆ pairs s.
Proof. apply map_filter_subseteq. Qed.

Lemma prune_lookup now s fp i :
  pairs (pruneExpiredPairsLocked now s) !! fp = Some i ↔ pairs s !! fp = Some i ∧ expired now s i = false.
Proof. unfold pruneExpiredPairsLocked. simpl. apply map_lookup_filter_Some. Qed.

(** Dropping entries keeps the invariant. *)
Lemma queue_ok_drop q m :
  queue_ok q → m ⊆ pairs (q_s q) → queue_ok (with_service (set_pairs m (q_s q)) q).
Proof.
  intros [] S. split; simpl; try done.
  - intros fp i H. apply k_obj0. by eapply lookup_weaken.
  - intros fp i now H. destruct (k_collected0 fp i now H) as (A & L & N). split_and!; try done.
    intros fp' Hf. apply (N fp'). by eapply lookup_weaken.
  - etrans; [apply (undecided_le (q_s q))|done]. apply map_filter_subseteq_mono. done.
Qed.

Lemma queue_ok_prune q now : queue_ok q → queue_ok (with_service (pruneExpiredPairsLocked now (q_s q)) q).
Proof. intros O. by apply queue_ok_drop, prune_pairs. Qed.

(** Changing one object in place. *)
Lemma queue_ok_object q i p p' ap :
  queue_ok q → objects (q_s q) !! i = Some p → pv_FP (pp_view p') = pv_FP (pp_view p) →
  (pp_decided p' = false → pp_decided p = false) →
  ((∃ fp, pairs (q_s q) !! fp = Some i) → pp_decided p' = true → pp_trust p' = true) →
  q_approved q ⊆ ap →
  (pp_decided p' = true → pp_trust p' = true → ∃ t, (pv_FP (pp_view p'), i, t) ∈ ap ∧ pp_expires p' = t + pairTTL) →
  queue_ok (QueueRun (set_object i p' (q_s q)) (q_waiting q) ap (q_collected q) (q_woken q)).
Proof.
  intros [] Hi Hfp Hd Ht Sub Ap.
  assert (∀ fp j, object_of (q_s q) fp j → object_of (set_object i p' (q_s q)) fp j) as OO.
  { intros fp j (r & Hr & Hf). destruct (decide (j = i)) as [->|N].
    - exists p'. split; [apply lookup_insert_eq|congruence].
    - exists r. split; [by simpl; rewrite lookup_insert_ne|done]. }
  split; simpl; try done.
  - intros fp j Hj. destruct (k_obj0 fp j Hj) as [O T]. split; [by apply OO|].
    intros r [[<- <-]|[_ Hr]]%lookup_insert_Some; [apply Ht; eauto|by apply T].
  - intros j [r [[<- <-]|[_ Hr]]%lookup_insert_Some]; apply k_fresh0; eauto.
  - intros fp j Hj. by apply OO, k_waiting0.
  - intros j r [[<- <-]|[_ Hr]]%lookup_insert_Some; [done|]. intros D T.
    destruct (k_approved0 j r Hr D T) as (t & Hin & E). exists t. split; [by apply Sub|done].
  - intros fp j now Hc. destruct (k_collected0 fp j now Hc) as ((t & A & L) & R). split; [|done]. exists t.
    split; [by apply Sub|done].
  - intros fp j Hw. destruct (k_woken0 fp j Hw) as (t & A). exists t. by apply Sub.
  - etrans; [apply (undecided_le (q_s q))|done]. unfold undecided_map. simpl.
    apply map_subseteq_spec. intros fp j. rewrite !map_lookup_filter_Some. simpl.
    intros [Hj U]. split; [done|]. unfold undecided in *. simpl in U.
    destruct (decide (j = i)) as [->|N].
    + rewrite lookup_insert_eq in U. rewrite Hi. apply negb_true_iff in U. by rewrite Hd.
    + by rewrite lookup_insert_ne in U.
Qed.

Lemma pair_injective q fp fp' i :
  queue_ok q → pairs (q_s q) !! fp = Some i → pairs (q_s q) !! fp' = Some i → fp = fp'.
Proof.
  intros O H H'. destruct (k_obj q O fp i H) as [(p & Hp & E) _], (k_obj q O fp' i H') as [(p' & Hp' & E') _].
  congruence.
Qed.

Lemma queue_ok_wait q fp i :
  queue_ok q → object_of (q_s q) fp i →
  queue_ok (QueueRun (q_s q) ((fp, i) :: q_waiting q) (q_approved q) (q_collected q) (q_woken q)).
Proof. intros [] H. split; simpl; try done. intros f j [[= -> ->]|Hj]%elem_of_cons; auto. Qed.

(** A dial collects the verdict that was waiting for it. *)
Lemma queue_ok_collect q fp i p now :
  queue_ok q → pairs (q_s q) !! fp = Some i → objects (q_s q) !! i = Some p →
  pp_decided p = true → now ≤ pp_expires p →
  queue_ok (QueueRun (set_pairs (delete fp (pairs (q_s q))) (q_s q)) (q_waiting q) (q_approved q)
              ((fp, i, now) :: q_collected q) (q_woken q)).
Proof.
  intros O Hp Hi D L.
  assert (queue_ok (with_service (set_pairs (delete fp (pairs (q_s q))) (q_s q)) q)) as O'
    by (apply queue_ok_drop; [done|apply delete_subseteq]).
  destruct (k_obj q O fp i Hp) as [(p' & Hi' & F) T]. rewrite Hi in Hi'. injection Hi' as <-.
  specialize (T p Hi D). destruct (k_approved q O i p Hi D T) as (t & A & E). rewrite F in A.
  destruct O'. split; simpl; try done.
  - intros f j n [[= -> -> ->]|Hc]%elem_of_cons.
    + split; [exists t; split; [done|lia]|]. split; [apply (k_fresh q O); eauto|].
      intros f' [N Hf]%lookup_delete_Some. apply N. by eapply pair_injective.
    + destruct (k_collected0 f j n Hc) as (A1 & A2 & A3). done.
  - apply NoDup_cons. split; [|done]. intros ([[f j] n] & Eq & Hc)%list_elem_of_fmap. simpl in Eq. injection Eq as <- <-.
    destruct (k_collected q O fp i n Hc) as (_ & _ & N). by apply (N fp).
Qed.

Lemma claim_ok now fp s b s' :
  claimPairNotifyLocked now fp s = (b, s') → (size (notified s) ≤ maxPendingPairs)%nat →
  ∃ m, s' = set_notified m s ∧ (size m ≤ maxPendingPairs)%nat.
Proof.
  unfold claimPairNotifyLocked. set (m := filter _ _). intros H L.
  assert ((size m ≤ maxPendingPairs)%nat) as Lm.
  { etrans; [apply map_subseteq_size, map_filter_subseteq|done]. }
  destruct (m !! fp) eqn:E; [injection H as <- <-; eauto|].
  destruct (Nat.leb_spec maxPendingPairs (size m)); injection H as <- <-; [eauto|].
  eexists. split; [reflexivity|]. rewrite map_size_insert_None by done. lia.
Qed.

Lemma queue_ok_notified q m :
  queue_ok q → (size m ≤ maxPendingPairs)%nat → queue_ok (with_service (set_notified m (q_s q)) q).
Proof. intros [] L. by split. Qed.

(** A new controller joins the queue. *)
Lemma queue_ok_new q fp v e :
  queue_ok q → pairs (q_s q) !! fp = None → (undecidedPairsLocked (q_s q) < maxPendingPairs)%nat → pv_FP v = fp →
  let s := q_s q in
  let i := next_obj s in
  let s' := Service (timeout s) (pend s) (<[fp := i]> (pairs s)) (<[i := PendingPair v false false e]> (objects s)) (S i)
              (subs s) (notified s) (has_pairing_hook s) in
  queue_ok (with_service s' q) ∧ object_of s' fp i.
Proof.
  intros O N L V s i s'. destruct O.
  assert (objects s !! i = None) as Fr.
  { destruct (objects s !! i) eqn:E; [|done]. pose proof (k_fresh0 i ltac:(eauto)). unfold i, s in *. lia. }
  assert (∀ f j, object_of s f j → object_of s' f j ∧ j ≠ i) as OO.
  { intros f j (r & Hr & Hf). assert (j ≠ i) by (intros ->; unfold s in *; congruence).
    split; [|done]. exists r. split; [by simpl; rewrite lookup_insert_ne|done]. }
  assert (object_of s' fp i) as New by (eexists; split; [apply lookup_insert_eq|done]).
  split; [|done]. split; simpl; try done.
  - intros f j [[<- <-]|[_ Hj]]%lookup_insert_Some.
    + split; [done|]. intros p. rewrite lookup_insert_eq. intros [= <-]. done.
    + destruct (k_obj0 f j Hj) as [O T]. destruct (OO f j O) as [O' Nj]. split; [done|].
      intros p. rewrite lookup_insert_ne by done. apply T.
  - intros j [p [[<- _]|[_ Hp]]%lookup_insert_Some]; [lia|]. assert (j < next_obj s)%nat by (apply k_fresh0; eauto).
    unfold i, s in *. lia.
  - intros f j Hw. by apply OO, k_waiting0.
  - intros j p [[<- <-]|[_ Hp]]%lookup_insert_Some; [done|by apply k_approved0].
  - intros f j n Hc. destruct (k_collected0 f j n Hc) as (A & Lj & Nj). split; [done|]. split; [unfold i, s; lia|].
    intros f' [[_ <-]|[_ Hf]]%lookup_insert_Some; [unfold i, s in Lj; lia|by apply (Nj f')].
  - rewrite undecided_count. rewrite undecided_count in L, k_bound0.
    assert (undecided_map s' ⊆ <[fp := i]> (undecided_map s)) as Sub.
    { unfold undecided_map. apply map_subseteq_spec. intros f j. rewrite map_lookup_filter_Some. simpl.
      intros [[[<- <-]|[Nf Hj]]%lookup_insert_Some U]; [by rewrite lookup_insert_eq|].
      rewrite lookup_insert_ne by done. apply map_lookup_filter_Some. split; [done|]. simpl.
      unfold undecided in *. simpl in U. destruct (OO f j) as [_ Nj]; [by apply k_obj0|].
      by rewrite lookup_insert_ne in U. }
    apply map_subseteq_size in Sub. etrans; [exact Sub|]. rewrite map_size_insert_None; [unfold s; lia|].
    apply map_lookup_filter_None. by left.
Qed.

Lemma prune_not_expired now q fp i p :
  pairs (pruneExpiredPairsLocked now (q_s q)) !! fp = Some i → objects (q_s q) !! i = Some p → now ≤ pp_expires p.
Proof. intros [_ E]%prune_lookup Hp. unfold expired in E. rewrite Hp in E. by bsplit. Qed.

Lemma queue_ok_ask q now fp name label wait r report s' :
  queue_ok q → askPair now fp name label wait (q_s q) = (r, report, s') →
  queue_ok (ask_history now fp r (q_s q) s' q).
Proof.
  intros O. pose proof (queue_ok_prune q now O) as O1. unfold askPair.
  set (s1 := pruneExpiredPairsLocked now (q_s q)) in *. set (q1 := with_service s1 q) in *.
  set (front := wait && (0 <? subs s1)%nat).
  destruct (pairs s1 !! fp) as [i|] eqn:Hp.
  - assert (pairs (q_s q) !! fp = Some i) as Hq by (eapply lookup_weaken; [exact Hp|apply prune_pairs]).
    destruct (k_obj q1 O1 fp i Hp) as [(p & Hi & F) T].
    change (objects s1 !! i = Some p) in Hi. rewrite Hi. unfold ask_history. rewrite Hq.
    destruct (pp_decided p) eqn:D.
    + intros [= <- <- <-]. rewrite (T p Hi D).
      apply (queue_ok_collect q1 fp i p now O1 Hp Hi D). by eapply (prune_not_expired now q).
    + set (v := PairView _ _ _ _). set (p' := PendingPair v false (pp_trust p) (now + pairTTL)).
      intros [= <- <- <-].
      assert (queue_ok (with_service (set_object i p' s1) q1)) as O2.
      { apply (queue_ok_object q1 i p p' (q_approved q1)); try done. }
      destruct front; [|done].
      apply (queue_ok_wait (with_service (set_object i p' s1) q1) fp i O2).
      exists p'. split; [apply lookup_insert_eq|done].
  - assert (∀ r0 : ask_result, r0 ≠ Answer true →
      match r0, pairs (q_s q) !! fp with Answer true, Some i => (fp, i, now) :: q_collected q | _, _ => q_collected q end
      = q_collected q) as NoC by (intros [[]| |] Hr; done).
    destruct (Nat.leb_spec maxPendingPairs (undecidedPairsLocked s1)).
    + intros [= <- <- <-]. unfold ask_history. exact O1.
    + set (v := PairView fp name label now).
      destruct (queue_ok_new q1 fp v (now + pairTTL) O1 Hp ltac:(done) eq_refl) as [O2 New].
      cbn [q_s q1 with_service] in O2, New. set (s2 := Service _ _ _ _ _ _ _ _) in *. cbn [has_pairing_hook s2].
      destruct (if has_pairing_hook s1 then _ else _) as [rep s3] eqn:C. intros [= <- <- <-].
      assert (queue_ok (with_service s3 q1) ∧ object_of s3 fp (next_obj s1)) as [O3 New3].
      { destruct (has_pairing_hook s1); [|by injection C as _ <-].
        apply claim_ok in C as (m & -> & L); [|apply (k_notified _ O2)].
        split; [|exact New]. apply (queue_ok_notified _ m O2 L). }
      unfold ask_history. destruct front; [|exact O3]. apply (queue_ok_wait (with_service s3 q1) fp _ O3 New3).
Qed.

Lemma queue_ok_decide q now fp trust ok s' :
  queue_ok q → DecidePair now fp trust (q_s q) = (ok, s') →
  queue_ok (decide_history now fp (ok && trust) s' q).
Proof.
  intros O. pose proof (queue_ok_prune q now O) as O1. unfold DecidePair.
  set (s1 := pruneExpiredPairsLocked now (q_s q)) in *. set (q1 := with_service s1 q) in *.
  destruct (pairs s1 !! fp) as [i|] eqn:Hp.
  - assert (pairs (q_s q) !! fp = Some i) as Hq by (eapply lookup_weaken; [exact Hp|apply prune_pairs]).
    destruct (k_obj q1 O1 fp i Hp) as [(p & Hi & F) T].
    change (objects s1 !! i = Some p) in Hi. rewrite Hi. unfold decide_history. rewrite Hq.
    destruct (pp_decided p) eqn:D; [by intros [= <- <-]|].
    destruct trust; intros [= <- <-]; cbn [andb].
    + apply (queue_ok_object q1 i p (PendingPair (pp_view p) true true (now + pairTTL)) ((fp, i, now) :: q_approved q1));
        try done.
      * intros x Hx. by right.
      * intros _ _. exists now. split; [simpl; rewrite F; left|done].
    + assert (queue_ok (with_service (set_pairs (delete fp (pairs s1)) s1) q1)) as O2
        by (apply (queue_ok_drop q1); [done|apply delete_subseteq]).
      apply (queue_ok_object _ i p (PendingPair (pp_view p) true false (pp_expires p)) (q_approved q1) O2); try done.
      intros [f Hf]. cbn [q_s with_service set_pairs pairs] in Hf. apply lookup_delete_Some in Hf as [N Hf].
      destruct N. by eapply (pair_injective q1).
  - intros [= <- <-]. unfold decide_history. cbn [andb]. destruct (pairs (q_s q) !! fp); exact O1.
Qed.

Lemma queue_ok_run q : queue_reachable q → queue_ok q.
Proof.
  apply invariant_reachable.
  - intros ? [hook ->]. split; simpl; try done.
    + by intros i [p Hp%lookup_empty_Some].
    + by intros fp i H%elem_of_nil.
    + by intros fp i now H%elem_of_nil.
    + constructor.
    + by intros fp i H%elem_of_nil.
    + unfold maxPendingPairs. vm_compute. lia.
    + rewrite map_size_empty. unfold maxPendingPairs. lia.
  - intros q0 q1 O [e St]. destruct St.
    + by eapply queue_ok_ask.
    + unfold askPair_wake in H0. destruct (objects (q_s q0) !! obj) as [p|] eqn:Ho; [|done].
      destruct (pp_decided p) eqn:D; [|done]. injection H0 as <- <-.
      destruct (k_waiting q0 O fp obj H) as (p' & Hp' & F). rewrite Ho in Hp'. injection Hp' as <-.
      assert (queue_ok (with_service (if bool_decide (pairs (q_s q0) !! fp = Some obj)
        then set_pairs (delete fp (pairs (q_s q0))) (q_s q0) else q_s q0) q0)) as O2.
      { case_bool_decide; [apply queue_ok_drop; [done|apply delete_subseteq]|by destruct q0]. }
      destruct (pp_trust p) eqn:T; [|done]. destruct O2. split; simpl; try done.
      intros f j [[= -> ->]|Hw]%elem_of_cons; [|by apply k_woken0].
      destruct (k_approved q0 O obj p Ho D T) as (t & A & _). exists t. by rewrite F in A.
    + by eapply queue_ok_decide.
    + apply (queue_ok_prune q0 now O).
    + by destruct O; split.
    + by destruct O; split.
Qed.

(** C40: only the owner admits a controller.  Whatever dials, decisions and
    expiries interleave, a dial that is answered yes is from a controller whose
    request the owner approved: the one that collects a waiting approval does
    so within its five minutes, each approval is collected at most once, and
    one that is woken waited on a request that was approved.  Never more than
    16 requests wait at once. *)
Theorem pairing_needs_owner q :
  queue_reachable q →
  (∀ fp i now, (fp, i, now) ∈ q_collected q → ∃ t, (fp, i, t) ∈ q_approved q ∧ now ≤ t + pairTTL) ∧
  NoDup (q_collected q).*1 ∧
  (∀ fp i, (fp, i) ∈ q_woken q → ∃ t, (fp, i, t) ∈ q_approved q) ∧
  (undecidedPairsLocked (q_s q) ≤ maxPendingPairs)%nat ∧
  (size (notified (q_s q)) ≤ maxPendingPairs)%nat.
Proof.
  intros R. destruct (queue_ok_run q R). split_and!; try done.
  intros fp i now H. by destruct (k_collected0 fp i now H) as (A & _).
Qed.

(** A flood of unknown controllers cannot push a waiting request out.  A dial
    by another controller leaves an unexpired request exactly as it was, and
    once 16 requests wait a new controller is refused and stores nothing. *)
Lemma flood_keeps_waiting q now fp fp' i name label wait r report s' :
  queue_reachable q → fp' ≠ fp → pairs (q_s q) !! fp = Some i → expired now (q_s q) i = false →
  askPair now fp' name label wait (q_s q) = (r, report, s') →
  pairs s' !! fp = Some i ∧ objects s' !! i = objects (q_s q) !! i ∧
  (pairs (pruneExpiredPairsLocked now (q_s q)) !! fp' = None →
   undecidedPairsLocked (pruneExpiredPairsLocked now (q_s q)) = maxPendingPairs →
   r = TooManyPairings ∧ report = false ∧ s' = pruneExpiredPairsLocked now (q_s q)).
Proof.
  intros R N Hp E. pose proof (queue_ok_run q R) as O. pose proof (queue_ok_prune q now O) as O1.
  assert (pairs (pruneExpiredPairsLocked now (q_s q)) !! fp = Some i) as Hp1 by (by apply prune_lookup).
  assert (is_Some (objects (q_s q) !! i)) as Io.
  { destruct (k_obj q O fp i Hp) as [(p & Hi & _) _]. eauto. }
  unfold askPair. set (s1 := pruneExpiredPairsLocked now (q_s q)) in *.
  destruct (pairs s1 !! fp') as [j|] eqn:Hj.
  - assert (j ≠ i) as Nj by (intros ->; apply N; by eapply (pair_injective (with_service s1 q))).
    destruct (objects s1 !! j) as [p|] eqn:Ho; [|by intros [= <- <- <-]].
    destruct (pp_decided p); intros [= <- <- <-]; cbn [set_pairs set_object pairs objects].
    + split_and!; [by rewrite lookup_delete_ne|done|done].
    + split_and!; [done|by rewrite lookup_insert_ne|done].
  - destruct (Nat.leb_spec maxPendingPairs (undecidedPairsLocked s1)).
    + intros [= <- <- <-]. done.
    + set (s2 := Service _ _ _ _ _ _ _ _).
      assert (pairs s2 !! fp = Some i ∧ objects s2 !! i = objects (q_s q) !! i) as [P2 Q2].
      { unfold s2. cbn [pairs objects]. rewrite lookup_insert_ne by done. split; [done|].
        rewrite lookup_insert_ne; [done|]. intros Eq. pose proof (k_fresh _ O1 i Io) as F.
        cbn [q_s with_service] in F. lia. }
      destruct (if has_pairing_hook s2 then _ else _) as [rep s3] eqn:C. intros [= <- <- <-].
      assert (pairs s3 = pairs s2 ∧ objects s3 = objects s2) as [-> ->].
      { destruct (has_pairing_hook s2); [|by injection C as _ <-].
        unfold claimPairNotifyLocked in C. case_match; [by injection C as _ <-|]. case_match; by injection C as _ <-. }
      split_and!; try done. intros _ Full. lia.
Qed.

(** An approval is decided by its first answer.  The request waits under its
    id with no answer; the first verdict delivered is the one the request gets,
    later ones change nothing, a verdict for an unknown id is refused, a
    verdict the console does not know denies, and with nobody watching or no
    answer in time the request is denied. *)
Lemma first_verdict_wins now id req v1 v2 s :
  match Ask now id req s with
  | (None, s') => subs s = 0%nat ∧ s' = s
  | (Some w, s1) =>
      w = id ∧ Ask_wake id false s1 = None ∧
      (∀ s2, Decide id v1 s1 = (true, s2) →
         Decide id v2 s2 = (true, s2) ∧
         Ask_wake id false s2 = Some (verdict_decision (req_kind req) v1, set_pend (delete id (pend s2)) s2)) ∧
      (Decide id v1 s1).1 = true ∧
      Ask_wake id true s1 = Some (deny, set_pend (delete id (pend s1)) s1)
  end ∧
  (pend s !! id = None → Decide id v1 s = (false, s)) ∧
  (verdict_decision (req_kind req) v1 ≠ deny → v1 ∈ ["y"; "yes"; "a"; "g"]%string).
Proof.
  split; [|split].
  - unfold Ask. destruct (Nat.eqb_spec (subs s) 0); [done|].
    unfold Ask_wake, Decide. cbn [pend set_pend]. rewrite lookup_insert_eq. cbn [p_decided p_view v_Kind].
    split_and!; try done. intros s2 [= <-]. cbn [pend set_pend]. rewrite lookup_insert_eq. done.
  - intros H. unfold Decide. by rewrite H.
  - unfold verdict_decision. destruct (String.eqb_spec v1 "y") as [->|]; [intros _; set_solver|].
    destruct (String.eqb_spec v1 "yes") as [->|]; [intros _; set_solver|]. simpl.
    destruct (String.eqb_spec v1 "a") as [->|]; [intros _; set_solver|].
    destruct (String.eqb_spec v1 "g") as [->|]; [intros _; set_solver|]. done.
Qed.

(** The approval wait is always between ten seconds and ten minutes,
    whatever a front-end asks for, and what it asks for when that is in
    range; zero restores the default. *)
Lemma SetTimeout_clamps d s :
  let '(t, s') := SetTimeout d s in
  Timeout s' = t ∧ MinTimeout ≤ t ≤ MaxTimeout ∧
  (MinTimeout ≤ d ≤ MaxTimeout → t = d) ∧ (d = 0 → t = DefaultTimeout).
Proof.
  unfold SetTimeout. assert (MinTimeout = 10000000000 ∧ MaxTimeout = 600000000000 ∧ DefaultTimeout = 60000000000)
    as (-> & -> & ->) by done.
  destruct (Z.eqb_spec d 0) as [->|]; [simpl; split_and!; try done; lia|].
  destruct (Z.ltb_spec d 10000000000); [simpl; split_and!; try done; lia|].
  destruct (Z.ltb_spec 600000000000 d); simpl; split_and!; try done; lia.
Qed.

(** ** A concrete run: a controller dials with nobody watching, the owner
    approves a minute later, and its next dial collects the approval. *)

Definition ask_once : queue_run :=
  let q := QueueRun (New false) [] [] [] [] in
  match AskPairNonBlocking 0 "fpA" "laptop" "alice" (q_s q) with
  | (r, _, s) => ask_history 0 "fpA" r (q_s q) s q
  end.
Definition approved_once : queue_run :=
  match DecidePair minute "fpA" true (q_s ask_once) with
  | (ok, s) => decide_history minute "fpA" (ok && true) s ask_once
  end.
Definition collected_once : queue_run :=
  match AskPair (2 * minute) "fpA" "laptop" "alice" (q_s approved_once) with
  | (r, _, s) => ask_history (2 * minute) "fpA" r (q_s approved_once) s approved_once
  end.

Lemma ask_once_reachable : queue_reachable ask_once.
Proof.
  unfold ask_once. destruct (AskPairNonBlocking _ _ _ _ _) as [[r rep] s] eqn:E.
  eapply reachable_step; [apply reachable_init; by exists false|].
  exists (EvAsk 0 "fpA" "laptop" "alice" false). by eapply run_ask.
Qed.

Lemma collected_once_reachable : queue_reachable collected_once.
Proof.
  unfold collected_once. destruct (AskPair _ _ _ _ _) as [[r rep] s] eqn:E.
  apply (reachable_step _ _ approved_once);
    [|exists (EvAsk (2 * minute) "fpA" "laptop" "alice" true); by eapply run_ask].
  unfold approved_once. destruct (DecidePair _ _ _ _) as [ok s1] eqn:D.
  apply (reachable_step _ _ ask_once); [apply ask_once_reachable|].
  exists (EvDecide minute "fpA" true). by eapply run_decide.
Qed.

Lemma pairing_needs_owner_witness :
  q_collected collected_once = [("fpA"%string, 0%nat, 2 * minute)] ∧
  ∃ t, ("fpA"%string, 0%nat, t) ∈ q_approved collected_once ∧ 2 * minute ≤ t + pairTTL.
Proof.
  assert (q_collected collected_once = [("fpA"%string, 0%nat, 2 * minute)]) as E by (vm_compute; reflexivity).
  split; [exact E|]. apply (pairing_needs_owner collected_once collected_once_reachable). rewrite E. left.
Defined.

Lemma flood_keeps_waiting_witness :
  match askPair minute "fpB" "" "" true (q_s ask_once) with
  | (_, _, s') => pairs s' !! "fpA"%string = Some 0%nat
  end.
Proof.
  destruct (askPair minute "fpB" "" "" true (q_s ask_once)) as [[r rep] s'] eqn:E.
  apply (flood_keeps_waiting ask_once minute "fpA" "fpB" 0 "" "" true r rep s' ask_once_reachable); [discriminate| | |exact E];
    vm_compute; reflexivity.
Defined.
