(* ===== verification/Gate.v ===== *)
(** [internal/agent/agent.go] and [internal/agent/delegation.go]: what a device
    decides about a session and about each request in it.

    The shell parser is the parameter of [Policy]; [EvalSymlinks] is the
    parameter [physical]; what the relay answers when the device asks it about
    a delegation, and what happens to the console while a dial waits for its
    owner, are arguments, because they belong to the rest of the system. *)

From S2P Require Import Prelude GoStrings GoUtf8 GoPath Script Policy Session Trust Approvals Console.

Local Open Scope Z_scope.

Section gate.
Context (parse : string → option (list stmt)).
Context (physical : string → option string).
Context {A : Type} `{Approver A}.

(** The parts of an [Agent] that decide. [elevator] is whether the device has an
    elevation channel that is switched on. *)
Record agent := Agent {
  a_engine : engine; a_disk : disk; a_known : store; a_grants : lateGrants; a_appr : A;
  a_console : service; a_admins : list string; a_elevator : bool; a_AutoYes : bool;
  a_DeviceID : string; a_android : bool }.

Definition set_engine (ed : engine * disk) (a : agent) : agent :=
  Agent ed.1 ed.2 (a_known a) (a_grants a) (a_appr a) (a_console a) (a_admins a) (a_elevator a) (a_AutoYes a) (a_DeviceID a) (a_android a).
Definition set_grants (g : lateGrants) (a : agent) : agent :=
  Agent (a_engine a) (a_disk a) (a_known a) g (a_appr a) (a_console a) (a_admins a) (a_elevator a) (a_AutoYes a) (a_DeviceID a) (a_android a).
Definition set_appr (x : A) (a : agent) : agent :=
  Agent (a_engine a) (a_disk a) (a_known a) (a_grants a) x (a_console a) (a_admins a) (a_elevator a) (a_AutoYes a) (a_DeviceID a) (a_android a).
Definition set_known (k : store) (a : agent) : agent :=
  Agent (a_engine a) (a_disk a) k (a_grants a) (a_appr a) (a_console a) (a_admins a) (a_elevator a) (a_AutoYes a) (a_DeviceID a) (a_android a).
Definition set_console (s : service) (a : agent) : agent :=
  Agent (a_engine a) (a_disk a) (a_known a) (a_grants a) (a_appr a) s (a_admins a) (a_elevator a) (a_AutoYes a) (a_DeviceID a) (a_android a).

(** ** One request *)

Definition elevationEnabled (a : agent) : bool := a_elevator a.

Definition canonicalApprovalDir (d : string) : string :=
  if negb (is_abs d) then ""
  else match physical d with
       | None => ""
       | Some p =>
           match physical (clean d) with
           | None => ""
           | Some l => if String.eqb (clean p) (clean l) then clean p else ""
           end
       end.

(** A nil check passes; [checks] are the outcomes of the others. *)
Definition checksPass (checks : list bool) : bool := forallb (λ b, b) checks.

Definition with_cwd (d : string) (r : request) : request :=
  Request (req_kind r) (req_cmd r) (req_path r) d (req_peer r) (req_via r).

(** The audit word of a decision. *)
Inductive verdict :=
| Bypass | PreApproved | LateApproved | DelegationInactive | Denied | Remembered (sc : scope) | Approved.

Definition verdict_word (v : verdict) : string :=
  match v with
  | Bypass => "bypass" | PreApproved => "pre-approved" | LateApproved => "late-approved"
  | DelegationInactive => "delegation inactive" | Denied => "denied"
  | Remembered sc => ("remembered:" ++ scope_name sc)%string | Approved => "approved"
  end.

(** [useLateGrant]'s answer as a decision. *)
Definition late_verdict (ok : bool) : verdict := if ok then LateApproved else DelegationInactive.

(** The clock and the checks as the gate meets them: when it looks for a late
    grant, when it spends one, and after the owner answered. *)
Record gate_env := GateEnv {
  t_find : Z; t_take : Z; checks_find : list bool; t_ask : Z; checks_ask : list bool; t_rule : Z }.

Definition ask_owner (env : gate_env) (req ruleReq : request) (a : agent) : (bool * verdict) * agent :=
  let '(d, x) := ask (a_appr a) req in
  let a := set_appr x a in
  if negb (checksPass (checks_ask env)) then ((false, DelegationInactive), a)
  else if negb (d_allow d) then ((false, Denied), a)
  else if d_remember d then
    let '(e, (_, dk)) := Policy.Add (RuleFor ruleReq (d_scope d) (t_rule env)) (t_rule env) (a_engine a) (a_disk a) in
    ((true, Remembered (d_scope d)), set_engine (e, dk) a)
  else ((true, Approved), a).

Definition gate (env : gate_env) (req : request) (a : agent) : (bool * verdict) * agent :=
  if Bypasses (a_engine a) (req_kind req) (elevationEnabled a) then ((true, Bypass), a)
  else if Allowed parse (a_engine a) req then ((true, PreApproved), a)
  else
    let ruleReq := req in
    let req := if is_exec (req_kind req) then with_cwd (canonicalApprovalDir (req_cwd req)) req else req in
    let '(late, g) := useLateGrant (t_find env) (t_take env) req (checks_find env) (a_grants a) in
    let a := set_grants g a in
    match late with
    | Some (ok, _) => ((ok, late_verdict ok), a)
    | None => ask_owner env req ruleReq (set_grants (asked (t_ask env) req (a_grants a)) a)
    end.

Definition gateDataCapability (env : gate_env) (peerFP : string) (a : agent) : (bool * verdict) * agent :=
  gate env (Request KindLogs "" "" "" peerFP "") a.

(** [gateFile]: the third component is the root the file is opened under. *)
Definition gateFile (env : gate_env) (req : request) (a : agent) : (bool * verdict * string) * agent :=
  if String.eqb (e_mode (a_engine a)) ModeBypass then ((true, Bypass, ""%string), a)
  else match AllowedFileRoot parse (a_engine a) req with
  | Some root => ((true, PreApproved, root), a)
  | None =>
    let '(late, g) := useLateGrant (t_find env) (t_take env) req (checks_find env) (a_grants a) in
    let a := set_grants g a in
    match late with
    | Some (ok, _) => ((ok, late_verdict ok, if ok then dir (req_path req) else ""%string), a)
    | None =>
        let '((ok, v), a) := ask_owner env req req a in
        ((ok, v, if ok then match v with
                            | Remembered sc => r_pattern (RuleFor req sc (t_rule env))
                            | _ => dir (req_path req)
                            end else ""%string), a)
    end
  end.

(** A file request in the session loop: the checks once more after the gate. *)
Definition file_request (env : gate_env) (write : bool) (path fp : string) (checks_after : list bool) (a : agent)
  : (bool * verdict * string) * agent :=
  let '((ok, v, root), a) := gateFile env (Request (if write then KindWrite else KindRead) "" path "" fp "") a in
  if ok && negb (checksPass checks_after) then ((false, DelegationInactive, root), a) else ((ok, v, root), a).

(** [server.IsDesktopCapture] and the kind an execution is gated as. *)
Definition screenshotVerb : string := "screenshot".
Definition IsDesktopCapture (a : agent) (command : string) : bool :=
  String.eqb (trim_space command) screenshotVerb && negb (a_android a).

Definition exec_kind (a : agent) (elevate : bool) (command : string) : kind :=
  if elevate && negb (IsDesktopCapture a command) then KindExecElevated else KindExec.

(** [elevate.ParseKind] *)
Definition ParseKind (s : string) : option string :=
  let k := trim_space (to_lower s) in
  if String.eqb k "su" || String.eqb k "adb" then Some k else None.

(** The part of [doExecAuthorized] that decides: [None] is a request refused
    before anyone is asked. *)
Definition doExecAuthorized (env : gate_env) (fp command cwd via : string) (elevate : bool) (checks_after : list bool)
    (a : agent) : option (bool * verdict) * agent :=
  let k := exec_kind a elevate command in
  let parsed := if elevate && negb (String.eqb via "") then ParseKind via else Some ""%string in
  match parsed with
  | None => (None, a)
  | Some v =>
      let '((ok, d), a) := gate env (Request k command "" cwd fp v) a in
      if ok && negb (checksPass checks_after) then (Some (false, DelegationInactive), a) else (Some (ok, d), a)
  end.

(** ** One session *)

Inductive hello_kind := Hello | ConsoleHello | WorkspaceHello | OtherHello.

(** The characters [peerText] leaves: [strings.ToValidUTF8], [strings.Map] and
    [strings.TrimSpace] on the controller's own text. *)
Fixpoint valid_utf8_fuel (fuel : nat) (s : string) : string :=
  match fuel with
  | O => ""
  | S fuel =>
      match s with
      | EmptyString => ""
      | _ => let '(r, n) := decode_rune s in
             if (r =? rune_error) && (n =? 1)%nat then valid_utf8_fuel fuel (sdrop n s)
             else (stake n s ++ valid_utf8_fuel fuel (sdrop n s))%string
      end
  end.

Definition is_control (r : Z) : bool := (r <? 32) || ((127 <=? r) && (r <? 160)).

Fixpoint map_control_fuel (fuel : nat) (s : string) : string :=
  match fuel with
  | O => ""
  | S fuel =>
      match s with
      | EmptyString => ""
      | _ => let '(r, n) := decode_rune s in
             let rest := map_control_fuel fuel (sdrop n s) in
             if (r =? 10) || (r =? 13) || (r =? 9) then String " " rest
             else if is_control r then rest
             else (stake n s ++ rest)%string
      end
  end.

Definition peerText (s : string) : string :=
  let s := valid_utf8_fuel (slen s) s in
  trim_space (map_control_fuel (slen s) s).

(** Why a session is refused; [PairingURL] carries whether a link is offered. *)
Inductive refusal :=
| NotHello | BadSession | BadDelegation | NoConsoleCapability | NotConsoleAdmin | Unlabeled
| PairingFull | Unpaired | NoWorkspace.

Inductive session_outcome := Refused (r : refusal) | Accepted | AcceptedConsole | AcceptedWorkspace.

Definition unlabeledPairing (fp label : string) (a : agent) : bool * agent :=
  let '(known, k) := Trust.Has fp (a_known a) in
  (negb known && negb (a_AutoYes a) && String.eqb (trim_space label) "", set_known k a).

Definition mustIdentify (h : hello_kind) (fp label : string) (a : agent) : bool * agent :=
  match h with ConsoleHello => (false, a) | _ => unlabeledPairing fp label a end.

(** What happens while a dial waits on an object of the console: the console
    as it finds it when it stops waiting, and whether it timed out. *)
Definition wait_env := nat → service → service * bool.

Definition paired_answer (wait : wait_env) (fp : string) (r : ask_result) (s : service)
  : result unit bool * service :=
  match r with
  | Answer t => (Ok t, s)
  | TooManyPairings => (Err tt, s)
  | Waiting i =>
      let '(s, timed_out) := wait i s in
      if timed_out then (Ok false, s)
      else match askPair_wake fp i s with
           | Some (t, s) => (Ok t, s)
           | None => (Ok false, s)
           end
  end.

(** [authorize]: [Err] when the request could not be put to the owner. *)
Definition authorize (now : Z) (wait : wait_env) (fp name label : string) (delegated : bool) (a : agent)
  : result unit bool * agent :=
  let '(known, k) := Trust.Has fp (a_known a) in
  let a := set_known k a in
  if known then (Ok true, set_known (Touch now fp (a_known a)) a)
  else if a_AutoYes a then (Ok true, set_known (AddLabeled now fp name label (a_known a)) a)
  else
    let '(r, _, s) := if delegated then AskPairNonBlocking now fp name label (a_console a)
                      else AskPair now fp name label (a_console a) in
    let '(paired, s) := paired_answer wait fp r s in
    let a := set_console s a in
    match paired with
    | Ok true => (Ok true, set_known (AddLabeled now fp name label (a_known a)) a)
    | r => (r, a)
    end.

Definition auth_empty (s : string) : bool := String.eqb s "".

(** [delegationActive]: [relay_ok] is the relay's answer, [live] whether the
    session's context has not ended. *)
Definition delegationActive (now : Z) (live relay_ok : bool) (auth : Auth.session_open) (fp : string) (a : agent) : bool :=
  if auth_empty (Auth.GrantID auth) then true
  else if negb live || negb (Auth.ValidFor now auth (a_DeviceID a)) || negb (Auth.ControllerOK auth fp) then false
  else relay_ok && live && (now <? Auth.ExpiresAt auth).

Definition workspaceSessionActive (now : Z) (live relay_ok : bool) (auth : Auth.session_open) (fp : string) (a : agent)
  : bool * agent :=
  if negb live || negb (auth_empty (Auth.GrantID auth)) || negb (Auth.ValidFor now auth (a_DeviceID a)) then (false, a)
  else let '(known, k) := Trust.Has fp (a_known a) in
       (known && relay_ok, set_known k a).

(** [handleSession] after the handshake identified [fp]. *)
Definition handleSession (now : Z) (wait : wait_env) (live relay_ok workspace_ok : bool)
    (auth : Auth.session_open) (h : hello_kind) (fp name label : string) (a : agent) : session_outcome * agent :=
  match h with
  | OtherHello => (Refused NotHello, a)
  | _ =>
    let name := peerText name in
    let label := peerText label in
    if negb (Auth.ValidFor now auth (a_DeviceID a)) then (Refused BadSession, a)
    else if negb (auth_empty (Auth.GrantID auth))
            && (negb (Auth.ControllerOK auth fp) || negb (delegationActive now live relay_ok auth fp a))
    then (Refused BadDelegation, a)
    else if (match h with ConsoleHello => true | _ => false end) && negb (Auth.Has (Auth.Capabilities auth) Auth.Console)
    then (Refused NoConsoleCapability, a)
    else if (match h with ConsoleHello => true | _ => false end) && negb (any (String.eqb fp) (a_admins a))
    then (Refused NotConsoleAdmin, a)
    else
      let '(must, a) := mustIdentify h fp label a in
      if must then (Refused Unlabeled, a)
      else
        let '(trusted, a) := authorize now wait fp name label (negb (auth_empty (Auth.GrantID auth))) a in
        match trusted with
        | Err _ => (Refused PairingFull, a)
        | Ok false => (Refused Unpaired, a)
        | Ok true =>
            match h with
            | WorkspaceHello =>
                let '(ok, a) := workspaceSessionActive now live workspace_ok auth fp a in
                if ok then (AcceptedWorkspace, a) else (Refused NoWorkspace, a)
            | ConsoleHello => (AcceptedConsole, a)
            | _ => (Accepted, a)
            end
        end
  end.

(** ** The requests of a session *)

Inductive message_kind :=
| MExec | MExecAsync | MExecPoll | MDesktop | MFileGet | MFileRead | MFilePut | MFileEdit | MFileWrite
| MLogs | MStatus | MCancel | MWorkspace | MOther (k : string).

(** The fields of [protocol.Message] a request is decided on; [m_rest] is whether
    any other field is not its zero value. *)
Record message := Message {
  m_Kind : message_kind; m_Command : string; m_OneShot : bool; m_Cwd : string; m_Elevate : bool; m_Via : string;
  m_SpillAfter : Z; m_Path : string; m_Action : string; m_rest : bool }.

Definition requiredCapability (k : message_kind) : Z :=
  match k with
  | MExec | MExecAsync | MExecPoll | MDesktop => Auth.Exec
  | MFileGet | MFileRead => Auth.Read
  | MFilePut | MFileEdit | MFileWrite => Auth.Write
  | MLogs => Auth.Logs
  | _ => 0
  end.

#[export] Instance message_kind_eq_dec : EqDecision message_kind.
Proof. solve_decision. Defined.
#[export] Instance message_eq_dec : EqDecision message.
Proof. solve_decision. Defined.

Definition scopedRequestAllowed (m : message) (command : string) : bool :=
  if bool_decide (m_Kind m = MCancel)
  then bool_decide (m = Message MCancel "" false "" false "" 0 "" "" false)
  else if m_SpillAfter m <? 0 then false
  else bool_decide (m = Message MExec command true "" false "" (m_SpillAfter m) "" "" false).

(** What the loop of [serveAuthorized] does with one request; [Reject] keeps the
    session, [Stop] ends it. *)
Inductive action :=
| Stop | Reject | RejectCapability (c : Z) | WorkspaceFail | Workspace | Desktop | Exec | Ignore | ExecAsync | ExecPoll | ReadLogs
| Status | FileRequest (write : bool) (path : string) | Unknown.

(** The first part of [handleWorkspace], up to where it hands a file request
    back to the loop ([inr]) or carries the action out itself ([inl]).
    [resolved] is where the session's workspace puts the path, when there is
    such a workspace and it accepts the path. *)
Definition file_action (a : string) : option message_kind :=
  if String.eqb a "file_read" then Some MFileRead
  else if String.eqb a "file_edit" then Some MFileEdit
  else if String.eqb a "file_write" then Some MFileWrite
  else None.

Definition handleWorkspace (m : message) (caps : Z) (resolved : option string) : action + message :=
  let required := match file_action (m_Action m) with Some k => requiredCapability k | None => Auth.Exec end in
  let required := if String.eqb (m_Action m) "open" then Z.lor required Auth.Read else required in
  if negb (Auth.Has caps required) then inl WorkspaceFail
  else match file_action (m_Action m) with
       | None => inl Workspace
       | Some k =>
           match resolved with
           | None => inl WorkspaceFail
           | Some p => inr (Message k (m_Command m) (m_OneShot m) (m_Cwd m) (m_Elevate m) (m_Via m) (m_SpillAfter m) p
                              (m_Action m) (m_rest m))
           end
       end.

(** The capability check and the switch over the kind. *)
Definition serve_kind (m : message) (caps : Z) : action :=
  let required := requiredCapability (m_Kind m) in
  if negb (required =? 0) && negb (Auth.Has caps required) then RejectCapability required
  else match m_Kind m with
       | MDesktop => Desktop
       | MExec => Exec
       | MCancel => Ignore
       | MExecAsync => ExecAsync
       | MExecPoll => ExecPoll
       | MLogs => ReadLogs
       | MStatus => Status
       | MFilePut | MFileEdit | MFileWrite => FileRequest true (m_Path m)
       | MFileGet | MFileRead => FileRequest false (m_Path m)
       | MWorkspace | MOther _ => Unknown
       end.

(** [check] is the outcome of the delegation check of a delegated session,
    [workspaceCheck] that of a workspace session, [execOnly] the command of a
    scoped one. *)
Definition serveAuthorized (m : message) (caps : Z) (check workspaceCheck : option bool) (execOnly : string)
    (resolved : option string) : action :=
  if match workspaceCheck with
     | Some ok => negb (bool_decide (m_Kind m = MWorkspace)) || negb ok
     | None => false end then Stop
  else if match check with Some ok => negb ok | None => false end then Stop
  else if negb (String.eqb execOnly "") && negb (scopedRequestAllowed m execOnly) then Reject
  else if match check with Some _ => true | None => false end &&
          (match m_Kind m with
           | MWorkspace | MExecAsync | MExecPoll => true
           | MExec => negb (m_OneShot m)
           | _ => false end) then Reject
  else if bool_decide (m_Kind m = MWorkspace)
  then match handleWorkspace m caps resolved with inl act => act | inr m => serve_kind m caps end
  else serve_kind m caps.

(** ** Odds and ends *)

Definition awaitingOwner (now : Z) (a : agent) : bool :=
  let '(approvals, pairings, _) := State now (a_console a) in
  (0 <? length approvals)%nat || (0 <? length pairings)%nat.

Definition isPowerShell (shell : string) : bool :=
  let s := to_lower shell in contains s "powershell" || contains s "pwsh".

(** ** What the gate guarantees *)

Lemma useLateGrant_spec now now' req checks g r g' :
  useLateGrant now now' req checks g = (r, g') →
  match r with
  | None => True
  | Some (ok, _) =>
      ∃ x g1, find now req g = (Some x, g1) ∧ ok = checksPass checks ∧
        (ok = true → ∀ y, y ∈ grants g' → lg_id y ≠ lg_id x)
  end.
Proof.
  unfold useLateGrant. destruct (find now req g) as [[x|] g1] eqn:F; [|by intros [= <- <-]].
  destruct (forallb _ checks) eqn:C; cbn [negb].
  - destruct (take_grant now' x g1) as [[|] g2] eqn:T; intros [= <- <-]; [|done].
    exists x, g1. split; [done|]. split; [done|]. intros _. apply take_state in T. apply T.
  - intros [= <- <-]. exists x, g1. split; [done|]. split; [by unfold checksPass; rewrite C|done].
Qed.

(** What the owner's answer allows. *)
Definition owner_allows (env : gate_env) (req : request) (a : agent) (v : verdict) : Prop :=
  ∃ d x, ask (a_appr a) req = (d, x) ∧ d_allow d = true ∧ checksPass (checks_ask env) = true ∧
    v = if d_remember d then Remembered (d_scope d) else Approved.

Lemma ask_owner_spec env req ruleReq a ok v a' :
  ask_owner env req ruleReq a = ((ok, v), a') →
  (ok = true → owner_allows env req a v) ∧
  (ok = false → (v = Denied ∨ v = DelegationInactive) ∧ rules (a_engine a') = rules (a_engine a)) ∧
  (ok = true → rules (a_engine a') = rules (a_engine a) ++
     match v with Remembered sc => [RuleFor ruleReq sc (t_rule env)] | _ => [] end ∨
     ∃ sc, v = Remembered sc ∧ r_added (RuleFor ruleReq sc (t_rule env)) = 0).
Proof.
  unfold ask_owner, owner_allows. destruct (ask (a_appr a) req) as [d x] eqn:E.
  destruct (checksPass (checks_ask env)) eqn:C; cbn [negb].
  2: { intros [= <- <- <-]. split; [done|]. split; [auto|done]. }
  destruct (d_allow d) eqn:Al; cbn [negb].
  2: { intros [= <- <- <-]. split; [done|]. split; [auto|done]. }
  destruct (d_remember d) eqn:Rm.
  - destruct (Policy.Add _ _ _ _) as [e [r dk]] eqn:P. intros [= <- <- <-].
    split; [intros _; exists d, x; by rewrite Rm|]. split; [done|]. intros _.
    unfold Policy.Add in P. injection P as <- _. cbn. unfold is_zero.
    destruct (Z.eqb_spec (r_added (RuleFor ruleReq (d_scope d) (t_rule env))) 0); [right; eauto|by left].
  - intros [= <- <- <-]. split; [intros _; exists d, x; by rewrite Rm|]. split; [done|]. intros _. left.
    cbn. by rewrite app_nil_r.
Qed.

(** The request as the approver and the late grants see it. *)
Definition asked_request (req : request) : request :=
  if is_exec (req_kind req) then with_cwd (canonicalApprovalDir (req_cwd req)) req else req.

(** C1: nothing runs that the device was not told to run.  A request passes the
    gate only on bypass mode (and for an elevated command only where the
    elevation channel is switched on as well), on a rule that matches it, on a
    late approval that matches it and is spent by it, or on the owner's yes;
    the last two only while the delegation that carries it still holds.  A
    refusal adds no rule. *)
Theorem gate_justified env req a ok v a' :
  gate env req a = ((ok, v), a') →
  (ok = true →
    (v = Bypass ∧ e_mode (a_engine a) = ModeBypass ∧ (req_kind req = KindExecElevated → a_elevator a = true)) ∨
    (v = PreApproved ∧ Allowed parse (a_engine a) req = true) ∨
    (v = LateApproved ∧ checksPass (checks_find env) = true ∧
       ∃ x g, find (t_find env) (asked_request req) (a_grants a) = (Some x, g) ∧
         ∀ y, y ∈ grants (a_grants a') → lg_id y ≠ lg_id x) ∨
    owner_allows env (asked_request req) a v) ∧
  (ok = false → (v = Denied ∨ v = DelegationInactive) ∧ rules (a_engine a') = rules (a_engine a)).
Proof.
  unfold gate. destruct (Bypasses _ _ _) eqn:B.
  { intros [= <- <- <-]. split; [|done]. intros _. left. apply Bypasses_true in B. tauto. }
  destruct (Allowed _ _ _) eqn:Al; [intros [= <- <- <-]; split; [auto|done]|].
  fold (asked_request req). cbv zeta.
  destruct (useLateGrant _ _ _ _ _) as [[[ok0 w]|] g] eqn:U; apply useLateGrant_spec in U.
  - intros [= <- <- <-]. destruct U as (x & g1 & F & -> & N). split; intros E; rewrite E in *.
    + right. right. left. split; [done|]. split; [done|]. exists x, g1. split; [done|]. by apply N.
    + split; [by right|done].
  - intros H1. apply ask_owner_spec in H1 as (Y & N & _). split; [|exact N].
    intros E. right. right. right. exact (Y E).
Qed.

(** A file is opened only under a root that covers what was allowed: the
    whole device on bypass mode, the directory of the rule that matched, the
    remembered directory, or the file's own directory for a single approval. *)
Lemma gateFile_root env req a ok v root a' :
  (req_kind req = KindRead ∨ req_kind req = KindWrite) →
  gateFile env req a = ((ok, v, root), a') → ok = true →
  match v with
  | Bypass => e_mode (a_engine a) = ModeBypass ∧ root = ""%string
  | PreApproved => ∃ r, r ∈ rules (a_engine a) ∧ root = r_pattern r ∧ Within root (req_path req) = true ∧
                     (req_kind req = KindWrite → r_kind r = KindWrite)
  | LateApproved | Approved => root = dir (req_path req)
  | Remembered sc => root = if bool_decide (sc = ScopeDir) then dir (req_path req) else ""%string
  | Denied | DelegationInactive => False
  end.
Proof.
  intros K. unfold gateFile. destruct (String.eqb_spec (e_mode (a_engine a)) ModeBypass) as [M|M].
  { intros [= <- <- <- <-]. done. }
  destruct (AllowedFileRoot parse (a_engine a) req) as [r0|] eqn:AF.
  { intros [= <- <- <- <-] _. unfold AllowedFileRoot in AF.
    destruct K as [K|K]; rewrite K in AF; destruct (find_first _ _) as [r|] eqn:F; try done; injection AF as <-;
      apply find_first_Some in F as [Hr Hm]; exists r; unfold ruleMatchesShell in Hm; rewrite K in Hm; bsplit;
      split_and!; try done; intros; congruence. }
  destruct (useLateGrant _ _ _ _ _) as [[[ok0 w]|] g] eqn:U; apply useLateGrant_spec in U.
  - intros [= <- <- <- <-] ->. done.
  - destruct (ask_owner _ _ _ _) as [[ok0 v0] a0] eqn:AO. intros [= <- <- <- <-] ->.
    apply ask_owner_spec in AO as (Y & _ & _). destruct (Y eq_refl) as (d & x & _ & _ & _ & ->).
    destruct (d_remember d); [|done]. unfold RuleFor. destruct K as [-> | ->]; by case_bool_decide.
Qed.

(** The device trusts [fp] already. *)
Definition known_controller (a : agent) (fp : string) : bool := (Trust.Has fp (a_known a)).1.

Lemma Has_again fp s : (Trust.Has fp (Trust.Has fp s).2).1 = (Trust.Has fp s).1.
Proof. unfold Trust.Has, Get. simpl. destruct (persistent s) eqn:P; simpl; by rewrite ?P. Qed.

(** The owner's queue answers yes for [fp]. *)
Definition owner_paired (now : Z) (wait : wait_env) (fp name label : string) (delegated : bool) (a : agent) : Prop :=
  ∃ r report s s', askPair now fp name label (negb delegated) (a_console a) = (r, report, s) ∧
    paired_answer wait fp r s = (Ok true, s').

Lemma authorize_spec now wait fp name label delegated a r a' :
  authorize now wait fp name label delegated a = (r, a') →
  (r = Ok true → known_controller a fp = true ∨ a_AutoYes a = true ∨ owner_paired now wait fp name label delegated a) ∧
  (r ≠ Ok true → known_controller a fp = false ∧ a_AutoYes a = false) ∧
  a_DeviceID a' = a_DeviceID a.
Proof.
  unfold authorize, known_controller, owner_paired. destruct (Trust.Has fp (a_known a)) as [known k]. simpl.
  destruct known; [intros [= <- <-]; split_and!; by auto|].
  destruct (a_AutoYes a) eqn:AY; [intros [= <- <-]; split_and!; by auto|].
  destruct (if delegated then _ else _) as [[r0 rep] s] eqn:AP.
  assert (askPair now fp name label (negb delegated) (a_console a) = (r0, rep, s)) as AP' by (by destruct delegated).
  destruct (paired_answer wait fp r0 s) as [[[|]|] s1] eqn:PA; intros [= <- <-]; simpl; split_and!; try done.
  intros _. right. right. eauto 10.
Qed.

Lemma mustIdentify_spec h fp label a must a' :
  mustIdentify h fp label a = (must, a') →
  (must = false → h = ConsoleHello ∨ known_controller a fp = true ∨ a_AutoYes a = true ∨ trim_space label ≠ ""%string) ∧
  known_controller a' fp = known_controller a fp ∧ a_AutoYes a' = a_AutoYes a ∧ a_DeviceID a' = a_DeviceID a ∧
  a_console a' = a_console a.
Proof.
  unfold mustIdentify, unlabeledPairing, known_controller. pose proof (Has_again fp (a_known a)) as HA.
  destruct (Trust.Has fp (a_known a)) as [kn k] eqn:HE. cbn [fst snd] in HA.
  assert (∀ m a1, (negb kn && negb (a_AutoYes a) && (trim_space label =? "")%string, set_known k a) = (m, a1) →
    (m = false → h = ConsoleHello ∨ kn = true ∨ a_AutoYes a = true ∨ trim_space label ≠ ""%string) ∧
    (Trust.Has fp (a_known a1)).1 = kn ∧ a_AutoYes a1 = a_AutoYes a ∧ a_DeviceID a1 = a_DeviceID a ∧ a_console a1 = a_console a) as X.
  { intros m a1 [= <- <-]. cbn [a_known set_known a_AutoYes a_DeviceID a_console]. split_and!; try done.
    intros E. apply andb_false_iff in E as [E|E]; [apply andb_false_iff in E as [E|E]|]; bsplit; auto.
    apply String.eqb_neq in E. auto. }
  destruct h; try apply X. intros [= <- <-]. split_and!; rewrite ?HE; auto.
Qed.

(** C2: who gets a session.  The device serves a session only when the relay
    opened it for this device and it is still valid; a delegated one only to
    the controller the grant names, while the relay confirms it; a console one
    only with the console capability and only to the device's own portal.
    Every controller but the portal's is known already or says who it is, and
    each is served only if the device trusts it, trusts everyone, or its
    owner's queue answered yes to it. *)
Theorem session_admission now wait live relay_ok ws_ok auth h fp name label a out a' :
  handleSession now wait live relay_ok ws_ok auth h fp name label a = (out, a') →
  (∀ r, out ≠ Refused r) →
  Auth.ValidFor now auth (a_DeviceID a) = true ∧
  (Auth.GrantID auth ≠ ""%string →
     Auth.ControllerOK auth fp = true ∧ relay_ok = true ∧ live = true ∧ now < Auth.ExpiresAt auth) ∧
  (h = ConsoleHello → Auth.Has (Auth.Capabilities auth) Auth.Console = true ∧ fp ∈ a_admins a) ∧
  (out = AcceptedConsole → h = ConsoleHello) ∧
  (out = AcceptedWorkspace → h = WorkspaceHello ∧ Auth.GrantID auth = ""%string ∧ ws_ok = true) ∧
  (h = ConsoleHello ∨ known_controller a fp = true ∨ a_AutoYes a = true ∨ trim_space (peerText label) ≠ ""%string) ∧
  (known_controller a fp = true ∨ a_AutoYes a = true ∨
   owner_paired now wait fp (peerText name) (peerText label) (negb (auth_empty (Auth.GrantID auth))) a).
Proof.
  intros HS NR. unfold handleSession in HS.
  assert (h ≠ OtherHello) as NO by (intros ->; injection HS as <- _; by apply (NR NotHello)).
  destruct (negb (Auth.ValidFor _ _ _)) eqn:V; [destruct h; injection HS as <- _; by edestruct NR|].
  destruct (negb (auth_empty (Auth.GrantID auth)) && _) eqn:G; [destruct h; injection HS as <- _; by edestruct NR|].
  destruct ((match h with ConsoleHello => true | _ => false end) && negb (Auth.Has _ _)) eqn:C1;
    [destruct h; injection HS as <- _; by edestruct NR|].
  destruct ((match h with ConsoleHello => true | _ => false end) && negb (any _ _)) eqn:C2;
    [destruct h; injection HS as <- _; by edestruct NR|].
  apply negb_false_iff in V. split; [done|].
  assert (Auth.GrantID auth ≠ ""%string →
     Auth.ControllerOK auth fp = true ∧ relay_ok = true ∧ live = true ∧ now < Auth.ExpiresAt auth) as G'.
  { intros N. unfold auth_empty, delegationActive in G. unfold auth_empty in G.
    rewrite (proj2 (String.eqb_neq _ _) N), V in G. simpl in G.
    destruct (Auth.ControllerOK auth fp); [|done]. destruct live; [|done]. simpl in G. bsplit. done. }
  split; [done|]. split.
  { intros ->. simpl in C1, C2. bsplit. split; [done|]. apply any_true in C2 as (x & Hx & E). by apply String.eqb_eq in E as ->. }
  destruct (mustIdentify h fp (peerText label) a) as [must a1] eqn:MI.
  destruct (mustIdentify_spec _ _ _ _ _ _ MI) as (M & K1 & Y1 & D1 & Co).
  destruct must; [destruct h; injection HS as <- _; by edestruct NR|].
  destruct (authorize _ _ _ _ _ _ a1) as [r a2] eqn:AU.
  destruct (authorize_spec _ _ _ _ _ _ _ _ _ AU) as (AS & _ & D2).
  assert (r = Ok true) as ->.
  { destruct r as [[|]|]; [done| |]; destruct h; injection HS as <- _; by edestruct NR. }
  rewrite K1, Y1 in AS. unfold owner_paired in *. rewrite Co in AS. specialize (AS eq_refl). specialize (M eq_refl).
  destruct h; try done.
  - injection HS as <- <-. split_and!; try done.
  - injection HS as <- <-. split_and!; try done.
  - destruct (workspaceSessionActive _ _ _ _ _ a2) as [ok a3] eqn:W. destruct ok; injection HS as <- <-; [|by edestruct NR].
    split_and!; try done. intros _. split; [done|]. unfold workspaceSessionActive in W.
    destruct (negb live || _ || _) eqn:E; [done|]. destruct (Trust.Has fp (a_known a2)) as [kn k].
    injection W as Wk _. apply andb_true_iff in Wk as [_ Wk].
    apply orb_false_iff in E as [E _]. apply orb_false_iff in E as [_ E]. by apply negb_false_iff, String.eqb_eq in E.
Qed.

Lemma authorize_known now wait fp name label delegated a :
  known_controller a fp = true →
  (authorize now wait fp name label delegated a).1 = Ok true ∧
  a_console (authorize now wait fp name label delegated a).2 = a_console a.
Proof.
  unfold known_controller, authorize. destruct (Trust.Has fp (a_known a)) as [kn k]. simpl. by intros ->.
Qed.

Lemma mustIdentify_known h fp label a :
  known_controller a fp = true → ∃ a', mustIdentify h fp label a = (false, a') ∧
    known_controller a' fp = true ∧ a_console a' = a_console a.
Proof.
  intros K. destruct (mustIdentify h fp label a) as [must a'] eqn:M. exists a'.
  destruct (mustIdentify_spec _ _ _ _ _ _ M) as (_ & K' & _ & _ & Co). rewrite K', K, Co. split; [|done].
  unfold mustIdentify, unlabeledPairing in M. unfold known_controller in K. destruct (Trust.Has fp (a_known a)) as [kn k]. simpl in K. subst kn.
  simpl in M. destruct h; by injection M as <- _.
Qed.

(** C3: a controller the device trusts is not turned away, and its owner is not
    asked again.  With a session the relay opened for this device, and either
    no grant or one that names this controller and still holds, a trusted
    controller is served under any label; the portal gets the console with the
    console capability. *)
Theorem trusted_admitted now wait live relay_ok ws_ok auth h fp name label a :
  known_controller a fp = true → Auth.ValidFor now auth (a_DeviceID a) = true →
  (Auth.GrantID auth = ""%string ∨ Auth.ControllerOK auth fp = true ∧ live = true ∧ relay_ok = true ∧ now < Auth.ExpiresAt auth) →
  let '(out, a') := handleSession now wait live relay_ok ws_ok auth h fp name label a in
  (h = Hello → out = Accepted ∧ a_console a' = a_console a) ∧
  (h = ConsoleHello → Auth.Has (Auth.Capabilities auth) Auth.Console = true → fp ∈ a_admins a →
     out = AcceptedConsole ∧ a_console a' = a_console a).
Proof.
  intros K V G. unfold handleSession. rewrite V. cbn [negb].
  assert (negb (auth_empty (Auth.GrantID auth)) && (negb (Auth.ControllerOK auth fp) || negb (delegationActive now live relay_ok auth fp a)) = false) as ->.
  { unfold delegationActive, auth_empty. destruct (String.eqb_spec (Auth.GrantID auth) "") as [E|E]; [done|].
    destruct G as [?|(C & -> & -> & L)]; [done|]. rewrite C, V, (proj2 (Z.ltb_lt _ _) L). done. }
  destruct (mustIdentify_known h fp (peerText label) a K) as (a1 & M & K1 & Co).
  pose proof (authorize_known now wait fp (peerText name) (peerText label) (negb (auth_empty (Auth.GrantID auth))) a1 K1) as [AO AC].
  destruct (authorize _ _ _ _ _ _ a1) as [r a2] eqn:AU. simpl in AO, AC. subst r.
  destruct h.
  - cbn [andb]. rewrite M, AU. split; [intros _; split; [done|congruence]|done].
  - destruct (Auth.Has (Auth.Capabilities auth) Auth.Console) eqn:C1; cbn [andb negb]; [|by split].
    destruct (any (String.eqb fp) (a_admins a)) eqn:C2; cbn [negb]; [|split; [done|]].
    + rewrite M, AU. split; [done|]. intros _ _ _. split; [done|congruence].
    + intros _ _ Hin. rewrite any_false in C2. specialize (C2 fp Hin). by rewrite String.eqb_refl in C2.
  - cbn [andb]. rewrite M, AU. destruct (workspaceSessionActive _ _ _ _ _ _) as [[] a3]; by split.
  - by split.
Qed.

(** What the session must hold for the device to go on with an action. *)
Definition action_capability (act : action) : Z :=
  match act with
  | Workspace | Desktop | Exec | ExecAsync | ExecPoll => Auth.Exec
  | ReadLogs => Auth.Logs
  | FileRequest w _ => if w then Auth.Write else Auth.Read
  | _ => 0
  end.

Lemma Has_none caps : Auth.Has caps 0 = true.
Proof. unfold Auth.Has. by rewrite Z.land_0_r. Qed.

Lemma serve_kind_capability m caps act :
  serve_kind m caps = act → Auth.Has caps (action_capability act) = true.
Proof.
  intros <-. unfold serve_kind. destruct (negb (requiredCapability _ =? 0) && _) eqn:R; [apply Has_none|].
  apply andb_false_iff in R. destruct (m_Kind m); simpl in *; try apply Has_none; destruct R as [R|R]; try done; by apply negb_false_iff.
Qed.

Lemma Has_lor caps x y : Auth.Has caps (Z.lor x y) = true → Auth.Has caps x = true.
Proof.
  unfold Auth.Has. intros E%Z.eqb_eq. apply Z.eqb_eq. apply Z.bits_inj'. intros n Hn.
  apply (f_equal (λ z, Z.testbit z n)) in E. rewrite Z.land_spec, Z.lor_spec in E. rewrite Z.land_spec.
  by destruct (Z.testbit caps n), (Z.testbit x n), (Z.testbit y n).
Qed.

Lemma handleWorkspace_spec m caps resolved :
  match handleWorkspace m caps resolved with
  | inl act => act = WorkspaceFail ∨ act = Workspace ∧ Auth.Has caps Auth.Exec = true
  | inr m' => ∃ p, resolved = Some p ∧ m_Path m' = p ∧
      (m_Kind m' = MFileRead ∨ m_Kind m' = MFileEdit ∨ m_Kind m' = MFileWrite)
  end.
Proof.
  unfold handleWorkspace. destruct (negb _) eqn:C; [by left|]. apply negb_false_iff in C.
  destruct (file_action (m_Action m)) as [k|] eqn:F.
  - destruct resolved as [p|]; [|by left]. exists p. split_and!; [done|done|]. simpl. unfold file_action in F.
    repeat case_match; simplify_eq; auto.
  - right. split; [done|]. destruct (String.eqb _ _); [by apply Has_lor in C|done].
Qed.

(** C4: a session serves nothing beyond what it was opened for.  Whatever the
    loop goes on to do with a request, the session holds the capability for it;
    a delegated session runs no background job, polls none, opens no workspace
    and keeps no shell alive, and serves nothing once its delegation no longer
    holds; a workspace session serves workspace actions and the files the
    workspace resolves, while its access holds; a session approved for one
    command runs exactly that command, one shot, from the shell's own directory
    and without elevation, or takes a bare cancel. *)
Theorem serve_within_session m caps check workspaceCheck execOnly resolved act :
  serveAuthorized m caps check workspaceCheck execOnly resolved = act →
  act ≠ Stop → act ≠ Reject →
  Auth.Has caps (action_capability act) = true ∧
  (∀ ok, check = Some ok → ok = true ∧ act ≠ Workspace ∧ act ≠ ExecAsync ∧ act ≠ ExecPoll ∧
     (act = Exec → m_OneShot m = true)) ∧
  (∀ ok, workspaceCheck = Some ok → ok = true ∧
     (act = Workspace ∨ act = WorkspaceFail ∨ (∃ c, act = RejectCapability c) ∨
      ∃ w p, act = FileRequest w p ∧ resolved = Some p)) ∧
  (execOnly ≠ ""%string →
     act = Ignore ∨ act = RejectCapability Auth.Exec ∨
     act = Exec ∧ m_Command m = execOnly ∧ m_OneShot m = true ∧ m_Cwd m = ""%string ∧
        m_Elevate m = false ∧ m_Via m = ""%string ∧ 0 <= m_SpillAfter m).
Proof.
  intros E NS NR. unfold serveAuthorized in E.
  destruct (match workspaceCheck with Some _ => _ | None => _ end) eqn:W; [congruence|].
  destruct (match check with Some ok => negb ok | None => _ end) eqn:C; [congruence|].
  destruct (negb (String.eqb execOnly "") && _) eqn:X; [congruence|].
  destruct (match check with Some _ => true | None => false end && _) eqn:D; [congruence|].
  assert (∀ ok, workspaceCheck = Some ok → ok = true ∧ m_Kind m = MWorkspace) as W'.
  { intros ok ->. by bsplit. }
  assert (execOnly ≠ ""%string → m_Kind m = MCancel ∨ m_Kind m = MExec ∧ m_Command m = execOnly ∧ m_OneShot m = true ∧
     m_Cwd m = ""%string ∧ m_Elevate m = false ∧ m_Via m = ""%string ∧ 0 <= m_SpillAfter m) as X'.
  { intros N. rewrite (proj2 (String.eqb_neq _ _) N) in X. simpl in X. apply negb_false_iff in X. unfold scopedRequestAllowed in X.
    destruct (decide (m_Kind m = MCancel)) as [Q|Q]; [by left|right]. rewrite bool_decide_eq_false_2 in X by done.
    destruct (Z.ltb_spec (m_SpillAfter m) 0); [done|].
    apply bool_decide_eq_true in X. destruct m; simpl in *. by injection X as -> -> -> -> -> -> -> -> ->. }
  assert (∀ ok, check = Some ok → ok = true ∧
    match m_Kind m with MWorkspace | MExecAsync | MExecPoll => False | MExec => m_OneShot m = true | _ => True end) as C'.
  { intros ok ->. apply negb_false_iff in C. split; [done|]. destruct (m_Kind m); simpl in D; try done. by apply negb_false_iff. }
  clear W C X D. destruct (bool_decide (m_Kind m = MWorkspace)) eqn:K.
  - apply bool_decide_eq_true in K. rewrite K in *.
    pose proof (handleWorkspace_spec m caps resolved) as HW. destruct (handleWorkspace m caps resolved) as [act'|m'].
    + subst act'. split; [destruct HW as [->|[-> ?]]; [apply Has_none|done]|]. split_and!.
      * intros ok H1. by destruct (C' ok H1).
      * intros ok H1. destruct (W' ok H1) as [-> _]. destruct HW as [->|[-> _]]; auto.
      * intros N. destruct (X' N) as [|[? _]]; done.
    + split; [by eapply serve_kind_capability|]. split_and!.
      * intros ok H1. by destruct (C' ok H1).
      * intros ok H1. destruct (W' ok H1) as [-> _]. split; [done|]. right. right.
        destruct HW as (p & -> & P & HW). unfold serve_kind in E. rewrite P in E.
        destruct (negb _ && _); [left; eauto|]. right. destruct HW as [HW|[HW|HW]]; rewrite HW in E; eauto.
      * intros N. destruct (X' N) as [|[? _]]; done.
  - apply bool_decide_eq_false in K. split; [by eapply serve_kind_capability|]. unfold serve_kind in E. split_and!.
    + intros ok H1. destruct (C' ok H1) as [-> Q]. split; [done|]. subst act.
      destruct (m_Kind m); try done; by destruct (negb _ && _).
    + intros ok H1. by destruct (W' ok H1).
    + intros N. destruct (X' N) as [Q|[Q R]]; rewrite Q in E; [by left|].
      cbn [requiredCapability] in E. destruct (negb _ && _); auto.
Qed.
End gate.

Arguments agent : clear implicits.

(** ** Concrete devices *)

Definition sample_agent (mode : mode) (appr : AllowApprover) : agent AllowApprover :=
  Agent (Engine [Rule KindRead "/srv" "" ScopeDir 5] mode false) (Disk None RulesAbsent true)
    NewMemStore no_grants appr (New true) ["portal"%string] false true "box" false.

Definition sample_env : gate_env := GateEnv 10 11 [true] 12 [true] 13.

Lemma gate_justified_witness :
  let a := sample_agent ModeNormal MkAllowApprover in
  let req := Request KindExec "ls" "" "/tmp" "fp" "" in
  (gate (λ _, None) Some sample_env req a).1 = (true, Approved) ∧
  (Allowed (λ _, None) (a_engine a) req = true ∨ owner_allows sample_env (asked_request Some req) a Approved).
Proof.
  intros a req. assert ((gate (λ _, None) Some sample_env req a).1 = (true, Approved)) as E by reflexivity. split; [exact E|].
  destruct (gate_justified (λ _, None) Some sample_env req a true Approved (gate (λ _, None) Some sample_env req a).2) as [Y _];
    [reflexivity|].
  destruct (Y eq_refl) as [[[=] _]|[[[=] _]|[[[=] _]|O]]]. right. exact O.
Defined.

Lemma gateFile_root_witness :
  let a := sample_agent ModeNormal MkAllowApprover in
  let req := Request KindRead "" "/srv/www/index.html" "" "fp" "" in
  (gateFile (λ _, None) sample_env req a).1 = (true, PreApproved, "/srv"%string) ∧ Within "/srv" (req_path req) = true.
Proof.
  intros a req. split; [reflexivity|].
  destruct (gateFile_root (λ _, None) sample_env req a true PreApproved "/srv"
    (gateFile (λ _, None) sample_env req a).2) as (r & _ & E & W & _); [by left|reflexivity|reflexivity|].
  exact W.
Defined.

Definition sample_auth : Auth.session_open :=
  Auth.SessionOpen "open" "0123456789abcdef0123456789abcdef" "https://relay.example" "alice" "alice" "box" Auth.FullCapabilities "" "" "" 100 "".

Lemma session_admission_witness :
  let a := sample_agent ModeNormal MkAllowApprover in
  (handleSession 50 (λ _ s, (s, true)) true false true sample_auth Hello "fp" "laptop" "" a).1 = Accepted ∧
  Auth.ValidFor 50 sample_auth "box" = true.
Proof.
  intros a.
  assert ((handleSession 50 (λ _ s, (s, true)) true false true sample_auth Hello "fp" "laptop" "" a).1 = Accepted) as E by (vm_compute; reflexivity).
  split; [exact E|].
  destruct (session_admission 50 (λ _ s, (s, true)) true false true sample_auth Hello "fp" "laptop" "" a Accepted
    (handleSession 50 (λ _ s, (s, true)) true false true sample_auth Hello "fp" "laptop" "" a).2) as [V _];
    [by rewrite <- E; destruct (handleSession _ _ _ _ _ _ _ _ _ _ _)|done|exact V].
Defined.

(** A device that knows the controller, with nobody at its console. *)
Definition trusting_agent : agent DenyApprover :=
  Agent (Engine [] ModeNormal false) (Disk None RulesAbsent true)
    (AddLabeled 3 "fp" "laptop" "Ann" NewMemStore) no_grants MkDenyApprover (New true) ["portal"%string] false false "box" false.

Lemma trusted_admitted_witness :
  (handleSession 50 (λ _ s, (s, true)) true false true sample_auth Hello "fp" "laptop" "" trusting_agent).1 = Accepted.
Proof.
  pose proof (trusted_admitted 50 (λ _ s, (s, true)) true false true sample_auth Hello "fp" "laptop" "" trusting_agent) as T.
  destruct (handleSession 50 (λ _ s, (s, true)) true false true sample_auth Hello "fp" "laptop" "" trusting_agent) as [out a'].
  destruct T as [T _]; [vm_compute; reflexivity|reflexivity|left; reflexivity|]. apply T. reflexivity.
Defined.

Lemma serve_within_session_witness :
  serveAuthorized (Message MExec "make" true "" false "" 0 "" "" false) Auth.Exec (Some true) None "make" None = Exec ∧
  serveAuthorized (Message MExec "rm -rf /" true "" false "" 0 "" "" false) Auth.Exec (Some true) None "make" None = Reject ∧
  Auth.Has Auth.Exec (requiredCapability MExec) = true.
Proof.
  split; [reflexivity|]. split; [reflexivity|].
  destruct (serve_within_session (Message MExec "make" true "" false "" 0 "" "" false) Auth.Exec (Some true) None "make" None Exec)
    as [C _]; [reflexivity|done|done|exact C].
Defined.
