(* ===== verification/Workspace.v ===== *)
(** [internal/agent/workspace.go]: the shells a device keeps for its controllers
    between their connections, and the ledger of what was run in them.

    A [workspace] is one object with its mutex; [workspaces] is what the agent
    holds of them, the objects in a list that only grows (a handler may hold
    an object the agent has already forgotten) and the map from ids to them.
    The operating system's shell is outside: whether it has ended is a flag of
    the object, and what a command wrote, how it ended and where the shell then
    stood are arguments.  An error is a constructor of [werror]; its text is not
    kept. *)

From S2P Require Import Prelude GoStrings GoUtf8 GoCodec GoPath Script Policy Session Trust Approvals Console Gate.

Local Open Scope Z_scope.

Definition maxWorkspaces : nat := 16.
Definition maxWorkspaceRequests : nat := 128.
Definition maxWorkspaceOutput : Z := Z.shiftl 8 20.
Definition maxWorkspaceInput : Z := Z.shiftl 1 20.
Definition workspaceOutputPage : Z := Z.shiftl 48 10.

(** ** Data *)

Inductive werror :=
| ErrUnavailable | ErrInvalidID | ErrNotAbsolute | ErrStat (text : string) | ErrNotDirectory | ErrShutdown | ErrDifferent
| ErrLimit | ErrShell (text : string) | ErrUnknownRequest | ErrOffset | ErrClosed | ErrPathRequired | ErrRequestID
| ErrConflict | ErrShellGone | ErrBusy (active : string) | ErrLedgerFull | ErrLedgerBytes | ErrCommandRequired
| ErrOneShot | ErrScriptRequired | ErrScriptAction | ErrScript (e : script_error) | ErrMismatch | ErrInterp
| ErrDenied (command : string) | ErrStopped | ErrCanceled | ErrRun (text : string) | ErrCancelName.

(** The states of a job; ["approving"], ["running"], ["done"] in the code. *)
Inductive job_state := Approving | Running | Done.

(** [finished], the channel a waiter selects on, is closed exactly when
    [wj_done] becomes true. *)
Record workspaceJob := WorkspaceJob {
  wj_command : string; wj_cwd : string; wj_script : string; wj_interp : string;
  wj_state : job_state; wj_output : string; wj_total : Z; wj_code : Z; wj_err : option werror; wj_done : bool;
  wj_dirAfter : string }.

(** [w_shellClosed] is what [shell.Closed()] would answer; [w_cancelled] is
    whether [ctx] has been cancelled. *)
Record workspace := Workspace {
  w_id : string; w_owner : string; w_root : string; w_shellClosed : bool; w_cancelled : bool;
  w_closed : bool; w_stopping : bool; w_active : string; w_jobs : gmap string workspaceJob;
  w_outputBytes : Z; w_inputBytes : Z }.

(** The fields of a [protocol.Message] a workspace reads. *)
Record wmessage := WMessage {
  q_Action : string; q_WorkspaceID : string; q_RequestID : string; q_Command : string; q_Cwd : string;
  q_Script : string; q_Interp : string; q_OneShot : bool; q_Elevate : bool; q_Via : string; q_Path : string;
  q_Offset : Z }.

Inductive shell_state := ShellOpen | ShellInvalid | ShellClosed.

Record workspaceResult := WorkspaceResult {
  res_ID : string; res_Root : string; res_State : shell_state; res_ActiveRequestID : string;
  res_RequestID : string; res_RequestState : option job_state; res_Done : bool; res_Code : Z; res_Error : option werror;
  res_Output : string; res_NextOffset : Z; res_OutputBytes : Z; res_RetainedBytes : Z; res_Truncated : bool;
  res_Cwd : string }.

#[export] Instance job_state_eq_dec : EqDecision job_state.
Proof. solve_decision. Defined.
#[export] Instance shell_state_eq_dec : EqDecision shell_state.
Proof. solve_decision. Defined.

Definition set_jobs (m : gmap string workspaceJob) (w : workspace) : workspace :=
  Workspace (w_id w) (w_owner w) (w_root w) (w_shellClosed w) (w_cancelled w) (w_closed w) (w_stopping w) (w_active w) m
    (w_outputBytes w) (w_inputBytes w).
Definition set_active (r : string) (w : workspace) : workspace :=
  Workspace (w_id w) (w_owner w) (w_root w) (w_shellClosed w) (w_cancelled w) (w_closed w) (w_stopping w) r (w_jobs w)
    (w_outputBytes w) (w_inputBytes w).
Definition set_outputBytes (n : Z) (w : workspace) : workspace :=
  Workspace (w_id w) (w_owner w) (w_root w) (w_shellClosed w) (w_cancelled w) (w_closed w) (w_stopping w) (w_active w) (w_jobs w)
    n (w_inputBytes w).
Definition set_inputBytes (n : Z) (w : workspace) : workspace :=
  Workspace (w_id w) (w_owner w) (w_root w) (w_shellClosed w) (w_cancelled w) (w_closed w) (w_stopping w) (w_active w) (w_jobs w)
    (w_outputBytes w) n.
Definition set_flags (shellClosed cancelled closed stopping : bool) (w : workspace) : workspace :=
  Workspace (w_id w) (w_owner w) (w_root w) shellClosed cancelled closed stopping (w_active w) (w_jobs w)
    (w_outputBytes w) (w_inputBytes w).

Definition set_state (s : job_state) (j : workspaceJob) : workspaceJob :=
  WorkspaceJob (wj_command j) (wj_cwd j) (wj_script j) (wj_interp j) s (wj_output j) (wj_total j) (wj_code j) (wj_err j)
    (wj_done j) (wj_dirAfter j).
Definition set_dirAfter (d : string) (j : workspaceJob) : workspaceJob :=
  WorkspaceJob (wj_command j) (wj_cwd j) (wj_script j) (wj_interp j) (wj_state j) (wj_output j) (wj_total j) (wj_code j)
    (wj_err j) (wj_done j) d.
Definition set_output (o : string) (total : Z) (j : workspaceJob) : workspaceJob :=
  WorkspaceJob (wj_command j) (wj_cwd j) (wj_script j) (wj_interp j) (wj_state j) o total (wj_code j) (wj_err j)
    (wj_done j) (wj_dirAfter j).

(** ** Names *)

Definition hex_rune (c : Z) : bool := in_range 48 57 c || in_range 97 102 c.

Definition validWorkspaceID (id : string) : bool :=
  if negb (slen id =? 34)%nat || negb (has_prefix id "w-") then false
  else forallb hex_rune (runes (sdrop 2 id)).

Definition request_rune (c : Z) : bool :=
  in_range 97 122 c || in_range 65 90 c || in_range 48 57 c || (c =? 45) || (c =? 95).

Definition validWorkspaceRequest (id : string) : bool :=
  if (slen id =? 0)%nat || (128 <? slen id)%nat then false else forallb request_rune (runes id).

(** ** One workspace *)

Definition stateLocked (w : workspace) : shell_state :=
  if w_closed w then ShellClosed else if w_stopping w || w_shellClosed w then ShellInvalid else ShellOpen.

(** Where a page that does not reach the end of the output stops: back from
    [off + k] to the start of a rune, and nowhere at all if there is none. *)
Fixpoint back_to_start (out : string) (off k : nat) : nat :=
  match k with
  | O => off
  | S k' =>
      match sget (off + k) out with
      | Some c => if rune_start (byte_val c) then off + k else back_to_start out off k'
      | None => off + k
      end
  end%nat.

(** Where a page that reaches the end of a growing output stops: before an
    incomplete rune among its last [utf_max] bytes. *)
Fixpoint hold_back (fuel : nat) (out : string) (off stop start : nat) : nat :=
  match fuel with
  | O => stop
  | S fuel =>
      if (off <? start)%nat then
        let start := pred start in
        match sget start out with
        | Some c =>
            if rune_start (byte_val c)
            then if full_rune (slice start stop out) then stop else start
            else hold_back fuel out off stop start
        | None => stop
        end
      else stop
  end.

(** The end of the page of [j] that begins at [off], for [off] within the output. *)
Definition page_end (off : nat) (j : workspaceJob) : nat :=
  let len := slen (wj_output j) in
  let stop := Nat.min len (off + Z.to_nat workspaceOutputPage) in
  if (stop <? len)%nat then
    let s := back_to_start (wj_output j) off (stop - off) in
    if (s =? off)%nat then Nat.min len (off + Z.to_nat workspaceOutputPage) else s
  else if negb (wj_done j) && (wj_total j =? Z.of_nat len) then hold_back utf_max (wj_output j) off stop stop
  else stop.

Definition snapshot (id : string) (offset : Z) (w : workspace) : result werror workspaceResult :=
  let r := WorkspaceResult (w_id w) (w_root w) (stateLocked w) (w_active w) in
  if String.eqb id "" then Ok (r "" None false 0 None "" 0 0 0 false "")%string
  else match w_jobs w !! id with
       | None => Err ErrUnknownRequest
       | Some j =>
           if (offset <? 0) || (zlen (wj_output j) <? offset) then Err ErrOffset
           else
             let off := Z.to_nat offset in
             let stop := page_end off j in
             Ok (r id (Some (wj_state j)) (wj_done j) (wj_code j) (wj_err j) (slice off stop (wj_output j)) (Z.of_nat stop)
                   (wj_total j) (zlen (wj_output j)) (zlen (wj_output j) <? wj_total j) (wj_dirAfter j))
       end.

Definition resolve (path : string) (w : workspace) : result werror string :=
  if w_closed w then Err ErrClosed
  else if String.eqb path "" then Err ErrPathRequired
  else Ok (clean (if is_abs path then path else path_join (w_root w) path)).

(** [workspaceWriter.Write]; the caller is always told that everything was
    written.  [None] is the nil job the code would dereference. *)
Definition workspaceWriter_Write (id p : string) (w : workspace) : option workspace :=
  match w_jobs w !! id with
  | None => None
  | Some j =>
      let n := Z.min (zlen p) (maxWorkspaceOutput - w_outputBytes w) in
      let total := wj_total j + zlen p in
      if 0 <? n
      then Some (set_outputBytes (w_outputBytes w + n)
                   (set_jobs (<[id := set_output (wj_output j ++ stake (Z.to_nat n) p) total j]> (w_jobs w)) w))
      else Some (set_jobs (<[id := set_output (wj_output j) total j]> (w_jobs w)) w)
  end.

Definition input_size (m : wmessage) : Z := zlen (q_Command m) + zlen (q_Cwd m) + zlen (q_Script m).

(** [Ok true] is a request recorded for the first time. *)
Definition reserve (m : wmessage) (w : workspace) : result werror bool * workspace :=
  if negb (validWorkspaceRequest (q_RequestID m)) then (Err ErrRequestID, w)
  else match w_jobs w !! q_RequestID m with
  | Some j =>
      if negb (String.eqb (wj_command j) (q_Command m)) || negb (String.eqb (wj_cwd j) (q_Cwd m))
         || negb (String.eqb (wj_script j) (q_Script m)) || negb (String.eqb (wj_interp j) (q_Interp m))
      then (Err ErrConflict, w) else (Ok false, w)
  | None =>
      if negb (bool_decide (stateLocked w = ShellOpen)) then (Err ErrShellGone, w)
      else if negb (String.eqb (w_active w) "") then (Err (ErrBusy (w_active w)), w)
      else if (maxWorkspaceRequests <=? size (w_jobs w))%nat then (Err ErrLedgerFull, w)
      else if maxWorkspaceInput - w_inputBytes w <? input_size m then (Err ErrLedgerBytes, w)
      else (Ok true,
            set_active (q_RequestID m)
              (set_jobs (<[q_RequestID m := WorkspaceJob (q_Command m) (q_Cwd m) (q_Script m) (q_Interp m) Approving "" 0 0 None false ""]> (w_jobs w))
                 (set_inputBytes (w_inputBytes w + input_size m) w)))
  end.

Definition finished_job (code : Z) (err : option werror) (j : workspaceJob) : workspaceJob :=
  WorkspaceJob (wj_command j) (wj_cwd j) (wj_script j) (wj_interp j) Done (wj_output j) (wj_total j) code
    (match err with Some e => Some e | None => wj_err j end) true (wj_dirAfter j).

Definition finishLocked (id : string) (code : Z) (err : option werror) (w : workspace) : option workspace :=
  match w_jobs w !! id with
  | None => None
  | Some j =>
      if wj_done j then Some w
      else let w' := set_jobs (<[id := finished_job code err j]> (w_jobs w)) w in
           Some (if String.eqb (w_active w) id then set_active "" w' else w')
  end.

(** ** A command *)

(** What is typed into the shell.  [shell] is [a.opts.Shell] and [dflt] what
    [server.DefaultShell] finds on this device. *)
Definition workspaceSource (shell dflt : string) (m : wmessage) : result werror string :=
  if String.eqb (q_Script m) "" then
    if negb (String.eqb (q_Interp m) "") || String.eqb (q_Action m) "exec_script" then Err ErrScriptRequired
    else Ok (q_Command m)
  else if negb (String.eqb (q_Action m) "exec_script") then Err ErrScriptAction
  else match ParseInterp (q_Interp m) with
  | Err e => Err (ErrScript e)
  | Ok i =>
      match Command i (q_Script m) with
      | Err e => Err (ErrScript e)
      | Ok encoded =>
          if negb (String.eqb encoded (q_Command m)) then Err ErrMismatch
          else
            let shell := if String.eqb shell "" then dflt else shell in
            if negb (Bool.eqb (bool_decide (i = PowerShell)) (isPowerShell shell)) then Err ErrInterp
            else match SessionSource i (q_Script m) with Err e => Err (ErrScript e) | Ok s => Ok s end
      end
  end.

(** [startWorkspaceCommand] is cut where it lets go of the mutex.  Up to the
    reservation: *)
Inductive submitted := Refuse (e : werror) | Duplicate | Fresh (source : string).

Definition submit (shell dflt : string) (m : wmessage) (w : workspace) : submitted * workspace :=
  if String.eqb (q_Command m) "" then (Refuse ErrCommandRequired, w)
  else if q_OneShot m || q_Elevate m || negb (String.eqb (q_Via m) "") then (Refuse ErrOneShot, w)
  else match workspaceSource shell dflt m with
  | Err e => (Refuse e, w)
  | Ok source =>
      match reserve m w with
      | (Err e, w) => (Refuse e, w)
      | (Ok false, w) => (Duplicate, w)
      | (Ok true, w) => (Fresh source, w)
      end
  end.

(** Where the command will run; [dir] is what the shell answers when it is asked
    where it stands. *)
Definition currentDir (dir : option string) : string := default ""%string dir.

Definition locate (dir : option string) (m : wmessage) (w : workspace) : option (result werror string * workspace) :=
  if negb (String.eqb (q_Cwd m) "") then
    match resolve (q_Cwd m) w with
    | Ok cwd => Some (Ok cwd, w)
    | Err e => w' ← finishLocked (q_RequestID m) (-1) (Some e) w; Some (Err e, w')
    end
  else Some (Ok (currentDir dir), w).

Definition stillPending (m : wmessage) (w : workspace) : option bool :=
  if bool_decide (stateLocked w = ShellOpen) && String.eqb (w_active w) (q_RequestID m)
  then j ← w_jobs w !! q_RequestID m; Some (negb (wj_done j))
  else Some false.

(** After the gate: whether the goroutine that runs the command is started. *)
Definition decide_command (ok : bool) (m : wmessage) (w : workspace) : option (bool * workspace) :=
  let open := bool_decide (stateLocked w = ShellOpen) in
  if negb ok || negb open then
    w' ← finishLocked (q_RequestID m) (-1) (Some (if open then ErrDenied (q_Command m) else ErrStopped)) w;
    Some (false, w')
  else
    j ← w_jobs w !! q_RequestID m;
    Some (true, set_jobs (<[q_RequestID m := set_state Running j]> (w_jobs w)) w).

Definition changeDir (m : wmessage) (cwd : string) : string := if String.eqb (q_Cwd m) "" then "" else cwd.

(** The goroutine's end: how the run went, and where the shell then stands. *)
Definition command_ended (id : string) (code : Z) (runErr : option string) (dir : option string) (w : workspace) : option workspace :=
  let dirAfter := match runErr with None => currentDir dir | Some _ => ""%string end in
  j ← w_jobs w !! id;
  finishLocked id code (ErrRun <$> runErr) (set_jobs (<[id := set_dirAfter dirAfter j]> (w_jobs w)) w).

(** [cancel] up to where it waits for the command, and [stop] likewise. *)
Definition cancel_begin (id : string) (w : workspace) : result werror (option workspace) :=
  if String.eqb id "" || negb (String.eqb (w_active w) id) then Err ErrCancelName
  else
    let w := set_flags (w_shellClosed w) true (w_closed w) true w in
    Ok (j ← w_jobs w !! id;
        if bool_decide (wj_state j = Approving) then finishLocked id (-1) (Some ErrCanceled) w else Some w).

Definition stop_begin (w : workspace) : workspace := set_flags (w_shellClosed w) true true (w_stopping w) w.

(** The shell has ended, by itself or by [shell.Close]. *)
Definition shell_closed (w : workspace) : workspace := set_flags true (w_cancelled w) (w_closed w) (w_stopping w) w.

(** How long a submission waits beside the process, in milliseconds. *)
Definition wait_limit (milliseconds : Z) : Z := if milliseconds <=? 0 then 0 else Z.min milliseconds 1000.

(** ** The workspaces of a device *)

Record workspaces := Workspaces { ws_objs : list workspace; ws_ids : gmap string nat; ws_closed : bool; ws_links : Z }.

Definition no_workspaces : workspaces := Workspaces [] ∅ false 0.

Definition set_objs (o : list workspace) (a : workspaces) : workspaces := Workspaces o (ws_ids a) (ws_closed a) (ws_links a).

Definition getWorkspace (fp id : string) (a : workspaces) : result werror nat :=
  match ws_ids a !! id with
  | None => Err ErrUnavailable
  | Some p =>
      match ws_objs a !! p with
      | Some w => if String.eqb (w_owner w) fp then Ok p else Err ErrUnavailable
      | None => Err ErrUnavailable
      end
  end.

(** [stat] answers for the root whether it is a directory; [shell] whether a
    shell could be started in it. *)
Definition openWorkspace (stat : string → result string bool) (shell : result string unit) (fp id path : string) (a : workspaces)
  : result werror nat * workspaces :=
  if negb (validWorkspaceID id) then (Err ErrInvalidID, a)
  else if negb (is_abs path) then (Err ErrNotAbsolute, a)
  else
    let root := clean path in
    match stat root with
    | Err e => (Err (ErrStat e), a)
    | Ok false => (Err ErrNotDirectory, a)
    | Ok true =>
        if ws_closed a then (Err ErrShutdown, a)
        else match (p ← ws_ids a !! id; w ← ws_objs a !! p; Some (p, w)) with
        | Some (p, w) =>
            if negb (String.eqb (w_owner w) fp) || negb (String.eqb (w_root w) root) then (Err ErrDifferent, a) else (Ok p, a)
        | None =>
            if (maxWorkspaces <=? size (ws_ids a))%nat then (Err ErrLimit, a)
            else match shell with
            | Err e => (Err (ErrShell e), a)
            | Ok _ =>
                let p := length (ws_objs a) in
                (Ok p, Workspaces (ws_objs a ++ [Workspace id fp root false false false false "" ∅ 0 0]) (<[id := p]> (ws_ids a)) false (ws_links a))
            end
        end
    end.

(** The end of ["close"]: the id is forgotten, whatever it now names. *)
Definition forget (w : workspace) (a : workspaces) : workspaces :=
  Workspaces (ws_objs a) (delete (w_id w) (ws_ids a)) (ws_closed a) (ws_links a).

(** [closeWorkspaces]; the workspaces it then stops are those of the map it took. *)
Definition closeWorkspaces (a : workspaces) : list nat * workspaces :=
  ((map_to_list (ws_ids a)).*2, Workspaces (ws_objs a) ∅ true (ws_links a)).

Definition workspacesBusy (a : workspaces) : bool :=
  (0 <? ws_links a)
  || any (λ p, match ws_objs a !! p with Some w => negb (String.eqb (w_active w) "") | None => false end) (map_to_list (ws_ids a)).*2.

Definition attachWorkspaceLink (a : workspaces) : workspaces := Workspaces (ws_objs a) (ws_ids a) (ws_closed a) (ws_links a + 1).
Definition detachWorkspaceLink (a : workspaces) : workspaces := Workspaces (ws_objs a) (ws_ids a) (ws_closed a) (ws_links a - 1).

(** ** With the gate *)

Section command.
Context (parse : string → option (list stmt)).
Context (physical : string → option string).
Context {A : Type} `{Approver A}.

(** What becomes of a submission: refused, a duplicate of one already in the
    ledger, not started (the job says why), or started with the source, the
    directory to change to and the word of the decision. *)
Inductive started :=
| NotAccepted (e : werror) | AlreadyKnown | NotStarted (v : verdict) | Started (source dir : string) (v : verdict).

(** [startWorkspaceCommand] from end to end.  [during_1] and [during_2] are what
    happens to the workspace while the shell is asked for its directory and
    while the gate waits; the checks of [env] are those the gate made. *)
Definition startWorkspaceCommand (env : gate_env) (shell dflt : string) (dir : option string) (fp : string) (m : wmessage)
    (checks_after : list bool) (during_1 during_2 : workspace → workspace) (w : workspace) (a : agent A)
  : option (started * workspace * agent A) :=
  match submit shell dflt m w with
  | (Refuse e, w) => Some (NotAccepted e, w, a)
  | (Duplicate, w) => Some (AlreadyKnown, w, a)
  | (Fresh source, w) =>
      '(cwd, w) ← locate dir m (during_1 w);
      match cwd with
      | Err e => Some (NotAccepted e, w, a)
      | Ok cwd =>
          let '((ok, v), a) := gate parse physical env (Request KindExec (q_Command m) "" cwd fp "") a in
          let '(ok, v) := if ok && negb (checksPass checks_after) then (false, DelegationInactive) else (ok, v) in
          match decide_command ok m (during_2 w) with
          | None => None
          | Some (run, w) => Some (if run : bool then Started source (changeDir m cwd) v else NotStarted v, w, a)
          end
      end
  end.
End command.

(** ** What is typed into the shell *)

(** The source a submission stands for is the command itself, or a script whose
    encoded form is that command: the token rules know the command by names the
    very bytes that will be typed. *)
Lemma workspaceSource_authorized shell dflt m source :
  workspaceSource shell dflt m = Ok source →
  q_Script m = ""%string ∧ q_Interp m = ""%string ∧ q_Action m ≠ "exec_script"%string ∧ source = q_Command m ∨
  ∃ i, q_Action m = "exec_script"%string ∧ ParseInterp (q_Interp m) = Ok i ∧ SessionSource i (q_Script m) = Ok source ∧
    Canonical (q_Command m) = Some (token_of i (carried i source)) ∧
    (i = PowerShell ↔ isPowerShell (if String.eqb shell "" then dflt else shell) = true).
Proof.
  unfold workspaceSource. destruct (String.eqb_spec (q_Script m) "") as [E|E].
  - destruct (String.eqb_spec (q_Interp m) ""), (String.eqb_spec (q_Action m) "exec_script"); simpl; try done. intros [= <-]. by left.
  - destruct (String.eqb_spec (q_Action m) "exec_script") as [Ea|]; [|done]. simpl.
    destruct (ParseInterp (q_Interp m)) as [i|] eqn:P; [|done].
    destruct (Command i (q_Script m)) as [enc|] eqn:C; [|done].
    destruct (String.eqb_spec enc (q_Command m)) as [->|]; [|done]. simpl.
    destruct (Bool.eqb_spec (bool_decide (i = PowerShell)) (isPowerShell (if String.eqb shell "" then dflt else shell))) as [B|B]; [|done]. simpl.
    destruct (SessionSource i (q_Script m)) as [src|] eqn:S; [|done]. intros [= ->]. right. exists i.
    split_and!; try done.
    + destruct (command_canonical i (q_Script m) source S) as [Can Cmd]. rewrite Cmd in C.
      case_match; [done|]. by injection C as <-.
    + rewrite <- B. by rewrite bool_decide_eq_true.
Qed.

(** C6: what a workspace types into its shell is what the device authorized.  When
    a submission ends in a started command, the gate allowed that very command
    in the directory it will run in: the one the message names, resolved against
    the root, or where the shell stands; no check of the controller's access
    failed afterwards; the shell was still open; the message asked for no run of
    its own and no elevation; and the source is the command of a message without a
    script or an interpreter, or the script of an [exec_script] that this command
    encodes, for PowerShell exactly when the shell of the workspace (the one the
    device is configured with, or else its default) is PowerShell. *)
Theorem workspace_runs_authorized parse physical {A} `{Approver A} env shell dflt dir fp m checks d1 d2 w (a : agent A) source cd v w' a' :
  startWorkspaceCommand parse physical env shell dflt dir fp m checks d1 d2 w a = Some (Started source cd v, w', a') →
  (q_Script m = ""%string ∧ q_Interp m = ""%string ∧ q_Action m ≠ "exec_script"%string ∧ source = q_Command m ∨
   ∃ i, q_Action m = "exec_script"%string ∧ ParseInterp (q_Interp m) = Ok i ∧ SessionSource i (q_Script m) = Ok source ∧
     Canonical (q_Command m) = Some (token_of i (carried i source)) ∧
     (i = PowerShell ↔ isPowerShell (if String.eqb shell "" then dflt else shell) = true)) ∧
  q_OneShot m = false ∧ q_Elevate m = false ∧ q_Via m = ""%string ∧
  ∃ w1 cwd, reserve m w = (Ok true, w1) ∧
    (q_Cwd m = ""%string ∧ cwd = currentDir dir ∧ cd = ""%string ∨ resolve (q_Cwd m) (d1 w1) = Ok cwd ∧ cd = cwd) ∧
    (gate parse physical env (Request KindExec (q_Command m) "" cwd fp "") a).1 = (true, v) ∧ checksPass checks = true ∧
    stateLocked (d2 (d1 w1)) = ShellOpen.
Proof.
  unfold startWorkspaceCommand, submit. destruct (String.eqb (q_Command m) ""); [done|].
  destruct (q_OneShot m), (q_Elevate m), (String.eqb_spec (q_Via m) ""); simpl; try done.
  destruct (workspaceSource shell dflt m) as [src|] eqn:S; [|done].
  destruct (reserve m w) as [[[|]|] w1] eqn:R; try done. unfold locate.
  destruct (String.eqb_spec (q_Cwd m) "") as [C|C]; simpl.
  2: destruct (resolve (q_Cwd m) (d1 w1)) as [p|] eqn:Re; simpl; [|by destruct (finishLocked _ _ _ _)].
  all: match goal with |- context [gate ?x ?y ?e ?r ?b] => destruct (gate x y e r b) as [[ok v0] a0] eqn:G end.
  all: destruct ok; simpl; [destruct (checksPass checks) eqn:Ch; simpl|]; unfold decide_command; simpl;
    try (by destruct (finishLocked _ _ _ _)).
  all: destruct (bool_decide_reflect (stateLocked (d2 (d1 w1)) = ShellOpen)) as [O|O]; simpl; [|by destruct (finishLocked _ _ _ _)].
  all: destruct (w_jobs _ !! _); simpl; [|done]; intros [= <- <- <- <- <-].
  all: split; [exact (workspaceSource_authorized _ _ _ _ S)|]; (split; [done|]); (split; [done|]); (split; [done|]).
  all: eexists w1, _; (split; [done|]); split; [|by rewrite G].
  - left. unfold changeDir. by rewrite C.
  - right. unfold changeDir. by rewrite (proj2 (String.eqb_neq _ _) C).
Qed.

Definition sample_workspace : workspace := Workspace "w" "fp" "/srv/app" false false false false "" ∅ 0 0.
Definition sample_submission : wmessage := WMessage "exec" "w" "r1" "make" "src" "" "" false false "" "" 0.

Lemma workspace_runs_authorized_witness :
  let a := sample_agent ModeNormal MkAllowApprover in
  (gate (λ _, None) Some sample_env (Request KindExec "make" "" "/srv/app/src" "fp" "") a).1 = (true, Approved).
Proof.
  intros a.
  destruct (startWorkspaceCommand (λ _, None) Some sample_env "" "sh" None "fp" sample_submission [] id id sample_workspace a)
    as [[[r w'] a']|] eqn:E; [|vm_compute in E; discriminate E].
  assert (r = Started "make" "/srv/app/src" Approved) as ->
    by (apply (f_equal (option_map (λ x, x.1.1))) in E; cbn [option_map fst] in E; injection E as <-; vm_compute; reflexivity).
  destruct (workspace_runs_authorized (λ _, None) Some sample_env "" "sh" None "fp" sample_submission [] id id sample_workspace a
    "make" "/srv/app/src" Approved w' a' E) as (_ & _ & _ & _ & w1 & cwd & _ & [[C _]|[_ C]] & G & _); [discriminate C|]. subst cwd. exact G.
Defined.
