(* ===== verification/WorkspaceInv.v ===== *)
(** The workspaces of a device as a transition system, and its invariant.

    A handler of a submission is between two critical sections ([phase]); the
    goroutine that runs a command is a handler in its last phase.  A handler that
    holds a workspace got it from [getWorkspace] or [openWorkspace], which give
    a controller its own ([getWorkspace_owner], [openWorkspace_owner]), and
    may act on it after the agent has forgotten it.  What was started, what the
    gate answered and what each command wrote are kept as histories. *)

From S2P Require Import Prelude GoStrings GoUtf8 GoPath Script Gate Workspace.

Local Open Scope Z_scope.

Inductive phase :=
| Locating (m : wmessage) (source : string)
| Asking (m : wmessage) (source cwd : string)
| Executing (m : wmessage).

Definition phase_message (h : phase) : wmessage :=
  match h with Locating m _ | Asking m _ _ | Executing m => m end.

Record start := Start { st_ws : nat; st_req : string; st_m : wmessage; st_source : string; st_cwd : string }.

(** [answers]: workspace, request, command, directory, and what the gate said. *)
Record wsys := WSys {
  sys_ws : workspaces; handlers : gmap (nat * string) phase;
  starts : list start; answers : list (nat * string * string * string * bool); written : gmap (nat * string) string }.

Definition wsys0 : wsys := WSys no_workspaces ∅ [] [] ∅.

Definition on_ws (a : workspaces) (s : wsys) : wsys := WSys a (handlers s) (starts s) (answers s) (written s).
Definition on_handlers (h : gmap (nat * string) phase) (s : wsys) : wsys := WSys (sys_ws s) h (starts s) (answers s) (written s).
Definition on_obj (p : nat) (w : workspace) (s : wsys) : wsys := on_ws (set_objs (<[p := w]> (ws_objs (sys_ws s))) (sys_ws s)) s.
Definition obj (p : nat) (s : wsys) : option workspace := ws_objs (sys_ws s) !! p.

Definition log_answer (x : nat * string * string * string * bool) (s : wsys) : wsys :=
  WSys (sys_ws s) (handlers s) (starts s) (answers s ++ [x]) (written s).
Definition log_start (st : start) (s : wsys) : wsys :=
  WSys (sys_ws s) (handlers s) (starts s ++ [st]) (answers s) (written s).
Definition log_write (k : nat * string) (t : string) (s : wsys) : wsys :=
  WSys (sys_ws s) (handlers s) (starts s) (answers s) (<[k := default "" (written s !! k) ++ t]> (written s))%string.

Section system.
Context (shell dflt : string).

Inductive wevent :=
| EOpen (stat : string → result string bool) (sh : result string unit) (fp id path : string)
| ESubmit (fp : string) (p : nat) (m : wmessage)
| ELocate (p : nat) (id : string) (dir : option string)
| EDecide (p : nat) (id : string) (ok : bool)
| EWrite (p : nat) (id : string) (t : string)
| EEnd (p : nat) (id : string) (code : Z) (runErr dir : option string)
| ECancel (fp : string) (p : nat) (id : string)
| EStop (p : nat)
| EShell (p : nat)
| EForget (p : nat)
| ECloseAll
| EAttach
| EDetach.

(** [None]: the event is not possible, or the code would dereference nil; that it
    does not is [handlers_step]. *)
Definition wapply (e : wevent) (s : wsys) : option wsys :=
  match e with
  | EOpen stat sh fp id path => Some (on_ws (openWorkspace stat sh fp id path (sys_ws s)).2 s)
  | ESubmit fp p m =>
      w ← obj p s;
      if negb (String.eqb (w_owner w) fp) then None
      else match submit shell dflt m w with
           | (Fresh source, w) => Some (on_handlers (<[(p, q_RequestID m) := Locating m source]> (handlers s)) (on_obj p w s))
           | (_, w) => Some (on_obj p w s)
           end
  | ELocate p id dir =>
      w ← obj p s;
      match handlers s !! (p, id) with
      | Some (Locating m source) =>
          match locate dir m w with
          | Some (Ok cwd, w) => Some (on_handlers (<[(p, id) := Asking m source cwd]> (handlers s)) (on_obj p w s))
          | Some (Err _, w) => Some (on_handlers (delete (p, id) (handlers s)) (on_obj p w s))
          | None => None
          end
      | _ => None
      end
  | EDecide p id ok =>
      w ← obj p s;
      match handlers s !! (p, id) with
      | Some (Asking m source cwd) =>
          match decide_command ok m w with
          | Some (run, w) =>
              let s := log_answer (p, id, q_Command m, cwd, ok) (on_obj p w s) in
              Some (if run : bool
                    then log_start (Start p id m source cwd) (on_handlers (<[(p, id) := Executing m]> (handlers s)) s)
                    else on_handlers (delete (p, id) (handlers s)) s)
          | None => None
          end
      | _ => None
      end
  | EWrite p id t =>
      w ← obj p s;
      match handlers s !! (p, id) with
      | Some (Executing _) => w ← workspaceWriter_Write id t w; Some (log_write (p, id) t (on_obj p w s))
      | _ => None
      end
  | EEnd p id code runErr dir =>
      w ← obj p s;
      match handlers s !! (p, id) with
      | Some (Executing _) =>
          w ← command_ended id code runErr dir w; Some (on_handlers (delete (p, id) (handlers s)) (on_obj p w s))
      | _ => None
      end
  | ECancel fp p id =>
      w ← obj p s;
      if negb (String.eqb (w_owner w) fp) then None
      else match cancel_begin id w with
           | Ok (Some w) => Some (on_obj p w s)
           | Ok None => None
           | Err _ => Some s
           end
  | EStop p => w ← obj p s; Some (on_obj p (stop_begin w) s)
  | EShell p => w ← obj p s; Some (on_obj p (shell_closed w) s)
  | EForget p => w ← obj p s; if w_closed w then Some (on_ws (forget w (sys_ws s)) s) else None
  | ECloseAll => Some (on_ws (closeWorkspaces (sys_ws s)).2 s)
  | EAttach => Some (on_ws (attachWorkspaceLink (sys_ws s)) s)
  | EDetach => if 0 <? ws_links (sys_ws s) then Some (on_ws (detachWorkspaceLink (sys_ws s)) s) else None
  end.

Definition wstep (s s' : wsys) : Prop := ∃ e, wapply e s = Some s'.
Definition device_workspaces : wsys → Prop := reachable (λ s, s = wsys0) wstep.

(** ** The ledger of one workspace *)

Definition job_input (j : workspaceJob) : Z := zlen (wj_command j) + zlen (wj_cwd j) + zlen (wj_script j).
Definition job_kept (j : workspaceJob) : Z := zlen (wj_output j).

Record ws_ok (w : workspace) : Prop := {
  ok_names : ∀ id j, w_jobs w !! id = Some j → validWorkspaceRequest id = true;
  ok_active : w_active w ≠ ""%string → is_Some (w_jobs w !! w_active w);
  ok_done : ∀ id j, w_jobs w !! id = Some j → (wj_done j = false ↔ w_active w = id);
  ok_state : ∀ id j, w_jobs w !! id = Some j → (wj_done j = true ↔ wj_state j = Done);
  ok_size : (size (w_jobs w) <= maxWorkspaceRequests)%nat;
  ok_input : w_inputBytes w = msum job_input (w_jobs w) ∧ w_inputBytes w <= maxWorkspaceInput;
  ok_output : w_outputBytes w = msum job_kept (w_jobs w) ∧ w_outputBytes w <= maxWorkspaceOutput;
  ok_total : ∀ id j, w_jobs w !! id = Some j →
    job_kept j <= wj_total j ∧ (job_kept j < wj_total j → w_outputBytes w = maxWorkspaceOutput) }.

Lemma valid_request_ne id : validWorkspaceRequest id = true → id ≠ ""%string.
Proof. by intros H ->. Qed.

(** The inputs a request is compared by. *)
Definition job_of (j : workspaceJob) (m : wmessage) : Prop :=
  wj_command j = q_Command m ∧ wj_cwd j = q_Cwd m ∧ wj_script j = q_Script m ∧ wj_interp j = q_Interp m.

(** A job may change in its state, its end and its last directory. *)
Definition same_data (j j' : workspaceJob) : Prop :=
  job_input j' = job_input j ∧ wj_output j' = wj_output j ∧ wj_total j' = wj_total j.

Lemma update_ok w id j j' :
  ws_ok w → w_jobs w !! id = Some j → same_data j j' → wj_done j' = wj_done j →
  (wj_done j' = true ↔ wj_state j' = Done) → ws_ok (set_jobs (<[id := j']> (w_jobs w)) w).
Proof.
  intros O J (I & U & T) D S. destruct O.
  assert (job_kept j' = job_kept j) as K by (unfold job_kept; by rewrite U). split; simpl.
  - intros i x [[<- _]|[_ ?]]%lookup_insert_Some; eauto.
  - intros A. destruct (decide (id = w_active w)) as [<-|]; [rewrite lookup_insert_eq; eauto|rewrite lookup_insert_ne by done; auto].
  - intros i x [[<- <-]|[_ ?]]%lookup_insert_Some; [rewrite D|]; eauto.
  - intros i x [[<- <-]|[_ ?]]%lookup_insert_Some; eauto.
  - by rewrite map_size_insert_Some by eauto.
  - rewrite (msum_update _ _ _ _ _ J), I. destruct ok_input0. lia.
  - rewrite (msum_update _ _ _ _ _ J), K. destruct ok_output0. lia.
  - intros i x [[<- <-]|[_ ?]]%lookup_insert_Some; [rewrite K, T|]; eauto.
Qed.

Lemma flags_ok sc ca cl st w : ws_ok w → ws_ok (set_flags sc ca cl st w).
Proof. intros []. by split. Qed.

(** ** The operations on one workspace *)

Lemma reserve_spec m w r w' :
  reserve m w = (r, w') →
  (r ≠ Ok true → w' = w) ∧
  (r = Ok true → validWorkspaceRequest (q_RequestID m) = true ∧ w_jobs w !! q_RequestID m = None ∧ stateLocked w = ShellOpen ∧
    w_active w = ""%string ∧ (size (w_jobs w) < maxWorkspaceRequests)%nat ∧ input_size m <= maxWorkspaceInput - w_inputBytes w ∧
    w' = set_active (q_RequestID m)
           (set_jobs (<[q_RequestID m := WorkspaceJob (q_Command m) (q_Cwd m) (q_Script m) (q_Interp m) Approving "" 0 0 None false ""]> (w_jobs w))
             (set_inputBytes (w_inputBytes w + input_size m) w))).
Proof.
  unfold reserve. destruct (negb (validWorkspaceRequest _)) eqn:V; [by intros [= <- <-]|]. apply negb_false_iff in V.
  destruct (w_jobs w !! _) eqn:J.
  { destruct (_ || _); by intros [= <- <-]. }
  repeat (case_match; [by intros [= <- <-]|]). intros [= <- <-]. bsplit. ssplit.
  split; [done|]. intros _. split_and!; try done; lia.
Qed.

Lemma reserve_ok m w r w' : ws_ok w → reserve m w = (r, w') → ws_ok w'.
Proof.
  intros O R. destruct (reserve_spec _ _ _ _ R) as [Same New].
  destruct r as [[|]|]; try (by rewrite Same). destruct (New eq_refl) as (V & J & St & A & Sz & In & ->). destruct O. unfold input_size in *. split; simpl.
  - intros i x [[<- _]|[_ ?]]%lookup_insert_Some; eauto.
  - intros _. rewrite lookup_insert_eq. eauto.
  - intros i x [[<- <-]|[Ni Hi]]%lookup_insert_Some; [done|]. rewrite (ok_done0 _ _ Hi), A.
    split; [intros <-; by apply ok_names0 in Hi|done].
  - intros i x [[<- <-]|[_ ?]]%lookup_insert_Some; [done|eauto].
  - rewrite map_size_insert_None by done. lia.
  - rewrite msum_insert by done. unfold job_input at 1. simpl. destruct ok_input0. lia.
  - rewrite msum_insert by done. unfold job_kept at 1. simpl. destruct ok_output0. unfold zlen. simpl. lia.
  - intros i x [[<- <-]|[_ ?]]%lookup_insert_Some; [unfold job_kept, zlen; simpl; lia|eauto].
Qed.
Lemma finish_spec id code err w :
  ws_ok w → is_Some (w_jobs w !! id) → ∃ w', finishLocked id code err w = Some w' ∧ ws_ok w' ∧
    w_owner w' = w_owner w ∧ w_root w' = w_root w ∧ w_id w' = w_id w ∧ stateLocked w' = stateLocked w ∧ w_stopping w' = w_stopping w ∧
    (∀ i, i ≠ id → w_jobs w' !! i = w_jobs w !! i) ∧
    ∃ j j', w_jobs w !! id = Some j ∧ w_jobs w' !! id = Some j' ∧ wj_done j' = true ∧ same_data j j' ∧
      (wj_done j = true → w' = w) ∧ (∀ m, job_of j m → job_of j' m) ∧ (wj_done j = false → w_active w' = ""%string).
Proof.
  intros O [j J]. unfold finishLocked. rewrite J. destruct (wj_done j) eqn:D.
  { exists w. split_and!; try done. exists j, j. unfold same_data. split_and!; try done. by rewrite D. }
  assert (w_active w = id) as A by (by apply (ok_done w O _ _ J)).
  eexists. split; [done|]. rewrite (proj2 (String.eqb_eq _ _) A).
  pose proof O as []. split_and!; try done.
  - split; simpl.
    + intros i x [[<- _]|[_ ?]]%lookup_insert_Some; eauto.
    + done.
    + intros i x [[<- <-]|[N ?]]%lookup_insert_Some; simpl; [split; [done|]|].
      * intros <-. by apply ok_names0 in J.
      * rewrite (ok_done0 _ _ H), A. split; [done|]. intros <-. by apply ok_names0 in H.
    + intros i x [[<- <-]|[_ ?]]%lookup_insert_Some; [done|eauto].
    + by rewrite map_size_insert_Some by eauto.
    + rewrite (msum_update _ _ _ _ _ J). unfold job_input at 2 3. simpl. destruct ok_input0; lia.
    + rewrite (msum_update _ _ _ _ _ J). unfold job_kept at 2 3. simpl. destruct ok_output0; lia.
    + intros i x [[<- <-]|[_ ?]]%lookup_insert_Some; [by apply ok_total0 in J|eauto].
  - intros i N. simpl. by rewrite lookup_insert_ne.
  - exists j, (finished_job code err j). split_and!; try done; [apply lookup_insert_eq|by rewrite D].
Qed.

Lemma grow_ok w id j o total n :
  ws_ok w → w_jobs w !! id = Some j → 0 <= n → zlen o = job_kept j + n → n <= maxWorkspaceOutput - w_outputBytes w →
  zlen o <= total → (zlen o < total → w_outputBytes w + n = maxWorkspaceOutput) →
  ws_ok (set_outputBytes (w_outputBytes w + n) (set_jobs (<[id := set_output o total j]> (w_jobs w)) w)).
Proof.
  intros [] J N K L T F. split; simpl.
  - intros i x [[<- _]|[_ ?]]%lookup_insert_Some; eauto.
  - intros A. destruct (decide (id = w_active w)) as [<-|]; [rewrite lookup_insert_eq; eauto|rewrite lookup_insert_ne by done; auto].
  - intros i x [[<- <-]|[_ ?]]%lookup_insert_Some; simpl; eauto.
  - intros i x [[<- <-]|[_ ?]]%lookup_insert_Some; simpl; eauto.
  - by rewrite map_size_insert_Some by eauto.
  - rewrite (msum_update _ _ _ _ _ J). unfold job_input at 2 3. simpl. destruct ok_input0. lia.
  - rewrite (msum_update _ _ _ _ _ J). unfold job_kept at 3. simpl. destruct ok_output0. lia.
  - intros i x [[<- <-]|[_ Hi]]%lookup_insert_Some; [by unfold job_kept|].
    pose proof (ok_total0 _ _ Hi) as [? Q]. split; [done|]. intros R. specialize (Q R). lia.
Qed.

Lemma write_spec id t w j :
  ws_ok w → w_jobs w !! id = Some j → ∃ w', workspaceWriter_Write id t w = Some w' ∧ ws_ok w' ∧
    w_owner w' = w_owner w ∧ w_root w' = w_root w ∧ w_id w' = w_id w ∧ stateLocked w' = stateLocked w ∧ w_stopping w' = w_stopping w ∧
    (∀ i, i ≠ id → w_jobs w' !! i = w_jobs w !! i) ∧ w_active w' = w_active w ∧
    w_jobs w' !! id = Some (set_output (wj_output j ++ stake (Z.to_nat (maxWorkspaceOutput - w_outputBytes w)) t)%string (wj_total j + zlen t) j).
Proof.
  intros O J. unfold workspaceWriter_Write. rewrite J.
  pose proof (zlen_nonneg t). pose proof (ok_total _ O _ _ J) as [Tot Full]. pose proof (ok_output _ O) as [_ Out].
  set (room := maxWorkspaceOutput - w_outputBytes w) in *.
  set (n := Z.min (zlen t) room). assert (0 <= n <= room) as Hn by lia.
  assert (stake (Z.to_nat room) t = stake (Z.to_nat n) t) as E.
  { unfold n. destruct (Z.le_ge_cases (zlen t) room) as [L|L]; [|by rewrite Z.min_r].
    rewrite Z.min_l by done. unfold zlen in *. rewrite !stake_all by lia. done. }
  rewrite E. assert (ws_ok (set_outputBytes (w_outputBytes w + n)
    (set_jobs (<[id:=set_output (wj_output j ++ stake (Z.to_nat n) t)%string (wj_total j + zlen t) j]> (w_jobs w)) w))) as G.
  { assert (zlen (wj_output j ++ stake (Z.to_nat n) t) = job_kept j + n) as K.
    { rewrite zlen_app. unfold job_kept, zlen at 2. rewrite slen_stake. unfold n, zlen in *. lia. }
    apply grow_ok; try done; lia. }
  destruct (Z.ltb_spec 0 n) as [P|P]; eexists; (split; [done|]).
  - split_and!; try done; [intros i N; simpl; by rewrite lookup_insert_ne|simpl; by rewrite lookup_insert_eq].
  - replace n with 0 in * by lia. simpl in *. rewrite app_nil_s in *. rewrite Z.add_0_r in G.
    split_and!; try done; [intros i N; by rewrite lookup_insert_ne|by rewrite lookup_insert_eq].
Qed.

(** What no operation changes of a workspace, and what only goes one way. *)
Definition same_workspace (w w' : workspace) : Prop :=
  w_owner w' = w_owner w ∧ w_root w' = w_root w ∧ w_id w' = w_id w ∧
  (stateLocked w ≠ ShellOpen → stateLocked w' ≠ ShellOpen) ∧ (w_stopping w = true → w_stopping w' = true).

#[export] Instance same_workspace_po : PreOrder same_workspace.
Proof.
  split; [by intros w; split_and!|]. intros x y z (A & B & C & D & E) (A' & B' & C' & D' & E').
  split_and!; [congruence..|auto|auto].
Qed.

Lemma flags_same sc ca cl st w :
  (w_shellClosed w = true → sc = true) → (w_closed w = true → cl = true) → (w_stopping w = true → st = true) →
  same_workspace w (set_flags sc ca cl st w).
Proof.
  intros S C T. split_and!; try done. unfold stateLocked. simpl.
  destruct (w_closed w); [by rewrite C|]. destruct (w_stopping w); [rewrite T by done; by destruct cl|].
  destruct (w_shellClosed w); [rewrite S by done; by destruct cl, st|done].
Qed.

Lemma reserve_same m w r w' : reserve m w = (r, w') → same_workspace w w'.
Proof.
  intros R. destruct (reserve_spec _ _ _ _ R) as [Same New].
  destruct r as [[|]|]; try (by rewrite Same). destruct (New eq_refl) as (_ & _ & _ & _ & _ & _ & ->). by split_and!.
Qed.

Lemma submit_spec m w r w' :
  submit shell dflt m w = (r, w') →
  match r with
  | Fresh source => workspaceSource shell dflt m = Ok source ∧ reserve m w = (Ok true, w')
  | _ => w' = w
  end.
Proof.
  unfold submit. case_match; [by intros [= <- <-]|]. case_match; [by intros [= <- <-]|].
  destruct (workspaceSource shell dflt m) as [source|e]; [|by intros [= <- <-]].
  destruct (reserve m w) as [r0 w0] eqn:R. destruct (reserve_spec _ _ _ _ R) as [Same _].
  destruct r0 as [[|]|]; intros [= <- <-]; [done|by apply Same..].
Qed.

Lemma locate_spec dir m w :
  ws_ok w → is_Some (w_jobs w !! q_RequestID m) → ∃ r w', locate dir m w = Some (r, w') ∧
    (∀ cwd, r = Ok cwd → w' = w ∧ (cwd = currentDir dir ∧ q_Cwd m = ""%string ∨ resolve (q_Cwd m) w = Ok cwd)) ∧
    (∀ e, r = Err e → finishLocked (q_RequestID m) (-1) (Some e) w = Some w').
Proof.
  intros O J. unfold locate. destruct (String.eqb_spec (q_Cwd m) "") as [E|E]; simpl.
  { eexists _, w. split; [done|]. split; [|done]. intros cwd [= <-]. auto. }
  destruct (resolve (q_Cwd m) w) as [cwd|e] eqn:R.
  - eexists _, w. split; [done|]. split; [|done]. intros ? [= <-]. auto.
  - destruct (finish_spec (q_RequestID m) (-1) (Some e) w O J) as (w' & F & _). rewrite F. simpl.
    eexists _, w'. split; [done|]. split; [done|]. by intros ? [= <-].
Qed.

Lemma decide_spec ok m w j :
  ws_ok w → w_jobs w !! q_RequestID m = Some j → ∃ run w', decide_command ok m w = Some (run, w') ∧
    (run = true ↔ ok = true ∧ stateLocked w = ShellOpen) ∧
    (run = true → w' = set_jobs (<[q_RequestID m := set_state Running j]> (w_jobs w)) w) ∧
    (run = false → ∃ e, finishLocked (q_RequestID m) (-1) (Some e) w = Some w').
Proof.
  intros O J. unfold decide_command. set (open := bool_decide _). destruct (negb ok || negb open) eqn:E.
  - set (e := if open then _ else _). destruct (finish_spec (q_RequestID m) (-1) (Some e) w O) as (w' & F & _); [eauto|].
    rewrite F. simpl. exists false, w'. split; [done|]. split; [|split; [done|eauto]].
    split; [done|]. intros [-> S]. unfold open in E. by rewrite bool_decide_eq_true_2 in E.
  - rewrite J. simpl. eexists true, _. split; [done|]. unfold open in *. bsplit. by split_and!.
Qed.

Lemma ended_spec id code runErr dir w j :
  ws_ok w → w_jobs w !! id = Some j → ∃ w1 w', w1 = set_jobs (<[id := set_dirAfter (match runErr with None => currentDir dir | Some _ => ""%string end) j]> (w_jobs w)) w ∧
    ws_ok w1 ∧ command_ended id code runErr dir w = Some w' ∧ finishLocked id code (ErrRun <$> runErr) w1 = Some w'.
Proof.
  intros O J. unfold command_ended. rewrite J. simpl. eexists. set (w1 := set_jobs _ _).
  assert (ws_ok w1) as O1 by (apply (update_ok w id j); try done; by apply (ok_state w O id j)).
  destruct (finish_spec id code (ErrRun <$> runErr) w1 O1) as (w' & F & _); [simpl; rewrite lookup_insert_eq; eauto|].
  by exists w'.
Qed.

Lemma cancel_spec id w r :
  ws_ok w → cancel_begin id w = Ok r →
  let w1 := set_flags (w_shellClosed w) true (w_closed w) true w in
  ∃ w' j, r = Some w' ∧ w_jobs w !! id = Some j ∧ wj_done j = false ∧
    (wj_state j = Approving → finishLocked id (-1) (Some ErrCanceled) w1 = Some w') ∧ (wj_state j ≠ Approving → w' = w1).
Proof.
  intros O. unfold cancel_begin. destruct (String.eqb_spec id "") as [|N]; [done|].
  destruct (String.eqb_spec (w_active w) id) as [A|]; [|done]. simpl. intros [= <-].
  destruct (ok_active _ O) as [j J]; [congruence|]. rewrite A in J. rewrite J. simpl.
  pose proof (proj2 (ok_done _ O _ _ J) A) as D.
  destruct (decide (wj_state j = Approving)) as [S|S].
  - rewrite bool_decide_eq_true_2 by done. set (w1 := set_flags _ _ _ _ _).
    destruct (finish_spec id (-1) (Some ErrCanceled) w1) as (w' & F & _); [by apply flags_ok|by eexists|].
    exists w', j. rewrite F. by split_and!.
  - rewrite bool_decide_eq_false_2 by done. eexists _, j. by split_and!.
Qed.

(** ** The invariant *)

Definition st_key (st : start) : nat * string := (st_ws st, st_req st).

(** What a handler between two critical sections knows; [stop] is the flag of
    its workspace. *)
Definition phase_ok (id : string) (stop : bool) (j : workspaceJob) (h : phase) : Prop :=
  q_RequestID (phase_message h) = id ∧ job_of j (phase_message h) ∧
  match h with
  | Executing _ => wj_state j = Running
  | Locating m source | Asking m source _ =>
      wj_state j ≠ Running ∧ (wj_done j = false ∨ stop = true) ∧ workspaceSource shell dflt m = Ok source
  end.

Record job_inv (p : nat) (id : string) (stop : bool) (j : workspaceJob) (h : option phase) (sts : list start)
    (ans : list (nat * string * string * string * bool)) (wr : string) : Prop := {
  ji_busy : wj_done j = false → is_Some h;
  ji_phase : ∀ x, h = Some x → phase_ok id stop j x;
  ji_started : ∀ st, st ∈ sts → st_key st = (p, id) →
    q_RequestID (st_m st) = id ∧ job_of j (st_m st) ∧ workspaceSource shell dflt (st_m st) = Ok (st_source st) ∧
    (p, id, q_Command (st_m st), st_cwd st, true) ∈ ans ∧ (∀ x, h = Some x → ∃ m, x = Executing m);
  ji_written : wj_output j = stake (slen (wj_output j)) wr ∧ wj_total j = zlen wr }.

Record sys_ok (s : wsys) : Prop := {
  sk_objs : ∀ p w, obj p s = Some w → ws_ok w;
  sk_jobs : ∀ p w id j, obj p s = Some w → w_jobs w !! id = Some j →
    job_inv p id (w_stopping w) j (handlers s !! (p, id)) (starts s) (answers s) (default ""%string (written s !! (p, id)));
  sk_exist : ∀ p id, is_Some (handlers s !! (p, id)) ∨ (p, id) ∈ st_key <$> starts s ∨ is_Some (written s !! (p, id)) →
    ∃ w j, obj p s = Some w ∧ w_jobs w !! id = Some j;
  sk_ids : ∀ id p, ws_ids (sys_ws s) !! id = Some p → ∃ w, obj p s = Some w ∧ w_id w = id;
  sk_count : (size (ws_ids (sys_ws s)) <= maxWorkspaces)%nat;
  sk_once : NoDup (st_key <$> starts s) }.

Lemma obj_insert s p w w' objs q :
  ws_objs (sys_ws s) = <[p := w']> objs → objs !! p = Some w →
  obj q s = if decide (p = q) then Some w' else objs !! q.
Proof.
  intros E O. unfold obj. rewrite E. destruct (decide (p = q)) as [<-|N]; [|by rewrite list_lookup_insert_ne].
  apply list_lookup_insert_eq. by eapply lookup_lt_Some.
Qed.

(** A step of one handler: everything away from its request stays. *)
Lemma local_step s s' p id w w' j' :
  sys_ok s → obj p s = Some w → ws_ok w' → same_workspace w w' →
  ws_objs (sys_ws s') = <[p := w']> (ws_objs (sys_ws s)) → ws_ids (sys_ws s') = ws_ids (sys_ws s) →
  (∀ i, i ≠ id → w_jobs w' !! i = w_jobs w !! i) → w_jobs w' !! id = Some j' →
  (∀ k, k ≠ (p, id) → handlers s' !! k = handlers s !! k) → (∀ k, k ≠ (p, id) → written s' !! k = written s !! k) →
  (∃ new, starts s' = starts s ++ new ∧ ∀ st, st ∈ new → st_key st = (p, id)) → answers s ⊆ answers s' →
  NoDup (st_key <$> starts s') →
  job_inv p id (w_stopping w') j' (handlers s' !! (p, id)) (starts s') (answers s') (default ""%string (written s' !! (p, id))) →
  sys_ok s'.
Proof.
  intros K O Ow' (S1 & S2 & S3 & _ & S5) EO EI Jn Ji Hn Wn (new & ES & Hnew) An ND JI.
  pose proof (λ q, obj_insert s' p w w' _ q EO O) as OB.
  assert (∀ q v, obj q s = Some v → ∃ v', obj q s' = Some v' ∧ w_id v' = w_id v) as Keep.
  { intros q v Hq. rewrite OB. destruct (decide (p = q)) as [<-|]; [|eauto].
    exists w'. split; [done|]. unfold obj in O, Hq. congruence. }
  split.
  - intros q v. rewrite OB. case_decide; [by intros [= <-]|]. apply (sk_objs _ K).
  - intros q v i j. rewrite OB. case_decide as D.
    + intros [= <-] J. subst q. destruct (decide (i = id)) as [->|N].
      { rewrite Ji in J. by injection J as <-. }
      rewrite Jn in J by done. destruct (sk_jobs _ K p w i j O J) as [B P St Wr].
      rewrite Hn, Wn by congruence. split; try done.
      * intros x Hx. destruct (P x Hx) as (A & C & Q). split; [done|]. split; [done|].
        destruct x; try done; destruct Q as (Q1 & Q2 & Q3); (split; [done|]); (split; [|done]); destruct Q2; auto.
      * rewrite ES. intros st [Hst|Hst]%elem_of_app Ek; [|rewrite Hnew in Ek by done; congruence].
        destruct (St st Hst Ek) as (? & ? & ? & ? & ?). split_and!; auto.
    + intros Hv J. destruct (sk_jobs _ K q v i j Hv J) as [B P St Wr].
      rewrite Hn, Wn by congruence. split; try done.
      rewrite ES. intros st [Hst|Hst]%elem_of_app Ek; [|rewrite Hnew in Ek by done; congruence].
      destruct (St st Hst Ek) as (? & ? & ? & ? & ?). split_and!; auto.
  - intros q i Hx. destruct (decide ((q, i) = (p, id))) as [[= -> ->]|N].
    { exists w', j'. split; [|done]. rewrite OB. by rewrite decide_True. }
    rewrite Hn, Wn, ES, fmap_app in Hx by done.
    destruct (sk_exist _ K q i) as (v & j & Hv & J).
    { destruct Hx as [Hx|[Hx|Hx]]; auto. right. left. apply elem_of_app in Hx as [Hx|Hx]; [done|].
      apply list_elem_of_fmap in Hx as (st & E & Hst). rewrite Hnew in E by done. congruence. }
    rewrite OB. case_decide as D; [|eauto]. subst q. unfold obj in O, Hv. assert (v = w) as -> by congruence.
    exists w', j. split; [done|]. rewrite Jn by congruence. done.
  - rewrite EI. intros i q Hq. destruct (sk_ids _ K i q Hq) as (v & Hv & <-). apply (Keep q v Hv).
  - rewrite EI. apply (sk_count _ K).
  - done.
Qed.

(** A step that changes flags only, or nothing of any object. *)
Lemma flag_step s s' p w w' :
  sys_ok s → obj p s = Some w → ws_ok w' → same_workspace w w' → w_jobs w' = w_jobs w →
  s' = on_obj p w' s → sys_ok s'.
Proof.
  intros K O Ow' (S1 & S2 & S3 & _ & S5) EJ ->.
  pose proof (λ q, obj_insert (on_obj p w' s) p w w' _ q eq_refl O) as OB. split; simpl.
  - intros q v. rewrite OB. case_decide; [by intros [= <-]|]. apply (sk_objs _ K).
  - intros q v i j. rewrite OB. case_decide as D; [|apply (sk_jobs _ K)].
    intros [= <-] J. subst q. rewrite EJ in J. destruct (sk_jobs _ K p w i j O J) as [B P St Wr]. split; try done.
    intros x Hx. destruct (P x Hx) as (A & C & Q). split; [done|]. split; [done|].
    destruct x; try done; destruct Q as (Q1 & Q2 & Q3); (split; [done|]); (split; [|done]); destruct Q2; auto.
  - intros q i Hx. destruct (sk_exist _ K q i Hx) as (v & j & Hv & J). rewrite OB. case_decide as D; [|eauto].
    subst q. unfold obj in O, Hv. assert (v = w) as -> by congruence. exists w', j. by rewrite EJ.
  - intros i q Hq. destruct (sk_ids _ K i q Hq) as (v & Hv & <-). rewrite OB. case_decide as D; [|eauto].
    exists w'. split; [done|]. subst q. unfold obj in O, Hv. congruence.
  - apply (sk_count _ K).
  - apply (sk_once _ K).
Qed.

Lemma ids_step s a :
  sys_ok s → ws_objs a = ws_objs (sys_ws s) → ws_ids a ⊆ ws_ids (sys_ws s) → sys_ok (on_ws a s).
Proof.
  intros K EO EI. assert (∀ q, obj q (on_ws a s) = obj q s) as OB by (intros q; unfold obj; simpl; by rewrite EO).
  split; simpl.
  - intros q v. rewrite OB. apply (sk_objs _ K).
  - intros q v i j. rewrite OB. apply (sk_jobs _ K).
  - intros q i Hx. rewrite OB. by apply (sk_exist _ K).
  - intros i q Hq. rewrite OB. apply (sk_ids _ K). by eapply lookup_weaken.
  - etrans; [|apply (sk_count _ K)]. by apply map_subseteq_size.
  - apply (sk_once _ K).
Qed.

(** A submission that is taken down. *)
Lemma submit_step s fp p m s' : sys_ok s → wapply (ESubmit fp p m) s = Some s' → sys_ok s'.
Proof.
  intros K. simpl. destruct (obj p s) as [w|] eqn:O; [|done]. simpl. destruct (negb _); [done|].
  destruct (submit shell dflt m w) as [r w'] eqn:S. apply submit_spec in S.
  destruct r as [e| |source]; [subst w'| subst w'|]; intros [= <-];
    try (eapply (flag_step s _ p w w); try done; by apply (sk_objs _ K p)).
  destruct S as [Src R]. destruct (reserve_spec _ _ _ _ R) as [_ New]. destruct (New eq_refl) as (V & J & St & A & _ & _ & E).
  assert (∀ x, x ∉ st_key <$> starts s ∨ x ≠ (p, q_RequestID m)) as NS.
  { intros x. destruct (decide (x = (p, q_RequestID m))) as [->|]; [left|by right].
    intros Hx. destruct (sk_exist _ K p (q_RequestID m)) as (v & j & Hv & Hj); [auto|]. congruence. }
  eapply (local_step s _ p (q_RequestID m) w w'); try done.
  - eapply reserve_ok; [|done]. by apply (sk_objs _ K p).
  - by eapply reserve_same.
  - rewrite E. intros i N. simpl. by rewrite lookup_insert_ne.
  - rewrite E. simpl. by rewrite lookup_insert_eq.
  - intros k N. simpl. by rewrite lookup_insert_ne.
  - exists []. split; [by rewrite app_nil_r|]. by intros st ?%elem_of_nil.
  - apply (sk_once _ K).
  - simpl. rewrite lookup_insert_eq. split; simpl; try done.
    + intros x [= <-]. split; [done|]. split; [by split_and!|]. by auto.
    + intros st Hst Ek. destruct (NS (st_key st)) as [N|N]; [|done]. destruct N. apply list_elem_of_fmap. eauto.
    + destruct (written s !! (p, q_RequestID m)) eqn:W; [|done].
      destruct (sk_exist _ K p (q_RequestID m)) as (v & j & Hv & Hj); [rewrite W; eauto|]. congruence.
Qed.

(** The handler of a request, its workspace and its job. *)
Lemma handler_job s p id h :
  sys_ok s → handlers s !! (p, id) = Some h → ∃ w j, obj p s = Some w ∧ ws_ok w ∧ w_jobs w !! id = Some j ∧
    phase_ok id (w_stopping w) j h ∧
    job_inv p id (w_stopping w) j (Some h) (starts s) (answers s) (default ""%string (written s !! (p, id))).
Proof.
  intros K H. destruct (sk_exist _ K p id) as (w & j & O & J); [rewrite H; eauto|].
  pose proof (sk_jobs _ K p w id j O J) as JI. rewrite H in JI. exists w, j.
  split_and!; try done; [by apply (sk_objs _ K p)|by apply (ji_phase _ _ _ _ _ _ _ _ JI)].
Qed.

(** A job that ends keeps its inputs and its output. *)
Lemma job_inv_ended p id stop j j' h sts sts' ans ans' wr :
  job_inv p id stop j h sts ans wr → wj_done j' = true → same_data j j' → (∀ m, job_of j m → job_of j' m) →
  sts' = sts → ans ⊆ ans' → job_inv p id stop j' None sts' ans' wr.
Proof.
  intros [] D (_ & U & T) M -> An. split; try done.
  - by rewrite D.
  - intros st Hst Ek. destruct (ji_started0 st Hst Ek) as (? & ? & ? & ? & _). split_and!; auto. done.
  - by rewrite U, T.
Qed.

Ltac keep_starts := exists []; split; [by rewrite app_nil_r|by intros ? ?%elem_of_nil].

Lemma locate_step s p id dir s' : sys_ok s → wapply (ELocate p id dir) s = Some s' → sys_ok s'.
Proof.
  intros K. simpl. destruct (obj p s) as [w|] eqn:O; [|done]. simpl.
  destruct (handlers s !! (p, id)) as [[m source| |]|] eqn:H; try done.
  destruct (handler_job s p id _ K H) as (w0 & j & O' & Ow & J & (<- & M & P1 & P2 & P3) & JI).
  rewrite O in O'. injection O' as <-. simpl in J, M.
  destruct (locate_spec dir m w Ow) as (r & w' & E & Good & Bad); [by eexists|]. rewrite E. destruct r as [cwd|e]; intros [= <-].
  - destruct (Good cwd eq_refl) as [-> _]. eapply (local_step s _ p (q_RequestID m) w w); try done.
    + intros k N. simpl. by rewrite lookup_insert_ne.
    + keep_starts.
    + apply (sk_once _ K).
    + simpl. rewrite lookup_insert_eq. destruct JI. split; try done; [by intros x [= <-]|].
      intros st Hst Ek. destruct (ji_started0 st Hst Ek) as (_ & _ & _ & _ & X). by destruct (X _ eq_refl).
  - destruct (finish_spec (q_RequestID m) (-1) (Some e) w Ow) as (w1 & F & Ow1 & S1 & S2 & S3 & S4 & S5 & Jn & j0 & j1 & J0 & J1 & D & SD & _ & M1 & _);
      [by eexists|]. rewrite (Bad e eq_refl) in F. injection F as ->. rewrite J in J0. injection J0 as <-.
    eapply (local_step s _ p (q_RequestID m) w w1); try done.
    + split_and!; try done; congruence.
    + intros k N. simpl. by rewrite lookup_delete_ne.
    + keep_starts.
    + apply (sk_once _ K).
    + simpl. rewrite lookup_delete_eq, S5. by eapply job_inv_ended.
Qed.

Lemma open_not_stopping w : stateLocked w = ShellOpen → w_stopping w = false.
Proof. unfold stateLocked. destruct (w_closed w); [done|]. by destruct (w_stopping w). Qed.

Lemma decide_step s p id ok s' : sys_ok s → wapply (EDecide p id ok) s = Some s' → sys_ok s'.
Proof.
  intros K. simpl. destruct (obj p s) as [w|] eqn:O; [|done]. simpl.
  destruct (handlers s !! (p, id)) as [[|m source cwd|]|] eqn:H; try done.
  destruct (handler_job s p id _ K H) as (w0 & j & O' & Ow & J & (<- & M & P1 & P2 & P3) & JI).
  rewrite O in O'. injection O' as <-. simpl in J, M.
  assert ((p, q_RequestID m) ∉ st_key <$> starts s) as Fresh.
  { intros (st & Ek & Hst)%list_elem_of_fmap. destruct (ji_started _ _ _ _ _ _ _ _ JI st Hst) as (_ & _ & _ & _ & X); [done|].
    by destruct (X _ eq_refl). }
  destruct (decide_spec ok m w j Ow J) as (run & w' & E & Iff & Yes & No). rewrite E. destruct run; intros [= <-].
  - destruct (proj1 Iff eq_refl) as [-> Op]. rewrite (Yes eq_refl). apply open_not_stopping in Op.
    destruct P2 as [D|]; [|congruence].
    eapply (local_step s _ p (q_RequestID m) w (set_jobs (<[q_RequestID m := set_state Running j]> (w_jobs w)) w)); try done.
    + apply (update_ok w (q_RequestID m) j); try done. simpl. by rewrite D.
    + intros i N. simpl. by rewrite lookup_insert_ne.
    + simpl. by rewrite lookup_insert_eq.
    + intros k N. simpl. by rewrite lookup_insert_ne.
    + simpl. eexists [_]. split; [done|]. by intros st ->%list_elem_of_singleton.
    + simpl. by apply list_subseteq_app_l.
    + simpl. rewrite fmap_app. apply NoDup_app. split; [apply (sk_once _ K)|]. split; [|apply NoDup_singleton].
      by intros x Hx ->%list_elem_of_singleton.
    + simpl. rewrite lookup_insert_eq. destruct JI. split; try done.
      * intros x [= <-]. by split.
      * intros st [Hst|Hst]%elem_of_app Ek; [by destruct Fresh; apply list_elem_of_fmap; eauto|].
        apply list_elem_of_singleton in Hst as ->. simpl. split_and!; try done.
        -- apply elem_of_app. right. by apply list_elem_of_singleton.
        -- intros x [= <-]. eauto.
  - destruct (No eq_refl) as [e F']. destruct (finish_spec (q_RequestID m) (-1) (Some e) w Ow) as (w1 & F & Ow1 & S1 & S2 & S3 & S4 & S5 & Jn & j0 & j1 & J0 & J1 & D & SD & _ & M1 & _);
      [by eexists|]. rewrite F' in F. injection F as ->. rewrite J in J0. injection J0 as <-.
    eapply (local_step s _ p (q_RequestID m) w w1); try done.
    + split_and!; try done; congruence.
    + intros k N. simpl. by rewrite lookup_delete_ne.
    + keep_starts.
    + simpl. by apply list_subseteq_app_l.
    + apply (sk_once _ K).
    + simpl. rewrite lookup_delete_eq, S5. eapply job_inv_ended; try done. by apply list_subseteq_app_l.
Qed.

Lemma stake_min_len n t : stake (Nat.min n (slen t)) t = stake n t.
Proof. destruct (Nat.le_ge_cases n (slen t)); [by rewrite Nat.min_l|]. rewrite Nat.min_r by done. by rewrite !stake_all. Qed.

Lemma write_step s p id t s' : sys_ok s → wapply (EWrite p id t) s = Some s' → sys_ok s'.
Proof.
  intros K. simpl. destruct (obj p s) as [w|] eqn:O; [|done]. simpl.
  destruct (handlers s !! (p, id)) as [[| |m]|] eqn:H; try done.
  destruct (handler_job s p id _ K H) as (w0 & j & O' & Ow & J & (<- & M & P) & JI).
  rewrite O in O'. injection O' as <-. simpl in J, M, P, H, JI. simpl.
  destruct (write_spec (q_RequestID m) t w j Ow J) as (w' & E & Ow' & S1 & S2 & S3 & S4 & S5 & Jn & A & J'). rewrite E. simpl. intros [= <-].
  eapply (local_step s _ p (q_RequestID m) w w'); try done.
  - split_and!; try done; congruence.
  - intros k N. simpl. by rewrite lookup_insert_ne.
  - keep_starts.
  - apply (sk_once _ K).
  - simpl. rewrite lookup_insert_eq, S5, H. destruct JI as [B Ph St [Wo Wt]]. simpl. split; simpl; try done.
    split; [|by rewrite zlen_app, <- Wt]. set (wr := default ""%string _) in *.
    pose proof (ok_total _ Ow _ _ J) as [Tot Full]. unfold job_kept in *.
    rewrite slen_app, slen_stake. destruct (decide (slen (wj_output j) = slen wr)) as [L|L].
    + rewrite L in *. rewrite stake_all in Wo by done. rewrite Wo. rewrite stake_app_add.
      by rewrite stake_min_len.
    + unfold zlen in *. assert (Z.of_nat (slen (wj_output j)) < wj_total j) as Lt.
      { rewrite Wo, slen_stake in *. lia. }
      rewrite (Full Lt), Z.sub_diag. simpl. rewrite app_nil_s, Nat.add_0_r.
      rewrite stake_app_le; [done|]. lia.
Qed.

Lemma end_step s p id code runErr dir s' : sys_ok s → wapply (EEnd p id code runErr dir) s = Some s' → sys_ok s'.
Proof.
  intros K. simpl. destruct (obj p s) as [w|] eqn:O; [|done]. simpl.
  destruct (handlers s !! (p, id)) as [[| |m]|] eqn:H; try done.
  destruct (handler_job s p id _ K H) as (w0 & j & O' & Ow & J & (<- & M & P) & JI).
  rewrite O in O'. injection O' as <-. simpl in J, M, P, H, JI. simpl.
  destruct (ended_spec (q_RequestID m) code runErr dir w j Ow J) as (w1 & w' & E1 & O1 & E & F').
  assert (is_Some (w_jobs w1 !! q_RequestID m)) as J1' by (rewrite E1; simpl; rewrite lookup_insert_eq; by eexists).
  destruct (finish_spec (q_RequestID m) code (ErrRun <$> runErr) w1 O1 J1') as (w2 & F & Ow2 & S1 & S2 & S3 & S4 & S5 & Jn & j0 & j1 & J0 & J1 & D & SD & _ & M1 & _).
  rewrite F' in F. injection F as ->. rewrite E. simpl. intros [= <-].
  rewrite E1 in J0. simpl in J0. rewrite lookup_insert_eq in J0. injection J0 as <-.
  assert (w_stopping w1 = w_stopping w) as Sw by (by rewrite E1).
  eapply (local_step s _ p (q_RequestID m) w w2); try done.
  - trans w1; [by rewrite E1|]. split_and!; congruence.
  - intros i N. rewrite Jn, E1 by done. simpl. by rewrite lookup_insert_ne.
  - intros k N. simpl. by rewrite lookup_delete_ne.
  - keep_starts.
  - apply (sk_once _ K).
  - simpl. rewrite lookup_delete_eq, S5, Sw. eapply job_inv_ended; [exact JI|done|exact SD| |done|done].
    intros x Hx. apply M1. exact Hx.
Qed.

Lemma cancel_step s fp p id s' : sys_ok s → wapply (ECancel fp p id) s = Some s' → sys_ok s'.
Proof.
  intros K. simpl. destruct (obj p s) as [w|] eqn:O; [|done]. simpl. destruct (negb _); [done|].
  destruct (cancel_begin id w) as [r|e] eqn:C; [|by intros [= <-]].
  pose proof (sk_objs _ K p w O) as Ow.
  destruct (cancel_spec id w r Ow C) as (w' & j & -> & J & D & App & Run). intros [= <-].
  set (w1 := set_flags (w_shellClosed w) true (w_closed w) true w) in *.
  assert (same_workspace w w1) as Sw by (by apply flags_same).
  destruct (decide (wj_state j = Approving)) as [A|A].
  - destruct (finish_spec id (-1) (Some ErrCanceled) w1) as (w2 & F & Ow2 & S1 & S2 & S3 & S4 & S5 & Jn & j0 & j1 & J0 & J1 & D1 & SD & _ & M1 & _);
      [by apply flags_ok|by eexists|]. rewrite (App A) in F. injection F as ->.
    simpl in J0. rewrite J in J0. injection J0 as <-. destruct Sw as (Q1 & Q2 & Q3 & Q4 & Q5).
    pose proof (sk_jobs _ K p w id j O J) as JI.
    eapply (local_step s _ p id w w2); try done.
    + split_and!; try congruence; [intros; rewrite S4; auto|intros; by rewrite S5].
    + keep_starts.
    + apply (sk_once _ K).
    + simpl. rewrite S5. destruct JI as [B Ph St Wr]. split; try done.
      * by rewrite D1.
      * intros x Hx. destruct (Ph x Hx) as (I1 & I2 & I3). split; [done|]. split; [auto|].
        pose proof (ok_state _ Ow2 _ _ J1) as [Z1 _]. specialize (Z1 D1).
        destruct x; [| |congruence]; destruct I3 as (_ & _ & I3); split_and!; try done; (by rewrite Z1) || by right.
      * intros st Hst Ek. destruct (St st Hst Ek) as (? & ? & ? & ? & ?). split_and!; auto.
      * destruct SD as (_ & -> & ->). done.
  - rewrite (Run A). eapply (flag_step s _ p w w1); try done. by apply flags_ok.
Qed.

Lemma open_step s stat sh fp id path : sys_ok s → sys_ok (on_ws (openWorkspace stat sh fp id path (sys_ws s)).2 s).
Proof.
  intros K. assert (sys_ok (on_ws (sys_ws s) s)) as Same by (by destruct s).
  unfold openWorkspace. repeat (case_match; try exact Same).
  assert (ws_ids (sys_ws s) !! id = None) as Nid.
  { destruct (ws_ids (sys_ws s) !! id) as [p|] eqn:E; [|done]. destruct (sk_ids _ K id p E) as (w & Hw & _).
    unfold obj in Hw. simpl in *. rewrite Hw in *. done. }
  simpl. set (w0 := Workspace _ _ _ _ _ _ _ _ _ _ _). set (n := length _).
  assert (∀ q v, obj q s = Some v → (ws_objs (sys_ws s) ++ [w0]) !! q = Some v) as Old.
  { intros q v Hq. by apply lookup_app_l_Some. }
  assert (∀ q v, (ws_objs (sys_ws s) ++ [w0]) !! q = Some v → obj q s = Some v ∨ q = n ∧ v = w0) as Cases.
  { intros q v [Hq|[L Hq]]%lookup_app_Some; [by left|]. right.
    destruct (q - length (ws_objs (sys_ws s)))%nat as [|k] eqn:Ek; simpl in Hq; [|done]. injection Hq as <-. split; [unfold n; lia|done]. }
  split; unfold obj; simpl.
  - intros q v [Hq|[-> ->]]%Cases; [by apply (sk_objs _ K q)|]. split; simpl; try done; rewrite ?msum_empty; try done. unfold maxWorkspaceRequests. rewrite map_size_empty. lia.
  - intros q v i j [Hq|[-> ->]]%Cases J; [by apply (sk_jobs _ K q v)|done].
  - intros q i Hx. destruct (sk_exist _ K q i Hx) as (v & j & Hv & J). exists v, j. split; [by apply Old|done].
  - intros i q [[<- <-]|[_ Hq]]%lookup_insert_Some.
    + exists w0. split; [|done]. unfold n. rewrite lookup_app_r, Nat.sub_diag by done. done.
    + destruct (sk_ids _ K i q Hq) as (v & Hv & <-). exists v. split; [by apply Old|done].
  - rewrite map_size_insert_None by done. bsplit. lia.
  - apply (sk_once _ K).
Qed.

Lemma wapply_ok e s s' : sys_ok s → wapply e s = Some s' → sys_ok s'.
Proof.
  intros K. destruct e.
  - intros [= <-]. by apply open_step.
  - by apply submit_step.
  - by apply locate_step.
  - by apply decide_step.
  - by apply write_step.
  - by apply end_step.
  - by apply cancel_step.
  - simpl. destruct (obj p s) as [w|] eqn:O; [|done]. intros [= <-].
    eapply (flag_step s _ p w (stop_begin w)); try done; by apply flags_ok, (sk_objs _ K p).
  - simpl. destruct (obj p s) as [w|] eqn:O; [|done]. intros [= <-].
    eapply (flag_step s _ p w (shell_closed w)); try done; [by apply flags_ok, (sk_objs _ K p)|by apply flags_same].
  - simpl. destruct (obj p s) as [w|] eqn:O; [|done]. simpl. destruct (w_closed w); [|done]. intros [= <-].
    apply ids_step; [done|done|]. simpl. apply delete_subseteq.
  - intros [= <-]. apply ids_step; [done|done|]. simpl. apply map_empty_subseteq.
  - intros [= <-]. by apply ids_step.
  - simpl. destruct (0 <? _); [|done]. intros [= <-]. by apply ids_step.
Qed.

Lemma device_workspaces_ok s : device_workspaces s → sys_ok s.
Proof.
  apply invariant_reachable; [|by intros x y K [e E]; eapply wapply_ok].
  intros x ->. split; unfold obj; simpl; try done.
  - intros p id [H|[H|H]]; [by destruct H|by apply elem_of_nil in H|by destruct H].
  - rewrite map_size_empty. unfold maxWorkspaces. lia.
  - constructor.
Qed.

(** ** What the ledger guarantees *)

(** A device keeps at most sixteen workspaces that answer to an id, and each
    is bounded: at most 128 requests, a mebibyte of their inputs, eight of
    their output, counted exactly; at most one request of it is unfinished, and
    that one is the active request.  What is kept of a command's output is the
    beginning of what it wrote, counted in full, and falls short of it only
    when the workspace is full. *)
Lemma workspace_bounded s :
  device_workspaces s →
  (size (ws_ids (sys_ws s)) <= maxWorkspaces)%nat ∧
  ∀ p w, obj p s = Some w →
    (size (w_jobs w) <= maxWorkspaceRequests)%nat ∧
    msum job_input (w_jobs w) <= maxWorkspaceInput ∧ msum job_kept (w_jobs w) <= maxWorkspaceOutput ∧
    ∀ id j, w_jobs w !! id = Some j →
      (wj_done j = false ↔ w_active w = id) ∧
      (let wrote := default ""%string (written s !! (p, id)) in
       wj_total j = zlen wrote ∧ wj_output j = stake (slen (wj_output j)) wrote ∧
       (wj_output j ≠ wrote → msum job_kept (w_jobs w) = maxWorkspaceOutput)).
Proof.
  intros R. pose proof (device_workspaces_ok s R) as K. split; [apply (sk_count _ K)|].
  intros p w O. pose proof (sk_objs _ K p w O) as Ow. destruct (ok_input _ Ow) as [I1 I2], (ok_output _ Ow) as [O1 O2].
  rewrite <- I1, <- O1. split_and!; [apply (ok_size _ Ow)|done|done|]. intros id j J.
  split; [by apply (ok_done _ Ow)|]. cbn zeta.
  destruct (ji_written _ _ _ _ _ _ _ _ (sk_jobs _ K p w id j O J)) as [W1 W2]. split; [done|]. split; [done|].
  intros N. apply (ok_total _ Ow id j J). unfold job_kept. rewrite W2. unfold zlen.
  enough (¬ (slen (default ""%string (written s !! (p, id))) <= slen (wj_output j))%nat) by lia.
  intros L. apply N. rewrite W1. by rewrite stake_all.
Qed.

(** C7: a request is run at most once, however often it is delivered, and only as
    it was put to the gate.  Of all the commands a device ever started in its
    workspaces no two belong to one request of one workspace; each is a request
    of the ledger with the same inputs, started with the source those inputs
    stand for, after the gate allowed its command in the directory it runs in;
    and a second submission under the same id starts nothing, and is refused if
    its inputs differ. *)
Theorem request_runs_once s :
  device_workspaces s →
  NoDup (st_key <$> starts s) ∧
  (∀ st, st ∈ starts s → ∃ w j, obj (st_ws st) s = Some w ∧ w_jobs w !! st_req st = Some j ∧ job_of j (st_m st) ∧
     workspaceSource shell dflt (st_m st) = Ok (st_source st) ∧
     (st_ws st, st_req st, q_Command (st_m st), st_cwd st, true) ∈ answers s) ∧
  (∀ p w m j, obj p s = Some w → w_jobs w !! q_RequestID m = Some j →
     (∃ e, submit shell dflt m w = (Refuse e, w)) ∨ submit shell dflt m w = (Duplicate, w) ∧ job_of j m).
Proof.
  intros R. pose proof (device_workspaces_ok s R) as K. split; [apply (sk_once _ K)|]. split.
  - intros st Hst. destruct (sk_exist _ K (st_ws st) (st_req st)) as (w & j & O & J).
    { right. left. apply list_elem_of_fmap. by exists st. }
    exists w, j. destruct (ji_started _ _ _ _ _ _ _ _ (sk_jobs _ K _ w _ j O J) st Hst eq_refl) as (_ & M & Src & An & _).
    by split_and!.
  - intros p w m j O J. unfold submit. case_match; [eauto|]. case_match; [eauto|].
    destruct (workspaceSource shell dflt m); [|eauto]. unfold reserve. destruct (negb (validWorkspaceRequest _)); [eauto|]. rewrite J.
    destruct (_ || negb (String.eqb (wj_interp j) _)) eqn:E; [eauto|]. right. split; [done|]. unfold job_of. bsplit. ssplit. done.
Qed.

(** ** What never goes back *)

Lemma finish_same id code e w w' : finishLocked id code e w = Some w' → same_workspace w w'.
Proof. unfold finishLocked. repeat case_match; try done; by intros [= <-]. Qed.

Lemma write_same id t w w' : workspaceWriter_Write id t w = Some w' → same_workspace w w'.
Proof. unfold workspaceWriter_Write. repeat case_match; try done; by intros [= <-]. Qed.

Lemma locate_same dir m w r w' : locate dir m w = Some (r, w') → same_workspace w w'.
Proof.
  unfold locate. repeat case_match; try by intros [= _ <-].
  destruct (finishLocked _ _ _ w) eqn:F; [|done]. intros [= _ <-]. by eapply finish_same.
Qed.

Lemma decide_same ok m w r w' : decide_command ok m w = Some (r, w') → same_workspace w w'.
Proof.
  unfold decide_command. case_match.
  - destruct (finishLocked _ _ _ w) eqn:F; [|done]. intros [= _ <-]. by eapply finish_same.
  - destruct (w_jobs w !! _); [|done]. by intros [= _ <-].
Qed.

Lemma ended_same id code e dir w w' : command_ended id code e dir w = Some w' → same_workspace w w'.
Proof. unfold command_ended. destruct (w_jobs w !! id); [|done]. simpl. intros F%finish_same. by etrans; [|exact F]. Qed.

Lemma cancel_same id w w' : cancel_begin id w = Ok (Some w') → same_workspace w w'.
Proof.
  unfold cancel_begin. case_match; [done|]. intros [= E]. trans (set_flags (w_shellClosed w) true (w_closed w) true w); [by apply flags_same|].
  destruct (w_jobs w !! id); [|done]. simpl in E. case_match; [by eapply finish_same|by injection E as <-].
Qed.

Lemma submit_same m w r w' : submit shell dflt m w = (r, w') → same_workspace w w'.
Proof. intros S%submit_spec. destruct r; [by subst|by subst|]. destruct S as [_ S]. by eapply reserve_same. Qed.

Lemma on_obj_keeps s s' p w w' :
  ws_objs (sys_ws s') = <[p := w']> (ws_objs (sys_ws s)) → obj p s = Some w → same_workspace w w' →
  ∀ q v, obj q s = Some v → ∃ v', obj q s' = Some v' ∧ same_workspace v v'.
Proof.
  intros E O S q v Hq. rewrite (obj_insert s' p w w' _ q E O). case_decide as D; [|by exists v].
  subst q. rewrite O in Hq. injection Hq as <-. eauto.
Qed.

Lemma keeps_all s s' : ws_objs (sys_ws s') = ws_objs (sys_ws s) →
  ∀ q v, obj q s = Some v → ∃ v', obj q s' = Some v' ∧ same_workspace v v'.
Proof. intros E q v Hq. exists v. unfold obj in *. by rewrite E. Qed.

(** Nothing of any workspace but its flags changes for good. *)
Lemma step_keeps e s s' : wapply e s = Some s' → ∀ p w, obj p s = Some w → ∃ w', obj p s' = Some w' ∧ same_workspace w w'.
Proof.
  destruct e; simpl.
  - intros [= <-]. unfold openWorkspace. repeat (case_match; try by apply keeps_all).
    intros q v Hq. exists v. split; [by apply lookup_app_l_Some|done].
  - destruct (obj p s) as [w|] eqn:O; [|done]. simpl. case_match; [done|].
    destruct (submit shell dflt m w) as [r w'] eqn:S. apply submit_same in S.
    destruct r; intros [= <-]; by eapply on_obj_keeps.
  - destruct (obj p s) as [w|] eqn:O; [|done]. simpl. repeat (case_match; try done).
    all: intros [= <-]; eapply on_obj_keeps; [done|exact O|by eapply locate_same].
  - destruct (obj p s) as [w|] eqn:O; [|done]. simpl. repeat (case_match; try done).
    all: intros [= <-]; eapply on_obj_keeps; [done|exact O|by eapply decide_same].
  - destruct (obj p s) as [w|] eqn:O; [|done]. simpl. repeat (case_match; try done).
    destruct (workspaceWriter_Write id t w) eqn:E; [|done]. intros [= <-]. eapply on_obj_keeps; [done|exact O|by eapply write_same].
  - destruct (obj p s) as [w|] eqn:O; [|done]. simpl. repeat (case_match; try done).
    destruct (command_ended id code runErr dir w) eqn:E; [|done]. intros [= <-]. eapply on_obj_keeps; [done|exact O|by eapply ended_same].
  - destruct (obj p s) as [w|] eqn:O; [|done]. simpl. repeat (case_match; try done); intros [= <-]; [|by apply keeps_all].
    subst. eapply on_obj_keeps; [done|exact O|by eapply cancel_same].
  - destruct (obj p s) as [w|] eqn:O; [|done]. intros [= <-]. eapply on_obj_keeps; [done|exact O|by apply flags_same].
  - destruct (obj p s) as [w|] eqn:O; [|done]. intros [= <-]. eapply on_obj_keeps; [done|exact O|by apply flags_same].
  - destruct (obj p s) as [w|] eqn:O; [|done]. simpl. case_match; [|done]. intros [= <-]. by apply keeps_all.
  - intros [= <-]. by apply keeps_all.
  - intros [= <-]. by apply keeps_all.
  - case_match; [|done]. intros [= <-]. by apply keeps_all.
Qed.

(** Only an open workspace starts a command. *)
Lemma step_starts e s s' : wapply e s = Some s' →
  starts s' = starts s ∨ ∃ st w, starts s' = starts s ++ [st] ∧ obj (st_ws st) s = Some w ∧ stateLocked w = ShellOpen.
Proof.
  destruct e; simpl; try (intros [= <-]; by left).
  all: try (destruct (obj p s) as [w|] eqn:O; [|done]; simpl).
  all: repeat (case_match; try done); try (intros [= <-]; by left).
  - intros [= <-]. right. eexists _, w. split; [done|]. split; [done|].
    match goal with H : decide_command _ _ _ = _ |- _ => revert H end.
    unfold decide_command. case_match eqn:E; [by destruct (finishLocked _ _ _ w)|]. intros _. bsplit. done.
  - destruct (workspaceWriter_Write id t w); [|done]. intros [= <-]. by left.
  - destruct (command_ended id code runErr dir w); [|done]. intros [= <-]. by left.
Qed.

(** Nothing is started in a workspace once it was closed, cancelled, or its
    shell has ended, whatever is submitted and whatever approvals arrive
    afterwards; it stays its owner's, under its own root, and is never
    reopened. *)
Lemma stopped_runs_nothing s s' p w :
  obj p s = Some w → stateLocked w ≠ ShellOpen → rtc wstep s s' →
  (∃ w', obj p s' = Some w' ∧ stateLocked w' ≠ ShellOpen ∧ w_owner w' = w_owner w ∧ w_root w' = w_root w) ∧
  ∃ new, starts s' = starts s ++ new ∧ ∀ st, st ∈ new → st_ws st ≠ p.
Proof.
  intros O N Hr. revert w O N. induction Hr as [s|s t s' [e E] _ IH]; intros w O N.
  { split; [by exists w|]. exists []. split; [by rewrite app_nil_r|]. by intros st ?%elem_of_nil. }
  destruct (step_keeps e s t E p w O) as (w1 & O1 & S1 & S2 & S3 & S4 & _).
  destruct (IH w1 O1 (S4 N)) as [(w' & O' & N' & A & B) (new & ES & Hnew)].
  split; [exists w'; split_and!; congruence|].
  destruct (step_starts e s t E) as [Es|(st & v & Es & Ov & Nv)]; [exists new; by rewrite ES, Es|].
  exists (st :: new). split; [by rewrite ES, Es, <- app_assoc|].
  intros x [->|Hx]%elem_of_cons; [|by apply Hnew]. intros <-. congruence.
Qed.

(** ** Every request ends *)

(** How many critical sections a handler still has before its request ends. *)
Definition rank (h : phase) : nat := match h with Locating _ _ => 3 | Asking _ _ _ => 2 | Executing _ => 1 end.

(** The next event of a handler, whatever it learns. *)
Definition handler_event (p : nat) (id : string) (h : phase) (e : wevent) : Prop :=
  match h with
  | Locating _ _ => ∃ dir, e = ELocate p id dir
  | Asking _ _ _ => ∃ ok, e = EDecide p id ok
  | Executing _ => ∃ code runErr dir, e = EEnd p id code runErr dir
  end.

Definition ended (s : wsys) (p : nat) (id : string) : Prop :=
  handlers s !! (p, id) = None ∧ ∃ w j, obj p s = Some w ∧ w_jobs w !! id = Some j ∧ wj_done j = true.

Lemma ended_on_obj s p id w w' j :
  obj p s = Some w → w_jobs w' !! id = Some j → wj_done j = true →
  ∀ s', ws_objs (sys_ws s') = <[p := w']> (ws_objs (sys_ws s)) → handlers s' !! (p, id) = None → ended s' p id.
Proof.
  intros O J D s' E H. split; [done|]. exists w', j. split; [|done]. rewrite (obj_insert s' p w w' _ p E O). by rewrite decide_True.
Qed.

(** C37: a request that was taken down always ends.  While it is unfinished one
    handler is at work on it; whatever the shell, the gate and the command
    answer, that handler's next critical section is possible (it meets no nil
    job), and takes it one step nearer the end: after at most three of them
    the request is done, with an outcome every later poll can collect. *)
Theorem requests_end s p w id j :
  device_workspaces s → obj p s = Some w → w_jobs w !! id = Some j →
  (wj_done j = false → ∃ h, handlers s !! (p, id) = Some h) ∧
  ∀ h e, handlers s !! (p, id) = Some h → handler_event p id h e →
    ∃ s', wapply e s = Some s' ∧
      (ended s' p id ∨ ∃ h', handlers s' !! (p, id) = Some h' ∧ (rank h' < rank h)%nat).
Proof.
  intros R O J. pose proof (device_workspaces_ok s R) as K. split.
  { intros D. destruct (ji_busy _ _ _ _ _ _ _ _ (sk_jobs _ K p w id j O J) D) as [h Hh]. eauto. }
  intros h e Hh He. destruct (handler_job s p id h K Hh) as (w0 & j0 & O' & Ow & J' & (<- & _ & _) & _).
  rewrite O in O'. injection O' as <-. rewrite J in J'. injection J' as <-.
  destruct h as [m source|m source cwd|m]; simpl in He, Hh, J; [destruct He as [dir ->]|destruct He as [ok ->]|destruct He as (code & runErr & dir & ->)];
    simpl; rewrite O; simpl; rewrite Hh.
  - destruct (locate_spec dir m w Ow) as (r & w' & E & Good & Bad); [by eexists|]. rewrite E.
    destruct r as [cwd|x]; (eexists; split; [done|]).
    + right. simpl. rewrite lookup_insert_eq. eexists. split; [done|]. simpl. lia.
    + left. destruct (finish_spec (q_RequestID m) (-1) (Some x) w Ow) as (w1 & F & _ & _ & _ & _ & _ & _ & _ & _ & j1 & _ & J1 & D & _); [by eexists|].
      rewrite (Bad x eq_refl) in F. injection F as ->. eapply (ended_on_obj s p _ w w1 j1); try done. simpl. apply lookup_delete_eq.
  - destruct (decide_spec ok m w j Ow J) as (run & w' & E & Iff & Yes & No). rewrite E.
    destruct run; (eexists; split; [done|]).
    + right. simpl. rewrite lookup_insert_eq. eexists. split; [done|]. simpl. lia.
    + left. destruct (No eq_refl) as [x F'].
      destruct (finish_spec (q_RequestID m) (-1) (Some x) w Ow) as (w1 & F & _ & _ & _ & _ & _ & _ & _ & _ & j1 & _ & J1 & D & _); [by eexists|].
      rewrite F' in F. injection F as ->. eapply (ended_on_obj s p _ w w1 j1); try done. simpl. apply lookup_delete_eq.
  - destruct (ended_spec (q_RequestID m) code runErr dir w j Ow J) as (w1 & w' & E1 & O1 & E & F'). rewrite E. simpl.
    eexists; split; [done|]. left.
    destruct (finish_spec (q_RequestID m) code (ErrRun <$> runErr) w1 O1) as (w2 & F & _ & _ & _ & _ & _ & _ & _ & _ & j1 & _ & J1 & D & _).
    { rewrite E1. simpl. rewrite lookup_insert_eq. by eexists. }
    rewrite F' in F. injection F as ->. eapply (ended_on_obj s p _ w w2 j1); try done. simpl. apply lookup_delete_eq.
Qed.

(** ** Whose workspace it is *)

Lemma getWorkspace_owner fp id a p :
  getWorkspace fp id a = Ok p → ∃ w, ws_objs a !! p = Some w ∧ w_owner w = fp ∧ ws_ids a !! id = Some p.
Proof.
  unfold getWorkspace. destruct (ws_ids a !! id) as [q|]; [|done]. destruct (ws_objs a !! q) as [w|] eqn:E; [|done].
  destruct (String.eqb_spec (w_owner w) fp); [|done]. intros [= <-]. eauto.
Qed.

Lemma openWorkspace_found stat sh fp id path a p a' :
  openWorkspace stat sh fp id path a = (Ok p, a') →
  ws_closed a' = false ∧ validWorkspaceID id = true ∧ is_abs path = true ∧ stat (clean path) = Ok true ∧
  ∃ w, ws_ids a' !! id = Some p ∧ ws_objs a' !! p = Some w ∧ w_owner w = fp ∧ w_root w = clean path.
Proof.
  unfold openWorkspace. destruct (validWorkspaceID id) eqn:V; [|done]. destruct (is_abs path) eqn:Ab; [|done]. simpl.
  destruct (stat (clean path)) as [[|]|] eqn:St; try done. destruct (ws_closed a) eqn:C; [done|].
  destruct (p ← ws_ids a !! id; w ← ws_objs a !! p; Some (p, w)) as [[q w]|] eqn:F.
  - case_match eqn:X; [done|]. intros [= <- <-]. bsplit. ssplit.
    destruct (ws_ids a !! id) as [q'|] eqn:Hi; [|done]. simpl in F. destruct (ws_objs a !! q') as [v|] eqn:Hw; [|done].
    injection F as <- <-. split_and!; try done. by exists v.
  - case_match; [done|]. destruct sh; [|done]. intros [= <- <-]. simpl. split_and!; try done.
    eexists. split; [by rewrite lookup_insert_eq|]. split; [by rewrite lookup_app_r, Nat.sub_diag|]. done.
Qed.

Lemma openWorkspace_other stat sh fp id path a p w :
  ws_ids a !! id = Some p → ws_objs a !! p = Some w → w_owner w ≠ fp → ∃ e, openWorkspace stat sh fp id path a = (Err e, a).
Proof.
  intros Hi Hw N. unfold openWorkspace. destruct (negb (validWorkspaceID id)); [eauto|]. destruct (negb (is_abs path)); [eauto|].
  destruct (stat (clean path)) as [[|]|]; [|eauto..]. destruct (ws_closed a); [eauto|].
  rewrite Hi. simpl. rewrite Hw. simpl. rewrite (proj2 (String.eqb_neq _ _) N). simpl. eauto.
Qed.

(** A workspace is its controller's.  A controller is handed no workspace but
    its own: not by its id, and not by opening the id another controller has
    (which is refused and changes nothing); submissions and cancellations of
    others are not possible, and nothing ever changes whose a workspace is or
    where it stands.  Opening the same id and root again finds the same
    workspace; a new one starts open and empty in a directory that exists. *)
Lemma workspace_private s fp id path stat sh :
  device_workspaces s →
  (∀ p, getWorkspace fp id (sys_ws s) = Ok p → ∃ w, obj p s = Some w ∧ w_owner w = fp ∧ w_id w = id) ∧
  (∀ p w, ws_ids (sys_ws s) !! id = Some p → obj p s = Some w → w_owner w ≠ fp →
     getWorkspace fp id (sys_ws s) = Err ErrUnavailable ∧
     (∀ m, wapply (ESubmit fp p m) s = None) ∧ (∀ r, wapply (ECancel fp p r) s = None) ∧
     ∃ e, openWorkspace stat sh fp id path (sys_ws s) = (Err e, sys_ws s)) ∧
  (∀ p a', openWorkspace stat sh fp id path (sys_ws s) = (Ok p, a') →
     getWorkspace fp id a' = Ok p ∧ openWorkspace stat sh fp id path a' = (Ok p, a')).
Proof.
  intros R. pose proof (device_workspaces_ok s R) as K. split_and!.
  - intros p (w & Hw & Ho & Hi)%getWorkspace_owner. exists w. split; [done|]. split; [done|].
    destruct (sk_ids _ K id p Hi) as (v & Hv & <-). unfold obj in Hv. congruence.
  - intros p w Hi Hw N. unfold obj in Hw. split_and!.
    + unfold getWorkspace. rewrite Hi, Hw. by rewrite (proj2 (String.eqb_neq _ _) N).
    + intros m. simpl. unfold obj. rewrite Hw. simpl. by rewrite (proj2 (String.eqb_neq _ _) N).
    + intros r. simpl. unfold obj. rewrite Hw. simpl. by rewrite (proj2 (String.eqb_neq _ _) N).
    + by eapply openWorkspace_other.
  - intros p a' E. destruct (openWorkspace_found _ _ _ _ _ _ _ _ E) as (C & V & Ab & St & w & Hi & Hw & Ho & Hr).
    unfold getWorkspace, openWorkspace. rewrite C, V, Ab, St, Hi. simpl. rewrite Hw. simpl. rewrite Ho, Hr. by rewrite !String.eqb_refl.
Qed.

(** ** What becomes of a job *)

(** Output is only added to, and a job that is done never changes again. *)
Definition grown (j j' : workspaceJob) : Prop := (∃ t, wj_output j' = (wj_output j ++ t)%string) ∧ (wj_done j = true → j' = j).

#[export] Instance grown_po : PreOrder grown.
Proof.
  split.
  - intros j. split; [exists ""%string; by rewrite app_nil_s|done].
  - intros x y z [[t Ht] D] [[u Hu] D']. split; [exists (t ++ u)%string; by rewrite Hu, Ht, app_assoc_s|].
    intros X. rewrite <- (D X). apply D'. by rewrite (D X).
Qed.

Definition grows (w w' : workspace) : Prop :=
  ∀ i j, w_jobs w !! i = Some j → ∃ j', w_jobs w' !! i = Some j' ∧ grown j j'.

Lemma grows_same w w' : w_jobs w' = w_jobs w → grows w w'.
Proof. intros E i j J. exists j. by rewrite E. Qed.

Lemma grows_update w w' id j j' :
  w_jobs w' = <[id := j']> (w_jobs w) → w_jobs w !! id = Some j → grown j j' → grows w w'.
Proof.
  intros E J G i x Hx. rewrite E. destruct (decide (id = i)) as [<-|]; [|rewrite lookup_insert_ne by done; by exists x].
  rewrite J in Hx. injection Hx as <-. rewrite lookup_insert_eq. eauto.
Qed.

Lemma finish_grows id code e w w' : finishLocked id code e w = Some w' → grows w w'.
Proof.
  unfold finishLocked. destruct (w_jobs w !! id) as [j|] eqn:J; [|done]. destruct (wj_done j) eqn:D.
  - intros [= <-]. by apply grows_same.
  - intros E. apply (grows_update w w' id j (finished_job code e j)); [|done|].
    + by destruct (String.eqb _ _); injection E as <-.
    + split; [exists ""%string; by rewrite app_nil_s|]. by rewrite D.
Qed.

Lemma locate_grows dir m w r w' : locate dir m w = Some (r, w') → grows w w'.
Proof.
  unfold locate. destruct (negb _); [|intros [= _ <-]; by apply grows_same].
  destruct (resolve (q_Cwd m) w); [intros [= _ <-]; by apply grows_same|].
  destruct (finishLocked _ _ _ w) eqn:F; [|done]. intros [= _ <-]. by eapply finish_grows.
Qed.

Lemma step_jobs e s s' p w : sys_ok s → wapply e s = Some s' → obj p s = Some w → ∃ w', obj p s' = Some w' ∧ grows w w'.
Proof.
  intros K E O.
  assert (∀ s2 p0 v v', ws_objs (sys_ws s2) = <[p0 := v']> (ws_objs (sys_ws s)) → obj p0 s = Some v → grows v v' →
    ∃ w', obj p s2 = Some w' ∧ grows w w') as On.
  { intros s2 p0 v v' Eo Ov G. rewrite (obj_insert s2 p0 v v' _ p Eo Ov). case_decide as D; [|exists w; split; [done|by apply grows_same]].
    subst p0. rewrite O in Ov. injection Ov as <-. eauto. }
  assert (∀ s2, ws_objs (sys_ws s2) = ws_objs (sys_ws s) → ∃ w', obj p s2 = Some w' ∧ grows w w') as Off.
  { intros s2 Eo. exists w. unfold obj in *. rewrite Eo. split; [done|by apply grows_same]. }
  destruct e; simpl in E; try (destruct (obj p0 s) as [v|] eqn:Ov; [|done]; simpl in E).
  - injection E as <-. unfold openWorkspace. repeat (case_match; try by apply Off).
    exists w. split; [by apply lookup_app_l_Some|by apply grows_same].
  - case_match; [done|]. destruct (submit shell dflt m v) as [r v'] eqn:S. apply submit_spec in S.
    destruct r; [injection E as <-; subst; eapply On; [done|done|by apply grows_same]..|].
    destruct S as [_ S]. destruct (reserve_spec _ _ _ _ S) as [_ New]. destruct (New eq_refl) as (_ & J & _ & _ & _ & _ & ->).
    injection E as <-. eapply On; [done|done|]. intros i j Hi. simpl. exists j. split; [|done].
    rewrite lookup_insert_ne by congruence. done.
  - destruct (handlers s !! (p0, id)) as [[| |]|] eqn:H; try done. destruct (locate dir m v) as [[[cwd|e] v']|] eqn:L; [| |done]; injection E as <-.
    all: eapply On; [done|done|by eapply locate_grows].
  - destruct (handlers s !! (p0, id)) as [[| |]|] eqn:H; try done.
    destruct (handler_job s p0 id _ K H) as (v0 & j & O' & Ow & J & (<- & M & P1 & P2 & P3) & JI).
    rewrite Ov in O'. injection O' as <-. simpl in J, H. destruct (decide_spec ok m v j Ow J) as (run & v' & Ed & Iff & Yes & No).
    rewrite Ed in E. destruct run; injection E as <-; (eapply On; [done|done|]).
    + rewrite (Yes eq_refl). eapply grows_update; [done|done|]. split; [exists ""%string; by rewrite app_nil_s|].
      destruct (proj1 Iff eq_refl) as [_ Op]. apply open_not_stopping in Op. destruct P2; congruence.
    + destruct (No eq_refl) as [x F]. by eapply finish_grows.
  - destruct (handlers s !! (p0, id)) as [[| |]|] eqn:H; try done.
    destruct (handler_job s p0 id _ K H) as (v0 & j & O' & Ow & J & (<- & M & P) & JI).
    rewrite Ov in O'. injection O' as <-. simpl in J, H, P, E.
    destruct (write_spec (q_RequestID m) t v j Ow J) as (v' & Ew & _ & _ & _ & _ & _ & _ & Jn & _ & J'). rewrite Ew in E. simpl in E.
    injection E as <-. eapply On; [done|done|]. intros i x Hx. destruct (decide (i = q_RequestID m)) as [->|N].
    + rewrite J in Hx. injection Hx as <-. eexists. split; [exact J'|]. split; [by eexists|].
      intros D. apply (ok_state _ Ow _ _ J) in D. congruence.
    + exists x. split; [by rewrite Jn|done].
  - destruct (handlers s !! (p0, id)) as [[| |]|] eqn:H; try done.
    destruct (handler_job s p0 id _ K H) as (v0 & j & O' & Ow & J & (<- & M & P) & JI).
    rewrite Ov in O'. injection O' as <-. simpl in J, H, P, E.
    destruct (ended_spec (q_RequestID m) code runErr dir v j Ow J) as (v1 & v' & E1 & _ & Ee & F). rewrite Ee in E. simpl in E.
    injection E as <-. eapply On; [done|done|]. apply finish_grows in F.
    assert (grows v v1) as G1.
    { rewrite E1. eapply grows_update; [done|done|]. split; [exists ""%string; by rewrite app_nil_s|].
      intros D. apply (ok_state _ Ow _ _ J) in D. congruence. }
    intros i x Hx. destruct (G1 i x Hx) as (y & Hy & Gy). destruct (F i y Hy) as (z & Hz & Gz). exists z. split; [done|]. by trans y.
  - case_match; [done|]. destruct (cancel_begin id v) as [[v'|]|] eqn:C; [|done|by injection E as <-; apply Off].
    injection E as <-. eapply On; [done|done|].
    destruct (cancel_spec id v _ (sk_objs _ K _ _ Ov) C) as (v2 & j & [= <-] & J & D & App & Run).
    destruct (decide (wj_state j = Approving)) as [A|A]; [|by rewrite (Run A); apply grows_same].
    specialize (App A). apply finish_grows in App. exact App.
  - injection E as <-. eapply On; [done|done|by apply grows_same].
  - injection E as <-. eapply On; [done|done|by apply grows_same].
  - case_match; [|done]. injection E as <-. by apply Off.
  - injection E as <-. by apply Off.
  - injection E as <-. by apply Off.
  - case_match; [|done]. injection E as <-. by apply Off.
Qed.

Lemma run_jobs s s' p w id j :
  device_workspaces s → rtc wstep s s' → obj p s = Some w → w_jobs w !! id = Some j →
  ∃ w' j', obj p s' = Some w' ∧ w_jobs w' !! id = Some j' ∧ grown j j'.
Proof.
  intros R Hr. revert R w j. induction Hr as [s|s t s' [e E] _ IH]; intros R w j O J; [by exists w, j|].
  destruct (step_jobs e s t p w (device_workspaces_ok s R) E O) as (w1 & O1 & G). destruct (G id j J) as (j1 & J1 & G1).
  destruct (IH (reachable_step _ _ s t R (ex_intro _ e E)) w1 j1 O1 J1) as (w2 & j2 & O2 & J2 & G2).
  exists w2, j2. split; [done|]. split; [done|]. by trans j1.
Qed.

(** What a restart waits for.  A device is busy exactly while a controller is
    connected over a workspace link, or a workspace it lists has a request that
    is not done; an idle workspace is not work. *)
Lemma busy_is_unfinished s :
  device_workspaces s →
  workspacesBusy (sys_ws s) = true ↔
  0 < ws_links (sys_ws s) ∨
  ∃ id p w r j, ws_ids (sys_ws s) !! id = Some p ∧ obj p s = Some w ∧ w_jobs w !! r = Some j ∧ wj_done j = false.
Proof.
  intros R. pose proof (device_workspaces_ok s R) as K. unfold workspacesBusy.
  rewrite orb_true_iff, Z.ltb_lt, any_true. apply or_iff_compat_l. split.
  - intros (p & ([id q] & -> & Hq%elem_of_map_to_list)%list_elem_of_fmap & Hp). simpl in Hp.
    destruct (ws_objs (sys_ws s) !! q) as [w|] eqn:O; [|done]. apply negb_true_iff, String.eqb_neq in Hp.
    pose proof (sk_objs _ K q w O) as Ow. destruct (ok_active _ Ow Hp) as [j J].
    exists id, q, w, (w_active w), j. split_and!; try done. by apply (ok_done _ Ow _ _ J).
  - intros (id & p & w & r & j & Hi & O & J & D). exists p. split.
    + apply list_elem_of_fmap. exists (id, p). split; [done|]. by apply elem_of_map_to_list.
    + unfold obj in O. rewrite O. pose proof (sk_objs _ K p w O) as Ow.
      apply (ok_done _ Ow _ _ J) in D. rewrite D. apply (ok_names _ Ow) in J. by destruct r.
Qed.

Fixpoint run_events (es : list wevent) (s : wsys) : option wsys :=
  match es with [] => Some s | e :: es => s ← wapply e s; run_events es s end.

Lemma run_events_reachable es s s' : device_workspaces s → run_events es s = Some s' → device_workspaces s'.
Proof.
  revert s. induction es as [|e es IH]; intros s R; [by intros [= <-]|]. simpl.
  destruct (wapply e s) as [t|] eqn:E; [|done]. apply IH. eapply reachable_step; [exact R|by exists e].
Qed.
End system.

(** ** A concrete device *)

Definition sample_id : string := "w-0123456789abcdef0123456789abcdef".
Definition sample_open : wevent := EOpen (λ _, Ok true) (Ok tt) "fp" sample_id "/srv/app".
Definition sample_message (r cmd : string) : wmessage := WMessage "exec" sample_id r cmd "src" "" "" false false "" "" 0.

(** One command run to its end, and a second one waiting for the gate. *)
Definition sample_events : list wevent :=
  [sample_open; ESubmit "fp" 0 (sample_message "r1" "make"); ELocate 0 "r1" None; EDecide 0 "r1" true;
   EWrite 0 "r1" "ok"; EEnd 0 "r1" 0 None (Some "/srv/app/src"%string);
   ESubmit "fp" 0 (sample_message "r2" "make test"); ELocate 0 "r2" None].

Definition sample_sys : wsys := default wsys0 (run_events "" "sh" sample_events wsys0).

Lemma sample_events_run : run_events "" "sh" sample_events wsys0 = Some sample_sys.
Proof. vm_compute. reflexivity. Qed.

Lemma sample_reachable : device_workspaces "" "sh" sample_sys.
Proof. eapply run_events_reachable; [|exact sample_events_run]. by apply reachable_init. Qed.

Lemma sample_ws : ∃ w, obj 0 sample_sys = Some w ∧ stateLocked w = ShellOpen ∧ w_owner w = "fp"%string ∧
  (∃ j, w_jobs w !! "r1"%string = Some j ∧ wj_done j = true ∧ wj_output j = "ok"%string) ∧
  (∃ j, w_jobs w !! "r2"%string = Some j ∧ wj_done j = false).
Proof. vm_compute. eexists. repeat split; eexists; repeat split. Qed.

Lemma workspace_bounded_witness : ∃ w j, obj 0 sample_sys = Some w ∧ w_jobs w !! "r1"%string = Some j ∧
  wj_output j = "ok"%string ∧ wj_total j = zlen (default ""%string (written sample_sys !! (0%nat, "r1"%string))).
Proof.
  destruct sample_ws as (w & O & _ & _ & (j & J & _ & U) & _). exists w, j. split; [exact O|]. split; [exact J|]. split; [exact U|].
  destruct (workspace_bounded "" "sh" sample_sys sample_reachable) as [_ B]. destruct (B 0%nat w O) as (_ & _ & _ & C).
  apply (C "r1"%string j J).
Defined.

Lemma request_runs_once_witness : NoDup (st_key <$> starts sample_sys) ∧ length (starts sample_sys) = 1%nat.
Proof.
  split; [apply (request_runs_once "" "sh" sample_sys sample_reachable)|]. vm_compute. reflexivity.
Defined.

Lemma requests_end_witness : ∃ w j h, obj 0 sample_sys = Some w ∧ w_jobs w !! "r2"%string = Some j ∧
  handlers sample_sys !! (0%nat, "r2"%string) = Some h.
Proof.
  destruct sample_ws as (w & O & _ & _ & _ & (j & J & D)).
  destruct (proj1 (requests_end "" "sh" sample_sys 0 w "r2" j sample_reachable O J) D) as [h H].
  exists w, j, h. split; [exact O|]. split; [exact J|exact H].
Defined.

Lemma workspace_private_witness :
  getWorkspace "fp" sample_id (sys_ws sample_sys) = Ok 0%nat ∧ getWorkspace "other" sample_id (sys_ws sample_sys) = Err ErrUnavailable.
Proof.
  destruct sample_ws as (w & O & _ & Ow & _).
  split; [vm_compute; reflexivity|].
  destruct (workspace_private "" "sh" sample_sys "other" sample_id "/" (λ _, Ok true) (Ok tt) sample_reachable) as (_ & P & _).
  apply (P 0%nat w); [vm_compute; reflexivity|exact O|rewrite Ow; done].
Defined.

Lemma busy_is_unfinished_witness : workspacesBusy (sys_ws sample_sys) = true ∧ ws_links (sys_ws sample_sys) = 0.
Proof.
  destruct sample_ws as (w & O & _ & _ & _ & (j & J & D)).
  split; [|vm_compute; reflexivity]. apply (busy_is_unfinished "" "sh" sample_sys sample_reachable). right.
  exists sample_id, 0%nat, w, "r2"%string, j. split; [vm_compute; reflexivity|]. split; [exact O|]. split; [exact J|exact D].
Defined.

(** The owner cancels while the second command waits; the approval comes late. *)
Definition late_approval : list wevent := [ECancel "fp" 0 "r2"; EDecide 0 "r2" true].

Definition cancelled_sys : wsys := default wsys0 (run_events "" "sh" [ECancel "fp" 0 "r2"] sample_sys).

Lemma cancelled_ws : ∃ w, obj 0 cancelled_sys = Some w ∧ stateLocked w = ShellInvalid.
Proof. vm_compute. eexists. repeat split. Qed.

Lemma late_step : wstep "" "sh" cancelled_sys (default wsys0 (run_events "" "sh" late_approval sample_sys)).
Proof. exists (EDecide 0 "r2" true). vm_compute. reflexivity. Qed.

Lemma stopped_runs_nothing_witness : ∃ new,
  starts (default wsys0 (run_events "" "sh" late_approval sample_sys)) = starts cancelled_sys ++ new ∧ ∀ st, st ∈ new → st_ws st ≠ 0%nat.
Proof.
  destruct cancelled_ws as (w & O & S).
  apply (stopped_runs_nothing "" "sh" cancelled_sys _ 0 w O); [rewrite S; done|apply rtc_once; exact late_step].
Defined.

(** Two handlers close one workspace, and between the two the controller opens
    the id again: the second close forgets the new workspace.  Its command runs
    on, under no id, and the device does not count itself busy. *)
Definition double_close : list wevent :=
  [sample_open; EStop 0; EStop 0; EForget 0; sample_open;
   ESubmit "fp" 1 (sample_message "r1" "make"); ELocate 1 "r1" None; EDecide 1 "r1" true; EForget 0].

Lemma double_close_loses_workspace : ∃ s w, run_events "" "sh" double_close wsys0 = Some s ∧
  obj 1 s = Some w ∧ stateLocked w = ShellOpen ∧ w_active w = "r1"%string ∧
  getWorkspace "fp" sample_id (sys_ws s) = Err ErrUnavailable ∧ workspacesBusy (sys_ws s) = false.
Proof. vm_compute. do 2 eexists. split; [reflexivity|]. repeat split. Qed.
