(* ===== verification/WorkspacePages.v ===== *)
(** The pages a workspace hands out of a command's output ([snapshot] of
    workspace.go), and the controller that prints them ([awaitWorkspace] of
    src/workspace.go). *)

From S2P Require Import Prelude GoStrings GoUtf8 Utf8Facts Script Gate Workspace WorkspaceInv.

Local Open Scope Z_scope.

Definition page : nat := Z.to_nat workspaceOutputPage.

Lemma page_size : page = Z.to_nat 49152 ∧ (4 <= page)%nat.
Proof. unfold page, workspaceOutputPage. split; [done|]. change (Z.shiftl 48 10) with 49152. lia. Qed.

(** ** Where a page ends *)

Definition starts_rune (out : string) (i : nat) : Prop := ∃ c, sget i out = Some c ∧ rune_start (byte_val c) = true.

Lemma back_to_start_spec out off k :
  (off + k < slen out)%nat →
  let e := back_to_start out off k in
  (off <= e <= off + k)%nat ∧ (e ≠ off → starts_rune out e) ∧ (∀ i, (e < i <= off + k)%nat → ¬ starts_rune out i).
Proof.
  induction k as [|k IH]; intros L; cbn [back_to_start]; [split_and!; [lia|lia|done|lia]|].
  destruct (sget_lt (off + S k) out L) as [c G]. rewrite G.
  destruct (rune_start (byte_val c)) eqn:R.
  - split_and!; [lia|lia|intros _; by exists c|lia].
  - destruct IH as ([? ?] & Sp & N); [lia|]. split_and!; [lia|lia|done|].
    intros i Hi. destruct (decide (i = off + S k)%nat) as [->|]; [|apply N; lia].
    intros (d & G' & R'). congruence.
Qed.

Lemma hold_back_spec fuel out off stop start :
  (start <= stop <= slen out)%nat → (off <= start)%nat →
  let e := hold_back fuel out off stop start in
  (off <= e <= stop)%nat ∧
  ((e < start)%nat ∧ starts_rune out e ∨
   e = stop ∧ ((∃ b, (off <= b < start)%nat ∧ starts_rune out b ∧ full_rune (slice b stop out) = true ∧
                   ∀ i, (b < i < start)%nat → ¬ starts_rune out i) ∨
               ∀ i, (off <= i < start)%nat → (start - fuel <= i)%nat → ¬ starts_rune out i)).
Proof.
  revert start. induction fuel as [|fuel IH]; intros start L O; cbn [hold_back].
  { split; [lia|]. right. split; [done|]. right. intros i; lia. }
  destruct (Nat.ltb_spec off start) as [Lt|Ge].
  2: { split; [lia|]. right. split; [done|]. right. intros i; lia. }
  destruct start as [|st]; [lia|]. cbn [pred].
  destruct (sget_lt st out) as [c G]; [lia|]. rewrite G. destruct (rune_start (byte_val c)) eqn:R.
  - destruct (full_rune (slice st stop out)) eqn:F.
    + split; [lia|]. right. split; [done|]. left. exists st. split_and!; try lia; [by exists c|done].
    + split; [lia|]. left. split; [lia|by exists c].
  - assert (¬ starts_rune out st) as NS by (intros (d & G' & R'); congruence).
    destruct (IH st) as [B C]; [lia|lia|]. split; [done|]. destruct C as [C|[Eq C]]; [left; destruct C; split; [lia|done]|].
    right. split; [done|]. destruct C as [(b & Hb & Sb & Fb & Nb)|C].
    + left. exists b. split_and!; try done; try lia. intros i Hi. destruct (decide (i = st)) as [->|]; [done|]. apply Nb. lia.
    + right. intros i Hi Hf. destruct (decide (i = st)) as [->|]; [done|]. apply C; lia.
Qed.

Lemma at_rune_sdrop off e s : (off <= e)%nat → at_rune e s → at_rune (e - off) (sdrop off s).
Proof.
  intros L [A|(c & G & R)]; [left; rewrite slen_sdrop; lia|]. right. exists c. rewrite sget_sdrop.
  by replace (off + (e - off))%nat with e by lia.
Qed.

(** A page begins where it was asked for, ends within the output and within the
    page size, and moves on unless all that is left is the beginning of a rune. *)
Lemma page_end_range off j :
  (off <= slen (wj_output j))%nat →
  (off <= page_end off j <= Nat.min (slen (wj_output j)) (off + page))%nat ∧
  ((off < slen (wj_output j))%nat → (wj_done j = true ∨ wj_total j ≠ zlen (wj_output j)) → (off < page_end off j)%nat).
Proof.
  intros L. unfold page_end. fold page. pose proof page_size as [_ P4].
  set (len := slen (wj_output j)) in *. set (stop := Nat.min len (off + page)).
  destruct (Nat.ltb_spec stop len) as [Lt|Ge].
  - assert (stop = off + page)%nat as ES by (unfold stop in *; lia). rewrite ES. replace (off + page - off)%nat with page by lia.
    destruct (back_to_start_spec (wj_output j) off page) as ([? ?] & _); [fold len; lia|].
    destruct (Nat.eqb_spec (back_to_start (wj_output j) off page) off) as [E|E]; lia.
  - destruct (negb (wj_done j) && (wj_total j =? Z.of_nat len)) eqn:E.
    + destruct (hold_back_spec utf_max (wj_output j) off stop stop) as [B _]; [unfold stop; fold len; lia|unfold stop; lia|].
      split; [lia|]. intros _ [D|T]; bsplit; [congruence|]. unfold zlen in T. fold len in T. lia.
    + unfold stop. lia.
Qed.

Lemma starts_prefix text n i : (i < n)%nat → starts_rune (stake n text) i ↔ starts_rune text i.
Proof. intros L. unfold starts_rune. by rewrite sget_stake. Qed.

Lemma at_rune_dec e s : at_rune e s ∨ ¬ at_rune e s.
Proof.
  unfold at_rune. destruct (Nat.le_gt_cases (slen s) e); [by left; left|].
  destruct (sget_lt e s) as [c G]; [done|]. destruct (rune_start (byte_val c)) eqn:R.
  - left. right. by exists c.
  - right. intros [?|(d & G' & R')]; [lia|congruence].
Qed.

(** The last rune that starts before a place that is not between runes is cut
    there. *)
Lemma cut_rune_short text b len :
  valid_string text = true → (b < len < slen text)%nat → starts_rune text b → ¬ at_rune len text →
  (∀ i, (b < i < len)%nat → ¬ starts_rune text i) → full_rune (slice b len (stake len text)) = false.
Proof.
  intros V L Sb NA Nt. destruct (valid_cut text b V) as [_ Vb]; [by right|].
  set (u := sdrop b text) in *. assert (u ≠ ""%string) as Nu.
  { intros E. apply (f_equal String.length) in E. unfold u in E. rewrite slen_sdrop in E. simpl in E. lia. }
  assert (bad_head u = false) as Bu by (rewrite valid_step in Vb by done; bsplit; done).
  assert (len - b < rune_len u)%nat as Lr.
  { destruct (Nat.le_gt_cases (rune_len u) (len - b)) as [Le|]; [exfalso|done]. pose proof (rune_len_pos u Nu).
    destruct (after_rune u Vb Nu) as [E|(c & G & R)].
    - unfold u at 1 in E. rewrite slen_sdrop in E. lia.
    - unfold u in G. rewrite sget_sdrop in G. fold u in G.
      destruct (decide (b + rune_len u = len)%nat) as [E|]; [apply NA; right; exists c; by rewrite <- E|].
      apply (Nt (b + rune_len u)%nat); [lia|by exists c]. }
  unfold slice. rewrite sdrop_stake, stake_stake, Nat.min_id. fold u. apply full_rune_short; [done|lia].
Qed.

(** Of a command that writes UTF-8 text, a page that begins with a rune ends with
    one, unless it reaches the end of an output that was itself cut. *)
Lemma page_end_rune off j text :
  valid_string text = true → wj_output j = stake (slen (wj_output j)) text → at_rune off text →
  (off <= slen (wj_output j))%nat →
  (page_end off j < slen (wj_output j))%nat ∨ wj_done j = false ∧ wj_total j = zlen (wj_output j) ∨ at_rune (slen (wj_output j)) text →
  at_rune (page_end off j) text.
Proof.
  intros V Pre A L. pose proof (page_end_range off j L) as [Rng _]. revert Rng.
  unfold page_end. fold page. pose proof page_size as [_ P4].
  set (len := slen (wj_output j)) in *. set (stop := Nat.min len (off + page)).
  assert (len <= slen text)%nat as LT.
  { apply (f_equal String.length) in Pre. rewrite slen_stake in Pre. fold len in Pre. lia. }
  destruct (valid_cut text off V A) as [_ Vd].
  assert (∀ i, (off <= i < slen text)%nat → ∃ b, (off <= b <= i)%nat ∧ (i <= b + 3)%nat ∧ starts_rune text b) as Near.
  { intros i Hi. destruct (start_near (sdrop off text) (i - off) Vd) as (b & c & Hb & G & R); [rewrite slen_sdrop; lia|].
    rewrite sget_sdrop in G. exists (off + b)%nat. split; [lia|]. split; [lia|]. by exists c. }
  destruct (Nat.ltb_spec stop len) as [Lt|Ge].
  - assert (stop = off + page)%nat as ES by (unfold stop in *; lia). rewrite ES. replace (off + page - off)%nat with page by lia.
    destruct (back_to_start_spec (wj_output j) off page) as ([B1 B2] & Sp & N); [fold len; lia|].
    destruct (Near (off + page)%nat) as (b & Hb & Hb3 & Sb); [lia|].
    set (e := back_to_start (wj_output j) off page) in *. clearbody e.
    destruct (Nat.eqb_spec e off) as [E|E]; intros _ _.
    + exfalso. apply (N b); [lia|]. rewrite Pre. apply starts_prefix; [fold len; lia|done].
    + right. specialize (Sp E). rewrite Pre in Sp. apply starts_prefix in Sp; [exact Sp|fold len; lia].
  - destruct (negb (wj_done j) && (wj_total j =? Z.of_nat len)) eqn:E; intros Rng C.
    + assert (stop = len) as ES by (unfold stop in *; lia). rewrite ES in *.
      destruct (hold_back_spec utf_max (wj_output j) off len len) as [B Cs]; [fold len; lia|lia|].
      set (e := hold_back utf_max (wj_output j) off len len) in *. clearbody e.
      destruct Cs as [[Lt Sp]|[Eq Cs]].
      { right. rewrite Pre in Sp. by apply starts_prefix in Sp. }
      rewrite Eq. destruct (at_rune_dec len text) as [|NA]; [done|exfalso]. assert (len < slen text)%nat as LS by (destruct (Nat.le_gt_cases (slen text) len); [by destruct NA; left|done]).
      destruct Cs as [(b & Hb & Sb & Fb & Nb)|Cs].
      * rewrite Pre in Sb, Nb, Fb. apply starts_prefix in Sb; [|fold len; lia].
        assert (∀ i, (b < i < len)%nat → ¬ starts_rune text i) as Nt.
        { intros i Hi St. apply (Nb i Hi). apply starts_prefix; [fold len; lia|done]. }
        rewrite (cut_rune_short text b len) in Fb; try done; lia.
      * destruct (decide (off = len)) as [->|]; [done|]. destruct (Near (len - 1)%nat) as (b & Hb & Hb3 & Sb); [lia|].
        apply (Cs b); [lia|unfold utf_max; lia|]. rewrite Pre. apply starts_prefix; [fold len; lia|done].
    + destruct C as [C|[C|C]]; [lia| |].
      * destruct C as [D T]. rewrite D in E. unfold zlen in T. fold len in T. simpl in E. bsplit. lia.
      * by replace stop with len by (unfold stop in *; lia).
Qed.

(** ** Reading an output to its end *)

Lemma snapshot_job id off w r :
  snapshot id off w = Ok r → id ≠ ""%string → ∃ j, w_jobs w !! id = Some j ∧ 0 <= off <= zlen (wj_output j) ∧
    res_Done r = wj_done j ∧ res_Code r = wj_code j ∧ res_Error r = wj_err j ∧ res_RetainedBytes r = zlen (wj_output j) ∧
    res_NextOffset r = Z.of_nat (page_end (Z.to_nat off) j) ∧
    res_Output r = slice (Z.to_nat off) (page_end (Z.to_nat off) j) (wj_output j).
Proof.
  unfold snapshot. intros E N. rewrite (proj2 (String.eqb_neq _ _) N) in E.
  destruct (w_jobs w !! id) as [j|]; [|done]. destruct (_ || _) eqn:B; [done|]. bsplit. injection E as <-. exists j. by split_and!.
Qed.

Lemma snapshot_ok id off w j :
  w_jobs w !! id = Some j → id ≠ ""%string → 0 <= off <= zlen (wj_output j) → ∃ r, snapshot id off w = Ok r.
Proof.
  intros J N O. unfold snapshot. rewrite (proj2 (String.eqb_neq _ _) N), J.
  rewrite (proj2 (Z.ltb_ge _ _)), (proj2 (Z.ltb_ge _ _)) by lia. eauto.
Qed.

(** The pages from an offset on, each from where the one before it ended. *)
Fixpoint collect (fuel : nat) (id : string) (off : Z) (w : workspace) : option string :=
  match snapshot id off w with
  | Err _ => None
  | Ok r =>
      if res_RetainedBytes r <=? res_NextOffset r then Some (res_Output r)
      else match fuel with
           | O => None
           | S fuel => rest ← collect fuel id (res_NextOffset r) w; Some (res_Output r ++ rest)%string
           end
  end.

Lemma slice_full off e s : (off <= e)%nat → (slen s <= e)%nat → slice off e s = sdrop off s.
Proof. intros L G. unfold slice. apply stake_all. rewrite slen_sdrop. lia. Qed.

Lemma slice_rest off e s : (off <= e)%nat → (slice off e s ++ sdrop e s)%string = sdrop off s.
Proof.
  intros L. unfold slice. rewrite <- (stake_sdrop (e - off) (sdrop off s)) at 2. rewrite sdrop_sdrop.
  by replace (off + (e - off))%nat with e by lia.
Qed.

Lemma stake_slice off e s : (off <= e)%nat → (stake off s ++ slice off e s)%string = stake e s.
Proof. intros L. unfold slice. rewrite <- stake_add. by replace (off + (e - off))%nat with e by lia. Qed.

Lemma collect_all fuel id off w j :
  w_jobs w !! id = Some j → id ≠ ""%string → wj_done j = true → (off <= slen (wj_output j))%nat →
  (slen (wj_output j) - off <= fuel)%nat → collect fuel id (Z.of_nat off) w = Some (sdrop off (wj_output j)).
Proof.
  intros J N D. revert off. induction fuel as [|fuel IH]; intros off L F; cbn [collect].
  all: destruct (snapshot_ok id (Z.of_nat off) w j J N) as [r Hr]; [unfold zlen; lia|].
  all: destruct (snapshot_job id _ w r Hr N) as (j' & J' & _ & _ & _ & _ & Rt & Nx & Out); rewrite J in J'; injection J' as <-.
  all: rewrite Nat2Z.id in Nx, Out; rewrite Hr, Rt, Out, Nx; destruct (page_end_range off j L) as [Rg Pr].
  - rewrite (proj2 (Z.leb_le _ _)) by (unfold zlen; lia). by rewrite slice_full by lia.
  - destruct (Z.leb_spec (zlen (wj_output j)) (Z.of_nat (page_end off j))) as [E|E]; unfold zlen in E.
    + by rewrite slice_full by lia.
    + assert (off < page_end off j)%nat by (apply Pr; [lia|by left]).
      rewrite IH by lia. simpl. by rewrite slice_rest by lia.
Qed.

(** The output of a command can be read page by page without loss.  The pages
    of a finished command, each taken from where the last one ended, are its
    output, and a bounded number of them reaches the end; no page is longer than
    48 KiB; a page is only empty at the end; and if the output is UTF-8 text no
    page splits a character. *)
Lemma pages_reassemble w id j :
  w_jobs w !! id = Some j → id ≠ ""%string → wj_done j = true →
  collect (slen (wj_output j)) id 0 w = Some (wj_output j) ∧
  ∀ off r, snapshot id off w = Ok r →
    off <= res_NextOffset r <= zlen (wj_output j) ∧
    zlen (res_Output r) = res_NextOffset r - off ∧ zlen (res_Output r) <= workspaceOutputPage ∧
    (off < zlen (wj_output j) → off < res_NextOffset r) ∧
    (valid_string (wj_output j) = true → at_rune (Z.to_nat off) (wj_output j) →
       valid_string (res_Output r) = true ∧ at_rune (Z.to_nat (res_NextOffset r)) (wj_output j)).
Proof.
  intros J N D. split.
  { pose proof (collect_all (slen (wj_output j)) id 0 w j J N D) as C. apply C; lia. }
  intros off r Hr. destruct (snapshot_job id off w r Hr N) as (j' & J' & O & _ & _ & _ & _ & Nx & Out).
  rewrite J in J'. injection J' as <-. unfold zlen in *.
  destruct (page_end_range (Z.to_nat off) j) as [Rg Pr]; [lia|]. pose proof page_size as [Pg _].
  assert (valid_string (wj_output j) = true → at_rune (Z.to_nat off) (wj_output j) → at_rune (page_end (Z.to_nat off) j) (wj_output j)) as Ae.
  { intros V A. apply (page_end_rune _ j (wj_output j) V); [by rewrite stake_all|exact A|lia|]. right. right. left. lia. }
  assert (Z.to_nat off < slen (wj_output j) → Z.to_nat off < page_end (Z.to_nat off) j)%nat as Mv by (intros L; apply Pr; [exact L|by left]).
  clear Pr Hr. revert Rg Nx Out Ae Mv. generalize (page_end (Z.to_nat off) j) as e. intros e Rg Nx Out Ae Mv.
  assert (slen (res_Output r) = e - Z.to_nat off)%nat as Ln.
  { rewrite Out. unfold slice. rewrite slen_stake, slen_sdrop. lia. }
  rewrite Nx, Ln. assert (Z.of_nat page = workspaceOutputPage) as Pz by (unfold page; rewrite Z2Nat.id by done; done).
  split_and!; [lia|lia|lia|lia| |].
  - intros L. specialize (Mv ltac:(lia)). lia.
  - intros V A. rewrite Nat2Z.id. specialize (Ae V A). split; [|exact Ae]. rewrite Out.
    destruct (valid_cut _ _ V A) as [_ Vd]. apply (valid_cut (sdrop (Z.to_nat off) (wj_output j))); [exact Vd|].
    apply at_rune_sdrop; [lia|exact Ae].
Qed.

(** ** The controller that prints it *)

(** An answer once it went through JSON. *)
Definition received (r : workspaceResult) : workspaceResult :=
  WorkspaceResult (json_text (res_ID r)) (json_text (res_Root r)) (res_State r) (json_text (res_ActiveRequestID r)) (json_text (res_RequestID r))
    (res_RequestState r) (res_Done r) (res_Code r) (res_Error r) (json_text (res_Output r)) (res_NextOffset r) (res_OutputBytes r)
    (res_RetainedBytes r) (res_Truncated r) (json_text (res_Cwd r)).

(** Why a poll has no result: the connection failed or was given up, or the
    device refused. *)
Inductive poll_error := Lost | Refused (e : werror).

(** The loop of [awaitWorkspace]: [answer k off] is what the [k]-th poll, from
    offset [off], comes to.  [None]: still polling. *)
Fixpoint awaitWorkspace (answer : nat → Z → result poll_error workspaceResult) (fuel k : nat) (r : workspaceResult) (out : string)
  : option (string * result poll_error workspaceResult) :=
  let out := (out ++ res_Output r)%string in
  if res_Done r && (res_RetainedBytes r <=? res_NextOffset r) then Some (out, Ok r)
  else match fuel with
       | O => None
       | S fuel =>
           match answer k (res_NextOffset r) with
           | Err e => Some (out, Err e)
           | Ok r => awaitWorkspace answer fuel (S k) r out
           end
       end.

(** What [handleWorkspace] answers to a poll of controller [fp]. *)
Definition poll (fp wid id : string) (off : Z) (s : wsys) : result werror workspaceResult :=
  match getWorkspace fp wid (sys_ws s) with
  | Err e => Err e
  | Ok p => match obj p s with Some w => snapshot id off w | None => Err ErrUnavailable end
  end.

Section await.
Context (shell dflt : string) (devs : nat → wsys) (lost : nat → bool) (p : nat) (fp wid id : string).
Hypothesis start_reachable : device_workspaces shell dflt (devs 0).
Hypothesis runs : ∀ k, rtc (wstep shell dflt) (devs k) (devs (S k)).
Hypothesis named : id ≠ ""%string.
(** As long as the name answers, it is this workspace that does. *)
Hypothesis not_reopened : ∀ k q, getWorkspace fp wid (sys_ws (devs k)) = Ok q → q = p.

(** The device is [devs k] when the [k]-th poll comes, if it does. *)
Definition poll_answer (k : nat) (off : Z) : result poll_error workspaceResult :=
  if lost k then Err Lost
  else match poll fp wid id off (devs k) with Ok r => Ok (received r) | Err e => Err (Refused e) end.

Definition job_at (k : nat) (w : workspace) (j : workspaceJob) : Prop := obj p (devs k) = Some w ∧ w_jobs w !! id = Some j.

Lemma devs_reachable k : device_workspaces shell dflt (devs k).
Proof.
  induction k as [|k (s0 & H0 & Hr)]; [done|]. exists s0. split; [done|]. by etrans.
Qed.

Lemma job_next k w j : job_at k w j → ∃ w' j', job_at (S k) w' j' ∧ grown j j'.
Proof.
  intros [O J]. destruct (run_jobs shell dflt (devs k) (devs (S k)) p w id j (devs_reachable k) (runs k) O J) as (w' & j' & O' & J' & G).
  by exists w', j'.
Qed.

Lemma job_later k n w j : job_at k w j → ∃ w' j', job_at (k + n) w' j' ∧ grown j j'.
Proof.
  intros H. induction n as [|n (w1 & j1 & H1 & G1)]; [rewrite Nat.add_0_r; by exists w, j|].
  destruct (job_next _ _ _ H1) as (w2 & j2 & H2 & G2). exists w2, j2. rewrite Nat.add_succ_r. split; [done|]. by trans j1.
Qed.

(** What is kept of the command's output is text: the beginning of some UTF-8
    text, which it follows to a whole character once it is complete or cut. *)
Definition writes (text : string) : Prop :=
  valid_string text = true ∧ ∀ k w j, job_at k w j →
    wj_output j = stake (slen (wj_output j)) text ∧
    (wj_done j = true ∨ wj_total j ≠ zlen (wj_output j) → at_rune (slen (wj_output j)) text).

(** One page: it goes on where the one before ended, and of a text it is text. *)
Lemma await_turn k w j off r :
  job_at k w j → snapshot id off w = Ok r →
  0 <= off <= zlen (wj_output j) ∧ res_Done r = wj_done j ∧ res_Code r = wj_code j ∧ res_Error r = wj_err j ∧
  res_RetainedBytes r = zlen (wj_output j) ∧ off <= res_NextOffset r <= zlen (wj_output j) ∧
  (off < zlen (wj_output j) → wj_done j = true → off < res_NextOffset r) ∧
  (stake (Z.to_nat off) (wj_output j) ++ res_Output r)%string = stake (Z.to_nat (res_NextOffset r)) (wj_output j) ∧
  ∀ text, writes text → at_rune (Z.to_nat off) text → valid_string (res_Output r) = true ∧ at_rune (Z.to_nat (res_NextOffset r)) text.
Proof.
  intros [O J] Hr. destruct (snapshot_job id off w r Hr named) as (j' & J' & B & D & C & Er & Rt & Nx & Out).
  rewrite J in J'. injection J' as <-. unfold zlen in *. destruct (page_end_range (Z.to_nat off) j) as [Rg Pr]; [lia|].
  assert (∀ text, writes text → at_rune (Z.to_nat off) text → at_rune (page_end (Z.to_nat off) j) text) as Ar.
  { intros text [V W] A. destruct (W k w j) as [Pre Cut]; [by split|]. apply (page_end_rune _ j text V Pre A); [lia|].
    destruct (wj_done j) eqn:Dn; [right; right; apply Cut; by left|].
    destruct (decide (wj_total j = zlen (wj_output j))); [right; by left|right; right; apply Cut; by right]. }
  assert (∀ text, writes text → wj_output j = stake (slen (wj_output j)) text) as Pre by (intros text [_ W]; by destruct (W k w j (conj O J))).
  revert Rg Pr Nx Out Ar. generalize (page_end (Z.to_nat off) j) as e. intros e Rg Pr Nx Out Ar. rewrite Nx, Nat2Z.id.
  split_and!; try done; try lia.
  - intros L Dn. assert (Z.to_nat off < e)%nat by (apply Pr; [lia|by left]). lia.
  - rewrite Out. apply stake_slice. lia.
  - intros text Wt A. specialize (Ar text Wt A). split; [|done]. rewrite Out, (Pre text Wt). unfold slice. rewrite sdrop_stake, stake_stake.
    destruct Wt as [V _]. destruct (valid_cut text _ V A) as [_ Vd].
    replace (Nat.min (e - Z.to_nat off) (slen (wj_output j) - Z.to_nat off)) with (e - Z.to_nat off)%nat by lia.
    apply (valid_cut (sdrop (Z.to_nat off) text)); [exact Vd|]. apply at_rune_sdrop; [lia|exact Ar].
Qed.

(** A poll that is answered comes from the same workspace, and goes on. *)
Lemma await_next k w j off r w' j' :
  job_at k w j → snapshot id off w = Ok r → job_at (S k) w' j' → grown j j' →
  stake (Z.to_nat (res_NextOffset r)) (wj_output j) = stake (Z.to_nat (res_NextOffset r)) (wj_output j') ∧
  match poll_answer (S k) (res_NextOffset r) with
  | Ok r' => ∃ r0, r' = received r0 ∧ snapshot id (res_NextOffset r) w' = Ok r0
  | Err Lost => lost (S k) = true
  | Err (Refused e) => getWorkspace fp wid (sys_ws (devs (S k))) = Err e
  end.
Proof.
  intros H Hr [O' J'] [[t Ht] _]. destruct (await_turn _ _ _ _ _ H Hr) as (B0 & _ & _ & _ & _ & B & _). unfold zlen in B.
  split; [rewrite Ht; symmetry; apply stake_app_le; lia|].
  destruct (snapshot_ok id (res_NextOffset r) w' j' J' named) as [r0 Hr']; [rewrite Ht; unfold zlen; rewrite slen_app; lia|].
  unfold poll_answer, poll. destruct (lost (S k)) eqn:Ls; [done|]. destruct (getWorkspace _ _ _) as [q|e] eqn:G; [|done].
  rewrite (not_reopened _ _ G), O', Hr'. by exists r0.
Qed.

(** What was printed of [kept]: its pages, each as it came. *)
Definition printed (kept out : string) : Prop :=
  ∃ pages, String.concat "" pages = kept ∧ out = String.concat "" (json_text <$> pages).

Lemma concat_snoc l x : String.concat "" (l ++ [x]) = (String.concat "" l ++ x)%string.
Proof.
  induction l as [|y [|z l] IH]; [done|done|]. change ((y :: z :: l) ++ [x]) with (y :: ((z :: l) ++ [x])).
  assert (∀ a m, m ≠ [] → String.concat "" (a :: m) = (a ++ String.concat "" m)%string) as Step by (intros a [|b m]; [done|by intros]).
  rewrite !Step, IH by done. by rewrite app_assoc_s.
Qed.

Lemma printed_snoc kept out page : printed kept out → printed (kept ++ page) (out ++ json_text page).
Proof.
  intros (pages & <- & ->). exists (pages ++ [page]). split; [apply concat_snoc|]. rewrite fmap_app. symmetry. apply concat_snoc.
Qed.

(** How the loop ends, from a turn on. *)
Definition await_result (o : string) (res : result poll_error workspaceResult) : Prop :=
  ∃ n w' j' len, job_at n w' j' ∧ printed (stake len (wj_output j')) o ∧ (∀ text, writes text → o = stake len (wj_output j')) ∧
    match res with
    | Ok r' => wj_done j' = true ∧ stake len (wj_output j') = wj_output j' ∧ res_Code r' = wj_code j' ∧ res_Error r' = wj_err j'
    | Err Lost => lost n = true
    | Err (Refused e) => getWorkspace fp wid (sys_ws (devs n)) = Err e
    end.

Lemma await_safe fuel k w j off r out o res :
  job_at k w j → snapshot id off w = Ok r → printed (stake (Z.to_nat off) (wj_output j)) out →
  (∀ text, writes text → at_rune (Z.to_nat off) text ∧ out = stake (Z.to_nat off) (wj_output j)) →
  awaitWorkspace poll_answer fuel (S k) (received r) out = Some (o, res) → await_result o res.
Proof.
  revert k w j off r out. induction fuel as [|fuel IH]; intros k w j off r out H Hr P T; cbn [awaitWorkspace res_Output received res_Done res_RetainedBytes res_NextOffset];
    destruct (await_turn _ _ _ _ _ H Hr) as (B & D & C & Er & Rt & Nx & _ & Pr & Tx); rewrite D, Rt.
  all: assert (printed (stake (Z.to_nat (res_NextOffset r)) (wj_output j)) (out ++ json_text (res_Output r))) as P'
    by (rewrite <- Pr; by apply printed_snoc).
  all: assert (∀ text, writes text → at_rune (Z.to_nat (res_NextOffset r)) text ∧
    (out ++ json_text (res_Output r))%string = stake (Z.to_nat (res_NextOffset r)) (wj_output j)) as T'
    by (intros text Wt; destruct (T text Wt) as [A ->]; destruct (Tx text Wt A) as [V A']; split; [done|]; by rewrite json_text_valid, Pr).
  all: destruct (wj_done j && (zlen (wj_output j) <=? res_NextOffset r)) eqn:F;
    [intros [= <- <-]; bsplit; exists k, w, j, (Z.to_nat (res_NextOffset r)); split_and!; try done;
     [by intros text Wt; destruct (T' text Wt)|apply stake_all; unfold zlen in *; lia]|].
  { done. }
  destruct (job_next _ _ _ H) as (w' & j' & H' & G). destruct (await_next _ _ _ _ _ _ _ H Hr H' G) as (E & Ans). rewrite E in P', T'.
  destruct (poll_answer _ _) as [r'|e].
  - destruct Ans as (r0 & -> & Hr'). intros A. by eapply (IH (S k) w' j' _ r0 _ H' Hr' P' T').
  - intros [= <- <-]. exists (S k), w', j', (Z.to_nat (res_NextOffset r)). split; [done|]. split; [done|].
    split; [by intros text Wt; destruct (T' text Wt)|]. exact Ans.
Qed.

Lemma await_ends fuel n k w j off r out wn jn :
  job_at k w j → snapshot id off w = Ok r → job_at n wn jn → wj_done jn = true →
  Z.of_nat (n - k) + (zlen (wj_output jn) - off) <= Z.of_nat fuel →
  ∃ o res, awaitWorkspace poll_answer fuel (S k) (received r) out = Some (o, res).
Proof.
  revert k w j off r out. induction fuel as [|fuel IH]; intros k w j off r out H Hr Hn Dn F;
    destruct (await_turn _ _ _ _ _ H Hr) as (B & D & _ & _ & Rt & Nx & Mv & _).
  all: assert ((n <= k)%nat → j = jn) as Later by
    (intros L; destruct (job_later n (k - n) wn jn Hn) as (w2 & j2 & [O2 J2] & [_ Fz]); destruct H as [Oj Jj];
     replace (n + (k - n))%nat with k in * by lia; rewrite Oj in O2; injection O2 as <-; rewrite Jj in J2; injection J2 as <-; by apply Fz).
  all: assert (zlen (wj_output j) <= zlen (wj_output jn)) as Sh by
    (destruct (Nat.le_gt_cases n k) as [L|L]; [by rewrite (Later L)|];
     destruct (job_later k (n - k) w j H) as (w2 & j2 & [O2 J2] & [[t Ht] _]); destruct Hn as [On Jn];
     replace (k + (n - k))%nat with n in * by lia; rewrite On in O2; injection O2 as <-; rewrite Jn in J2; injection J2 as <-;
     rewrite Ht, zlen_app; pose proof (zlen_nonneg t); lia).
  all: cbn [awaitWorkspace received res_Done res_RetainedBytes res_NextOffset]; rewrite D, Rt.
  all: destruct (wj_done j && (zlen (wj_output j) <=? res_NextOffset r)) eqn:E; [by eexists _, _|].
  - exfalso. assert (n <= k)%nat as L by lia. rewrite (Later L) in *. rewrite Dn in E. simpl in E. apply Z.leb_gt in E. lia.
  - destruct (job_next _ _ _ H) as (w' & j' & H' & G). destruct (await_next _ _ _ _ _ _ _ H Hr H' G) as [_ Ans].
    destruct (poll_answer _ _) as [r'|e]; [|by eexists _, _]. destruct Ans as (r0 & -> & Hr').
    apply (IH (S k) w' j' _ r0 _ H' Hr' Hn Dn). destruct (Nat.le_gt_cases n k) as [L|L]; [|lia].
    specialize (Later L). subst jn. rewrite Dn in E. simpl in E. apply Z.leb_gt in E.
    assert (off < zlen (wj_output j)) as Lo by lia. specialize (Mv Lo Dn). lia.
Qed.

(** C32: the controller that waits for a command prints its output.  Whatever
    the device does between two polls (the command writes on, ends, is cancelled;
    the workspace is closed), as long as no other workspace is opened under the
    same name: what the loop has printed when it returns are consecutive pages,
    from the first byte on, of what the device kept of the output, each once and
    in order, with U+FFFD for bytes of a page that are not UTF-8; of an output
    that is UTF-8 text it is that text exactly.  It returns the result of the
    finished command, having printed all of it, or an error: that the connection
    was lost, or that the workspace is no longer there for this controller.
    Once the command is done it returns after a bounded number of further
    polls. *)
Theorem await_prints_output w j r :
  job_at 0 w j → snapshot id 0 w = Ok r →
  (∀ fuel o res, awaitWorkspace poll_answer fuel 1 (received r) "" = Some (o, res) → await_result o res) ∧
  (∀ n wn jn, job_at n wn jn → wj_done jn = true →
     ∃ o res, awaitWorkspace poll_answer (n + slen (wj_output jn)) 1 (received r) "" = Some (o, res)).
Proof.
  intros H Hr. split.
  - intros fuel o res A. apply (await_safe fuel 0 w j 0 r "" o res H Hr); [by exists []|..|done]. intros text [V W]. split; [|done].
    destruct text as [|c text]; [left; simpl; lia|]. right. exists c. split; [done|]. by eapply valid_head_start.
  - intros n wn jn Hn Dn. eapply (await_ends _ n 0 w j 0 r "" wn jn H Hr Hn Dn). unfold zlen. lia.
Qed.
End await.

(** ** A concrete output *)

Definition sample_job : workspaceJob := WorkspaceJob "printf" "" "" "" Done "héllo" 6 0 None true "/srv/app".
Definition paged_workspace : workspace := Workspace "w" "fp" "/srv/app" false false false false "" {["r1"%string := sample_job]} 6 6.

Lemma pages_reassemble_witness : collect 6 "r1" 0 paged_workspace = Some "héllo"%string ∧ valid_string "héllo" = true.
Proof.
  split; [|vm_compute; reflexivity].
  exact (proj1 (pages_reassemble paged_workspace "r1" sample_job eq_refl ltac:(discriminate) eq_refl)).
Defined.

Lemma sample_job_at : ∃ w j, job_at (λ _, sample_sys) 0 "r1" 0 w j ∧ wj_done j = true ∧ wj_output j = "ok"%string.
Proof. destruct sample_ws as (w & O & _ & _ & (j & J & D & U) & _). exists w, j. split; [by split|done]. Qed.

(** The owner closes the workspace before the next poll: the controller is told. *)
Definition closing (k : nat) : wsys := match k with O => sample_sys | S _ => default wsys0 (run_events "" "sh" [EStop 0; EForget 0] sample_sys) end.

Example closed_is_told :
  match poll "fp" sample_id "r2" 0 sample_sys with
  | Ok r => awaitWorkspace (poll_answer closing (λ _, false) "fp" sample_id "r2") 1 1 (received r) ""
  | Err _ => None
  end = Some (""%string, Err (Refused ErrUnavailable)).
Proof. vm_compute. reflexivity. Qed.

Lemma sample_not_reopened k q : getWorkspace "fp" sample_id (sys_ws ((λ _ : nat, sample_sys) k)) = Ok q → q = 0%nat.
Proof. intros E. vm_compute in E. by injection E as <-. Qed.

Lemma await_prints_output_witness : ∃ r o res w j,
  awaitWorkspace (poll_answer (λ _, sample_sys) (λ _, false) "fp" sample_id "r1") 2 1 (received r) "" = Some (o, res) ∧
  job_at (λ _, sample_sys) 0 "r1" 0 w j ∧ snapshot "r1" 0 w = Ok r ∧ await_result (λ _, sample_sys) (λ _, false) 0 "fp" sample_id "r1" o res.
Proof.
  destruct sample_job_at as (w & j & H & D & U).
  destruct (snapshot_ok "r1" 0 w j (proj2 H) ltac:(discriminate)) as [r Hr]; [rewrite U; unfold zlen; simpl; lia|].
  destruct (await_prints_output "" "sh" (λ _, sample_sys) (λ _, false) 0 "fp" sample_id "r1" sample_reachable (λ _, rtc_refl _ _) ltac:(discriminate)
              sample_not_reopened w j r H Hr) as [Sf L].
  destruct (L 0%nat w j H D) as (o & res & E). rewrite U in E. exists r, o, res, w, j. split; [exact E|]. split; [exact H|]. split; [exact Hr|].
  exact (Sf _ _ _ E).
Defined.
