(* ===== verification/FileEdit.v ===== *)
(** [internal/server/fileops.go]: replacing strings inside a file on the device
    ([handleFileEdit]), and writing a whole text file ([handleFileWrite]).

    Opening the target under its policy root, its mode, and the commit that
    renames the new file over it are arguments (their outcomes); what they
    decide is the subject of FileGuard.v and Transfer.v.  The texts of refusals are not kept:
    a refusal is a constructor with the numbers it reports. *)

From S2P Require Import Prelude GoStrings GoUtf8 GoCodec.
From stdpp Require Import sorting.

Local Open Scope Z_scope.

Definition sniffLen : nat := Z.to_nat (Z.shiftl 8 10).
Definition MaxEditBytes : Z := Z.shiftl 8 20.
Definition MaxBatchEdits : nat := 64.

(** ** Searching and replacing: [strings.Index], [Count], [Replace] *)

Fixpoint Index (s sub : string) : option nat :=
  if has_prefix s sub then Some 0%nat
  else match s with
       | EmptyString => None
       | String _ s' => S <$> Index s' sub
       end.

(** For a [sub] that is not empty. *)
Fixpoint count_fuel (fuel : nat) (s sub : string) : nat :=
  match fuel with
  | O => 0
  | S fuel => match Index s sub with
              | None => 0
              | Some i => S (count_fuel fuel (sdrop (i + slen sub) s) sub)
              end
  end.
Definition Count (s sub : string) : nat := count_fuel (S (slen s)) s sub.

Fixpoint replace_loop (n : nat) (s old new : string) : string :=
  match n with
  | O => s
  | S n => match Index s old with
           | None => s
           | Some i => stake i s ++ new ++ replace_loop n (sdrop (i + slen old) s) old new
           end
  end.
Definition Replace (s old new : string) (n : nat) : string := replace_loop (Nat.min n (Count s old)) s old new.

(** ** Is it text *)

(** Up to [n] bytes off the end, until what is left is valid. *)
Fixpoint trim_invalid (n : nat) (s : string) : string :=
  match n with
  | O => s
  | S n => if valid_string s || (slen s =? 0)%nat then s else trim_invalid n (stake (slen s - 1) s)
  end.

Definition has_nul (s : string) : bool := negb (sforall (λ c, negb (byte_val c =? 0)) s).

Definition isText (sniff : string) (size : Z) : bool :=
  if has_nul sniff then false
  else valid_string (if zlen sniff <? size then trim_invalid 3 sniff else sniff).

(** ** A batch of edits *)

Record fileEdit := FileEdit { Old : string; New : string }.

Record span := Span { sp_index : nat; sp_from : nat; sp_to : nat; sp_replace : string }.

(** Why an edit was refused. *)
Inductive edit_error :=
| BothForms | TooManyEdits (n : nat) | AllWithEdits | NoOld | Failed (text : string) | OverLimit | NotText
| Changed | EmptyOld (i : nat) | NotFoundAt (i : nat) | ManyAt (i count : nat) | Overlap (a b : nat) | TooBig (projected : Z)
| NotFound | Many (count : nat).

(** The first loop of [applyEdits]. *)
Fixpoint find_spans (text : string) (i : nat) (edits : list fileEdit) : result edit_error (list span) :=
  match edits with
  | [] => Ok []
  | e :: edits =>
      if String.eqb (Old e) "" then Err (EmptyOld i)
      else match Count text (Old e) with
           | O => Err (NotFoundAt i)
           | S (S n) => Err (ManyAt i (S (S n)))
           | S O =>
               (* [Index] answers -1 for a string that does not occur; one that is counted does *)
               let at_ := default 0%nat (Index text (Old e)) in
               match find_spans text (S i) edits with
               | Err x => Err x
               | Ok l => Ok (Span i at_ (at_ + slen (Old e)) (New e) :: l)
               end
           end
  end.

Definition span_le (a b : span) : Prop := (sp_from a <= sp_from b)%nat.
#[export] Instance span_le_dec a b : Decision (span_le a b).
Proof. unfold span_le. apply _. Defined.
#[export] Instance span_le_total : Total span_le.
Proof. intros a b. unfold span_le. lia. Qed.
#[export] Instance span_le_trans : Transitive span_le.
Proof. intros a b c. unfold span_le. lia. Qed.

(** The second loop, over the spans in order; [sort.Slice] may order spans that
    begin together in any way, which decides only the pair that is named. *)
Fixpoint find_overlap (l : list span) : option (nat * nat) :=
  match l with
  | a :: ((b :: _) as rest) =>
      if (sp_from b <? sp_to a)%nat then Some (Nat.min (sp_index a) (sp_index b), Nat.max (sp_index a) (sp_index b))
      else find_overlap rest
  | _ => None
  end.

Definition span_growth (s : span) : Z := zlen (sp_replace s) - (Z.of_nat (sp_to s) - Z.of_nat (sp_from s)).

(** The builder: what lies between the spans, and their replacements. *)
Fixpoint build (text : string) (pos : nat) (l : list span) : string :=
  match l with
  | [] => sdrop pos text
  | s :: l => slice pos (sp_from s) text ++ sp_replace s ++ build text (sp_to s) l
  end.

Definition applyEdits (text : string) (edits : list fileEdit) (maxSize : Z) : result edit_error string :=
  match find_spans text 0 edits with
  | Err x => Err x
  | Ok spans =>
      let ordered := merge_sort span_le spans in
      match find_overlap ordered with
      | Some (a, b) => Err (Overlap a b)
      | None =>
          let projected := zlen text + sum_Z span_growth spans in
          if maxSize <? projected then Err (TooBig projected) else Ok (build text 0 ordered)
      end
  end.

(** ** One request *)

Record edit_request := EditRequest {
  eq_old : string; eq_new : string; eq_all : bool; eq_edits : list fileEdit; eq_expected : string }.

(** What the controller is told. *)
Inductive edit_reply :=
| EditRefused (e : edit_error)
| EditDone (replaced occurrences : nat) (size : Z) (sha : string).

Definition sha256Hex (s : string) : string := hex_encode (sha256 s).

(** The second component: what the file holds afterwards, when it was replaced. *)
Definition commitEdit (commit : result string unit) (updated : string) (replaced occurrences : nat) : edit_reply * option string :=
  match commit with
  | Err e => (EditRefused (Failed e), None)
  | Ok _ => (EditDone replaced occurrences (zlen updated) (sha256Hex updated), Some updated)
  end.

(** The new text of one request, or why there is none. *)
Definition edit_text (text : string) (m : edit_request) (maxSize : Z) : result edit_error (string * nat * nat) :=
  if (0 <? length (eq_edits m))%nat then
    match applyEdits text (eq_edits m) maxSize with
    | Err e => Err e
    | Ok updated => Ok (updated, length (eq_edits m), length (eq_edits m))
    end
  else
    let count := Count text (eq_old m) in
    if (count =? 0)%nat then Err NotFound
    else if (1 <? count)%nat && negb (eq_all m) then Err (Many count)
    else
      let replaced := if eq_all m then count else 1%nat in
      let projected := zlen text + Z.of_nat replaced * (zlen (eq_new m) - zlen (eq_old m)) in
      if maxSize <? projected then Err (TooBig projected)
      else Ok (Replace text (eq_old m) (eq_new m) replaced, replaced, count).

(** [open] is the file as [openPolicyFile] and the bounded read find it. *)
Definition handleFileEdit (open : result string string) (commit : result string unit) (m : edit_request) (maxSize : Z)
  : edit_reply * option string :=
  let some := (0 <? length (eq_edits m))%nat in
  if some && (negb (String.eqb (eq_old m) "") || negb (String.eqb (eq_new m) "")) then (EditRefused BothForms, None)
  else if (MaxBatchEdits <? length (eq_edits m))%nat then (EditRefused (TooManyEdits (length (eq_edits m))), None)
  else if some && eq_all m then (EditRefused AllWithEdits, None)
  else if negb some && String.eqb (eq_old m) "" then (EditRefused NoOld, None)
  else match open with
  | Err e => (EditRefused (Failed e), None)
  | Ok content =>
      let original := stake (Z.to_nat (maxSize + 1)) content in
      if maxSize <? zlen original then (EditRefused OverLimit, None)
      else if negb (isText (stake sniffLen original) (zlen original)) then (EditRefused NotText, None)
      else if negb (String.eqb (eq_expected m) "") && negb (equal_fold (eq_expected m) (sha256Hex original))
      then (EditRefused Changed, None)
      else match edit_text original m maxSize with
           | Err e => (EditRefused e, None)
           | Ok (updated, replaced, count) => commitEdit commit updated replaced count
           end
  end.

(** [handleFileWrite]: [existing] is whether the file can be opened ([None]: it
    does not exist), with its mode. *)
Inductive write_reply := WriteRefused (e : edit_error) | WriteDone (created : bool) (perm : Z) (size : Z) (sha : string).

Definition defaultPerm : Z := 420.   (* 0o644 *)

Definition handleFileWrite (existing : result string (option Z)) (commit : Z → result string unit) (content : string) (maxSize : Z)
  : write_reply * option string :=
  if maxSize <? zlen content then (WriteRefused (TooBig (zlen content)), None)
  else if negb (valid_string content) || has_nul content then (WriteRefused NotText, None)
  else match existing with
  | Err e => (WriteRefused (Failed e), None)
  | Ok mode =>
      let perm := default defaultPerm mode in
      let created := match mode with None => true | Some _ => false end in
      match commit perm with
      | Err e => (WriteRefused (Failed e), None)
      | Ok _ => (WriteDone created perm (zlen content) (sha256Hex content), Some content)
      end
  end.

Example count_overlapping : Count "aaa" "aa" = 1%nat ∧ applyEdits "aaa" [FileEdit "aa" "b"] 100 = Ok "ba".
Proof. vm_compute. done. Qed.
Example batch_sample : applyEdits "one two three" [FileEdit "three" "3"; FileEdit "one" "1"] 100 = Ok "1 two 3".
Proof. vm_compute. done. Qed.

(** ** Occurrences *)

Lemma Index_Some s sub i :
  Index s sub = Some i → s = (stake i s ++ sub ++ sdrop (i + slen sub) s)%string ∧ (i + slen sub <= slen s)%nat ∧
    ∀ k, (k < i)%nat → has_prefix (sdrop k s) sub = false.
Proof.
  revert i. induction s as [|c s IH]; intros i; cbn [Index].
  - destruct (has_prefix "" sub) eqn:P; [|done]. intros [= <-]. apply has_prefix_spec in P as [t E].
    destruct sub; [|done]. split_and!; [done|simpl; lia|lia].
  - destruct (has_prefix (String c s) sub) eqn:P.
    + intros [= <-]. apply has_prefix_spec in P as [t E]. rewrite E. simpl. rewrite sdrop_app.
      split_and!; [done|rewrite slen_app; lia|lia].
    + destruct (Index s sub) as [j|] eqn:I; [|done]. intros [= <-]. destruct (IH j eq_refl) as (E & L & Mn).
      split_and!; [simpl; by rewrite <- E|simpl; lia|]. intros [|k] Lk; [done|]. apply Mn. lia.
Qed.

Lemma Index_None s sub a b : Index s sub = None → s ≠ (a ++ sub ++ b)%string.
Proof.
  revert s. induction a as [|c a IH]; intros s I E; subst s.
  - simpl in I. destruct (sub ++ b)%string eqn:E; cbn [Index] in I; rewrite <- E, has_prefix_app in I; done.
  - simpl in I. destruct (has_prefix _ sub); [done|]. destruct (Index (a ++ sub ++ b) sub) eqn:J; [done|]. by apply (IH _ J).
Qed.

(** With a search string that is not empty, more fuel changes nothing. *)
Lemma count_fuel_enough n m s sub :
  sub ≠ ""%string → (slen s < n)%nat → (slen s < m)%nat → count_fuel n s sub = count_fuel m s sub.
Proof.
  intros N. revert m s. induction n as [|n IH]; intros m s Ln Lm; [lia|]. destruct m as [|m]; [lia|]. simpl.
  destruct (Index s sub) as [i|] eqn:I; [|done]. apply Index_Some in I as (_ & L & _). f_equal.
  assert (0 < slen sub)%nat by (destruct sub; simpl; [done|lia]). apply IH; rewrite slen_sdrop; lia.
Qed.

Lemma Count_step s sub : sub ≠ ""%string →
  Count s sub = match Index s sub with None => 0%nat | Some i => S (Count (sdrop (i + slen sub) s) sub) end.
Proof.
  intros N. unfold Count at 1. cbn [count_fuel]. destruct (Index s sub) as [i|] eqn:I; [|done].
  apply Index_Some in I as (_ & L & _). f_equal. apply count_fuel_enough; [done| |lia].
  assert (0 < slen sub)%nat by (destruct sub; simpl; [done|lia]). rewrite slen_sdrop. lia.
Qed.

(** Pieces with a text before, between and after them. *)
Fixpoint weave {A} (piece : A → string) (g : string) (l : list (A * string)) : string :=
  match l with [] => g | (a, g') :: l => g ++ piece a ++ weave piece g' l end.

Lemma weave_length {A} (f h : A → string) g l :
  zlen (weave f g l) = zlen (weave h g l) + sum_Z (λ x, zlen (f x.1) - zlen (h x.1)) l.
Proof.
  revert g. induction l as [|[a g'] l IH]; intros g; simpl; [lia|]. rewrite !zlen_app, IH. lia.
Qed.

(** Every piece is the first occurrence in what is left when it is reached. *)
Fixpoint first_each (old g : string) (l : list (unit * string)) : Prop :=
  match l with
  | [] => True
  | (_, g') :: l' => Index (weave (λ _, old) g l) old = Some (slen g) ∧ first_each old g' l'
  end.

Lemma replace_loop_spec n s old new :
  old ≠ ""%string → (n <= Count s old)%nat → ∃ g l, length l = n ∧ s = weave (λ _, old) g l ∧
    replace_loop n s old new = weave (λ _, new) g l ∧ first_each old g l.
Proof.
  intros N. revert s. induction n as [|n IH]; intros s L; [by exists s, []|].
  rewrite Count_step in L by done. cbn [replace_loop]. destruct (Index s old) as [i|] eqn:I; [|lia].
  destruct (IH (sdrop (i + slen old) s)) as (g & l & Ll & E & R & F); [lia|].
  pose proof (Index_Some _ _ _ I) as (Es & Lb & _). exists (stake i s), ((tt, g) :: l). simpl. rewrite <- E, <- R.
  split_and!; [by rewrite Ll|done|done|rewrite <- Es, I, slen_stake; f_equal; lia|done].
Qed.

Lemma first_each_count old g l : old ≠ ""%string → first_each old g l → (length l <= Count (weave (λ _, old) g l) old)%nat.
Proof.
  intros N. revert g. induction l as [|[[] g'] l IH]; intros g; [simpl; lia|]. cbn [first_each]. intros [I F]. specialize (IH g' F).
  rewrite Count_step, I by done. simpl in *. rewrite app_assoc_s, <- slen_app, sdrop_app. lia.
Qed.

(** ** The spans of a batch *)

Lemma find_spans_spec text i edits l :
  find_spans text i edits = Ok l →
  Forall2 (λ e s, Old e ≠ ""%string ∧ Count text (Old e) = 1%nat ∧ Index text (Old e) = Some (sp_from s) ∧
                  sp_to s = (sp_from s + slen (Old e))%nat ∧ sp_replace s = New e) edits l.
Proof.
  revert i l. induction edits as [|e edits IH]; intros i l; cbn [find_spans]; [intros [= <-]; constructor|].
  destruct (String.eqb_spec (Old e) "") as [|N]; [done|]. destruct (Count text (Old e)) as [|[|n]] eqn:C; [done| |done].
  destruct (find_spans text (S i) edits) as [r|] eqn:F; [|done]. intros [= <-]. constructor; [|by eapply IH]. simpl.
  pose proof C as C1. rewrite Count_step in C by done. destruct (Index text (Old e)); [|done]. by split_and!.
Qed.

Lemma find_spans_fails text i edits x :
  find_spans text i edits = Err x → ∃ k e, edits !! k = Some e ∧
    (x = EmptyOld (i + k) ∧ Old e = ""%string ∨ x = NotFoundAt (i + k) ∧ Count text (Old e) = 0%nat ∨
     ∃ n, x = ManyAt (i + k) n ∧ (1 < n)%nat ∧ Count text (Old e) = n).
Proof.
  revert i. induction edits as [|e edits IH]; intros i; cbn [find_spans]; [done|].
  destruct (String.eqb_spec (Old e) "") as [E|N].
  { intros [= <-]. exists 0%nat, e. rewrite Nat.add_0_r. auto. }
  destruct (Count text (Old e)) as [|[|n]] eqn:C.
  - intros [= <-]. exists 0%nat, e. rewrite Nat.add_0_r. auto.
  - destruct (find_spans text (S i) edits) as [r|y] eqn:F; [done|]. intros [= <-].
    destruct (IH _ F) as (k & e' & Hk & Q). exists (S k), e'. rewrite Nat.add_succ_r. by split.
  - intros [= <-]. exists 0%nat, e. rewrite Nat.add_0_r. split; [done|]. right. right. exists (S (S n)). split_and!; [done|lia|done].
Qed.

(** Sorted spans that do not overlap follow each other. *)
Inductive chain : nat → list span → Prop :=
| chain_nil pos : chain pos []
| chain_cons pos s l : (pos <= sp_from s)%nat → (sp_from s < sp_to s)%nat → chain (sp_to s) l → chain pos (s :: l).

Lemma find_overlap_chain pos l :
  find_overlap l = None → Forall (λ s, (sp_from s < sp_to s)%nat) l → (∀ s, head l = Some s → (pos <= sp_from s)%nat) → chain pos l.
Proof.
  revert pos. induction l as [|a l IH]; intros pos O F H; [constructor|].
  apply Forall_cons in F as [Fa F]. constructor; [by apply H|done|]. destruct l as [|b l]; [constructor|].
  cbn [find_overlap] in O. destruct (Nat.ltb_spec (sp_from b) (sp_to a)); [done|]. apply IH; [done|done|]. by intros s [= <-].
Qed.

(** What a span says of the edit it comes from. *)
Definition span_of (text : string) (e : fileEdit) (s : span) : Prop :=
  Old e ≠ ""%string ∧ Count text (Old e) = 1%nat ∧ Index text (Old e) = Some (sp_from s) ∧
  sp_to s = (sp_from s + slen (Old e))%nat ∧ sp_replace s = New e.

(** Each edit of the batch at the first place its text occurs; [n] bytes come
    before [g]. *)
Fixpoint located (text : string) (n : nat) (g : string) (l : list (fileEdit * string)) : Prop :=
  match l with
  | [] => True
  | (e, g') :: l => Index text (Old e) = Some (n + slen g)%nat ∧ located text (n + slen g + slen (Old e)) g' l
  end.

Lemma build_weave text pos es l :
  chain pos l → Forall2 (span_of text) es l → (pos <= slen text)%nat → ∃ g w, w.*1 = es ∧
    sdrop pos text = weave Old g w ∧ build text pos l = weave New g w ∧ located text pos g w.
Proof.
  intros C. revert es. induction C as [pos|pos s l L1 L2 C IH]; intros es F L.
  { apply Forall2_nil_inv_r in F as ->. by exists (sdrop pos text), []. }
  apply Forall2_cons_inv_r in F as (e & es' & (N & _ & I & T & R) & F & ->).
  pose proof (Index_Some _ _ _ I) as (E & Lb & _). rewrite <- T in Lb, E.
  destruct (IH es' F Lb) as (g & w & Ew & E1 & E2 & Lo).
  assert (slen (slice pos (sp_from s) text) = (sp_from s - pos)%nat) as Lg by (unfold slice; rewrite slen_stake, slen_sdrop; lia).
  exists (slice pos (sp_from s) text), ((e, g) :: w). simpl. rewrite Lg, <- E1, <- E2, R.
  replace (pos + (sp_from s - pos))%nat with (sp_from s) by lia. rewrite <- T.
  split_and!; [by f_equal| |done|done|done].
  rewrite E at 1. rewrite sdrop_app_le by (rewrite slen_stake; lia). by rewrite sdrop_stake.
Qed.

Lemma chain_growth text es l : Forall2 (span_of text) es l → sum_Z span_growth l = sum_Z (λ e, zlen (New e) - zlen (Old e)) es.
Proof.
  induction 1 as [|e s es l (_ & _ & _ & T & R) F IH]; simpl; [done|]. unfold span_growth at 1. rewrite IH, T, R. unfold zlen. lia.
Qed.

Lemma Forall2_perm_r {A B} (P : A → B → Prop) la lb lb' :
  Forall2 P la lb → lb ≡ₚ lb' → ∃ la', la ≡ₚ la' ∧ Forall2 P la' lb'.
Proof.
  intros F Q. revert la F. induction Q as [|x l l' Q IH|x y l|l l' l'' Q1 IH1 Q2 IH2]; intros la F.
  - exists la. by split.
  - apply Forall2_cons_inv_r in F as (a & la' & Pa & F & ->). destruct (IH _ F) as (lb2 & E & F'). exists (a :: lb2). split; [by constructor|by constructor].
  - apply Forall2_cons_inv_r in F as (a & la' & Pa & F & ->). apply Forall2_cons_inv_r in F as (b & la'' & Pb & F & ->).
    exists (b :: a :: la''). split; [by constructor|by repeat constructor].
  - destruct (IH1 _ F) as (m & E1 & F1). destruct (IH2 _ F1) as (m' & E2 & F2). exists m'. split; [by trans m|done].
Qed.

Lemma sum_Z_perm_edits (f : fileEdit → Z) l l' : l ≡ₚ l' → sum_Z f l = sum_Z f l'.
Proof. induction 1; simpl; lia. Qed.

(** The ordered spans of an accepted batch. *)
Lemma spans_chain text edits spans :
  find_spans text 0 edits = Ok spans → find_overlap (merge_sort span_le spans) = None →
  ∃ es, edits ≡ₚ es ∧ Forall2 (span_of text) es (merge_sort span_le spans) ∧ chain 0 (merge_sort span_le spans).
Proof.
  intros F%find_spans_spec O. destruct (Forall2_perm_r _ _ _ (merge_sort span_le spans) F) as (es & E & F').
  { symmetry. apply merge_sort_Permutation. }
  exists es. split; [done|]. split; [done|]. apply find_overlap_chain; [done| |intros; lia].
  clear -F'. induction F' as [|e s es l (N & _ & _ & T & _) F IH]; [constructor|]. constructor; [|done].
  rewrite T. assert (0 < slen (Old e))%nat by (destruct (Old e); simpl; [done|lia]). lia.
Qed.

Lemma find_spans_index text i edits l :
  find_spans text i edits = Ok l →
  sp_index <$> l = seq i (length edits) ∧ ∀ s, s ∈ l → ∃ e, edits !! (sp_index s - i)%nat = Some e ∧ span_of text e s.
Proof.
  revert i l. induction edits as [|e edits IH]; intros i l F; pose proof (find_spans_spec _ _ _ _ F) as Sp; cbn [find_spans] in F.
  { injection F as <-. split; [done|]. by intros s ?%elem_of_nil. }
  destruct (String.eqb_spec (Old e) "") as [|N]; [done|]. destruct (Count text (Old e)) as [|[|n]]; [done| |done].
  destruct (find_spans text (S i) edits) as [r|] eqn:F'; [|done]. injection F as <-. destruct (IH _ _ F') as [E P].
  apply Forall2_cons in Sp as [S0 _]. split; [by rewrite fmap_cons, E|]. intros s [->|Hs]%elem_of_cons.
  - exists e. simpl. rewrite Nat.sub_diag. by split.
  - destruct (P s Hs) as (e' & He' & S'). exists e'. split; [|done].
    assert (sp_index s ∈ seq (S i) (length edits)) as Hin by (rewrite <- E; by apply list_elem_of_fmap_2).
    apply elem_of_seq in Hin. replace (sp_index s - i)%nat with (S (sp_index s - S i)) by lia. done.
Qed.

Lemma find_overlap_pair l a b :
  find_overlap l = Some (a, b) → ∃ l1 s t l2, l = l1 ++ s :: t :: l2 ∧ (sp_from t < sp_to s)%nat ∧
    a = Nat.min (sp_index s) (sp_index t) ∧ b = Nat.max (sp_index s) (sp_index t).
Proof.
  induction l as [|s [|t l] IH]; try done. cbn [find_overlap]. destruct (Nat.ltb_spec (sp_from t) (sp_to s)) as [L|L].
  - intros [= <- <-]. by exists [], s, t, l.
  - intros O. destruct (IH O) as (l1 & s' & t' & l2 & E & R). exists (s :: l1), s', t', l2. by rewrite E.
Qed.

Lemma overlap_shares text edits spans a b :
  find_spans text 0 edits = Ok spans → find_overlap (merge_sort span_le spans) = Some (a, b) →
  (a < b)%nat ∧ ∃ ea eb i j p, edits !! a = Some ea ∧ edits !! b = Some eb ∧
      Index text (Old ea) = Some i ∧ Index text (Old eb) = Some j ∧
      (i <= p < i + slen (Old ea))%nat ∧ (j <= p < j + slen (Old eb))%nat.
Proof.
  intros F O. destruct (find_spans_index _ _ _ _ F) as [Ix P]. apply find_overlap_pair in O as (l1 & s & t & l2 & E & L & -> & ->).
  pose proof (merge_sort_Permutation span_le spans) as Q. rewrite E in Q.
  pose proof (Sorted_merge_sort span_le spans) as So. rewrite E in So.
  assert (span_le s t) as St.
  { apply Sorted_StronglySorted in So; [|apply _]. clear -So. induction l1 as [|x l1 IH]; simpl in So.
    - apply StronglySorted_inv in So as [_ H]. by apply Forall_cons in H as [? _].
    - apply StronglySorted_inv in So as [So _]. by apply IH. }
  assert (sp_index s ≠ sp_index t) as Ne.
  { assert (NoDup (sp_index <$> spans)) as ND by (rewrite Ix; apply NoDup_seq). rewrite <- Q, fmap_app in ND.
    apply NoDup_app in ND as (_ & _ & ND). simpl in ND. apply NoDup_cons in ND as [Ni _]. intros Eq. apply Ni. rewrite Eq. by left. }
  destruct (P s) as (es & Hs & (Ns & _ & Is & Ts & _)); [rewrite <- Q; apply elem_of_app; right; by left|].
  destruct (P t) as (et & Ht & (Nt & _ & It & Tt & _)); [rewrite <- Q; apply elem_of_app; right; right; by left|].
  rewrite Nat.sub_0_r in Hs, Ht. unfold span_le in St. rewrite Ts in L.
  assert (0 < slen (Old et))%nat by (destruct (Old et); simpl; [done|lia]).
  destruct (Nat.lt_ge_cases (sp_index s) (sp_index t)) as [Lt|Ge].
  - rewrite Nat.min_l, Nat.max_r by lia. split; [done|]. exists es, et, (sp_from s), (sp_from t), (sp_from t). split_and!; try done; lia.
  - rewrite Nat.min_r, Nat.max_l by lia. split; [lia|]. exists et, es, (sp_from t), (sp_from s), (sp_from t). split_and!; try done; lia.
Qed.

Lemma bound_of_weave text g (w : list (fileEdit * string)) edits maxSize :
  text = weave Old g w → edits ≡ₚ w.*1 → zlen text + sum_Z (λ e, zlen (New e) - zlen (Old e)) edits <= maxSize →
  zlen (weave New g w) <= maxSize.
Proof.
  intros -> P. rewrite (sum_Z_perm_edits _ _ _ P), (weave_length New Old).
  enough (sum_Z (λ x : fileEdit * string, zlen (New x.1) - zlen (Old x.1)) w = sum_Z (λ e, zlen (New e) - zlen (Old e)) w.*1) by lia.
  clear. unfold sum_Z. induction w as [|[e h] w IH]; cbn; [done|]. by rewrite IH.
Qed.

(** An accepted batch, its order, and the text around it. *)
Lemma applyEdits_Ok text edits maxSize t :
  applyEdits text edits maxSize = Ok t → ∃ g w, w.*1 ≡ₚ edits ∧ text = weave Old g w ∧ t = weave New g w ∧ located text 0 g w ∧
    zlen t <= maxSize ∧ ∀ e, e ∈ edits → Old e ≠ ""%string ∧ Count text (Old e) = 1%nat.
Proof.
  unfold applyEdits. destruct (find_spans text 0 edits) as [spans|x] eqn:F; [|done].
  destruct (find_overlap (merge_sort span_le spans)) as [[a b]|] eqn:O; [done|].
  pose proof (find_spans_spec _ _ _ _ F) as F0. pose proof (chain_growth text _ _ F0) as G. rewrite G.
  destruct (Z.ltb_spec maxSize (zlen text + sum_Z (λ e, zlen (New e) - zlen (Old e)) edits)) as [B|B]; [done|]. intros [= <-].
  destruct (spans_chain _ _ _ F O) as (es & Es & F' & C). destruct (build_weave text 0 es _ C F' ltac:(lia)) as (g & w & Ew & E1 & E2 & Lo).
  exists g, w. rewrite E2. split; [by rewrite Ew|]. split_and!; try done.
  - eapply bound_of_weave; [exact E1|by rewrite Ew|done].
  - intros e He. clear -F0 He. induction F0 as [|x s es l (N & C & _) F IH]; [by apply elem_of_nil in He|].
    apply elem_of_cons in He as [->|He]; [done|by apply IH].
Qed.

Lemma applyEdits_bound text edits maxSize t : applyEdits text edits maxSize = Ok t → zlen t <= maxSize.
Proof. intros A. by destruct (applyEdits_Ok _ _ _ _ A) as (g & w & _ & _ & _ & _ & B & _). Qed.

(** A batch of edits is one simultaneous replacement.  When it is accepted,
    every [Old] is non-empty and is found once; the text is the edits' [Old]s,
    in some order, each at the first place it occurs, with unchanged text
    around them; the result is the same text with the [New]s in their places;
    and it is within the size limit.  Otherwise one entry is at fault: it is
    empty, does not occur or occurs again, or overlaps another, or the result
    would be too large, and the refusal names it. *)
Lemma batch_is_simultaneous text edits maxSize :
  match applyEdits text edits maxSize with
  | Ok t => ∃ g w, w.*1 ≡ₚ edits ∧ text = weave Old g w ∧ t = weave New g w ∧ located text 0 g w ∧ zlen t <= maxSize ∧
      ∀ e, e ∈ edits → Old e ≠ ""%string ∧ Count text (Old e) = 1%nat
  | Err (EmptyOld i) => ∃ e, edits !! i = Some e ∧ Old e = ""%string
  | Err (NotFoundAt i) => ∃ e, edits !! i = Some e ∧ ∀ a b, Old e ≠ ""%string → text ≠ (a ++ Old e ++ b)%string
  | Err (ManyAt i n) => ∃ e, edits !! i = Some e ∧ (1 < n)%nat ∧ Count text (Old e) = n
  | Err (TooBig n) => maxSize < n ∧ n = zlen text + sum_Z (λ e, zlen (New e) - zlen (Old e)) edits
  | Err (Overlap a b) => (a < b)%nat ∧ ∃ ea eb i j p, edits !! a = Some ea ∧ edits !! b = Some eb ∧
      Index text (Old ea) = Some i ∧ Index text (Old eb) = Some j ∧
      (i <= p < i + slen (Old ea))%nat ∧ (j <= p < j + slen (Old eb))%nat
  | Err _ => False
  end.
Proof.
  destruct (applyEdits text edits maxSize) as [t|x] eqn:A; [by apply applyEdits_Ok|].
  unfold applyEdits in A. destruct (find_spans text 0 edits) as [spans|y] eqn:F.
  - destruct (find_overlap (merge_sort span_le spans)) as [[a b]|] eqn:O; [injection A as <-; by eapply overlap_shares|].
    rewrite (chain_growth text _ _ (find_spans_spec _ _ _ _ F)) in A. destruct (Z.ltb_spec maxSize (zlen text + sum_Z (λ e, zlen (New e) - zlen (Old e)) edits)); [|done].
    by injection A as <-.
  - injection A as <-.
    destruct (find_spans_fails _ _ _ _ F) as (k & e & Hk & [[-> E]|[[-> E]|(n & -> & L & E)]]); simpl; exists e; split_and!; try done.
    intros a b N. rewrite Count_step in E by done. destruct (Index text (Old e)) eqn:I; [done|]. by apply Index_None.
Qed.

(** ** The order of the entries *)

(** A span without the number of its entry. *)
Definition bare (s : span) : nat * nat * string := (sp_from s, sp_to s, sp_replace s).

Lemma build_bare text pos l l' : bare <$> l = bare <$> l' → build text pos l = build text pos l'.
Proof.
  revert pos l'. induction l as [|s l IH]; intros pos [|s' l']; try done. intros [= E1 E2 E3 E]. simpl.
  rewrite E1, E3, <- E2. by rewrite (IH (sp_to s) l' E).
Qed.

Lemma chain_overlap pos l : chain pos l → find_overlap l = None.
Proof.
  induction 1 as [|pos s l L1 L2 C IH]; [done|]. destruct l as [|t l]; [done|]. cbn [find_overlap].
  inversion C; subst. destruct (Nat.ltb_spec (sp_from t) (sp_to s)); [lia|done].
Qed.

Lemma chain_sorted pos l : chain pos l → StronglySorted (λ a b : nat * nat * string, (a.1.1 < b.1.1)%nat) (bare <$> l) ∧
  Forall (λ b : nat * nat * string, (pos <= b.1.1)%nat) (bare <$> l).
Proof.
  induction 1 as [|pos s l L1 L2 C [IH F]]; [split; constructor|]. rewrite fmap_cons. split.
  - constructor; [done|]. eapply Forall_impl; [exact F|]. simpl. intros b; lia.
  - constructor; [done|]. eapply Forall_impl; [exact F|]. simpl. intros b; lia.
Qed.

Lemma bare_chain pos l l' : bare <$> l = bare <$> l' → chain pos l → chain pos l'.
Proof.
  intros E C. revert l' E. induction C as [pos|pos s l L1 L2 C IH]; intros [|s' l'] E; try done; [constructor|].
  injection E as E1 E2 E3 E. constructor; [lia|lia|]. rewrite <- E2. by apply IH.
Qed.

(** The spans of the same edits in another order. *)
Lemma find_spans_perm text i j edits edits' spans :
  edits ≡ₚ edits' → find_spans text i edits = Ok spans → ∃ spans', find_spans text j edits' = Ok spans' ∧ bare <$> spans ≡ₚ bare <$> spans'.
Proof.
  assert (∀ k edits, (∃ l, find_spans text k edits = Ok l) ↔ ∀ e, e ∈ edits → Old e ≠ ""%string ∧ Count text (Old e) = 1%nat) as Ok_iff.
  { clear. intros k edits. revert k. induction edits as [|e edits IH]; intros k; cbn [find_spans].
    - split; [|eauto]. by intros _ e ?%elem_of_nil.
    - split.
      + intros [l E]. destruct (String.eqb_spec (Old e) ""); [done|]. destruct (Count text (Old e)) as [|[|]] eqn:C; [done| |done].
        destruct (find_spans text (S k) edits) as [r|] eqn:F; [|done]. intros x [->|Hx]%elem_of_cons; [done|]. eapply (proj1 (IH (S k))); eauto.
      + intros H. destruct (H e) as [N C]; [by left|]. rewrite (proj2 (String.eqb_neq _ _) N), C.
        destruct (proj2 (IH (S k))) as [l ->]; [|eauto]. intros x Hx. apply H. by right. }
  assert (∀ k edits l, find_spans text k edits = Ok l →
    bare <$> l = (λ e, (default 0%nat (Index text (Old e)), default 0%nat (Index text (Old e)) + slen (Old e), New e)%nat) <$> edits) as Bare.
  { clear. intros k edits l F%find_spans_spec. induction F as [|e s es l (N & C & I & T & R) F IH]; [done|].
    rewrite !fmap_cons, IH. f_equal. unfold bare. by rewrite I, T, R. }
  intros P F. destruct (proj2 (Ok_iff j edits')) as [spans' F'].
  { intros e He. apply (proj1 (Ok_iff i edits)); [eauto|]. by rewrite P. }
  exists spans'. split; [done|]. rewrite (Bare _ _ _ F), (Bare _ _ _ F'). by rewrite P.
Qed.

Lemma sorted_unique_key (l : list (nat * nat * string)) x y :
  StronglySorted (λ a b : nat * nat * string, (a.1.1 < b.1.1)%nat) l → x ∈ l → y ∈ l → x.1.1 = y.1.1 → x = y.
Proof.
  induction 1 as [|z l S IH F]; [by intros ?%elem_of_nil|]. rewrite Forall_forall in F.
  intros [->|Hx]%elem_of_cons [->|Hy]%elem_of_cons E; [done| | |by apply IH].
  - specialize (F _ Hy). simpl in F. lia.
  - specialize (F _ Hx). simpl in F. lia.
Qed.

(** The order of a batch does not matter.  The same edits in another order are
    accepted exactly when these are, and give the same text. *)
Lemma batch_order_irrelevant text edits edits' maxSize t :
  edits ≡ₚ edits' → applyEdits text edits maxSize = Ok t → applyEdits text edits' maxSize = Ok t.
Proof.
  unfold applyEdits. intros P. destruct (find_spans text 0 edits) as [spans|] eqn:F; [|done].
  destruct (find_overlap (merge_sort span_le spans)) as [[]|] eqn:O; [done|].
  destruct (find_spans_perm text 0 0 edits edits' spans P F) as (spans' & F' & B). rewrite F'.
  destruct (spans_chain _ _ _ F O) as (_ & _ & _ & C).
  assert (bare <$> merge_sort span_le spans = bare <$> merge_sort span_le spans') as E.
  { pose proof (chain_sorted _ _ C) as [S1 _].
    assert (bare <$> merge_sort span_le spans ≡ₚ bare <$> merge_sort span_le spans') as Q by (by rewrite !merge_sort_Permutation).
    apply (StronglySorted_unique_strong (λ a b : nat * nat * string, (a.1.1 <= b.1.1)%nat)); [| | |done].
    - intros x y Hx Hy L1 L2. apply (sorted_unique_key (bare <$> merge_sort span_le spans)); [done|done|by rewrite Q|lia].
    - clear -S1. induction S1 as [|x l S IH F]; constructor; [done|]. eapply Forall_impl; [exact F|]. simpl. intros; lia.
    - assert (StronglySorted span_le (merge_sort span_le spans')) as S2 by (apply Sorted_StronglySorted; [apply _|apply Sorted_merge_sort; apply _]).
      clear -S2. induction S2 as [|x l S IH F]; [constructor|]. rewrite fmap_cons. constructor; [done|]. rewrite Forall_fmap. done. }
  rewrite (chain_overlap 0 _ (bare_chain 0 _ _ E C)).
  assert (sum_Z span_growth spans = sum_Z span_growth spans') as ->.
  { rewrite (chain_growth text _ _ (find_spans_spec _ _ _ _ F)), (chain_growth text _ _ (find_spans_spec _ _ _ _ F')).
    by apply sum_Z_perm_edits. }
  by rewrite (build_bare _ _ _ _ E).
Qed.

(** ** A whole request *)

#[local] Opaque sniffLen.

Lemma Replace_spec text old new n :
  old ≠ ""%string → (n <= Count text old)%nat → ∃ g w, length w = n ∧ text = weave (λ _, old) g w ∧
    Replace text old new n = weave (λ _, new) g w ∧ first_each old g w.
Proof. intros N L. unfold Replace. rewrite Nat.min_l by done. by apply replace_loop_spec. Qed.

Lemma weave_unit_length (old new g : string) (w : list (unit * string)) :
  zlen (weave (λ _, new) g w) = zlen (weave (λ _, old) g w) + Z.of_nat (length w) * (zlen new - zlen old).
Proof. revert g. induction w as [|[[] g'] w IH]; intros g; simpl length; simpl weave; [lia|]. rewrite !zlen_app, IH. lia. Qed.

(** C30: an edit request changes the file as it says, or not at all.  A refusal
    leaves the file alone.  Otherwise the file was text within the limit, was
    the very content whose hash the controller expected if it named one, and now
    holds the text whose size and hash are reported, within the limit: the
    result of the batch; or the text with one string replaced, leftmost first
    and without overlaps, everywhere when [all] was asked for, and at the one
    place it is found otherwise. *)
Theorem edit_all_or_nothing open commit m maxSize reply after :
  handleFileEdit open commit m maxSize = (reply, after) →
  match reply with
  | EditRefused _ => after = None
  | EditDone replaced found size sha => ∃ original t,
      open = Ok original ∧ commit = Ok tt ∧ after = Some t ∧ size = zlen t ∧ sha = sha256Hex t ∧
      zlen original <= maxSize ∧ zlen t <= maxSize ∧ isText (stake sniffLen original) (zlen original) = true ∧
      (eq_expected m ≠ ""%string → equal_fold (eq_expected m) (sha256Hex original) = true) ∧
      (eq_edits m ≠ [] → applyEdits original (eq_edits m) maxSize = Ok t) ∧
      (eq_edits m = [] → eq_old m ≠ ""%string ∧ found = Count original (eq_old m) ∧ replaced = (if eq_all m then found else 1%nat) ∧
         (eq_all m = false → found = 1%nat) ∧
         ∃ g w, length w = replaced ∧ original = weave (λ _, eq_old m) g w ∧ t = weave (λ _, eq_new m) g w ∧ first_each (eq_old m) g w)
  end.
Proof.
  unfold handleFileEdit. set (some := (0 <? length (eq_edits m))%nat).
  destruct (some && _); [by intros [= <- <-]|]. destruct (MaxBatchEdits <? _)%nat; [by intros [= <- <-]|].
  destruct (some && eq_all m); [by intros [= <- <-]|].
  destruct (negb some && String.eqb (eq_old m) "") eqn:NO; [by intros [= <- <-]|].
  destruct open as [content|e]; [|by intros [= <- <-]].
  destruct (Z.ltb_spec maxSize (zlen (stake (Z.to_nat (maxSize + 1)) content))) as [|L]; [by intros [= <- <-]|].
  assert (stake (Z.to_nat (maxSize + 1)) content = content) as Whole.
  { apply stake_all. unfold zlen in L. rewrite slen_stake in L. lia. }
  rewrite Whole in *. destruct (isText (stake sniffLen content) (zlen content)) eqn:T; [|by intros [= <- <-]]. simpl.
  destruct (negb (String.eqb (eq_expected m) "") && _) eqn:X; [by intros [= <- <-]|].
  assert (eq_expected m ≠ ""%string → equal_fold (eq_expected m) (sha256Hex content) = true) as Exp.
  { intros N. rewrite (proj2 (String.eqb_neq _ _) N) in X. simpl in X. by apply negb_false_iff in X. }
  unfold edit_text. fold some. destruct some eqn:So.
  - destruct (applyEdits content (eq_edits m) maxSize) as [t|e] eqn:A; [|by intros [= <- <-]].
    unfold commitEdit. destruct commit as [[]|e]; intros [= <- <-]; [|done].
    pose proof (applyEdits_bound _ _ _ _ A). exists content, t. split_and!; try done. intros E. unfold some in So. by rewrite E in So.
  - simpl in NO. apply String.eqb_neq in NO. set (count := Count content (eq_old m)) in *.
    destruct (Nat.eqb_spec count 0) as [|N0]; [by intros [= <- <-]|].
    destruct ((1 <? count)%nat && negb (eq_all m)) eqn:Mn; [by intros [= <- <-]|].
    set (replaced := if eq_all m then count else 1%nat) in *. assert (replaced <= count)%nat as Lr by (unfold replaced; destruct (eq_all m); lia).
    destruct (Replace_spec content (eq_old m) (eq_new m) replaced NO Lr) as (g & w & Lw & E1 & E2 & F).
    destruct (Z.ltb_spec maxSize (zlen content + Z.of_nat replaced * (zlen (eq_new m) - zlen (eq_old m)))) as [|B]; [by intros [= <- <-]|].
    unfold commitEdit. destruct commit as [[]|e]; intros [= <- <-]; [|done].
    exists content, (Replace content (eq_old m) (eq_new m) replaced). split_and!; try done.
    + rewrite E2, (weave_unit_length (eq_old m)), Lw, <- E1. done.
    + intros E. destruct (eq_edits m); [done|]. done.
    + intros _. split_and!; try done; [|by exists g, w]. intros Al. rewrite Al, andb_true_r in Mn. apply Nat.ltb_ge in Mn. lia.
Qed.

(** ** Concrete edits *)

Definition sample_edits : list fileEdit := [FileEdit "three" "3"; FileEdit "one" "1"].

Lemma batch_is_simultaneous_witness : ∃ g w, w.*1 ≡ₚ sample_edits ∧ "one two three"%string = weave Old g w ∧ "1 two 3"%string = weave New g w.
Proof.
  pose proof (batch_is_simultaneous "one two three" sample_edits 100) as B.
  assert (applyEdits "one two three" sample_edits 100 = Ok "1 two 3"%string) as E by (vm_compute; reflexivity).
  rewrite E in B. destruct B as (g & w & P & T & N & _). exists g, w. split; [exact P|]. split; [exact T|exact N].
Defined.

Lemma batch_order_irrelevant_witness : applyEdits "one two three" (rev sample_edits) 100 = Ok "1 two 3"%string.
Proof. apply (batch_order_irrelevant "one two three" sample_edits); [apply Permutation_rev|vm_compute; reflexivity]. Defined.

Definition sample_request : edit_request := EditRequest "o" "0" true [] "".

Lemma edit_all_or_nothing_witness : ∃ reply, handleFileEdit (Ok "foo"%string) (Ok tt) sample_request 100 = (reply, Some "f00"%string) ∧
  match reply with EditDone replaced _ _ _ => replaced = 2%nat | _ => False end.
Proof.
  destruct (handleFileEdit (Ok "foo"%string) (Ok tt) sample_request 100) as [reply after] eqn:E.
  pose proof (edit_all_or_nothing _ _ _ _ _ _ E) as T. destruct reply as [e|replaced found size sha].
  - exfalso. vm_compute in E. discriminate E.
  - destruct T as (o & t & Eo & _ & -> & _ & _ & _ & _ & _ & _ & _ & S). injection Eo as <-.
    exists (EditDone replaced found size sha). split; [|destruct (S eq_refl) as (_ & -> & -> & _); vm_compute; reflexivity].
    f_equal. destruct (S eq_refl) as (_ & F & R & _). apply (f_equal snd) in E. cbn [snd] in E. rewrite <- E. vm_compute. reflexivity.
Defined.

(** Occurrences are counted without overlaps: a text that occurs at two places
    that overlap counts as occurring once, and the edit is made at the first. *)
Lemma overlapping_occurrence_accepted :
  applyEdits "aaa" [FileEdit "aa" "b"] 100 = Ok "ba"%string ∧ (∃ a b, "aaa"%string = (a ++ "aa" ++ b)%string ∧ a ≠ ""%string).
Proof. split; [vm_compute; reflexivity|]. exists "a"%string, ""%string. done. Qed.
