(* ===== verification/FileRead.v ===== *)
(** [internal/server/fileops.go]: reading a range of lines ([readLineRange]).

    The file is read in chunks of any sizes; [readLineRange] is the code's
    streaming collector over them, and [read_lines] says what it computes, on
    the list of the text's lines. *)

From S2P Require Import Prelude GoStrings GoUtf8 Utf8Facts GoCodec FileEdit.

Local Open Scope Z_scope.

Definition maxReadLines : Z := Z.shiftl 1 20.
Definition DefaultReadLines : Z := 2000.
Definition MaxReadBytes : Z := Z.shiftl 256 10.

(** [int] is 64 bits wide. *)
Definition MaxInt : Z := 2 ^ 63 - 1.
Definition wrap64 (x : Z) : Z := (x + 2 ^ 63) mod 2 ^ 64 - 2 ^ 63.

Record lineCollector := LineCollector {
  c_from : Z; c_to : Z; c_line : Z; c_first : Z; c_last : Z; c_truncated : bool; c_done : bool; c_longLine : Z;
  c_out : string; c_pending : string; c_pendingLen : Z }.

Definition nl : ascii := "010"%char.

Definition with_pending (p : string) (n : Z) (c : lineCollector) : lineCollector :=
  LineCollector (c_from c) (c_to c) (c_line c) (c_first c) (c_last c) (c_truncated c) (c_done c) (c_longLine c) (c_out c) p n.
Definition next_line (c : lineCollector) : lineCollector :=
  LineCollector (c_from c) (c_to c) (c_line c + 1) (c_first c) (c_last c) (c_truncated c) (c_done c) (c_longLine c) (c_out c) (c_pending c) (c_pendingLen c).

Definition buffer (piece : string) (c : lineCollector) : lineCollector :=
  let room := MaxReadBytes - zlen (c_pending c) in
  with_pending (if 0 <? room then c_pending c ++ stake (Z.to_nat (Z.min (zlen piece) room)) piece else c_pending c)
    (c_pendingLen c + zlen piece) c.

(** [trimCutRune] *)
Definition trimCutRune (b : string) : string := trim_invalid 3 b.

Definition commitLine (c : lineCollector) : lineCollector :=
  let room := MaxReadBytes - zlen (c_out c) in
  if c_pendingLen c <=? room
  then LineCollector (c_from c) (c_to c) (c_line c) (if c_first c =? 0 then c_line c else c_first c) (c_line c)
         (c_truncated c) (c_done c) (c_longLine c) (c_out c ++ c_pending c) "" 0
  else if zlen (c_out c) =? 0
  then LineCollector (c_from c) (c_to c) (c_line c) (c_line c) (c_line c) true true (c_line c)
         (c_out c ++ trimCutRune (c_pending c)) "" 0
  else LineCollector (c_from c) (c_to c) (c_line c) (c_first c) (c_last c) true true (c_longLine c) (c_out c) "" 0.

Definition wanted (c : lineCollector) : bool := negb (c_done c) && (c_from c <=? c_line c) && (c_line c <=? c_to c).

Fixpoint feed_fuel (fuel : nat) (chunk : string) (c : lineCollector) : lineCollector :=
  match fuel with
  | O => c
  | S fuel =>
      match cut_at nl chunk with
      | None => if String.eqb chunk "" then c else if wanted c then buffer chunk c else c
      | Some (piece, rest) =>
          let c := if wanted c then commitLine (buffer (piece ++ String nl "") c) else c in
          feed_fuel fuel rest (next_line c)
      end
  end.
Definition feed (chunk : string) (c : lineCollector) : lineCollector := feed_fuel (S (slen chunk)) chunk c.

Definition finish (c : lineCollector) : lineCollector :=
  if negb (c_done c) && (0 <? c_pendingLen c) then commitLine c else c.

(** What the reader came to: its chunks, and then the end of the file or an
    error. *)
Record reading := Reading { rd_chunks : list string; rd_error : option string }.

Record fileLines := FileLines {
  fl_Content : string; fl_TotalLines : Z; fl_FirstLine : Z; fl_LastLine : Z; fl_Truncated : bool; fl_LongLine : Z;
  fl_SizeBytes : Z; fl_SHA256 : string }.

Inductive read_error := NotTextFile | ReadFailed (text : string).

(** The state the loop over the reads keeps. *)
Record read_state := ReadState { rs_all : string; rs_sniff : string; rs_last : option ascii; rs_c : lineCollector }.

Definition last_byte (s : string) : option ascii := sget (slen s - 1) s.

(** One read of [n > 0] bytes; [rs_all] stands for the running hash and size. *)
Definition read_chunk (s : read_state) (chunk : string) : read_state :=
  let sniff := if (slen (rs_sniff s) <? sniffLen)%nat
               then (rs_sniff s ++ stake (Nat.min (slen chunk) (sniffLen - slen (rs_sniff s))) chunk)%string else rs_sniff s in
  ReadState (rs_all s ++ chunk) sniff (last_byte chunk) (feed chunk (rs_c s)).

(** The range asked for. *)
Definition clamp_limit (limit : Z) : Z :=
  let limit := if limit <=? 0 then DefaultReadLines else limit in if maxReadLines <? limit then maxReadLines else limit.
Definition range_from (offset : Z) : Z := if offset <=? 0 then 1 else offset.
Definition range_to (offset limit : Z) : Z :=
  let to := wrap64 (range_from offset + clamp_limit limit - 1) in if to <? range_from offset then MaxInt else to.

Definition readLineRange (r : reading) (offset limit : Z) : result read_error fileLines :=
  let c := LineCollector (range_from offset) (range_to offset limit) 1 0 0 false false 0 "" "" 0 in
  let s := foldl read_chunk (ReadState "" "" None c) (rd_chunks r) in
  match rd_error r with
  | Some e => Err (ReadFailed e)
  | None =>
      let c := finish (rs_c s) in
      let size := zlen (rs_all s) in
      if negb (isText (rs_sniff s) size) then Err NotTextFile
      else if negb (valid_string (c_out c)) then Err NotTextFile
      else
        let total := c_line c - 1 in
        let open := (0 <? size) && match rs_last s with Some b => negb (Ascii.eqb b nl) | None => true end in
        Ok (FileLines (c_out c) (if open then total + 1 else total) (c_first c) (c_last c) (c_truncated c) (c_longLine c)
              size (sha256Hex (rs_all s)))
  end.

(** ** What it computes *)

(** The lines of a text, each with its newline; the last may have none. *)
Fixpoint lines (s : string) : list string :=
  match s with
  | EmptyString => []
  | String c s =>
      if Ascii.eqb c nl then String c "" :: lines s
      else match lines s with [] => [String c ""] | l :: ls => String c l :: ls end
  end.

(** Whole lines while they fit; [n] is the number of the first. *)
Fixpoint pick (ls : list string) (n : Z) (out : string) (first last : Z) : string * Z * Z * bool * Z :=
  match ls with
  | [] => (out, first, last, false, 0)
  | l :: ls =>
      if zlen l <=? MaxReadBytes - zlen out then pick ls (n + 1) (out ++ l) (if first =? 0 then n else first) n
      else if String.eqb out "" then (trimCutRune (stake (Z.to_nat MaxReadBytes) l), n, n, true, n)
      else (out, first, last, true, 0)
  end.

Definition range_lines (offset limit : Z) (text : string) : list string :=
  take (Z.to_nat (range_to offset limit - range_from offset + 1)) (drop (Z.to_nat (range_from offset - 1)) (lines text)).

Definition read_lines (text : string) (offset limit : Z) : result read_error fileLines :=
  let '(out, first, last, truncated, long) := pick (range_lines offset limit text) (range_from offset) "" 0 0 in
  if negb (isText (stake sniffLen text) (zlen text)) || negb (valid_string out) then Err NotTextFile
  else Ok (FileLines out (Z.of_nat (length (lines text))) first last truncated long (zlen text) (sha256Hex text)).

Example read_sample :
  readLineRange (Reading ["one
t"; "wo
three"] None) 2 5 = read_lines "one
two
three" 2 5.
Proof. vm_compute. reflexivity. Qed.

(** ** The collector, byte by byte *)

Lemma MaxReadBytes_pos : 4 < MaxReadBytes.
Proof. done. Qed.

#[local] Opaque nl MaxReadBytes sniffLen.

Definition feed_byte (c : lineCollector) (b : ascii) : lineCollector :=
  let w := wanted c in
  let c := if w then buffer (String b "") c else c in
  if Ascii.eqb b nl then next_line (if w then commitLine c else c) else c.

Definition feed_bytes (s : string) (c : lineCollector) : lineCollector := foldl feed_byte c (list_ascii_of_string s).

Lemma feed_bytes_app s t c : feed_bytes (s ++ t) c = feed_bytes t (feed_bytes s c).
Proof.
  unfold feed_bytes. rewrite <- foldl_app. f_equal. induction s as [|b s IH]; [done|]. simpl. by rewrite IH.
Qed.

Lemma buffer_nil c : buffer "" c = c.
Proof.
  unfold buffer, with_pending. assert (zlen "" = 0) as -> by done. rewrite Z.add_0_r.
  replace (stake _ "") with ""%string by (by destruct (Z.to_nat _)). rewrite app_nil_s. by case_match; destruct c.
Qed.

Lemma buffer_app p q c : buffer (p ++ q) c = buffer q (buffer p c).
Proof.
  unfold buffer, with_pending. simpl. rewrite zlen_app, Z.add_assoc. f_equal.
  set (room := MaxReadBytes - zlen (c_pending c)). pose proof (zlen_nonneg p). pose proof (zlen_nonneg q).
  destruct (Z.ltb_spec 0 room) as [R|R].
  2: { destruct (Z.ltb_spec 0 (MaxReadBytes - zlen (c_pending c))); [unfold room in R; lia|done]. }
  rewrite zlen_app. assert (zlen (stake (Z.to_nat (Z.min (zlen p) room)) p) = Z.min (zlen p) room) as ->.
  { unfold zlen in *. rewrite slen_stake. lia. }
  destruct (Z.le_gt_cases room (zlen p)) as [L|L].
  - rewrite !Z.min_r by lia. rewrite stake_app_le by (unfold zlen in *; lia).
    destruct (Z.ltb_spec 0 (MaxReadBytes - (zlen (c_pending c) + room))); [unfold room in *; lia|done].
  - rewrite (Z.min_l (zlen p)) by lia. rewrite (stake_all (Z.to_nat (zlen p))) by (unfold zlen; lia).
    rewrite (proj2 (Z.ltb_lt 0 _)) by (unfold room in *; lia).
    rewrite <- app_assoc_s. f_equal. replace (MaxReadBytes - (zlen (c_pending c) + zlen p)) with (room - zlen p) by (unfold room; lia).
    replace (Z.to_nat (Z.min (zlen p + zlen q) room)) with (slen p + Z.to_nat (Z.min (zlen q) (room - zlen p)))%nat by (unfold zlen in *; lia).
    apply stake_app_add.
Qed.

Lemma wanted_buffer p c : wanted (buffer p c) = wanted c.
Proof. done. Qed.

Lemma cut_at_None c s : cut_at c s = None → sforall (λ b, negb (Ascii.eqb c b)) s = true.
Proof.
  induction s as [|d s IH]; [done|]. simpl. destruct (Ascii.eqb c d); [done|]. destruct (cut_at c s) as [[]|]; [done|]. simpl. auto.
Qed.

Lemma cut_at_head c s a b : cut_at c s = Some (a, b) → sforall (λ b, negb (Ascii.eqb c b)) a = true.
Proof.
  revert a. induction s as [|d s IH]; [done|]. intros a. simpl. destruct (Ascii.eqb c d) eqn:E; [by intros [= <- <-]|].
  destruct (cut_at c s) as [[x y]|]; [|done]. intros [= <- <-]. simpl. rewrite E. simpl. by apply IH.
Qed.

(** A piece without a newline. *)
Lemma feed_piece p c :
  sforall (λ b, negb (Ascii.eqb nl b)) p = true → feed_bytes p c = if wanted c then buffer p c else c.
Proof.
  revert c. induction p as [|b p IH]; intros c H; [unfold feed_bytes; simpl; by rewrite buffer_nil; destruct (wanted c)|].
  simpl in H. apply andb_true_iff in H as [Hb Hp]. apply negb_true_iff in Hb. unfold feed_bytes. simpl. fold (feed_bytes p (feed_byte c b)).
  rewrite IH by done. unfold feed_byte. rewrite Ascii.eqb_sym, Hb. destruct (wanted c) eqn:W.
  - rewrite wanted_buffer, W. by rewrite <- buffer_app.
  - by rewrite W.
Qed.

Lemma feed_line p c :
  sforall (λ b, negb (Ascii.eqb nl b)) p = true →
  feed_bytes (p ++ String nl "") c = next_line (if wanted c then commitLine (buffer (p ++ String nl "") c) else c).
Proof.
  intros H. rewrite feed_bytes_app, (feed_piece p) by done. unfold feed_bytes. simpl. unfold feed_byte. rewrite Ascii.eqb_refl.
  destruct (wanted c) eqn:W; simpl; [|by rewrite W]. rewrite wanted_buffer, W. by rewrite <- buffer_app.
Qed.

Lemma feed_feed_bytes s c : feed s c = feed_bytes s c.
Proof.
  unfold feed. assert (slen s < S (slen s))%nat as L by lia. revert L. generalize (S (slen s)) as n. intros n. revert s c.
  induction n as [|n IH]; intros s c L; [lia|]. cbn [feed_fuel]. destruct (cut_at nl s) as [[p r]|] eqn:E.
  - pose proof (cut_at_head _ _ _ _ E) as Hp. apply cut_at_Some in E as ->.
    replace (p ++ String nl r)%string with ((p ++ String nl "") ++ r)%string by (by rewrite <- app_assoc_s).
    rewrite feed_bytes_app, feed_line by done. rewrite IH; [by destruct (wanted c)|]. rewrite slen_app in L. simpl in L. lia.
  - rewrite feed_piece by (by apply cut_at_None). destruct (String.eqb_spec s "") as [->|]; [|done]. rewrite buffer_nil. by destruct (wanted c).
Qed.

(** ** Lines *)

Lemma lines_line p s : sforall (λ b, negb (Ascii.eqb nl b)) p = true → lines (p ++ String nl s) = (p ++ String nl "")%string :: lines s.
Proof.
  induction p as [|b p IH]; simpl; [by rewrite Ascii.eqb_refl|]. intros H. apply andb_true_iff in H as [Hb Hp]. apply negb_true_iff in Hb.
  rewrite Ascii.eqb_sym, Hb. by rewrite (IH Hp).
Qed.

Lemma lines_last p : sforall (λ b, negb (Ascii.eqb nl b)) p = true → p ≠ ""%string → lines p = [p].
Proof.
  induction p as [|b p IH]; [done|]. simpl. intros H _. apply andb_true_iff in H as [Hb Hp]. apply negb_true_iff in Hb.
  rewrite Ascii.eqb_sym, Hb. destruct p as [|b' p]; [done|]. by rewrite IH.
Qed.

(** Induction over the lines of a text. *)
Lemma lines_ind (P : string → Prop) :
  P ""%string → (∀ p, sforall (λ b, negb (Ascii.eqb nl b)) p = true → p ≠ ""%string → P p) →
  (∀ p s, sforall (λ b, negb (Ascii.eqb nl b)) p = true → P s → P (p ++ String nl s)%string) → ∀ s, P s.
Proof.
  intros H0 H1 HS s. remember (slen s) as n eqn:E. revert s E. induction n as [n IH] using lt_wf_ind. intros s ->.
  destruct (cut_at nl s) as [[p r]|] eqn:C.
  - pose proof (cut_at_head _ _ _ _ C) as Hp. apply cut_at_Some in C as ->. apply HS; [done|]. eapply IH; [|done].
    rewrite slen_app. simpl. lia.
  - destruct (decide (s = ""%string)) as [->|]; [done|]. apply H1; [by apply cut_at_None|done].
Qed.

(** ** The collector over whole lines *)

Definition outcome (c : lineCollector) : string * Z * Z * bool * Z :=
  (c_out c, c_first c, c_last c, c_truncated c, c_longLine c).

(** Between two lines, with nothing cut so far. *)
Record at_line (c : lineCollector) : Prop := {
  al_done : c_done c = false; al_pending : c_pending c = ""%string; al_len : c_pendingLen c = 0;
  al_trunc : c_truncated c = false; al_long : c_longLine c = 0 }.

(** The lines of [ls] that are wanted, when the first of them has number [n]. *)
Definition wanted_lines (from to n : Z) (ls : list string) : list string :=
  take (Z.to_nat (to - Z.max n from + 1)) (drop (Z.to_nat (from - n)) ls).

Lemma commit_line l c :
  at_line c → l ≠ ""%string →
  let c' := commitLine (buffer l c) in
  c_line c' = c_line c ∧ c_from c' = c_from c ∧ c_to c' = c_to c ∧
  if zlen l <=? MaxReadBytes - zlen (c_out c)
  then at_line c' ∧ c_out c' = (c_out c ++ l)%string ∧ c_first c' = (if c_first c =? 0 then c_line c else c_first c) ∧ c_last c' = c_line c
  else c_done c' = true ∧ c_pendingLen c' = 0 ∧
       outcome c' = if String.eqb (c_out c) "" then (trimCutRune (stake (Z.to_nat MaxReadBytes) l), c_line c, c_line c, true, c_line c)
                    else (c_out c, c_first c, c_last c, true, 0).
Proof.
  intros [D P L T Lo] N. cbn zeta. unfold buffer. rewrite P, L. simpl (zlen ""). rewrite Z.sub_0_r.
  pose proof MaxReadBytes_pos as Pos. rewrite (proj2 (Z.ltb_lt 0 MaxReadBytes)) by lia. unfold with_pending, commitLine. cbn -[zlen stake trimCutRune].
  rewrite Z.add_0_l. pose proof (zlen_nonneg (c_out c)).
  assert (stake (Z.to_nat (Z.min (zlen l) MaxReadBytes)) l = stake (Z.to_nat MaxReadBytes) l) as E.
  { destruct (Z.le_ge_cases (zlen l) MaxReadBytes); [|by rewrite Z.min_r]. rewrite Z.min_l by done. unfold zlen in *. by rewrite !stake_all by lia. }
  destruct (Z.leb_spec (zlen l) (MaxReadBytes - zlen (c_out c))) as [Fit|Fit]; cbn -[zlen stake trimCutRune].
  - split_and!; try done. by rewrite E, stake_all by (unfold zlen in *; lia).
  - destruct (String.eqb_spec (c_out c) "") as [O|O].
    + rewrite O. simpl (zlen "" =? 0). cbn -[zlen stake trimCutRune]. rewrite E. unfold outcome. simpl. done.
    + destruct (Z.eqb_spec (zlen (c_out c)) 0) as [Z0|Z0]; [destruct O; apply slen_nil; unfold zlen in Z0; lia|].
      unfold outcome. simpl. by rewrite Lo.
Qed.

(** Once the cap is reached nothing is collected any more. *)
Lemma feed_done s c : c_done c = true → c_pendingLen c = 0 → outcome (finish (feed_bytes s c)) = outcome c.
Proof.
  unfold feed_bytes. generalize (list_ascii_of_string s) as l. intros l. revert c. induction l as [|b l IH]; intros c D P; simpl.
  - unfold finish. by rewrite D.
  - assert (wanted c = false) as W by (unfold wanted; by rewrite D). assert (feed_byte c b = if Ascii.eqb b nl then next_line c else c) as -> by (unfold feed_byte; by rewrite W).
    destruct (Ascii.eqb b nl); [|by apply IH]. rewrite IH; done.
Qed.

Lemma collect_lines s c :
  at_line c →
  outcome (finish (feed_bytes s c)) =
  pick (wanted_lines (c_from c) (c_to c) (c_line c) (lines s)) (Z.max (c_line c) (c_from c)) (c_out c) (c_first c) (c_last c).
Proof.
  revert c. induction s as [|p Hp Np|p s Hp IH] using lines_ind; intros c A; pose proof A as [D P L T Lo].
  - unfold feed_bytes, finish, wanted_lines, outcome. simpl. rewrite L, Z.ltb_irrefl, andb_false_r, drop_nil, take_nil, T, Lo. done.
  - rewrite feed_piece, lines_last by done. unfold wanted_lines. destruct (wanted c) eqn:W; unfold wanted in W; rewrite D in W; simpl in W.
    + bsplit. replace (Z.to_nat (c_from c - c_line c)) with 0%nat by lia. rewrite Z.max_l by lia.
      destruct (Z.to_nat (c_to c - c_line c + 1)) as [|k] eqn:K; [lia|]. simpl (take _ _). rewrite take_nil.
      destruct (commit_line p c A Np) as (C1 & C2 & C3 & C4). unfold finish.
      assert (c_done (buffer p c) = false) as -> by done. assert ((0 <? c_pendingLen (buffer p c)) = true) as ->.
      { simpl. rewrite L. apply Z.ltb_lt. destruct p; [done|]. unfold zlen. simpl. lia. }
      simpl. destruct (zlen p <=? MaxReadBytes - zlen (c_out c)).
      * destruct C4 as ([_ _ _ T' L'] & O & F & La). unfold outcome. by rewrite O, F, La, T', L'.
      * destruct C4 as (_ & _ & ->). by destruct (String.eqb (c_out c) "").
    + assert (take (Z.to_nat (c_to c - Z.max (c_line c) (c_from c) + 1)) (drop (Z.to_nat (c_from c - c_line c)) [p]) = []) as ->.
      { apply andb_false_iff in W as [W|W]; bsplit.
        - destruct (Z.to_nat (c_from c - c_line c)) as [|k] eqn:K; [lia|]. simpl. by rewrite drop_nil, take_nil.
        - by replace (Z.to_nat (c_to c - Z.max (c_line c) (c_from c) + 1)) with 0%nat by lia. }
      unfold finish, outcome. simpl. by rewrite L, Z.ltb_irrefl, andb_false_r, T, Lo.
  - replace (p ++ String nl s)%string with ((p ++ String nl "") ++ s)%string by (by rewrite <- app_assoc_s).
    rewrite feed_bytes_app, feed_line by done. rewrite <- app_assoc_s. simpl (String nl "" ++ s)%string. rewrite lines_line by done.
    set (l := (p ++ String nl "")%string). assert (l ≠ ""%string) as Nl by (by destruct p).
    unfold wanted_lines. destruct (wanted c) eqn:W; unfold wanted in W; rewrite D in W; simpl in W.
    + bsplit. replace (Z.to_nat (c_from c - c_line c)) with 0%nat by lia. rewrite drop_0, Z.max_l by lia.
      destruct (Z.to_nat (c_to c - c_line c + 1)) as [|k] eqn:K; [lia|]. simpl (take _ _). cbn [pick].
      destruct (commit_line l c A Nl) as (C1 & C2 & C3 & C4).
      destruct (zlen l <=? MaxReadBytes - zlen (c_out c)).
      * destruct C4 as ([D' P' L' T' Lo'] & O & F & La). rewrite IH by (by split). simpl. rewrite C1, C2, C3, O, F, La.
        unfold wanted_lines. replace (Z.to_nat (c_from c - (c_line c + 1))) with 0%nat by lia. rewrite drop_0, Z.max_l by lia.
        by replace (Z.to_nat (c_to c - (c_line c + 1) + 1)) with k by lia.
      * destruct C4 as (D' & P' & E). rewrite feed_done by done. unfold outcome in *. simpl. rewrite E. by destruct (String.eqb (c_out c) "").
    + rewrite IH by (by split). simpl. unfold wanted_lines. apply andb_false_iff in W as [W|W]; bsplit.
      * replace (Z.to_nat (c_from c - c_line c)) with (S (Z.to_nat (c_from c - (c_line c + 1)))) by lia. simpl.
        by rewrite !Z.max_r by lia.
      * replace (Z.to_nat (c_to c - Z.max (c_line c) (c_from c) + 1)) with 0%nat by lia.
        by replace (Z.to_nat (c_to c - Z.max (c_line c + 1) (c_from c) + 1)) with 0%nat by lia.
Qed.

(** ** The whole reading *)

Lemma commit_keeps c : c_line (commitLine c) = c_line c.
Proof. unfold commitLine. by repeat case_match. Qed.

Lemma finish_keeps c : c_line (finish c) = c_line c.
Proof. unfold finish. case_match; [apply commit_keeps|done]. Qed.

Lemma last_byte_app s t : t ≠ ""%string → last_byte (s ++ t) = last_byte t.
Proof.
  intros N. unfold last_byte. rewrite slen_app. assert (0 < slen t)%nat by (destruct t; simpl; [done|lia]).
  replace (slen s + slen t - 1)%nat with (slen s + (slen t - 1))%nat by lia. apply sget_app.
Qed.

(** Whether the text ends in a line without a newline. *)
Definition open_end (text : string) : bool :=
  (0 <? zlen text) && match last_byte text with Some b => negb (Ascii.eqb b nl) | None => true end.

Lemma total_lines s c :
  Z.of_nat (length (lines s)) = c_line (feed_bytes s c) - c_line c + (if open_end s then 1 else 0).
Proof.
  revert c. induction s as [|p Hp Np|p s Hp IH] using lines_ind; intros c.
  - unfold feed_bytes, open_end. simpl. lia.
  - rewrite lines_last, feed_piece by done.
    assert (open_end p = true) as ->.
    { unfold open_end. apply andb_true_iff. split; [apply Z.ltb_lt; destruct p; [done|]; unfold zlen; simpl; lia|].
      destruct (last_byte p) as [b|] eqn:E; [|done]. apply negb_true_iff. unfold last_byte in E. clear Np.
      revert E. generalize (slen p - 1)%nat as k. intros k. revert k. induction p as [|d p IH]; intros k; [by destruct k|].
      simpl in Hp. apply andb_true_iff in Hp as [Hd Hp]. apply negb_true_iff in Hd. destruct k as [|k]; simpl; [intros [= <-]; rewrite Ascii.eqb_sym; exact Hd|exact (IH Hp k)]. }
    destruct (wanted c); simpl; lia.
  - replace (p ++ String nl s)%string with ((p ++ String nl "") ++ s)%string by (by rewrite <- app_assoc_s).
    rewrite feed_bytes_app, feed_line by done.
    assert (open_end ((p ++ String nl "") ++ s) = open_end s) as ->.
    { unfold open_end. destruct (decide (s = ""%string)) as [->|Ns].
      - rewrite app_nil_s, last_byte_app by done. change (last_byte (String nl "")) with (Some nl). cbn [negb]. rewrite Ascii.eqb_refl, andb_false_r. done.
      - rewrite last_byte_app by done. f_equal. rewrite zlen_app. pose proof (zlen_nonneg (p ++ String nl "")).
        assert (0 < zlen s) by (destruct s; [done|]; unfold zlen; simpl; lia). by rewrite !(proj2 (Z.ltb_lt _ _)) by lia. }
    rewrite <- app_assoc_s. simpl (String nl "" ++ s)%string. rewrite lines_line by done. simpl length.
    set (c1 := if wanted c then _ else c). assert (c_line c1 = c_line c) as E1 by (unfold c1; destruct (wanted c); [by rewrite commit_keeps|done]).
    specialize (IH (next_line c1)). simpl in IH. rewrite E1 in IH. lia.
Qed.

Lemma read_chunks chunks s :
  Forall (λ x, x ≠ ""%string) chunks → rs_sniff s = stake sniffLen (rs_all s) →
  (rs_all s ≠ ""%string → rs_last s = last_byte (rs_all s)) →
  let s' := foldl read_chunk s chunks in let all := (rs_all s ++ String.concat "" chunks)%string in
  rs_all s' = all ∧ rs_sniff s' = stake sniffLen all ∧ (all ≠ ""%string → rs_last s' = last_byte all) ∧
  rs_c s' = feed_bytes (String.concat "" chunks) (rs_c s).
Proof.
  intros F. revert s. induction F as [|x chunks Nx F IH]; intros s Sn La; cbn [foldl].
  { simpl. rewrite app_nil_s. by split_and!. }
  assert (String.concat "" (x :: chunks) = x ++ String.concat "" chunks)%string as -> by (destruct chunks; simpl; [by rewrite app_nil_s|done]).
  rewrite app_assoc_s, feed_bytes_app. destruct (IH (read_chunk s x)) as (E1 & E2 & E3 & E4).
  - simpl. rewrite Sn. rewrite slen_stake. destruct (Nat.ltb_spec (Nat.min sniffLen (slen (rs_all s))) sniffLen) as [L|L].
    + rewrite (Nat.min_r sniffLen (slen (rs_all s))) by lia. rewrite (stake_all sniffLen (rs_all s)) by lia.
      replace sniffLen with (slen (rs_all s) + (sniffLen - slen (rs_all s)))%nat at 2 by lia. rewrite stake_app_add. f_equal.
      destruct (Nat.le_ge_cases (slen x) (sniffLen - slen (rs_all s))); [|by rewrite Nat.min_r]. rewrite Nat.min_l by done. by rewrite !stake_all.
    + rewrite stake_app_le by lia. done.
  - intros _. simpl. by rewrite last_byte_app.
  - simpl in *. rewrite E4, feed_feed_bytes. by split_and!.
Qed.

(** C31: however the file arrives in chunks, a read returns the lines asked for.
    The streaming collector computes [read_lines] of the whole text: whole lines
    of the range, as many as fit the cap, or the beginning of the one line that
    cannot; the numbers of the first and last; the number of lines, the size
    and the hash of the file; and a refusal when it is not text. *)
Theorem read_is_streamed chunks offset limit :
  Forall (λ x, x ≠ ""%string) chunks →
  readLineRange (Reading chunks None) offset limit = read_lines (String.concat "" chunks) offset limit.
Proof.
  intros F. unfold readLineRange. cbn [rd_chunks rd_error]. set (c0 := LineCollector _ _ _ _ _ _ _ _ _ _ _).
  destruct (read_chunks chunks (ReadState "" "" None c0) F) as (-> & -> & La & ->); [by destruct sniffLen|done|].
  simpl (rs_all _). simpl (rs_c _). set (text := String.concat "" chunks) in *. change ("" ++ text)%string with text in *.
  assert (at_line c0) as A by (by split). pose proof (collect_lines text c0 A) as C.
  pose proof (total_lines text c0) as T. rewrite finish_keeps. unfold read_lines.
  assert (wanted_lines (c_from c0) (c_to c0) (c_line c0) (lines text) = range_lines offset limit text) as E.
  { unfold wanted_lines, range_lines, c0. simpl. assert (1 <= range_from offset) by (unfold range_from; destruct (Z.leb_spec offset 0); lia).
    by rewrite Z.max_r by lia. }
  assert (Z.max (c_line c0) (c_from c0) = range_from offset) as M.
  { unfold c0. cbn [c_line c_from]. unfold range_from. destruct (Z.leb_spec offset 0); lia. }
  rewrite E, M in C. unfold outcome in C.
  change (c_from c0) with (range_from offset) in C. change (c_out c0) with ""%string in C. change (c_first c0) with 0 in C. change (c_last c0) with 0 in C.
  rewrite <- C. destruct (isText (stake sniffLen text) (zlen text)); [|done]. simpl (negb true).
  destruct (valid_string (c_out (finish (feed_bytes text c0)))); [|done]. simpl.
  change (c_line c0) with 1 in T. rewrite T. f_equal. f_equal. unfold open_end.
  destruct (decide (text = ""%string)) as [->|Nt]; [simpl; lia|]. cbn [rs_all] in La. change ("" ++ String.concat "" chunks)%string with text in La. rewrite La by done.
  change ("" ++ text)%string with text. destruct ((0 <? zlen text) && _); lia.
Qed.

Lemma read_is_streamed_witness :
  Forall (λ x, x ≠ ""%string) ["on"; "e"]%string ∧
  readLineRange (Reading ["on"; "e"] None) 1 5 = read_lines "one" 1 5.
Proof.
  assert (Forall (λ x, x ≠ ""%string) ["on"; "e"]%string) as F by (by repeat constructor).
  split; [exact F|]. apply (read_is_streamed ["on"; "e"]%string 1 5 F).
Defined.
