(* ===== verification/FileGuard.v ===== *)
(** [internal/server/files.go]: which files an operation may touch.

    The file system is whatever it answers: [os] holds the answers to the path
    checks, [open_env] those to one opening.  They need not agree with each
    other: a directory may be swapped between any two calls. *)

From S2P Require Import Prelude GoStrings GoPath.

Local Open Scope Z_scope.

(** ** What the operating system says of a file *)

Inductive file_kind := Regular | Directory | SymbolicLink | Irregular.
#[export] Instance file_kind_eq_dec : EqDecision file_kind.
Proof. solve_decision. Defined.

(** [os.FileInfo]; [fi_id] is the identity that [os.SameFile] compares. *)
Record file_info := FileInfo { fi_id : nat; fi_kind : file_kind; fi_perm : Z; fi_size : Z }.
Definition SameFile (a b : file_info) : bool := (fi_id a =? fi_id b)%nat.
Definition IsDir (i : file_info) : bool := bool_decide (fi_kind i = Directory).

Inductive os_error := NotExist | OSFailed (text : string).
Inductive reason := reasonConfigDir | reasonBinary.

Inductive file_error :=
| RefusedProtected (r : reason) | OutsideRoot | RefusedLink | RefusedIrregular | OSError (e : os_error) | NoTempFile.

(** The environment of the path checks: the working directory, [os.Stat],
    [filepath.EvalSymlinks], and Unicode's [strings.ToLower]. *)
Record os := OS {
  os_cwd : result os_error string;
  os_stat : string → option file_info;
  os_eval : string → option string;
  os_lower : string → string }.

(** [filepath.Abs] *)
Definition Abs (o : os) (path : string) : result os_error string :=
  if is_abs path then Ok (clean path) else match os_cwd o with Err e => Err e | Ok wd => Ok (path_join wd path) end.

(** ** Names, where identities cannot be had *)

Definition foldPath (o : os) (goos p : string) : string :=
  if String.eqb goos "windows" || String.eqb goos "darwin" || String.eqb goos "ios" then os_lower o p else p.

Definition trim_suffix (s p : string) : string := if has_suffix s p then stake (slen s - slen p) s else s.

Definition pathWithinOn (o : os) (goos target dir : string) : bool :=
  let sep := if String.eqb goos "windows" then "\"%string else "/"%string in
  let target := foldPath o goos target in let dir := foldPath o goos dir in
  if String.eqb target dir then true else has_prefix target (trim_suffix dir sep ++ sep).

(** [longestRealPrefix]; each turn drops a component. *)
Fixpoint real_prefix (fuel : nat) (o : os) (p : string) : string :=
  match os_eval o p with
  | Some r => r
  | None =>
      let d := dir p in
      if String.eqb d p then p
      else match fuel with O => p | S fuel => path_join (real_prefix fuel o d) (base p) end
  end.
Definition longestRealPrefix (o : os) (p : string) : string := real_prefix (slen p) o p.

(** ** What is protected *)

Record protected := Protected {
  configDir : option file_info; configPath : string; configSub : list file_info; configFile : list file_info;
  binary : option file_info; binaryPath : string }.

Definition no_protected : protected := Protected None "" [] [] None "".

(** One entry of [WalkDir] beneath the config dir: its path, and whether the
    entry itself is a directory. *)
Definition walk_entry (o : os) (p : protected) (e : string * bool) : protected :=
  match os_stat o e.1 with
  | None => p
  | Some info =>
      if e.2 then Protected (configDir p) (configPath p) (configSub p ++ [info]) (configFile p) (binary p) (binaryPath p)
      else if negb (IsDir info)
      then Protected (configDir p) (configPath p) (configSub p) (configFile p ++ [info]) (binary p) (binaryPath p)
      else p
  end.

(** [ConfigDir] is where the configuration is kept, if that is known, [walk] the
    entries beneath it, [Executable] the path of the running binary. *)
Definition loadProtected (o : os) (ConfigDir : option string) (walk : list (string * bool)) (Executable : option string) : protected :=
  let p := match ConfigDir with
           | None => no_protected
           | Some d =>
               if String.eqb d "" then no_protected
               else match os_stat o d with
                    | Some info =>
                        if IsDir info
                        then foldl (walk_entry o) (Protected (Some info) (longestRealPrefix o d) [] [] None "")
                               (filter (λ e, e.1 ≠ d) walk)
                        else no_protected
                    | None => no_protected
                    end
           end in
  match Executable with
  | None => p
  | Some self =>
      match os_stat o self with
      | Some info => Protected (configDir p) (configPath p) (configSub p) (configFile p) (Some info) (longestRealPrefix o self)
      | None => p
      end
  end.

Definition inConfig (p : protected) (info : file_info) : bool :=
  match configDir p with
  | None => false
  | Some c => SameFile info c || existsb (SameFile info) (configSub p)
  end.

(** [refuses]: either may be nil. *)
Definition refuses (p : protected) (dir file : option file_info) : option reason :=
  if match dir with Some d => inConfig p d | None => false end then Some reasonConfigDir
  else match file with
  | None => None
  | Some f =>
      if match binary p with Some b => SameFile f b | None => false end then Some reasonBinary
      else if existsb (SameFile f) (configFile p) then Some reasonConfigDir
      else None
  end.

(** The walk of [target] from the resolved path up to the root. *)
Fixpoint target_walk (fuel : nat) (o : os) (p : protected) (resolved d : string) : option reason :=
  let here :=
    match os_stat o d with
    | Some info =>
        if inConfig p info then Some reasonConfigDir
        else if String.eqb d resolved && match binary p with Some b => SameFile info b | None => false end then Some reasonBinary
        else None
    | None => None
    end in
  match here with
  | Some r => Some r
  | None =>
      let up := dir d in
      if String.eqb up d then None else match fuel with O => None | S fuel => target_walk fuel o p resolved up end
  end.

Definition target (o : os) (goos : string) (p : protected) (t : string) : option reason :=
  let resolved := longestRealPrefix o t in
  match target_walk (slen resolved) o p resolved resolved with
  | Some r => Some r
  | None =>
      if negb (String.eqb (configPath p) "") && pathWithinOn o goos resolved (configPath p) then Some reasonConfigDir
      else if negb (String.eqb (binaryPath p) "") && String.eqb (foldPath o goos resolved) (foldPath o goos (binaryPath p))
      then Some reasonBinary
      else None
  end.

(** ** Where an operation is rooted *)

Definition unconstrainedRootFor (goos target : string) : string :=
  if String.eqb goos "android" then dir target else "/".

(** [rootedName]: the directory to open as the root, and the name beneath it. *)
Definition rootedName (o : os) (goos : string) (p : protected) (policyRoot path : string) : result file_error (string * string) :=
  match Abs o path with
  | Err e => Err (OSError e)
  | Ok t =>
      match target o goos p t with
      | Some r => Err (RefusedProtected r)
      | None =>
          match (if String.eqb policyRoot "" then Ok (unconstrainedRootFor goos t) else Abs o policyRoot) with
          | Err e => Err (OSError e)
          | Ok root =>
              let rel := Rel root t in
              if String.eqb rel ".." || is_abs rel || has_prefix rel "../" then Err OutsideRoot else Ok (root, rel)
          end
      end
  end.

(** ** Opening *)

(** What the calls of one opening answer: the root and the parent directory,
    [Lstat] of the name in it, the opened file's own [Stat], [Stat] of the opened
    directory, and what is protected by then. *)
Record open_env := OpenEnv {
  oe_root : result os_error unit; oe_mkdir : result os_error unit; oe_parent : result os_error unit;
  oe_lstat : result os_error file_info; oe_open : result os_error unit; oe_fstat : result os_error file_info;
  oe_dirstat : result os_error file_info; oe_now : protected }.

Definition checkOpened (p : protected) (e : open_env) (file : option file_info) : result file_error unit :=
  match (if bool_decide (is_Some (configDir p)) || bool_decide (is_Some (configDir (oe_now e))) then match oe_dirstat e with Ok i => Ok (Some i) | Err x => Err x end else Ok None) with
  | Err x => Err (OSError x)
  | Ok opened =>
      match refuses p opened file with
      | Some r => Err (RefusedProtected r)
      | None => match refuses (oe_now e) opened file with Some r => Err (RefusedProtected r) | None => Ok tt end
      end
  end.

(** The file that is handed out, by its [Stat]. *)
Definition openPolicyFile (o : os) (goos : string) (p : protected) (e : open_env) (policyRoot path : string) : result file_error file_info :=
  match rootedName o goos p policyRoot path with
  | Err x => Err x
  | Ok _ =>
      match oe_root e with Err x => Err (OSError x) | Ok _ =>
      match oe_parent e with Err x => Err (OSError x) | Ok _ =>
      match oe_lstat e with
      | Err x => Err (OSError x)
      | Ok info =>
          if bool_decide (fi_kind info = SymbolicLink) then Err RefusedLink
          else if negb (bool_decide (fi_kind info = Regular)) then Err RefusedIrregular
          else match oe_open e with Err x => Err (OSError x) | Ok _ =>
               match oe_fstat e with
               | Err x => Err (OSError x)
               | Ok f =>
                   if negb (bool_decide (fi_kind f = Regular)) then Err RefusedIrregular
                   else match checkOpened p e (Some f) with Err x => Err x | Ok _ => Ok f end
               end end
      end end end
  end.

(** [newPendingUploadIn] up to where the temporary file is made: the file that
    will be replaced, if there is one. *)
Definition admit_upload (o : os) (goos : string) (p : protected) (e : open_env) (policyRoot path : string) (mkdirParents : bool)
  : result file_error (option file_info) :=
  match rootedName o goos p policyRoot path with
  | Err x => Err x
  | Ok _ =>
      match oe_root e with Err x => Err (OSError x) | Ok _ =>
      match (if mkdirParents then oe_mkdir e else Ok tt) with Err x => Err (OSError x) | Ok _ =>
      match oe_parent e with Err x => Err (OSError x) | Ok _ =>
      match (match oe_lstat e with
             | Ok info =>
                 if bool_decide (fi_kind info = SymbolicLink) then Err RefusedLink
                 else if negb (bool_decide (fi_kind info = Regular)) then Err RefusedIrregular else Ok (Some info)
             | Err NotExist => Ok None
             | Err x => Err (OSError x)
             end) with
      | Err x => Err x
      | Ok existing => match checkOpened p e existing with Err x => Err x | Ok _ => Ok existing end
      end end end end
  end.

(** ** Paths *)

(** What the path checks rely on: the working directory and resolved paths are
    absolute, and resolved paths are clean. *)
Class OSLaws (o : os) : Prop := {
  cwd_abs wd : os_cwd o = Ok wd → is_abs wd = true;
  eval_clean p r : is_abs p = true → os_eval o p = Some r → is_abs r = true ∧ clean r = r }.

Lemma clean_render s : is_abs s = true → clean s = s → s = render true (clean_parts s).
Proof. intros A C. rewrite <- C at 1. unfold clean. by rewrite A. Qed.

Lemma is_abs_app a b : is_abs a = true → is_abs (a ++ b) = true.
Proof. unfold is_abs. rewrite !has_prefix_spec. intros [t ->]. exists (t ++ b)%string. by rewrite app_assoc_s. Qed.

Lemma path_join_clean a b : is_abs a = true → is_abs (path_join a b) = true ∧ clean (path_join a b) = path_join a b.
Proof.
  intros A. unfold path_join. assert (is_abs (a ++ String slash b) = true) as B by (by apply is_abs_app).
  split; [by apply is_abs_clean|by apply clean_idem_rooted].
Qed.

Lemma Abs_clean `{OSLaws o} p t : Abs o p = Ok t → is_abs t = true ∧ clean t = t.
Proof.
  unfold Abs. destruct (is_abs p) eqn:A.
  - intros [= <-]. split; [by apply is_abs_clean|by apply clean_idem_rooted].
  - destruct (os_cwd o) as [wd|] eqn:C; [|done]. intros [= <-]. apply path_join_clean. by apply cwd_abs.
Qed.

Lemma dir_abs p : is_abs p = true → clean p = p → is_abs (dir p) = true ∧ clean (dir p) = dir p.
Proof.
  intros A C. rewrite (clean_render p A C). pose proof (clean_parts_good p) as G. pose proof (clean_parts_rooted p A) as N.
  destruct (clean_parts p) as [|x l _] using rev_ind; [done|]. rewrite dir_render by done.
  apply Forall_app in G as [G _], N as [N _]. split; [done|]. unfold clean.
  change (is_abs (render true l)) with true. by rewrite clean_parts_render.
Qed.

Lemma real_prefix_clean `{OSLaws o} fuel p :
  is_abs p = true → clean p = p → is_abs (real_prefix fuel o p) = true ∧ clean (real_prefix fuel o p) = real_prefix fuel o p.
Proof.
  revert p. induction fuel as [|fuel IH]; intros p A C; cbn [real_prefix].
  - destruct (os_eval o p) as [r|] eqn:E; [by apply (eval_clean p)|]. by destruct (String.eqb (dir p) p).
  - destruct (os_eval o p) as [r|] eqn:E; [by apply (eval_clean p)|]. destruct (String.eqb (dir p) p); [done|].
    apply path_join_clean. apply IH; by apply dir_abs.
Qed.

Lemma length_join l : Forall good_part l → (length l <= slen (join_slash l))%nat.
Proof.
  induction l as [|x l IH]; intros G; [simpl; lia|]. inversion G as [|? ? (_ & N & _) G']; subst. specialize (IH G').
  assert (1 <= slen x)%nat by (destruct x; simpl; [done|lia]).
  destruct l as [|y l]; [simpl in *; lia|]. change (join_slash (x :: y :: l)) with (x ++ String slash (join_slash (y :: l)))%string.
  rewrite slen_app. cbn [String.length length] in *. lia.
Qed.

(** The walk looks at every directory from the target up to the root. *)
Lemma target_walk_all fuel o p r l :
  Forall good_part l → Forall (λ c, c ≠ "..") l → (length l <= fuel)%nat → target_walk fuel o p r (render true l) = None →
  ∀ l1 l2 info, l = l1 ++ l2 → os_stat o (render true l1) = Some info →
    inConfig p info = false ∧ (render true l1 = r → ∀ b, binary p = Some b → SameFile info b = false).
Proof.
  revert l. induction fuel as [|fuel IH]; intros l G N L W l1 l2 info E S.
  - destruct l; [|simpl in L; lia]. symmetry in E. apply app_eq_nil in E as [-> ->]. cbn [target_walk] in W. rewrite S in W.
    destruct (inConfig p info); [done|]. split; [done|]. intros R b B. rewrite R, String.eqb_refl, B in W.
    by destruct (SameFile info b).
  - destruct l2 as [|x l2 _] using rev_ind.
    + rewrite app_nil_r in E. subst l1. cbn [target_walk] in W. rewrite S in W. destruct (inConfig p info); [done|].
      split; [done|]. intros R b B. rewrite R, String.eqb_refl, B in W. by destruct (SameFile info b).
    + rewrite app_assoc in E. subst l. rewrite length_app in L. simpl in L. cbn [target_walk] in W. rewrite dir_render in W by done.
      pose proof G as Gx. pose proof N as Nx. apply Forall_app in G as [G _], N as [N _].
      assert (render true (l1 ++ l2) ≠ render true ((l1 ++ l2) ++ [x])) as Ne.
      { intros Q. apply (f_equal clean_parts) in Q. rewrite !clean_parts_render in Q by done. apply (f_equal length) in Q.
        rewrite (length_app _ [x]) in Q. simpl in Q. lia. }
      rewrite (proj2 (String.eqb_neq _ _) Ne) in W. case_match; [done|].
      by apply (IH (l1 ++ l2) G N ltac:(lia) W l1 l2 info).
Qed.

(** ** What the checks leave *)

(** The place of an operation: the path it means is beneath the root that is
    opened, by names without [..], and no directory at or above it is the config
    dir or one inside it. *)
Definition placed (o : os) (goos : string) (p : protected) (policyRoot path : string) : Prop :=
  ∃ t root rel, Abs o path = Ok t ∧ rootedName o goos p policyRoot path = Ok (root, rel) ∧
    (∃ names, clean_parts t = clean_parts root ++ names ∧ rel = render false names ∧ Forall (λ c, c ≠ "..") names) ∧
    (policyRoot ≠ ""%string → Abs o policyRoot = Ok root) ∧
    (∀ l1 l2 info, clean_parts (longestRealPrefix o t) = l1 ++ l2 → os_stat o (render true l1) = Some info →
       inConfig p info = false ∧ (l2 = [] → ∀ b, binary p = Some b → SameFile info b = false)).

Lemma rel_inside root t :
  is_abs t = true → (String.eqb (Rel root t) ".." || is_abs (Rel root t) || has_prefix (Rel root t) "../") = false →
  ∃ names, clean_parts t = clean_parts root ++ names ∧ Rel root t = render false names ∧ Forall (λ c, c ≠ "..") names.
Proof.
  intros A F. pose proof (clean_parts_rooted t A) as N. unfold Rel in *.
  destruct (strip_common_spec (clean_parts root) (clean_parts t)) as (l & E1 & E2).
  destruct (strip_common (clean_parts root) (clean_parts t)) as [up down]. cbn [fst snd] in *.
  destruct up as [|u up].
  - exists down. rewrite app_nil_r in E1. split; [by rewrite E1|]. split; [done|]. rewrite E2 in N. by apply Forall_app in N as [_ N].
  - exfalso. revert F. cbn [length replicate app]. destruct (replicate (length up) ".."%string ++ down) as [|d ds]; [done|]. unfold render, is_abs.
    change (join_slash (".."%string :: d :: ds)) with ("../" ++ join_slash (d :: ds))%string. rewrite has_prefix_app. by rewrite orb_true_r.
Qed.

Lemma rooted_placed `{OSLaws o} goos p policyRoot path root rel :
  rootedName o goos p policyRoot path = Ok (root, rel) → placed o goos p policyRoot path.
Proof.
  intros R. pose proof R as R'. unfold rootedName in R. destruct (Abs o path) as [t|] eqn:T; [|done].
  destruct (Abs_clean _ _ T) as [At Ct]. unfold target in R.
  destruct (target_walk _ o p _ _) eqn:W; [done|]. destruct (_ && _); [done|]. destruct (_ && _); [done|].
  destruct (if String.eqb policyRoot "" then _ else _) as [root'|] eqn:P; [|done].
  destruct (String.eqb (Rel root' t) ".." || _ || _) eqn:F; [done|]. injection R as -> <-.
  exists t, root, (Rel root t). split; [done|]. split; [done|]. split; [by apply rel_inside|].
  split. { intros N. by rewrite (proj2 (String.eqb_neq _ _) N) in P. }
  destruct (real_prefix_clean (slen t) t At Ct) as [Ar Cr]. fold (longestRealPrefix o t) in Ar, Cr.
  rewrite (clean_render _ Ar Cr) in W at 3. intros l1 l2 info E S.
  pose proof (clean_parts_good (longestRealPrefix o t)) as G. pose proof (clean_parts_rooted _ Ar) as N.
  assert (length (clean_parts (longestRealPrefix o t)) <= slen (longestRealPrefix o t))%nat as Fu.
  { rewrite (clean_render _ Ar Cr) at 2. unfold render. simpl. pose proof (length_join _ G). lia. }
  destruct (target_walk_all _ _ _ _ _ G N Fu W l1 l2 info E S) as [I B].
  split; [exact I|]. intros ->. rewrite app_nil_r in E. apply B. rewrite <- E. symmetry. by apply clean_render.
Qed.

(** What is opened is none of the protected files, by identity. *)
Definition clear_of (q : protected) (dir : result os_error file_info) (file : option file_info) : Prop :=
  (∀ d, dir = Ok d → inConfig q d = false) ∧
  ∀ f, file = Some f → (∀ b, binary q = Some b → SameFile f b = false) ∧ ∀ c, c ∈ configFile q → SameFile f c = false.

Lemma refuses_clear q (d file : option file_info) (dir : result os_error file_info) :
  refuses q d file = None → (configDir q ≠ None → ∀ i, dir = Ok i → d = Some i) → clear_of q dir file.
Proof.
  unfold refuses. destruct (match d with Some _ => _ | None => _ end) eqn:D; [done|]. intros R Dir. split.
  - intros i E. unfold inConfig in *. destruct (configDir q); [|done]. by rewrite (Dir ltac:(done) i E) in D.
  - intros f ->. destruct (match binary q with Some b => _ | None => _ end) eqn:B; [done|].
    destruct (existsb (SameFile f) (configFile q)) eqn:X; [done|]. split; [intros b Eb; by rewrite Eb in B|].
    intros c I. destruct (SameFile f c) eqn:Sc; [|done]. rewrite <- X. symmetry. apply existsb_exists. exists c. split; [by apply list_elem_of_In|done].
Qed.

Lemma checkOpened_clear p e file :
  checkOpened p e file = Ok tt → clear_of p (oe_dirstat e) file ∧ clear_of (oe_now e) (oe_dirstat e) file.
Proof.
  unfold checkOpened. intros H.
  assert (∃ opened, refuses p opened file = None ∧ refuses (oe_now e) opened file = None ∧
    ((configDir p ≠ None ∨ configDir (oe_now e) ≠ None) → ∀ i, oe_dirstat e = Ok i → opened = Some i)) as (opened & R1 & R2 & D).
  { destruct (bool_decide (is_Some (configDir p)) || bool_decide (is_Some (configDir (oe_now e)))) eqn:Need.
    - destruct (oe_dirstat e) as [d|]; [|done]. destruct (refuses p (Some d) file) eqn:R1; [done|].
      destruct (refuses (oe_now e) (Some d) file) eqn:R2; [done|]. exists (Some d). split_and!; try done. intros _ i. congruence.
    - apply orb_false_iff in Need as [C1%bool_decide_eq_false C2%bool_decide_eq_false]. rewrite <- eq_None_not_Some in C1, C2.
      destruct (refuses p None file) eqn:R1; [done|]. destruct (refuses (oe_now e) None file) eqn:R2; [done|].
      exists None. split_and!; try done. by intros [?|?]. }
  split; eapply refuses_clear; eauto.
Qed.

(** ** Files of the configuration *)

Lemma walk_keeps o l p : 
  let q := foldl (walk_entry o) p l in
  configDir q = configDir p ∧ configPath q = configPath p ∧
  (∀ i, i ∈ configSub p → i ∈ configSub q) ∧ (∀ i, i ∈ configFile p → i ∈ configFile q).
Proof.
  revert p. induction l as [|e l IH]; intros p; [done|]. cbn [foldl]. destruct (IH (walk_entry o p e)) as (D & P & S & F).
  cbn zeta in *. rewrite D, P. unfold walk_entry in *. destruct (os_stat o e.1) as [info|]; [|done].
  destruct e.2; [|destruct (negb (IsDir info))]; simpl in *; split_and!; try done; intros i I; [apply S|apply F]; apply elem_of_app; by left.
Qed.

Lemma walk_finds o l p e info :
  e ∈ l → os_stat o e.1 = Some info →
  let q := foldl (walk_entry o) p l in
  (e.2 = true → info ∈ configSub q) ∧ (e.2 = false → IsDir info = false → info ∈ configFile q).
Proof.
  intros I S. revert p. induction l as [|x l IH]; intros p; [by apply elem_of_nil in I|]. apply elem_of_cons in I as [<-|I]; [|by apply IH].
  destruct (walk_keeps o l (walk_entry o p e)) as (_ & _ & Sub & Fi). cbn [foldl].
  assert ((e.2 = true → info ∈ configSub (walk_entry o p e)) ∧ (e.2 = false → IsDir info = false → info ∈ configFile (walk_entry o p e))) as [A B].
  { unfold walk_entry. rewrite S. split; [intros ->|intros -> ->]; simpl; apply elem_of_app; right; by apply list_elem_of_singleton. }
  split; [intros E; by apply Sub, A|intros E D; by apply Fi, B].
Qed.

Lemma load_finds o cd walk self e i info :
  os_stat o cd = Some i → IsDir i = true → cd ≠ ""%string → e ∈ walk → e.1 ≠ cd → os_stat o e.1 = Some info →
  let q := loadProtected o (Some cd) walk self in
  configDir q = Some i ∧ (e.2 = true → inConfig q info = true) ∧ (e.2 = false → IsDir info = false → info ∈ configFile q).
Proof.
  intros Si Di N I Ne S. unfold loadProtected. rewrite (proj2 (String.eqb_neq _ _) N), Si, Di.
  set (q0 := Protected (Some i) _ [] [] None ""). set (l := filter _ walk).
  assert (e ∈ l) as Il by (by apply list_elem_of_filter).
  destruct (walk_keeps o l q0) as (D & _ & _ & _). destruct (walk_finds o l q0 e info Il S) as [A B].
  set (q1 := foldl (walk_entry o) q0 l) in *. simpl in D.
  assert (configDir q1 = Some i ∧ (e.2 = true → inConfig q1 info = true) ∧ (e.2 = false → IsDir info = false → info ∈ configFile q1)) as Q.
  { split; [by rewrite D|]. split; [|exact B]. intros E. unfold inConfig. rewrite D. apply orb_true_iff. right.
    apply existsb_exists. exists info. split; [apply list_elem_of_In, A, E|]. unfold SameFile. apply Nat.eqb_refl. }
  destruct self as [s|]; [|exact Q]. destruct (os_stat o s); exact Q.
Qed.

Lemma load_binary o cd walk self b : os_stat o self = Some b → binary (loadProtected o cd walk (Some self)) = Some b.
Proof. intros S. unfold loadProtected. by rewrite S. Qed.

(** What [Lstat], the identities and the opened directory have been checked for. *)
Lemma openPolicyFile_clear o goos p e policyRoot path f :
  openPolicyFile o goos p e policyRoot path = Ok f →
  fi_kind f = Regular ∧ clear_of p (oe_dirstat e) (Some f) ∧ clear_of (oe_now e) (oe_dirstat e) (Some f) ∧
  ∃ root rel, rootedName o goos p policyRoot path = Ok (root, rel).
Proof.
  unfold openPolicyFile. destruct (rootedName o goos p policyRoot path) as [[root rel]|] eqn:R; [|done].
  destruct (oe_root e), (oe_parent e), (oe_lstat e) as [i|]; try done.
  destruct (bool_decide (fi_kind i = SymbolicLink)); [done|]. destruct (negb _); [done|].
  destruct (oe_open e), (oe_fstat e) as [g|]; try done. destruct (bool_decide_reflect (fi_kind g = Regular)) as [K|]; [|done]. simpl.
  destruct (checkOpened p e (Some g)) as [[]|] eqn:C; [|done]. intros [= <-].
  destruct (checkOpened_clear _ _ _ C). split_and!; eauto.
Qed.

Lemma admit_upload_clear o goos p e policyRoot path mk ex :
  admit_upload o goos p e policyRoot path mk = Ok ex →
  (∀ f, ex = Some f → fi_kind f = Regular) ∧ clear_of p (oe_dirstat e) ex ∧ clear_of (oe_now e) (oe_dirstat e) ex ∧
  ∃ root rel, rootedName o goos p policyRoot path = Ok (root, rel).
Proof.
  unfold admit_upload. destruct (rootedName o goos p policyRoot path) as [[root rel]|] eqn:R; [|done].
  destruct (oe_root e); [|done]. destruct (if mk then _ else _); [|done]. destruct (oe_parent e); [|done].
  assert (∀ x, (match checkOpened p e x with Err y => Err y | Ok _ => Ok x end) = Ok ex → (∀ f, x = Some f → fi_kind f = Regular) →
    (∀ f, ex = Some f → fi_kind f = Regular) ∧ clear_of p (oe_dirstat e) ex ∧ clear_of (oe_now e) (oe_dirstat e) ex ∧
    ∃ root0 rel0, Ok (root, rel) = Ok (root0, rel0) :> result file_error (string * string)) as K.
  { intros x E Kx. destruct (checkOpened p e x) as [[]|] eqn:C; [|done]. injection E as <-. destruct (checkOpened_clear _ _ _ C). split_and!; eauto. }
  destruct (oe_lstat e) as [i|[|]]; [|intros H; by apply (K None H)|done].
  destruct (bool_decide (fi_kind i = SymbolicLink)); [done|]. destruct (bool_decide_reflect (fi_kind i = Regular)) as [Kd|]; [|done]. simpl.
  intros H. apply (K (Some i)); [exact H|]. by intros f [= <-].
Qed.

(** An operation stays where it was allowed.  Whatever path a controller
    names, what is opened or replaced is beneath the policy's root (the volume,
    when there is none), reached from it by names without [..], and nowhere in
    or under the config dir by any directory the path resolves through; links
    and files that are not regular are refused. *)
Lemma operations_are_placed `{OSLaws o} goos p e policyRoot path :
  (∀ f, openPolicyFile o goos p e policyRoot path = Ok f → fi_kind f = Regular ∧ placed o goos p policyRoot path) ∧
  (∀ mk ex, admit_upload o goos p e policyRoot path mk = Ok ex →
     (∀ f, ex = Some f → fi_kind f = Regular) ∧ placed o goos p policyRoot path) ∧
  (∀ i, oe_lstat e = Ok i → fi_kind i ≠ Regular →
     (∀ f, openPolicyFile o goos p e policyRoot path ≠ Ok f) ∧ ∀ mk ex, admit_upload o goos p e policyRoot path mk ≠ Ok ex).
Proof.
  split_and!.
  - intros f O. destruct (openPolicyFile_clear _ _ _ _ _ _ _ O) as (K & _ & _ & root & rel & R). split; [done|]. by eapply rooted_placed.
  - intros mk ex O. destruct (admit_upload_clear _ _ _ _ _ _ _ _ O) as (K & _ & _ & root & rel & R). split; [done|]. by eapply rooted_placed.
  - intros i L N. assert (negb (bool_decide (fi_kind i = Regular)) = true) as B by (by rewrite bool_decide_false).
    split; [intros f|intros mk ex]; unfold openPolicyFile, admit_upload; rewrite L, B; by repeat case_match.
Qed.

(** C5: wanctl's own files are out of reach under every name.  Let the entries
    beneath the config dir be those the device walks before the operation.  No
    file that is opened, and none that an upload replaces, is one of them or the
    running binary, and the directory it is found in is none of the config
    dir's: not through links, case, mounts or second names, since files are
    compared by identity, and not when a directory is swapped after the path was
    checked, since what was opened is compared. *)
Theorem config_is_unreachable o goos cd walk self e policyRoot path i :
  os_stat o cd = Some i → IsDir i = true → cd ≠ ""%string →
  let p := loadProtected o (Some cd) walk (Some self) in
  ∀ file, (∃ f, openPolicyFile o goos p e policyRoot path = Ok f ∧ file = Some f) ∨
    (∃ mk, admit_upload o goos p e policyRoot path mk = Ok file) →
  ∀ entry info, entry ∈ walk → entry.1 ≠ cd → os_stat o entry.1 = Some info →
    (entry.2 = false → IsDir info = false → ∀ f, file = Some f → fi_id f ≠ fi_id info) ∧
    (∀ b f, os_stat o self = Some b → file = Some f → fi_id f ≠ fi_id b) ∧
    (∀ d, oe_dirstat e = Ok d → fi_id d ≠ fi_id i ∧ (entry.2 = true → fi_id d ≠ fi_id info)).
Proof.
  intros Si Di N p file O entry info I Ne S.
  assert (clear_of p (oe_dirstat e) file) as [Cd Cf].
  { destruct O as [(f & O & ->)|(mk & O)]; [apply (openPolicyFile_clear _ _ _ _ _ _ _ O)|apply (admit_upload_clear _ _ _ _ _ _ _ _ O)]. }
  destruct (load_finds o cd walk (Some self) entry i info Si Di N I Ne S) as (Cn & A & B). fold p in Cn, A, B.
  unfold SameFile in *. split_and!.
  - intros E D f Ef. apply Nat.eqb_neq. apply (proj2 (Cf f Ef)). by apply B.
  - intros b f Sb Ef. apply Nat.eqb_neq. apply (proj1 (Cf f Ef)). by apply load_binary.
  - intros d Ed. specialize (Cd d Ed). split; [|intros E]; intros Q; [|specialize (A E)]; unfold inConfig, SameFile in *; rewrite Cn in *.
    + by rewrite Q, Nat.eqb_refl in Cd.
    + rewrite Q in Cd. congruence.
Qed.

(** ** A device *)

Definition sample_dir (id : nat) : file_info := FileInfo id Directory 493 0.
Definition sample_file (id : nat) : file_info := FileInfo id Regular 420 3.
Definition sample_stat (p : string) : option file_info :=
  if String.eqb p "/etc/wanctl" then Some (sample_dir 10)
  else if String.eqb p "/etc/wanctl/key.pem" then Some (sample_file 11)
  else if String.eqb p "/etc/wanctl/cache" then Some (sample_dir 12)
  else if String.eqb p "/usr/bin/wanctl" then Some (sample_file 20)
  else if String.eqb p "/srv" then Some (sample_dir 30) else if String.eqb p "/srv/a" then Some (sample_file 31) else None.
Definition sample_os : os := OS (Ok "/srv"%string) sample_stat (λ _, None) to_lower.
Definition sample_walk : list (string * bool) := [("/etc/wanctl/key.pem"%string, false); ("/etc/wanctl/cache"%string, true)].
Definition sample_protected : protected := loadProtected sample_os (Some "/etc/wanctl"%string) sample_walk (Some "/usr/bin/wanctl"%string).
Definition sample_open : open_env :=
  OpenEnv (Ok tt) (Ok tt) (Ok tt) (Ok (sample_file 31)) (Ok tt) (Ok (sample_file 31)) (Ok (sample_dir 30)) sample_protected.

#[export] Instance sample_os_laws : OSLaws sample_os.
Proof. split; [by intros wd [= <-]|done]. Qed.

Example key_is_refused : openPolicyFile sample_os "linux" sample_protected sample_open "" "/srv/../etc/wanctl/key.pem" = Err (RefusedProtected reasonConfigDir).
Proof. vm_compute. reflexivity. Qed.

(** A second name of the key: the path is innocent, the file is not. *)
Example hard_link_is_refused :
  openPolicyFile sample_os "linux" sample_protected
    (OpenEnv (Ok tt) (Ok tt) (Ok tt) (Ok (sample_file 11)) (Ok tt) (Ok (sample_file 11)) (Ok (sample_dir 30)) sample_protected) "" "a"
  = Err (RefusedProtected reasonConfigDir).
Proof. vm_compute. reflexivity. Qed.

Lemma operations_are_placed_witness :
  openPolicyFile sample_os "linux" sample_protected sample_open "/srv" "a" = Ok (sample_file 31) ∧
  placed sample_os "linux" sample_protected "/srv" "a".
Proof.
  assert (openPolicyFile sample_os "linux" sample_protected sample_open "/srv" "a" = Ok (sample_file 31)) as O by (vm_compute; reflexivity).
  split; [exact O|]. apply (proj1 (@operations_are_placed sample_os sample_os_laws "linux" sample_protected sample_open "/srv" "a") _ O).
Defined.

Lemma config_is_unreachable_witness :
  openPolicyFile sample_os "linux" sample_protected sample_open "/srv" "a" = Ok (sample_file 31) ∧ fi_id (sample_file 31) ≠ 20%nat.
Proof.
  assert (openPolicyFile sample_os "linux" sample_protected sample_open "/srv" "a" = Ok (sample_file 31)) as O by (vm_compute; reflexivity).
  split; [exact O|].
  destruct (config_is_unreachable sample_os "linux" "/etc/wanctl" sample_walk "/usr/bin/wanctl" sample_open "/srv" "a" (sample_dir 10)
    eq_refl eq_refl ltac:(discriminate) (Some (sample_file 31)) (or_introl (ex_intro _ _ (conj O eq_refl)))
    ("/etc/wanctl/key.pem"%string, false) (sample_file 11) ltac:(left) ltac:(discriminate) eq_refl) as (_ & B & _).
  apply (B (sample_file 20) (sample_file 31) eq_refl eq_refl).
Defined.
