(* ===== verification/Transfer.v ===== *)
(** [internal/server/files.go] and [internal/client/files.go],
    [internal/client/readbytes.go]: uploads and downloads.

    An upload fills a temporary file beside its target and renames it over the
    target when the declared number of bytes has arrived.  Both ends are modelled
    over the frames that reach them; the operating system and the network may
    fail at any point. *)

From S2P Require Import Prelude GoStrings GoUtf8 GoCodec Frames FileGuard.

Local Open Scope Z_scope.

(** ** Messages *)

Definition KindError : string := "error".
Definition KindOK : string := "ok".
Definition KindReject : string := "reject".
Definition KindEOF : string := "eof".
Definition KindFilePut : string := "file_put".
Definition KindFileGet : string := "file_get".
Definition KindFileMeta : string := "file_meta".

Inductive put_error :=
| NegativeSize | TooBig (size maxSize : Z) | Failed (e : file_error) | ExceedsDeclared | ShortWrite | ExpectedEOF
| SizeMismatch (got want : Z) | UnexpectedFrame.

(** The fields of a [protocol.Message] a transfer uses; [m_Reason] is what the
    text of a refusal says. *)
Record message := Message { m_Kind : string; m_Path : string; m_Size : Z; m_Mode : Z; m_Reason : option put_error }.

Definition ok_message (size : Z) : message := Message KindOK "" size 0 None.
Definition error_message (e : put_error) : message := Message KindError "" 0 0 (Some e).
Definition eof_message : message := Message KindEOF "" 0 0 None.

(** JSON keeps the kind of a message and its numbers. *)
Class JSON := { marshal : message → string; unmarshal : string → option message }.
Class JSONLaws `{JSON} : Prop := {
  unmarshal_marshal m : sforall graphic (m_Kind m) = true → 0 <= m_Size m < 2 ^ 63 →
    ∃ m', unmarshal (marshal m) = Some m' ∧ m_Kind m' = m_Kind m ∧ m_Size m' = m_Size m }.

(** ** The directory of the target *)

Inductive node := File (perm : Z) (content : string) | OtherNode.
Abbreviation directory := (gmap string node).

(** What the operating system does in one upload: the checks of the path, the
    random names, making the file, the [k]-th write ([Some (n, e)]: only [n]
    bytes were written), and how the end goes. *)
Record put_env := PutEnv {
  pe_admit : result file_error (option file_info);
  pe_random : nat → result os_error string; pe_create : nat → option os_error; pe_chmod : nat → option os_error;
  pe_ack : bool; pe_write : nat → option (nat * put_error);
  pe_sync : option os_error; pe_close : option os_error; pe_rename : option os_error; pe_remove : bool }.

(** [pendingUpload], with the directory; [u_seen] are the states the directory
    has been in. *)
Record pendingUpload := PendingUpload { u_dir : directory; u_tempName : string; u_targetName : string; u_seen : list directory }.

Definition set_dir (d : directory) (u : pendingUpload) : pendingUpload :=
  PendingUpload d (u_tempName u) (u_targetName u) (u_seen u ++ [d]).
Definition forget_temp (u : pendingUpload) : pendingUpload := PendingUpload (u_dir u) "" (u_targetName u) (u_seen u).

Definition temp_name (random : string) : string := ".wanctl-upload-" ++ hex_encode random.

Section device.
Context `{JSON}.

(** The loop of [newPendingUploadIn] that makes the temporary file.  An error
    comes with the states the directory has been in. *)
Fixpoint allocate (tries k : nat) (e : put_env) (perm : Z) (d : directory) (target : string)
  : result (file_error * list directory) pendingUpload :=
  match tries with
  | O => Err (NoTempFile, [d])
  | S tries =>
      match pe_random e k with
      | Err x => Err (OSError x, [d])
      | Ok r =>
          let name := temp_name r in
          match d !! name with
          | Some _ => allocate tries (S k) e perm d target
          | None =>
              match pe_create e k with
              | Some x => Err (OSError x, [d])
              | None =>
                  let made := <[name := File perm ""]> d in
                  match pe_chmod e k with
                  | Some x => Err (OSError x, [d; made] ++ (if pe_remove e then [d] else []))
                  | None => Ok (PendingUpload made name target [d; made])
                  end
              end
          end
      end
  end.

Definition newPendingUpload (e : put_env) (perm : Z) (d : directory) (target : string)
  : result (file_error * list directory) pendingUpload :=
  match pe_admit e with
  | Err x => Err (x, [d])
  | Ok _ => allocate 100 0 e (if perm =? 0 then 420 else perm) d target
  end.

(** [upload.file.Write] *)
Definition upload_write (e : put_env) (k : nat) (p : string) (u : pendingUpload) : option put_error * pendingUpload :=
  match u_dir u !! u_tempName u with
  | Some (File perm c) =>
      match pe_write e k with
      | None => (None, set_dir (<[u_tempName u := File perm (c ++ p)]> (u_dir u)) u)
      | Some (n, x) => (Some x, set_dir (<[u_tempName u := File perm (c ++ stake n p)]> (u_dir u)) u)
      end
  | _ => (Some ShortWrite, u)
  end.

Definition commit (e : put_env) (u : pendingUpload) : option put_error * pendingUpload :=
  match pe_sync e with Some x => (Some (Failed (OSError x)), u) | None =>
  match pe_close e with Some x => (Some (Failed (OSError x)), u) | None =>
  match pe_rename e with Some x => (Some (Failed (OSError x)), u) | None =>
  match u_dir u !! u_tempName u with
  | Some n => (None, forget_temp (set_dir (<[u_targetName u := n]> (delete (u_tempName u) (u_dir u))) u))
  | None => (Some (Failed (OSError NotExist)), u)
  end end end end.

Definition abort (e : put_env) (u : pendingUpload) : pendingUpload :=
  if negb (String.eqb (u_tempName u) "") && pe_remove e
  then forget_temp (set_dir (delete (u_tempName u) (u_dir u)) u) else u.

(** The loop over the frames; [k] counts the writes.  An empty list is a
    connection that ended. *)
Fixpoint put_loop (e : put_env) (size maxSize : Z) (k : nat) (written : Z) (u : pendingUpload) (fs : list frame)
  : list message * pendingUpload :=
  match fs with
  | [] => ([], u)
  | (t, payload) :: fs =>
      if t =? FrameData then
        if (size - written <? zlen payload) || (maxSize - written <? zlen payload) then ([error_message ExceedsDeclared], u)
        else match upload_write e k payload u with
             | (Some x, u) => ([error_message x], u)
             | (None, u) => put_loop e size maxSize (S k) (written + zlen payload) u fs
             end
      else if t =? FrameJSON then
        match unmarshal payload with
        | None => ([error_message ExpectedEOF], u)
        | Some control =>
            if negb (String.eqb (m_Kind control) KindEOF) then ([error_message ExpectedEOF], u)
            else if negb (written =? size) then ([error_message (SizeMismatch written size)], u)
            else match commit e u with
                 | (Some x, u) => ([error_message x], u)
                 | (None, u) => ([ok_message written], u)
                 end
        end
      else ([error_message UnexpectedFrame], u)
  end.

(** [handleFilePut]: the replies, and the states of the directory, the last of
    them the present one. *)
Definition handleFilePut (e : put_env) (m : message) (maxSize : Z) (d : directory) (target : string) (fs : list frame)
  : list message * list directory :=
  if m_Size m <? 0 then ([error_message NegativeSize], [d])
  else if maxSize <? m_Size m then ([error_message (TooBig (m_Size m) maxSize)], [d])
  else match newPendingUpload e (Z.land (m_Mode m) 511) d target with
  | Err (x, seen) => ([error_message (Failed x)], seen)
  | Ok u =>
      if negb (pe_ack e) then ([], u_seen (abort e u))
      else let '(replies, u) := put_loop e (m_Size m) maxSize 0 0 u fs in (ok_message 0 :: replies, u_seen (abort e u))
  end.

(** [HandleFileGet]: the file as it was opened and read, in chunks, and whether
    the reading reached the end. *)
Record get_env := GetEnv { ge_open : result file_error (Z * Z); ge_chunks : list string; ge_end : bool }.

Definition HandleFileGet (e : get_env) : list frame :=
  match ge_open e with
  | Err x => [(FrameJSON, marshal (error_message (Failed x)))]
  | Ok (size, perm) =>
      (FrameJSON, marshal (Message KindFileMeta "" size perm None)) :: ((λ c, (FrameData, c)) <$> ge_chunks e)
      ++ (if ge_end e then [(FrameJSON, marshal eof_message)] else [])
  end.
End device.

(** ** The controller *)

Section controller.
Context `{JSON}.

Definition fileChunk : Z := Z.shiftl 64 10.
Definition pipelinedPutBytes : Z := fileChunk.

Inductive client_error :=
| SizeOutside | Disconnected | NotControl | BadJSON | RemoteRefused (m : message) | Rejected (m : message) | UnexpectedReply (m : message)
| LocalRead | WriteError | WriteFailed (m : message) | WriteMismatch (got want : Z) | LimitInvalid | BadMeta | TooMuch | GetMismatch | UnexpectedGet.

(** [protocol.ReadMessage] on the frames that will still arrive. *)
Definition ReadMessage (fs : list frame) : result client_error (message * list frame) :=
  match fs with
  | [] => Err Disconnected
  | (t, b) :: fs => if negb (t =? FrameJSON) then Err NotControl else match unmarshal b with None => Err BadJSON | Some m => Ok (m, fs) end
  end.

Definition readAck (fs : list frame) : result client_error (list frame) :=
  match ReadMessage fs with
  | Err x => Err x
  | Ok (m, fs) =>
      if String.eqb (m_Kind m) KindError then Err (RemoteRefused m)
      else if String.eqb (m_Kind m) KindReject then Err (Rejected m)
      else if negb (String.eqb (m_Kind m) KindOK) then Err (UnexpectedReply m) else Ok fs
  end.

Definition readDone (size : Z) (fs : list frame) : result client_error unit :=
  match ReadMessage fs with
  | Err x => Err x
  | Ok (m, _) =>
      if String.eqb (m_Kind m) KindError then Err (WriteFailed m)
      else if negb (String.eqb (m_Kind m) KindOK) then Err (UnexpectedReply m)
      else if negb (m_Size m =? size) then Err (WriteMismatch (m_Size m) size) else Ok tt
  end.

(** The source of an upload: the chunks its reader yields, and whether it then
    ends or fails. *)
Record source := Source { s_chunks : list string; s_end : bool }.

Definition put_head (path : string) (size mode : Z) : frame := (FrameJSON, marshal (Message KindFilePut path size mode None)).
Definition data_frames (s : source) : list frame := (λ c, (FrameData, c)) <$> s_chunks s.
Definition eof_frame : frame := (FrameJSON, marshal eof_message).

(** What [pushReader] sends and what it returns; [sendable] is how many frames
    the connection takes, and [replies] is what the device answers. *)
Definition pushReader (path : string) (size mode : Z) (s : source) (sendable : nat) (replies : list frame)
  : list frame * result client_error unit :=
  if (size <? 0) || (MaxFileSize <? size) then ([], Err SizeOutside)
  else
    let pipelined := size <=? pipelinedPutBytes in
    let '(sent, res) :=
      match (if pipelined then Ok replies else readAck replies) with
      | Err x => ([put_head path size mode], Err x)
      | Ok replies =>
          if negb (s_end s) then (put_head path size mode :: data_frames s, Err LocalRead)
          else (put_head path size mode :: data_frames s ++ [eof_frame],
                match (if pipelined then readAck replies else Ok replies) with
                | Err x => Err x
                | Ok replies => readDone size replies
                end)
      end in
    if (sendable <? length sent)%nat then (take sendable sent, Err WriteError) else (sent, res).

(** [bytes.Reader] on the data: full chunks, and the rest. *)
Fixpoint pieces (fuel : nat) (s : string) : list string :=
  match fuel, s with
  | _, EmptyString => []
  | O, _ => []
  | S fuel, _ => stake (Z.to_nat fileChunk) s :: pieces fuel (sdrop (Z.to_nat fileChunk) s)
  end.
Definition PushBytes (path data : string) (mode : Z) (sendable : nat) (replies : list frame) : list frame * result client_error unit :=
  pushReader path (zlen data) (if mode =? 0 then 420 else mode) (Source (pieces (slen data) data) true) sendable replies.

(** [Pull]: what is written to the local file, and whether the whole file came.
    A control frame that is no JSON has no kind. *)
Fixpoint pull_loop (fs : list frame) (got : string) : string * result client_error unit :=
  match fs with
  | [] => (got, Err Disconnected)
  | (t, payload) :: fs =>
      if t =? FrameData then pull_loop fs (got ++ payload)
      else if t =? FrameJSON then
        let kind := match unmarshal payload with Some m => m_Kind m | None => ""%string end in
        if String.eqb kind KindEOF then (got, Ok tt)
        else if String.eqb kind KindError then (got, Err UnexpectedGet) else pull_loop fs got
      else pull_loop fs got
  end.

(** [None]: the local file was not even opened. *)
Definition Pull (fs : list frame) : option string * result client_error unit :=
  match ReadMessage fs with
  | Err x => (None, Err x)
  | Ok (meta, fs) =>
      if String.eqb (m_Kind meta) KindError then (None, Err (RemoteRefused meta))
      else if String.eqb (m_Kind meta) KindReject then (None, Err (Rejected meta))
      else if negb (String.eqb (m_Kind meta) KindFileMeta) then (None, Err (UnexpectedReply meta))
      else let '(got, res) := pull_loop fs "" in (Some got, res)
  end.

Fixpoint bytes_loop (maxBytes size : Z) (fs : list frame) (out : string) : result client_error string :=
  match fs with
  | [] => Err Disconnected
  | (t, payload) :: fs =>
      if t =? FrameData then
        if (maxBytes <? zlen out + zlen payload) || (size <? zlen out + zlen payload) then Err TooMuch
        else bytes_loop maxBytes size fs (out ++ payload)
      else if t =? FrameJSON then
        match unmarshal payload with
        | None => Err BadJSON
        | Some m =>
            if String.eqb (m_Kind m) KindEOF then if negb (zlen out =? size) then Err GetMismatch else Ok out
            else if String.eqb (m_Kind m) KindError then Err (RemoteRefused m) else Err UnexpectedGet
        end
      else Err UnexpectedGet
  end.

Definition PullBytes (maxBytes : Z) (fs : list frame) : result client_error string :=
  if (maxBytes <? 0) || (MaxFileSize <? maxBytes) then Err LimitInvalid
  else match ReadMessage fs with
  | Err x => Err x
  | Ok (meta, fs) =>
      if String.eqb (m_Kind meta) KindReject then Err (Rejected meta)
      else if String.eqb (m_Kind meta) KindError then Err (RemoteRefused meta)
      else if negb (String.eqb (m_Kind meta) KindFileMeta) || (m_Size meta <? 0) || (maxBytes <? m_Size meta) then Err BadMeta
      else bytes_loop maxBytes (m_Size meta) fs ""
  end.
End controller.

(** ** One upload on the device *)

Section upload.
Context `{JSON}.

(** The bytes in front of the first control frame. *)
Fixpoint data_of (fs : list frame) : string :=
  match fs with
  | (t, p) :: fs => if t =? FrameData then p ++ data_of fs else ""
  | [] => ""
  end.

(** A control frame has come. *)
Definition complete (fs : list frame) : bool := existsb (λ f, f.1 =? FrameJSON) fs.

Context (e : put_env) (d0 : directory) (target : string).
Context (fresh : ∀ k r, pe_random e k = Ok r → temp_name r ≠ target).

(** The temporary file holds [c] and nothing else has changed. *)
Record filling (perm : Z) (c : string) (u : pendingUpload) : Prop := {
  fi_temp : u_tempName u ≠ ""%string ∧ u_tempName u ≠ target ∧ d0 !! u_tempName u = None;
  fi_dir : u_dir u = <[u_tempName u := File perm c]> d0;
  fi_target : u_targetName u = target;
  fi_seen : ∀ s, s ∈ u_seen u → s = d0 ∨ ∃ c', s = <[u_tempName u := File perm c']> d0 ∧ zlen c' <= zlen c;
  fi_last : ∃ l, u_seen u = l ++ [u_dir u] }.

Lemma allocate_filling tries k perm :
  match allocate tries k e perm d0 target with
  | Ok u => filling perm "" u
  | Err (_, seen) => ∀ s, s ∈ seen → s = d0 ∨ ∃ name, name ≠ target ∧ d0 !! name = None ∧ s = <[name := File perm ""]> d0
  end.
Proof.
  revert k. induction tries as [|tries IH]; intros k; cbn [allocate]; [intros s ->%list_elem_of_singleton; by left|].
  destruct (pe_random e k) as [r|] eqn:R; [|intros s ->%list_elem_of_singleton; by left].
  destruct (d0 !! temp_name r) as [n|] eqn:D; [apply IH|].
  destruct (pe_create e k); [intros s ->%list_elem_of_singleton; by left|].
  destruct (pe_chmod e k).
  - intros s Is. assert (s = d0 ∨ s = <[temp_name r := File perm ""]> d0) as [->| ->]; [|by left|right; exists (temp_name r); eauto].
    apply elem_of_app in Is as [Is|Is]; [rewrite !elem_of_cons in Is; set_solver|destruct (pe_remove e); set_solver].
  - split; simpl.
    + split_and!; [by unfold temp_name|by eapply fresh|done].
    + done.
    + done.
    + intros s Is. rewrite !elem_of_cons in Is. destruct Is as [->|[->|[]%elem_of_nil]]; [by left|]. right. by exists ""%string.
    + by exists [d0].
Qed.

Lemma allocate_last tries k perm x seen :
  allocate tries k e perm d0 target = Err (x, seen) → pe_remove e = true → last seen = Some d0.
Proof.
  intros A R. revert k A. induction tries as [|tries IH]; intros k; cbn [allocate]; [by intros [= _ <-]|].
  destruct (pe_random e k) as [r|]; [|by intros [= _ <-]]. destruct (d0 !! temp_name r); [apply IH|].
  destruct (pe_create e k); [by intros [= _ <-]|]. destruct (pe_chmod e k); [|done]. rewrite R. by intros [= _ <-].
Qed.

Lemma upload_write_filling perm c k p u :
  filling perm c u →
  ∃ c' u', upload_write e k p u = (match pe_write e k with None => None | Some (_, x) => Some x end, u') ∧
    filling perm c' u' ∧ u_tempName u' = u_tempName u ∧ zlen c <= zlen c' <= zlen c + zlen p ∧
    (pe_write e k = None → c' = (c ++ p)%string).
Proof.
  intros [(Ne & Nt & Nd) Dir Tg Seen (l & Last)]. unfold upload_write. rewrite Dir, lookup_insert_eq.
  assert (∀ q, zlen c <= zlen (c ++ q)) as Gr by (intros q; rewrite zlen_app; pose proof (zlen_nonneg q); lia).
  assert (∀ q, filling perm (c ++ q) (set_dir (<[u_tempName u := File perm (c ++ q)]> (<[u_tempName u := File perm c]> d0)) u)) as K.
  { intros q. split; simpl; [done|by rewrite insert_insert_eq|done| |eauto].
    intros s [Is|Is]%elem_of_app.
    - destruct (Seen s Is) as [->|(c' & -> & Le)]; [by left|]. right. exists c'. split; [done|]. specialize (Gr q). lia.
    - apply list_elem_of_singleton in Is as ->. right. exists (c ++ q)%string. split; [by rewrite insert_insert_eq|lia]. }
  destruct (pe_write e k) as [[n x]|].
  - exists (c ++ stake n p)%string. eexists. split; [done|]. split; [apply K|]. split; [done|]. split; [|done].
    split; [apply Gr|]. rewrite zlen_app. unfold zlen. rewrite slen_stake. lia.
  - exists (c ++ p)%string. eexists. split; [done|]. split; [apply K|]. split; [done|]. split; [|done].
    split; [apply Gr|]. rewrite zlen_app. lia.
Qed.

(** How a transfer ends: not done, with the target as it was, or done. *)
Definition untouched (perm bound : Z) (u : pendingUpload) : Prop := ∃ c, filling perm c u ∧ zlen c <= bound.
Definition replaced (perm : Z) (c : string) (u : pendingUpload) : Prop :=
  u_tempName u = ""%string ∧ u_dir u = <[target := File perm c]> d0 ∧ (∃ l, u_seen u = l ++ [u_dir u] ∧
    ∀ s, s ∈ l → s = d0 ∨ ∃ name c', name ≠ target ∧ d0 !! name = None ∧ s = <[name := File perm c']> d0 ∧ zlen c' <= zlen c).

Lemma commit_spec perm c u : filling perm c u →
  (∃ x, commit e u = (Some x, u)) ∨
  ∃ u', commit e u = (None, u') ∧ pe_sync e = None ∧ pe_close e = None ∧ pe_rename e = None ∧ replaced perm c u'.
Proof.
  intros [(Ne & Nt & Nd) Dir Tg Seen (l & Last)]. unfold commit.
  destruct (pe_sync e); [eauto|]. destruct (pe_close e); [eauto|]. destruct (pe_rename e); [eauto|].
  rewrite Dir, lookup_insert_eq. right. eexists. split_and!; try done. unfold replaced. simpl. split_and!; [done| |].
  - by rewrite Tg, delete_insert_id.
  - rewrite Tg, delete_insert_id by done. exists (u_seen u). split; [done|]. intros s Is.
    destruct (Seen s Is) as [->|(c' & -> & Le)]; [by left|]. right. exists (u_tempName u), c'. by split_and!.
Qed.

Lemma put_loop_spec size maxSize perm fs : ∀ k c u,
  filling perm c u → zlen c <= size →
  let '(replies, u') := put_loop e size maxSize k (zlen c) u fs in
  (∃ x, replies = [] ∨ replies = [error_message x]) ∧ untouched perm size u' ∨
  replies = [ok_message size] ∧ complete fs = true ∧ zlen (c ++ data_of fs) = size ∧ replaced perm (c ++ data_of fs) u'.
Proof.
  induction fs as [|[t p] fs IH]; intros k c u F L; unfold complete; cbn [put_loop data_of existsb fst].
  { left. split; [exists ShortWrite; by left|]. by exists c. }
  assert (untouched perm size u) as Un by (by exists c).
  destruct (Z.eqb_spec t FrameData) as [->|Nt].
  - destruct (Z.ltb_spec (size - zlen c) (zlen p)); [simpl; left; eauto|]. simpl. destruct (maxSize - zlen c <? zlen p); [left; eauto|].
    destruct (upload_write_filling perm c k p u F) as (c' & u' & -> & F' & _ & R & E). pose proof (zlen_nonneg p).
    destruct (pe_write e k) as [[n x]|].
    + left. split; [eauto|]. exists c'. split; [done|lia].
    + rewrite E in F' by done. rewrite <- zlen_app. specialize (IH (S k) (c ++ p)%string u' F' ltac:(rewrite zlen_app; lia)).
      rewrite (app_assoc_s c). exact IH.
  - rewrite app_nil_s. destruct (t =? FrameJSON); [|left; eauto]. simpl orb. destruct (unmarshal p) as [m|]; [|left; eauto].
    destruct (negb (String.eqb (m_Kind m) KindEOF)); [left; eauto|]. destruct (Z.eqb_spec (zlen c) size) as [Ez|]; [|left; eauto]. simpl.
    destruct (commit_spec perm c u F) as [(x & ->)|(u' & -> & _ & _ & _ & R)]; [left; eauto|]. right. by rewrite Ez.
Qed.

Lemma abort_untouched perm bound u : untouched perm bound u →
  (∃ l, u_seen (abort e u) = l ++ [u_dir (abort e u)]) ∧
  (∀ s, s ∈ u_seen (abort e u) → s = d0 ∨ ∃ name c, name ≠ target ∧ d0 !! name = None ∧ s = <[name := File perm c]> d0 ∧ zlen c <= bound) ∧
  (pe_remove e = true → u_dir (abort e u) = d0).
Proof.
  intros (c & [(Ne & Nt & Nd) Dir Tg Seen (l & Last)] & L). unfold abort. rewrite (proj2 (String.eqb_neq _ _) Ne). simpl.
  assert (∀ s, s ∈ u_seen u → s = d0 ∨ ∃ name c, name ≠ target ∧ d0 !! name = None ∧ s = <[name := File perm c]> d0 ∧ zlen c <= bound) as K.
  { intros s Is. destruct (Seen s Is) as [->|(c' & -> & Le)]; [by left|]. right. exists (u_tempName u), c'. split_and!; try done. lia. }
  destruct (pe_remove e); simpl.
  - split; [eauto|]. rewrite Dir, delete_insert_id by done. split; [|done]. intros s [Is|Is]%elem_of_app; [by apply K|].
    apply list_elem_of_singleton in Is as ->. by left.
  - split; [eauto|]. split; [exact K|done].
Qed.

Definition put_perm (m : message) : Z := let p := Z.land (m_Mode m) 511 in if p =? 0 then 420 else p.

(** A state in which, at most, a temporary file of at most [bound] bytes has been
    added. *)
Definition as_before (perm bound : Z) (s : directory) : Prop :=
  s = d0 ∨ ∃ name c, name ≠ target ∧ d0 !! name = None ∧ s = <[name := File perm c]> d0 ∧ zlen c <= bound.

Lemma handleFilePut_spec m maxSize fs :
  let '(replies, seen) := handleFilePut e m maxSize d0 target fs in
  ((replies = [] ∨ replies = [ok_message 0] ∨ ∃ x, replies = [error_message x] ∨ replies = [ok_message 0; error_message x]) ∧
   (∀ s, s ∈ seen → as_before (put_perm m) (Z.max 0 (m_Size m)) s) ∧ (pe_remove e = true → last seen = Some d0)) ∨
  (replies = [ok_message 0; ok_message (m_Size m)] ∧ complete fs = true ∧ zlen (data_of fs) = m_Size m ∧ m_Size m <= maxSize ∧
   ∃ l, seen = l ++ [<[target := File (put_perm m) (data_of fs)]> d0] ∧ ∀ s, s ∈ l → as_before (put_perm m) (m_Size m) s).
Proof.
  unfold handleFilePut. set (perm := put_perm m).
  assert (∀ b s, s ∈ [d0] → as_before perm b s) as One by (intros b s ->%list_elem_of_singleton; by left).
  destruct (Z.ltb_spec (m_Size m) 0); [left; split; [eauto|]; split; [apply One|done]|].
  destruct (Z.ltb_spec maxSize (m_Size m)); [left; split; [eauto|]; split; [apply One|done]|].
  unfold newPendingUpload. change (if Z.land (m_Mode m) 511 =? 0 then 420 else Z.land (m_Mode m) 511) with perm.
  destruct (pe_admit e) as [ex|x]; [|left; split; [eauto|]; split; [apply One|done]].
  pose proof (allocate_filling 100 0 perm) as A. rewrite Z.max_r by done.
  destruct (allocate 100 0 e perm d0 target) as [u|[x seen]] eqn:Al.
  2: { left. split; [eauto|]. split.
       - intros s Is. destruct (A s Is) as [->|(name & N & D & ->)]; [by left|]. right. exists name, ""%string. done.
       - intros Rm. by eapply allocate_last. }
  destruct (pe_ack e); simpl negb; cbn match.
  2: { left. split; [eauto|]. destruct (abort_untouched perm (m_Size m) u) as ((l & E) & S & Rm); [by exists ""%string|].
       split; [exact S|]. intros R. rewrite E, last_snoc. f_equal. by apply Rm. }
  pose proof (put_loop_spec (m_Size m) maxSize perm fs 0 "" u A ltac:(done)) as P. change (zlen "") with 0 in P.
  destruct (put_loop e (m_Size m) maxSize 0 0 u fs) as [replies u'].
  destruct P as [[(x & R) U]|(-> & Co & Z & (Tn & D & l & E & S))].
  - left. split; [destruct R as [-> | ->]; eauto|]. destruct (abort_untouched perm (m_Size m) u' U) as ((l & E) & S & Rm).
    split; [exact S|]. intros R'. rewrite E, last_snoc. f_equal. by apply Rm.
  - right. split_and!; try done. unfold abort. rewrite Tn. simpl. exists l. rewrite E, D. split; [done|].
    intros s Is. rewrite <- Z. apply S, Is.
Qed.
End upload.

(** C27: an upload replaces its target at once, and only with what was declared.
    However the frames come and whatever fails, in every state the directory is
    in, the target is what it was, or holds exactly the declared number of bytes
    that were sent, with the mode asked for; the second only when the device then
    says so.  Nothing else of the directory changes but for one temporary file,
    never larger than declared, which is removed unless removing itself fails. *)
Theorem upload_is_atomic `{JSON} e m maxSize d target fs :
  (∀ k r, pe_random e k = Ok r → temp_name r ≠ target) →
  let '(replies, seen) := handleFilePut e m maxSize d target fs in
  (∀ s, s ∈ seen →
     as_before d target (put_perm m) (Z.max 0 (m_Size m)) s ∨
     replies = [ok_message 0; ok_message (m_Size m)] ∧ s = <[target := File (put_perm m) (data_of fs)]> d ∧
     zlen (data_of fs) = m_Size m ∧ m_Size m <= maxSize) ∧
  (∀ n, replies = [ok_message 0; ok_message n] → last seen = Some (<[target := File (put_perm m) (data_of fs)]> d)) ∧
  ((∀ n, replies ≠ [ok_message 0; ok_message n]) → pe_remove e = true → last seen = Some d).
Proof.
  intros F. pose proof (handleFilePut_spec e d target F m maxSize fs) as S. destruct (handleFilePut e m maxSize d target fs) as [replies seen].
  destruct S as [(R & B & Rm)|(-> & Co & Z & Le & l & -> & B)].
  - assert (∀ n, replies ≠ [ok_message 0; ok_message n]) as N.
    { intros n E. rewrite E in R. destruct R as [?|[?|(x & [?|[= R]])]]; done. }
    split_and!; [intros s I; left; by apply B|intros n E; by destruct (N n)|by intros _].
  - split_and!.
    + intros s [Is|Is]%elem_of_app; [|right; by apply list_elem_of_singleton in Is as ->].
      left. destruct (B s Is) as [->|(name & c & ? & ? & ? & ?)]; [by left|]. right. exists name, c. split_and!; try done. lia.
    + intros n _. by rewrite last_snoc.
    + intros N. by destruct (N (m_Size m)).
Qed.

Section delivery.
Context `{JSONLaws}.

Definition as_frame (m : message) : frame := (FrameJSON, marshal m).

Lemma ReadMessage_written x l : sforall graphic (m_Kind x) = true → 0 <= m_Size x < 2 ^ 63 →
  ∃ m', ReadMessage (as_frame x :: l) = Ok (m', l) ∧ m_Kind m' = m_Kind x ∧ m_Size m' = m_Size x.
Proof.
  intros G R. destruct (unmarshal_marshal x G R) as (m' & U & K & S). exists m'. unfold ReadMessage, as_frame.
  change (negb (FrameJSON =? FrameJSON)) with false. cbn match. by rewrite U.
Qed.

Lemma readAck_rest f l l' : readAck (f :: l) = Ok l' → l' = l.
Proof.
  destruct f as [t b]. unfold readAck, ReadMessage. destruct (negb (t =? FrameJSON)); [done|]. destruct (unmarshal b); [|done].
  repeat (case_match; try done). congruence.
Qed.

Lemma data_of_frames s l : data_of (data_frames s ++ l) = (String.concat "" (s_chunks s) ++ data_of l)%string.
Proof.
  unfold data_frames. induction (s_chunks s) as [|c cs IH]; [done|]. cbn [fmap list_fmap app data_of].
  change (FrameData =? FrameData) with true. cbn match. rewrite IH.
  assert (String.concat "" (c :: cs) = c ++ String.concat "" cs)%string as -> by (destruct cs; simpl; [by rewrite app_nil_s|done]).
  apply app_assoc_s.
Qed.

Lemma incomplete_data s k : complete (take k (data_frames s)) = false.
Proof.
  unfold data_frames. revert k. induction (s_chunks s) as [|c cs IH]; intros [|k]; try done. simpl. apply IH.
Qed.

Lemma complete_all s ins :
  ins `prefix_of` data_frames s ++ [eof_frame] → complete ins = true → ins = data_frames s ++ [eof_frame].
Proof.
  intros [l E] C. destruct l as [|x l _] using rev_ind; [by rewrite app_nil_r in E|]. exfalso.
  rewrite app_assoc in E. apply app_inj_tail in E as [E _].
  assert (ins = take (length ins) (data_frames s)) as Q by (by rewrite E, take_app_length).
  rewrite Q, incomplete_data in C. done.
Qed.

(** What the controller sends after the request is a beginning of the data and
    the end of it. *)
Lemma pushReader_sends path size mode s sendable replies :
  let '(sent, res) := pushReader path size mode s sendable replies in
  tail sent `prefix_of` data_frames s ++ [eof_frame] ∧
  (res = Ok tt → 0 <= size <= MaxFileSize ∧ ∃ r1 r2, (readAck r1 = Ok r2) ∧ r1 = replies ∧ readDone size r2 = Ok tt).
Proof.
  unfold pushReader. destruct ((size <? 0) || (MaxFileSize <? size)) eqn:B; [split; [apply prefix_nil|done]|].
  apply orb_false_iff in B as [B1%Z.ltb_ge B2%Z.ltb_ge]. set (head := put_head path size mode).
  assert (∀ l k, tail (take k (head :: l)) `prefix_of` l) as T.
  { intros l [|k]; [apply prefix_nil|]. simpl. exists (drop k l). by rewrite take_drop. }
  assert (∀ sent res, tail sent `prefix_of` data_frames s ++ [eof_frame] → (∀ k, tail (take k sent) `prefix_of` data_frames s ++ [eof_frame]) →
    (res = Ok tt → ∃ r2, readAck replies = Ok r2 ∧ readDone size r2 = Ok tt) →
    let '(sent', res') := if (sendable <? length sent)%nat then (take sendable sent, Err WriteError) else (sent, res) in
    tail sent' `prefix_of` data_frames s ++ [eof_frame] ∧
    (res' = Ok tt → 0 <= size <= MaxFileSize ∧ ∃ r1 r2, readAck r1 = Ok r2 ∧ r1 = replies ∧ readDone size r2 = Ok tt)) as Fin.
  { intros sent res P1 P2 P3. destruct (sendable <? length sent)%nat; [split; [apply P2|done]|]. split; [exact P1|].
    intros E. destruct (P3 E) as (r2 & A & D). split; [done|]. eauto. }
  assert (data_frames s `prefix_of` data_frames s ++ [eof_frame]) as Pd by (by eexists).
  assert (∀ k l, l `prefix_of` data_frames s ++ [eof_frame] → tail (take k (head :: l)) `prefix_of` data_frames s ++ [eof_frame]) as T'.
  { intros k l P. by etrans; [apply T|]. }
  destruct (size <=? pipelinedPutBytes).
  - destruct (s_end s); simpl negb; cbn match; apply Fin; try done; try (intros k; by apply T').
    destruct (readAck replies) as [r2|]; [eauto|done].
  - destruct (readAck replies) as [r2|x] eqn:A.
    2: { apply Fin; [apply prefix_nil|intros k; apply T', prefix_nil|done]. }
    destruct (s_end s); simpl negb; cbn match; apply Fin; try done; try (intros k; by apply T'). eauto.
Qed.

(** C28: an upload that succeeds has delivered the file.  Let a controller push a
    source and the device serve it, over a connection that may break anywhere:
    the device sees a beginning of what was sent, the controller a beginning of
    the answers.  If the controller reports success, the target holds exactly
    the bytes of the source, and they are as many as it declared; if it reports
    an error, the target holds that, or what it held before. *)
Theorem push_delivers path size mode s sendable replies e d target ins m :
  (∀ k r, pe_random e k = Ok r → temp_name r ≠ target) →
  unmarshal (put_head path size mode).2 = Some m → 0 <= size < 2 ^ 63 → m_Size m = size →
  let '(sent, res) := pushReader path size mode s sendable replies in
  let '(out, seen) := handleFilePut e m MaxFileSize d target ins in
  ins `prefix_of` tail sent → replies `prefix_of` (as_frame <$> out) →
  let whole := Some (File (put_perm m) (String.concat "" (s_chunks s))) in
  (∀ dir, last seen = Some dir → dir !! target = d !! target ∨ dir !! target = whole) ∧
  (res = Ok tt → ∃ dir, last seen = Some dir ∧ dir !! target = whole ∧ zlen (String.concat "" (s_chunks s)) = size).
Proof.
  intros F U Sz Em. pose proof (pushReader_sends path size mode s sendable replies) as P.
  destruct (pushReader path size mode s sendable replies) as [sent res]. destruct P as [Ps Pr].
  pose proof (handleFilePut_spec e d target F m MaxFileSize ins) as S. destruct (handleFilePut e m MaxFileSize d target ins) as [out seen].
  intros Pi Po. cbn zeta. assert (ins `prefix_of` data_frames s ++ [eof_frame]) as Pa by (by etrans).
  destruct S as [(R & B & _)|(-> & Co & Z & _ & l & -> & _)].
  - split.
    { intros dir L. left. destruct (B dir) as [->|(name & c & N & D & -> & _)]; [|done|by rewrite lookup_insert_ne].
      apply last_Some in L as [l ->]. set_solver. }
    intros Er. exfalso. destruct (Pr Er) as (_ & r1 & r2 & A & -> & D). unfold readAck in A.
    assert (∀ x, m_Kind (error_message x) = KindError) as Ke by done.
    assert (∀ x l, ∃ m', ReadMessage (as_frame (error_message x) :: l) = Ok (m', l) ∧ m_Kind m' = KindError) as Re.
    { intros x l. destruct (ReadMessage_written (error_message x) l) as (m' & ? & ? & _); [done|done|]. eauto. }
    destruct Po as [rest Po]. destruct replies as [|y ys]; [done|].
    destruct R as [->|[->|(x & [-> | ->])]]; rewrite ?fmap_cons, ?fmap_nil in Po; try done; injection Po as Ey Po; subst y.
    + symmetry in Po. apply app_eq_nil in Po as [-> ->].
      apply readAck_rest in A as ->. done.
    + destruct (Re x ys) as (m' & E1 & K1). rewrite E1, K1 in A. done.
    + destruct (ReadMessage_written (ok_message 0) ys) as (m' & E1 & K1 & _); [done|done|]. rewrite E1, K1 in A. simpl in A. injection A as <-.
      unfold readDone in D. destruct ys as [|z zs]; [done|]. injection Po as Ez Po; subst z.
      destruct (Re x zs) as (m2 & E2 & K2). rewrite E2, K2 in D. done.
  - apply (complete_all s) in Co as ->; [|done]. rewrite data_of_frames, app_nil_s in *.
    split; [intros dir; rewrite last_snoc; intros [= <-]; right; by rewrite lookup_insert_eq|].
    intros _. eexists. rewrite last_snoc. split; [done|]. rewrite lookup_insert_eq. split; [done|]. congruence.
Qed.


(** Nothing fails on the device. *)
Record works (e : put_env) (d : directory) : Prop := {
  wk_admit : ∃ ex, pe_admit e = Ok ex;
  wk_temp : ∃ r, pe_random e 0 = Ok r ∧ d !! temp_name r = None;
  wk_make : pe_create e 0 = None ∧ pe_chmod e 0 = None ∧ pe_ack e = true;
  wk_write : ∀ k, pe_write e k = None;
  wk_end : pe_sync e = None ∧ pe_close e = None ∧ pe_rename e = None }.

Lemma put_loop_all e d target size perm c u k s :
  (∀ k, pe_write e k = None) → (pe_sync e = None ∧ pe_close e = None ∧ pe_rename e = None) →
  filling d target perm c u → zlen (c ++ String.concat "" (s_chunks s)) = size → size <= MaxFileSize →
  (put_loop e size MaxFileSize k (zlen c) u (data_frames s ++ [eof_frame])).1 = [ok_message size].
Proof.
  intros W (E1 & E2 & E3) F Z L. unfold data_frames. revert k c u F Z. induction (s_chunks s) as [|p cs IH]; intros k c u F Z.
  - simpl in Z. rewrite app_nil_s in Z. cbn [fmap list_fmap app put_loop]. unfold eof_frame.
    change (FrameJSON =? FrameData) with false. change (FrameJSON =? FrameJSON) with true. cbn match.
    destruct (unmarshal_marshal eof_message eq_refl) as (m' & U & K & _); [simpl; lia|]. rewrite U, K. simpl (negb _).
    rewrite Z, Z.eqb_refl. simpl (negb _). cbn match.
    destruct (commit_spec e d target perm c u F) as [(x & C)|(u' & -> & _)]; [|done]. exfalso.
    unfold commit in C. rewrite E1, E2, E3 in C. destruct F as [_ Dir _ _ _]. rewrite Dir, lookup_insert_eq in C. done.
  - assert (String.concat "" (p :: cs) = p ++ String.concat "" cs)%string as Q by (destruct cs; simpl; [by rewrite app_nil_s|done]).
    rewrite Q in Z. rewrite (app_assoc_s c) in Z. cbn [fmap list_fmap app put_loop]. change (FrameData =? FrameData) with true. cbn match.
    pose proof Z as Z'. rewrite !zlen_app in Z'. pose proof (zlen_nonneg (String.concat "" cs)). pose proof (zlen_nonneg p).
    destruct (Z.ltb_spec (size - zlen c) (zlen p)); [lia|]. destruct (Z.ltb_spec (MaxFileSize - zlen c) (zlen p)); [lia|]. simpl orb. cbn match.
    destruct (upload_write_filling e d target perm c k p u F) as (c' & u' & -> & F' & _ & _ & Ec). rewrite W in *. rewrite Ec in F' by done.
    rewrite <- zlen_app. by apply IH.
Qed.

(** When nothing fails, an upload goes through, whether or not the controller
    waits for the go-ahead: the device answers with the size, and the controller
    reports success. *)
Lemma push_succeeds path size mode s sendable e d target m :
  (∀ k r, pe_random e k = Ok r → temp_name r ≠ target) → works e d →
  m_Size m = size → zlen (String.concat "" (s_chunks s)) = size → size <= MaxFileSize → s_end s = true →
  (S (S (length (s_chunks s))) <= sendable)%nat →
  let answers := [ok_message 0; ok_message size] in
  let '(sent, res) := pushReader path size mode s sendable (as_frame <$> answers) in
  res = Ok tt ∧ (handleFilePut e m MaxFileSize d target (tail sent)).1 = answers.
Proof.
  intros F [(ex & Wa) (r & Wr & Wd) (Wc & Wm & Wk) Ww We] Em Z L En Cap. pose proof (zlen_nonneg (String.concat "" (s_chunks s))) as Pos.
  cbn zeta. assert (pushReader path size mode s sendable (as_frame <$> [ok_message 0; ok_message size])
    = (put_head path size mode :: data_frames s ++ [eof_frame], Ok tt)) as ->.
  { assert (∀ l, readAck (as_frame (ok_message 0) :: l) = Ok l) as Ack.
    { intros l. unfold readAck. destruct (ReadMessage_written (ok_message 0) l) as (m' & -> & K & _); [done|done|]. by rewrite K. }
    assert (∀ l, readDone size (as_frame (ok_message size) :: l) = Ok tt) as Done.
    { intros l. unfold readDone. destruct (ReadMessage_written (ok_message size) l) as (m' & -> & K & Sm); [done| |].
      - change MaxFileSize with (2 ^ 30) in L. simpl m_Size. lia.
      - rewrite K, Sm. simpl. by rewrite Z.eqb_refl. }
    assert ((sendable <? length (put_head path size mode :: data_frames s ++ [eof_frame]))%nat = false) as Cap'.
    { apply Nat.ltb_ge. simpl. rewrite length_app. unfold data_frames. rewrite length_fmap. simpl. lia. }
    unfold pushReader. destruct (Z.ltb_spec size 0); [lia|]. destruct (Z.ltb_spec MaxFileSize size); [lia|]. simpl orb. cbn match.
    rewrite En, !fmap_cons, fmap_nil. destruct (size <=? pipelinedPutBytes); rewrite !Ack; simpl negb; cbn match; rewrite ?Ack, Done, Cap'; done. }
  split; [done|]. cbn [tail]. unfold handleFilePut. rewrite Em. destruct (Z.ltb_spec size 0); [lia|]. destruct (Z.ltb_spec MaxFileSize size); [lia|].
  unfold newPendingUpload. rewrite Wa. set (perm := if Z.land _ _ =? 0 then _ else _).
  pose proof (allocate_filling e d target F 100 0 perm) as A. change 100%nat with (S 99) in *. cbn [allocate] in *. rewrite Wr, Wd, Wc, Wm in *.
  rewrite Wk. simpl negb. cbn match. change 0 with (zlen "") at 1.
  pose proof (put_loop_all e d target size perm "" _ 0 s Ww We A Z L) as P. change (zlen "") with 0 in *.
  destruct (put_loop e size MaxFileSize 0 0 _ _) as [replies u']. simpl in P. by rewrite P.
Qed.

(** ** Downloads *)

Lemma pull_prefix chunks tl fs got : fs `prefix_of` ((λ c, (FrameData, c)) <$> chunks) ++ tl → 
  (∃ k, fs = take k ((λ c, (FrameData, c)) <$> chunks) ∧ (k <= length chunks)%nat ∧ pull_loop fs got = ((got ++ String.concat "" (take k chunks))%string, Err Disconnected)) ∨
  ∃ fs', fs = ((λ c, (FrameData, c)) <$> chunks) ++ fs' ∧ fs' `prefix_of` tl ∧ pull_loop fs got = pull_loop fs' (got ++ String.concat "" chunks).
Proof.
  revert fs got. induction chunks as [|c cs IH]; intros fs got P.
  - right. exists fs. split; [done|]. split; [exact P|]. simpl. by rewrite app_nil_s.
  - assert (∀ l, String.concat "" (c :: l) = c ++ String.concat "" l)%string as Q by (intros l; destruct l; simpl; [by rewrite app_nil_s|done]).
    destruct fs as [|f fs]; [left; exists 0%nat; simpl; split; [done|]; split; [lia|by rewrite app_nil_s]|].
    cbn [fmap list_fmap app] in P. pose proof (prefix_cons_inv_1 _ _ _ _ P) as ->. apply prefix_cons_inv_2 in P.
    cbn [pull_loop fmap list_fmap]. change (FrameData =? FrameData) with true. cbn match.
    destruct (IH fs (got ++ c)%string P) as [(k & E1 & Lk & E2)|(fs' & E1 & E2 & E3)].
    + left. exists (S k). rewrite E1 at 1. split; [done|]. split; [simpl; lia|]. rewrite E2. cbn [take]. rewrite Q. by rewrite app_assoc_s.
    + right. exists fs'. rewrite E1 at 1. split; [done|]. split; [done|]. rewrite E3, Q. by rewrite app_assoc_s.
Qed.

Lemma bytes_loop_pull maxBytes size fs acc out :
  bytes_loop maxBytes size fs acc = Ok out → pull_loop fs acc = (out, Ok tt) ∧ zlen out = size.
Proof.
  revert acc. induction fs as [|[t p] fs IH]; intros acc; cbn [bytes_loop pull_loop]; [done|].
  destruct (t =? FrameData); [destruct (_ || _); [done|apply IH]|]. destruct (t =? FrameJSON); [|done].
  destruct (unmarshal p) as [m|]; [|done]. destruct (String.eqb (m_Kind m) KindEOF); [|by destruct (String.eqb _ _)].
  destruct (Z.eqb_spec (zlen acc) size); [|done]. by intros [= <-].
Qed.

Lemma bytes_loop_all maxBytes size chunks acc :
  zlen (acc ++ String.concat "" chunks) = size → size <= maxBytes →
  bytes_loop maxBytes size (((λ c, (FrameData, c)) <$> chunks) ++ [eof_frame]) acc = Ok (acc ++ String.concat "" chunks)%string.
Proof.
  revert acc. induction chunks as [|c cs IH]; intros acc Z L.
  - simpl in *. rewrite app_nil_s in *. unfold eof_frame. change (FrameJSON =? FrameData) with false. change (FrameJSON =? FrameJSON) with true. cbn match.
    destruct (unmarshal_marshal eof_message eq_refl) as (m' & -> & -> & _); [simpl; lia|]. simpl. by rewrite Z, Z.eqb_refl.
  - assert (String.concat "" (c :: cs) = c ++ String.concat "" cs)%string as Q by (destruct cs; simpl; [by rewrite app_nil_s|done]).
    rewrite Q, (app_assoc_s acc) in *. cbn [fmap list_fmap app bytes_loop]. change (FrameData =? FrameData) with true. cbn match.
    pose proof Z as Z'. rewrite !zlen_app in Z'. pose proof (zlen_nonneg (String.concat "" cs)).
    destruct (Z.ltb_spec maxBytes (zlen acc + zlen c)); [lia|]. destruct (Z.ltb_spec size (zlen acc + zlen c)); [lia|]. by apply IH.
Qed.

(** The frames of a device that opened the file. *)
Lemma get_frames e size perm fs :
  ge_open e = Ok (size, perm) → 0 <= size < 2 ^ 63 → fs `prefix_of` HandleFileGet e →
  fs = [] ∨ ∃ meta fs', ReadMessage fs = Ok (meta, fs') ∧ m_Kind meta = KindFileMeta ∧ m_Size meta = size ∧
    fs' `prefix_of` ((λ c, (FrameData, c)) <$> ge_chunks e) ++ (if ge_end e then [eof_frame] else []) ∧
    (fs = HandleFileGet e → fs' = ((λ c, (FrameData, c)) <$> ge_chunks e) ++ (if ge_end e then [eof_frame] else [])).
Proof.
  intros O R P. unfold HandleFileGet in *. rewrite O in *. destruct fs as [|f fs]; [by left|right].
  pose proof (prefix_cons_inv_1 _ _ _ _ P) as ->. apply prefix_cons_inv_2 in P.
  destruct (ReadMessage_written (Message KindFileMeta "" size perm None) fs) as (m' & E & K & S); [done|done|].
  exists m', fs. split; [exact E|]. split; [done|]. split; [done|]. split; [exact P|]. by intros [= ->].
Qed.

Lemma Pull_meta fs meta fs' : ReadMessage fs = Ok (meta, fs') → m_Kind meta = KindFileMeta →
  Pull fs = (let '(got, res) := pull_loop fs' "" in (Some got, res)).
Proof. intros E K. unfold Pull. by rewrite E, K. Qed.

Lemma Pull_not_opened e x fs got res : ge_open e = Err x → fs `prefix_of` HandleFileGet e → Pull fs ≠ (Some got, res) ∧ ∀ n out, PullBytes n fs ≠ Ok out.
Proof.
  intros O P. unfold HandleFileGet in P. rewrite O in P. destruct fs as [|f fs].
  { split; [done|]. intros n out. unfold PullBytes. by destruct (_ || _). }
  pose proof (prefix_cons_inv_1 _ _ _ _ P) as ->.
  destruct (ReadMessage_written (error_message (Failed x)) fs) as (m' & E & K & _); [done|done|]. unfold as_frame in E.
  split; [unfold Pull|intros n out; unfold PullBytes; destruct (_ || _); [done|]]; rewrite E, K; done.
Qed.

(** A download that succeeds is the whole file.  Whatever beginning of the
    device's frames reaches the controller, a download that reports success has
    all the bytes the device read, up to the end of the file; a bounded one has
    as many as the device announced and no more than the caller allowed.  One
    that fails leaves at most a beginning of the file; and one whose frames all
    arrive succeeds. *)
Lemma download_is_complete e fs maxBytes :
  (∀ size perm, ge_open e = Ok (size, perm) → 0 <= size < 2 ^ 63) → fs `prefix_of` HandleFileGet e →
  let whole := String.concat "" (ge_chunks e) in
  (∀ got res, Pull fs = (Some got, res) → (∃ rest, whole = got ++ rest)%string ∧ (res = Ok tt → got = whole ∧ ge_end e = true)) ∧
  (∀ out, PullBytes maxBytes fs = Ok out → out = whole ∧ ge_end e = true ∧ zlen out <= maxBytes ∧ ∃ perm, ge_open e = Ok (zlen out, perm)) ∧
  (∀ size perm, fs = HandleFileGet e → ge_end e = true → ge_open e = Ok (size, perm) →
     Pull fs = (Some whole, Ok tt) ∧ (size = zlen whole → size <= maxBytes <= MaxFileSize → PullBytes maxBytes fs = Ok whole)).
Proof.
  intros Rg P whole. destruct (ge_open e) as [[size perm]|x] eqn:O.
  2: { split_and!; [intros got res H'; by destruct (Pull_not_opened e x fs got res O P)|intros out H'; by destruct (Pull_not_opened e x fs ""%string (Ok tt) O P) as [_ B]; destruct (B _ _ H')|done]. }
  destruct (get_frames e size perm fs O (Rg size perm eq_refl) P) as [->|(meta & fs' & E & K & S & P' & Full)].
  { split_and!; [done|intros out; unfold PullBytes; by destruct (_ || _)|]. intros s p F. unfold HandleFileGet in F. rewrite O in F. done. }
  assert (∀ got res, pull_loop fs' "" = (got, res) → (∃ rest, whole = got ++ rest)%string ∧ (res = Ok tt → got = whole ∧ ge_end e = true)) as L.
  { intros got res G. destruct (pull_prefix _ _ _ ""%string P') as [(k & _ & _ & E2)|(fs2 & _ & P2 & E3)].
    - rewrite E2 in G. injection G as <- <-. split; [|done]. exists (String.concat "" (drop k (ge_chunks e))). unfold whole.
      rewrite <- (take_drop k (ge_chunks e)) at 1. generalize (take k (ge_chunks e)) (drop k (ge_chunks e)). intros a b. clear.
      assert (∀ c l, String.concat "" (c :: l) = c ++ String.concat "" l)%string as Q by (intros c l; destruct l; simpl; [by rewrite app_nil_s|done]).
      induction a as [|c a IH]; [done|]. rewrite <- app_comm_cons, !Q, IH. simpl. by rewrite app_assoc_s.
    - rewrite E3 in G. simpl in G. fold whole in G. destruct fs2 as [|f fs2]; [injection G as <- <-; split; [exists ""%string; by rewrite app_nil_s|done]|].
      destruct (ge_end e); [|by apply prefix_nil_not in P2]. pose proof (prefix_cons_inv_1 _ _ _ _ P2) as ->. unfold eof_frame in G. cbn [pull_loop] in G.
      change (FrameJSON =? FrameData) with false in G. change (FrameJSON =? FrameJSON) with true in G. cbn match in G.
      destruct (unmarshal_marshal eof_message eq_refl) as (m' & U & K' & _); [simpl; lia|]. rewrite U, K' in G. injection G as <- <-.
      split; [exists ""%string; by rewrite app_nil_s|done]. }
  rewrite (Pull_meta fs meta fs' E K). split_and!.
  - intros got res. destruct (pull_loop fs' "") as [g r] eqn:G. intros [= <- <-]. by apply L.
  - intros out. unfold PullBytes. destruct (_ || _); [done|]. rewrite E, K, S. simpl negb. simpl (String.eqb _ _). cbn match.
    destruct (Z.ltb_spec size 0); [done|]. destruct (Z.ltb_spec maxBytes size); [done|]. simpl. intros B.
    apply bytes_loop_pull in B as [G Z]. destruct (L _ _ G) as [_ [-> En]]; [done|]. split; [done|]. split; [done|]. split; [lia|]. exists perm. by rewrite Z.
  - intros s p F En [= <- <-]. rewrite (Full F), En. split.
    + destruct (pull_prefix (ge_chunks e) [eof_frame] _ ""%string (reflexivity _)) as [(k & E1 & Lk & _)|(fs2 & E1 & _ & E3)].
      * exfalso. apply (f_equal length) in E1. rewrite length_app, length_take, length_fmap in E1. simpl in E1. lia.
      * rewrite E3. apply app_inv_head in E1 as <-. cbn [pull_loop eof_frame]. unfold eof_frame. change (FrameJSON =? FrameData) with false. change (FrameJSON =? FrameJSON) with true. cbn match.
        destruct (unmarshal_marshal eof_message eq_refl) as (m' & -> & -> & _); [simpl; lia|]. done.
    + intros -> [Lm Lx]. unfold PullBytes. pose proof (zlen_nonneg whole). destruct (Z.ltb_spec maxBytes 0); [lia|]. destruct (Z.ltb_spec MaxFileSize maxBytes); [lia|].
      simpl orb. cbn match. rewrite E, K, S. simpl negb. simpl (String.eqb _ _). cbn match.
      destruct (Z.ltb_spec (zlen whole) 0); [lia|]. destruct (Z.ltb_spec maxBytes (zlen whole)); [lia|]. simpl orb. cbn match.
      rewrite (Full F), En. by apply (bytes_loop_all maxBytes (zlen whole) (ge_chunks e) ""%string).
Qed.
End delivery.

(** ** An upload and a download *)

Definition message_tuple (m : message) : string * string * Z * Z := (m_Kind m, m_Path m, m_Size m, m_Mode m).
#[export] Instance sample_json : JSON := {
  marshal m := bits (encode (message_tuple m));
  unmarshal s := option_map (λ '(k, p, n, o), Message k p n o None) (decode (unbits s)) }.

#[export] Instance sample_json_laws : @JSONLaws sample_json.
Proof.
  split. intros m _ _. exists (Message (m_Kind m) (m_Path m) (m_Size m) (m_Mode m) None). simpl. by rewrite unbits_bits, decode_encode.
Qed.

Definition sample_env : put_env :=
  PutEnv (Ok None) (λ _, Ok "abcdefghijkl"%string) (λ _, None) (λ _, None) true (λ _, None) None None None true.
Definition sample_directory : directory := {["notes"%string := File 420 "old"]}.
Definition sample_source : source := Source ["ne"; "w"]%string true.
Definition sample_request : message := Message KindFilePut "notes" 3 420 None.

Lemma sample_fresh k r : pe_random sample_env k = Ok r → temp_name r ≠ "notes"%string.
Proof. by intros [= <-]. Qed.

Lemma upload_is_atomic_witness :
  let '(replies, seen) := handleFilePut sample_env sample_request MaxFileSize sample_directory "notes" (data_frames sample_source ++ [eof_frame]) in
  replies = [ok_message 0; ok_message 3] ∧ last seen = Some (<["notes"%string := File 420 "new"]> sample_directory).
Proof.
  pose proof (upload_is_atomic sample_env sample_request MaxFileSize sample_directory "notes" (data_frames sample_source ++ [eof_frame]) sample_fresh) as U.
  assert ((handleFilePut sample_env sample_request MaxFileSize sample_directory "notes" (data_frames sample_source ++ [eof_frame])).1
    = [ok_message 0; ok_message 3]) as R by (vm_compute; reflexivity).
  destruct (handleFilePut _ _ _ _ _ _) as [replies seen]. simpl in R. subst replies. split; [done|].
  destruct U as (_ & A & _). rewrite (A 3 eq_refl). f_equal.
Defined.

Lemma push_delivers_witness :
  ∃ sent out seen, pushReader "notes" 3 420 sample_source 9 [as_frame (ok_message 0); as_frame (ok_message 3)] = (sent, Ok tt) ∧
    handleFilePut sample_env sample_request MaxFileSize sample_directory "notes" (tail sent) = (out, seen) ∧
    ∃ dir, last seen = Some dir ∧ dir !! "notes"%string = Some (File 420 "new").
Proof.
  pose proof (push_delivers "notes" 3 420 sample_source 9 [as_frame (ok_message 0); as_frame (ok_message 3)] sample_env sample_directory "notes"
    (data_frames sample_source ++ [eof_frame]) sample_request sample_fresh) as T.
  assert (pushReader "notes" 3 420 sample_source 9 [as_frame (ok_message 0); as_frame (ok_message 3)]
    = (put_head "notes" 3 420 :: data_frames sample_source ++ [eof_frame], Ok tt)) as Ep by (vm_compute; reflexivity).
  assert ((handleFilePut sample_env sample_request MaxFileSize sample_directory "notes" (data_frames sample_source ++ [eof_frame])).1
    = [ok_message 0; ok_message 3]) as R by (vm_compute; reflexivity).
  rewrite Ep in *. destruct (handleFilePut sample_env sample_request MaxFileSize sample_directory "notes" _) as [out seen] eqn:Eh. simpl in R. subst out.
  exists (put_head "notes" 3 420 :: data_frames sample_source ++ [eof_frame]), [ok_message 0; ok_message 3], seen. split; [done|]. split; [exact Eh|].
  destruct T as (_ & D); [by vm_compute|lia|done|done|done|]. destruct (D eq_refl) as (dir & L & E & _). exists dir. split; [exact L|exact E].
Defined.

Lemma sample_works : works sample_env sample_directory.
Proof. split; [by exists None|exists "abcdefghijkl"%string; by split|done..]. Qed.

Lemma push_succeeds_witness :
  works sample_env sample_directory ∧
  (pushReader "notes" 3 420 sample_source 9 (as_frame <$> [ok_message 0; ok_message 3])).2 = Ok tt.
Proof.
  split; [exact sample_works|].
  pose proof (push_succeeds "notes" 3 420 sample_source 9 sample_env sample_directory "notes" sample_request sample_fresh sample_works
    eq_refl eq_refl ltac:(vm_compute; congruence) eq_refl ltac:(simpl; lia)) as T.
  cbn zeta in T. destruct (pushReader _ _ _ _ _ _) as [sent res]. apply T.
Defined.

Definition sample_get : get_env := GetEnv (Ok (3, 420)) ["ol"; "d"]%string true.

Lemma download_is_complete_witness :
  HandleFileGet sample_get `prefix_of` HandleFileGet sample_get ∧ PullBytes 10 (HandleFileGet sample_get) = Ok "old"%string.
Proof.
  split; [reflexivity|].
  destruct (download_is_complete sample_get (HandleFileGet sample_get) 10) as (_ & _ & D); [intros size perm [= <- <-]; lia|reflexivity|].
  destruct (D 3 420 eq_refl eq_refl eq_refl) as [_ B]. apply B; [reflexivity|]. split; [done|]. by vm_compute.
Defined.
