(* ===== verification/Termsafe.v ===== *)
(** [internal/termsafe/termsafe.go]: making text from elsewhere safe to show.

    [Escape] works on a whole message, the writer on a stream that arrives in
    pieces.  [shown] says what a terminal may be sent: valid UTF-8 without
    control characters other than newline, tab and the carriage returns allowed. *)

From S2P Require Import Prelude GoStrings GoUtf8 Utf8Facts GoCodec.

Local Open Scope Z_scope.

(** [appendHex]: [digits] hexadecimal digits of [v], the highest first. *)
Fixpoint hex_tail (v : Z) (digits : nat) : string :=
  match digits with
  | O => ""
  | S d => String (hex_digit (Z.land (Z.shiftr v (Z.of_nat d * 4)) 15)) (hex_tail v d)
  end.
Definition appendHex (prefix : string) (v : Z) (digits : nat) : string := prefix ++ hex_tail v digits.

(** [appendOne]: what is appended for the first character of [b], and the bytes
    it took. *)
Definition appendOne (keepCR : bool) (b : string) : string * nat :=
  let '(r, size) := decode_rune b in
  let b0 := match b with String c _ => byte_val c | EmptyString => 0 end in
  if (r =? rune_error) && (size <=? 1)%nat then (appendHex "\x" b0 2, 1%nat)
  else if (r =? 10) || (r =? 9) || ((r =? 13) && keepCR) then (String (byte_of r) "", 1%nat)
  else if (r <? 32) || (r =? 127) then (appendHex "\x" r 2, 1%nat)
  else if (128 <=? r) && (r <=? 159) then (appendHex "\u" r 4, size)
  else (stake size b, size).

Definition CRLF : string := String "013" (String "010" "").

(** The body of [Escape]'s loop, and of the writer's. *)
Definition escape_head (b : string) : string * nat :=
  if has_prefix b CRLF then (CRLF, 2%nat) else appendOne false b.
Definition writer_head (b : string) : string * nat := appendOne true b.

Fixpoint each_fuel (head : string → string * nat) (fuel : nat) (b : string) : string :=
  match fuel, b with
  | _, EmptyString => ""
  | O, _ => ""
  | S fuel, _ => let '(out, n) := head b in out ++ each_fuel head fuel (sdrop n b)
  end.
Definition each (head : string → string * nat) (b : string) : string := each_fuel head (slen b) b.

Definition Escape (s : string) : string := each escape_head s.

(** ** The writer *)

(** From the byte before [i] down, over at most [k] bytes. *)
Fixpoint tail_loop (k i : nat) (b : string) : nat :=
  match k, i with
  | S k, S i =>
      match sget i b with
      | Some c => if rune_start (byte_val c) then if full_rune (sdrop i b) then 0 else slen b - i else tail_loop k i b
      | None => 0
      end
  | _, _ => 0
  end%nat.
Definition incompleteTail (b : string) : nat := tail_loop utf_max (slen b) b.

(** [Write]: the bytes handed to the terminal, and what is held back. *)
Definition Write (held p : string) : string * string :=
  let data := (held ++ p)%string in
  let tail := incompleteTail data in
  (each writer_head (stake (slen data - tail) data), sdrop (slen data - tail) data).

Definition Flush (held : string) : string * string := (each writer_head held, "").

Definition write_step (s : string * string) (p : string) : string * string :=
  let '(out, held) := Write s.2 p in ((s.1 ++ out)%string, held).

(** All the writer sends for these writes and a final flush. *)
Definition stream (chunks : list string) : string :=
  let s := foldl write_step (""%string, ""%string) chunks in (s.1 ++ (Flush s.2).1)%string.

Example escape_sample : Escape (String "027" "[31mred" ++ CRLF ++ String "013" "x")%string
  = ("\x1b[31mred" ++ CRLF ++ "\x0dx")%string.
Proof. vm_compute. reflexivity. Qed.

(** ** What may be shown *)

Definition plain (r : Z) : bool := (32 <=? r) && negb (r =? 127) && negb ((128 <=? r) && (r <=? 159)).

(** Carriage returns are allowed everywhere, or only before a newline. *)
Fixpoint printable (keepCR : bool) (l : list Z) : bool :=
  match l with
  | [] => true
  | r :: l =>
      (plain r || (r =? 9) || (r =? 10) || ((r =? 13) && (keepCR || match l with n :: _ => n =? 10 | [] => false end)))
      && printable keepCR l
  end.
Definition shown (keepCR : bool) (s : string) : bool := valid_string s && printable keepCR (runes s).

(** ** Runes of a text *)

Lemma runes_fuel_enough n m s : (slen s <= n)%nat → (slen s <= m)%nat → runes_fuel n s = runes_fuel m s.
Proof.
  revert m s. induction n as [|n IH]; intros m s Ln Lm.
  { rewrite (slen_nil s) by lia. by destruct m. }
  destruct s as [|c s]; [by destruct m|]. destruct m as [|m]; [simpl in *; lia|]. cbn [runes_fuel].
  destruct (decode_rune (String c s)) as [r k] eqn:D. f_equal.
  pose proof (rune_len_pos (String c s) ltac:(done)) as K. unfold rune_len in K. rewrite D in K. cbn [snd] in K.
  apply IH; rewrite slen_sdrop; simpl in *; lia.
Qed.

Lemma runes_step s : s ≠ ""%string → runes s = (decode_rune s).1 :: runes (sdrop (rune_len s) s).
Proof.
  intros N. destruct s as [|c s]; [done|]. unfold runes at 1, rune_len. cbn [String.length runes_fuel].
  pose proof (rune_len_pos (String c s) N) as K. unfold rune_len in K.
  destruct (decode_rune (String c s)) as [r k] eqn:D. cbn [fst snd] in *. f_equal.
  apply runes_fuel_enough; rewrite slen_sdrop; simpl; lia.
Qed.

Lemma runes_app s t : valid_string s = true → runes (s ++ t) = runes s ++ runes t.
Proof.
  induction s as [|s N IH] using rune_ind; [done|]. intros V. rewrite valid_step in V by done. bsplit.
  rewrite (runes_step (s ++ t)) by (by destruct s). rewrite (runes_step s) by done.
  assert (decode_rune (s ++ t) = decode_rune s) as E by (by apply decode_app).
  unfold rune_len in *. rewrite E. cbn [app]. f_equal. rewrite sdrop_app_le by apply rune_len_le. by apply IH.
Qed.

Lemma printable_app cr l m : printable cr l = true → printable cr m = true → printable cr (l ++ m) = true.
Proof.
  induction l as [|r l IH]; [done|]. cbn [printable app]. intros [H P]%andb_true_iff M. rewrite (IH P M), andb_true_r.
  destruct l as [|n l]; [|exact H]. rewrite orb_false_r in H. destruct cr; [by rewrite !orb_true_l in *|].
  rewrite andb_false_r, orb_false_r in H. by rewrite H.
Qed.

Lemma shown_app cr s t : shown cr s = true → shown cr t = true → shown cr (s ++ t) = true.
Proof.
  unfold shown. intros [V P]%andb_true_iff [V' P']%andb_true_iff. rewrite valid_app, runes_app by done. by rewrite printable_app.
Qed.

Lemma decode_ascii c s : byte_val c < 128 → decode_rune (String c s) = (byte_val c, 1%nat).
Proof. intros H. unfold decode_rune. by rewrite (proj2 (Z.ltb_lt _ _)). Qed.

Lemma shown_byte cr c s :
  byte_val c < 128 → plain (byte_val c) || (byte_val c =? 9) || (byte_val c =? 10) || ((byte_val c =? 13) && cr) = true →
  shown cr s = true → shown cr (String c s) = true.
Proof.
  intros L P S. change (String c s) with (String c "" ++ s)%string. apply shown_app; [|exact S].
  assert (decode_rune (String c "") = (byte_val c, 1%nat)) as D by (by apply decode_ascii). unfold shown.
  rewrite valid_step, runes_step by done. unfold bad_head, rune_len. rewrite D. cbn [fst snd].
  assert ((byte_val c =? rune_error) = false) as -> by (apply Z.eqb_neq; unfold rune_error; lia). simpl.
  rewrite orb_false_r. by rewrite P.
Qed.

Lemma graphic_shown cr s : sforall graphic s = true → shown cr s = true.
Proof.
  induction s as [|c s IH]; [done|]. simpl. intros [G S]%andb_true_iff. apply graphic_val in G.
  apply shown_byte; [lia| |by apply IH]. unfold plain. rewrite (proj2 (Z.leb_le 32 _)), (proj2 (Z.eqb_neq _ 127)), (proj2 (Z.leb_gt 128 _)) by lia. done.
Qed.

Lemma hex_digit_graphic v : 0 <= v < 16 → graphic (hex_digit v) = true.
Proof.
  intros H. assert (∃ n, v = Z.of_nat n ∧ (n < 16)%nat) as (n & -> & L) by (exists (Z.to_nat v); lia).
  do 16 (destruct n as [|n]; [reflexivity|]). lia.
Qed.

Lemma hex_tail_graphic v n : sforall graphic (hex_tail v n) = true.
Proof.
  induction n as [|n IH]; [done|]. cbn [hex_tail sforall]. rewrite IH, andb_true_r. apply hex_digit_graphic.
  assert (0 <= Z.land (Z.shiftr v (Z.of_nat n * 4)) 15) by (apply Z.land_nonneg; lia).
  change 15 with (Z.ones 4). rewrite Z.land_ones by lia. pose proof (Z.mod_pos_bound (Z.shiftr v (Z.of_nat n * 4)) (2 ^ 4)). lia.
Qed.

(** A character that takes several bytes is no ASCII character. *)
Lemma lor_big a b : 0 <= a → 0 <= b → 128 <= a ∨ 128 <= b → 128 <= Z.lor a b.
Proof.
  intros A B H. assert (0 < Z.lor a b).
  { assert (0 <= Z.lor a b) by (by apply Z.lor_nonneg). assert (Z.lor a b ≠ 0); [|lia]. intros [-> ->]%Z.lor_eq_0_iff. lia. }
  change 128 with (2 ^ 7). apply Z.log2_le_pow2; [done|]. rewrite Z.log2_lor by done.
  destruct H as [H|H]; change 128 with (2 ^ 7) in H; apply Z.log2_le_pow2 in H; lia.
Qed.

Lemma shift_big a n : 0 <= n → 0 < a → 128 <= a * 2 ^ n → 128 <= Z.shiftl a n.
Proof. intros. rewrite Z.shiftl_mul_pow2 by done. lia. Qed.

Lemma byte_fact (P : Z → bool) c : forallb (λ n, P (Z.of_nat n)) (seq 0 256) = true → P (byte_val c) = true.
Proof. intros H. exact (byte_all P H c). Qed.

Lemma land_nonneg_l a b : 0 <= b → 0 <= Z.land a b.
Proof. intros. apply Z.land_nonneg. by right. Qed.

(** What a lead byte contributes to the character. *)
Definition lead_big (b : Z) : bool :=
  match lead_info b with
  | None => true
  | Some (sz, lo, _) =>
      if (sz =? 2)%nat then 2 <=? Z.land b 31
      else if (sz =? 3)%nat then (1 <=? Z.land b 15) || (160 <=? lo) else (1 <=? Z.land b 7) || (144 <=? lo)
  end.

Definition second_big (b : Z) : bool :=
  (negb (in_range 144 191 b) || (16 <=? low6 b)) && (negb (in_range 160 191 b) || (32 <=? low6 b)).

Lemma low6_nonneg b : 0 <= low6 b.
Proof. apply land_nonneg_l. lia. Qed.

Lemma decode_big c s r k : decode_rune (String c s) = (r, k) → 128 <= byte_val c → 128 <= r.
Proof.
  intros D L. pose proof (byte_fact lead_big c ltac:(vm_compute; reflexivity)) as F. unfold lead_big in F.
  unfold decode_rune in D. rewrite (proj2 (Z.ltb_ge _ rune_self)) in D by (unfold rune_self; lia).
  destruct (lead_info (byte_val c)) as [[[sz lo] hi]|] eqn:I; [|by injection D as <- _]. pose proof (lead_info_range _ _ _ _ I) as (_ & _ & Hi).
  destruct s as [|c1 s]; [by injection D as <- _|]. destruct (negb (in_range lo hi (byte_val c1))) eqn:R1; [by injection D as <- _|].
  apply negb_false_iff in R1. unfold in_range in R1. bsplit.
  pose proof (byte_fact second_big c1 ltac:(vm_compute; reflexivity)) as G. unfold second_big, in_range in G. bsplit.
  assert (∀ a n, 0 <= a → 0 <= Z.shiftl a n) as Sh by (intros; by apply Z.shiftl_nonneg).
  assert (∀ m, 0 <= m → 0 <= Z.land (byte_val c) m) as Ln by (intros; by apply land_nonneg_l).
  pose proof low6_nonneg as L6.
  destruct (sz =? 2)%nat.
  { injection D as <- _. apply Z.leb_le in F. apply lor_big; [by apply Sh, Ln|done|]. left. apply shift_big; lia. }
  destruct s as [|c2 s]; [by injection D as <- _|]. destruct (negb (is_cont (byte_val c2))); [by injection D as <- _|].
  destruct (sz =? 3)%nat.
  { injection D as <- _. apply lor_big; [apply Z.lor_nonneg; split; apply Sh; auto; apply Ln; lia|done|]. left.
    apply lor_big; [apply Sh, Ln; lia|by apply Sh|]. apply orb_true_iff in F as [F|F]; apply Z.leb_le in F; [left; apply shift_big; lia|right].
    apply shift_big; [lia| |]; destruct (Z.leb_spec 160 (byte_val c1)), (Z.leb_spec (byte_val c1) 191); simpl in *; bsplit; lia. }
  destruct s as [|c3 s]; [by injection D as <- _|]. destruct (negb (is_cont (byte_val c3))); injection D as <- _; [done|].
  apply lor_big; [repeat (apply Z.lor_nonneg; split); apply Sh; auto; apply Ln; lia|done|]. left.
  apply lor_big; [apply Z.lor_nonneg; split; apply Sh; auto; apply Ln; lia|by apply Sh|]. left.
  apply lor_big; [apply Sh, Ln; lia|by apply Sh|]. apply orb_true_iff in F as [F|F]; apply Z.leb_le in F; [left; apply shift_big; lia|right].
  apply shift_big; [lia| |]; destruct (Z.leb_spec 144 (byte_val c1)), (Z.leb_spec (byte_val c1) 191); simpl in *; bsplit; lia.
Qed.

(** ** One character *)

Lemma rune_piece s :
  s ≠ ""%string → bad_head s = false → valid_string (stake (rune_len s) s) = true ∧ runes (stake (rune_len s) s) = [(decode_rune s).1].
Proof.
  intros N B. pose proof (rune_len_pos s N) as K. pose proof (rune_len_le s) as Le.
  assert (stake (rune_len s) s ≠ ""%string) as N'.
  { intros E. apply (f_equal String.length) in E. rewrite slen_stake in E. simpl in E. lia. }
  assert (rune_len (stake (rune_len s) s) = rune_len s) as L by (unfold rune_len at 1; by rewrite decode_head).
  assert (sdrop (rune_len s) (stake (rune_len s) s) = ""%string) as E by (apply sdrop_all; rewrite slen_stake; lia).
  rewrite valid_step, runes_step by done. rewrite bad_head_rune, B, L, E, decode_head. done.
Qed.

Lemma bad_head_iff s : (((decode_rune s).1 =? rune_error) && ((decode_rune s).2 <=? 1)%nat = true) ↔ s = ""%string ∨ bad_head s = true.
Proof.
  destruct s as [|c s]; [by split; [left|]|]. unfold bad_head. pose proof (rune_len_pos (String c s) ltac:(done)) as K. unfold rune_len in K.
  destruct (decode_rune (String c s)) as [r k]. cbn [fst snd] in *. replace (k <=? 1)%nat with (k =? 1)%nat; [naive_solver|].
  destruct (Nat.eqb_spec k 1), (Nat.leb_spec k 1); lia || done.
Qed.

(** The head of a text decides by its first character. *)
Lemma appendOne_cases cr b :
  b ≠ ""%string →
  let r := (decode_rune b).1 in
  (bad_head b = true ∧ ∃ c s, b = String c s ∧ appendOne cr b = (appendHex "\x" (byte_val c) 2, 1%nat)) ∨
  bad_head b = false ∧
  ((r = 10 ∨ r = 9 ∨ r = 13 ∧ cr = true) ∧ appendOne cr b = (stake 1 b, 1%nat) ∧ rune_len b = 1%nat ∨
   (∃ p v n, appendOne cr b = (appendHex p v n, rune_len b) ∧ (p = "\x" ∨ p = "\u")%string ∧ plain r = false ∧ r ≠ 10 ∧ r ≠ 9 ∧ (cr = true → r ≠ 13)) ∨
   plain r = true ∧ appendOne cr b = (stake (rune_len b) b, rune_len b)).
Proof.
  intros N. destruct b as [|c s]; [done|]. set (b := String c s) in *. cbn zeta.
  pose proof (bad_head_iff b) as BI. unfold appendOne, rune_len in *.
  destruct (decode_rune b) as [r k] eqn:D. cbn [fst snd] in *.
  destruct ((r =? rune_error) && (k <=? 1)%nat) eqn:B.
  { left. destruct (proj1 BI eq_refl) as [?|Bh]; [done|]. split; [done|]. by exists c, s. }
  right. assert (bad_head b = false) as Bh by (destruct (bad_head b); [|done]; pose proof (proj2 BI (or_intror eq_refl)); congruence). split; [done|].
  assert (r < 128 → r = byte_val c ∧ k = 1%nat) as Asc.
  { intros L. destruct (Z.lt_ge_cases (byte_val c) 128) as [Lc|Lc].
    - unfold b in D. rewrite decode_ascii in D by done. by injection D as <- <-.
    - pose proof (decode_big _ _ _ _ D Lc). lia. }
  destruct ((r =? 10) || (r =? 9) || ((r =? 13) && cr)) eqn:W.
  { left. assert (r = 10 ∨ r = 9 ∨ r = 13 ∧ cr = true) as R.
    { apply orb_true_iff in W as [[?%Z.eqb_eq|?%Z.eqb_eq]%orb_true_iff|[?%Z.eqb_eq ?]%andb_true_iff]; auto. }
    split; [exact R|]. destruct Asc as [-> ->]; [lia|]. unfold b. simpl. by rewrite byte_of_val. }
  assert (r ≠ 10 ∧ r ≠ 9 ∧ (cr = true → r ≠ 13)) as NW.
  { apply orb_false_iff in W as [[?%Z.eqb_neq ?%Z.eqb_neq]%orb_false_iff Wc]. split_and!; try done. intros ->. rewrite andb_true_r in Wc. by apply Z.eqb_neq. }
  right. destruct ((r <? 32) || (r =? 127)) eqn:C0.
  { left. destruct Asc as [E ->]; [apply orb_true_iff in C0 as [?%Z.ltb_lt|?%Z.eqb_eq]; lia|].
    exists "\x"%string, r, 2%nat. split; [done|]. split; [by left|]. split; [|exact NW]. unfold plain.
    destruct (Z.leb_spec 32 r); [|done]. rewrite (proj2 (Z.ltb_ge r 32)) in C0 by done. simpl in C0. by rewrite C0. }
  destruct ((128 <=? r) && (r <=? 159)) eqn:C1.
  { left. exists "\u"%string, r, 4%nat. split; [done|]. split; [by right|]. split; [|exact NW]. unfold plain. by rewrite C1, andb_false_r. }
  right. split; [|done]. unfold plain. rewrite C1. apply orb_false_iff in C0 as [C0 ->]. apply Z.ltb_ge in C0.
  by rewrite (proj2 (Z.leb_le _ _)).
Qed.

Lemma appendHex_shown cr p v n : (p = "\x" ∨ p = "\u")%string → shown cr (appendHex p v n) = true.
Proof. intros H. apply graphic_shown. unfold appendHex. rewrite sforall_app, hex_tail_graphic, andb_true_r. by destruct H as [-> | ->]. Qed.

Lemma appendOne_shown cr b : b ≠ ""%string → shown cr (appendOne cr b).1 = true.
Proof.
  intros N. destruct (appendOne_cases cr b N) as [(_ & c & s & _ & ->)|(B & [(R & -> & L)|[(p & v & n & -> & P & _)|(P & ->)]])]; cbn [fst].
  - apply appendHex_shown. by left.
  - destruct (rune_piece b N B) as [V Ru]. rewrite L in V, Ru. unfold shown. rewrite V, Ru. simpl.
    destruct R as [-> |[-> |[-> ->]]]; done.
  - by apply appendHex_shown.
  - destruct (rune_piece b N B) as [V Ru]. unfold shown. rewrite V, Ru. simpl. by rewrite P.
Qed.

Lemma appendOne_takes cr b : b ≠ ""%string → (1 <= (appendOne cr b).2 <= slen b)%nat.
Proof.
  intros N. pose proof (rune_len_pos b N) as K. pose proof (rune_len_le b) as Le.
  assert (1 <= slen b)%nat by lia.
  destruct (appendOne_cases cr b N) as [(_ & c & s & _ & ->)|(B & [(R & -> & L)|[(p & v & n & -> & P & _)|(P & ->)]])]; cbn [snd]; lia.
Qed.

(** ** The loops *)

Lemma each_fuel_enough head n m s :
  (∀ b, b ≠ ""%string → (1 <= (head b).2)%nat) → (slen s <= n)%nat → (slen s <= m)%nat → each_fuel head n s = each_fuel head m s.
Proof.
  intros H. revert m s. induction n as [|n IH]; intros m s Ln Lm.
  { rewrite (slen_nil s) by lia. by destruct m. }
  destruct s as [|c s]; [by destruct m|]. destruct m as [|m]; [simpl in *; lia|]. cbn [each_fuel].
  pose proof (H (String c s) ltac:(done)) as K. destruct (head (String c s)) as [o k]. cbn [snd] in K. f_equal.
  apply IH; rewrite slen_sdrop; simpl in *; lia.
Qed.

Lemma each_step head s :
  (∀ b, b ≠ ""%string → (1 <= (head b).2)%nat) → s ≠ ""%string → each head s = ((head s).1 ++ each head (sdrop (head s).2 s))%string.
Proof.
  intros H N. destruct s as [|c s]; [done|]. unfold each at 1. cbn [String.length each_fuel].
  pose proof (H (String c s) N) as K. destruct (head (String c s)) as [o k]. cbn [fst snd] in *. f_equal.
  apply each_fuel_enough; [done|rewrite slen_sdrop; simpl; lia..].
Qed.

(** Induction on the part of a text that is left. *)
Lemma head_ind (f : string → nat) (P : string → Prop) :
  (∀ b, b ≠ ""%string → (1 <= f b)%nat) → P ""%string → (∀ s, s ≠ ""%string → P (sdrop (f s) s) → P s) → ∀ s, P s.
Proof.
  intros F H0 HS s. remember (slen s) as n eqn:E. revert s E. induction n as [n IH] using lt_wf_ind. intros s ->.
  destruct (decide (s = ""%string)) as [->|N]; [done|]. apply HS; [done|]. eapply IH; [|reflexivity].
  rewrite slen_sdrop. pose proof (F s N). destruct s; simpl in *; [done|lia].
Qed.

Lemma each_shown cr head s :
  (∀ b, b ≠ ""%string → (1 <= (head b).2)%nat ∧ shown cr (head b).1 = true) → shown cr (each head s) = true.
Proof.
  intros H. assert (∀ b, b ≠ ""%string → (1 <= (head b).2)%nat) as H1 by (intros b N; by apply H).
  revert s. apply (head_ind (λ b, (head b).2)); [exact H1|done|]. intros s N IH.
  rewrite each_step by done. apply shown_app; [by apply H|exact IH].
Qed.

(** A head that looks only at the first character of a text does the same in
    front of another text, if the first character does not change. *)
Lemma each_app head s t :
  (∀ b, b ≠ ""%string → (1 <= (head b).2 <= slen b)%nat) →
  (∀ i, (i < slen s)%nat → head (sdrop i s ++ t)%string = head (sdrop i s)) →
  each head (s ++ t) = (each head s ++ each head t)%string.
Proof.
  intros H. assert (∀ b, b ≠ ""%string → (1 <= (head b).2)%nat) as H1 by (intros b N; by apply H).
  revert s. apply (head_ind (λ b, (head b).2) (λ s, (∀ i, (i < slen s)%nat → head (sdrop i s ++ t)%string = head (sdrop i s)) → each head (s ++ t) = (each head s ++ each head t)%string)); [exact H1|done|].
  intros s N IH S. rewrite (each_step head s), (each_step head (s ++ t)) by (done || by destruct s).
  assert (head (s ++ t)%string = head s) as -> by (specialize (S 0%nat); simpl in S; apply S; destruct s; simpl; [done|lia]).
  destruct (H s N) as [K L]. rewrite sdrop_app_le by done. rewrite <- app_assoc_s. f_equal. apply IH.
  intros i Li. rewrite sdrop_sdrop. apply S. rewrite slen_sdrop in Li. lia.
Qed.

Lemma appendOne_ext cr s t :
  s ≠ ""%string → decode_rune (s ++ t) = decode_rune s → appendOne cr (s ++ t) = appendOne cr s.
Proof.
  intros N E. pose proof (rune_len_le s) as L. unfold rune_len in L. unfold appendOne. rewrite E. destruct (decode_rune s) as [r k]. cbn [snd] in L.
  rewrite stake_app_le by done. by destruct s.
Qed.

Lemma writer_app s t :
  (∀ i, (i < slen s)%nat → decode_rune (sdrop i s ++ t) = decode_rune (sdrop i s)) →
  each writer_head (s ++ t) = (each writer_head s ++ each writer_head t)%string.
Proof.
  intros H. apply each_app; [apply appendOne_takes|]. intros i L. apply appendOne_ext; [|by apply H].
  intros E. apply (f_equal String.length) in E. rewrite slen_sdrop in E. simpl in E. lia.
Qed.

(** ** Where a stream may be cut *)

Lemma start_not_cont c lo hi : rune_start (byte_val c) = true → 128 <= lo → hi <= 191 → in_range lo hi (byte_val c) = false.
Proof.
  intros S L H. unfold in_range. apply andb_false_iff.
  destruct (Z.leb_spec lo (byte_val c)); [|by left]. destruct (Z.leb_spec (byte_val c) hi); [|by right].
  by rewrite cont_not_start in S by lia.
Qed.

(** In front of the start of a character, *)
Lemma decode_before_start s c t : s ≠ ""%string → rune_start (byte_val c) = true → decode_rune (s ++ String c t) = decode_rune s.
Proof.
  intros N S. assert (is_cont (byte_val c) = false) as Nc by (by apply start_not_cont). destruct s as [|c0 s]; [done|].
  simpl. unfold decode_rune. destruct (byte_val c0 <? rune_self); [done|].
  destruct (lead_info (byte_val c0)) as [[[sz lo] hi]|] eqn:I; [|done]. pose proof (lead_info_range _ _ _ _ I) as (_ & Lo & Hi).
  destruct s as [|c1 s]; simpl; [by rewrite (start_not_cont c lo hi)|].
  destruct (negb (in_range lo hi (byte_val c1))); [done|]. destruct (sz =? 2)%nat; [done|].
  destruct s as [|c2 s]; simpl; [by rewrite Nc|].
  destruct (negb (is_cont (byte_val c2))); [done|]. destruct (sz =? 3)%nat; [done|].
  destruct s as [|c3 s]; simpl; [by rewrite Nc|done].
Qed.

(** or after a character that is complete, what follows changes nothing. *)
Lemma decode_full s t : full_rune s = true → decode_rune (s ++ t) = decode_rune s.
Proof.
  destruct s as [|c0 s]; [done|]. unfold full_rune. simpl. unfold decode_rune. destruct (byte_val c0 <? rune_self); [done|].
  destruct (lead_info (byte_val c0)) as [[[sz lo] hi]|] eqn:I; [|done]. pose proof (lead_info_range _ _ _ _ I) as (Sz & _ & _).
  destruct s as [|c1 s]; simpl; [destruct (Nat.leb_spec sz 1); [lia|done]|].
  destruct (negb (in_range lo hi (byte_val c1))); [done|]. destruct (Nat.eqb_spec sz 2) as [|N2]; [done|].
  destruct s as [|c2 s]; simpl; [destruct (Nat.leb_spec sz 2); [lia|done]|].
  destruct (is_cont (byte_val c2)); simpl; [|done]. destruct (Nat.eqb_spec sz 3); [done|].
  destruct s as [|c3 s]; simpl; [destruct (Nat.leb_spec sz 3); [lia|done]|done].
Qed.

Lemma sget_None i s : (slen s <= i)%nat → sget i s = None.
Proof. revert s. induction i as [|i IH]; intros [|c s] L; simpl in *; try done; try lia. apply IH. lia. Qed.

(** What is not a complete character is a start and what continues it. *)
Lemma not_full_shape s : s ≠ ""%string → full_rune s = false →
  (slen s <= 3)%nat ∧ (∃ c, sget 0 s = Some c ∧ rune_start (byte_val c) = true) ∧
  ∀ j c, (0 < j)%nat → sget j s = Some c → rune_start (byte_val c) = false.
Proof.
  intros N. destruct s as [|c0 s]; [done|]. clear N. unfold full_rune.
  pose proof (byte_fact (λ b, match lead_info b with Some _ => rune_start b | None => true end) c0 ltac:(vm_compute; reflexivity)) as F. cbn beta in F.
  destruct (lead_info (byte_val c0)) as [[[sz lo] hi]|] eqn:I; [|done]. pose proof (lead_info_range _ _ _ _ I) as (Sz & Lo & Hi).
  destruct (Nat.leb_spec sz (slen (String c0 s))) as [|L]; [done|]. simpl in L. intros Fu.
  split; [simpl; lia|]. split; [by exists c0|]. intros j c J G.
  assert (∀ j, sget j "" = None) as Nil by (intros; apply sget_None; simpl; lia).
  destruct j as [|j]; [lia|]. simpl in G. destruct s as [|c1 s]; [by rewrite Nil in G|].
  destruct (negb (in_range lo hi (byte_val c1))) eqn:R; [done|]. apply negb_false_iff in R. unfold in_range in R. bsplit.
  destruct j as [|j]; simpl in G; [injection G as <-; apply cont_not_start; lia|].
  destruct s as [|c2 s]; [by rewrite Nil in G|]. apply negb_false_iff in Fu. unfold is_cont, in_range in Fu. bsplit.
  destruct j as [|j]; simpl in G; [injection G as <-; apply cont_not_start; lia|].
  simpl in L. destruct s as [|c3 s]; [by rewrite Nil in G|]. simpl in L. lia.
Qed.

Lemma tail_loop_finds k i j b c :
  (j < i <= slen b)%nat → (i - j <= k)%nat → sget j b = Some c → rune_start (byte_val c) = true →
  (∀ l d, (j < l < i)%nat → sget l b = Some d → rune_start (byte_val d) = false) →
  tail_loop k i b = if full_rune (sdrop j b) then 0%nat else (slen b - j)%nat.
Proof.
  revert i. induction k as [|k IH]; intros i R K G S Q; [lia|]. destruct i as [|i]; [lia|]. cbn [tail_loop].
  destruct (sget_lt i b ltac:(lia)) as [d Hd]. rewrite Hd.
  destruct (decide (i = j)) as [->|N].
  - rewrite G in Hd. injection Hd as <-. by rewrite S.
  - rewrite (Q i d ltac:(lia) Hd). apply IH; [lia|lia|done|done|]. intros l e L. apply Q. lia.
Qed.

(** Nothing incomplete is at the end of the text, *)
Lemma no_tail b i : incompleteTail b = 0%nat → (i < slen b)%nat → full_rune (sdrop i b) = true.
Proof.
  intros T L. destruct (full_rune (sdrop i b)) eqn:F; [done|].
  assert (sdrop i b ≠ ""%string) as N by (intros E; apply (f_equal String.length) in E; rewrite slen_sdrop in E; simpl in E; lia).
  destruct (not_full_shape _ N F) as (Le & (c & G & S) & Q). rewrite slen_sdrop in Le. rewrite sget_sdrop, Nat.add_0_r in G.
  unfold incompleteTail in T. rewrite (tail_loop_finds utf_max (slen b) i b c) in T.
  - rewrite F in T. lia.
  - lia.
  - unfold utf_max. lia.
  - done.
  - done.
  - intros l d Ll Gl. apply (Q (l - i)%nat d); [lia|]. rewrite sget_sdrop. by replace (i + (l - i))%nat with l by lia.
Qed.

(** or what is begins with a start. *)
Lemma tail_loop_start k i b : (i <= slen b)%nat →
  let n := tail_loop k i b in n = 0%nat ∨
  (n <= slen b)%nat ∧ full_rune (sdrop (slen b - n) b) = false ∧ ∃ c, sget (slen b - n) b = Some c ∧ rune_start (byte_val c) = true.
Proof.
  revert i. induction k as [|k IH]; intros i L; [by left|]. destruct i as [|i]; [by left|]. cbn [tail_loop].
  destruct (sget i b) as [c|] eqn:G; [|by left]. destruct (rune_start (byte_val c)) eqn:S; [|apply IH; lia].
  destruct (full_rune (sdrop i b)) eqn:F; [by left|]. right. replace (slen b - (slen b - i))%nat with i by lia.
  split; [lia|]. split; [done|]. by exists c.
Qed.

Lemma sget_head s c : sget 0 s = Some c → ∃ t, s = String c t.
Proof. destruct s as [|d t]; [done|]. intros [= ->]. by exists t. Qed.

(** One write hands over all but the held bytes, whatever comes next. *)
Lemma Write_step held p out held' t :
  Write held p = (out, held') → each writer_head (held ++ p ++ t) = (out ++ each writer_head (held' ++ t))%string ∧ (slen held' <= 3)%nat.
Proof.
  unfold Write. set (data := (held ++ p)%string). set (n := incompleteTail data). intros [= <- <-].
  rewrite app_assoc_s. fold data. pose proof (tail_loop_start utf_max (slen data) data (le_n _)) as T. cbn zeta in T. fold (incompleteTail data) n in T.
  destruct T as [Z|(Le & F & c & G & S)].
  - rewrite Z, Nat.sub_0_r, stake_all, sdrop_all by done. split; [|simpl; lia]. apply writer_app. intros i L.
    apply decode_full. by apply no_tail.
  - rewrite <- (stake_sdrop (slen data - n) data) at 1. rewrite <- app_assoc_s.
    replace (slen data - n)%nat with (slen data - n + 0)%nat in G by lia. rewrite <- sget_sdrop in G.
    destruct (sget_head _ _ G) as [u E]. split.
    + rewrite E. simpl. apply writer_app. intros i L. apply decode_before_start; [|done].
      intros Z. apply (f_equal String.length) in Z. rewrite slen_sdrop in Z. simpl in Z. lia.
    + apply not_full_shape; [by rewrite E|exact F].
Qed.

Lemma writes_all chunks s :
  let s' := foldl write_step s chunks in
  (s'.1 ++ each writer_head s'.2)%string = (s.1 ++ each writer_head (s.2 ++ String.concat "" chunks))%string.
Proof.
  revert s. induction chunks as [|p chunks IH]; intros s; cbn [foldl]; [simpl; by rewrite app_nil_s|].
  cbn zeta. rewrite IH. unfold write_step. destruct (Write s.2 p) as [out held] eqn:W. cbn [fst snd].
  assert (String.concat "" (p :: chunks) = p ++ String.concat "" chunks)%string as -> by (destruct chunks; simpl; [by rewrite app_nil_s|done]).
  destruct (Write_step _ _ _ _ (String.concat "" chunks) W) as [-> _]. by rewrite <- app_assoc_s.
Qed.

(** ** What is shown is left alone *)

Lemma shown_rest cr s : s ≠ ""%string → shown cr s = true → bad_head s = false ∧ shown cr (sdrop (rune_len s) s) = true ∧
  let r := (decode_rune s).1 in
  (plain r || (r =? 9) || (r =? 10) || ((r =? 13) && (cr || match runes (sdrop (rune_len s) s) with n :: _ => n =? 10 | [] => false end))) = true.
Proof.
  intros N. unfold shown. rewrite valid_step, runes_step by done. cbn [printable]. intros [[B V]%andb_true_iff [P Q]%andb_true_iff]%andb_true_iff.
  apply negb_true_iff in B. by rewrite V, Q.
Qed.

Lemma each_id head cr s :
  (∀ b, b ≠ ""%string → (1 <= (head b).2)%nat) →
  (∀ b, b ≠ ""%string → shown cr b = true → (head b).1 = stake (head b).2 b ∧ shown cr (sdrop (head b).2 b) = true) →
  shown cr s = true → each head s = s.
Proof.
  intros H1 H. revert s. apply (head_ind (λ b, (head b).2) (λ s, shown cr s = true → each head s = s)); [exact H1|done|].
  intros s N IH S. destruct (H s N S) as [E R]. rewrite each_step, E, IH by done. apply stake_sdrop.
Qed.

Lemma runes_newline s l : runes s = 10 :: l → ∃ t, s = String "010" t.
Proof.
  destruct s as [|c s]; [done|]. rewrite runes_step by done. destruct (decode_rune (String c s)) as [r k] eqn:E. cbn [fst].
  intros H. assert (r = 10) as -> by congruence. exists s. f_equal.
  destruct (Z.lt_ge_cases (byte_val c) 128) as [L|L]; [|pose proof (decode_big _ _ _ _ E L); lia].
  rewrite decode_ascii in E by done. injection E as E _. apply byte_val_inj. by rewrite E.
Qed.

Lemma rune_cr s : (decode_rune s).1 = 13 → ∃ t, s = String "013" t ∧ rune_len s = 1%nat.
Proof.
  destruct s as [|c s]; [done|]. intros D. exists s. destruct (decode_rune (String c s)) as [r k] eqn:E. cbn [fst] in D. subst r.
  destruct (Z.lt_ge_cases (byte_val c) 128) as [L|L]; [|pose proof (decode_big _ _ _ _ E L); lia].
  unfold rune_len. rewrite E. rewrite decode_ascii in E by done. injection E as E <-. split; [|done]. f_equal. apply byte_val_inj. by rewrite E.
Qed.

(** One character of what may be shown is appended as it is, but for a carriage
    return that [Escape] lets through with the newline after it. *)
Lemma appendOne_id cr b :
  b ≠ ""%string → shown cr b = true → (cr = false → has_prefix b CRLF = false) →
  (appendOne cr b).1 = stake (appendOne cr b).2 b ∧ shown cr (sdrop (appendOne cr b).2 b) = true.
Proof.
  intros N S C. destruct (shown_rest cr b N S) as (B & R & P). cbn zeta in P.
  destruct (appendOne_cases cr b N) as [(B' & _)|(_ & [(_ & E & L)|[(p & v & n & E & _ & Pl & N10 & N9 & N13)|(_ & E)]])]; [congruence|..]; rewrite E; cbn [fst snd].
  - by rewrite L in R.
  - exfalso. rewrite Pl, (proj2 (Z.eqb_neq _ _) N10), (proj2 (Z.eqb_neq _ _) N9) in P. simpl in P.
    apply andb_true_iff in P as [?%Z.eqb_eq P]. destruct cr; [by apply N13|]. simpl in P.
    destruct (rune_cr b H) as (t & -> & L1). rewrite L1 in P. simpl in P. destruct (runes t) as [|n' l] eqn:Ru; [done|].
    apply Z.eqb_eq in P as ->. destruct (runes_newline t l Ru) as [u ->]. by specialize (C eq_refl).
  - done.
Qed.

Lemma escape_takes b : b ≠ ""%string → (1 <= (escape_head b).2)%nat ∧ shown false (escape_head b).1 = true.
Proof.
  intros N. unfold escape_head. destruct (has_prefix b CRLF); [split; [simpl; lia|vm_compute; done]|].
  split; [by apply appendOne_takes|by apply appendOne_shown].
Qed.

Lemma escape_shown s : shown false (Escape s) = true.
Proof. apply each_shown. apply escape_takes. Qed.

Lemma escape_id s : shown false s = true → Escape s = s.
Proof.
  apply each_id; [apply escape_takes|]. intros b N S. unfold escape_head. destruct (has_prefix b CRLF) eqn:P.
  - apply has_prefix_spec in P as [t ->]. split; [done|].
    destruct (shown_rest false _ N S) as (_ & R & _). assert (String "010" t ≠ ""%string) as N' by done.
    change (rune_len (CRLF ++ t)) with 1%nat in R. simpl in R.
    destruct (shown_rest false _ N' R) as (_ & R' & _). exact R'.
  - by apply appendOne_id.
Qed.

(** Text from elsewhere is made safe to show.  What [Escape] returns is valid
    UTF-8 without control characters, but for newlines, tabs and carriage
    returns before a newline; text that is already like that is returned as it
    is, so escaping twice changes nothing. *)
Lemma escape_is_safe s :
  shown false (Escape s) = true ∧ (shown false s = true → Escape s = s) ∧ Escape (Escape s) = Escape s.
Proof. split_and!; [apply escape_shown|apply escape_id|apply escape_id, escape_shown]. Qed.

(** A stream is escaped the same however it is cut.  What the writer sends
    for any sequence of writes and a final flush is the escaped form of all the
    bytes together: no character that arrives in two pieces is escaped by
    accident.  It is safe to show, plain text goes through unchanged, and never
    more than three bytes are held back. *)
Lemma stream_is_whole chunks :
  let text := String.concat "" chunks in
  stream chunks = each writer_head text ∧ shown true (stream chunks) = true ∧
  (shown true text = true → stream chunks = text) ∧
  (slen (foldl write_step (""%string, ""%string) chunks).2 <= 3)%nat.
Proof.
  cbn zeta. set (text := String.concat "" chunks).
  assert (∀ b, b ≠ ""%string → (1 <= (writer_head b).2)%nat) as H1 by (intros b N; by apply appendOne_takes).
  assert (stream chunks = each writer_head text) as E by exact (writes_all chunks (""%string, ""%string)). rewrite E. split_and!.
  - done.
  - apply each_shown. intros b N. split; [by apply H1|by apply appendOne_shown].
  - apply each_id; [exact H1|]. intros b N S. by apply appendOne_id.
  - clear. assert (∀ s : string * string, (slen s.2 <= 3)%nat → (slen (foldl write_step s chunks).2 <= 3)%nat) as G; [|apply G; simpl; lia].
    induction chunks as [|p chunks IH]; intros s L; [exact L|]. apply IH. unfold write_step.
    destruct (Write s.2 p) as [out held] eqn:W. exact (proj2 (Write_step _ _ _ _ ""%string W)).
Qed.
