(* ===== verification/Release.v ===== *)
(** [internal/release/release.go] and [internal/versionmeta]: what makes a
    release trustworthy.

    A manifest is accepted when its text is well formed, its fields are, and one
    of the keys compiled into the binary signed exactly those bytes.  Versions
    are ordered as numbers of any size.  [encoding/json] and Ed25519 are
    parameters; SHA-256, base64 and hexadecimal are executed. *)

From S2P Require Import Prelude GoStrings GoUtf8 GoCodec GoPath.

Local Open Scope Z_scope.

(** ** Versions *)

Definition digit (c : ascii) : bool := in_range 48 57 (byte_val c).
Definition positive_digit (c : ascii) : bool := in_range 49 57 (byte_val c).

(** The longest run of digits, and the rest. *)
Fixpoint span_digits (s : string) : string * string :=
  match s with
  | String c r => if digit c then let '(d, t) := span_digits r in (String c d, t) else ("", s)
  | EmptyString => ("", "")
  end.

(** [[1-9][0-9]*] and [0|[1-9][0-9]*], at the start of a text. *)
Definition positive_number (s : string) : option (string * string) :=
  match s with
  | String c r => if positive_digit c then let '(d, t) := span_digits r in Some (String c d, t) else None
  | EmptyString => None
  end.
Definition number (s : string) : option (string * string) :=
  match s with String c r => if Ascii.eqb c "0" then Some ("0"%string, r) else positive_number s | EmptyString => None end.

Record version := Version { v_major : string; v_minor : string; v_patch : string; v_beta : string }.

(** [versionPattern], group by group. *)
Definition parseVersion (value : string) : option version :=
  match cut_prefix value "v" with None => None | Some s =>
  match number s with None => None | Some (major, s) =>
  match cut_prefix s "." with None => None | Some s =>
  match number s with None => None | Some (minor, s) =>
  match cut_prefix s "." with None => None | Some s =>
  match number s with None => None | Some (patch, s) =>
  match s with EmptyString => Some (Version major minor patch "") | _ =>
  match cut_prefix s "-beta." with None => None | Some s =>
  match positive_number s with
  | Some (beta, EmptyString) => Some (Version major minor patch beta)
  | _ => None
  end end end end end end end end end.

Definition ValidateVersion (value : string) : bool := match parseVersion value with Some _ => true | None => false end.

(** [strings.Compare] *)
Fixpoint compare_bytes (a b : string) : Z :=
  match a, b with
  | EmptyString, EmptyString => 0
  | EmptyString, _ => -1
  | _, EmptyString => 1
  | String c a, String d b =>
      if byte_val c <? byte_val d then -1 else if byte_val d <? byte_val c then 1 else compare_bytes a b
  end.

Definition compareNumber (a b : string) : Z :=
  if (slen a <? slen b)%nat then -1 else if (slen b <? slen a)%nat then 1 else compare_bytes a b.

Definition core (v : version) : list string := [v_major v; v_minor v; v_patch v].

(** The loop over the three numbers: the first that differ decide. *)
Fixpoint compare_core (a b : list string) : Z :=
  match a, b with
  | x :: a, y :: b => let c := compareNumber x y in if c =? 0 then compare_core a b else c
  | _, _ => 0
  end.

Definition compareVersion (a b : version) : Z :=
  let c := compare_core (core a) (core b) in
  if negb (c =? 0) then c
  else if String.eqb (v_beta a) "" && negb (String.eqb (v_beta b) "") then 1
  else if negb (String.eqb (v_beta a) "") && String.eqb (v_beta b) "" then -1
  else compareNumber (v_beta a) (v_beta b).

Definition CompareVersions (a b : string) : option Z :=
  match parseVersion a, parseVersion b with
  | Some x, Some y => Some (compareVersion x y)
  | _, _ => None
  end.

Example versions_sample :
  map (uncurry CompareVersions)
    [("v1.10.0", "v1.9.9"); ("v1.0.0-beta.2", "v1.0.0"); ("v1.0.0-beta.10", "v1.0.0-beta.9"); ("v01.0.0", "v1.0.0"); ("v1.0.0", "v1.0.0")]%string
  = [Some 1; Some (-1); Some 1; None; Some 0].
Proof. vm_compute. reflexivity. Qed.

(** [versionmeta.Clean] *)
Definition MaxBytes : nat := 128.
Definition display_char (c : ascii) : bool :=
  let v := byte_val c in
  in_range 97 122 v || in_range 65 90 v || in_range 48 57 v || (v =? 46) || (v =? 45) || (v =? 43) || (v =? 95).
Definition Clean (value : string) : string :=
  if (MaxBytes <? slen value)%nat then "" else if sforall display_char value then value else "".

(** ** Manifests *)

Record Artifact := MkArtifact { a_OS : string; a_Arch : string; a_Name : string; a_Size : Z; a_SHA256 : string }.
Record Manifest := MkManifest { m_Schema : Z; m_Version : string; m_PublishedAt : Z; m_Artifacts : list Artifact }.

Definition MaxManifestSize : Z := Z.shiftl 1 20.
Definition MaxArtifactSize : Z := Z.shiftl 64 20.
Definition PublicKeySize : nat := 32.
Definition SignatureSize : nat := 64.

Definition ArtifactName (goos goarch : string) : string :=
  ("wanctl-" ++ goos ++ "-" ++ goarch ++ (if String.eqb goos "windows" then ".exe" else ""))%string.
Definition APKArch (goarch : string) : string := (goarch ++ ".apk")%string.

(** [hex.DecodeString] *)
Definition hex_value (c : ascii) : option Z :=
  let v := byte_val c in
  if in_range 48 57 v then Some (v - 48)
  else if in_range 97 102 v then Some (v - 87) else if in_range 65 70 v then Some (v - 55) else None.
Fixpoint hex_decode (s : string) : option string :=
  match s with
  | EmptyString => Some ""%string
  | String c (String d s) =>
      match hex_value c, hex_value d, hex_decode s with
      | Some x, Some y, Some t => Some (String (byte_of (x * 16 + y)) t)
      | _, _, _ => None
      end
  | _ => None
  end.

(** What a [json.Decoder] hands over; it is well nested as far as it goes. *)
Inductive token := Delim (c : ascii) | Str (s : string) | Scalar.

Inductive release_error :=
| InvalidSize | DecodeManifest | DuplicateField (key : string) | TrailingData | UnsupportedSchema | InvalidVersion
| MissingFields | InvalidIdentity | NameMismatch | BadArtifactSize | InvalidSHA256 | DuplicatePlatform
| InvalidKey | NoTrustedKey | BadSignatureSize | BadSignature
| InvalidCurrentVersion | ErrBetaNotAllowed | ErrUpToDate | ExactVersionMismatch (offered wanted : string) | NoArtifact
| ReadArtifact | SizeMismatch (got want : Z) | SHA256Mismatch (got : string) | OpenArtifact.

Abbreviation res := (result release_error).

(** [walkJSONValue] after its value's first token [t]; the tokens not yet read
    are passed on.  [dec.More] is false at a closing delimiter and at the end. *)
Fixpoint walk (fuel : nat) (t : token) (l : list token) : res (list token) :=
  match fuel with O => Err DecodeManifest | S fuel =>
  match t with
  | Str _ | Scalar => Ok l
  | Delim c =>
      if Ascii.eqb c "{" then walk_object fuel [] l
      else if Ascii.eqb c "[" then walk_array fuel l
      else Err DecodeManifest
  end end
with walk_object (fuel : nat) (seen : list string) (l : list token) : res (list token) :=
  match fuel with O => Err DecodeManifest | S fuel =>
  match l with
  | [] => Err DecodeManifest
  | Delim c :: l => if Ascii.eqb c "}" then Ok l else Err DecodeManifest
  | Scalar :: _ => Err DecodeManifest
  | Str key :: l =>
      if any (String.eqb key) seen then Err (DuplicateField key)
      else match l with
           | [] => Err DecodeManifest
           | value :: l => match walk fuel value l with Err e => Err e | Ok l => walk_object fuel (key :: seen) l end
           end
  end end
with walk_array (fuel : nat) (l : list token) : res (list token) :=
  match fuel with O => Err DecodeManifest | S fuel =>
  match l with
  | [] => Err DecodeManifest
  | Delim "]"%char :: l => Ok l
  | value :: l => match walk fuel value l with Err e => Err e | Ok l => walk_array fuel l end
  end end.

(** [filepath.Base(a.Name) != a.Name], the identity, the size and the digest. *)
Definition check_artifact (seen : list string) (a : Artifact) : res string :=
  if String.eqb (a_OS a) "" || String.eqb (a_Arch a) "" || String.eqb (a_Name a) "" || negb (String.eqb (base (a_Name a)) (a_Name a))
  then Err InvalidIdentity
  else if negb (String.eqb (a_Name a) (ArtifactName (a_OS a) (a_Arch a))) then Err NameMismatch
  else if (a_Size a <=? 0) || (MaxArtifactSize <? a_Size a) then Err BadArtifactSize
  else match hex_decode (a_SHA256 a) with
       | None => Err InvalidSHA256
       | Some d =>
           if negb (slen d =? 32)%nat || negb (String.eqb (a_SHA256 a) (to_lower (a_SHA256 a))) then Err InvalidSHA256
           else let key := (a_OS a ++ "/" ++ a_Arch a)%string in
                if any (String.eqb key) seen then Err DuplicatePlatform else Ok key
       end.
Fixpoint check_artifacts (seen : list string) (l : list Artifact) : res () :=
  match l with
  | [] => Ok ()
  | a :: l => match check_artifact seen a with Err e => Err e | Ok key => check_artifacts (key :: seen) l end
  end.

(** [ParseTrustedKeys]: by the first eight bytes of their digest. *)
Definition KeyID (pub : string) : string := hex_encode (stake 8 (sha256 pub)).
Fixpoint parse_keys (keys : gmap string string) (l : list string) : res (gmap string string) :=
  match l with
  | [] => Ok keys
  | value :: l =>
      let value := trim_space value in
      if String.eqb value "" then parse_keys keys l
      else match b64_decode value with
           | None => Err InvalidKey
           | Some raw => if negb (slen raw =? PublicKeySize)%nat then Err InvalidKey else parse_keys (<[KeyID raw := raw]> keys) l
           end
  end.
Definition ParseTrustedKeys (encoded : string) : res (gmap string string) :=
  match parse_keys ∅ (split_on "," encoded) with
  | Err e => Err e
  | Ok keys => if (size keys =? 0)%nat then Err NoTrustedKey else Ok keys
  end.

(** [Tokens] reads a text with [dec.Token] as far as it goes: what comes, and
    whether it ends where the text does.  [Decode] reads one value with
    [DisallowUnknownFields]: the manifest, and whether nothing follows it.
    [ed25519_verify] takes the key, the message and the signature. *)
Class Library := { Tokens : string → list token * bool; Decode : string → option (Manifest * bool); ed25519_verify : string → string → string → bool }.

Section verifying.
Context `{Library}.

Definition rejectDuplicateJSONKeys (raw : string) : res () :=
  match Tokens raw with
  | ([], _) => Err DecodeManifest
  | (first :: l, eof) =>
      match walk (2 * length l + 1) first l with
      | Err e => Err e
      | Ok [] => if eof then Ok () else Err TrailingData
      | Ok _ => Err TrailingData
      end
  end.

Definition ParseManifest (raw : string) : res Manifest :=
  if (zlen raw =? 0) || (MaxManifestSize <? zlen raw) then Err InvalidSize else
  match rejectDuplicateJSONKeys raw with Err e => Err e | Ok _ =>
  match Decode raw with
  | None => Err DecodeManifest
  | Some (m, eof) =>
      if negb eof then Err TrailingData
      else if negb (m_Schema m =? 1) then Err UnsupportedSchema
      else if negb (ValidateVersion (m_Version m)) then Err InvalidVersion
      else if is_zero (m_PublishedAt m) || (length (m_Artifacts m) =? 0)%nat then Err MissingFields
      else match check_artifacts [] (m_Artifacts m) with Err e => Err e | Ok _ => Ok m end
  end end.

(** Whether one key verifies does not depend on the order they are tried in. *)
Definition VerifyManifest (manifestRaw signatureRaw trusted : string) : res Manifest :=
  match ParseManifest manifestRaw with Err e => Err e | Ok m =>
  match ParseTrustedKeys trusted with Err e => Err e | Ok keys =>
  if negb (slen signatureRaw =? SignatureSize)%nat then Err BadSignatureSize
  else if any (λ kv, ed25519_verify kv.2 manifestRaw signatureRaw) (map_to_list keys) then Ok m
  else Err BadSignature
  end end.
End verifying.

(** ** Choosing what to install *)

Definition selectArtifact (m : Manifest) (goos goarch : string) : res Artifact :=
  match find_first (λ a, String.eqb (a_OS a) goos && String.eqb (a_Arch a) goarch) (m_Artifacts m) with
  | Some a => Ok a
  | None => Err NoArtifact
  end.

Definition released (currentVersion : string) : bool := negb (String.eqb currentVersion "") && negb (String.eqb currentVersion "dev").

Definition Select (m : Manifest) (goos goarch currentVersion : string) : res Artifact :=
  match parseVersion (m_Version m) with None => Err InvalidVersion | Some next =>
  match (if released currentVersion then parseVersion currentVersion else Some (Version "" "" "" "")) with
  | None => Err InvalidCurrentVersion
  | Some current =>
      if negb (String.eqb (v_beta next) "") && String.eqb (v_beta current) "" then Err ErrBetaNotAllowed
      else if released currentVersion && (compareVersion next current <=? 0) then Err ErrUpToDate
      else selectArtifact m goos goarch
  end end.

Definition SelectExact (m : Manifest) (goos goarch requested : string) : res Artifact :=
  if negb (ValidateVersion requested) then Err InvalidVersion
  else if negb (String.eqb (m_Version m) requested) then Err (ExactVersionMismatch (m_Version m) requested)
  else selectArtifact m goos goarch.

(** ** Receiving an artifact

    A reader gives [r_data] and then ends, or fails; [room] is how much the
    destination takes before a write fails, if it does.  The result is what
    the destination was given. *)
Record reader := Reader { r_data : string; r_fails : bool }.

Definition VerifyArtifact (r : reader) (room : option nat) (a : Artifact) : string * res () :=
  let limit := Z.to_nat (a_Size a + 1) in
  let given := stake limit (r_data r) in
  let kept := match room with Some n => stake n given | None => given end in
  let broken := (slen kept <? slen given)%nat || (r_fails r && (slen (r_data r) <? limit)%nat) in
  (kept,
   if broken then Err ReadArtifact
   else if negb (zlen given =? a_Size a) then Err (SizeMismatch (zlen given) (a_Size a))
   else if negb (String.eqb (hex_encode (sha256 given)) (a_SHA256 a)) then Err (SHA256Mismatch (hex_encode (sha256 given)))
   else Ok ()).

(** [VerifyDirectory]: [opens name] is the file, if it opens, and whether it
    closes. *)
Fixpoint verify_files (opens : string → option (reader * bool)) (l : list Artifact) : res () :=
  match l with
  | [] => Ok ()
  | a :: l =>
      match opens (a_Name a) with
      | None => Err OpenArtifact
      | Some (f, closes) =>
          match (VerifyArtifact f None a).2 with
          | Err e => Err e
          | Ok _ => if closes then verify_files opens l else Err ReadArtifact
          end
      end
  end.
Definition VerifyDirectory `{Library} (opens : string → option (reader * bool)) (manifestRaw signatureRaw trusted : string) : res () :=
  match VerifyManifest manifestRaw signatureRaw trusted with
  | Err e => Err e
  | Ok m => verify_files opens (m_Artifacts m)
  end.

(** ** Numbers in versions *)

Fixpoint value (s : string) : Z :=
  match s with EmptyString => 0 | String c s => (byte_val c - 48) * 10 ^ zlen s + value s end.

Definition canonical (s : string) : bool :=
  sforall digit s && match s with String c r => positive_digit c || String.eqb r "" | EmptyString => false end.

(** The sign of [x - y], as [strings.Compare] reports it. *)
Definition sign (x y : Z) : Z := if x <? y then -1 else if y <? x then 1 else 0.

Lemma sign_add k x y : sign (k + x) (k + y) = sign x y.
Proof. unfold sign. destruct (Z.ltb_spec x y), (Z.ltb_spec y x), (Z.ltb_spec (k + x) (k + y)), (Z.ltb_spec (k + y) (k + x)); lia. Qed.

Lemma digit_range c : digit c = true → 0 <= byte_val c - 48 <= 9.
Proof. unfold digit, in_range. intros D. bsplit. lia. Qed.

Lemma positive_range c : positive_digit c = true → digit c = true ∧ 1 <= byte_val c - 48.
Proof. unfold positive_digit, digit, in_range. intros D. bsplit. rewrite andb_true_iff, !Z.leb_le. lia. Qed.

Lemma value_bound s : sforall digit s = true → 0 <= value s < 10 ^ zlen s.
Proof.
  induction s as [|c s IH]; simpl sforall; intros D; [done|]. bsplit. pose proof (digit_range c H). specialize (IH H0).
  cbn [value]. rewrite zlen_cons, Z.pow_add_r by (pose proof (zlen_nonneg s); lia).
  pose proof (Z.pow_pos_nonneg 10 (zlen s) ltac:(lia) (zlen_nonneg s)). nia.
Qed.

Lemma value_large s : canonical s = true → (1 < slen s)%nat → 10 ^ (zlen s - 1) <= value s.
Proof.
  unfold canonical. destruct s as [|c s]; [done|]. intros C L. simpl sforall in C. bsplit.
  destruct (positive_digit c) eqn:P; [|destruct s; [simpl in L; lia|done]]. apply positive_range in P as [_ P].
  pose proof (value_bound s H1). cbn [value]. rewrite zlen_cons. replace (zlen s + 1 - 1) with (zlen s) by lia.
  pose proof (Z.pow_pos_nonneg 10 (zlen s) ltac:(lia) (zlen_nonneg s)). nia.
Qed.

Lemma compare_bytes_value a b : slen a = slen b → sforall digit a = true → sforall digit b = true →
  compare_bytes a b = sign (value a) (value b).
Proof.
  revert b. induction a as [|c a IH]; intros [|d b]; try done. cbn [String.length sforall compare_bytes value].
  intros [= L] Da Db. bsplit. pose proof (value_bound a H2). pose proof (value_bound b H0). rewrite (IH b) by done.
  assert (zlen a = zlen b) as E by (unfold zlen; by rewrite L). rewrite E in *.
  pose proof (Z.pow_pos_nonneg 10 (zlen b) ltac:(lia) (zlen_nonneg b)). unfold sign.
  destruct (Z.ltb_spec (byte_val c) (byte_val d)); [by rewrite (proj2 (Z.ltb_lt _ _)) by nia|].
  destruct (Z.ltb_spec (byte_val d) (byte_val c)); [rewrite (proj2 (Z.ltb_ge _ _)) by nia; by rewrite (proj2 (Z.ltb_lt _ _)) by nia|].
  assert (byte_val c = byte_val d) as -> by lia. symmetry. apply sign_add.
Qed.

Lemma compareNumber_value a b : canonical a = true → canonical b = true → compareNumber a b = sign (value a) (value b).
Proof.
  assert (∀ x y, canonical x = true → canonical y = true → (slen x < slen y)%nat → value x < value y) as S.
  { intros x y Cx Cy L. assert (1 <= slen x)%nat by (destruct x; [done|simpl; lia]). pose proof (value_large y Cy ltac:(lia)).
    assert (sforall digit x = true) as D by (unfold canonical in Cx; by bsplit). pose proof (value_bound x D).
    assert (10 ^ zlen x <= 10 ^ (zlen y - 1)); [|lia]. apply Z.pow_le_mono_r; unfold zlen; lia. }
  intros Ca Cb. unfold compareNumber, sign. destruct (Nat.ltb_spec (slen a) (slen b)) as [L|L].
  { rewrite (proj2 (Z.ltb_lt _ _)); [done|by apply S]. }
  destruct (Nat.ltb_spec (slen b) (slen a)) as [K|K].
  { pose proof (S b a Cb Ca K). rewrite (proj2 (Z.ltb_ge _ _)) by lia. by rewrite (proj2 (Z.ltb_lt _ _)) by lia. }
  unfold canonical in *. bsplit. apply compare_bytes_value; [lia|done..].
Qed.

Lemma compare_bytes_eq a b : compare_bytes a b = 0 → a = b.
Proof.
  revert b. induction a as [|c a IH]; intros [|d b]; simpl; try done.
  destruct (Z.ltb_spec (byte_val c) (byte_val d)); [done|]. destruct (Z.ltb_spec (byte_val d) (byte_val c)); [done|].
  intros E. f_equal; [apply byte_val_inj; lia|by apply IH].
Qed.

Lemma compareNumber_eq a b : compareNumber a b = 0 → a = b.
Proof. unfold compareNumber. do 2 (destruct (Nat.ltb _ _); [done|]). apply compare_bytes_eq. Qed.

(** ** What [parseVersion] reads *)

Lemma span_digits_spec s d t : span_digits s = (d, t) → s = (d ++ t)%string ∧ sforall digit d = true.
Proof.
  revert d t. induction s as [|c s IH]; intros d t; simpl; [by intros [= <- <-]|].
  destruct (digit c) eqn:D; [|by intros [= <- <-]]. destruct (span_digits s) as [d' t'] eqn:E. intros [= <- <-].
  destruct (IH _ _ eq_refl) as [-> F]. simpl. by rewrite D, F.
Qed.

Lemma positive_number_spec s n t : positive_number s = Some (n, t) → s = (n ++ t)%string ∧ canonical n = true.
Proof.
  destruct s as [|c s]; simpl; [done|]. destruct (positive_digit c) eqn:P; [|done]. destruct (span_digits s) as [d u] eqn:E. intros [= <- <-].
  apply span_digits_spec in E as [-> F]. split; [done|]. unfold canonical. simpl. rewrite F, P. by destruct (positive_range c P) as [-> _].
Qed.

Lemma number_spec s n t : number s = Some (n, t) → s = (n ++ t)%string ∧ canonical n = true.
Proof.
  destruct s as [|c s]; simpl; [done|]. destruct (Ascii.eqb_spec c "0") as [->|N]; [by intros [= <- <-]|]. apply (positive_number_spec (String c s)).
Qed.

Definition render (v : version) : string :=
  ("v" ++ v_major v ++ "." ++ v_minor v ++ "." ++ v_patch v ++ (if String.eqb (v_beta v) "" then "" else "-beta." ++ v_beta v))%string.

Definition regular (v : version) : Prop :=
  canonical (v_major v) = true ∧ canonical (v_minor v) = true ∧ canonical (v_patch v) = true ∧ (v_beta v = ""%string ∨ canonical (v_beta v) = true).

Lemma parseVersion_spec s v : parseVersion s = Some v → s = render v ∧ regular v.
Proof.
  unfold parseVersion. intros E.
  destruct (cut_prefix s "v") as [s1|] eqn:C1; [|done]. apply cut_prefix_Some in C1.
  destruct (number s1) as [[n1 s2]|] eqn:N1; [|done]. apply number_spec in N1 as [-> K1].
  destruct (cut_prefix s2 ".") as [s3|] eqn:C2; [|done]. apply cut_prefix_Some in C2.
  destruct (number s3) as [[n2 s4]|] eqn:N2; [|done]. apply number_spec in N2 as [-> K2].
  destruct (cut_prefix s4 ".") as [s5|] eqn:C3; [|done]. apply cut_prefix_Some in C3.
  destruct (number s5) as [[n3 s6]|] eqn:N3; [|done]. apply number_spec in N3 as [-> K3]. subst s4 s2 s.
  unfold regular, render. destruct s6 as [|c s6].
  { injection E as <-. cbn [v_major v_minor v_patch v_beta]. split; [by simpl|]. eauto. }
  destruct (cut_prefix (String c s6) "-beta.") as [s7|] eqn:C4; [|done]. apply cut_prefix_Some in C4. rewrite C4.
  destruct (positive_number s7) as [[b [|]]|] eqn:N4; [|done..]. apply positive_number_spec in N4 as [-> K4]. injection E as <-.
  cbn [v_major v_minor v_patch v_beta]. rewrite app_nil_s. split; [|by eauto 6].
  assert (String.eqb b "" = false) as -> by (by destruct b). done.
Qed.

(** ** The order of versions *)

(** A version as numbers: a beta comes before the release it leads to. *)
Definition rank (v : version) : list Z :=
  [value (v_major v); value (v_minor v); value (v_patch v); if String.eqb (v_beta v) "" then 1 else 0; value (v_beta v)].

Fixpoint lex (l k : list Z) : Z :=
  match l, k with
  | x :: l, y :: k => if x <? y then -1 else if y <? x then 1 else lex l k
  | _, _ => 0
  end.

Lemma lex_cons x l y k : lex (x :: l) (y :: k) = if sign x y =? 0 then lex l k else sign x y.
Proof. unfold sign. cbn [lex]. by do 2 (destruct (Z.ltb _ _); [done|]). Qed.

Lemma compareVersion_rank a b : regular a → regular b → compareVersion a b = lex (rank a) (rank b).
Proof.
  intros (A1 & A2 & A3 & A4) (B1 & B2 & B3 & B4). unfold compareVersion, core, rank. cbn [compare_core]. rewrite !compareNumber_value by done.
  rewrite !lex_cons. cbv zeta.
  destruct (sign (value (v_major a)) _ =? 0) eqn:E1; [|by rewrite E1]. destruct (sign (value (v_minor a)) _ =? 0) eqn:E2; [|by rewrite E2].
  destruct (sign (value (v_patch a)) _ =? 0) eqn:E3; [|by rewrite E3]. simpl (negb _). cbv iota. cbn [lex].
  destruct A4 as [A4|A4], B4 as [B4|B4]; rewrite ?A4, ?B4; [done|..].
  - assert (String.eqb (v_beta b) "" = false) as -> by (by destruct (v_beta b)). done.
  - assert (String.eqb (v_beta a) "" = false) as -> by (by destruct (v_beta a)). done.
  - assert (String.eqb (v_beta a) "" = false) as -> by (by destruct (v_beta a)).
    assert (String.eqb (v_beta b) "" = false) as -> by (by destruct (v_beta b)). rewrite compareNumber_value by done. unfold sign. simpl.
    by do 2 (destruct (Z.ltb _ _); [done|]).
Qed.

Lemma compareVersion_eq a b : compareVersion a b = 0 → a = b.
Proof.
  unfold compareVersion, core. cbn [compare_core]. cbv zeta.
  destruct (compareNumber (v_major a) _ =? 0) eqn:E1; [|rewrite E1; bsplit; done].
  destruct (compareNumber (v_minor a) _ =? 0) eqn:E2; [|rewrite E2; bsplit; done].
  destruct (compareNumber (v_patch a) _ =? 0) eqn:E3; [|rewrite E3; bsplit; done]. bsplit. simpl (negb _). cbv iota.
  do 2 (destruct (_ && _); [done|]). intros E4. apply compareNumber_eq in E1, E2, E3, E4. destruct a, b. simpl in *. by subst.
Qed.

Lemma lex_trans l k m : lex l k = -1 → lex k m = -1 → lex l m = -1.
Proof.
  revert k m. induction l as [|x l IH]; intros [|y k] [|z m]; cbn [lex]; try done.
  destruct (Z.ltb_spec x y), (Z.ltb_spec y x), (Z.ltb_spec y z), (Z.ltb_spec z y), (Z.ltb_spec x z), (Z.ltb_spec z x); try done; try lia. apply IH.
Qed.
Lemma lex_opp l k : lex k l = - lex l k.
Proof.
  revert k. induction l as [|x l IH]; intros [|y k]; cbn [lex]; try done. destruct (Z.ltb_spec x y), (Z.ltb_spec y x); try lia; try done; apply IH.
Qed.
Lemma lex_sign l k : lex l k = -1 ∨ lex l k = 0 ∨ lex l k = 1.
Proof. revert k. induction l as [|x l IH]; intros [|y k]; cbn [lex]; auto. destruct (x <? y); [auto|]. destruct (y <? x); auto. Qed.
Lemma lex_refl l : lex l l = 0.
Proof. induction l as [|x l IH]; [done|]. cbn [lex]. by rewrite Z.ltb_irrefl. Qed.

(** Versions are ordered by their numbers, of whatever size, with a beta
    before its release; two versions compare equal only when they are the same
    text, and "older than" is a strict total order. *)
Lemma version_order a b c x y z :
  parseVersion a = Some x → parseVersion b = Some y → parseVersion c = Some z →
  CompareVersions a b = Some (lex (rank x) (rank y))
  ∧ (CompareVersions a b = Some 0 ↔ a = b)
  ∧ CompareVersions b a = Some (- lex (rank x) (rank y))
  ∧ (CompareVersions a b = Some (-1) → CompareVersions b c = Some (-1) → CompareVersions a c = Some (-1)).
Proof.
  intros Pa Pb Pc. unfold CompareVersions. rewrite Pa, Pb, Pc.
  pose proof (parseVersion_spec a x Pa) as [Ta Rx]. pose proof (parseVersion_spec b y Pb) as [Tb Ry]. pose proof (parseVersion_spec c z Pc) as [Tc Rz].
  rewrite !compareVersion_rank by done. split; [done|]. split; [|split; [by rewrite lex_opp|]].
  - split; [|intros <-; rewrite Pa in Pb; injection Pb as <-; by rewrite lex_refl].
    intros E%(inj Some). rewrite <- compareVersion_rank in E by done. by rewrite Ta, Tb, (compareVersion_eq x y E).
  - intros E1%(inj Some) E2%(inj Some). f_equal. by apply (lex_trans _ (rank y)).
Qed.

Example version_order_witness : CompareVersions "v1.9.0" "v1.10.0" = Some (-1) ∧ CompareVersions "v1.10.0" "v1.9.0" = Some 1.
Proof.
  destruct (version_order "v1.9.0" "v1.10.0" "v2.0.0" (Version "1" "9" "0" "") (Version "1" "10" "0" "") (Version "2" "0" "0" "")) as (A & _ & B & _);
    [reflexivity..|]. split; [exact A|exact B].
Defined.

(** ** The scan for repeated names

    A JSON value, the tokens it is written with, and whether some object in it
    names a field twice. *)
#[local] Unset Elimination Schemes.
Inductive json := JStr (s : string) | JScalar | JObj (fields : list (string * json)) | JArr (items : list json).
#[local] Set Elimination Schemes.

Section json_ind.
Context (P : json → Prop).
Hypothesis (Hstr : ∀ s, P (JStr s)) (Hscalar : P JScalar) (Hobj : ∀ l, Forall (λ kv, P kv.2) l → P (JObj l)) (Harr : ∀ l, Forall P l → P (JArr l)).
Fixpoint json_ind (j : json) : P j :=
  match j with
  | JStr s => Hstr s
  | JScalar => Hscalar
  | JObj l => Hobj l ((fix go l : Forall (λ kv, P kv.2) l := match l with [] => Forall_nil_2 _ | kv :: l => Forall_cons_2 _ kv l (json_ind kv.2) (go l) end) l)
  | JArr l => Harr l ((fix go l : Forall P l := match l with [] => Forall_nil_2 _ | j :: l => Forall_cons_2 _ j l (json_ind j) (go l) end) l)
  end.
End json_ind.

Definition first_token (j : json) : token :=
  match j with JStr s => Str s | JScalar => Scalar | JObj _ => Delim "{" | JArr _ => Delim "[" end.
Fixpoint later_tokens (j : json) : list token :=
  match j with
  | JStr _ | JScalar => []
  | JObj l => flat_map (λ kv, Str kv.1 :: first_token kv.2 :: later_tokens kv.2) l ++ [Delim "}"]
  | JArr l => flat_map (λ j, first_token j :: later_tokens j) l ++ [Delim "]"]
  end.

Fixpoint repeats (seen l : list string) : bool :=
  match l with [] => false | k :: l => any (String.eqb k) seen || repeats (k :: seen) l end.
Fixpoint unambiguous (j : json) : bool :=
  match j with
  | JStr _ | JScalar => true
  | JObj l => negb (repeats [] (map fst l)) && forallb (λ kv, unambiguous kv.2) l
  | JArr l => forallb unambiguous l
  end.

(** With [fuel] for [n] tokens the scan of a value passes over exactly its own
    tokens, or refuses it. *)
Definition scans (ok : bool) (n : nat) (run : nat → list token → res (list token)) : Prop :=
  ∀ fuel l, (n <= fuel)%nat → if ok then run fuel l = Ok l else is_ok (run fuel l) = false.

Definition walks (j : json) : Prop :=
  scans (unambiguous j) (2 * length (later_tokens j) + 1) (λ fuel l, walk fuel (first_token j) (later_tokens j ++ l)).

Lemma walks_array l : Forall walks l →
  scans (forallb unambiguous l) (2 * length (later_tokens (JArr l)))
    (λ fuel r, walk_array fuel (later_tokens (JArr l) ++ r)).
Proof.
  induction 1 as [|j l W _ IH]; intros fuel r L.
  { simpl in *. destruct fuel as [|fuel]; [lia|done]. }
  cbn [later_tokens flat_map app] in *. rewrite <- !app_assoc in *. cbn [app length] in *. rewrite !length_app in *.
  destruct fuel as [|fuel]; [lia|]. cbn [walk_array forallb].
  specialize (W fuel (flat_map (λ j, first_token j :: later_tokens j) l ++ Delim "]" :: r)). cbv beta in W.
  assert (match first_token j with Delim "]"%char => False | _ => True end) as N by (by destruct j).
  assert (walk_array (S fuel) (first_token j :: later_tokens j ++ flat_map (λ j, first_token j :: later_tokens j) l ++ Delim "]" :: r)
    = match walk fuel (first_token j) (later_tokens j ++ flat_map (λ j, first_token j :: later_tokens j) l ++ Delim "]" :: r) with
      | Err e => Err e | Ok l => walk_array fuel l end) as E by (by destruct j).
  cbn [walk_array] in E. rewrite E. clear E N.
  destruct (unambiguous j); [|destruct (walk _ _ _); [by specialize (W ltac:(lia))|done]].
  rewrite W by lia. specialize (IH fuel r ltac:(cbn [length]; simpl in *; lia)). cbv beta in IH. rewrite <- app_assoc in IH. exact IH.
Qed.

Lemma walks_object l : Forall (λ kv, walks kv.2) l → ∀ seen,
  scans (negb (repeats seen (map fst l)) && forallb (λ kv, unambiguous kv.2) l) (2 * length (later_tokens (JObj l)))
    (λ fuel r, walk_object fuel seen (later_tokens (JObj l) ++ r)).
Proof.
  induction 1 as [|[k j] l W _ IH]; intros seen fuel r L.
  { simpl in *. destruct fuel as [|fuel]; [lia|done]. }
  cbn [later_tokens flat_map app fst snd] in *. rewrite <- !app_assoc in *. cbn [app length] in *. rewrite !length_app in *. cbn [length] in L.
  destruct fuel as [|fuel]; [lia|]. cbn [walk_object forallb map fst snd repeats].
  destruct (any (String.eqb k) seen); [done|]. simpl (false || _).
  specialize (W fuel (flat_map (λ kv, Str kv.1 :: first_token kv.2 :: later_tokens kv.2) l ++ Delim "}" :: r)). cbv beta in W.
  destruct (unambiguous j); [|rewrite andb_false_r; destruct (walk _ _ _); [by specialize (W ltac:(lia))|done]].
  rewrite W by lia. simpl (true && _).
  specialize (IH (k :: seen) fuel r ltac:(cbn [length]; lia)). cbv beta in IH. rewrite <- app_assoc in IH. exact IH.
Qed.

Lemma walk_value j : walks j.
Proof.
  induction j as [s| |l IH|l IH] using json_ind; intros fuel r L; (destruct fuel as [|fuel]; [lia|]); [done|done|..]; cbn [walk first_token].
  - exact (walks_object l IH [] fuel r ltac:(lia)).
  - exact (walks_array l IH fuel r ltac:(lia)).
Qed.

(** The text of a JSON value is let through just when no object in it names a
    field twice, at any depth. *)
Lemma scan_unambiguous `{Library} raw j :
  Tokens raw = (first_token j :: later_tokens j, true) → is_ok (rejectDuplicateJSONKeys raw) = unambiguous j.
Proof.
  intros T. unfold rejectDuplicateJSONKeys. rewrite T. pose proof (walk_value j (2 * length (later_tokens j) + 1)%nat [] ltac:(lia)) as W.
  cbv beta in W. rewrite app_nil_r in W. destruct (unambiguous j); [by rewrite W|]. by destruct (walk _ _ _).
Qed.

(** ** Accepted manifests *)

Lemma hex_digit_value c v : hex_value c = Some v → 0 <= v < 16 ∧ hex_digit v = lower_byte c.
Proof.
  unfold hex_value, hex_digit, lower_byte, in_range. pose proof (byte_val_range c) as R. intros E.
  destruct ((48 <=? byte_val c) && _) eqn:D; [|destruct ((97 <=? byte_val c) && _) eqn:D2; [|destruct ((65 <=? byte_val c) && _) eqn:D3; [|done]]];
    injection E as <-; bsplit; (split; [lia|]).
  - rewrite (proj2 (Z.ltb_lt _ _)) by lia. replace (48 + (byte_val c - 48)) with (byte_val c) by lia. rewrite byte_of_val.
    destruct (Z.leb_spec 65 (byte_val c)); [lia|done].
  - rewrite (proj2 (Z.ltb_ge _ _)) by lia. replace (87 + (byte_val c - 87)) with (byte_val c) by lia. rewrite byte_of_val.
    destruct (Z.leb_spec (byte_val c) 90); [lia|by rewrite andb_false_r].
  - rewrite (proj2 (Z.ltb_ge _ _)) by lia. rewrite (proj2 (Z.leb_le 65 _)), (proj2 (Z.leb_le _ 90)) by lia. cbn [andb]. f_equal. lia.
Qed.

Lemma str_ind2 (P : string → Prop) : P ""%string → (∀ c, P (String c "")) → (∀ c d s, P s → P (String c (String d s))) → ∀ s, P s.
Proof.
  intros P0 P1 P2 s. enough (P s ∧ ∀ c, P (String c s)) by easy. induction s as [|d s [IH1 IH2]]; [by split|]. split; [apply IH2|]. intros c. by apply P2.
Qed.

Lemma hex_decode_encode s d : hex_decode s = Some d → hex_encode d = to_lower s.
Proof.
  revert d. induction s as [| |c1 c2 s IH] using str_ind2; intros d; simpl; [by intros [= <-]|done|].
  destruct (hex_value c1) as [x|] eqn:X; [|done]. destruct (hex_value c2) as [y|] eqn:Y; [|done]. destruct (hex_decode s) as [t|] eqn:T; [|done].
  intros [= <-]. apply hex_digit_value in X as [Rx <-], Y as [Ry <-]. simpl. rewrite byte_val_of by lia.
  rewrite (IH t) by done. replace ((x * 16 + y) / 16) with x by (Z.div_mod_to_equations; lia). by replace ((x * 16 + y) mod 16) with y by (Z.div_mod_to_equations; lia).
Qed.

(** What is known of every artifact of an accepted manifest. *)
Definition sound_artifact (a : Artifact) : Prop :=
  a_OS a ≠ ""%string ∧ a_Arch a ≠ ""%string ∧ base (a_Name a) = a_Name a ∧ a_Name a = ArtifactName (a_OS a) (a_Arch a)
  ∧ 0 < a_Size a <= MaxArtifactSize ∧ ∃ d, slen d = 32%nat ∧ a_SHA256 a = hex_encode d.

Definition platform (a : Artifact) : string := (a_OS a ++ "/" ++ a_Arch a)%string.

Definition sound_manifest (m : Manifest) : Prop :=
  m_Schema m = 1 ∧ ValidateVersion (m_Version m) = true ∧ m_PublishedAt m ≠ 0 ∧ m_Artifacts m ≠ []
  ∧ Forall sound_artifact (m_Artifacts m) ∧ NoDup (map platform (m_Artifacts m)).

Lemma check_artifact_Ok seen a k : check_artifact seen a = Ok k → sound_artifact a ∧ k = platform a ∧ platform a ∉ seen.
Proof.
  unfold check_artifact. intros E. case_hyp E. bsplit; ssplit. injection E as <-.
  assert (to_lower (a_SHA256 a) = a_SHA256 a) as Lo by (by symmetry). rename select (hex_decode _ = Some _) into D. pose proof (hex_decode_encode _ _ D) as Hd.
  split; [|split; [done|]].
  - unfold sound_artifact. repeat split; [done..|lia|lia|]. eexists. split; [done|]. congruence.
  - intros Hin. rename select (any _ seen = false) into A. pose proof (proj1 (any_false _ _) A _ Hin) as N. by rewrite String.eqb_refl in N.
Qed.

Lemma check_artifacts_Ok seen l u : check_artifacts seen l = Ok u →
  Forall sound_artifact l ∧ NoDup (map platform l) ∧ ∀ a, a ∈ l → platform a ∉ seen.
Proof.
  revert seen. induction l as [|a l IH]; intros seen; simpl; [split; [constructor|split; [constructor|by intros a ?%elem_of_nil]]|].
  destruct (check_artifact seen a) as [k|] eqn:C; [|done]. intros E. apply check_artifact_Ok in C as (S & -> & N). apply IH in E as (F & D & O).
  split; [by constructor|]. split; [|set_solver]. constructor; [|done]. intros (b & Eb & Hb)%list_elem_of_fmap. specialize (O b Hb). set_solver.
Qed.

Lemma ParseManifest_Ok `{Library} raw m : ParseManifest raw = Ok m →
  sound_manifest m ∧ Decode raw = Some (m, true) ∧ is_ok (rejectDuplicateJSONKeys raw) = true ∧ 0 < zlen raw <= MaxManifestSize.
Proof.
  unfold ParseManifest. intros E. destruct (_ || _) eqn:L; [done|]. destruct (rejectDuplicateJSONKeys raw) eqn:R; [|done].
  destruct (Decode raw) as [[n eof]|] eqn:D; [|done]. destruct (negb eof) eqn:Ee; [done|]. case_hyp E. injection E as <-. bsplit. subst eof.
  rename select (check_artifacts _ _ = _) into C. apply check_artifacts_Ok in C as (F & N & _). pose proof (zlen_nonneg raw).
  split; [|by repeat split; auto; lia]. unfold is_zero in *. bsplit. repeat split; try done. intros E. by rewrite E in *.
Qed.

(** ** Trusted keys *)

Definition compiled_in (trusted pub : string) : Prop :=
  ∃ w, w ∈ split_on "," trusted ∧ b64_decode (trim_space w) = Some pub ∧ slen pub = PublicKeySize.

Lemma parse_keys_Ok keys l r : parse_keys keys l = Ok r → ∀ i k, r !! i = Some k →
  keys !! i = Some k ∨ ∃ w, w ∈ l ∧ b64_decode (trim_space w) = Some k ∧ slen k = PublicKeySize.
Proof.
  revert keys. induction l as [|w l IH]; intros keys; simpl; [intros [= <-]; auto|]. intros E i k Hk.
  destruct (String.eqb (trim_space w) ""); [destruct (IH keys E i k Hk) as [|(v & ? & ?)]; [auto|right; exists v; set_solver]|].
  destruct (b64_decode (trim_space w)) as [raw|] eqn:D; [|done]. destruct (negb _) eqn:L; [done|]. bsplit.
  destruct (IH _ E i k Hk) as [K|(v & ? & ?)]; [|right; exists v; set_solver]. apply lookup_insert_Some in K as [[_ <-]|[_ K]]; [|auto].
  right. exists w. set_solver.
Qed.

(** What [VerifyManifest] returns was signed, byte for byte, by a key compiled
    in, and every check of [ParseManifest] passed. *)
Lemma manifest_is_signed `{Library} raw sig trusted m : VerifyManifest raw sig trusted = Ok m →
  sound_manifest m ∧ Decode raw = Some (m, true) ∧ is_ok (rejectDuplicateJSONKeys raw) = true
  ∧ slen sig = SignatureSize ∧ ∃ pub, compiled_in trusted pub ∧ ed25519_verify pub raw sig = true.
Proof.
  unfold VerifyManifest. destruct (ParseManifest raw) as [n|] eqn:P; [|done]. unfold ParseTrustedKeys. destruct (parse_keys ∅ _) as [keys|] eqn:K; [|done].
  destruct (size keys =? 0)%nat; [done|]. destruct (negb _) eqn:L; [done|]. destruct (any _ _) eqn:A; [|done]. intros [= <-].
  apply ParseManifest_Ok in P as (S & D & R & _). bsplit. do 4 (split; [done|]). apply any_true in A as ([i pub] & Hin & V). exists pub. split; [|done].
  apply elem_of_map_to_list in Hin. by destruct (parse_keys_Ok _ _ _ K i pub Hin) as [?%lookup_empty_Some|].
Qed.

(** ** Artifacts *)

(** An artifact passes exactly when all of its source, without an error, is the
    signed size and has the signed digest, and there was room for it. *)
Lemma artifact_exact r room a kept : 0 < a_Size a →
  VerifyArtifact r room a = (kept, Ok ()) ↔
  kept = r_data r ∧ zlen kept = a_Size a ∧ hex_encode (sha256 kept) = a_SHA256 a ∧ r_fails r = false
  ∧ match room with Some n => (slen kept <= n)%nat | None => True end.
Proof.
  intros P. unfold VerifyArtifact. cbv zeta. set (limit := Z.to_nat (a_Size a + 1)). assert (Z.of_nat limit = a_Size a + 1) as Lm by (unfold limit; lia).
  assert (slen (stake limit (r_data r)) = Nat.min limit (slen (r_data r))) as Lg by apply slen_stake. unfold zlen. split.
  - intros [= Ek E]. destruct (_ || _) eqn:B; [done|]. destruct (negb (Z.of_nat _ =? _)) eqn:Sz; [done|]. destruct (negb (String.eqb _ _)) eqn:D; [done|]. ssplit.
    assert (slen (r_data r) < limit)%nat as Ld by lia. rewrite stake_all in * by lia.
    assert (kept = r_data r) as ->. { subst kept. destruct room as [n|]; [|done]. rewrite slen_stake in *. apply stake_all. lia. }
    split; [done|]. split; [done|]. split; [done|]. rename select (_ && _ = false) into F.
    split; [destruct (r_fails r); [|done]; bsplit; apply Nat.ltb_ge in F; lia|]. destruct room as [n|]; [|done]. rewrite slen_stake in *. lia.
  - intros (-> & Z & D & F & R). rewrite (stake_all limit) by lia. rewrite Z, D, F, Z.eqb_refl, String.eqb_refl. cbn [andb negb orb].
    assert (match room with Some n => stake n (r_data r) | None => r_data r end = r_data r) as -> by (destruct room; [by apply stake_all|done]).
    by rewrite Nat.ltb_irrefl.
Qed.

(** The destination is never given more than one byte beyond the signed size. *)
Lemma artifact_bounded r room a : 0 <= a_Size a → zlen (VerifyArtifact r room a).1 <= a_Size a + 1.
Proof. intros P. unfold VerifyArtifact, zlen. cbn [fst]. destruct room; rewrite ?slen_stake; lia. Qed.

(** ** The choice *)

Lemma selectArtifact_Ok m goos goarch a : selectArtifact m goos goarch = Ok a → a ∈ m_Artifacts m ∧ a_OS a = goos ∧ a_Arch a = goarch.
Proof.
  unfold selectArtifact. destruct (find_first _ _) as [b|] eqn:F; [|done]. intros [= <-]. apply find_first_Some in F as [Hb E]. by bsplit; ssplit.
Qed.

(** Without a request, what is chosen is newer than what runs, and a beta is
    chosen only for a build that is one. *)
Lemma Select_Ok m goos goarch current a : Select m goos goarch current = Ok a →
  selectArtifact m goos goarch = Ok a
  ∧ (released current = true → CompareVersions current (m_Version m) = Some (-1))
  ∧ ∀ v, parseVersion (m_Version m) = Some v → v_beta v ≠ ""%string →
      ∃ c, released current = true ∧ parseVersion current = Some c ∧ v_beta c ≠ ""%string.
Proof.
  unfold Select. destruct (parseVersion (m_Version m)) as [next|] eqn:N; [|done]. destruct (released current) eqn:R.
  - destruct (parseVersion current) as [c|] eqn:C; [|done]. destruct (_ && _) eqn:B; [done|]. cbn [andb]. destruct (Z.leb_spec (compareVersion next c) 0) as [|L]; [done|].
    intros E. split; [done|]. split.
    + intros _. unfold CompareVersions. rewrite C, N. f_equal. apply parseVersion_spec in C as [_ Rc], N as [_ Rn].
      rewrite compareVersion_rank in L |- * by done. rewrite lex_opp in L. destruct (lex_sign (rank c) (rank next)) as [?|[?|?]]; lia.
    + intros v [= <-] V. exists c. split; [done|]. split; [done|]. intros W. apply andb_false_iff in B as [B|B]; ssplit; [by apply V|].
      by rewrite W in B.
  - cbn [v_beta]. destruct (_ && _) eqn:B; [done|]. cbn [andb]. intros E. split; [done|]. split; [done|]. intros v [= <-] V.
    exfalso. apply andb_false_iff in B as [B|B]; ssplit; done.
Qed.

Lemma SelectExact_Ok m goos goarch requested a : SelectExact m goos goarch requested = Ok a →
  selectArtifact m goos goarch = Ok a ∧ m_Version m = requested ∧ ValidateVersion requested = true.
Proof. unfold SelectExact. intros E. destruct (negb _) eqn:V; [done|]. destruct (negb (String.eqb _ _)) eqn:W; [done|]. by bsplit; ssplit. Qed.
