(* ===== verification/Update.v ===== *)
(** [update.go], [autoupdate.go], [portal_install.go], [update_unix.go] and the
    stopping and starting of the agent in [daemon.go]: replacing the running
    binary with a release.

    The network, the file system and the other processes answer as they like;
    their answers are arguments.  A directory is the map of its files; what the
    program does to other processes is the list of its actions. *)

From S2P Require Import Prelude GoStrings GoUtf8 GoCodec GoPath Release.

Local Open Scope Z_scope.

(** ** Sources *)

Fixpoint trim_slashes (s : string) : string :=
  match s with
  | EmptyString => ""
  | String c s => let t := trim_slashes s in if Ascii.eqb c "/" && String.eqb t "" then "" else String c t
  end.

Definition official_download (requested : string) : string :=
  ("https://github.com/Daily-AC/wanctl/releases/download/" ++ requested)%string.

Definition add_missing (s : string) (l : list string) : list string := if any (String.eqb s) l then l else l ++ [s].

(** [updateSourcesForVersion] with the settings [config.ReleaseBase] and
    [config.Relay]; [None] is an error. *)
Definition updateSourcesForVersion (release_base relay requested : string) : option (list string) :=
  if negb (String.eqb requested "") && negb (ValidateVersion requested) then None else
  let bases := if negb (String.eqb requested "") && contains requested "-beta." then [official_download requested] else [] in
  let bases :=
    if String.eqb release_base "" then bases
    else let base := trim_slashes release_base in
         let base :=
           if negb (String.eqb requested "") && has_suffix base "/releases/latest/download"
           then (stake (slen base - slen "/latest/download") base ++ "/download/" ++ requested)%string else base in
         match bases with b :: _ => if String.eqb b base then bases else bases ++ [base] | [] => [base] end in
  let bases := if String.eqb relay "" then bases else add_missing (trim_slashes relay ++ "/dl") bases in
  let bases := if String.eqb requested "" then bases else add_missing (official_download requested) bases in
  match bases with [] => None | _ => Some bases end.

(** ** Fetching *)

Inductive update_error :=
| NoAnswer (url : string) | HTTPStatus (url : string) (code : Z) | TooLarge | BadBody (network : bool)
| ReleaseError (e : release_error) | NoTemp | BadArtifact (e : release_error) (network : bool) | SyncFailed | CloseFailed
| NoSource | NotInstalled (requested : string) | NoRights | ChmodFailed | ReplaceFailed | StopFailed | RestartFailed
| APKSelfUpdate | BadArguments | TooDeep.

Definition up_to_date (e : update_error) : bool := match e with ReleaseError ErrUpToDate => true | _ => false end.

(** [None]: the request failed.  [p_network]: if reading the body fails, it is
    with a [net.Error]. *)
Record reply := Reply { p_status : Z; p_length : Z; p_body : reader; p_network : bool }.
Abbreviation web := (string → option reply).
Abbreviation directory := (gmap string string).

Definition fetchLimited (net : web) (url : string) (limit : Z) : result update_error string :=
  match net url with
  | None => Err (NoAnswer url)
  | Some r =>
      if negb (p_status r =? 200) then Err (HTTPStatus url (p_status r))
      else if limit <? p_length r then Err TooLarge
      else let raw := stake (Z.to_nat (limit + 1)) (r_data (p_body r)) in
           if r_fails (p_body r) && (zlen (r_data (p_body r)) <? limit + 1) then Err (BadBody (p_network r))
           else if limit <? zlen raw then Err TooLarge
           else Ok raw
  end.

Section updates.
Context `{Library} (TrustedPublicKeys : string).

Definition lift {A} (m : res A) : result update_error A := match m with Ok a => Ok a | Err e => Err (ReleaseError e) end.

Definition selectSignedUpdate (net : web) (base goos goarch currentVersion requested : string) : result update_error (Manifest * Artifact) :=
  match fetchLimited net (base ++ "/manifest.json") MaxManifestSize with Err e => Err e | Ok manifestRaw =>
  match fetchLimited net (base ++ "/manifest.json.sig") 4096 with Err e => Err e | Ok signatureRaw =>
  match lift (VerifyManifest manifestRaw signatureRaw TrustedPublicKeys) with Err e => Err e | Ok manifest =>
  match lift (if String.eqb requested "" then Select manifest goos goarch currentVersion else SelectExact manifest goos goarch requested) with
  | Err e => Err e
  | Ok artifact => Ok (manifest, artifact)
  end end end end.

Definition checkSignedUpdate (net : web) (base goos goarch currentVersion : string) : result update_error string :=
  match selectSignedUpdate net base goos goarch currentVersion "" with Err e => Err e | Ok (m, _) => Ok (m_Version m) end.

(** The operating system under one download: the random part of the temporary
    name, the room left, whether syncing, closing and removing work. *)
Definition temp_name (random : string) : string := ("wanctl-update-" ++ random ++ ".tmp")%string.
Record temp_env := TempEnv { t_random : option string; t_room : option nat; t_sync : bool; t_close : bool; t_remove : bool }.
Definition discard (t : temp_env) (name : string) (d : directory) : directory := if t_remove t then delete name d else d.

Definition downloadSignedVersion (net : web) (t : temp_env) (base goos goarch currentVersion requested : string) (d : directory)
  : directory * result update_error (string * string) :=
  match selectSignedUpdate net base goos goarch currentVersion requested with Err e => (d, Err e) | Ok (m, a) =>
  let url := (base ++ "/" ++ a_Name a)%string in
  match net url with
  | None => (d, Err (NoAnswer url))
  | Some r =>
      if negb (p_status r =? 200) then (d, Err (HTTPStatus url (p_status r)))
      else if a_Size a <? p_length r then (d, Err TooLarge)
      else match t_random t with
           | None => (d, Err NoTemp)
           | Some random =>
               let name := temp_name random in
               if decide (d !! name = None) then
                 let '(content, v) := VerifyArtifact (p_body r) (t_room t) a in
                 let d := <[name := content]> d in
                 match v with
                 | Err e => (discard t name d, Err (BadArtifact e ((slen content <? slen (stake (Z.to_nat (a_Size a + 1)) (r_data (p_body r))))%nat || p_network r)))
                 | Ok _ =>
                     if negb (t_sync t) then (discard t name d, Err SyncFailed)
                     else if negb (t_close t) then (discard t name d, Err CloseFailed)
                     else (d, Ok (name, m_Version m))
                 end
               else (d, Err NoTemp)
           end
  end end.

(** [overSources]: an answer, or the news that nothing is newer, ends the walk. *)
Fixpoint overSources {W A} (attempt : string → W → W * result update_error A) (bases : list string) (last : update_error) (w : W)
  : W * result update_error A :=
  match bases with
  | [] => (w, Err last)
  | base :: bases =>
      let '(w, r) := attempt base w in
      match r with
      | Ok a => (w, Ok a)
      | Err e => if up_to_date e then (w, Err e) else overSources attempt bases e w
      end
  end.

(** [fetchUpdateVersion]; [net] and [temp] may answer differently at each source. *)
Definition fetchUpdateVersion (net : string → web) (temp : string → temp_env) (bases : list string) (goos goarch current requested : string) (d : directory)
  : directory * result update_error (string * string) :=
  let '(d, r) := overSources (λ base d, downloadSignedVersion (net base) (temp base) base goos goarch current requested d) bases NoSource d in
  (d, match r with Err e => if String.eqb requested "" then Err e else Err (NotInstalled requested) | Ok a => Ok a end).

(** ** The swap *)

(** [os.Rename]: done when the file is there and the system agrees. *)
Definition rename (agrees : bool) (src dst : string) (d : directory) : directory * bool :=
  match d !! src with
  | Some c => if agrees then (<[dst := c]> (delete src d), true) else (d, false)
  | None => (d, false)
  end.

(** Unix *)
Definition replaceBinary (agrees : bool) (src dst : string) (d : directory) : directory * bool := rename agrees src dst d.

(** Windows: what earlier updates left is removed where it can be, the running
    file is moved aside, the new one takes its name, or the old one comes back. *)
Definition leftover (dst name : string) : bool := String.eqb name (dst ++ ".old") || has_prefix name (dst ++ ".old-").
Definition removeReplacedBinaries (reads : bool) (removable : string → bool) (dst : string) (d : directory) : directory :=
  if reads then filter (λ kv, Is_true (negb (leftover dst kv.1 && removable kv.1))) d else d.

Record windows_env := WindowsEnv { n_reads : bool; n_removable : string → bool; n_stamp : string; n_aside : bool; n_place : bool; n_back : bool }.

Definition replaceBinary_windows (e : windows_env) (src dst : string) (d : directory) : directory * bool :=
  let d := removeReplacedBinaries (n_reads e) (n_removable e) dst d in
  let old := match d !! (dst ++ ".old")%string with None => (dst ++ ".old")%string | Some _ => (dst ++ ".old-" ++ n_stamp e)%string end in
  let '(d, aside) := rename (n_aside e) dst old d in
  if negb aside then (d, false) else
  let '(d, placed) := rename (n_place e) src dst d in
  if placed then (d, true) else ((rename (n_back e) old dst d).1, false).

(** ** The agent beside the update *)

(** What one look at the machine finds: the recorded pids, whether the lock of
    the configuration directory is held, which processes live. *)
Record probe := Probe { pr_pid : Z; pr_held : bool; pr_alive : Z → bool; pr_managed : Z }.

Inductive action :=
| RemovePID | WritePID (pid : Z) | Terminate (pid : Z) | StartAgent (pid : Z) | Enroll | ScheduleRestart (pid : Z).

Definition agentRunning (p : probe) : list action * (Z * bool) :=
  (if negb (pr_held p) && (0 <? pr_pid p) && negb (pr_alive p (pr_pid p)) then [RemovePID] else [], (pr_pid p, pr_held p)).

(** The [k]-th poll sees [held k]; the wait is [waited] so far. *)
Fixpoint awaitAgentLockRelease (fuel k : nat) (held : nat → bool) (waited timeout poll : Z) : bool :=
  match fuel with
  | O => false
  | S fuel => if negb (held k) then true else if timeout <=? waited then false else awaitAgentLockRelease fuel (S k) held (waited + poll) timeout poll
  end.
Definition agentStopTimeout : Z := 10 * second.
Definition agentStopPoll : Z := 50 * (second / 1000).
Definition stop_polls (timeout poll : Z) : nat := Z.to_nat (timeout / poll + 2).

Record stop_env := StopEnv { s_probe : probe; s_terminates : bool; s_held : nat → bool }.

Definition cmdStop (e : stop_env) : list action * bool :=
  let '(acts, (pid, running)) := agentRunning (s_probe e) in
  if negb running then (acts, true)
  else if pid <=? 0 then (acts, true)
  else if negb (s_terminates e) then (acts ++ [Terminate pid], false)
  else if negb (awaitAgentLockRelease (stop_polls agentStopTimeout agentStopPoll) 0 (s_held e) 0 agentStopTimeout agentStopPoll)
       then (acts ++ [Terminate pid], false)
       else (acts ++ [Terminate pid; RemovePID], true).

Record start_env := StartEnv {
  b_probe : probe; b_token : bool; b_endpoints : bool; b_enroll : bool; b_save : bool; b_self : bool; b_log : bool;
  b_spawn : option Z; b_write : bool }.

Definition cmdStart (e : start_env) : list action * bool :=
  let '(acts, (_, running)) := agentRunning (b_probe e) in
  if running then (acts, true) else
  let '(acts, ready) :=
    if b_token e then (acts, true)
    else if negb (b_endpoints e) then (acts, false)
    else (acts ++ [Enroll], b_enroll e && b_save e) in
  if negb (ready && b_self e && b_log e) then (acts, false)
  else match b_spawn e with
       | None => (acts, false)
       | Some pid => (acts ++ StartAgent pid :: (if b_write e then [WritePID pid] else []), b_write e)
       end.

Record updateRestartPlan := Plan { stopDetached : bool; restartDetached : bool; restartManagedPID : Z }.
Definition empty_plan : updateRestartPlan := Plan false false 0.

Definition planUpdateRestartWithLiveness (noRestart : bool) (pid : Z) (alive : bool) (managed : Z) : updateRestartPlan :=
  if noRestart || negb alive then empty_plan
  else if (0 <? pid) && (managed =? pid) then Plan false false pid
  else Plan true true 0.

Definition planUpdateRestart (noRestart : bool) (p : probe) : list action * updateRestartPlan :=
  let '(acts, (pid, running)) := agentRunning p in (acts, planUpdateRestartWithLiveness noRestart pid running (pr_managed p)).

Definition applyUpdateStop (plan : updateRestartPlan) (e : stop_env) : list action * bool :=
  if stopDetached plan then cmdStop e else ([], true).

Inductive managedRestartResult := managedRestartReplaced | managedRestartStopped | managedRestartStuck.

(** The polls see [currentPID k] recorded and [alive k pid]; the last look
    comes after [attempts] waits. *)
Fixpoint awaitManagedRestart (attempts k : nat) (oldPID : Z) (alive : nat → Z → bool) (currentPID : nat → Z) : managedRestartResult :=
  let pid := currentPID k in
  if (0 <? pid) && negb (pid =? oldPID) && alive k pid then managedRestartReplaced
  else match attempts with
       | O => if alive (S k) oldPID then managedRestartStuck else managedRestartStopped
       | S attempts => awaitManagedRestart attempts (S k) oldPID alive currentPID
       end.
Definition managedRestartAttempts : nat := 20.

Record managed_env := ManagedEnv { g_terminable : bool; g_schedules : bool; g_alive : nat → Z → bool; g_current : nat → Z }.

Definition restartManagedAgent (e : managed_env) (pid : Z) : list action * bool :=
  if negb (g_terminable e) then ([], false)
  else if negb (g_schedules e) then ([ScheduleRestart pid], false)
  else ([ScheduleRestart pid],
        match awaitManagedRestart managedRestartAttempts 0 pid (g_alive e) (g_current e) with managedRestartReplaced => true | _ => false end).

Definition applyUpdateRestart (plan : updateRestartPlan) (b : start_env) (g : managed_env) : list action * bool :=
  if restartDetached plan then cmdStart b
  else if 0 <? restartManagedPID plan then restartManagedAgent g (restartManagedPID plan)
  else ([], true).

(** [cmdRestartManaged], the helper, looks again before it signals. *)
Definition cmdRestartManaged (pid : Z) (p : probe) : list action :=
  if pid <=? 0 then [] else
  let '(acts, (live, running)) := agentRunning p in
  if negb running || negb (live =? pid) || negb (pr_managed p =? pid) then acts else acts ++ [Terminate pid].

(** ** [cmdUpdate] *)

(** [isAPKPath] *)
Definition isAPKPath (self : string) : bool := has_prefix self "/data/app/" && String.eqb (base (dir (dir self))) "lib".

(** The machine as one user sees it.  [u_self] is the path of the binary, with
    its links resolved; [u_swap] is the platform's [replaceBinary]. *)
Record machine := Machine {
  u_goos : string; u_goarch : string; u_self : string; u_release_base : string; u_relay : string;
  u_net : string → web; u_temp : string → temp_env; u_chmod : bool; u_cleanup : bool;
  u_swap : string → string → directory → directory * bool;
  u_writable : bool; u_sudo : bool; u_probe : probe; u_stop : stop_env; u_start : start_env; u_managed : managed_env }.

Record outcome := Outcome { o_dir : directory; o_actions : list action; o_result : result update_error () }.

Definition remove_temp (u : machine) (name : string) (d : directory) : directory := if u_cleanup u then delete name d else d.

(** From the download on: [install_in_place]. *)
Definition install_in_place (buildVersion : string) (u : machine) (noRestart : bool) (requested : string) (d : directory) : outcome :=
  match updateSourcesForVersion (u_release_base u) (u_relay u) requested with
  | None => Outcome d [] (Err NoSource)
  | Some bases =>
      let '(d, r) := fetchUpdateVersion (u_net u) (u_temp u) bases (u_goos u) (u_goarch u) buildVersion requested d in
      match r with
      | Err e => Outcome d [] (Err e)
      | Ok (tmp, _) =>
          if negb (u_chmod u) then Outcome (remove_temp u tmp d) [] (Err ChmodFailed) else
          let '(acts, plan) := planUpdateRestart noRestart (u_probe u) in
          let '(stopped, ok) := applyUpdateStop plan (u_stop u) in
          if negb ok then Outcome (remove_temp u tmp d) (acts ++ stopped) (Err StopFailed) else
          let '(d, swapped) := u_swap u tmp (base (u_self u)) d in
          if negb swapped then Outcome (remove_temp u tmp d) (acts ++ stopped) (Err ReplaceFailed) else
          let '(started, ok) := applyUpdateRestart plan (u_start u) (u_managed u) in
          Outcome (remove_temp u tmp d) (acts ++ stopped ++ started) (if ok then Ok () else Err RestartFailed)
      end
  end.

(** [sees true] is what the superuser sees.  [depth] bounds how many times the
    program runs itself under sudo. *)
Fixpoint run_update (depth : nat) (buildVersion : string) (sees : bool → machine) (root noRestart : bool) (requested : string) (d : directory) : outcome :=
  let u := sees root in
  if String.eqb (u_goos u) "android" && isAPKPath (u_self u) then Outcome d [] (Err APKSelfUpdate)
  else if u_writable u then install_in_place buildVersion u noRestart requested d
  else if String.eqb (u_goos u) "windows" || negb (u_sudo u) then Outcome d [] (Err NoRights)
  else
    let '(acts, plan) := planUpdateRestart false (u_probe u) in
    let '(stopped, ok) := applyUpdateStop plan (u_stop u) in
    if negb ok then Outcome d (acts ++ stopped) (Err StopFailed) else
    match depth with
    | O => Outcome d (acts ++ stopped) (Err TooDeep)
    | S depth =>
        let child := run_update depth buildVersion sees true true requested d in
        let acts := acts ++ stopped ++ o_actions child in
        match o_result child with
        | Err e => Outcome (o_dir child) acts (Err e)
        | Ok _ =>
            let '(started, ok) := applyUpdateRestart plan (u_start u) (u_managed u) in
            Outcome (o_dir child) (acts ++ started) (if ok then Ok () else Err RestartFailed)
        end
    end.

(** The arguments after the options: at most one version. *)
Definition cmdUpdate (depth : nat) (buildVersion : string) (sees : bool → machine) (noRestart : bool) (args : list string) (d : directory) : outcome :=
  match args with
  | _ :: _ :: _ => Outcome d [] (Err BadArguments)
  | [requested] =>
      if negb (ValidateVersion requested) then Outcome d [] (Err BadArguments)
      else if String.eqb requested buildVersion then Outcome d [] (Ok ())
      else run_update depth buildVersion sees false noRestart requested d
  | [] => run_update depth buildVersion sees false noRestart "" d
  end.

(** [fetchAndroidAPK] into the directory [d]: the path it prints, if any. *)
Definition fetchAndroidAPK (buildVersion : string) (u : machine) (makes renames chmods : bool) (d : directory) : directory * result update_error (option string) :=
  if negb makes then (d, Err NoRights) else
  match updateSourcesForVersion (u_release_base u) (u_relay u) "" with
  | None => (d, Err NoSource)
  | Some bases =>
      let '(d, r) := overSources (λ base d, downloadSignedVersion (u_net u base) (u_temp u base) base "android" (APKArch (u_goarch u)) buildVersion "" d) bases NoSource d in
      match r with
      | Err e => (d, if up_to_date e then Ok None else Err e)
      | Ok (tmp, v) =>
          let final := ("wanctl-" ++ v ++ ".apk")%string in
          let '(d, renamed) := rename renames tmp final d in
          if negb renamed then (remove_temp u tmp d, Err ReplaceFailed)
          else (d, if chmods then Ok (Some final) else Err ChmodFailed)
      end
  end.

(** ** The agent's own updates *)

Inductive autoUpdateAction := autoUpdateSkip | autoUpdateCurrent | autoUpdateFailed | autoUpdateBlocked | autoUpdateBusy | autoUpdateReady.
Record autoUpdateResult := AutoResult { r_action : autoUpdateAction; r_version : string; r_err : option update_error }.

Record autoUpdateProbe := AutoProbe {
  q_enabled : bool; q_version : string; q_isAPK : bool; q_offered : result update_error string; q_writable : bool; q_busy : bool }.

Definition decideAutoUpdate (p : autoUpdateProbe) : autoUpdateResult :=
  if negb (q_enabled p) then AutoResult autoUpdateSkip "" None
  else if String.eqb (q_version p) "" || String.eqb (q_version p) "dev" then AutoResult autoUpdateSkip "" None
  else if q_isAPK p then AutoResult autoUpdateSkip "" None
  else match q_offered p with
       | Err e => if up_to_date e then AutoResult autoUpdateCurrent "" None else AutoResult autoUpdateFailed "" (Some e)
       | Ok v =>
           if negb (q_writable p) then AutoResult autoUpdateBlocked v None
           else if q_busy p then AutoResult autoUpdateBusy v None
           else AutoResult autoUpdateReady v None
       end.

(** [autoUpdater.offered] and [installLatest] *)
Definition offered (version : string) (u : machine) : result update_error string :=
  match updateSourcesForVersion (u_release_base u) (u_relay u) "" with
  | None => Err NoSource
  | Some bases => (overSources (λ base (_ : ()), ((), checkSignedUpdate (u_net u base) base (u_goos u) (u_goarch u) version)) bases NoSource ()).2
  end.

Definition swap_in (u : machine) (tmp version : string) (d : directory) : directory * result update_error string :=
  if negb (u_chmod u) then (remove_temp u tmp d, Err ChmodFailed) else
  let '(d, swapped) := u_swap u tmp (base (u_self u)) d in
  (remove_temp u tmp d, if swapped then Ok version else Err ReplaceFailed).

Definition installLatest (version : string) (u : machine) (d : directory) : directory * result update_error string :=
  match updateSourcesForVersion (u_release_base u) (u_relay u) "" with
  | None => (d, Err NoSource)
  | Some bases =>
      let '(d, r) := overSources (λ base d, downloadSignedVersion (u_net u base) (u_temp u base) base (u_goos u) (u_goarch u) version "" d) bases NoSource d in
      match r with Err e => (d, Err e) | Ok (tmp, v) => swap_in u tmp v d end
  end.

(** What one check says in the log. *)
Inductive log_line := LogFailed (e : update_error) | LogBlocked (v : string) | LogBusy (v : string) (n : Z) | LogInstalled (from to : string).

Record updater := Updater { x_lastErr : string; x_warnedFor : string; x_handedOver : bool; x_deferred : Z }.
Definition new_updater : updater := Updater "" "" false 0.

(** What one check leaves: the updater, the directory, the log, whether the
    agent was told to restart, the wait before the next check, whether the
    updater is done. *)
Record ticked := Ticked { k_state : updater; k_dir : directory; k_log : list log_line; k_restart : bool; k_wait : Z; k_done : bool }.

Definition autoUpdateFirstDelay : Z := minute.
Definition autoUpdateInterval : Z := 6 * hour.
Definition autoUpdateMaxJitter : Z := 30 * minute.
Definition autoUpdateBusyRetry : Z := 5 * minute.

(** [text e] is the text of an error; [jitter] the random part of the wait. *)
Definition tick (text : update_error → string) (p : autoUpdateProbe) (install : directory → directory * result update_error string) (jitter : Z)
  (x : updater) (d : directory) : ticked :=
  let res := decideAutoUpdate p in
  let lastErr := match r_action res with autoUpdateFailed => x_lastErr x | _ => "" end in
  let deferred := match r_action res with autoUpdateBusy => x_deferred x | _ => 0 end in
  let later x d log := Ticked x d log false (autoUpdateInterval + jitter) false in
  let failed e d :=
    if String.eqb (text e) lastErr then later (Updater lastErr (x_warnedFor x) (x_handedOver x) deferred) d []
    else later (Updater (text e) (x_warnedFor x) (x_handedOver x) deferred) d [LogFailed e] in
  match r_action res with
  | autoUpdateFailed => match r_err res with Some e => failed e d | None => later (Updater lastErr (x_warnedFor x) (x_handedOver x) deferred) d [] end
  | autoUpdateBlocked =>
      if String.eqb (x_warnedFor x) (r_version res) then later (Updater lastErr (x_warnedFor x) (x_handedOver x) deferred) d []
      else later (Updater lastErr (r_version res) (x_handedOver x) deferred) d [LogBlocked (r_version res)]
  | autoUpdateBusy =>
      let n := deferred + 1 in
      Ticked (Updater lastErr (x_warnedFor x) (x_handedOver x) n) d (if (n =? 1) || (Z.rem n 12 =? 0) then [LogBusy (r_version res) n] else [])
        false autoUpdateBusyRetry false
  | autoUpdateReady =>
      match install d with
      | (d, Err e) => failed e d
      | (d, Ok v) => Ticked (Updater lastErr (x_warnedFor x) true deferred) d [LogInstalled (q_version p) v] true 0 true
      end
  | _ => later (Updater lastErr (x_warnedFor x) (x_handedOver x) deferred) d []
  end.

(** One turn of [run]: whether the context ends during the wait or the check,
    and what the check finds. *)
Record round := Round { y_cancelled : bool; y_probe : autoUpdateProbe; y_install : directory → directory * result update_error string; y_jitter : Z; y_ends : bool }.

(** [run]: the updater, the directory, the waits, and whether the agent was
    told to restart.  The rounds are those before the process ends. *)
Fixpoint run (text : update_error → string) (rounds : list round) (wait : Z) (x : updater) (d : directory) : updater * directory * list Z * bool :=
  match rounds with
  | [] => (x, d, [wait], false)
  | y :: rounds =>
      if y_cancelled y then (x, d, [wait], false) else
      let k := tick text (y_probe y) (y_install y) (y_jitter y) x d in
      if k_done k || y_ends y then (k_state k, k_dir k, [wait], k_restart k)
      else let '(x, d, waits, restarted) := run text rounds (k_wait k) (k_state k) (k_dir k) in (x, d, wait :: waits, restarted)
  end.

(** [successorArgs] *)
Definition successorArgs (osArgs : list string) : list string := if (length osArgs <? 2)%nat then [] else drop 2 osArgs.

(** ** Updates asked for in the portal *)

Inductive refusal := BadTarget | DevelopmentBuild | InsideAPK | NotNewer | Unwritable | AndroidCannotRestart.

Definition checkPortalUpdate (version : string) (apk writable android : bool) (target : string) : option refusal :=
  if negb (ValidateVersion target) then Some BadTarget
  else if negb (ValidateVersion version) then Some DevelopmentBuild
  else if apk then Some InsideAPK
  else if match CompareVersions target version with Some c => c <=? 0 | None => true end then Some NotNewer
  else if negb writable then Some Unwritable
  else if android then Some AndroidCannotRestart
  else None.

(** What the portal is told of a failed update: [host] is the name in a URL. *)
Inductive reason := InstallationFailed | VersionNotFound | CouldNotReach (host : string) | RestartPending.

Definition missing (e : update_error) : bool :=
  match e with
  | ReleaseError (ExactVersionMismatch _ _) => true
  | HTTPStatus url code => (code =? 404) && has_suffix url "/manifest.json"
  | _ => false
  end.
(** [errors.As] with a [net.Error], with a [url.Error], or a status: an error of
    a system call is a [syscall.Errno], which has the methods of [net.Error]. *)
Definition of_network (e : update_error) : bool :=
  match e with
  | NoAnswer _ | HTTPStatus _ _ | NoTemp | SyncFailed | CloseFailed => true
  | BadBody network | BadArtifact ReadArtifact network => network
  | _ => false
  end.

(** The classification [fetchPortalUpdate] makes of the failures, in order. *)
Record failures := Failures { z_allMissing : bool; z_unexpected : bool; z_unreachable : string }.
Definition note (host : string → string) (f : failures) (be : string * update_error) : failures :=
  let '(base, e) := be in
  if missing e then f
  else if of_network e then Failures false (z_unexpected f) (if String.eqb (z_unreachable f) "" then host base else z_unreachable f)
  else Failures false true (z_unreachable f).

Definition portal_reason (host : string → string) (bases : list string) (failed : list (string * update_error)) : reason :=
  let f := foldl (note host) (Failures (0 <? length bases)%nat false "") failed in
  if z_allMissing f then VersionNotFound
  else if negb (z_unexpected f) && negb (String.eqb (z_unreachable f) "") then CouldNotReach (z_unreachable f)
  else InstallationFailed.

(** [Run] of the install hooks; [same] and [unmoved] say whether the binary on
    disk is still the one that started, [unended] that the request still runs. *)
Definition portal_run (u : machine) (host : string → string) (current target : string) (unended unmoved : bool) (d : directory)
  : directory * result reason string :=
  match updateSourcesForVersion (u_release_base u) (u_relay u) target with
  | None => (d, Err InstallationFailed)
  | Some bases =>
      let attempt base (s : directory * list (string * update_error)) :=
        let '(d, failed) := s in
        let '(d, r) := downloadSignedVersion (u_net u base) (u_temp u base) base (u_goos u) (u_goarch u) current target d in
        ((d, match r with Err e => failed ++ [(base, e)] | Ok _ => failed end), r) in
      let '((d, failed), r) := overSources attempt bases NoSource (d, []) in
      match r with
      | Err _ => (d, Err (portal_reason host bases failed))
      | Ok (tmp, v) =>
          if negb unended then (remove_temp u tmp d, Err InstallationFailed)
          else if negb unmoved then (remove_temp u tmp d, Err RestartPending)
          else let '(d, r) := swap_in u tmp v d in (d, match r with Ok v => Ok v | Err _ => Err InstallationFailed end)
      end
  end.
End updates.

(** ** Which bytes may become the binary *)

Section installing.
Context `{Library} (keys : string).

(** Without a request a build of a release goes to a newer version, and only a
    beta goes to a beta. *)
Definition eligible (current next : string) : Prop :=
  (released current = true → CompareVersions current next = Some (-1)) ∧
  ∀ v, parseVersion next = Some v → v_beta v ≠ ""%string →
    ∃ c, released current = true ∧ parseVersion current = Some c ∧ v_beta c ≠ ""%string.

(** [content] is an artifact for this platform in a manifest that a compiled-in
    key signed: the version asked for, or one eligible over what runs. *)
Definition signed_content (goos goarch current requested content : string) : Prop :=
  ∃ raw sig m a pub,
    compiled_in keys pub ∧ ed25519_verify pub raw sig = true ∧ Decode raw = Some (m, true) ∧ sound_manifest m
    ∧ a ∈ m_Artifacts m ∧ a_OS a = goos ∧ a_Arch a = goarch
    ∧ zlen content = a_Size a ∧ hex_encode (sha256 content) = a_SHA256 a
    ∧ if String.eqb requested "" then eligible current (m_Version m) else m_Version m = requested.

Lemma selected_signed net base goos goarch current requested m a :
  selectSignedUpdate keys net base goos goarch current requested = Ok (m, a) →
  ∃ raw sig pub, compiled_in keys pub ∧ ed25519_verify pub raw sig = true ∧ Decode raw = Some (m, true) ∧ sound_manifest m
    ∧ a ∈ m_Artifacts m ∧ a_OS a = goos ∧ a_Arch a = goarch
    ∧ if String.eqb requested "" then eligible current (m_Version m) else m_Version m = requested.
Proof.
  unfold selectSignedUpdate. destruct (fetchLimited net _ MaxManifestSize) as [raw|]; [|done]. destruct (fetchLimited net _ 4096) as [sig|]; [|done].
  unfold lift. destruct (VerifyManifest raw sig keys) as [m'|] eqn:V; [|done].
  apply manifest_is_signed in V as (S & D & _ & _ & pub & C & Y). destruct (String.eqb requested "") eqn:R.
  - destruct (Select m' goos goarch current) as [a'|] eqn:Se; [|done]. intros [= <- <-]. apply Select_Ok in Se as (Sa & N).
    apply selectArtifact_Ok in Sa as (? & ? & ?). by exists raw, sig, pub.
  - destruct (SelectExact m' goos goarch requested) as [a'|] eqn:Se; [|done]. intros [= <- <-]. apply SelectExact_Ok in Se as (Sa & N & _).
    apply selectArtifact_Ok in Sa as (? & ? & ?). by exists raw, sig, pub.
Qed.

(** A download that is handed over is a new file with signed content; one that
    fails leaves what was there, and nothing more unless removing fails. *)
Lemma download_spec net t base goos goarch current requested d d' r :
  downloadSignedVersion keys net t base goos goarch current requested d = (d', r) →
  match r with
  | Ok (tmp, _) => (∃ random, tmp = temp_name random) ∧ d !! tmp = None ∧ ∃ content, d' = <[tmp := content]> d ∧ signed_content goos goarch current requested content
  | Err _ => d ⊆ d' ∧ (t_remove t = true → d' = d)
  end.
Proof.
  unfold downloadSignedVersion. destruct (selectSignedUpdate _ _ _ _ _ _ _) as [[m a]|] eqn:S; [|by intros [= <- <-]].
  destruct (net _) as [p|]; [|by intros [= <- <-]]. destruct (negb _); [by intros [= <- <-]|]. destruct (_ <? _); [by intros [= <- <-]|].
  destruct (t_random t) as [random|]; [|by intros [= <- <-]]. cbv zeta. set (name := temp_name random). destruct (decide _) as [F|]; [|by intros [= <- <-]].
  destruct (VerifyArtifact (p_body p) (t_room t) a) as [content v] eqn:V. cbv zeta.
  assert (d ⊆ discard t name (<[name := content]> d) ∧ (t_remove t = true → discard t name (<[name := content]> d) = d)) as K.
  { unfold discard. destruct (t_remove t); [by rewrite delete_insert_id|]. split; [by apply insert_subseteq|done]. }
  destruct v as [[]|e]; [|by intros [= <- <-]]. destruct (negb _); [by intros [= <- <-]|]. destruct (negb _); [by intros [= <- <-]|]. intros [= <- <-].
  split; [by exists random|]. split; [done|]. exists content. split; [done|]. apply selected_signed in S as (raw & sig & pub & C & Y & D & Sm & Ha & Go & Ga & N).
  apply artifact_exact in V as (_ & Z & Hx & _); [by exists raw, sig, m, a, pub|]. destruct Sm as (_ & _ & _ & _ & Fa & _).
  rewrite Forall_forall in Fa. destruct (Fa a Ha) as (_ & _ & _ & _ & ? & _). lia.
Qed.

Lemma overSources_inv {W A} (P : W → Prop) (Q : W → A → Prop) (attempt : string → W → W * result update_error A) bases :
  (∀ base w w' r, P w → attempt base w = (w', r) → match r with Ok a => Q w' a | Err _ => P w' end) →
  ∀ last w w' r, P w → overSources attempt bases last w = (w', r) → match r with Ok a => Q w' a | Err _ => P w' end.
Proof.
  intros Step. induction bases as [|b l IH]; intros last w w' r Pw; simpl; [by intros [= <- <-]|].
  destruct (attempt b w) as [w1 r1] eqn:E. apply Step in E; [|done]. destruct r1 as [a|e]; [by intros [= <- <-]|].
  destruct (up_to_date e); [by intros [= <- <-]|]. by apply IH.
Qed.

(** A directory after downloads: what was there is there, and [tmp] is new. *)
Definition fetched goos goarch current requested (d d' : directory) (tmp : string) : Prop :=
  d ⊆ d' ∧ (∃ random, tmp = temp_name random) ∧ d !! tmp = None ∧ ∃ content, d' !! tmp = Some content ∧ signed_content goos goarch current requested content.

Lemma sources_spec (net : string → web) (temp : string → temp_env) bases goos goarch current requested last d d' r :
  overSources (λ base d, downloadSignedVersion keys (net base) (temp base) base goos goarch current requested d) bases last d = (d', r) →
  match r with Ok (tmp, _) => fetched goos goarch current requested d d' tmp | Err _ => d ⊆ d' end.
Proof.
  intros E. apply (overSources_inv (λ x, d ⊆ x) (λ x a, fetched goos goarch current requested d x a.1)) in E; [by destruct r as [[]|]| |done].
  clear. intros base w w' r Pw E. apply download_spec in E. destruct r as [[tmp v]|]; [|destruct E; by etrans].
  destruct E as (T & F & c & -> & S). split; [etrans; [exact Pw|by apply insert_subseteq]|]. split; [done|]. split; [by eapply lookup_weaken_None|]. exists c. by rewrite lookup_insert_eq.
Qed.

Lemma fetch_spec net temp bases goos goarch current requested d d' r :
  fetchUpdateVersion keys net temp bases goos goarch current requested d = (d', r) →
  match r with Ok (tmp, _) => fetched goos goarch current requested d d' tmp | Err _ => d ⊆ d' end.
Proof.
  unfold fetchUpdateVersion. destruct (overSources _ _ _ _) as [d1 r1] eqn:E. apply sources_spec in E. intros [= <- <-].
  destruct r1 as [[]|]; [done|]. by destruct (String.eqb _ _).
Qed.

(** ** The swap *)

(** What either platform's [replaceBinary] promises: the new bytes are at the
    old path, or the old ones are, or (when Windows could not move them back)
    none. *)
Definition swap_law (goos : string) (swap : string → string → directory → directory * bool) : Prop :=
  ∀ src dst d d' done, src ≠ dst → leftover dst src = false → swap src dst d = (d', done) →
    if done then d' !! dst = d !! src ∧ is_Some (d !! src) else d' !! dst = d !! dst ∨ goos = "windows"%string ∧ d' !! dst = None.

Lemma rename_spec agrees src dst d d' b : rename agrees src dst d = (d', b) →
  if b then ∃ c, d !! src = Some c ∧ d' = <[dst := c]> (delete src d) else d' = d.
Proof. unfold rename. destruct (d !! src) as [c|] eqn:E; [|by intros [= <- <-]]. destruct agrees; intros [= <- <-]; eauto. Qed.

Lemma replaceBinary_law goos agrees : swap_law goos (replaceBinary agrees).
Proof.
  intros src dst d d' b N _ E%rename_spec. destruct b; [|by left; subst]. destruct E as (c & Ec & ->). by rewrite lookup_insert_eq, Ec.
Qed.

Lemma removeReplaced_lookup reads removable dst d n :
  removeReplacedBinaries reads removable dst d !! n = if reads && (leftover dst n && removable n) then None else d !! n.
Proof.
  unfold removeReplacedBinaries. destruct reads; [|done]. cbn [andb]. rewrite map_lookup_filter. destruct (d !! n) as [c|]; [|by case_goal].
  cbn [option_bind fst snd]. by destruct (leftover dst n && removable n).
Qed.

Lemma app_longer s t : t ≠ ""%string → (s ++ t)%string ≠ s.
Proof. intros N E. apply (f_equal slen) in E. rewrite slen_app in E. destruct t; [done|simpl in E; lia]. Qed.

Lemma replaceBinary_windows_law e : swap_law "windows" (replaceBinary_windows e).
Proof.
  intros src dst d d' b N Ls. unfold replaceBinary_windows. cbv zeta. set (d0 := removeReplacedBinaries _ _ _ d).
  assert (d0 !! dst = d !! dst) as Edst.
  { unfold d0. rewrite removeReplaced_lookup. assert (leftover dst dst = false) as ->; [|by rewrite andb_false_r].
    unfold leftover. apply orb_false_iff. split; [apply String.eqb_neq; intros E; by apply (app_longer dst ".old"); [done|symmetry]|].
    apply not_true_iff_false. rewrite has_prefix_spec. intros (t & E). rewrite <- app_assoc_s in E. by apply (app_longer dst (".old-" ++ t)). }
  set (old := match _ with None => _ | Some _ => _ end).
  assert (old ≠ dst) as No by (unfold old; destruct (d0 !! (dst ++ ".old")%string); by apply app_longer).
  destruct (rename (n_aside e) dst old d0) as [d1 aside] eqn:R1. apply rename_spec in R1. destruct aside; cbn [negb]; [|intros [= <- <-]; left; by subst].
  destruct R1 as (c & Ec & ->). destruct (rename (n_place e) src dst _) as [d2 placed] eqn:R2. apply rename_spec in R2. destruct placed; intros [= <- <-].
  - destruct R2 as (c2 & Ec2 & ->). rewrite lookup_insert_eq.
    assert (old ≠ src) as Ns. { intros <-. unfold leftover, old in Ls. destruct (d0 !! (dst ++ ".old")%string); [by rewrite app_assoc_s, has_prefix_app, orb_true_r in Ls|by rewrite String.eqb_refl in Ls]. }
    rewrite lookup_insert_ne, lookup_delete_ne in Ec2 by done. unfold d0 in Ec2. rewrite removeReplaced_lookup, Ls, andb_false_r in Ec2. by rewrite Ec2.
  - subst d2. destruct (rename (n_back e) old dst _) as [d3 back] eqn:R3. apply rename_spec in R3. cbn [fst]. destruct back.
    + destruct R3 as (c3 & Ec3 & ->). rewrite lookup_insert_eq in *. left. congruence.
    + right. subst d3. by rewrite lookup_insert_ne, lookup_delete_eq.
Qed.

(** The file the platform's build has [replaceBinary] from. *)
Definition platform_swap (goos : string) (swap : string → string → directory → directory * bool) : Prop :=
  if String.eqb goos "windows" then ∃ e, swap = replaceBinary_windows e else ∃ agrees, swap = replaceBinary agrees.

Lemma platform_swap_law goos swap : platform_swap goos swap → swap_law goos swap.
Proof.
  unfold platform_swap. destruct (String.eqb_spec goos "windows") as [->|]; intros [e ->]; [apply replaceBinary_windows_law|apply replaceBinary_law].
Qed.

(** ** After an update *)

(** The binary is what it was (or, after a failure on Windows, gone), or it is
    signed content; and it is signed content when [ok]. *)
Definition sound_binary (goos goarch current requested old : string) (ok : bool) (c : option string) : Prop :=
  match c with
  | Some c => signed_content goos goarch current requested c ∨ (c = old ∧ ok = false)
  | None => ok = false ∧ goos = "windows"%string
  end.

(** The name of the binary is not one a leftover of it could have. *)
Definition own_name (self : string) : Prop := ∀ random, leftover self (temp_name random) = false.

Section one_machine.
Context (u : machine) (current requested : string) (Swap : swap_law (u_goos u) (u_swap u)) (Name : own_name (base (u_self u))).
Context (d : directory) (old : string) (Old : d !! base (u_self u) = Some old).

Let sound := sound_binary (u_goos u) (u_goarch u) current requested old.

Lemma sound_kept d' : d ⊆ d' → sound false (d' !! base (u_self u)).
Proof. intros S. rewrite (lookup_weaken _ _ _ _ Old S). by right. Qed.

Lemma sound_removed d' tmp ok : tmp ≠ base (u_self u) → sound ok (d' !! base (u_self u)) → sound ok (remove_temp u tmp d' !! base (u_self u)).
Proof. intros N S. unfold remove_temp. destruct (u_cleanup u); [|done]. by rewrite lookup_delete_ne. Qed.

Lemma sound_swapped d' tmp d2 b : fetched (u_goos u) (u_goarch u) current requested d d' tmp → u_swap u tmp (base (u_self u)) d' = (d2, b) →
  sound b (d2 !! base (u_self u)) ∧ tmp ≠ base (u_self u).
Proof.
  intros (S & [random ->] & F & c & Ec & Sc) E. assert (temp_name random ≠ base (u_self u)) as N by congruence. split; [|done].
  apply Swap in E; [|done|apply Name]. destruct b; [destruct E as [E _]; rewrite E, Ec; by left|].
  destruct E as [E|[W E]]; rewrite E; [|done]. by apply sound_kept.
Qed.

Lemma sound_result ok ok' c : (ok' = true → ok = true) → sound ok c → sound ok' c.
Proof.
  intros I. unfold sound, sound_binary. assert (ok = false → ok' = false) as J by (destruct ok, ok'; try done; by discriminate (I eq_refl)).
  destruct c; [|by intros [?%J ?]]. intros [|[-> ?%J]]; [by left|by right].
Qed.

Lemma install_sound noRestart : let o := install_in_place keys current u noRestart requested d in
  sound (is_ok (o_result o)) (o_dir o !! base (u_self u)).
Proof.
  unfold install_in_place. destruct (updateSourcesForVersion _ _ _) as [bases|]; [|by apply sound_kept].
  destruct (fetchUpdateVersion _ _ _ _ _ _ _ _ _) as [d1 [[tmp v]|e]] eqn:F; apply fetch_spec in F; cbv zeta; [|by apply sound_kept].
  assert (d ⊆ d1 ∧ tmp ≠ base (u_self u)) as [S N] by (destruct F as (? & _ & F & _); split; [done|congruence]).
  destruct (negb _); [cbn [o_dir o_result is_ok]; apply sound_removed; [done|by apply sound_kept]|].
  destruct (planUpdateRestart _ _) as [acts plan]. destruct (applyUpdateStop _ _) as [stopped ok].
  destruct (negb ok); [cbn [o_dir o_result is_ok]; apply sound_removed; [done|by apply sound_kept]|].
  destruct (u_swap u _ _ _) as [d2 b] eqn:W. apply (sound_swapped _ _ _ _ F) in W as [W _].
  destruct b; cbn [negb]; [|cbn [o_dir o_result is_ok]; by apply sound_removed].
  destruct (applyUpdateRestart _ _ _) as [started ok']. cbn [o_dir o_result]. apply sound_removed; [done|]. by apply (sound_result true).
Qed.
End one_machine.

Lemma run_update_sound build sees goos goarch self requested old :
  (∀ root, u_goos (sees root) = goos ∧ u_goarch (sees root) = goarch ∧ base (u_self (sees root)) = self ∧ platform_swap goos (u_swap (sees root))) →
  own_name self → ∀ depth root noRestart d, d !! self = Some old →
  let o := run_update keys depth build sees root noRestart requested d in
  sound_binary goos goarch build requested old (is_ok (o_result o)) (o_dir o !! self).
Proof.
  intros M Name. induction depth as [|depth IH]; intros root noRestart d Old; cbn [run_update]; destruct (M root) as (<- & <- & Es & Sw%platform_swap_law);
    (destruct (_ && _); [cbn; rewrite Old; by right|]);
    (destruct (u_writable _); [rewrite <- Es in *; by apply install_sound|]);
    (destruct (_ || _); [cbn; rewrite Old; by right|]);
    destruct (planUpdateRestart _ _) as [acts plan]; destruct (applyUpdateStop _ _) as [stopped ok]; (destruct (negb ok); [cbn; rewrite Old; by right|]).
  - cbn. rewrite Old. by right.
  - specialize (IH true true d Old). cbv zeta in IH |- *. destruct (run_update keys depth build sees true true requested d) as [d' acts' r']. cbn [o_dir o_result o_actions] in *.
    destruct r' as [[]|e]; [|exact IH]. destruct (applyUpdateRestart _ _ _) as [started ok']. cbn [o_dir o_result] in *. by apply (sound_result (sees root) build requested old true).
Qed.

(** C19: whatever sources answer and whatever fails, [wanctl update] leaves at its
    own path the old binary, or bytes that a manifest signed by a compiled-in key
    names, with their size and digest, for this platform: of the version asked
    for or, when none is, newer than the release that runs, and a beta only over a
    beta (a build of no release takes any release that is not a beta).  It
    reports success only for the latter, or when it is asked for the very version
    that runs: then it does nothing.  Neither is there only on Windows, and then
    a failure is reported.  (The binary is called nothing that the name of a
    temporary file could be a backup of.) *)
Theorem update_installs_signed depth build sees goos goarch self noRestart args d old :
  (∀ root, u_goos (sees root) = goos ∧ u_goarch (sees root) = goarch ∧ base (u_self (sees root)) = self ∧ platform_swap goos (u_swap (sees root))) →
  own_name self → d !! self = Some old →
  let o := cmdUpdate keys depth build sees noRestart args d in
  if decide (args = [build]) then o_dir o = d ∧ o_actions o = [] ∧ is_ok (o_result o) = ValidateVersion build
  else sound_binary goos goarch build (hd ""%string args) old (is_ok (o_result o)) (o_dir o !! self).
Proof.
  intros M Name Old. destruct args as [|requested [|? ?]]; cbn [cmdUpdate hd]; cbv zeta.
  - destruct (decide _); [done|]. by apply run_update_sound.
  - destruct (decide _) as [[= ->]|N]; [rewrite String.eqb_refl; by destruct (ValidateVersion build)|].
    destruct (negb _); [cbn; rewrite Old; by right|]. destruct (String.eqb_spec requested build) as [->|_]; [done|]. by apply run_update_sound.
  - destruct (decide _); [done|]. cbn. rewrite Old. by right.
Qed.
End installing.

(** ** What an update does to agents *)

(** Clearing the record of an agent that no longer lives. *)
Definition only_clears (l : list action) : Prop := Forall (λ a, a = RemovePID) l.

Lemma plan_without_agent noRestart p acts plan : noRestart = true ∨ pr_held p = false → planUpdateRestart noRestart p = (acts, plan) →
  only_clears acts ∧ plan = empty_plan.
Proof.
  intros Q. unfold planUpdateRestart, agentRunning, planUpdateRestartWithLiveness. intros [= <- <-]. split.
  - unfold only_clears. case_goal; [by constructor|constructor].
  - destruct Q as [->| ->]; [done|]. by rewrite orb_true_r.
Qed.

Lemma install_without_agent `{Library} keys build u noRestart requested d :
  noRestart = true ∨ pr_held (u_probe u) = false → only_clears (o_actions (install_in_place keys build u noRestart requested d)).
Proof.
  intros Q. unfold install_in_place. destruct (updateSourcesForVersion _ _ _); [|constructor]. destruct (fetchUpdateVersion _ _ _ _ _ _ _ _ _) as [d1 [[tmp v]|e]]; [|constructor].
  destruct (negb _); [constructor|]. destruct (planUpdateRestart _ _) as [acts plan] eqn:P. apply plan_without_agent in P as [C ->]; [|done].
  cbn [applyUpdateStop stopDetached empty_plan negb]. destruct (u_swap u _ _ _) as [d2 b]. destruct b; cbn; by rewrite app_nil_r.
Qed.

(** Where no agent holds the lock of the configuration directory, [wanctl
    update] enrolls nothing, starts nothing and signals nothing; with
    [--no-restart], in a directory it can write, neither. *)
Lemma update_starts_no_agent `{Library} keys depth build sees noRestart args d :
  pr_held (u_probe (sees false)) = false ∨ noRestart = true ∧ u_writable (sees false) = true →
  pr_held (u_probe (sees true)) = false ∨ u_writable (sees true) = true →
  only_clears (o_actions (cmdUpdate keys depth build sees noRestart args d)).
Proof.
  intros Qu Qr. assert (∀ depth root nr requested d,
    pr_held (u_probe (sees root)) = false ∨ nr = true ∧ u_writable (sees root) = true →
    only_clears (o_actions (run_update keys depth build sees root nr requested d))) as R.
  { clear -Qr. induction depth as [|depth IH]; intros root nr requested d Q; cbn [run_update];
      (destruct (_ && _); [constructor|]); (destruct (u_writable (sees root)) eqn:W; [apply install_without_agent; tauto|]);
      (destruct (_ || _); [constructor|]); (assert (pr_held (u_probe (sees root)) = false) as Hh by (destruct Q as [|[_ ?]]; [done|congruence]));
      destruct (planUpdateRestart _ _) as [acts plan] eqn:P; (apply plan_without_agent in P as [C ->]; [|by right]);
      cbn [applyUpdateStop stopDetached empty_plan negb].
    - cbn [o_actions]. by rewrite app_nil_r.
    - cbv zeta. specialize (IH true true requested d ltac:(tauto)). destruct (o_result _); cbn; rewrite ?app_nil_r; by apply Forall_app. }
  unfold cmdUpdate. destruct args as [|requested [|? ?]]; [by apply R| |constructor]. destruct (negb _); [constructor|]. destruct (String.eqb _ _); [constructor|]. by apply R.
Qed.

(** ** The agent's own updates *)

Lemma decideAutoUpdate_ready p : r_action (decideAutoUpdate p) = autoUpdateReady →
  q_enabled p = true ∧ released (q_version p) = true ∧ q_isAPK p = false ∧ is_ok (q_offered p) = true ∧ q_writable p = true ∧ q_busy p = false.
Proof.
  unfold decideAutoUpdate, released. destruct (q_enabled p); [|done]. cbn [negb]. rewrite <- negb_orb. destruct (_ || _); [done|].
  destruct (q_isAPK p); [done|]. destruct (q_offered p) as [v|e]; [|by destruct (up_to_date e)]. destruct (q_writable p); [|done]. by destruct (q_busy p).
Qed.

Lemma tick_idle text p install jitter x d : r_action (decideAutoUpdate p) ≠ autoUpdateReady →
  let k := tick text p install jitter x d in k_dir k = d ∧ k_restart k = false ∧ k_done k = false.
Proof.
  intros N. unfold tick. cbv zeta. destruct (r_action (decideAutoUpdate p)); try done.
  - destruct (r_err _) as [e|]; [|done]. by destruct (String.eqb _ _).
  - by destruct (String.eqb _ _).
Qed.

(** A check changes the directory, or has the agent restart, only when the
    setting is on, this is a release outside an APK, a newer one was offered, the
    directory is writable and the agent is idle. *)
Lemma tick_guarded text p install jitter x d : let k := tick text p install jitter x d in
  k_dir k ≠ d ∨ k_restart k = true ∨ k_done k = true →
  q_enabled p = true ∧ released (q_version p) = true ∧ q_isAPK p = false ∧ is_ok (q_offered p) = true ∧ q_writable p = true ∧ q_busy p = false.
Proof.
  cbv zeta. intros D. apply decideAutoUpdate_ready. destruct (r_action (decideAutoUpdate p)) eqn:E; try done; exfalso;
    destruct (tick_idle text p install jitter x d) as (A & B & C); try congruence; rewrite A, B, C in D; destruct D as [D|[D|D]]; done.
Qed.

(** It has the agent restart exactly when it has replaced the binary, and is
    then done. *)
Lemma tick_restarts text p install jitter x d : let k := tick text p install jitter x d in
  k_restart k = k_done k ∧ (k_done k = true ↔ r_action (decideAutoUpdate p) = autoUpdateReady ∧ is_ok (install d).2 = true)
  ∧ (k_done k = false → k_wait k = autoUpdateBusyRetry ∨ k_wait k = autoUpdateInterval + jitter).
Proof.
  unfold tick. cbv zeta. destruct (r_action (decideAutoUpdate p)) eqn:E; cbn [k_restart k_done k_wait]; try (split; [done|split; [split; [done|by intros [? _]]|by auto]]).
  - destruct (r_err _) as [e|]; [destruct (String.eqb _ _)|]; (split; [done|split; [split; [done|by intros [? _]]|by auto]]).
  - destruct (String.eqb _ _); (split; [done|split; [split; [done|by intros [? _]]|by auto]]).
  - destruct (install d) as [d' [v|e]]; [split; [done|by split]|].
    destruct (String.eqb _ _); (split; [done|split; [split; [done|by intros [_ ?]]|by auto]]).
Qed.

Section auto.
Context `{Library} (keys : string).

Lemma swap_in_sound u current requested d old d' tmp v d2 r :
  swap_law (u_goos u) (u_swap u) → own_name (base (u_self u)) → d !! base (u_self u) = Some old →
  fetched keys (u_goos u) (u_goarch u) current requested d d' tmp → swap_in u tmp v d' = (d2, r) →
  sound_binary keys (u_goos u) (u_goarch u) current requested old (is_ok r) (d2 !! base (u_self u)).
Proof.
  intros Sw Name Old F. pose proof F as (S & _ & N & _). assert (tmp ≠ base (u_self u)) as Nt by congruence.
  unfold swap_in. destruct (negb _).
  { intros [= <- <-]. apply sound_removed; [done|]. by apply (sound_kept keys u current requested d). }
  destruct (u_swap u _ _ _) as [d3 b] eqn:W. apply (sound_swapped keys u current requested Sw Name d old Old _ _ _ _ F) in W as [W _].
  intros [= <- <-]. apply sound_removed; [done|]. by destruct b.
Qed.

(** What an unattended agent installs is as sound as what [wanctl update] does. *)
Lemma installLatest_sound u current d old :
  swap_law (u_goos u) (u_swap u) → own_name (base (u_self u)) → d !! base (u_self u) = Some old →
  let '(d', r) := installLatest keys current u d in
  sound_binary keys (u_goos u) (u_goarch u) current "" old (is_ok r) (d' !! base (u_self u)).
Proof.
  intros Sw Name Old. unfold installLatest. destruct (updateSourcesForVersion _ _ _) as [bases|]; [|cbn; rewrite Old; by right].
  destruct (overSources _ _ _ _) as [d1 [[tmp v]|e]] eqn:E; apply sources_spec in E.
  - destruct (swap_in u tmp v d1) as [d2 r] eqn:W. by apply (swap_in_sound u current "" d old) in W.
  - by apply (sound_kept keys u current "" d).
Qed.

(** The same for an update asked for in the portal. *)
Lemma portal_run_sound u host current target unended unmoved d old :
  swap_law (u_goos u) (u_swap u) → own_name (base (u_self u)) → d !! base (u_self u) = Some old →
  let '(d', r) := portal_run keys u host current target unended unmoved d in
  sound_binary keys (u_goos u) (u_goarch u) current target old (is_ok r) (d' !! base (u_self u)).
Proof.
  intros Sw Name Old. unfold portal_run. destruct (updateSourcesForVersion _ _ _) as [bases|]; [|cbn; rewrite Old; by right].
  set (attempt := λ base s, _). destruct (overSources attempt bases NoSource (d, [])) as [[d1 failed] r] eqn:E.
  apply (overSources_inv (λ x, d ⊆ x.1) (λ x a, fetched keys (u_goos u) (u_goarch u) current target d x.1 a.1)) in E; [|clear E|done].
  - cbn [fst] in E. destruct r as [[tmp v]|e]; [|by apply (sound_kept keys u current target d)]. cbn [fst] in E. pose proof E as (S & _ & N & _).
    assert (tmp ≠ base (u_self u)) as Nt by congruence.
    destruct (negb unended); [apply sound_removed; [done|by apply (sound_kept keys u current target d)]|].
    destruct (negb unmoved); [apply sound_removed; [done|by apply (sound_kept keys u current target d)]|].
    destruct (swap_in u tmp v d1) as [d2 r2] eqn:W. apply (swap_in_sound u current target d old) in W; [|done..]. by destruct r2.
  - intros b [x l] w' r0 P. unfold attempt. destruct (downloadSignedVersion _ _ _ _ _ _ _ _ _) as [x' r'] eqn:D. apply download_spec in D. intros [= <- <-].
    cbn [fst] in *. destruct r' as [[tmp v]|e]; [|destruct D; by etrans]. destruct D as (T & F & c & -> & Sc).
    split; [etrans; [exact P|by apply insert_subseteq]|]. split; [done|]. split; [by eapply lookup_weaken_None|]. exists c. by rewrite lookup_insert_eq.
Qed.
End auto.

(** A web update goes only to a strictly newer version. *)
Lemma checkPortalUpdate_newer version apk writable android target :
  checkPortalUpdate version apk writable android target = None ↔
  CompareVersions target version = Some 1 ∧ apk = false ∧ writable = true ∧ android = false.
Proof.
  unfold checkPortalUpdate, ValidateVersion, CompareVersions. destruct (parseVersion target) as [t|] eqn:T; [|split; [done|by intros [? _]]].
  destruct (parseVersion version) as [v|] eqn:V; [|split; [done|by intros [? _]]]. cbn [negb].
  destruct apk; [split; [done|by intros (_ & ? & _)]|]. apply parseVersion_spec in T as [_ Rt], V as [_ Rv]. rewrite compareVersion_rank by done.
  destruct (lex_sign (rank t) (rank v)) as [-> |[-> | ->]]; cbn; [split; [done|by intros [? _]]..|].
  destruct writable; [|split; [done|by intros (_ & _ & ? & _)]]. destruct android; split; try done. by intros (_ & _ & _ & ?).
Qed.

(** ** Waiting *)

Lemma await_polls held timeout poll fuel k : 0 < poll →
  awaitAgentLockRelease fuel k held (Z.of_nat k * poll) timeout poll = true
  ↔ ∃ n, (k <= n < k + fuel)%nat ∧ held n = false ∧ (n = k ∨ (Z.of_nat n - 1) * poll < timeout).
Proof.
  intros P. revert k. induction fuel as [|fuel IH]; intros k; cbn [awaitAgentLockRelease]; [split; [done|intros (n & L & _); lia]|].
  destruct (held k) eqn:Hk; cbn [negb]; [|split; [intros _; exists k; split; [lia|by auto]|done]].
  replace (Z.of_nat k * poll + poll) with (Z.of_nat (S k) * poll) by lia. destruct (Z.leb_spec timeout (Z.of_nat k * poll)) as [T|T].
  - split; [done|]. intros (n & L & Hn & [->|B]); [congruence|]. assert (n ≠ k) by congruence. nia.
  - rewrite IH. split; intros (n & L & Hn & B); exists n; (split; [|split; [done|]]); [lia|right; destruct B as [->|B]; lia| |].
    + assert (n ≠ k) by congruence. lia.
    + destruct B as [->|B]; [congruence|by right].
Qed.

(** Stopping an agent succeeds just when one of the 201 polls within ten seconds
    finds the lock free. *)
Lemma await_stop held :
  awaitAgentLockRelease (stop_polls agentStopTimeout agentStopPoll) 0 held 0 agentStopTimeout agentStopPoll = true ↔ ∃ n, (n <= 200)%nat ∧ held n = false.
Proof.
  change 0 with (Z.of_nat 0 * agentStopPoll) at 1. rewrite await_polls by done. change (stop_polls agentStopTimeout agentStopPoll) with 202%nat.
  change agentStopTimeout with (200 * agentStopPoll). split.
  - intros (n & L & Hn & B). exists n. split; [|done]. assert (0 < agentStopPoll) by done. nia.
  - intros (n & L & Hn). exists n. split; [lia|]. split; [done|]. right. assert (0 < agentStopPoll) by done. nia.
Qed.

(** A supervised agent counts as replaced just when one of 21 looks finds
    another live agent on record; 20 waits lie between them. *)
Lemma await_managed attempts k oldPID alive currentPID :
  awaitManagedRestart attempts k oldPID alive currentPID = managedRestartReplaced
  ↔ ∃ n, (k <= n <= k + attempts)%nat ∧ 0 < currentPID n ∧ currentPID n ≠ oldPID ∧ alive n (currentPID n) = true.
Proof.
  assert (∀ n, (0 <? currentPID n) && negb (currentPID n =? oldPID) && alive n (currentPID n) = true ↔ 0 < currentPID n ∧ currentPID n ≠ oldPID ∧ alive n (currentPID n) = true) as B.
  { intros n. rewrite !andb_true_iff, negb_true_iff, Z.ltb_lt, Z.eqb_neq. tauto. }
  revert k. induction attempts as [|m IH]; intros k; cbn [awaitManagedRestart]; destruct (_ && _) eqn:E.
  1, 3: split; [intros _; exists k; split; [lia|by apply B]|done].
  - split; [destruct (alive (S k) oldPID); discriminate|]. intros (n & L & Q). assert (n = k) as -> by lia. apply B in Q. congruence.
  - rewrite IH. split; intros (n & L & Q); exists n; (split; [|done]); [lia|]. assert (n ≠ k); [|lia]. intros ->. apply B in Q. congruence.
Qed.

(** No source is asked twice, and there is always one to ask for a version. *)
Lemma add_missing_NoDup s l : NoDup l → NoDup (add_missing s l).
Proof.
  unfold add_missing. intros N. destruct (any _ l) eqn:A; [done|]. apply NoDup_app. split; [done|]. split; [|apply NoDup_singleton].
  intros x Hx ->%list_elem_of_singleton. pose proof (proj1 (any_false _ _) A _ Hx) as E. by rewrite String.eqb_refl in E.
Qed.

Lemma sources_distinct release_base relay requested l : updateSourcesForVersion release_base relay requested = Some l → NoDup l.
Proof.
  unfold updateSourcesForVersion. destruct (_ && _); [done|]. cbv zeta. set (b0 := if _ && _ then _ else []).
  assert (NoDup b0) as N0 by (unfold b0; destruct (_ && _); repeat constructor; set_solver).
  assert (b0 = [] ∨ ∃ x, b0 = [x]) as S0 by (unfold b0; destruct (_ && _); eauto). clearbody b0.
  set (b1 := if String.eqb release_base "" then b0 else _). assert (NoDup b1) as N1.
  { unfold b1. destruct (String.eqb release_base ""); [done|]. set (x := if _ && has_suffix _ _ then _ else _). destruct S0 as [-> |[y ->]]; [repeat constructor; set_solver|].
    destruct (String.eqb_spec y x) as [_|N]; [done|]. apply NoDup_cons. split; [|repeat constructor; set_solver]. set_solver. }
  clearbody b1. set (b2 := if String.eqb relay "" then b1 else _). assert (NoDup b2) as N2 by (unfold b2; destruct (String.eqb relay ""); [done|by apply add_missing_NoDup]).
  clearbody b2. set (b3 := if String.eqb requested "" then b2 else _). assert (NoDup b3) as N3 by (unfold b3; destruct (String.eqb requested ""); [done|by apply add_missing_NoDup]).
  clearbody b3. destruct b3; [done|]. by intros [= <-].
Qed.

Definition quiet : probe := Probe 0 false (λ _, false) 0.
Definition detached : probe := Probe 7 true (λ _, true) 0.

(** ** One machine *)

Module Demo.

Definition digest : string := hex_encode (sha256 "new").
Definition manifest : Manifest := MkManifest 1 "v1.1.0" 1 [MkArtifact "linux" "amd64" "wanctl-linux-amd64" 3 digest].
Definition key : string := "AAAAAAAAAAAAAAAAAAAAAAAAAAAAAAAAAAAAAAAAAAA=".

#[local] Instance library : Library := {|
  Tokens _ := ([Scalar], true); Decode raw := if String.eqb raw "manifest" then Some (manifest, true) else None;
  ed25519_verify _ raw _ := String.eqb raw "manifest" |}.

Definition answer (body : string) : option reply := Some (Reply 200 (zlen body) (Reader body false) false).
Definition serve (base url : string) : option reply :=
  if has_suffix url "/manifest.json" then answer "manifest"
  else if has_suffix url ".sig" then answer (hex_encode (hex_encode (stake 16 url))) else answer "new".

Definition on (can_write swaps : bool) (p : probe) : machine := {|
  u_goos := "linux"; u_goarch := "amd64"; u_self := "/usr/local/bin/wanctl"; u_release_base := "https://example.org/dl"; u_relay := "";
  u_net := serve; u_temp _ := TempEnv (Some "1"%string) None true true true; u_chmod := true; u_cleanup := true; u_swap := replaceBinary swaps;
  u_writable := can_write; u_sudo := true; u_probe := p; u_stop := StopEnv p true (λ _, false);
  u_start := StartEnv quiet true true true true true true (Some 8) true; u_managed := ManagedEnv true true (λ _ _, true) (λ _, 8) |}.

Definition files : directory := {["wanctl"%string := "old"%string]}.

Lemma own_wanctl : own_name "wanctl".
Proof. intros random. reflexivity. Qed.

Example update_sample :
  let o := cmdUpdate key 1 "v1.0.0" (λ _, on true true detached) false [] files in
  o_dir o !! "wanctl"%string = Some "new"%string ∧ is_ok (o_result o) = true ∧ o_actions o = [Terminate 7; RemovePID; StartAgent 8; WritePID 8].
Proof. vm_compute. auto. Qed.

(** The theorems at this machine. *)
Example update_installs_signed_witness :
  let o := cmdUpdate key 1 "v1.0.0" (λ _, on true true detached) false [] files in
  sound_binary key "linux" "amd64" "v1.0.0" "" "old" (is_ok (o_result o)) (o_dir o !! "wanctl"%string).
Proof.
  apply (update_installs_signed key 1 "v1.0.0" (λ _, on true true detached) "linux" "amd64" "wanctl" false [] files "old"); [|exact own_wanctl|reflexivity].
  intros root. split; [reflexivity|]. split; [reflexivity|]. split; [reflexivity|]. exists true. reflexivity.
Defined.

Example update_starts_no_agent_witness : only_clears (o_actions (cmdUpdate key 1 "v1.0.0" (λ _, on true true quiet) false [] files)).
Proof. apply (update_starts_no_agent key 1 "v1.0.0" (λ _, on true true quiet) false [] files); left; reflexivity. Defined.

(** A swap that fails comes after the agent was stopped, which is not started
    again; so does a password that [sudo] refuses. *)
Example failed_swap_leaves_stopped :
  let o := cmdUpdate key 1 "v1.0.0" (λ _, on true false detached) false [] files in
  is_ok (o_result o) = false ∧ o_actions o = [Terminate 7; RemovePID].
Proof. vm_compute. auto. Qed.

(** Where not even the superuser can write the directory, the program runs
    itself under [sudo] again and again. *)
Lemma readonly_directory_recurses depth : cmdUpdate key depth "v1.0.0" (λ _, on false true quiet) false [] files = Outcome files [] (Err TooDeep).
Proof.
  assert (∀ root nr, run_update key depth "v1.0.0" (λ _, on false true quiet) root nr "" files = Outcome files [] (Err TooDeep)) as R; [|apply R].
  induction depth as [|depth IH]; intros root nr; [reflexivity|]. cbn [run_update on u_goos u_writable u_sudo]. cbn. by rewrite IH.
Qed.

(** A device that cannot make a file is reported as one that cannot reach the
    source. *)
Definition full_disk : machine := {|
  u_goos := "linux"; u_goarch := "amd64"; u_self := "/usr/local/bin/wanctl"; u_release_base := "https://example.org/dl"; u_relay := "";
  u_net := serve; u_temp _ := TempEnv None None true true true; u_chmod := true; u_cleanup := true; u_swap := replaceBinary true;
  u_writable := true; u_sudo := true; u_probe := quiet; u_stop := StopEnv quiet true (λ _, false);
  u_start := StartEnv quiet true true true true true true (Some 8) true; u_managed := ManagedEnv true true (λ _ _, true) (λ _, 8) |}.

Example full_disk_reported_unreachable :
  (portal_run key full_disk (λ _, "example.org"%string) "v1.0.0" "v1.1.0" true true files).2 = Err (CouldNotReach "example.org").
Proof. vm_compute. reflexivity. Qed.
End Demo.
