(* ===== verification/WebFetch.v ===== *)
(** [internal/webfetch/handler.go]: operations asked for by fetching a URL.

    The request as it is parsed, the limits every operation keeps, how long it
    may take, how a long answer is cut, and how a failure is classified.  What
    the handler does with its stores is in [WebFetchRuns.v].  Query parameters enter
    decoded, as a map. *)

From S2P Require Import Prelude GoStrings GoUtf8 Utf8Facts GoCodec Session FileEdit FileRead.
Import Delegation.

Local Open Scope Z_scope.

(** ** Limits *)

Definition MaxURLBytes : Z := 8192.
Definition MaxOutputBytes : Z := Z.shiftl 32 10.
Definition MaxWriteBytes : Z := 2048.
Definition maxReadLines : Z := Z.shiftl 1 20.
Definition maxLineNumber : Z := Z.shiftl 1 31 - 1.
Definition MaxExecSeconds : Z := 14400.
Definition DefaultExecSeconds : Z := 300.
Definition MaxFileSeconds : Z := 60.
Definition DefaultFileSeconds : Z := 30.
Definition staleGrace : Z := 90 * second.

Definition one_of (chars : string) (c : ascii) : bool := negb (sforall (λ d, negb (Ascii.eqb d c)) chars).
Definition contains_any (s chars : string) : bool := negb (sforall (λ c, negb (one_of chars c)) s).

Definition decimal (c : ascii) : bool := in_range 48 57 (byte_val c).
Definition lower_letter (c : ascii) : bool := in_range 97 122 (byte_val c).
Definition upper_letter (c : ascii) : bool := in_range 65 90 (byte_val c).

(** The regular expressions, in the order of the file. *)
Definition ticketPattern (s : string) : bool :=
  (slen s =? 59)%nat && sforall decimal (stake 10 s) && match sget 10 s with Some c => Ascii.eqb c "-" | None => false end
  && sforall lower_hex_char (sdrop 11 s).
Definition clientNoncePattern (s : string) : bool := (slen s =? 48)%nat && sforall lower_hex_char s.
Definition ridPattern (s : string) : bool :=
  (1 <=? slen s)%nat && (slen s <=? 64)%nat
  && sforall (λ c, lower_letter c || upper_letter c || decimal c || Ascii.eqb c "_" || Ascii.eqb c "-") s.
Definition sha256Pattern (s : string) : bool :=
  (slen s =? 64)%nat && sforall (λ c, in_range 97 102 (byte_val c) || in_range 65 70 (byte_val c) || decimal c) s.

Definition ticketFresh (issued now : Z) : bool := (issued <=? now + 30 * second) && (now <? issued + TicketLifetime).

(** ** Operations *)

Record Operation := MkOperation {
  o_Tool : string; o_Target : string; o_Command : string; o_Cwd : string; o_Path : string; o_Content : string;
  o_Offset : option Z; o_Limit : option Z; o_Old : string; o_New : string; o_All : option bool; o_ExpectedSHA : string;
  o_Timeout : option Z }.

Definition timeoutBounds (tool : string) : Z * Z :=
  if String.eqb tool "exec" then (MaxExecSeconds, DefaultExecSeconds) else (MaxFileSeconds, DefaultFileSeconds).
Definition timeout (o : Operation) : Z := match o_Timeout o with Some n => n | None => (timeoutBounds (o_Tool o)).2 end.

Definition effectiveDeadline (created timeout grantExpiry : Z) : Z :=
  let deadline := created + timeout * second in
  if negb (is_zero grantExpiry) && (grantExpiry <? deadline) then grantExpiry else deadline.

Definition jobState (state : string) (now deadline : Z) : string :=
  if negb (String.eqb state "running") && negb (String.eqb state "queued") then state
  else if deadline + staleGrace <? now then "unknown" else state.

Abbreviation query := (gmap string string).
Definition get (q : query) (key : string) : string := default "" (q !! key).
Definition has (q : query) (key : string) : bool := bool_decide (is_Some (q !! key)).

Inductive operation_error :=
| BadRid | BadTarget | BadCommand | BadPath | BadContent | BadLine (key : string) | BadOld | BadNew | BadAll | BadSHA
| UnknownTool | BadTimeout | UnknownParameter.
Abbreviation parsed := (result operation_error).

Definition lineParam (q : query) (key : string) (ceiling : Z) : parsed (option Z) :=
  if negb (has q key) then Ok None
  else match Atoi (get q key) with
       | Some n => if (n <? 1) || (ceiling <? n) then Err (BadLine key) else Ok (Some n)
       | None => Err (BadLine key)
       end.

Definition nul : string := String "000" "".
Definition breaks : string := String "013" (String "010" nul).

Definition target_ok (target : string) : bool :=
  (slen target <=? 200)%nat && negb (contains_any target breaks) && (slen (sfilter (λ c, Ascii.eqb c "/") target) =? 1)%nat
  && negb (has_prefix target "/") && negb (has_suffix target "/").

(** The fields of one tool, and the parameters it takes besides the common ones. *)
Definition tool_operation (q : query) : parsed (Operation * list string) :=
  let tool := get q "tool" in
  let target := get q "target" in
  let path := get q "path" in
  let bare := MkOperation tool target "" "" path "" None None "" "" None "" None in
  if String.eqb tool "exec" then
    let command := get q "command" in
    let cwd := get q "cwd" in
    if String.eqb command "" || (2048 <? slen command)%nat || (1024 <? slen cwd)%nat || contains_any (command ++ cwd) nul then Err BadCommand
    else Ok (MkOperation tool target command cwd "" "" None None "" "" None "" None, ["command"; "cwd"]%string)
  else if negb (any (String.eqb tool) ["write_text"; "read_text"; "edit_text"]%string) then Err UnknownTool
  else if String.eqb path "" || (1024 <? slen path)%nat || contains_any path nul then Err BadPath
  else if String.eqb tool "write_text" then
    let content := get q "content" in
    if negb (has q "content") || (MaxWriteBytes <? zlen content) || negb (valid_string content) then Err BadContent
    else Ok (MkOperation tool target "" "" path content None None "" "" None "" None, ["path"; "content"]%string)
  else if String.eqb tool "read_text" then
    match lineParam q "offset" maxLineNumber with Err e => Err e | Ok offset =>
    match lineParam q "limit" maxReadLines with Err e => Err e | Ok limit =>
      Ok (MkOperation tool target "" "" path "" offset limit "" "" None "" None, ["path"; "offset"; "limit"]%string)
    end end
  else
    let old := get q "old" in
    let new := get q "new" in
    if String.eqb old "" || negb (valid_string old) || contains old nul then Err BadOld
    else if negb (has q "new") || negb (valid_string new) || contains new nul then Err BadNew
    else if has q "all" && negb (String.eqb (get q "all") "true") && negb (String.eqb (get q "all") "false") then Err BadAll
    else if has q "expected_sha256" && negb (sha256Pattern (get q "expected_sha256")) then Err BadSHA
    else Ok (MkOperation tool target "" "" path "" None None old new
               (if has q "all" then Some (String.eqb (get q "all") "true") else None) (get q "expected_sha256") None,
             ["path"; "old"; "new"; "all"; "expected_sha256"]%string).

Definition with_timeout (n : option Z) (o : Operation) : Operation :=
  MkOperation (o_Tool o) (o_Target o) (o_Command o) (o_Cwd o) (o_Path o) (o_Content o) (o_Offset o) (o_Limit o)
    (o_Old o) (o_New o) (o_All o) (o_ExpectedSHA o) n.

Definition common : list string := ["rid"; "tool"; "target"; "format"; "timeout_seconds"]%string.

Definition parseOperation (q : query) : parsed Operation :=
  if negb (ridPattern (get q "rid")) then Err BadRid
  else if negb (target_ok (get q "target")) then Err BadTarget
  else match tool_operation q with Err e => Err e | Ok (op, allowed) =>
  match (let v := get q "timeout_seconds" in
         if String.eqb v "" then Ok None
         else match Atoi v with
              | Some n => if (n <? 1) || ((timeoutBounds (o_Tool op)).1 <? n) then Err BadTimeout else Ok (Some n)
              | None => Err BadTimeout
              end) with
  | Err e => Err e
  | Ok n =>
      if any (λ kv : string * string, negb (any (String.eqb kv.1) (common ++ allowed))) (map_to_list q) then Err UnknownParameter
      else Ok (with_timeout n op)
  end end.

(** ** Answers *)

(** [trimPartialRune] *)
Definition trimPartialRune (b : string) : string := trim_invalid 3 b.

(** [strings.LastIndexByte(s, '\n')], plus one. *)
Fixpoint after_last_newline (s : string) : option nat :=
  match s with
  | EmptyString => None
  | String c s =>
      match after_last_newline s with
      | Some n => Some (S n)
      | None => if Ascii.eqb c nl then Some 1%nat else None
      end
  end.
Definition newlines (s : string) : Z := zlen (sfilter (Ascii.eqb nl) s).

(** What [fitRead] puts in the answer; [f_next] is the offset to continue at. *)
Record fitted := Fitted { f_content : string; f_first : Z; f_last : Z; f_total : Z; f_truncated : bool; f_long : Z; f_next : option Z }.

Definition fitRead (res : fileLines) : fitted :=
  let '(content, last, truncated, longLine) :=
    if MaxOutputBytes <? zlen (fl_Content res) then
      let head := stake (Z.to_nat MaxOutputBytes) (fl_Content res) in
      match after_last_newline head with
      | Some cut => let content := stake cut (fl_Content res) in (content, fl_FirstLine res + newlines content - 1, true, 0)
      | None => (trimPartialRune head, fl_FirstLine res, true, fl_FirstLine res)
      end
    else (fl_Content res, fl_LastLine res, fl_Truncated res, fl_LongLine res) in
  Fitted content (fl_FirstLine res) last (fl_TotalLines res) truncated longLine
    (if negb (longLine =? 0) then None else if truncated then Some (last + 1) else None).

(** The loop of [boundedText]. *)
Fixpoint valid_prefix (fuel : nat) (text : string) : string :=
  match fuel with
  | O => text
  | S fuel => if negb (valid_string text) && (0 <? slen text)%nat then valid_prefix fuel (stake (slen text - 1) text) else text
  end.
Definition boundedText (text : string) (limit : nat) : string :=
  if (slen text <=? limit)%nat then text
  else let text := stake limit text in (valid_prefix (slen text) text ++ " [truncated]")%string.

(** [boundedOutput]: what is kept, whether it overflowed (and the command was
    cancelled). *)
Record boundedOutput := BoundedOutput { b_kept : string; b_truncated : bool }.
Definition output_write (limit : Z) (p : string) (b : boundedOutput) : boundedOutput :=
  let remaining := limit - zlen (b_kept b) in
  if remaining <? zlen p then BoundedOutput (if 0 <? remaining then b_kept b ++ stake (Z.to_nat remaining) p else b_kept b) true
  else BoundedOutput (b_kept b ++ p) (b_truncated b).

(** ** Failures *)

(** What the client reports: the device refused the session or the request, asks
    to be trusted, refused the file operation, or does not know the request;
    anything else leaves the outcome open. *)
Inductive client_error :=
| RejectError (pairingURL : string) | TrustRequiredError | FileOpError | UnsupportedError | OtherError.

Record failure := Failure {
  x_state : string; x_code : string; x_not_started : bool; x_unknown_note : bool; x_pairing : option string }.

(** [ownerLink url] says the URL is of the portal. *)
Definition recordFailure (ownerLink : string → bool) (tool : string) (e : client_error) : failure :=
  let tooOld := match e with UnsupportedError => negb (String.eqb tool "edit_text") | _ => false end in
  let decided := match e with RejectError _ | TrustRequiredError | FileOpError => true | _ => tooOld end in
  let unknown := negb decided && negb (String.eqb tool "read_text") in
  let state := if unknown then "unknown"%string else "failed"%string in
  match e with
  | FileOpError => Failure state "file_refused" true false None
  | UnsupportedError => if tooOld then Failure state "device_agent_too_old" true false None else Failure state "" false unknown None
  | RejectError url =>
      if (slen url <=? 2048)%nat && ownerLink url then Failure state "pairing_required" true false (Some url) else Failure state "" false false None
  | _ => Failure state "" false unknown None
  end.

(** ** Rates *)

Record rateWindow := RateWindow { rw_at : Z; rw_count : Z }.
Abbreviation rates := (gmap string rateWindow).
Definition max_windows : nat := 4096.

Definition rateAllowed (now : Z) (key : string) (limit : Z) (m : rates) : bool * rates :=
  let m := if (max_windows <=? size m)%nat then filter (λ kv, Is_true (negb (minute <? now - rw_at kv.2))) m else m in
  let found := m !! key in
  if match found with None => (max_windows <=? size m)%nat | Some _ => false end then (false, m)
  else
    let v := default (RateWindow 0 0) found in
    let v := if minute <? now - rw_at v then RateWindow now 0 else v in
    let v := RateWindow (rw_at v) (rw_count v + 1) in
    (rw_count v <=? limit, <[key := v]> m).

(** ** Credentials: all derived from the ticket and the secret *)

Definition digest (data : string) : string := hex_encode (sha256 data).
Definition derive (seed domain input : string) : string := hmac_sha256 seed (domain ++ nul ++ input).

Record credentials := Credentials { cr_id : string; cr_token : string; cr_fingerprint : string }.

(** [identity] is the fingerprint of the identity made from 32 bytes. *)
Definition credentials_of (seed : string) (identity : string → option string) (ticket : string) : option credentials :=
  let id := ("d_" ++ stake 32 (digest ticket))%string in
  match identity (derive seed "wanctl-webfetch-identity-v1" id) with
  | Some fp => Some (Credentials id ("wfd_" ++ hex_encode (derive seed "wanctl-webfetch-access-v1" ticket)) fp)
  | None => None
  end.

(** ** A parsed operation keeps the limits *)

Definition tool_parameters : list string := ["command"; "cwd"; "path"; "content"; "offset"; "limit"; "old"; "new"; "all"; "expected_sha256"]%string.

(** What every accepted operation satisfies: the length of each field, whole
    UTF-8 text where it is written to files, a timeout within the tool's bounds
    (or none, and none is recorded), and no parameter the tool does not take. *)
Definition within_limits (q : query) (o : Operation) : Prop :=
  ridPattern (get q "rid") = true ∧ o_Target o = get q "target" ∧ target_ok (o_Target o) = true
  ∧ o_Tool o = get q "tool" ∧ o_Tool o ∈ ["exec"; "write_text"; "read_text"; "edit_text"]%string
  ∧ zlen (o_Command o) <= 2048 ∧ zlen (o_Cwd o) <= 1024 ∧ zlen (o_Path o) <= 1024 ∧ zlen (o_Content o) <= MaxWriteBytes
  ∧ valid_string (o_Content o) = true ∧ valid_string (o_Old o) = true ∧ valid_string (o_New o) = true
  ∧ (o_Tool o = "exec"%string ↔ o_Command o ≠ ""%string) ∧ (o_Tool o ≠ "exec"%string ↔ o_Path o ≠ ""%string)
  ∧ (o_Tool o = "edit_text"%string ↔ o_Old o ≠ ""%string)
  ∧ 1 <= timeout o <= (timeoutBounds (o_Tool o)).1
  ∧ (o_Timeout o = None ↔ get q "timeout_seconds" = ""%string)
  ∧ ∀ k, has q k = true → k ∈ common ++ tool_parameters.

Lemma tool_operation_limits q o allowed : tool_operation q = Ok (o, allowed) →
  o_Target o = get q "target" ∧ o_Timeout o = None
  ∧ o_Tool o = get q "tool" ∧ o_Tool o ∈ ["exec"; "write_text"; "read_text"; "edit_text"]%string
  ∧ zlen (o_Command o) <= 2048 ∧ zlen (o_Cwd o) <= 1024 ∧ zlen (o_Path o) <= 1024 ∧ zlen (o_Content o) <= MaxWriteBytes
  ∧ valid_string (o_Content o) = true ∧ valid_string (o_Old o) = true ∧ valid_string (o_New o) = true
  ∧ (o_Tool o = "exec"%string ↔ o_Command o ≠ ""%string) ∧ (o_Tool o ≠ "exec"%string ↔ o_Path o ≠ ""%string)
  ∧ (o_Tool o = "edit_text"%string ↔ o_Old o ≠ ""%string)
  ∧ ∀ k, k ∈ allowed → k ∈ tool_parameters.
Proof.
  unfold tool_operation. cbv zeta. assert (valid_string "" = true) as V0 by reflexivity. assert (zlen "" = 0) as Z0 by reflexivity.
  destruct (String.eqb_spec (get q "tool") "exec") as [T|T].
  { destruct (_ || _) eqn:B; [done|]. intros [= <- <-]. cbn [o_Target o_Timeout o_Tool o_Command o_Cwd o_Path o_Content o_Old o_New]. rewrite Z0, T in *. bsplit; ssplit. unfold zlen.
    repeat split; try done; try lia; set_solver. }
  destruct (any (String.eqb (get q "tool")) _) eqn:A; [|done]. cbn [negb]. apply any_true in A as (t & Ht & Et). ssplit. subst t.
  destruct (String.eqb (get q "path") "" || _ || _) eqn:P; [done|]. bsplit; ssplit.
  assert (zlen (get q "path") <= 1024) as Lp by (unfold zlen; lia).
  destruct (String.eqb_spec (get q "tool") "write_text") as [W|W].
  { destruct (negb (has q "content") || _ || _) eqn:B; [done|]. intros [= <- <-]. cbn [o_Target o_Timeout o_Tool o_Command o_Cwd o_Path o_Content o_Old o_New]. rewrite Z0, W in *. bsplit.
    repeat split; try done; try lia; set_solver. }
  destruct (String.eqb_spec (get q "tool") "read_text") as [R|R].
  { destruct (lineParam q "offset" _); [|done]. destruct (lineParam q "limit" _); [|done]. intros [= <- <-].
    cbn [o_Target o_Timeout o_Tool o_Command o_Cwd o_Path o_Content o_Old o_New]. rewrite Z0, R in *. repeat split; try done; try lia; set_solver. }
  assert (get q "tool" = "edit_text"%string) as E by set_solver.
  destruct (String.eqb (get q "old") "" || _ || _) eqn:B; [done|]. destruct (negb (has q "new") || _ || _) eqn:C; [done|].
  destruct (_ && _ && _); [done|]. destruct (_ && _); [done|]. intros [= <- <-]. cbn [o_Target o_Timeout o_Tool o_Command o_Cwd o_Path o_Content o_Old o_New].
  rewrite Z0, E in *. bsplit; ssplit. repeat split; try done; try lia; set_solver.
Qed.

Lemma parseOperation_limits q o : parseOperation q = Ok o → within_limits q o.
Proof.
  unfold parseOperation. destruct (ridPattern (get q "rid")) eqn:R; [|done]. destruct (target_ok (get q "target")) eqn:T; [|done].
  destruct (tool_operation q) as [[op allowed]|] eqn:E; [|done]. apply tool_operation_limits in E as (Ta & To & Tl & Tin & L1 & L2 & L3 & L4 & V1 & V2 & V3 & X1 & X2 & X3 & Al).
  cbn [negb]. cbv zeta. set (tmo := if String.eqb _ "" then _ else _). destruct tmo as [n|] eqn:N; [|done]. destruct (any _ _) eqn:U; [done|]. intros [= <-].
  assert ((n = None ∧ get q "timeout_seconds" = ""%string) ∨ (get q "timeout_seconds" ≠ ""%string ∧ ∃ k, n = Some k ∧ 1 <= k <= (timeoutBounds (o_Tool op)).1)) as Nn.
  { unfold tmo in N. destruct (String.eqb_spec (get q "timeout_seconds") "") as [->|Ne]; [injection N as <-; by left|]. right. split; [done|].
    destruct (Atoi _) as [k|]; [|done]. destruct (_ || _) eqn:B; [done|]. injection N as <-. bsplit. exists k. split; [done|lia]. }
  unfold within_limits, timeout, with_timeout. cbn [o_Target o_Timeout o_Tool o_Command o_Cwd o_Path o_Content o_Old o_New]. rewrite Ta, Tl in *.
  split; [done|]. split; [done|]. split; [done|]. split; [done|]. do 11 (split; [done|]).
  split. { destruct Nn as [[-> _]|(_ & k & -> & B)]; [|done]. unfold timeoutBounds. by destruct (String.eqb _ "exec"). }
  split. { destruct Nn as [[-> ->]|(Ne & k & -> & _)]; done. }
  intros k [v Hv]%bool_decide_eq_true_1. assert ((k, v) ∈ map_to_list q) as Hk by by apply elem_of_map_to_list.
  pose proof (proj1 (any_false _ _) U _ Hk) as F. cbn [fst] in F. apply negb_false_iff, any_true in F as (x & Hx & ->%String.eqb_eq).
  apply elem_of_app in Hx as [Hx|Hx]; apply elem_of_app; [by left|right; by apply Al].
Qed.

(** ** Cutting texts *)

(** Taking up to three bytes off a valid text that was cut anywhere leaves a
    valid one. *)
Lemma trim_cut_valid s n k : valid_string s = true → (n <= slen s)%nat → (∃ b, (b <= n <= b + k)%nat ∧ at_rune b s) →
  valid_string (trim_invalid k (stake n s)) = true.
Proof.
  intros V. revert n. induction k as [|k IH]; intros n Ln (b & R & A); cbn [trim_invalid].
  { assert (b = n) as -> by lia. by destruct (valid_cut s n V A). }
  destruct (valid_string (stake n s)) eqn:Vs; [done|]. cbn [orb]. assert (b ≠ n) as Nb by (intros ->; destruct (valid_cut s n V A); congruence).
  rewrite slen_stake, Nat.min_l by done. destruct (Nat.eqb_spec n 0); [lia|]. rewrite stake_stake. replace (Nat.min n (n - 1)) with (n - 1)%nat by lia. apply IH; [lia|]. exists b. split; [lia|done].
Qed.

Lemma trimPartialRune_valid s n : valid_string s = true → (n <= slen s)%nat → valid_string (trimPartialRune (stake n s)) = true.
Proof.
  intros V L. apply trim_cut_valid; [done|done|]. destruct (decide (n = slen s)) as [->|N]; [exists (slen s); split; [lia|by left]|].
  destruct (start_near s n V ltac:(lia)) as (b & c & R & G & S). exists b. split; [lia|]. right. by exists c.
Qed.

Lemma valid_prefix_valid fuel text : (slen text <= fuel)%nat → valid_string (valid_prefix fuel text) = true ∧ ∃ t, text = (valid_prefix fuel text ++ t)%string.
Proof.
  revert text. induction fuel as [|fuel IH]; intros text L; cbn [valid_prefix].
  { rewrite (slen_nil text) by lia. split; [done|by exists ""%string]. }
  destruct (valid_string text) eqn:V; cbn [negb andb]; [split; [done|exists ""%string; by rewrite app_nil_s]|].
  destruct (Nat.ltb_spec 0 (slen text)) as [P|P]; [|by rewrite (slen_nil text) in V by lia].
  destruct (IH (stake (slen text - 1) text)) as [Vp (t & E)]; [rewrite slen_stake; lia|]. split; [done|].
  exists (t ++ sdrop (slen text - 1) text)%string. by rewrite app_assoc_s, <- E, stake_sdrop.
Qed.

(** An error message is cut to whole characters, and never grows beyond the
    limit by more than the note. *)
Lemma boundedText_spec text limit : valid_string text = true ∨ (limit < slen text)%nat →
  valid_string (boundedText text limit) = true ∧ (slen (boundedText text limit) <= limit + 12)%nat.
Proof.
  unfold boundedText. destruct (Nat.leb_spec (slen text) limit) as [L|L]; [intros [V|]; [by split; [|lia]|lia]|]. intros _. cbv zeta.
  destruct (valid_prefix_valid (slen (stake limit text)) (stake limit text)) as [V (t & E)]; [lia|]. split; [by apply valid_app|].
  set (v := valid_prefix _ _) in *. clearbody v. apply (f_equal slen) in E. rewrite slen_app, slen_stake in E. rewrite slen_app. simpl (slen " [truncated]"). lia.
Qed.

Lemma after_last_newline_spec s n : after_last_newline s = Some n →
  (1 <= n <= slen s)%nat ∧ sget (n - 1) s = Some nl ∧ sforall (λ c, negb (Ascii.eqb c nl)) (sdrop n s) = true.
Proof.
  revert n. induction s as [|c s IH]; intros n; cbn [after_last_newline]; [done|]. destruct (after_last_newline s) as [m|] eqn:E.
  - intros [= <-]. destruct (IH m eq_refl) as (B & G & F). split; [simpl; lia|]. destruct m as [|m]; [lia|]. simpl in *. by rewrite Nat.sub_0_r in *.
  - destruct (Ascii.eqb_spec c nl) as [->|]; [|done]. intros [= <-]. split; [simpl; lia|]. split; [done|]. clear -E. simpl. destruct s; [done|].
    revert E. generalize (String a s). clear. induction s as [|c s IH]; [done|]. cbn [after_last_newline sforall]. destruct (after_last_newline s); [done|].
    destruct (Ascii.eqb c nl); [done|]. intros _. by apply IH.
Qed.

Lemma after_last_newline_None s : after_last_newline s = None → sforall (λ c, negb (Ascii.eqb c nl)) s = true.
Proof.
  induction s as [|c s IH]; [done|]. cbn [after_last_newline sforall]. destruct (after_last_newline s); [done|].
  destruct (Ascii.eqb c nl); [done|]. intros _. by apply IH.
Qed.

(** ** Pages of a text

    [page] is what [read_text] answers for a text the device holds, and
    [read_on] a reader that asks for the rest while there is more. *)
Definition page (text : string) (offset : Z) : option fitted :=
  match read_lines text offset 0 with Ok r => Some (fitRead r) | Err _ => None end.

Fixpoint read_on (fuel : nat) (text : string) (offset : Z) : option (list fitted) :=
  match fuel with
  | O => None
  | S fuel =>
      match page text offset with
      | None => None
      | Some p =>
          if f_last p <? f_total p
          then match read_on fuel text (default (f_last p + 1) (f_next p)) with Some ps => Some (p :: ps) | None => None end
          else Some [p]
      end
  end.

Definition of_lines (l : list string) : string := String.concat "" l.

Lemma of_lines_cons x l : of_lines (x :: l) = (x ++ of_lines l)%string.
Proof. unfold of_lines. destruct l; simpl; [by rewrite app_nil_s|done]. Qed.

Lemma of_lines_app l k : of_lines (l ++ k) = (of_lines l ++ of_lines k)%string.
Proof. induction l as [|x l IH]; [done|]. cbn [app]. by rewrite !of_lines_cons, IH, app_assoc_s. Qed.

Lemma of_lines_lines s : of_lines (lines s) = s.
Proof.
  induction s as [|c s IH]; [done|]. cbn [lines]. destruct (Ascii.eqb_spec c nl) as [->|N]; [rewrite of_lines_cons; simpl; by rewrite IH|].
  destruct (lines s) as [|x l]; [simpl in *; by subst|]. rewrite of_lines_cons in *. simpl. by rewrite <- IH.
Qed.

(** A line has one newline, at its end; only the last line of a text may lack it. *)
Definition whole_line (l : string) : Prop := ∃ p, l = (p ++ String nl "")%string ∧ sforall (λ c, negb (Ascii.eqb c nl)) p = true.

Lemma lines_whole s : ∃ l t, lines s = l ++ (if String.eqb t "" then [] else [t]) ∧ Forall whole_line l ∧ sforall (λ c, negb (Ascii.eqb c nl)) t = true.
Proof.
  induction s as [|c s (l & t & E & W & T)]; [by exists [], ""%string|]. cbn [lines]. rewrite E. clear E. destruct (Ascii.eqb_spec c nl) as [->|N].
  - exists (String nl "" :: l), t. split; [done|]. split; [|done]. constructor; [by exists ""%string|done].
  - destruct l as [|x l]; cbn [app].
    + exists [], (String c t). split; [by destruct (String.eqb_spec t "") as [->|]|]. split; [done|]. simpl. rewrite T. by rewrite (proj2 (Ascii.eqb_neq c nl)).
    + exists (String c x :: l), t. split; [done|]. split; [|done]. apply Forall_cons in W as [(p & -> & P) W]. constructor; [|done].
      exists (String c p). split; [done|]. simpl. rewrite P. by rewrite (proj2 (Ascii.eqb_neq c nl)).
Qed.

Lemma after_newline s i : valid_string s = true → sget i s = Some nl → at_rune (S i) s.
Proof.
  revert i. induction s as [|s N IH] using rune_ind; [by intros []|]. intros i V G. pose proof V as V'. rewrite valid_step in V' by done. bsplit.
  destruct (decide (i < rune_len s)%nat) as [L|L].
  - destruct (decide (i = 0%nat)) as [->|Ni].
    + destruct s as [|c s]; [done|]. simpl in G. injection G as ->. pose proof (after_rune (String nl s) V N) as A. unfold rune_len in A. by simpl in A.
    + assert (rune_start (byte_val nl) = false) as T by (apply (tail_not_start s i nl); [done|lia|done]). vm_compute in T. discriminate.
  - destruct (IH (i - rune_len s)%nat) as [A|(c & Gc & S)]; [done|rewrite sget_sdrop; by replace (rune_len s + (i - rune_len s))%nat with i by lia| |].
    + left. rewrite slen_sdrop in A. lia.
    + right. exists c. rewrite sget_sdrop in Gc. split; [|done]. rewrite <- Gc. f_equal. lia.
Qed.

Lemma line_whole text a x y b : lines text = a ++ x :: y :: b → whole_line x.
Proof.
  intros E. destruct (lines_whole text) as (l & t & El & W & _). rewrite E in El. rewrite Forall_lookup in W. apply (W (length a)).
  rewrite <- (lookup_app_l l (if String.eqb t "" then [] else [t])); [rewrite <- El, list_lookup_middle; done|].
  apply (f_equal length) in El. rewrite !length_app in El. simpl in El. destruct (String.eqb t ""); simpl in El; lia.
Qed.

(** The lines of a valid text are valid, and so is any run of them. *)
Lemma lines_valid text a b : valid_string text = true → lines text = a ++ b → valid_string (of_lines a) = true ∧ valid_string (of_lines b) = true.
Proof.
  intros V E. pose proof (of_lines_lines text) as T. rewrite E, of_lines_app in T.
  assert (at_rune (slen (of_lines a)) text) as A.
  { destruct b as [|y b]; [left; rewrite <- T, slen_app; simpl; lia|]. destruct a as [|x a _] using rev_ind.
    - simpl. destruct text as [|c s]; [by left|]. right. exists c. split; [done|]. by apply (valid_head_start c s).
    - rewrite <- app_assoc in E. destruct (line_whole _ _ _ _ _ E) as (p & -> & _). rewrite of_lines_app, of_lines_cons in *. simpl (of_lines []) in *.
      rewrite app_nil_s in *. assert (slen (of_lines a ++ p ++ String nl "") = S (slen (of_lines a ++ p))) as -> by (rewrite !slen_app; simpl; lia).
      apply after_newline; [done|]. rewrite <- T, !app_assoc_s, <- app_assoc_s. replace (slen (of_lines a ++ p)) with (slen (of_lines a ++ p) + 0)%nat by lia.
      by rewrite sget_app. }
  destruct (valid_cut text _ V A) as [V1 V2]. rewrite <- T in V1, V2. by rewrite stake_app, sdrop_app in *.
Qed.

Lemma newlines_app x n : newlines (x ++ n) = newlines x + newlines n.
Proof. unfold newlines. induction x as [|c x IH]; [done|]. cbn [append sfilter]. destruct (Ascii.eqb nl c); [rewrite !zlen_cons|]; lia. Qed.

Lemma newlines_none s : sforall (λ c, negb (Ascii.eqb c nl)) s = true → newlines s = 0.
Proof.
  unfold newlines. induction s as [|c s IH]; [done|]. cbn [sforall sfilter]. rewrite (Ascii.eqb_sym nl c). intros F. bsplit. rewrite H. by apply IH.
Qed.

Lemma newlines_whole x : whole_line x → newlines x = 1.
Proof. intros (p & -> & P). rewrite newlines_app, newlines_none by done. done. Qed.

Lemma sget_no_newline s i : sforall (λ c, negb (Ascii.eqb c nl)) s = true → sget i s ≠ Some nl.
Proof.
  revert i. induction s as [|c s IH]; intros i F; [by destruct i|]. simpl in F. bsplit. destruct i as [|i]; simpl; [|by apply IH]. intros [= ->]. by rewrite Ascii.eqb_refl in H.
Qed.

(** A text cut after a newline is a run of its lines. *)
Lemma cut_lines w t n : Forall whole_line w → sforall (λ c, negb (Ascii.eqb c nl)) t = true → sget n (of_lines w ++ t) = Some nl →
  ∃ j, (1 <= j <= length w)%nat ∧ stake (S n) (of_lines w ++ t) = of_lines (take j w) ∧ newlines (of_lines (take j w)) = Z.of_nat j.
Proof.
  intros W T. revert n. induction W as [|x w Wx W IH]; intros n G; [by apply sget_no_newline in G|].
  pose proof (newlines_whole x Wx) as Nx. destruct Wx as (p & -> & P). rewrite of_lines_cons, <- app_assoc_s in G |- *.
  destruct (decide (n < slen (p ++ String nl ""))%nat) as [L|L].
  - rewrite sget_app_l in G by done. assert (n = slen p) as ->.
    { rewrite slen_app in L. simpl in L. destruct (decide (n = slen p)); [done|]. rewrite sget_app_l in G by lia. by apply sget_no_newline in G. }
    exists 1%nat. split; [simpl; lia|]. cbn [take]. rewrite of_lines_cons. simpl (of_lines []). rewrite app_nil_s. split; [|done].
    replace (S (slen p)) with (slen (p ++ String nl "")) by (rewrite slen_app; simpl; lia). apply stake_app.
  - destruct (IH (n - slen (p ++ String nl ""))%nat) as (j & B & E & Nj).
    { replace n with (slen (p ++ String nl "") + (n - slen (p ++ String nl "")))%nat in G by lia. by rewrite sget_app in G. }
    exists (S j). split; [simpl; lia|]. cbn [take]. rewrite of_lines_cons, newlines_app, Nj, Nx. split; [|lia].
    replace (S n) with (slen (p ++ String nl "") + S (n - slen (p ++ String nl "")))%nat by lia. by rewrite stake_app_add, E.
Qed.

Lemma caps : MaxOutputBytes <= MaxReadBytes.
Proof. done. Qed.

#[local] Opaque sniffLen MaxReadBytes.

(** [pick] where every line fits: it takes some of the lines, at least one. *)
Lemma pick_takes w n out first last : Forall (λ l, l ≠ ""%string ∧ zlen l <= MaxReadBytes) w → 1 <= n →
  ∃ k, (k <= length w)%nat ∧ (out = ""%string → w ≠ [] → (1 <= k)%nat)
    ∧ pick w n out first last = ((out ++ of_lines (take k w))%string, (if (first =? 0) && negb (k =? 0)%nat then n else first),
        (if (k =? 0)%nat then last else n + Z.of_nat k - 1), (k <? length w)%nat, 0).
Proof.
  revert n out first last. induction w as [|l w IH]; intros n out first last F P.
  { exists 0%nat. split; [done|]. split; [done|]. simpl. by rewrite app_nil_s, andb_false_r. }
  apply Forall_cons in F as [[Nl Fl] F]. cbn [pick]. destruct (Z.leb_spec (zlen l) (MaxReadBytes - zlen out)) as [L|L].
  - destruct (IH (n + 1) (out ++ l)%string (if first =? 0 then n else first) n F) as (k & Lk & Pk & ->); [lia|].
    exists (S k). split; [simpl; lia|]. split; [intros; lia|]. cbn [take length]. rewrite of_lines_cons, app_assoc_s. cbn [Nat.eqb negb]. rewrite andb_true_r.
    assert (((if first =? 0 then n else first) =? 0) = false) as -> by (destruct (Z.eqb_spec first 0); apply Z.eqb_neq; lia). cbn [andb].
    replace (S k <? S (length w))%nat with (k <? length w)%nat by done. do 2 f_equal. f_equal. destruct (Nat.eqb_spec k 0); lia.
  - destruct (String.eqb_spec out "") as [->|N]; [unfold zlen in L at 1; simpl in L; lia|]. exists 0%nat. split; [simpl; lia|]. split; [done|].
    cbn [take]. simpl (of_lines []). by rewrite app_nil_s, andb_false_r.
Qed.

Lemma lines_nonempty s : Forall (λ l, l ≠ ""%string) (lines s).
Proof.
  induction s as [|c s IH]; cbn [lines]; [constructor|]. destruct (Ascii.eqb c nl); [by constructor|].
  destruct (lines s) as [|x l]; [by repeat constructor|]. apply Forall_cons in IH as [_ IH]. by constructor.
Qed.

(** A text the tool reads whole: UTF-8 without a NUL where the device looks
    for one, in lines that fit an answer. *)
Definition readable (text : string) : Prop :=
  valid_string text = true ∧ has_nul (stake sniffLen text) = false
  ∧ Forall (λ l, zlen l <= MaxOutputBytes) (lines text) ∧ Z.of_nat (length (lines text)) <= maxLineNumber.

Lemma readable_isText text : valid_string text = true → has_nul (stake sniffLen text) = false → isText (stake sniffLen text) (zlen text) = true.
Proof.
  intros V N. unfold isText. rewrite N. unfold zlen. rewrite slen_stake. destruct (Z.ltb_spec (Z.of_nat (Nat.min sniffLen (slen text))) (Z.of_nat (slen text))) as [L|L].
  - apply trimPartialRune_valid; [done|lia].
  - rewrite stake_all; [done|lia].
Qed.

Lemma line_cap : maxLineNumber < 4294967296.
Proof. done. Qed.

Lemma range_default text a : 0 <= Z.of_nat a < 4294967296 → range_lines (Z.of_nat a + 1) 0 text = take 2000 (drop a (lines text)).
Proof.
  intros L. unfold range_lines. assert (range_from (Z.of_nat a + 1) = Z.of_nat a + 1) as E by (unfold range_from; destruct (Z.leb_spec (Z.of_nat a + 1) 0); lia).
  assert (2 ^ 63 = 9223372036854775808) as P63 by done. assert (2 ^ 64 = 18446744073709551616) as P64 by done.
  assert (range_to (Z.of_nat a + 1) 0 = Z.of_nat a + 2000) as ->.
  { unfold range_to. change (clamp_limit 0) with 2000. rewrite E. replace (Z.of_nat a + 1 + 2000 - 1) with (Z.of_nat a + 2000) by lia. cbv zeta.
    unfold wrap64. rewrite P63, P64, Z.mod_small by lia. replace (Z.of_nat a + 2000 + 9223372036854775808 - 9223372036854775808) with (Z.of_nat a + 2000) by lia.
    destruct (Z.ltb_spec (Z.of_nat a + 2000) (Z.of_nat a + 1)); lia. }
  rewrite E. f_equal; [lia|]. f_equal. lia.
Qed.

Lemma valid_suffix x y : valid_string x = true → valid_string (x ++ y) = true → valid_string y = true.
Proof.
  induction x as [|x N IH] using rune_ind; [done|]. intros Vx Vxy. rewrite valid_step in Vx by done. bsplit.
  rewrite valid_step in Vxy by (by destruct x). bsplit. unfold rune_len at 1 in H2. rewrite decode_app in H2 by done. fold (rune_len x) in H2.
  rewrite sdrop_app_le in H2 by apply rune_len_le. by apply IH.
Qed.

Lemma run_valid text a k : valid_string text = true → valid_string (of_lines (take k (drop a (lines text)))) = true.
Proof.
  intros V. destruct (lines_valid text (take a (lines text)) (drop a (lines text)) V) as [Va _]; [by rewrite take_drop|].
  destruct (lines_valid text (take (a + k) (lines text)) (drop (a + k) (lines text)) V) as [Vk _]; [by rewrite take_drop|].
  rewrite <- take_take_drop, of_lines_app in Vk. by apply valid_suffix in Vk.
Qed.

Lemma run_whole text a k : ∃ l t, take k (drop a (lines text)) = l ++ (if String.eqb t "" then [] else [t])
  ∧ Forall whole_line l ∧ sforall (λ c, negb (Ascii.eqb c nl)) t = true.
Proof.
  destruct (lines_whole text) as (l & t & -> & W & T). rewrite drop_app, take_app. exists (take k (drop a l)).
  set (n := (a - length l)%nat). set (m := (k - length (drop a l))%nat). destruct (String.eqb_spec t "") as [->|N].
  - exists ""%string. rewrite drop_nil, take_nil. split; [done|]. split; [by apply Forall_take, Forall_drop|done].
  - destruct n as [|n]; [destruct m as [|m]|]; cbn [drop take].
    + exists ""%string. split; [done|]. split; [by apply Forall_take, Forall_drop|done].
    + exists t. rewrite (proj2 (String.eqb_neq t "") N). rewrite take_nil. split; [done|]. split; [by apply Forall_take, Forall_drop|done].
    + exists ""%string. rewrite drop_nil, take_nil. split; [done|]. split; [by apply Forall_take, Forall_drop|done].
Qed.

(** What a page is: some whole lines from [offset] on, at least one, within the
    cap, and where to go on. *)
Lemma page_spec text a : readable text → (a < length (lines text))%nat →
  ∃ p j, page text (Z.of_nat a + 1) = Some p ∧ (1 <= j)%nat ∧ (a + j <= length (lines text))%nat
    ∧ f_content p = of_lines (take j (drop a (lines text))) ∧ zlen (f_content p) <= MaxOutputBytes
    ∧ f_total p = Z.of_nat (length (lines text)) ∧ f_last p = Z.of_nat (a + j) ∧ default (f_last p + 1) (f_next p) = Z.of_nat (a + j) + 1.
Proof.
  intros (V & Nn & Fit & Len) La. unfold page, read_lines. set (ls := lines text) in *.
  pose proof line_cap. rewrite range_default by lia. fold ls. set (w := take 2000 (drop a ls)).
  assert (Forall (λ l, l ≠ ""%string ∧ zlen l <= MaxReadBytes) w) as Fw.
  { apply Forall_take, Forall_drop, Forall_and. split; [apply lines_nonempty|]. eapply Forall_impl; [exact Fit|]. intros l Hl. cbv beta in Hl. etrans; [exact Hl|]. exact caps. }
  assert (w ≠ []) as Nw by (intros E; apply (f_equal length) in E; unfold w in E; rewrite length_take, length_drop in E; change (length (@nil string)) with 0%nat in E; lia).
  destruct (pick_takes w (Z.of_nat a + 1) "" 0 0 Fw ltac:(lia)) as (k & Lk & Pk & E). specialize (Pk eq_refl Nw).
  assert (range_from (Z.of_nat a + 1) = Z.of_nat a + 1) as -> by (unfold range_from; destruct (Z.leb_spec (Z.of_nat a + 1) 0); lia).
  rewrite E. clear E. change ("" ++ of_lines (take k w))%string with (of_lines (take k w)).
  assert (take k w = take k (drop a ls)) as Ew by (unfold w in *; rewrite length_take in Lk; rewrite take_take; f_equal; lia). rewrite Ew.
  assert (k <= length (drop a ls))%nat as Lk' by (unfold w in Lk; rewrite length_take in Lk; lia). rewrite length_drop in Lk'.
  pose proof (run_valid text a k V) as Vo. fold ls in Vo. rewrite readable_isText, Vo by done. cbn [negb orb].
  assert ((if (0 =? 0) && negb (k =? 0)%nat then Z.of_nat a + 1 else 0) = Z.of_nat a + 1) as -> by (by destruct k; [lia|]).
  assert ((if (k =? 0)%nat then 0 else Z.of_nat a + 1 + Z.of_nat k - 1) = Z.of_nat (a + k)) as -> by (destruct (Nat.eqb_spec k 0); lia).
  unfold fitRead. cbn [fl_Content fl_TotalLines fl_FirstLine fl_LastLine fl_Truncated fl_LongLine].
  set (out := of_lines (take k (drop a ls))) in *. destruct (Z.ltb_spec MaxOutputBytes (zlen out)) as [Big|Small].
  - destruct (run_whole text a k) as (l & t & El & W & T). fold ls in El.
    assert (out = of_lines l ++ t)%string as Eo.
    { unfold out. rewrite El, of_lines_app. f_equal. destruct (String.eqb_spec t "") as [Et|_]; [by rewrite Et|]. by rewrite of_lines_cons, app_nil_s. }
    assert (length l <= k)%nat as Ll by (apply (f_equal length) in El; rewrite length_app, length_take in El; lia).
    destruct (after_last_newline _) as [cut|] eqn:Cut.
    + apply after_last_newline_spec in Cut as (Bc & Gc & _). rewrite slen_stake in Bc. rewrite sget_stake in Gc by lia. rewrite Eo in Gc.
      destruct (cut_lines l t (cut - 1) W T Gc) as (j & Bj & Ej & Nj). replace (S (cut - 1)) with cut in Ej by lia. rewrite <- Eo in Ej. rewrite Ej, Nj.
      eexists _, j. split; [done|]. cbn [f_content f_total f_last f_next]. split; [lia|]. split; [lia|].
      assert (take j l = take j (drop a ls)) as Et.
      { transitivity (take j (take k (drop a ls))); [rewrite El, take_app_le by lia; done|]. rewrite take_take. f_equal. lia. }
      split; [by rewrite Et|]. split; [rewrite <- Ej; unfold zlen; rewrite slen_stake; lia|]. split; [done|]. split; cbn; lia.
    + exfalso. apply after_last_newline_None in Cut. destruct l as [|x l].
      * assert (zlen t <= MaxOutputBytes) as Lt; [|rewrite Eo in Big; simpl in Big; lia]. destruct (String.eqb_spec t "") as [Et|Nt]; [by rewrite Et|].
        pose proof (Forall_take _ k _ (Forall_drop _ a _ Fit)) as Ft. rewrite El in Ft. by apply Forall_cons in Ft as [Ft _].
      * apply Forall_cons in W as [Wx _]. assert (zlen x <= MaxOutputBytes) as Lx.
        { pose proof (Forall_take _ k _ (Forall_drop _ a _ Fit)) as Ft. rewrite El in Ft. apply Forall_app in Ft as [Ft _]. by apply Forall_cons in Ft as [Ft _]. }
        destruct Wx as (p & -> & _). apply (sget_no_newline _ (slen p)) in Cut. apply Cut. unfold zlen in Lx. rewrite slen_app in Lx. simpl in Lx.
        rewrite sget_stake by lia. rewrite Eo, of_lines_cons, <- !app_assoc_s. replace (slen p) with (slen p + 0)%nat at 1 by lia. by rewrite sget_app.
  - eexists _, k. split; [done|]. cbn [f_content f_total f_last f_next]. split; [done|]. split; [lia|]. do 3 (split; [done|]). split; [done|].
    destruct (k <? length w)%nat; cbn; lia.
Qed.

Lemma empty_page : ∃ p, page "" 1 = Some p ∧ f_content p = ""%string ∧ (f_last p <? f_total p) = false.
Proof.
  assert (match page "" 1 with Some p => String.eqb (f_content p) "" && negb (f_last p <? f_total p) | None => false end = true) as B by (vm_compute; reflexivity).
  destruct (page "" 1) as [p|]; [|done]. exists p. apply andb_true_iff in B as [B1%String.eqb_eq B2%negb_true_iff]. done.
Qed.

(** C26: reading a text in pages gives the text.  Take a UTF-8 text without a NUL
    among the bytes the device samples, with no more lines than a request can
    number and none of them longer than the cap of 32 KiB.  A reader that asks for the next page while [last_line] is below
    [total_lines] gets, one after the other, answers that together are the file,
    byte for byte; each is UTF-8 and within the cap, and there are no more of them
    than the file has lines (one, if it is empty). *)
Theorem fetched_pages_whole text fuel : readable text → (length (lines text) < fuel)%nat →
  ∃ ps, read_on fuel text 1 = Some ps ∧ of_lines (f_content <$> ps) = text ∧
    Forall (λ p, valid_string (f_content p) = true ∧ zlen (f_content p) <= MaxOutputBytes) ps ∧ (length ps <= Nat.max 1 (length (lines text)))%nat.
Proof.
  intros R L. assert (∀ n a, (a < length (lines text))%nat → (length (lines text) - a <= n)%nat →
    ∃ ps, read_on n text (Z.of_nat a + 1) = Some ps ∧ of_lines (f_content <$> ps) = of_lines (drop a (lines text)) ∧
      Forall (λ p, valid_string (f_content p) = true ∧ zlen (f_content p) <= MaxOutputBytes) ps ∧ (length ps <= length (lines text) - a)%nat) as P.
  { induction n as [|n IH]; intros a La Ln; [lia|]. cbn [read_on]. destruct (page_spec text a R La) as (p & j & -> & Pj & Lj & Ec & Cap & Et & El & En).
    assert (valid_string (f_content p) = true) as V by (rewrite Ec; apply run_valid; by destruct R).
    rewrite Et, El. destruct (Z.ltb_spec (Z.of_nat (a + j)) (Z.of_nat (length (lines text)))) as [More|End].
    - rewrite El in En. rewrite En. destruct (IH (a + j)%nat) as (ps & -> & Eps & F & Lp); [lia..|]. exists (p :: ps). split; [done|].
      cbn [fmap list_fmap]. rewrite of_lines_cons, Eps, Ec, <- drop_drop, <- of_lines_app, take_drop. split; [done|]. split; [by constructor|simpl; lia].
    - exists [p]. split; [done|]. cbn [fmap list_fmap]. split; [rewrite of_lines_cons, app_nil_s, Ec, take_ge; [done|rewrite length_drop; lia]|].
      split; [by repeat constructor|simpl; lia]. }
  destruct (decide (lines text = [])) as [E|N].
  - assert (text = ""%string) as -> by by rewrite <- (of_lines_lines text), E. destruct fuel as [|fuel]; [simpl in L; lia|].
    destruct empty_page as (p & Ep & Cp & Lp). cbn [read_on]. rewrite Ep, Lp. exists [p]. split; [done|]. cbn [fmap list_fmap]. rewrite Cp.
    split; [done|]. split; [by repeat constructor; rewrite Cp|simpl; lia].
  - destruct (P fuel 0%nat) as (ps & E & Eps & F & Lp); [destruct (lines text); [done|simpl; lia]|lia|]. exists ps. split; [exact E|].
    rewrite Eps, drop_0, of_lines_lines. split; [done|]. split; [done|lia].
Qed.

Example fetched_pages_whole_witness : let text := ("one" ++ String nl ("two" ++ String nl "three"))%string in
  ∃ ps, read_on 4 text 1 = Some ps ∧ of_lines (f_content <$> ps) = text ∧
    Forall (λ p, valid_string (f_content p) = true ∧ zlen (f_content p) <= MaxOutputBytes) ps ∧ (length ps <= Nat.max 1 (length (lines text)))%nat.
Proof.
  cbv zeta. apply fetched_pages_whole; [|vm_compute; lia]. split; [reflexivity|]. split; [reflexivity|]. split; [|vm_compute; discriminate].
  repeat constructor; vm_compute; discriminate.
Defined.
