(* ===== verification/Jobs.v ===== *)
(** [internal/agent/jobs.go]: background jobs, their retained output, and the
    answer to a poll ([doExecPoll] of agent.go).

    Running the command is outside: what its goroutine writes, when it ends and
    how are the events of [job_step].  The random id is an argument, and
    so is the order in which the collector meets the entries of the map (Go's map
    iteration order, [kt]). *)

From S2P Require Import Prelude GoStrings.
From stdpp Require Import sorting.

Local Open Scope Z_scope.

(** ** Data *)

Definition MaxConcurrentJobs : Z := 4.
Definition JobRunTimeout : Z := 30 * minute.
Definition MaxJobOutputBytes : Z := Z.shiftl 8 20.
Definition MaxRetainedJobs : Z := 64.
Definition MaxRetainedBytes : Z := Z.shiftl 64 20.
Definition JobRetention : Z := hour.

Definition jobOutputTruncated : string := newline ++ "[wanctl: job output truncated]" ++ newline.

Record jobLimits := JobLimits {
  maxConcurrent : Z; runTimeout : Z; maxOutput : Z; maxRetained : Z; maxBytes : Z; retain : Z }.

Definition defaultJobLimits : jobLimits :=
  JobLimits MaxConcurrentJobs JobRunTimeout MaxJobOutputBytes MaxRetainedJobs MaxRetainedBytes JobRetention.

Record job := Job {
  j_id : string; j_cmd : string; j_started : Z; j_owner : string;
  j_out : string; j_done : bool; j_code : Z; j_finished : Z; j_maxOutput : Z }.

Definition set_out (o : string) (j : job) : job :=
  Job (j_id j) (j_cmd j) (j_started j) (j_owner j) o (j_done j) (j_code j) (j_finished j) (j_maxOutput j).

Record jobStore := JobStore { jobs : gmap string job; running : Z; limits : jobLimits }.

Definition newJobStoreWithLimits (l : jobLimits) : jobStore := JobStore ∅ 0 l.
Definition newJobStore : jobStore := newJobStoreWithLimits defaultJobLimits.
Definition set_jobs (m : gmap string job) (s : jobStore) : jobStore := JobStore m (running s) (limits s).

(** ** Output *)

(** [copy(out[k:], m)] for [k] within [out]. *)
Definition copy_at (out : string) (k : Z) (m : string) : string :=
  (stake (Z.to_nat k) out ++ stake (slen out - Z.to_nat k) m ++ sdrop (Z.to_nat k + slen m) out)%string.

(** [jobWriter.Write]; the caller is always told everything was written. *)
Definition jobWriter_Write (p : string) (j : job) : job :=
  let limit := if j_maxOutput j <=? 0 then MaxJobOutputBytes else j_maxOutput j in
  let remaining := limit - zlen (j_out j) in
  let remaining := if zlen p <? remaining then zlen p else remaining in
  let out := if 0 <? remaining then (j_out j ++ stake (Z.to_nat remaining) p)%string else j_out j in
  let out := if (remaining <? zlen p) && (zlen jobOutputTruncated <=? limit)
             then copy_at out (limit - zlen jobOutputTruncated) jobOutputTruncated else out in
  set_out out j.

(** [snapshot] at an offset: the new output, the total, and the status. *)
Definition snapshot (offset : Z) (j : job) : string * Z * bool * Z :=
  let total := zlen (j_out j) in
  let offset := if offset <? 0 then 0 else offset in
  let offset := if total <? offset then total else offset in
  (sdrop (Z.to_nat offset) (j_out j), total, j_done j, j_code j).

(** ** Collection *)

Record retainedJob := RetainedJob { r_id : string; r_finished : Z; r_bytes : Z }.

#[export] Instance retainedJob_eq_dec : EqDecision retainedJob.
Proof. solve_decision. Defined.

Definition retained_of (kv : string * job) : retainedJob :=
  RetainedJob kv.1 (j_finished kv.2) (zlen (j_out kv.2)).

Definition older (x y : retainedJob) : Prop := r_finished x <= r_finished y.
#[export] Instance older_dec x y : Decision (older x y).
Proof. unfold older. apply _. Defined.

(** The first loop of [gcLocked]. *)
Fixpoint gc_scan (cutoff : Z) (kt : list (string * job)) (m : gmap string job) (retained : list retainedJob) (bytes : Z)
  : gmap string job * list retainedJob * Z :=
  match kt with
  | [] => (m, retained, bytes)
  | (id, j) :: kt =>
      if j_done j && (j_finished j <? cutoff) then gc_scan cutoff kt (delete id m) retained bytes
      else if j_done j
      then gc_scan cutoff kt m (retained ++ [retained_of (id, j)]) (bytes + zlen (j_out j))
      else gc_scan cutoff kt m retained bytes
  end.

(** The second loop: oldest first, until both budgets hold.  With nothing
    retained both are zero, so limits that are not negative stop it there. *)
Fixpoint gc_evict (l : jobLimits) (retained : list retainedJob) (bytes : Z) (m : gmap string job) : gmap string job :=
  match retained with
  | [] => m
  | oldest :: rest =>
      if (maxRetained l <? Z.of_nat (length retained)) || (maxBytes l <? bytes)
      then gc_evict l rest (bytes - r_bytes oldest) (delete (r_id oldest) m)
      else m
  end.

Definition gcLocked (now : Z) (kt : list (string * job)) (s : jobStore) : jobStore :=
  let cutoff := now - retain (limits s) in
  let '(m, retained, bytes) := gc_scan cutoff kt (jobs s) [] 0 in
  set_jobs (gc_evict (limits s) (merge_sort older retained) bytes m) s.

(** ** Operations *)

Definition runningCount (s : jobStore) : Z := running s.

Definition get (now : Z) (kt : list (string * job)) (id : string) (s : jobStore) : option job * jobStore :=
  let s := gcLocked now kt s in (jobs s !! id, s).

Definition getFor (now : Z) (kt : list (string * job)) (id owner : string) (s : jobStore) : option job * jobStore :=
  let '(j, s) := get now kt id s in
  (match j with
   | Some j => if String.eqb (j_owner j) owner then Some j else None
   | None => None
   end, s).

Inductive start_error := ErrRandom | ErrTooManyJobs.

(** [start] up to where its goroutine begins; [rid] is what the random source
    gave. *)
Definition start (now : Z) (kt : list (string * job)) (rid : option string) (owner command : string) (s : jobStore)
  : result start_error string * jobStore :=
  match rid with
  | None => (Err ErrRandom, s)
  | Some id =>
      let j := Job id command now owner "" false 0 0 (maxOutput (limits s)) in
      let s := gcLocked now kt s in
      if maxConcurrent (limits s) <=? running s then (Err ErrTooManyJobs, s)
      else (Ok id, JobStore (<[id := j]> (jobs s)) (running s + 1) (limits s))
  end.

(** The goroutine's end: the result of the run, its note in the output, and the
    marking of the job. *)
Definition job_error_note (err : string) : string := newline ++ "[wanctl: job error: " ++ err ++ "]" ++ newline.

Definition job_outcome (timed_out : option string) (code : Z) (err : option string) : Z * option string :=
  match timed_out with
  | Some limit => (-1, Some ("job timed out after " ++ limit)%string)
  | None => (code, err)
  end.

Definition job_end (now : Z) (timed_out : option string) (code : Z) (err : option string) (j : job) : job :=
  let '(code, err) := job_outcome timed_out code err in
  let '(j, code) := match err with
                    | Some e => (jobWriter_Write (job_error_note e) j, -1)
                    | None => (j, code)
                    end in
  Job (j_id j) (j_cmd j) (j_started j) (j_owner j) (j_out j) true code now (j_maxOutput j).

(** What the goroutine does to its job, which the store shares. *)
Definition on_job (id : string) (f : job → job) (s : jobStore) : jobStore := set_jobs (alter f id (jobs s)) s.

(** Its last step: [running--] and a collection. *)
Definition job_over (now : Z) (kt : list (string * job)) (s : jobStore) : jobStore :=
  gcLocked now kt (JobStore (jobs s) (running s - 1) (limits s)).

(** [doExecPoll]: what the controller is told. *)
Inductive poll_answer := UnknownJob (id : string) | Polled (out : string) (offset : Z) (still_running : bool) (code : Z).

(** The third component: whether the attempt on another controller's job is
    logged. *)
Definition doExecPoll (now : Z) (kt kt' : list (string * job)) (id fp : string) (offset : Z) (s : jobStore)
  : poll_answer * bool * jobStore :=
  let '(j, s) := getFor now kt id fp s in
  match j with
  | None => let '(other, s) := get now kt' id s in
            (UnknownJob id, match other with Some _ => true | None => false end, s)
  | Some j => let '(out, total, done, code) := snapshot offset j in (Polled out total (negb done) code, false, s)
  end.

(** ** The output buffer *)

(** A writer's history replayed on a job. *)
Definition write_all (ps : list string) (j : job) : job := foldl (λ j p, jobWriter_Write p j) j ps.

Definition concat_s (ps : list string) : string := foldl (λ acc p, (acc ++ p)%string) ""%string ps.

(** What the buffer shows of everything written so far. *)
Definition rendered (limit : Z) (all : string) : string :=
  if zlen all <=? limit then all
  else (stake (Z.to_nat (limit - zlen jobOutputTruncated)) all ++ jobOutputTruncated)%string.

Lemma rendered_len limit all :
  zlen jobOutputTruncated <= limit -> zlen (rendered limit all) = Z.min limit (zlen all).
Proof.
  intros L. unfold rendered. destruct (Z.leb_spec (zlen all) limit) as [H|H]; [lia|].
  rewrite zlen_app. revert L H. unfold zlen. rewrite slen_stake. lia.
Qed.

(** The marker overwrites the end of a full buffer. *)
Lemma copy_at_end out limit m :
  zlen out = limit -> zlen m <= limit ->
  copy_at out (limit - zlen m) m = (stake (Z.to_nat (limit - zlen m)) out ++ m)%string.
Proof.
  unfold copy_at, zlen. intros E L. rewrite (stake_all _ m) by lia. rewrite sdrop_all by lia. by rewrite app_nil_s.
Qed.

Lemma write_rendered limit all p j :
  0 < limit -> zlen jobOutputTruncated <= limit -> j_maxOutput j = limit -> j_out j = rendered limit all ->
  j_out (jobWriter_Write p j) = rendered limit (all ++ p).
Proof.
  intros P L M E. unfold jobWriter_Write. rewrite M, (proj2 (Z.leb_gt limit 0) P), E, (rendered_len _ _ L).
  pose proof (zlen_nonneg p). pose proof (zlen_nonneg all). cbv zeta. cbn [j_out set_out].
  unfold rendered. rewrite zlen_app. destruct (Z.leb_spec (zlen all) limit) as [F|F].
  - rewrite (Z.min_r limit) by done. destruct (Z.ltb_spec (zlen p) (limit - zlen all)) as [G|G].
    + rewrite Z.ltb_irrefl. simpl. rewrite (proj2 (Z.leb_le _ _)) by lia.
      destruct (Z.ltb_spec 0 (zlen p)) as [Q|Q]; unfold zlen in *.
      * by rewrite stake_all by lia.
      * rewrite (slen_nil p) by lia. by rewrite app_nil_s.
    + assert (stake (Z.to_nat limit) (all ++ p)%string = (if Z.ltb 0 (limit - zlen all) then all ++ stake (Z.to_nat (limit - zlen all)) p else all)%string) as T.
      { replace (Z.to_nat limit) with (slen all + Z.to_nat (limit - zlen all))%nat by (unfold zlen in *; lia).
        rewrite stake_app_add. destruct (Z.ltb_spec 0 (limit - zlen all)); [done|].
        replace (Z.to_nat (limit - zlen all)) with 0%nat by lia. simpl. apply app_nil_s. }
      rewrite <- T. destruct (Z.ltb_spec (limit - zlen all) (zlen p)) as [Q|Q]; simpl.
      * rewrite (proj2 (Z.leb_le _ _) L), (proj2 (Z.leb_gt (zlen all + zlen p) limit)) by lia.
        rewrite copy_at_end; [|unfold zlen in *; rewrite slen_stake, slen_app; lia|done].
        f_equal. rewrite stake_stake. f_equal. pose proof (zlen_nonneg jobOutputTruncated). lia.
      * rewrite (proj2 (Z.leb_le _ _)) by lia. apply stake_all. unfold zlen in *. rewrite slen_app. lia.
  - rewrite (Z.min_l limit), Z.sub_diag by lia. rewrite (proj2 (Z.leb_gt (zlen all + zlen p) limit)) by lia.
    assert ((if zlen p <? 0 then zlen p else 0) = 0) as -> by (destruct (Z.ltb_spec (zlen p) 0); lia).
    rewrite Z.ltb_irrefl. rewrite stake_app_le by (unfold zlen in *; lia).
    destruct (Z.ltb_spec 0 (zlen p)) as [Q|Q]; simpl; [|done].
    rewrite (proj2 (Z.leb_le _ _) L).
    rewrite copy_at_end; [|rewrite zlen_app; unfold zlen in *; rewrite slen_stake; lia|done].
    f_equal. rewrite stake_app_le by (rewrite slen_stake; unfold zlen in *; lia).
    rewrite stake_stake. f_equal. lia.
Qed.

Lemma write_all_rendered limit ps all j :
  0 < limit -> zlen jobOutputTruncated <= limit -> j_maxOutput j = limit -> j_out j = rendered limit all ->
  j_out (write_all ps j) = rendered limit (foldl (λ acc p, (acc ++ p)%string) all ps).
Proof.
  intros P L. revert all j. induction ps as [|p ps IH]; intros all j M E; [done|].
  simpl. apply IH; [done|]. by apply write_rendered.
Qed.

(** The finished jobs a map holds, as the collector sees them. *)
Definition finished_jobs (m : gmap string job) : list retainedJob :=
  retained_of <$> List.filter (λ kv : string * job, j_done kv.2) (map_to_list m).

Lemma elem_of_finished m x :
  x ∈ finished_jobs m ↔ ∃ j, m !! r_id x = Some j ∧ j_done j = true ∧ x = retained_of (r_id x, j).
Proof.
  unfold finished_jobs. rewrite list_elem_of_fmap. split.
  - intros ([k j] & -> & [Hk D]%elem_of_filter_b). apply elem_of_map_to_list in Hk. simpl. eauto.
  - intros (j & Hj & D & E). exists (r_id x, j). split; [done|]. apply elem_of_filter_b. split; [|done]. by apply elem_of_map_to_list.
Qed.

Lemma NoDup_filter_b {X} (f : X → bool) l : NoDup l → NoDup (List.filter f l).
Proof. rewrite !NoDup_ListNoDup. apply List.NoDup_filter. Qed.

Lemma NoDup_ids_retained (kt : list (string * job)) (f : string * job → bool) :
  NoDup kt.*1 → NoDup (retained_of <$> List.filter f kt).
Proof.
  induction kt as [|[k j] kt IH]; simpl; [constructor|]. intros [N ND]%NoDup_cons. destruct (f (k, j)); [|by apply IH].
  simpl. constructor; [|by apply IH]. intros ([k' j'] & E & [H _]%elem_of_filter_b)%list_elem_of_fmap. apply N.
  apply list_elem_of_fmap. exists (k', j'). split; [|done]. by injection E.
Qed.

Lemma NoDup_finished m : NoDup (finished_jobs m).
Proof. apply NoDup_ids_retained, NoDup_fst_map_to_list. Qed.

(** ** The collector *)

Definition job_expired (cutoff : Z) (j : job) : bool := j_done j && (j_finished j <? cutoff).

Lemma gc_scan_spec cutoff kt m retained bytes m' retained' bytes' :
  NoDup kt.*1 → gc_scan cutoff kt m retained bytes = (m', retained', bytes') →
  (∀ id, m' !! id = if any (λ kv : string * job, String.eqb kv.1 id && job_expired cutoff kv.2) kt then None else m !! id) ∧
  retained' = retained ++ (retained_of <$> List.filter (λ kv : string * job, j_done kv.2 && negb (job_expired cutoff kv.2)) kt) ∧
  (bytes = sum_Z r_bytes retained → bytes' = sum_Z r_bytes retained').
Proof.
  revert m retained bytes. induction kt as [|[k j] kt IH]; intros m retained bytes; simpl.
  { intros _ [= <- <- <-]. rewrite app_nil_r. done. }
  intros [N ND]%NoDup_cons. unfold job_expired at 1 3. destruct (j_done j) eqn:D, (j_finished j <? cutoff) eqn:F; simpl;
    intros G; apply IH in G as (L & R & B); try done.
  - split; [|by split]. intros id. rewrite L. destruct (String.eqb_spec k id) as [->|]; simpl.
    + rewrite lookup_delete_eq. by destruct (any _ _).
    + by rewrite lookup_delete_ne.
  - split; [intros id; rewrite L, andb_false_r; done|]. split; [by rewrite R, <- app_assoc|].
    intros ->. apply B. rewrite sum_Z_app. simpl. lia.
  - split; [intros id; rewrite L, andb_false_r; done|]. by split.
  - split; [intros id; rewrite L, andb_false_r; done|]. by split.
Qed.

(** Whether the two budgets hold. *)
Definition within_budget (l : jobLimits) (retained : list retainedJob) : Prop :=
  Z.of_nat (length retained) <= maxRetained l ∧ sum_Z r_bytes retained <= maxBytes l.

Lemma gc_evict_spec l retained bytes m :
  0 <= maxRetained l → 0 <= maxBytes l → bytes = sum_Z r_bytes retained →
  ∃ gone kept, retained = gone ++ kept ∧ within_budget l kept ∧
    (∀ g x, gone = g ++ [x] → ¬ within_budget l (x :: kept)) ∧
    ∀ id, gc_evict l retained bytes m !! id = if any (λ r, String.eqb (r_id r) id) gone then None else m !! id.
Proof.
  intros P1 P2. revert bytes m. induction retained as [|r rest IH]; intros bytes m ->; simpl.
  { exists [], []. split_and!; try done. by intros [|? ?] x. }
  destruct (_ || _) eqn:C.
  - destruct (IH (r_bytes r + sum_Z r_bytes rest - r_bytes r) (delete (r_id r) m)) as (gone & kept & -> & W & X & Lk); [lia|].
    exists (r :: gone), kept. split_and!; [done|done| |].
    + intros [|g0 g] x [= ? E]; [|by eapply X]. subst. intros [W1 W2]. simpl in W1, W2, C.
      apply orb_true_iff in C as [C|C]; apply Z.ltb_lt in C; simpl in C; lia.
    + intros id. rewrite Lk. simpl. destruct (String.eqb_spec (r_id r) id) as [->|]; simpl.
      * rewrite lookup_delete_eq. by destruct (any _ _).
      * by rewrite lookup_delete_ne.
  - exists [], (r :: rest). apply orb_false_iff in C as [C1 C2]. apply Z.ltb_ge in C1, C2.
    split_and!; [done|split; simpl in *; lia|by intros [|? ?] x|done].
Qed.

(** What one collection leaves. *)
Record collected (now : Z) (s s' : jobStore) : Prop := Collected {
  col_same : running s' = running s ∧ limits s' = limits s;
  col_sub : ∀ id j, jobs s' !! id = Some j → jobs s !! id = Some j;
  col_live : ∀ id j, jobs s !! id = Some j → j_done j = false → jobs s' !! id = Some j;
  col_fresh : ∀ id j, jobs s' !! id = Some j → job_expired (now - retain (limits s)) j = false;
  col_budget : within_budget (limits s) (finished_jobs (jobs s'));
  (** A finished job that has not expired goes only if it finished no later than
      all that stay, and the last one to go did not fit the budget with them. *)
  col_oldest : ∀ id j, jobs s !! id = Some j → jobs s' !! id = None → job_expired (now - retain (limits s)) j = false →
    (∀ id' j', jobs s' !! id' = Some j' → j_done j' = true → j_finished j <= j_finished j') ∧
    ∃ x jx, jobs s !! x = Some jx ∧ jobs s' !! x = None ∧ j_finished j <= j_finished jx ∧
      ¬ within_budget (limits s) (retained_of (x, jx) :: finished_jobs (jobs s')) }.

Lemma Sorted_gone_kept gone kept :
  Sorted older (gone ++ kept) → ∀ x y, x ∈ gone → y ∈ kept → older x y.
Proof.
  intros S x y Hx Hy. apply Sorted_StronglySorted in S; [|intros a b c; unfold older; lia].
  induction gone as [|g gone IH]; [by apply not_elem_of_nil in Hx|]. simpl in S. apply StronglySorted_inv in S as [S F].
  apply elem_of_cons in Hx as [->|Hx]; [|by apply IH]. rewrite Forall_forall in F. apply F. apply elem_of_app. by right.
Qed.

Lemma sum_Z_perm {X} (f : X → Z) l1 l2 : l1 ≡ₚ l2 → sum_Z f l1 = sum_Z f l2.
Proof. induction 1; simpl; lia. Qed.

Lemma within_budget_perm l r1 r2 : r1 ≡ₚ r2 → within_budget l r1 → within_budget l r2.
Proof. intros P [H1 H2]. split; [by rewrite <- P|]. by rewrite <- (sum_Z_perm _ _ _ P). Qed.

#[export] Instance older_total : Total older.
Proof. intros x y. unfold older. lia. Qed.

Section one_collection.
Context (now : Z) (kt : list (string * job)) (s : jobStore).
Context (Hkt : kt ≡ₚ map_to_list (jobs s)) (P1 : 0 <= maxRetained (limits s)) (P2 : 0 <= maxBytes (limits s)).

Lemma kt_NoDup : NoDup kt.*1.
Proof using Hkt. rewrite Hkt. apply NoDup_fst_map_to_list. Qed.

Lemma kt_lookup id j : (id, j) ∈ kt ↔ jobs s !! id = Some j.
Proof using Hkt. rewrite Hkt. apply elem_of_map_to_list. Qed.

Lemma scanned_expired cutoff id :
  any (λ kv : string * job, String.eqb kv.1 id && job_expired cutoff kv.2) kt =
  match jobs s !! id with Some j => job_expired cutoff j | None => false end.
Proof using Hkt.
  destruct (any _ kt) eqn:E.
  - apply any_true in E as ([k j] & Hk & E). apply kt_lookup in Hk. simpl in E. bsplit. ssplit. subst. by rewrite Hk.
  - destruct (jobs s !! id) as [j|] eqn:L; [|done]. apply kt_lookup in L. rewrite any_false in E.
    specialize (E _ L). simpl in E. by rewrite String.eqb_refl in E.
Qed.

Lemma gc_parts :
  ∃ gone kept, let cutoff := now - retain (limits s) in
    Sorted older (gone ++ kept) ∧ NoDup (gone ++ kept) ∧ within_budget (limits s) kept ∧
    (∀ g x, gone = g ++ [x] → ¬ within_budget (limits s) (x :: kept)) ∧
    (∀ x, x ∈ gone ++ kept ↔ ∃ j, jobs s !! r_id x = Some j ∧ j_done j = true ∧ job_expired cutoff j = false ∧ x = retained_of (r_id x, j)) ∧
    ∀ id, jobs (gcLocked now kt s) !! id =
      if any (λ r, String.eqb (r_id r) id) gone then None
      else match jobs s !! id with Some j => if job_expired cutoff j then None else Some j | None => None end.
Proof using All.
  unfold gcLocked. destruct (gc_scan _ kt (jobs s) [] 0) as [[m1 ret] bytes] eqn:SC.
  apply gc_scan_spec in SC as (L & R & B); [|apply kt_NoDup]. simpl in R.
  pose proof (merge_sort_Permutation older ret) as MP.
  destruct (gc_evict_spec (limits s) (merge_sort older ret) bytes m1 P1 P2) as (gone & kept & E & W & X & Lk).
  { rewrite (sum_Z_perm _ _ _ MP). by apply B. }
  exists gone, kept. cbv zeta. rewrite <- E. split_and!.
  - apply Sorted_merge_sort. apply _.
  - rewrite MP, R. apply NoDup_ids_retained, kt_NoDup.
  - done.
  - exact X.
  - intros x. rewrite MP, R, list_elem_of_fmap. split.
    + intros ([k j] & -> & [Hk D]%elem_of_filter_b). apply kt_lookup in Hk. simpl in *. bsplit. eauto.
    + intros (j & Hj & D & Ex & ->). exists (r_id x, j). split; [done|]. apply elem_of_filter_b.
      split; [by apply kt_lookup|]. simpl. by rewrite D, Ex.
  - intros id. cbn [jobs set_jobs]. rewrite Lk, L, scanned_expired. destruct (any _ gone); [done|].
    destruct (jobs s !! id) as [j|]; [|done]. by destruct (job_expired _ j).
Qed.

Theorem gc_collected : collected now s (gcLocked now kt s).
Proof using All.
  destruct gc_parts as (gone & kept & So & ND & W & X & M & L). cbv zeta in M, L.
  set (cutoff := now - retain (limits s)) in *. set (s' := gcLocked now kt s) in *.
  assert (∀ id j, jobs s' !! id = Some j → jobs s !! id = Some j ∧ job_expired cutoff j = false ∧
    any (λ r, String.eqb (r_id r) id) gone = false) as Sub.
  { intros id j. rewrite L. destruct (any _ gone); [done|]. destruct (jobs s !! id) as [j0|]; [|done].
    destruct (job_expired cutoff j0) eqn:Ex; [done|]. by intros [= ->]. }
  assert (∀ x, x ∈ gone → x ∉ kept) as Disj by (apply NoDup_app in ND; apply ND).
  assert (finished_jobs (jobs s') ≡ₚ kept) as FK.
  { apply NoDup_Permutation; [apply NoDup_finished|apply NoDup_app in ND; apply ND|]. intros x. rewrite elem_of_finished. split.
    - intros (j & Hj & D & E). destruct (Sub _ _ Hj) as (Hj' & Ex & G). rewrite any_false in G.
      assert (x ∈ gone ++ kept) as Hx by (apply M; eauto). apply elem_of_app in Hx as [Hx|Hx]; [|done].
      specialize (G x Hx). by rewrite String.eqb_refl in G.
    - intros Hx. assert (x ∈ gone ++ kept) as Hx' by (apply elem_of_app; by right). apply M in Hx' as (j & Hj & D & Ex & E).
      exists j. split; [|done]. rewrite L, Hj, Ex. destruct (any _ gone) eqn:G; [|done]. exfalso.
      apply any_true in G as (y & Hy & Ey%String.eqb_eq). eapply Disj; [exact Hy|].
      assert (y ∈ gone ++ kept) as Hy' by (apply elem_of_app; by left). apply M in Hy' as (j' & Hj' & _ & _ & Ey').
      rewrite Ey, Hj in Hj'. injection Hj' as <-. rewrite Ey', Ey, <- E. exact Hx. }
  split.
  - unfold s', gcLocked. by destruct (gc_scan _ _ _ _ _) as [[??]?].
  - intros id j H. apply (Sub _ _ H).
  - intros id j Hj D. rewrite L, Hj. unfold job_expired. rewrite D. simpl. destruct (any _ gone) eqn:G; [|done]. exfalso.
    apply any_true in G as (y & Hy & Ey%String.eqb_eq). assert (y ∈ gone ++ kept) as Hy' by (apply elem_of_app; by left).
    apply M in Hy' as (j' & Hj' & D' & _). rewrite Ey, Hj in Hj'. congruence.
  - intros id j H. apply (Sub _ _ H).
  - by eapply within_budget_perm; [symmetry|].
  - intros id j Hj Hn Ex. fold cutoff in Ex. rewrite L, Hj, Ex in Hn. destruct (any _ gone) eqn:G; [|done].
    apply any_true in G as (y & Hy & Ey%String.eqb_eq). assert (y ∈ gone ++ kept) as Hy' by (apply elem_of_app; by left).
    apply M in Hy' as (j1 & Hj1 & _ & _ & Ey'). rewrite Ey, Hj in Hj1. injection Hj1 as <-.
    assert (r_finished y = j_finished j) as F by (by rewrite Ey').
    split.
    + intros id' j' Hj' D'. rewrite <- F. change (j_finished j') with (r_finished (retained_of (id', j'))).
      apply (Sorted_gone_kept _ _ So); [done|]. rewrite <- FK. apply elem_of_finished. eauto.
    + destruct (exists_last (l := gone)) as (g & x & Eg); [by intros ->; apply not_elem_of_nil in Hy|].
      assert (x ∈ gone) as Hx by (rewrite Eg; apply elem_of_app; right; by left).
      assert (x ∈ gone ++ kept) as Hx' by (apply elem_of_app; by left). apply M in Hx' as (jx & Hjx & _ & Exx & Exr).
      exists (r_id x), jx. split_and!; [done| | |].
      * rewrite L. assert (any (λ r, String.eqb (r_id r) (r_id x)) gone = true) as -> by (apply any_true; exists x; by rewrite String.eqb_refl).
        done.
      * rewrite <- F. change (j_finished jx) with (r_finished (retained_of (r_id x, jx))). rewrite <- Exr.
        rewrite Eg in So, Hy. apply elem_of_app in Hy as [Hy|Hy]; [|apply list_elem_of_singleton in Hy as ->; unfold older; lia].
        rewrite <- app_assoc in So. eapply (Sorted_gone_kept _ _ So); [done|]. by left.
      * rewrite <- Exr. intros WB. eapply X; [exact Eg|]. eapply within_budget_perm; [|exact WB]. by rewrite FK.
Qed.
End one_collection.

(** ** Every run of the store *)

Lemma write_len p j :
  0 < j_maxOutput j → zlen jobOutputTruncated <= j_maxOutput j → zlen (j_out j) <= j_maxOutput j →
  zlen (j_out (jobWriter_Write p j)) <= j_maxOutput j.
Proof.
  intros P L B. unfold jobWriter_Write. rewrite (proj2 (Z.leb_gt _ 0) P). cbv zeta. cbn [j_out set_out].
  set (limit := j_maxOutput j) in *. rewrite (proj2 (Z.leb_le _ _) L), andb_true_r.
  set (rem := if zlen p <? limit - zlen (j_out j) then zlen p else limit - zlen (j_out j)).
  assert (0 <= rem <= zlen p ∧ rem <= limit - zlen (j_out j) ∧ (rem < zlen p → rem = limit - zlen (j_out j))) as (R1 & R2 & R3).
  { unfold rem. pose proof (zlen_nonneg p). destruct (Z.ltb_spec (zlen p) (limit - zlen (j_out j))); lia. }
  set (out := if 0 <? rem then (j_out j ++ stake (Z.to_nat rem) p)%string else j_out j).
  assert (zlen out = zlen (j_out j) + rem) as EO.
  { unfold out. destruct (Z.ltb_spec 0 rem); [|lia]. rewrite zlen_app. unfold zlen in *. rewrite slen_stake. lia. }
  destruct (Z.ltb_spec rem (zlen p)) as [Q|Q]; [|lia].
  rewrite copy_at_end; [|lia|done]. rewrite zlen_app. unfold zlen in *. rewrite slen_stake. lia.
Qed.

Record run := Run { st : jobStore; live : list string; ending : nat }.

(** [live]: the jobs whose command still runs; [ending]: the goroutines between
    marking their job and [running--].  A fresh id is what 96 random bits give;
    everything else is the code's. *)
Inductive job_step : run → run → Prop :=
| S_start now kt rid owner command s lv e r s' :
    kt ≡ₚ map_to_list (jobs s) → (∀ id, rid = Some id → jobs s !! id = None) →
    start now kt rid owner command s = (r, s') →
    job_step (Run s lv e) (Run s' (match r with Ok id => id :: lv | Err _ => lv end) e)
| S_write id p s lv e : id ∈ lv → job_step (Run s lv e) (Run (on_job id (jobWriter_Write p) s) lv e)
| S_end id now timed_out code err s lv1 lv2 e :
    job_step (Run s (lv1 ++ id :: lv2) e) (Run (on_job id (job_end now timed_out code err) s) (lv1 ++ lv2) (S e))
| S_over now kt s lv e :
    kt ≡ₚ map_to_list (jobs s) → job_step (Run s lv (S e)) (Run (job_over now kt s) lv e)
| S_get now kt id owner s lv e :
    kt ≡ₚ map_to_list (jobs s) → job_step (Run s lv e) (Run (getFor now kt id owner s).2 lv e).

Section all_runs.
Context (l : jobLimits) (L0 : 0 <= maxConcurrent l) (L1 : 0 <= maxRetained l) (L2 : 0 <= maxBytes l)
  (L3 : 0 < maxOutput l) (L4 : zlen jobOutputTruncated <= maxOutput l).

Definition job_reachable : run → Prop := reachable (λ r, r = Run (newJobStoreWithLimits l) [] 0) job_step.

Record jobs_ok (r : run) : Prop := JobsOk {
  ok_limits : limits (st r) = l;
  ok_live : NoDup (live r) ∧ ∀ id, id ∈ live r ↔ ∃ j, jobs (st r) !! id = Some j ∧ j_done j = false;
  ok_running : running (st r) = Z.of_nat (length (live r) + ending r) ∧ running (st r) <= maxConcurrent l;
  ok_output : ∀ id j, jobs (st r) !! id = Some j → j_maxOutput j = maxOutput l ∧ zlen (j_out j) <= maxOutput l;
  ok_kept : Z.of_nat (length (finished_jobs (jobs (st r)))) <= maxRetained l + Z.of_nat (ending r);
  ok_bytes : sum_Z r_bytes (finished_jobs (jobs (st r))) <= maxBytes l + Z.of_nat (ending r) * maxOutput l }.

Lemma ok_collected now kt s lv e :
  jobs_ok (Run s lv e) → kt ≡ₚ map_to_list (jobs s) → collected now s (gcLocked now kt s).
Proof using L1 L2. intros [Li]. simpl in Li. intros Hkt. by apply gc_collected; rewrite ?Li. Qed.

(** A collection keeps the invariant. *)
Lemma ok_collect now kt s lv e :
  jobs_ok (Run s lv e) → kt ≡ₚ map_to_list (jobs s) → jobs_ok (Run (gcLocked now kt s) lv e).
Proof using L1 L2 L3.
  intros OK Hkt. pose proof (ok_collected now kt s lv e OK Hkt) as [[Sr Sl] Sub Live Fr [B1 B2] Old].
  destruct OK as [Li [ND Lv] [Rn Rm] Ou Ke By]. simpl in *. rewrite Li in *. split; simpl.
  - done.
  - split; [done|]. intros id. rewrite Lv. split; intros (j & Hj & D); exists j; eauto.
  - by rewrite Sr.
  - intros id j Hj. eauto.
  - lia.
  - nia.
Qed.

Lemma on_job_finished id f s j :
  jobs s !! id = Some j → j_done j = false → j_done (f j) = false →
  finished_jobs (jobs (on_job id f s)) ≡ₚ finished_jobs (jobs s).
Proof.
  intros Hj D D'. apply NoDup_Permutation; [apply NoDup_finished..|]. intros x. rewrite !elem_of_finished. cbn [jobs on_job set_jobs].
  destruct (decide (r_id x = id)) as [E|N].
  - split; intros (j' & Hj' & Dj' & _); rewrite E in Hj'; [rewrite lookup_alter_eq, Hj in Hj'|]; simplify_eq/=; congruence.
  - by rewrite lookup_alter_ne by done.
Qed.

Lemma on_job_ended id f s j :
  jobs s !! id = Some j → j_done j = false → j_done (f j) = true →
  finished_jobs (jobs (on_job id f s)) ≡ₚ retained_of (id, f j) :: finished_jobs (jobs s).
Proof.
  intros Hj D D'. apply NoDup_Permutation; [apply NoDup_finished|constructor; [|apply NoDup_finished]|].
  - intros (j' & Hj' & Dj' & _)%elem_of_finished. simpl in Hj'. congruence.
  - intros x. rewrite elem_of_cons, !elem_of_finished. cbn [jobs on_job set_jobs].
    destruct (decide (r_id x = id)) as [E|N].
    + rewrite E, lookup_alter_eq, Hj. simpl. split.
      * intros (j' & [= <-] & _ & ->). by left.
      * intros [->|(j' & [= <-] & Dj' & _)]; [eauto|congruence].
    + rewrite lookup_alter_ne by done. split; [by right|]. intros [->|?]; done.
Qed.

Lemma job_end_fields now timed_out code err j :
  j_maxOutput j = maxOutput l → zlen (j_out j) <= maxOutput l →
  let j' := job_end now timed_out code err j in
  j_done j' = true ∧ j_maxOutput j' = maxOutput l ∧ zlen (j_out j') <= maxOutput l.
Proof using L3 L4.
  intros M B. unfold job_end. destruct (job_outcome _ _ _) as [c [e|]]; simpl; split_and!; try done.
  rewrite <- M. apply write_len; rewrite M; done.
Qed.

Lemma insert_ok id j s lv e :
  jobs_ok (Run s lv e) → jobs s !! id = None → running s < maxConcurrent l →
  j_done j = false → j_maxOutput j = maxOutput l → j_out j = ""%string →
  jobs_ok (Run (JobStore (<[id := j]> (jobs s)) (running s + 1) (limits s)) (id :: lv) e).
Proof using L0 L1 L2 L3 L4.
  intros [Li [ND Lv] [Rn Rm] Ou Ke By] Fresh Room D M O. simpl in *.
  assert (finished_jobs (<[id := j]> (jobs s)) ≡ₚ finished_jobs (jobs s)) as FJ.
  { apply NoDup_Permutation; [apply NoDup_finished..|]. intros x. rewrite !elem_of_finished.
    destruct (decide (id = r_id x)) as [<-|N]; [|by rewrite lookup_insert_ne].
    rewrite lookup_insert_eq, Fresh. split; intros (j' & Hj' & Dj' & _); [|done]. injection Hj' as <-. congruence. }
  split; simpl; [done| |lia| |by rewrite FJ|by rewrite (sum_Z_perm _ _ _ FJ)].
  - split; [constructor; [|done]; rewrite Lv; intros (? & ? & _); congruence|].
    intros x. rewrite elem_of_cons, Lv. destruct (decide (id = x)) as [<-|N].
    + rewrite lookup_insert_eq. split; [eauto|by left].
    + rewrite lookup_insert_ne by done. split; [intros [->|?]; done|by right].
  - intros x j'. destruct (decide (id = x)) as [<-|N]; [|rewrite lookup_insert_ne by done; apply Ou].
    rewrite lookup_insert_eq. intros [= <-]. split; [done|]. rewrite O. unfold zlen. simpl. lia.
Qed.

Lemma start_ok now kt rid owner command s lv e r s' :
  jobs_ok (Run s lv e) → kt ≡ₚ map_to_list (jobs s) → (∀ id, rid = Some id → jobs s !! id = None) →
  start now kt rid owner command s = (r, s') →
  jobs_ok (Run s' (match r with Ok id => id :: lv | Err _ => lv end) e).
Proof using L0 L1 L2 L3 L4.
  intros OK Hkt Fresh E. unfold start in E. destruct rid as [id|]; [|by injection E as <- <-].
  pose proof (ok_collect now kt s lv e OK Hkt) as K. destruct (ok_collected now kt s lv e OK Hkt) as [[Sr Sl] Sub _ _ _ _].
  pose proof (ok_limits _ OK) as Li. simpl in Li. rewrite Sl, Li in E.
  destruct (Z.leb_spec (maxConcurrent l) (running (gcLocked now kt s))) as [Full|Room]; injection E as <- <-; [exact K|].
  pose proof (insert_ok id (Job id command now owner "" false 0 0 (maxOutput l)) _ _ _ K) as I.
  rewrite Sl, Li in I. apply I; try done. destruct (jobs (gcLocked now kt s) !! id) eqn:G; [|done].
  apply Sub in G. by rewrite Fresh in G.
Qed.

Lemma write_ok id p s lv e :
  jobs_ok (Run s lv e) → id ∈ lv → jobs_ok (Run (on_job id (jobWriter_Write p) s) lv e).
Proof using L0 L1 L2 L3 L4.
  intros [Li [ND Lv] Ru Ou Ke By] Hid. simpl in *. destruct (proj1 (Lv id) Hid) as (j & Hj & D).
  destruct (Ou _ _ Hj) as [M B]. pose proof (on_job_finished id (jobWriter_Write p) s j Hj D D) as FJ. simpl in FJ.
  split; simpl; [done| |done| |by rewrite FJ|by rewrite (sum_Z_perm _ _ _ FJ)].
  - split; [done|]. intros x. rewrite Lv. destruct (decide (id = x)) as [<-|N]; [|by rewrite lookup_alter_ne].
    rewrite lookup_alter_eq, Hj. simpl. split; intros _; eauto.
  - intros x j'. destruct (decide (id = x)) as [<-|N]; [|rewrite lookup_alter_ne by done; apply Ou].
    rewrite lookup_alter_eq, Hj. intros [= <-]. split; [done|]. rewrite <- M. apply write_len; rewrite M; done.
Qed.

Lemma end_ok id now timed_out code err s lv1 lv2 e :
  jobs_ok (Run s (lv1 ++ id :: lv2) e) →
  jobs_ok (Run (on_job id (job_end now timed_out code err) s) (lv1 ++ lv2) (S e)).
Proof using L0 L1 L2 L3 L4.
  intros [Li [ND Lv] Ru Ou Ke By]. simpl in *.
  assert (id ∈ lv1 ++ id :: lv2) as Hid by (apply elem_of_app; right; by left).
  destruct (proj1 (Lv id) Hid) as (j & Hj & D). destruct (Ou _ _ Hj) as [M B].
  destruct (job_end_fields now timed_out code err j M B) as (D' & M' & B').
  pose proof (on_job_ended id (job_end now timed_out code err) s j Hj D D') as FJ. simpl in FJ.
  pose proof ND as ND'. rewrite <- Permutation_middle in ND'. apply NoDup_cons in ND' as [NI ND'].
  split; simpl; [done| | | |rewrite FJ; simpl; lia|].
  - split; [done|]. intros x. destruct (decide (id = x)) as [<-|N].
    + rewrite lookup_alter_eq, Hj. split; [done|]. intros (j' & [= <-] & ?). congruence.
    + rewrite lookup_alter_ne by done. rewrite <- Lv, !elem_of_app, elem_of_cons. split; [tauto|]. by intros [?|[->|?]]; [left| |right].
  - rewrite !length_app in *. simpl in *. lia.
  - intros x j'. destruct (decide (id = x)) as [<-|N]; [|rewrite lookup_alter_ne by done; apply Ou].
    rewrite lookup_alter_eq, Hj. intros [= <-]. done.
  - rewrite (sum_Z_perm _ _ _ FJ). simpl. lia.
Qed.

Lemma over_ok now kt s lv e :
  jobs_ok (Run s lv (S e)) → kt ≡ₚ map_to_list (jobs s) → jobs_ok (Run (job_over now kt s) lv e).
Proof using L0 L1 L2 L3 L4.
  intros [Li Lv [Rn Rm] Ou Ke By] Hkt. unfold job_over. set (s0 := JobStore (jobs s) (running s - 1) (limits s)). simpl in *.
  destruct (gc_collected now kt s0) as [[Sr Sl] Sub Live Fr [B1 B2] Old]; [done|simpl; by rewrite Li..|].
  simpl in *. rewrite Li in *. split; simpl; [done| |rewrite Sr; lia|intros id j Hj; eauto|lia|nia].
  destruct Lv as [ND Lv]. split; [done|]. intros id. rewrite Lv. split; intros (j & Hj & D); exists j; eauto.
Qed.

Lemma step_ok r r' : jobs_ok r → job_step r r' → jobs_ok r'.
Proof using L0 L1 L2 L3 L4.
  intros OK ST. destruct ST.
  - by eapply start_ok.
  - by apply write_ok.
  - by apply end_ok.
  - by apply over_ok.
  - by apply ok_collect.
Qed.

(** The memory of background jobs is bounded.  However the starts, the
    writes, the ends and the collections of a device's jobs interleave, at most
    [maxConcurrent] run; a job that runs is never collected; no buffer outgrows
    [maxOutput]; what is retained of finished jobs stays within both budgets
    but for the jobs that ended and have not been collected after, of which
    there are never more than [maxConcurrent]. *)
Lemma jobs_bounded r :
  job_reachable r →
  Z.of_nat (length (live r) + ending r) <= maxConcurrent l ∧
  (∀ id, id ∈ live r → ∃ j, jobs (st r) !! id = Some j ∧ j_done j = false) ∧
  (∀ id j, jobs (st r) !! id = Some j → zlen (j_out j) <= maxOutput l) ∧
  Z.of_nat (length (finished_jobs (jobs (st r)))) <= maxRetained l + Z.of_nat (ending r) ∧
  sum_Z r_bytes (finished_jobs (jobs (st r))) <= maxBytes l + Z.of_nat (ending r) * maxOutput l.
Proof using L0 L1 L2 L3 L4.
  intros R. assert (jobs_ok r) as [Li [ND Lv] [Rn Rm] Ou Ke By].
  { revert r R. apply invariant_reachable; [|intros s s'; apply step_ok].
    intros r ->. split; simpl; try done.
    - split; [constructor|]. intros id. split; [by intros ?%not_elem_of_nil|]. intros (j & Hj & _). by rewrite lookup_empty in Hj.
    - unfold finished_jobs. rewrite map_to_list_empty. simpl. lia.
    - unfold finished_jobs. rewrite map_to_list_empty. simpl. lia. }
  split_and!; [lia| | |done|done].
  - intros id. apply Lv.
  - intros id j Hj. by destruct (Ou _ _ Hj).
Qed.
End all_runs.

Lemma jobs_bounded_witness :
  let l := JobLimits 1 minute 40 1 40 hour in
  let j := Job "a" "make" 5 "fp" "" false 0 0 40 in
  let r := Run (JobStore {["a"%string := j]} 1 l) ["a"%string] 0 in
  job_reachable l r ∧ ∃ j', jobs (st r) !! "a"%string = Some j' ∧ j_done j' = false.
Proof.
  intros l j r. assert (job_reachable l r) as R.
  { eapply reachable_step; [by apply reachable_init|].
    apply (S_start 5 [] (Some "a"%string) "fp" "make" (newJobStoreWithLimits l) [] 0 (Ok "a"%string) (st r));
      [reflexivity|reflexivity|vm_compute; reflexivity]. }
  split; [exact R|].
  destruct (jobs_bounded l) with (r := r) as (_ & L & _); try (vm_compute; congruence); [exact R|]. apply L. left.
Defined.

Lemma concat_from s t qs :
  foldl (λ acc p, (acc ++ p)%string) (s ++ t)%string qs = (s ++ foldl (λ acc p, (acc ++ p)%string) t qs)%string.
Proof. revert t. induction qs as [|q qs IH]; intros t; simpl; [done|]. by rewrite <- app_assoc_s, IH. Qed.

Lemma concat_s_app ps qs : concat_s (ps ++ qs) = (concat_s ps ++ concat_s qs)%string.
Proof.
  unfold concat_s. rewrite foldl_app. generalize (foldl (λ acc p, (acc ++ p)%string) ""%string ps). intros s.
  rewrite <- (app_nil_s s) at 1. apply concat_from.
Qed.

(** A job's output buffer.  Writing [ps] leaves exactly their concatenation
    while it fits the limit; past it the buffer stays at the limit, its end
    replaced by the marker.  A controller that polls from the total it was last
    told gets exactly what was written since, as long as everything fits. *)
Lemma job_output limit ps qs j :
  0 < limit → zlen jobOutputTruncated <= limit → j_maxOutput j = limit → j_out j = ""%string →
  let j1 := write_all ps j in
  let j2 := write_all qs j1 in
  j_out j1 = rendered limit (concat_s ps) ∧ zlen (j_out j1) = Z.min limit (zlen (concat_s ps)) ∧
  (zlen (concat_s (ps ++ qs)) <= limit →
     concat_s (ps ++ qs) = (concat_s ps ++ (snapshot (snapshot 0 j1).1.1.2 j2).1.1.1)%string).
Proof.
  intros P L M O j1 j2.
  assert (rendered limit "" = ""%string) as R0 by (unfold rendered, zlen; simpl; by rewrite (proj2 (Z.leb_le _ _)) by lia).
  assert (j_out j1 = rendered limit (concat_s ps)) as E1 by (by apply write_all_rendered; [..|by rewrite O]).
  assert (j_out j2 = rendered limit (concat_s (ps ++ qs))) as E2.
  { unfold j2, j1, write_all. rewrite <- foldl_app. by apply write_all_rendered; [..|by rewrite O]. }
  split; [done|]. split; [by rewrite E1, rendered_len|]. intros F.
  pose proof (concat_s_app ps qs) as C. rewrite C, zlen_app in F. pose proof (zlen_nonneg (concat_s qs)).
  assert (zlen (concat_s ps) <= limit) as F1 by lia.
  assert (zlen (concat_s (ps ++ qs)) <= limit) as F0 by (rewrite C, zlen_app; lia).
  assert (zlen (concat_s ps) <= zlen (concat_s (ps ++ qs))) as F2 by (rewrite C, zlen_app; lia).
  unfold snapshot. rewrite E1, E2. unfold rendered. rewrite (proj2 (Z.leb_le _ _) F0), (proj2 (Z.leb_le _ _) F1). cbn [fst snd].
  pose proof (zlen_nonneg (concat_s ps)) as N. rewrite (proj2 (Z.ltb_ge (zlen (concat_s ps)) 0)) by done.
  rewrite (proj2 (Z.ltb_ge _ _) F2). rewrite C. f_equal. unfold zlen. by rewrite Nat2Z.id, sdrop_app.
Qed.

Lemma job_output_witness :
  let j := Job "a" "make" 5 "fp" "" false 0 0 40 in
  j_out (write_all ["hello "; "world"]%string j) = rendered 40 "hello world" ∧
  snapshot 6 (write_all ["hello "; "world"]%string j) = ("world"%string, 11, false, 0).
Proof.
  intros j. split; [|vm_compute; reflexivity].
  refine (proj1 (job_output 40 ["hello "; "world"]%string [] j _ _ _ _)); vm_compute; congruence.
Defined.

(** A poll that took the buffer up to the limit never sees the marker, because
    it overwrites bytes the poll already has. *)
Lemma marker_missed :
  let j := write_all ["0123456789012345678901234567890123456789"]%string (Job "a" "make" 5 "fp" "" false 0 0 40) in
  let '(seen, total, _, _) := snapshot 0 j in
  let j' := jobWriter_Write "more" j in
  seen = j_out j ∧ total = 40 ∧ j_out j' ≠ seen ∧ (snapshot total j').1.1.1 = ""%string.
Proof. vm_compute. repeat split; congruence. Qed.

(** What a poll tells.  Output goes to the controller that started the job
    and to no other, from the offset it names, with the job's own status.  To
    anyone else the job does not exist: the answer is that of an unknown id,
    and only the device's log tells the difference.  The owner is refused only
    when the job ended and its retention passed, or it was evicted, oldest
    first, because what the device may retain could not hold it. *)
Lemma poll_answers now kt kt' id fp offset s ans logged s' :
  kt ≡ₚ map_to_list (jobs s) → kt' ≡ₚ map_to_list (jobs (gcLocked now kt s)) →
  0 <= maxRetained (limits s) → 0 <= maxBytes (limits s) →
  doExecPoll now kt kt' id fp offset s = (ans, logged, s') →
  (∀ out total more code, ans = Polled out total more code →
     ∃ j, jobs s !! id = Some j ∧ j_owner j = fp ∧ snapshot offset j = (out, total, negb more, code)) ∧
  (∀ j, jobs s !! id = Some j → j_owner j ≠ fp → ans = UnknownJob id) ∧
  (jobs s !! id = None → ans = UnknownJob id ∧ logged = false) ∧
  (logged = true → ∃ j, jobs s !! id = Some j ∧ j_owner j ≠ fp) ∧
  (∀ j, jobs s !! id = Some j → j_owner j = fp → ans = UnknownJob id →
     j_done j = true ∧
     (j_finished j < now - retain (limits s) ∨
      ∃ x jx, jobs s !! x = Some jx ∧ j_finished j <= j_finished jx ∧
        (∀ y jy, jobs (gcLocked now kt s) !! y = Some jy → j_done jy = true → j_finished j <= j_finished jy) ∧
        ¬ within_budget (limits s) (retained_of (x, jx) :: finished_jobs (jobs (gcLocked now kt s))))).
Proof.
  intros Hkt Hkt' P1 P2 E. destruct (gc_collected now kt s Hkt P1 P2) as [[Sr Sl] Sub Live Fr B Old].
  set (g := gcLocked now kt s) in *.
  destruct (gc_collected now kt' g Hkt') as [_ Sub' Live' Fr' B' Old']; [by rewrite Sl..|].
  unfold doExecPoll, getFor, get in E. fold g in E.
  destruct (jobs g !! id) as [j|] eqn:G; [destruct (String.eqb_spec (j_owner j) fp) as [O|O]|].
  - pose proof (Sub _ _ G) as J. destruct (snapshot offset j) as [[[out total] done] code] eqn:SN.
    injection E as <- <- <-. split_and!; try congruence.
    intros out0 total0 more code0 [= <- <- <- <-]. exists j. by rewrite SN, negb_involutive.
  - pose proof (Sub _ _ G) as J. injection E as <- <- <-. split_and!; try congruence; eauto; congruence.
  - injection E as <- <- <-. assert (jobs (gcLocked now kt' g) !! id = None) as G2.
    { destruct (jobs (gcLocked now kt' g) !! id) eqn:G2; [|done]. apply Sub' in G2. congruence. }
    rewrite G2. split_and!; try congruence; [done|]. intros j J O _.
    destruct (j_done j) eqn:D; [|specialize (Live _ _ J D); congruence]. split; [done|].
    destruct (Z.ltb_spec (j_finished j) (now - retain (limits s))) as [X|X]; [by left|right].
    destruct (Old id j J G) as (Y & x & jx & Hx & _ & Le & W).
    { unfold job_expired. by rewrite D, (proj2 (Z.ltb_ge _ _) X). }
    eauto 10.
Qed.

Lemma poll_answers_witness :
  let j := Job "a" "make" 5 "fp" "done" true 0 9 40 in
  let s := JobStore {["a"%string := j]} 0 defaultJobLimits in
  let kt := [("a"%string, j)] in
  (doExecPoll 10 kt kt "a" "fp" 2 s).1 = (Polled "ne" 4 false 0, false) ∧
  (doExecPoll 10 kt kt "a" "other" 2 s).1.1 = UnknownJob "a".
Proof.
  intros j s kt. split; [vm_compute; reflexivity|].
  destruct (poll_answers 10 kt kt "a" "other" 2 s (doExecPoll 10 kt kt "a" "other" 2 s).1.1 (doExecPoll 10 kt kt "a" "other" 2 s).1.2
    (doExecPoll 10 kt kt "a" "other" 2 s).2) as (_ & X & _);
    [reflexivity|reflexivity|vm_compute; congruence|vm_compute; congruence|reflexivity|].
  apply (X j); [reflexivity|discriminate].
Defined.
