(* ===== verification/Sessions.v ===== *)
(** [internal/relay/http.go], [bridge.go] and [http_disconnect.go]: the sessions
    a relay holds and the devices that poll it.

    [r.hsess] and [r.hagents] map names to objects that handlers go on holding
    after the name is gone, so both are maps to indices of a store of objects.
    Each definition is one handler, or the part of a handler on one side of a
    wait.  What other parts of the relay answer (authentication, whether a dial is
    allowed, the registration of a device, whether a session's credential is
    still valid) are arguments. *)

From S2P Require Import Prelude GoStrings GoUtf8 GoCodec Session Residency SideQueue.

Local Open Scope Z_scope.

Definition downPollWait : Z := 20 * second.
Definition httpAgentTTL : Z := 40 * second.
Definition httpAgentsPerNS : nat := 256.
Definition httpSessionsPerNS : nat := 64.
Definition httpSessionsTotal : nat := 4096.
Definition httpSessionIdle : Z := 3 * downPollWait.
Definition unackedRetention : Z := 10 * minute.
Definition deviceGoneAfter : Z := 40 * second.
Definition sessionEndDeviceGone : string := "device-gone".
Definition controllerDisconnectGrace : Z := 2 * second.
Definition DownWindowSize : Z := 4.

Section relay.
Context {B : Type}.

(** ** Data *)

Record httpAgent := HttpAgent {
  ha_ns : string; ha_device : string; ha_name : string; ha_open : list Auth.session_open; ha_lastSeen : Z;
  ha_inst : string; ha_retired : gset string; ha_changed : nat; ha_delegation : bool; ha_scopedExec : bool; ha_polls : Z }.

(** [disconnect]: the generation a pending disconnect timer was set for. *)
Record httpSession := HttpSession {
  toClient : sideQueue B; toAgent : sideQueue B;
  callerNS : string; credentialID : string; ownerNS : string;
  lastActive : Z; clientSeen : Z; clientBridged : bool;
  pollGeneration : nat; disconnect : option nat;
  closedAt : Z; agentKey : string; agentInst : string; endReason : string; endTold : bool }.

Record relay := Relay {
  hagents : gmap string nat; agents : gmap nat httpAgent;
  hsess : gmap string nat; sessions : gmap nat httpSession;
  pool : residency; maxSessions : nat; portalNS : string; next_id : nat }.

Definition set_queues (c a : sideQueue B) (s : httpSession) : httpSession :=
  HttpSession c a (callerNS s) (credentialID s) (ownerNS s) (lastActive s) (clientSeen s) (clientBridged s)
    (pollGeneration s) (disconnect s) (closedAt s) (agentKey s) (agentInst s) (endReason s) (endTold s).
Definition set_seen (active seen : Z) (s : httpSession) : httpSession :=
  HttpSession (toClient s) (toAgent s) (callerNS s) (credentialID s) (ownerNS s) active seen (clientBridged s)
    (pollGeneration s) (disconnect s) (closedAt s) (agentKey s) (agentInst s) (endReason s) (endTold s).
Definition set_poll (g : nat) (d : option nat) (s : httpSession) : httpSession :=
  HttpSession (toClient s) (toAgent s) (callerNS s) (credentialID s) (ownerNS s) (lastActive s) (clientSeen s) (clientBridged s)
    g d (closedAt s) (agentKey s) (agentInst s) (endReason s) (endTold s).
Definition set_end (closed : Z) (reason : string) (told : bool) (s : httpSession) : httpSession :=
  HttpSession (toClient s) (toAgent s) (callerNS s) (credentialID s) (ownerNS s) (lastActive s) (clientSeen s) (clientBridged s)
    (pollGeneration s) (disconnect s) closed (agentKey s) (agentInst s) reason told.
Definition set_taker (key inst : string) (s : httpSession) : httpSession :=
  HttpSession (toClient s) (toAgent s) (callerNS s) (credentialID s) (ownerNS s) (lastActive s) (clientSeen s) (clientBridged s)
    (pollGeneration s) (disconnect s) (closedAt s) key inst (endReason s) (endTold s).

Definition set_hsess (m : gmap string nat) (r : relay) : relay :=
  Relay (hagents r) (agents r) m (sessions r) (pool r) (maxSessions r) (portalNS r) (next_id r).
Definition set_sessions (m : gmap nat httpSession) (p : residency) (r : relay) : relay :=
  Relay (hagents r) (agents r) (hsess r) m p (maxSessions r) (portalNS r) (next_id r).
Definition set_agents (h : gmap string nat) (m : gmap nat httpAgent) (n : nat) (r : relay) : relay :=
  Relay h m (hsess r) (sessions r) (pool r) (maxSessions r) (portalNS r) n.

Definition on_session (i : nat) (f : httpSession → httpSession) (r : relay) : relay :=
  set_sessions (alter f i (sessions r)) (pool r) r.

(** An operation of one direction, which may move the relay's account. *)
Definition on_queue {X} (i : nat) (client : bool) (f : sideQueue B → residency → X * sideQueue B * residency)
    (dflt : X) (r : relay) : X * relay :=
  match sessions r !! i with
  | None => (dflt, r)
  | Some s =>
      let '(x, q, p) := f (if client then toClient s else toAgent s) (pool r) in
      (x, set_sessions (<[i := if client then set_queues q (toAgent s) s else set_queues (toClient s) q s]> (sessions r)) p r)
  end.

(** ** Ending a session *)

(** [httpSession.close] and [httpSession.free]. *)
Definition session_close (s : httpSession) : httpSession := set_queues (close (toClient s)) (close (toAgent s)) s.

Definition session_free (i : nat) (r : relay) : relay :=
  match sessions r !! i with
  | None => r
  | Some s =>
      let '(c, p) := free (toClient s) (pool r) in
      let '(a, p) := free (toAgent s) p in
      set_sessions (<[i := set_queues c a s]> (sessions r)) p r
  end.

(** [if r.hsess[sid] == s { delete(r.hsess, sid) }] *)
Definition unregister (sid : string) (i : nat) (r : relay) : relay :=
  if bool_decide (hsess r !! sid = Some i) then set_hsess (delete sid (hsess r)) r else r.

(** Taking a session out of the registry and dropping what it holds; also the
    closer [newHTTPSession] gives the session's lease. *)
Definition retire (sid : string) (i : nat) (r : relay) : relay := session_free i (unregister sid i r).
Definition lease_close := retire.

Definition closeHTTPSession (sid : string) (s : option nat) (r : relay) : relay :=
  match s with
  | None => r
  | Some i => lease_close sid i (retire sid i r)
  end.

Definition releaseDrainedSession (sid : string) (i : nat) (r : relay) : relay :=
  match sessions r !! i with
  | None => r
  | Some s =>
      if negb (settled (toClient s)) || negb (settled (toAgent s)) then r
      else if negb (is_zero (closedAt s)) && bool_decide (hsess r !! sid = Some i) && (String.eqb (endReason s) "" || endTold s)
      then lease_close sid i (retire sid i r)
      else r
  end.

Definition closeHTTPSessionDrainable (now : Z) (sid : string) (s : option nat) (r : relay) : relay :=
  match s with
  | None => r
  | Some i =>
      let r := if bool_decide (hsess r !! sid = Some i)
               then on_session i (λ s, if is_zero (closedAt s) then set_end now (endReason s) (endTold s) s else s) r else r in
      releaseDrainedSession sid i (on_session i session_close r)
  end.

Definition gracefullyClosed (i : nat) (r : relay) : bool :=
  match sessions r !! i with Some s => negb (is_zero (closedAt s)) | None => false end.

(** ** Opening one *)

Inductive session_error := ErrRelaySessions | ErrNamespaceSessions | ErrInactive.

Definition countNamespaceSessionsLocked (ns : string) (r : relay) : nat :=
  size (filter (λ kv : string * nat, callerNS <$> (sessions r !! kv.2) = Some ns) (hsess r)).

(** [active]: the account, and the grant if there is one, are still good when
    the session's lease begins. *)
Definition newHTTPSession (now : Z) (sid : string) (auth : Auth.session_open) (active : bool) (r : relay)
  : result session_error nat * relay :=
  let ns := Auth.CallerNamespace auth in
  let ns := if negb (String.eqb (portalNS r) "") && String.eqb ns (portalNS r) then ""%string else ns in
  let '(c, p) := attach ns newSideQueue (pool r) in
  let '(a, p) := attach ns newSideQueue p in
  let s := HttpSession c a (Auth.CallerNamespace auth) (Auth.CredentialID auth) (Auth.OwnerNamespace auth)
             now now false 0 None 0 "" "" "" false in
  let i := next_id r in
  let r' := Relay (hagents r) (agents r) (hsess r) (<[i := s]> (sessions r)) p (maxSessions r) (portalNS r) (S i) in
  if (maxSessions r <=? size (hsess r))%nat then (Err ErrRelaySessions, session_free i r')
  else if negb (String.eqb ns "") && (httpSessionsPerNS <=? countNamespaceSessionsLocked ns r)%nat
  then (Err ErrNamespaceSessions, session_free i r')
  else
    let r' := set_hsess (<[sid := i]> (hsess r')) r' in
    if active then (Ok i, r') else (Err ErrInactive, lease_close sid i r').

(** ** Who may touch a session *)

Definition allowsAccess (s : httpSession) (a : Delegation.access) (role : string) : bool :=
  if Delegation.Delegated a
  then (String.eqb role "" || String.eqb role "client") && negb (String.eqb (credentialID s) "")
       && String.eqb (Delegation.ac_CredentialID a) (credentialID s) && String.eqb (Delegation.ac_Namespace a) (callerNS s)
  else String.eqb (Delegation.ac_Namespace a) (callerNS s) || String.eqb (Delegation.ac_Namespace a) (ownerNS s).

Definition touch (now : Z) (role : string) (s : httpSession) : httpSession :=
  set_seen now (if String.eqb role "agent" then clientSeen s else now) s.

Definition registered (sid : string) (r : relay) : option (nat * httpSession) :=
  match hsess r !! sid with
  | Some i => match sessions r !! i with Some s => Some (i, s) | None => None end
  | None => None
  end.

Definition sessionForAccess (now : Z) (sid : string) (a : Delegation.access) (role : string) (r : relay)
  : option nat * relay :=
  match registered sid r with
  | Some (i, s) => if allowsAccess s a role then (Some i, on_session i (touch now role) r) else (None, r)
  | None => (None, r)
  end.

(** ** Answers *)

(** A status with the session-end header, a chunk, a session to open, the id of
    an opened one, or no answer at all. *)
Inductive answer :=
| Status (code : Z) (sessionEnd : string) | Chunked (sq : nat) (data : list B) | OpenJob (o : Auth.session_open)
| Dialed (sid : string) | Silent.

Definition status (code : Z) : answer := Status code "".

Definition writeSessionClosed (i : nat) (r : relay) : answer * relay :=
  (Status 410 (match sessions r !! i with Some s => endReason s | None => "" end),
   on_session i (λ s, set_end (closedAt s) (endReason s) true s) r).

(** ** Uploads *)

Inductive read_error := TooLarge | ReadFailed.

(** [readUpload]: [sent] is what the client sent, [broken] whether the transfer
    broke off. *)
Definition readUpload (contentLength n : Z) (sent : list B) (broken : bool) : result read_error (list B) :=
  if 0 <=? contentLength
  then if (Z.of_nat (length sent) <? contentLength) then Err ReadFailed else Ok (take (Z.to_nat contentLength) sent)
  else if broken then Err ReadFailed
  else if n <? Z.of_nat (length sent) then Err TooLarge else Ok sent.

(** The room [acceptUpload] asks for: [None] is a body declared too large. *)
Definition upload_room (contentLength : Z) : option Z :=
  if maxUploadBytes <? contentLength then None
  else Some (if contentLength <? 0 then maxUploadBytes else contentLength).

(** [acceptUpload] in two parts: up to where room is held (one pass of the
    wait, [gaveUp] when the client left meanwhile), and after the body is read.
    The outcome is [(taken, closed)] with the answer it wrote, if any. *)
Definition upload_outcome : Type := bool * bool * option answer.

Definition upload_admission (sq : nat) (a : admission) (gaveUp : bool) : option upload_outcome :=
  match a with
  | Granted => None
  | RepeatWrite => Some (true, false, None)
  | OutOfWindow => Some (false, false, Some (status 503))
  | QueueClosed => Some (false, true, Some (status 410))
  | MustWait => if gaveUp then Some (false, false, Some (status 503)) else None
  end.

Definition upload_admit (sq : nat) (n : Z) (waited : bool) (q : sideQueue B) (p : residency)
  : (admission * bool) * sideQueue B * residency :=
  let '(a, w, q, p) := if (sq =? 0)%nat then reserveWrite n waited q p else admitSeq sq n waited q p in
  ((a, w), q, p).

Definition upload_commit (sq : nat) (n : Z) (body : result read_error (list B)) (q : sideQueue B) (p : residency)
  : upload_outcome * sideQueue B * residency :=
  match body with
  | Err e =>
      let '(q, p) := unreserve n q p in
      ((false, false, Some (status (match e with TooLarge => 413 | ReadFailed => 400 end))), q, p)
  | Ok b =>
      let '(c, q, p) := if (sq =? 0)%nat then enqueue b n q p else commitSeq sq b n q p in
      (match c with
       | CommitClosed => (false, true, Some (status 410))
       | Committed => (true, false, None)
       end, q, p)
  end.

(** A write's place: absent, or a number that is not zero. *)
Definition seq_param (s : string) : result unit nat :=
  if String.eqb s "" then Ok 0%nat
  else match ParseUint s with
       | Some n => if n =? 0 then Err tt else Ok (Z.to_nat n)
       | None => Err tt
       end.

(** The direction a role writes to: the controller's bytes go to the agent. *)
Definition writes_client (role : string) : bool := String.eqb role "agent".

(** [handleHUp] up to [acceptUpload]: the session, the direction and the place
    of the write.  [cred_ok] is whether the session's credential is valid. *)
Definition handleHUp (now : Z) (auth : option Delegation.access) (sid role seqParam : string) (cred_ok : bool) (r : relay)
  : (answer + nat * bool * nat) * relay :=
  match auth with
  | None => (inl (status 401), r)
  | Some a =>
      match sessionForAccess now sid a role r with
      | (None, r) => (inl (status 404), r)
      | (Some i, r) =>
          if negb cred_ok then (inl (status 410), closeHTTPSession sid (Some i) r)
          else if gracefullyClosed i r then let '(ans, r) := writeSessionClosed i r in (inl ans, r)
          else match seq_param seqParam with
               | Err _ => (inl (status 400), r)
               | Ok sq => (inr (i, writes_client role, sq), r)
               end
      end
  end.

(** ** Downloads *)

Definition controllerPollStarted (sid : string) (i : nat) (r : relay) : nat * relay :=
  if bool_decide (hsess r !! sid = Some i)
  then (match sessions r !! i with Some s => S (pollGeneration s) | None => O end,
        on_session i (λ s, set_poll (S (pollGeneration s)) None s) r)
  else (O, r).

Definition ended (s : httpSession) : bool := negb (is_zero (closedAt s)) || negb (String.eqb (endReason s) "").

Definition controllerPollCancelled (sid : string) (i generation : nat) (r : relay) : relay :=
  on_session i (λ s,
    if negb (bool_decide (hsess r !! sid = Some i)) || negb (pollGeneration s =? generation)%nat || ended s then s
    else match disconnect s with
         | None => set_poll (pollGeneration s) (Some generation) s
         | Some _ => s
         end) r.

(** The timer of generation [generation] going off. *)
Definition expireControllerDisconnect (sid : string) (i generation : nat) (r : relay) : relay :=
  match sessions r !! i with
  | None => r
  | Some s =>
      if negb (pollGeneration s =? generation)%nat || negb (bool_decide (is_Some (disconnect s))) then r
      else
        let r := on_session i (λ s, set_poll (pollGeneration s) None s) r in
        if negb (bool_decide (hsess r !! sid = Some i)) || ended s then r
        else closeHTTPSession sid (Some i) (set_hsess (delete sid (hsess r)) r)
  end.

(** Which take a poll makes: [BadPoll] is answered 400. *)
Inductive poll_plan := BadPoll | PlainPoll | AckPoll (ack : Z) (limit : Z) | WindowPoll (ack want : Z) (limit : Z).

Definition poll_limit (maxParam : string) : Z :=
  match Atoi maxParam with
  | Some m => if 0 <? m then Z.min m maxDrainLimit else maxDrainBytes
  | None => maxDrainBytes
  end.

(** [want] is [None] when the parameter is absent. *)
Definition plan_poll (ackParam maxParam : string) (wantParam : option string) : poll_plan :=
  if String.eqb ackParam "" then PlainPoll
  else match ParseUint ackParam with
  | None => BadPoll
  | Some ack =>
      let limit := poll_limit maxParam in
      match wantParam with
      | None => AckPoll ack limit
      | Some w =>
          match ParseUint w with
          | None => BadPoll
          | Some want => if (want <=? ack) || (DownWindowSize <? want - ack) then BadPoll
                         else WindowPoll ack want (Z.min limit (Z.shiftl 4 20))
          end
      end
  end.

(** [handleHDown] up to the take. *)
Definition handleHDown_begin (now : Z) (auth : option Delegation.access) (sid role ackParam maxParam : string)
    (wantParam : option string) (r : relay) : (answer + nat * nat * poll_plan) * relay :=
  match auth with
  | None => (inl (status 401), r)
  | Some a =>
      match sessionForAccess now sid a role r with
      | (None, r) => (inl (status 404), r)
      | (Some i, r) =>
          let '(poll, r) := if String.eqb role "agent" then (O, r) else controllerPollStarted sid i r in
          match plan_poll ackParam maxParam wantParam with
          | BadPoll => (inl (status 400), releaseDrainedSession sid i r)
          | plan => (inr (i, poll, plan), r)
          end
      end
  end.

(** The take of a poll that holds the turn, with nothing arriving meanwhile:
    [None] is a poll of a window that must wait for the one before it. *)
Definition poll_take (plan : poll_plan) (q : sideQueue B) (p : residency) : option (reply B) * sideQueue B * residency :=
  match plan with
  | BadPoll => (None, q, p)
  | PlainPoll =>
      let '(data, closed, q, p) := pollDrain q p in
      (Some (match data with [] => if closed then Closed else Empty | _ => Chunk data 0 end), q, p)
  | AckPoll ack limit => let '(rep, q, p) := takeUpTo (Z.to_nat ack) limit q p in (Some rep, q, p)
  | WindowPoll ack want limit => takeWindow (Z.to_nat ack) (Z.to_nat want) limit q p
  end.

(** [handleHDown] after the take: [got] is [None] for a reader that left before
    its turn, [left] whether its request has been cancelled, [wanted] whether it
    numbered the poll. *)
Definition handleHDown_end (now : Z) (sid role : string) (i poll : nat) (got : option (reply B)) (left wanted cred_ok : bool)
    (r : relay) : answer * relay :=
  let no_data := match got with Some (Chunk _ _) => false | _ => true end in
  let '(ans, r) :=
    if left && no_data && negb (poll =? 0)%nat && negb wanted
    then (Silent, controllerPollCancelled sid i poll r)
    else match got with
    | None => (Silent, r)
    | Some rep =>
        if negb cred_ok then (status 410, closeHTTPSession sid (Some i) r)
        else match rep with
        | Closed => writeSessionClosed i r
        | Empty | Stale => (status 204, r)
        | Chunk data sq => (Chunked sq data, on_session i (touch now role) r)
        end
    end in
  (ans, releaseDrainedSession sid i r).

(** ** Closing *)

(** [handleHClose] in two parts, around the upload of a last write. *)
Definition handleHClose_begin (auth : option Delegation.access) (sid role seqParam : string) (r : relay)
  : answer + nat * bool * nat :=
  match auth with
  | None => inl (status 401)
  | Some a =>
      match registered sid r with
      | Some (i, s) =>
          if allowsAccess s a role
          then match seq_param seqParam with
               | Err _ => inl (status 400)
               | Ok sq => inr (i, writes_client role, sq)
               end
          else inl (status 404)
      | None => inl (status 404)
      end
  end.

(** [tail]: the outcome of the last write, [None] when there was none. *)
Definition handleHClose_end (now : Z) (sid role : string) (i : nat) (tail : option upload_outcome) (r : relay) : answer * relay :=
  let '(taken, closed, ans) := default (true, false, None) tail in
  if negb taken && negb closed then (default Silent ans, r)
  else
    let r := on_session i (λ s, session_close (set_end now (endReason s) (endTold s) s)) r in
    let '(_, r) := on_queue i (negb (String.eqb role "agent")) (λ q p, let '(q, p) := free q p in (tt, q, p)) tt r in
    let r := releaseDrainedSession sid i r in
    (if taken then status 200 else default Silent ans, r).

(** ** The sweepers *)

Definition agent_alive (now : Z) (s : httpSession) (r : relay) : bool :=
  match hagents r !! agentKey s with
  | None => false
  | Some j =>
      match agents r !! j with
      | None => false
      | Some a => (String.eqb (agentInst s) "" || String.eqb (ha_inst a) (agentInst s))
                  && ((0 <? ha_polls a) || (now - ha_lastSeen a <=? deviceGoneAfter))
      end
  end.

Definition agent_gone (now : Z) (r : relay) (i : nat) : bool :=
  match sessions r !! i with
  | Some s => negb (String.eqb (agentKey s) "" || negb (String.eqb (endReason s) "")) && negb (agent_alive now s r)
  | None => false
  end.

(** What it does to one session it selects. *)
Definition end_gone (now : Z) (r : relay) (i : nat) : relay :=
  let r := on_session i (λ s, set_end (if is_zero (closedAt s) then now else closedAt s) sessionEndDeviceGone (endTold s) s) r in
  let '(_, r) := on_queue i false (λ q p, let '(q, p) := free q p in (tt, q, p)) tt r in
  let '(_, r) := on_queue i true (λ q p, (tt, close q, p)) tt r in
  r.

Definition endSessionsOfGoneAgents (now : Z) (r : relay) : relay :=
  foldl (end_gone now) r (List.filter (agent_gone now r) (snd <$> map_to_list (hsess r))).

(** Whether [reapHTTP] drops a session. *)
Definition controller_gone (now : Z) (s : httpSession) : bool :=
  let '(serveC, heldC) := undelivered (toClient s) in
  let '(_, heldA) := undelivered (toAgent s) in
  negb (clientBridged s) && negb serveC && is_zero (closedAt s) && negb (is_zero (clientSeen s))
  && ((if heldC || heldA then unackedRetention else httpSessionIdle) <? now - clientSeen s).

Definition session_idle (now : Z) (s : httpSession) : bool :=
  let '(serveC, heldC) := undelivered (toClient s) in
  let '(serveA, heldA) := undelivered (toAgent s) in
  negb (serveC || serveA) && negb (is_zero (lastActive s))
  && ((if heldC || heldA then unackedRetention else httpSessionIdle) <? now - lastActive s).

Definition reaped (now : Z) (r : relay) (kv : string * nat) : bool :=
  match sessions r !! kv.2 with
  | Some s => controller_gone now s || session_idle now s
  | None => false
  end.

Definition agent_silent (now : Z) (r : relay) (j : nat) : bool :=
  match agents r !! j with Some a => httpAgentTTL <? now - ha_lastSeen a | None => false end.

(** [reapHTTP]: also the devices it found silent and the line for the log. *)
Definition reapHTTP (now : Z) (r : relay) : list nat * option report_line * relay :=
  let offline := List.filter (agent_silent now r) (snd <$> map_to_list (hagents r)) in
  let r1 := set_agents (filter (λ kv : string * nat, agent_silent now r kv.2 = false) (hagents r)) (agents r) (next_id r) r in
  let r2 := foldl (λ r kv, lease_close kv.1 kv.2 (retire kv.1 kv.2 r)) r1 (List.filter (reaped now r) (map_to_list (hsess r))) in
  let '(line, p) := report now (Z.of_nat (size (hsess r2))) (pool r2) in
  (offline, line, set_sessions (sessions r2) p r2).

(** ** Devices *)

Definition on_agent (j : nat) (f : httpAgent → httpAgent) (r : relay) : relay :=
  set_agents (hagents r) (alter f j (agents r)) (next_id r) r.

Definition set_open (l : list Auth.session_open) (a : httpAgent) : httpAgent :=
  HttpAgent (ha_ns a) (ha_device a) (ha_name a) l (ha_lastSeen a) (ha_inst a) (ha_retired a) (ha_changed a)
    (ha_delegation a) (ha_scopedExec a) (ha_polls a).
Definition set_polls (n now : Z) (a : httpAgent) : httpAgent :=
  HttpAgent (ha_ns a) (ha_device a) (ha_name a) (ha_open a) now (ha_inst a) (ha_retired a) (ha_changed a)
    (ha_delegation a) (ha_scopedExec a) n.

Definition openCapacity : nat := 8.

Definition countNamespaceAgentsLocked (ns : string) (r : relay) : nat :=
  size (filter (λ kv : string * nat, ha_ns <$> (agents r !! kv.2) = Some ns) (hagents r)).

Definition httpAgentObsolete (key inst : string) (r : relay) : bool :=
  match hagents r !! key ≫= λ j, agents r !! j with
  | None => false
  | Some a =>
      if String.eqb inst "" then false
      else bool_decide (inst ∈ ha_retired a) || (negb (String.eqb (ha_inst a) "") && negb (String.eqb (ha_inst a) inst))
  end.

(** [a.open <- open] on whatever agent has the name now; [None] is a send that
    waits for room. *)
Definition requeueHTTPJob (key : string) (o : Auth.session_open) (r : relay) : option relay :=
  match hagents r !! key with
  | None => Some r
  | Some j =>
      match agents r !! j with
      | None => Some r
      | Some a => if (length (ha_open a) <? openCapacity)%nat then Some (on_agent j (set_open (ha_open a ++ [o])) r) else None
      end
  end.

(** A device's poll: what it says of itself. *)
Record poll_params := PollParams {
  pp_device : string; pp_inst : string; pp_name : string; pp_delegation : bool; pp_scopedExec : bool }.

(** The instance a poll presents takes the name over from the one before. *)
Definition take_over (pp : poll_params) (a : httpAgent) : gset string * nat * string :=
  if String.eqb (pp_inst pp) "" then (ha_retired a, ha_changed a, ha_inst a)
  else if negb (String.eqb (ha_inst a) "") && negb (String.eqb (ha_inst a) (pp_inst pp))
  then ({[ha_inst a]} ∪ ha_retired a, S (ha_changed a), pp_inst pp)
  else (ha_retired a, ha_changed a, pp_inst pp).

Definition poll_agent (now : Z) (pp : poll_params) (a : httpAgent) : httpAgent :=
  let '(retired, changed, inst) := take_over pp a in
  HttpAgent (ha_ns a) (ha_device a) (pp_name pp) (ha_open a) now inst retired changed
    (pp_delegation pp) (pp_scopedExec pp) (ha_polls a + 1).

Definition agent_key (ns device : string) : string := (ns ++ "/" ++ device)%string.

(** What registering the device gave: a device id that is not the device's, a
    refusal, or success. *)
Inductive registration := BadId | Refusal | Registered.

Definition register_poll (now : Z) (key : string) (j : nat) (a : httpAgent) (pp : poll_params) (reg : registration)
    (enabled : bool) (r : relay) : (answer + nat * nat) * relay :=
  if negb (String.eqb (pp_inst pp) "") && bool_decide (pp_inst pp ∈ ha_retired a) then (inl (status 409), r)
  else match reg with
  | BadId => (inl (status 400), r)
  | Refusal => (inl (status 409), r)
  | Registered =>
      let a := poll_agent now pp a in
      let n := Nat.max (next_id r) (S j) in
      if enabled then (inr (j, ha_changed a), set_agents (<[key := j]> (hagents r)) (<[j := a]> (agents r)) n r)
      else (inl (status 403),
            set_agents (delete key (hagents r)) (<[j := set_polls (ha_polls a - 1) (ha_lastSeen a) a]> (agents r)) n r)
  end.

(** [handleHPoll] up to its wait; the right side is the agent's index and the
    generation of its [changed] channel.  [ns] is the agent's namespace, or the
    status it is refused with. *)
Definition handleHPoll_begin (now : Z) (ns : result Z string) (pp : poll_params) (reg : registration) (enabled : bool) (r : relay)
  : (answer + nat * nat) * relay :=
  match ns with
  | Err code => (inl (status code), r)
  | Ok ns =>
      if String.eqb (pp_device pp) "" then (inl (status 400), r)
      else if (255 <? slen (pp_inst pp))%nat then (inl (status 400), r)
      else
        let key := agent_key ns (pp_device pp) in
        match hagents r !! key ≫= (λ j, a ← agents r !! j; Some (j, a)) with
        | Some (j, a) => register_poll now key j a pp reg enabled r
        | None =>
            if (httpAgentsPerNS <=? countNamespaceAgentsLocked ns r)%nat then (inl (status 429), r)
            else register_poll now key (next_id r)
                   (HttpAgent ns (pp_device pp) "" [] 0 "" ∅ 0 false false 0) pp reg enabled r
        end
  end.

(** What ends the wait of a poll, and its answer; [None] when that cannot
    happen now, or when giving a job back waits for room. *)
Inductive poll_wake := WakeJob | WakeChanged | WakeTimeout | WakeLeft.

Definition poll_done (now : Z) (j : nat) (r : relay) : relay := on_agent j (λ a, set_polls (ha_polls a - 1) now a) r.

Definition take_job (key inst : string) (j : nat) (r : relay) : option (answer * relay) :=
  match ha_open <$> (agents r !! j) with
  | Some (o :: rest) =>
      let r := on_agent j (set_open rest) r in
      if httpAgentObsolete key inst r
      then match requeueHTTPJob key o r with Some r => Some (status 409, r) | None => None end
      else Some (OpenJob o,
                 match hsess r !! Auth.Session o with
                 | Some i => on_session i (set_taker key inst) r
                 | None => r
                 end)
  | _ => None
  end.

Definition handleHPoll_end (now : Z) (key inst : string) (j : nat) (w : poll_wake) (r : relay) : option (answer * relay) :=
  match match w with
        | WakeJob => take_job key inst j r
        | WakeChanged => Some (if httpAgentObsolete key inst r then status 409 else Silent, r)
        | WakeTimeout => Some (status 200, r)
        | WakeLeft => Some (Silent, r)
        end with
  | Some (ans, r) => Some (ans, poll_done now j r)
  | None => None
  end.

(** [agentServes] of delegation_auth.go. *)
Definition agentServes (a : Delegation.access) (delegationOK scopedOK : bool) : bool :=
  if negb (Delegation.Delegated a) then true
  else delegationOK && (String.eqb (Delegation.ac_ExecOnly a) "" || scopedOK).

Definition stamp (sid : string) (o : Auth.session_open) : Auth.session_open :=
  Auth.SessionOpen (Auth.Op o) sid (Auth.URL o) (Auth.CallerNamespace o) (Auth.OwnerNamespace o) (Auth.Device o)
    (Auth.Capabilities o) (Auth.GrantID o) (Auth.CredentialID o) (Auth.ControllerFingerprint o) (Auth.ExpiresAt o) (Auth.ExecOnly o).

(** [handleHDial]: [allowed] is the target's key and what the session is opened
    with, when the controller may dial it; [ToWebSocket] goes on as
    [handleHDialToWS]. *)
Inductive dial_result := DialAnswer (a : answer) | ToWebSocket (key : string) (o : Auth.session_open).

Definition handleHDial (now : Z) (auth : option Delegation.access) (allowed : option (string * Auth.session_open)) (sid : string)
    (active : bool) (r : relay) : dial_result * relay :=
  match auth with
  | None => (DialAnswer (status 401), r)
  | Some access =>
      match allowed with
      | None => (DialAnswer (status 403), r)
      | Some (key, o) =>
          match hagents r !! key ≫= (λ j, a ← agents r !! j; Some (j, a)) with
          | None => (ToWebSocket key o, r)
          | Some (j, a) =>
              if httpAgentTTL <? now - ha_lastSeen a then (ToWebSocket key o, r)
              else if negb (agentServes access (ha_delegation a) (ha_scopedExec a)) then (DialAnswer (status 409), r)
              else
                let o := stamp sid o in
                match newHTTPSession now sid o active r with
                | (Err _, r) => (DialAnswer (status 429), r)
                | (Ok _, r) =>
                    if (length (ha_open a) <? openCapacity)%nat
                    then (DialAnswer (Dialed sid), on_agent j (set_open (ha_open a ++ [o])) r)
                    else (DialAnswer (status 503), closeHTTPSession sid (hsess r !! sid) r)
                end
          end
      end
  end.

Definition deviceLive (now : Z) (ns device : string) (ws_live : bool) (r : relay) : bool :=
  match hagents r !! agent_key ns device ≫= λ j, agents r !! j with
  | Some a => (now - ha_lastSeen a <=? httpAgentTTL) || ws_live
  | None => ws_live
  end.

(** The second component: whether the device went off the registry. *)
Definition handleHDeregister (ns : option string) (device inst : string) (r : relay) : answer * bool * relay :=
  match ns with
  | None => (status 401, false, r)
  | Some ns =>
      let key := agent_key ns device in
      match hagents r !! key with
      | None => (status 200, false, r)
      | Some j =>
          let other := match agents r !! j with
                       | Some a => negb (String.eqb inst "") && negb (String.eqb (ha_inst a) "") && negb (String.eqb (ha_inst a) inst)
                       | None => false
                       end in
          if other then (status 200, false, r)
          else (status 200, true, set_agents (delete key (hagents r)) (agents r) (next_id r) r)
      end
  end.
End relay.

Arguments httpSession : clear implicits.
Arguments relay : clear implicits.
Arguments answer : clear implicits.
