(* ===== verification/SessionInv.v ===== *)
(** What holds of the relay's sessions however its handlers, its sweepers and
    the takes and writes of their directions interleave. *)

From S2P Require Import Prelude GoStrings Session Residency SideQueue Sessions.

Local Open Scope Z_scope.

Section registry.
Context {B : Type}.
Implicit Types (r : relay B) (q : sideQueue B) (s : httpSession B).

(** ** Nothing un-frees a direction *)

Lemma release_freed n sl q p q' p' : releaseLocked n sl q p = (q', p') → freed q' = freed q.
Proof. unfold releaseLocked. destruct (_ || _); by intros [= <- <-]. Qed.

Lemma keep_freed n u q p q' p' : keepLocked n u q p = (q', p') → freed q' = freed q.
Proof. apply release_freed. Qed.

Lemma try_freed n a w q p x y q' p' : tryReserve n a w q p = (x, y, q', p') → freed q' = freed q.
Proof.
  unfold tryReserve, reserveLocked. intros E. repeat case_match; simplify_eq; try done.
Qed.

Lemma admit_freed sq n w q p x q' p' : upload_admit sq n w q p = (x, q', p') → freed q' = freed q.
Proof.
  unfold upload_admit, reserveWrite, admitSeq. intros E.
  destruct (sq =? 0)%nat; [|destruct (_ || _); [by simplify_eq|destruct (_ <? _); [by simplify_eq|]]];
    destruct (tryReserve _ _ _ _ _) as [[[??]?]?] eqn:T; simplify_eq; by eapply try_freed.
Qed.

Lemma send_freed (b : list B) q : freed (send b q) = freed q.
Proof. unfold send. by destruct (_ =? _). Qed.

Lemma settle_freed fuel q : freed (settleHeld fuel q) = freed q.
Proof. revert q. induction fuel as [|f IH]; intros q; simpl; [done|]. destruct (_ !! _); [|done]. by rewrite IH, send_freed. Qed.

Lemma enqueue_freed b n q p c q' p' : enqueueLocked b n q p = (c, q', p') → freed q' = freed q.
Proof.
  unfold enqueueLocked. destruct (done q), (keepLocked _ _ _ _) eqn:K; intros [= <- <- <-]; rewrite ?send_freed; by eapply keep_freed.
Qed.

Lemma commit_freed sq n body q p x q' p' : upload_commit sq n body q p = (x, q', p') → freed q' = freed q.
Proof.
  unfold upload_commit, unreserve, enqueue. destruct body as [b|e].
  - destruct (sq =? 0)%nat.
    + destruct (enqueueLocked _ _ _ _) as [[c q1] p1] eqn:E. intros [= <- <- <-]. by eapply enqueue_freed.
    + unfold commitSeq. destruct (done q); [|destruct (_ || _); [|destruct (_ <? _)%nat]].
      1-3: destruct (keepLocked _ _ _ _) eqn:K; intros [= <- <- <-]; apply keep_freed in K; done.
      destruct (enqueueLocked _ _ _ _) as [[[] q1] p1] eqn:E; intros [= <- <- <-]; apply enqueue_freed in E; [|done].
      change (freed (settleHeld (S (size (seqHeld q1))) q1) = freed q). by rewrite settle_freed.
  - destruct (keepLocked _ _ _ _) eqn:K. intros [= <- <- <-]. by eapply keep_freed.
Qed.

Lemma append_freed lim (out b out' : list B) q q' : appendCapped lim out b q = (out', q') → freed q' = freed q.
Proof. unfold appendCapped. destruct (_ <? _)%nat; by intros [= <- <-]. Qed.

Lemma fill_freed fuel lim (out out' : list B) n n' q q' : fill fuel lim out n q = (out', n', q') → freed q' = freed q.
Proof.
  revert out n q. induction fuel as [|f IH]; intros out n q; simpl; [by intros [= <- <- <-]|].
  destruct (_ <? _); [|by intros [= <- <- <-]]. unfold drainRecv. destruct (ch q); [by intros [= <- <- <-]|].
  destruct (appendCapped _ _ _ _) eqn:A. apply append_freed in A. intros H%IH. by rewrite H, A.
Qed.

Lemma drain_freed lim q p out cl q' p' : drainUpTo lim q p = (out, cl, q', p') → freed q' = freed q.
Proof.
  unfold drainUpTo, drainHead. destruct (if 0 <? _ then _ else _) as [o q1] eqn:H.
  assert (freed q1 = freed q) as F by (destruct (0 <? _); [by apply append_freed in H|by simplify_eq]).
  destruct (fill _ _ _ _ _) as [[o2 t] q2] eqn:Fi. apply fill_freed in Fi.
  destruct (0 <? t); [destruct (releaseLocked _ _ _ _) eqn:R; apply release_freed in R|]; intros [= <- <- <- <-]; congruence.
Qed.

Lemma ack_freed ack q p q' p' : dropAcked ack q p = (q', p') → freed q' = freed q.
Proof. unfold dropAcked. intros H%release_freed. done. Qed.

Lemma take_freed plan q p x q' p' : poll_take plan q p = (x, q', p') → freed q' = freed q.
Proof.
  unfold poll_take, pollDrain, drain, takeUpTo, takeWindow. intros E.
  repeat (case_match; simplify_eq; try done);
    repeat match goal with
    | H : releaseLocked _ _ _ _ = _ |- _ => apply release_freed in H
    | H : dropAcked _ _ _ = _ |- _ => apply ack_freed in H
    | H : drainUpTo _ _ _ = _ |- _ => apply drain_freed in H
    end; simpl in *; congruence.
Qed.

Lemma free_freed q p q' p' : free q p = (q', p') → freed q' = true.
Proof. unfold free. simpl. destruct (freed q) eqn:F; by intros [= <- <-]. Qed.

Lemma free_op_freed q p (z : unit) q' p' : (let '(q, p) := free q p in (tt, q, p)) = (z, q', p') → freed q' = true.
Proof. destruct (free q p) as [q1 p1] eqn:F. apply free_freed in F. intros. by simplify_eq. Qed.

(** ** Operations that open nothing *)

Definition both_freed s : Prop := freed (toClient s) = true ∧ freed (toAgent s) = true.

Definition freed_at (i : nat) r : Prop := ∀ s, sessions r !! i = Some s → both_freed s.

(** No session is added, none changes its caller, and what leaves the registry
    has given back what it held. *)
Record shrinks r r' : Prop := Shrinks {
  sh_reg : hsess r' ⊆ hsess r;
  sh_dom : ∀ i, is_Some (sessions r' !! i) ↔ is_Some (sessions r !! i);
  sh_sess : ∀ i s s', sessions r !! i = Some s → sessions r' !! i = Some s' →
    callerNS s' = callerNS s ∧ (both_freed s → both_freed s');
  sh_gone : ∀ sid i, hsess r !! sid = Some i → hsess r' !! sid = None → freed_at i r';
  sh_const : maxSessions r' = maxSessions r ∧ portalNS r' = portalNS r ∧ (next_id r ≤ next_id r')%nat }.

Lemma shrinks_refl r : shrinks r r.
Proof. split; try done; [naive_solver|congruence]. Qed.

Lemma shrinks_trans r1 r2 r3 : shrinks r1 r2 → shrinks r2 r3 → shrinks r1 r3.
Proof.
  intros [R1 D1 S1 G1 (C1 & P1 & N1)] [R2 D2 S2 G2 (C2 & P2 & N2)]. split.
  - by etrans.
  - intros i. by rewrite D2, D1.
  - intros i s s' H H'. destruct (proj2 (D1 i)) as [s2 H2]; [eauto|].
    destruct (S1 _ _ _ H H2), (S2 _ _ _ H2 H'). split; [congruence|auto].
  - intros sid i H H3. destruct (hsess r2 !! sid) as [j|] eqn:H2.
    + apply (lookup_weaken _ _ _ _ H2) in R1. assert (j = i) as -> by congruence. by eapply G2.
    + intros s' Hs'. destruct (proj1 (D2 i)) as [s2 Hs2]; [eauto|]. eapply S2; [exact Hs2|exact Hs'|]. by eapply G1.
  - split_and!; [congruence|congruence|lia].
Qed.

#[export] Instance shrinks_preorder : PreOrder shrinks.
Proof. split; [intros r; apply shrinks_refl|intros r1 r2 r3; apply shrinks_trans]. Qed.

(** A change of objects only. *)
Lemma shrinks_objects m p r :
  (∀ i, is_Some (m !! i) ↔ is_Some (sessions r !! i)) →
  (∀ i s s', sessions r !! i = Some s → m !! i = Some s' → callerNS s' = callerNS s ∧ (both_freed s → both_freed s')) →
  shrinks r (set_sessions m p r).
Proof. intros D S. split; try done; simpl; congruence. Qed.

Lemma shrinks_on_session i f r :
  (∀ s, callerNS (f s) = callerNS s ∧ (both_freed s → both_freed (f s))) → shrinks r (on_session i f r).
Proof.
  intros F. apply shrinks_objects.
  - intros j. destruct (decide (i = j)) as [<-|N]; [rewrite lookup_alter_eq|by rewrite lookup_alter_ne].
    by destruct (sessions r !! i).
  - intros j s s' H H'. destruct (decide (i = j)) as [<-|N]; [rewrite lookup_alter_eq, H in H'|rewrite lookup_alter_ne in H' by done].
    + injection H' as <-. apply F.
    + by simplify_eq.
Qed.

Lemma shrinks_set_one i s s' p r :
  sessions r !! i = Some s → callerNS s' = callerNS s → (both_freed s → both_freed s') →
  shrinks r (set_sessions (<[i := s']> (sessions r)) p r).
Proof.
  intros H C F. apply shrinks_objects.
  - intros j. destruct (decide (i = j)) as [<-|N]; [|by rewrite lookup_insert_ne]. rewrite lookup_insert_eq, H. split; eauto.
  - intros j s1 s2 H1 H2. destruct (decide (i = j)) as [<-|N]; [rewrite lookup_insert_eq in H2|rewrite lookup_insert_ne in H2 by done]; by simplify_eq.
Qed.

Lemma shrinks_on_queue {X} i c (f : sideQueue B → residency → X * sideQueue B * residency) x r y r' :
  (∀ q p z q' p', f q p = (z, q', p') → freed q = true → freed q' = true) →
  on_queue i c f x r = (y, r') → shrinks r r'.
Proof.
  intros F. unfold on_queue. destruct (sessions r !! i) as [s|] eqn:H; [|intros [= <- <-]; apply shrinks_refl].
  destruct (f _ _) as [[z q] p] eqn:E. intros [= <- <-]. eapply shrinks_set_one; [exact H|by destruct c|].
  intros [F1 F2]. destruct c; split; simpl; try done; eapply F; eauto.
Qed.

Lemma shrinks_free i r : shrinks r (session_free i r) ∧ freed_at i (session_free i r).
Proof.
  unfold session_free, freed_at. destruct (sessions r !! i) as [s|] eqn:H; [|split; [apply shrinks_refl|congruence]].
  destruct (free (toClient s) _) as [c p] eqn:E1, (free (toAgent s) _) as [a p'] eqn:E2.
  apply free_freed in E1, E2. split; [by eapply shrinks_set_one|].
  intros s'. simpl. rewrite lookup_insert_eq. by intros [= <-].
Qed.

Lemma session_free_reg i r : hsess (session_free i r) = hsess r.
Proof. unfold session_free. destruct (sessions r !! i); [|done]. by do 2 destruct (free _ _). Qed.

Lemma unregister_reg sid i r : hsess (unregister sid i r) = if bool_decide (hsess r !! sid = Some i) then delete sid (hsess r) else hsess r.
Proof. unfold unregister. by case_bool_decide. Qed.

(** Dropping a name is in order once its session has been freed. *)
Lemma shrinks_retire sid i r : shrinks r (retire sid i r).
Proof.
  unfold retire, unregister. case_bool_decide as H; [|apply shrinks_free].
  destruct (shrinks_free i (set_hsess (delete sid (hsess r)) r)) as [[R D S G C] F]. split.
  - rewrite session_free_reg. simpl. apply delete_subseteq.
  - exact D.
  - exact S.
  - intros x j Hx. rewrite session_free_reg. simpl. destruct (decide (sid = x)) as [<-|N]; [|rewrite lookup_delete_ne by done; congruence].
    intros _. assert (j = i) as -> by congruence. exact F.
  - exact C.
Qed.

Lemma retire_reg sid i r : hsess (retire sid i r) = if bool_decide (hsess r !! sid = Some i) then delete sid (hsess r) else hsess r.
Proof. unfold retire. by rewrite session_free_reg, unregister_reg. Qed.

Lemma shrinks_close sid i r : shrinks r (closeHTTPSession sid i r).
Proof. destruct i as [i|]; simpl; [|apply shrinks_refl]. etrans; apply shrinks_retire. Qed.

Lemma shrinks_drained sid i r : shrinks r (releaseDrainedSession sid i r).
Proof.
  unfold releaseDrainedSession. destruct (sessions r !! i); [|apply shrinks_refl].
  destruct (_ || _); [apply shrinks_refl|]. destruct (_ && _); [|apply shrinks_refl]. etrans; apply shrinks_retire.
Qed.

Lemma shrinks_expire sid i g r : shrinks r (expireControllerDisconnect sid i g r).
Proof.
  unfold expireControllerDisconnect. destruct (sessions r !! i) as [s|] eqn:H; [|apply shrinks_refl].
  destruct (_ || _); [apply shrinks_refl|]. set (r1 := on_session _ _ r).
  assert (shrinks r r1) as S1 by (by apply shrinks_on_session).
  destruct (negb (bool_decide _) || _) eqn:E; [done|]. apply orb_false_iff in E as [E _]. bsplit.
  etrans; [exact S1|]. unfold closeHTTPSession, lease_close.
  assert (retire sid i (set_hsess (delete sid (hsess r1)) r1) = retire sid i r1) as ->.
  { unfold retire, unregister. rewrite (bool_decide_eq_true_2 (hsess r1 !! sid = Some i)) by done.
    rewrite bool_decide_eq_false_2; [done|]. simpl. by rewrite lookup_delete_eq. }
  etrans; apply shrinks_retire.
Qed.

Lemma shrinks_agents h m n r : (next_id r ≤ n)%nat → shrinks r (set_agents h m n r).
Proof. intros N. split; try done; simpl; [naive_solver|congruence]. Qed.

Lemma shrinks_access now sid a role r o r' : sessionForAccess now sid a role r = (o, r') → shrinks r r'.
Proof.
  unfold sessionForAccess. destruct (registered sid r) as [[i s]|]; [|by intros [= <- <-]].
  destruct (allowsAccess _ _ _); intros [= <- <-]; [|done]. by apply shrinks_on_session.
Qed.

Lemma shrinks_told i r x r' : writeSessionClosed i r = (x, r') → shrinks r r'.
Proof. intros [= <- <-]. by apply shrinks_on_session. Qed.

Lemma shrinks_up now auth sid role sp ok r x r' : handleHUp now auth sid role sp ok r = (x, r') → shrinks r r'.
Proof.
  unfold handleHUp. destruct auth as [a|]; [|by intros [= <- <-]].
  destruct (sessionForAccess _ _ _ _ _) as [[i|] r1] eqn:A; apply shrinks_access in A; [|by intros [= <- <-]].
  destruct ok; cbn [negb]; [|intros [= <- <-]; etrans; [exact A|apply (shrinks_close sid (Some i))]].
  destruct (gracefullyClosed i r1).
  - destruct (writeSessionClosed i r1) eqn:W. intros [= <- <-]. etrans; [exact A|by eapply shrinks_told].
  - destruct (seq_param sp); by intros [= <- <-].
Qed.

Lemma shrinks_poll_started sid i r n r' : controllerPollStarted sid i r = (n, r') → shrinks r r'.
Proof. unfold controllerPollStarted. case_bool_decide; intros [= <- <-]; [by apply shrinks_on_session|done]. Qed.

Lemma shrinks_poll_cancelled sid i g r : shrinks r (controllerPollCancelled sid i g r).
Proof. apply shrinks_on_session. intros s. destruct (_ || _ || _); [done|]. by destruct (disconnect s). Qed.

Lemma shrinks_down_begin now auth sid role ack mx want r x r' :
  handleHDown_begin now auth sid role ack mx want r = (x, r') → shrinks r r'.
Proof.
  unfold handleHDown_begin. destruct auth as [a|]; [|by intros [= <- <-]].
  destruct (sessionForAccess _ _ _ _ _) as [[i|] r1] eqn:A; apply shrinks_access in A; [|by intros [= <- <-]].
  destruct (if String.eqb role "agent" then _ else _) as [poll r2] eqn:P.
  assert (shrinks r r2) as S2.
  { destruct (String.eqb role "agent"); [by simplify_eq|]. apply shrinks_poll_started in P. by etrans. }
  destruct (plan_poll _ _ _); intros [= <- <-]; try done. etrans; [exact S2|apply shrinks_drained].
Qed.

Lemma shrinks_down_end now sid role i poll got left wanted ok r x r' :
  handleHDown_end now sid role i poll got left wanted ok r = (x, r') → shrinks r r'.
Proof.
  unfold handleHDown_end. match goal with |- (let (_, _) := ?e in _) = _ → _ => destruct e as [ans r1] eqn:E end. intros [= <- <-].
  etrans; [|apply shrinks_drained]. destruct (_ && _ && _ && _).
  { injection E as <- <-. apply shrinks_poll_cancelled. }
  destruct got as [rep|]; [|by simplify_eq]. destruct ok; cbn [negb] in E; [|injection E as <- <-; apply (shrinks_close sid (Some i))].
  destruct rep; [injection E as <- <-; by apply shrinks_on_session|by simplify_eq|by eapply shrinks_told|by simplify_eq].
Qed.

Lemma shrinks_close_end now sid role i tail r x r' : handleHClose_end now sid role i tail r = (x, r') → shrinks r r'.
Proof.
  unfold handleHClose_end. destruct (default (true, false, None) tail) as [[taken closed] ans]. destruct (_ && _); [by intros [= <- <-]|].
  destruct (on_queue _ _ _ _ _) as [u r1] eqn:Q. intros [= <- <-].
  etrans; [|apply shrinks_drained]. etrans; [|eapply shrinks_on_queue; [|exact Q]].
  - by apply shrinks_on_session.
  - intros q p z q' p' E _. exact (free_op_freed _ _ _ _ _ E).
Qed.

Lemma shrinks_end_gone now r i : shrinks r (end_gone now r i).
Proof.
  unfold end_gone. destruct (on_queue i false _ _ _) as [u r1] eqn:Q1, (on_queue i true _ _ r1) as [u' r2] eqn:Q2.
  etrans; [|eapply shrinks_on_queue; [|exact Q2]; intros; by simplify_eq/=].
  etrans; [|eapply shrinks_on_queue; [|exact Q1]].
  - by apply shrinks_on_session.
  - intros q p z q' p' E _. exact (free_op_freed _ _ _ _ _ E).
Qed.

Lemma shrinks_foldl {X} (f : relay B → X → relay B) l r : (∀ r x, shrinks r (f r x)) → shrinks r (foldl f r l).
Proof. intros F. revert r. induction l as [|x l IH]; intros r; simpl; [done|]. etrans; [apply F|apply IH]. Qed.

Lemma shrinks_reap now r l o r' : reapHTTP now r = (l, o, r') → shrinks r r'.
Proof.
  unfold reapHTTP. set (r1 := set_agents _ _ _ r). set (r2 := foldl _ r1 _).
  destruct (report _ _ _) as [line p]. intros [= <- <- <-].
  assert (shrinks r r2) as S.
  { etrans; [by apply shrinks_agents|]. apply shrinks_foldl. intros r0 [sid i]. etrans; apply shrinks_retire. }
  etrans; [exact S|]. by apply shrinks_objects; [|intros; simplify_eq].
Qed.

Lemma shrinks_register now key j a pp reg en r x r' :
  register_poll now key j a pp reg en r = (x, r') → shrinks r r'.
Proof.
  unfold register_poll. destruct (_ && _); [by intros [= <- <-]|]. destruct reg; try by intros [= <- <-].
  destruct en; intros [= <- <-]; apply shrinks_agents; lia.
Qed.

Lemma shrinks_hpoll now ns pp reg en r x r' : handleHPoll_begin now ns pp reg en r = (x, r') → shrinks r r'.
Proof.
  unfold handleHPoll_begin. destruct ns as [ns|]; [|by intros [= <- <-]]. destruct (String.eqb _ _); [by intros [= <- <-]|].
  destruct (_ <? _)%nat; [by intros [= <- <-]|]. destruct (_ ≫= _) as [[j a]|]; [apply shrinks_register|].
  destruct (_ <=? _)%nat; [by intros [= <- <-]|apply shrinks_register].
Qed.

Lemma shrinks_hpoll_end now key inst j w r x r' : handleHPoll_end now key inst j w r = Some (x, r') → shrinks r r'.
Proof.
  unfold handleHPoll_end. destruct (match w with WakeJob => _ | _ => _ end) as [[ans r1]|] eqn:E; [|done]. intros [= <- <-].
  etrans; [|by apply shrinks_agents]. destruct w; try by simplify_eq.
  unfold take_job in E. destruct (ha_open <$> _) as [[|o rest]|]; try done.
  set (r0 := on_agent j (set_open rest) r) in *. assert (shrinks r r0) as S0 by (by apply shrinks_agents).
  destruct (httpAgentObsolete _ _ _).
  - unfold requeueHTTPJob in E. etrans; [exact S0|]. repeat case_match; simplify_eq; try done; by apply shrinks_agents.
  - injection E as <- <-. etrans; [exact S0|]. destruct (hsess r !! Auth.Session o); [by apply shrinks_on_session|done].
Qed.

Lemma shrinks_deregister ns device inst r x b r' : handleHDeregister ns device inst r = (x, b, r') → shrinks r r'.
Proof.
  unfold handleHDeregister. destruct ns; [|by intros [= <- <- <-]]. destruct (hagents r !! _); [|by intros [= <- <- <-]].
  destruct (match agents r !! _ with Some _ => _ | None => _ end); intros [= <- <- <-]; [done|]. by apply shrinks_agents.
Qed.

Lemma shrinks_drainable now sid i r : shrinks r (closeHTTPSessionDrainable now sid i r).
Proof.
  destruct i as [i|]; [|apply shrinks_refl]. simpl. etrans; [|apply shrinks_drained].
  etrans; [|by apply shrinks_on_session]. case_bool_decide; [|done]. apply shrinks_on_session. intros s. by destruct (is_zero _).
Qed.

(** ** The registry's invariant *)

Record registry_ok r : Prop := RegistryOk {
  ro_ids : ∀ i, is_Some (sessions r !! i) → (i < next_id r)%nat;
  ro_reg : ∀ sid i, hsess r !! sid = Some i → is_Some (sessions r !! i);
  ro_inj : ∀ sid sid' i, hsess r !! sid = Some i → hsess r !! sid' = Some i → sid = sid';
  ro_freed : ∀ i, (∀ sid, hsess r !! sid ≠ Some i) → freed_at i r;
  ro_total : (size (hsess r) ≤ maxSessions r)%nat;
  ro_ns : ∀ ns, ns ≠ ""%string → ns ≠ portalNS r → (countNamespaceSessionsLocked ns r ≤ httpSessionsPerNS)%nat }.

Lemma count_mono ns r r' :
  hsess r' ⊆ hsess r →
  (∀ sid i, hsess r' !! sid = Some i → callerNS <$> (sessions r' !! i) = callerNS <$> (sessions r !! i)) →
  (countNamespaceSessionsLocked ns r' ≤ countNamespaceSessionsLocked ns r)%nat.
Proof.
  intros S C. unfold countNamespaceSessionsLocked. apply map_subseteq_size, map_filter_strong_subseteq_ext.
  intros sid i [P H]. simpl in *. split; [|by eapply lookup_weaken]. by rewrite <- (C _ _ H).
Qed.

Lemma shrinks_ok r r' : registry_ok r → shrinks r r' → registry_ok r'.
Proof.
  intros [Id Rg In Fr To Ns] [R D S G (C & P & N)]. split.
  - intros i H%D%Id. lia.
  - intros sid i H. apply D, Rg with sid. by eapply lookup_weaken.
  - intros sid sid' i H H'. eapply In; by eapply lookup_weaken.
  - intros i U s' Hs'. destruct (proj1 (D i)) as [s Hs]; [eauto|].
    destruct (decide (map_Exists (λ _ j, j = i) (hsess r))) as [(sid & j & H & ->)|NE].
    + destruct (hsess r' !! sid) as [j|] eqn:H'; [|by eapply G].
      apply (lookup_weaken _ _ _ _ H') in R. exfalso. eapply U. rewrite H'. congruence.
    + eapply S; [exact Hs|exact Hs'|]. apply (Fr i); [|done]. intros sid H. apply NE. by exists sid, i.
  - rewrite C. etrans; [by apply map_subseteq_size|done].
  - intros ns N1 N2. rewrite P in N2. etrans; [|by apply (Ns ns)]. apply count_mono; [done|].
    intros sid i H'. pose proof (lookup_weaken _ _ _ _ H' R) as H. destruct (Rg _ _ H) as [s Hs].
    destruct (proj2 (D i)) as [s' Hs']; [eauto|]. rewrite Hs, Hs'. simpl. f_equal. by eapply S.
Qed.

(** A new object, not in the registry and holding nothing, or in it while
    there is room. *)
Definition add_session (s : httpSession B) p (reg : gmap string nat) r : relay B :=
  Relay (hagents r) (agents r) reg (<[next_id r := s]> (sessions r)) p (maxSessions r) (portalNS r) (S (next_id r)).

Lemma fresh_session r : registry_ok r → sessions r !! next_id r = None.
Proof. intros OK. destruct (sessions r !! next_id r) eqn:E; [|done]. exfalso. pose proof (ro_ids r OK (next_id r) (mk_is_Some _ _ E)). lia. Qed.

Lemma registered_old r sid i : registry_ok r → hsess r !! sid = Some i → i ≠ next_id r.
Proof. intros OK H ->. pose proof (ro_reg r OK _ _ H) as [? E]. by rewrite fresh_session in E. Qed.

Lemma count_added s p r ns : registry_ok r →
  countNamespaceSessionsLocked ns (add_session s p (hsess r) r) = countNamespaceSessionsLocked ns r.
Proof.
  intros OK. apply Nat.le_antisymm; apply count_mono; simpl; try done; intros sid i H;
    rewrite lookup_insert_ne; try done; apply not_eq_sym; by eapply registered_old.
Qed.

Lemma add_freed_ok s p r : registry_ok r → both_freed s → registry_ok (add_session s p (hsess r) r).
Proof.
  intros OK F. pose proof OK as [Id Rg In Fr To Ns]. split; simpl; try done.
  - intros i. destruct (decide (next_id r = i)) as [<-|N]; [lia|]. rewrite lookup_insert_ne by done. intros H%Id. lia.
  - intros sid i H. destruct (decide (next_id r = i)) as [<-|N]; [rewrite lookup_insert_eq; eauto|]. rewrite lookup_insert_ne by done. eauto.
  - intros i U s' H. simpl in H. destruct (decide (next_id r = i)) as [<-|N]; [rewrite lookup_insert_eq in H; by simplify_eq|].
    rewrite lookup_insert_ne in H by done. by apply (Fr i).
  - intros ns N1 N2. rewrite count_added by done. by apply Ns.
Qed.

Lemma add_registered_ok sid s p r :
  registry_ok r → hsess r !! sid = None → (size (hsess r) < maxSessions r)%nat →
  (callerNS s ≠ ""%string → callerNS s ≠ portalNS r → (countNamespaceSessionsLocked (callerNS s) r < httpSessionsPerNS)%nat) →
  registry_ok (add_session s p (<[sid := next_id r]> (hsess r)) r).
Proof.
  intros OK Fresh Room Share. pose proof OK as [Id Rg In Fr To Ns]. split; simpl.
  - intros i. destruct (decide (next_id r = i)) as [<-|N]; [lia|]. rewrite lookup_insert_ne by done. intros H%Id. lia.
  - intros x i. destruct (decide (next_id r = i)) as [<-|N]; [rewrite lookup_insert_eq; eauto|]. rewrite (lookup_insert_ne (sessions r)) by done.
    destruct (decide (sid = x)) as [<-|N']; [rewrite lookup_insert_eq; congruence|]. rewrite lookup_insert_ne by done. eauto.
  - intros x y i. destruct (decide (sid = x)) as [<-|Nx], (decide (sid = y)) as [<-|Ny]; rewrite ?lookup_insert_eq, ?lookup_insert_ne by done; try done.
    + intros [= <-] H. by apply registered_old in H.
    + intros H [= <-]. by apply registered_old in H.
    + eauto.
  - intros i U s' H. simpl in *. destruct (decide (next_id r = i)) as [<-|N]; [by specialize (U sid); rewrite lookup_insert_eq in U|].
    rewrite lookup_insert_ne in H by done. apply (Fr i); [|done]. intros x Hx. apply (U x). rewrite lookup_insert_ne; congruence.
  - rewrite map_size_insert, Fresh. lia.
  - intros ns N1 N2. specialize (Ns ns N1 N2). rewrite <- (count_added s p r ns OK) in Ns. unfold countNamespaceSessionsLocked in *. simpl in *.
    rewrite map_filter_insert. case_decide as Q.
    + simpl in Q. rewrite lookup_insert_eq in Q. injection Q as <-. rewrite map_size_insert_None; [|by rewrite map_lookup_filter_None; left].
      specialize (Share N1 N2). pose proof (count_added s p r (callerNS s) OK) as E. unfold countNamespaceSessionsLocked in *. simpl in E. lia.
    + by rewrite delete_id.
Qed.

(** A refused session is freed before anyone has seen it. *)
Lemma refused_ok s p r : registry_ok r → registry_ok (session_free (next_id r) (add_session s p (hsess r) r)).
Proof.
  intros OK. unfold session_free. simpl. rewrite lookup_insert_eq.
  destruct (free (toClient s) p) as [c p1] eqn:E1, (free (toAgent s) p1) as [a p2] eqn:E2. apply free_freed in E1, E2.
  unfold set_sessions. simpl. rewrite insert_insert_eq. by apply (add_freed_ok (set_queues c a s) p2).
Qed.

Lemma new_ok now sid auth active r x r' :
  registry_ok r → hsess r !! sid = None → newHTTPSession now sid auth active r = (x, r') → registry_ok r'.
Proof.
  intros OK Fresh. unfold newHTTPSession. set (ns := if _ && _ then _ else _).
  destruct (attach ns newSideQueue (pool r)) as [c p], (attach ns newSideQueue p) as [a p'].
  set (s := HttpSession _ _ _ _ _ _ _ _ _ _ _ _ _ _ _). change (Relay _ _ _ _ _ _ _ _) with (add_session s p' (hsess r) r).
  destruct (Nat.leb_spec (maxSessions r) (size (hsess r))) as [|Room]; [intros [= <- <-]; by apply refused_ok|].
  destruct (negb (String.eqb ns "") && _) eqn:C; [intros [= <- <-]; by apply refused_ok|].
  assert (registry_ok (add_session s p' (<[sid := next_id r]> (hsess r)) r)) as OK'.
  { apply add_registered_ok; try done. simpl. intros N1 N2. unfold ns in C.
    destruct (String.eqb_spec (Auth.CallerNamespace auth) (portalNS r)); [done|]. rewrite andb_false_r in C.
    apply String.eqb_neq in N1. rewrite N1 in C. cbn [negb andb] in C. by apply Nat.leb_gt in C. }
  destruct active; intros [= <- <-]; [exact OK'|]. eapply shrinks_ok; [exact OK'|apply (shrinks_retire sid (next_id r))].
Qed.

Lemma dial_ok now auth allowed sid active r x r' :
  registry_ok r → hsess r !! sid = None → handleHDial now auth allowed sid active r = (x, r') → registry_ok r'.
Proof.
  intros OK Fresh. unfold handleHDial. destruct auth as [a|]; [|by intros [= <- <-]].
  destruct allowed as [[key o]|]; [|by intros [= <- <-]]. destruct (_ ≫= _) as [[j ag]|]; [|by intros [= <- <-]].
  destruct (_ <? _); [by intros [= <- <-]|]. destruct (negb _); [by intros [= <- <-]|].
  destruct (newHTTPSession _ _ _ _ _) as [[i|e] r1] eqn:E; apply new_ok in E; try done; [|by intros [= <- <-]].
  destruct (_ <? _)%nat; intros [= <- <-]; (eapply shrinks_ok; [exact E|]); [by apply shrinks_agents|apply shrinks_close].
Qed.

(** One handler, one part of a handler, one critical section of a direction, or
    one sweep.  A new session's id is fresh, as 128 random bits are. *)
Inductive relay_step : relay B → relay B → Prop :=
| RS_dial now auth allowed sid active r x r' :
    hsess r !! sid = None → handleHDial now auth allowed sid active r = (x, r') → relay_step r r'
| RS_new now sid auth active r x r' :
    hsess r !! sid = None → newHTTPSession now sid auth active r = (x, r') → relay_step r r'
| RS_up now auth sid role sp ok r x r' : handleHUp now auth sid role sp ok r = (x, r') → relay_step r r'
| RS_admit i c sq n w d r x r' : on_queue i c (upload_admit sq n w) d r = (x, r') → relay_step r r'
| RS_commit i c sq n body d r x r' : on_queue i c (upload_commit sq n body) d r = (x, r') → relay_step r r'
| RS_down now auth sid role ack mx want r x r' : handleHDown_begin now auth sid role ack mx want r = (x, r') → relay_step r r'
| RS_take i c plan d r x r' : on_queue i c (poll_take plan) d r = (x, r') → relay_step r r'
| RS_served now sid role i poll got left wanted ok r x r' :
    handleHDown_end now sid role i poll got left wanted ok r = (x, r') → relay_step r r'
| RS_hclose now sid role i tail r x r' : handleHClose_end now sid role i tail r = (x, r') → relay_step r r'
| RS_drainable now sid i r : relay_step r (closeHTTPSessionDrainable now sid i r)
| RS_close sid i r : relay_step r (closeHTTPSession sid i r)
| RS_timer sid i g r : relay_step r (expireControllerDisconnect sid i g r)
| RS_gone now r : relay_step r (endSessionsOfGoneAgents now r)
| RS_reap now r l o r' : reapHTTP now r = (l, o, r') → relay_step r r'
| RS_poll now ns pp reg en r x r' : handleHPoll_begin now ns pp reg en r = (x, r') → relay_step r r'
| RS_polled now key inst j w r x r' : handleHPoll_end now key inst j w r = Some (x, r') → relay_step r r'
| RS_deregister ns device inst r x b r' : handleHDeregister ns device inst r = (x, b, r') → relay_step r r'.

Definition relay_init max portal now r : Prop := r = Relay ∅ ∅ ∅ ∅ (newResidency now) max portal 0.

Lemma step_registry r r' : registry_ok r → relay_step r r' → registry_ok r'.
Proof.
  intros OK S. destruct S; try (eapply dial_ok; eassumption); try (eapply new_ok; eassumption); (eapply shrinks_ok; [exact OK|]).
  - by eapply shrinks_up.
  - eapply shrinks_on_queue; [|eassumption]. by intros ? ? ? ? ? ->%admit_freed.
  - eapply shrinks_on_queue; [|eassumption]. by intros ? ? ? ? ? ->%commit_freed.
  - by eapply shrinks_down_begin.
  - eapply shrinks_on_queue; [|eassumption]. by intros ? ? ? ? ? ->%take_freed.
  - by eapply shrinks_down_end.
  - by eapply shrinks_close_end.
  - apply shrinks_drainable.
  - apply shrinks_close.
  - apply shrinks_expire.
  - apply shrinks_foldl. intros; apply shrinks_end_gone.
  - by eapply shrinks_reap.
  - by eapply shrinks_hpoll.
  - by eapply shrinks_hpoll_end.
  - by eapply shrinks_deregister.
Qed.

Lemma init_registry max portal now r : relay_init max portal now r → registry_ok r.
Proof.
  intros ->. split; simpl; try done.
  - intros i [s H]. by rewrite lookup_empty in H.
  - rewrite map_size_empty. lia.
  - intros ns _ _. unfold countNamespaceSessionsLocked. simpl. rewrite map_filter_empty, map_size_empty. lia.
Qed.

(** The relay's sessions are bounded and hold no memory once they are gone.
    Whatever the handlers, sweeps, writes and takes do and in whatever order,
    the relay never holds more than [maxSessions] sessions, and never more than
    [httpSessionsPerNS] that one namespace dialed (the portal's apart); a name
    stands for one session; and a session no name stands for any more has given
    back everything both its directions held. *)
Lemma sessions_bounded max portal now r :
  reachable (relay_init max portal now) relay_step r →
  (size (hsess r) ≤ maxSessions r)%nat ∧
  (∀ ns, ns ≠ ""%string → ns ≠ portalNS r → (countNamespaceSessionsLocked ns r ≤ httpSessionsPerNS)%nat) ∧
  (∀ sid sid' i, hsess r !! sid = Some i → hsess r !! sid' = Some i → sid = sid') ∧
  (∀ i s, sessions r !! i = Some s → (∀ sid, hsess r !! sid ≠ Some i) →
     freed (toClient s) = true ∧ freed (toAgent s) = true).
Proof.
  intros R. assert (registry_ok r) as OK.
  { revert r R. apply invariant_reachable; [apply init_registry|intros r r'; apply step_registry]. }
  destruct OK. split_and!; eauto. intros i s H U. by eapply ro_freed0.
Qed.
End registry.

Lemma sessions_bounded_witness :
  let r0 : relay bool := Relay ∅ ∅ ∅ ∅ (newResidency 5) 1 "" 0 in
  let o := Auth.SessionOpen "open" "s1" "" "alice" "bob" "box" Auth.Exec "" "" "" 0 "" in
  let r := (newHTTPSession 7 "s1" o true r0).2 in
  (newHTTPSession 8 "s2" o true r).1 = Err ErrRelaySessions ∧ (size (hsess r) ≤ maxSessions r)%nat.
Proof.
  intros r0 o r. split; [vm_compute; reflexivity|].
  refine (proj1 (sessions_bounded 1 "" 5 r _)). eapply reachable_step; [by apply reachable_init|].
  eapply (RS_new 7 "s1" o true r0); [reflexivity|apply surjective_pairing].
Defined.
