(* ===== verification/SessionFate.v ===== *)
(** Who may touch a session of the relay, what a close leaves to its far side,
    and which sessions the sweep drops. *)

From S2P Require Import Prelude GoStrings Session Residency SideQueue Sessions SessionInv.

Local Open Scope Z_scope.

Section fate.
Context {B : Type}.
Implicit Types (r : relay B) (q : sideQueue B) (s : httpSession B).

(** ** Parties *)

(** A party of the session, in a role. *)
Definition party (a : Delegation.access) s (role : string) : Prop :=
  (Delegation.ac_Namespace a = callerNS s ∨ Delegation.ac_Namespace a = ownerNS s) ∧
  (Delegation.Delegated a = true →
     Delegation.ac_Namespace a = callerNS s ∧ Delegation.ac_CredentialID a = credentialID s ∧
     credentialID s ≠ ""%string ∧ writes_client role = false).

Lemma allowsAccess_party s a role : allowsAccess s a role = true → party a s role.
Proof.
  unfold allowsAccess, party, writes_client. destruct (Delegation.Delegated a).
  - intros E. ssplit. split; [by left|]. intros _. split_and!; try done.
    match goal with H : _ || _ = true |- _ => apply orb_true_iff in H as [R|R]; apply String.eqb_eq in R as -> end; done.
  - intros E. split; [|done]. apply orb_true_iff in E as [E|E]; apply String.eqb_eq in E; auto.
Qed.

Lemma access_spec now sid a role r o r' :
  sessionForAccess now sid a role r = (o, r') →
  match o with
  | Some i => ∃ s, registered sid r = Some (i, s) ∧ allowsAccess s a role = true ∧ r' = on_session i (touch now role) r
  | None => r' = r ∧ ∀ i s, registered sid r = Some (i, s) → allowsAccess s a role = false
  end.
Proof.
  unfold sessionForAccess. destruct (registered sid r) as [[i s]|] eqn:R; [|intros [= <- <-]; split; [done|congruence]].
  destruct (allowsAccess s a role) eqn:A; intros [= <- <-]; [eauto|]. split; [done|]. intros ? ? [= <- <-]. done.
Qed.

Lemma registered_session sid r i s : registered sid r = Some (i, s) → hsess r !! sid = Some i ∧ sessions r !! i = Some s.
Proof. unfold registered. destruct (hsess r !! sid) as [j|]; [|done]. destruct (sessions r !! j) eqn:E; [|done]. by intros [= <- <-]. Qed.

(** A session belongs to the two accounts it was opened between.  A
    credential of neither, and a delegated one of another grant or in the
    agent's role, gets 404 from every handler and changes nothing; what a
    handler goes on with is the session of that name, for one of its parties;
    a delegated credential writes only toward the agent; and nothing is written
    to a session that has been closed. *)
Lemma session_parties now a sid role seqp ack mx want ok r :
  ((∀ i s, registered sid r = Some (i, s) → allowsAccess s a role = false) →
     handleHUp now (Some a) sid role seqp ok r = (inl (status 404), r) ∧
     handleHDown_begin now (Some a) sid role ack mx want r = (inl (status 404), r) ∧
     handleHClose_begin (Some a) sid role seqp r = inl (status 404)) ∧
  (∀ i client sq r', handleHUp now (Some a) sid role seqp ok r = (inr (i, client, sq), r') →
     ∃ s, registered sid r = Some (i, s) ∧ party a s role ∧ client = writes_client role ∧ closedAt s = 0 ∧ ok = true) ∧
  (∀ i poll plan r', handleHDown_begin now (Some a) sid role ack mx want r = (inr (i, poll, plan), r') →
     ∃ s, registered sid r = Some (i, s) ∧ party a s role) ∧
  (∀ i client sq, handleHClose_begin (Some a) sid role seqp r = inr (i, client, sq) →
     ∃ s, registered sid r = Some (i, s) ∧ party a s role).
Proof.
  split; [|split; [|split]].
  - intros N. unfold handleHUp, handleHDown_begin, handleHClose_begin.
    destruct (sessionForAccess now sid a role r) as [[i|] r1] eqn:A; apply access_spec in A.
    + destruct A as (s & R & Al & _). by rewrite (N _ _ R) in Al.
    + destruct A as [-> _]. split_and!; try done. destruct (registered sid r) as [[i s]|]; [|done]. by rewrite (N i s).
  - intros i client sq r'. unfold handleHUp.
    destruct (sessionForAccess now sid a role r) as [[j|] r1] eqn:A; apply access_spec in A; [|done].
    destruct A as (s & R & Al & ->). destruct ok; cbn [negb]; [|done].
    destruct (gracefullyClosed _ _) eqn:G; [done|]. destruct (seq_param seqp); [|done]. intros [= <- <- <- <-].
    exists s. split_and!; try done; [by apply allowsAccess_party|]. unfold gracefullyClosed in G.
    apply registered_session in R as [_ R]. simpl in G. rewrite lookup_alter_eq, R in G. cbn in G. unfold is_zero in G. by bsplit.
  - intros i poll plan r'. unfold handleHDown_begin.
    destruct (sessionForAccess now sid a role r) as [[j|] r1] eqn:A; apply access_spec in A; [|done].
    destruct A as (s & R & Al & _). destruct (if String.eqb role "agent" then _ else _) as [pl r2].
    destruct (plan_poll _ _ _); intros E; simplify_eq; (exists s; split; [done|by apply allowsAccess_party]).
  - intros i client sq. unfold handleHClose_begin. destruct (registered sid r) as [[j s]|]; [|done].
    destruct (allowsAccess s a role) eqn:Al; [|done]. destruct (seq_param seqp); [|done]. intros [= <- <- <-].
    exists s. split; [done|by apply allowsAccess_party].
Qed.

(** ** Closing *)

Lemma retire_lookup sid i r x :
  hsess (retire sid i r) !! x = if bool_decide (x = sid ∧ hsess r !! sid = Some i) then None else hsess r !! x.
Proof.
  rewrite retire_reg. repeat case_bool_decide; try naive_solver.
  - destruct H0 as [-> _]. by rewrite lookup_delete_eq.
  - rewrite lookup_delete_ne; [done|]. naive_solver.
Qed.

Lemma drained_spec sid i r :
  releaseDrainedSession sid i r = r ∨
  ∃ s, sessions r !! i = Some s ∧ hsess r !! sid = Some i ∧ settled (toClient s) = true ∧ settled (toAgent s) = true ∧
    closedAt s ≠ 0 ∧ (endReason s = ""%string ∨ endTold s = true) ∧ hsess (releaseDrainedSession sid i r) !! sid = None.
Proof.
  unfold releaseDrainedSession. destruct (sessions r !! i) as [s|] eqn:H; [|by left].
  destruct (_ || _) eqn:S; [by left|]. destruct (negb (is_zero _) && _ && _) eqn:C; [|by left]. right. exists s.
  apply andb_true_iff in C as [C T]. unfold is_zero in C. bsplit. split_and!; try done.
  - apply orb_true_iff in T as [T|T]; [left; by apply String.eqb_eq|by right].
  - unfold lease_close. rewrite !retire_lookup. repeat case_bool_decide; naive_solver.
Qed.

(** The direction a closing side leaves for the other to read, and its own. *)
Definition far (role : string) s : sideQueue B := if String.eqb role "agent" then toClient s else toAgent s.
Definition near (role : string) s : sideQueue B := if String.eqb role "agent" then toAgent s else toClient s.

Lemma close_state now role i s r :
  sessions r !! i = Some s →
  ∃ s' p, (on_queue i (negb (String.eqb role "agent")) (λ q p, let '(q, p) := free q p in (tt, q, p)) tt
      (on_session i (λ s, session_close (set_end now (endReason s) (endTold s) s)) r)).2
    = set_sessions (<[i := s']> (sessions r)) p r ∧
    far role s' = close (far role s) ∧ freed (near role s') = true ∧ closedAt s' = now ∧ endReason s' = endReason s ∧ endTold s' = endTold s.
Proof.
  intros H. unfold on_queue. simpl. rewrite lookup_alter_eq, H. simpl. unfold far, near.
  destruct (String.eqb role "agent"); simpl;
    match goal with |- context [free ?q ?p] => destruct (free q p) as [q' p'] eqn:F end; apply free_freed in F;
    (eexists _, _; split; [unfold set_sessions, on_session; simpl; f_equal; apply map_eq; intros j;
       destruct (decide (i = j)) as [<-|N]; [by rewrite !lookup_insert_eq|by rewrite !lookup_insert_ne, lookup_alter_ne]|]); done.
Qed.

(** A graceful close loses nothing the far side has still to read.  The
    close is accepted; the side that closed gives back what was left for it;
    and the other direction stays as it was, only closed, under the session's
    name, unless nothing is left in it.  A session leaves the registry drained
    only once both its directions have been closed and taken whole, and one the
    relay ended itself only after that has been told. *)
Lemma close_keeps_backlog now sid role i s r ans r' :
  registered sid r = Some (i, s) → handleHClose_end now sid role i None r = (ans, r') →
  ans = status 200 ∧
  ((∃ s', registered sid r' = Some (i, s') ∧ closedAt s' = now ∧ far role s' = close (far role s) ∧ freed (near role s') = true) ∨
   hsess r' !! sid = None ∧ settled (close (far role s)) = true) ∧
  (∀ r0 i0 s0, hsess r0 !! sid = Some i0 → sessions r0 !! i0 = Some s0 → hsess (releaseDrainedSession sid i0 r0) !! sid = None →
     settled (toClient s0) = true ∧ settled (toAgent s0) = true ∧ closedAt s0 ≠ 0 ∧ (endReason s0 ≠ ""%string → endTold s0 = true)).
Proof.
  intros R E. apply registered_session in R as [R H]. unfold handleHClose_end in E. cbn [default negb andb] in E.
  destruct (close_state now role i s r H) as (s' & p & Q & F & N & C & _ & _).
  destruct (on_queue _ _ _ _ _) as [u r1]. simpl in Q. subst r1. injection E as <- <-. split; [done|]. split.
  - set (r1 := set_sessions _ p r). assert (registered sid r1 = Some (i, s')) as R1.
    { unfold registered, r1. simpl. by rewrite R, lookup_insert_eq. }
    destruct (drained_spec sid i r1) as [->|(s1 & H1 & _ & S1 & S2 & _ & _ & D)]; [left; eauto|right]. split; [done|].
    apply registered_session in R1 as [_ R1]. assert (s1 = s') as -> by congruence. rewrite <- F. unfold far. by destruct (String.eqb _ _).
  - intros r0 i0 s0 H0 S0 D. destruct (drained_spec sid i0 r0) as [Eq|(s1 & H1 & _ & S1 & S2 & C1 & T & _)]; [rewrite Eq in D; congruence|].
    assert (s1 = s0) as -> by congruence. split_and!; try done. intros NE. by destruct T.
Qed.

(** ** The sweep *)

Definition reap_one r (kv : string * nat) : relay B := lease_close kv.1 kv.2 (retire kv.1 kv.2 r).

Lemma reap_one_reg r kv x :
  hsess (reap_one r kv) !! x = if bool_decide (x = kv.1 ∧ hsess r !! kv.1 = Some kv.2) then None else hsess r !! x.
Proof.
  unfold reap_one, lease_close. rewrite !retire_lookup. repeat case_bool_decide; naive_solver.
Qed.

Lemma free_sessions i j r : j ≠ i → sessions (session_free i r) !! j = sessions r !! j.
Proof.
  intros N. unfold session_free. destruct (sessions r !! i); [|done]. do 2 destruct (free _ _). simpl. by rewrite lookup_insert_ne.
Qed.

Lemma reap_one_other r kv j : j ≠ kv.2 → sessions (reap_one r kv) !! j = sessions r !! j.
Proof.
  intros N. unfold reap_one, lease_close, retire, unregister. rewrite free_sessions by done.
  case_bool_decide; simpl; rewrite free_sessions by done; by case_bool_decide.
Qed.

Lemma reap_all l r :
  (∀ kv, kv ∈ l → hsess r !! kv.1 = Some kv.2) → NoDup l.*1 →
  (∀ x, hsess (foldl reap_one r l) !! x = if bool_decide (x ∈ l.*1) then None else hsess r !! x) ∧
  (∀ j, j ∉ l.*2 → sessions (foldl reap_one r l) !! j = sessions r !! j).
Proof.
  revert r. induction l as [|kv l IH]; intros r M ND.
  { split; [intros x; by rewrite bool_decide_eq_false_2 by apply not_elem_of_nil|done]. }
  rewrite fmap_cons in ND. cbn [foldl]. rewrite !fmap_cons.
  apply NoDup_cons in ND as [NI ND]. pose proof (M kv ltac:(by left)) as Hk.
  destruct (IH (reap_one r kv)) as [I1 I2]; [|done|].
  - intros kv' H'. rewrite reap_one_reg, bool_decide_eq_false_2; [apply M; by right|].
    intros [E _]. apply NI. rewrite <- E. apply list_elem_of_fmap. eauto.
  - split.
    + intros x. rewrite I1, reap_one_reg. destruct (decide (x ∈ l.*1)) as [X|X].
      * rewrite !bool_decide_eq_true_2; [done|by apply elem_of_cons; right|done].
      * rewrite (bool_decide_eq_false_2 (x ∈ l.*1)) by done. destruct (decide (x = kv.1)) as [->|N].
        -- rewrite !bool_decide_eq_true_2; [done|by apply elem_of_cons; left|done].
        -- rewrite !bool_decide_eq_false_2; [done|by rewrite elem_of_cons; naive_solver|naive_solver].
    + intros j [N1 N2]%not_elem_of_cons. rewrite I2 by done. by apply reap_one_other.
Qed.

Lemma filter_fst_NoDup {X Y} (f : X * Y → bool) (l : list (X * Y)) : NoDup l.*1 → NoDup (List.filter f l).*1.
Proof.
  induction l as [|x l IH]; [done|]. rewrite fmap_cons. intros [N ND]%NoDup_cons. simpl. destruct (f x); [|by apply IH].
  rewrite fmap_cons. constructor; [|by apply IH]. intros (y & E & [H _]%elem_of_filter_b)%list_elem_of_fmap. apply N.
  apply list_elem_of_fmap. eauto.
Qed.

Lemma reap_registry now r l o r' :
  (∀ sid sid' i, hsess r !! sid = Some i → hsess r !! sid' = Some i → sid = sid') →
  reapHTTP now r = (l, o, r') →
  ∀ sid i s, hsess r !! sid = Some i → sessions r !! i = Some s →
    if controller_gone now s || session_idle now s then hsess r' !! sid = None
    else hsess r' !! sid = Some i ∧ sessions r' !! i = Some s.
Proof.
  intros Inj E sid i s H Hs. unfold reapHTTP in E. change (λ r kv, lease_close kv.1 kv.2 (retire kv.1 kv.2 r)) with reap_one in E.
  set (r1 := set_agents _ _ _ r) in E. set (dead := List.filter (reaped now r) (map_to_list (hsess r))) in E.
  destruct (report _ _ _) as [line p]. injection E as <- <- <-.
  assert (∀ kv, kv ∈ dead → hsess r1 !! kv.1 = Some kv.2) as M.
  { intros [x j] [Hx _]%elem_of_filter_b. by apply elem_of_map_to_list in Hx. }
  assert (NoDup dead.*1) as ND by (apply filter_fst_NoDup, NoDup_fst_map_to_list).
  destruct (reap_all dead r1 M ND) as [I1 I2]. cbn [hsess sessions set_sessions].
  assert ((sid, i) ∈ dead ↔ controller_gone now s || session_idle now s = true) as D.
  { unfold dead. rewrite elem_of_filter_b, elem_of_map_to_list. unfold reaped. simpl. rewrite Hs. tauto. }
  destruct (controller_gone now s || session_idle now s) eqn:X.
  - rewrite I1, bool_decide_eq_true_2; [done|]. apply list_elem_of_fmap. exists (sid, i). split; [done|]. by apply D.
  - assert (∀ x j, (x, j) ∈ dead → x ≠ sid ∧ j ≠ i) as Other.
    { intros x j Hx. pose proof (M _ Hx) as Hx'. simpl in Hx'. assert (¬ (x = sid ∧ j = i)) as No by (intros [-> ->]; by apply D in Hx).
      split; intros ->; apply No; [|split; [|done]; eapply Inj; [exact Hx'|exact H]]. split; [done|]. change (hsess r1) with (hsess r) in Hx'. congruence. }
    rewrite I1, bool_decide_eq_false_2, I2; [done| |].
    + intros ([x j] & E & Hx)%list_elem_of_fmap. simpl in E. by destruct (Other _ _ Hx).
    + intros ([x j] & E & Hx)%list_elem_of_fmap. simpl in E. by destruct (Other _ _ Hx).
Qed.

(** A session the sweep left alone, and one it dropped. *)
Definition keeps (sid : string) (i : nat) s r' : Prop := hsess r' !! sid = Some i ∧ sessions r' !! i = Some s.
Definition drops (sid : string) r' : Prop := hsess r' !! sid = None.

(** The sweep.  A session whose two sides have been heard from within
    [httpSessionIdle] stays as it is, and so does one with a controller's poll in
    progress, and one with an unacknowledged chunk within [unackedRetention]; a
    session nobody is polling and nobody has for [unackedRetention] is dropped,
    and so is one whose controller has been silent that long while the device
    polls on, unless it was closed gracefully or its controller came over a
    WebSocket. *)
Lemma sweep_drops_abandoned max portal t0 now r l o r' sid i s :
  reachable (relay_init max portal t0) relay_step r → reapHTTP now r = (l, o, r') →
  hsess r !! sid = Some i → sessions r !! i = Some s →
  let kept := keeps sid i s r' in
  let dropped := drops sid r' in
  let unacked := (undelivered (toClient s)).2 || (undelivered (toAgent s)).2 in
  let polling q := (undelivered q).1 in
  (now - lastActive s <= httpSessionIdle → now - clientSeen s <= httpSessionIdle → kept) ∧
  (unacked = true → now - lastActive s <= unackedRetention → now - clientSeen s <= unackedRetention → kept) ∧
  (polling (toClient s) = true → kept) ∧
  (polling (toClient s) = false → polling (toAgent s) = false → lastActive s ≠ 0 → unackedRetention < now - lastActive s → dropped) ∧
  (polling (toClient s) = false → clientBridged s = false → closedAt s = 0 → clientSeen s ≠ 0 →
     unackedRetention < now - clientSeen s → dropped).
Proof.
  intros R E H Hs. pose proof (reap_registry now r l o r') as RR.
  assert (∀ sid sid' i, hsess r !! sid = Some i → hsess r !! sid' = Some i → sid = sid') as Inj.
  { assert (registry_ok r) as OK; [|apply OK]. revert r R E H Hs RR. intros r R _ _ _ _. revert r R.
    apply invariant_reachable; [apply init_registry|intros ? ?; apply step_registry]. }
  specialize (RR Inj E sid i s H Hs). clear E R Inj. intros kept dropped unacked polling.
  unfold controller_gone, session_idle, undelivered in RR. unfold unacked, polling, undelivered. cbn [fst snd].
  set (hC := negb (size (assigned (toClient s)) =? 0)%nat) in *. set (hA := negb (size (assigned (toAgent s)) =? 0)%nat) in *.
  assert (httpSessionIdle <= unackedRetention) as LE by (vm_compute; congruence). unfold is_zero in RR.
  assert (∀ b : bool, (if b then unackedRetention else httpSessionIdle) <= unackedRetention ∧ httpSessionIdle <= (if b then unackedRetention else httpSessionIdle)) as Lim
    by (intros []; lia).
  destruct (Lim (hC || hA)) as [Lim1 Lim2]. set (lim := if hC || hA then unackedRetention else httpSessionIdle) in *.
  split_and!.
  - intros A C. rewrite !(proj2 (Z.ltb_ge _ _)), !andb_false_r in RR by lia. exact RR.
  - intros U A C. assert (lim = unackedRetention) as L by (unfold lim; by rewrite U).
    rewrite !(proj2 (Z.ltb_ge _ _)), !andb_false_r in RR by lia. exact RR.
  - intros P. rewrite P, !andb_false_r in RR. exact RR.
  - intros P1 P2 A X. rewrite P1, P2, (proj2 (Z.eqb_neq _ _) A), (proj2 (Z.ltb_lt lim (now - lastActive s))), orb_true_r in RR by lia. exact RR.
  - intros P Br C Sn X. rewrite P, Br, C, (proj2 (Z.eqb_neq _ _) Sn), (proj2 (Z.ltb_lt lim (now - clientSeen s))) in RR by lia. exact RR.
Qed.

(** ** A device that went away *)

(** What its end leaves of a session: its reason, the device's direction freed,
    the controller's closed with everything in it. *)
Definition told_gone now s s' : Prop :=
  endReason s' = sessionEndDeviceGone ∧ closedAt s' = (if is_zero (closedAt s) then now else closedAt s) ∧
  toClient s' = close (toClient s) ∧ freed (toAgent s') = true ∧ endTold s' = endTold s.

Lemma end_gone_at now r i s :
  sessions r !! i = Some s → ∃ s', sessions (end_gone now r i) !! i = Some s' ∧ told_gone now s s'.
Proof.
  intros H. unfold end_gone, on_queue. simpl. rewrite lookup_alter_eq, H. simpl.
  destruct (free (toAgent s) (pool r)) as [q p] eqn:F. apply free_freed in F. simpl. rewrite lookup_insert_eq. simpl.
  eexists. split; [by rewrite lookup_insert_eq|]. done.
Qed.

Lemma end_gone_other now r i j : i ≠ j → sessions (end_gone now r i) !! j = sessions r !! j.
Proof.
  intros N. unfold end_gone, on_queue. simpl. rewrite lookup_alter_eq. destruct (sessions r !! i) as [s|] eqn:H; simpl.
  - destruct (free _ _) as [q p]. simpl. rewrite lookup_insert_eq. simpl. by rewrite !lookup_insert_ne, lookup_alter_ne.
  - rewrite lookup_alter_eq, H. simpl. by rewrite lookup_alter_ne.
Qed.

Lemma end_gone_reg now r i : hsess (end_gone now r i) = hsess r.
Proof. unfold end_gone, on_queue. repeat (case_match; simplify_eq/=; try done). Qed.

Lemma end_gone_all now l r i s :
  NoDup l → sessions r !! i = Some s →
  let r' := foldl (end_gone now) r l in
  hsess r' = hsess r ∧
  if bool_decide (i ∈ l) then ∃ s', sessions r' !! i = Some s' ∧ told_gone now s s' else sessions r' !! i = Some s.
Proof.
  revert r s. induction l as [|j l IH]; intros r s ND H r'.
  { split; [done|]. rewrite bool_decide_eq_false_2; [done|apply not_elem_of_nil]. }
  apply NoDup_cons in ND as [NI ND]. destruct (decide (j = i)) as [->|N].
  - destruct (end_gone_at now r i s H) as (s' & H' & T). destruct (IH _ _ ND H') as [R E]. split; [unfold r'; cbn [foldl]; by rewrite R, end_gone_reg|].
    rewrite bool_decide_eq_false_2 in E by done. rewrite bool_decide_eq_true_2 by by left. exists s'. split; [exact E|exact T].
  - assert (sessions (end_gone now r j) !! i = Some s) as H' by (by rewrite end_gone_other).
    destruct (IH _ _ ND H') as [R E]. split; [unfold r'; cbn [foldl]; by rewrite R, end_gone_reg|].
    case_bool_decide as M; case_bool_decide as M'; try exact E; exfalso; [apply M'|apply M]; rewrite ?elem_of_cons in *; naive_solver.
Qed.

Lemma NoDup_indices r :
  (∀ sid sid' i, hsess r !! sid = Some i → hsess r !! sid' = Some i → sid = sid') → NoDup (snd <$> map_to_list (hsess r)).
Proof.
  intros Inj. apply NoDup_fmap_2_strong; [|apply NoDup_map_to_list].
  intros [x i] [y j] Hx%elem_of_map_to_list Hy%elem_of_map_to_list E. simpl in E. subst j. by rewrite (Inj _ _ _ Hx Hy).
Qed.

Lemma NoDup_filter_b' {X} (f : X → bool) l : NoDup l → NoDup (List.filter f l).
Proof. rewrite !NoDup_ListNoDup. apply List.NoDup_filter. Qed.

(** A controller learns that its device is gone.  The scan touches no session
    whose device still polls; a session whose device's process is gone keeps
    its name, keeps everything the device had sent for the controller to read,
    gives back what nobody will read, and takes no more bytes; once the
    controller has read it all it is answered 410 with the reason, and until
    that answer has been given the session is not retired. *)
Lemma gone_agent_told max portal t0 now r sid i s :
  reachable (relay_init max portal t0) relay_step r → now ≠ 0 → registered sid r = Some (i, s) →
  let r' := endSessionsOfGoneAgents now r in
  if agent_gone now r i then
    ∃ s', registered sid r' = Some (i, s') ∧ told_gone now s s' ∧ closedAt s' ≠ 0 ∧
      (∀ now' role poll wanted,
         (handleHDown_end now' sid role i poll (Some Closed) false wanted true r').1 = Status 410 sessionEndDeviceGone) ∧
      (endTold s = false → releaseDrainedSession sid i r' = r')
  else registered sid r' = Some (i, s).
Proof.
  intros R NZ H r'. assert (∀ sid sid' i, hsess r !! sid = Some i → hsess r !! sid' = Some i → sid = sid') as Inj.
  { assert (registry_ok r) as OK; [|apply OK]. clear r' H. revert r R.
    apply invariant_reachable; [apply init_registry|intros ? ?; apply step_registry]. }
  apply registered_session in H as [Hr Hs].
  set (l := List.filter (agent_gone now r) (snd <$> map_to_list (hsess r))).
  destruct (end_gone_all now l r i s) as [E1 E2]; [by apply NoDup_filter_b', NoDup_indices|done|].
  assert (i ∈ l ↔ agent_gone now r i = true) as L.
  { unfold l. rewrite elem_of_filter_b, list_elem_of_fmap. split; [tauto|]. intros G. split; [|done]. exists (sid, i). split; [done|].
    by apply elem_of_map_to_list. }
  change (foldl (end_gone now) r l) with r' in E1, E2. destruct (agent_gone now r i).
  - rewrite bool_decide_eq_true_2 in E2 by by apply L. destruct E2 as (s' & Hs' & T). pose proof T as (T1 & T2 & _ & _ & T5). exists s'. split_and!.
    + unfold registered. by rewrite E1, Hr, Hs'.
    + exact T.
    + rewrite T2. unfold is_zero. destruct (Z.eqb_spec (closedAt s) 0); congruence.
    + intros now' role poll wanted. unfold handleHDown_end. cbn [negb andb]. unfold writeSessionClosed. by rewrite Hs', T1.
    + intros NT. unfold releaseDrainedSession. rewrite Hs', T1, T5, NT. destruct (_ || _); [done|]. by rewrite andb_false_r.
  - rewrite bool_decide_eq_false_2 in E2; [|intros M%L; done]. unfold registered. by rewrite E1, Hr, E2.
Qed.
End fate.

(** ** A relay with one session *)

Definition sample_relay : relay bool := Relay ∅ ∅ ∅ ∅ (newResidency 5) 8 "" 0.
Definition sample_open : Auth.session_open :=
  Auth.SessionOpen "open" "s1" "" "alice" "bob" "box" Auth.Exec "" "" "" 0 "".
Definition sample_opened : relay bool := (newHTTPSession 7 "s1" sample_open true sample_relay).2.

Lemma sample_opened_reachable : reachable (relay_init 8 "" 5) relay_step sample_opened.
Proof.
  eapply reachable_step; [by apply reachable_init|].
  eapply (RS_new 7 "s1" sample_open true sample_relay); [reflexivity|apply surjective_pairing].
Qed.

Definition sample_session : httpSession bool := default
  (HttpSession newSideQueue newSideQueue "" "" "" 0 0 false 0 None 0 "" "" "" false) (sessions sample_opened !! 0%nat).

Lemma close_keeps_backlog_witness :
  let r' := (handleHClose_end 9 "s1" "client" 0 None sample_opened).2 in
  (handleHClose_end 9 "s1" "client" 0 None sample_opened).1 = status 200 ∧ hsess r' !! "s1"%string = None.
Proof.
  intros r'. split; [|vm_compute; reflexivity].
  refine (proj1 (close_keeps_backlog 9 "s1" "client" 0 sample_session sample_opened _ _ _ _)); [vm_compute; reflexivity|apply surjective_pairing].
Defined.

Lemma sweep_drops_abandoned_witness :
  let r' now := (reapHTTP now sample_opened).2 in
  hsess (r' (30 * second)) !! "s1"%string = Some 0%nat ∧ hsess (r' (20 * minute)) !! "s1"%string = None.
Proof.
  intros r'. split.
  - destruct (sweep_drops_abandoned 8 "" 5 (30 * second) sample_opened _ _ _ "s1" 0 sample_session sample_opened_reachable (surjective_pairing _))
      as (K & _); [vm_compute; reflexivity|vm_compute; reflexivity|].
    apply K; vm_compute; congruence.
  - destruct (sweep_drops_abandoned 8 "" 5 (20 * minute) sample_opened _ _ _ "s1" 0 sample_session sample_opened_reachable (surjective_pairing _))
      as (_ & _ & _ & D & _); [vm_compute; reflexivity|vm_compute; reflexivity|].
    apply D; vm_compute; congruence.
Defined.

(** A device polls, a controller dials it, the device takes the job, and goes
    away. *)
Definition gone1 : relay bool :=
  (handleHPoll_begin 10 (Ok "bob"%string) (PollParams "box" "i1" "box" true true) Registered true sample_relay).2.
Definition alice : Delegation.access := Delegation.Access "alice" "" false "" 0 [] "" 0 "".
Definition gone2 : relay bool := (handleHDial 11 (Some alice) (Some ("bob/box"%string, sample_open)) "s1" true gone1).2.
Definition gone3 : relay bool :=
  match handleHPoll_end 12 "bob/box" "i1" 0 WakeJob gone2 with Some (_, r) => r | None => gone2 end.
Definition gone4 : relay bool := (handleHDeregister (Some "bob"%string) "box" "i1" gone3).2.

Lemma gone4_reachable : reachable (relay_init 8 "" 5) relay_step gone4.
Proof.
  assert (reachable (relay_init 8 "" 5) relay_step gone1) as R1.
  { eapply reachable_step; [by apply (reachable_init _ _ sample_relay)|]. eapply RS_poll. apply surjective_pairing. }
  assert (reachable (relay_init 8 "" 5) relay_step gone2) as R2.
  { eapply reachable_step; [exact R1|]. eapply (RS_dial 11 (Some alice) _ "s1"); [reflexivity|apply surjective_pairing]. }
  assert (reachable (relay_init 8 "" 5) relay_step gone3) as R3.
  { eapply reachable_step; [exact R2|]. eapply (RS_polled 12 "bob/box" "i1" 0 WakeJob). unfold gone3. reflexivity. }
  eapply reachable_step; [exact R3|]. unfold gone4.
  destruct (handleHDeregister (Some "bob"%string) "box" "i1" gone3) as [[x b] r] eqn:E. exact (RS_deregister _ _ _ _ _ _ _ E).
Qed.

Lemma gone_agent_told_witness :
  let s := default sample_session (sessions gone4 !! 1%nat) in
  let r' := endSessionsOfGoneAgents 50 gone4 in
  agent_gone 50 gone4 1 = true ∧ ∃ s', registered "s1" r' = Some (1%nat, s') ∧ told_gone 50 s s' ∧ closedAt s' ≠ 0.
Proof.
  intros s r'. assert (agent_gone 50 gone4 1 = true) as G by (vm_compute; reflexivity). split; [exact G|].
  pose proof (gone_agent_told 8 "" 5 50 gone4 "s1" 1 s gone4_reachable) as T. rewrite G in T.
  destruct T as (s' & E & C & N & _); [discriminate|vm_compute; reflexivity|]. exists s'. split; [exact E|split; [exact C|exact N]].
Defined.
