(* ===== verification/Dial.v ===== *)
(** [internal/relay/relay.go], [shared.go], [device_id.go] and
    [delegation_auth.go]: which device a controller reaches under a name, and
    with what authority the session is opened.

    The alias store, the grants and the devices shared with a namespace are rows
    of the database, and [uuid] and Unicode case folding are libraries: all of
    them are operations of the record [directory]. *)

From S2P Require Import Prelude GoStrings Session Sessions.

Local Open Scope Z_scope.

(** A device another namespace shares. *)
Record SharedPeer := MkSharedPeer { sp_Owner : string; sp_Device : string; sp_Label : string; sp_Target : string; sp_Online : bool }.

(** The alias store: one that tells an ambiguous name from a missing one, an
    older one that does not, or none. *)
Inductive alias_store := StrictStore (f : string → string → option string) | LooseStore (f : string → string → option string) | NoStore.

(** [ACLGrant]'s answer, when there is a grant, is whether it includes
    management. *)
Record directory := Directory {
  dir_aliases : alias_store;
  dir_acl : option (string → string → string → option bool);
  dir_shared : string → list SharedPeer;
  dir_fold : string → string → bool;
  dir_valid_id : string → bool;
  dir_portalNS : string }.

(** What a refused caller may be told. *)
Inductive reason := NoReason | NoSuchDevice (ns device : string) | AmbiguousLabel (label : string)
| SharedByMany (device : string) (targets : list string).

#[export] Instance reason_eq_dec : EqDecision reason.
Proof. solve_decision. Defined.

(** [strings.Index(target, "/")] and the two parts. *)
Fixpoint cut_slash (s : string) : option (string * string) :=
  match s with
  | EmptyString => None
  | String c s => if Ascii.eqb c "/" then Some (""%string, s)
                  else match cut_slash s with Some (a, b) => Some (String c a, b) | None => None end
  end.

(** [resolveShared] *)
Definition resolveShared (d : directory) (callerNS target : string) : SharedPeer + reason :=
  if String.eqb target "" then inr NoReason
  else match List.filter (λ p, String.eqb (sp_Device p) target || dir_fold d (sp_Label p) target) (dir_shared d callerNS) with
       | [p] => inl p
       | [] => inr (NoSuchDevice callerNS target)
       | l => inr (SharedByMany target (sp_Target <$> l))
       end.

(** [liveLabels]: the devices of [ns] with a live WebSocket, and those that
    polled in time, under the label they go by. *)
Definition label_of (name device : string) : string := if String.eqb name "" then device else name.

Definition liveLabels {B} (now : Z) (ns : string) (ws : list (string * string * string)) (r : relay B) : gmap string string :=
  let m := foldl (λ m w, let '(n, device, name) := w in
                    if String.eqb n ns then <[device := label_of name device]> m else m) (∅ : gmap string string) ws in
  foldl (λ m kv, match agents r !! kv.2 with
                 | Some a => if String.eqb (ha_ns a) ns && (now - ha_lastSeen a <=? httpAgentTTL)
                             then <[ha_device a := label_of (ha_name a) (ha_device a)]> m else m
                 | None => m
                 end) m (map_to_list (hagents r)).

(** [resolveLiveLabel] on those labels; [None] when the label is ambiguous. *)
Fixpoint find_label (target found : string) (l : list (string * string)) : option string :=
  match l with
  | [] => Some found
  | (id, label) :: l =>
      if String.eqb label target
      then if negb (String.eqb found "") then None else find_label target id l
      else find_label target found l
  end.

Definition resolveLiveLabel (d : directory) (labels : gmap string string) (target : string) : option string :=
  if bool_decide (is_Some (labels !! target)) && dir_valid_id d target then Some target
  else match find_label target "" (map_to_list labels) with
       | None => None
       | Some found => if negb (String.eqb found "") then Some found else Some target
       end.

Definition open_for (caller owner device : string) (caps : Z) : Auth.session_open :=
  Auth.SessionOpen "" "" "" caller owner device caps "" "" "" 0 "".

(** The authority of an undelegated caller over a device. *)
Definition dial_capabilities (d : directory) (caller owner device : string) : option Z :=
  if negb (String.eqb (dir_portalNS d) "") && String.eqb caller (dir_portalNS d) then Some Auth.FullCapabilities
  else if String.eqb owner caller then Some Auth.FullCapabilities
  else match dir_acl d with
       | None => None
       | Some acl => match acl caller owner device with
                     | Some manage => Some (if manage then Auth.FullCapabilities else Auth.UseCapabilities)
                     | None => None
                     end
       end.

(** The target with its namespace written out, cut at the first slash. *)
Definition qualified (callerNS target : string) : option (string * string) :=
  cut_slash (if negb (contains target "/") then (callerNS ++ "/" ++ target)%string else target).

(** Whether the target names the caller's own namespace. *)
Definition target_own (callerNS target : string) : bool :=
  match qualified callerNS target with Some (ns, _) => String.eqb ns callerNS | None => false end.

(** The first half of [dialAllowedReason]: the namespace and the route a target
    stands for in the database. *)
Definition resolve_stored (d : directory) (callerNS target : string) : (string * string) + reason :=
  match qualified callerNS target with
  | None => inr NoReason
  | Some (targetNS, device) =>
      let own := target_own callerNS target in
      match dir_aliases d with
      | StrictStore f =>
          match f targetNS device with
          | Some resolved => inl (targetNS, resolved)
          | None =>
              if own && negb (contains target "/")
              then match resolveShared d callerNS device with
                   | inl p => inl (sp_Owner p, sp_Device p)
                   | inr why => inr why
                   end
              else if own then inr (NoSuchDevice callerNS device) else inr NoReason
          end
      | LooseStore f => inl (targetNS, default device (f targetNS device))
      | NoStore => inl (targetNS, device)
      end
  end.

(** [labels] are the live labels of a namespace. *)
Definition dialAllowedReason (d : directory) (labels : string → gmap string string) (callerNS target : string)
  : (string * Auth.session_open) + reason :=
  match resolve_stored d callerNS target with
  | inr why => inr why
  | inl (targetNS, device) =>
      match resolveLiveLabel d (labels targetNS) device with
      | None => inr (if target_own callerNS target then AmbiguousLabel device else NoReason)
      | Some device =>
          match dial_capabilities d callerNS targetNS device with
          | Some caps => inl ((targetNS ++ "/" ++ device)%string, open_for callerNS targetNS device caps)
          | None => inr NoReason
          end
      end
  end.

(** [dialAccessAllowed] *)
Definition delegated_open (a : Delegation.access) (o : Auth.session_open) : Auth.session_open :=
  let scoped := negb (String.eqb (Delegation.ac_ExecOnly a) "") in
  Auth.SessionOpen (Auth.Op o) (Auth.Session o) (Auth.URL o) (Auth.CallerNamespace o) (Auth.OwnerNamespace o) (Auth.Device o)
    (if scoped then Auth.Exec else Auth.UseCapabilities) (Delegation.ac_GrantID a) (Delegation.ac_CredentialID a)
    (Delegation.ac_ControllerFingerprint a) (Delegation.ac_ExpiresAt a)
    (if scoped then Delegation.ac_ExecOnly a else Auth.ExecOnly o).

Definition dialAccessAllowed (now : Z) (d : directory) (labels : string → gmap string string) (a : Delegation.access) (target : string)
  : (string * Auth.session_open) + reason :=
  match dialAllowedReason d labels (Delegation.ac_Namespace a) target with
  | inr why => inr (if Delegation.Delegated a then NoReason else why)
  | inl (key, o) =>
      if Delegation.Delegated a
      then if negb (Delegation.Allows now a key) then inr NoReason else inl (key, delegated_open a o)
      else inl (key, o)
  end.

(** [accessPeers]: what a caller is shown of its own devices, their aliases and
    the devices shared with it. *)
Definition accessPeers (now : Z) (a : Delegation.access) (devices : list string) (aliases : gmap string string)
    (shared : list SharedPeer) : list string * gmap string string * list SharedPeer :=
  if Delegation.Delegated a then
    let here dev := Delegation.Allows now a (Delegation.ac_Namespace a ++ "/" ++ dev)%string in
    (List.filter here devices, filter (λ kv : string * string, here kv.1 = true) aliases,
     List.filter (λ p, Delegation.Allows now a (sp_Target p)) shared)
  else (devices, aliases, shared).

(** ** Authority *)

Lemma cut_slash_spec s a b : cut_slash s = Some (a, b) → s = (a ++ "/" ++ b)%string.
Proof.
  revert a b. induction s as [|c s IH]; intros a b; simpl; [done|]. destruct (Ascii.eqb_spec c "/") as [->|N].
  - by intros [= <- <-].
  - destruct (cut_slash s) as [[x y]|]; [|done]. intros [= <- <-]. simpl. f_equal. by apply IH.
Qed.

(** The owner of a device and its grants, as the directory has them. *)
Definition may_use (d : directory) (caller owner device : string) (manage : bool) : Prop :=
  (manage = true ∧ (caller = owner ∨ dir_portalNS d ≠ ""%string ∧ caller = dir_portalNS d)) ∨
  ∃ acl, dir_acl d = Some acl ∧ acl caller owner device = Some manage.

Lemma dial_capabilities_spec d caller owner device caps :
  dial_capabilities d caller owner device = Some caps →
  ∃ manage, may_use d caller owner device manage ∧ caps = if manage then Auth.FullCapabilities else Auth.UseCapabilities.
Proof.
  unfold dial_capabilities, may_use. destruct (negb _ && _) eqn:P.
  - intros [= <-]. ssplit. exists true. naive_solver.
  - destruct (String.eqb_spec owner caller) as [->|N]; [intros [= <-]; exists true; naive_solver|].
    destruct (dir_acl d) as [acl|]; [|done]. destruct (acl caller owner device) as [m|] eqn:E; [|done].
    intros [= <-]. exists m. split; [right; eauto|done].
Qed.

Lemma dialAllowedReason_spec d labels caller target key o :
  dialAllowedReason d labels caller target = inl (key, o) →
  ∃ owner device manage, key = (owner ++ "/" ++ device)%string ∧ may_use d caller owner device manage ∧
    o = open_for caller owner device (if manage then Auth.FullCapabilities else Auth.UseCapabilities).
Proof.
  unfold dialAllowedReason. destruct (resolve_stored _ _ _) as [[ns dev]|]; [|done].
  destruct (resolveLiveLabel _ _ _) as [dev'|]; [|done]. destruct (dial_capabilities _ _ _ _) as [caps|] eqn:C; [|done].
  intros [= <- <-]. apply dial_capabilities_spec in C as (m & U & ->). eauto 10.
Qed.

Lemma reason_own d labels caller target why :
  dialAllowedReason d labels caller target = inr why → why ≠ NoReason → target_own caller target = true.
Proof.
  unfold dialAllowedReason, resolve_stored. destruct (target_own caller target); [done|].
  intros E N. repeat (case_match; simplify_eq/=; try done).
Qed.

(** A grant a relay would issue: it names its controller unless it is a scoped
    command's. *)
Definition grant_complete (a : Delegation.access) : Prop :=
  Delegation.ac_Namespace a ≠ ""%string ∧ Delegation.ac_GrantID a ≠ ""%string ∧ Delegation.ac_CredentialID a ≠ ""%string ∧
  (Delegation.ac_ExecOnly a = ""%string → Delegation.ac_ControllerFingerprint a ≠ ""%string).

Lemma delegated_accepted now a owner device caps sid fp :
  grant_complete a → sid ≠ ""%string → owner ≠ ""%string → Delegation.ac_ExpiresAt a ≠ 0 → now < Delegation.ac_ExpiresAt a →
  let o := stamp sid (delegated_open a (open_for (Delegation.ac_Namespace a) owner device caps)) in
  Auth.ValidFor now o device = true ∧
  (Auth.ControllerOK o fp = true ↔ Delegation.ac_ExecOnly a ≠ ""%string ∨ Delegation.ac_ControllerFingerprint a = fp).
Proof.
  intros (N & G & C & F) S O E L. cbv zeta. unfold Auth.ValidFor, Auth.ControllerOK, Auth.empty, stamp, delegated_open, open_for, is_zero.
  cbn [Auth.Op Auth.Session Auth.URL Auth.CallerNamespace Auth.OwnerNamespace Auth.Device Auth.Capabilities Auth.GrantID Auth.CredentialID
    Auth.ControllerFingerprint Auth.ExpiresAt Auth.ExecOnly].
  apply String.eqb_neq in N, G, C, S, O. rewrite (proj2 (Z.eqb_neq _ _) E), (proj2 (Z.ltb_lt _ _) L).
  destruct (String.eqb_spec (Delegation.ac_ExecOnly a) "") as [X|X].
  - specialize (F X). apply String.eqb_neq in F. cbn [negb]. rewrite (proj2 (String.eqb_eq _ _) eq_refl), G, C, F, N, S, O, String.eqb_refl.
    split; [reflexivity|]. simpl. rewrite String.eqb_eq. naive_solver.
  - cbn [negb]. apply String.eqb_neq in X as X'. rewrite X', G, C, N, S, O, String.eqb_refl. split; [reflexivity|]. simpl. naive_solver.
Qed.

(** C8: whom a dial lets in, and with what.  A session is opened in the caller's
    own name, for the device its key names; an undelegated caller gets the
    device's control plane only as its owner, as the portal or by a grant that
    includes management, and the use of it only by a grant; a delegated one
    reaches a device of its grant while the grant lasts, never the control
    plane, and with a scoped command nothing but execution of that command; the
    session the relay then announces is one the device accepts, from the
    controller the grant names.  A refusal explains something only about the
    caller's own namespace, and nothing to a delegated caller. *)
Theorem dial_authority now d labels a target :
  match dialAccessAllowed now d labels a target with
  | inl (key, o) =>
      Auth.CallerNamespace o = Delegation.ac_Namespace a ∧ key = (Auth.OwnerNamespace o ++ "/" ++ Auth.Device o)%string ∧
      (∃ manage, may_use d (Auth.CallerNamespace o) (Auth.OwnerNamespace o) (Auth.Device o) manage ∧
        (Delegation.Delegated a = false →
           Auth.Capabilities o = (if manage then Auth.FullCapabilities else Auth.UseCapabilities) ∧
           (manage = false → Auth.Has (Auth.Capabilities o) Auth.Console = false))) ∧
      (Delegation.Delegated a = true →
         (∃ dev, dev ∈ Delegation.Devices a ∧ Delegation.Target dev = key) ∧ now < Delegation.ac_ExpiresAt a ∧
         Auth.Has (Auth.Capabilities o) Auth.Console = false ∧
         (Delegation.ac_ExecOnly a ≠ ""%string → Auth.Capabilities o = Auth.Exec ∧ Auth.ExecOnly o = Delegation.ac_ExecOnly a) ∧
         (grant_complete a → Auth.OwnerNamespace o ≠ ""%string → ∀ sid fp, sid ≠ ""%string →
            Auth.ValidFor now (stamp sid o) (Auth.Device o) = true ∧
            (Auth.ControllerOK (stamp sid o) fp = true ↔
               Delegation.ac_ExecOnly a ≠ ""%string ∨ Delegation.ac_ControllerFingerprint a = fp)))
  | inr why => why = NoReason ∨ Delegation.Delegated a = false ∧ target_own (Delegation.ac_Namespace a) target = true
  end.
Proof.
  unfold dialAccessAllowed. destruct (dialAllowedReason d labels (Delegation.ac_Namespace a) target) as [[key o]|why] eqn:E.
  - apply dialAllowedReason_spec in E as (owner & device & manage & -> & U & ->).
    destruct (Delegation.Delegated a) eqn:D.
    + destruct (negb (Delegation.Allows now a _)) eqn:Al; [by left|]. apply negb_false_iff in Al.
      unfold Delegation.Allows, is_zero in Al. rewrite D in Al. cbn [negb] in Al.
      destruct (Z.eqb_spec (Delegation.ac_ExpiresAt a) 0) as [|NZ]; [done|]. destruct (Z.ltb_spec now (Delegation.ac_ExpiresAt a)) as [L|]; [|done].
      cbn [negb orb] in Al. apply any_true in Al as (dev & Hd & Td). apply String.eqb_eq in Td.
      split_and!; [done|done|by exists manage|]. intros _. split_and!; [eauto|done| | |].
      * simpl. by destruct (negb _).
      * intros X. simpl. apply String.eqb_neq in X. by rewrite X.
      * intros G O sid fp S. by apply delegated_accepted.
    + split_and!; [done|done| |done]. exists manage. split; [done|]. intros _. split; [done|]. by intros ->.
  - destruct (Delegation.Delegated a); [by left|]. destruct (decide (why = NoReason)) as [->|N]; [by left|]. right.
    split; [done|]. by eapply reason_own.
Qed.

(** What a listing shows a delegated caller is what it may dial. *)
Lemma accessPeers_shows now a devices aliases shared ds als sh :
  accessPeers now a devices aliases shared = (ds, als, sh) →
  (∀ x, x ∈ ds → x ∈ devices ∧ Delegation.Allows now a (Delegation.ac_Namespace a ++ "/" ++ x)%string = true) ∧
  (∀ p, p ∈ sh → p ∈ shared ∧ Delegation.Allows now a (sp_Target p) = true).
Proof.
  unfold accessPeers. destruct (Delegation.Delegated a) eqn:D; intros [= <- <- <-].
  - split; intros x Hx; by apply elem_of_filter_b in Hx.
  - unfold Delegation.Allows. by rewrite D.
Qed.
