(* ===== verification/PollRefine.v ===== *)
(** The polls of the relay's handlers refine the event system of [QueueSteps]:
    [takeUpTo], [takeWindow] and [pollDrain], as [handleHDown] calls them, are
    each one run of events of the direction, so what [QueueOrder] and
    [QueueAccount] prove of every run holds of what the handlers serve. *)

From S2P Require Import Prelude GoStrings GoUtf8 GoCodec Residency SideQueue QueueSteps Sessions.

Local Open Scope Z_scope.

Section refine.
Context {B : Type}.
Implicit Types (q : sideQueue B) (s : sys (B:=B)).

(** What a poll adds to the history of chunks handed out: nothing, or the chunk
    it answers, under its number if the reader acknowledges. *)
Definition served (numbered : bool) (outs outs' : list (option nat * list B)) (got : option (reply B)) : Prop :=
  outs' = outs ∨
  ∃ data sq, got = Some (Chunk data sq) ∧ outs' = outs ++ [((if numbered then Some sq else None), data)].

(** The events of a poll: none of them takes a write. *)
Definition reading (e : event (B:=B)) : bool :=
  match e with ECommit _ _ | EEnqueue _ _ | EAdmit _ _ _ | EReserve _ _ => false | _ => true end.

(** [s] with the queue and the account a poll left. *)
Definition run_to s p s' p' : Prop := ∃ es, forallb reading es = true ∧ exec es s p = Some (s', p').

Lemma exec_app es1 es2 s p s1 p1 : exec es1 s p = Some (s1, p1) → exec (es1 ++ es2) s p = exec es2 s1 p1.
Proof.
  revert s p. induction es1 as [|e es IH]; intros s p; simpl; [by intros [= -> ->]|].
  destruct (step e s p) as [[s0 p0]|]; [apply IH|done].
Qed.

Lemma run_refl s p : run_to s p s p.
Proof. by exists []. Qed.

Lemma run_trans s p s1 p1 s2 p2 : run_to s p s1 p1 → run_to s1 p1 s2 p2 → run_to s p s2 p2.
Proof.
  intros (es1 & R1 & E1) (es2 & R2 & E2). exists (es1 ++ es2). split; [by rewrite forallb_app, R1, R2|].
  by rewrite (exec_app _ _ _ _ _ _ E1).
Qed.

Lemma run_step e s p s1 p1 s2 p2 :
  reading e = true → step e s p = Some (s1, p1) → run_to s1 p1 s2 p2 → run_to s p s2 p2.
Proof. intros R E (es & Rs & Es). exists (e :: es). simpl. rewrite R, E. done. Qed.

(** ** Draining *)

Lemma fill_run r lim fuel out tk q pn en ou p out' tk' q' :
  fill fuel lim out tk q = (out', tk', q') →
  run_to (Sys q pn (Some (Poll r lim Draining [] out tk)) en ou) p
         (Sys q' pn (Some (Poll r lim Draining [] out' tk')) en ou) p.
Proof.
  revert out tk q. induction fuel as [|f IH]; intros out tk q; simpl; [intros [= <- <- <-]; apply run_refl|].
  destruct (blen out <? lim) eqn:L; [|intros [= <- <- <-]; apply run_refl].
  unfold drainRecv. destruct (ch q) as [|b rest] eqn:C; [intros [= <- <- <-]; apply run_refl|].
  destruct (appendCapped lim out b (with_ch rest q)) as [out1 q1] eqn:A. intros F.
  eapply (run_step ERecv); [done|simpl; by rewrite C, L|].
  eapply (run_step EAppend); [done|simpl; by rewrite A|]. by apply IH.
Qed.

Lemma appendCapped_nil lim q : 0 < lim → appendCapped lim [] [] q = ([], q).
Proof. intros L. unfold appendCapped. simpl. destruct (Nat.ltb_spec (Z.to_nat (lim - blen (@nil B))) 0); [lia|done]. Qed.

(** From the start of a drain to the return of its slots. *)
Lemma drain_run r lim q pn en ou p got0 data closed q' p' :
  0 < lim → drainUpTo lim q p = (data, closed, q', p') →
  run_to (Sys q pn (Some (Poll r lim Start got0 [] 0)) en ou) p
         (Sys q' pn (Some (Poll r lim Drained [] data 0)) en ou) p'.
Proof.
  intros L. unfold drainUpTo. destruct (drainHead lim q) as [out q1] eqn:H. destruct (fill _ _ _ _ _) as [[out2 tk] q2] eqn:F.
  destruct (if 0 <? tk then _ else _) as [q3 p3] eqn:R. intros [= <- <- <- <-].
  assert (appendCapped lim [] (head q) (with_head [] q) = (out, q1)) as Hd.
  { unfold drainHead in H. destruct (Z.ltb_spec 0 (blen (head q))) as [N|N]; [done|].
    injection H as <- <-. assert (head q = []) as -> by (unfold blen in N; destruct (head q); simpl in *; [done|lia]).
    by apply appendCapped_nil. }
  eapply (run_step EHead); [done|done|].
  eapply (run_step EAppend); [done|simpl; by rewrite Hd|].
  eapply run_trans; [by eapply fill_run|].
  eapply (run_step EDrained); [done|simpl; by rewrite R|]. apply run_refl.
Qed.

(** Publishing what was drained, and giving the turn back. *)
Lemma publish_run r lim q pn en ou p data :
  blen data ≠ 0 →
  ∀ sq, publish_seq r q = Some sq →
  run_to (Sys q pn (Some (Poll r lim Drained [] data 0)) en ou) p
         (Sys (endTake (assign sq data (with_down sq (assigned q) (unacked q) q))) pn None en (ou ++ [(Some sq, data)])) p.
Proof.
  intros N sq E. eapply (run_step EPublish); [done|simpl; rewrite (proj2 (Z.eqb_neq _ _) N), E; done|].
  eapply (run_step EEnd); [done|done|apply run_refl].
Qed.

Lemma publish_none r lim q pn en ou p data :
  blen data = 0 →
  run_to (Sys q pn (Some (Poll r lim Drained [] data 0)) en ou) p (Sys (endTake q) pn None en ou) p.
Proof.
  intros N. eapply (run_step EPublish); [done|simpl; by rewrite N|].
  eapply (run_step EEnd); [done|done|apply run_refl].
Qed.

(** ** The three polls *)

Lemma takeUpTo_run ack lim s p got q' p' :
  hand s = None → 0 < lim → takeUpTo ack lim (queue s) p = (got, q', p') →
  ∃ outs', served true (outs s) outs' (Some got) ∧ run_to s p (Sys q' (pend s) None (entries s) outs') p'.
Proof.
  destruct s as [q pn h en ou]. simpl. intros -> L. unfold takeUpTo.
  destruct (dropAcked ack (beginTake q) p) as [q1 p1] eqn:D.
  assert (∀ s2 p2, run_to (Sys q1 pn (Some (Poll Acked lim (match replay (assigned q1) (S ack) (seq q1 - ack) with
      Some _ => Published | None => Start end) [] [] 0)) en ou) p1 s2 p2 → run_to (Sys q pn None en ou) p s2 p2) as Look.
  { intros s2 p2 R. eapply (run_step (ETurn Acked lim)); [done|simpl; by rewrite (proj2 (Z.leb_gt _ _) L)|].
    eapply (run_step (ELook ack)); [done|simpl; by rewrite D|done]. }
  destruct (replay (assigned q1) (S ack) (seq q1 - ack)) as [[b k]|] eqn:Rp.
  - intros [= <- <- <-]. exists ou. split; [by left|]. apply Look. eapply (run_step EEnd); [done|done|apply run_refl].
  - destruct (drainUpTo lim q1 p1) as [[[data closed] q2] p2] eqn:Dr.
    destruct (Z.eqb_spec (blen data) 0) as [N|N]; intros [= <- <- <-].
    + exists ou. split; [by left|]. apply Look. eapply run_trans; [by eapply drain_run|]. by apply publish_none.
    + eexists. split; [right; eexists _, _; split; [done|reflexivity]|]. apply Look. eapply run_trans; [by eapply drain_run|].
      by apply publish_run.
Qed.

Lemma takeWindow_run ack want lim s p got q' p' :
  hand s = None → 0 < lim → takeWindow ack want lim (queue s) p = (got, q', p') →
  ∃ outs', served true (outs s) outs' got ∧ run_to s p (Sys q' (pend s) None (entries s) outs') p'.
Proof.
  destruct s as [q pn h en ou]. simpl. intros -> L. unfold takeWindow.
  destruct (dropAcked ack q p) as [q1 p1] eqn:D.
  assert (∀ s2 p2, run_to (Sys q1 pn None en ou) p1 s2 p2 → run_to (Sys q pn None en ou) p s2 p2) as Win.
  { intros s2 p2 R. eapply (run_step (EWindow ack want)); [done|simpl; by rewrite D|done]. }
  assert (∀ x, (x, q1, p1) = (got, q', p') →
    ∃ outs', served true ou outs' got ∧ run_to (Sys q pn None en ou) p (Sys q' pn None en outs') p') as Same.
  { intros x [= <- <- <-]. exists ou. split; [by left|]. apply Win, run_refl. }
  destruct (assigned q1 !! want); [by apply Same|]. destruct (Nat.leb_spec want (seq q1)); [by apply Same|].
  destruct (Nat.ltb_spec (S (seq q1)) want); [by apply Same|]. clear Same.
  assert (want = S (seq q1)) as W by lia.
  destruct (drainUpTo lim (beginTake q1) p1) as [[[data closed] q2] p2] eqn:Dr.
  assert (∀ s2 p2, run_to (Sys (beginTake q1) pn (Some (Poll (Windowed want) lim Start [] [] 0)) en ou) p1 s2 p2 →
    run_to (Sys q pn None en ou) p s2 p2) as Turn'.
  { intros s2 p2' R. apply Win. eapply (run_step (ETurn (Windowed want) lim)); [done| |exact R].
    simpl. rewrite (proj2 (Z.leb_gt _ _) L), W, Nat.eqb_refl. done. }
  destruct (Z.eqb_spec (blen data) 0) as [N|N]; intros [= <- <- <-].
  - exists ou. split; [by left|]. apply Turn'. eapply run_trans; [by eapply drain_run|]. by apply publish_none.
  - eexists. split; [right; eexists _, _; split; [done|reflexivity]|]. apply Turn'. eapply run_trans; [by eapply drain_run|].
    by apply publish_run.
Qed.

Lemma pollDrain_run s p data closed q' p' :
  hand s = None → pollDrain (queue s) p = (data, closed, q', p') →
  ∃ outs', (outs' = outs s ∨ data ≠ [] ∧ outs' = outs s ++ [(None, data)]) ∧
    run_to s p (Sys q' (pend s) None (entries s) outs') p'.
Proof.
  destruct s as [q pn h en ou]. simpl. intros ->. unfold pollDrain, drain.
  destruct (drainUpTo maxDrainBytes (beginTake q) p) as [[[dt cl] q1] p1] eqn:Dr.
  destruct (releaseLocked (blen dt) 0 q1 p1) as [q2 p2] eqn:R. intros [= <- <- <- <-].
  assert (∀ s2 p2, run_to (Sys q1 pn (Some (Poll Unacked maxDrainBytes Drained [] dt 0)) en ou) p1 s2 p2 →
    run_to (Sys q pn None en ou) p s2 p2) as Turn'.
  { intros s2 p2' R'. eapply (run_step (ETurn Unacked maxDrainBytes)); [done|done|].
    eapply run_trans; [by eapply drain_run|exact R']. }
  destruct (Z.eqb_spec (blen dt) 0) as [N|N].
  - exists ou. split; [by left|]. apply Turn'. rewrite N in R. unfold releaseLocked in R. rewrite orb_true_r in R.
    injection R as <- <-. by apply publish_none.
  - exists (ou ++ [(None, dt)]). split; [right; split; [intros ->; done|done]|]. apply Turn'.
    eapply (run_step EPublish); [done|simpl; rewrite (proj2 (Z.eqb_neq _ _) N), R; done|].
    eapply (run_step EEnd); [done|done|apply run_refl].
Qed.

(** ** What the handler asks for *)

Lemma poll_limit_pos maxParam : 0 < poll_limit maxParam.
Proof.
  unfold poll_limit. destruct (Atoi maxParam) as [m|]; [|done].
  destruct (Z.ltb_spec 0 m) as [H|H]; [|done]. assert (0 < maxDrainLimit) by done. lia.
Qed.

Definition acknowledges (plan : poll_plan) : bool := match plan with PlainPoll => false | _ => true end.

(** A run of reading events is a run of the direction, whatever its writers
    send. *)
Lemma run_to_running w s p s' p' : run_to s p s' p' → running w s → running w s'.
Proof.
  intros (es & R & E). revert s p R E. induction es as [|e es IH]; intros s p R E; simpl in *; [by simplify_eq|].
  apply andb_true_iff in R as [Re R]. destruct (step e s p) as [[s1 p1]|] eqn:St; [|done]. intros Ru.
  apply (IH s1 p1 R E). eapply reachable_step; [exact Ru|]. exists e, p, p1. split; [|exact St]. by destruct e.
Qed.

(** The handlers' polls refine the event system.  What [handleHDown] does
    with a direction nobody holds the turn of, for any parameters the reader
    sent, is a run of the direction's events, in which no write is taken; it
    leaves the turn free, adds to the chunks handed out exactly the chunk it
    answers (and nothing when it replays one or has none), and takes a state
    reachable by the events to one that is. *)
Lemma polls_refine w ackParam maxParam want s p got q' p' :
  hand s = None → poll_take (plan_poll ackParam maxParam want) (queue s) p = (got, q', p') →
  ∃ outs',
    served (acknowledges (plan_poll ackParam maxParam want)) (outs s) outs' got ∧
    run_to s p (Sys q' (pend s) None (entries s) outs') p' ∧
    (running w s → running w (Sys q' (pend s) None (entries s) outs')).
Proof.
  intros H E.
  assert (∃ outs', served (acknowledges (plan_poll ackParam maxParam want)) (outs s) outs' got ∧
    run_to s p (Sys q' (pend s) None (entries s) outs') p') as (outs' & S & R).
  { unfold plan_poll in *. pose proof (poll_limit_pos maxParam) as L. destruct (String.eqb ackParam "").
    - simpl in E. destruct (pollDrain (queue s) p) as [[[data closed] q1] p1] eqn:D.
      destruct (pollDrain_run _ _ _ _ _ _ H D) as (outs' & S & R). injection E as <- <- <-. exists outs'. split; [|exact R].
      destruct S as [->|[N ->]]; [by left|right]. destruct data as [|b data]; [done|]. by exists (b :: data), 0%nat.
    - destruct (ParseUint ackParam) as [ack|]; [|simpl in E; injection E as <- <- <-; exists (outs s); split;
        [by left|destruct s; simpl in *; subst; apply run_refl]].
      destruct want as [wp|].
      + destruct (ParseUint wp) as [wt|]; [|simpl in E; injection E as <- <- <-; exists (outs s); split;
          [by left|destruct s; simpl in *; subst; apply run_refl]].
        destruct (_ || _); [simpl in E; injection E as <- <- <-; exists (outs s); split;
          [by left|destruct s; simpl in *; subst; apply run_refl]|].
        eapply takeWindow_run; [exact H| |exact E]. apply Z.min_glb_lt; done.
      + simpl in E. destruct (takeUpTo _ _ _ _) as [[rep q1] p1] eqn:D. injection E as <- <- <-.
        by eapply takeUpTo_run in D as (outs' & S & R); eauto. }
  exists outs'. split; [exact S|]. split; [exact R|]. by eapply run_to_running.
Qed.
End refine.

Lemma polls_refine_witness :
  let q : sideQueue bool := with_ch [[true; false]] newSideQueue in
  let p := newResidency 0 in
  let '(got, q', p') := poll_take (plan_poll "0" "" None) q p in
  got = Some (Chunk [true; false] 1) ∧
  ∃ outs', served true [] outs' got ∧ run_to (start q) p (Sys q' [] None [] outs') p'.
Proof.
  set (q := with_ch [[true; false]] newSideQueue). set (p := newResidency 0). cbv zeta.
  pose proof (polls_refine (λ _, []) "0" "" None (start q) p) as T.
  destruct (poll_take (plan_poll "0" "" None) q p) as [[got q'] p'] eqn:E. split.
  - vm_compute in E. by injection E as <- _ _.
  - destruct (T got q' p' eq_refl E) as (outs' & S & R & _). exists outs'. split; [exact S|exact R].
Defined.
