(* ===== verification/HttpConn.v ===== *)
(** [internal/httpconn/httpconn.go]: the end of a relayed session that speaks
    plain HTTP.  The writer cuts its bytes into numbered uploads and retries
    them; the reader polls for numbered chunks, one at a time or a window of
    them.  Definitions are the sections under [writeM], [readM] and [laneMu];
    what the carrier answers is an argument. *)

From S2P Require Import Prelude SideQueue.

Local Open Scope Z_scope.

Definition DownWindowSize : nat := 4.
Definition laneCount : nat := 1 + DownWindowSize.
Definition writeBatchBytes : Z := Z.shiftl 1 20.
Definition upWindow : nat := 2 * DownWindowSize.
Definition upAttempts : nat := 4.
Definition downPollAttempts : nat := 6.
Definition downMaxFloor : Z := Z.shiftl 2 20.
Definition downMaxCeiling : Z := Z.shiftl 16 20.
Definition downGrowWithin : Z := 4 * second.
Definition downShrinkPast : Z := 30 * second.
Definition laneZeroDownMax : Z := Z.shiftl 256 10.
Definition windowPollMax : Z := Z.shiftl 4 20.

(** ** Lanes *)

(** The requests each lane carries in one direction; lane 0 is shared. *)
Definition lanes : Type := list nat.

Definition nextBulkLane (i : nat) : nat := (i mod (laneCount - 1) + 1)%nat.

(** The lanes [acquireLane] looks at, in order. *)
Fixpoint lanes_from (n i : nat) : list nat :=
  match n with O => [] | S n => i :: lanes_from n (nextBulkLane i) end.

Definition lane_free (busy : lanes) (i : nat) : bool := (default 0 (busy !! i) =? 0)%nat.

(** One pass of [acquireLane]: [None] waits for a release. *)
Definition acquireLane (start : nat) (busy : lanes) : option (nat * lanes) :=
  match List.filter (lane_free busy) (lanes_from (laneCount - 1) start) with
  | i :: _ => Some (i, <[i := 1%nat]> busy)
  | [] => None
  end.

Definition reserveLaneZero (busy : lanes) : lanes := alter S 0%nat busy.
Definition releaseLane (i : nat) (busy : lanes) : lanes := alter Nat.pred i busy.

Section httpconn.
Context {B : Type}.

(** ** Uploads *)

(** What one try of an upload comes back with: nothing, or an answer that says
    whether the relay orders writes, whether its body was cut short, and its
    status. *)
Inductive up_attempt := UpLost | UpAnswer (ordered cut : bool) (status : Z).

Inductive up_error := UpCarrier | UpServer (status : Z) | UpRefused (status : Z).

Definition accepted_try (t : up_attempt) : bool :=
  match t with UpAnswer _ false 200 => true | _ => false end.

(** One turn of [post]'s loop: it ends with a result, or the error is kept and
    the next attempt made. *)
Definition post_turn (t : up_attempt) : result up_error (option up_error) :=
  match t with
  | UpLost => Ok (Some UpCarrier)
  | UpAnswer _ true _ => Ok (Some UpCarrier)
  | UpAnswer _ false st =>
      if st =? 200 then Ok None
      else if 500 <=? st then Ok (Some (UpServer st))
      else Err (UpRefused st)
  end.

Definition orders (t : up_attempt) : bool := match t with UpAnswer o _ _ => o | UpLost => false end.

(** [post]: [tries] are what the attempts come back with, each with whether
    another request has meanwhile learnt that the relay orders writes.  The
    result is the error, if any, whether ordering is known, and how many
    requests went out. *)
Fixpoint post_loop (budget : nat) (first ordered : bool) (last : option up_error) (tries : list (bool * up_attempt))
  : option up_error * bool * nat :=
  match budget, tries with
  | S budget, (learnt, t) :: tries =>
      let ordered := ordered || learnt in
      if negb first && negb ordered then (last, ordered, O)
      else
        let ordered := ordered || orders t in
        match post_turn t with
        | Err e => (Some e, ordered, 1%nat)
        | Ok None => (None, ordered, 1%nat)
        | Ok (Some e) => let '(r, o, n) := post_loop budget false ordered (Some e) tries in (r, o, S n)
        end
  | _, _ => (last, ordered, O)
  end.

Definition post (ordered : bool) (tries : list (bool * up_attempt)) : option up_error * bool * nat :=
  post_loop upAttempts true ordered None tries.

(** ** The writing half *)

Record writer := Writer {
  w_pending : list B; w_timer : bool; w_flushGen : nat; w_closed : bool; w_upSeq : nat;
  w_ordered : bool; w_err : option up_error }.

(** An upload handed to a goroutine, or posted before going on. *)
Record upload := Upload { up_seq : nat; up_data : list B; up_waits : bool }.

Definition set_timer (t : bool) (g : nat) (w : writer) : writer :=
  Writer (w_pending w) t g (w_closed w) (w_upSeq w) (w_ordered w) (w_err w).
Definition set_pending (l : list B) (w : writer) : writer :=
  Writer l (w_timer w) (w_flushGen w) (w_closed w) (w_upSeq w) (w_ordered w) (w_err w).
Definition set_sent (l : list B) (n : nat) (w : writer) : writer :=
  Writer l (w_timer w) (w_flushGen w) (w_closed w) n (w_ordered w) (w_err w).
Definition set_ordered (o : bool) (w : writer) : writer :=
  Writer (w_pending w) (w_timer w) (w_flushGen w) (w_closed w) (w_upSeq w) o (w_err w).
Definition set_closed (w : writer) : writer :=
  Writer (w_pending w) (w_timer w) (w_flushGen w) true (w_upSeq w) (w_ordered w) (w_err w).

Definition newWriter : writer := Writer [] false 0 false 0 false None.

Definition MarkOrdered (w : writer) : writer := set_ordered true w.

Definition fail (e : up_error) (w : writer) : writer :=
  match w_err w with
  | None => Writer (w_pending w) (w_timer w) (w_flushGen w) (w_closed w) (w_upSeq w) (w_ordered w) (Some e)
  | Some _ => w
  end.

Definition stopFlushTimerLocked (w : writer) : writer :=
  if w_timer w then set_timer false (S (w_flushGen w)) w else w.

(** [sendLocked] up to the post: the next [n] bytes become the next write. *)
Definition take_upload (n : nat) (w : writer) : upload * writer :=
  (Upload (S (w_upSeq w)) (take n (w_pending w)) (negb (w_ordered w)),
   set_sent (drop n (w_pending w)) (S (w_upSeq w)) w).

(** What the post of a write that waits for it comes to. *)
Definition settle_upload (r : option up_error * bool) (w : writer) : option up_error * writer :=
  let w := set_ordered (w_ordered w || r.2) w in
  (r.1, match r.1 with Some e => fail e w | None => w end).

(** [answer k] is what the post of write [k] comes to when it is posted before
    going on: its error, and whether ordering is known afterwards. *)
Definition sendLocked (answer : nat → option up_error * bool) (n : nat) (w : writer) : option up_error * upload * writer :=
  let '(u, w) := take_upload n w in
  if up_waits u then let '(e, w) := settle_upload (answer (up_seq u)) w in (e, u, w)
  else (None, u, w).

(** The loop of [Write] that sends full batches. *)
Fixpoint send_batches (fuel : nat) (answer : nat → option up_error * bool) (w : writer)
  : option up_error * list upload * writer :=
  match fuel with
  | O => (None, [], w)
  | S fuel =>
      if writeBatchBytes <=? blen (w_pending w) then
        match sendLocked answer (Z.to_nat writeBatchBytes) w with
        | (Some e, u, w) => (Some e, [u], w)
        | (None, u, w) => let '(e, us, w) := send_batches fuel answer w in (e, u :: us, w)
        end
      else (None, [], w)
  end.

Inductive write_error := ErrClosedPipe | ErrUpload (e : up_error).

Definition arm_timer (w : writer) : writer :=
  if (0 <? blen (w_pending w)) && negb (w_timer w) then set_timer true (S (w_flushGen w)) w else w.

Definition Write (answer : nat → option up_error * bool) (p : list B) (w : writer)
  : result write_error nat * list upload * writer :=
  if w_closed w then (Err ErrClosedPipe, [], w)
  else match w_err w with
  | Some e => (Err (ErrUpload e), [], w)
  | None =>
      let w := set_pending (w_pending w ++ p) w in
      let w := if writeBatchBytes <=? blen (w_pending w) then stopFlushTimerLocked w else w in
      match send_batches (Z.to_nat (blen (w_pending w) / writeBatchBytes)) answer w with
      | (Some e, us, w) => (Err (ErrUpload e), us, w)
      | (None, us, w) => (Ok (length p), us, arm_timer w)
      end
  end.

Definition flushTimerFired (answer : nat → option up_error * bool) (gen : nat) (w : writer) : list upload * writer :=
  if negb (w_timer w) || negb (w_flushGen w =? gen)%nat then ([], w)
  else
    let w := set_timer false (w_flushGen w) w in
    if w_closed w || (match w_err w with Some _ => true | None => false end) || (blen (w_pending w) =? 0) then ([], w)
    else let '(_, u, w) := sendLocked answer (length (w_pending w)) w in ([u], w).

Definition flushWrites (answer : nat → option up_error * bool) (w : writer) : option up_error * list upload * writer :=
  match w_err w with
  | Some e => (Some e, [], w)
  | None =>
      let w := stopFlushTimerLocked w in
      if blen (w_pending w) =? 0 then (None, [], w)
      else let '(e, u, w) := sendLocked answer (length (w_pending w)) w in (e, [u], w)
  end.

(** [Close] up to where it lets [writeM] go: the uploads it starts, and the
    last write when that travels with the close. *)
Definition Close_begin (answer : nat → option up_error * bool) (w : writer)
  : option (list upload * option upload * writer) :=
  if w_closed w then None
  else
    let w := stopFlushTimerLocked w in
    let '(us, tail, w) :=
      match w_err w with
      | None =>
          if blen (w_pending w) =? 0 then ([], None, w)
          else if w_ordered w
          then let '(u, w) := take_upload (length (w_pending w)) w in ([], Some u, w)
          else let '(_, u, w) := sendLocked answer (length (w_pending w)) w in ([u], None, w)
      | Some _ => ([], None, w)
      end in
    Some (us, tail, set_closed w).

(** [Close] after every upload has ended: [resp] is the status the relay gave
    the close, [None] when the carrier lost it. *)
Definition Close_end (tail : option upload) (resp : option Z) (w : writer) : option up_error * writer :=
  let w := match tail, resp with
           | Some _, None => fail UpCarrier w
           | Some _, Some st => if st =? 200 then w else fail (UpRefused st) w
           | None, _ => w
           end in
  (w_err w, w).

(** ** Polls *)

Record down_headers := DownHeaders {
  h_status : Z; h_end : string; h_ack : bool; h_window : bool; h_seq : nat }.

(** One attempt of a poll: no answer, or one whose body arrived or was cut
    short, with the time the body took. *)
Inductive down_attempt := DownLost | DownAnswer (h : down_headers) (body : option (list B)) (took : Z).

(** Where the poll's context is found cancelled. *)
Inductive cancel_point := BeforeAttempt | OnFailure | InDelay.
#[global] Instance cancel_point_eq_dec : EqDecision cancel_point.
Proof. solve_decision. Defined.

Inductive down_error := ErrCancelled | ErrCannotRetry | ErrAttempts (n : nat).

Record downResult := DownResult {
  dr_want : nat; dr_max : Z; dr_data : list B; dr_seq : nat; dr_status : Z;
  dr_ackable : bool; dr_window : bool; dr_retried : bool; dr_end : string; dr_took : Z;
  dr_err : option down_error }.

Definition failed_poll (want : nat) (e : down_error) : downResult :=
  DownResult want 0 [] 0 0 false false false "" 0 (Some e).

Definition head_ackable (h : down_headers) : bool := h_ack h || negb (h_seq h =? 0)%nat.

(** What an attempt leaves: a result, or a failure with what was learnt of it:
    whether a body broke off, whether the answer showed the relay to
    acknowledge. *)
Definition read_attempt (want : nat) (limit : Z) (hadBodyFailure : bool) (t : down_attempt) : downResult + bool * bool :=
  match t with
  | DownLost => inr (false, false)
  | DownAnswer h body took =>
      let done data took :=
        inl (DownResult want limit data (h_seq h) (h_status h) (head_ackable h) (h_window h) hadBodyFailure (h_end h) took None) in
      if h_status h =? 200
      then match body with
           | Some data => done data took
           | None => inr (true, head_ackable h)
           end
      else done [] 0
  end.

(** [downPoll]'s loop; [n] requests go out. *)
Fixpoint down_loop (budget attempt : nat) (want : nat) (limit : Z) (retryable hadBodyFailure : bool)
    (tries : list (option cancel_point * down_attempt)) : option (downResult * nat) :=
  match budget, tries with
  | S budget, (cancel, t) :: tries =>
      if bool_decide (cancel = Some BeforeAttempt) then Some (failed_poll want ErrCancelled, O)
      else match read_attempt want limit hadBodyFailure t with
      | inl r => Some (r, 1%nat)
      | inr (cut, ackable) =>
          if bool_decide (cancel = Some OnFailure) then Some (failed_poll want ErrCancelled, 1%nat)
          else if negb retryable && negb ackable then Some (failed_poll want ErrCannotRetry, 1%nat)
          else match budget with
          | O => Some (failed_poll want (ErrAttempts attempt), 1%nat)
          | _ =>
              if bool_decide (cancel = Some InDelay) then Some (failed_poll want ErrCancelled, 1%nat)
              else match down_loop budget (S attempt) want limit true (hadBodyFailure || cut) tries with
                   | Some (r, n) => Some (r, S n)
                   | None => None
                   end
          end
      end
  | _, _ => None
  end.

Definition downPoll (want : nat) (limit : Z) (retryable : bool) (tries : list (option cancel_point * down_attempt))
  : option (downResult * nat) := down_loop downPollAttempts 1 want limit retryable false tries.

(** ** The reading half *)

(** A poll of a window: the acknowledgement and the limit it was sent with. *)
Record wpoll := WPoll { wp_ack : nat; wp_want : nat; wp_limit : Z }.

(** [batch_polls] are the goroutines of the batch that have not delivered their
    result; [batch_pending] the results received early. *)
Record downBatch := DownBatch {
  batch_polls : list wpoll; batch_pending : gmap nat downResult; batch_next : nat; batch_end : nat }.

Record reader := Reader {
  r_leftover : list B; r_eof : bool; r_gone : bool; r_ackSeq : nat; r_ackable : bool;
  r_downMax : Z; r_downWindow : bool; r_batch : option downBatch }.

Definition newReader : reader := Reader [] false false 0 false downMaxFloor false None.

Definition set_leftover (l : list B) (c : reader) : reader :=
  Reader l (r_eof c) (r_gone c) (r_ackSeq c) (r_ackable c) (r_downMax c) (r_downWindow c) (r_batch c).
Definition set_batch (b : option downBatch) (c : reader) : reader :=
  Reader (r_leftover c) (r_eof c) (r_gone c) (r_ackSeq c) (r_ackable c) (r_downMax c) (r_downWindow c) b.
Definition set_ack (n : nat) (c : reader) : reader :=
  Reader (r_leftover c) (r_eof c) (r_gone c) n (r_ackable c) (r_downMax c) (r_downWindow c) (r_batch c).
Definition set_learnt (ackable window : bool) (c : reader) : reader :=
  Reader (r_leftover c) (r_eof c) (r_gone c) (r_ackSeq c) (r_ackable c || ackable) (r_downMax c) (r_downWindow c || window) (r_batch c).
Definition set_downMax (m : Z) (c : reader) : reader :=
  Reader (r_leftover c) (r_eof c) (r_gone c) (r_ackSeq c) (r_ackable c) m (r_downWindow c) (r_batch c).
Definition set_eof (gone : bool) (c : reader) : reader :=
  Reader (r_leftover c) true (r_gone c || gone) (r_ackSeq c) (r_ackable c) (r_downMax c) (r_downWindow c) (r_batch c).

Definition MarkWindow (c : reader) : reader := set_learnt false true c.

Definition launchPoll (ack want : nat) (c : reader) : wpoll := WPoll ack want (Z.min (r_downMax c) windowPollMax).

Definition startBatch (c : reader) : reader :=
  let a := r_ackSeq c in
  set_batch (Some (DownBatch (map (λ want, launchPoll a want c) (List.seq (S a) DownWindowSize)) ∅ (S a) (a + DownWindowSize))) c.

Definition extendBatch (c : reader) : reader :=
  match r_batch c with
  | None => c
  | Some b =>
      let e := S (batch_end b) in
      set_batch (Some (DownBatch (batch_polls b ++ [launchPoll (r_ackSeq c) e c]) (batch_pending b) (batch_next b) e)) c
  end.

Definition stopBatch (c : reader) : reader := set_batch None c.

(** [nextBatchResult]: the result that is next in order if it is there, and
    else what arrives. *)
Definition batch_take (b : downBatch) : option (downResult * downBatch) :=
  match batch_pending b !! batch_next b with
  | Some r => Some (r, DownBatch (batch_polls b) (delete (batch_next b) (batch_pending b)) (S (batch_next b)) (batch_end b))
  | None => None
  end.

Definition batch_recv (i : nat) (r : downResult) (b : downBatch) : downBatch :=
  DownBatch (delete i (batch_polls b)) (<[dr_want r := r]> (batch_pending b)) (batch_next b) (batch_end b).

Definition adjustDownMax (n : Z) (took : Z) (broken : bool) (c : reader) : reader :=
  if broken || (downShrinkPast <? took) then set_downMax (Z.max (r_downMax c / 2) downMaxFloor) c
  else if (r_downMax c <=? n) && (took <? downGrowWithin) then set_downMax (Z.min (r_downMax c * 2) downMaxCeiling) c
  else c.

Inductive read_error := EOF | ErrDeviceGone | ErrPoll (e : down_error) | ErrSequence (want got : nat) | ErrStatus (status : Z).

(** What a [Read] does next: it returns bytes or an error, or polls again. *)
Inductive read_outcome := Return (data : list B) | Failed (e : read_error) | Again.

(** The part of [Read] before its loop: [len] is the room the caller gave. *)
Definition read_begin (len : nat) (c : reader) : option (read_outcome * reader) :=
  if 0 <? blen (r_leftover c) then Some (Return (take len (r_leftover c)), set_leftover (drop len (r_leftover c)) c)
  else if r_eof c then Some (Failed (if r_gone c then ErrDeviceGone else EOF), c)
  else None.

(** The limit of a poll that is not part of a window. *)
Definition plain_limit (agent : bool) (c : reader) : Z :=
  if agent && r_downWindow c then Z.min (r_downMax c) laneZeroDownMax else r_downMax c.

(** The window after a chunk that was taken: closed by one that is not full,
    opened or moved on by one that is. *)
Definition after_chunk (windowed : bool) (r : downResult) (c : reader) : reader :=
  let c := if windowed && (blen (dr_data r) <? dr_max r) then stopBatch c else c in
  if negb windowed && r_downWindow c && (blen (dr_data r) =? dr_max r) then startBatch c
  else if windowed && (blen (dr_data r) =? dr_max r) then extendBatch c
  else c.

(** A chunk in hand. *)
Definition take_chunk (len : nat) (windowed : bool) (r : downResult) (c : reader) : read_outcome * reader :=
  if windowed && negb (dr_seq r =? dr_want r)%nat then (Failed (ErrSequence (dr_want r) (dr_seq r)), stopBatch c)
  else
    let c := adjustDownMax (blen (dr_data r)) (dr_took r) (dr_retried r) c in
    if negb (dr_seq r =? 0)%nat && (dr_seq r <=? r_ackSeq c)%nat then (Again, c)
    else
      let c := after_chunk windowed r (if (dr_seq r =? 0)%nat then c else set_ack (dr_seq r) c) in
      match dr_data r with
      | [] => (Again, c)
      | data => (Return (take len data), set_leftover (drop len data) c)
      end.

(** One turn of [Read]'s loop with the result [r] of its poll; [windowed] is
    whether it came out of a batch, [closed] whether the connection has been
    closed meanwhile. *)
Definition absorb (len : nat) (windowed closed : bool) (r : downResult) (c : reader) : read_outcome * reader :=
  let stop c := if windowed then stopBatch c else c in
  match dr_err r with
  | Some e => (Failed (if closed then EOF else ErrPoll e), stop c)
  | None =>
      let c := set_learnt (dr_ackable r) (dr_window r) c in
      if dr_status r =? 204 then (Again, stop c)
      else if dr_status r =? 200 then take_chunk len windowed r c
      else if (dr_status r =? 410) || (dr_status r =? 404)
      then let gone := String.eqb (dr_end r) "device-gone" in
           (Failed (if gone then ErrDeviceGone else EOF), set_eof gone (stop c))
      else (Failed (ErrStatus (dr_status r)), stop c)
  end.

(** ** What the loops promise *)

Lemma post_turn_spec t : (post_turn t = Ok None ↔ accepted_try t = true) ∧ (∀ e, post_turn t = Err e → accepted_try t = false).
Proof.
  destruct t as [|ord [] st]; simpl; [done|done|]. destruct (Z.eqb_spec st 200) as [->|N]; [done|].
  assert (match st with 200 => true | _ => false end = false) as -> by (repeat case_match; done).
  by destruct (500 <=? st).
Qed.

(** The request that [n] requests ended with was accepted. *)
Definition last_accepted (n : nat) (tries : list (bool * up_attempt)) : Prop :=
  ∃ learnt t, tries !! Nat.pred n = Some (learnt, t) ∧ accepted_try t = true.

Lemma post_retry_spec budget ord e tries r o n :
  (budget ≤ length tries)%nat → post_loop budget false ord (Some e) tries = (r, o, n) →
  (n ≤ budget)%nat ∧ (ord = true → o = true) ∧
  match n with O => r = Some e | S _ => o = true ∧ (r = None ↔ last_accepted n tries) end.
Proof.
  revert ord e tries n. induction budget as [|f IH]; intros ord e tries n L P; simpl in P; [by injection P as <- <- <-|].
  destruct tries as [|[learnt t] tries]; [simpl in L; lia|]. unfold last_accepted in *.
  destruct (ord || learnt) eqn:G; simpl in P; [|injection P as <- <- <-; split_and!; [lia|by intros ->|done]].
  destruct (post_turn_spec t) as [T1 T2]. destruct (post_turn t) as [[e'|]|e'] eqn:E.
  - destruct (post_loop f false _ (Some e') tries) as [[r1 o1] n1] eqn:R. injection P as <- <- <-.
    destruct (IH _ _ tries _ (le_S_n _ _ L) R) as (A1 & A2 & A3). split; [lia|]. split; [auto|]. split; [auto|].
    destruct n1 as [|n1]; [|apply A3]. rewrite A3. split; [done|]. intros (l & t' & [= _ <-] & Ac). by apply T1 in Ac.
  - injection P as <- <- <-. split_and!; [lia|done|done|]. split; [|done]. intros _. exists learnt, t. split; [done|by apply T1].
  - injection P as <- <- <-. split_and!; [lia|done|done|]. split; [done|]. intros (l & t' & [= _ <-] & Ac). by rewrite (T2 e') in Ac.
Qed.

(** An upload is retried only where a repeat is recognised.  [post] makes at
    least one request and at most [upAttempts]; it makes a second one only once
    the relay is known to order writes; and it succeeds exactly when the last
    request it made was accepted whole, so nothing is sent again after that. *)
Lemma post_retries_safely ordered tries r o n :
  (upAttempts ≤ length tries)%nat → post ordered tries = (r, o, n) →
  (1 ≤ n ≤ upAttempts)%nat ∧ (1 < n → o = true)%nat ∧ (r = None ↔ last_accepted n tries).
Proof.
  unfold post. assert (∃ f, upAttempts = S f) as [f ->] by by exists 3%nat. intros L P.
  destruct tries as [|[learnt t] tries]; [by apply Nat.nle_succ_0 in L|]. cbn [post_loop negb andb] in P.
  unfold last_accepted. destruct (post_turn_spec t) as [T1 T2]. destruct (post_turn t) as [[e'|]|e'] eqn:E.
  - destruct (post_loop f false _ (Some e') tries) as [[r1 o1] n1] eqn:R. injection P as <- <- <-.
    destruct (post_retry_spec f _ _ tries _ _ _ (le_S_n _ _ L) R) as (A1 & A2 & A3). split; [lia|].
    destruct n1 as [|n1]; [|split; [intros _; apply A3|apply A3]]. rewrite A3. split; [lia|]. split; [done|].
    intros (l & t' & [= _ <-] & Ac). by apply T1 in Ac.
  - injection P as <- <- <-. split_and!; [lia|lia|lia|]. split; [|done]. intros _. exists learnt, t. split; [done|by apply T1].
  - injection P as <- <- <-. split_and!; [lia|lia|lia|]. split; [done|]. intros (l & t' & [= _ <-] & Ac). by rewrite (T2 e') in Ac.
Qed.

(** An answer that shows the relay holds chunks until they are acknowledged. *)
Definition shows_ack (t : down_attempt) : bool :=
  match t with DownAnswer h _ _ => (h_status h =? 200) && head_ackable h | DownLost => false end.

(** What a complete answer of an attempt carries. *)
Definition answered (t : down_attempt) (data : list B) (sq : nat) (st : Z) : Prop :=
  ∃ h body took, t = DownAnswer h body took ∧ h_seq h = sq ∧ h_status h = st ∧
    (if st =? 200 then body = Some data else data = []).

Lemma read_attempt_inl want limit hb t r :
  read_attempt want limit hb t = inl r →
  dr_err r = None ∧ dr_want r = want ∧ dr_max r = limit ∧ answered t (dr_data r) (dr_seq r) (dr_status r).
Proof.
  unfold read_attempt, answered. destruct t as [|h body took]; [done|]. destruct (h_status h =? 200) eqn:S.
  - destruct body as [d|]; [|done]. intros [= <-]. simpl. split_and!; try done. exists h, (Some d), took. by rewrite S.
  - intros [= <-]. simpl. split_and!; try done. exists h, body, took. by rewrite S.
Qed.

Lemma read_attempt_inr want limit hb t cut ack :
  read_attempt want limit hb t = inr (cut, ack) → ack = true → shows_ack t = true.
Proof.
  unfold read_attempt. destruct t as [|h body took]; [by intros [= <- <-]|]. simpl. destruct (h_status h =? 200); [|done].
  destruct body; [done|]. by intros [= <- <-].
Qed.

Lemma down_loop_ends budget attempt want limit rt hb tries :
  (0 < budget ≤ length tries)%nat →
  ∃ r n, down_loop budget attempt want limit rt hb tries = Some (r, n) ∧ (n ≤ budget)%nat ∧
    (1 < n → rt = true ∨ ∃ c t, tries !! 0 = Some (c, t) ∧ shows_ack t = true)%nat ∧
    match dr_err r with
    | None => n ≠ O ∧ ∃ c t, tries !! Nat.pred n = Some (c, t) ∧ answered t (dr_data r) (dr_seq r) (dr_status r)
    | Some (ErrAttempts k) => n = budget ∧ (k + 1 = attempt + budget)%nat
    | Some _ => True
    end.
Proof.
  revert attempt rt hb tries. induction budget as [|f IH]; intros attempt rt hb tries L; [lia|].
  destruct tries as [|[c t] tries]; [simpl in L; lia|]. cbn [down_loop].
  case_bool_decide; [eexists _, _; split; [reflexivity|simpl; split_and!; (done || lia)]|].
  destruct (read_attempt want limit hb t) as [r|[cut ack]] eqn:E.
  { exists r, 1%nat. destruct (read_attempt_inl _ _ _ _ _ E) as (Er & _ & _ & An). rewrite Er. split_and!; [done|lia|lia|done|].
    exists c, t. done. }
  case_bool_decide; [eexists _, _; split; [reflexivity|simpl; split_and!; (done || lia)]|].
  destruct (negb rt && negb ack) eqn:N; [eexists _, _; split; [reflexivity|simpl; split_and!; (done || lia)]|].
  destruct f as [|f]; [eexists _, _; split; [reflexivity|simpl; split_and!; (done || lia)]|].
  case_bool_decide; [eexists _, _; split; [reflexivity|simpl; split_and!; (done || lia)]|].
  destruct (IH (S attempt) true (hb || cut) tries) as (r & n & -> & Hn & _ & Hr); [simpl in L; lia|].
  exists r, (S n). split; [done|]. split; [lia|]. split.
  { intros _. apply andb_false_iff in N as [N|N]; apply negb_false_iff in N; [by left|right].
    exists c, t. split; [done|]. eapply read_attempt_inr; [exact E|done]. }
  destruct (dr_err r) as [[]|]; [done|done|lia|]. destruct Hr as (Nz & c' & t' & Hl & An). split; [done|].
  exists c', t'. split; [|done]. by destruct n.
Qed.

(** A poll always ends, and never skips a chunk.  Six attempts bring it to a
    result or to an error; it asks again only when the reader already knew, or
    the answer that failed showed, that the relay holds what it has not
    acknowledged; a result is one complete answer to its last attempt. *)
Lemma downPoll_ends want limit retryable tries :
  (downPollAttempts ≤ length tries)%nat →
  ∃ r n, downPoll want limit retryable tries = Some (r, n) ∧ (n ≤ downPollAttempts)%nat ∧
    (1 < n → retryable = true ∨ ∃ c t, tries !! 0 = Some (c, t) ∧ shows_ack t = true)%nat ∧
    match dr_err r with
    | None => n ≠ O ∧ ∃ c t, tries !! Nat.pred n = Some (c, t) ∧ answered t (dr_data r) (dr_seq r) (dr_status r)
    | Some (ErrAttempts k) => n = downPollAttempts ∧ k = downPollAttempts
    | Some _ => True
    end.
Proof.
  intros L. destruct (down_loop_ends downPollAttempts 1 want limit retryable false tries) as (r & n & E & H1 & H2 & H3);
    [unfold downPollAttempts in *; lia|]. exists r, n. split_and!; [done|done|done|].
  destruct (dr_err r) as [[]|]; [done|done|unfold downPollAttempts in *; lia|done].
Qed.

(** The size of a poll stays between its floor and its ceiling. *)
Lemma adjustDownMax_range n took br (c : reader) :
  downMaxFloor ≤ r_downMax c ≤ downMaxCeiling → downMaxFloor ≤ r_downMax (adjustDownMax n took br c) ≤ downMaxCeiling.
Proof.
  unfold adjustDownMax. assert (downMaxFloor = 2097152 ∧ downMaxCeiling = 16777216) as [-> ->] by done. intros H.
  destruct (_ || _); [|destruct (_ && _); [|done]]; simpl; [|lia].
  assert (r_downMax c / 2 ≤ r_downMax c) by (apply Z.div_le_upper_bound; lia). lia.
Qed.
End httpconn.

Arguments writer : clear implicits.
Arguments reader : clear implicits.
Arguments upload : clear implicits.
Arguments downResult : clear implicits.
Arguments down_attempt : clear implicits.

(** Bulk keeps off the shared lane.  [acquireLane] hands out a free lane
    among 1 to [DownWindowSize], the one it was asked to start at when that is
    free, and marks it taken; it waits only when each of them carries a request
    already.  So two requests never share a bulk lane, and lane 0 never carries
    bulk. *)
Lemma acquireLane_spec start busy :
  (1 ≤ start ≤ DownWindowSize)%nat →
  match acquireLane start busy with
  | Some (i, busy') =>
      (1 ≤ i ≤ DownWindowSize)%nat ∧ lane_free busy i = true ∧ busy' = <[i := 1%nat]> busy ∧
      (lane_free busy start = true → i = start) ∧ (1 ≤ nextBulkLane i ≤ DownWindowSize)%nat
  | None => ∀ i, (1 ≤ i ≤ DownWindowSize)%nat → lane_free busy i = false
  end.
Proof.
  intros S.
  assert (∀ i, i ∈ lanes_from (laneCount - 1) start ↔ (1 ≤ i ≤ DownWindowSize)%nat) as In.
  { unfold DownWindowSize in *. intros i. assert (start = 1 ∨ start = 2 ∨ start = 3 ∨ start = 4)%nat as Cs by lia.
    destruct Cs as [-> | [-> | [-> | ->]]]; cbn; rewrite !elem_of_cons, elem_of_nil; lia. }
  unfold acquireLane. destruct (List.filter _ _) as [|i l] eqn:F.
  - intros i Hi. destruct (lane_free busy i) eqn:E; [|done]. apply In in Hi.
    assert (i ∈ List.filter (lane_free busy) (lanes_from (laneCount - 1) start)) as Hf by by apply elem_of_filter_b.
    rewrite F in Hf. by apply elem_of_nil in Hf.
  - assert (i ∈ List.filter (lane_free busy) (lanes_from (laneCount - 1) start)) as Hf by (rewrite F; left).
    apply elem_of_filter_b in Hf as [Hi Hfree]. apply In in Hi. split_and!; try done; try lia.
    + intros Hs. cbn [laneCount DownWindowSize Nat.sub Nat.add lanes_from List.filter] in F. rewrite Hs in F. by injection F as <- _.
    + unfold nextBulkLane, laneCount, DownWindowSize. pose proof (Nat.mod_upper_bound i 4). simpl Nat.sub. lia.
    + unfold nextBulkLane, laneCount, DownWindowSize. pose proof (Nat.mod_upper_bound i 4). simpl Nat.sub. lia.
Qed.

Lemma post_retries_safely_witness :
  let tries := [(false, UpAnswer true true 200); (false, UpAnswer true false 503); (true, UpAnswer true false 200); (false, UpLost)] in
  post false tries = (None, true, 3%nat) ∧ (1 ≤ 3 ≤ upAttempts)%nat ∧ (1 < 3 → true = true)%nat ∧ (None (A:=up_error) = None ↔ last_accepted 3 tries).
Proof.
  cbv zeta. split; [reflexivity|]. apply (post_retries_safely false); [unfold upAttempts; simpl; lia|reflexivity].
Defined.

Definition lost_body : down_attempt bool := DownAnswer (DownHeaders 200 "" true true 1) None 0.
Definition whole_body : down_attempt bool := DownAnswer (DownHeaders 200 "" true true 1) (Some [true]) 0.

Definition sample_tries : list (option cancel_point * down_attempt bool) :=
  [(None, lost_body); (None, DownLost); (None, whole_body); (None, DownLost); (None, DownLost); (None, DownLost)].

Lemma downPoll_ends_witness :
  option_map (λ '(r, n), (dr_data r, n)) (downPoll 0 8 false sample_tries) = Some ([true], 3%nat) ∧
  ∃ r n, downPoll 0 8 false sample_tries = Some (r, n) ∧ (n ≤ downPollAttempts)%nat.
Proof.
  split; [reflexivity|]. destruct (downPoll_ends 0 8 false sample_tries) as (r & n & E & L & _); [|eauto].
  unfold downPollAttempts. simpl. lia.
Defined.

Lemma acquireLane_spec_witness :
  match acquireLane 2 [7; 0; 1; 0; 1]%nat with
  | Some (i, busy') => i = 3%nat ∧ (1 ≤ nextBulkLane i ≤ DownWindowSize)%nat
  | None => False
  end.
Proof.
  pose proof (acquireLane_spec 2 [7; 0; 1; 0; 1]%nat ltac:(unfold DownWindowSize; lia)) as H.
  change (acquireLane 2 [7; 0; 1; 0; 1]%nat) with (Some (3%nat, [7; 0; 1; 1; 1]%nat)) in *. split; [reflexivity|apply H].
Defined.
