(* ===== verification/LinkFrames.v ===== *)
(** What a step of the relay's direction leaves as it was, seen from its two
    ends: which writes are committed, which chunks wait, when nothing is left. *)

From S2P Require Import Prelude Residency SideQueue QueueSteps QueueFrames QueueOrder.

Local Open Scope Z_scope.

Section frames.
Context {B : Type}.
Implicit Types (q : sideQueue B) (s : sys (B:=B)).

(** Nothing left for the reader, ever. *)
Definition nothing_left s : bool :=
  done (queue s) && (blen (head (queue s)) =? 0) && (length (ch (queue s)) =? 0)%nat
  && (blen (h_out s) =? 0) && (blen (h_got s) =? 0).

(** Write [k] is in the stream or held until its gap fills. *)
Definition committed (k : nat) q : bool :=
  (0 <? k)%nat && ((k <? seqNext q)%nat || match seqHeld q !! k with Some _ => true | None => false end).

(** ** How the relay's direction moves *)

(** The upload side of a queue. *)
Definition same_up q q' : Prop :=
  seqNext q' = seqNext q ∧ seqHeld q' = seqHeld q ∧ freed q' = freed q ∧ done q' = done q.

Lemma same_up_acct res sl rm q : same_up q (with_acct res sl rm q).
Proof. done. Qed.

Definition commits (e : event (B:=B)) s p s' p' : Prop :=
  ∃ i b sq n a c, e = ECommit i b ∧ pend s !! i = Some (Pending (Some sq) n a) ∧
    commitSeq sq b n (queue s) p = (c, queue s', p') ∧ entries s' = entries s ++ taken_by_commit sq b (queue s).

Definition off_link (e : event (B:=B)) : bool :=
  match e with EReserve _ _ | EEnqueue _ _ | EFree | ETurn Unacked _ => true | _ => false end.

Lemma tryReserve_up n a w q p r t q' p' :
  0 ≤ n → tryReserve n a w q p = (r, t, q', p') → same_up q q' ∧ assigned q' = assigned q.
Proof.
  intros Hn R. apply tryReserve_spec in R as [R1 R2]; [|done]. destruct (decide (r = Granted)) as [E|E].
  - by destruct (R1 E) as (_ & _ & [rm ->] & _).
  - by destruct (R2 E) as (_ & rm & ->).
Qed.

Lemma step_up e s p s' p' :
  step e s p = Some (s', p') → off_link e = false →
  (same_up (queue s) (queue s') ∧ entries s' = entries s) ∨
  (e = EClose ∧ s' = with_queue (close (queue s)) s) ∨ commits e s p s' p'.
Proof.
  intros H L. destruct e; try done; simpl in H.
  - left. destruct (Z.ltb_spec n 0); [done|]. destruct (admitSeq _ _ _ _ _) as [[[a t] q'] p1] eqn:R. injection H as <- <-.
    split; [|done]. simpl. apply admitSeq_spec in R as [_ [[t' R]|(_ & -> & _)]]; [|done]. by eapply tryReserve_up in R as [? _].
  - destruct (pend s !! i) as [[[sq|] n a]|] eqn:P; try done. destruct (n <? blen b); [done|].
    destruct (commitSeq _ _ _ _ _) as [[c q'] p1] eqn:R. injection H as <- <-. right. right. eexists _, _, _, _, _, _. split_and!; eauto.
  - left. destruct (pend s !! i); [|done]. destruct (unreserve _ _ _) as [q' p1] eqn:R. injection H as <- <-.
    unfold unreserve in R. by apply keepLocked_spec in R as [[rm ->] _].
  - left. destruct (hand s); [done|]. destruct (_ || _); [done|]. by injection H as <- <-.
  - left. destruct (hand s) as [[[] lim [] got out tk]|]; try done. destruct (dropAcked _ _ _) eqn:R. injection H as <- <-.
    by apply dropAcked_spec in R as (kept & u & rm & n & -> & _).
  - left. destruct (dropAcked _ _ _) eqn:R. injection H as <- <-. by apply dropAcked_spec in R as (kept & u & rm & n & -> & _).
  - left. destruct (hand s) as [[r lim [] got out tk]|]; try done. by injection H as <- <-.
  - left. destruct (hand s) as [[r lim [] got out tk]|]; try done. destruct (appendCapped _ _ _ _) eqn:R. injection H as <- <-.
    by apply appendCapped_spec in R as [[-> _]|(? & ? & _ & _ & -> & _)].
  - left. destruct (hand s) as [[r lim [] [] out tk]|]; try done. destruct (ch (queue s)); [done|]. destruct (_ <? _); [|done]. by injection H as <- <-.
  - left. destruct (hand s) as [[r lim [] [] out tk]|]; try done. destruct (0 <? tk); [|by injection H as <- <-].
    destruct (releaseLocked _ _ _ _) eqn:R. injection H as <- <-. by apply releaseLocked_spec in R as [[rm ->] _].
  - left. destruct (hand s) as [[r lim [] got out tk]|]; try done. destruct (blen out =? 0); [by injection H as <- <-|].
    destruct (publish_seq r (queue s)); [by injection H as <- <-|]. destruct (releaseLocked _ _ _ _) eqn:R. injection H as <- <-.
    by apply releaseLocked_spec in R as [[rm ->] _].
  - left. destruct (hand s) as [[r lim [] got out tk]|]; try done. by injection H as <- <-.
  - right. left. split; [done|]. by injection H as <- <-.
Qed.

Lemma step_pend e s p s' p' pd :
  step e s p = Some (s', p') → off_link e = false → pd ∈ pend s' →
  pd ∈ pend s ∨ ∃ sq n w, e = EAdmit sq n w ∧ pd_seq pd = Some sq.
Proof.
  intros H L I.
  assert (∀ i, pd ∈ delete i (pend s) → pd ∈ pend s) as D.
  { intros i Hi. eapply elem_of_sublist; [exact Hi|apply sublist_delete]. }
  destruct e; try done; simpl in H; try (case_hyp H; simplify_eq; simpl in *; eauto; fail).
  destruct (Z.ltb_spec n 0); [done|]. destruct (admitSeq _ _ _ _ _) as [[[a t] q'] p1] eqn:R. injection H as <- <-.
  simpl in I. destruct a; simpl in I; try by left. apply elem_of_app in I as [I|I]; [by left|].
  apply list_elem_of_singleton in I as ->. right. eauto.
Qed.

Lemma send_up (b : list B) q : same_up q (send b q).
Proof. destruct (send_spec b q) as (l & -> & _). done. Qed.

(** Filling a gap: every held write is in the stream or still held. *)
Lemma settleHeld_committed fuel q :
  (size (seqHeld q) < fuel)%nat →
  (seqNext q < seqNext (settleHeld fuel q))%nat ∧
  ∀ k, is_Some (seqHeld q !! k) → (k < seqNext (settleHeld fuel q))%nat ∨ is_Some (seqHeld (settleHeld fuel q) !! k).
Proof.
  revert q. induction fuel as [|f IH]; intros q Hf; [lia|]. simpl.
  destruct (seqHeld q !! S (seqNext q)) as [b|] eqn:E; [|simpl; split; [lia|by right]].
  set (q1 := send b _). destruct (send_up b (with_up (S (seqNext q)) (delete (S (seqNext q)) (seqHeld q)) q)) as (N & H & _).
  fold q1 in N, H. simpl in N, H. destruct (IH q1) as [L K].
  { rewrite H, map_size_delete_Some by eauto.
    assert (size (seqHeld q) ≠ 0)%nat by (intros Z; apply map_size_empty_iff in Z; rewrite Z in E; done). lia. }
  rewrite N in L. split; [lia|]. intros k Hk. destruct (decide (k = S (seqNext q))) as [->|Ne]; [left; lia|].
  apply K. rewrite H. by rewrite lookup_delete_ne.
Qed.

Lemma settleHeld_frame fuel q : freed (settleHeld fuel q) = freed q ∧ done (settleHeld fuel q) = done q ∧ head (settleHeld fuel q) = head q
  ∧ seq (settleHeld fuel q) = seq q.
Proof.
  revert q. induction fuel as [|f IH]; intros q; simpl; [done|]. destruct (seqHeld q !! _); [|done].
  destruct (IH (send l (with_up (S (seqNext q)) (delete (S (seqNext q)) (seqHeld q)) q))) as (-> & -> & -> & ->).
  unfold send. by destruct (_ =? _).
Qed.

Lemma settle_seq fuel b q : seq (wakeLocked (settleHeld fuel (send b q))) = seq q.
Proof.
  change (seq (settleHeld fuel (send b q)) = seq q). destruct (settleHeld_frame fuel (send b q)) as (_ & _ & _ & ->).
  unfold send. by destruct (_ =? _).
Qed.

Lemma committed_spec k q : committed k q = true ↔ (0 < k)%nat ∧ ((k < seqNext q)%nat ∨ is_Some (seqHeld q !! k)).
Proof.
  unfold committed. rewrite andb_true_iff, orb_true_iff, !Nat.ltb_lt. destruct (seqHeld q !! k); split; intros [? [?|?]];
    split; auto; [by right|by destruct H0].
Qed.

Lemma commits_frame w e s p s' p' N :
  ordered w s → commits e s p s' p' →
  (∀ pd sq, pd ∈ pend s → pd_seq pd = Some sq → (0 < sq ≤ N)%nat) →
  (seqNext (queue s) ≤ S N)%nat → (∀ k, is_Some (seqHeld (queue s) !! k) → (k ≤ N)%nat) →
  freed (queue s') = freed (queue s) ∧ done (queue s') = done (queue s) ∧ head (queue s') = head (queue s) ∧
  (done (queue s) = true → ch (queue s') = ch (queue s)) ∧
  (seqNext (queue s') ≤ S N)%nat ∧ (∀ k, is_Some (seqHeld (queue s') !! k) → (k ≤ N)%nat) ∧
  (∀ k, committed k (queue s) = true → committed k (queue s') = true) ∧
  ∃ new, entries s' = entries s ++ new ∧ Forall (λ x, is_Some x.1) new.
Proof.
  intros O (i & b & sq & n & a & c & -> & P & R & E) Hp Hn Hh.
  assert (0 < sq ≤ N)%nat as Hsq.
  { apply (Hp (Pending (Some sq) n a)); [by eapply list_elem_of_lookup_2|done]. }
  rewrite E. apply commitSeq_spec in R as [[R ->]|[(D & H & -> & L & q1 & R & Q)|(D & H & -> & T & q1 & R & Q)]];
    apply keepLocked_spec in R as [[rm R] _].
  - rewrite R. simpl. split_and!; try done. by exists [].
  - subst q1. rewrite Q. simpl. split_and!; try done.
    + intros k [y [[<- _]|[_ Hk]]%lookup_insert_Some]; [lia|]. apply Hh; eauto.
    + intros k. rewrite !committed_spec. simpl. intros [Hk [?|Hk']]; split; auto. right.
      rewrite lookup_insert. destruct (decide (sq = k)); [eauto|done].
    + by exists [].
  - rewrite Q, T. set (q2 := send b q1). assert (same_up q1 q2) as (U1 & U2 & U3 & U4) by apply send_up.
    assert (seqNext q2 = seqNext (queue s) ∧ seqHeld q2 = seqHeld (queue s)) as [V1 V2] by (rewrite U1, U2, R; done).
    assert (∀ k, is_Some (seqHeld q2 !! k) → (seqNext q2 < k)%nat) as Hk.
    { rewrite V1, V2. intros k [b' Hb]. by apply (o_held w s O) in Hb as [? _]. }
    destruct (settleHeld_spec (S (size (seqHeld q2))) q2) as (l2 & held & S1 & _ & _ & S2 & S3 & S4 & _); [lia|exact Hk|].
    destruct (settleHeld_committed (S (size (seqHeld q2))) q2) as [L1 L2]; [lia|].
    destruct (settleHeld_frame (S (size (seqHeld q2))) q2) as (F1 & F2 & F3 & _).
    set (q3 := settleHeld (S (size (seqHeld q2))) q2) in *.
    assert (freed (wakeLocked q3) = freed q3 ∧ done (wakeLocked q3) = done q3 ∧ head (wakeLocked q3) = head q3 ∧
      seqNext (wakeLocked q3) = seqNext q3 ∧ seqHeld (wakeLocked q3) = seqHeld q3) as (-> & -> & -> & -> & ->) by done.
    clearbody q3. split_and!.
    + by rewrite F1, U3, R.
    + by rewrite F2, U4, R.
    + rewrite F3. unfold q2, send. destruct (_ =? _); by rewrite R.
    + by rewrite D.
    + rewrite S1. set (run := held_run (S (size (seqHeld q2))) (S (seqNext q2)) (seqHeld q2)) in *. clearbody run.
      change (S (seqNext q2 + length run) ≤ S N)%nat. destruct run as [|x run]; [rewrite V1; simpl; lia|].
      assert ((seqNext q2 + length (x :: run))%nat ∈ omap fst (x :: run)) as Hin.
      { rewrite S2. apply elem_of_seq. simpl. lia. }
      apply list_elem_of_omap in Hin as [[o' y'] [Hin Ho]]. simpl in Ho. subst o'. apply S3 in Hin.
      rewrite V2 in Hin. specialize (Hh _ (ex_intro _ _ Hin)). simpl. lia.
    + intros k Hk'. rewrite S1 in Hk'. change (is_Some (held !! k)) in Hk'. apply Hh. rewrite <- V2. destruct Hk' as [y Hy]. exists y.
      by eapply lookup_weaken.
    + intros k. rewrite !committed_spec. intros [K0 K]. split; [done|]. rewrite <- V1, <- V2 in K.
      destruct K as [K|K]; [left; simpl; lia|]. by apply L2.
    + eexists. split; [reflexivity|]. constructor; [simpl; eauto|].
      assert (∀ fuel k (m : gmap nat (list B)), Forall (λ x, is_Some x.1) (held_run fuel k m)) as FR; [|apply FR].
      induction fuel as [|f IH]; intros k m; simpl; [constructor|]. destruct (m !! k); constructor; simpl; eauto.
Qed.

(** What readers of the direction see of a step. *)
Lemma publish_number w s r lim out tk g sq :
  ordered w s → hand s = Some (Poll r lim Drained g out tk) → publish_seq r (queue s) = Some sq → sq = S (seq (queue s)).
Proof.
  intros O H P. pose proof (o_poll w s O) as K. rewrite H in K. destruct K as [_ _ _ K4].
  destruct r; simpl in P; simplify_eq; try done. by apply K4.
Qed.

Lemma step_hand e s p s' p' :
  step e s p = Some (s', p') → off_link e = false →
  (∀ pl, hand s = Some pl → pl_reader pl ≠ Unacked) →
  (∀ pl, hand s' = Some pl → pl_reader pl ≠ Unacked).
Proof.
  intros H L K. destruct e; try done; simpl in H; try (case_hyp H; simplify_eq; simpl in *; try done; fail).
  all: try (case_hyp H; simplify_eq; simpl in *; intros pl E; simplify_eq; simpl; by apply (K _ eq_refl)).
  destruct (hand s); [done|]. destruct (_ || _); [done|]. injection H as <- <-. simpl. intros pl [= <-]. simpl. by destruct r.
Qed.

(** Chunks are published under the next number, and nothing but an
    acknowledgement takes one away. *)
Lemma step_seen w e s p s' p' :
  ordered w s → step e s p = Some (s', p') → off_link e = false →
  (∀ pl, hand s = Some pl → pl_reader pl ≠ Unacked) →
  (seq (queue s') = seq (queue s) ∧ outs s' = outs s ∧
     (assigned (queue s') = assigned (queue s) ∨
      ∃ ack, (e = ELook ack ∨ ∃ want, e = EWindow ack want) ∧
        ∀ k b, assigned (queue s') !! k = Some b ↔ assigned (queue s) !! k = Some b ∧ (ack < k)%nat)) ∨
  (seq (queue s') = S (seq (queue s)) ∧ ∃ out, out ≠ [] ∧ outs s' = outs s ++ [(Some (S (seq (queue s))), out)] ∧
     assigned (queue s') = <[S (seq (queue s)) := out]> (assigned (queue s)) ∧ h_out s = out).
Proof.
  intros O H L K. destruct e; try done.
  - left. simpl in H. destruct (Z.ltb_spec n 0); [done|]. destruct (admitSeq _ _ _ _ _) as [[[a t] q'] p1] eqn:R. injection H as <- <-.
    simpl. apply admitSeq_spec in R as [_ [[t' R]|(_ & -> & _)]]; [|auto].
    apply tryReserve_spec in R as [R1 R2]; [|done]. destruct (decide (a = Granted)) as [E|E].
    + destruct (R1 E) as (_ & _ & [rm ->] & _). simpl. auto.
    + destruct (R2 E) as (_ & rm & ->). simpl. auto.
  - left. simpl in H. destruct (pend s !! i) as [[[sq|] n a]|]; try done. destruct (n <? blen b); [done|].
    destruct (commitSeq _ _ _ _ _) as [[c q'] p1] eqn:R. injection H as <- <-. simpl.
    pose proof (commitSeq_assigned _ _ _ _ _ _ _ _ R) as A. split_and!; [|done|by left].
    apply commitSeq_spec in R as [[R _]|[(_ & _ & _ & _ & q1 & R & ->)|(_ & _ & _ & _ & q1 & R & ->)]];
      apply keepLocked_spec in R as [[rm ->] _]; [done|done|].
    etrans; [apply settle_seq|done].
  - left. simpl in H. destruct (pend s !! i); [|done]. destruct (unreserve _ _ _) as [q' p1] eqn:R. injection H as <- <-.
    unfold unreserve in R. apply keepLocked_spec in R as [[rm ->] _]. simpl. auto.
  - left. simpl in H. destruct (hand s); [done|]. destruct (_ || _); [done|]. injection H as <- <-. simpl. auto.
  - left. simpl in H. destruct (hand s) as [[[] lim [] got out tk]|]; try done. destruct (dropAcked _ _ _) eqn:R. injection H as <- <-.
    apply dropAcked_spec in R as (kept & u & rm & n & -> & _ & _ & A & _). simpl. split_and!; eauto 10.
  - left. simpl in H. destruct (dropAcked _ _ _) eqn:R. injection H as <- <-.
    apply dropAcked_spec in R as (kept & u & rm & n & -> & _ & _ & A & _). simpl. split_and!; eauto 10.
  - left. simpl in H. destruct (hand s) as [[r lim [] got out tk]|]; try done. injection H as <- <-. simpl. auto.
  - left. simpl in H. destruct (hand s) as [[r lim [] got out tk]|]; try done. destruct (appendCapped _ _ _ _) eqn:R. injection H as <- <-.
    apply appendCapped_spec in R as [[-> _]|(? & ? & _ & _ & -> & _)]; simpl; auto.
  - left. simpl in H. destruct (hand s) as [[r lim [] [] out tk]|]; try done. destruct (ch (queue s)); [done|]. destruct (_ <? _); [|done].
    injection H as <- <-. simpl. auto.
  - left. simpl in H. destruct (hand s) as [[r lim [] [] out tk]|]; try done. destruct (0 <? tk); [|injection H as <- <-; simpl; auto].
    destruct (releaseLocked _ _ _ _) eqn:R. injection H as <- <-. apply releaseLocked_spec in R as [[rm ->] _]. simpl. auto.
  - simpl in H. destruct (hand s) as [[r lim [] got out tk]|] eqn:Hd; try done.
    destruct (Z.eqb_spec (blen out) 0) as [Z|NZ]; [left; injection H as <- <-; simpl; auto|].
    destruct (publish_seq r (queue s)) as [sq|] eqn:P.
    + right. pose proof (publish_number w s _ _ _ _ _ _ O Hd P) as ->. injection H as <- <-. simpl. split; [done|].
      exists out. split_and!; try done; [by intros ->|]. unfold h_out. by rewrite Hd.
    + exfalso. apply (K _ eq_refl). simpl. by destruct r.
  - left. simpl in H. destruct (hand s) as [[r lim [] got out tk]|]; try done. injection H as <- <-. simpl. auto.
  - left. injection H as <- <-. simpl. auto.
Qed.

Lemma nothing_left_spec s : nothing_left s = true ↔
  done (queue s) = true ∧ head (queue s) = [] ∧ ch (queue s) = [] ∧ h_out s = [] ∧ h_got s = [].
Proof.
  unfold nothing_left. rewrite !andb_true_iff, !Z.eqb_eq, !blen_0, Nat.eqb_eq, length_zero_iff_nil. tauto.
Qed.

Lemma nothing_left_step e s p s' p' :
  step e s p = Some (s', p') → off_link e = false → nothing_left s = true →
  nothing_left s' = true ∧ seq (queue s') = seq (queue s).
Proof.
  rewrite !nothing_left_spec. intros H L (D & Hh & Hc & Ho & Hg).
  assert (∀ l, hand s = l → h_out s = match l with Some pl => pl_out pl | None => [] end ∧
                h_got s = match l with Some pl => pl_got pl | None => [] end) as HH by (by intros l <-).
  destruct e; try done; simpl in H.
  - destruct (Z.ltb_spec n 0); [done|]. destruct (admitSeq _ _ _ _ _) as [[[a t] q'] p1] eqn:R. injection H as <- <-.
    unfold h_out, h_got in *. simpl. apply admitSeq_spec in R as [_ [[t' R]|(_ & -> & _)]]; [|done].
    apply tryReserve_spec in R as [R1 R2]; [|done]. destruct (decide (a = Granted)) as [E|E].
    + by destruct (R1 E) as (_ & _ & [rm ->] & _).
    + by destruct (R2 E) as (_ & rm & ->).
  - destruct (pend s !! i) as [[[sq|] n a]|] eqn:P; try done. destruct (n <? blen b); [done|].
    unfold commitSeq in H. rewrite D in H. destruct (keepLocked n 0 (queue s) p) as [q1 p2] eqn:Q. injection H as <- <-.
    apply keepLocked_spec in Q as [[rm ->] _]. unfold h_out, h_got in *. done.
  - destruct (pend s !! i); [|done]. destruct (unreserve _ _ _) as [q' p1] eqn:R. injection H as <- <-.
    unfold unreserve in R. apply keepLocked_spec in R as [[rm ->] _]. unfold h_out, h_got in *. done.
  - destruct (hand s); [done|]. destruct (_ || _); [done|]. by injection H as <- <-.
  - destruct (hand s) as [[[] lim [] got out tk]|] eqn:E; try done. destruct (HH _ eq_refl) as [H1 H2]. simpl in *.
    destruct (dropAcked _ _ _) eqn:R. injection H as <- <-.
    apply dropAcked_spec in R as (kept & u & rm & n & -> & _). unfold h_out, h_got. simpl. by rewrite <- H1, <- H2.
  - destruct (dropAcked _ _ _) eqn:R. injection H as <- <-.
    apply dropAcked_spec in R as (kept & u & rm & n & -> & _). unfold h_out, h_got in *. done.
  - destruct (hand s) as [[r lim [] got out tk]|] eqn:E; try done. destruct (HH _ eq_refl) as [H1 H2]. simpl in *.
    injection H as <- <-. unfold h_out, h_got. simpl. by rewrite <- H1.
  - destruct (hand s) as [[r lim [] got out tk]|] eqn:E; try done. destruct (HH _ eq_refl) as [H1 H2]. simpl in *.
    assert (out = [] ∧ got = []) as [-> ->] by (split; congruence).
    destruct (appendCapped _ _ _ _) as [o' q'] eqn:R. injection H as <- <-.
    apply appendCapped_spec in R as [[-> ->]|([] & ? & ? & ? & _)]; done.
  - destruct (hand s) as [[r lim [] [] out tk]|] eqn:E; try done. by rewrite Hc in H.
  - destruct (hand s) as [[r lim [] [] out tk]|] eqn:E; try done. destruct (HH _ eq_refl) as [H1 H2]. simpl in *.
    destruct (0 <? tk); [destruct (releaseLocked _ _ _ _) eqn:R; apply releaseLocked_spec in R as [[rm ->] _]|];
      injection H as <- <-; unfold h_out, h_got; simpl; by rewrite <- H1.
  - destruct (hand s) as [[r lim [] got out tk]|] eqn:E; try done. destruct (HH _ eq_refl) as [H1 H2]. simpl in *.
    assert (out = []) as -> by congruence. simpl in H. injection H as <- <-. done.
  - destruct (hand s) as [[r lim [] got out tk]|] eqn:E; try done. injection H as <- <-. done.
  - injection H as <- <-. done.
Qed.

End frames.
