(* ===== verification/Link.v ===== *)
(** One direction of a session from end to end: the writer of [HttpConn] at one
    end, the relay's direction of [QueueSteps] in the middle, the reader of
    [HttpConn] at the other, and between them a carrier that loses, repeats and
    delays requests and answers as it likes.  The model follows the direction
    while the session is registered: what frees it answers every later request
    404 or 410. *)

From S2P Require Import Prelude Residency SideQueue QueueSteps QueueFrames QueueOrder Sessions HttpConn LinkFrames.

Local Open Scope Z_scope.

Section link.
Context {B : Type} `{EqDecision B}.
Implicit Types (q : sideQueue B) (s : sys (B:=B)).

(** A poll as it reaches the relay. *)
Record request := Request { rq_ack : nat; rq_want : option nat }.
#[global] Instance request_eq_dec : EqDecision request.
Proof. solve_decision. Defined.

(** What the relay answers with data or for good; everything else it may say
    carries no bytes. *)
Inductive given := AChunk (k : nat) (data : list B) | AClosed.

Record link := Link {
  l_w : writer B; l_offered : list B; l_sent : list (list B); l_flights : gset nat; l_landed : gset nat;
  l_sys : sys (B:=B);
  l_r : reader B; l_got : list B; l_polled : option (request * Z);
  l_reqs : list request; l_given : list (request * given) }.

(** The first number a poll can be answered with. *)
Definition rq_next (rq : request) : nat := match rq_want rq with Some want => want | None => S (rq_ack rq) end.

(** The chunk a poll is answered with when it looks, or when it has published. *)
Definition chunk_for (rq : request) q : option (nat * list B) :=
  match rq_want rq with
  | None => (λ '(b, k), (k, b)) <$> replay (assigned q) (S (rq_ack rq)) (seq q - rq_ack rq)
  | Some want => (λ b, (want, b)) <$> assigned q !! want
  end.

Definition closed_for (rq : request) s : bool :=
  nothing_left s && (match rq_want rq with Some want => (seq (queue s) <? want)%nat | None => true end)
  && (match chunk_for rq (queue s) with None => true | Some _ => false end).

(** How a poll ends: with an answer of the relay, or with anything that is not
    a 200. *)
Inductive ending :=
| GotAnswer (i : nat) (ackable window retried : bool) (took : Z)
| GotOther (r : downResult B).

Inductive action :=
| Offer (p : list B) | Send (n : nat) | Learn | Timer (t : bool) (g : nat) | Shut
| Land (k : nat) | Fail (k : nat) (e : up_error)
| Relay (e : event (B:=B)) | Give (rq : request) | GiveClosed (rq : request)
| Leftover (len : nat) | Ask (agent : bool) | Got (len : nat) (closed : bool) (o : ending)
| Recv (i : nat) (o : ending) | Next (len : nat) (closed : bool).

Definition with_writer (w : writer B) (l : link) : link :=
  Link w (l_offered l) (l_sent l) (l_flights l) (l_landed l) (l_sys l) (l_r l) (l_got l) (l_polled l) (l_reqs l) (l_given l).
Definition with_flights (f g : gset nat) (l : link) : link :=
  Link (l_w l) (l_offered l) (l_sent l) f g (l_sys l) (l_r l) (l_got l) (l_polled l) (l_reqs l) (l_given l).
Definition with_sys (s : sys (B:=B)) (l : link) : link :=
  Link (l_w l) (l_offered l) (l_sent l) (l_flights l) (l_landed l) s (l_r l) (l_got l) (l_polled l) (l_reqs l) (l_given l).
Definition with_given (rq : request) (g : given) (l : link) : link :=
  Link (l_w l) (l_offered l) (l_sent l) (l_flights l) (l_landed l) (l_sys l) (l_r l) (l_got l) (l_polled l) (l_reqs l)
    (l_given l ++ [(rq, g)]).

Definition batch_requests (c : reader B) : list request :=
  match r_batch c with
  | Some b => map (λ wp, Request (wp_ack wp) (Some (wp_want wp))) (batch_polls b)
  | None => []
  end.

Definition returned (o : read_outcome (B:=B)) : list B := match o with Return d => d | _ => [] end.

(** The reader after a step, with the bytes it returned; the polls of its batch
    go out. *)
Definition with_reader (c : reader B) (o : read_outcome (B:=B)) (polled : option (request * Z)) (l : link) : link :=
  Link (l_w l) (l_offered l) (l_sent l) (l_flights l) (l_landed l) (l_sys l) c (l_got l ++ returned o) polled
    (l_reqs l ++ batch_requests c) (l_given l).

(** The result of a poll that ended in [o]. *)
Definition result_of (rq : request) (limit : Z) (o : ending) (l : link) : option (downResult B) :=
  let want := default 0%nat (rq_want rq) in
  match o with
  | GotAnswer i ackable window retried took =>
      match l_given l !! i with
      | Some (rq', g) =>
          if bool_decide (rq' = rq) then
            Some (match g with
                  | AChunk k data => DownResult want limit data k 200 ackable window retried "" took None
                  | AClosed => DownResult want limit [] 0 410 ackable window retried "" 0 None
                  end)
          else None
      | None => None
      end
  | GotOther r =>
      if (dr_want r =? want)%nat && (dr_max r =? limit)
         && (bool_decide (is_Some (dr_err r)) || negb (dr_status r =? 200)) then Some r else None
  end.

(** The relay's events of this direction: uploads of writes that were sent, each
    with its bytes, polls that were asked, and the close. *)
Definition relay_may (l : link) (e : event (B:=B)) : bool :=
  match e with
  | EAdmit sq _ _ => (0 <? sq)%nat && (sq <=? length (l_sent l))%nat
  | ECommit i b =>
      match pend (l_sys l) !! i with
      | Some (Pending (Some sq) _ _) => bool_decide (l_sent l !! Nat.pred sq = Some b)
      | _ => false
      end
  | ETurn r _ => match r with Unacked => false | _ => true end
  | ELook ack => bool_decide (Request ack None ∈ l_reqs l)
  | EWindow ack want => bool_decide (Request ack (Some want) ∈ l_reqs l)
  | EReserve _ _ | EEnqueue _ _ | EFree => false
  | _ => true
  end.

Definition lstep (a : action) (l : link) (p : residency) : option (link * residency) :=
  let w := l_w l in let c := l_r l in
  let go l := Some (l, p) in
  match a with
  | Offer d =>
      if w_closed w || bool_decide (is_Some (w_err w)) then None
      else go (Link (set_pending (w_pending w ++ d) w) (l_offered l ++ d) (l_sent l) (l_flights l) (l_landed l) (l_sys l) c
                 (l_got l) (l_polled l) (l_reqs l) (l_given l))
  | Send n =>
      if w_closed w || (n =? 0)%nat || (length (w_pending w) <? n)%nat then None
      else let '(u, w) := take_upload n w in
           go (Link w (l_offered l) (l_sent l ++ [up_data u]) (l_flights l ∪ {[up_seq u]}) (l_landed l) (l_sys l) c
                 (l_got l) (l_polled l) (l_reqs l) (l_given l))
  | Learn => go (with_writer (set_ordered true w) l)
  | Timer t g => go (with_writer (set_timer t g w) l)
  | Shut => go (with_writer (set_closed w) l)
  | Land k => if bool_decide (k ∈ l_flights l) && committed k (queue (l_sys l))
              then go (with_flights (l_flights l ∖ {[k]}) (l_landed l ∪ {[k]}) l) else None
  | Fail k e => if bool_decide (k ∈ l_flights l)
                then go (with_writer (fail e w) (with_flights (l_flights l ∖ {[k]}) (l_landed l) l)) else None
  | Relay e => if relay_may l e
               then match step e (l_sys l) p with Some (s, p) => Some (with_sys s l, p) | None => None end
               else None
  | Give rq => if bool_decide (rq ∈ l_reqs l)
               then match chunk_for rq (queue (l_sys l)) with Some (k, d) => go (with_given rq (AChunk k d) l) | None => None end
               else None
  | GiveClosed rq => if bool_decide (rq ∈ l_reqs l) && closed_for rq (l_sys l) then go (with_given rq AClosed l) else None
  | Leftover len => match read_begin len c with Some (o, c) => go (with_reader c o (l_polled l) l) | None => None end
  | Ask agent =>
      match r_batch c, l_polled l, read_begin 0 c with
      | None, None, None =>
          let rq := Request (r_ackSeq c) None in
          go (Link w (l_offered l) (l_sent l) (l_flights l) (l_landed l) (l_sys l) c (l_got l)
                (Some (rq, plain_limit agent c)) (l_reqs l ++ [rq]) (l_given l))
      | _, _, _ => None
      end
  | Got len closed o =>
      match l_polled l with
      | Some (rq, limit) =>
          match result_of rq limit o l with
          | Some r => let '(out, c) := absorb len false closed r c in go (with_reader c out None l)
          | None => None
          end
      | None => None
      end
  | Recv i o =>
      match r_batch c with
      | Some b =>
          match batch_polls b !! i with
          | Some wp =>
              match result_of (Request (wp_ack wp) (Some (wp_want wp))) (wp_limit wp) o l with
              | Some r => go (with_reader (set_batch (Some (batch_recv i r b)) c) Again (l_polled l) l)
              | None => None
              end
          | None => None
          end
      | None => None
      end
  | Next len closed =>
      match r_batch c, read_begin 0 c with
      | Some b, None =>
          match batch_take b with
          | Some (r, b) => let '(out, c) := absorb len true closed r (set_batch (Some b) c) in
                           go (with_reader c out (l_polled l) l)
          | None => None
          end
      | _, _ => None
      end
  end.

Definition lsteps (l l' : link) : Prop := ∃ a p p', lstep a l p = Some (l', p').

Definition opened (l : link) : Prop :=
  ∃ ns p m1 m2, l = Link (set_ordered m1 newWriter) [] [] ∅ ∅ (start (attach ns newSideQueue p).1)
                    (set_learnt false m2 newReader) [] None [] [].

Definition linked : link → Prop := reachable opened lsteps.

(** ** The invariant *)

Definition writes (l : link) (k : nat) : list B := default [] (l_sent l !! Nat.pred k).

Record link_ok (l : link) : Prop := {
  v_run : ∀ w, (∀ k d, l_sent l !! k = Some d → w (S k) = d) → running w (l_sys l);
  v_entries : Forall (λ x, is_Some x.1) (entries (l_sys l));
  v_outs : Forall (λ x, is_Some x.1) (outs (l_sys l));
  v_offered : l_offered l = concat (l_sent l) ++ w_pending (l_w l);
  v_upSeq : w_upSeq (l_w l) = length (l_sent l);
  v_pend : ∀ pd, pd ∈ pend (l_sys l) → ∃ sq, pd_seq pd = Some sq ∧ (0 < sq ≤ length (l_sent l))%nat;
  v_next : (seqNext (queue (l_sys l)) ≤ S (length (l_sent l)))%nat;
  v_held : ∀ k, is_Some (seqHeld (queue (l_sys l)) !! k) → (k ≤ length (l_sent l))%nat;
  v_live : freed (queue (l_sys l)) = false;
  v_hand : ∀ pl, hand (l_sys l) = Some pl → pl_reader pl ≠ Unacked;
  v_reqs : ∀ rq, rq ∈ l_reqs l → (rq_ack rq ≤ r_ackSeq (l_r l))%nat;
  v_asked : ∀ rq g, (rq, g) ∈ l_given l → rq ∈ l_reqs l;
  v_ack : (r_ackSeq (l_r l) ≤ seq (queue (l_sys l)))%nat;
  v_kept : ∀ k, (r_ackSeq (l_r l) < k ≤ seq (queue (l_sys l)))%nat → is_Some (assigned (queue (l_sys l)) !! k);
  v_chunk : ∀ rq k d, (rq, AChunk k d) ∈ l_given l → (Some k, d) ∈ outs (l_sys l) ∧
              (rq_want rq = None → rq_ack rq = r_ackSeq (l_r l) → k = S (rq_ack rq)) ∧ (∀ want, rq_want rq = Some want → k = want);
  v_closed : ∀ rq, (rq, AClosed) ∈ l_given l → nothing_left (l_sys l) = true ∧
               (seq (queue (l_sys l)) < rq_next rq ∨ rq_next rq ≤ r_ackSeq (l_r l))%nat;
  v_got : l_got l ++ r_leftover (l_r l) = concat (take (r_ackSeq (l_r l)) (snd <$> outs (l_sys l)));
  v_batch : ∀ b, r_batch (l_r l) = Some b → batch_next b = S (r_ackSeq (l_r l)) ∧
              (∀ wp, wp ∈ batch_polls b → Request (wp_ack wp) (Some (wp_want wp)) ∈ l_reqs l) ∧
              ∀ i r, batch_pending b !! i = Some r → dr_want r = i ∧
                (dr_err r = None → dr_status r = 200 → dr_seq r = i ∧ (Some i, dr_data r) ∈ outs (l_sys l));
  v_polled : ∀ rq lim, l_polled l = Some (rq, lim) →
               rq = Request (r_ackSeq (l_r l)) None ∧ r_batch (l_r l) = None ∧ r_leftover (l_r l) = [];
  v_landed : ∀ k, k ∈ l_landed l → committed k (queue (l_sys l)) = true;
  v_flights : ∀ k, (0 < k ≤ length (l_sent l))%nat → k ∈ l_flights l ∨ k ∈ l_landed l ∨ is_Some (w_err (l_w l)) }.

Lemma writes_agree l : ∀ k d, l_sent l !! k = Some d → writes l (S k) = d.
Proof. intros k d H. unfold writes. simpl. by rewrite H. Qed.

Lemma link_ordered l : link_ok l → ordered (writes l) (l_sys l).
Proof. intros V. apply ordered_running, (v_run l V), writes_agree. Qed.

(** The chunk handed out under number [k]. *)
Lemma out_at w s k d : ordered w s → Forall (λ x, is_Some x.1) (outs s) → (Some k, d) ∈ outs s →
  (0 < k ≤ seq (queue s))%nat ∧ outs s !! Nat.pred k = Some (Some k, d).
Proof.
  intros O F H. pose proof (o_outs w s O) as N.
  assert (∀ i x, outs s !! i = Some x → x.1 = Some (S i)) as At.
  { intros i x Hi. assert (fst <$> outs s = Some <$> List.seq 1 (seq (queue s))) as E.
    { rewrite <- N. clear -F. induction F as [|[o y] l [j Hj] Hl IH]; simpl in *; [done|]. subst o. simpl. by f_equal. }
    assert ((fst <$> outs s) !! i = Some x.1) as G by (rewrite list_lookup_fmap, Hi; done).
    rewrite E, list_lookup_fmap in G. destruct (List.seq 1 (seq (queue s)) !! i) eqn:S1; [|done].
    apply lookup_seq in S1 as [-> _]. simpl in G. congruence. }
  apply list_elem_of_lookup in H as [i Hi]. pose proof (At _ _ Hi) as E. simpl in E. injection E as ->.
  split; [|done]. assert (S i ∈ omap fst (outs s)) as I.
  { apply list_elem_of_omap. exists (Some (S i), d). split; [by eapply list_elem_of_lookup_2|done]. }
  rewrite N in I. apply elem_of_seq in I. lia.
Qed.

Lemma outs_length w s : ordered w s → Forall (λ x, is_Some x.1) (outs s) → length (outs s) = seq (queue s).
Proof.
  intros O F. assert (length (omap fst (outs s)) = seq (queue s)) as <-.
  { rewrite (o_outs w s O). by rewrite length_seq. }
  clear -F. induction F as [|[o y] l [j Hj] Hl IH]; simpl in *; [done|]. subst o. simpl. by f_equal.
Qed.

(** Taking the next chunk moves the reader's stream on by its bytes. *)
Lemma got_next l d :
  link_ok l → (Some (S (r_ackSeq (l_r l))), d) ∈ outs (l_sys l) →
  concat (take (S (r_ackSeq (l_r l))) (snd <$> outs (l_sys l))) = l_got l ++ r_leftover (l_r l) ++ d.
Proof.
  intros V H. destruct (out_at _ _ _ _ (link_ordered l V) (v_outs l V) H) as [_ A]. simpl in A.
  erewrite take_S_r by (rewrite list_lookup_fmap, A; reflexivity).
  rewrite concat_app. simpl. rewrite app_nil_r, <- (v_got l V). by rewrite <- app_assoc.
Qed.

(** ** The reader's steps *)

Definition acks_upto (n : nat) (c : reader B) : Prop :=
  ∀ b wp, r_batch c = Some b → wp ∈ batch_polls b → (wp_ack wp ≤ n)%nat.

Lemma adjustDownMax_frame n took br (c : reader B) :
  ∃ m, adjustDownMax n took br c = set_downMax m c.
Proof. unfold adjustDownMax. repeat case_match; eauto. exists (r_downMax c). by destruct c. Qed.

Lemma after_chunk_spec windowed r (c : reader B) :
  (windowed = false → r_batch c = None) →
  (∀ b, r_batch c = Some b → batch_next b = S (r_ackSeq c)) → acks_upto (r_ackSeq c) c →
  let c' := after_chunk windowed r c in
  r_ackSeq c' = r_ackSeq c ∧ r_eof c' = r_eof c ∧ acks_upto (r_ackSeq c) c' ∧
  ∀ b', r_batch c' = Some b' → batch_next b' = S (r_ackSeq c) ∧
    (batch_pending b' = ∅ ∨ ∃ b, r_batch c = Some b ∧ batch_pending b' = batch_pending b).
Proof.
  intros W N A. unfold after_chunk. destruct windowed; cbn [andb negb].
  - destruct (blen (dr_data r) <? dr_max r) eqn:L.
    + destruct (blen (dr_data r) =? dr_max r) eqn:E; [bsplit; lia|]. split_and!; done.
    + destruct (blen (dr_data r) =? dr_max r) eqn:E.
      * unfold extendBatch. destruct (r_batch c) as [b|] eqn:Bc.
        -- split_and!; try done.
           ++ intros b' wp [= <-] Hin. simpl in Hin. apply elem_of_app in Hin as [Hin|Hin]; [by eapply A|].
              apply list_elem_of_singleton in Hin as ->. simpl. lia.
           ++ intros b' [= <-]. simpl. split; [by apply N|]. right. eauto.
        -- split_and!; try done. rewrite Bc. done.
      * split_and!; try done. intros b' Hb. split; [by apply N|eauto].
  - specialize (W eq_refl). destruct (r_downWindow c && _).
    + split_and!; try done.
      * intros b wp [= <-] Hin. simpl in Hin. 
        repeat (apply elem_of_cons in Hin as [->|Hin]; [simpl; lia|]); by apply elem_of_nil in Hin.
      * intros b' [= <-]. simpl. split; [done|by left].
    + split_and!; try done. rewrite W. done.
Qed.

Lemma leftover_after windowed r (c : reader B) : r_leftover (after_chunk windowed r c) = r_leftover c.
Proof. unfold after_chunk, extendBatch. repeat case_match; simplify_eq; simpl in *; try done; by repeat case_match. Qed.

(** One turn of [Read]'s loop either takes nothing and leaves no batch, or takes
    the chunk that is next. *)
Lemma absorb_link len windowed closed r (c : reader B) o c' :
  r_leftover c = [] → (windowed = false → r_batch c = None) →
  (∀ b, r_batch c = Some b → batch_next b = S (S (r_ackSeq c))) → acks_upto (r_ackSeq c) c →
  (dr_err r = None → dr_status r = 200 → dr_seq r = S (r_ackSeq c) ∧ (windowed = true → dr_want r = dr_seq r)) →
  absorb len windowed closed r c = (o, c') →
  (r_ackSeq c' = r_ackSeq c ∧ r_leftover c' = [] ∧ returned o = [] ∧ r_batch c' = None) ∨
  (dr_err r = None ∧ dr_status r = 200 ∧ r_ackSeq c' = S (r_ackSeq c) ∧ returned o ++ r_leftover c' = dr_data r ∧
   acks_upto (r_ackSeq c') c' ∧
   ∀ b', r_batch c' = Some b' → batch_next b' = S (r_ackSeq c') ∧
     (batch_pending b' = ∅ ∨ ∃ b, r_batch c = Some b ∧ batch_pending b' = batch_pending b)).
Proof.
  intros L W N A R. unfold absorb.
  assert (∀ c0, r_batch c0 = r_batch c → r_batch (if windowed then stopBatch c0 else c0) = None) as Stop.
  { intros c0 E. destruct windowed; [done|]. rewrite E. by apply W. }
  assert (∀ c0, r_ackSeq (if windowed then stopBatch c0 else c0) = r_ackSeq c0 ∧
                r_leftover (if windowed then stopBatch (B:=B) c0 else c0) = r_leftover c0) as Keep by (by destruct windowed).
  destruct (dr_err r) as [e|].
  { intros [= <- <-]. left. destruct (Keep c) as [-> ->]. rewrite Stop; done. }
  set (c1 := set_learnt (dr_ackable r) (dr_window r) c).
  destruct (Z.eqb_spec (dr_status r) 204).
  { intros [= <- <-]. left. destruct (Keep c1) as [-> ->]. rewrite Stop; done. }
  destruct (Z.eqb_spec (dr_status r) 200) as [S2|].
  2: { destruct (_ || _); intros [= <- <-]; left.
       - simpl. destruct (Keep c1) as [-> ->]. rewrite Stop; done.
       - destruct (Keep c1) as [-> ->]. rewrite Stop; done. }
  destruct (R eq_refl S2) as [Sq Wn]. unfold take_chunk. rewrite Sq.
  destruct (windowed && negb (S (r_ackSeq c) =? dr_want r)%nat) eqn:E.
  { bsplit. rewrite Wn in H0 by done. lia. }
  destruct (adjustDownMax_frame (blen (dr_data r)) (dr_took r) (dr_retried r) c1) as [m ->]. cbn [negb Nat.eqb].
  simpl (r_ackSeq (set_downMax m c1)). rewrite (proj2 (Nat.leb_gt _ _)) by lia. cbn [andb].
  intros Q. right. split; [done|]. split; [done|].
  destruct (after_chunk_spec windowed r (set_ack (S (r_ackSeq c)) (set_downMax m c1))) as (K1 & _ & K3 & K4).
  { done. } { exact N. } { intros b wp Hb Hw. simpl. specialize (A b wp Hb Hw). lia. }
  pose proof (leftover_after windowed r (set_ack (S (r_ackSeq c)) (set_downMax m c1))) as K5. simpl in K5. rewrite L in K5.
  destruct (dr_data r) as [|x data] eqn:D; injection Q as <- <-.
  - rewrite K1, K5. done.
  - simpl. rewrite K1. split; [done|]. split; [apply take_drop|]. split; [exact K3|exact K4].
Qed.

Lemma ok_reader l c o polled :
  link_ok l → (r_ackSeq (l_r l) ≤ r_ackSeq c ≤ seq (queue (l_sys l)))%nat →
  l_got l ++ returned o ++ r_leftover c = concat (take (r_ackSeq c) (snd <$> outs (l_sys l))) →
  acks_upto (r_ackSeq c) c →
  (∀ b, r_batch c = Some b → batch_next b = S (r_ackSeq c) ∧
     ∀ i r, batch_pending b !! i = Some r → dr_want r = i ∧
       (dr_err r = None → dr_status r = 200 → dr_seq r = i ∧ (Some i, dr_data r) ∈ outs (l_sys l))) →
  (∀ rq lim, polled = Some (rq, lim) → rq = Request (r_ackSeq c) None ∧ r_batch c = None ∧ r_leftover c = []) →
  link_ok (with_reader c o polled l).
Proof.
  intros V Ha Hg Hk Hb Hp. destruct V. split; simpl; try done.
  - intros rq [Hr|Hr]%elem_of_app; [specialize (v_reqs0 _ Hr); lia|]. unfold batch_requests in Hr.
    destruct (r_batch c) as [b|] eqn:E; [|by apply elem_of_nil in Hr].
    apply list_elem_of_fmap in Hr as (wp & -> & Hw). simpl. by eapply Hk.
  - intros rq g Hin. apply elem_of_app. left. by eapply v_asked0.
  - lia.
  - intros k Hk'. apply v_kept0. lia.
  - intros rq k d Hin. destruct (v_chunk0 _ _ _ Hin) as (H1 & H2 & H3). split; [done|]. split; [|done].
    intros W E. apply H2; [done|]. specialize (v_asked0 _ _ Hin). specialize (v_reqs0 _ v_asked0). lia.
  - intros rq Hin. destruct (v_closed0 _ Hin) as [H1 H2]. split; [done|]. lia.
  - by rewrite <- app_assoc.
  - intros b E. destruct (Hb _ E) as [H1 H2]. split; [done|]. split; [|done].
    intros wp Hw. apply elem_of_app. right. unfold batch_requests. rewrite E. apply list_elem_of_fmap. eauto.
Qed.

(** ** Every step keeps the invariant *)

Lemma relay_may_on l e : relay_may l e = true → off_link e = false.
Proof. by destruct e as [| | | | |[]| | | | | | | | | |]. Qed.

Lemma relay_honest l e w : relay_may l e = true → (∀ k d, l_sent l !! k = Some d → w (S k) = d) →
  (∀ pd, pd ∈ pend (l_sys l) → ∃ sq, pd_seq pd = Some sq ∧ (0 < sq ≤ length (l_sent l))%nat) →
  honest w (l_sys l) e.
Proof.
  intros R W P. destruct e; try done. simpl in *. intros sq n a E. rewrite E in R. bsplit.
  destruct (P (Pending (Some sq) n a)) as (sq' & [= <-] & Hs); [by eapply list_elem_of_lookup_2|].
  destruct sq as [|k]; [lia|]. symmetry. by apply W.
Qed.

Lemma ok_writer l w : link_ok l → w_pending w = w_pending (l_w l) → w_upSeq w = w_upSeq (l_w l) →
  (is_Some (w_err (l_w l)) → is_Some (w_err w)) → link_ok (with_writer w l).
Proof.
  intros [] P U E. split; simpl; rewrite ?P, ?U; try done. intros k Hk. destruct (v_flights0 k Hk) as [?|[?|?]]; auto.
Qed.

Lemma ok_relay l e p s p' :
  link_ok l → relay_may l e = true → step e (l_sys l) p = Some (s, p') → link_ok (with_sys s l).
Proof.
  intros V M St. pose proof (relay_may_on _ _ M) as Off. pose proof (link_ordered l V) as O.
  assert (∀ pd sq, pd ∈ pend (l_sys l) → pd_seq pd = Some sq → (0 < sq ≤ length (l_sent l))%nat) as HP.
  { intros pd sq Hin Hsq. destruct (v_pend l V pd Hin) as (sq' & E & ?). rewrite E in Hsq. by injection Hsq as ->. }
  assert (freed (queue s) = freed (queue (l_sys l)) ∧ (seqNext (queue s) ≤ S (length (l_sent l)))%nat ∧
    (∀ k, is_Some (seqHeld (queue s) !! k) → (k ≤ length (l_sent l))%nat) ∧
    (∀ k, committed k (queue (l_sys l)) = true → committed k (queue s) = true) ∧
    ∃ new, entries s = entries (l_sys l) ++ new ∧ Forall (λ x, is_Some x.1) new) as (F & Nx & Hd & Cm & new & En & Fn).
  { destruct (step_up _ _ _ _ _ St Off) as [[(U1 & U2 & U3 & _) En]|[[-> ->]|C]].
    - rewrite U1, U2, U3. unfold committed. rewrite U1, U2. split_and!; try apply V; auto.
      exists []. rewrite app_nil_r. done.
    - split_and!; try apply V; auto. exists []. rewrite app_nil_r. done.
    - apply (commits_frame _ _ _ _ _ _ (length (l_sent l)) O) in C as (? & _ & _ & _ & ? & ? & ? & ?);
        [auto 10|exact HP|apply V|apply V]. }
  pose proof (step_outs _ _ _ _ _ St) as Pre.
  assert (seq (queue (l_sys l)) ≤ seq (queue s) ∧ Forall (λ x, is_Some x.1) (outs s) ∧
    ∀ k, r_ackSeq (l_r l) < k ≤ seq (queue s) → is_Some (assigned (queue s) !! k))%nat as (Sq & Fo & Kept).
  { destruct (step_seen _ _ _ _ _ _ O St Off (v_hand l V)) as [(-> & -> & A)|(-> & out & NE & -> & A & _)].
    - split; [done|]. split; [apply V|]. destruct A as [->|(ack & E & A)]; [apply V|].
      intros k Hk. destruct (v_kept l V k Hk) as [b Hb]. exists b. apply A. split; [done|].
      assert (ack ≤ r_ackSeq (l_r l))%nat; [|lia].
      destruct E as [->|[want ->]]; simpl in M; bsplit; by apply (v_reqs l V) in M.
    - split; [lia|]. split; [apply Forall_app; split; [apply V|constructor; simpl; eauto]|].
      intros k Hk. rewrite A, lookup_insert. destruct (decide (S (seq (queue (l_sys l))) = k)); [eauto|]. apply V. lia. }
  split; simpl; try (by apply V).
  - intros w Hw. eapply reachable_step; [by apply (v_run l V)|]. exists e, p, p'. split; [|done].
    apply relay_honest with (l := l); [done|done|apply V].
  - rewrite En. apply Forall_app. split; [apply V|done].
  - done.
  - intros pd Hin. destruct (step_pend _ _ _ _ _ _ St Off Hin) as [Hin'|(sq & n & w & -> & E)]; [by apply V|].
    exists sq. split; [done|]. simpl in M. bsplit. lia.
  - done.
  - done.
  - rewrite F. apply V.
  - eapply step_hand; [exact St|done|apply V].
  - pose proof (v_ack l V). lia.
  - done.
  - intros rq k d Hin. destruct (v_chunk l V _ _ _ Hin) as (H1 & H2 & H3). split; [|done]. by eapply elem_of_prefix.
  - intros rq Hin. destruct (v_closed l V _ Hin) as [N Hs]. destruct (nothing_left_step _ _ _ _ _ St Off N) as [? ->]. done.
  - rewrite (v_got l V). destruct Pre as [x ->]. rewrite fmap_app, take_app_le; [done|].
    rewrite length_fmap, (outs_length _ _ O (v_outs l V)). apply V.
  - intros b Hb. destruct (v_batch l V b Hb) as (H1 & H2 & H3). split; [done|]. split; [done|].
    intros i r Hr. destruct (H3 i r Hr) as [? G]. split; [done|]. intros E1 E2. destruct (G E1 E2) as [? Hin].
    split; [done|]. by eapply elem_of_prefix.
  - intros k Hk. by apply Cm, V.
Qed.

(** What the result of a poll tells. *)
Lemma result_spec l rq lim o r :
  link_ok l → result_of rq lim o l = Some r →
  dr_want r = default 0%nat (rq_want rq) ∧
  (dr_err r = None → dr_status r = 200 → (rq, AChunk (dr_seq r) (dr_data r)) ∈ l_given l).
Proof.
  intros V. destruct o as [i a w rt tk|r0]; simpl.
  - destruct (l_given l !! i) as [[rq' g]|] eqn:E; [|done]. case_bool_decide as Q; [|done]. subst rq'.
    apply list_elem_of_lookup_2 in E. intros [= <-]. by destruct g.
  - destruct (_ && _) eqn:E; [|done]. bsplit. intros [= <-]. split; [done|]. intros E1 E2.
    apply orb_true_iff in H0 as [H0|H0]; bsplit; [|done]. rewrite E1 in H0. by destruct H0.
Qed.

Lemma ok_read l len windowed closed r c0 o c' polled :
  link_ok l → r_leftover c0 = [] → r_ackSeq c0 = r_ackSeq (l_r l) → r_leftover (l_r l) = [] →
  (windowed = false → r_batch c0 = None) →
  (∀ b, r_batch c0 = Some b → batch_next b = S (S (r_ackSeq c0)) ∧
     ∀ i r, batch_pending b !! i = Some r → dr_want r = i ∧
       (dr_err r = None → dr_status r = 200 → dr_seq r = i ∧ (Some i, dr_data r) ∈ outs (l_sys l))) →
  acks_upto (r_ackSeq c0) c0 →
  (dr_err r = None → dr_status r = 200 → dr_seq r = S (r_ackSeq c0) ∧ (windowed = true → dr_want r = dr_seq r) ∧
     (Some (dr_seq r), dr_data r) ∈ outs (l_sys l)) →
  absorb len windowed closed r c0 = (o, c') → polled = None →
  link_ok (with_reader c' o polled l).
Proof.
  intros V L A L0 W Bt Ak R Ab ->.
  pose proof (v_got l V) as G. rewrite L0, app_nil_r in G. pose proof (v_ack l V) as Va.
  apply absorb_link in Ab as [(E1 & E2 & E3 & E4)|(Er & St & E1 & E2 & E3 & E4)]; try done.
  - apply ok_reader; try done.
    + rewrite E1, A. lia.
    + by rewrite E1, E2, E3, A, G, !app_nil_r.
    + intros b wp Hb. by rewrite E4 in Hb.
    + rewrite E4. done.
  - destruct (R Er St) as (Sq & _ & Hin). rewrite Sq, A in Hin.
    destruct (out_at _ _ _ _ (link_ordered l V) (v_outs l V) Hin) as [Rg _].
    apply ok_reader; try done.
    + rewrite E1, A. lia.
    + rewrite E1, A, (got_next l _ V Hin), L0. simpl. by rewrite E2.
    + intros b Hb. destruct (E4 b Hb) as [N P]. split; [done|]. intros i r' Hr.
      destruct P as [P|(b0 & Hb0 & P)]; rewrite P in Hr; [by rewrite lookup_empty in Hr|]. by apply (Bt b0 Hb0).
  - intros b Hb. by apply Bt.
  - intros Q1 Q2. destruct (R Q1 Q2) as (? & ? & ?). done.
Qed.

Lemma link_acks l : link_ok l → acks_upto (r_ackSeq (l_r l)) (l_r l).
Proof.
  intros V b wp Hb Hw. destruct (v_batch l V b Hb) as (_ & R & _). apply R in Hw. by apply (v_reqs l V) in Hw.
Qed.

(** What a poll's answer means to the reader that asked it. *)
Lemma plain_answer l lim o r :
  link_ok l → result_of (Request (r_ackSeq (l_r l)) None) lim o l = Some r →
  dr_err r = None → dr_status r = 200 →
  dr_seq r = S (r_ackSeq (l_r l)) ∧ (Some (dr_seq r), dr_data r) ∈ outs (l_sys l).
Proof.
  intros V R E1 E2. destruct (result_spec _ _ _ _ _ V R) as [_ G]. destruct (v_chunk l V _ _ _ (G E1 E2)) as (H1 & H2 & _).
  split; [by apply H2|done].
Qed.

Lemma window_answer l ack want lim o r :
  link_ok l → result_of (Request ack (Some want)) lim o l = Some r →
  dr_want r = want ∧ (dr_err r = None → dr_status r = 200 → dr_seq r = want ∧ (Some want, dr_data r) ∈ outs (l_sys l)).
Proof.
  intros V R. destruct (result_spec _ _ _ _ _ V R) as [W G]. split; [done|]. intros E1 E2.
  destruct (v_chunk l V _ _ _ (G E1 E2)) as (H1 & _ & H3). specialize (H3 want eq_refl). by rewrite H3 in H1.
Qed.

Lemma read_begin_none c : read_begin (B:=B) 0 c = None → r_leftover c = [].
Proof. unfold read_begin. destruct (Z.ltb_spec 0 (blen (r_leftover c))) as [|H]; [done|]. intros _. apply blen_0. pose proof (blen_nonneg (r_leftover c)). lia. Qed.

Lemma ok_send l n u w :
  link_ok l → take_upload n (l_w l) = (u, w) →
  link_ok (Link w (l_offered l) (l_sent l ++ [up_data u]) (l_flights l ∪ {[up_seq u]}) (l_landed l) (l_sys l) (l_r l)
             (l_got l) (l_polled l) (l_reqs l) (l_given l)).
Proof.
  intros [] [= <- <-]. split; simpl; try done.
  - intros w H. apply v_run0. intros k d Hk. apply H. by apply lookup_app_l_Some.
  - rewrite concat_app. simpl. by rewrite app_nil_r, <- app_assoc, take_drop.
  - rewrite length_app. simpl. lia.
  - intros pd Hin. destruct (v_pend0 pd Hin) as (sq & ? & ?). exists sq. rewrite length_app. split; [done|lia].
  - rewrite length_app. lia.
  - intros k Hk. rewrite length_app. specialize (v_held0 k Hk). lia.
  - intros k. rewrite length_app. simpl. intros Hk. rewrite elem_of_union, elem_of_singleton, v_upSeq0.
    destruct (decide (k = S (length (l_sent l)))); [auto|]. destruct (v_flights0 k) as [?|[?|?]]; [lia|auto..].
Qed.

Lemma ok_land l k :
  link_ok l → committed k (queue (l_sys l)) = true →
  link_ok (with_flights (l_flights l ∖ {[k]}) (l_landed l ∪ {[k]}) l).
Proof.
  intros [] C. split; simpl; try done.
  - intros j [Hj|Hj]%elem_of_union; [auto|]. apply elem_of_singleton in Hj as ->. done.
  - intros j Hj. rewrite elem_of_difference, elem_of_union, not_elem_of_singleton, elem_of_singleton.
    destruct (decide (j = k)) as [->|N]; [auto|]. destruct (v_flights0 j Hj) as [?|[?|?]]; auto.
Qed.

Lemma ok_fail l k e :
  link_ok l → link_ok (with_writer (fail e (l_w l)) (with_flights (l_flights l ∖ {[k]}) (l_landed l) l)).
Proof.
  intros V. assert (is_Some (w_err (fail e (l_w l)))) as S1 by (unfold fail; destruct (w_err (l_w l)) eqn:E; [rewrite E|]; eauto).
  assert (w_pending (fail e (l_w l)) = w_pending (l_w l) ∧ w_upSeq (fail e (l_w l)) = w_upSeq (l_w l)) as [P U]
    by (unfold fail; by destruct (w_err (l_w l))).
  destruct V. split; simpl; rewrite ?P, ?U; auto.
Qed.

Lemma ok_give l rq k d :
  link_ok l → rq ∈ l_reqs l → chunk_for rq (queue (l_sys l)) = Some (k, d) → link_ok (with_given rq (AChunk k d) l).
Proof.
  intros V Hr C. pose proof (link_ordered l V) as O.
  assert (assigned (queue (l_sys l)) !! k = Some d ∧ (rq_want rq = None → rq_ack rq = r_ackSeq (l_r l) → k = S (rq_ack rq)) ∧
    ∀ want, rq_want rq = Some want → k = want) as (A & P & W).
  { unfold chunk_for in C. destruct (rq_want rq) as [want|].
    - destruct (assigned _ !! want) eqn:E; [|done]. injection C as <- <-. split_and!; [done..|]. by intros ? [= <-].
    - destruct (replay _ _ _) as [[d' k']|] eqn:E; [|done]. injection C as <- <-.
      assert (assigned (queue (l_sys l)) !! k' = Some d' ∧
        (is_Some (assigned (queue (l_sys l)) !! S (rq_ack rq)) → k' = S (rq_ack rq)) ∧ (rq_ack rq < seq (queue (l_sys l)))%nat) as (A & P & L).
      { destruct (seq (queue (l_sys l)) - rq_ack rq)%nat eqn:N; [done|]. split_and!; [| |lia].
        - clear -E. revert E. generalize (S n) as m, (S (rq_ack rq)) as j. intros m. induction m as [|m IH]; intros j E; simpl in E; [done|].
          destruct (assigned _ !! j) eqn:X; [by injection E as <- <-|by eapply IH].
        - intros [x Hx]. simpl in E. rewrite Hx in E. by injection E. }
      split_and!; [done| |done]. intros _ Ha. apply P, (v_kept l V). lia. }
  destruct V. split; simpl; try done.
  - intros rq' g [Hin|Hin]%elem_of_app; [by eapply v_asked0|]. apply list_elem_of_singleton in Hin. by injection Hin as -> ->.
  - intros rq' k' d' [Hin|Hin]%elem_of_app; [by apply v_chunk0|]. apply list_elem_of_singleton in Hin. injection Hin as -> -> ->.
    split; [|done]. by apply (o_assigned _ _ O).
  - intros rq' [Hin|Hin]%elem_of_app; [by apply v_closed0|]. apply list_elem_of_singleton in Hin. done.
Qed.

Lemma ok_give_closed l rq :
  link_ok l → rq ∈ l_reqs l → closed_for rq (l_sys l) = true → link_ok (with_given rq AClosed l).
Proof.
  intros V Hr C. unfold closed_for in C. bsplit.
  assert (seq (queue (l_sys l)) < rq_next rq ∨ rq_next rq ≤ r_ackSeq (l_r l))%nat as Sq.
  { unfold rq_next, chunk_for in *. destruct (rq_want rq) as [want|]; [bsplit; by left|].
    destruct (decide (seq (queue (l_sys l)) < S (rq_ack rq))%nat) as [|G]; [by left|right].
    pose proof (v_reqs l V _ Hr). destruct (decide (rq_ack rq = r_ackSeq (l_r l))) as [E|]; [|lia]. exfalso.
    destruct (v_kept l V (S (rq_ack rq))) as [x Hx]; [lia|].
    destruct (seq (queue (l_sys l)) - rq_ack rq)%nat eqn:N; [lia|]. simpl in H0. by rewrite Hx in H0. }
  destruct V. split; simpl; try done.
  - intros rq' g [Hin|Hin]%elem_of_app; [by eapply v_asked0|]. apply list_elem_of_singleton in Hin. by injection Hin as -> ->.
  - intros rq' k' d' [Hin|Hin]%elem_of_app; [by apply v_chunk0|]. apply list_elem_of_singleton in Hin. done.
  - intros rq' [Hin|Hin]%elem_of_app; [by apply v_closed0|]. apply list_elem_of_singleton in Hin. by injection Hin as ->.
Qed.

Lemma ok_leftover l len o c :
  link_ok l → read_begin len (l_r l) = Some (o, c) → link_ok (with_reader c o (l_polled l) l).
Proof.
  intros V. unfold read_begin. destruct (Z.ltb_spec 0 (blen (r_leftover (l_r l)))) as [L|L].
  - intros [= <- <-]. apply ok_reader; simpl; try done; try apply V.
    + split; [done|apply V].
    + by rewrite take_drop, (v_got l V).
    + by apply link_acks.
    + intros b Hb. destruct (v_batch l V b Hb) as (? & _ & ?). done.
    + intros rq lim Hp. destruct (v_polled l V _ _ Hp) as (? & ? & E). rewrite E in L. done.
  - destruct (r_eof (l_r l)); [|done]. intros [= <- <-]. apply ok_reader; simpl; try done; try apply V.
    + split; [done|apply V].
    + by apply link_acks.
    + intros b Hb. destruct (v_batch l V b Hb) as (? & _ & ?). done.
Qed.

Lemma ok_step l l' : link_ok l → lsteps l l' → link_ok l'.
Proof.
  intros V (a & p & p' & St). destruct a; simpl in St.
  - destruct (_ || _); [done|]. injection St as <- <-. destruct V. split; simpl; try done. by rewrite v_offered0, <- app_assoc.
  - destruct (_ || _); [done|]. injection St as <- <-. exact (ok_send l n _ _ V eq_refl).
  - injection St as <- <-. by apply ok_writer.
  - injection St as <- <-. by apply ok_writer.
  - injection St as <- <-. by apply ok_writer.
  - destruct (_ && _) eqn:E; [|done]. injection St as <- <-. apply andb_true_iff in E as [_ E]. by apply ok_land.
  - case_bool_decide; [|done]. injection St as <- <-. by apply ok_fail.
  - destruct (relay_may l e) eqn:M; [|done]. destruct (step _ _ _) as [[s p1]|] eqn:S1; [|done]. injection St as <- <-.
    by eapply ok_relay.
  - case_bool_decide; [|done]. destruct (chunk_for _ _) as [[k d]|] eqn:C; [|done]. injection St as <- <-. by apply ok_give.
  - destruct (_ && _) eqn:E; [|done]. injection St as <- <-. bsplit. by apply ok_give_closed.
  - destruct (read_begin _ _) as [[o c]|] eqn:R; [|done]. injection St as <- <-. by eapply ok_leftover.
  - destruct (r_batch (l_r l)) eqn:Bt; [done|]. destruct (l_polled l) eqn:P; [done|]. destruct (read_begin 0 (l_r l)) eqn:R; [done|].
    injection St as <- <-. apply read_begin_none in R. destruct V. split; simpl; try done.
    + intros rq [Hr|Hr]%elem_of_app; [by apply v_reqs0|]. apply list_elem_of_singleton in Hr as ->. done.
    + intros rq g Hin. apply elem_of_app. left. by eapply v_asked0.
    + intros b E. rewrite Bt in E. done.
    + intros rq lim [= <- _]. done.
  - destruct (l_polled l) as [[rq lim]|] eqn:P; [|done]. destruct (v_polled l V _ _ P) as (-> & Bt & L).
    destruct (result_of _ _ _ _) as [r|] eqn:R; [|done]. destruct (absorb _ _ _ _ _) as [out c] eqn:Ab. injection St as <- <-.
    eapply ok_read; [done|exact L|done|done|done| |by apply link_acks| |exact Ab|done].
    + intros b Hb. by rewrite Bt in Hb.
    + intros E1 E2. by destruct (plain_answer _ _ _ _ V R E1 E2).
  - destruct (r_batch (l_r l)) as [b|] eqn:Bt; [|done]. destruct (batch_polls b !! i) as [wp|] eqn:W; [|done].
    destruct (result_of _ _ _ _) as [r|] eqn:R; [|done]. injection St as <- <-.
    destruct (v_batch l V b Bt) as (N & Hreq & Hpend). destruct (window_answer _ _ _ _ _ _ V R) as [Wn G].
    apply ok_reader; simpl; try done; try apply V.
    + split; [done|apply V].
    + intros b' wp' [= <-] Hw. eapply (link_acks l V); [exact Bt|]. simpl in Hw.
      eapply elem_of_sublist; [exact Hw|apply sublist_delete].
    + intros b' [= <-]. simpl. split; [done|]. intros j r' [[<- <-]|[_ Hr]]%lookup_insert_Some; [|by apply Hpend].
      split; [done|]. rewrite Wn. done.
    + intros rq lim' Hp. destruct (v_polled l V _ _ Hp) as (_ & E & _). congruence.
  - destruct (r_batch (l_r l)) as [b|] eqn:Bt; [|done]. destruct (read_begin 0 (l_r l)) eqn:Rb; [done|].
    apply read_begin_none in Rb. unfold batch_take in St. destruct (batch_pending b !! batch_next b) as [r|] eqn:T; [|done].
    destruct (absorb _ _ _ _ _) as [out c] eqn:Ab. injection St as <- <-. destruct (v_batch l V b Bt) as (N & Hreq & Hpend).
    destruct (Hpend _ _ T) as [Wn G].
    assert (l_polled l = None) as P.
    { destruct (l_polled l) as [[rq lim]|] eqn:P; [|done]. destruct (v_polled l V _ _ P) as (_ & E & _). congruence. }
    eapply ok_read; [done| | | | | | | |exact Ab|exact P]; simpl; try done.
    + intros b' [= <-]. simpl. rewrite N. split; [done|]. intros j r' [_ Hr]%lookup_delete_Some. by apply Hpend.
    + intros b' wp [= <-] Hw. by eapply (link_acks l V).
    + intros E1 E2. destruct (G E1 E2) as [Sq Hin]. rewrite Sq, Wn, N. rewrite N in Hin. done.
Qed.

Lemma ok_opened l : opened l → link_ok l.
Proof.
  intros (ns & p & m1 & m2 & ->). unfold start. split; simpl; try done.
  - intros w _. apply reachable_init. exists ns, p. by left.
  - intros pd Hin. by apply elem_of_nil in Hin.
  - intros k [b Hb]. done.
  - intros rq Hin. by apply elem_of_nil in Hin.
  - intros rq g Hin. by apply elem_of_nil in Hin.
  - intros k Hk. lia.
  - intros rq k d Hin. by apply elem_of_nil in Hin.
  - intros rq Hin. by apply elem_of_nil in Hin.
  - intros k Hk. lia.
Qed.

Lemma linked_ok l : linked l → link_ok l.
Proof. apply invariant_reachable; [apply ok_opened|apply ok_step]. Qed.

(** ** The window of polls *)

Definition window_ok (c : reader B) : Prop :=
  ∀ b, r_batch c = Some b →
    (length (batch_polls b) + size (batch_pending b) + batch_next b ≤ S (batch_end b))%nat ∧
    (batch_end b ≤ r_ackSeq c + DownWindowSize)%nat ∧
    (∀ wp, wp ∈ batch_polls b → wp_ack wp < wp_want wp ≤ wp_ack wp + DownWindowSize ∧ wp_want wp ≤ batch_end b)%nat ∧
    (∀ i, is_Some (batch_pending b !! i) → i ≤ batch_end b)%nat.

Lemma window_after_chunk windowed r (c : reader B) :
  (windowed = false → r_batch c = None) →
  (∀ b, r_batch c = Some b → (length (batch_polls b) + size (batch_pending b) + batch_next b ≤ S (batch_end b))%nat ∧
    (r_ackSeq c ≤ batch_end b < r_ackSeq c + DownWindowSize)%nat ∧
    (∀ wp, wp ∈ batch_polls b → wp_ack wp < wp_want wp ≤ wp_ack wp + DownWindowSize ∧ wp_want wp ≤ batch_end b)%nat ∧
    (∀ i, is_Some (batch_pending b !! i) → i ≤ batch_end b)%nat) →
  window_ok (after_chunk windowed r c).
Proof.
  intros W H. unfold after_chunk. destruct windowed; cbn [andb negb].
  - destruct (blen (dr_data r) <? dr_max r) eqn:L.
    { destruct (blen (dr_data r) =? dr_max r) eqn:E; [bsplit; lia|]. by intros b [=]. }
    destruct (blen (dr_data r) =? dr_max r).
    + unfold extendBatch. destruct (r_batch c) as [b|] eqn:Bc; [|intros b Hb; congruence].
      destruct (H b eq_refl) as (H1 & H2 & H3 & H4). intros b' [= <-]. simpl. rewrite length_app. simpl. split_and!; try lia.
      * intros wp [Hw|Hw]%elem_of_app; [specialize (H3 wp Hw); lia|]. apply list_elem_of_singleton in Hw as ->. simpl. lia.
      * intros i Hi. specialize (H4 i Hi). lia.
    + intros b Hb. destruct (H b Hb) as (H1 & H2 & H3 & H4). split_and!; try done; lia.
  - specialize (W eq_refl). destruct (r_downWindow c && _); [|intros b Hb; congruence].
    intros b [= <-]. simpl. rewrite map_size_empty. unfold DownWindowSize. split_and!; try lia.
    + intros wp Hw. repeat (apply elem_of_cons in Hw as [->|Hw]; [simpl; lia|]). by apply elem_of_nil in Hw.
    + intros i [x Hx]. done.
Qed.

Lemma window_absorb len windowed closed r (c : reader B) o c' :
  (windowed = false → r_batch c = None) →
  (∀ b, r_batch c = Some b → (length (batch_polls b) + size (batch_pending b) + batch_next b ≤ S (batch_end b))%nat ∧
    (S (r_ackSeq c) ≤ batch_end b ≤ r_ackSeq c + DownWindowSize)%nat ∧
    (∀ wp, wp ∈ batch_polls b → wp_ack wp < wp_want wp ≤ wp_ack wp + DownWindowSize ∧ wp_want wp ≤ batch_end b)%nat ∧
    (∀ i, is_Some (batch_pending b !! i) → i ≤ batch_end b)%nat) →
  (dr_err r = None → dr_status r = 200 → dr_seq r = S (r_ackSeq c) ∧ (windowed = true → dr_want r = dr_seq r)) →
  absorb len windowed closed r c = (o, c') → window_ok c'.
Proof.
  intros W H R. unfold absorb.
  assert (∀ c0, r_batch c0 = r_batch c → window_ok (if windowed then stopBatch c0 else c0)) as Stop.
  { intros c0 E b. destruct windowed; [done|]. rewrite E, W; done. }
  destruct (dr_err r); [intros [= <- <-]; by apply Stop|]. set (c1 := set_learnt _ _ c).
  destruct (_ =? 204); [intros [= <- <-]; by apply Stop|]. destruct (Z.eqb_spec (dr_status r) 200) as [S2|].
  2: { destruct (_ || _); intros [= <- <-]; [|by apply Stop]. intros b Hb. specialize (Stop c1 eq_refl b).
       destruct windowed; [done|]. simpl in Hb. rewrite W in Hb; done. }
  destruct (R eq_refl S2) as [Sq Wn]. unfold take_chunk. rewrite Sq.
  destruct (windowed && negb (S (r_ackSeq c) =? dr_want r)%nat) eqn:E.
  { bsplit. rewrite Wn in H1 by done. lia. }
  destruct (adjustDownMax_frame (blen (dr_data r)) (dr_took r) (dr_retried r) c1) as [m ->]. cbn [negb Nat.eqb].
  simpl (r_ackSeq (set_downMax m c1)). rewrite (proj2 (Nat.leb_gt _ _)) by lia. cbn [andb].
  assert (window_ok (after_chunk windowed r (set_ack (S (r_ackSeq c)) (set_downMax m c1)))) as K.
  { apply window_after_chunk; [done|]. intros b Hb. destruct (H b Hb) as (H1 & H2 & H3 & H4). simpl. split_and!; try done; lia. }
  destruct (dr_data r); intros [= <- <-]; [done|]. exact K.
Qed.

Lemma window_step l l' : link_ok l → window_ok (l_r l) → lsteps l l' → window_ok (l_r l').
Proof.
  intros V H (a & p & p' & St). destruct a; simpl in St; try (case_hyp St; simplify_eq; simpl; done).
  - destruct (read_begin _ _) as [[o c]|] eqn:R; [|done]. injection St as <- <-. simpl. unfold read_begin in R.
    by case_hyp R; simplify_eq.
  - destruct (l_polled l) as [[rq lim]|] eqn:P; [|done]. destruct (v_polled l V _ _ P) as (-> & Bt & L).
    destruct (result_of _ _ _ _) as [r|] eqn:R; [|done]. destruct (absorb _ _ _ _ _) as [out c] eqn:Ab. injection St as <- <-.
    eapply window_absorb; [done| | |exact Ab]; [by rewrite Bt|]. intros E1 E2. by destruct (plain_answer _ _ _ _ V R E1 E2).
  - destruct (r_batch (l_r l)) as [b|] eqn:Bt; [|done]. destruct (batch_polls b !! i) as [wp|] eqn:W; [|done].
    destruct (result_of _ _ _ _) as [r|] eqn:R; [|done]. injection St as <- <-. destruct (window_answer _ _ _ _ _ _ V R) as [Wn G].
    destruct (H b Bt) as (H1 & H2 & H3 & H4). intros b' [= <-]. simpl.
    assert (wp ∈ batch_polls b) as Hin by by eapply list_elem_of_lookup_2.
    split_and!; [|done| |].
    + pose proof (length_delete (batch_polls b) i ltac:(by rewrite W)) as LD.
      assert (length (batch_polls b) ≠ 0)%nat by (intros Z; apply length_zero_iff_nil in Z; by rewrite Z in W).
      destruct (batch_pending b !! dr_want r) eqn:X;
        [rewrite map_size_insert_Some by (rewrite X; eauto)|rewrite map_size_insert_None by done]; lia.
    + intros wp' Hw. apply H3. eapply elem_of_sublist; [exact Hw|apply sublist_delete].
    + intros j [x [[<- _]|[_ Hx]]%lookup_insert_Some]; [rewrite Wn; by apply H3|apply H4; eauto].
  - destruct (r_batch (l_r l)) as [b|] eqn:Bt; [|done]. destruct (read_begin 0 (l_r l)) eqn:Rb; [done|].
    unfold batch_take in St. destruct (batch_pending b !! batch_next b) as [r|] eqn:T; [|done].
    destruct (absorb _ _ _ _ _) as [out c] eqn:Ab. injection St as <- <-. destruct (v_batch l V b Bt) as (N & Hreq & Hpend).
    destruct (Hpend _ _ T) as [Wn G]. destruct (H b Bt) as (H1 & H2 & H3 & H4).
    eapply (window_absorb len true closed r _ out c); [done| | |exact Ab]; simpl.
    + intros b' [= <-]. simpl. rewrite map_size_delete_Some by eauto. pose proof (H4 _ (ex_intro _ _ T)).
      assert (size (batch_pending b) ≠ 0)%nat by (intros Z; apply map_size_empty_iff in Z; by rewrite Z in T).
      split_and!; [lia|lia|lia|done|]. intros i [x Hx]. apply lookup_delete_Some in Hx as [_ Hx]. apply H4. eauto.
    + intros E1 E2. destruct (G E1 E2) as [Sq Hin]. by rewrite Sq, Wn, N.
Qed.

Lemma linked_window l : linked l → window_ok (l_r l).
Proof.
  intros L. enough (link_ok l ∧ window_ok (l_r l)) as [_ ?] by done. revert l L.
  apply (invariant_reachable opened lsteps (λ l, link_ok l ∧ window_ok (l_r l))).
  - intros l0 H. split; [by apply ok_opened|]. by destruct H as (ns & p & m1 & m2 & ->).
  - intros l0 l1 [V W] S. split; [by eapply ok_step|by eapply window_step].
Qed.

(** ** The theorems *)

(** What the relay has of the stream and no reader has been handed. *)
Definition at_relay s : list B := h_out s ++ h_got s ++ head (queue s) ++ concat (ch (queue s)).

Lemma sent_prefix l n : (n ≤ length (l_sent l))%nat → writes l <$> List.seq 1 n = take n (l_sent l).
Proof.
  intros H. apply list_eq. intros i. rewrite list_lookup_fmap.
  destruct (decide (i < n)%nat) as [L|G].
  - rewrite lookup_take_lt by done. assert (List.seq 1 n !! i = Some (S i)) as -> by by apply lookup_seq.
    simpl. unfold writes. simpl. destruct (lookup_lt_is_Some_2 (l_sent l) i) as [x ->]; [lia|]. done.
  - rewrite lookup_take_ge by lia. by rewrite lookup_seq_ge by lia.
Qed.

Lemma stream_taken l : link_ok l →
  concat (take (seqNext (queue (l_sys l)) - 1) (l_sent l)) = concat (snd <$> outs (l_sys l)) ++ at_relay (l_sys l).
Proof.
  intros V. pose proof (link_ordered l V) as O. destruct (o_log _ _ O) as (rest & E & F). rewrite (F (v_live l V)) in E.
  pose proof (o_next _ _ O). rewrite <- sent_prefix by (pose proof (v_next l V); lia).
  rewrite <- (o_entries _ _ O), <- numbered_entries by (apply V || apply O). rewrite E. unfold at_relay. by rewrite app_nil_r.
Qed.

(** C35: a session carries a stream.  Whatever requests and answers the carrier
    loses, repeats, delays or reorders, and however uploads, retries, polls and
    windows interleave, every byte offered to [Write] is, in order, in exactly
    one of these places: returned by [Read], left over from the reader's last
    chunk, in chunks the reader has not acknowledged, in the relay's queue, in
    uploads that have not landed, or waiting to be sent.  So what [Read] has
    returned is a prefix of what was written. *)
Theorem link_carries l :
  linked l →
  l_offered l =
    l_got l ++ r_leftover (l_r l)
    ++ concat (drop (r_ackSeq (l_r l)) (snd <$> outs (l_sys l)))
    ++ at_relay (l_sys l)
    ++ concat (drop (seqNext (queue (l_sys l)) - 1) (l_sent l))
    ++ w_pending (l_w l).
Proof.
  intros L. pose proof (linked_ok l L) as V. rewrite (v_offered l V).
  rewrite <- (take_drop (seqNext (queue (l_sys l)) - 1) (l_sent l)) at 1.
  rewrite concat_app, (stream_taken l V), <- (take_drop (r_ackSeq (l_r l)) (snd <$> outs (l_sys l))) at 1.
  rewrite concat_app, <- (v_got l V). by rewrite <- !app_assoc.
Qed.

(** A clean end is complete.  When every upload has landed and the reader
    gets the relay's own end of the stream as the answer to the chunk it needs
    next, it holds every byte that was ever offered: nothing was cut off. *)
Lemma clean_end_complete l rq :
  linked l → (rq, AClosed) ∈ l_given l → rq_next rq = S (r_ackSeq (l_r l)) →
  w_err (l_w l) = None → l_flights l = ∅ → w_pending (l_w l) = [] →
  l_got l ++ r_leftover (l_r l) = l_offered l.
Proof.
  intros L G N We Fl Pe. pose proof (linked_ok l L) as V. pose proof (link_ordered l V) as O.
  destruct (v_closed l V _ G) as [Nl Sq']. assert (seq (queue (l_sys l)) < S (r_ackSeq (l_r l)))%nat as Sq by lia. apply nothing_left_spec in Nl as (_ & H1 & H2 & H3 & H4).
  pose proof (stream_taken l V) as T. unfold at_relay in T. rewrite H1, H2, H3, H4 in T. simpl in T. rewrite app_nil_r in T.
  assert (∀ k, 0 < k ≤ length (l_sent l) → committed k (queue (l_sys l)) = true)%nat as C.
  { intros k Hk. destruct (v_flights l V k Hk) as [F|[F|F]]; [rewrite Fl in F; by apply not_elem_of_empty in F|by apply V|]. rewrite We in F. by destruct F. }
  assert (seqNext (queue (l_sys l)) = S (length (l_sent l))) as Nx.
  { pose proof (v_next l V). destruct (decide (seqNext (queue (l_sys l)) ≤ length (l_sent l))%nat) as [Le|]; [|lia].
    pose proof (o_next _ _ O). specialize (C (seqNext (queue (l_sys l))) ltac:(lia)). apply committed_spec in C as [_ [C|[b C]]]; [lia|].
    apply (o_held _ _ O) in C as [C _]. lia. }
  rewrite (v_offered l V), Pe, app_nil_r, (v_got l V). rewrite Nx in T.
  replace (S (length (l_sent l)) - 1)%nat with (length (l_sent l)) in T by lia. rewrite firstn_all in T. rewrite T.
  rewrite take_ge; [done|]. rewrite length_fmap, (outs_length _ _ O (v_outs l V)). lia.
Qed.

(** The window of polls stays within what both ends allow.  A reader never
    has more polls out or results waiting than the window's size, so a poll that
    ends never waits for room to say so; and every poll is for one of the chunks
    after its acknowledgement that the relay accepts a poll for. *)
Lemma window_bounded l :
  linked l → ∀ b, r_batch (l_r l) = Some b →
  (length (batch_polls b) + size (batch_pending b) ≤ DownWindowSize)%nat ∧
  Forall (λ wp, wp_ack wp < wp_want wp ≤ wp_ack wp + DownWindowSize)%nat (batch_polls b).
Proof.
  intros L b Hb. destruct (linked_window l L b Hb) as (H1 & H2 & H3 & _). destruct (v_batch l (linked_ok l L) b Hb) as [N _].
  split; [lia|]. apply Forall_forall. intros wp Hw. by apply H3.
Qed.

End link.

Arguments link : clear implicits.

(** ** Concrete runs *)

Section runs.
Context {B : Type} `{EqDecision B}.

Fixpoint lexec (acts : list (action (B:=B))) (l : link B) (p : residency) : option (link B * residency) :=
  match acts with
  | [] => Some (l, p)
  | a :: acts => match lstep a l p with Some (l, p) => lexec acts l p | None => None end
  end.

Definition fresh_link : link B :=
  Link (set_ordered true newWriter) [] [] ∅ ∅ (start (attach "" newSideQueue (newResidency 0)).1)
    (set_learnt false true newReader) [] None [] [].

Lemma lexec_linked acts l p l' p' : linked l → lexec acts l p = Some (l', p') → linked l'.
Proof.
  revert l p. induction acts as [|a acts IH]; intros l p L; simpl; [by intros [= <- _]|].
  destruct (lstep a l p) as [[l1 p1]|] eqn:E; [|done]. apply IH. eapply reachable_step; [exact L|]. by exists a, p, p1.
Qed.

Lemma fresh_linked : linked fresh_link.
Proof. apply reachable_init. by exists ""%string, (newResidency 0), true, true. Qed.

Definition run_link (acts : list (action (B:=B))) : link B :=
  match lexec acts fresh_link (newResidency 0) with Some (l, _) => l | None => fresh_link end.

Lemma run_linked acts : linked (run_link acts).
Proof.
  unfold run_link. destruct (lexec acts _ _) as [[l p]|] eqn:E; [|apply fresh_linked]. eapply lexec_linked; [apply fresh_linked|exact E].
Qed.
End runs.

(** The relay serves one poll of an acknowledging reader that takes [n] chunks
    from the channel. *)
Definition serve_poll {B} (ack n : nat) : list (action (B:=B)) :=
  map Relay ([ETurn Acked 100; ELook ack; EHead; EAppend] ++ concat (replicate n [ERecv; EAppend])
    ++ [EDrained; EPublish; EEnd]).

(** Two writes arrive in the wrong order; the reader takes them as one chunk in
    two reads, and is told of the end. *)
Definition sample_run : list (action (B:=Z)) :=
  [Offer [10; 20]; Send 1; Send 1]
  ++ map Relay [EAdmit 2 1 false; EAdmit 1 1 false; ECommit 0 [20]; ECommit 0 [10]]
  ++ [Land 2; Land 1; Ask false] ++ serve_poll 0 2
  ++ [Give (Request 0 None); Got 1 false (GotAnswer 0 true true false 0); Leftover 5; Relay EClose; Ask false;
      Relay (ETurn Acked 1); Relay (ELook 1); Relay EHead; Relay EAppend; Relay EDrained; Relay EPublish; Relay EEnd;
      GiveClosed (Request 1 None)].

Example sample_reads :
  l_got (run_link sample_run) = [10; 20] ∧ l_given (run_link sample_run) = [(Request 0 None, AChunk 1 [10; 20]); (Request 1 None, AClosed)].
Proof. vm_compute. done. Qed.

(** A full chunk opens a window of polls, and the next one moves it on. *)
Example window_opens :
  let full k := DownResult k 2 [k; k] k 200 true true false "" 0 None in
  let '(_, c) := absorb 2 false false (full 1%nat) newReader in
  let '(_, c') := absorb 2 true false (full 2%nat) c in
  option_map (λ b, map wp_want (batch_polls b)) (r_batch c) = Some [2; 3; 4; 5]%nat ∧
  option_map (λ b, map wp_want (batch_polls b)) (r_batch c') = Some [2; 3; 4; 5; 6]%nat.
Proof. vm_compute. done. Qed.

Lemma link_carries_witness :
  let l := run_link sample_run in
  l_got l = [10; 20] ∧
  l_offered l =
    l_got l ++ r_leftover (l_r l) ++ concat (drop (r_ackSeq (l_r l)) (snd <$> outs (l_sys l))) ++ at_relay (l_sys l)
    ++ concat (drop (seqNext (queue (l_sys l)) - 1) (l_sent l)) ++ w_pending (l_w l).
Proof. cbv zeta. split; [vm_compute; reflexivity|]. apply link_carries, run_linked. Defined.

Lemma clean_end_complete_witness :
  let l := run_link sample_run in l_got l ++ r_leftover (l_r l) = l_offered l ∧ l_offered l = [10; 20].
Proof.
  cbv zeta. split; [|vm_compute; reflexivity].
  apply (clean_end_complete (run_link sample_run) (Request 1 None) (run_linked _)); try (vm_compute; reflexivity).
  apply list_elem_of_lookup. exists 1%nat. vm_compute. reflexivity.
Defined.

(** A chunk as large as a poll may ask for opens the window.  The chunk is too
    long to compute with, so the run is followed with its length only. *)
Lemma lexec_cons {B} `{EqDecision B} a acts (l : link B) p l1 p1 R :
  lstep a l p = Some (l1, p1) → lexec acts l1 p1 = R → lexec (a :: acts) l p = R.
Proof. simpl. by intros ->. Qed.

Lemma lexec_relay {B} `{EqDecision B} e acts (l : link B) p s p1 R :
  relay_may l e = true → step e (l_sys l) p = Some (s, p1) → lexec acts (with_sys s l) p1 = R → lexec (Relay e :: acts) l p = R.
Proof. simpl. by intros -> ->. Qed.

Section full.
Context (d : list bool) (Hd : blen d = 262144).
Definition full_run : list (action (B:=bool)) :=
  [Offer d; Send (length d)]
  ++ map Relay [EAdmit 1 (blen d) false; ECommit 0 d] ++ [Land 1; Ask true]
  ++ map Relay [ETurn Acked laneZeroDownMax; ELook 0; EHead; EAppend; ERecv; EAppend; EDrained; EPublish; EEnd] ++
  [Give (Request 0 None); Got 1 false (GotAnswer 0 true true false 0)].

Lemma dn : (length d =? 0)%nat = false.
Proof. apply Nat.eqb_neq. intros E. unfold blen in Hd. rewrite E in Hd. done. Qed.
Lemma take_all : take (length d) d = d. Proof. by apply take_ge. Qed.
Lemma drop_all' : drop (length d) d = []. Proof. by apply drop_ge. Qed.

Ltac norm := rewrite ?dn, ?Nat.ltb_irrefl, ?Hd, ?take_all, ?drop_all', ?app_nil_r, ?bool_decide_eq_true_2 by done.
Lemma append_d q : appendCapped 262144 [] d q = (d, q).
Proof. unfold appendCapped. rewrite (proj2 (Nat.ltb_ge _ _)); [done|]. unfold blen in *. simpl. rewrite Z.sub_0_r. lia. Qed.
Ltac ran := vm_compute; lazymatch goal with |- Some _ = _ => reflexivity end.
Ltac go1 := eapply lexec_cons; [ran|].
Ltac red1 := cbn -[blen length take drop Nat.ltb Nat.eqb Z.ltb Z.leb Z.add Z.sub app bool_decide]; norm.
Ltac go2 := eapply lexec_cons; [do 2 red1; ran|].

Lemma full_chunk_opens :
  ∃ (l : link bool) b, linked l ∧ r_batch (l_r l) = Some b ∧ map wp_want (batch_polls b) = [2; 3; 4; 5]%nat.
Proof.
  enough (∃ (l : link bool) p b, lexec full_run fresh_link (newResidency 0) = Some (l, p) ∧ r_batch (l_r l) = Some b ∧
            map wp_want (batch_polls b) = [2; 3; 4; 5]%nat) as (l & p & b & E & Hb & M).
  { exists l, b. split; [|done]. eapply lexec_linked; [apply fresh_linked|exact E]. }
  unfold full_run. cbn [app map]. rewrite !Hd.
  assert (∃ x d', d = x :: d') as (x & d' & Dc) by (clear -Hd; destruct d; [done|eauto]). do 3 eexists. split.
  { go1. go2. go1.
    eapply lexec_relay; [by apply bool_decide_eq_true_2|unfold step, commitSeq, enqueueLocked, keepLocked, send; rewrite !Hd; ran|].
    do 7 go1. eapply lexec_relay; [done|unfold step; cbn [hand l_sys queue pl_reader]; rewrite append_d; ran|].
    go1. eapply lexec_relay; [done|unfold step; cbn [hand l_sys queue pl_reader]; rewrite Hd; ran|].
    do 2 go1. eapply lexec_cons; [|done].
    unfold lstep. cbn -[absorb]. rewrite bool_decide_eq_true_2 by done. unfold absorb, take_chunk, after_chunk. cbn [dr_err dr_data]. rewrite !Hd.
    rewrite Dc; ran. }
  split; reflexivity.
Qed.
End full.

Lemma window_bounded_witness :
  ∃ (l : link bool) b, r_batch (l_r l) = Some b ∧ map wp_want (batch_polls b) = [2; 3; 4; 5]%nat ∧
    (length (batch_polls b) + size (batch_pending b) ≤ DownWindowSize)%nat ∧
    Forall (λ wp, wp_ack wp < wp_want wp ≤ wp_ack wp + DownWindowSize)%nat (batch_polls b).
Proof.
  destruct (full_chunk_opens (replicate (Z.to_nat 262144) true)) as (l & b & L & Hb & W).
  - unfold blen. rewrite length_replicate. by apply Z2Nat.id.
  - exists l, b. split; [exact Hb|]. split; [exact W|]. exact (window_bounded l L b Hb).
Defined.
