(* ===== verification/LinkOps.v ===== *)
(** What ties [Link] to the code on both sides: the relay's handlers answer as
    the link takes them to, and the operations of a connection are its runs. *)

From S2P Require Import Prelude Residency SideQueue QueueSteps QueueFrames QueueOrder Sessions HttpConn LinkFrames Link.

Local Open Scope Z_scope.

Section ops.
Context {B : Type} `{EqDecision B}.
Implicit Types (q : sideQueue B) (s : sys (B:=B)) (l : link B).

(** ** The relay's handlers answer as the link says *)

(** A reader's poll as [handleHDown] plans it. *)
Definition plan_of (rq : request) (limit : Z) : poll_plan :=
  match rq_want rq with
  | None => AckPoll (Z.of_nat (rq_ack rq)) limit
  | Some want => WindowPoll (Z.of_nat (rq_ack rq)) (Z.of_nat want) limit
  end.

Lemma append_nothing lim (o b : list B) q q' :
  appendCapped lim o b q = ([], q') → 0 < lim → o = [] ∧ q' = q.
Proof.
  intros E L. apply appendCapped_spec in E as [[-> E]|(a & h & _ & _ & _ & E & G)]; [|unfold blen in G; simpl in G; lia].
  symmetry in E. by apply app_eq_nil in E as [-> _].
Qed.

Lemma fill_nothing fuel lim o t q t' q' :
  0 < lim → (length (ch q) ≤ fuel)%nat → fill fuel lim o t q = ([], t', q') → o = [] ∧ head q' = head q ∧ ch q' = [].
Proof.
  intros L. revert o t q. induction fuel as [|f IH]; intros o t q Hf; simpl.
  { intros [= -> _ <-]. destruct (ch q); [done|simpl in Hf; lia]. }
  destruct (Z.ltb_spec (blen o) lim) as [G|G]; [|intros [= -> _ _]; unfold blen in G; simpl in G; lia].
  unfold drainRecv. destruct (ch q) as [|b rest] eqn:C; [by intros [= -> _ <-]|].
  destruct (appendCapped lim o b (with_ch rest q)) as [o1 q1] eqn:E. intros F.
  assert (o1 = [] ∧ head q' = head q1 ∧ ch q' = []) as (-> & -> & ->).
  { apply IH in F; [done|]. apply appendCapped_spec in E as [[-> _]|(a & h & _ & _ & -> & _)]; simpl in *; lia. }
  by apply append_nothing in E as [-> ->].
Qed.

Lemma drained_left lim q p data closed q' p' :
  0 < lim → drainUpTo lim q p = (data, closed, q', p') →
  closed = done q' && (blen data =? 0) ∧ seq q' = seq q ∧ assigned q' = assigned q ∧ (blen data = 0 → head q' = [] ∧ ch q' = []).
Proof.
  intros L. unfold drainUpTo. destruct (drainHead lim q) as [out q1] eqn:H. destruct (fill _ _ _ _ _) as [[out2 tk] q2] eqn:F.
  destruct (if 0 <? tk then _ else _) as [q3 p3] eqn:R. intros [= <- <- <- <-].
  assert (head q3 = head q2 ∧ ch q3 = ch q2 ∧ seq q3 = seq q2 ∧ assigned q3 = assigned q2) as (-> & -> & -> & ->).
  { destruct (0 <? tk); [apply releaseLocked_spec in R as [[rm ->] _]|injection R as <- _]; done. }
  assert (∀ m o b (q0 : sideQueue B) o' q0', appendCapped m o b q0 = (o', q0') → seq q0' = seq q0 ∧ assigned q0' = assigned q0) as Ap.
  { intros l o b q0 o' q0' E. by apply appendCapped_spec in E as [[-> _]|(? & ? & _ & _ & -> & _)]. }
  assert (∀ fuel o t (q0 : sideQueue B) o' t' q0', fill fuel lim o t q0 = (o', t', q0') → seq q0' = seq q0 ∧ assigned q0' = assigned q0) as Fl.
  { induction fuel as [|f IH]; intros o t q0 o' t' q0'; simpl; [by intros [= _ _ <-]|]. destruct (blen o <? lim); [|by intros [= _ _ <-]].
    unfold drainRecv. destruct (ch q0); [by intros [= _ _ <-]|]. destruct (appendCapped _ _ _ _) eqn:E. intros G.
    apply IH in G as [-> ->]. by apply Ap in E. }
  assert (seq q1 = seq q ∧ assigned q1 = assigned q) as [S1 A1].
  { unfold drainHead in H. destruct (0 <? _); [by apply Ap in H|by injection H as _ <-]. }
  destruct (Fl _ _ _ _ _ _ _ F) as [-> ->]. rewrite S1, A1. split_and!; try done. intros Z. apply blen_0 in Z as ->.
  apply fill_nothing in F as (-> & -> & ->); [|done|done]. split; [|done].
  unfold drainHead in H. destruct (0 <? blen (head q)); [by apply append_nothing in H as [_ ->]|by injection H as <-].
Qed.

(** What the link takes the relay to answer is what its handlers answer.
    The take of [handleHDown]'s poll, whatever the direction holds, answers with
    the chunk [chunk_for] names in the state it leaves, and says the stream is
    closed only when [closed_for] holds there. *)
Lemma handlers_answer_link rq limit s p got q' p' :
  0 < limit → hand s = None → (rq_ack rq ≤ seq (queue s))%nat →
  poll_take (plan_of rq limit) (queue s) p = (got, q', p') →
  match got with
  | Some (Chunk d k) => chunk_for rq q' = Some (k, d)
  | Some Closed => closed_for rq (with_queue q' s) = true
  | _ => True
  end.
Proof.
  intros L Hd Ha. unfold plan_of, closed_for, chunk_for. destruct rq as [ack [want|]]; simpl in *.
  - rewrite !Nat2Z.id. unfold takeWindow. destruct (dropAcked ack (queue s) p) as [q1 p1] eqn:D.
    destruct (assigned q1 !! want) as [b|] eqn:A; [intros [= <- <- _]; by rewrite A|].
    destruct (Nat.leb_spec want (seq q1)); [by intros [= <- _ _]|]. destruct (Nat.ltb_spec (S (seq q1)) want); [by intros [= <- _ _]|].
    destruct (drainUpTo limit (beginTake q1) p1) as [[[data cl] q2] p2] eqn:Dr.
    apply drained_left in Dr as (-> & Sq & As & Em); [|done]. destruct (Z.eqb_spec (blen data) 0) as [Z|NZ].
    + rewrite andb_true_r. destruct (done q2) eqn:Dn; intros [= <- <- _]; [|done]. destruct (Em Z) as [E1 E2].
      rewrite !andb_true_iff. split_and!.
      * apply nothing_left_spec. unfold h_out, h_got. simpl. by rewrite Hd.
      * apply Nat.ltb_lt. simpl. rewrite Sq. simpl. lia.
      * simpl. rewrite As. simpl. by rewrite A.
    + intros [= <- <- _]. simpl. by rewrite lookup_insert_eq.
  - rewrite Nat2Z.id. unfold takeUpTo. destruct (dropAcked ack (beginTake (queue s)) p) as [q1 p1] eqn:D.
    assert (seq q1 = seq (queue s)) as S1.
    { apply dropAcked_spec in D as (kept & u & rm & n & -> & _). done. }
    destruct (replay (assigned q1) (S ack) (seq q1 - ack)) as [[b k]|] eqn:R; [intros [= <- <- _]; simpl; by rewrite R|].
    destruct (drainUpTo limit q1 p1) as [[[data cl] q2] p2] eqn:Dr.
    apply drained_left in Dr as (-> & Sq & As & Em); [|done]. destruct (Z.eqb_spec (blen data) 0) as [Z|NZ].
    + rewrite andb_true_r. destruct (done q2) eqn:Dn; intros [= <- <- _]; [|done]. destruct (Em Z) as [E1 E2].
      rewrite !andb_true_iff. split_and!; [|done|].
      * apply nothing_left_spec. unfold h_out, h_got. simpl. by rewrite Hd.
      * simpl. by rewrite As, Sq, R.
    + intros [= <- <- _]. simpl. rewrite Sq, As. rewrite S1 in R |- *. clear -R Ha.
      assert (∀ n j, replay (assigned q1) j n = None → replay (<[(j + n)%nat := data]> (assigned q1)) j (S n) = Some (data, (j + n)%nat)) as Rp.
      { induction n as [|n IH]; intros j; simpl; [intros _; rewrite Nat.add_0_r, lookup_insert_eq; done|].
        destruct (assigned q1 !! j) eqn:E; [done|]. intros F. rewrite lookup_insert_ne by lia. rewrite E.
        replace (j + S n)%nat with (S j + n)%nat by lia. by apply IH. }
      specialize (Rp _ _ R). replace (S (seq (queue s)) - ack)%nat with (S (seq (queue s) - ack)) by lia.
      replace (S ack + (seq (queue s) - ack))%nat with (S (seq (queue s))) in Rp by lia. by rewrite Rp.
Qed.

(** ** The writer's operations are runs of the link *)

(** A run that moves only the writer, sending [us]. *)
Record writer_run (l : link B) (d : list B) (us : list (upload B)) (w' : writer B) (l' : link B) : Prop := {
  wr_run : rtc lsteps l l';
  wr_w : l_w l' = w';
  wr_offered : l_offered l' = l_offered l ++ d;
  wr_sent : l_sent l' = l_sent l ++ (up_data <$> us);
  wr_rest : l_sys l' = l_sys l ∧ l_r l' = l_r l ∧ l_got l' = l_got l ∧ l_landed l' = l_landed l }.

Lemma writer_run_refl l : writer_run l [] [] (l_w l) l.
Proof. split; [apply rtc_refl|done|by rewrite app_nil_r|by rewrite app_nil_r|done]. Qed.

Lemma writer_run_trans l d1 us1 w1 l1 d2 us2 w2 l2 :
  writer_run l d1 us1 w1 l1 → writer_run l1 d2 us2 w2 l2 → writer_run l (d1 ++ d2) (us1 ++ us2) w2 l2.
Proof.
  intros [R1 W1 O1 S1 (A1 & A2 & A3 & A4)] [R2 W2 O2 S2 (C1 & C2 & C3 & C4)]. split; [by etrans|done| | |].
  - by rewrite O2, O1, <- app_assoc.
  - by rewrite S2, S1, fmap_app, <- app_assoc.
  - split_and!; congruence.
Qed.

Definition any_account : residency := newResidency 0.

Lemma one_step (a : action (B:=B)) (l l' : link B) : lstep a l any_account = Some (l', any_account) → lsteps l l'.
Proof. intros H. by exists a, any_account, any_account. Qed.

Lemma timer_run l t g : writer_run l [] [] (set_timer t g (l_w l)) (with_writer (set_timer t g (l_w l)) l).
Proof.
  split; simpl; rewrite ?app_nil_r; try done. apply rtc_once, (one_step (Timer t g)). done.
Qed.

Lemma shut_run l : writer_run l [] [] (set_closed (l_w l)) (with_writer (set_closed (l_w l)) l).
Proof. split; simpl; rewrite ?app_nil_r; try done. by apply rtc_once, (one_step Shut). Qed.

Lemma offer_run l d : w_closed (l_w l) = false → w_err (l_w l) = None →
  ∃ l', writer_run l d [] (set_pending (w_pending (l_w l) ++ d) (l_w l)) l'.
Proof.
  intros C E. eexists. split; [apply rtc_once, (one_step (Offer d)); simpl; by rewrite C, E|simpl; rewrite ?app_nil_r; done..].
Qed.

Lemma take_run l n u w : w_closed (l_w l) = false → (0 < n ≤ length (w_pending (l_w l)))%nat →
  take_upload n (l_w l) = (u, w) → ∃ l', writer_run l [] [u] w l' ∧ up_seq u ∈ l_flights l'.
Proof.
  intros C N T. eexists. split.
  - split; [apply rtc_once, (one_step (Send n)); simpl|simpl..].
    + rewrite C, (proj2 (Nat.eqb_neq _ _)), (proj2 (Nat.ltb_ge _ _)) by lia. simpl. injection T as <- <-. reflexivity.
    + injection T as <- <-. done.
    + by rewrite app_nil_r.
    + injection T as <- <-. done.
    + done.
  - injection T as <- <-. simpl. apply elem_of_union. right. by apply elem_of_singleton.
Qed.

Lemma send_run l answer n e u w : w_closed (l_w l) = false → (0 < n ≤ length (w_pending (l_w l)))%nat →
  sendLocked answer n (l_w l) = (e, u, w) → ∃ l', writer_run l [] [u] w l'.
Proof.
  intros C N. unfold sendLocked. destruct (take_upload n (l_w l)) as [u0 w0] eqn:T.
  destruct (take_run l n u0 w0 C N T) as (l1 & R & F).
  destruct (up_waits u0); [|intros [= <- <- <-]; eauto]. unfold settle_upload.
  destruct (answer (up_seq u0)) as [r o]. simpl. intros [= <- <- <-].
  assert (writer_run l1 [] [] (set_ordered (w_ordered w0 || o) w0) (with_writer (set_ordered (w_ordered w0 || o) w0) l1)) as R1.
  { split; simpl; rewrite ?app_nil_r; try done. destruct o.
    - rewrite orb_true_r. apply rtc_once, (one_step Learn). simpl. by rewrite (wr_w _ _ _ _ _ R).
    - rewrite orb_false_r. rewrite <- (wr_w _ _ _ _ _ R). destruct l1 as [[] ? ? ? ? ? ? ? ? ? ?]. apply rtc_refl. }
  pose proof (writer_run_trans _ _ _ _ _ _ _ _ _ R R1) as R2. simpl in R2.
  destruct r as [e|]; [|eauto].
  eexists. eapply (writer_run_trans _ [] [u0] _ _ [] []); [exact R2|].
  split; [apply rtc_once, (one_step (Fail (up_seq u0) e)); simpl; rewrite bool_decide_eq_true_2 by exact F; reflexivity|simpl; rewrite ?app_nil_r; done..].
Qed.

Lemma sendLocked_frame answer n (w : writer B) e u w' :
  sendLocked answer n w = (e, u, w') → w_closed w' = w_closed w ∧ w_pending w' = drop n (w_pending w).
Proof.
  unfold sendLocked, take_upload, settle_upload. destruct (up_waits _); [|by intros [= _ _ <-]].
  destruct (answer _) as [[e0|] o]; intros [= _ _ <-]; [|done]. unfold fail. by destruct (w_err _).
Qed.

Lemma batches_run fuel answer l e us w :
  w_closed (l_w l) = false → send_batches fuel answer (l_w l) = (e, us, w) → ∃ l', writer_run l [] us w l'.
Proof.
  revert l us. induction fuel as [|f IH]; intros l us C; simpl; [intros [= <- <- <-]; eexists; apply writer_run_refl|].
  destruct (Z.leb_spec writeBatchBytes (blen (w_pending (l_w l)))) as [L|L]; [|intros [= <- <- <-]; eexists; apply writer_run_refl].
  destruct (sendLocked answer (Z.to_nat writeBatchBytes) (l_w l)) as [[e1 u] w1] eqn:S1.
  assert (0 < Z.to_nat writeBatchBytes ≤ length (w_pending (l_w l)))%nat as N.
  { unfold blen in L. split; [apply (Z2Nat.inj_lt 0); done|]. apply Nat2Z.inj_le. rewrite Z2Nat.id; [lia|done]. }
  destruct (send_run l answer _ _ _ _ C N S1) as [l1 R]. destruct e1 as [e1|]; [intros [= <- <- <-]; eauto|].
  destruct (send_batches f answer w1) as [[e2 us2] w2] eqn:S2. intros [= <- <- <-].
  destruct (IH l1 us2) as [l2 R2].
  - rewrite (wr_w _ _ _ _ _ R). by destruct (sendLocked_frame _ _ _ _ _ _ S1) as [-> _].
  - by rewrite (wr_w _ _ _ _ _ R).
  - exists l2. apply (writer_run_trans _ [] [u] _ _ [] us2 _ _ R R2).
Qed.

Lemma stop_run l : ∃ l', writer_run l [] [] (stopFlushTimerLocked (l_w l)) l'.
Proof. unfold stopFlushTimerLocked. destruct (w_timer (l_w l)); eexists; [apply timer_run|apply writer_run_refl]. Qed.

(** Send everything that waits, if anything does. *)
Lemma flush_run l answer e u w :
  w_closed (l_w l) = false → blen (w_pending (l_w l)) ≠ 0 →
  sendLocked answer (length (w_pending (l_w l))) (l_w l) = (e, u, w) → ∃ l', writer_run l [] [u] w l'.
Proof. intros C N. apply send_run; [done|]. unfold blen in N. lia. Qed.

Lemma stop_frame (w : writer B) : w_closed (stopFlushTimerLocked w) = w_closed w ∧
  w_pending (stopFlushTimerLocked w) = w_pending w ∧ w_err (stopFlushTimerLocked w) = w_err w.
Proof. unfold stopFlushTimerLocked. by destruct (w_timer w). Qed.

Lemma write_run l answer d res us w :
  w_closed (l_w l) = false → Write answer d (l_w l) = (res, us, w) →
  ∃ l', writer_run l (match w_err (l_w l) with None => d | Some _ => [] end) us w l'.
Proof.
  intros C. unfold Write. rewrite C. destruct (w_err (l_w l)) as [e0|] eqn:E0.
  { intros [= <- <- <-]. eexists. apply writer_run_refl. }
  destruct (offer_run l d C E0) as [l1 R1]. set (w1 := set_pending _ _) in *.
  set (w2 := if writeBatchBytes <=? blen (w_pending w1) then stopFlushTimerLocked w1 else w1).
  assert (w_closed w2 = false ∧ ∃ l2, writer_run l d [] w2 l2) as (C2 & l2 & R2).
  { unfold w2. destruct (_ <=? _); [|eauto]. destruct (stop_frame w1) as (-> & _). split; [done|].
    destruct (stop_run l1) as [l2 R2]. rewrite (wr_w _ _ _ _ _ R1) in R2. exists l2.
    pose proof (writer_run_trans _ _ _ _ _ _ _ _ _ R1 R2) as R. by rewrite app_nil_r in R. }
  clearbody w2. destruct (send_batches _ answer w2) as [[e us0] w3] eqn:SB.
  destruct (batches_run (Z.to_nat (blen (w_pending w2) / writeBatchBytes)) answer l2 e us0 w3) as [l3 R3];
    [by rewrite (wr_w _ _ _ _ _ R2)|by rewrite (wr_w _ _ _ _ _ R2)|].
  pose proof (writer_run_trans _ _ _ _ _ _ _ _ _ R2 R3) as R. rewrite app_nil_r in R. simpl in R.
  destruct e as [e|]; intros [= <- <- <-]; [eauto|]. unfold arm_timer. destruct (_ && _); [|eauto].
  pose proof (timer_run l3 true (S (w_flushGen w3))) as RT. rewrite (wr_w _ _ _ _ _ R) in RT. eexists.
  pose proof (writer_run_trans _ _ _ _ _ _ _ _ _ R RT) as RR. by rewrite !app_nil_r in RR.
Qed.

Lemma flushWrites_run l answer e us w :
  w_closed (l_w l) = false → flushWrites answer (l_w l) = (e, us, w) → ∃ l', writer_run l [] us w l'.
Proof.
  intros C. destruct (stop_frame (l_w l)) as (Cs & _). rewrite C in Cs. destruct (stop_run l) as [ls Rs]. unfold flushWrites.
  destruct (w_err (l_w l)); [intros [= <- <- <-]; eexists; apply writer_run_refl|].
  destruct (Z.eqb_spec (blen (w_pending (stopFlushTimerLocked (l_w l)))) 0) as [Z|NZ]; [intros [= <- <- <-]; eauto|].
  destruct (sendLocked _ _ _) as [[e1 u] w1] eqn:S1. intros [= <- <- <-].
  rewrite <- (wr_w _ _ _ _ _ Rs) in S1, NZ, Cs. destruct (flush_run ls answer _ _ _ Cs NZ S1) as [l2 R2].
  exists l2. apply (writer_run_trans _ [] [] _ _ [] [u] _ _ Rs R2).
Qed.

Lemma timer_fired_run l answer gen us w :
  flushTimerFired answer gen (l_w l) = (us, w) → ∃ l', writer_run l [] us w l'.
Proof.
  unfold flushTimerFired. destruct (_ || _); [intros [= <- <-]; eexists; apply writer_run_refl|].
  pose proof (timer_run l false (w_flushGen (l_w l))) as RT. destruct (_ || _) eqn:G; [intros [= <- <-]; eauto|].
  bsplit. destruct (sendLocked _ _ _) as [[e1 u] w1] eqn:S1. intros [= <- <-].
  destruct (flush_run (with_writer (set_timer false (w_flushGen (l_w l)) (l_w l)) l) answer e1 u w1) as [l2 R2]; [done|done|done|].
  exists l2. apply (writer_run_trans _ [] [] _ _ [] [u] _ _ RT R2).
Qed.

Lemma close_run l answer us tail w :
  w_closed (l_w l) = false → Close_begin answer (l_w l) = Some (us, tail, w) →
  (∃ l', writer_run l [] (us ++ match tail with Some u => [u] | None => [] end) w l') ∧
  (w_err (l_w l) = None → w_pending w = []).
Proof.
  intros C. unfold Close_begin. rewrite C. destruct (stop_frame (l_w l)) as (Cs & _ & Es). rewrite C in Cs.
  destruct (stop_run l) as [ls Rs].
  assert (∀ l1 us w1, writer_run l [] us w1 l1 → ∃ l', writer_run l [] us (set_closed w1) l') as Fin.
  { intros l1 us1 w1 R. pose proof (shut_run l1) as RS. rewrite (wr_w _ _ _ _ _ R) in RS. eexists.
    pose proof (writer_run_trans _ _ _ _ _ _ _ _ _ R RS) as RR. by rewrite !app_nil_r in RR. }
  rewrite Es. destruct (w_err (l_w l)) eqn:E0; [intros [= <- <- <-]; split; [by eapply Fin|done]|].
  destruct (Z.eqb_spec (blen (w_pending (stopFlushTimerLocked (l_w l)))) 0) as [Z|NZ].
  { intros [= <- <- <-]. split; [by eapply Fin|]. intros _. simpl. by apply blen_0. }
  rewrite <- (wr_w _ _ _ _ _ Rs) in NZ, Cs |- *. destruct (w_ordered _) eqn:Or.
  - destruct (take_upload _ _) as [u w1] eqn:T. intros [= <- <- <-].
    destruct (take_run ls (length (w_pending (l_w ls))) _ _ Cs ltac:(unfold blen in NZ; lia) T) as (l2 & R2 & _).
    split; [eapply Fin, (writer_run_trans _ [] [] _ _ [] [u] _ _ Rs R2)|]. intros _. injection T as <- <-. simpl. apply drop_all.
  - destruct (sendLocked _ _ _) as [[e1 u] w1] eqn:S1. intros [= <- <- <-].
    destruct (flush_run ls answer _ _ _ Cs NZ S1) as [l2 R2].
    split; [eapply Fin, (writer_run_trans _ [] [] _ _ [] [u] _ _ Rs R2)|]. intros _. simpl.
    apply sendLocked_frame in S1 as [_ ->]. apply drop_all.
Qed.

(** The operations of a connection are runs of the link, so what holds of
    every run holds of them.  Whatever its posts come to, [Write] offers the
    bytes it is given (none when it refuses at once) and sends uploads cut from
    what waits; so do the flush that a [Read] begins with, the timer's, and the
    one of [Close], which leaves nothing waiting. *)
Lemma writer_refines l answer :
  w_closed (l_w l) = false →
  (∀ d res us w, Write answer d (l_w l) = (res, us, w) →
     ∃ l', writer_run l (match w_err (l_w l) with None => d | Some _ => [] end) us w l') ∧
  (∀ e us w, flushWrites answer (l_w l) = (e, us, w) → ∃ l', writer_run l [] us w l') ∧
  (∀ gen us w, flushTimerFired answer gen (l_w l) = (us, w) → ∃ l', writer_run l [] us w l') ∧
  (∀ us tail w, Close_begin answer (l_w l) = Some (us, tail, w) →
     (∃ l', writer_run l [] (us ++ match tail with Some u => [u] | None => [] end) w l') ∧
     (w_err (l_w l) = None → w_pending w = [])).
Proof.
  intros C. split_and!; intros; [by eapply write_run|by eapply flushWrites_run|by eapply timer_fired_run|by eapply close_run].
Qed.
End ops.

Lemma writer_refines_witness :
  ∃ l', writer_run (B:=Z) fresh_link [10; 20] [] (arm_timer (set_pending [10; 20] (set_ordered true newWriter))) l'.
Proof.
  destruct (writer_refines (B:=Z) fresh_link (λ _, (None, false)) eq_refl) as [W _].
  exact (W [10; 20] (Ok 2%nat) [] _ eq_refl).
Defined.

Lemma handlers_answer_link_witness :
  match poll_take (plan_of (Request 0 None) 3) (with_ch [[1; 2]; [3; 4]] newSideQueue) (newResidency 0) with
  | (Some (Chunk d k), q', _) => d = [1; 2; 3] ∧ chunk_for (Request 0 None) q' = Some (k, d)
  | _ => False
  end.
Proof.
  pose proof (handlers_answer_link (Request 0 None) 3 (start (with_ch [[1; 2]; [3; 4]] newSideQueue)) (newResidency 0)) as T.
  destruct (poll_take _ _ _) as [[got q'] p'] eqn:E. specialize (T got q' p' eq_refl eq_refl (Nat.le_refl 0) eq_refl).
  vm_compute in E. injection E as <- <- _. split; [reflexivity|exact T].
Defined.
