(* ===== verification/Tables.v ===== *)
(** The relay's database ([internal/relay/migrations]): its rows, its tables as
    one record, and the SQL statements the relay's queries are made of.  A
    table is the list of its rows in insertion order; [now()] and [time.Now]
    are the argument [now] of a query.  Every query of the model succeeds or
    breaks a constraint of the schema; the failures of a connection are not
    modelled. *)

From S2P Require Import Prelude GoStrings GoCodec.

Local Open Scope Z_scope.

(** ** Statements *)

Section statements.
Context {A : Type}.

(** [UPDATE … SET f WHERE p]; [DELETE … WHERE p] is [delete_func p],
    [SELECT … WHERE p] of at most one row [find_first p], [EXISTS] is [any]. *)
Definition update_where (p : A → bool) (f : A → A) (l : list A) : list A :=
  map (λ x, if p x then f x else x) l.

Definition count_where (p : A → bool) (l : list A) : nat := length (List.filter p l).

Lemma elem_of_update_where p f l y :
  y ∈ update_where p f l ↔ ∃ x, x ∈ l ∧ y = if p x then f x else x.
Proof. unfold update_where. rewrite list_elem_of_fmap. naive_solver. Qed.

Lemma update_where_id p f l : (∀ x, x ∈ l → p x = true → f x = x) → update_where p f l = l.
Proof.
  unfold update_where. induction l as [|x l IH]; intros H; simpl; [done|].
  rewrite IH by (intros y Hy; apply H; by right). destruct (p x) eqn:E; [|done]. by rewrite H by (done || left).
Qed.

(** A column no statement changes keeps its values. *)
Lemma map_update_where {B} (g : A → B) p f l : (∀ x, g (f x) = g x) → map g (update_where p f l) = map g l.
Proof.
  intros H. unfold update_where. rewrite map_map. apply map_ext. intros x. by destruct (p x).
Qed.

Lemma any_update_where q p f l :
  (∀ x, x ∈ l → p x = true → q (f x) = q x) → any q (update_where p f l) = any q l.
Proof.
  intros H. unfold any, update_where. induction l as [|x l IH]; simpl; [done|].
  rewrite IH by (intros y Hy; apply H; by right). destruct (p x) eqn:E; [|done]. by rewrite H by (done || left).
Qed.

Lemma count_where_app p l1 l2 : count_where p (l1 ++ l2) = (count_where p l1 + count_where p l2)%nat.
Proof. unfold count_where. by rewrite List.filter_app, length_app. Qed.

Lemma count_where_0 p l : count_where p l = O ↔ any p l = false.
Proof.
  unfold count_where. rewrite length_zero_iff_nil, any_false. split.
  - intros H x Hx. destruct (p x) eqn:E; [|done]. assert (x ∈ List.filter p l) as I by by apply elem_of_filter_b.
    rewrite H in I. by apply elem_of_nil in I.
  - intros H. induction l as [|x l IH]; simpl; [done|]. rewrite H by left. apply IH. intros y Hy. apply H. by right.
Qed.

(** A statement that turns no row into a selected one selects no more. *)
Lemma count_where_le (p q : A → bool) (f : A → A) (l : list A) :
  (∀ x, x ∈ l → q (if p x then f x else x) = true → q x = true) →
  (count_where q (update_where p f l) ≤ count_where q l)%nat.
Proof.
  unfold count_where, update_where. induction l as [|x l IH]; intros H; simpl; [lia|].
  specialize (IH (λ y Hy, H y (list_elem_of_further y x l Hy))). specialize (H x (list_elem_of_here x l)).
  destruct (q (if p x then f x else x)); [rewrite H by done; simpl; lia|]. destruct (q x); simpl; lia.
Qed.

Lemma count_where_mono (p q : A → bool) (l : list A) :
  (∀ x, x ∈ l → p x = true → q x = true) → (count_where p l ≤ count_where q l)%nat.
Proof.
  unfold count_where. induction l as [|x l IH]; intros H; simpl; [lia|].
  specialize (IH (λ y Hy, H y (list_elem_of_further y x l Hy))). specialize (H x (list_elem_of_here x l)).
  destruct (p x); [rewrite H by done; simpl; lia|]. destruct (q x); simpl; lia.
Qed.

Lemma count_where_delete (p q : A → bool) (l : list A) : (count_where q (delete_func p l) ≤ count_where q l)%nat.
Proof.
  unfold count_where, delete_func. induction l as [|x l IH]; simpl; [lia|]. destruct (p x); simpl; destruct (q x); simpl; lia.
Qed.

(** A row a unique column identifies. *)
Lemma unique_row {B} (g : A → B) l x y : NoDup (map g l) → x ∈ l → y ∈ l → g x = g y → x = y.
Proof.
  intros N Hx Hy E. apply list_elem_of_lookup in Hx as [i Hi], Hy as [j Hj].
  assert (i = j) as ->; [|congruence]. eapply (NoDup_lookup _ _ _ (g x)); [exact N| |].
  - rewrite list_lookup_fmap, Hi. done.
  - rewrite list_lookup_fmap, Hj, E. done.
Qed.

Lemma find_first_unique {B} (g : A → B) p l x :
  NoDup (map g l) → x ∈ l → p x = true → (∀ y, p y = true → g y = g x) → find_first p l = Some x.
Proof.
  intros N Hx Px U. destruct (find_first p l) as [y|] eqn:E.
  - apply find_first_Some in E as [Hy Py]. f_equal. eapply unique_row; [exact N|done..|]. by apply U.
  - rewrite find_first_None in E. rewrite E in Px; done.
Qed.

Lemma count_where_unique {B} (g : A → B) p l x :
  NoDup (map g l) → x ∈ l → p x = true → (∀ y, y ∈ l → p y = true → g y = g x) → count_where p l = 1%nat.
Proof.
  intros N Hx Px U. apply list_elem_of_split in Hx as (l1 & l2 & ->). rewrite map_app in N. simpl in N.
  apply NoDup_app in N as (_ & D & [N2 _]%NoDup_cons). rewrite count_where_app.
  assert (∀ l', (∀ y, y ∈ l' → y ∈ l1 ++ x :: l2) → g x ∉ map g l' → count_where p l' = O) as Z.
  { intros l' S Nx. apply count_where_0, any_false. intros y Hy. destruct (p y) eqn:E; [|done]. exfalso. apply Nx.
    rewrite <- (U y (S y Hy) E). by apply list_elem_of_fmap_2. }
  rewrite (Z l1); [|intros y Hy; apply elem_of_app; by left|intros K; apply (D _ K); by left].
  unfold count_where. simpl. rewrite Px. simpl. f_equal. apply (Z l2); [|done]. intros y Hy. apply elem_of_app. right. by right.
Qed.

Lemma NoDup_snoc {B} (g : A → B) l x : NoDup (map g l) → (∀ y, y ∈ l → g y ≠ g x) → NoDup (map g (l ++ [x])).
Proof.
  intros N H. rewrite map_app. apply NoDup_app. split_and!; [done| |apply NoDup_singleton].
  intros b Hb [=->]%list_elem_of_singleton. apply list_elem_of_fmap in Hb as (y & E & Hy). by apply (H y).
Qed.

Lemma NoDup_delete {B} (g : A → B) p l : NoDup (map g l) → NoDup (map g (delete_func p l)).
Proof.
  unfold delete_func. induction l as [|x l IH]; simpl; [done|]. intros [H N]%NoDup_cons. specialize (IH N).
  destruct (p x); simpl; [done|]. apply NoDup_cons. split; [|done]. intros (y & E & Hy)%list_elem_of_fmap.
  apply H. apply list_elem_of_fmap. exists y. split; [done|]. by apply elem_of_filter_b in Hy as [].
Qed.
End statements.

#[export] Hint Rewrite @elem_of_update_where @any_update_where : wanctl.

(** ** Rows *)

Record user := User {
  u_provider : string; u_subject : string; u_ns : string; u_name : string; u_role : string; u_disabled : option Z }.

Record device := Device {
  d_owner : string; d_id : string; d_display : string; d_legacy : option string; d_alias : option string;
  d_fp : option string; d_usesID : bool; d_seen : Z }.

Record token := Token {
  t_id : nat; t_ns : string; t_kind : string; t_hash : string; t_label : string; t_expires : option Z; t_revoked : option Z }.

Record share := Share {
  a_id : nat; a_owner : string; a_device : string; a_grantee : string; a_manage : bool; a_revoked : option Z }.

(** The two states of a friendship. *)
Inductive friend_status := pending | accepted.
Record friendship := Friendship { f_id : nat; f_requester : string; f_addressee : string; f_status : friend_status; f_accepted : option Z; f_created : Z }.

Record invite := MkInvite { i_id : nat; i_login : string; i_by : string; i_used : option Z; i_usedBy : string }.

Record access_request := MkAccessRequest {
  r_id : nat; r_provider : string; r_subject : string; r_login : string; r_note : string; r_status : string;
  r_created : Z; r_decided : option Z; r_decidedBy : string }.

Record delegation_request := MkRequest {
  g_id : string; g_ticket : string; g_token : string; g_label : string; g_fp : string; g_status : string; g_ns : string;
  g_tokenID : option nat; g_created : Z; g_expires : Z; g_decided : option Z }.
Record delegation_device := GrantDevice { gd_grant : string; gd_ns : string; gd_device : string; gd_fp : string }.
Record delegation_job := MkJob {
  j_id : string; j_grant : string; j_request : string; j_hash : string; j_payload : string; j_state : string;
  j_result : option string; j_created : Z }.
Record scoped_token := MkScoped { s_token : nat; s_ns : string; s_device : string; s_fp : string; s_command : string }.

Record oauth_client := OAuthClient {
  c_ID : string; c_SecretHash : string; c_Name : string; c_RedirectURIs : list string; c_AuthMethod : string; c_CreatedAt : Z }.
Record oauth_refresh := OAuthRefresh {
  h_Hash : string; h_ClientID : string; h_Namespace : string; h_Grant : string; h_ExpiresAt : Z; h_RevokedAt : option Z }.

#[export] Instance friend_status_eq_dec : EqDecision friend_status.
Proof. solve_decision. Defined.
#[export] Instance delegation_request_eq_dec : EqDecision delegation_request.
Proof. solve_decision. Defined.

(** ** The database *)

Record db := Db {
  users : list user; devices : list device; tokens : list token; acl : list share; friends : list friendship;
  invites : list invite; access_requests : list access_request;
  delegations : list delegation_request; delegation_devices : list delegation_device; jobs : list delegation_job;
  scoped : list scoped_token; phones : gmap string string;
  clients : list oauth_client; refreshes : list oauth_refresh;
  serial : nat (** above every [serial] key given out *) }.

Definition empty_db : db := Db [] [] [] [] [] [] [] [] [] [] [] ∅ [] [] 1.

Definition on_users f (d : db) : db := Db (f (users d)) (devices d) (tokens d) (acl d) (friends d) (invites d)
  (access_requests d) (delegations d) (delegation_devices d) (jobs d) (scoped d) (phones d) (clients d) (refreshes d) (serial d).
Definition on_devices f (d : db) : db := Db (users d) (f (devices d)) (tokens d) (acl d) (friends d) (invites d)
  (access_requests d) (delegations d) (delegation_devices d) (jobs d) (scoped d) (phones d) (clients d) (refreshes d) (serial d).
Definition on_tokens f (d : db) : db := Db (users d) (devices d) (f (tokens d)) (acl d) (friends d) (invites d)
  (access_requests d) (delegations d) (delegation_devices d) (jobs d) (scoped d) (phones d) (clients d) (refreshes d) (serial d).
Definition on_acl f (d : db) : db := Db (users d) (devices d) (tokens d) (f (acl d)) (friends d) (invites d)
  (access_requests d) (delegations d) (delegation_devices d) (jobs d) (scoped d) (phones d) (clients d) (refreshes d) (serial d).
Definition on_friends f (d : db) : db := Db (users d) (devices d) (tokens d) (acl d) (f (friends d)) (invites d)
  (access_requests d) (delegations d) (delegation_devices d) (jobs d) (scoped d) (phones d) (clients d) (refreshes d) (serial d).
Definition on_invites f (d : db) : db := Db (users d) (devices d) (tokens d) (acl d) (friends d) (f (invites d))
  (access_requests d) (delegations d) (delegation_devices d) (jobs d) (scoped d) (phones d) (clients d) (refreshes d) (serial d).
Definition on_access f (d : db) : db := Db (users d) (devices d) (tokens d) (acl d) (friends d) (invites d)
  (f (access_requests d)) (delegations d) (delegation_devices d) (jobs d) (scoped d) (phones d) (clients d) (refreshes d) (serial d).
Definition on_delegations f (d : db) : db := Db (users d) (devices d) (tokens d) (acl d) (friends d) (invites d)
  (access_requests d) (f (delegations d)) (delegation_devices d) (jobs d) (scoped d) (phones d) (clients d) (refreshes d) (serial d).
Definition on_grants f (d : db) : db := Db (users d) (devices d) (tokens d) (acl d) (friends d) (invites d)
  (access_requests d) (delegations d) (f (delegation_devices d)) (jobs d) (scoped d) (phones d) (clients d) (refreshes d) (serial d).
Definition on_jobs f (d : db) : db := Db (users d) (devices d) (tokens d) (acl d) (friends d) (invites d)
  (access_requests d) (delegations d) (delegation_devices d) (f (jobs d)) (scoped d) (phones d) (clients d) (refreshes d) (serial d).
Definition on_scoped f (d : db) : db := Db (users d) (devices d) (tokens d) (acl d) (friends d) (invites d)
  (access_requests d) (delegations d) (delegation_devices d) (jobs d) (f (scoped d)) (phones d) (clients d) (refreshes d) (serial d).
Definition on_phones f (d : db) : db := Db (users d) (devices d) (tokens d) (acl d) (friends d) (invites d)
  (access_requests d) (delegations d) (delegation_devices d) (jobs d) (scoped d) (f (phones d)) (clients d) (refreshes d) (serial d).
Definition on_clients f (d : db) : db := Db (users d) (devices d) (tokens d) (acl d) (friends d) (invites d)
  (access_requests d) (delegations d) (delegation_devices d) (jobs d) (scoped d) (phones d) (f (clients d)) (refreshes d) (serial d).
Definition on_refreshes f (d : db) : db := Db (users d) (devices d) (tokens d) (acl d) (friends d) (invites d)
  (access_requests d) (delegations d) (delegation_devices d) (jobs d) (scoped d) (phones d) (clients d) (f (refreshes d)) (serial d).

(** The next value of a [serial] column.  The tables share one counter: what a
    key is does not matter, only that it is fresh. *)
Definition next_serial (d : db) : nat * db :=
  (serial d, Db (users d) (devices d) (tokens d) (acl d) (friends d) (invites d)
    (access_requests d) (delegations d) (delegation_devices d) (jobs d) (scoped d) (phones d) (clients d) (refreshes d) (S (serial d))).

(** ** Columns *)

Definition set_disabled (v : option Z) (u : user) : user := User (u_provider u) (u_subject u) (u_ns u) (u_name u) (u_role u) v.
Definition set_revoked (v : option Z) (t : token) : token := Token (t_id t) (t_ns t) (t_kind t) (t_hash t) (t_label t) (t_expires t) v.
Definition set_expires (v : option Z) (t : token) : token := Token (t_id t) (t_ns t) (t_kind t) (t_hash t) (t_label t) v (t_revoked t).
Definition revoke_share (now : Z) (a : share) : share := Share (a_id a) (a_owner a) (a_device a) (a_grantee a) (a_manage a) (Some now).
Definition set_manage (m : bool) (a : share) : share := Share (a_id a) (a_owner a) (a_device a) (a_grantee a) m (a_revoked a).
Definition set_share_device (v : string) (a : share) : share := Share (a_id a) (a_owner a) v (a_grantee a) (a_manage a) (a_revoked a).
Definition accept_friend (now : Z) (f : friendship) : friendship :=
  Friendship (f_id f) (f_requester f) (f_addressee f) accepted (Some now) (f_created f).
Definition use_invite (now : Z) (ns : string) (i : invite) : invite := MkInvite (i_id i) (i_login i) (i_by i) (Some now) ns.
Definition decide_request (now : Z) (status by_ : string) (r : access_request) : access_request :=
  MkAccessRequest (r_id r) (r_provider r) (r_subject r) (r_login r) (r_note r) status (r_created r) (Some now) by_.
Definition decide_delegation (now : Z) (status ns : string) (tok : option nat) (g : delegation_request) : delegation_request :=
  MkRequest (g_id g) (g_ticket g) (g_token g) (g_label g) (g_fp g) status ns tok (g_created g) (g_expires g) (Some now).
Definition finish_job (state result : string) (j : delegation_job) : delegation_job :=
  MkJob (j_id j) (j_grant j) (j_request j) (j_hash j) (j_payload j) state (Some result) (j_created j).
Definition revoke_refresh (now : Z) (h : oauth_refresh) : oauth_refresh :=
  OAuthRefresh (h_Hash h) (h_ClientID h) (h_Namespace h) (h_Grant h) (h_ExpiresAt h) (Some now).

Definition is_null {A} (o : option A) : bool := match o with None => true | Some _ => false end.

Lemma is_null_None {A} (o : option A) : is_null o = true ↔ o = None.
Proof. by destruct o. Qed.

(** [expires_at IS NULL OR expires_at > now()] *)
Definition unexpired (now : Z) (e : option Z) : bool := match e with None => true | Some e => now <? e end.

(** [HashToken]: the stored form of a raw token. *)
Definition HashToken (token : string) : string := hex_encode (sha256 token).
