(* ===== verification/Accounts.v ===== *)
(** [internal/relay/admin.go], [pgstore.go], [disable.go], [access.go],
    [alias.go], [device_id.go] and [approval_phone.go], their queries: who has
    an account, the tokens of a namespace, its devices and the switch that
    disables it.  A transaction that fails leaves the database as it was.

    Unicode case mapping, the database's [lower] and [uuid] are libraries, the
    operations of the class [Libraries]. *)

From S2P Require Import Prelude GoStrings GoUtf8 GoCodec Tables Trust.

Local Open Scope Z_scope.

(** [strings.ToLower], [strings.EqualFold], SQL's [lower] and
    [transport.ValidDeviceID]. *)
Class Libraries := {
  ToLower : string → string; EqualFold : string → string → bool; sql_lower : string → string;
  ValidDeviceID : string → bool }.

(** ** Errors *)

Inductive db_error :=
| ErrNoRows | ErrAccountDisabled | ErrNamespaceConflict | ErrPendingInvite | ErrInviteLogin
| InvalidSubject | InvalidLogin | UnsupportedProvider | ErrDuplicate
| ErrRequestOpen | ErrRequestSettled | ErrRequestCooldown | ErrDecision
| ErrNoSuchUser | ErrNoSuchFriend | ErrNotFriends
| ErrDeviceNotFound | ErrAmbiguous | ErrAliasInvalid | ErrRegistration
| ErrScan | ErrInvalid | ErrConflict | ErrLimit | ErrNotFound | ErrForbidden | ErrExpired | ErrScopedInvalid | ErrScopedLimit.

#[export] Instance db_error_eq_dec : EqDecision db_error.
Proof. solve_decision. Defined.

Definition day : Z := 24 * hour.

(** ** The switch that disables an account *)

Definition user_of (ns : string) (d : db) : option user := find_first (λ u, String.eqb (u_ns u) ns) (users d).

(** [namespaceEnabled]: a namespace with no user row is never disabled. *)
Definition namespaceEnabled (ns : string) (d : db) : bool :=
  negb (any (λ u, String.eqb (u_ns u) ns && negb (is_null (u_disabled u))) (users d)).

(** [None]: there is no such account. *)
Definition AccountDisabled (ns : string) (d : db) : option (option Z) := option_map u_disabled (user_of ns d).

Definition SetAccountDisabled (now : Z) (ns : string) (disabled : bool) (d : db) : option (option Z) * db :=
  let set u := set_disabled (if disabled then Some (default now (u_disabled u)) else None) u in
  let d := on_users (update_where (λ u, String.eqb (u_ns u) ns) set) d in
  (AccountDisabled ns d, d).

(** ** Tokens *)

(** The token rows a namespace-only lookup accepts. *)
Definition token_live (now : Z) (d : db) (h : string) (t : token) : bool :=
  String.eqb (t_hash t) h && is_null (t_revoked t) && negb (String.eqb (t_kind t) "delegated")
  && unexpired now (t_expires t) && namespaceEnabled (t_ns t) d.

Definition Resolve (now : Z) (raw : string) (d : db) : option string :=
  option_map t_ns (find_first (token_live now d (HashToken raw)) (tokens d)).

Definition TokenAccountDisabled (now : Z) (raw : string) (d : db) : bool :=
  any (λ t, String.eqb (t_hash t) (HashToken raw) && is_null (t_revoked t) && negb (String.eqb (t_kind t) "delegated")
            && unexpired now (t_expires t)
            && any (λ u, String.eqb (u_ns u) (t_ns t) && negb (is_null (u_disabled u))) (users d)) (tokens d).

(** [INSERT INTO tokens]: the hash is unique. *)
Definition insert_token (ns kind h label : string) (expires : option Z) (d : db) : result db_error (nat * db) :=
  if any (λ t, String.eqb (t_hash t) h) (tokens d) then Err ErrDuplicate
  else let '(id, d) := next_serial d in
       Ok (id, on_tokens (λ l, l ++ [Token id ns kind h label expires None]) d).

(** [rnd] is what [randHex] returned; the relay's clock keeps UTC, where
    [AddDate] adds days of 24 hours. *)
Definition IssueToken (now : Z) (rnd ns label : string) (days : Z) (d : db) : result db_error string * db :=
  let raw := ("wanctl_" ++ rnd)%string in
  match insert_token ns "access" (HashToken raw) label (if 0 <? days then Some (now + days * day) else None) d with
  | Ok (_, d) => (Ok raw, d)
  | Err e => (Err e, d)
  end.

Definition RevokeToken (now : Z) (ns : string) (id : nat) (d : db) : db :=
  on_tokens (update_where (λ t, (t_id t =? id)%nat && String.eqb (t_ns t) ns && is_null (t_revoked t)) (set_revoked (Some now))) d.

(** ** Who has an account *)

Section accounts.
Context `{Libraries}.

(** [strings.Trim s "-"] *)
Fixpoint trim_left_dash (s : string) : string :=
  match s with
  | String c s' => if Ascii.eqb c "-" then trim_left_dash s' else s
  | EmptyString => EmptyString
  end.
Fixpoint trim_right_dash (s : string) : string :=
  match s with
  | String c s' => match trim_right_dash s' with
                   | EmptyString => if Ascii.eqb c "-" then EmptyString else String c EmptyString
                   | t => String c t
                   end
  | EmptyString => EmptyString
  end.

Definition name_rune (r : Z) : bool := in_range 97 122 r || in_range 48 57 r || (r =? 45).

Definition deriveNS (identity : string) : string :=
  let s := match cut_at "@" identity with Some (String c a, _) => String c a | _ => identity end in
  trim_right_dash (trim_left_dash (of_bytes (map (λ r, if name_rune r then r else 45) (runes (ToLower s))))).

Definition guardNamespace (ns reserved : string) : bool :=
  negb (String.eqb ns "")
  && negb (negb (String.eqb reserved "") && EqualFold ns (trim_space reserved))
  && negb (equal_fold ns "portal").

Definition login_byte (c : ascii) : bool := name_rune (byte_val c).
Definition digit_byte (c : ascii) : bool := in_range 48 57 (byte_val c).
Definition validGitHubLogin (login : string) : bool := negb (String.eqb login "") && sforall login_byte login.
Definition decimalString (value : string) : bool := negb (String.eqb value "") && sforall digit_byte value.

Definition lookupIdentity (provider subject : string) (d : db) : option user :=
  find_first (λ u, String.eqb (u_provider u) provider && String.eqb (u_subject u) subject) (users d).

(** [INSERT … ON CONFLICT (namespace) DO NOTHING]; the pair of provider and
    subject is unique as well. *)
Definition insertIdentity (provider subject ns name role : string) (d : db) : result db_error (string * string * db) :=
  if bool_decide (is_Some (user_of ns d)) then
    match lookupIdentity provider subject d with
    | Some u => Ok (u_ns u, u_role u, d)
    | None => Err ErrNamespaceConflict
    end
  else if bool_decide (is_Some (lookupIdentity provider subject d)) then Err ErrDuplicate
  else Ok (ns, role, on_users (λ l, l ++ [User provider subject ns name role None]) d).

(** The invite an account is admitted by. *)
Definition open_invite (ns : string) (d : db) : option invite :=
  find_first (λ i, String.eqb (sql_lower (i_login i)) (sql_lower ns) && is_null (i_used i)) (invites d).

Definition has_admin (d : db) : bool := any (λ u, String.eqb (u_role u) "admin") (users d).

Definition mark_used (now : Z) (id : nat) (ns : string) (d : db) : result db_error db :=
  let open i := (i_id i =? id)%nat && is_null (i_used i) in
  if (count_where open (invites d) =? 1)%nat then Ok (on_invites (update_where open (use_invite now ns)) d)
  else Err ErrPendingInvite.

Definition resolveGitHubIdentity (now : Z) (subject ns name : string) (d : db) : result db_error (string * string * db) :=
  match lookupIdentity "github" subject d with
  | Some u => Ok (u_ns u, u_role u, d)
  | None =>
      let profile := if String.eqb name "" then ns else name in
      if has_admin d then
        match open_invite ns d with
        | None => Err ErrPendingInvite
        | Some i =>
            match insertIdentity "github" subject ns profile "user" d with
            | Err e => Err e
            | Ok (got, role, d) => match mark_used now (i_id i) got d with Ok d => Ok (got, role, d) | Err e => Err e end
            end
        end
      else insertIdentity "github" subject ns profile "admin" d
  end.

Definition ResolveIdentity (now : Z) (provider subject login name reserved : string) (d : db)
  : result db_error (string * string) * db :=
  let provider := ToLower (trim_space provider) in
  let subject := trim_space subject in
  let login := trim_space login in
  let name := trim_space name in
  let finish (r : result db_error (string * string * db)) :=
    match r with Ok (ns, role, d') => (Ok (ns, role), d') | Err e => (Err e, d) end in
  if String.eqb subject "" then (Err ErrNoRows, d)
  else match lookupIdentity provider subject d with
  | Some u =>
      match AccountDisabled (u_ns u) d with
      | Some (Some _) => (Err ErrAccountDisabled, d)
      | _ => (Ok (u_ns u, u_role u), d)
      end
  | None =>
      if String.eqb provider "header" then
        let ns := deriveNS subject in
        if negb (guardNamespace ns reserved) then (Err ErrNamespaceConflict, d)
        else finish (insertIdentity provider subject ns subject "user" d)
      else if String.eqb provider "github" then
        if negb (decimalString subject) then (Err InvalidSubject, d)
        else let ns := ToLower login in
             if negb (validGitHubLogin ns) then (Err InvalidLogin, d)
             else if negb (guardNamespace ns reserved) then (Err ErrNamespaceConflict, d)
             else finish (resolveGitHubIdentity now subject ns name d)
      else (Err UnsupportedProvider, d)
  end.

Definition RoleForNamespace (ns : string) (d : db) : option string := option_map u_role (user_of ns d).
Definition LookupUser (ns : string) (d : db) : bool := bool_decide (is_Some (user_of ns d)).

(** ** Invites and requests for access *)

(** The pending logins are unique. *)
Definition pending_login (login : string) (d : db) : bool :=
  any (λ i, String.eqb (i_login i) login && is_null (i_used i)) (invites d).

Definition insert_invite (login by_ : string) (d : db) : db :=
  let '(id, d) := next_serial d in on_invites (λ l, l ++ [MkInvite id login by_ None ""]) d.

Definition CreateInvite (login : string) (d : db) : result db_error string * db :=
  let login := ToLower (trim_space login) in
  if String.eqb login "" || negb (validGitHubLogin login) then (Err ErrInviteLogin, d)
  else if pending_login login d then (Err ErrDuplicate, d)
  else (Ok login, insert_invite login "" d).

Definition RevokeInvite (id : nat) (d : db) : bool * db :=
  let open i := (i_id i =? id)%nat && is_null (i_used i) in
  ((count_where open (invites d) =? 1)%nat, on_invites (delete_func open) d).

Definition accessRetryAfter : Z := 7 * day.

(** [accessRequestGate]: [None] lets the account file a new application. *)
Definition accessRequestGate (latest : option access_request) (now : Z) : option db_error :=
  match latest with
  | None => None
  | Some r =>
      if String.eqb (r_status r) "pending" then Some ErrRequestOpen
      else if String.eqb (r_status r) "approved" then Some ErrRequestSettled
      else if String.eqb (r_status r) "declined" then
        match r_decided r with Some at_ => if now <? at_ + accessRetryAfter then Some ErrRequestCooldown else None | None => None end
      else None
  end.

Definition accessRetryAt (latest : option access_request) (now : Z) : Z :=
  match latest with
  | Some r => match r_decided r with
              | Some at_ => if String.eqb (r_status r) "declined" && (now <? at_ + accessRetryAfter) then at_ + accessRetryAfter else 0
              | None => 0
              end
  | None => 0
  end.

(** The last row is the newest. *)
Definition LatestAccessRequest (provider subject : string) (d : db) : option access_request :=
  last (List.filter (λ r, String.eqb (r_provider r) provider && String.eqb (r_subject r) subject) (access_requests d)).

Definition CreateAccessRequest (now : Z) (provider subject login note : string) (d : db) : result db_error nat * db :=
  match accessRequestGate (LatestAccessRequest provider subject d) now with
  | Some e => (Err e, d)
  | None =>
      if any (λ r, String.eqb (r_provider r) provider && String.eqb (r_subject r) subject && String.eqb (r_status r) "pending")
             (access_requests d) then (Err ErrDuplicate, d)
      else let '(id, d) := next_serial d in
           (Ok id, on_access (λ l, l ++ [MkAccessRequest id provider subject login note "pending" now None ""]) d)
  end.

Definition DecideAccessRequest (now : Z) (id : nat) (status decidedBy : string) (d : db)
  : result db_error (option access_request) * db :=
  if negb (String.eqb status "approved") && negb (String.eqb status "declined") then (Err ErrDecision, d)
  else
    let waiting r := (r_id r =? id)%nat && String.eqb (r_status r) "pending" in
    match find_first waiting (access_requests d) with
    | None => (Ok None, d)
    | Some r =>
        let d := on_access (update_where waiting (decide_request now status decidedBy)) d in
        let d := if String.eqb status "approved" && negb (pending_login (r_login r) d)
                 then insert_invite (r_login r) decidedBy d else d in
        (Ok (Some (decide_request now status decidedBy r)), d)
    end.

(** ** Devices *)

Definition device_is (ns id : string) (v : device) : bool := String.eqb (d_owner v) ns && String.eqb (d_id v) id.
Definition device_of (ns id : string) (d : db) : option device := find_first (device_is ns id) (devices d).

Definition see_device (now : Z) (fp : string) (v : device) : device :=
  Device (d_owner v) (d_id v) (d_display v) (d_legacy v) (d_alias v)
    (if String.eqb fp "" then d_fp v else Some fp) (d_usesID v) now.

Definition UpsertDevice (now : Z) (ns name fp : string) (d : db) : db :=
  match device_of ns name d with
  | None => on_devices (λ l, l ++ [Device ns name name None None (if String.eqb fp "" then None else Some fp) false now]) d
  | Some _ => on_devices (update_where (λ v, device_is ns name v && negb (d_usesID v)) (see_device now fp)) d
  end.

(** The rows of an old name move to the device's id with it. *)
Definition promote (ns old id : string) (d : db) : db :=
  let d := on_devices (update_where (device_is ns old) (λ v,
             Device (d_owner v) id (d_display v) (Some old) (d_alias v) (d_fp v) true (d_seen v))) d in
  on_acl (update_where (λ a, String.eqb (a_owner a) ns && String.eqb (a_device a) old) (set_share_device id)) d.

(** The first row [ORDER BY device_id]; the database orders text by its bytes. *)
Definition least_id (l : list device) : option device :=
  fold_left (λ best v, match best with
                       | Some b => if String.ltb (d_id v) (d_id b) then Some v else best
                       | None => Some v
                       end) l None.

(** The legacy row of an installation, the one under its own name first. *)
Definition legacy_of (ns name fp : string) (d : db) : option device :=
  let old v := String.eqb (d_owner v) ns && bool_decide (d_fp v = Some fp) && negb (d_usesID v) in
  match find_first (λ v, old v && String.eqb (d_id v) name) (devices d) with
  | Some v => Some v
  | None => least_id (List.filter old (devices d))
  end.

Definition renew_device (now : Z) (name fp : string) (v : device) : device :=
  Device (d_owner v) (d_id v) name (d_legacy v) (d_alias v) (Some fp) (d_usesID v) now.

(** The answer says whether the device is new. *)
Definition RegisterDevice (now : Z) (ns id name fp : string) (d : db) : result db_error bool * db :=
  let known := bool_decide (is_Some (device_of ns id d)) in
  let '(known, d') :=
    if known then (true, d)
    else match legacy_of ns name fp d with
         | Some v => (true, promote ns (d_id v) id d)
         | None => (false, d)
         end in
  match device_of ns id d' with
  | None => (Ok (negb known), on_devices (λ l, l ++ [Device ns id name None None (Some fp) true now]) d')
  | Some v =>
      if d_usesID v then (Ok (negb known), on_devices (update_where (device_is ns id) (renew_device now name fp)) d')
      else (Err ErrRegistration, d)
  end.

Definition is_control (r : Z) : bool := in_range 0 31 r || in_range 127 159 r.

Definition cleanLabel (s : string) : bool :=
  valid_string s && negb (any (λ r, (r =? 47) || is_control r) (runes s)).

Definition validDeviceName (name : string) : bool := negb (String.eqb name "") && (slen name <=? 255)%nat && cleanLabel name.

Definition registerDeviceID (now : Z) (ns id name fp : string) (d : db) : result db_error bool * db :=
  if negb (ValidDeviceID id) || negb (validDeviceName name) || negb (ValidFingerprint fp) then (Err ErrRegistration, d)
  else RegisterDevice now ns id name fp d.

Definition allowLegacyRegistration (ns device : string) (d : db) : bool :=
  validDeviceName device && negb (ValidDeviceID device)
  && negb (any (λ v, String.eqb (d_owner v) ns && d_usesID v && bool_decide (d_legacy v = Some device)) (devices d)).

Definition RemoveDevice (ns device : string) (d : db) : db :=
  let d := on_devices (delete_func (device_is ns device)) d in
  let d := on_acl (delete_func (λ a, String.eqb (a_owner a) ns && String.eqb (a_device a) device)) d in
  on_phones (λ m, if bool_decide (m !! ns = Some device) then delete ns m else m) d.

Definition normalizeDeviceAlias (alias : string) : result db_error string :=
  let alias := trim_space alias in
  if String.eqb alias "" then Ok ""%string
  else if negb (cleanLabel alias) || (40 <? length (runes alias))%nat then Err ErrAliasInvalid
  else Ok alias.

Definition set_alias (alias : option string) (v : device) : device :=
  Device (d_owner v) (d_id v) (d_display v) (d_legacy v) alias (d_fp v) (d_usesID v) (d_seen v).

Definition SetDeviceAlias (ns device alias : string) (d : db) : result db_error string * db :=
  match normalizeDeviceAlias alias with
  | Err e => (Err e, d)
  | Ok alias =>
      match device_of ns device d with
      | None => (Err ErrDeviceNotFound, d)
      | Some _ => (Ok alias, on_devices (update_where (device_is ns device)
                               (set_alias (if String.eqb alias "" then None else Some alias))) d)
      end
  end.

(** The ids a name may stand for. *)
Definition target_matches (ns target : string) (d : db) : list string :=
  map d_id (List.filter (λ v, String.eqb (d_owner v) ns &&
    (String.eqb (d_id v) target || String.eqb (d_display v) target
     || bool_decide (option_map sql_lower (d_alias v) = Some (sql_lower target)))) (devices d)).

Definition ResolveDeviceTargetStrict (ns target : string) (d : db) : result db_error string :=
  let matches := target_matches ns target d in
  if bool_decide (target ∈ matches) && ValidDeviceID target then Ok target
  else match matches with
       | [id] => Ok id
       | [] => Err ErrDeviceNotFound
       | _ => Err ErrAmbiguous
       end.

Definition ResolveDeviceTarget (ns target : string) (d : db) : option string :=
  match ResolveDeviceTargetStrict ns target d with Ok id => Some id | Err _ => None end.

Definition SetApprovalPhone (ns device : string) (d : db) : result db_error string * db :=
  if String.eqb device "" then (Ok ""%string, on_phones (delete ns) d)
  else match device_of ns device d with
       | Some v => (Ok (d_id v), on_phones <[ns := d_id v]> d)
       | None => (Err ErrDeviceNotFound, d)
       end.
End accounts.

(** The libraries on ASCII text, with an id being any text of 36 bytes. *)
Definition ascii_libraries : Libraries := {|
  ToLower := to_lower; EqualFold a b := String.eqb (to_lower a) (to_lower b); sql_lower := to_lower;
  ValidDeviceID s := (slen s =? 36)%nat |}.
