(* ===== verification/Friends.v ===== *)
(** [internal/relay/friends.go] and the grants of [pgstore.go] and [admin.go]:
    friendships, and the devices shared between friends. *)

From stdpp Require Import sorting.
From S2P Require Import Prelude GoStrings GoUtf8 Tables Accounts.

Local Open Scope Z_scope.

(** ** Friendships *)

(** [LEAST(…) = LEAST(a, b) AND GREATEST(…) = GREATEST(a, b)]: the row is about
    [a] and [b], whichever of them asked. *)
Definition is_pair (a b : string) (f : friendship) : bool :=
  (String.eqb (f_requester f) a && String.eqb (f_addressee f) b)
  || (String.eqb (f_requester f) b && String.eqb (f_addressee f) a).

Definition is_accepted (f : friendship) : bool := bool_decide (f_status f = accepted).

Definition IsFriend (a b : string) (d : db) : bool :=
  if String.eqb a b then false else any (λ f, is_pair a b f && is_accepted f) (friends d).

(** The request [requester] made to [addressee], still waiting. *)
Definition waiting (requester addressee : string) (f : friendship) : bool :=
  String.eqb (f_requester f) requester && String.eqb (f_addressee f) addressee && negb (is_accepted f).

Section friends.
Context `{Libraries}.

Definition validateFriendRequest (requester addressee reserved : string) : bool :=
  guardNamespace (trim_space requester) reserved && guardNamespace (trim_space addressee) reserved
  && negb (String.eqb requester addressee).

Definition FriendRequest (now : Z) (requester addressee reserved : string) (d : db) : result db_error friend_status * db :=
  let requester := trim_space requester in
  let addressee := trim_space addressee in
  if negb (validateFriendRequest requester addressee reserved) then (Err ErrNamespaceConflict, d)
  else if negb (LookupUser addressee d) then (Err ErrNoSuchUser, d)
  else match find_first (is_pair requester addressee) (friends d) with
  | None => let '(id, d) := next_serial d in
            (Ok pending, on_friends (λ l, l ++ [Friendship id requester addressee pending None now]) d)
  | Some f =>
      if is_accepted f || String.eqb (f_requester f) requester then (Ok (f_status f), d)
      else (Ok accepted, on_friends (update_where (waiting (f_requester f) (f_addressee f)) (accept_friend now)) d)
  end.
End friends.

Definition FriendAccept (now : Z) (ns requester : string) (d : db) : result db_error unit * db :=
  if any (waiting requester ns) (friends d)
  then (Ok tt, on_friends (update_where (waiting requester ns) (accept_friend now)) d)
  else (Err ErrNoSuchFriend, d).

Definition FriendDecline (ns requester : string) (d : db) : result db_error unit * db :=
  if any (waiting requester ns) (friends d)
  then (Ok tt, on_friends (delete_func (waiting requester ns)) d)
  else (Err ErrNoSuchFriend, d).

Definition share_live (a : share) : bool := is_null (a_revoked a).

(** The share runs between [a] and [b], in either direction. *)
Definition between (a b : string) (s : share) : bool :=
  (String.eqb (a_owner s) a && String.eqb (a_grantee s) b) || (String.eqb (a_owner s) b && String.eqb (a_grantee s) a).

Definition FriendRemove (now : Z) (ns other : string) (d : db) : result db_error unit * db :=
  if any (is_pair ns other) (friends d)
  then (Ok tt, on_acl (update_where (λ s, share_live s && between ns other s) (revoke_share now))
                 (on_friends (delete_func (is_pair ns other)) d))
  else (Err ErrNoSuchFriend, d).

(** [ORDER BY status, COALESCE(accepted_at, created_at), id]: accepted first,
    then the older. *)
Definition since (f : friendship) : Z := default (f_created f) (f_accepted f).
Definition friend_le (a b : friendship) : bool :=
  let rank f := if is_accepted f then 0 else 1 in
  (rank a <? rank b) || ((rank a =? rank b) && ((since a <? since b) || ((since a =? since b) && (f_id a <=? f_id b)%nat))).

(** The other namespace, the status, whether [ns] asked while it is pending, and
    since when. *)
Definition ListFriends (ns : string) (d : db) : list (string * friend_status * option bool * Z) :=
  map (λ f, let out := String.eqb (f_requester f) ns in
            (if out then f_addressee f else f_requester f, f_status f, if is_accepted f then None else Some out, since f))
    (merge_sort (λ a b, Is_true (friend_le a b)) (List.filter (λ f, String.eqb (f_requester f) ns || String.eqb (f_addressee f) ns) (friends d))).

(** ** Shares *)

Definition GrantACL (ns device grantee : string) (manage : bool) (d : db) : result db_error nat * db :=
  if String.eqb ns grantee then (Err ErrNotFriends, d)
  else if negb (any (λ f, is_pair ns grantee f && is_accepted f) (friends d)) then (Err ErrNotFriends, d)
  else let '(id, d) := next_serial d in (Ok id, on_acl (λ l, l ++ [Share id ns device grantee manage None]) d).

Definition grant_of (owner device grantee : string) (s : share) : bool :=
  String.eqb (a_owner s) owner && String.eqb (a_device s) device && String.eqb (a_grantee s) grantee && share_live s.

(** The live grants, a managing one first. *)
Definition ACLGrant (caller target device : string) (d : db) : option bool :=
  if any (λ s, grant_of target device caller s && a_manage s) (acl d) then Some true
  else if any (grant_of target device caller) (acl d) then Some false
  else None.

Definition RevokeACL (now : Z) (ns : string) (id : nat) (d : db) : db :=
  on_acl (update_where (λ s, (a_id s =? id)%nat && String.eqb (a_owner s) ns) (revoke_share now)) d.

Definition RevokeACLMatch (now : Z) (ns : string) (id : nat) (device grantee : string) (d : db) : bool * db :=
  let sel s := if negb (id =? 0)%nat then (a_id s =? id)%nat && String.eqb (a_owner s) ns && share_live s
               else grant_of ns device grantee s in
  (any sel (acl d), on_acl (update_where sel (revoke_share now)) d).

Definition SetACLManage (ns device grantee : string) (manage : bool) (d : db) : bool * db :=
  (any (grant_of ns device grantee) (acl d), on_acl (update_where (grant_of ns device grantee) (set_manage manage)) d).

(** The shares a namespace received, the newest first: device, owner,
    management. *)
Definition ListReceivedACL (ns : string) (d : db) : list (string * string * bool) :=
  rev (map (λ s, (a_device s, a_owner s, a_manage s)) (List.filter (λ s, String.eqb (a_grantee s) ns && share_live s) (acl d))).
