(* ===== verification/Grants.v ===== *)
(** [internal/relay/delegation_store.go], [delegation_cleanup.go],
    [scoped_store.go] and [tokenstore.go]: credentials that reach less than a
    whole account, from their request to what they resolve to, and the ledger of
    the jobs a grant ran.  [json.Valid] is the argument [json_valid]. *)

From stdpp Require Import pretty sorting.
From S2P Require Import Prelude GoStrings GoUtf8 GoCodec Session Trust Tables Accounts.

Local Open Scope Z_scope.

Import Delegation.

(** ** The state of a grant *)

Definition maxPendingDelegations : nat := 1000.
Definition maxDelegationDevices : nat := 16.
Definition maxDelegationPayload : nat := Z.to_nat (Z.shiftl 32 10).
Definition maxDelegationResult : nat := Z.to_nat (Z.shiftl 256 10).

Definition id_byte (c : ascii) : bool :=
  let v := byte_val c in in_range 97 122 v || in_range 65 90 v || in_range 48 57 v || (v =? 95) || (v =? 45).
Definition validDelegationID (s : string) : bool := (1 <=? slen s)%nat && (slen s <=? 128)%nat && sforall id_byte s.

(** 64 lower-case hex digits. *)
Definition validDelegationHash (s : string) : bool := (slen s =? 64)%nat && sforall lower_hex_char s.

Definition delegation_of (id : string) (d : db) : option delegation_request :=
  find_first (λ g, String.eqb (g_id g) id) (delegations d).
Definition token_of (id : option nat) (d : db) : option token :=
  match id with Some id => find_first (λ t, (t_id t =? id)%nat) (tokens d) | None => None end.
Definition devices_of (grant : string) (d : db) : list delegation_device :=
  List.filter (λ x, String.eqb (gd_grant x) grant) (delegation_devices d).

(** The device is still the one it was: same route, same certificate. *)
Definition same_device (d : db) (ns id fp : string) : bool :=
  any (λ v, device_is ns id v && d_usesID v && bool_decide (d_fp v = Some fp)) (devices d).
Definition device_gone (d : db) (x : delegation_device) : bool := negb (same_device d (gd_ns x) (gd_device x) (gd_fp x)).

(** The [CASE] of [readDelegation]. *)
Definition grant_status (now : Z) (d : db) (g : delegation_request) : string :=
  let t := token_of (g_tokenID g) d in
  if String.eqb (g_status g) "approved" then
    match t with
    | None => "revoked"
    | Some t =>
        if negb (is_null (t_revoked t)) || any (device_gone d) (devices_of (g_id g) d) then "revoked"
        else match t_expires t with
             | None => "expired"
             | Some e => if (e <=? now)%Z then "expired" else "approved"
             end
    end%string
  else if String.eqb (g_status g) "pending" && (g_expires g <=? now) then "expired"
  else g_status g.

Record delegation := MkDelegation {
  q_ID : string; q_Label : string; q_Fingerprint : string; q_Status : string; q_Namespace : string; q_CreatedAt : Z;
  q_RequestExpiresAt : Z; q_DecidedAt : option Z; q_ExpiresAt : option Z; q_Devices : list Delegation.device; q_TokenID : nat }.

(** The devices come in the order of their rows, which an approval inserts
    sorted.  [None] is [ErrNotFound]. *)
Definition readDelegation (now : Z) (id ticket : string) (d : db) : option delegation :=
  match delegation_of id d with
  | Some g =>
      if String.eqb ticket "" || String.eqb (g_ticket g) ticket then
        Some (MkDelegation (g_id g) (g_label g) (g_fp g) (grant_status now d g) (g_ns g) (g_created g) (g_expires g)
               (g_decided g) (match token_of (g_tokenID g) d with Some t => t_expires t | None => None end)
               (map (λ x, DelegatedDevice (gd_ns x) (gd_device x) (gd_fp x)) (devices_of id d)) (default O (g_tokenID g)))
      else None
  | None => None
  end.

Definition GetDelegation (now : Z) (id : string) (d : db) : result db_error delegation :=
  match readDelegation now id "" d with Some r => Ok r | None => Err ErrNotFound end.

Definition GetDelegationByTicket (now : Z) (id ticket : string) (d : db) : result db_error delegation :=
  if negb (validDelegationHash ticket) then Err ErrNotFound
  else match readDelegation now id ticket d with Some r => Ok r | None => Err ErrNotFound end.

(** ** Asking, approving, rejecting *)

Record new_request := NewRequest {
  n_ID : string; n_TicketHash : string; n_TokenHash : string; n_Label : string; n_Fingerprint : string; n_ExpiresAt : Z }.

Definition CreateDelegation (now : Z) (q : new_request) (d : db) : result db_error delegation * db :=
  if negb (validDelegationID (n_ID q)) || negb (validDelegationHash (n_TicketHash q)) || negb (validDelegationHash (n_TokenHash q))
     || (slen (n_Label q) =? 0)%nat || (200 <? slen (n_Label q))%nat || negb (ValidFingerprint (n_Fingerprint q))
  then (Err ErrInvalid, d)
  else
    let read d := match readDelegation now (n_ID q) (n_TicketHash q) d with Some r => Ok r | None => Err ErrNotFound end in
    match delegation_of (n_ID q) d with
    | Some g =>
        if String.eqb (g_ticket g) (n_TicketHash q) && String.eqb (g_token g) (n_TokenHash q) && String.eqb (g_fp g) (n_Fingerprint q)
        then (read d, d) else (Err ErrConflict, d)
    | None =>
        if n_ExpiresAt q <=? now then (Err ErrInvalid, d)
        else
          let expires := if now + RequestWindow <? n_ExpiresAt q then now + RequestWindow else n_ExpiresAt q in
          if (maxPendingDelegations <=? count_where (λ g, String.eqb (g_status g) "pending" && (now <? g_expires g)%Z) (delegations d))%nat
          then (Err ErrLimit, d)
          else if any (λ g, String.eqb (g_ticket g) (n_TicketHash q) || String.eqb (g_token g) (n_TokenHash q)) (delegations d)
          then (Err ErrConflict, d)
          else
            let g := MkRequest (n_ID q) (n_TicketHash q) (n_TokenHash q) (n_Label q) (n_Fingerprint q) "pending" "" None now expires None in
            let d' := on_delegations (λ l, l ++ [g]) d in
            match read d' with Ok r => (Ok r, d') | Err e => (Err e, d) end
    end.

Record approval := Approval {
  p_RequestID : string; p_Namespace : string; p_Devices : list string; p_Minutes : Z; p_Fingerprint : string;
  p_DeviceFingerprints : gmap string string }.

Definition fp_of (a : approval) (id : string) : string := default ""%string (p_DeviceFingerprints a !! id).

(** The loop that checks and records the devices of an approval. *)
Fixpoint approve_devices (a : approval) (ids : list string) (d : db) : result db_error db :=
  match ids with
  | [] => Ok d
  | id :: ids =>
      match find_first (λ v, device_is (p_Namespace a) id v && d_usesID v) (devices d) with
      | None => Err ErrForbidden
      | Some v =>
          match d_fp v with
          | None => Err ErrScan
          | Some fp =>
              if negb (String.eqb fp (fp_of a id)) then Err ErrConflict
              else approve_devices a ids (on_grants (λ l, l ++ [GrantDevice (p_RequestID a) (p_Namespace a) id fp]) d)
          end
      end
  end.

(** [sort.Strings] *)
Definition sorted (ids : list string) : list string := merge_sort (λ a b, Is_true (String.leb a b)) ids.

Section grants.
Context `{Libraries}.

Definition approval_ok (a : approval) : bool :=
  guardNamespace (p_Namespace a) "" && (slen (p_Namespace a) <=? 128)%nat
  && (1 <=? p_Minutes a) && (p_Minutes a <=? MaxGrantMinutes)
  && (1 <=? length (p_Devices a))%nat && (length (p_Devices a) <=? maxDelegationDevices)%nat
  && ValidFingerprint (p_Fingerprint a) && (size (p_DeviceFingerprints a) =? length (p_Devices a))%nat
  && forallb (λ id, ValidDeviceID id && ValidFingerprint (fp_of a id)) (p_Devices a)
  && bool_decide (NoDup (p_Devices a)).

Definition ApproveDelegation (now : Z) (a : approval) (d : db) : result db_error delegation * db :=
  if negb (approval_ok a) then (Err ErrInvalid, d)
  else match delegation_of (p_RequestID a) d with
  | None => (Err ErrNotFound, d)
  | Some g =>
      if negb (String.eqb (g_ns g) "") && negb (String.eqb (g_ns g) (p_Namespace a)) then (Err ErrForbidden, d)
      else if negb (String.eqb (g_status g) "pending") then (Err ErrConflict, d)
      else if g_expires g <=? now then (Err ErrExpired, d)
      else if negb (String.eqb (g_fp g) (p_Fingerprint a)) then (Err ErrConflict, d)
      else match approve_devices a (sorted (p_Devices a)) d with
      | Err e => (Err e, d)
      | Ok d1 =>
          match insert_token (p_Namespace a) "delegated" (g_token g) (g_label g) (Some (now + p_Minutes a * minute)) d1 with
          | Err e => (Err e, d)
          | Ok (tok, d2) =>
              let d3 := on_delegations (update_where (λ g, String.eqb (g_id g) (p_RequestID a))
                          (decide_delegation now "approved" (p_Namespace a) (Some tok))) d2 in
              match readDelegation now (p_RequestID a) "" d3 with
              | Some r => (Ok r, d3)
              | None => (Err ErrNotFound, d)
              end
          end
      end
  end.

Definition RejectDelegation (now : Z) (id ns : string) (d : db) : result db_error unit * db :=
  if negb (guardNamespace ns "") then (Err ErrInvalid, d)
  else
    let open g := String.eqb (g_id g) id && String.eqb (g_status g) "pending" && (now <? g_expires g) && String.eqb (g_ns g) "" in
    if any open (delegations d)
    then (Ok tt, on_delegations (update_where open (λ g, decide_delegation now "rejected" ns (g_tokenID g) g)) d)
    else match readDelegation now id "" d with
    | None => (Err ErrNotFound, d)
    | Some r =>
        if negb (String.eqb (q_Namespace r) "") && negb (String.eqb (q_Namespace r) ns) then (Err ErrForbidden, d)
        else if String.eqb (q_Status r) "rejected" then (Ok tt, d)
        else if String.eqb (q_Status r) "expired" then (Err ErrExpired, d)
        else (Err ErrConflict, d)
    end.
End grants.

(** ** Scoped command tokens *)

Definition ScopedDefaultDays : Z := 90.
Definition ScopedMaxDays : Z := 365.
Definition scopedMaxLive : nat := 50.
Definition scopedMaxCommand : nat := 4096.
Definition scopedMaxLabel : nat := 200.

Definition validScopedCommand (command : string) : bool :=
  negb (String.eqb command "") && (slen command <=? scopedMaxCommand)%nat && valid_string command
  && negb (any (λ r, is_control r && negb (r =? 9)) (runes command)).

Definition has_scope (d : db) (t : token) : bool := any (λ s, (s_token s =? t_id t)%nat) (scoped d).

(** The live scoped tokens of a namespace; they all have an expiry. *)
Definition scoped_live (now : Z) (ns : string) (d : db) (t : token) : bool :=
  String.eqb (t_ns t) ns && is_null (t_revoked t) && match t_expires t with Some e => now <? e | None => false end && has_scope d t.

Section scoped_tokens.
Context `{Libraries}.

Definition IssueScopedToken (now : Z) (rnd ns device command label : string) (days : Z) (d : db)
  : result db_error (string * nat) * db :=
  let days := if days =? 0 then ScopedDefaultDays else days in
  if (days <? 0) || (ScopedMaxDays <? days) || negb (validScopedCommand command) || (scopedMaxLabel <? slen label)%nat
     || negb (cleanLabel label) then (Err ErrScopedInvalid, d)
  else match ResolveDeviceTargetStrict ns device d with
  | Err e => (Err e, d)
  | Ok id =>
      match find_first (λ v, device_is ns id v && d_usesID v) (devices d) with
      | None => (Err ErrDeviceNotFound, d)
      | Some v =>
          let fp := default ""%string (d_fp v) in
          if String.eqb fp "" then (Err ErrDeviceNotFound, d)
          else if (scopedMaxLive <=? count_where (scoped_live now ns d) (tokens d))%nat then (Err ErrScopedLimit, d)
          else
            let raw := (ScopedTokenPrefix ++ rnd)%string in
            match insert_token ns "delegated" (HashToken raw) label (Some (now + days * day)) d with
            | Err e => (Err e, d)
            | Ok (tok, d) => (Ok (raw, tok), on_scoped (λ l, l ++ [MkScoped tok ns id fp command]) d)
            end
      end
  end.
End scoped_tokens.

Definition RevokeScopedToken (now : Z) (ns : string) (id : nat) (d : db) : bool * db :=
  let sel t := (t_id t =? id)%nat && String.eqb (t_ns t) ns && is_null (t_revoked t) && has_scope d t in
  ((count_where sel (tokens d) =? 1)%nat, on_tokens (update_where sel (set_revoked (Some now))) d).

(** ** What a credential resolves to *)

Definition resolveScoped (id : nat) (a : access) (d : db) : option access :=
  match find_first (λ s, (s_token s =? id)%nat && String.eqb (s_ns s) (ac_Namespace a)
                         && same_device d (s_ns s) (s_device s) (s_fp s)) (scoped d) with
  | None => None
  | Some s =>
      if is_zero (ac_ExpiresAt a) || String.eqb (s_command s) "" then None
      else Some (Access (ac_Namespace a) (ac_CredentialID a) true ("sc_" ++ pretty id) (ac_ExpiresAt a)
                   [DelegatedDevice (ac_Namespace a) (s_device s) (s_fp s)] "" 0 (s_command s))
  end.

(** [Duration.Round(time.Minute) / time.Minute], halves away from zero. *)
Definition round_minutes (t : Z) : Z := Z.sgn t * ((Z.abs t + minute / 2) / minute).

(** The request that names this token. *)
Definition grant_named (tok : nat) (d : db) : option delegation_request :=
  find_first (λ g, bool_decide (g_tokenID g = Some tok)) (delegations d).

Definition resolveAccess (now : Z) (raw : string) (d : db) : option access :=
  match find_first (λ t, String.eqb (t_hash t) (HashToken raw) && is_null (t_revoked t) && unexpired now (t_expires t)
                         && namespaceEnabled (t_ns t) d) (tokens d) with
  | None => None
  | Some t =>
      let out := Access (t_ns t) (pretty (t_id t)) false "" (default 0 (t_expires t)) [] "" 0 "" in
      if has_scope d t then resolveScoped (t_id t) out d
      else if negb (String.eqb (t_kind t) "delegated") then Some out
      else match readDelegation now (match grant_named (t_id t) d with Some g => g_id g | None => "" end) "" d with
      | None => None
      | Some r =>
          match q_ExpiresAt r with
          | None => None
          | Some e =>
              if negb (String.eqb (q_Status r) "approved") || negb (String.eqb (q_Namespace r) (t_ns t))
                 || (length (q_Devices r) =? 0)%nat then None
              else Some (Access (t_ns t) (pretty (t_id t)) true (q_ID r) e (q_Devices r) (q_Fingerprint r)
                           (round_minutes (GrantedDuration (DelegationRequest (q_DecidedAt r) (q_ExpiresAt r)))) "")
          end
      end
  end.

(** A store that resolves accesses, or one that only knows namespaces. *)
Inductive token_store :=
| AccessStore (resolve : string → option access)
| NamespaceStore (resolve : string → option string).

Definition restrictedToken (raw : string) : bool := has_prefix raw "wfd_" || has_prefix raw ScopedTokenPrefix.

Definition ResolveAccess (now : Z) (s : token_store) (raw : string) : option access :=
  match s with
  | AccessStore resolve =>
      match resolve raw with
      | None => None
      | Some a =>
          let scoped := negb (String.eqb (ac_ExecOnly a) "") in
          if String.eqb (ac_Namespace a) "" then None
          else if restrictedToken raw && negb (Delegated a) then None
          else if negb (Bool.eqb scoped (has_prefix raw ScopedTokenPrefix)) then None
          else if Delegated a && (String.eqb (ac_GrantID a) "" || (String.eqb (ac_ControllerFingerprint a) "" && negb scoped)
                  || (length (Devices a) =? 0)%nat || is_zero (ac_ExpiresAt a) || negb (now <? ac_ExpiresAt a)) then None
          else if scoped && (negb (Delegated a) || negb (length (Devices a) =? 1)%nat) then None
          else Some (Access (ac_Namespace a) (if String.eqb (ac_CredentialID a) "" then HashToken raw else ac_CredentialID a)
                       (Delegated a) (ac_GrantID a) (ac_ExpiresAt a) (Devices a) (ac_ControllerFingerprint a)
                       (GrantedMinutes a) (ac_ExecOnly a))
      end
  | NamespaceStore resolve =>
      if restrictedToken raw then None
      else match resolve raw with
           | Some ns => Some (Access ns (HashToken raw) false "" 0 [] "" 0 "")
           | None => None
           end
  end.

(** ** The ledger of a grant's jobs *)

Section ledger.
Context (json_valid : string → bool).

Definition job_of (grant rid : string) (d : db) : option delegation_job :=
  find_first (λ j, String.eqb (j_grant j) grant && String.eqb (j_request j) rid) (jobs d).

Definition FindJob (grant rid : string) (d : db) : result db_error delegation_job :=
  if negb (validDelegationID grant) || negb (validDelegationID rid) then Err ErrInvalid
  else match job_of grant rid d with Some j => Ok j | None => Err ErrNotFound end.

(** [rnd] is what [randHex] returned.  The flag says the job is new. *)
Definition BeginJob (now : Z) (rnd grant rid hash payload : string) (d : db) : result db_error (delegation_job * bool) * db :=
  if negb (validDelegationID grant) || negb (validDelegationID rid) || negb (validDelegationHash hash)
     || (maxDelegationPayload <? slen payload)%nat || negb (json_valid payload) then (Err ErrInvalid, d)
  else match job_of grant rid d with
  | Some old => if String.eqb (j_hash old) hash then (Ok (old, false), d) else (Err ErrConflict, d)
  | None =>
      match readDelegation now grant "" d with
      | None => (Err ErrNotFound, d)
      | Some r =>
          if negb (String.eqb (q_Status r) "approved") then (Err ErrForbidden, d)
          else if MaxJobs (GrantedDuration (DelegationRequest (q_DecidedAt r) (q_ExpiresAt r)))
                    <=? Z.of_nat (count_where (λ j, String.eqb (j_grant j) grant) (jobs d)) then (Err ErrLimit, d)
          else
            let id := ("j_" ++ rnd)%string in
            if any (λ j, String.eqb (j_id j) id) (jobs d) then (Err ErrDuplicate, d)
            else let j := MkJob id grant rid hash payload "running" None now in
                 (Ok (j, true), on_jobs (λ l, l ++ [j]) d)
      end
  end.

Definition GetJob (grant id : string) (d : db) : result db_error delegation_job :=
  match find_first (λ j, String.eqb (j_grant j) grant && String.eqb (j_id j) id) (jobs d) with
  | Some j => Ok j
  | None => Err ErrNotFound
  end.

Definition FinishJob (grant id state result : string) (d : db) : Prelude.result db_error unit * db :=
  let final := String.eqb state "done" || String.eqb state "failed" || String.eqb state "unknown" in
  if negb final || (maxDelegationResult <? slen result)%nat || negb (json_valid result) then (Err ErrInvalid, d)
  else
    let running j := String.eqb (j_grant j) grant && String.eqb (j_id j) id && String.eqb (j_state j) "running" in
    if (count_where running (jobs d) =? 1)%nat then (Ok tt, on_jobs (update_where running (finish_job state result)) d)
    else match GetJob grant id d with Ok _ => (Err ErrConflict, d) | Err e => (Err e, d) end.
End ledger.

(** ** Cleaning up *)

(** The requests a batch may delete. *)
Definition inactive (now cutoff : Z) (d : db) (g : delegation_request) : bool :=
  (g_created g <? cutoff) &&
  (String.eqb (g_status g) "rejected"
   || (String.eqb (g_status g) "pending" && (g_expires g <=? now))
   || (String.eqb (g_status g) "approved" &&
       (match token_of (g_tokenID g) d with
        | None => true
        | Some t => negb (is_null (t_revoked t)) || match t_expires t with None => true | Some e => e <=? now end
        end || any (device_gone d) (devices_of (g_id g) d)))).

(** [batch] is what the [SELECT … LIMIT 256 … SKIP LOCKED] returned: some of the
    inactive requests. *)
Definition cleanupDelegationBatch (batch : list delegation_request) (d : db) : db :=
  let ids := map g_id batch in
  let toks := omap (λ g, option_map t_id (token_of (g_tokenID g) d)) batch in
  let d := on_jobs (delete_func (λ j, bool_decide (j_grant j ∈ ids))) d in
  let d := on_grants (delete_func (λ x, bool_decide (gd_grant x ∈ ids))) d in
  let d := on_delegations (delete_func (λ g, bool_decide (g_id g ∈ ids))) d in
  on_tokens (delete_func (λ t, bool_decide (t_id t ∈ toks) && String.eqb (t_kind t) "delegated")) d.

(** The oldest rows first: rows are inserted in the order of [created_at]. *)
Definition batch_of (now cutoff : Z) (d : db) : list delegation_request :=
  take 256 (List.filter (inactive now cutoff d) (delegations d)).

(** [CleanupDelegations] repeats a batch until one is empty; the fuel is the
    number of requests, of which each batch deletes at least one.  The clock
    stands still during the loop. *)
Fixpoint cleanup_loop (fuel : nat) (now cutoff : Z) (d : db) : option db :=
  match batch_of now cutoff d with
  | [] => Some d
  | batch => match fuel with
             | O => None
             | S fuel => cleanup_loop fuel now cutoff (cleanupDelegationBatch batch d)
             end
  end.

Definition CleanupDelegations (now retention : Z) (d : db) : result db_error (option db) :=
  if retention <? MinRetention then Err ErrInvalid
  else Ok (cleanup_loop (length (delegations d)) now (now - retention) d).
