(* ===== verification/McpAuth.v ===== *)
(** [internal/mcpauth/mcpauth.go]: the sealed credentials of the hosted MCP
    endpoint.  AES-GCM with its HKDF key and [encoding/json] are libraries, the
    operations of the class [AEAD]; what the code relies on of them is
    [AEADLaws]. *)

From stdpp Require Import countable.
From S2P Require Import Prelude GoStrings GoUtf8 GoCodec.

Local Open Scope Z_scope.

(** ** [base64.RawURLEncoding] *)

Fixpoint smap (f : ascii → ascii) (s : string) : string :=
  match s with EmptyString => EmptyString | String c s => String (f c) (smap f s) end.

Definition url_of (c : ascii) : ascii := if Ascii.eqb c "+" then "-"%char else if Ascii.eqb c "/" then "_"%char else c.
Definition std_of (c : ascii) : ascii := if Ascii.eqb c "-" then "+"%char else if Ascii.eqb c "_" then "/"%char else c.
Definition not_pad (c : ascii) : bool := negb (Ascii.eqb c "=").
Definition url_alphabet (c : ascii) : bool := negb (Ascii.eqb c "+" || Ascii.eqb c "/" || Ascii.eqb c "=").

Definition padding (n : nat) : string := match (n mod 4)%nat with 2%nat => "==" | 3%nat => "=" | _ => "" end.

Definition rawurl_encode (s : string) : string := smap url_of (sfilter not_pad (b64_encode s)).

Definition rawurl_decode (s : string) : option string :=
  let s := sfilter not_newline s in
  if sforall url_alphabet s then b64_quanta (smap std_of s ++ padding (slen s)) else None.

Lemma slen_smap f s : slen (smap f s) = slen s.
Proof. induction s; simpl; [done|]. by rewrite IHs. Qed.

Lemma smap_id f g p s : (∀ c, p c = true → f (g c) = c) → sforall p s = true → smap f (smap g s) = s.
Proof. intros H. induction s as [|c s IH]; simpl; [done|]. intros [Hc Hs]%andb_true_iff. by rewrite H, IH. Qed.

Lemma sforall_smap p q f s : (∀ c, p c = true → q (f c) = true) → sforall p s = true → sforall q (smap f s) = true.
Proof. intros H. induction s as [|c s IH]; simpl; [done|]. intros [Hc Hs]%andb_true_iff. by rewrite H, IH. Qed.

(** The characters of an encoding. *)
Definition b64_body (c : ascii) : bool := bool_decide (is_Some (b64_value c)).

Lemma b64_char_body v : 0 <= v < 64 → b64_body (b64_char v) = true ∧ not_pad (b64_char v) = true.
Proof.
  intros Hv. destruct (b64_char_facts v Hv) as [E _]. unfold b64_body. rewrite E. split; [by apply bool_decide_eq_true_2|].
  unfold not_pad. destruct (Ascii.eqb_spec (b64_char v) "="); [|done]. by rewrite e in E.
Qed.

Lemma unpadded s :
  (sfilter not_pad (b64_encode s) ++ padding (slen (sfilter not_pad (b64_encode s))) = b64_encode s)%string ∧
  sforall b64_body (sfilter not_pad (b64_encode s)) = true.
Proof.
  induction s as [|a|a b|a b c s IH] using str_ind3; [done| | |];
    pose proof (byte_val_range a); try pose proof (byte_val_range b); try pose proof (byte_val_range c);
    cbn [b64_encode sfilter];
    repeat match goal with |- context [b64_char ?v] =>
      let P := fresh in assert (b64_body (b64_char v) = true ∧ not_pad (b64_char v) = true) as P
        by (apply b64_char_body; Z.div_mod_to_equations; lia);
      let x := fresh "ch" in set (x := b64_char v) in *; clearbody x; destruct P as [? ->] end.
  - simpl. rewrite H0. by rewrite H1.
  - simpl. by rewrite H1, H2, H3.
  - destruct IH as [E B]. cbn [sforall slen String.length String.append]. split; [|by rewrite H2, H3, H4, H5, B].
    rewrite <- E at 3. do 4 f_equal. unfold padding. simpl String.length.
    replace (S (S (S (S (slen (sfilter not_pad (b64_encode s))))))) with (slen (sfilter not_pad (b64_encode s)) + 1 * 4)%nat by lia.
    by rewrite Nat.Div0.mod_add.
Qed.

Lemma rawurl_roundtrip s : rawurl_decode (rawurl_encode s) = Some s.
Proof.
  destruct (unpadded s) as [E B]. unfold rawurl_decode, rawurl_encode.
  assert (∀ c, b64_body c = true → std_of (url_of c) = c ∧ url_alphabet (url_of c) = true ∧ not_newline (url_of c) = true) as Fact.
  { intros c Hc. apply bool_decide_eq_true_1 in Hc.
    destruct c as [[] [] [] [] [] [] [] []]; first [by split_and!|by destruct Hc]. }
  rewrite sfilter_all by (eapply sforall_smap; [|exact B]; apply Fact).
  rewrite (sforall_smap b64_body _ _ _ (λ c Hc, proj1 (proj2 (Fact c Hc))) B), slen_smap.
  rewrite (smap_id _ _ b64_body); [|intros; by apply Fact|done]. rewrite E. apply b64_quanta_encode.
Qed.

(** ** Claims *)

Definition AccessPrefix : string := "woa1.".
Definition GrantPrefix : string := "wog1.".
Definition accessAudience : string := "wanctl-mcp-oauth".
Definition grantAudience : string := "wanctl-mcp-oauth-grant".
Definition version : Z := 1.
Definition accessInfo : string := "wanctl-mcp:oauth:access:aead:v1".
Definition grantInfo : string := "wanctl-mcp:oauth:grant:aead:v1".

Record claim := Claim {
  Version : Z; Audience : string; IssuedAt : Z; ExpiresAt : Z; JTI : string; Namespace : string; Token : string; ClientID : string }.

#[export] Instance claim_eq_dec : EqDecision claim.
Proof. solve_decision. Defined.

(** [Time.Unix]: seconds since 1970. *)
Definition unix (t : Z) : Z := t / second - 62135596800.

Inductive auth_error := Invalid | Expired.

Definition nonceSize : nat := 12.
Definition overhead : nat := 16.

Class AEAD := {
  key : Type;
  derive : string → string → key;
  aead_seal : key → string → string → string → string;
  aead_open : key → string → string → string → option string;
  marshal : claim → string;
  unmarshal : string → option claim }.

Definition claim_text (c : claim) : bool :=
  valid_string (Audience c) && valid_string (JTI c) && valid_string (Namespace c) && valid_string (Token c) && valid_string (ClientID c).

(** What was sealed opens under the same key, nonce and prefix; a sealed text is
    as long as its plaintext and a tag; JSON keeps valid UTF-8. *)
Class AEADLaws `{AEAD} := {
  open_seal k n p ad : slen n = nonceSize → aead_open k n (aead_seal k n p ad) ad = Some p;
  seal_length k n p ad : slen (aead_seal k n p ad) = (slen p + overhead)%nat;
  unmarshal_marshal c : claim_text c = true → unmarshal (marshal c) = Some c }.

Section credentials.
Context `{AEAD}.

(** [jti] and [nonce] are the random bytes. *)
Definition seal (seed prefix audience info ns token client : string) (now ttl : Z) (jti nonce : string)
  : result auth_error (string * claim) :=
  if String.eqb ns "" || String.eqb token "" then Err Invalid
  else
    let c := Claim version audience (unix now) (unix (now + ttl)) (hex_encode jti) ns token client in
    let sealed := aead_seal (derive seed info) nonce (marshal c) prefix in
    Ok ((prefix ++ rawurl_encode (nonce ++ sealed))%string, c).

Definition opens (seed prefix audience info credential : string) (now : Z) : result auth_error claim :=
  let credential := trim_space credential in
  match cut_prefix credential prefix with
  | None => Err Invalid
  | Some rest =>
      match rawurl_decode rest with
      | None => Err Invalid
      | Some payload =>
          if (slen payload <? nonceSize + overhead)%nat then Err Invalid
          else match aead_open (derive seed info) (stake nonceSize payload) (sdrop nonceSize payload) prefix with
          | None => Err Invalid
          | Some plaintext =>
              match unmarshal plaintext with
              | None => Err Invalid
              | Some c =>
                  if negb (Version c =? version) || negb (String.eqb (Audience c) audience) || String.eqb (JTI c) ""
                     || String.eqb (Namespace c) "" || String.eqb (Token c) "" then Err Invalid
                  else if ExpiresAt c <=? unix now then Err Expired
                  else Ok c
              end
          end
      end
  end.

Definition SealAccess (seed ns token client : string) (now ttl : Z) (jti nonce : string) :=
  seal seed AccessPrefix accessAudience accessInfo ns token client now ttl jti nonce.
Definition OpenAccess (seed credential : string) (now : Z) := opens seed AccessPrefix accessAudience accessInfo credential now.
Definition SealGrant (seed ns token client : string) (now ttl : Z) (jti nonce : string) :=
  seal seed GrantPrefix grantAudience grantInfo ns token client now ttl jti nonce.
Definition OpenGrant (seed credential : string) (now : Z) := opens seed GrantPrefix grantAudience grantInfo credential now.

Definition IsAccessToken (s : string) : bool := has_prefix (trim_space s) AccessPrefix.
End credentials.

(** ** What a credential says when it is opened *)

Lemma valid_graphic s : sforall graphic s = true → valid_string s = true.
Proof.
  unfold valid_string. induction s as [|c s IH]; simpl; [done|]. intros [Hc Hs]%andb_true_iff.
  pose proof (graphic_val c Hc). unfold decode_rune. destruct (Z.ltb_spec (byte_val c) rune_self); [|unfold rune_self in *; lia].
  destruct (Z.eqb_spec (byte_val c) rune_error); [unfold rune_error in *; lia|]. by apply IH.
Qed.

Lemma ends_with s : s ≠ ""%string → ∃ t d, s = (t ++ String d "")%string.
Proof.
  induction s as [|c s IH]; [done|]. intros _. destruct s as [|c' s]; [by exists ""%string, c|].
  destruct IH as (t & d & E); [done|]. exists (String c t), d. simpl. by rewrite <- E.
Qed.

Lemma trim_space_printable s : sforall graphic s = true → trim_space s = s.
Proof.
  destruct s as [|c s]; [done|]. simpl. intros [Hc Hs]%andb_true_iff.
  destruct (decide (s = ""%string)) as [->|N].
  - apply trim_space_id; [by apply head_ok_graphic|]. by apply (last_ok_graphic "" c).
  - destruct (ends_with s N) as (t & d & ->). rewrite sforall_app in Hs. simpl in Hs. bsplit.
    apply trim_space_graphic; [done|]. done.
Qed.

Section opening.
Context `{AEADLaws}.

Lemma rawurl_printable s : sforall graphic (rawurl_encode s) = true.
Proof.
  destruct (unpadded s) as [_ B]. eapply sforall_smap; [|exact B]. intros c Hc. apply bool_decide_eq_true_1 in Hc.
  destruct c as [[] [] [] [] [] [] [] []]; first [done|by destruct Hc].
Qed.

(** A credential is its prefix and an envelope that opens to its claim. *)
Lemma seal_opens seed prefix audience info ns token client now ttl jti nonce cred c at_ :
  slen nonce = nonceSize → jti ≠ ""%string → sforall graphic prefix = true → sforall graphic audience = true →
  valid_string ns = true → valid_string token = true → valid_string client = true →
  seal seed prefix audience info ns token client now ttl jti nonce = Ok (cred, c) →
  opens seed prefix audience info cred at_ = (if ExpiresAt c <=? unix at_ then Err Expired else Ok c) ∧
  (∃ rest, cred = (prefix ++ rest)%string ∧ sforall graphic cred = true) ∧
  Namespace c = ns ∧ Token c = token ∧ ClientID c = client ∧ ExpiresAt c = unix (now + ttl).
Proof.
  intros Hn Hj Gp Ga Vn Vt Vc. unfold seal.
  destruct (String.eqb_spec ns "") as [|Nn]; [done|]. destruct (String.eqb_spec token "") as [|Nt]; [done|].
  cbn [orb]. set (cl := Claim _ _ _ _ _ _ _ _). intros [= <- <-].
  assert (sforall graphic (prefix ++ rawurl_encode (nonce ++ aead_seal (derive seed info) nonce (marshal cl) prefix)) = true) as G
    by by rewrite sforall_app, Gp, rawurl_printable.
  split; [|split; [by eexists|done]].
  unfold opens. rewrite trim_space_printable by done. destruct (cut_prefix _ _) as [rest|] eqn:Cp.
  2: { exfalso. assert (cut_prefix (prefix ++ rawurl_encode (nonce ++ aead_seal (derive seed info) nonce (marshal cl) prefix)) prefix
         = Some (rawurl_encode (nonce ++ aead_seal (derive seed info) nonce (marshal cl) prefix))) as E by by apply cut_prefix_Some.
       congruence. }
  apply cut_prefix_Some, app_inv_head_s in Cp as <-. rewrite rawurl_roundtrip.
  rewrite slen_app, Hn, seal_length. destruct (Nat.ltb_spec (nonceSize + (slen (marshal cl) + overhead)) (nonceSize + overhead)); [lia|].
  rewrite <- Hn, stake_app, sdrop_app, open_seal by done.
  assert (claim_text cl = true) as T.
  { unfold claim_text. simpl. rewrite (valid_graphic _ Ga), Vn, Vt, Vc, (valid_graphic (hex_encode jti)); [done|].
    eapply sforall_impl; [|apply hex_encode_lower]. intros x Hx. destruct x as [[] [] [] [] [] [] [] []]; done. }
  rewrite unmarshal_marshal by done. cbn [Version Audience JTI Namespace Token cl]. rewrite String.eqb_refl.
  rewrite (proj2 (String.eqb_neq ns "") Nn), (proj2 (String.eqb_neq token "") Nt).
  destruct (String.eqb_spec (hex_encode jti) "") as [E|]; [|done].
  exfalso. apply Hj, slen_nil. pose proof (slen_hex_encode jti) as L. rewrite E in L. simpl in L. lia.
Qed.

Lemma opens_wrong_prefix seed prefix audience info cred at_ :
  sforall graphic cred = true → has_prefix cred prefix = false → opens seed prefix audience info cred at_ = Err Invalid.
Proof.
  intros G P. unfold opens. rewrite trim_space_printable by done. destruct (cut_prefix cred prefix) as [rest|] eqn:E; [|done].
  apply cut_prefix_Some in E as ->. by rewrite has_prefix_app in P.
Qed.

(** What is sealed opens to what was sealed, and to nothing else.  An access
    token opens to the namespace, token and client it was sealed for until the
    second it expires, and is refused as expired from then on; a grant does the
    same; and neither is ever accepted in the other's place. *)
Lemma credentials_roundtrip seed ns token client now ttl jti nonce at_ :
  slen nonce = nonceSize → jti ≠ ""%string →
  valid_string ns = true → valid_string token = true → valid_string client = true →
  (∀ cred c, SealAccess seed ns token client now ttl jti nonce = Ok (cred, c) →
    OpenAccess seed cred at_ = (if unix (now + ttl) <=? unix at_ then Err Expired else Ok c) ∧
    Namespace c = ns ∧ Token c = token ∧ ClientID c = client ∧
    IsAccessToken cred = true ∧ OpenGrant seed cred at_ = Err Invalid) ∧
  (∀ cred c, SealGrant seed ns token client now ttl jti nonce = Ok (cred, c) →
    OpenGrant seed cred at_ = (if unix (now + ttl) <=? unix at_ then Err Expired else Ok c) ∧
    Namespace c = ns ∧ Token c = token ∧ ClientID c = client ∧
    IsAccessToken cred = false ∧ OpenAccess seed cred at_ = Err Invalid).
Proof.
  intros Hn Hj Vn Vt Vc. split; intros cred c S.
  - destruct (seal_opens seed AccessPrefix accessAudience _ _ _ _ _ _ _ _ _ _ at_ Hn Hj eq_refl eq_refl Vn Vt Vc S) as (O & (rest & -> & G) & <- & <- & <- & E).
    unfold OpenAccess. rewrite O, E. split_and!; try done.
    + unfold IsAccessToken. by rewrite trim_space_printable, has_prefix_app.
    + by apply opens_wrong_prefix.
  - destruct (seal_opens seed GrantPrefix grantAudience _ _ _ _ _ _ _ _ _ _ at_ Hn Hj eq_refl eq_refl Vn Vt Vc S) as (O & (rest & -> & G) & <- & <- & <- & E).
    unfold OpenGrant. rewrite O, E. split_and!; try done.
    + unfold IsAccessToken. by rewrite trim_space_printable.
    + by apply opens_wrong_prefix.
Qed.
End opening.

(** ** An instance: a cipher that adds a tag, claims as numbers *)

Definition sample_tag : string := "0123456789abcdef".

Definition claim_tuple (c : claim) : Z * string * Z * Z * string * string * string * string :=
  (Version c, Audience c, IssuedAt c, ExpiresAt c, JTI c, Namespace c, Token c, ClientID c).
Definition tuple_claim '(v, a, i, e, j, n, t, c) : claim := Claim v a i e j n t c.

Definition sample_aead : AEAD := {|
  key := unit; derive _ _ := tt;
  aead_seal _ _ p _ := (p ++ sample_tag)%string;
  aead_open _ _ c _ := if has_suffix c sample_tag then Some (stake (slen c - overhead) c) else None;
  marshal c := bits (encode (claim_tuple c));
  unmarshal s := option_map tuple_claim (decode (unbits s)) |}.

Lemma sample_laws : @AEADLaws sample_aead.
Proof.
  split; simpl.
  - intros _ n p _ _. assert (has_suffix (p ++ sample_tag) sample_tag = true) as -> by (apply has_suffix_spec; by exists p).
    rewrite slen_app. replace (slen p + slen sample_tag - overhead)%nat with (slen p) by (unfold overhead; simpl; lia). by rewrite stake_app.
  - intros _ _ p _. by rewrite slen_app.
  - intros c _. by rewrite unbits_bits, decode_encode; destruct c.
Qed.

Lemma credentials_roundtrip_witness :
  let now := 63000000000 * second in
  ∃ cred c, @SealAccess sample_aead "seed" "u1" "wanctl_t" "wco_1" now hour "jti" "0123456789ab" = Ok (cred, c) ∧
    @OpenAccess sample_aead "seed" cred (now + minute) = Ok c ∧ @OpenGrant sample_aead "seed" cred (now + minute) = Err Invalid.
Proof.
  cbv zeta.
  destruct (@credentials_roundtrip sample_aead sample_laws "seed" "u1" "wanctl_t" "wco_1" (63000000000 * second) hour "jti" "0123456789ab"
              (63000000000 * second + minute) eq_refl ltac:(discriminate) eq_refl eq_refl eq_refl) as [A _].
  destruct (@SealAccess sample_aead "seed" "u1" "wanctl_t" "wco_1" (63000000000 * second) hour "jti" "0123456789ab") as [[cred c]|] eqn:E; [|discriminate E].
  destruct (A cred c eq_refl) as (O & _ & _ & _ & _ & G). exists cred, c. split; [reflexivity|]. split; [|exact G].
  rewrite O. reflexivity.
Defined.
