(* ===== verification/OAuth.v ===== *)
(** [internal/relay/oauth.go] and [oauth_pg.go]: the OAuth server of the hosted
    MCP endpoint, from a client's registration to the refresh of its tokens.

    Requests enter decoded and answers leave as values.  A handler that takes
    the lock of the in-memory tables once is one definition; the refresh, whose
    statements another request may come between, is cut where it reads, where it
    revokes and where it issues.  [url.Parse] is the argument [parse]; what
    [randHex] and [rand.Read] return are arguments. *)

From S2P Require Import Prelude GoStrings GoUtf8 GoCodec Tables Accounts McpAuth.

Local Open Scope Z_scope.

(** ** Constants *)

Definition oauthScope : string := "wanctl".
Definition oauthAccessTTL : Z := hour.
Definition oauthRefreshTTL : Z := 30 * 24 * hour.
Definition oauthRequestTTL : Z := 10 * minute.
Definition oauthCodeTTL : Z := 10 * minute.
Definition oauthMaxRedirects : nat := 5.
Definition oauthTokenDays : Z := Z.quot oauthRefreshTTL (24 * hour).
Definition oauthRegistrationsPerClient : nat := 10.
Definition oauthRegistrationWindow : Z := hour.
Definition oauthRegistrationClients : nat := 4096.
Definition oauthMaxUnusedClients : nat := 500.
Definition oauthUnusedClientTTL : Z := 24 * hour.

(** What a handler answers. *)
Inductive response :=
| OAuthError (status : Z) (code : string)
| HttpError (status : Z)
| Registered (c : oauth_client) (secret : string)
| Asked (id : string)
| Redirect (uri : string) (params : list (string * string))
| Tokens (access refresh : string)
| Done.

(** ** The database's part *)

(** A client that never completed an authorization. *)
Definition unused_client (d : db) (c : oauth_client) : bool :=
  negb (any (λ h, String.eqb (h_ClientID h) (c_ID c)) (refreshes d)).

Definition RegisterOAuthClient (c : oauth_client) (maxUnused : nat) (staleBefore : Z) (inFlight : list string) (d : db)
  : result db_error bool * db :=
  let stale d k := (c_CreatedAt k <? staleBefore) && negb (bool_decide (c_ID k ∈ inFlight)) && unused_client d k in
  let d1 := on_clients (delete_func (stale d)) d in
  if (maxUnused <=? count_where (unused_client d1) (clients d1))%nat then (Ok false, d1)
  else if any (λ k, String.eqb (c_ID k) (c_ID c)) (clients d1) then (Err ErrDuplicate, d)
  else (Ok true, on_clients (λ l, l ++ [c]) d1).

Definition OAuthClientOf (id : string) (d : db) : option oauth_client := find_first (λ c, String.eqb (c_ID c) id) (clients d).

(** The hash is the primary key, the client a foreign key. *)
Definition PutOAuthRefresh (h : oauth_refresh) (d : db) : result db_error unit * db :=
  if any (λ k, String.eqb (h_Hash k) (h_Hash h)) (refreshes d) || is_null (OAuthClientOf (h_ClientID h) d)
  then (Err ErrDuplicate, d) else (Ok tt, on_refreshes (λ l, l ++ [h]) d).

Definition OAuthRefreshOf (hash : string) (d : db) : option oauth_refresh := find_first (λ h, String.eqb (h_Hash h) hash) (refreshes d).

Definition RevokeOAuthRefresh (now : Z) (hash : string) (d : db) : bool * db :=
  let live h := String.eqb (h_Hash h) hash && is_null (h_RevokedAt h) in
  ((count_where live (refreshes d) =? 1)%nat, on_refreshes (update_where live (revoke_refresh now)) d).

Definition RevokeRelayTokenHash (now : Z) (ns hash : string) (d : db) : db :=
  on_tokens (update_where (λ t, String.eqb (t_hash t) hash && String.eqb (t_ns t) ns && is_null (t_revoked t)) (set_revoked (Some now))) d.

Definition ExtendRelayTokenHash (now : Z) (ns hash : string) (until : Z) (d : db) : bool * db :=
  let live t := String.eqb (t_hash t) hash && String.eqb (t_ns t) ns && String.eqb (t_kind t) "access" && is_null (t_revoked t)
                && unexpired now (t_expires t) && namespaceEnabled (t_ns t) d in
  ((count_where live (tokens d) =? 1)%nat, on_tokens (update_where live (set_expires (Some until))) d).

(** ** Registration *)

(** What [take] keeps of one client address. *)
Record window := Window { w_start : Z; w_count : nat }.

Definition window_over (now : Z) (w : window) : bool := oauthRegistrationWindow <=? now - w_start w.

(** [registrationBudget.take]: [None] grants it, [Some wait] is how long until
    there is budget again. *)
Definition take (key : string) (now : Z) (b : gmap string window) : option Z * gmap string window :=
  let found := match b !! key with Some w => if window_over now w then None else Some w | None => None end in
  let spend w b :=
    if (oauthRegistrationsPerClient <=? w_count w)%nat then (Some (w_start w + oauthRegistrationWindow - now), b)
    else (None, <[key := Window (w_start w) (S (w_count w))]> b) in
  match found with
  | Some w => spend w b
  | None =>
      if (oauthRegistrationClients <=? size b)%nat then
        let b := filter (λ kw : string * window, window_over now kw.2 = false) b in
        if (oauthRegistrationClients <=? size b)%nat then (Some minute, b) else spend (Window now O) b
      else spend (Window now O) b
  end.

(** What [url.Parse] found: scheme, host with its port, host name, fragment. *)
Record url := Url { scheme : string; host : string; hostname : string; fragment : string }.

Definition validRedirectURI (parse : string → option url) (raw : string) : bool :=
  match parse raw with
  | None => false
  | Some u =>
      if String.eqb (scheme u) "" || String.eqb (host u) "" then false
      else if negb (String.eqb (fragment u) "") || contains raw "#" then false
      else if String.eqb (scheme u) "https" then true
      else if String.eqb (scheme u) "http" then bool_decide (hostname u ∈ ["localhost"; "127.0.0.1"; "::1"]%string)
      else false
  end.

(** ** The server *)

Record authz_request := AuthzRequest {
  ar_client : string; ar_redirect : string; ar_state : string; ar_challenge : string; ar_resource : string; ar_expires : Z }.
Record oauth_code := OAuthCode {
  oc_client : string; oc_redirect : string; oc_challenge : string; oc_ns : string; oc_resource : string; oc_expires : Z }.

Record server := Server {
  requests : gmap string authz_request; codes : gmap string oauth_code; budget : gmap string window; store : db }.

Definition with_store (d : db) (s : server) : server := Server (requests s) (codes s) (budget s) d.
Definition with_requests m (s : server) : server := Server m (codes s) (budget s) (store s).
Definition with_codes m (s : server) : server := Server (requests s) m (budget s) (store s).

(** [now.After(expires)] *)
Definition purgeOAuthLocked (now : Z) (s : server) : server :=
  Server (filter (λ kv : string * authz_request, (ar_expires kv.2 <? now) = false) (requests s))
         (filter (λ kv : string * oauth_code, (oc_expires kv.2 <? now) = false) (codes s)) (budget s) (store s).

Definition oauthClientsInFlight (now : Z) (s : server) : list string * server :=
  let s := purgeOAuthLocked now s in
  (map (λ kv, ar_client kv.2) (map_to_list (requests s)) ++ map (λ kv, oc_client kv.2) (map_to_list (codes s)), s).

Record registration := Registration { rg_name : string; rg_redirects : list string; rg_method : string }.

Definition client_name (raw : string) : string :=
  let name := trim_space raw in
  let name := if String.eqb name "" then "Unnamed MCP client"%string else name in stake 120 name.

Definition oauthRegister (parse : string → option url) (addr : string) (rndID rndSecret : string) (now : Z) (b : registration) (s : server)
  : response * server :=
  let n := length (rg_redirects b) in
  if (n =? 0)%nat || (oauthMaxRedirects <? n)%nat then (OAuthError 400 "invalid_redirect_uri", s)
  else if negb (forallb (validRedirectURI parse) (rg_redirects b)) then (OAuthError 400 "invalid_redirect_uri", s)
  else
    let method := if String.eqb (rg_method b) "" then "client_secret_post"%string else rg_method b in
    if negb (bool_decide (method ∈ ["none"; "client_secret_post"; "client_secret_basic"]%string))
    then (OAuthError 400 "invalid_client_metadata", s)
    else
      let secret := if String.eqb method "none" then ""%string else ("wcs_" ++ rndSecret)%string in
      let c := OAuthClient ("wco_" ++ rndID) (if String.eqb method "none" then "" else HashToken secret) (client_name (rg_name b))
                 (rg_redirects b) method now in
      match take addr now (budget s) with
      | (Some _, bud) => (OAuthError 429 "temporarily_unavailable", Server (requests s) (codes s) bud (store s))
      | (None, bud) =>
          let s := Server (requests s) (codes s) bud (store s) in
          let '(inFlight, s) := oauthClientsInFlight now s in
          match RegisterOAuthClient c oauthMaxUnusedClients (now - oauthUnusedClientTTL) inFlight (store s) with
          | (Err _, d) => (HttpError 500, with_store d s)
          | (Ok false, d) => (OAuthError 503 "temporarily_unavailable", with_store d s)
          | (Ok true, d) => (Registered c secret, with_store d s)
          end
      end.

Definition clientOwnsRedirect (c : oauth_client) (uri : string) : bool := any (λ r, String.eqb r uri) (c_RedirectURIs c).

(** [strings.TrimRight s "/"] *)
Fixpoint trim_slashes (s : string) : string :=
  match s with
  | EmptyString => EmptyString
  | String c s => match trim_slashes s with
                  | EmptyString => if Ascii.eqb c "/" then EmptyString else String c EmptyString
                  | t => String c t
                  end
  end.

Definition validResource (origin resource : string) : bool :=
  if String.eqb origin "" then false
  else let r := trim_slashes resource in String.eqb r (origin ++ "/mcp") || String.eqb r (origin ++ "/wanctl-mcp").

Record authorize := Authorize {
  az_client : string; az_redirect : string; az_type : string; az_challenge : string; az_method : string;
  az_state : string; az_scope : string; az_resource : string }.

Definition adminOAuthAuthorizeRequest (origin rnd : string) (now : Z) (b : authorize) (s : server) : response * server :=
  match OAuthClientOf (az_client b) (store s) with
  | None => (OAuthError 400 "invalid_client", s)
  | Some c =>
      if negb (clientOwnsRedirect c (az_redirect b)) then (OAuthError 400 "invalid_request", s)
      else if negb (String.eqb (az_type b) "code") then (OAuthError 400 "unsupported_response_type", s)
      else if negb (String.eqb (az_method b) "S256") || (slen (az_challenge b) <? 43)%nat || (128 <? slen (az_challenge b))%nat
      then (OAuthError 400 "invalid_request", s)
      else if negb (String.eqb (az_scope b) "") && negb (String.eqb (az_scope b) oauthScope) then (OAuthError 400 "invalid_scope", s)
      else if negb (String.eqb (az_resource b) "") && negb (validResource origin (az_resource b)) then (OAuthError 400 "invalid_target", s)
      else
        let ar := AuthzRequest (c_ID c) (az_redirect b) (az_state b) (az_challenge b) (az_resource b) (now + oauthRequestTTL) in
        let s := purgeOAuthLocked now s in
        (Asked rnd, with_requests (<[rnd := ar]> (requests s)) s)
  end.

Definition takeOAuthRequest (now : Z) (id : string) (s : server) : option authz_request * server :=
  let s := purgeOAuthLocked now s in
  match requests s !! id with
  | None => (None, s)
  | Some ar => (Some ar, with_requests (delete id (requests s)) s)
  end.

Definition adminOAuthApprove (rnd : string) (now : Z) (id ns : string) (s : server) : response * server :=
  if String.eqb ns "" then (HttpError 400, s)
  else match takeOAuthRequest now id s with
  | (None, s) => (HttpError 409, s)
  | (Some ar, s) =>
      let code := ("wac_" ++ rnd)%string in
      let oc := OAuthCode (ar_client ar) (ar_redirect ar) (ar_challenge ar) ns (ar_resource ar) (now + oauthCodeTTL) in
      (Redirect (ar_redirect ar) [("code", code); ("state", ar_state ar)]%string, with_codes (<[code := oc]> (codes s)) s)
  end.

Definition adminOAuthDeny (now : Z) (id : string) (s : server) : response * server :=
  match takeOAuthRequest now id s with
  | (None, s) => (HttpError 409, s)
  | (Some ar, s) => (Redirect (ar_redirect ar) [("error", "access_denied"); ("error_description", "the account owner declined this request");
                      ("state", ar_state ar)]%string, s)
  end.

(** ** The token endpoint *)

Record credentials := Credentials { cr_id : string; cr_secret : string; cr_basic : option (string * string) }.

Definition authenticateOAuthClient (b : credentials) (d : db) : response + oauth_client :=
  let mismatch := match cr_basic b with Some (id, _) => negb (String.eqb (cr_id b) "") && negb (String.eqb (cr_id b) id) | None => false end in
  if mismatch then inl (OAuthError 401 "invalid_client")
  else
    let '(id, secret) := match cr_basic b with Some p => p | None => (cr_id b, cr_secret b) end in
    if String.eqb id "" then inl (OAuthError 401 "invalid_client")
    else match OAuthClientOf id d with
    | None => inl (OAuthError 401 "invalid_client")
    | Some c =>
        if String.eqb (c_SecretHash c) "" then inr c
        else if String.eqb (HashToken secret) (c_SecretHash c) then inr c
        else inl (OAuthError 401 "invalid_client")
    end.

(** The S256 check. *)
Definition pkceMatches (challenge verifier : string) : bool :=
  if (slen verifier <? 43)%nat || (128 <? slen verifier)%nat then false
  else String.eqb (rawurl_encode (sha256 verifier)) challenge.

Record random := Random { rn_token : string; rn_jti : string; rn_nonce : string; rn_jti2 : string; rn_nonce2 : string; rn_refresh : string }.

Section tokens.
Context `{AEAD} (seed origin : string).

(** [ResolveOAuthToken] *)
Definition ResolveOAuthToken (now : Z) (ns raw : string) (d : db) : bool := bool_decide (Resolve now raw d = Some ns).

Definition writeOAuthTokens (rnd : random) (now : Z) (ns raw client : string) (d : db) : response * db :=
  let expires := now + oauthRefreshTTL in
  let '(live, d) := ExtendRelayTokenHash now ns (HashToken raw) expires d in
  if negb live then (OAuthError 400 "invalid_grant", d)
  else match SealAccess seed ns raw client now oauthAccessTTL (rn_jti rnd) (rn_nonce rnd),
             SealGrant seed ns raw client now oauthRefreshTTL (rn_jti2 rnd) (rn_nonce2 rnd) with
  | Ok (access, _), Ok (grant, _) =>
      let refresh := ("wrt_" ++ rn_refresh rnd)%string in
      match PutOAuthRefresh (OAuthRefresh (HashToken refresh) client ns grant expires None) d with
      | (Ok _, d) => (Tokens access refresh, d)
      | (Err _, d) => (HttpError 500, d)
      end
  | _, _ => (HttpError 500, d)
  end.

Record code_form := CodeForm { cf_code : string; cf_redirect : string; cf_resource : string; cf_verifier : string }.

(** The code is consumed before any check can fail. *)
Definition take_code (now : Z) (code : string) (s : server) : option oauth_code * server :=
  let s := purgeOAuthLocked now s in
  match codes s !! code with
  | None => (None, s)
  | Some c => (Some c, with_codes (delete code (codes s)) s)
  end.

(** The checks on a code that was taken: [None] lets it through. *)
Definition check_code (f : code_form) (client : oauth_client) (c : oauth_code) : option response :=
  if negb (String.eqb (oc_client c) (c_ID client)) then Some (OAuthError 400 "invalid_grant")
  else if negb (String.eqb (cf_redirect f) (oc_redirect c)) then Some (OAuthError 400 "invalid_grant")
  else if negb (String.eqb (cf_resource f) "") && negb (validResource origin (cf_resource f)) then Some (OAuthError 400 "invalid_target")
  else if negb (pkceMatches (oc_challenge c) (cf_verifier f)) then Some (OAuthError 400 "invalid_grant")
  else None.

Definition oauthTokenFromCode (rnd : random) (now : Z) (f : code_form) (client : oauth_client) (s : server) : response * server :=
  match take_code now (cf_code f) s with
  | (None, s) => (OAuthError 400 "invalid_grant", s)
  | (Some c, s) =>
      match check_code f client c with
      | Some r => (r, s)
      | None =>
          match IssueToken now (rn_token rnd) (oc_ns c) ("oauth:" ++ c_Name client) oauthTokenDays (store s) with
          | (Err _, d) => (HttpError 500, with_store d s)
          | (Ok raw, d) => let '(r, d) := writeOAuthTokens rnd now (oc_ns c) raw (c_ID client) d in (r, with_store d s)
          end
      end
  end.

(** The refresh up to its revocation: the row, and the claim of its grant. *)
Definition refresh_check (now : Z) (presented : string) (client : oauth_client) (d : db) : response + oauth_refresh * claim :=
  if String.eqb presented "" then inl (OAuthError 400 "invalid_request")
  else match OAuthRefreshOf (HashToken presented) d with
  | None => inl (OAuthError 400 "invalid_grant")
  | Some row =>
      if negb (is_null (h_RevokedAt row)) || (h_ExpiresAt row <? now) || negb (String.eqb (h_ClientID row) (c_ID client))
      then inl (OAuthError 400 "invalid_grant")
      else match OpenGrant seed (h_Grant row) now with
      | Err _ => inl (OAuthError 400 "invalid_grant")
      | Ok cl => if negb (ResolveOAuthToken now (Namespace cl) (Token cl) d) then inl (OAuthError 400 "invalid_grant") else inr (row, cl)
      end
  end.

(** The revocation that only one request wins, and what follows. *)
Definition refresh_rotate (now : Z) (row : oauth_refresh) (d : db) : bool * db := RevokeOAuthRefresh now (h_Hash row) d.

Definition oauthTokenFromRefresh (rnd : random) (now : Z) (presented : string) (client : oauth_client) (d : db) : response * db :=
  match refresh_check now presented client d with
  | inl r => (r, d)
  | inr (row, cl) =>
      match refresh_rotate now row d with
      | (false, d) => (OAuthError 400 "invalid_grant", d)
      | (true, d) => writeOAuthTokens rnd now (Namespace cl) (Token cl) (c_ID client) d
      end
  end.

(** ** Revocation *)

Definition revokeOAuthGrant (now : Z) (row : oauth_refresh) (d : db) : db :=
  let '(_, d) := RevokeOAuthRefresh now (h_Hash row) d in
  match OpenGrant seed (h_Grant row) now with
  | Ok cl => RevokeRelayTokenHash now (Namespace cl) (HashToken (Token cl)) d
  | Err _ => d
  end.

Definition oauthRevoke (now : Z) (raw : string) (client : oauth_client) (d : db) : response * db :=
  if String.eqb raw "" then (Done, d)
  else match OAuthRefreshOf (HashToken raw) d with
  | Some row => if String.eqb (h_ClientID row) (c_ID client) then (Done, revokeOAuthGrant now row d) else (Done, d)
  | None => (Done, d)
  end.

Definition RevokeOAuthRelayToken (now : Z) (ns raw : string) (d : db) : db := RevokeRelayTokenHash now ns (HashToken raw) d.
End tokens.
