(* ===== verification/StoreOps.v ===== *)
(** The queries of the relay as one transition system over its database: a step
    runs one query, at a time no earlier than the last.  Requests of many
    clients interleave as sequences of steps.  Also the frame lemmas: which
    tables a query leaves alone. *)

From S2P Require Import Prelude GoStrings GoUtf8 Session Tables Accounts Friends Grants OAuth.

Local Open Scope Z_scope.

Import Delegation.

Inductive op :=
| QIssueToken (rnd ns label : string) (days : Z)
| QRevokeToken (ns : string) (id : nat)
| QResolveIdentity (provider subject login name reserved : string)
| QCreateInvite (login : string)
| QRevokeInvite (id : nat)
| QCreateAccessRequest (provider subject login note : string)
| QDecideAccessRequest (id : nat) (status decidedBy : string)
| QUpsertDevice (ns name fp : string)
| QRegisterDevice (ns id name fp : string)
| QRemoveDevice (ns device : string)
| QSetDeviceAlias (ns device alias : string)
| QSetApprovalPhone (ns device : string)
| QSetAccountDisabled (ns : string) (disabled : bool)
| QFriendRequest (requester addressee reserved : string)
| QFriendAccept (ns requester : string)
| QFriendDecline (ns requester : string)
| QFriendRemove (ns other : string)
| QGrantACL (ns device grantee : string) (manage : bool)
| QRevokeACL (ns : string) (id : nat)
| QRevokeACLMatch (ns : string) (id : nat) (device grantee : string)
| QSetACLManage (ns device grantee : string) (manage : bool)
| QCreateDelegation (q : new_request)
| QApproveDelegation (a : approval)
| QRejectDelegation (id ns : string)
| QIssueScopedToken (rnd ns device command label : string) (days : Z)
| QRevokeScopedToken (ns : string) (id : nat)
| QBeginJob (rnd grant rid hash payload : string)
| QFinishJob (grant id state result : string)
| QCleanupBatch (retention : Z) (batch : list delegation_request)
| QRegisterOAuthClient (c : oauth_client) (maxUnused : nat) (staleBefore : Z) (inFlight : list string)
| QPutOAuthRefresh (h : oauth_refresh)
| QRevokeOAuthRefresh (hash : string)
| QRevokeRelayTokenHash (ns hash : string)
| QExtendRelayTokenHash (ns hash : string) (until : Z).

Section ops.
Context `{Libraries} (json_valid : string → bool).

(** A batch of the cleaning holds inactive requests of the database. *)
Definition batch_ok (now retention : Z) (batch : list delegation_request) (d : db) : bool :=
  (MinRetention <=? retention) && forallb (λ g, inactive now (now - retention) d g && bool_decide (g ∈ delegations d)) batch.

Definition apply_op (now : Z) (o : op) (d : db) : db :=
  match o with
  | QIssueToken rnd ns label days => (IssueToken now rnd ns label days d).2
  | QRevokeToken ns id => RevokeToken now ns id d
  | QResolveIdentity p s l n r => (ResolveIdentity now p s l n r d).2
  | QCreateInvite l => (CreateInvite l d).2
  | QRevokeInvite id => (RevokeInvite id d).2
  | QCreateAccessRequest p s l n => (CreateAccessRequest now p s l n d).2
  | QDecideAccessRequest id st by_ => (DecideAccessRequest now id st by_ d).2
  | QUpsertDevice ns name fp => UpsertDevice now ns name fp d
  | QRegisterDevice ns id name fp => (registerDeviceID now ns id name fp d).2
  | QRemoveDevice ns dev => RemoveDevice ns dev d
  | QSetDeviceAlias ns dev alias => (SetDeviceAlias ns dev alias d).2
  | QSetApprovalPhone ns dev => (SetApprovalPhone ns dev d).2
  | QSetAccountDisabled ns b => (SetAccountDisabled now ns b d).2
  | QFriendRequest a b r => (FriendRequest now a b r d).2
  | QFriendAccept ns r => (FriendAccept now ns r d).2
  | QFriendDecline ns r => (FriendDecline ns r d).2
  | QFriendRemove ns o => (FriendRemove now ns o d).2
  | QGrantACL ns dev g m => (GrantACL ns dev g m d).2
  | QRevokeACL ns id => RevokeACL now ns id d
  | QRevokeACLMatch ns id dev g => (RevokeACLMatch now ns id dev g d).2
  | QSetACLManage ns dev g m => (SetACLManage ns dev g m d).2
  | QCreateDelegation q => (CreateDelegation now q d).2
  | QApproveDelegation a => (ApproveDelegation now a d).2
  | QRejectDelegation id ns => (RejectDelegation now id ns d).2
  | QIssueScopedToken rnd ns dev cmd label days => (IssueScopedToken now rnd ns dev cmd label days d).2
  | QRevokeScopedToken ns id => (RevokeScopedToken now ns id d).2
  | QBeginJob rnd g r h p => (BeginJob json_valid now rnd g r h p d).2
  | QFinishJob g id st r => (FinishJob json_valid g id st r d).2
  | QCleanupBatch retention batch => if batch_ok now retention batch d then cleanupDelegationBatch batch d else d
  | QRegisterOAuthClient c m st fl => (RegisterOAuthClient c m st fl d).2
  | QPutOAuthRefresh h => (PutOAuthRefresh h d).2
  | QRevokeOAuthRefresh h => (RevokeOAuthRefresh now h d).2
  | QRevokeRelayTokenHash ns h => RevokeRelayTokenHash now ns h d
  | QExtendRelayTokenHash ns h u => (ExtendRelayTokenHash now ns h u d).2
  end.

(** A database and the time of its last query. *)
Definition dstep (s s' : Z * db) : Prop := s.1 ≤ s'.1 ∧ ∃ o, s'.2 = apply_op s'.1 o s.2.

Lemma dstep_op t d now o : t ≤ now → dstep (t, d) (now, apply_op now o d).
Proof. intros L. split; [done|]. by exists o. Qed.

Definition fresh_db (s : Z * db) : Prop := s.2 = empty_db.

Definition stored : Z * db → Prop := reachable fresh_db dstep.

(** A run of queries, each with its time. *)
Definition run_ops (qs : list (Z * op)) (d : db) : db := fold_left (λ d q, apply_op q.1 q.2 d) qs d.

Fixpoint in_time (t : Z) (qs : list (Z * op)) : bool :=
  match qs with [] => true | q :: qs => (t <=? q.1) && in_time q.1 qs end.
Definition last_time (t : Z) (qs : list (Z * op)) : Z := fold_left (λ _ q, q.1) qs t.

Lemma run_steps t qs d : in_time t qs = true → rtc dstep (t, d) (last_time t qs, run_ops qs d).
Proof.
  revert t d. induction qs as [|[t' o] qs IH]; intros t d; simpl; [intros; apply rtc_refl|].
  intros [Ht Hq]%andb_true_iff. eapply rtc_l; [|by apply IH]. split; simpl; [lia|eauto].
Qed.

Lemma stored_run t qs : in_time t qs = true → stored (last_time t qs, run_ops qs empty_db).
Proof. intros H0. exists (t, empty_db). split; [done|by apply run_steps]. Qed.

(** ** Frames *)

Lemma insert_token_frame ns kind h label e d id d' : insert_token ns kind h label e d = Ok (id, d') →
  id = serial d ∧ d' = on_tokens (λ l, l ++ [Token id ns kind h label e None]) (next_serial d).2 ∧
  any (λ t, String.eqb (t_hash t) h) (tokens d) = false.
Proof. unfold insert_token. destruct (any _ _); [done|]. simpl. by intros [= <- <-]. Qed.

Lemma approve_devices_frame a ids d d' : approve_devices a ids d = Ok d' →
  ∃ l, d' = on_grants (λ g, g ++ l) d ∧ map gd_device l = ids ∧
    ∀ x, x ∈ l → gd_grant x = p_RequestID a ∧ gd_ns x = p_Namespace a ∧ gd_fp x = fp_of a (gd_device x) ∧
      same_device d (gd_ns x) (gd_device x) (gd_fp x) = true.
Proof.
  revert d. induction ids as [|id ids IH]; intros d; simpl.
  - intros [= <-]. exists []. split_and!; [|done|by intros x ?%elem_of_nil]. destruct d; unfold on_grants; simpl. by rewrite app_nil_r.
  - destruct (find_first _ _) as [v|] eqn:F; [|done]. destruct (d_fp v) as [fp|] eqn:Fp; [|done].
    destruct (String.eqb_spec fp (fp_of a id)) as [->|]; [simpl|done]. intros A. destruct (IH _ A) as (l & -> & M & P).
    apply find_first_Some in F as [Hv Hd]. bsplit.
    eexists (_ :: l). split_and!; [unfold on_grants; simpl; by rewrite <- app_assoc|simpl; by rewrite M|].
    intros x [->|Hx]%elem_of_cons; [|by apply P]. simpl. split_and!; try done.
    unfold same_device. apply any_true. exists v. split; [done|]. rewrite Fp, H0, H1. by rewrite bool_decide_eq_true_2.
Qed.
End ops.

(** Runs a query down to its outcomes. *)
Ltac outcomes :=
  repeat match goal with
  | |- context [match ?x with _ => _ end] =>
      lazymatch x with
      | context [match _ with _ => _ end] => fail
      | _ => let E := fresh "E" in destruct x eqn:E
      end
  end;
  repeat match goal with
  | E : insert_token _ _ _ _ _ _ = Ok (_, _) |- _ => apply insert_token_frame in E as (-> & -> & E)
  | E : approve_devices _ _ _ = Ok _ |- _ => apply approve_devices_frame in E as (? & -> & ? & ?)
  end.

Section frames.
Context `{Libraries} (json_valid : string → bool).

Definition writes_shares (o : op) : bool :=
  match o with
  | QFriendRequest _ _ _ | QFriendAccept _ _ | QFriendDecline _ _ | QFriendRemove _ _ | QGrantACL _ _ _ _ | QRevokeACL _ _
  | QRevokeACLMatch _ _ _ _ | QSetACLManage _ _ _ _ | QRegisterDevice _ _ _ _ | QRemoveDevice _ _ => true
  | _ => false
  end.

Definition writes_tokens (o : op) : bool :=
  match o with
  | QIssueToken _ _ _ _ | QRevokeToken _ _ | QApproveDelegation _ | QIssueScopedToken _ _ _ _ _ _ | QRevokeScopedToken _ _
  | QCleanupBatch _ _ | QRevokeRelayTokenHash _ _ | QExtendRelayTokenHash _ _ _ => true
  | _ => false
  end.

Definition writes_accounts (o : op) : bool :=
  match o with
  | QResolveIdentity _ _ _ _ _ | QCreateInvite _ | QRevokeInvite _ | QDecideAccessRequest _ _ _ | QSetAccountDisabled _ _ => true
  | _ => false
  end.

Definition writes_devices (o : op) : bool :=
  match o with QUpsertDevice _ _ _ | QRegisterDevice _ _ _ _ | QRemoveDevice _ _ | QSetDeviceAlias _ _ _ => true | _ => false end.

Definition writes_grants (o : op) : bool :=
  match o with QCreateDelegation _ | QApproveDelegation _ | QRejectDelegation _ _ | QCleanupBatch _ _ => true | _ => false end.

Definition writes_jobs (o : op) : bool :=
  match o with QBeginJob _ _ _ _ _ | QFinishJob _ _ _ _ | QCleanupBatch _ _ => true | _ => false end.

Definition writes_refreshes (o : op) : bool :=
  match o with QPutOAuthRefresh _ | QRevokeOAuthRefresh _ => true | _ => false end.

Ltac unfold_query :=
  unfold IssueToken, RevokeToken, ResolveIdentity, resolveGitHubIdentity, insertIdentity, mark_used, CreateInvite, RevokeInvite,
    CreateAccessRequest, DecideAccessRequest, insert_invite, UpsertDevice, SetDeviceAlias, SetApprovalPhone, SetAccountDisabled,
    CreateDelegation, ApproveDelegation, RejectDelegation, IssueScopedToken, RevokeScopedToken, BeginJob, FinishJob,
    cleanupDelegationBatch, RegisterOAuthClient, PutOAuthRefresh, RevokeOAuthRefresh, RevokeRelayTokenHash, ExtendRelayTokenHash,
    FriendRequest, FriendAccept, FriendDecline, FriendRemove, GrantACL, RevokeACL, RevokeACLMatch, SetACLManage, registerDeviceID,
    RegisterDevice, promote, RemoveDevice, next_serial.

Ltac frame := match goal with o : op |- _ => destruct o end; try done; intros _; cbn [apply_op]; unfold_query; cbv zeta;
  outcomes; simplify_eq; done.

Lemma shares_frame now o d : writes_shares o = false →
  acl (apply_op json_valid now o d) = acl d ∧ friends (apply_op json_valid now o d) = friends d.
Proof. frame. Qed.

Lemma tokens_frame now o d : writes_tokens o = false →
  tokens (apply_op json_valid now o d) = tokens d ∧ scoped (apply_op json_valid now o d) = scoped d.
Proof. frame. Qed.

Lemma accounts_frame now o d : writes_accounts o = false →
  users (apply_op json_valid now o d) = users d ∧ invites (apply_op json_valid now o d) = invites d.
Proof. frame. Qed.

Lemma devices_frame now o d : writes_devices o = false → devices (apply_op json_valid now o d) = devices d.
Proof. frame. Qed.

Lemma grants_frame now o d : writes_grants o = false →
  delegations (apply_op json_valid now o d) = delegations d ∧ delegation_devices (apply_op json_valid now o d) = delegation_devices d.
Proof. frame. Qed.

Lemma jobs_frame now o d : writes_jobs o = false → jobs (apply_op json_valid now o d) = jobs d.
Proof. frame. Qed.

Lemma refreshes_frame now o d : writes_refreshes o = false → refreshes (apply_op json_valid now o d) = refreshes d.
Proof. frame. Qed.

Lemma serial_mono now o d : (serial d ≤ serial (apply_op json_valid now o d))%nat.
Proof. destruct o; cbn [apply_op]; unfold_query; cbv zeta; outcomes; simplify_eq; simpl; lia. Qed.
End frames.
