(* ===== verification/ShareInv.v ===== *)
(** What friendship is worth: a device is shared only between friends, at every
    moment of every run of the relay's queries. *)

From S2P Require Import Prelude GoStrings GoUtf8 Tables Accounts Friends StoreOps.

Local Open Scope Z_scope.

Section shares.
Context `{Libraries} (json_valid : string → bool).

Definition befriended (d : db) (s : share) : Prop :=
  a_owner s ≠ a_grantee s ∧ any (λ f, is_pair (a_owner s) (a_grantee s) f && is_accepted f) (friends d) = true.

Definition shares_ok (d : db) : Prop := ∀ s, s ∈ acl d → share_live s = true → befriended d s.

(** A step that keeps the accepted friendships and changes, revokes or deletes
    shares without giving them to anyone else. *)
Lemma shares_step d d' :
  shares_ok d →
  (∀ f, f ∈ friends d → is_accepted f = true → ∃ f', f' ∈ friends d' ∧ is_accepted f' = true ∧
     f_requester f' = f_requester f ∧ f_addressee f' = f_addressee f) →
  (∀ s, s ∈ acl d' → share_live s = true →
     befriended d' s ∨ ∃ s', s' ∈ acl d ∧ share_live s' = true ∧ a_owner s = a_owner s' ∧ a_grantee s = a_grantee s') →
  shares_ok d'.
Proof.
  intros I F A s Hs Ls. destruct (A s Hs Ls) as [?|(s' & Hs' & Ls' & E1 & E2)]; [done|].
  destruct (I s' Hs' Ls') as [N P]. unfold befriended. rewrite E1, E2. split; [done|].
  apply any_true in P as (f & Hf & P). bsplit. destruct (F f Hf) as (f' & Hf' & Ac & R1 & R2); [done|].
  apply any_true. exists f'. split; [done|]. unfold is_pair in *. by rewrite R1, R2, H0, Ac.
Qed.

(** The friendships a statement about another table keeps. *)
Lemma same_friends d d' : friends d' = friends d → ∀ f, f ∈ friends d → is_accepted f = true →
  ∃ f', f' ∈ friends d' ∧ is_accepted f' = true ∧ f_requester f' = f_requester f ∧ f_addressee f' = f_addressee f.
Proof. intros -> f Hf A. eauto. Qed.

(** Shares updated row by row. *)
Lemma shares_update (p : share → bool) g d :
  shares_ok d → (∀ s, a_owner (g s) = a_owner s ∧ a_grantee (g s) = a_grantee s ∧ (share_live (g s) = true → share_live s = true)) →
  shares_ok (on_acl (update_where p g) d).
Proof.
  intros I G. eapply shares_step; [exact I|by apply same_friends|]. simpl. intros s Hs Ls. right.
  apply elem_of_update_where in Hs as (s' & Hs' & ->). exists s'. destruct (G s') as (G1 & G2 & G3).
  destruct (p s'); auto.
Qed.

Lemma accepting_keeps (p : friendship → bool) now d f : f ∈ friends d → is_accepted f = true →
  ∃ f', f' ∈ update_where p (accept_friend now) (friends d) ∧ is_accepted f' = true ∧
    f_requester f' = f_requester f ∧ f_addressee f' = f_addressee f.
Proof.
  intros Hf A. exists (if p f then accept_friend now f else f). split; [by apply elem_of_update_where; eauto|].
  destruct (p f); [|done]. split; [by apply bool_decide_eq_true_2|done].
Qed.

Lemma shares_remove now ns other d d' u :
  FriendRemove now ns other d = (Ok u, d') → shares_ok d → shares_ok d' ∧ (∀ s, s ∈ acl d' → share_live s = true → between ns other s = false).
Proof.
  unfold FriendRemove. destruct (any _ _); [|done]. intros [= _ <-] I. simpl.
  assert (∀ s, s ∈ update_where (λ s, share_live s && between ns other s) (revoke_share now) (acl d) → share_live s = true →
            s ∈ acl d ∧ between ns other s = false) as Q.
  { intros s (s' & Hs' & ->)%elem_of_update_where Ls. destruct (share_live s' && between ns other s') eqn:E; [done|].
    rewrite Ls in E. done. }
  split; [|intros s Hs Ls; by apply Q]. intros s Hs Ls. destruct (Q s Hs Ls) as [Hs' Nb]. destruct (I s Hs' Ls) as [Ne P].
  split; [done|]. apply any_true in P as (f & Hf & P). bsplit. apply any_true. exists f. simpl. split; [|by bsplit; rewrite H0, H1].
  apply elem_of_delete_func. split; [done|]. destruct (is_pair ns other f) eqn:E; [|done]. exfalso.
  unfold is_pair, between in *. rewrite orb_true_iff, !andb_true_iff, !String.eqb_eq in *.
  rewrite orb_false_iff, !andb_false_iff, !String.eqb_neq in Nb. naive_solver congruence.
Qed.

Lemma shares_op now o d : shares_ok d → shares_ok (apply_op json_valid now o d).
Proof.
  intros I. destruct (writes_shares o) eqn:W; [|destruct (shares_frame json_valid now o d W) as [A F]; intros s; unfold befriended; rewrite A, F; apply I].
  destruct o; try done; cbn [apply_op]; clear W.
  - (* RegisterDevice *) unfold registerDeviceID, RegisterDevice, promote. outcomes; simplify_eq; try done;
      apply (shares_update (λ a, String.eqb (a_owner a) ns && String.eqb (a_device a) (d_id _)) (set_share_device id) d I); done.
  - (* RemoveDevice *) eapply shares_step; [exact I|by apply same_friends|]. intros s [Hs _]%elem_of_delete_func Ls. right. eauto.
  - (* FriendRequest *) unfold FriendRequest, next_serial. outcomes; simplify_eq; try done; (eapply shares_step; [exact I| |intros s Hs Ls; right; eauto]); simpl.
    + by apply accepting_keeps.
    + intros f' Hf A. exists f'. split; [apply elem_of_app; by left|done].
  - (* FriendAccept *) unfold FriendAccept. outcomes; [|done]. eapply shares_step; [exact I|apply accepting_keeps|intros s Hs Ls; right; eauto].
  - (* FriendDecline *) unfold FriendDecline. outcomes; [|done]. eapply shares_step; [exact I| |intros s Hs Ls; right; eauto].
    intros f Hf A. exists f. split; [|done]. apply elem_of_delete_func. split; [done|]. unfold waiting. rewrite A. apply andb_false_r.
  - (* FriendRemove *) destruct (FriendRemove now ns other d) as [[u|e] d'] eqn:E; [by eapply shares_remove|].
    unfold FriendRemove in E. destruct (any _ _); [done|]. by injection E as _ <-.
  - (* GrantACL *) unfold GrantACL. destruct (String.eqb_spec ns grantee) as [|N]; [done|]. destruct (any _ _) eqn:F; [|done]. simpl.
    eapply shares_step; [exact I|by apply same_friends|]. simpl. intros s [Hs|Hs]%elem_of_app Ls; [right; eauto|left].
    apply list_elem_of_singleton in Hs as ->. by split.
  - by apply shares_update.
  - by apply shares_update.
  - by apply shares_update.
Qed.

Lemma stored_shares s : stored json_valid s → shares_ok s.2.
Proof.
  revert s. apply (invariant_reachable fresh_db (dstep json_valid)).
  - intros [t d] E. unfold fresh_db in E. simpl in *. subst d. by intros s ?%elem_of_nil.
  - intros [t d] [t' d'] I [_ [o E]]. simpl in *. subst d'. by apply shares_op.
Qed.

(** C14: a device is shared only between friends.  In every database the relay's
    queries can reach, every live share joins two friends: a namespace has a live grant on a device of another only
    while the two are accepted friends; and removing a friendship ends every
    share between the two at once, in both directions. *)
Theorem share_needs_friends t d :
  stored json_valid (t, d) → shares_ok d ∧
  (∀ caller owner device manage, ACLGrant caller owner device d = Some manage → caller ≠ owner ∧ IsFriend owner caller d = true) ∧
  (∀ now a b d' device, FriendRemove now a b d = (Ok tt, d') →
    ACLGrant a b device d' = None ∧ ACLGrant b a device d' = None ∧ IsFriend a b d' = false).
Proof.
  intros R. pose proof (stored_shares (t, d) R : shares_ok d) as I. split; [done|]. split.
  - intros caller owner device manage G. assert (any (grant_of owner device caller) (acl d) = true) as Ex.
    { unfold ACLGrant in G. destruct (any (λ s, grant_of owner device caller s && a_manage s) (acl d)) eqn:E.
      - apply any_true in E as (x & Hx & E). bsplit. apply any_true. eauto.
      - by destruct (any _ _) in G |- *. }
    apply any_true in Ex as (x & Hx & E). unfold grant_of in E.
    rewrite !andb_true_iff, !String.eqb_eq in E. destruct E as [[[<- _] <-] L].
    destruct (I x Hx L) as [N P]. split; [congruence|]. unfold IsFriend. by rewrite (proj2 (String.eqb_neq _ _) N).
  - intros now a b d' device E. destruct (shares_remove _ _ _ _ _ _ E I) as [I' Nb].
    assert (∀ x y, between a b (Share 0 x device y false None) = true → ACLGrant y x device d' = None) as No.
    { intros x y B. unfold ACLGrant. rewrite !(proj2 (any_false _ _)); [done| |]; intros z Hz; unfold grant_of;
        (destruct (share_live z) eqn:L; [|by rewrite ?andb_false_r]); specialize (Nb z Hz L); unfold between in *; simpl in B;
        destruct (String.eqb_spec (a_owner z) x); destruct (String.eqb_spec (a_grantee z) y); subst; try (by rewrite ?andb_false_r);
        by rewrite B in Nb. }
    split_and!; [apply No; unfold between; simpl; rewrite !String.eqb_refl; apply orb_true_r|apply No; unfold between; simpl; by rewrite !String.eqb_refl|].
    unfold FriendRemove in E. destruct (any _ _); [|done]. injection E as <-. unfold IsFriend. destruct (String.eqb a b); [done|].
    apply any_false. simpl. intros f [_ Nf]%elem_of_delete_func. by rewrite Nf.
Qed.
End shares.

(** Two accounts become friends, one shares a device, and removes the other. *)
Definition sharing : list (Z * op) :=
  [(1, QResolveIdentity "header" "alice@x" "" "" "portal"); (2, QResolveIdentity "header" "bob" "" "" "portal");
   (3, QFriendRequest "alice" "bob" "portal"); (4, QFriendAccept "bob" "alice"); (5, QGrantACL "alice" "box" "bob" false)].

Definition shared_db : db := @run_ops ascii_libraries (λ _, true) sharing empty_db.

Lemma shared_db_stored : @stored ascii_libraries (λ _, true) (last_time 0 sharing, shared_db).
Proof. exact (@stored_run ascii_libraries (λ _, true) 0 sharing eq_refl). Qed.

Lemma share_needs_friends_witness :
  ACLGrant "bob" "alice" "box" shared_db = Some false ∧ IsFriend "alice" "bob" shared_db = true ∧
  ∀ d', FriendRemove 6 "bob" "alice" shared_db = (Ok tt, d') → ACLGrant "bob" "alice" "box" d' = None ∧ IsFriend "bob" "alice" d' = false.
Proof.
  destruct (@share_needs_friends ascii_libraries (λ _, true) _ _ shared_db_stored) as (_ & A & B).
  assert (ACLGrant "bob" "alice" "box" shared_db = Some false) as G by (vm_compute; reflexivity).
  split; [exact G|]. split; [exact (proj2 (A _ _ _ _ G))|].
  intros d' E. destruct (B _ _ _ _ "box"%string E) as (H1 & _ & H3). split; [exact H1|exact H3].
Defined.
