(* ===== verification/AccountInv.v ===== *)
(** Who has an account: what holds of the users and invites in every database
    the relay's queries can reach. *)

From S2P Require Import Prelude GoStrings GoUtf8 Tables Accounts StoreOps.

Local Open Scope Z_scope.

Section accounts_inv.
Context `{Libraries} (json_valid : string → bool).

Definition identity (u : user) : string * string := (u_provider u, u_subject u).
Definition is_admin (u : user) : bool := String.eqb (u_role u) "admin".

(** Rows are listed in the order in which they were inserted, so the first
    GitHub row is the first GitHub account. *)
Definition is_github (u : user) : bool := String.eqb (u_provider u) "github".
Definition first_github (l : list user) : option user := find_first is_github l.

(** An account that needed an invite. *)
Definition invited (u : user) : bool := String.eqb (u_provider u) "github" && String.eqb (u_role u) "user".
Definition used (i : invite) : bool := negb (is_null (i_used i)).

Record accounts_ok (d : db) : Prop := {
  ac_ns : NoDup (map u_ns (users d));
  ac_identity : NoDup (map identity (users d));
  ac_names : ∀ u, u ∈ users d → u_ns u ≠ ""%string ∧ equal_fold (u_ns u) "portal" = false;
  ac_admin : (count_where is_admin (users d) ≤ 1)%nat;
  ac_first : ∀ u, u ∈ users d → is_admin u = true ↔ first_github (users d) = Some u;
  ac_invites : map u_ns (List.filter invited (users d)) ≡ₚ map i_usedBy (List.filter used (invites d)) }.

Lemma guard_names ns reserved : guardNamespace ns reserved = true → ns ≠ ""%string ∧ equal_fold ns "portal" = false.
Proof. unfold guardNamespace. intros G. bsplit. split; [by apply String.eqb_neq|done]. Qed.

Lemma lookupIdentity_Some p s d u : lookupIdentity p s d = Some u → u ∈ users d ∧ u_provider u = p ∧ u_subject u = s.
Proof. intros [Hu E]%find_first_Some. bsplit. by apply String.eqb_eq in H0, H1. Qed.

Lemma lookupIdentity_None p s d : lookupIdentity p s d = None → ∀ u, u ∈ users d → identity u ≠ (p, s).
Proof.
  intros L u Hu [= E1 E2].
  pose proof (proj1 (find_first_None _ _) L u Hu) as F. simpl in F. by rewrite E1, E2, !String.eqb_refl in F.
Qed.

Lemma user_of_None ns d : user_of ns d = None → ∀ u, u ∈ users d → u_ns u ≠ ns.
Proof. intros L u Hu E. pose proof (proj1 (find_first_None _ _) L u Hu) as F. simpl in F. by rewrite E, String.eqb_refl in F. Qed.

(** An identity is inserted fresh, or the row it already has is found. *)
Lemma insertIdentity_spec p s ns name role d ns' role' d' :
  insertIdentity p s ns name role d = Ok (ns', role', d') →
  (d' = d ∧ ∃ u, lookupIdentity p s d = Some u ∧ ns' = u_ns u ∧ role' = u_role u) ∨
  (user_of ns d = None ∧ lookupIdentity p s d = None ∧ ns' = ns ∧ role' = role ∧
   d' = on_users (λ l, l ++ [User p s ns name role None]) d).
Proof.
  unfold insertIdentity. destruct (bool_decide (is_Some (user_of ns d))) eqn:U.
  - destruct (lookupIdentity p s d) as [u|]; [|done]. intros [= <- <- <-]. left. eauto.
  - destruct (bool_decide (is_Some (lookupIdentity p s d))) eqn:L; [done|]. intros [= <- <- <-]. right.
    apply bool_decide_eq_false_1 in U, L. split_and!; try done; by apply eq_None_not_Some.
Qed.

Lemma filter_snoc {A} (p : A → bool) l x : List.filter p (l ++ [x]) = List.filter p l ++ (if p x then [x] else []).
Proof. rewrite List.filter_app. simpl. by destruct (p x). Qed.

(** An account that is not a GitHub one, or comes after a GitHub one, is not
    the first; without an administrator there is no GitHub account yet. *)
Lemma first_github_snoc l u : first_github (l ++ [u]) =
  match first_github l with Some v => Some v | None => if is_github u then Some u else None end.
Proof. unfold first_github. induction l as [|v l IH]; simpl; [by destruct (is_github u)|]. by destruct (is_github v). Qed.

Lemma first_github_map (h : user → user) l :
  (∀ u, is_github (h u) = is_github u) → first_github (map h l) = option_map h (first_github l).
Proof. intros G. unfold first_github. induction l as [|v l IH]; simpl; [done|]. rewrite G. by destruct (is_github v). Qed.

(** A change that keeps everybody's provider and role keeps the first. *)
Lemma first_admin_map (h : user → user) l :
  (∀ u, is_github (h u) = is_github u) → (∀ u, is_admin (h u) = is_admin u) →
  (∀ u, u ∈ l → is_admin u = true ↔ first_github l = Some u) →
  ∀ u, u ∈ map h l → is_admin u = true ↔ first_github (map h l) = Some u.
Proof.
  intros G A F u (u0 & -> & Hu)%list_elem_of_fmap. rewrite first_github_map, A, F by done. split; [by intros ->|].
  destruct (first_github l) as [v|] eqn:E; [|done]. intros [= Ev]. rewrite <- F, <- A, <- Ev, A by done.
  pose proof E as [Hv _]%find_first_Some. by apply F.
Qed.

Lemma has_admin_first d : accounts_ok d → has_admin d = bool_decide (is_Some (first_github (users d))).
Proof.
  intros I. apply eq_true_iff_eq. rewrite bool_decide_eq_true. unfold has_admin. rewrite any_true. split.
  - intros (u & Hu & A). exists u. by apply (ac_first d I).
  - intros [u F]. pose proof F as [Hu _]%find_first_Some. exists u. split; [done|]. by apply (ac_first d I).
Qed.

(** What inserting keeps, up to the invites: [extra] is the name it adds. *)
Lemma accounts_insert p s ns name role d :
  accounts_ok d → user_of ns d = None → lookupIdentity p s d = None → ns ≠ ""%string → equal_fold ns "portal" = false →
  (role = "admin"%string ↔ p = "github"%string ∧ has_admin d = false) →
  let d' := on_users (λ l, l ++ [User p s ns name role None]) d in
  NoDup (map u_ns (users d')) ∧ NoDup (map identity (users d')) ∧
  (∀ u, u ∈ users d' → u_ns u ≠ ""%string ∧ equal_fold (u_ns u) "portal" = false) ∧ (count_where is_admin (users d') ≤ 1)%nat ∧
  (∀ u, u ∈ users d' → is_admin u = true ↔ first_github (users d') = Some u) ∧
  map u_ns (List.filter invited (users d')) = map u_ns (List.filter invited (users d))
    ++ (if String.eqb p "github" && String.eqb role "user" then [ns] else []).
Proof.
  intros I U L Ne Po Ad. pose proof (has_admin_first d I) as HF. destruct I as [I1 I2 I3 I4 I5 _]. simpl. split_and!.
  - apply NoDup_snoc; [done|]. intros y Hy. by apply (user_of_None ns d).
  - apply NoDup_snoc; [done|]. intros y Hy. by apply (lookupIdentity_None p s d).
  - intros u [Hu | ->%list_elem_of_singleton]%elem_of_app; [by apply I3|done].
  - rewrite count_where_app. unfold count_where at 2. simpl. unfold is_admin at 2. simpl.
    destruct (String.eqb_spec role "admin") as [->|]; [|simpl; lia]. destruct (proj1 Ad eq_refl) as [_ A].
    rewrite (proj2 (count_where_0 is_admin (users d)) A). simpl. lia.
  - set (new := User p s ns name role None). assert (new ∉ users d) as New by (intros Hn; by apply (user_of_None ns d U new Hn)).
    assert (is_admin new = true ↔ is_github new = true ∧ has_admin d = false) as Ad'.
    { unfold is_admin, is_github. simpl. rewrite !String.eqb_eq. exact Ad. }
    intros u Hu. rewrite first_github_snoc. rewrite HF in Ad'.
    destruct (first_github (users d)) as [v|] eqn:F; simpl in Ad'; apply elem_of_app in Hu as [Hu | ->%list_elem_of_singleton].
    + by apply I5.
    + rewrite Ad'. split; [by intros []|]. intros [= ->]. by apply find_first_Some in F as [? _].
    + rewrite I5 by done. split; [done|]. destruct (is_github new); [intros [= <-]|]; done.
    + rewrite Ad'. destruct (is_github new); naive_solver.
  - rewrite filter_snoc, map_app. unfold invited at 2. simpl. by destruct (_ && _).
Qed.

(** One invite goes from open to used. *)
Lemma mark_used_perm (open : invite → bool) now ns l :
  (∀ i, open i = true → i_used i = None) → count_where open l = 1%nat →
  map i_usedBy (List.filter used (update_where open (use_invite now ns) l)) ≡ₚ ns :: map i_usedBy (List.filter used l).
Proof.
  intros O. induction l as [|i l IH]; [done|]. unfold count_where in *. simpl. destruct (open i) eqn:E.
  - simpl. intros [= C]. rewrite (update_where_id open).
    + unfold used at 2. by rewrite (O i E).
    + intros x Hx Ox. assert (any open l = true) as A by (apply any_true; eauto).
      by rewrite (proj1 (count_where_0 open l) C) in A.
  - intros C. specialize (IH C). destruct (used i); simpl; [rewrite IH; apply Permutation_swap|done].
Qed.

Lemma accounts_same_users d d' : users d' = users d → invites d' = invites d → accounts_ok d → accounts_ok d'.
Proof. intros E1 E2 [H1 H2 H3 H4 H5 H6]. split; rewrite ?E1, ?E2; done. Qed.

(** An invite that is not used yet comes or goes. *)
Lemma accounts_open_invite d d' : users d' = users d → List.filter used (invites d') = List.filter used (invites d) →
  accounts_ok d → accounts_ok d'.
Proof. intros E1 E2 [H1 H2 H3 H4 H5 H6]. split; rewrite ?E1, ?E2; done. Qed.

Lemma accounts_github now subject ns name d r role d' :
  accounts_ok d → ns ≠ ""%string → equal_fold ns "portal" = false →
  resolveGitHubIdentity now subject ns name d = Ok (r, role, d') → accounts_ok d'.
Proof.
  intros I Ne Po. unfold resolveGitHubIdentity. destruct (lookupIdentity "github" subject d) as [u|] eqn:L; [by intros [= _ _ <-]|].
  destruct (has_admin d) eqn:Ad.
  - destruct (open_invite ns d) as [i|]; [|done]. destruct (insertIdentity _ _ _ _ _ _) as [[[got ro] d1]|] eqn:Ins; [|done].
    apply insertIdentity_spec in Ins as [(_ & u & Lu & _)|(U & _ & -> & -> & ->)]; [congruence|].
    unfold mark_used. cbn [invites on_users]. set (open := λ j, (i_id j =? i_id i)%nat && is_null (i_used j)).
    destruct (Nat.eqb_spec (count_where open (invites d)) 1) as [C|]; [|done].
    intros [= <- <- <-].
    destruct (accounts_insert "github" subject ns (if String.eqb name "" then ns else name) "user" d I U L Ne Po ltac:(split; [discriminate|intros []; congruence])) as (J1 & J2 & J3 & J4 & JF & J5).
    split; try done. cbn [users invites on_invites]. rewrite J5. cbn [users invites on_users]. rewrite mark_used_perm; [|intros j Hj; unfold open in Hj; bsplit; by apply is_null_None|done].
    rewrite (Permutation_app_comm _ [ns]). simpl. constructor. apply (ac_invites d I).
  - intros Ins. apply insertIdentity_spec in Ins as [(-> & _)|(U & _ & -> & -> & ->)]; [done|].
    destruct (accounts_insert "github" subject ns (if String.eqb name "" then ns else name) "admin" d I U L Ne Po (conj (λ _, conj eq_refl Ad) (λ _, eq_refl))) as (J1 & J2 & J3 & J4 & JF & J5).
    split; try done. rewrite J5. simpl. rewrite app_nil_r. apply (ac_invites d I).
Qed.

Lemma accounts_resolve now p s l n r d res d' : accounts_ok d → ResolveIdentity now p s l n r d = (res, d') → accounts_ok d'.
Proof.
  intros I. unfold ResolveIdentity. set (p' := ToLower (trim_space p)). set (s' := trim_space s). cbv zeta.
  destruct (String.eqb s' ""); [by intros [= _ <-]|]. destruct (lookupIdentity p' s' d) as [u|] eqn:L.
  { destruct (AccountDisabled (u_ns u) d) as [[]|]; by intros [= _ <-]. }
  destruct (String.eqb_spec p' "header") as [Ep|].
  - destruct (guardNamespace (deriveNS s') r) eqn:G; [simpl|by intros [= _ <-]]. destruct (guard_names _ _ G) as [Ne Po].
    destruct (insertIdentity _ _ _ _ _ _) as [[[ns ro] d1]|] eqn:Ins; intros [= _ <-]; [|done].
    apply insertIdentity_spec in Ins as [(-> & _)|(U & _ & -> & -> & ->)]; [done|].
    destruct (accounts_insert p' s' (deriveNS s') s' "user" d I U L Ne Po ltac:(split; [discriminate|intros []; congruence])) as (J1 & J2 & J3 & J4 & JF & J5).
    split; try done. rewrite J5, Ep. simpl. rewrite app_nil_r. apply (ac_invites d I).
  - destruct (String.eqb p' "github"); [|by intros [= _ <-]]. destruct (decimalString s'); [simpl|by intros [= _ <-]].
    destruct (validGitHubLogin _); [simpl|by intros [= _ <-]]. destruct (guardNamespace _ r) eqn:G; [simpl|by intros [= _ <-]].
    destruct (guard_names _ _ G) as [Ne Po].
    destruct (resolveGitHubIdentity _ _ _ _ _) as [[[ns ro] d1]|] eqn:Re; intros [= _ <-]; [|done]. by eapply accounts_github.
Qed.

Lemma filter_delete_open id l : List.filter used (delete_func (λ i, (i_id i =? id)%nat && is_null (i_used i)) l) = List.filter used l.
Proof.
  unfold delete_func. induction l as [|i l IH]; simpl; [done|]. unfold used at 2. destruct (i_used i) eqn:E; simpl.
  - rewrite andb_false_r. simpl. unfold used at 1. rewrite E. simpl. by rewrite IH.
  - rewrite andb_true_r. destruct (_ =? _)%nat; simpl; [done|]. unfold used at 1. rewrite E. simpl. done.
Qed.

Lemma accounts_op now o d : accounts_ok d → accounts_ok (apply_op json_valid now o d).
Proof.
  intros I. destruct (writes_accounts o) eqn:W; [|destruct (accounts_frame json_valid now o d W); by eapply accounts_same_users].
  destruct o; try done; cbn [apply_op]; clear W.
  - destruct (ResolveIdentity _ _ _ _ _ _ _) as [res d'] eqn:E. by eapply accounts_resolve.
  - unfold CreateInvite, insert_invite, next_serial. outcomes; simplify_eq; try done. apply (accounts_open_invite d); [done| |done].
    simpl. rewrite filter_snoc. simpl. by rewrite app_nil_r.
  - apply (accounts_open_invite d); [done| |done]. apply filter_delete_open.
  - unfold DecideAccessRequest, insert_invite, next_serial. outcomes; simplify_eq; try done; try by apply (accounts_same_users d).
    apply (accounts_open_invite d); [done| |done]. simpl. rewrite filter_snoc. simpl. by rewrite app_nil_r.
  - assert (∀ B (g : user → B) (p : user → bool) v, (∀ u, g (set_disabled (v u) u) = g u) →
             map g (update_where p (λ u, set_disabled (v u) u) (users d)) = map g (users d)) as M.
    { intros B g p v E. unfold update_where. rewrite map_map. apply map_ext. intros u. by destruct (p u). }
    destruct I as [I1 I2 I3 I4 IF I5]. split; simpl.
    + by rewrite M.
    + by rewrite M.
    + intros u (u0 & Hu & ->)%elem_of_update_where. destruct (String.eqb _ _); simpl; by apply I3.
    + etrans; [|exact I4]. apply count_where_le. intros u _. by destruct (String.eqb _ _).
    + apply first_admin_map; [intros u; by destruct (String.eqb _ _)..|done].
    + rewrite <- I5. clear. induction (users d) as [|u l IH]; simpl; [done|]. destruct (String.eqb (u_ns u) ns); unfold invited in *; simpl;
        destruct (_ && _); simpl; by rewrite IH.
Qed.

Lemma stored_accounts t d : stored json_valid (t, d) → accounts_ok d.
Proof.
  assert (∀ s, stored json_valid s → accounts_ok s.2) as A; [|apply (A (t, d))].
  apply (invariant_reachable fresh_db (dstep json_valid)).
  - intros [t0 d0] E. unfold fresh_db in E. simpl in *. subst d0. split; simpl; [apply NoDup_nil_2|apply NoDup_nil_2|by intros u ?%elem_of_nil|unfold count_where; simpl; lia|by intros u ?%elem_of_nil|done].
  - intros [t1 d1] [t' d'] I [_ [o E]]. simpl in *. subst d'. by apply accounts_op.
Qed.

(** C15: one account per person, one person per account.  In every database the
    relay's queries can reach, no two accounts share a namespace or a provider
    identity; no account is called "portal" in any casing, or nothing; an account is an administrator exactly when it is the first GitHub account
    to have been created; and the GitHub accounts that came after it are exactly
    those that a used invite names. *)
Theorem one_account_per_identity t d :
  stored json_valid (t, d) →
  (∀ u v, u ∈ users d → v ∈ users d → u_ns u = u_ns v ∨ identity u = identity v → u = v) ∧
  (∀ u, u ∈ users d → u_ns u ≠ ""%string ∧ equal_fold (u_ns u) "portal" = false) ∧
  (count_where is_admin (users d) ≤ 1)%nat ∧
  (∀ u, u ∈ users d → is_admin u = true ↔ first_github (users d) = Some u) ∧
  map u_ns (List.filter invited (users d)) ≡ₚ map i_usedBy (List.filter used (invites d)).
Proof.
  intros R. destruct (stored_accounts t d R) as [I1 I2 I3 I4 I5 I6]. split_and!; try done.
  intros u v Hu Hv [E|E]; [by eapply (unique_row u_ns)|by eapply (unique_row identity)].
Qed.

(** ** An identity keeps its namespace *)

(** The account is still there, under the same name and with the same role. *)
Definition kept (u : user) (d : db) : Prop :=
  ∃ v, v ∈ users d ∧ identity v = identity u ∧ u_ns v = u_ns u ∧ u_role v = u_role u.

Lemma resolve_users now p s l n r d : ∃ ext, users (ResolveIdentity now p s l n r d).2 = users d ++ ext.
Proof.
  assert (∀ l : list user, ∃ ext, l = l ++ ext) as Nil by (intros; exists []; by rewrite app_nil_r).
  unfold ResolveIdentity, resolveGitHubIdentity, insertIdentity, mark_used. cbv zeta. outcomes; simplify_eq; simpl; eauto.
Qed.

Lemma kept_op now o u d : kept u d → kept u (apply_op json_valid now o d).
Proof.
  intros (v & Hv & E). destruct (writes_accounts o) eqn:W; [|destruct (accounts_frame json_valid now o d W) as [F _]; exists v; by rewrite F].
  destruct o; try done; cbn [apply_op]; clear W.
  - destruct (resolve_users now provider subject login name reserved d) as [ext F]. exists v. rewrite F. split; [apply elem_of_app; by left|done].
  - exists v. unfold CreateInvite, insert_invite, next_serial. outcomes; simplify_eq; done.
  - by exists v.
  - exists v. unfold DecideAccessRequest, insert_invite, next_serial. outcomes; simplify_eq; done.
  - eexists. split; [apply elem_of_update_where; by exists v|]. by destruct (String.eqb _ _).
Qed.

Lemma kept_steps u s s' : rtc (dstep json_valid) s s' → kept u s.2 → kept u s'.2.
Proof.
  induction 1 as [|s1 s2 s3 [_ [o E]] _ IH]; [done|]. intros K. apply IH. rewrite E. by apply kept_op.
Qed.

(** A resolution that succeeds leaves the account it names. *)
Lemma resolve_kept now p s l n r d ns role d1 :
  ResolveIdentity now p s l n r d = (Ok (ns, role), d1) →
  trim_space s ≠ ""%string ∧ ∃ u, u ∈ users d1 ∧ identity u = (ToLower (trim_space p), trim_space s) ∧ u_ns u = ns ∧ u_role u = role.
Proof.
  unfold ResolveIdentity. cbv zeta. set (p' := ToLower (trim_space p)). set (s' := trim_space s).
  destruct (String.eqb_spec s' "") as [|Ne]; [done|]. intros E. split; [done|].
  assert (∀ u d2, lookupIdentity p' s' d2 = Some u → u ∈ users d2 ∧ identity u = (p', s')) as Found.
  { intros u d2 (Hu & E1 & E2)%lookupIdentity_Some. split; [done|]. unfold identity. by rewrite E1, E2. }
  assert (∀ ns0 nm role0 d2, insertIdentity p' s' ns0 nm role0 d = Ok (ns, role, d2) →
    ∃ u, u ∈ users d2 ∧ identity u = (p', s') ∧ u_ns u = ns ∧ u_role u = role) as Ins.
  { intros ns0 nm role0 d2 [(-> & u & L & -> & ->)|(_ & _ & -> & -> & ->)]%insertIdentity_spec.
    - exists u. destruct (Found u d L). done.
    - eexists. simpl. split; [apply elem_of_app; right; by apply list_elem_of_singleton|done]. }
  destruct (lookupIdentity p' s' d) as [u|] eqn:L.
  { destruct (AccountDisabled (u_ns u) d) as [[]|]; simplify_eq; destruct (Found u _ L); eauto. }
  destruct (String.eqb_spec p' "header").
  - destruct (guardNamespace _ _); [simpl in E|done]. destruct (insertIdentity _ _ _ _ _ _) as [[[ns0 ro] d2]|] eqn:I; [|done]. simplify_eq. eauto.
  - destruct (String.eqb_spec p' "github") as [G|]; [|done]. destruct (decimalString _); [simpl in E|done].
    destruct (validGitHubLogin _); [simpl in E|done]. destruct (guardNamespace _ _); [simpl in E|done].
    destruct (resolveGitHubIdentity _ _ _ _ _) as [[[ns0 ro] d2]|] eqn:I; [|done]. injection E as -> -> ->. revert I. unfold resolveGitHubIdentity.
    rewrite <- G, L. destruct (has_admin d); [|by eauto]. destruct (open_invite _ _) as [i|]; [|done].
    destruct (insertIdentity _ _ _ _ _ _) as [[[got r1] d3]|] eqn:I3; [|done]. unfold mark_used. destruct (_ =? 1)%nat; [|done].
    intros [= -> -> <-]. simpl. by eapply Ins.
Qed.

(** A person keeps their namespace.  Once an identity has resolved, every
    later resolution of it, whatever login or name it comes with and whatever
    the relay did in between, gives the same namespace and role, unless the
    account is disabled; and it writes nothing. *)
Lemma identity_keeps_namespace t d p s l n r ns role d1 t' d' :
  stored json_valid (t, d) → ResolveIdentity t p s l n r d = (Ok (ns, role), d1) → rtc (dstep json_valid) (t, d1) (t', d') →
  ∀ now l' n' r', ResolveIdentity now p s l' n' r' d' =
    (match AccountDisabled ns d' with Some (Some _) => Err ErrAccountDisabled | _ => Ok (ns, role) end, d').
Proof.
  intros R E Steps now l' n' r'. destruct (resolve_kept _ _ _ _ _ _ _ _ _ _ E) as (Ne & u & Hu & Id & <- & <-).
  assert (kept u d') as (v & Hv & Iv & <- & <-) by (apply (kept_steps u (t, d1) (t', d') Steps); exists u; done).
  assert (accounts_ok d') as I.
  { apply (stored_accounts t' d'). destruct R as (s0 & F & R0). exists s0. split; [done|]. etrans; [exact R0|].
    eapply rtc_l; [|exact Steps]. split; [simpl; lia|]. exists (QResolveIdentity p s l n r). simpl. by rewrite E. }
  unfold ResolveIdentity. cbv zeta. rewrite (proj2 (String.eqb_neq _ _) Ne). rewrite Id in Iv. unfold identity in Iv. injection Iv as I1 I2.
  assert (lookupIdentity (ToLower (trim_space p)) (trim_space s) d' = Some v) as ->.
  { eapply (find_first_unique identity); [apply I|done| |].
    - by rewrite I1, I2, !String.eqb_refl.
    - intros y [E1%String.eqb_eq E2%String.eqb_eq]%andb_true_iff. unfold identity. by rewrite E1, E2, I1, I2. }
  by destruct (AccountDisabled (u_ns v) d') as [[]|].
Qed.
End accounts_inv.

(** The first to sign in administers; an approved request lets a second in. *)
Definition admissions : list (Z * op) :=
  [(1, QResolveIdentity "github" "1" "Owner" "" "portal"); (2, QCreateAccessRequest "github" "2" "guest" "hello");
   (3, QDecideAccessRequest 1 "approved" "owner"); (4, QResolveIdentity "github" "2" "guest" "" "portal")].

Definition admitted_db : db := @run_ops ascii_libraries (λ _, true) admissions empty_db.

Lemma admitted_stored : @stored ascii_libraries (λ _, true) (last_time 0 admissions, admitted_db).
Proof. exact (@stored_run ascii_libraries (λ _, true) 0 admissions eq_refl). Qed.

Lemma one_account_per_identity_witness :
  map u_ns (users admitted_db) = ["owner"; "guest"]%string ∧
  (count_where is_admin (users admitted_db) ≤ 1)%nat ∧
  (∀ u, u ∈ users admitted_db → is_admin u = true ↔ first_github (users admitted_db) = Some u) ∧
  map u_ns (List.filter is_admin (users admitted_db)) = ["owner"]%string ∧
  map u_ns (List.filter invited (users admitted_db)) ≡ₚ map i_usedBy (List.filter used (invites admitted_db)).
Proof.
  destruct (@one_account_per_identity ascii_libraries (λ _, true) _ _ admitted_stored) as (_ & _ & A & F & B).
  split; [vm_compute; reflexivity|]. split; [exact A|]. split; [exact F|]. split; [vm_compute; reflexivity|exact B].
Defined.

Definition disabled_db : db := @apply_op ascii_libraries (λ _, true) 5 (QSetAccountDisabled "guest" true) admitted_db.

Lemma identity_keeps_namespace_witness :
  @ResolveIdentity ascii_libraries 4 "GitHub" " 2" "renamed" "" "portal" admitted_db = (Ok ("guest", "user")%string, admitted_db) ∧
  @ResolveIdentity ascii_libraries 6 "GitHub" " 2" "other" "" "portal" disabled_db =
    (match AccountDisabled "guest" disabled_db with Some (Some _) => Err ErrAccountDisabled | _ => Ok ("guest", "user")%string end, disabled_db).
Proof.
  assert (@ResolveIdentity ascii_libraries 4 "GitHub" " 2" "renamed" "" "portal" admitted_db = (Ok ("guest", "user")%string, admitted_db)) as E
    by (vm_compute; reflexivity).
  split; [exact E|].
  exact (@identity_keeps_namespace ascii_libraries (λ _, true) _ _ _ _ _ _ _ _ _ _ 5 disabled_db admitted_stored E
           (rtc_once _ _ (@dstep_op ascii_libraries (λ _, true) 4 admitted_db 5 _ ltac:(discriminate))) 6 "other"%string ""%string "portal"%string).
Defined.
