(* ===== verification/TokenInv.v ===== *)
(** The credentials in the relay's database: what every query does to the tokens
    table, and what follows for revoked, disabled and scoped credentials. *)

From S2P Require Import Prelude GoStrings GoUtf8 Session Tables Accounts Grants OAuth StoreOps.

Local Open Scope Z_scope.

Import Delegation.

(** Every way a query changes the tokens, and the scopes with them. *)
Inductive token_change (now : Z) (d : db) : list token → list scoped_token → Prop :=
| tc_same : token_change now d (tokens d) (scoped d)
| tc_revoke p : token_change now d (update_where p (set_revoked (Some now)) (tokens d)) (scoped d)
| tc_delete p : (∀ t, p t = true → t_kind t = "delegated"%string) → token_change now d (delete_func p (tokens d)) (scoped d)
| tc_insert ns kind h label e :
    any (λ t, String.eqb (t_hash t) h) (tokens d) = false →
    token_change now d (tokens d ++ [Token (serial d) ns kind h label e None]) (scoped d)
| tc_scoped ns h label e dev fp cmd :
    any (λ t, String.eqb (t_hash t) h) (tokens d) = false →
    (count_where (scoped_live now ns d) (tokens d) < scopedMaxLive)%nat →
    token_change now d (tokens d ++ [Token (serial d) ns "delegated" h label (Some e) None])
      (scoped d ++ [MkScoped (serial d) ns dev fp cmd])
| tc_extend p until :
    (∀ t, p t = true → t_kind t = "access"%string ∧ t_revoked t = None ∧ unexpired now (t_expires t) = true ∧ namespaceEnabled (t_ns t) d = true) →
    token_change now d (update_where p (set_expires (Some until)) (tokens d)) (scoped d).

Section tokens_inv.
Context `{Libraries} (json_valid : string → bool).

Lemma token_changes now o d :
  token_change now d (tokens (apply_op json_valid now o d)) (scoped (apply_op json_valid now o d)).
Proof.
  destruct (writes_tokens o) eqn:W; [|destruct (tokens_frame json_valid now o d W) as [-> ->]; apply tc_same].
  destruct o; try done; cbn [apply_op]; clear W.
  - unfold IssueToken. outcomes; simplify_eq; simpl; first [by apply (tc_insert now d)|apply tc_same].
  - apply (tc_revoke now d).
  - unfold ApproveDelegation. outcomes; simplify_eq; simpl; try apply tc_same. by apply (tc_insert now d).
  - unfold IssueScopedToken. outcomes; simplify_eq; simpl; try apply tc_same; apply (tc_scoped now d); first [done|by apply Nat.leb_gt].
  - apply (tc_revoke now d).
  - destruct (batch_ok _ _ _ _); [|apply tc_same]. apply (tc_delete now d). intros t Ht. bsplit. by apply String.eqb_eq.
  - apply (tc_revoke now d).
  - apply (tc_extend now d). intros t Ht. bsplit. split_and!; [by apply String.eqb_eq|by apply is_null_None|done|done].
Qed.

(** ** The tables fit together *)

Record tokens_ok (d : db) : Prop := {
  tk_hash : NoDup (map t_hash (tokens d));
  tk_id : NoDup (map t_id (tokens d));
  tk_serial : ∀ t, t ∈ tokens d → (t_id t < serial d)%nat;
  tk_scope : ∀ s, s ∈ scoped d → (s_token s < serial d)%nat;
  tk_scoped : ∀ s t, s ∈ scoped d → t ∈ tokens d → t_id t = s_token s → t_kind t = "delegated"%string }.

Lemma update_tokens_ok d d' p f :
  (∀ t, t_id (f t) = t_id t ∧ t_hash (f t) = t_hash t ∧ t_kind (f t) = t_kind t) →
  tokens d' = update_where p f (tokens d) → scoped d' = scoped d → (serial d ≤ serial d')%nat → tokens_ok d → tokens_ok d'.
Proof.
  intros F E1 E2 S [I1 I2 I3 I4 I5].
  assert (∀ t, t ∈ tokens d' → ∃ t0, t0 ∈ tokens d ∧ t_id t = t_id t0 ∧ t_kind t = t_kind t0) as Old.
  { rewrite E1. intros t (t0 & Ht & ->)%elem_of_update_where. exists t0. destruct (F t0) as (? & ? & ?). by destruct (p t0). }
  split.
  - rewrite E1, map_update_where; [done|apply F].
  - rewrite E1, map_update_where; [done|apply F].
  - intros t Ht. destruct (Old t Ht) as (t0 & H0 & -> & _). specialize (I3 t0 H0). lia.
  - rewrite E2. intros s Hs. specialize (I4 s Hs). lia.
  - rewrite E2. intros s t Hs Ht. destruct (Old t Ht) as (t0 & H0 & -> & ->). by apply I5.
Qed.

Lemma insert_tokens_ok d d' ns kind h label e ext :
  any (λ t, String.eqb (t_hash t) h) (tokens d) = false →
  tokens d' = tokens d ++ [Token (serial d) ns kind h label e None] →
  (scoped d' = scoped d ∨ scoped d' = scoped d ++ [ext] ∧ s_token ext = serial d ∧ kind = "delegated"%string) →
  (serial d < serial d')%nat → tokens_ok d → tokens_ok d'.
Proof.
  intros N E1 E2 S [I1 I2 I3 I4 I5].
  assert (∀ s, s ∈ scoped d' → s ∈ scoped d ∨ s_token s = serial d ∧ kind = "delegated"%string) as Sc.
  { destruct E2 as [->|(-> & E & K)]; [auto|]. intros s [Hs | ->%list_elem_of_singleton]%elem_of_app; auto. }
  split.
  - rewrite E1. apply NoDup_snoc; [done|]. intros y Hy E. rewrite any_false in N. specialize (N y Hy). simpl in *. by rewrite E, String.eqb_refl in N.
  - rewrite E1. apply NoDup_snoc; [done|]. intros y Hy. specialize (I3 y Hy). simpl. lia.
  - rewrite E1. intros t [Ht | ->%list_elem_of_singleton]%elem_of_app; [specialize (I3 t Ht); lia|simpl; lia].
  - intros s Hs. destruct (Sc s Hs) as [Hs'|[-> _]]; [specialize (I4 s Hs'); lia|lia].
  - rewrite E1. intros s t Hs [Ht | ->%list_elem_of_singleton]%elem_of_app E; destruct (Sc s Hs) as [Hs'|[E' K]]; simpl in *; try done.
    + by eapply I5.
    + specialize (I3 t Ht). lia.
    + specialize (I4 s Hs'). lia.
Qed.

Lemma delete_tokens_ok d d' p : tokens d' = delete_func p (tokens d) → scoped d' = scoped d → (serial d ≤ serial d')%nat → tokens_ok d → tokens_ok d'.
Proof.
  intros E1 E2 S [I1 I2 I3 I4 I5]. split; rewrite ?E1, ?E2.
  - by apply NoDup_delete.
  - by apply NoDup_delete.
  - intros t [Ht _]%elem_of_delete_func. specialize (I3 t Ht). lia.
  - intros s Hs. specialize (I4 s Hs). lia.
  - intros s t Hs [Ht _]%elem_of_delete_func. by apply I5.
Qed.

Lemma inserts_serial now o d : (length (tokens d) < length (tokens (apply_op json_valid now o d)))%nat → (serial d < serial (apply_op json_valid now o d))%nat.
Proof.
  destruct (writes_tokens o) eqn:W; [|destruct (tokens_frame json_valid now o d W) as [-> _]; lia].
  destruct o; try done; cbn [apply_op]; clear W.
  - unfold IssueToken. outcomes; simplify_eq; simpl; lia.
  - simpl. unfold update_where. rewrite length_map. lia.
  - unfold ApproveDelegation. outcomes; simplify_eq; simpl; lia.
  - unfold IssueScopedToken. outcomes; simplify_eq; simpl; lia.
  - simpl. unfold update_where. rewrite length_map. lia.
  - destruct (batch_ok _ _ _ _); [|lia]. simpl. pose proof (delete_func_length (λ t, bool_decide (t_id t ∈ omap (λ g, option_map t_id (token_of (g_tokenID g) d)) batch) && String.eqb (t_kind t) "delegated") (tokens d)). lia.
  - simpl. unfold update_where. rewrite length_map. lia.
  - simpl. unfold update_where. rewrite length_map. lia.
Qed.

Lemma tokens_op now o d : tokens_ok d → tokens_ok (apply_op json_valid now o d).
Proof.
  intros I. pose proof (serial_mono json_valid now o d) as S. pose proof (inserts_serial now o d) as Q.
  pose proof (token_changes now o d) as C. remember (tokens (apply_op json_valid now o d)) as ts eqn:Et.
  remember (scoped (apply_op json_valid now o d)) as sc eqn:Es. destruct C.
  - apply (update_tokens_ok d _ (λ _, false) id); [done|by rewrite <- Et; unfold update_where; rewrite map_id|done..].
  - by apply (update_tokens_ok d _ p (set_revoked (Some now))).
  - by apply (delete_tokens_ok d _ p).
  - eapply (insert_tokens_ok _ _ _ _ _ _ _ (MkScoped 0 "" "" "" "")); [done|by rewrite <- Et|by left|apply Q; rewrite length_app; simpl; lia|done].
  - eapply insert_tokens_ok; [done|by rewrite <- Et|right; by rewrite <- Es|apply Q; rewrite length_app; simpl; lia|done].
  - by apply (update_tokens_ok d _ p (set_expires (Some until))).
Qed.

Lemma stored_tokens t d : stored json_valid (t, d) → tokens_ok d.
Proof.
  assert (∀ s, stored json_valid s → tokens_ok s.2) as A; [|apply (A (t, d))].
  apply (invariant_reachable fresh_db (dstep json_valid)).
  - intros [t0 d0] E. unfold fresh_db in E. simpl in *. subst d0.
    split; simpl; [apply NoDup_nil_2|apply NoDup_nil_2|by intros u ?%elem_of_nil|by intros u ?%elem_of_nil|by intros s u ?%elem_of_nil].
  - intros [t1 d1] [t' d'] I [_ [o E]]. simpl in *. subst d'. by apply tokens_op.
Qed.

(** ** Revoked and expired credentials *)

(** Every row with this hash is revoked or has expired. *)
Definition dead_row (now : Z) (t : token) : bool := negb (is_null (t_revoked t)) || negb (unexpired now (t_expires t)).
Definition gone (now : Z) (h : string) (d : db) : Prop := ∀ t, t ∈ tokens d → t_hash t = h → dead_row now t = true.

(** A step that does not issue this very hash anew. *)
Definition quiet (h : string) (s s' : Z * db) : Prop :=
  dstep json_valid s s' ∧ ∀ t, t ∈ tokens s'.2 → t_hash t = h → ∃ t0, t0 ∈ tokens s.2 ∧ t_id t0 = t_id t.

Lemma dead_later now now' t : now ≤ now' → dead_row now t = true → dead_row now' t = true.
Proof.
  unfold dead_row, unexpired. intros L. rewrite !orb_true_iff, !negb_true_iff. intros [?|E]; [by left|right].
  destruct (t_expires t); [|done]. lia.
Qed.

Lemma gone_op now o h d : tokens_ok d → gone now h d →
  (∀ t, t ∈ tokens (apply_op json_valid now o d) → t_hash t = h → ∃ t0, t0 ∈ tokens d ∧ t_id t0 = t_id t) →
  gone now h (apply_op json_valid now o d).
Proof.
  intros I G. unfold gone. destruct (token_changes now o d) as [|p|p Hp|ns kind h' label e Fr|ns h' label e dev fp cmd Fr Lt|p until Hp]; intros N t Ht E.
  - by apply G.
  - apply elem_of_update_where in Ht as (t0 & Ht0 & ->). destruct (p t0); [done|by apply G].
  - apply elem_of_delete_func in Ht as [Ht _]. by apply G.
  - destruct (N t Ht E) as (t0 & Ht0 & E0). apply elem_of_app in Ht as [Ht | ->%list_elem_of_singleton]; [by apply G|].
    pose proof (tk_serial d I t0 Ht0). simpl in E0. lia.
  - destruct (N t Ht E) as (t0 & Ht0 & E0). apply elem_of_app in Ht as [Ht | ->%list_elem_of_singleton]; [by apply G|].
    pose proof (tk_serial d I t0 Ht0). simpl in E0. lia.
  - apply elem_of_update_where in Ht as (t0 & Ht0 & ->). destruct (p t0) eqn:P; [|by apply G].
    destruct (Hp t0 P) as (_ & R & U & _). specialize (G t0 Ht0 E). unfold dead_row in G. by rewrite R, U in G.
Qed.

Lemma gone_steps h s s' : rtc (quiet h) s s' → tokens_ok s.2 → gone s.1 h s.2 → tokens_ok s'.2 ∧ gone s'.1 h s'.2.
Proof.
  induction 1 as [|[t1 d1] [t2 d2] s3 [[L [o E]] N] _ IH]; [done|]. intros I G. simpl in *. subst d2. apply IH; [by apply tokens_op|].
  apply gone_op; [done| |done]. intros t Ht E. eapply dead_later; [exact L|by apply G].
Qed.

Lemma gone_refused now raw d : gone now (HashToken raw) d → Resolve now raw d = None ∧ resolveAccess now raw d = None.
Proof.
  intros G. unfold Resolve, resolveAccess.
  assert (∀ t, t ∈ tokens d → String.eqb (t_hash t) (HashToken raw) && is_null (t_revoked t) && unexpired now (t_expires t) = false) as N.
  { intros t Ht. destruct (String.eqb_spec (t_hash t) (HashToken raw)) as [E|]; [|done]. specialize (G t Ht E). unfold dead_row in G.
    destruct (is_null (t_revoked t)); [|done]. by destruct (unexpired now (t_expires t)). }
  split.
  - assert (find_first (token_live now d (HashToken raw)) (tokens d) = None) as ->; [|done].
    apply find_first_None. intros t Ht. specialize (N t Ht). unfold token_live.
    destruct (String.eqb (t_hash t) (HashToken raw)), (is_null (t_revoked t)), (unexpired now (t_expires t)); simpl in *; try done.
    by rewrite andb_false_r.
  - match goal with |- context [find_first ?f (tokens d)] => assert (find_first f (tokens d) = None) as ->; [|done] end.
    apply find_first_None. intros t Ht. by rewrite (N t Ht).
Qed.

(** C12: revocation is final.  A credential that was revoked or has expired works
    nowhere again, whatever the relay's queries do after it: refreshing it,
    disabling and enabling its account, approving, cleaning up; as long as the
    very same token is not issued anew. *)
Theorem revocation_is_final t d raw t' d' :
  stored json_valid (t, d) →
  (∃ row, row ∈ tokens d ∧ t_hash row = HashToken raw ∧ dead_row t row = true) →
  rtc (quiet (HashToken raw)) (t, d) (t', d') →
  Resolve t' raw d' = None ∧ resolveAccess t' raw d' = None ∧
  (∀ ns until, ExtendRelayTokenHash t' ns (HashToken raw) until d' = (false, d')).
Proof.
  intros R (row & Hr & Er & Dr) Steps. pose proof (stored_tokens t d R) as I.
  assert (gone t (HashToken raw) d) as G.
  { intros x Hx Ex. assert (x = row) as ->; [|done]. eapply (unique_row t_hash); [apply I|done|done|]. congruence. }
  destruct (gone_steps _ _ _ Steps I G) as [_ G']. simpl in G'. destruct (gone_refused _ _ _ G') as [-> ->].
  split_and!; [done|done|]. intros ns until. unfold ExtendRelayTokenHash. set (live := λ t, _ && namespaceEnabled (t_ns t) d').
  assert (∀ x, x ∈ tokens d' → live x = false) as N.
  { intros x Hx. unfold live. destruct (String.eqb_spec (t_hash x) (HashToken raw)) as [E|]; [|done]. specialize (G' x Hx E).
    unfold dead_row in G'. destruct (is_null (t_revoked x)); [|by rewrite !andb_false_r]. simpl in G'. apply negb_true_iff in G'.
    rewrite G'. by rewrite !andb_false_r. }
  rewrite (proj2 (count_where_0 live (tokens d'))) by by apply any_false. simpl. f_equal.
  destruct d'; unfold on_tokens; simpl in *. f_equal. apply update_where_id. intros x Hx P. by rewrite N in P.
Qed.

(** ** The bound on scoped tokens *)

Lemma scoped_live_later now now' ns d t : now ≤ now' → scoped_live now' ns d t = true → scoped_live now ns d t = true.
Proof. unfold scoped_live. intros L. rewrite !andb_true_iff. destruct (t_expires t); [|naive_solver]. intros [[[? ?] ?] ?]. split_and!; try done. lia. Qed.

Lemma scoped_op now o d : tokens_ok d → (∀ ns, count_where (scoped_live now ns d) (tokens d) ≤ scopedMaxLive)%nat →
  ∀ ns, (count_where (scoped_live now ns (apply_op json_valid now o d)) (tokens (apply_op json_valid now o d)) ≤ scopedMaxLive)%nat.
Proof.
  intros I B ns.
  assert (∀ t sc, scoped (apply_op json_valid now o d) = sc →
    scoped_live now ns (apply_op json_valid now o d) t =
      (String.eqb (t_ns t) ns && is_null (t_revoked t) && match t_expires t with Some e => now <? e | None => false end
       && any (λ s, (s_token s =? t_id t)%nat) sc)) as Sl by (unfold scoped_live, has_scope; by intros t sc ->).
  set (live sc t := String.eqb (t_ns t) ns && is_null (t_revoked t) && match t_expires t with Some e => now <? e | None => false end
       && any (λ s, (s_token s =? t_id t)%nat) sc).
  assert (count_where (live (scoped (apply_op json_valid now o d))) (tokens (apply_op json_valid now o d)) ≤ scopedMaxLive)%nat as K.
  2: { etrans; [|exact K]. apply count_where_mono. intros t _. by rewrite (Sl t _ eq_refl). }
  assert (∀ ns, count_where (λ t, scoped_live now ns d t) (tokens d) ≤ scopedMaxLive)%nat as B' by done. clear Sl.
  assert (∀ t ext, t ∈ tokens d → s_token ext = serial d → live (scoped d ++ [ext]) t = live (scoped d) t) as Old.
  { intros t ext Ht E. unfold live. f_equal. unfold any. rewrite existsb_app. simpl. rewrite E.
    pose proof (tk_serial d I t Ht). destruct (Nat.eqb_spec (serial d) (t_id t)); [lia|]. by rewrite !orb_false_r. }
  destruct (token_changes now o d) as [|p|p Hp|ns0 kind h label e Fr|ns0 h label e dev fp cmd Fr Lt|p until Hp].
  - apply B.
  - etrans; [apply count_where_le|apply B]. intros t _. destruct (p t); [|done]. unfold live. simpl. by rewrite andb_false_r.
  - etrans; [apply count_where_delete|apply B].
  - rewrite count_where_app. assert (count_where (live (scoped d)) [Token (serial d) ns0 kind h label e None] = 0)%nat as ->; [|specialize (B ns); unfold scoped_live, has_scope in B; fold (live (scoped d)) in *; lia].
    apply count_where_0. apply any_false. intros t ->%list_elem_of_singleton. unfold live. simpl. apply andb_false_iff. right.
    apply any_false. intros s Hs. apply Nat.eqb_neq. pose proof (tk_scope d I s Hs). lia.
  - rewrite count_where_app. destruct (String.eqb_spec ns0 ns) as [->|Ne].
    + assert (count_where (live (scoped d ++ [MkScoped (serial d) ns dev fp cmd])) (tokens d) ≤ count_where (scoped_live now ns d) (tokens d))%nat.
      { apply count_where_mono. intros t Ht. by rewrite Old. }
      assert (count_where (live (scoped d ++ [MkScoped (serial d) ns dev fp cmd])) [Token (serial d) ns "delegated" h label (Some e) None] ≤ 1)%nat; [|lia].
      unfold count_where. simpl. destruct (live _ _); simpl; lia.
    + assert (count_where (live (scoped d ++ [MkScoped (serial d) ns0 dev fp cmd])) [Token (serial d) ns0 "delegated" h label (Some e) None] = 0)%nat as ->.
      { unfold count_where, live. simpl. by rewrite (proj2 (String.eqb_neq _ _) Ne). }
      assert (count_where (live (scoped d ++ [MkScoped (serial d) ns0 dev fp cmd])) (tokens d) ≤ count_where (scoped_live now ns d) (tokens d))%nat; [|specialize (B ns); lia].
      apply count_where_mono. intros t Ht. by rewrite Old.
  - etrans; [apply count_where_le|apply B]. intros t Ht. destruct (p t) eqn:P; [|done]. unfold live. simpl.
    destruct (any (λ s, (s_token s =? t_id t)%nat) (scoped d)) eqn:A; [|by rewrite !andb_false_r]. exfalso.
    apply any_true in A as (s & Hs & E%Nat.eqb_eq). pose proof (tk_scoped d I s t Hs Ht ltac:(done)) as K1. destruct (Hp t P) as (K2 & _). congruence.
Qed.

(** At no time does a namespace hold more than fifty live scoped tokens:
    the limit cannot be passed by issuing, by expiry and issuing again, by
    refreshing, or by letting requests of several clients interleave. *)
Lemma scoped_tokens_bounded t d ns :
  stored json_valid (t, d) → (count_where (scoped_live t ns d) (tokens d) ≤ scopedMaxLive)%nat.
Proof.
  assert (∀ s, stored json_valid s → tokens_ok s.2 ∧ ∀ ns, count_where (scoped_live s.1 ns s.2) (tokens s.2) ≤ scopedMaxLive)%nat as A.
  2: { intros R. by apply (A (t, d)). }
  apply (invariant_reachable fresh_db (dstep json_valid)).
  - intros [t0 d0] E. split; [apply (stored_tokens t0 d0); by apply reachable_init|]. unfold fresh_db in E. simpl in *. subst d0.
    intros ns0. unfold count_where. simpl. lia.
  - intros [t1 d1] [t2 d2] [I B] [L [o E]]. simpl in *. subst d2. split; [by apply tokens_op|]. apply scoped_op; [done|]. intros ns0.
    etrans; [|apply (B ns0)]. apply count_where_mono. intros x _. by apply scoped_live_later.
Qed.
End tokens_inv.

(** A token issued and revoked; a device and a scoped token. *)
Definition token_run : list (Z * op) :=
  [(1, QIssueToken "ab" "u1" "laptop" 0); (2, QRevokeToken "u1" 1)].
Definition revoked_db : db := @run_ops ascii_libraries (λ _, true) token_run empty_db.
Definition enabled_db : db :=
  @apply_op ascii_libraries (λ _, true) 4 (QSetAccountDisabled "u1" false)
    (@apply_op ascii_libraries (λ _, true) 3 (QSetAccountDisabled "u1" true) revoked_db).

Lemma quiet_other `{Libraries} json_valid h t now o d : t ≤ now → writes_tokens o = false → quiet json_valid h (t, d) (now, apply_op json_valid now o d).
Proof.
  intros L W. split; [by apply dstep_op|]. simpl. destruct (tokens_frame json_valid now o d W) as [-> _]. intros x Hx _. eauto.
Qed.

Lemma revoked_stored : @stored ascii_libraries (λ _, true) (2, revoked_db).
Proof. exact (@stored_run ascii_libraries (λ _, true) 0 token_run eq_refl). Qed.

Lemma revocation_is_final_witness :
  Resolve 4 "wanctl_ab" enabled_db = None ∧ resolveAccess 4 "wanctl_ab" enabled_db = None.
Proof.
  destruct (@revocation_is_final ascii_libraries (λ _, true) 2 revoked_db "wanctl_ab" 4 enabled_db revoked_stored) as (A & B & _).
  - exists (Token 1 "u1" "access" (HashToken "wanctl_ab") "laptop" None (Some 2)). split; [|split; reflexivity].
    apply list_elem_of_singleton. reflexivity.
  - eapply rtc_l; [apply (@quiet_other ascii_libraries (λ _, true) _ 2 3 (QSetAccountDisabled "u1" true)); [discriminate|reflexivity]|].
    apply rtc_once. apply (@quiet_other ascii_libraries (λ _, true) _ 3 4 (QSetAccountDisabled "u1" false)); [discriminate|reflexivity].
  - split; [exact A|exact B].
Defined.

Definition sample_id : string := "01234567-89ab-4def-8123-456789abcdef".
Definition sample_fp : string := "SHA256:AAAAAAAAAAAAAAAAAAAAAAAAAAAAAAAAAAAAAAAAAAA=".

Definition scoped_run : list (Z * op) :=
  [(1, QRegisterDevice "u1" sample_id "box" sample_fp); (2, QIssueScopedToken "cd" "u1" "box" "uptime" "ci" 0)].
Definition scoped_db : db := @run_ops ascii_libraries (λ _, true) scoped_run empty_db.

Lemma scoped_stored : @stored ascii_libraries (λ _, true) (2, scoped_db).
Proof. exact (@stored_run ascii_libraries (λ _, true) 0 scoped_run eq_refl). Qed.

Lemma scoped_tokens_bounded_witness :
  count_where (scoped_live 2 "u1" scoped_db) (tokens scoped_db) = 1%nat ∧
  (count_where (scoped_live 2 "u1" scoped_db) (tokens scoped_db) ≤ scopedMaxLive)%nat.
Proof.
  split; [vm_compute; reflexivity|].
  exact (@scoped_tokens_bounded ascii_libraries (λ _, true) 2 scoped_db "u1" scoped_stored).
Defined.
