(* ===== verification/CredInv.v ===== *)
(** What a credential is worth at a given moment: disabled accounts, the limits
    that a delegated credential carries, how a grant comes about, and the ledger
    of the jobs it ran. *)

From S2P Require Import Prelude GoStrings GoUtf8 Session Trust Tables Accounts Grants OAuth StoreOps AccountInv TokenInv.

Local Open Scope Z_scope.

Import Delegation.

(** ** Lookups *)

Lemma Resolve_iff now raw d ns : NoDup (map t_hash (tokens d)) →
  Resolve now raw d = Some ns ↔ ∃ t, t ∈ tokens d ∧ token_live now d (HashToken raw) t = true ∧ t_ns t = ns.
Proof.
  intros N. unfold Resolve. split.
  - destruct (find_first _ _) as [t|] eqn:F; [|done]. intros [= <-]. apply find_first_Some in F as []. eauto.
  - intros (t & Ht & L & <-). rewrite (find_first_unique t_hash _ _ t); [done..|].
    intros y Ly. unfold token_live in *. ssplit. congruence.
Qed.

(** The row behind an access. *)
Definition backs (now : Z) (d : db) (raw : string) (t : token) : Prop :=
  t ∈ tokens d ∧ t_hash t = HashToken raw ∧ t_revoked t = None ∧ unexpired now (t_expires t) = true ∧ namespaceEnabled (t_ns t) d = true.

Lemma resolveAccess_row now raw d a : resolveAccess now raw d = Some a → ∃ t, backs now d raw t ∧ ac_Namespace a = t_ns t ∧
  (Delegated a = false → t_kind t ≠ "delegated"%string ∧ ac_ExecOnly a = ""%string).
Proof.
  unfold resolveAccess. destruct (find_first _ _) as [t|] eqn:F; [|done]. apply find_first_Some in F as [Ht E]. bsplit.
  assert (backs now d raw t) as B by (unfold backs; split_and!; [done|by apply String.eqb_eq|by apply is_null_None|done|done]).
  destruct (has_scope d t).
  - unfold resolveScoped. destruct (find_first _ _) as [s|]; [|done]. destruct (_ || _); [done|]. intros [= <-]. exists t. done.
  - destruct (String.eqb_spec (t_kind t) "delegated") as [K|K]; simpl.
    + destruct (readDelegation _ _ _ _) as [r|]; [|done]. destruct (q_ExpiresAt r); [|done]. destruct (_ || _); [done|]. intros [= <-]. exists t. done.
    + intros [= <-]. exists t. done.
Qed.

(** ** Disabling an account *)

Lemma enabled_after now ns x d : LookupUser ns d = true →
  namespaceEnabled x (SetAccountDisabled now ns true d).2 = (if String.eqb x ns then false else namespaceEnabled x d).
Proof.
  unfold LookupUser. intros U%bool_decide_eq_true_1. unfold namespaceEnabled. simpl. destruct (String.eqb_spec x ns) as [->|N].
  - apply negb_false_iff, any_true. destruct U as [u U]. apply find_first_Some in U as [Hu E].
    eexists. split; [apply elem_of_update_where; exists u; split; [exact Hu|reflexivity]|]. rewrite E. simpl. by rewrite E.
  - f_equal. apply any_update_where. intros u _ E%String.eqb_eq. simpl. rewrite E, (proj2 (String.eqb_neq ns x)) by congruence. done.
Qed.

Section creds.
Context `{Libraries} (json_valid : string → bool).

Lemma resolve_disabled t p s l n r ns role d d2 :
  namespaceEnabled ns d = false → (∃ u, user_of ns d = Some u) → accounts_ok d →
  ResolveIdentity t p s l n r d ≠ (Ok (ns, role), d2).
Proof.
  intros Dis [u0 U0] I E. destruct (resolve_kept _ _ _ _ _ _ _ _ _ _ E) as (Ne & u & Hu & Id & En & Er).
  assert (∀ d', user_of ns d' = Some u0 → users d' = users d → AccountDisabled ns d' = AccountDisabled ns d) as _ by (unfold AccountDisabled, user_of; by intros d' _ ->).
  assert (∃ v, AccountDisabled ns d = Some (Some v)) as [v Av].
  { unfold AccountDisabled. rewrite U0. simpl. unfold namespaceEnabled in Dis. apply negb_false_iff, any_true in Dis as (w & Hw & Ew).
    bsplit. apply find_first_Some in U0 as [H0u E0]. apply String.eqb_eq in E0, H0.
    assert (w = u0) as -> by (eapply (unique_row u_ns); [apply I|done..|congruence]).
    destruct (u_disabled u0); [eauto|done]. }
  revert E. unfold ResolveIdentity. cbv zeta. rewrite (proj2 (String.eqb_neq _ _) Ne).
  assert (∀ p' s' ns0 nm ro d3, lookupIdentity p' s' d = None → insertIdentity p' s' ns0 nm ro d = Ok (ns, role, d3) → False) as Ins.
  { intros p' s' ns0 nm ro d3 L [(_ & x & Lx & _)|(U & _ & -> & _)]%insertIdentity_spec; congruence. }
  destruct (lookupIdentity _ _ d) as [x|] eqn:L.
  { destruct (AccountDisabled (u_ns x) d) as [[]|] eqn:Ax; [done| |]; intros [= Ex _ _]; congruence. }
  destruct (String.eqb_spec (ToLower (trim_space p)) "header") as [P|P].
  - destruct (guardNamespace _ _); [simpl|done]. destruct (insertIdentity _ _ _ _ _ _) as [[[ns0 ro] d3]|] eqn:J; [|done].
    intros [= -> -> _]. by eapply Ins.
  - destruct (String.eqb_spec (ToLower (trim_space p)) "github") as [G|]; [|done]. destruct (decimalString _); [simpl|done].
    destruct (validGitHubLogin _); [simpl|done]. destruct (guardNamespace _ _); [simpl|done]. unfold resolveGitHubIdentity.
    rewrite <- G, L. destruct (has_admin d).
    + destruct (open_invite _ _) as [i|]; [|done]. destruct (insertIdentity _ _ _ _ _ _) as [[[got r1] d3]|] eqn:J; [|done].
      unfold mark_used. destruct (_ =? 1)%nat; [|done]. intros [= -> -> _]. by eapply Ins.
    + destruct (insertIdentity _ _ _ _ _ _) as [[[ns0 ro] d3]|] eqn:J; [|done]. intros [= -> -> _]. by eapply Ins.
Qed.

(** Disabling an account stops everything it has and loses nothing.  From
    then on no token, grant or scoped token resolves to the account, none of its
    connectors refreshes and nobody signs in to it; every other account's tokens
    resolve as before; and enabling it again restores the database exactly. *)
Lemma disabling_is_reversible t d now ns :
  stored json_valid (t, d) → LookupUser ns d = true → namespaceEnabled ns d = true →
  let d1 := (SetAccountDisabled now ns true d).2 in
  (∀ t' raw, Resolve t' raw d1 ≠ Some ns ∧ ∀ a, resolveAccess t' raw d1 = Some a → ac_Namespace a ≠ ns) ∧
  (∀ t' h until, ExtendRelayTokenHash t' ns h until d1 = (false, d1)) ∧
  (∀ t' p s l n r role d2, ResolveIdentity t' p s l n r d1 ≠ (Ok (ns, role), d2)) ∧
  (∀ t' raw other, other ≠ ns → Resolve t' raw d1 = Some other ↔ Resolve t' raw d = Some other) ∧
  (∀ now', (SetAccountDisabled now' ns false d1).2 = d).
Proof.
  intros R U En. cbv zeta. pose proof (stored_tokens json_valid t d R) as I. pose proof (enabled_after now ns) as A.
  set (d1 := (SetAccountDisabled now ns true d).2). assert (∀ x, namespaceEnabled x d1 = if String.eqb x ns then false else namespaceEnabled x d) as A1
    by (intros x; by apply A).
  assert (namespaceEnabled ns d1 = false) as D1 by by rewrite A1, String.eqb_refl.
  split_and!.
  - intros t' raw. split.
    + intros E. apply Resolve_iff in E as (x & _ & L & <-); [|apply I]. unfold token_live in L. bsplit. by rewrite D1 in *.
    + intros a E. apply resolveAccess_row in E as (x & (_ & _ & _ & _ & Ex) & -> & _). intros E. by rewrite E, D1 in Ex.
  - intros t' h until. unfold ExtendRelayTokenHash. set (live := λ x, _ && namespaceEnabled (t_ns x) d1).
    assert (∀ x, live x = false) as N.
    { intros x. unfold live. destruct (String.eqb_spec (t_ns x) ns) as [->|]; [rewrite D1; by rewrite andb_false_r|by rewrite andb_false_r]. }
    rewrite (proj2 (count_where_0 live (tokens d1))) by (apply any_false; auto). simpl. f_equal.
    unfold on_tokens. rewrite update_where_id by (intros x _; by rewrite N). by destruct d1.
  - intros t' p s l n r role d2. assert (accounts_ok d1) as Ac by exact (accounts_op json_valid now (QSetAccountDisabled ns true) d (stored_accounts json_valid t d R)).
    apply resolve_disabled; [done| |done]. unfold LookupUser in U. apply bool_decide_eq_true_1 in U as [u U].
    apply find_first_Some in U as [Hu E]. destruct (user_of ns d1) as [v|] eqn:F; [eauto|]. exfalso.
    eapply (user_of_None ns d1 F (set_disabled (Some (default now (u_disabled u))) u)); [|by apply String.eqb_eq in E].
    apply elem_of_update_where. exists u. by rewrite E.
  - intros t' raw other N. rewrite !Resolve_iff by apply I. f_equiv. intros x. unfold token_live. rewrite A1.
    destruct (String.eqb_spec (t_ns x) ns) as [->|]; [|done]. split; intros (? & ? & ?); congruence.
  - intros now'. unfold d1, SetAccountDisabled, on_users. simpl. destruct d. simpl in *. f_equal. unfold update_where. rewrite map_map.
    rewrite <- (map_id users) at 2. apply map_ext_in. intros u Hu%list_elem_of_In. destruct (String.eqb (u_ns u) ns) eqn:E; [|by rewrite E].
    simpl. rewrite E. unfold namespaceEnabled in En. simpl in En. apply negb_true_iff in En. rewrite any_false in En. specialize (En u Hu).
    rewrite E in En. simpl in En. destruct u as [? ? ? ? ? []]; [done|]. done.
Qed.

(** ** The limits of a delegated credential *)

Lemma same_devices d grant : any (device_gone d) (devices_of grant d) = false →
  ∀ x, x ∈ map (λ x, DelegatedDevice (gd_ns x) (gd_device x) (gd_fp x)) (devices_of grant d) →
  same_device d (d_Namespace x) (d_ID x) (d_Fingerprint x) = true.
Proof. intros G x (y & -> & Hy)%list_elem_of_fmap. rewrite any_false in G. specialize (G y Hy). by apply negb_false_iff in G. Qed.

Lemma approved_grant now id d r : readDelegation now id "" d = Some r → q_Status r = "approved"%string →
  (∀ x, x ∈ q_Devices r → same_device d (d_Namespace x) (d_ID x) (d_Fingerprint x) = true) ∧ ∃ e, q_ExpiresAt r = Some e ∧ now < e.
Proof.
  unfold readDelegation. destruct (delegation_of id d) as [g|] eqn:G; [|done]. cbn [String.eqb orb]. intros [= <-]. simpl.
  apply find_first_Some in G as [_ E%String.eqb_eq]. unfold grant_status. destruct (String.eqb_spec (g_status g) "approved") as [Ea|Na].
  - destruct (token_of (g_tokenID g) d) as [t|]; [|done]. rewrite E. destruct (negb (is_null (t_revoked t)) || _) eqn:B; [done|].
    apply orb_false_iff in B as [_ B]. destruct (t_expires t) as [e|]; [|done]. destruct (Z.leb_spec e now); [done|].
    intros _. split; [by apply same_devices|eauto].
  - destruct (_ && _); [done|]. intros; congruence.
Qed.

(** C11: a limited credential never passes for more than it is.  Whatever token
    the relay resolves, the account is enabled and the row behind the token
    live.  An access that is not delegated comes from a token that is neither a
    grant's nor a scoped one, and without either prefix.  A delegated one has
    not expired and names devices that all still exist with the certificates
    they were granted under; it is bound to a controller, or to one command on
    one device of the account. *)
Theorem access_wellformed now raw d a :
  ResolveAccess now (AccessStore (λ raw, resolveAccess now raw d)) raw = Some a →
  ∃ t, backs now d raw t ∧ ac_Namespace a = t_ns t ∧
  if Delegated a then
    now < ac_ExpiresAt a ∧ Devices a ≠ [] ∧ ac_GrantID a ≠ ""%string ∧
    (∀ x, x ∈ Devices a → same_device d (d_Namespace x) (d_ID x) (d_Fingerprint x) = true) ∧
    (ac_ExecOnly a = ""%string → ac_ControllerFingerprint a ≠ ""%string) ∧
    (ac_ExecOnly a ≠ ""%string → has_prefix raw ScopedTokenPrefix = true ∧ ∃ x, Devices a = [x] ∧ d_Namespace x = ac_Namespace a)
  else t_kind t ≠ "delegated"%string ∧ ac_ExecOnly a = ""%string ∧ restrictedToken raw = false.
Proof.
  unfold ResolveAccess. destruct (resolveAccess now raw d) as [b|] eqn:Rb; [|done].
  destruct (String.eqb_spec (ac_Namespace b) ""); [done|]. destruct (restrictedToken raw && negb (Delegated b)) eqn:Re; [done|].
  destruct (negb (Bool.eqb _ _)) eqn:Pf; [done|]. destruct (Delegated b && _) eqn:De; [done|]. destruct (negb (String.eqb (ac_ExecOnly b) "") && _) eqn:Ex; [done|].
  intros [= <-]. destruct (resolveAccess_row _ _ _ _ Rb) as (t & B & En & Kd). exists t. split; [done|]. split; [done|]. simpl.
  destruct (Delegated b) eqn:D; simpl in *.
  2: { destruct (Kd eq_refl). split_and!; try done. by rewrite andb_true_r in Re. }
  apply negb_false_iff, eqb_prop in Pf. rewrite !orb_false_iff in De. destruct De as [[[[G0 Cf] Dn] _] Ti].
  apply String.eqb_neq in G0. apply Nat.eqb_neq in Dn. apply negb_false_iff in Ti.
  assert (Devices b ≠ []) as Ne by (intros E; by rewrite E in Dn).
  split; [lia|]. split; [done|]. split; [done|]. revert Rb. unfold resolveAccess.
  destruct (find_first _ (tokens d)) as [u|] eqn:Fu; [|done]. destruct (has_scope d u) eqn:Hs.
  - unfold resolveScoped. destruct (find_first _ (scoped d)) as [s|] eqn:Fs; [|done]. destruct (_ || _) eqn:Em; [done|].
    intros [= <-]. simpl in *. apply orb_false_iff in Em as [_ Em%String.eqb_neq]. apply find_first_Some in Fs as [_ Es]. bsplit.
    apply String.eqb_eq in H2. split_and!; [intros x ->%list_elem_of_singleton; simpl; by rewrite <- H2|done|].
    intros _. split; [|eauto]. rewrite <- Pf. by rewrite (proj2 (String.eqb_neq _ _) Em).
  - destruct (String.eqb_spec (t_kind u) "delegated"); simpl; [|by intros [= <-]].
    destruct (readDelegation _ _ _ _) as [r|] eqn:Rd; [|done]. destruct (q_ExpiresAt r) as [till|] eqn:Qe; [|done].
    destruct (_ || _) eqn:Em; [done|]. rewrite !orb_false_iff in Em. destruct Em as [[St _] _]. apply negb_false_iff, String.eqb_eq in St.
    destruct (approved_grant _ _ _ _ Rd St) as [Same _]. intros [= <-]. simpl in *. split_and!; [done| |done].
    intros _. simpl in Cf. rewrite andb_true_r in Cf. by apply String.eqb_neq.
Qed.
End creds.

(** ** Witnesses *)

Definition open_guest : db := (SetAccountDisabled 9 "guest" false disabled_db).2.

Lemma disabling_is_reversible_witness :
  namespaceEnabled "guest" disabled_db = false ∧
  (∀ t' p s l n r role d2, @ResolveIdentity ascii_libraries t' p s l n r disabled_db ≠ (Ok ("guest"%string, role), d2)) ∧
  open_guest = admitted_db.
Proof.
  destruct (@disabling_is_reversible ascii_libraries (λ _, true) _ _ 5 "guest" admitted_stored eq_refl eq_refl) as (_ & _ & A & _ & B).
  split; [reflexivity|]. split; [exact A|exact (B 9)].
Defined.

Definition scoped_access : access :=
  Access "u1" "1" true "sc_1" (2 + 90 * day) [DelegatedDevice "u1" sample_id sample_fp] "" 0 "uptime".

Lemma access_wellformed_witness :
  ResolveAccess 3 (AccessStore (λ raw, resolveAccess 3 raw scoped_db)) (ScopedTokenPrefix ++ "cd") = Some scoped_access ∧
  3 < ac_ExpiresAt scoped_access ∧ same_device scoped_db "u1" sample_id sample_fp = true.
Proof.
  assert (ResolveAccess 3 (AccessStore (λ raw, resolveAccess 3 raw scoped_db)) (ScopedTokenPrefix ++ "cd") = Some scoped_access) as E
    by (vm_compute; reflexivity).
  split; [exact E|]. destruct (@access_wellformed 3 _ scoped_db scoped_access E) as (t & _ & _ & L & _ & _ & S & _).
  split; [exact L|]. exact (S (DelegatedDevice "u1" sample_id sample_fp) (list_elem_of_here _ _)).
Defined.
