(* ===== verification/GrantInv.v ===== *)
(** Grants over their whole life: that the tables of delegations fit together,
    what an approval gives, how long it lasts, and what the cleaning deletes. *)

From stdpp Require Import pretty sorting.
From S2P Require Import Prelude GoStrings GoUtf8 Session Trust Tables Accounts Grants OAuth StoreOps TokenInv.

Local Open Scope Z_scope.

Import Delegation.

(** The token of a grant lasts the approved minutes from the decision. *)
Definition grant_lasts (g : delegation_request) (t : token) : Prop :=
  t_kind t = "delegated"%string ∧ ∃ a m, g_decided g = Some a ∧ 1 ≤ m ≤ MaxGrantMinutes ∧ t_expires t = Some (a + m * minute).

Record grants_ok (d : db) : Prop := {
  gr_id : NoDup (map g_id (delegations d));
  gr_token : ∀ g k, g ∈ delegations d → g_tokenID g = Some k → g_status g = "approved"%string ∧ (k < serial d)%nat;
  gr_lasts : ∀ g t, g ∈ delegations d → t ∈ tokens d → g_tokenID g = Some (t_id t) → grant_lasts g t;
  gr_own : ∀ g g' k, g ∈ delegations d → g' ∈ delegations d → g_tokenID g = Some k → g_tokenID g' = Some k → g = g';
  gr_devices : ∀ x, x ∈ delegation_devices d → ∃ g, g ∈ delegations d ∧ g_id g = gd_grant x ∧ g_status g = "approved"%string }.

Section grants_inv.
Context `{Libraries} (json_valid : string → bool).

(** ** What the other queries do to the rows of a grant *)

(** A token of this database comes from one of the last with the same key and
    kind, and a delegated one kept its expiry; or it is new. *)
Definition token_from (d : db) (t : token) : Prop :=
  t_id t = serial d ∨
  ∃ t0, t0 ∈ tokens d ∧ t_id t0 = t_id t ∧ t_kind t0 = t_kind t ∧ t_hash t0 = t_hash t ∧
    (t_kind t = "delegated"%string → t_expires t0 = t_expires t).

Lemma tokens_from now o d t : t ∈ tokens (apply_op json_valid now o d) → token_from d t.
Proof.
  unfold token_from. destruct (token_changes json_valid now o d) as [|p|p Hp|ns kind h label e Fr|ns h label e dev fp cmd Fr Lt|p until Hp].
  - eauto 10.
  - intros (t0 & Ht & ->)%elem_of_update_where. right. exists t0. by destruct (p t0).
  - intros [Ht _]%elem_of_delete_func. eauto 10.
  - intros [Ht | ->%list_elem_of_singleton]%elem_of_app; [eauto 10|by left].
  - intros [Ht | ->%list_elem_of_singleton]%elem_of_app; [eauto 10|by left].
  - intros (t0 & Ht & ->)%elem_of_update_where. right. exists t0. destruct (p t0) eqn:P; [|done]. destruct (Hp _ P) as (K & _).
    simpl. split_and!; try done. congruence.
Qed.

(** Requests that are the old ones, or decide nothing yet, with devices that
    were there. *)
Lemma grants_kept d d' : (serial d ≤ serial d')%nat → (∀ t, t ∈ tokens d' → token_from d t) →
  NoDup (map g_id (delegations d')) →
  (∀ g k, g ∈ delegations d' → g_tokenID g = Some k → g ∈ delegations d) →
  (∀ x, x ∈ delegation_devices d' → x ∈ delegation_devices d) →
  (∀ g x, g ∈ delegations d → g_status g = "approved"%string → x ∈ delegation_devices d' → g_id g = gd_grant x → g ∈ delegations d') →
  grants_ok d → grants_ok d'.
Proof.
  intros S T N Old Dv Ap [I1 I2 I3 I4 I5]. split; [done|..].
  - intros g k Hg E. destruct (I2 g k (Old g k Hg E) E). split; [done|lia].
  - intros g t Hg Ht E. pose proof (Old g _ Hg E) as Hg'. destruct (I2 _ _ Hg' E) as [_ L].
    destruct (T t Ht) as [?|(t0 & Ht0 & Ei & Ek & _ & Ee)]; [lia|].
    destruct (I3 g t0 Hg' Ht0 ltac:(congruence)) as [K (a & m & ? & ? & ?)]. split; [congruence|]. exists a, m. rewrite <- Ee by congruence. done.
  - intros g g' k Hg Hg' E E'. eapply I4; eauto.
  - intros x Hx. destruct (I5 x (Dv x Hx)) as (g & Hg & E & St). eauto 10.
Qed.

Lemma delegation_of_Some id d g : delegation_of id d = Some g → g ∈ delegations d ∧ g_id g = id.
Proof. intros [? ?%String.eqb_eq]%find_first_Some. done. Qed.

Lemma delegation_of_None id d g : delegation_of id d = None → g ∈ delegations d → g_id g ≠ id.
Proof. intros N Hg. unfold delegation_of in N. rewrite find_first_None in N. by apply String.eqb_neq, N. Qed.

Lemma delegation_of_elem d g : NoDup (map g_id (delegations d)) → g ∈ delegations d → delegation_of (g_id g) d = Some g.
Proof.
  intros N Hg. apply (find_first_unique g_id); [done|done|by apply String.eqb_eq|]. intros y ->%String.eqb_eq. done.
Qed.

(** ** An approval *)

(** What a successful approval found and wrote. *)
Lemma ApproveDelegation_Ok now a d r d' : ApproveDelegation now a d = (Ok r, d') →
  approval_ok a = true ∧ ∃ g l, delegation_of (p_RequestID a) d = Some g ∧ g_status g = "pending"%string ∧ now < g_expires g ∧
    g_fp g = p_Fingerprint a ∧ (g_ns g = ""%string ∨ g_ns g = p_Namespace a) ∧
    any (λ t, String.eqb (t_hash t) (g_token g)) (tokens d) = false ∧ map gd_device l = sorted (p_Devices a) ∧
    (∀ x, x ∈ l → gd_grant x = p_RequestID a ∧ gd_ns x = p_Namespace a ∧ gd_fp x = fp_of a (gd_device x) ∧
      same_device d (gd_ns x) (gd_device x) (gd_fp x) = true) ∧
    d' = on_delegations (update_where (λ g, String.eqb (g_id g) (p_RequestID a)) (decide_delegation now "approved" (p_Namespace a) (Some (serial d))))
          (on_tokens (λ ts, ts ++ [Token (serial d) (p_Namespace a) "delegated" (g_token g) (g_label g) (Some (now + p_Minutes a * minute)) None])
            (next_serial (on_grants (λ ds, ds ++ l) d)).2) ∧
    readDelegation now (p_RequestID a) "" d' = Some r.
Proof.
  unfold ApproveDelegation. destruct (approval_ok a); [simpl|done]. destruct (delegation_of _ d) as [g|] eqn:G; [|done].
  destruct (_ && negb (String.eqb (g_ns g) (p_Namespace a))) eqn:Ns; [done|].
  destruct (String.eqb_spec (g_status g) "pending"); [simpl|done]. destruct (Z.leb_spec (g_expires g) now); [done|].
  destruct (String.eqb_spec (g_fp g) (p_Fingerprint a)); [simpl|done].
  destruct (approve_devices _ _ _) as [d1|] eqn:A; [|done]. apply approve_devices_frame in A as (l & -> & M & P).
  destruct (insert_token _ _ _ _ _ _) as [[tok d2]|] eqn:Ins; [|done]. apply insert_token_frame in Ins as (-> & -> & F).
  cbv zeta. destruct (readDelegation _ _ _ _) as [q|] eqn:Rd; [|done]. intros [= -> <-]. split; [done|]. exists g, l. split_and!; try done.
  destruct (String.eqb_spec (g_ns g) ""); [by left|]. destruct (String.eqb_spec (g_ns g) (p_Namespace a)); [by right|done].
Qed.

Lemma ApproveDelegation_Err now a d e d' : ApproveDelegation now a d = (Err e, d') → d' = d.
Proof. unfold ApproveDelegation. outcomes; congruence. Qed.

Lemma grants_approve now a d : tokens_ok d → grants_ok d → grants_ok (ApproveDelegation now a d).2.
Proof.
  intros Tk I. destruct (ApproveDelegation now a d) as [[r|e] d'] eqn:E; [|by apply ApproveDelegation_Err in E as ->].
  apply ApproveDelegation_Ok in E as (Vl & g & l & G & St & _ & _ & _ & _ & _ & Dl & -> & _). destruct I as [I1 I2 I3 I4 I5].
  apply delegation_of_Some in G as [Hg Eg]. set (mark := decide_delegation now "approved" (p_Namespace a) (Some (serial d))).
  assert (∀ x, x ∈ update_where (λ g, String.eqb (g_id g) (p_RequestID a)) mark (delegations d) →
    x = mark g ∨ x ∈ delegations d ∧ g_id x ≠ p_RequestID a) as Cs.
  { intros x (y & Hy & ->)%elem_of_update_where. destruct (String.eqb_spec (g_id y) (p_RequestID a)); [|by right].
    left. f_equal. eapply (unique_row g_id); [exact I1|done..|congruence]. }
  assert (mark g ∈ update_where (λ g, String.eqb (g_id g) (p_RequestID a)) mark (delegations d)) as Hm.
  { apply elem_of_update_where. exists g. by rewrite Eg, String.eqb_refl. }
  assert (1 ≤ p_Minutes a ≤ MaxGrantMinutes) as Mi by (unfold approval_ok in Vl; bsplit; lia).
  split; cbn [delegations on_delegations on_tokens tokens serial next_serial on_grants delegation_devices snd].
  - rewrite map_update_where; [exact I1|done].
  - intros x k [-> | [Hx _]]%Cs E; [simpl in *; simplify_eq; split; [done|lia]|]. destruct (I2 x k Hx E). split; [done|lia].
  - intros x t Hx [Ht | ->%list_elem_of_singleton]%elem_of_app E; apply Cs in Hx as [-> | [Hx _]]; simpl in E.
    + simplify_eq. pose proof (tk_serial d Tk t Ht). lia.
    + by apply I3.
    + split; [done|]. exists now, (p_Minutes a). done.
    + destruct (I2 x _ Hx E). lia.
  - intros x y k Hx Hy Ex Ey. apply Cs in Hx as [-> | [Hx _]], Hy as [-> | [Hy _]]; try done; simpl in *; simplify_eq.
    + destruct (I2 y _ Hy Ey). lia.
    + destruct (I2 x _ Hx Ex). lia.
    + by eapply I4.
  - intros x [Hx|Hx]%elem_of_app.
    + destruct (I5 x Hx) as (y & Hy & Ey & Sy). exists y. split_and!; try done. apply elem_of_update_where. exists y.
      destruct (String.eqb_spec (g_id y) (p_RequestID a)) as [Ea|]; [|done].
      assert (y = g) as -> by (eapply (unique_row g_id); [exact I1|done..|congruence]). congruence.
    + destruct (Dl x Hx) as (-> & _). by exists (mark g).
Qed.

Lemma grants_create now q d : grants_ok d → grants_ok (CreateDelegation now q d).2.
Proof.
  intros I. unfold CreateDelegation. destruct (_ || _ || _ || _ || _ || _); [done|]. cbv zeta.
  destruct (delegation_of (n_ID q) d) as [g|] eqn:G; [by destruct (_ && _)|]. destruct (_ <=? now); [done|]. destruct (_ <=? _)%nat; [done|].
  destruct (any _ _); [done|]. destruct (readDelegation _ _ _ _); [|done]. simpl. apply (grants_kept d); simpl; [lia| |..|done].
  - intros t Ht. right. by exists t.
  - apply NoDup_snoc; [apply I|]. intros y Hy. by eapply delegation_of_None.
  - by intros g k [Hg | ->%list_elem_of_singleton]%elem_of_app E.
  - done.
  - intros. apply elem_of_app. by left.
Qed.

Lemma grants_reject now id ns d : grants_ok d → grants_ok (RejectDelegation now id ns d).2.
Proof.
  intros I. unfold RejectDelegation. destruct (negb _); [done|]. cbv zeta. set (open := λ g, _ && _).
  assert (∀ g, open g = true → g_status g = "pending"%string) as O by (intros g Hg; unfold open in Hg; by ssplit).
  destruct (any _ _); [|by outcomes].
  apply (grants_kept d); simpl; [lia|intros t Ht; right; by exists t|..|done].
  - rewrite map_update_where; [apply I|done].
  - intros g k (g0 & Hg & ->)%elem_of_update_where. destruct (open g0) eqn:E; [|done]. simpl. intros Tk.
    destruct (gr_token d I _ _ Hg Tk) as [St _]. rewrite (O _ E) in St. done.
  - done.
  - intros g x Hg St _ _. apply elem_of_update_where. exists g. destruct (open g) eqn:E; [|done]. rewrite (O _ E) in St. done.
Qed.

Lemma grants_cleanup batch d : grants_ok d → grants_ok (cleanupDelegationBatch batch d).
Proof.
  intros I. apply (grants_kept d); simpl; [lia|..|done].
  - intros t [Ht _]%elem_of_delete_func. right. by exists t.
  - apply NoDup_delete, I.
  - by intros g k [Hg _]%elem_of_delete_func.
  - by intros x [Hx _]%elem_of_delete_func.
  - intros g x Hg _ [Hx Nx]%elem_of_delete_func Ex. apply elem_of_delete_func. split; [done|]. by rewrite Ex.
Qed.

Lemma grants_op now o d : tokens_ok d → grants_ok d → grants_ok (apply_op json_valid now o d).
Proof.
  intros Tk I. destruct (writes_grants o) eqn:W.
  - destruct o; try done; cbn [apply_op]; clear W.
    + by apply grants_create.
    + by apply grants_approve.
    + by apply grants_reject.
    + destruct (batch_ok _ _ _ _); [by apply grants_cleanup|done].
  - destruct (grants_frame json_valid now o d W) as [E1 E2]. apply (grants_kept d); rewrite ?E1, ?E2; try done; [apply serial_mono|apply tokens_from|apply I].
Qed.

Lemma stored_grants t d : stored json_valid (t, d) → tokens_ok d ∧ grants_ok d.
Proof.
  intros R. split; [by eapply stored_tokens|].
  assert (∀ s, stored json_valid s → tokens_ok s.2 ∧ grants_ok s.2) as A; [|apply (A (t, d) R)].
  apply (invariant_reachable fresh_db (dstep json_valid)).
  - intros [t0 d0] E. split; [apply (stored_tokens json_valid t0 d0); by apply reachable_init|]. unfold fresh_db in E. simpl in *. subst d0.
    split; simpl; [apply NoDup_nil_2|by intros g k ?%elem_of_nil|by intros g u ?%elem_of_nil|by intros g g' k ?%elem_of_nil|by intros x ?%elem_of_nil].
  - intros [t1 d1] [t' d'] [Tk I] [_ [o E]]. simpl in *. subst d'. split; [by apply tokens_op|by apply grants_op].
Qed.

(** ** What an approval gives *)

Lemma round_minutes_exact m : 1 ≤ m → round_minutes (m * minute) = m.
Proof.
  intros L. unfold round_minutes. assert (minute = 60000000000) as E by done. rewrite Z.sgn_pos, Z.abs_eq by lia.
  rewrite Z.mul_1_l. symmetry. apply (Z.div_unique _ _ _ (minute / 2)); [|lia]. left. rewrite E. by split.
Qed.

(** The devices of an approval as the credential lists them. *)
Definition approved_list (a : approval) : list Delegation.device :=
  map (λ id, DelegatedDevice (p_Namespace a) id (fp_of a id)) (sorted (p_Devices a)).

Lemma approved_row now a d r d' : tokens_ok d → grants_ok d → ApproveDelegation now a d = (Ok r, d') →
  ∃ g, delegation_of (p_RequestID a) d = Some g ∧
    let t := Token (serial d) (p_Namespace a) "delegated" (g_token g) (g_label g) (Some (now + p_Minutes a * minute)) None in
    let g' := decide_delegation now "approved" (p_Namespace a) (Some (serial d)) g in
    tokens d' = tokens d ++ [t] ∧ users d' = users d ∧ scoped d' = scoped d ∧ delegation_of (p_RequestID a) d' = Some g' ∧
    token_of (Some (serial d)) d' = Some t ∧
    map (λ x, DelegatedDevice (gd_ns x) (gd_device x) (gd_fp x)) (devices_of (p_RequestID a) d') = approved_list a ∧
    any (device_gone d') (devices_of (p_RequestID a) d') = false ∧ grant_named (serial d) d' = Some g'.
Proof.
  intros Tk I E. pose proof (grants_approve now a d Tk I) as I'. rewrite E in I'. simpl in I'.
  apply ApproveDelegation_Ok in E as (_ & g & l & G & St & _ & _ & _ & _ & M & Dl & -> & _).
  exists g. split; [done|]. cbv zeta. apply delegation_of_Some in G as [Hg Eg].
  assert (devices_of (p_RequestID a) (on_grants (λ ds, ds ++ l) d) = l) as Dv.
  { unfold devices_of. simpl. rewrite List.filter_app. assert (List.filter (λ x, String.eqb (gd_grant x) (p_RequestID a)) (delegation_devices d) = []) as ->.
    - apply length_zero_iff_nil, (count_where_0 _ _), any_false. intros x Hx. apply String.eqb_neq. intros Ex.
      destruct (gr_devices d I x Hx) as (y & Hy & Ey & Sy). assert (y = g) as -> by (eapply (unique_row g_id); [apply I|done..|congruence]). congruence.
    - simpl. clear M I'. induction l as [|x l IH]; [done|]. simpl. destruct (Dl x ltac:(left)) as (-> & _). rewrite String.eqb_refl. f_equal.
      apply IH. intros y Hy. apply Dl. by right. }
  split_and!; [done|done|done|..].
  - pose proof (delegation_of_elem _ (decide_delegation now "approved" (p_Namespace a) (Some (serial d)) g) (gr_id _ I')) as K.
    cbn [g_id decide_delegation] in K. rewrite Eg in K. apply K.
    apply elem_of_update_where. exists g. by rewrite Eg, String.eqb_refl.
  - simpl. apply (find_first_unique t_id); [|apply elem_of_app; right; by apply list_elem_of_singleton|apply Nat.eqb_refl|by intros y ->%Nat.eqb_eq].
    apply NoDup_snoc; [apply Tk|]. intros y Hy. pose proof (tk_serial d Tk y Hy). simpl. lia.
  - change (devices_of _ _) with (devices_of (p_RequestID a) (on_grants (λ ds, ds ++ l) d)). rewrite Dv. unfold approved_list. rewrite <- M, map_map.
    apply map_ext_in. intros x Hx%list_elem_of_In. by destruct (Dl x Hx) as (_ & -> & -> & _).
  - change (devices_of _ _) with (devices_of (p_RequestID a) (on_grants (λ ds, ds ++ l) d)). rewrite Dv. apply any_false. intros x Hx.
    destruct (Dl x Hx) as (_ & _ & _ & Sd). unfold device_gone. by apply negb_false_iff.
  - set (d' := on_delegations _ _) in *. assert (decide_delegation now "approved" (p_Namespace a) (Some (serial d)) g ∈ delegations d') as Hg'
      by (apply elem_of_update_where; exists g; by rewrite Eg, String.eqb_refl).
    unfold grant_named. destruct (find_first _ _) as [y|] eqn:Fy; [|rewrite find_first_None in Fy; specialize (Fy _ Hg'); by apply bool_decide_eq_false_1 in Fy].
    apply find_first_Some in Fy as [Hy Ey]. bsplit. f_equal. by eapply (gr_own _ I').
Qed.

(** C10: what an owner approves is what the controller gets.  A grant is approved
    only while its request waits, unexpired and made by the controller whose
    fingerprint the owner saw, and for at most a day.  The credential named in
    the request then resolves, until the approved minutes are over and not a
    moment longer, to exactly the approved devices with the certificates the
    owner confirmed, bound to that controller.  Nobody approves the request
    again, and an approval that fails changes nothing. *)
Theorem approved_grant_resolves t d now a r d' :
  stored json_valid (t, d) → ApproveDelegation now a d = (Ok r, d') →
  ∃ g, delegation_of (p_RequestID a) d = Some g ∧ g_status g = "pending"%string ∧ now < g_expires g ∧ g_fp g = p_Fingerprint a ∧
  1 ≤ p_Minutes a ≤ MaxGrantMinutes ∧
  (∀ x raw, HashToken raw = g_token g → namespaceEnabled (p_Namespace a) d = true →
    resolveAccess x raw d' =
      if x <? now + p_Minutes a * minute
      then Some (Access (p_Namespace a) (pretty (serial d)) true (p_RequestID a) (now + p_Minutes a * minute) (approved_list a)
                   (p_Fingerprint a) (p_Minutes a) "")
      else None) ∧
  (∀ now' b, p_RequestID b = p_RequestID a → ∃ e, ApproveDelegation now' b d' = (Err e, d')) ∧
  (∀ now' b e d2, ApproveDelegation now' b d = (Err e, d2) → d2 = d).
Proof.
  intros R E. destruct (stored_grants t d R) as [Tk I].
  pose proof (ApproveDelegation_Ok _ _ _ _ _ E) as (Vl & g0 & _ & G0 & St & Ex & Fp & _ & Fr & _).
  destruct (approved_row _ _ _ _ _ Tk I E) as (g & G & Et & Eu & Es & G' & T' & Dv & Gone & Nm). rewrite G in G0. injection G0 as <-.
  apply delegation_of_Some in G as Gid. destruct Gid as [Hg Eg].
  assert (1 ≤ p_Minutes a ≤ MaxGrantMinutes) as Mi by (unfold approval_ok in Vl; bsplit; lia).
  assert (1 ≤ length (p_Devices a))%nat as Nd by (unfold approval_ok in Vl; bsplit; done).
  exists g. split_and!; try done; [lia..| | |].
  - intros x raw Hr En. set (t0 := Token (serial d) _ _ _ _ _ _) in *.
    assert (has_scope d' t0 = false) as Sc.
    { unfold has_scope. rewrite Es. apply any_false. intros s Hs. apply Nat.eqb_neq. pose proof (tk_scope d Tk s Hs). simpl. lia. }
    assert (NoDup (map t_hash (tokens d'))) as Nh.
    { rewrite Et. apply NoDup_snoc; [apply Tk|]. intros y Hy Eh. rewrite any_false in Fr. specialize (Fr y Hy). simpl in Eh.
      by rewrite Eh, String.eqb_refl in Fr. }
    assert (namespaceEnabled (p_Namespace a) d' = true) as En' by (unfold namespaceEnabled; by rewrite Eu).
    assert (t0 ∈ tokens d') as Ht0 by (rewrite Et; apply elem_of_app; right; by apply list_elem_of_singleton).
    unfold resolveAccess. destruct (Z.ltb_spec x (now + p_Minutes a * minute)) as [Lt|Ge].
    + rewrite (find_first_unique t_hash _ _ t0); [|done|done| |].
      * rewrite Sc. simpl. rewrite Nm.
        cbn [g_id decide_delegation]. rewrite Eg. unfold readDelegation. rewrite G'. simpl.
        unfold grant_status. cbn [g_tokenID g_status g_id decide_delegation String.eqb]. rewrite T', Eg, Gone. simpl.
        rewrite (proj2 (Z.leb_gt _ _)) by lia. simpl. rewrite String.eqb_refl, Dv. simpl.
        assert (length (approved_list a) = length (p_Devices a)) as ->.
        { unfold approved_list, sorted. rewrite length_map. apply Permutation_length, merge_sort_Permutation. }
        simpl in T'. rewrite T'. destruct (length (p_Devices a)); [lia|]. simpl. unfold GrantedDuration. simpl.
        rewrite Z.add_simpl_l, round_minutes_exact by lia. by rewrite Fp.
      * simpl. rewrite Hr, String.eqb_refl, En'. simpl. by rewrite (proj2 (Z.ltb_lt _ _) Lt).
      * intros y Hy. ssplit. simpl. congruence.
    + match goal with |- context [find_first ?f _] => assert (find_first f (tokens d') = None) as ->; [|done] end.
      apply find_first_None. intros y Hy. destruct (String.eqb_spec (t_hash y) (HashToken raw)) as [Ey|]; [|done].
      assert (y = t0) as -> by (eapply (unique_row t_hash); [exact Nh|done..|simpl; congruence]). simpl.
      by rewrite (proj2 (Z.ltb_ge _ _) Ge).
  - intros now' b Eb. destruct (ApproveDelegation now' b d') as [[r2|e] d2] eqn:E2; [|exists e; by rewrite (ApproveDelegation_Err _ _ _ _ _ E2)].
    apply ApproveDelegation_Ok in E2 as (_ & g2 & _ & G2 & S2 & _). rewrite Eb, G' in G2. by injection G2 as <-.
  - intros now' b e d2. apply ApproveDelegation_Err.
Qed.
End grants_inv.

(** ** Witness: a device, a request for it, and its approval *)

Definition request_run : list (Z * op) :=
  [(1, QRegisterDevice "u1" sample_id "box" sample_fp);
   (2, QCreateDelegation (NewRequest "r1" (HashToken "ticket") (HashToken "wfd_tok") "ci" sample_fp (5 * minute)))].
Definition requested_db : db := @run_ops ascii_libraries (λ _, true) request_run empty_db.
Definition sample_approval : approval := Approval "r1" "u1" [sample_id] 60 sample_fp {[sample_id := sample_fp]}.
Definition approved_db : db := (@ApproveDelegation ascii_libraries 3 sample_approval requested_db).2.
Definition sample_grant : delegation :=
  MkDelegation "r1" "ci" sample_fp "approved" "u1" 2 (5 * minute) (Some 3) (Some (3 + 60 * minute))
    [DelegatedDevice "u1" sample_id sample_fp] 1.

Lemma requested_stored : @stored ascii_libraries (λ _, true) (2, requested_db).
Proof. exact (@stored_run ascii_libraries (λ _, true) 0 request_run eq_refl). Qed.

Lemma sample_approved : @ApproveDelegation ascii_libraries 3 sample_approval requested_db = (Ok sample_grant, approved_db).
Proof. vm_compute. reflexivity. Qed.

Lemma approved_grant_resolves_witness :
  resolveAccess (4 * minute) "wfd_tok" approved_db =
    Some (Access "u1" "1" true "r1" (3 + 60 * minute) [DelegatedDevice "u1" sample_id sample_fp] sample_fp 60 "") ∧
  resolveAccess (61 * minute) "wfd_tok" approved_db = None.
Proof.
  destruct (@approved_grant_resolves ascii_libraries (λ _, true) _ _ _ _ _ _ requested_stored sample_approved) as (g & G & _ & _ & _ & _ & A & _).
  assert (HashToken "wfd_tok" = g_token g) as T.
  { assert (delegation_of "r1" requested_db = Some (MkRequest "r1" (HashToken "ticket") (HashToken "wfd_tok") "ci" sample_fp "pending" "" None 2 (5 * minute) None)) as G'
      by (vm_compute; reflexivity).
    change (delegation_of "r1" requested_db = Some g) in G. rewrite G' in G. by injection G as <-. }
  assert (namespaceEnabled (p_Namespace sample_approval) requested_db = true) as En by (vm_compute; reflexivity).
  split.
  - rewrite (A (4 * minute) "wfd_tok"%string T En). vm_compute. reflexivity.
  - rewrite (A (61 * minute) "wfd_tok"%string T En). vm_compute. reflexivity.
Defined.
