(* ===== verification/LedgerInv.v ===== *)
(** The ledger of jobs that controllers run under a grant, and the cleaning that
    deletes what nobody can use any more, in batches. *)

From S2P Require Import Prelude GoStrings GoUtf8 Session Tables Accounts Grants StoreOps TokenInv GrantInv.

Local Open Scope Z_scope.

Import Delegation.

(** ** Cleaning in batches *)

Lemma filter_delete_comm {A} (p q : A → bool) l : List.filter p (delete_func q l) = delete_func q (List.filter p l).
Proof.
  unfold delete_func. induction l as [|x l IH]; simpl; [done|]. destruct (q x) eqn:Q, (p x) eqn:P; simpl; rewrite ?P, ?Q, ?IH; done.
Qed.

Lemma delete_delete {A} (p q r : A → bool) l : (∀ x, x ∈ l → r x = p x || q x) → delete_func q (delete_func p l) = delete_func r l.
Proof.
  unfold delete_func. induction l as [|x l IH]; intros R; simpl; [done|]. rewrite (R x) by left.
  destruct (p x); simpl; [|destruct (q x); simpl; [|f_equal]]; apply IH; intros y Hy; apply R; by right.
Qed.

(** Deleting the first of the selected rows leaves the rest of them. *)
Lemma filter_rest {A B} `{EqDecision B} (g : A → B) (f : A → bool) (n : nat) l : NoDup (map g l) →
  List.filter f (delete_func (λ x, bool_decide (g x ∈ map g (take n (List.filter f l)))) l) = drop n (List.filter f l).
Proof.
  intros N. rewrite filter_delete_comm. set (F := List.filter f l). assert (NoDup (map g F)) as NF.
  { subst F. pose proof (NoDup_delete g (λ x, negb (f x)) l N) as K. unfold delete_func in K.
    erewrite List.filter_ext in K; [exact K|]. intros x. apply negb_involutive. }
  set (q := λ x, bool_decide (g x ∈ map g (take n F))). rewrite <- (take_drop n F), map_app in NF. apply NoDup_app in NF as (_ & Dj & _).
  assert (delete_func q F = delete_func q (take n F) ++ delete_func q (drop n F)) as ->.
  { unfold delete_func. by rewrite <- List.filter_app, take_drop. }
  rewrite (delete_func_id q (drop n F)).
  - assert (delete_func q (take n F) = []) as ->; [|done].
    apply length_zero_iff_nil, (count_where_0 _ _), any_false. intros x Hx. apply negb_false_iff, bool_decide_eq_true_2.
    by apply list_elem_of_fmap_2.
  - intros x Hx. apply bool_decide_eq_false_2. intros K. apply (Dj (g x)); [done|by apply list_elem_of_fmap_2].
Qed.

Section cleaning.
Context `{Libraries} (json_valid : string → bool).

(** A batch leaves the other grants' tokens and devices. *)
Lemma cleanup_other batch d g : grants_ok d → (∀ b, b ∈ batch → b ∈ delegations d) → g ∈ delegations d → g_id g ∉ map g_id batch →
  token_of (g_tokenID g) (cleanupDelegationBatch batch d) = token_of (g_tokenID g) d ∧
  devices_of (g_id g) (cleanupDelegationBatch batch d) = devices_of (g_id g) d.
Proof.
  intros I Sub Hg Ng. split.
  - destruct (g_tokenID g) as [k|] eqn:E; [simpl|done]. set (toks := omap _ batch).
    assert (k ∉ toks) as Nk.
    { intros (b & Hb & Eb)%list_elem_of_omap. destruct (token_of (g_tokenID b) d) as [t|] eqn:T; [|done]. simpl in Eb. simplify_eq.
      unfold token_of in T. destruct (g_tokenID b) as [k|] eqn:Kb; [|done]. apply find_first_Some in T as [_ <-%Nat.eqb_eq].
      apply Ng. rewrite (gr_own d I g b _ Hg (Sub b Hb) E Kb). by apply list_elem_of_fmap_2. }
    induction (tokens d) as [|t l IH]; [done|]. unfold delete_func. simpl. destruct (bool_decide (t_id t ∈ toks) && _) eqn:D; simpl.
    + bsplit. destruct (Nat.eqb_spec (t_id t) k) as [<-|]; [done|]. exact IH.
    + destruct (t_id t =? k)%nat; [done|]. exact IH.
  - unfold devices_of. simpl. induction (delegation_devices d) as [|x l IH]; [done|]. unfold delete_func. simpl.
    destruct (bool_decide_reflect (gd_grant x ∈ map g_id batch)) as [Hx|_]; simpl.
    + destruct (String.eqb_spec (gd_grant x) (g_id g)) as [Ex|]; [by rewrite Ex in Hx|]. exact IH.
    + destruct (String.eqb (gd_grant x) (g_id g)); [f_equal|]; exact IH.
Qed.

Lemma inactive_other now cutoff batch d g : grants_ok d → (∀ b, b ∈ batch → b ∈ delegations d) → g ∈ delegations d →
  g_id g ∉ map g_id batch → inactive now cutoff (cleanupDelegationBatch batch d) g = inactive now cutoff d g.
Proof. intros I Sub Hg Ng. unfold inactive. by destruct (cleanup_other batch d g I Sub Hg Ng) as [-> ->]. Qed.

(** What a batch leaves of each table. *)
Lemma cleanup_closed batch d :
  cleanupDelegationBatch batch d =
  Db (users d) (devices d)
    (delete_func (λ t, bool_decide (t_id t ∈ omap (λ g, option_map t_id (token_of (g_tokenID g) d)) batch) && String.eqb (t_kind t) "delegated") (tokens d))
    (acl d) (friends d) (invites d) (access_requests d)
    (delete_func (λ g, bool_decide (g_id g ∈ map g_id batch)) (delegations d))
    (delete_func (λ x, bool_decide (gd_grant x ∈ map g_id batch)) (delegation_devices d))
    (delete_func (λ j, bool_decide (j_grant j ∈ map g_id batch)) (jobs d))
    (scoped d) (phones d) (clients d) (refreshes d) (serial d).
Proof. reflexivity. Qed.

Lemma cleanup_nil d : cleanupDelegationBatch [] d = d.
Proof.
  rewrite cleanup_closed. rewrite !delete_func_id; [by destruct d|intros x _; by apply bool_decide_eq_false_2, not_elem_of_nil..|].
  intros x _. by rewrite bool_decide_eq_false_2 by apply not_elem_of_nil.
Qed.

(** Two batches are one. *)
Lemma cleanup_app b1 b2 d : grants_ok d → (∀ b, b ∈ b1 → b ∈ delegations d) → (∀ b, b ∈ b2 → b ∈ delegations d ∧ g_id b ∉ map g_id b1) →
  cleanupDelegationBatch b2 (cleanupDelegationBatch b1 d) = cleanupDelegationBatch (b1 ++ b2) d.
Proof.
  intros I S1 S2.
  assert (omap (λ g, option_map t_id (token_of (g_tokenID g) (cleanupDelegationBatch b1 d))) b2 =
          omap (λ g, option_map t_id (token_of (g_tokenID g) d)) b2) as Et.
  { apply list_omap_ext, Forall_Forall2_diag, Forall_forall. intros g Hb. destruct (S2 g Hb) as [Hg Ng].
    by destruct (cleanup_other b1 d g I S1 Hg Ng) as [-> _]. }
  rewrite (cleanup_closed b2), (cleanup_closed (b1 ++ b2)), Et. rewrite (cleanup_closed b1). cbn [users devices tokens acl friends invites
    access_requests delegations delegation_devices jobs scoped phones clients refreshes serial]. rewrite map_app, omap_app.
  f_equal; apply delete_delete; intros x _.
  - destruct (String.eqb _ _); [|by rewrite !andb_false_r]. rewrite !andb_true_r. rewrite <- bool_decide_or. apply bool_decide_ext, elem_of_app.
  - rewrite <- bool_decide_or. apply bool_decide_ext, elem_of_app.
  - rewrite <- bool_decide_or. apply bool_decide_ext, elem_of_app.
  - rewrite <- bool_decide_or. apply bool_decide_ext, elem_of_app.
Qed.

(** The cleaning as one statement: everything inactive goes at once. *)
Definition clean_all (now cutoff : Z) (d : db) : db := cleanupDelegationBatch (List.filter (inactive now cutoff d) (delegations d)) d.

Lemma batch_of_elem now cutoff d g : g ∈ batch_of now cutoff d → g ∈ delegations d.
Proof.
  unfold batch_of. intros Hg. assert (g ∈ List.filter (inactive now cutoff d) (delegations d)) as [K _]%elem_of_filter_b; [|done].
  rewrite <- (take_drop 256). apply elem_of_app. by left.
Qed.

Lemma inactive_rest now cutoff d : grants_ok d → let d1 := cleanupDelegationBatch (batch_of now cutoff d) d in
  List.filter (inactive now cutoff d1) (delegations d1) = drop 256 (List.filter (inactive now cutoff d) (delegations d)).
Proof.
  intros I. cbv zeta. rewrite <- (filter_rest g_id) by apply I. unfold batch_of.
  set (B := take 256 _). change (delegations (cleanupDelegationBatch B d)) with (delete_func (λ g, bool_decide (g_id g ∈ map g_id B)) (delegations d)).
  apply List.filter_ext_in. intros g [Hg Ng]%list_elem_of_In%elem_of_delete_func. bsplit. apply inactive_other; [done| |done|done].
  intros b. apply batch_of_elem.
Qed.

Lemma cleanup_loop_all now cutoff fuel d : grants_ok d → (length (List.filter (inactive now cutoff d) (delegations d)) ≤ fuel)%nat →
  cleanup_loop fuel now cutoff d = Some (clean_all now cutoff d).
Proof.
  revert d. induction fuel as [|fuel IH]; intros d I L; simpl; destruct (batch_of now cutoff d) as [|b bs] eqn:B.
  1, 3: (assert (List.filter (inactive now cutoff d) (delegations d) = []) as E by (unfold batch_of in B; by destruct (List.filter _ _));
    unfold clean_all; by rewrite E, cleanup_nil).
  { unfold batch_of in B. destruct (List.filter _ _); [done|]. simpl in L. lia. }
  rewrite <- B. pose proof (inactive_rest now cutoff d I) as Rest. cbv zeta in Rest.
  pose proof (batch_of_elem now cutoff d) as Sub.
  rewrite IH.
  - f_equal. unfold clean_all. rewrite Rest, cleanup_app; [unfold batch_of; by rewrite take_drop|done|done|].
    intros g Hg. rewrite <- Rest in Hg. apply elem_of_filter_b in Hg as [[Hg Ng]%elem_of_delete_func _]. by bsplit.
  - by apply grants_cleanup.
  - rewrite Rest, length_drop. unfold batch_of in B. destruct (List.filter _ _); [done|]. simpl in *. lia.
Qed.

(** Cleaning in batches is cleaning at once.  However many requests there
    are, the loop over batches of 256 ends within its bound, with the database
    that one statement over everything inactive would leave; no inactive request
    remains; and a grant that still works, its token, devices and jobs are
    untouched. *)
Lemma cleanup_is_one_sweep t d now retention :
  stored json_valid (t, d) → MinRetention ≤ retention →
  CleanupDelegations now retention d = Ok (Some (clean_all now (now - retention) d)) ∧
  let d' := clean_all now (now - retention) d in
  delegations d' = delete_func (inactive now (now - retention) d) (delegations d) ∧
  any (inactive now (now - retention) d') (delegations d') = false ∧
  ∀ g, g ∈ delegations d' → token_of (g_tokenID g) d' = token_of (g_tokenID g) d ∧ devices_of (g_id g) d' = devices_of (g_id g) d ∧
    ∀ j, j_grant j = g_id g → j ∈ jobs d' ↔ j ∈ jobs d.
Proof.
  intros R L. destruct (stored_grants json_valid t d R) as [_ I]. unfold CleanupDelegations. destruct (Z.ltb_spec retention MinRetention); [lia|].
  split; [f_equal; apply cleanup_loop_all; [done|apply List.filter_length_le]|]. cbv zeta. set (cutoff := now - retention).
  set (F := List.filter (inactive now cutoff d) (delegations d)).
  assert (∀ g, g ∈ delegations d → bool_decide (g_id g ∈ map g_id F) = inactive now cutoff d g) as Mem.
  { intros g Hg. destruct (inactive now cutoff d g) eqn:E.
    - apply bool_decide_eq_true_2, list_elem_of_fmap_2. by apply elem_of_filter_b.
    - apply bool_decide_eq_false_2. intros (x & Ex & [Hx Ix]%elem_of_filter_b)%list_elem_of_fmap.
      assert (x = g) as -> by (eapply (unique_row g_id); [apply I|done..]). congruence. }
  assert (delegations (clean_all now cutoff d) = delete_func (inactive now cutoff d) (delegations d)) as Ed.
  { unfold clean_all. fold F. simpl. unfold delete_func. apply List.filter_ext_in. intros g Hg%list_elem_of_In. by rewrite Mem. }
  assert (∀ g, g ∈ delegations (clean_all now cutoff d) → g ∈ delegations d ∧ g_id g ∉ map g_id F) as Left.
  { rewrite Ed. intros g [Hg E]%elem_of_delete_func. split; [done|]. rewrite <- Mem in E by done. by bsplit. }
  assert (∀ b, b ∈ F → b ∈ delegations d) as Sub by by intros b [Hb _]%elem_of_filter_b.
  split_and!; [done| |].
  - apply any_false. intros g Hg. destruct (Left g Hg). unfold clean_all. rewrite inactive_other; [|done..].
    rewrite Ed in Hg. by apply elem_of_delete_func in Hg as [].
  - intros g Hg. destruct (Left g Hg) as [Hd Ng]. destruct (cleanup_other F d g I Sub Hd Ng). split_and!; [done|done|]. intros j Ej.
    unfold clean_all. simpl. rewrite elem_of_delete_func, Ej. fold F. rewrite bool_decide_eq_false_2 by done. naive_solver.
Qed.
End cleaning.

(** ** The ledger *)

Definition job_key (j : delegation_job) : string * string := (j_grant j, j_request j).

Definition maxJobsEver : nat := 1536.

Record jobs_ok (d : db) : Prop := {
  jb_key : NoDup (map job_key (jobs d));
  jb_id : NoDup (map j_id (jobs d));
  jb_count : ∀ g, (count_where (λ j, String.eqb (j_grant j) g) (jobs d) ≤ maxJobsEver)%nat }.

Section ledger_inv.
Context `{Libraries} (json_valid : string → bool).

(** The allowance of an approved grant. *)
Lemma allowance_bounded now id d r : grants_ok d → readDelegation now id "" d = Some r → q_Status r = "approved"%string →
  MaxJobs (GrantedDuration (DelegationRequest (q_DecidedAt r) (q_ExpiresAt r))) ≤ Z.of_nat maxJobsEver.
Proof.
  intros I. unfold readDelegation. destruct (delegation_of id d) as [g|] eqn:G; [|done]. cbn [String.eqb orb]. intros [= <-]. simpl.
  apply delegation_of_Some in G as [Hg _]. unfold grant_status. destruct (String.eqb_spec (g_status g) "approved").
  2: { destruct (_ && _); [done|]. intros. congruence. }
  destruct (g_tokenID g) as [k|] eqn:K; [simpl|done]. destruct (find_first _ (tokens d)) as [x|] eqn:T; [|done].
  apply find_first_Some in T as [Hx <-%Nat.eqb_eq]. destruct (gr_lasts d I g x Hg Hx K) as [_ (a & m & -> & M & ->)]. intros _.
  unfold GrantedDuration. simpl. rewrite Z.add_simpl_l. destruct MaxJobs_per_hour as (_ & _ & _ & B). transitivity (24 * JobsPerGrantHour); [apply B; lia|done].
Qed.

Lemma job_of_Some grant rid d j : job_of grant rid d = Some j → j ∈ jobs d ∧ j_grant j = grant ∧ j_request j = rid.
Proof. intros [? E]%find_first_Some. by ssplit. Qed.

Lemma BeginJob_Ok now rnd grant rid hash payload d j fresh d' : BeginJob json_valid now rnd grant rid hash payload d = (Ok (j, fresh), d') →
  j_grant j = grant ∧ j_request j = rid ∧ j_hash j = hash ∧ validDelegationID grant = true ∧ validDelegationID rid = true ∧
  ((fresh = false ∧ j ∈ jobs d ∧ d' = d) ∨
   (fresh = true ∧ j_state j = "running"%string ∧ d' = on_jobs (λ l, l ++ [j]) d ∧ job_of grant rid d = None ∧
    any (λ k, String.eqb (j_id k) (j_id j)) (jobs d) = false ∧
    ∃ r, readDelegation now grant "" d = Some r ∧ q_Status r = "approved"%string ∧
      Z.of_nat (count_where (λ k, String.eqb (j_grant k) grant) (jobs d)) < MaxJobs (GrantedDuration (DelegationRequest (q_DecidedAt r) (q_ExpiresAt r))))).
Proof.
  unfold BeginJob. destruct (validDelegationID grant); [simpl|done]. destruct (validDelegationID rid); [simpl|done]. destruct (_ || _ || _); [done|].
  destruct (job_of grant rid d) as [old|] eqn:J.
  { destruct (String.eqb_spec (j_hash old) hash); [|done]. intros [= <- <- <-]. apply job_of_Some in J as (? & ? & ?). eauto 10. }
  destruct (readDelegation _ _ _ _) as [r|] eqn:Rd; [|done]. destruct (String.eqb_spec (q_Status r) "approved"); [simpl|done].
  destruct (Z.leb_spec (MaxJobs (GrantedDuration (DelegationRequest (q_DecidedAt r) (q_ExpiresAt r)))) (Z.of_nat (count_where (λ j, String.eqb (j_grant j) grant) (jobs d)))); [done|].
  cbv zeta. destruct (any _ _) eqn:A; [done|]. intros [= <- <- <-]. split_and!; try done. right. split_and!; try done. exists r. split_and!; done.
Qed.

Lemma BeginJob_Err now rnd grant rid hash payload d e d' : BeginJob json_valid now rnd grant rid hash payload d = (Err e, d') → d' = d.
Proof. unfold BeginJob. outcomes; congruence. Qed.

Lemma FinishJob_jobs grant id st res d r d' : FinishJob json_valid grant id st res d = (r, d') →
  jobs d' = jobs d ∧ r ≠ Ok tt ∨
  r = Ok tt ∧ st ≠ "running"%string ∧
  let running j := String.eqb (j_grant j) grant && String.eqb (j_id j) id && String.eqb (j_state j) "running" in
  count_where running (jobs d) = 1%nat ∧ jobs d' = update_where running (finish_job st res) (jobs d).
Proof.
  unfold FinishJob. cbv zeta. destruct (negb (String.eqb st "done" || _ || _)) eqn:F; [intros [= <- <-]; by left|]. simpl.
  destruct ((maxDelegationResult <? slen res)%nat || negb (json_valid res)); [intros [= <- <-]; by left|]. set (running := λ j, _ && String.eqb (j_state j) "running").
  destruct (Nat.eqb_spec (count_where running (jobs d)) 1) as [C|].
  - intros [= <- <-]. right. split_and!; try done. intros ->. done.
  - intros E. left. destruct (GetJob _ _ _); simplify_eq; done.
Qed.

Lemma finish_column {B} (g : delegation_job → B) grant id st res d : (∀ j, g (finish_job st res j) = g j) →
  map g (jobs (FinishJob json_valid grant id st res d).2) = map g (jobs d).
Proof.
  intros G. destruct (FinishJob json_valid grant id st res d) as [r d'] eqn:E. simpl. apply FinishJob_jobs in E as [[-> _]|(_ & _ & _ & ->)]; [done|].
  by apply map_update_where.
Qed.

Lemma jobs_op now o d : grants_ok d → jobs_ok d → jobs_ok (apply_op json_valid now o d).
Proof.
  intros G I. destruct (writes_jobs o) eqn:W; [|pose proof (jobs_frame json_valid now o d W) as E; destruct I; split; by rewrite E].
  destruct o; try done; cbn [apply_op]; clear W.
  - destruct (BeginJob _ _ _ _ _ _ _ _) as [[[j fresh]|e] d'] eqn:E; [|by apply BeginJob_Err in E as ->].
    apply BeginJob_Ok in E as (Eg & Er & Eh & _ & _ & [(_ & _ & ->)|(_ & _ & -> & Jn & Fr & r & Rd & St & Lt)]); [done|].
    destruct I as [I1 I2 I3]. split; simpl.
    + apply NoDup_snoc; [done|]. intros y Hy Ey. unfold job_of in Jn. rewrite find_first_None in Jn. specialize (Jn y Hy).
      unfold job_key in Ey. injection Ey as E1 E2. rewrite E1, E2, Eg, Er, !String.eqb_refl in Jn. done.
    + apply NoDup_snoc; [done|]. intros y Hy Ey. rewrite any_false in Fr. specialize (Fr y Hy). by rewrite Ey, String.eqb_refl in Fr.
    + intros g. rewrite count_where_app. specialize (I3 g). unfold count_where at 2. simpl. rewrite Eg.
      destruct (String.eqb_spec grant g) as [->|]; simpl; [|lia]. pose proof (allowance_bounded now g d r G Rd St). lia.
  - destruct I as [I1 I2 I3]. split; [by rewrite finish_column|by rewrite finish_column|]. intros g. etrans; [|apply (I3 g)].
    destruct (FinishJob _ _ _ _ _ _) as [r d'] eqn:E. simpl. apply FinishJob_jobs in E as [[-> _]|(_ & _ & _ & ->)]; [done|].
    apply count_where_le. intros x _. by destruct (_ && _).
  - destruct (batch_ok _ _ _ _); [|done]. destruct I as [I1 I2 I3]. split; simpl; [by apply NoDup_delete..|]. intros g.
    etrans; [apply count_where_delete|apply I3].
Qed.

Lemma stored_jobs t d : stored json_valid (t, d) → jobs_ok d.
Proof.
  assert (∀ s, stored json_valid s → (tokens_ok s.2 ∧ grants_ok s.2) ∧ jobs_ok s.2) as A; [|intros R; by apply (A (t, d))].
  apply (invariant_reachable fresh_db (dstep json_valid)).
  - intros [t0 d0] E. split; [apply (stored_grants json_valid t0 d0); by apply reachable_init|]. unfold fresh_db in E. simpl in *. subst d0.
    split; simpl; [apply NoDup_nil_2|apply NoDup_nil_2|]. intros g. unfold count_where. simpl. lia.
  - intros [t1 d1] [t2 d2] [[Tk G] I] [_ [o E]]. simpl in *. subst d2. split; [split; [by apply tokens_op|by apply grants_op]|by apply jobs_op].
Qed.

(** ** A request is one job *)

(** The same row, perhaps finished meanwhile. *)
Definition same_job (j k : delegation_job) : Prop :=
  j_id k = j_id j ∧ job_key k = job_key j ∧ j_hash k = j_hash j ∧ j_payload k = j_payload j ∧ (j_state j ≠ "running"%string → k = j).

Definition cleans (o : op) (grant : string) : bool :=
  match o with QCleanupBatch _ batch => bool_decide (grant ∈ map g_id batch) | _ => false end.

(** A query that does not clean the grant away. *)
Definition keeps (grant : string) (s s' : Z * db) : Prop :=
  s.1 ≤ s'.1 ∧ ∃ o, s'.2 = apply_op json_valid s'.1 o s.2 ∧ cleans o grant = false.

Lemma job_kept now o d j : j ∈ jobs d → cleans o (j_grant j) = false → ∃ k, k ∈ jobs (apply_op json_valid now o d) ∧ same_job j k.
Proof.
  intros Hj C. assert (same_job j j) as S by done. destruct (writes_jobs o) eqn:W; [|rewrite (jobs_frame json_valid now o d W); eauto].
  destruct o; try done; cbn [apply_op]; clear W.
  - destruct (BeginJob _ _ _ _ _ _ _ _) as [[[k fresh]|e] d'] eqn:E; [|apply BeginJob_Err in E as ->; eauto].
    apply BeginJob_Ok in E as (_ & _ & _ & _ & _ & [(_ & _ & ->)|(_ & _ & -> & _)]); [eauto|]. exists j. split; [|done].
    simpl. apply elem_of_app. by left.
  - destruct (FinishJob _ _ _ _ _ _) as [r d'] eqn:E. simpl. apply FinishJob_jobs in E as [[-> _]|(_ & _ & _ & ->)]; [eauto|].
    eexists. split; [apply elem_of_update_where; by exists j|]. destruct (_ && _) eqn:F; [|done]. ssplit. by split_and!.
  - destruct (batch_ok _ _ _ _); [|eauto]. exists j. split; [|done]. simpl. by apply elem_of_delete_func.
Qed.

Lemma same_job_trans a b c : same_job a b → same_job b c → same_job a c.
Proof.
  intros (I1 & K1 & H1 & P1 & S1) (I2 & K2 & H2 & P2 & S2). split_and!; [congruence..|]. intros N. specialize (S1 N) as ->. by apply S2.
Qed.

Lemma job_kept_steps j s s' : rtc (keeps (j_grant j)) s s' → j ∈ jobs s.2 → ∃ k, k ∈ jobs s'.2 ∧ same_job j k.
Proof.
  revert j. intros j Steps. remember (j_grant j) as gr eqn:Eg. revert j Eg.
  induction Steps as [s|s1 s2 s3 [_ (o & E & C)] _ IH]; intros j -> Hj; [by exists j|].
  destruct (job_kept s2.1 o s1.2 j Hj C) as (k & Hk & S). rewrite <- E in Hk. destruct (IH k) as (m & Hm & S2); [|done|].
  - destruct S as (_ & K & _). unfold job_key in K. congruence.
  - exists m. split; [done|by eapply same_job_trans].
Qed.

Lemma job_of_elem d j : jobs_ok d → j ∈ jobs d → job_of (j_grant j) (j_request j) d = Some j.
Proof.
  intros I Hj. apply (find_first_unique job_key); [apply I|done|by rewrite !String.eqb_refl|]. intros y Hy. ssplit. unfold job_key. congruence.
Qed.

Lemma keeps_stored grant s s' : stored json_valid s → rtc (keeps grant) s s' → stored json_valid s'.
Proof.
  intros R. induction 1 as [s|s1 s2 s3 [L (o & E & _)] _ IH]; [done|]. apply IH. eapply reachable_step; [exact R|]. split; [done|eauto].
Qed.

(** A controller's request runs once.  After a request of a grant was begun,
    whatever the relay's queries do short of cleaning the grant away, the row
    stays; asking again gives the row and says it is not new, or a conflict if
    the request's content differs, and writes nothing.  The row ends in the state
    it is first finished with: finishing it again never succeeds. *)
Lemma jobs_run_once t d now rnd grant rid hash payload j fresh d1 t' d' :
  stored json_valid (t, d) → t ≤ now → BeginJob json_valid now rnd grant rid hash payload d = (Ok (j, fresh), d1) →
  rtc (keeps grant) (now, d1) (t', d') →
  ∃ k, k ∈ jobs d' ∧ same_job j k ∧
  (∀ now' rnd' hash' payload', validDelegationHash hash' = true → (slen payload' ≤ maxDelegationPayload)%nat → json_valid payload' = true →
    BeginJob json_valid now' rnd' grant rid hash' payload' d' = (if String.eqb hash' hash then Ok (k, false) else Err ErrConflict, d')) ∧
  (∀ st res d2, FinishJob json_valid grant (j_id j) st res d' = (Ok tt, d2) →
    j_state k = "running"%string ∧ finish_job st res k ∈ jobs d2 ∧
    ∀ t3 d3 st' res', rtc (keeps grant) (t', d2) (t3, d3) → (FinishJob json_valid grant (j_id j) st' res' d3).1 ≠ Ok tt).
Proof.
  intros R L E Steps. assert (stored json_valid (now, d1)) as R1.
  { eapply reachable_step; [exact R|]. pose proof (dstep_op json_valid t d now (QBeginJob rnd grant rid hash payload) L) as D. simpl in D. by rewrite E in D. }
  pose proof (BeginJob_Ok _ _ _ _ _ _ _ _ _ _ E) as (Eg & Er & Eh & Vg & Vr & Cs).
  assert (j ∈ jobs d1) as Hj.
  { destruct Cs as [(_ & Hj & ->)|(_ & _ & -> & _)]; [done|]. simpl. apply elem_of_app. right. by apply list_elem_of_singleton. }
  assert (rtc (keeps (j_grant j)) (now, d1) (t', d')) as Steps' by by rewrite Eg.
  destruct (job_kept_steps j _ _ Steps' Hj) as (k & Hk & S). simpl in Hk.
  pose proof (keeps_stored _ _ _ R1 Steps) as R'. pose proof (stored_jobs t' d' R') as J'.
  destruct S as (Si & Sk & Sh & Sp & Ss). assert (j_grant k = grant ∧ j_request k = rid) as [Kg Kr] by (unfold job_key in Sk; split; congruence).
  exists k. split; [done|]. split; [done|]. split.
  - intros now' rnd' hash' payload' Vh Vp Vj. unfold BeginJob. rewrite Vg, Vr, Vh, Vj, (proj2 (Nat.ltb_ge _ _) Vp). simpl.
    rewrite <- Kg, <- Kr, (job_of_elem d' k J' Hk), Sh, Eh, String.eqb_sym. by destruct (String.eqb hash' hash).
  - intros st res d2 F. pose proof (FinishJob_jobs _ _ _ _ _ _ _ F) as [[_ N]|(_ & Nr & C & Ej)]; [done|]. cbv zeta in *.
    set (running := λ j0, _ && String.eqb (j_state j0) "running") in *.
    assert (∀ x, x ∈ jobs d' → running x = true → x = k) as Only.
    { intros x Hx Rx. unfold running in Rx. ssplit. eapply (unique_row j_id); [apply J'|done..|congruence]. }
    assert (running k = true) as Rk.
    { destruct (running k) eqn:Rk; [done|]. assert (any running (jobs d') = false) as N0; [|by rewrite (proj2 (count_where_0 _ _) N0) in C].
      apply any_false. intros x Hx. destruct (running x) eqn:Rx; [|done]. specialize (Only x Hx Rx). congruence. }
    assert (finish_job st res k ∈ jobs d2) as Hf by (rewrite Ej; apply elem_of_update_where; exists k; by rewrite Rk).
    split; [unfold running in Rk; by ssplit|]. split; [done|]. intros t3 d3 st' res' Steps3 F3.
    assert (rtc (keeps (j_grant (finish_job st res k))) (t', d2) (t3, d3)) as Steps4 by by (simpl; rewrite Kg).
    destruct (job_kept_steps _ _ _ Steps4 Hf) as (m & Hm & (Mi & _ & _ & _ & Ms)). simpl in Hm, Mi. specialize (Ms Nr) as ->.
    assert (stored json_valid (t3, d3)) as R3.
    { eapply keeps_stored; [|exact Steps3]. eapply reachable_step; [exact R'|].
      pose proof (dstep_op json_valid t' d' t' (QFinishJob grant (j_id j) st res) (Z.le_refl _)) as D. simpl in D. by rewrite F in D. }
    destruct (FinishJob json_valid grant (j_id j) st' res' d3) as [r4 d4] eqn:F4. simpl in F3. subst r4.
    pose proof (FinishJob_jobs _ _ _ _ _ _ _ F4) as [[_ N]|(_ & _ & C4 & _)]; [done|]. cbv zeta in C4.
    match type of C4 with count_where ?f _ = _ => assert (any f (jobs d3) = false) as N0; [|by rewrite (proj2 (count_where_0 _ _) N0) in C4] end.
    apply any_false. intros x Hx. destruct (String.eqb_spec (j_grant x) grant), (String.eqb_spec (j_id x) (j_id j)), (String.eqb_spec (j_state x) "running"); try done.
    assert (x = finish_job st res k) as Ex by (eapply (unique_row j_id); [apply (stored_jobs t3 d3 R3)|done..|simpl; congruence]).
    rewrite Ex in *. simpl in *. congruence.
Qed.
End ledger_inv.

(** ** Witnesses *)

Lemma approved_stored : @stored ascii_libraries (λ _, true) (3, approved_db).
Proof.
  eapply reachable_step; [exact requested_stored|].
  exact (@dstep_op ascii_libraries (λ _, true) 2 requested_db 3 (QApproveDelegation sample_approval) ltac:(discriminate)).
Qed.

Lemma cleanup_is_one_sweep_witness :
  CleanupDelegations (3 * 24 * hour) MinRetention approved_db = Ok (Some (clean_all (3 * 24 * hour) (3 * 24 * hour - MinRetention) approved_db)) ∧
  delegations (clean_all (3 * 24 * hour) (3 * 24 * hour - MinRetention) approved_db) =
    delete_func (inactive (3 * 24 * hour) (3 * 24 * hour - MinRetention) approved_db) (delegations approved_db).
Proof.
  destruct (@cleanup_is_one_sweep ascii_libraries (λ _, true) 3 approved_db (3 * 24 * hour) MinRetention approved_stored (Z.le_refl _)) as (A & B & _).
  split; [exact A|exact B].
Defined.

Definition sample_hash : string := HashToken "payload".
Definition begun_db : db := (BeginJob (λ _, true) 4 "a1" "r1" "q1" sample_hash "{}" approved_db).2.
Definition sample_job : delegation_job := MkJob "j_a1" "r1" "q1" sample_hash "{}" "running" None 4.
Definition finished_db : db := @apply_op ascii_libraries (λ _, true) 5 (QFinishJob "r1" "j_a1" "done" "{}") begun_db.

Lemma sample_begun : BeginJob (λ _, true) 4 "a1" "r1" "q1" sample_hash "{}" approved_db = (Ok (sample_job, true), begun_db).
Proof. vm_compute. reflexivity. Qed.

Lemma small_payload : (slen "{}" ≤ maxDelegationPayload)%nat.
Proof. apply Nat2Z.inj_le. unfold maxDelegationPayload. rewrite Z2Nat.id; by apply Z.leb_le. Qed.

Lemma sample_hash_ok : validDelegationHash sample_hash = true.
Proof. vm_compute. reflexivity. Qed.

Lemma sample_kept : @keeps ascii_libraries (λ _, true) "r1" (4, begun_db) (5, finished_db).
Proof.
  split; [discriminate|]. exists (QFinishJob "r1" "j_a1" "done" "{}"). cbn [fst snd]. unfold finished_db. split; [exact eq_refl|done].
Qed.

Lemma jobs_run_once_witness :
  ∃ k, k ∈ jobs finished_db ∧ same_job sample_job k ∧
    BeginJob (λ _, true) 6 "b2" "r1" "q1" sample_hash "{}" finished_db = (Ok (k, false), finished_db).
Proof.
  destruct (@jobs_run_once ascii_libraries (λ _, true) 3 approved_db 4 _ _ _ _ _ _ _ _ 5 finished_db approved_stored ltac:(discriminate) sample_begun (rtc_once _ _ sample_kept))
    as (k & Hk & Sk & B & _).
  exists k. split; [exact Hk|]. split; [exact Sk|].
  specialize (B 6 "b2"%string sample_hash "{}"%string sample_hash_ok small_payload eq_refl). rewrite String.eqb_refl in B. exact B.
Defined.
