(* ===== verification/OAuthInv.v ===== *)
(** The OAuth server over a whole day's traffic: no tokens without consent, a
    code and a decision that count once, a refresh token that rotates once
    whatever requests interleave, and tokens that work. *)

From S2P Require Import Prelude GoStrings GoUtf8 GoCodec Tables Accounts McpAuth OAuth StoreOps TokenInv.

Local Open Scope Z_scope.

(** ** Traffic *)

(** The requests the server answers, and the queries of the rest of the relay. *)
Inductive call :=
| Register (addr rndID rndSecret : string) (b : registration)
| Ask (rnd : string) (b : authorize)
| Approve (rnd id ns : string)
| Deny (id : string)
| Exchange (rnd : random) (f : code_form) (client : oauth_client)
| Query (o : op).

(** The clock, the server, and what was asked and answered. *)
Record traffic := Traffic { clock : Z; srv : server; answered : list (Z * call * response) }.

Section traffic.
Context `{Libraries} `{AEAD} (json_valid : string → bool) (parse : string → option url) (seed origin : string).

Definition serve (now : Z) (c : call) (s : server) : response * server :=
  match c with
  | Register addr r1 r2 b => oauthRegister parse addr r1 r2 now b s
  | Ask rnd b => adminOAuthAuthorizeRequest origin rnd now b s
  | Approve rnd id ns => adminOAuthApprove rnd now id ns s
  | Deny id => adminOAuthDeny now id s
  | Exchange rnd f client => oauthTokenFromCode seed origin rnd now f client s
  | Query o => (Done, with_store (apply_op json_valid now o (store s)) s)
  end.

Definition tstep (t t' : traffic) : Prop :=
  clock t ≤ clock t' ∧ ∃ c r, serve (clock t') c (srv t) = (r, srv t') ∧ answered t' = answered t ++ [(clock t', c, r)].

Definition quiet_server (t : traffic) : Prop := requests (srv t) = ∅ ∧ codes (srv t) = ∅ ∧ answered t = [].

Definition running : traffic → Prop := reachable quiet_server tstep.

(** What the log counts. *)
Definition asked (id : string) (e : Z * call * response) : bool :=
  match e.1.2, e.2 with Ask _ _, Asked i => String.eqb i id | _, _ => false end.
Definition decided (id : string) (e : Z * call * response) : bool :=
  match e.1.2, e.2 with
  | Approve _ i _, Redirect _ _ | Deny i, Redirect _ _ => String.eqb i id
  | _, _ => false
  end.
Definition approved (code : string) (e : Z * call * response) : bool :=
  match e.1.2, e.2 with Approve rnd _ _, Redirect _ _ => String.eqb ("wac_" ++ rnd) code | _, _ => false end.
Definition exchanged (code : string) (e : Z * call * response) : bool :=
  match e.1.2, e.2 with Exchange _ f _, Tokens _ _ => String.eqb (cf_code f) code | _, _ => false end.

(** ** What one answer does to the pending requests and codes *)

Definition request_of (now : Z) (b : authorize) : authz_request :=
  AuthzRequest (az_client b) (az_redirect b) (az_state b) (az_challenge b) (az_resource b) (now + oauthRequestTTL).
Definition code_of (now : Z) (ar : authz_request) (ns : string) : oauth_code :=
  OAuthCode (ar_client ar) (ar_redirect ar) (ar_challenge ar) ns (ar_resource ar) (now + oauthCodeTTL).

Inductive effect (now : Z) (s s' : server) : call → response → Prop :=
| ef_none c r : requests s' ⊆ requests s → codes s' ⊆ codes s →
    (∀ id, decided id (now, c, r) = false) → (∀ x, exchanged x (now, c, r) = false) → effect now s s' c r
| ef_ask rnd b m : m ⊆ requests s → requests s' = <[rnd := request_of now b]> m → codes s' ⊆ codes s →
    effect now s s' (Ask rnd b) (Asked rnd)
| ef_approve rnd id ns ar m uri ps : requests s !! id = Some ar → now ≤ ar_expires ar → requests s' ⊆ delete id (requests s) →
    m ⊆ codes s → codes s' = <[("wac_" ++ rnd)%string := code_of now ar ns]> m →
    effect now s s' (Approve rnd id ns) (Redirect uri ps)
| ef_deny id uri ps : is_Some (requests s !! id) → requests s' ⊆ delete id (requests s) → codes s' ⊆ codes s →
    effect now s s' (Deny id) (Redirect uri ps)
| ef_exchange rnd f client r : is_Some (codes s !! cf_code f) → requests s' ⊆ requests s → codes s' ⊆ delete (cf_code f) (codes s) →
    effect now s s' (Exchange rnd f client) r.

Lemma purge_sub now s : requests (purgeOAuthLocked now s) ⊆ requests s ∧ codes (purgeOAuthLocked now s) ⊆ codes s ∧
  store (purgeOAuthLocked now s) = store s.
Proof. split_and!; [apply map_filter_subseteq|apply map_filter_subseteq|done]. Qed.

Lemma takeOAuthRequest_spec now id s o s' : takeOAuthRequest now id s = (o, s') →
  codes s' ⊆ codes s ∧
  match o with
  | None => requests s' ⊆ requests s
  | Some ar => requests s !! id = Some ar ∧ now ≤ ar_expires ar ∧ requests s' ⊆ delete id (requests s)
  end.
Proof.
  unfold takeOAuthRequest. destruct (purge_sub now s) as (Sr & Sc & _). destruct (requests (purgeOAuthLocked now s) !! id) as [ar|] eqn:E; intros [= <- <-].
  - split; [done|]. pose proof E as F. simpl in F. apply map_lookup_filter_Some in F as [F L]. simpl in L. bsplit. split_and!; [done|lia|].
    simpl. by apply delete_mono.
  - done.
Qed.

Lemma take_code_spec now code s o s' : take_code now code s = (o, s') →
  requests s' ⊆ requests s ∧ store s' = store s ∧
  match o with
  | None => codes s' ⊆ codes s
  | Some oc => codes s !! code = Some oc ∧ now ≤ oc_expires oc ∧ codes s' ⊆ delete code (codes s)
  end.
Proof.
  unfold take_code. destruct (purge_sub now s) as (Sr & Sc & St). destruct (codes (purgeOAuthLocked now s) !! code) as [oc|] eqn:E; intros [= <- <-].
  - split; [done|]. split; [done|]. pose proof E as F. simpl in F. apply map_lookup_filter_Some in F as [F L]. simpl in L. bsplit. split_and!; [done|lia|].
    simpl. by apply delete_mono.
  - done.
Qed.

Lemma serve_effect now c s r s' : serve now c s = (r, s') → effect now s s' c r.
Proof.
  destruct c as [addr r1 r2 b|rnd b|rnd id ns|id|rnd f client|o]; simpl.
  - intros E. assert (requests s' ⊆ requests s ∧ codes s' ⊆ codes s) as [? ?]; [|by apply ef_none].
    revert E. unfold oauthRegister. cbv zeta. destruct (_ || _); [by intros [= _ <-]|]. destruct (negb (forallb _ _)); [by intros [= _ <-]|].
    destruct (negb (bool_decide _)); [by intros [= _ <-]|]. destruct (take _ _ _) as [[w|] bud]; [by intros [= _ <-]|]. simpl.
    set (s0 := Server _ _ bud _). destruct (purge_sub now s0) as (P1 & P2 & _).
    destruct (RegisterOAuthClient _ _ _ _ _) as [[[|]|e] d]; intros [= _ <-]; done.
  - unfold adminOAuthAuthorizeRequest. destruct (OAuthClientOf (az_client b) (store s)) as [cl|] eqn:C; [|intros [= <- <-]; by apply ef_none].
    destruct (negb _); [intros [= <- <-]; by apply ef_none|]. destruct (negb _); [intros [= <- <-]; by apply ef_none|].
    destruct (_ || _); [intros [= <- <-]; by apply ef_none|]. destruct (negb _ && _); [intros [= <- <-]; by apply ef_none|].
    destruct (negb _ && _); intros [= <- <-]; [by apply ef_none|]. destruct (purge_sub now s) as (P1 & P2 & _).
    apply find_first_Some in C as [_ C%String.eqb_eq]. eapply ef_ask; [exact P1| |exact P2]. simpl. unfold request_of. by rewrite C.
  - unfold adminOAuthApprove. destruct (String.eqb ns ""); [intros [= <- <-]; by apply ef_none|].
    destruct (takeOAuthRequest now id s) as [[ar|] s0] eqn:T; apply takeOAuthRequest_spec in T as [Tc T]; intros [= <- <-]; [|by apply ef_none].
    destruct T as (L & Ex & Tr). by eapply ef_approve.
  - unfold adminOAuthDeny. destruct (takeOAuthRequest now id s) as [[ar|] s0] eqn:T; apply takeOAuthRequest_spec in T as [Tc T]; intros [= <- <-]; [|by apply ef_none].
    destruct T as (L & Ex & Tr). by apply ef_deny.
  - unfold oauthTokenFromCode. destruct (take_code now (cf_code f) s) as [[oc|] s0] eqn:T; apply take_code_spec in T as (Tr & _ & T); [|intros [= <- <-]; by apply ef_none].
    destruct T as (L & _ & Tc). intros E. apply ef_exchange; [by rewrite L|..]; revert E; outcomes; intros [= _ <-]; done.
  - intros [= <- <-]. by apply ef_none.
Qed.

(** ** Nothing without consent *)

(** The log holds the request, and the approval a code stands for. *)
Definition asked_for (h : list (Z * call * response)) (id : string) (ar : authz_request) : Prop :=
  ∃ at_ rnd b, (at_, Ask rnd b, Asked id) ∈ h ∧ ar = request_of at_ b.
Definition consented (h : list (Z * call * response)) (code : string) (oc : oauth_code) : Prop :=
  ∃ at_ rnd id ns uri ps ar, (at_, Approve rnd id ns, Redirect uri ps) ∈ h ∧ code = ("wac_" ++ rnd)%string ∧
    asked_for h id ar ∧ at_ ≤ ar_expires ar ∧ oc = code_of at_ ar ns.

Definition one_if {A} (o : option A) : nat := match o with Some _ => 1 | None => 0 end.

Record traffic_ok (t : traffic) : Prop := {
  tr_requests : ∀ id ar, requests (srv t) !! id = Some ar → asked_for (answered t) id ar;
  tr_codes : ∀ code oc, codes (srv t) !! code = Some oc → consented (answered t) code oc;
  tr_decided : ∀ id, (count_where (decided id) (answered t) + one_if (requests (srv t) !! id) ≤ count_where (asked id) (answered t))%nat;
  tr_exchanged : ∀ x, (count_where (exchanged x) (answered t) + one_if (codes (srv t) !! x) ≤ count_where (approved x) (answered t))%nat }.

Lemma asked_for_more h e id ar : asked_for h id ar → asked_for (h ++ [e]) id ar.
Proof. intros (t0 & rnd & b & Hin & E). exists t0, rnd, b. split; [apply elem_of_app; by left|done]. Qed.

Lemma consented_more h e code oc : consented h code oc → consented (h ++ [e]) code oc.
Proof.
  intros (t0 & rnd & id & ns & uri & ps & ar & Hin & E & A & L & Eo). exists t0, rnd, id, ns, uri, ps, ar.
  split_and!; [apply elem_of_app; by left|done|by apply asked_for_more|done..].
Qed.

Lemma one_if_sub {A} (m m' : gmap string A) x : m' ⊆ m → (one_if (m' !! x) ≤ one_if (m !! x))%nat.
Proof. intros S. destruct (m' !! x) as [a|] eqn:E; simpl; [|lia]. by rewrite (lookup_weaken _ _ _ _ E S). Qed.

Lemma one_if_delete {A} (m m' : gmap string A) y x : m' ⊆ delete y m → is_Some (m !! y) →
  (one_if (m' !! x) + (if String.eqb y x then 1 else 0) ≤ one_if (m !! x))%nat.
Proof.
  intros S [a Ha]. destruct (String.eqb_spec y x) as [<-|N].
  - pose proof (one_if_sub _ _ y S) as L. rewrite lookup_delete_eq in L. rewrite Ha. simpl in *. lia.
  - pose proof (one_if_sub _ _ x S) as L. rewrite lookup_delete_ne in L by done. lia.
Qed.

Lemma one_if_insert {A} (m m0 : gmap string A) y v x : m ⊆ m0 → (one_if (<[y:=v]> m !! x) ≤ one_if (m0 !! x) + (if String.eqb y x then 1 else 0))%nat.
Proof.
  intros S. destruct (String.eqb_spec y x) as [<-|N].
  - rewrite lookup_insert_eq. simpl. lia.
  - rewrite lookup_insert_ne by done. pose proof (one_if_sub _ _ x S). lia.
Qed.

Lemma count_snoc {A} (p : A → bool) l x : count_where p (l ++ [x]) = (count_where p l + if p x then 1 else 0)%nat.
Proof. rewrite count_where_app. unfold count_where at 2. simpl. by destruct (p x). Qed.

Lemma delete_sub {A} (m : gmap string A) y : delete y m ⊆ m.
Proof. apply delete_subseteq. Qed.

Lemma traffic_ok_step t t' : traffic_ok t → tstep t t' → traffic_ok t'.
Proof.
  intros [Rq Cd Dc Xc] (_ & c & r & E & Log). apply serve_effect in E.
  assert (∀ m, m ⊆ requests (srv t) → ∀ id ar, m !! id = Some ar → asked_for (answered t') id ar) as Rq'
    by (intros m S id ar L; rewrite Log; apply asked_for_more, Rq; by eapply lookup_weaken).
  assert (∀ m, m ⊆ codes (srv t) → ∀ code oc, m !! code = Some oc → consented (answered t') code oc) as Cd'
    by (intros m S code oc L; rewrite Log; apply consented_more, Cd; by eapply lookup_weaken).
  split; [| |intros id; rewrite Log, !count_snoc; specialize (Dc id)|intros x; rewrite Log, !count_snoc; specialize (Xc x)];
    destruct E as [c r Sr Sc Nd Nx|rnd b m Sm Er Sc|rnd id0 ns ar m uri ps L Ex Sr Sm Ec|id0 uri ps Hs Sr Sc|rnd f client r Hs Sr Sc].
  - by apply Rq'.
  - rewrite Er. intros id ar [[<- <-]|[_ L]]%lookup_insert_Some; [|by eapply Rq'].
    exists (clock t'), rnd, b. split; [|done]. rewrite Log. apply elem_of_app. right. by apply list_elem_of_singleton.
  - apply Rq'. etrans; [exact Sr|apply delete_sub].
  - apply Rq'. etrans; [exact Sr|apply delete_sub].
  - by apply Rq'.
  - by apply Cd'.
  - by apply Cd'.
  - rewrite Ec. intros code oc [[<- <-]|[_ Lc]]%lookup_insert_Some; [|by eapply Cd'].
    exists (clock t'), rnd, id0, ns, uri, ps, ar. split_and!; [|done|rewrite Log; by apply asked_for_more, Rq|done|done].
    rewrite Log. apply elem_of_app. right. by apply list_elem_of_singleton.
  - by apply Cd'.
  - apply Cd'. etrans; [exact Sc|apply delete_sub].
  - rewrite Nd. pose proof (one_if_sub _ _ id Sr). destruct (asked id _); lia.
  - rewrite Er. pose proof (one_if_insert m _ rnd (request_of (clock t') b) id Sm). unfold decided, asked in *; cbn [fst snd] in *; lia.
  - pose proof (one_if_delete _ _ id0 id Sr ltac:(eauto)). unfold decided, asked in *; cbn [fst snd] in *; lia.
  - pose proof (one_if_delete _ _ id0 id Sr Hs). unfold decided, asked in *; cbn [fst snd] in *; lia.
  - pose proof (one_if_sub _ _ id Sr). unfold decided, asked in *; cbn [fst snd] in *; lia.
  - rewrite Nx. pose proof (one_if_sub _ _ x Sc). destruct (approved x _); lia.
  - pose proof (one_if_sub _ _ x Sc). unfold exchanged, approved in *; cbn [fst snd] in *; lia.
  - rewrite Ec. pose proof (one_if_insert m _ ("wac_" ++ rnd)%string (code_of (clock t') ar ns) x Sm). unfold exchanged, approved in *; cbn [fst snd] in *; lia.
  - pose proof (one_if_sub _ _ x Sc). unfold exchanged, approved in *; cbn [fst snd] in *; lia.
  - pose proof (one_if_delete _ _ (cf_code f) x Sc Hs). unfold exchanged, approved in *; cbn [fst snd] in *; destruct r; lia.
Qed.

Lemma running_ok t : running t → traffic_ok t.
Proof.
  apply invariant_reachable; [|intros; by eapply traffic_ok_step].
  intros t0 (E1 & E2 & E3). split; rewrite ?E1, ?E2, ?E3; intros *; rewrite ?lookup_empty; try done; unfold count_where; simpl; lia.
Qed.

(** C9: no tokens without consent, and one set of tokens for one consent.  In any
    traffic, when a code is exchanged for tokens, an owner had approved, within
    the code's ten minutes, a request that the same client had made within the
    ten minutes before, for the redirect address the client now repeats and a
    challenge its verifier hashes to; the relay token is the approving owner's.
    No code is exchanged more often than it was issued, and no request is
    decided more often than it was made. *)
Theorem consent_before_tokens t rnd now f client access refresh s' :
  running t → oauthTokenFromCode seed origin rnd now f client (srv t) = (Tokens access refresh, s') →
  (∃ ta rnda id ns uri ps tb rndb b,
    (ta, Approve rnda id ns, Redirect uri ps) ∈ answered t ∧ (tb, Ask rndb b, Asked id) ∈ answered t ∧
    cf_code f = ("wac_" ++ rnda)%string ∧ now ≤ ta + oauthCodeTTL ∧ ta ≤ tb + oauthRequestTTL ∧
    az_client b = c_ID client ∧ az_redirect b = cf_redirect f ∧ pkceMatches (az_challenge b) (cf_verifier f) = true ∧
    ∃ x, x ∈ tokens (store s') ∧ t_hash x = HashToken ("wanctl_" ++ rn_token rnd) ∧ t_ns x = ns ∧ t_revoked x = None) ∧
  codes s' !! cf_code f = None ∧
  (∀ code, count_where (exchanged code) (answered t) ≤ count_where (approved code) (answered t))%nat ∧
  (∀ id, count_where (decided id) (answered t) ≤ count_where (asked id) (answered t))%nat.
Proof.
  intros R E. destruct (running_ok t R) as [_ Cd Dc Xc]. split_and!; [| |intros code; specialize (Xc code); lia|intros id; specialize (Dc id); lia].
  all: revert E; unfold oauthTokenFromCode; destruct (take_code now (cf_code f) (srv t)) as [[oc|] s0] eqn:T; [|done];
    apply take_code_spec in T as (_ & St & L & Ex & Sc); destruct (check_code origin f client oc) eqn:Ck; [intros [= -> _]; revert Ck; unfold check_code; outcomes; done|];
    unfold IssueToken; destruct (insert_token _ _ _ _ _ _) as [[id d]|] eqn:Ins; [|done];
    destruct (writeOAuthTokens _ _ _ _ _ _ _) as [r d2] eqn:Wr; intros [= -> <-].
  2: { pose proof (one_if_delete _ _ (cf_code f) (cf_code f) Sc ltac:(eauto)) as One. rewrite L in One. rewrite String.eqb_refl in One. simpl in One.
       simpl. destruct (codes s0 !! cf_code f); [simpl in One; lia|done]. }
  destruct (Cd _ _ L) as (ta & rnda & id0 & ns & uri & ps & ar & Hin & Ec & (tb & rndb & b & Hb & ->) & La & ->).
  exists ta, rnda, id0, ns, uri, ps, tb, rndb, b. unfold check_code in Ck. simpl in Ck.
  destruct (String.eqb_spec (az_client b) (c_ID client)); [simpl in Ck|done]. destruct (String.eqb_spec (cf_redirect f) (az_redirect b)); [simpl in Ck|done].
  destruct (_ && _); [done|]. destruct (pkceMatches (az_challenge b) (cf_verifier f)) eqn:Pk; [|done].
  split_and!; try done. apply insert_token_frame in Ins as (-> & -> & _). simpl in Wr.
  revert Wr. unfold writeOAuthTokens, ExtendRelayTokenHash. cbv zeta. set (live := λ t0, _ && _). destruct (_ =? 1)%nat; [simpl|done].
  destruct (SealAccess _ _ _ _ _ _ _ _) as [[a1 c1]|]; [|done]. destruct (SealGrant _ _ _ _ _ _ _ _) as [[g1 c2]|]; [|done].
  unfold PutOAuthRefresh. destruct (_ || _); [done|]. intros [= _ _ <-]. simpl.
  eexists. split; [apply elem_of_update_where; eexists; split; [apply elem_of_app; right; by apply list_elem_of_singleton|reflexivity]|].
  by destruct (live _).
Qed.
End traffic.

(** ** Witness: a client registers, asks, is approved and exchanges its code *)

Section runs.
Context `{Libraries} `{AEAD} (json_valid : string → bool) (parse : string → option url) (seed origin : string).

Definition serve_all (cs : list (Z * call)) (t : traffic) : traffic :=
  fold_left (λ t c, let a := serve json_valid parse seed origin c.1 c.2 (srv t) in Traffic c.1 a.2 (answered t ++ [(c.1, c.2, a.1)])) cs t.

Fixpoint calls_in_time (t : Z) (cs : list (Z * call)) : bool :=
  match cs with [] => true | c :: cs => (t <=? c.1) && calls_in_time c.1 cs end.

Lemma serve_all_running cs t : running json_valid parse seed origin t → calls_in_time (clock t) cs = true →
  running json_valid parse seed origin (serve_all cs t).
Proof.
  revert t. induction cs as [|c cs IH]; intros t R; simpl; [done|]. intros [L T]%andb_true_iff. apply IH; [|done].
  eapply reachable_step; [exact R|]. split; [simpl; lia|]. exists c.2. eexists. split; [apply surjective_pairing|done].
Qed.
End runs.

(** No cipher is needed to see who gets tokens. *)
Definition plain_aead : AEAD := {|
  key := unit; derive _ _ := tt; aead_seal _ _ p _ := p; aead_open _ _ c _ := Some c;
  marshal _ := "claim"; unmarshal _ := None |}.

Definition sample_parse (s : string) : option url := Some (Url "https" "app" "app" "").
Definition sample_verifier : string := "0123456789012345678901234567890123456789abc".
Definition sample_random : random := Random "tok" "j" "n" "j2" "n2" "ref".
Definition sample_form : code_form := CodeForm "wac_c1" "https://app/cb" "" sample_verifier.
Definition empty_traffic : traffic := Traffic 0 (Server ∅ ∅ ∅ empty_db) [].

Definition oauth_run : list (Z * call) :=
  [(1, Register "10.0.0.1" "id" "sec" (Registration "App" ["https://app/cb"]%string ""));
   (2, Ask "q1" (Authorize "wco_id" "https://app/cb" "code" (rawurl_encode (sha256 sample_verifier)) "S256" "st" "" ""));
   (3, Approve "c1" "q1" "u1")].
Definition sample_traffic : traffic := @serve_all ascii_libraries plain_aead (λ _, true) sample_parse "seed" "https://relay" oauth_run empty_traffic.
Definition sample_client : oauth_client :=
  OAuthClient "wco_id" (HashToken "wcs_sec") "App" ["https://app/cb"]%string "client_secret_post" 1.
Definition sample_exchange : response * server :=
  @oauthTokenFromCode plain_aead "seed" "https://relay" sample_random 4 sample_form sample_client (srv sample_traffic).
Definition access_of (r : response) : string := match r with Tokens a _ => a | _ => "" end.
Definition refresh_of (r : response) : string := match r with Tokens _ r => r | _ => "" end.

Lemma sample_exchange_ok : sample_exchange = (Tokens (access_of sample_exchange.1) (refresh_of sample_exchange.1), sample_exchange.2).
Proof. vm_compute. reflexivity. Qed.

Lemma sample_running : @running ascii_libraries plain_aead (λ _, true) sample_parse "seed" "https://relay" sample_traffic.
Proof. apply serve_all_running; [|reflexivity]. by apply reachable_init. Qed.

Lemma consent_before_tokens_witness :
  (∃ ta rnda id ns uri ps, (ta, Approve rnda id ns, Redirect uri ps) ∈ answered sample_traffic ∧ 4 ≤ ta + oauthCodeTTL) ∧
  codes sample_exchange.2 !! "wac_c1"%string = None.
Proof.
  destruct (@consent_before_tokens ascii_libraries plain_aead (λ _, true) sample_parse "seed" "https://relay" sample_traffic sample_random 4
              sample_form sample_client _ _ _ sample_running sample_exchange_ok)
    as ((ta & rnda & id & ns & uri & ps & tb & rndb & b & Hin & _ & _ & L & _) & C & _).
  split; [|exact C]. exists ta, rnda, id, ns, uri, ps. split; [exact Hin|exact L].
Defined.
