(* ===== verification/RefreshInv.v ===== *)
(** Refresh tokens: one rotation each, however requests interleave, and tokens
    that do what they were issued for. *)

From S2P Require Import Prelude GoStrings GoUtf8 GoCodec Tables Accounts McpAuth OAuth StoreOps TokenInv CredInv.

Local Open Scope Z_scope.

Section refresh.
Context `{Libraries} (json_valid : string → bool).

(** ** The rows of refresh tokens *)

Definition refreshes_ok (d : db) : Prop := NoDup (map h_Hash (refreshes d)).

(** A revoked row, by its hash. *)
Definition spent (h : string) (d : db) : Prop := ∃ r, r ∈ refreshes d ∧ h_Hash r = h ∧ is_null (h_RevokedAt r) = false.

Lemma refreshes_op now o d : refreshes_ok d → refreshes_ok (apply_op json_valid now o d).
Proof.
  intros N. destruct (writes_refreshes o) eqn:W; [|unfold refreshes_ok; by rewrite (refreshes_frame json_valid now o d W)].
  destruct o; try done; cbn [apply_op].
  - unfold PutOAuthRefresh. destruct (any _ _ || _) eqn:A; [done|]. bsplit. unfold refreshes_ok. simpl. apply NoDup_snoc; [done|].
    intros y Hy E. match goal with K : any _ _ = false |- _ => rewrite any_false in K; specialize (K y Hy); simpl in K end.
    by rewrite E, String.eqb_refl in *.
  - unfold refreshes_ok. simpl. by rewrite map_update_where.
Qed.

Lemma stored_refreshes t d : stored json_valid (t, d) → refreshes_ok d.
Proof.
  assert (∀ s, stored json_valid s → refreshes_ok s.2) as A; [|apply (A (t, d))].
  apply (invariant_reachable fresh_db (dstep json_valid)).
  - intros [t0 d0] E. unfold fresh_db in E. simpl in *. subst d0. apply NoDup_nil_2.
  - intros [t1 d1] [t' d'] I [_ [o E]]. simpl in *. subst d'. by apply refreshes_op.
Qed.

Lemma spent_op now o d h : spent h d → spent h (apply_op json_valid now o d).
Proof.
  intros (r & Hr & E & V). destruct (writes_refreshes o) eqn:W; [|unfold spent; rewrite (refreshes_frame json_valid now o d W); eauto].
  destruct o; try done; cbn [apply_op].
  - unfold PutOAuthRefresh. destruct (_ || _); [by exists r|]. exists r. split; [|done]. simpl. apply elem_of_app. by left.
  - eexists. split; [apply elem_of_update_where; by exists r|]. destruct (_ && _); done.
Qed.

Lemma spent_steps h s s' : rtc (dstep json_valid) s s' → spent h s.2 → spent h s'.2.
Proof. induction 1 as [|s1 s2 s3 [_ [o E]] _ IH]; [done|]. intros K. apply IH. rewrite E. by apply spent_op. Qed.

Lemma spent_refused now h d : refreshes_ok d → spent h d → RevokeOAuthRefresh now h d = (false, d).
Proof.
  intros N (r & Hr & E & V). unfold RevokeOAuthRefresh. set (live := λ h0, _ && is_null (h_RevokedAt h0)).
  assert (∀ x, x ∈ refreshes d → live x = false) as L.
  { intros x Hx. unfold live. destruct (String.eqb_spec (h_Hash x) h) as [Ex|]; [|done].
    assert (x = r) as -> by (eapply (unique_row h_Hash); [exact N|done..|congruence]). by rewrite V. }
  rewrite (proj2 (count_where_0 live (refreshes d))) by by apply any_false. cbn [Nat.eqb]. f_equal. unfold on_refreshes.
  rewrite update_where_id by (intros x Hx P; by rewrite L in P). by destruct d.
Qed.

Lemma revoked_spent now h d d1 : RevokeOAuthRefresh now h d = (true, d1) → spent h d1.
Proof.
  unfold RevokeOAuthRefresh. cbv zeta. set (live := λ h0, _ && is_null (h_RevokedAt h0)). intros [= C <-].
  assert (any live (refreshes d) = true) as (r & Hr & L)%any_true.
  { apply not_false_iff_true. intros F. by rewrite (proj2 (count_where_0 _ _) F) in C. }
  exists (revoke_refresh now r). split; [simpl; apply elem_of_update_where; exists r; by rewrite L|]. unfold live in L. by ssplit.
Qed.

(** C16: a refresh token rotates once.  The handler reads the row, revokes it and
    only then issues, and between its statements any other query may run.  Of all
    the requests that present one refresh token, however they interleave, at
    most one wins its revocation: after that, whatever the relay does, every
    other loses it, also one that read the row before, and a request that comes
    later is refused and changes nothing. *)
Theorem refresh_rotates_once `{AEAD} t d now row d1 t' d' :
  stored json_valid (t, d) → t ≤ now → refresh_rotate now row d = (true, d1) → rtc (dstep json_valid) (now, d1) (t', d') →
  spent (h_Hash row) d' ∧ ∀ later, (∀ row', h_Hash row' = h_Hash row → refresh_rotate later row' d' = (false, d')) ∧
    ∀ seed rnd presented client, HashToken presented = h_Hash row →
      ∃ code, oauthTokenFromRefresh seed rnd later presented client d' = (OAuthError 400 code, d').
Proof.
  intros R L E Steps. unfold refresh_rotate in *.
  assert (stored json_valid (now, d1)) as R1.
  { eapply reachable_step; [exact R|]. pose proof (dstep_op json_valid t d now (QRevokeOAuthRefresh (h_Hash row)) L) as D. cbn [apply_op] in D. by rewrite E in D. }
  assert (refreshes_ok d') as N.
  { apply (stored_refreshes t'). destruct R1 as (s0 & F & R1). exists s0. split; [done|by etrans]. }
  pose proof (spent_steps _ _ _ Steps (revoked_spent _ _ _ _ E)) as S. simpl in S. split; [done|]. intros later. split.
  - intros row' ->. by apply spent_refused.
  - intros seed rnd presented client Ep. unfold oauthTokenFromRefresh, refresh_check. destruct (String.eqb presented ""); [eauto|].
    destruct S as (r & Hr & Er & Vr). unfold OAuthRefreshOf. rewrite (find_first_unique h_Hash _ _ r).
    + rewrite Vr. simpl. eauto.
    + exact N.
    + done.
    + apply String.eqb_eq. congruence.
    + intros y ->%String.eqb_eq. congruence.
Qed.

(** ** Tokens that work *)

Context `{AEADLaws}.

Lemma ExtendRelayTokenHash_true now ns h until d d' : tokens_ok d → ExtendRelayTokenHash now ns h until d = (true, d') →
  ∃ x, x ∈ tokens d' ∧ t_hash x = h ∧ t_ns x = ns ∧ t_kind x = "access"%string ∧ t_revoked x = None ∧ t_expires x = Some until ∧
    namespaceEnabled ns d = true ∧ NoDup (map t_hash (tokens d')) ∧ users d' = users d ∧ refreshes d' = refreshes d ∧ clients d' = clients d.
Proof.
  intros Tk. unfold ExtendRelayTokenHash. cbv zeta. set (live := λ t, _ && _). intros [= C <-].
  assert (any live (tokens d) = true) as (x & Hx & L)%any_true.
  { apply not_false_iff_true. intros F. by rewrite (proj2 (count_where_0 _ _) F) in C. }
  exists (set_expires (Some until) x). split; [simpl; apply elem_of_update_where; exists x; by rewrite L|].
  assert (NoDup (map t_hash (update_where live (set_expires (Some until)) (tokens d)))) as N by (rewrite map_update_where; [apply Tk|done]).
  unfold live in L. ssplit. rewrite is_null_None in *. simpl. split_and!; try done. congruence.
Qed.

Lemma live_resolves at_ raw d x : NoDup (map t_hash (tokens d)) → x ∈ tokens d → t_hash x = HashToken raw → t_kind x = "access"%string →
  t_revoked x = None → namespaceEnabled (t_ns x) d = true → Resolve at_ raw d = if unexpired at_ (t_expires x) then Some (t_ns x) else None.
Proof.
  intros N Hx Eh K V En. destruct (unexpired at_ (t_expires x)) eqn:U.
  - apply Resolve_iff; [done|]. exists x. split_and!; try done. unfold token_live. by rewrite Eh, V, K, U, En, String.eqb_refl.
  - destruct (Resolve at_ raw d) as [o|] eqn:E; [|done]. apply Resolve_iff in E as (y & Hy & L & _); [|done]. unfold token_live in L. ssplit.
    assert (y = x) as -> by (eapply (unique_row t_hash); [exact N|done..|congruence]). congruence.
Qed.

Lemma ExtendRelayTokenHash_live now ns h until d x : NoDup (map t_hash (tokens d)) → x ∈ tokens d → t_hash x = h → t_ns x = ns →
  t_kind x = "access"%string → t_revoked x = None → unexpired now (t_expires x) = true → namespaceEnabled ns d = true →
  (ExtendRelayTokenHash now ns h until d).1 = true.
Proof.
  intros N Hx <- <- K V U En. unfold ExtendRelayTokenHash. simpl. apply Nat.eqb_eq, (count_where_unique t_hash _ _ x); [done|done| |].
  - rewrite !String.eqb_refl, K, V, U, En. done.
  - intros y _ Hy. by ssplit.
Qed.

(** With a live token, a client and a fresh refresh token, tokens are issued. *)
Lemma writeOAuthTokens_Ok seed rnd now ns raw client d :
  (ExtendRelayTokenHash now ns (HashToken raw) (now + oauthRefreshTTL) d).1 = true → ns ≠ ""%string → raw ≠ ""%string →
  any (λ k, String.eqb (h_Hash k) (HashToken ("wrt_" ++ rn_refresh rnd))) (refreshes d) = false → OAuthClientOf client d ≠ None →
  ∃ a r d1, writeOAuthTokens seed rnd now ns raw client d = (Tokens a r, d1).
Proof.
  intros Ex Nn Nr Fr Cl. unfold writeOAuthTokens, SealAccess, SealGrant, seal. cbv zeta.
  destruct (ExtendRelayTokenHash _ _ _ _ _) as [b d0] eqn:E. simpl in Ex. subst b. cbn [negb].
  rewrite (proj2 (String.eqb_neq ns "") Nn), (proj2 (String.eqb_neq raw "") Nr). cbn [orb].
  assert (refreshes d0 = refreshes d ∧ clients d0 = clients d) as [Er Ec] by (unfold ExtendRelayTokenHash in E; by injection E as _ <-).
  unfold PutOAuthRefresh. cbn [h_Hash h_ClientID]. unfold OAuthClientOf in *. rewrite Er, Ec, Fr.
  destruct (find_first _ (clients d)); [cbn [is_null orb]; eauto|done].
Qed.

(** The tokens of a successful exchange work.  The access token opens, for an
    hour, to the namespace, relay token and client it was issued for; the relay
    token resolves to the namespace for thirty days; and in that time the refresh
    token passes the checks for its client, for the same grant, and can be
    rotated into new tokens. *)
Lemma oauth_tokens_work seed t d rnd now ns raw client access refresh d1 :
  stored json_valid (t, d) →
  slen (rn_nonce rnd) = nonceSize → slen (rn_nonce2 rnd) = nonceSize → rn_jti rnd ≠ ""%string → rn_jti2 rnd ≠ ""%string →
  valid_string ns = true → valid_string raw = true → valid_string client = true →
  writeOAuthTokens seed rnd now ns raw client d = (Tokens access refresh, d1) →
  (∃ c, Namespace c = ns ∧ Token c = raw ∧ ClientID c = client ∧
    ∀ at_, OpenAccess seed access at_ = if unix (now + oauthAccessTTL) <=? unix at_ then Err Expired else Ok c) ∧
  (∀ at_, Resolve at_ raw d1 = if at_ <? now + oauthRefreshTTL then Some ns else None) ∧
  (∀ at_ cl, c_ID cl = client → unix at_ < unix (now + oauthRefreshTTL) →
    (∃ row g, refresh_check seed at_ refresh cl d1 = inr (row, g) ∧ Namespace g = ns ∧ Token g = raw) ∧
    ∀ rnd2, any (λ k, String.eqb (h_Hash k) (HashToken ("wrt_" ++ rn_refresh rnd2))) (refreshes d1) = false →
      ∃ a2 r2 d2, oauthTokenFromRefresh seed rnd2 at_ refresh cl d1 = (Tokens a2 r2, d2)).
Proof.
  intros R Hn Hn2 Hj Hj2 Vn Vt Vc. unfold writeOAuthTokens. cbv zeta. set (rt := ("wrt_" ++ rn_refresh rnd)%string).
  assert (String.eqb rt "" = false) as Nr by done. clearbody rt.
  destruct (ExtendRelayTokenHash _ _ _ _ _) as [[] d0] eqn:Ex; [simpl|done].
  apply ExtendRelayTokenHash_true in Ex as (x & Hx & Eh & En & K & V & Ee & Na & N & Eu & Er & Ec); [|by eapply stored_tokens].
  destruct (SealAccess _ _ _ _ _ _ _ _) as [[a c]|] eqn:Sa; [|done]. destruct (SealGrant _ _ _ _ _ _ _ _) as [[g cg]|] eqn:Sg; [|done].
  unfold PutOAuthRefresh. destruct (any _ _ || _) eqn:Fr; [done|]. intros [= <- <- <-]. apply orb_false_iff in Fr as [Fr Fc].
  assert (∀ at_, Resolve at_ raw (on_refreshes (λ l, l ++ [OAuthRefresh (HashToken rt) client ns g (now + oauthRefreshTTL) None]) d0)
                 = if at_ <? now + oauthRefreshTTL then Some ns else None) as Res.
  { intros at_. rewrite (live_resolves at_ raw _ x); simpl; try done; [by rewrite Ee, En|]. rewrite En. unfold namespaceEnabled. simpl. by rewrite Eu. }
  split_and!; [| |].
  - destruct (seal_opens seed AccessPrefix accessAudience _ _ _ _ _ _ _ _ _ _ now Hn Hj eq_refl eq_refl Vn Vt Vc Sa) as (_ & _ & E1 & E2 & E3 & E4).
    exists c. split_and!; try done. intros at_.
    destruct (seal_opens seed AccessPrefix accessAudience _ _ _ _ _ _ _ _ _ _ at_ Hn Hj eq_refl eq_refl Vn Vt Vc Sa) as (O & _).
    unfold OpenAccess. by rewrite O, E4.
  - exact Res.
  - intros at_ cl Ecl Un. set (row := OAuthRefresh _ client ns g _ None) in *.
    destruct (seal_opens seed GrantPrefix grantAudience _ _ _ _ _ _ _ _ _ _ at_ Hn2 Hj2 eq_refl eq_refl Vn Vt Vc Sg) as (O & _ & E1 & E2 & E3 & E4).
    assert (at_ < now + oauthRefreshTTL) as Lt.
    { apply Z.nle_gt. intros Ge. unfold unix in Un. pose proof (Z.div_le_mono _ _ second ltac:(done) Ge). lia. }
    set (d1 := on_refreshes (λ l, l ++ [row]) d0) in *.
    assert (refresh_check seed at_ rt cl d1 = inr (row, cg)) as Ck.
    { unfold refresh_check. rewrite Nr. assert (OAuthRefreshOf (HashToken rt) d1 = Some row) as ->.
      { unfold OAuthRefreshOf, d1. simpl. clear -Fr. induction (refreshes d0) as [|y l IH]; simpl.
        - by rewrite String.eqb_refl.
        - simpl in Fr. apply orb_false_iff in Fr as [Fy Fl]. rewrite Fy. by apply IH. }
      subst row. simpl. rewrite (proj2 (Z.ltb_ge _ _)) by lia. rewrite Ecl, String.eqb_refl. simpl.
      unfold OpenGrant. rewrite O, E4. rewrite (proj2 (Z.leb_gt _ _)) by lia. unfold ResolveOAuthToken. rewrite E1, E2, Res.
      rewrite (proj2 (Z.ltb_lt _ _)) by done. by rewrite bool_decide_eq_true_2. }
    split; [exists row, cg; done|]. intros rnd2 Fr2. unfold oauthTokenFromRefresh. rewrite Ck.
    destruct (refresh_rotate at_ row d1) as [b d2] eqn:Ro. unfold refresh_rotate, RevokeOAuthRefresh in Ro. cbv zeta in Ro.
    apply pair_equal_spec in Ro as [<- <-]. rewrite (proj2 (Nat.eqb_eq _ _)).
    2: { unfold d1. simpl. rewrite count_where_app. unfold count_where at 2. simpl. rewrite String.eqb_refl. simpl.
         rewrite (proj2 (count_where_0 _ _)); [done|]. apply any_false. intros y Hy. rewrite any_false in Fr. specialize (Fr y Hy).
         simpl in *. by rewrite Fr. }
    rewrite E1, E2, Ecl.
    assert (ns ≠ ""%string ∧ raw ≠ ""%string) as [Nn Nw].
    { revert Sa. unfold SealAccess, seal. destruct (String.eqb_spec ns ""), (String.eqb_spec raw ""); done. }
    apply writeOAuthTokens_Ok; [|done|done| |].
    + eapply (ExtendRelayTokenHash_live _ _ _ _ _ x); simpl; try done; [rewrite Ee; simpl; lia|]. unfold namespaceEnabled. simpl. by rewrite Eu.
    + unfold on_refreshes. cbn [refreshes]. rewrite any_update_where; [exact Fr2|]. done.
    + intros Kc. unfold OAuthClientOf in *. simpl in *. by rewrite Kc in Fc.
Qed.
End refresh.

(** ** Witnesses *)

(** A client, a token, and the tokens issued for them. *)
Definition refresh_run : list (Z * op) :=
  [(1, QRegisterOAuthClient (OAuthClient "wco_1" "" "App" [] "none" 1) 500 0 []); (2, QIssueToken "tok" "u1" "oauth:App" 30);
   (3, QPutOAuthRefresh (OAuthRefresh (HashToken "wrt_1") "wco_1" "u1" "grant" (30 * day) None))].
Definition refresh_db : db := @run_ops ascii_libraries (λ _, true) refresh_run empty_db.
Definition sample_row : oauth_refresh := OAuthRefresh (HashToken "wrt_1") "wco_1" "u1" "grant" (30 * day) None.
Definition rotated_db : db := (refresh_rotate 4 sample_row refresh_db).2.
Definition later_db : db := @apply_op ascii_libraries (λ _, true) 5 (QSetAccountDisabled "u1" true) rotated_db.

Lemma refresh_stored : @stored ascii_libraries (λ _, true) (3, refresh_db).
Proof. exact (@stored_run ascii_libraries (λ _, true) 0 refresh_run eq_refl). Qed.

Lemma sample_rotated : refresh_rotate 4 sample_row refresh_db = (true, rotated_db).
Proof. vm_compute. reflexivity. Qed.

Lemma refresh_rotates_once_witness :
  refresh_rotate 6 sample_row later_db = (false, later_db) ∧
  ∃ code, @oauthTokenFromRefresh sample_aead "seed" (Random "" "" "" "" "" "") 6 "wrt_1" (OAuthClient "wco_1" "" "App" [] "none" 1) later_db =
    (OAuthError 400 code, later_db).
Proof.
  destruct (@refresh_rotates_once ascii_libraries (λ _, true) sample_aead 3 refresh_db 4 sample_row rotated_db 5 later_db refresh_stored ltac:(discriminate)
              sample_rotated (rtc_once _ _ (@dstep_op ascii_libraries (λ _, true) 4 rotated_db 5 (QSetAccountDisabled "u1" true) ltac:(discriminate)))) as [_ AB]. destruct (AB 6) as [A B].
  split; [exact (A sample_row eq_refl)|].
  exact (B "seed"%string (Random "" "" "" "" "" "") "wrt_1"%string (OAuthClient "wco_1" "" "App" [] "none" 1) eq_refl).
Defined.

Definition issue_random : random := Random "tok" "j" "0123456789ab" "k" "abcdefghijkl" "2".

Lemma sample_issued : ∃ a r d, @writeOAuthTokens sample_aead "seed" issue_random 4 "u1" "wanctl_tok" "wco_1" refresh_db = (Tokens a r, d).
Proof.
  apply writeOAuthTokens_Ok; [vm_compute; reflexivity|discriminate|discriminate|vm_compute; reflexivity|].
  intros E. vm_compute in E. discriminate E.
Qed.

Lemma oauth_tokens_work_witness :
  ∃ a r d, @writeOAuthTokens sample_aead "seed" issue_random 4 "u1" "wanctl_tok" "wco_1" refresh_db = (Tokens a r, d) ∧
    Resolve day "wanctl_tok" d = (if day <? 4 + oauthRefreshTTL then Some "u1"%string else None) ∧
    ∃ row g, @refresh_check sample_aead "seed" day r (OAuthClient "wco_1" "" "App" [] "none" 1) d = inr (row, g).
Proof.
  destruct sample_issued as (a & r & d & E). exists a, r, d. split; [exact E|].
  destruct (@oauth_tokens_work ascii_libraries (λ _, true) sample_aead sample_laws "seed" 3 refresh_db issue_random 4 "u1" "wanctl_tok" "wco_1" a r d
              refresh_stored eq_refl eq_refl ltac:(discriminate) ltac:(discriminate) eq_refl eq_refl eq_refl E) as (_ & A & B).
  split; [exact (A day)|]. destruct (B day (OAuthClient "wco_1" "" "App" [] "none" 1) eq_refl eq_refl) as ((row & g & C & _) & _). exists row, g. exact C.
Defined.
