(* ===== verification/Contact.v ===== *)
(** [internal/relay/contact.go] and migration 012: the confirmed address of a
    signed-in identity, and the links that confirm it.

    A transaction is one definition: [IssueEmailConfirmation] runs under an
    advisory lock, and two [ConfirmEmail] of one identity cannot both commit
    with a statement of the other in between.  [now] is the start of the
    transaction, which may lie before that of one committed earlier, so no
    theorem here assumes that the clock of successive operations is ordered.
    [mail.ParseAddress] is a parameter. *)

From S2P Require Import Prelude GoStrings GoUtf8 GoCodec Session Tables Accounts McpAuth StoreOps.

Local Open Scope Z_scope.

Definition emailTokenTTL : Z := 24 * hour.
Definition emailSendsPerDay : Z := 5.
Definition emailSendWindow : Z := 24 * hour.
Definition emailAddressInterval : Z := 10 * minute.

(** ** Tables *)

(** [contact_emails] *)
Record contact := Contact { ct_provider : string; ct_subject : string; ct_address : string; ct_confirmed : option Z }.

(** [email_confirmations] *)
Record confirmation := Confirmation {
  e_ID : nat; e_hash : string; e_Provider : string; e_Subject : string; e_Login : string; e_Address : string; e_Next : string;
  e_CreatedAt : Z; e_ExpiresAt : Z; e_UsedAt : option Z; e_FailedAt : option Z }.

Record mailbook := Mailbook { contacts : list contact; links : list confirmation; next_id : nat }.

Definition on_links (f : list confirmation → list confirmation) (m : mailbook) : mailbook := Mailbook (contacts m) (f (links m)) (next_id m).

Inductive contact_error :=
| ErrAccountDisabled | ErrEmailInvalid | ErrEmailUnchanged | ErrEmailRateIdentity (retryAt : Z) | ErrEmailRateAddress (retryAt : Z)
| ErrTokenUnknown | ErrTokenUsed | ErrTokenExpired | DatabaseError.

Abbreviation answered := (result contact_error).

Section contact.
Context `{Libraries} (ParseAddress : string → option (string * string)).

(** ** Addresses *)

(** The part of [s] after its last [c]. *)
Fixpoint after_last (c : ascii) (s : string) : string :=
  match s with
  | EmptyString => ""
  | String d t => if Ascii.eqb d c && sforall (λ x, negb (Ascii.eqb x c)) t then t
                  else if sforall (λ x, negb (Ascii.eqb x c)) t then s else after_last c t
  end.

Definition contactAddress (input : string) : answered string :=
  if any is_control (runes input) then Err ErrEmailInvalid
  else
    let email := trim_space input in
    if String.eqb email "" || (254 <? slen email)%nat then Err ErrEmailInvalid
    else match ParseAddress email with
    | None => Err ErrEmailInvalid
    | Some (address, name) =>
        if negb (String.eqb address email) || negb (String.eqb name "") then Err ErrEmailInvalid
        else
          let domain := after_last "@" email in
          if negb (contains domain ".") || EqualFold domain "users.noreply.github.com" then Err ErrEmailInvalid else Ok email
    end.

Definition emailTokenHash (token : string) : string := sha256 token.
Definition newEmailToken (random : string) : string := rawurl_encode random.

(** ** Queries *)

Definition of_identity (provider subject : string) (l : confirmation) : bool :=
  String.eqb (e_Provider l) provider && String.eqb (e_Subject l) subject.

(** [used_at IS NULL AND expires_at > now()] *)
Definition live (now : Z) (l : confirmation) : bool := is_null (e_UsedAt l) && (now <? e_ExpiresAt l).

Definition contactAccountEnabled (provider subject : string) (us : list user) : answered unit :=
  match find_first (λ u, String.eqb (u_provider u) provider && String.eqb (u_subject u) subject) us with
  | None => Ok tt
  | Some u => if is_null (u_disabled u) then Ok tt else Err ErrAccountDisabled
  end.

Record contact_email := ContactEmail_ { Address : string; ConfirmedAt : option Z; PendingLink : option (string * Z) }.

Definition Confirmed (c : contact_email) : string := match ConfirmedAt c with None => "" | Some _ => Address c end.

Definition is_contact (provider subject : string) (c : contact) : bool :=
  String.eqb (ct_provider c) provider && String.eqb (ct_subject c) subject.

(** The newest live link: rows are inserted in the order of their ids. *)
Definition ContactEmail (now : Z) (provider subject : string) (us : list user) (m : mailbook) : answered contact_email :=
  match contactAccountEnabled provider subject us with
  | Err e => Err e
  | Ok _ =>
      let c := find_first (is_contact provider subject) (contacts m) in
      let l := find_first (λ l, of_identity provider subject l && live now l) (rev (links m)) in
      Ok (ContactEmail_ (match c with Some c => ct_address c | None => "" end) (match c with Some c => ct_confirmed c | None => None end)
            (option_map (λ l, (e_Address l, e_CreatedAt l)) l))
  end.

Definition in_window (now window : Z) (l : confirmation) : bool := now - window <? e_CreatedAt l.

(** [min] and [max] over the selected rows. *)
Definition oldest (l : list Z) : Z := match l with [] => 0 | x :: l => fold_left Z.min l x end.
Definition latest (l : list Z) : Z := match l with [] => 0 | x :: l => fold_left Z.max l x end.

Definition same_mailbox (address : string) (l : confirmation) : bool := String.eqb (sql_lower (e_Address l)) (sql_lower address).

Definition IssueEmailConfirmation (now : Z) (random provider subject login address next : string) (us : list user) (m : mailbook)
  : answered (confirmation * string) * mailbook :=
  match contactAccountEnabled provider subject us with
  | Err e => (Err e, m)
  | Ok _ =>
      let current := match find_first (λ c, is_contact provider subject c && negb (is_null (ct_confirmed c))) (contacts m) with
                     | Some c => ct_address c | None => ""%string end in
      if negb (String.eqb current "") && EqualFold current address then (Err ErrEmailUnchanged, m)
      else
        let sends := List.filter (λ l, of_identity provider subject l && in_window now emailSendWindow l) (links m) in
        if emailSendsPerDay <=? Z.of_nat (length sends) then (Err (ErrEmailRateIdentity (oldest (map e_CreatedAt sends) + emailSendWindow)), m)
        else
          let recent := List.filter (λ l, same_mailbox address l && is_null (e_FailedAt l) && in_window now emailAddressInterval l) (links m) in
          if negb (length recent =? 0)%nat then (Err (ErrEmailRateAddress (latest (map e_CreatedAt recent) + emailAddressInterval)), m)
          else
            let token := newEmailToken random in
            let hash := emailTokenHash token in
            if any (λ l, String.eqb (e_hash l) hash) (links m) then (Err DatabaseError, m)
            else
              let l := Confirmation (next_id m) hash provider subject login address next now (now + emailTokenTTL) None None in
              (Ok (l, token), Mailbook (contacts m) (links m ++ [l]) (S (next_id m)))
  end.

Definition expire_at (t : Z) (l : confirmation) : confirmation :=
  Confirmation (e_ID l) (e_hash l) (e_Provider l) (e_Subject l) (e_Login l) (e_Address l) (e_Next l) (e_CreatedAt l) t (e_UsedAt l) (e_FailedAt l).

Definition MarkEmailConfirmationSent (now : Z) (id : nat) (m : mailbook) : mailbook :=
  match find_first (λ n, (e_ID n =? id)%nat) (links m) with
  | None => m
  | Some n => on_links (update_where (λ o, of_identity (e_Provider n) (e_Subject n) o && negb (e_ID o =? e_ID n)%nat && live now o) (expire_at now)) m
  end.

Definition fail_at (t : Z) (l : confirmation) : confirmation :=
  Confirmation (e_ID l) (e_hash l) (e_Provider l) (e_Subject l) (e_Login l) (e_Address l) (e_Next l) (e_CreatedAt l) (Z.min (e_ExpiresAt l) t) (e_UsedAt l) (Some t).

Definition FailEmailConfirmation (now : Z) (id : nat) (m : mailbook) : mailbook :=
  on_links (update_where (λ l, (e_ID l =? id)%nat && is_null (e_UsedAt l)) (fail_at now)) m.

Definition CancelEmailConfirmations (now : Z) (provider subject : string) (us : list user) (m : mailbook) : answered unit * mailbook :=
  match contactAccountEnabled provider subject us with
  | Err e => (Err e, m)
  | Ok _ => (Ok tt, on_links (update_where (λ l, of_identity provider subject l && live now l) (expire_at now)) m)
  end.

(** The link the token stands for, and why it cannot be spent. *)
Definition emailConfirmationState (now : Z) (token : string) (m : mailbook) : option confirmation * answered unit :=
  match find_first (λ l, String.eqb (e_hash l) (emailTokenHash token)) (links m) with
  | None => (None, Err ErrTokenUnknown)
  | Some l => (Some l, if negb (is_null (e_UsedAt l)) then Err ErrTokenUsed else if e_ExpiresAt l <=? now then Err ErrTokenExpired else Ok tt)
  end.

Definition PeekEmailConfirmation := emailConfirmationState.

Definition use_at (t : Z) (l : confirmation) : confirmation :=
  Confirmation (e_ID l) (e_hash l) (e_Provider l) (e_Subject l) (e_Login l) (e_Address l) (e_Next l) (e_CreatedAt l) (e_ExpiresAt l) (Some t) (e_FailedAt l).

(** [INSERT ... ON CONFLICT (provider, subject) DO UPDATE] *)
Definition upsert_contact (provider subject address : string) (now : Z) (l : list contact) : list contact :=
  if any (is_contact provider subject) l
  then update_where (is_contact provider subject) (λ c, Contact (ct_provider c) (ct_subject c) address (Some now)) l
  else l ++ [Contact provider subject address (Some now)].

Definition ConfirmEmail (now : Z) (token : string) (m : mailbook) : answered confirmation * mailbook :=
  match emailConfirmationState now token m with
  | (_, Err e) => (Err e, m)
  | (None, _) => (Err ErrTokenUnknown, m)
  | (Some l, Ok _) =>
      let ls := update_where (λ x, (e_ID x =? e_ID l)%nat) (use_at now) (links m) in
      let cs := upsert_contact (e_Provider l) (e_Subject l) (e_Address l) now (contacts m) in
      (Ok l, Mailbook cs (update_where (λ x, of_identity (e_Provider l) (e_Subject l) x && live now x) (expire_at now) ls) (next_id m))
  end.

(** ** The relay's endpoints *)

(** What an endpoint answers: a status with an error token, the seconds of
    [Retry-After], or a value. *)
Inductive reply (A : Type) := Refused (status : Z) (token : string) (retry : option Z) | Answered (a : A).
#[global] Arguments Refused {A} status token retry.
#[global] Arguments Answered {A} a.

(** [retryAt - now] in whole seconds, toward zero, plus one. *)
Definition retry_seconds (now retryAt : Z) : option Z :=
  let secs := Z.quot (retryAt - now) second + 1 in if 0 <? secs then Some secs else None.

Definition contactError {A} (now : Z) (e : contact_error) : reply A :=
  match e with
  | ErrEmailRateIdentity at_ => Refused 429 "rate-identity" (retry_seconds now at_)
  | ErrEmailRateAddress at_ => Refused 429 "rate-address" (retry_seconds now at_)
  | ErrAccountDisabled => Refused 403 "account-disabled" None
  | ErrEmailInvalid => Refused 400 "email-invalid" None
  | ErrEmailUnchanged => Refused 409 "email-unchanged" None
  | ErrTokenUnknown => Refused 404 "token-unknown" None
  | ErrTokenUsed => Refused 410 "token-used" None
  | ErrTokenExpired => Refused 410 "token-expired" None
  | DatabaseError => Refused 500 "" None
  end.

Definition identityParams (provider subject : string) : option (string * string) :=
  let provider := ToLower (trim_space provider) in let subject := trim_space subject in
  if String.eqb provider "" || String.eqb subject "" then None else Some (provider, subject).

Record call := Call { c_secret : bool; c_store : bool; c_method : string }.

(** [requireAdminStore] and [requireMethod] around an endpoint. *)
Definition guarded {A B} (method : string) (c : call) (m : B) (k : reply A * B) : reply A * B :=
  if negb (c_secret c) then (Refused 403 "forbidden" None, m)
  else if negb (c_store c) then (Refused 503 "" None, m)
  else if negb (String.eqb (c_method c) method) then (Refused 405 "" None, m) else k.

Definition adminContactEmail (now : Z) (c : call) (provider subject : string) (us : list user) (m : mailbook) : reply contact_email * mailbook :=
  guarded "GET" c m
    (match identityParams provider subject with
     | None => Refused 400 "" None
     | Some (p, s) => match ContactEmail now p s us m with Err e => contactError now e | Ok r => Answered r end
     end, m).

Record send_body := SendBody { sb_Provider : string; sb_Subject : string; sb_Login : string; sb_Address : string; sb_Next : string }.

(** The body is [None] when it is not JSON.  The answer: id, token, address, expiry. *)
Definition adminContactEmailSend (now : Z) (random : string) (c : call) (body : option send_body) (us : list user) (m : mailbook)
  : reply (nat * string * string * Z) * mailbook :=
  guarded "POST" c m
    match body with
    | None => (Refused 400 "" None, m)
    | Some b =>
        match identityParams (sb_Provider b) (sb_Subject b) with
        | None => (Refused 400 "" None, m)
        | Some (p, s) =>
            match contactAddress (sb_Address b) with
            | Err e => (contactError now e, m)
            | Ok address =>
                let next := if String.eqb (sb_Next b) "" then "/"%string else sb_Next b in
                match IssueEmailConfirmation now random p s (trim_space (sb_Login b)) address next us m with
                | (Err e, m) => (contactError now e, m)
                | (Ok (l, token), m) => (Answered (e_ID l, token, e_Address l, e_ExpiresAt l), m)
                end
            end
        end
    end.

(** [linkID]: 0 for what is not a positive number. *)
Definition adminContactEmailSent (now : Z) (c : call) (id : nat) (m : mailbook) : reply unit * mailbook :=
  guarded "POST" c m (if (id =? 0)%nat then (Refused 400 "" None, m) else (Answered tt, MarkEmailConfirmationSent now id m)).

Definition adminContactEmailFailed (now : Z) (c : call) (id : nat) (m : mailbook) : reply unit * mailbook :=
  guarded "POST" c m (if (id =? 0)%nat then (Refused 400 "" None, m) else (Answered tt, FailEmailConfirmation now id m)).

Definition adminContactEmailCancel (now : Z) (c : call) (body : option (string * string)) (us : list user) (m : mailbook) : reply unit * mailbook :=
  guarded "POST" c m
    match body with
    | None => (Refused 400 "" None, m)
    | Some (provider, subject) =>
        match identityParams provider subject with
        | None => (Refused 400 "" None, m)
        | Some (p, s) => match CancelEmailConfirmations now p s us m with (Err e, m) => (contactError now e, m) | (Ok _, m) => (Answered tt, m) end
        end
    end.

Definition tokenBody (body : option string) : option string :=
  match body with Some t => if String.eqb (trim_space t) "" then None else Some (trim_space t) | None => None end.

(** The state of the link, the login and the address. *)
Definition adminContactEmailPeek (now : Z) (c : call) (body : option string) (m : mailbook) : reply (string * string * string) * mailbook :=
  guarded "POST" c m
    (match tokenBody body with
     | None => Refused 400 "" None
     | Some token =>
         match PeekEmailConfirmation now token m with
         | (Some l, Ok _) => Answered ("live"%string, e_Login l, e_Address l)
         | (Some l, Err ErrTokenUsed) => Answered ("used"%string, e_Login l, e_Address l)
         | (Some l, Err ErrTokenExpired) => Answered ("expired"%string, e_Login l, e_Address l)
         | (_, Err e) => contactError now e
         | (None, Ok _) => contactError now ErrTokenUnknown
         end
     end, m).

Definition adminContactEmailConfirm (now : Z) (c : call) (body : option string) (m : mailbook) : reply confirmation * mailbook :=
  guarded "POST" c m
    match tokenBody body with
    | None => (Refused 400 "" None, m)
    | Some token => match ConfirmEmail now token m with (Err e, m) => (contactError now e, m) | (Ok l, m) => (Answered l, m) end
    end.

(** ** Operations as steps *)

Inductive mail_op :=
| Issue (now : Z) (random provider subject login address next : string) (us : list user)
| Sent (now : Z) (id : nat) | Failed (now : Z) (id : nat)
| Cancel (now : Z) (provider subject : string) (us : list user)
| Confirm (now : Z) (token : string).

Definition do (o : mail_op) (m : mailbook) : mailbook :=
  match o with
  | Issue now random p s login address next us => (IssueEmailConfirmation now random p s login address next us m).2
  | Sent now id => MarkEmailConfirmationSent now id m
  | Failed now id => FailEmailConfirmation now id m
  | Cancel now p s us => (CancelEmailConfirmations now p s us m).2
  | Confirm now token => (ConfirmEmail now token m).2
  end.

Definition do_all (os : list mail_op) (m : mailbook) : mailbook := fold_left (λ m o, do o m) os m.

(** What the migration leaves: addresses known before, none confirmed. *)
Definition migrated (m : mailbook) : Prop :=
  links m = [] ∧ NoDup (map (λ c, (ct_provider c, ct_subject c)) (contacts m)) ∧ ∀ c, c ∈ contacts m → ct_confirmed c = None.

(** ** Rows keep what they were made with *)

Definition same_link (l k : confirmation) : Prop :=
  e_ID k = e_ID l ∧ e_hash k = e_hash l ∧ e_Provider k = e_Provider l ∧ e_Subject k = e_Subject l ∧ e_Address k = e_Address l ∧
  e_CreatedAt k = e_CreatedAt l ∧ e_ExpiresAt k ≤ e_ExpiresAt l ∧
  (∀ t, e_UsedAt l = Some t → k = l) ∧ (is_Some (e_FailedAt l) → is_Some (e_FailedAt k)).

Lemma same_link_refl l : same_link l l.
Proof. done. Qed.

Lemma update_same p f l : (∀ x, p x = true → same_link x (f x)) → Forall2 same_link l (update_where p f l).
Proof.
  intros S. unfold update_where. induction l as [|x l IH]; simpl; constructor; [|done]. destruct (p x) eqn:E; [by apply S|apply same_link_refl].
Qed.

Lemma expire_same now x : live now x = true → same_link x (expire_at now x).
Proof. unfold live. intros [U L]%andb_true_iff. split_and!; try done; simpl; [lia|]. intros t E. by rewrite E in U. Qed.

Lemma Issue_Err now random p s login address next us m e m' :
  IssueEmailConfirmation now random p s login address next us m = (Err e, m') → m' = m.
Proof. unfold IssueEmailConfirmation. cbv zeta. outcomes; congruence. Qed.

Lemma Issue_Ok now random p s login address next us m l token m' :
  IssueEmailConfirmation now random p s login address next us m = (Ok (l, token), m') →
  token = newEmailToken random ∧ m' = Mailbook (contacts m) (links m ++ [l]) (S (next_id m)) ∧
  l = Confirmation (next_id m) (emailTokenHash token) p s login address next now (now + emailTokenTTL) None None ∧
  Z.of_nat (count_where (λ l, of_identity p s l && in_window now emailSendWindow l) (links m)) < emailSendsPerDay ∧
  any (λ l, same_mailbox address l && is_null (e_FailedAt l) && in_window now emailAddressInterval l) (links m) = false ∧
  any (λ l, String.eqb (e_hash l) (emailTokenHash token)) (links m) = false ∧ contactAccountEnabled p s us = Ok tt.
Proof.
  unfold IssueEmailConfirmation. destruct (contactAccountEnabled _ _ _) as [[]|]; [|done]. destruct (_ && EqualFold _ _); [done|]. cbv zeta.
  destruct (Z.leb_spec emailSendsPerDay (Z.of_nat (length (List.filter (λ l, of_identity p s l && in_window now emailSendWindow l) (links m))))); [done|].
  destruct (Nat.eqb_spec (length (List.filter (λ l, same_mailbox address l && is_null (e_FailedAt l) && in_window now emailAddressInterval l) (links m))) 0) as [L|]; [cbn [negb]|done].
  destruct (any (λ l, String.eqb (e_hash l) _) (links m)) eqn:A; [done|]. intros [= <- <- <-]. split_and!; try done. by apply count_where_0.
Qed.

(** No operation changes a row but as above, and only [Issue] adds one. *)
Lemma links_do o m : match o with Confirm _ _ => False | _ => True end →
  ∃ l, Forall2 same_link (links m) l ∧ (links (do o m) = l ∨
    ∃ now random p s login address next us x token, o = Issue now random p s login address next us ∧
      IssueEmailConfirmation now random p s login address next us m = (Ok (x, token), do o m) ∧ links (do o m) = l ++ [x]).
Proof.
  assert (Forall2 same_link (links m) (links m)) as R by by apply Forall_Forall2_diag, Forall_true.
  destruct o as [now random p s login address next us|now id|now id|now p s us|now token]; intros Ok_; simpl; [| | | |done].
  - exists (links m). split; [done|]. destruct (IssueEmailConfirmation _ _ _ _ _ _ _ _ _) as [[[x token]|e] m'] eqn:E; simpl; [right|left; by apply Issue_Err in E as ->].
    eexists now, random, p, s, login, address, next, us, x, token. split; [done|]. split; [done|]. by apply Issue_Ok in E as (_ & -> & _).
  - unfold MarkEmailConfirmationSent. destruct (find_first _ _) as [n|]; [|exists (links m); split; [done|by left]].
    eexists. split; [|left; reflexivity]. apply update_same. intros x [_ L]%andb_true_iff. by apply expire_same.
  - eexists. split; [|left; reflexivity]. apply update_same. intros x [_ U]%andb_true_iff. split_and!; try done; simpl; [lia|]. intros t E. by rewrite E in U.
  - unfold CancelEmailConfirmations. destruct (contactAccountEnabled _ _ _); simpl; [|exists (links m); split; [done|by left]].
    eexists. split; [|left; reflexivity]. apply update_same. intros x [_ L]%andb_true_iff. by apply expire_same.
Qed.

#[local] Instance same_link_trans : Transitive same_link.
Proof.
  intros a b c.
  intros (I1 & H1 & P1 & S1 & A1 & C1 & E1 & U1 & F1) (I2 & H2 & P2 & S2 & A2 & C2 & E2 & U2 & F2). split_and!; try congruence; [lia| |auto].
  intros t E. specialize (U1 t E) as ->. by eapply U2.
Qed.

(** Spending a link. *)
Lemma ConfirmEmail_Err now token m e m' : ConfirmEmail now token m = (Err e, m') → m' = m.
Proof. unfold ConfirmEmail. destruct (emailConfirmationState now token m) as [[l|] [[]|e']]; congruence. Qed.

Lemma ConfirmEmail_Ok now token m l m' : ConfirmEmail now token m = (Ok l, m') →
  l ∈ links m ∧ e_hash l = emailTokenHash token ∧ e_UsedAt l = None ∧ now < e_ExpiresAt l ∧
  contacts m' = upsert_contact (e_Provider l) (e_Subject l) (e_Address l) now (contacts m) ∧ next_id m' = next_id m ∧
  links m' = update_where (λ x, of_identity (e_Provider l) (e_Subject l) x && live now x) (expire_at now)
               (update_where (λ x, (e_ID x =? e_ID l)%nat) (use_at now) (links m)).
Proof.
  unfold ConfirmEmail, emailConfirmationState. destruct (find_first _ _) as [x|] eqn:F; [|done]. apply find_first_Some in F as [Hx Ex%String.eqb_eq].
  destruct (is_null (e_UsedAt x)) eqn:U; [cbn [negb]|done]. destruct (Z.leb_spec (e_ExpiresAt x) now); [done|]. intros [= <- <-]. apply is_null_None in U. done.
Qed.

Lemma links_confirm now token m l m' : NoDup (map e_ID (links m)) → ConfirmEmail now token m = (Ok l, m') → Forall2 same_link (links m) (links m').
Proof.
  intros N E. apply ConfirmEmail_Ok in E as (Hl & _ & U & _ & _ & _ & ->). etrans; [|apply update_same].
  - unfold update_where. revert N Hl. generalize (links m). intros ls N Hl. apply Forall2_fmap_r, Forall_Forall2_diag, Forall_forall. intros x Hx. change (same_link x (if (e_ID x =? e_ID l)%nat then use_at now x else x)).
    destruct (Nat.eqb_spec (e_ID x) (e_ID l)) as [Ex|]; [|apply same_link_refl]. assert (x = l) as -> by (eapply (unique_row e_ID); done).
    split_and!; try done. intros t Et. congruence.
  - intros x [_ L]%andb_true_iff. by apply expire_same.
Qed.

(** ** What an operation history explains *)

(** Every row goes back to its [Issue]; a used one to a [Confirm] with a token of
    its hash, within a day of its making; every confirmed address to a used row. *)
Record explained (os : list mail_op) (m : mailbook) : Prop := {
  ex_ids : NoDup (map e_ID (links m));
  ex_next : ∀ l, l ∈ links m → (e_ID l < next_id m)%nat;
  ex_hashes : NoDup (map e_hash (links m));
  ex_issued : ∀ l, l ∈ links m → e_ExpiresAt l ≤ e_CreatedAt l + emailTokenTTL ∧ ∃ random login next us,
    Issue (e_CreatedAt l) random (e_Provider l) (e_Subject l) login (e_Address l) next us ∈ os ∧ e_hash l = emailTokenHash (newEmailToken random);
  ex_used : ∀ l t, l ∈ links m → e_UsedAt l = Some t → t < e_CreatedAt l + emailTokenTTL ∧ ∃ token, Confirm t token ∈ os ∧ e_hash l = emailTokenHash token;
  ex_contacts : ∀ c t, c ∈ contacts m → ct_confirmed c = Some t →
    ∃ l, l ∈ links m ∧ of_identity (ct_provider c) (ct_subject c) l = true ∧ e_Address l = ct_address c ∧ e_UsedAt l = Some t }.

Lemma migrated_explained m : migrated m → explained [] m.
Proof.
  intros (E & _ & C). split; rewrite ?E; simpl; try apply NoDup_nil_2; try (intros l Hl; by apply elem_of_nil in Hl).
  - intros l t Hl. by apply elem_of_nil in Hl. - intros c t Hc Et. rewrite C in Et by done. done.
Qed.

Lemma forall2_map_eq {B} (g : confirmation → B) l l' : (∀ a b, same_link a b → g b = g a) → Forall2 same_link l l' → map g l' = map g l.
Proof. intros G. induction 1; simpl; [done|]. f_equal; auto. Qed.

Lemma forall2_elem l l' k : Forall2 same_link l l' → k ∈ l' → ∃ x, x ∈ l ∧ same_link x k.
Proof.
  intros F Hk. apply list_elem_of_lookup in Hk as [i Hi]. destruct (Forall2_lookup_r _ _ _ _ _ F Hi) as (x & Hx & S).
  exists x. split; [by eapply list_elem_of_lookup_2|done].
Qed.

Lemma forall2_elem_l l l' x : Forall2 same_link l l' → x ∈ l → ∃ k, k ∈ l' ∧ same_link x k.
Proof.
  intros F Hk. apply list_elem_of_lookup in Hk as [i Hi]. destruct (Forall2_lookup_l _ _ _ _ _ F Hi) as (k & Hx & S).
  exists k. split; [by eapply list_elem_of_lookup_2|done].
Qed.

(** What every step makes of the rows. *)
Lemma step_rows os o m : explained os m → ∃ l, Forall2 same_link (links m) l ∧
  (links (do o m) = l ∨
   ∃ now random p s login address next us x token, o = Issue now random p s login address next us ∧
     IssueEmailConfirmation now random p s login address next us m = (Ok (x, token), do o m) ∧ links (do o m) = l ++ [x]).
Proof.
  intros I. destruct o as [now random p s login address next us|now id|now id|now p s us|now token]; try by apply links_do.
  simpl. destruct (ConfirmEmail now token m) as [[l|e] m'] eqn:E; simpl; exists (links m').
  - split; [|by left]. eapply links_confirm; [apply I|done].
  - apply ConfirmEmail_Err in E as ->. split; [by apply Forall_Forall2_diag, Forall_true|by left].
Qed.

Lemma next_do o m : (next_id m ≤ next_id (do o m))%nat.
Proof.
  destruct o as [now random p s login address next us|now id|now id|now p s us|now token]; simpl.
  - destruct (IssueEmailConfirmation _ _ _ _ _ _ _ _ _) as [[[l token]|e] m'] eqn:E; simpl; [|by apply Issue_Err in E as ->].
    apply Issue_Ok in E as (_ & -> & _). simpl. lia.
  - unfold MarkEmailConfirmationSent. by destruct (find_first _ _).
  - done.
  - unfold CancelEmailConfirmations. by destruct (contactAccountEnabled _ _ _).
  - destruct (ConfirmEmail now token m) as [[l|e] m'] eqn:E; simpl; [|by apply ConfirmEmail_Err in E as ->].
    by apply ConfirmEmail_Ok in E as (_ & _ & _ & _ & _ & -> & _).
Qed.

(** The rows a step has used: those used before, and the one it confirms. *)
Lemma used_do o m k t : k ∈ links (do o m) → e_UsedAt k = Some t → NoDup (map e_ID (links m)) →
  (∃ l, l ∈ links m ∧ k = l) ∨
  ∃ token l m', o = Confirm t token ∧ ConfirmEmail t token m = (Ok l, m') ∧ l ∈ links m ∧ same_link l k.
Proof.
  intros Hk Ut N. destruct o as [now random p s login address next us|now id|now id|now p s us|now token]; simpl in Hk.
  - left. destruct (IssueEmailConfirmation _ _ _ _ _ _ _ _ _) as [[[l token]|e] m'] eqn:E; simpl in Hk; [|apply Issue_Err in E as ->; eauto].
    apply Issue_Ok in E as (_ & -> & -> & _). simpl in Hk. apply elem_of_app in Hk as [Hk| ->%list_elem_of_singleton]; [eauto|done].
  - left. unfold MarkEmailConfirmationSent in Hk. destruct (find_first _ _) as [n|]; [|eauto]. simpl in Hk.
    apply elem_of_update_where in Hk as (x & Hx & ->). exists x. split; [done|]. case_match eqn:C; [|done]. apply andb_true_iff in C as [_ [U _]%andb_true_iff].
    apply is_null_None in U. simpl in Ut. congruence.
  - left. apply elem_of_update_where in Hk as (x & Hx & ->). exists x. split; [done|]. case_match eqn:C; [|done]. apply andb_true_iff in C as [_ U].
    apply is_null_None in U. simpl in Ut. congruence.
  - left. unfold CancelEmailConfirmations in Hk. destruct (contactAccountEnabled _ _ _); simpl in Hk; [|eauto].
    apply elem_of_update_where in Hk as (x & Hx & ->). exists x. split; [done|]. case_match eqn:C; [|done]. apply andb_true_iff in C as [_ [U _]%andb_true_iff].
    apply is_null_None in U. simpl in Ut. congruence.
  - destruct (ConfirmEmail now token m) as [[l|e] m'] eqn:E; simpl in Hk; [|apply ConfirmEmail_Err in E as ->; left; eauto].
    pose proof (ConfirmEmail_Ok _ _ _ _ _ E) as (Hl & _ & Un & _ & _ & _ & El). pose proof (links_confirm _ _ _ _ _ N E) as F.
    rewrite El in Hk. apply elem_of_update_where in Hk as (y & Hy & Ek). apply elem_of_update_where in Hy as (x & Hx & Ey).
    destruct (Nat.eqb_spec (e_ID x) (e_ID l)) as [Ex|Nx].
    + assert (x = l) as -> by (eapply (unique_row e_ID); done). right. subst y. unfold live in Ek. cbn [use_at e_UsedAt is_null andb] in Ek. rewrite andb_false_r in Ek. subst k.
      simpl in Ut. injection Ut as <-. exists token, l, m'. split; [done|]. split; [exact E|]. split; [done|]. split_and!; try done. all: simpl; intros; congruence.
    + left. subst y. exists x. split; [done|]. destruct (_ && live now x) eqn:C; [|done]. apply andb_true_iff in C as [_ [U _]%andb_true_iff].
      apply is_null_None in U. subst k. simpl in Ut. congruence.
Qed.

(** Only a confirmation writes an address. *)
Lemma contacts_do o m c t : c ∈ contacts (do o m) → ct_confirmed c = Some t →
  c ∈ contacts m ∨ ∃ token l m', o = Confirm t token ∧ ConfirmEmail t token m = (Ok l, m') ∧
    ct_provider c = e_Provider l ∧ ct_subject c = e_Subject l ∧ ct_address c = e_Address l.
Proof.
  intros Hc Et. destruct o as [now r p s lg ad nx us|now id|now id|now p s us|now tok]; simpl in Hc.
  - left. destruct (IssueEmailConfirmation _ _ _ _ _ _ _ _ _) as [[[x tok]|e] m'] eqn:E; simpl in Hc; [|by apply Issue_Err in E as ->]. by apply Issue_Ok in E as (_ & -> & _).
  - left. unfold MarkEmailConfirmationSent in Hc. by destruct (find_first _ _).
  - by left.
  - left. unfold CancelEmailConfirmations in Hc. by destruct (contactAccountEnabled _ _ _).
  - destruct (ConfirmEmail now tok m) as [[x|e] m'] eqn:E; simpl in Hc; [|apply ConfirmEmail_Err in E as ->; by left].
    pose proof (ConfirmEmail_Ok _ _ _ _ _ E) as (_ & _ & _ & _ & Ec & _). rewrite Ec in Hc. unfold upsert_contact in Hc. destruct (any _ _).
    + apply elem_of_update_where in Hc as (c0 & Hc0 & ->). destruct (is_contact _ _ c0) eqn:Ic; [|by left]. unfold is_contact in Ic. ssplit. simpl in *.
      right. injection Et as <-. exists tok, x, m'. split_and!; try done; congruence.
    + apply elem_of_app in Hc as [Hc| ->%list_elem_of_singleton]; [by left|]. simpl in Et. injection Et as <-. right. exists tok, x, m'. done.
Qed.

(** The row a confirmation leaves used. *)
Lemma confirmed_row now token m l m' : ConfirmEmail now token m = (Ok l, m') → use_at now l ∈ links m'.
Proof.
  intros E. pose proof (ConfirmEmail_Ok _ _ _ _ _ E) as (Hx & _ & Un & _ & _ & _ & ->). apply elem_of_update_where. exists (use_at now l).
  split; [|unfold live; simpl; by rewrite andb_false_r]. apply elem_of_update_where. exists l. split; [done|]. by rewrite Nat.eqb_refl.
Qed.

Lemma rows_unique_do os o m : explained os m →
  NoDup (map e_ID (links (do o m))) ∧ (∀ l, l ∈ links (do o m) → (e_ID l < next_id (do o m))%nat) ∧ NoDup (map e_hash (links (do o m))).
Proof.
  intros I. pose proof I as [I1 I2 I3 _ _ _]. destruct (step_rows os o m I) as (l & F & El). pose proof (next_do o m) as Nx.
  assert (NoDup (map e_ID l)) as Ni by by erewrite forall2_map_eq; [exact I1|by intros a b (? & _)|done].
  assert (NoDup (map e_hash l)) as Nh by by erewrite forall2_map_eq; [exact I3|by intros a b (_ & ? & _)|done].
  assert (∀ k, k ∈ l → (e_ID k < next_id m)%nat) as Lt by (intros k Hk; destruct (forall2_elem _ _ _ F Hk) as (x & Hx & (-> & _)); by apply I2).
  destruct El as [->|(now & r & p & s & lg & ad & nx & us & x & tok & _ & E & ->)].
  { split_and!; [done| |done]. intros k Hk. specialize (Lt k Hk). lia. }
  apply Issue_Ok in E as (_ & -> & -> & _ & _ & A & _). simpl. split_and!.
  - apply NoDup_snoc; [done|]. intros y Hy. specialize (Lt y Hy). simpl. lia.
  - intros k [Hk| ->%list_elem_of_singleton]%elem_of_app; [specialize (Lt k Hk); lia|simpl; lia].
  - apply NoDup_snoc; [done|]. intros y Hy. destruct (forall2_elem _ _ _ F Hy) as (x & Hx & (_ & -> & _)). rewrite any_false in A.
    specialize (A x Hx). by apply String.eqb_neq in A.
Qed.

Lemma explained_do os o m : explained os m → explained (os ++ [o]) (do o m).
Proof.
  intros I. pose proof I as [I1 I2 I3 I4 I5 I6]. destruct (step_rows os o m I) as (l & F & El). destruct (rows_unique_do os o m I) as (U1 & U2 & U3).
  assert (∀ k, k ∈ l → e_ExpiresAt k ≤ e_CreatedAt k + emailTokenTTL ∧ ∃ random login next us,
    Issue (e_CreatedAt k) random (e_Provider k) (e_Subject k) login (e_Address k) next us ∈ os ++ [o] ∧ e_hash k = emailTokenHash (newEmailToken random)) as Iss.
  { intros k Hk. destruct (forall2_elem _ _ _ F Hk) as (x & Hx & (_ & Sh & Sp & Ss & Sa & Sc & Se & _)). destruct (I4 x Hx) as (Ex & r & lg & nx & us & Ho & Hh).
    split; [lia|]. exists r, lg, nx, us. rewrite Sp, Ss, Sa, Sc, Sh. split; [apply elem_of_app; by left|done]. }
  split; try done.
  - destruct El as [->|(now & r & p & s & lg & ad & nx & us & x & tok & -> & E & ->)]; [exact Iss|].
    intros k [Hk| ->%list_elem_of_singleton]%elem_of_app; [by apply Iss|]. apply Issue_Ok in E as (-> & _ & -> & _). simpl. split; [lia|].
    exists r, lg, nx, us. split; [|done]. apply elem_of_app. right. by apply list_elem_of_singleton.
  - intros k t Hk Ut. destruct (used_do o m k t Hk Ut I1) as [(x & Hx & ->)|(tok & x & m' & -> & E & Hx & S)].
    + destruct (I5 x t Hx Ut) as (Lx & tok & Ho & Hh). split; [done|]. exists tok. split; [apply elem_of_app; by left|done].
    + apply ConfirmEmail_Ok in E as (_ & Hh & _ & Le & _). destruct S as (_ & Sh & _ & _ & _ & Sc & _). destruct (I4 x Hx) as [Ex _]. split; [lia|].
      exists tok. rewrite Sh. split; [apply elem_of_app; right; by apply list_elem_of_singleton|done].
  - intros c t Hc Et. destruct (contacts_do o m c t Hc Et) as [Hc'|(tok & x & m' & -> & E & Ep & Es & Ea)].
    + destruct (I6 c t Hc' Et) as (x & Hx & Ox & Ax & Ut). destruct (forall2_elem_l _ _ _ F Hx) as (k & Hk & S).
      destruct S as (_ & _ & _ & _ & _ & _ & _ & Su & _). specialize (Su t Ut) as ->. exists x. split; [|done].
      destruct El as [->|(? & ? & ? & ? & ? & ? & ? & ? & ? & ? & _ & _ & ->)]; [done|]. apply elem_of_app. by left.
    + simpl. rewrite E. exists (use_at t x). split; [by eapply confirmed_row|]. unfold of_identity. simpl. by rewrite Ep, Es, !String.eqb_refl.
Qed.

Lemma explained_all os m : migrated m → explained os (do_all os m).
Proof.
  intros M. induction os as [|o os IH] using rev_ind; [by apply migrated_explained|]. unfold do_all. rewrite fold_left_app. by apply explained_do.
Qed.

(** C22: an address is confirmed only by whoever reads its mail.  Whatever the
    endpoints are called with, each confirmed address of an identity was given
    for that identity and confirmed with the token of a link that was minted for
    it, to be mailed to this very address, less than a day before; the link is
    used. *)
Theorem contact_was_confirmed os m0 c t : migrated m0 → c ∈ contacts (do_all os m0) → ct_confirmed c = Some t →
  ∃ made random login next us token,
    Issue made random (ct_provider c) (ct_subject c) login (ct_address c) next us ∈ os ∧ Confirm t token ∈ os ∧
    emailTokenHash token = emailTokenHash (newEmailToken random) ∧ t < made + emailTokenTTL ∧
    ∃ l, l ∈ links (do_all os m0) ∧ e_hash l = emailTokenHash token ∧ e_UsedAt l = Some t.
Proof.
  intros M Hc Et. destruct (explained_all os m0 M) as [_ _ _ I4 I5 I6]. destruct (I6 c t Hc Et) as (l & Hl & Ol & Al & Ul).
  destruct (I4 l Hl) as (_ & r & lg & nx & us & Hi & Hh). destruct (I5 l t Hl Ul) as (Lt & tok & Hc' & Ht). unfold of_identity in Ol. ssplit.
  exists (e_CreatedAt l), r, lg, nx, us, tok. rewrite <- Al. split_and!; [congruence|done|congruence|done|]. by exists l.
Qed.

(** ** A link is spent once *)

Lemma used_kept os o m l t : explained os m → l ∈ links m → e_UsedAt l = Some t → l ∈ links (do o m).
Proof.
  intros I Hl Ut. destruct (step_rows os o m I) as (ls & F & El). destruct (forall2_elem_l _ _ _ F Hl) as (k & Hk & S).
  destruct S as (_ & _ & _ & _ & _ & _ & _ & Su & _). specialize (Su t Ut) as ->.
  destruct El as [->|(? & ? & ? & ? & ? & ? & ? & ? & ? & ? & _ & _ & ->)]; [done|]. apply elem_of_app. by left.
Qed.

Lemma used_kept_all os os' m l t : explained os m → l ∈ links m → e_UsedAt l = Some t → l ∈ links (do_all os' m) ∧ explained (os ++ os') (do_all os' m).
Proof.
  intros I Hl Ut. induction os' as [|o os' IH] using rev_ind; [by rewrite app_nil_r|]. destruct IH as [IH1 IH2]. unfold do_all in *. rewrite fold_left_app. simpl.
  rewrite app_assoc. split; [by eapply used_kept|by apply explained_do].
Qed.

(** A link is spent once.  When a token confirmed an address, no later use of
    it succeeds, whatever happens in between: the answer is that it was used.  And
    the other links of the identity are dead from then on: at that moment or later
    none of them can be spent, so that no older mail switches the address back. *)
Lemma link_spent_once os m0 now token l m' :
  migrated m0 → ConfirmEmail now token (do_all os m0) = (Ok l, m') →
  (∀ os' now', ConfirmEmail now' token (do_all os' m') = (Err ErrTokenUsed, do_all os' m')) ∧
  ∀ k now', k ∈ links m' → of_identity (e_Provider l) (e_Subject l) k = true → now ≤ now' → live now' k = false.
Proof.
  intros M E. pose proof (explained_all os m0 M) as I. pose proof (explained_do os (Confirm now token) _ I) as I'. simpl in I'. rewrite E in I'. simpl in I'.
  pose proof (confirmed_row _ _ _ _ _ E) as Hu. split.
  - intros os' now'. destruct (used_kept_all _ os' m' _ now I' Hu eq_refl) as [Hl I2]. apply ConfirmEmail_Ok in E as (_ & Hh & _).
    unfold ConfirmEmail, emailConfirmationState. rewrite (find_first_unique e_hash _ _ (use_at now l)); [done|apply I2|done|simpl; by apply String.eqb_eq|].
    intros y Hy. ssplit. simpl. congruence.
  - intros k now' Hk Ik L. apply ConfirmEmail_Ok in E as (_ & _ & _ & _ & _ & _ & El). rewrite El in Hk. apply elem_of_update_where in Hk as (y & Hy & ->).
    destruct (of_identity _ _ y && live now y) eqn:C; [unfold live; simpl; rewrite (proj2 (Z.ltb_ge _ _)) by lia; by rewrite andb_false_r|].
    rewrite Ik in C. simpl in C. unfold live in *. destruct (is_null (e_UsedAt y)); [simpl in *|done]. apply Z.ltb_ge in C. apply Z.ltb_ge. lia.
Qed.

(** ** The limits *)

Definition sends_ok (ls : list confirmation) : Prop := ∀ l1 x l2, ls = l1 ++ x :: l2 →
  Z.of_nat (count_where (λ y, of_identity (e_Provider x) (e_Subject x) y && in_window (e_CreatedAt x) emailSendWindow y) l1) < emailSendsPerDay.

(** Mail to one mailbox: earlier rows that were not refused are ten minutes older. *)
Definition spaced (ls : list confirmation) : Prop := ∀ l1 y l2 x l3, ls = l1 ++ y :: l2 ++ x :: l3 →
  same_mailbox (e_Address x) y = true → e_FailedAt y = None → e_CreatedAt y ≤ e_CreatedAt x - emailAddressInterval.

Lemma count_same p l l' : (∀ a b, same_link a b → p b = p a) → Forall2 same_link l l' → count_where p l' = count_where p l.
Proof. intros E. unfold count_where. induction 1 as [|a b l l' S _ IH]; simpl; [done|]. rewrite (E a b S). destruct (p a); simpl; congruence. Qed.

Lemma sends_same ls ls' : Forall2 same_link ls ls' → sends_ok ls → sends_ok ls'.
Proof.
  intros F S l1 x l2 ->. apply Forall2_app_inv_r in F as (k1 & k2 & F1 & F2 & ->). apply Forall2_cons_inv_r in F2 as (y & k3 & Y & _ & ->).
  specialize (S k1 y k3 eq_refl). destruct Y as (_ & _ & -> & -> & _ & -> & _). erewrite (count_same _ k1 l1); [exact S| |done].
  intros a b (_ & _ & Ep & Es & _ & Ec & _). unfold of_identity, in_window. by rewrite Ep, Es, Ec.
Qed.

Lemma spaced_same ls ls' : Forall2 same_link ls ls' → spaced ls → spaced ls'.
Proof.
  intros F S l1 y l2 x l3 ->. apply Forall2_app_inv_r in F as (k1 & k2 & _ & F2 & ->). apply Forall2_cons_inv_r in F2 as (y' & k3 & Y & F3 & ->).
  apply Forall2_app_inv_r in F3 as (k4 & k5 & _ & F4 & ->). apply Forall2_cons_inv_r in F4 as (x' & k6 & X & _ & ->). specialize (S k1 y' k4 x' k6 eq_refl).
  destruct Y as (_ & _ & _ & _ & Ay & Cy & _ & _ & Fy). destruct X as (_ & _ & _ & _ & Ax & Cx & _). unfold same_mailbox in *. rewrite Ax, Ay, Cx, Cy. intros Sm Fn.
  apply S; [done|]. destruct (e_FailedAt y') eqn:Ef; [|done]. destruct (Fy (mk_is_Some _ _ eq_refl)) as [? E]. congruence.
Qed.

Lemma limits_all os m0 : migrated m0 → sends_ok (links (do_all os m0)) ∧ spaced (links (do_all os m0)).
Proof.
  intros M. induction os as [|o os [S1 S2]] using rev_ind.
  { destruct M as (E & _). unfold do_all. simpl. rewrite E. split; [by intros [] ? ?|by intros [] ? ? ? ?]. }
  pose proof (explained_all os m0 M) as I. unfold do_all in *. rewrite fold_left_app. simpl. set (m := fold_left _ os m0) in *.
  destruct (step_rows os o m I) as (l & F & El). apply (sends_same _ _ F) in S1. apply (spaced_same _ _ F) in S2.
  destruct El as [->|(now & r & p & s & lg & ad & nx & us & x & tok & _ & E & El)]; [done|]. apply Issue_Ok in E as (_ & Ed & Ex & Ct & Sp & _).
  rewrite Ed in El. simpl in El. apply app_inj_tail in El as [<- _]. rewrite Ed. cbn [links]. split.
  - intros l1 y l2 Ey. destruct l2 as [|z l2 _] using rev_ind.
    + apply app_inj_tail in Ey as [<- <-]. rewrite Ex. exact Ct.
    + rewrite app_comm_cons, app_assoc in Ey. apply app_inj_tail in Ey as [Ey _]. by eapply S1.
  - intros l1 y l2 z l3 Ey. destruct l3 as [|u l3 _] using rev_ind.
    + assert (l1 ++ y :: l2 ++ [z] = (l1 ++ y :: l2) ++ [z]) as R by by list_simplifier. rewrite R in Ey. apply app_inj_tail in Ey as [Ey <-]. rewrite any_false in Sp. specialize (Sp y).
      rewrite Ex. simpl. intros Sm Fn. rewrite Sm, Fn in Sp. simpl in Sp. unfold in_window in Sp. apply Z.ltb_ge, Sp. rewrite Ey. apply elem_of_app. right. left.
    + assert (l1 ++ y :: l2 ++ z :: l3 ++ [u] = (l1 ++ y :: l2 ++ z :: l3) ++ [u]) as R by by list_simplifier.
      rewrite R in Ey. apply app_inj_tail in Ey as [Ey _]. by eapply S2.
Qed.

Lemma window_count provider subject t ls : sends_ok ls →
  Z.of_nat (count_where (λ y, of_identity provider subject y && ((t - emailSendWindow <? e_CreatedAt y) && (e_CreatedAt y <=? t))) ls) ≤ emailSendsPerDay.
Proof.
  induction ls as [|x ls IH] using rev_ind; [done|]. intros S. rewrite count_where_app.
  assert (sends_ok ls) as S' by (intros l1 y l2 E; apply (S l1 y (l2 ++ [x])); by rewrite E, <- app_assoc).
  unfold count_where at 2. simpl. destruct (of_identity provider subject x && _) eqn:C; simpl; [|specialize (IH S'); lia].
  apply andb_true_iff in C as [Ox [Lo Hi]%andb_true_iff]. specialize (S ls x [] eq_refl). unfold of_identity in Ox. ssplit.
  match goal with |- Z.of_nat (count_where ?f ls + 1) ≤ _ => assert (count_where f ls ≤ count_where (λ y, of_identity (e_Provider x) (e_Subject x) y && in_window (e_CreatedAt x) emailSendWindow y) ls)%nat as L end.
  { unfold count_where. clear - Lo Hi H0 H1. induction ls as [|y ls IH]; simpl; [done|]. destruct (of_identity provider subject y && _) eqn:C.
    - apply andb_true_iff in C as [Oy [Ly _]%andb_true_iff]. assert (of_identity (e_Provider x) (e_Subject x) y && in_window (e_CreatedAt x) emailSendWindow y = true) as ->; [|simpl; lia].
      apply andb_true_iff. split; [congruence|]. unfold in_window. lia.
    - destruct (_ && in_window _ _ y); simpl; lia. }
  lia.
Qed.

(** Mail is limited, whatever the clocks.  No identity has more than five
    links made within any 24 hours; and of two links mailed to the same mailbox,
    whoever asked for them, neither refused by the mail server, the later-made was
    made ten minutes after the other or more. *)
Lemma confirmations_limited os m0 : migrated m0 → let ls := links (do_all os m0) in
  (∀ provider subject t,
    Z.of_nat (count_where (λ y, of_identity provider subject y && ((t - emailSendWindow <? e_CreatedAt y) && (e_CreatedAt y <=? t))) ls) ≤ emailSendsPerDay) ∧
  ∀ l1 y l2 x l3, ls = l1 ++ y :: l2 ++ x :: l3 → sql_lower (e_Address y) = sql_lower (e_Address x) → e_FailedAt y = None →
    e_CreatedAt y + emailAddressInterval ≤ e_CreatedAt x.
Proof.
  intros M ls. destruct (limits_all os m0 M) as [S1 S2]. split; [intros; by apply window_count|].
  intros l1 y l2 x l3 E Eq Fn. specialize (S2 l1 y l2 x l3 E). assert (same_mailbox (e_Address x) y = true) as Sm by (unfold same_mailbox; rewrite Eq; apply String.eqb_refl).
  specialize (S2 Sm Fn). lia.
Qed.
End contact.

(** ** Evaluations *)

Module Demo.

Definition empty : mailbook := Mailbook [Contact "github" "7" "old@example.com" None] [] 1.
Abbreviation run os := (@do_all ascii_libraries os empty).

Lemma empty_migrated : migrated empty.
Proof. split; [done|]. split; [repeat constructor; by intros ?%elem_of_nil|]. by intros c ->%list_elem_of_singleton. Qed.

Definition ask (now : Z) (random address : string) : mail_op := Issue now random "github" "7" "ada" address "/" [].
Definition token_of (random : string) : string := newEmailToken random.

(** One address given, its mail sent, its link used; then another. *)
Definition story : list mail_op :=
  [ask 1 "r1" "ada@example.com"; Sent 2 1; Confirm 3 (token_of "r1"); ask minute "r2" "ada@example.org"; Sent (2 * minute) 2].

Lemma contact_was_confirmed_witness : ∃ c, contacts (run story) = [c] ∧ ct_confirmed c = Some 3 ∧ ∃ token, Confirm 3 token ∈ story.
Proof.
  exists (Contact "github" "7" "ada@example.com" (Some 3)). assert (contacts (run story) = [Contact "github" "7" "ada@example.com" (Some 3)]) as E by (vm_compute; reflexivity).
  split; [exact E|]. split; [reflexivity|].
  destruct (@contact_was_confirmed ascii_libraries story empty (Contact "github" "7" "ada@example.com" (Some 3)) 3 empty_migrated) as (made & r & lg & nx & us & tok & _ & Hc & _).
  - rewrite E. apply list_elem_of_singleton. reflexivity.
  - reflexivity.
  - exists tok. exact Hc.
Defined.

Definition answer : answered confirmation * mailbook := ConfirmEmail (3 * minute) (token_of "r2") (run story).
Definition spent : confirmation := match answer.1 with Ok l => l | Err _ => Confirmation 0 "" "" "" "" "" "" 0 0 None None end.

Lemma link_spent_once_witness : (ConfirmEmail day (token_of "r2") answer.2).1 = Err ErrTokenUsed ∧ ∀ k, k ∈ links answer.2 → live (3 * minute) k = false.
Proof.
  assert (ConfirmEmail (3 * minute) (token_of "r2") (run story) = (Ok spent, answer.2)) as E by (vm_compute; reflexivity).
  destruct (@link_spent_once ascii_libraries story empty (3 * minute) (token_of "r2") spent answer.2 empty_migrated E) as [A B].
  split; [exact (f_equal fst (A [] day))|]. intros k Hk. apply (B k); [exact Hk| |reflexivity].
  assert (∀ x, x ∈ links answer.2 → of_identity (e_Provider spent) (e_Subject spent) x = true) as I; [|exact (I k Hk)].
  apply Forall_forall. vm_compute. repeat constructor.
Defined.

Lemma confirmations_limited_witness : Z.of_nat (count_where (of_identity "github" "7") (links (run story))) = 2 ∧
  Z.of_nat (count_where (λ y, of_identity "github" "7" y && ((day - emailSendWindow <? e_CreatedAt y) && (e_CreatedAt y <=? day))) (links (run story))) ≤ emailSendsPerDay.
Proof.
  split; [vm_compute; reflexivity|]. destruct (@confirmations_limited ascii_libraries story empty empty_migrated) as [A _]. exact (A "github"%string "7"%string day).
Defined.

(** Two addresses, the second a correction of the first; the mail to the first
    takes longer.  Its delivery kills the newer link, which is in the inbox. *)
Lemma late_mail_kills_newer :
  let m := run [ask 1 "r1" "ada@exmaple.com"; ask 2 "r2" "ada@example.com"; Sent 3 2; Sent 4 1] in
  ConfirmEmail 5 (token_of "r2") m = (Err ErrTokenExpired, m) ∧ ConfirmEmail 5 (token_of "r1") m = (Err ErrTokenExpired, m).
Proof. vm_compute. done. Qed.

End Demo.
