(* ===== verification/Enroll.v ===== *)
(** [internal/relay/enroll.go]: enrolling a device with a one-time code.

    The portal mints a code for the namespace of whoever signed in; the device
    exchanges it for a token, which is only issued then.  The exchange takes the
    code under the lock, then looks at the clock again and runs a query: two
    steps between which other requests run. *)

From S2P Require Import Prelude GoStrings GoUtf8 GoCodec Session Trust Tables Accounts McpAuth.

Local Open Scope Z_scope.

Definition enrollCodeTTL : Z := 5 * minute.

Record enrollCode := EnrollCode { ec_namespace : string; ec_portalFP : string; ec_expires : Z }.

Definition alphabet : string := "ABCDEFGHJKLMNPQRSTUVWXYZ23456789".

Definition code_char (c : ascii) : ascii := default "A"%char (sget (Z.to_nat (byte_val c mod 32)) alphabet).

(** Of the eight random bytes. *)
Definition newEnrollCode (random : string) : string := (smap code_char (stake 4 random) ++ "-" ++ smap code_char (sdrop 4 random))%string.

Inductive mint_error := NamespaceRequired | InvalidPortalFP.

(** A body that is not JSON leaves both fields empty. *)
Definition parseMintBody (ns portalFP : string) : result mint_error (string * string) :=
  if String.eqb ns "" then Err NamespaceRequired
  else if negb (String.eqb portalFP "") && negb (ValidFingerprint portalFP) then Err InvalidPortalFP
  else Ok (ns, portalFP).

Abbreviation codes := (gmap string enrollCode).

(** [now.After(v.expires)] *)
Definition purgeEnrollLocked (now : Z) (m : codes) : codes := filter (λ kv, ¬ (ec_expires kv.2 < now)) m.

Inductive answer :=
| HttpError (status : Z)
| MintRefused (e : mint_error)
| Minted (code : string) (expires_in : Z)
| Enrolled (token ns portalFP : string).

(** [now] is read by the purge, [made] for the expiry. *)
Definition handleEnrollMint (admin store : bool) (now made : Z) (random ns portalFP : string) (m : codes) : answer * codes :=
  if negb admin then (HttpError 403, m)
  else if negb store then (HttpError 503, m)
  else match parseMintBody ns portalFP with
  | Err e => (MintRefused e, m)
  | Ok (ns, fp) =>
      let code := newEnrollCode random in
      (Minted code (Z.quot enrollCodeTTL second), <[code := EnrollCode ns fp (made + enrollCodeTTL)]> (purgeEnrollLocked now m))
  end.

(** The exchange, up to the unlock. *)
Definition take_code (now : Z) (code : string) (m : codes) : option enrollCode * codes :=
  let m := purgeEnrollLocked now m in (m !! code, delete code m).

(** And after it. *)
Definition redeem (store : bool) (now : Z) (rnd : string) (ec : option enrollCode) (d : db) : answer * db :=
  match ec with
  | None => (HttpError 401, d)
  | Some ec =>
      if ec_expires ec <? now then (HttpError 401, d)
      else if negb store then (HttpError 503, d)
      else match IssueToken now rnd (ec_namespace ec) "device-enroll" 0 d with
      | (Ok token, d) => (Enrolled token (ec_namespace ec) (ec_portalFP ec), d)
      | (Err _, d) => (HttpError 500, d)
      end
  end.

(** With an empty code nothing is looked up. *)
Definition handleEnrollExchange (store : bool) (now later : Z) (rnd code : string) (m : codes) (d : db) : answer * codes * db :=
  if String.eqb code "" then (HttpError 400, m, d)
  else let '(ec, m) := take_code now code m in let '(a, d) := redeem store later rnd ec d in (a, m, d).

(** ** Enrollments of many devices at once *)

(** The table, the exchanges between their two steps, and what was minted and
    issued so far, each with its code, namespace and time. *)
Record desk := Desk { d_codes : codes; d_taken : list (string * enrollCode); d_minted : list (string * string * Z); d_issued : list (string * string * Z) }.

Definition start : desk := Desk ∅ [] [] [].

Inductive dstep : relation desk :=
| DMint now made random ns fp m taken minted issued code ttl m' :
    handleEnrollMint true true now made random ns fp m = (Minted code ttl, m') →
    dstep (Desk m taken minted issued) (Desk m' taken (minted ++ [(code, ns, made)]) issued)
| DTake now code m taken minted issued ec m' : code ≠ ""%string → take_code now code m = (Some ec, m') →
    dstep (Desk m taken minted issued) (Desk m' (taken ++ [(code, ec)]) minted issued)
| DMiss now code m taken minted issued m' : code ≠ ""%string → take_code now code m = (None, m') →
    dstep (Desk m taken minted issued) (Desk m' taken minted issued)
| DRedeem now rnd m l1 code ec l2 minted issued d token ns fp d' : redeem true now rnd (Some ec) d = (Enrolled token ns fp, d') →
    dstep (Desk m (l1 ++ (code, ec) :: l2) minted issued) (Desk m (l1 ++ l2) minted (issued ++ [(code, ns, now)]))
| DRefuse now rnd m l1 code ec l2 minted issued d st d' : redeem true now rnd (Some ec) d = (HttpError st, d') →
    dstep (Desk m (l1 ++ (code, ec) :: l2) minted issued) (Desk m (l1 ++ l2) minted issued)
| DRestart m taken minted issued : dstep (Desk m taken minted issued) (Desk ∅ [] minted issued).

Definition of_code {A B} (c : string) (x : string * A * B) : bool := String.eqb x.1.1 c.
Definition held {A} (c : string) (x : string * A) : bool := String.eqb x.1 c.

(** A code in the table or between the steps was minted for its namespace, with
    its expiry. *)
Definition from_mint (minted : list (string * string * Z)) (c : string) (ec : enrollCode) : Prop :=
  ∃ made, (c, ec_namespace ec, made) ∈ minted ∧ ec_expires ec = made + enrollCodeTTL.

Record desk_ok (k : desk) : Prop := {
  dk_table : ∀ c ec, d_codes k !! c = Some ec → from_mint (d_minted k) c ec;
  dk_taken : ∀ c ec, (c, ec) ∈ d_taken k → from_mint (d_minted k) c ec;
  dk_issued : ∀ c ns t, (c, ns, t) ∈ d_issued k → ∃ made, (c, ns, made) ∈ d_minted k ∧ t ≤ made + enrollCodeTTL;
  dk_count : ∀ c, (count_where (of_code c) (d_issued k) + count_where (held c) (d_taken k) + (if d_codes k !! c is Some _ then 1 else 0) ≤ count_where (of_code c) (d_minted k))%nat }.

Lemma from_mint_more minted x c ec : from_mint minted c ec → from_mint (minted ++ [x]) c ec.
Proof. intros (made & H & E). exists made. split; [apply elem_of_app; by left|done]. Qed.

Lemma purge_Some now m c ec : purgeEnrollLocked now m !! c = Some ec → m !! c = Some ec.
Proof. unfold purgeEnrollLocked. by intros [? _]%map_lookup_filter_Some. Qed.

Lemma count_one {A} (f : A → bool) x : count_where f [x] = if f x then 1%nat else 0%nat.
Proof. unfold count_where. simpl. by destruct (f x). Qed.

Lemma redeem_Ok now rnd ec d token ns fp d' : redeem true now rnd (Some ec) d = (Enrolled token ns fp, d') → ns = ec_namespace ec ∧ fp = ec_portalFP ec ∧ now ≤ ec_expires ec.
Proof.
  unfold redeem. destruct (Z.ltb_spec (ec_expires ec) now); [done|]. simpl. destruct (IssueToken _ _ _ _ _ _) as [[tok|e] d2]; [|done]. intros [= <- <- <- <-]. done.
Qed.

Lemma desk_step k k' : desk_ok k → dstep k k' → desk_ok k'.
Proof.
  intros [K1 K2 K3 K4] S. destruct S as [now made random ns fp m taken minted issued code ttl m' E|now code m taken minted issued ec m' _ E|now code m taken minted issued m' _ E
    |now rnd m l1 code ec l2 minted issued d token ns fp d' E|now rnd m l1 code ec l2 minted issued d st d' E|m taken minted issued]; simpl in *.
  - unfold handleEnrollMint in E. simpl in E. destruct (parseMintBody ns fp) as [[ns' fp']|] eqn:P; [|done]. injection E as <- _ <-.
    assert (ns' = ns) as -> by (unfold parseMintBody in P; repeat case_match; congruence). split; simpl.
    + intros c ec [[<- <-]|[_ L]]%lookup_insert_Some; [|by apply from_mint_more, K1; eapply purge_Some].
      exists made. split; [apply elem_of_app; right; by apply list_elem_of_singleton|done].
    + intros c ec H. by apply from_mint_more, K2.
    + intros c n t H. destruct (K3 c n t H) as (x & Hx & L). exists x. split; [apply elem_of_app; by left|done].
    + intros c. specialize (K4 c). rewrite count_where_app, count_one. unfold of_code at 3. simpl. destruct (String.eqb_spec (newEnrollCode random) c) as [->|N].
      * rewrite lookup_insert_eq. destruct (m !! c); lia.
      * rewrite lookup_insert_ne by done. destruct (purgeEnrollLocked now m !! c) eqn:L; [apply purge_Some in L; rewrite L in K4; lia|lia].
  - unfold take_code in E. injection E as L <-. split; simpl; [|intros c e [H|H%list_elem_of_singleton]%elem_of_app|exact K3|].
    + intros c e [_ H]%lookup_delete_Some. apply K1. by eapply purge_Some.
    + by apply K2.
    + injection H as -> ->. apply K1. by eapply purge_Some.
    + intros c. specialize (K4 c). rewrite count_where_app, count_one. unfold held at 2. simpl. destruct (String.eqb_spec code c) as [->|N].
      * rewrite lookup_delete_eq. apply purge_Some in L. rewrite L in K4. lia.
      * rewrite lookup_delete_ne by done. destruct (purgeEnrollLocked now m !! c) eqn:L2; [apply purge_Some in L2; rewrite L2 in K4; lia|lia].
  - unfold take_code in E. injection E as L <-. split; simpl; [|exact K2|exact K3|].
    + intros c e [_ H]%lookup_delete_Some. apply K1. by eapply purge_Some.
    + intros c. specialize (K4 c). destruct (delete code (purgeEnrollLocked now m) !! c) eqn:L2; [|lia].
      apply lookup_delete_Some in L2 as [_ L2]. apply purge_Some in L2. rewrite L2 in K4. lia.
  - apply redeem_Ok in E as (-> & _ & Le). split; simpl; [exact K1| | |].
    + intros c e H. apply K2. set_solver.
    + intros c n t [H|H%list_elem_of_singleton]%elem_of_app; [by apply K3|]. injection H as -> -> ->.
      destruct (K2 code ec) as (made & Hm & Ex); [set_solver|]. exists made. split; [done|lia].
    + intros c. specialize (K4 c). rewrite !count_where_app in *. rewrite count_one. change ((code, ec) :: l2) with ([(code, ec)] ++ l2) in K4.
      rewrite count_where_app, count_one in K4. unfold held at 2 in K4. unfold of_code at 2. simpl in *. destruct (String.eqb code c); lia.
  - split; simpl; [exact K1| |exact K3|].
    + intros c e H. apply K2. set_solver.
    + intros c. specialize (K4 c). change ((code, ec) :: l2) with ([(code, ec)] ++ l2) in K4. rewrite !count_where_app in *. lia.
  - split; simpl; [by intros c ec H; rewrite lookup_empty in H|by intros c ec ?%elem_of_nil|exact K3|].
    intros c. specialize (K4 c). rewrite lookup_empty. unfold count_where at 2. simpl. lia.
Qed.

(** C21: a code enrolls one device.  Whatever exchanges race for a code, and
    whatever restarts, no more tokens are issued for it than it was minted;
    and each is for a namespace the code was minted for, at most five minutes
    before. *)
Theorem code_enrolls_once k : reachable (λ k, k = start) dstep k →
  (∀ c, (count_where (of_code c) (d_issued k) ≤ count_where (of_code c) (d_minted k))%nat) ∧
  ∀ c ns t, (c, ns, t) ∈ d_issued k → ∃ made, (c, ns, made) ∈ d_minted k ∧ t ≤ made + enrollCodeTTL.
Proof.
  intros R. assert (desk_ok k) as [_ _ K3 K4].
  { revert k R. apply invariant_reachable; [|apply desk_step]. intros k ->. split; simpl; [by intros c ec H; rewrite lookup_empty in H|by intros c ec ?%elem_of_nil|by intros c ns t ?%elem_of_nil|].
    intros c. by rewrite lookup_empty. }
  split; [|exact K3]. intros c. specialize (K4 c). lia.
Qed.

(** ** Witness: a code, minted and exchanged *)

Definition minted_code : string := newEnrollCode "abcdefgh".
Definition sample : enrollCode := EnrollCode "ada" "" (enrollCodeTTL + 1).

Lemma code_enrolls_once_witness : (count_where (of_code minted_code) [(minted_code, "ada"%string, 3)] ≤ count_where (of_code minted_code) [(minted_code, "ada"%string, 1)])%nat.
Proof.
  assert (reachable (λ k, k = start) dstep (Desk ∅ [] [(minted_code, "ada"%string, 1)] [(minted_code, "ada"%string, 3)])) as R.
  { eapply reachable_step; [eapply reachable_step; [eapply reachable_step; [by apply reachable_init|]|]|].
    - exact (DMint 1 1 "abcdefgh" "ada" "" ∅ [] [] [] minted_code 300 {[minted_code := sample]} eq_refl).
    - exact (DTake 2 minted_code {[minted_code := sample]} [] [(minted_code, "ada"%string, 1)] [] sample ∅ ltac:(vm_compute; discriminate) eq_refl).
    - exact (DRedeem 3 "t" ∅ [] minted_code sample [] [(minted_code, "ada"%string, 1)] [] empty_db "wanctl_t" "ada" "" _ eq_refl). }
  exact (proj1 (code_enrolls_once _ R) minted_code).
Defined.

(** The alphabet has an L, which its comment says it has not. *)
Lemma alphabet_has_L : newEnrollCode (String (ascii_of_nat 10) "bcdefgh") = "LCDE-FGHJ"%string.
Proof. vm_compute. reflexivity. Qed.
