(* ===== verification/Portal.v ===== *)
(** [internal/portal/auth.go], [email.go], [pages.go] and the middleware of
    [portal.go]: who is signed in to the portal, which requests may change
    anything, and where a visitor is sent.

    A handler is a function of the request, the clock and what the relay and
    GitHub answered, to the response it writes.  JSON and [url.Parse] are
    parameters; HMAC, base64 and query escaping are executed. *)

From S2P Require Import Prelude GoStrings GoUtf8 Utf8Facts GoCodec Session Termsafe Accounts McpAuth.

Local Open Scope Z_scope.

Definition sessionTTL : Z := 14 * 24 * hour.
Definition stateTTL : Z := 10 * minute.

(** ** Strings that go into URLs *)

(** [safeNext]: only a local absolute path. *)
Definition safeNext (next : string) : string :=
  if String.eqb next "" || negb (has_prefix next "/") || has_prefix next "//" then "/"
  else if any (λ c, (c <? 32) || (c =? 127) || (c =? 92)) (runes next) then "/"
  else next.

Definition unreserved (c : ascii) : bool :=
  let n := byte_val c in in_range 48 57 n || in_range 65 90 n || in_range 97 122 n || any (Z.eqb n) [45; 46; 95; 126].
Definition upper_hex (v : Z) : ascii := default "0"%char (sget (Z.to_nat v) "0123456789ABCDEF").

(** [url.QueryEscape] *)
Fixpoint QueryEscape (s : string) : string :=
  match s with
  | EmptyString => ""
  | String c s =>
      if unreserved c then String c (QueryEscape s)
      else if Ascii.eqb c " " then String "+" (QueryEscape s)
      else String "%" (String (upper_hex (byte_val c / 16)) (String (upper_hex (byte_val c mod 16)) (QueryEscape s)))
  end.

Definition emailNext (next : string) : string := ("/auth/email?next=" ++ QueryEscape (safeNext next))%string.

Definition pendingNext (next : string) : string :=
  let next := safeNext next in if String.eqb next "/" then "/pending"%string else ("/pending?next=" ++ QueryEscape next)%string.

Definition hostOnly (hostport : string) : string :=
  let h := match (fix last_colon (s : string) : option string :=
                    match s with
                    | EmptyString => None
                    | String c t => match last_colon t with Some p => Some (String c p) | None => if Ascii.eqb c ":" then Some "" else None end
                    end) hostport with
           | Some before =>
               if negb (has_suffix hostport "]") && negb (contains (sdrop (slen before) hostport) "]") then before else hostport
           | None => hostport
           end%string in
  let bracket c := Ascii.eqb c "[" || Ascii.eqb c "]" in
  let fix front s := match s with String c t => if bracket c then front t else s | EmptyString => s end in
  let fix back s := match s with
                    | String c t => match back t with "" => if bracket c then "" else String c "" | u => String c u end
                    | EmptyString => s end%string in
  front (back h).

Definition validMobileState (state : string) : bool :=
  (slen state =? 36)%nat &&
  forallb (λ i, match sget i state with
                | Some c => if any (Nat.eqb i) [8; 13; 18; 23]%nat then Ascii.eqb c "-" else in_range 48 57 (byte_val c) || in_range 97 102 (byte_val c)
                | None => false
                end) (seq 0 36).

Definition mobileReturnURL (state code : string) : string :=
  if negb (validMobileState state) || String.eqb code "" then "" else ("wanctl://enroll?code=" ++ QueryEscape code ++ "&state=" ++ QueryEscape state)%string.

Definition validDocSlug (slug : string) : bool :=
  sforall (λ c, let n := byte_val c in in_range 97 122 n || in_range 48 57 n || (n =? 95) || (n =? 45)) slug.

(** ** Requests and responses *)

Record request := Request {
  r_Method : string; r_Path : string; r_Host : string; r_tls : bool; r_scheme : string; r_query : gmap string string;
  r_cookies : gmap string string; r_headers : gmap string string; r_bodySize : Z }.

Definition cookieValue (r : request) (name : string) : string := default "" (r_cookies r !! name).
Definition header (r : request) (name : string) : string := default "" (r_headers r !! name).
Definition param (r : request) (name : string) : string := default "" (r_query r !! name).

(** A response: its status, where it redirects to, the page or error it shows,
    and the cookies it sets, each with its value and age in seconds. *)
Record response := Response { p_status : Z; p_location : option string; p_body : string; p_cookies : list (string * string * Z) }.

Definition page (name : string) : response := Response 200 None name [].
Definition error (status : Z) (body : string) : response := Response status None body [].
Definition redirect (status : Z) (location : string) : response := Response status (Some location) "" [].
Definition with_cookie (c : string * string * Z) (p : response) : response := Response (p_status p) (p_location p) (p_body p) (c :: p_cookies p).

Record principal := Principal { pr_Provider : string; pr_Subject : string; pr_Login : string; pr_Name : string; pr_Expires : Z; pr_Issued : Z }.
Record oauthState := OAuthState { st_Nonce : string; st_Next : string; st_Expires : Z }.

(** The two records once they went through JSON. *)
Definition json_principal (p : principal) : principal :=
  Principal (json_text (pr_Provider p)) (json_text (pr_Subject p)) (json_text (pr_Login p)) (json_text (pr_Name p)) (pr_Expires p) (pr_Issued p).
Definition json_state (s : oauthState) : oauthState := OAuthState (json_text (st_Nonce s)) (json_text (st_Next s)) (st_Expires s).

Record config := Config {
  sc_ghClientID : string; sc_sessionKey : string; sc_userHeader : string; sc_publicOrigin : string; sc_ghAuthBase : string;
  sc_mail : bool; sc_relayURL : string; sc_adminSecret : string }.

(** What the relay answered to [/admin/resolve-user]: nothing, or a status, the
    body as text, and the body decoded. *)
Inductive relay_answer := Unreachable | RelayAnswer (status : Z) (body : string) (ns role : string) (confirmed : bool).

Inductive resolveStatus := resolveOK | resolveNeedsEmail | resolvePending | resolveConflict | resolveDisabled | resolveError.

(** What GitHub answered: an error, or the user behind the code. *)
Record githubUser := GithubUser { gh_subject : string; gh_login : string; gh_name : string }.

(** Its two requests: the exchange of the code (the token, empty if there is
    none), then the user. *)
Definition githubUserForCode (exchange : option string) (user : option (Z * option (string * string * string))) : option githubUser :=
  match exchange with
  | None => None
  | Some token =>
      if String.eqb token "" then None
      else match user with
      | None => None
      | Some (status, body) =>
          if negb (status =? 200) then None
          else match body with
          | None => None
          | Some (id, login, name) => if String.eqb id "" || String.eqb login "" then None else Some (GithubUser id login name)
          end
      end
  end.

(** ** Redirects stay on the portal *)

(** A path a browser resolves on the same origin: it begins with one slash, not
    followed by another, and holds no backslash or control character, which
    browsers drop or rewrite. *)
Definition plain_char (c : ascii) : bool := negb ((byte_val c <? 32) || (byte_val c =? 127) || (byte_val c =? 92)).
Definition local_path (s : string) : Prop := ∃ t, s = String "/" t ∧ sforall plain_char s = true ∧ has_prefix t "/" = false.

Lemma sforall_sget f s : (∀ i c, sget i s = Some c → f c = true) → sforall f s = true.
Proof. induction s as [|c s IH]; intros A; simpl; [done|]. rewrite (A 0%nat c) by done. apply IH. intros i d. apply (A (S i)). Qed.

Lemma sget_forall f s i c : sforall f s = true → sget i s = Some c → f c = true.
Proof. revert i. induction s as [|d s IH]; intros i; simpl; [by destruct i|]. intros [Fd Fs]%andb_true_iff. destruct i; simpl; [by intros [= <-]|by apply IH]. Qed.

Lemma sget_Some_lt i s c : sget i s = Some c → (i < slen s)%nat.
Proof. revert i. induction s as [|d s IH]; intros i; simpl; [by destruct i|]. destruct i; simpl; [lia|]. intros E%IH. lia. Qed.

Lemma plain_big c : 128 <= byte_val c → plain_char c = true.
Proof. unfold plain_char. intros. destruct (Z.ltb_spec (byte_val c) 32), (Z.eqb_spec (byte_val c) 127), (Z.eqb_spec (byte_val c) 92); simpl; lia || done. Qed.

(** A range over the string sees each of its ASCII bytes. *)
Lemma plain_runes s : any (λ c, (c <? 32) || (c =? 127) || (c =? 92)) (runes s) = false → sforall plain_char s = true.
Proof.
  induction s as [|s N IH] using rune_ind; [done|]. rewrite runes_step by done. unfold any. simpl. intros [Hd Tl]%orb_false_iff. specialize (IH Tl).
  rewrite <- (stake_sdrop (rune_len s) s), sforall_app, IH, andb_true_r. destruct s as [|c s]; [done|].
  destruct (Z.lt_ge_cases (byte_val c) 128) as [Lt|Ge].
  - unfold rune_len. rewrite decode_ascii in * by done. simpl in *. unfold plain_char. by rewrite Hd.
  - apply sforall_sget. intros i d Hi. apply plain_big. assert (i < rune_len (String c s))%nat as Li.
    { apply sget_Some_lt in Hi. rewrite slen_stake in Hi. lia. }
    rewrite sget_stake in Hi by done. destruct i as [|i]; [by injection Hi as <-|].
    destruct (bad_head (String c s)) eqn:B.
    + exfalso. unfold bad_head in B. unfold rune_len in Li. destruct (decode_rune (String c s)) as [r k]. apply andb_true_iff in B as [_ B%Nat.eqb_eq]. simpl in Li. lia.
    + pose proof (tail_not_start _ (S i) d B ltac:(lia) Hi) as T. pose proof (byte_all (λ b, rune_start b || (128 <=? b)) ltac:(vm_compute; reflexivity) d) as K. cbv beta in K. rewrite T in K. simpl in K. lia.
Qed.

Lemma safeNext_local next : local_path (safeNext next).
Proof.
  unfold safeNext. destruct (_ || _) eqn:C; [by exists ""%string|]. destruct (any _ _) eqn:A; [by exists ""%string|].
  rewrite !orb_false_iff in C. destruct C as [[N P] Q]. apply negb_false_iff, has_prefix_spec in P as [t ->].
  exists t. split; [done|]. split; [by apply plain_runes|]. exact Q.
Qed.

(** A path that went through JSON is still one. *)
Lemma json_plain s : sforall plain_char s = true → sforall plain_char (json_text s) = true.
Proof.
  induction s as [|s N IH] using rune_ind; [done|]. intros P. rewrite <- (stake_sdrop (rune_len s) s), sforall_app in P. apply andb_true_iff in P as [P1 P2].
  rewrite json_text_step, sforall_app, (IH P2), andb_true_r by done. by destruct (bad_head s).
Qed.

Lemma json_local s : local_path s → local_path (json_text s).
Proof.
  intros (t & -> & P & H). rewrite json_text_ascii by done. exists (json_text t). split; [done|].
  split; [apply (json_plain (String "/" t)) in P; by rewrite json_text_ascii in P|].
  destruct t as [|c t]; [done|]. destruct (Z.lt_ge_cases (byte_val c) 128) as [L|G]; [by rewrite json_text_ascii|].
  destruct (json_text_high c t G) as (d & u & -> & Gd). apply not_true_iff_false. intros (v & E)%has_prefix_spec. injection E as -> _.
  by apply Gd.
Qed.

Lemma json_graphic s : sforall graphic s = true → json_text s = s.
Proof.
  induction s as [|c s IH]; [done|]. intros [G%graphic_val H]%andb_true_iff. rewrite json_text_ascii by lia. by rewrite IH.
Qed.

Lemma safeNext_idem next : safeNext (safeNext next) = safeNext next.
Proof.
  unfold safeNext at 2 3. destruct (String.eqb next "" || _ || _) eqn:C; [done|]. destruct (any _ _) eqn:A; [done|]. unfold safeNext. by rewrite C, A.
Qed.

Lemma escape_plain s : sforall plain_char (QueryEscape s) = true.
Proof.
  induction s as [|c s IH]; [done|]. cbn [QueryEscape]. destruct (unreserved c) eqn:U.
  - cbn [sforall]. rewrite IH, andb_true_r. pose proof (byte_all (λ b, negb (in_range 48 57 b || in_range 65 90 b || in_range 97 122 b || any (Z.eqb b) [45; 46; 95; 126]) || negb ((b <? 32) || (b =? 127) || (b =? 92))) ltac:(vm_compute; reflexivity) c) as K.
    cbv beta in K. unfold unreserved in U. cbv zeta in U. rewrite U in K. exact K.
  - destruct (Ascii.eqb c " "); cbn [sforall]; rewrite IH, ?andb_true_r; [done|].
    assert (∀ v, plain_char (upper_hex v) = true) as Hx; [|by rewrite !Hx].
    intros v. unfold upper_hex. destruct (sget (Z.to_nat v) "0123456789ABCDEF") as [d|] eqn:E; [|done]. simpl.
    by apply (sget_forall plain_char "0123456789ABCDEF" (Z.to_nat v)).
Qed.

Section portal.
Context `{Libraries} (cfg : config) (parse : string → option (string * string)).
Context (marshal_p : principal → string) (unmarshal_p : string → option principal).
Context (marshal_s : oauthState → string) (unmarshal_s : string → option oauthState).

Definition oauthEnabled : bool := negb (String.eqb (sc_ghClientID cfg) "").
Definition emailGate : bool := oauthEnabled && sc_mail cfg.

Definition sign (payload : string) : string := hmac_sha256 (sc_sessionKey cfg) payload.

(** ** The session cookie *)

Definition encodeSession (p : principal) : option string :=
  if String.eqb (sc_sessionKey cfg) "" then None
  else let raw := marshal_p p in Some ("v1." ++ rawurl_encode raw ++ "." ++ rawurl_encode (sign raw))%string.

(** The payload of a cookie whose signature holds. *)
Definition verified (payload signature : string) : option string :=
  match rawurl_decode payload, rawurl_decode signature with
  | Some raw, Some sig => if String.eqb sig (sign raw) then Some raw else None
  | _, _ => None
  end.

Definition decodeSession (now : Z) (value : string) : option principal :=
  if String.eqb (sc_sessionKey cfg) "" || String.eqb value "" then None
  else match split_on "." value with
  | [v; payload; signature] =>
      if negb (String.eqb v "v1") then None
      else match verified payload signature with
      | None => None
      | Some raw =>
          match unmarshal_p raw with
          | None => None
          | Some p =>
              if pr_Expires p <=? now / second then None
              else if negb (String.eqb (pr_Provider p) "github") || String.eqb (pr_Subject p) "" || String.eqb (pr_Login p) "" then None
              else Some p
          end
      end
  | _ => None
  end.

Definition principalFrom (now : Z) (r : request) : option principal :=
  if oauthEnabled then decodeSession now (cookieValue r "wanctl_session")
  else let id := trim_space (header r (sc_userHeader cfg)) in
       if String.eqb id "" then None else Some (Principal "header" id id "" 0 0).

(** ** Signing in with GitHub *)

Definition requestOrigin (r : request) : string :=
  if negb (String.eqb (sc_publicOrigin cfg) "") then sc_publicOrigin cfg
  else ((if r_tls r || EqualFold (header r "X-Forwarded-Proto") "https" then "https" else "http") ++ "://" ++ r_Host r)%string.

Definition handleAuthLogin (now : Z) (r : request) : response :=
  if negb oauthEnabled then error 404 ""
  else let next := safeNext (param r "next") in
       match principalFrom now r with Some _ => redirect 303 next | None => page "login.html" end.

Definition state_of (now : Z) (nonce : string) (r : request) : oauthState :=
  OAuthState nonce (safeNext (param r "next")) ((now + stateTTL) / second).

Definition handleAuthStart (now : Z) (random : string) (r : request) : response :=
  if negb oauthEnabled then error 404 ""
  else
    let nonce := rawurl_encode random in
    let raw := marshal_s (state_of now nonce r) in
    let q := ("client_id=" ++ QueryEscape (sc_ghClientID cfg) ++ "&redirect_uri=" ++ QueryEscape (requestOrigin r ++ "/auth/callback") ++ "&state=" ++ QueryEscape nonce)%string in
    with_cookie ("wanctl_oauth_state", rawurl_encode raw ++ "." ++ rawurl_encode (sign raw), stateTTL / second)%string
      (redirect 302 (sc_ghAuthBase cfg ++ "/login/oauth/authorize?" ++ q)).

Definition readStateCookie (now : Z) (r : request) : option oauthState :=
  match split_on "." (cookieValue r "wanctl_oauth_state") with
  | [payload; signature] =>
      match verified payload signature with
      | None => None
      | Some raw => match unmarshal_s raw with
                    | None => None
                    | Some st => if st_Expires st <=? now / second then None else Some st
                    end
      end
  | _ => None
  end.

(** ** The account behind a principal *)

Definition resolveNamespace (a : relay_answer) : string * string * resolveStatus :=
  let none s := (""%string, ""%string, s) in
  match a with
  | Unreachable => none resolveError
  | RelayAnswer status body ns role confirmed =>
      if status =? 200 then
        if String.eqb ns "" then none resolveError
        else if emailGate && negb confirmed then (ns, role, resolveNeedsEmail)
        else (ns, role, resolveOK)
      else if status =? 403 then
        let b := trim_space (stake 4096 body) in
        if String.eqb b "pending-invite" then none resolvePending
        else if String.eqb b "account-disabled" then none resolveDisabled
        else none resolveError
      else if status =? 409 then none resolveConflict
      else none resolveError
  end.

(** [user] is what GitHub said of the code, [a] the relay of the user. *)
Definition handleAuthCallback (now : Z) (r : request) (user : option githubUser) (a : relay_answer) : response :=
  if negb oauthEnabled then error 404 ""
  else
    with_cookie ("wanctl_oauth_state", "", -1)%string
      match readStateCookie now r with
      | None => error 400 "login state invalid"
      | Some st =>
          let got := param r "state" in
          if String.eqb got "" || negb (String.eqb got (st_Nonce st)) then error 400 "login state mismatch"
          else if String.eqb (param r "code") "" then error 400 "GitHub declined the login"
          else match user with
          | None => error 502 "GitHub login failed"
          | Some gh =>
              let p := Principal "github" (gh_subject gh) (gh_login gh) (gh_name gh) ((now + sessionTTL) / second) (now / second) in
              match encodeSession p with
              | None => error 500 "session error"
              | Some sess =>
                  with_cookie ("wanctl_session", sess, sessionTTL / second)%string
                    match (resolveNamespace a).2 with
                    | resolvePending => redirect 303 (pendingNext (st_Next st))
                    | resolveNeedsEmail => redirect 303 (emailNext (st_Next st))
                    | _ => redirect 303 (st_Next st)
                    end
              end
          end
      end.

Definition handleAuthLogout : response := with_cookie ("wanctl_session", "", -1)%string (Response 204 None "" []).

Definition wired : bool := negb (String.eqb (sc_relayURL cfg) "" || String.eqb (sc_adminSecret cfg) "").

(** What a handler that needs an account goes on with, or the response. *)
Definition pageAuth (now : Z) (r : request) (a : relay_answer) (next : string) : string + response :=
  if negb wired then inr (error 503 "portal not wired yet")
  else match principalFrom now r with
  | None => inr (if oauthEnabled then redirect 303 ("/auth/login?next=" ++ QueryEscape (safeNext next)) else error 401 "no SSO identity header")
  | Some p =>
      match resolveNamespace a with
      | (ns, _, resolveOK) => inl ns
      | (_, _, resolveNeedsEmail) => inr (redirect 303 (emailNext next))
      | (_, _, resolvePending) => inr (redirect 303 (pendingNext next))
      | (_, _, resolveConflict) => inr (error 409 "")
      | (_, _, resolveDisabled) => inr (error 403 "")
      | (_, _, resolveError) => inr (error 502 "")
      end
  end.

Definition requireNS (now : Z) (r : request) (a : relay_answer) : string + response :=
  if negb wired then inr (error 503 "portal not wired yet")
  else match principalFrom now r with
  | None => inr (error 401 "not signed in")
  | Some p =>
      match resolveNamespace a with
      | (ns, _, resolveOK) => inl ns
      | (_, _, resolveNeedsEmail) => inr (error 403 "email-required")
      | (_, _, resolvePending) => inr (error 403 "pending-invite")
      | (_, _, resolveConflict) => inr (error 409 "")
      | (_, _, resolveDisabled) => inr (error 403 "account-disabled")
      | (_, _, resolveError) => inr (error 502 "")
      end
  end.

Definition requireAdmin (now : Z) (r : request) (a : relay_answer) : string + response :=
  if negb wired then inr (error 503 "portal not wired yet")
  else match principalFrom now r with
  | None => inr (error 401 "not signed in")
  | Some p =>
      match resolveNamespace a with
      | (_, _, resolveNeedsEmail) => inr (error 403 "email-required")
      | (_, _, resolveDisabled) => inr (error 403 "account-disabled")
      | (ns, role, resolveOK) => if String.eqb role "admin" then inl ns else inr (error 403 "admin only")
      | _ => inr (error 502 "")
      end
  end.

(** ** Pages and endpoints of the email door *)

(** The relay's answer about a contact: [None] is unreachable or not 200. *)
Record contactStatus := ContactStatus { cs_Address : string; cs_Confirmed : bool; cs_Pending : string }.
Definition confirmed (c : contactStatus) : string := if cs_Confirmed c then cs_Address c else "".

Definition atDoor (c : option contactStatus) : bool :=
  emailGate && match c with Some c => String.eqb (confirmed c) "" | None => false end.

Definition handlePending (now : Z) (r : request) (a : relay_answer) (c : option contactStatus) : response :=
  let next := safeNext (param r "next") in
  if negb oauthEnabled then error 404 ""
  else match principalFrom now r with
  | None => redirect 303 ("/auth/login?next=" ++ QueryEscape (pendingNext next))
  | Some p =>
      match (resolveNamespace a).2 with
      | resolveOK | resolveNeedsEmail => redirect 303 next
      | resolveDisabled => error 403 ""
      | _ => if atDoor c then redirect 303 (emailNext (pendingNext next)) else page "pending.html"
      end
  end.

Definition handleEmailPage (now : Z) (r : request) (c : option contactStatus) : response :=
  if negb emailGate then error 404 ""
  else
    let next := safeNext (param r "next") in
    match principalFrom now r with
    | None => redirect 303 ("/auth/login?next=" ++ QueryEscape (emailNext next))
    | Some p =>
        match c with
        | None => error 502 "relay unreachable"
        | Some c => if negb (String.eqb (confirmed c) "") then redirect 303 next else page "email.html"
        end
    end.

(** [None]: the request may go on. *)
Definition contactAccountEnabled (a : relay_answer) : option response :=
  match (resolveNamespace a).2 with
  | resolveOK | resolveNeedsEmail | resolvePending => None
  | resolveDisabled => Some (error 403 "account-disabled")
  | resolveConflict => Some (error 409 "identity-conflict")
  | resolveError => Some (error 502 "relay_unreachable")
  end.

Definition signed_in_enabled (now : Z) (r : request) (a : relay_answer) (k : principal → response) : response :=
  if negb emailGate then error 404 ""
  else match principalFrom now r with
  | None => error 401 "not signed in"
  | Some p => match contactAccountEnabled a with Some e => e | None => k p end
  end.

Definition handleEmailStatus (now : Z) (r : request) (a : relay_answer) (c : option contactStatus) : response :=
  signed_in_enabled now r a (λ p, match c with None => error 502 "relay unreachable" | Some c => page (confirmed c) end).

(** What the relay is told to do, in order, and the response.  [issued] is its
    answer to the send: a status with a token, or a link's id, token and address;
    [mailed] whether the mail server took the message. *)
Inductive relay_call := SendLink (provider subject login address next : string) | MarkSent (id : nat) | MarkFailed (id : nat) | CancelLinks (provider subject : string).

Definition handleEmailSend (now : Z) (r : request) (a : relay_answer) (address next : string)
    (issued : option (Z * string + nat * string * string)) (mailed : bool) : list relay_call * response :=
  if negb emailGate then ([], error 404 "")
  else match principalFrom now r with
  | None => ([], error 401 "not signed in")
  | Some p =>
      match contactAccountEnabled a with
      | Some e => ([], e)
      | None =>
          let send := SendLink (pr_Provider p) (pr_Subject p) (pr_Login p) address (safeNext next) in
          match issued with
          | None => ([send], error 502 "relay_unreachable")
          | Some (inl (status, token)) =>
              let token := trim_space token in
              ([send], error status (if (500 <=? status) || String.eqb token "" then "relay_error" else token))
          | Some (inr (id, token, to)) =>
              if String.eqb token "" then ([send], error 502 "relay_error")
              else if mailed then ([send; MarkSent id], page to)
              else ([send; MarkFailed id], error 502 "mail-failed")
          end
      end
  end.

Definition handleEmailCancel (now : Z) (r : request) (a : relay_answer) (answer : option Z) : list relay_call * response :=
  if negb emailGate then ([], error 404 "")
  else match principalFrom now r with
  | None => ([], error 401 "not signed in")
  | Some p =>
      match contactAccountEnabled a with
      | Some e => ([], e)
      | None =>
          ([CancelLinks (pr_Provider p) (pr_Subject p)],
           match answer with None => error 502 "relay_unreachable" | Some s => if s =? 204 then Response 204 None "" [] else error 502 "relay_error" end)
      end
  end.

(** The button behind the link.  [answer]: a status with a token, or the link's
    provider, subject and destination. *)
Definition confirmEmail (now : Z) (r : request) (token : string) (answer : option (Z * string + string * string * string)) : response :=
  if String.eqb (trim_space token) "" then error 400 "token-unknown"
  else match answer with
  | None => error 502 "relay_unreachable"
  | Some (inl (status, t)) => let t := trim_space t in error status (if (500 <=? status) || String.eqb t "" then "relay_error" else t)
  | Some (inr (provider, subject, next)) =>
      match principalFrom now r with
      | Some p => if String.eqb (pr_Provider p) provider && String.eqb (pr_Subject p) subject then page (safeNext next) else page ""
      | None => page ""
      end
  end.

(** ** The middleware *)

Definition mutationPaths : list string :=
  ["/api/devices/install"; "/api/delegations/approve"; "/api/delegations/reject"; "/api/oauth/decide"; "/api/tokens"; "/api/tokens/revoke"; "/api/acl";
   "/api/acl/manage"; "/api/acl/revoke"; "/api/devices/decide"; "/api/devices/pair"; "/api/devices/adb-pair"; "/api/devices/untrust"; "/api/devices/remove";
   "/api/devices/alias"; "/api/devices/identity/accept"; "/api/devices/rules"; "/api/devices/mode"; "/api/devices/lark"; "/api/devices/notify";
   "/api/approval-phone"; "/api/notify"; "/api/notify/test"; "/api/docs/articles"; "/api/docs/articles/delete"; "/api/docs/groups"; "/api/docs/groups/delete";
   "/auth/logout"; "/auth/request-access"; "/auth/email/send"; "/auth/email/cancel"; "/auth/email/confirm"; "/api/access-requests/decide";
   "/api/friends/request"; "/api/friends/accept"; "/api/friends/decline"; "/api/friends/remove"; "/api/invites"; "/api/invites/revoke"]%string.

Definition readWritePaths : list string :=
  ["/api/devices/install"; "/api/tokens"; "/api/acl"; "/api/devices/lark"; "/api/devices/notify"; "/api/approval-phone"; "/api/notify"; "/api/invites"; "/auth/email/confirm"]%string.

Definition methodAllowed (method : string) (mutation readWrite : bool) : bool :=
  if mutation then String.eqb method "POST" || (readWrite && String.eqb method "GET") else String.eqb method "GET".

Definition maxPortalBodyBytes : Z := Z.shiftl 1 20.

Definition validCSRFToken (token : string) : bool := match rawurl_decode token with Some b => (slen b =? 32)%nat | None => false end.

Definition validDoubleSubmit (r : request) : bool :=
  let cookie := cookieValue r "wanctl_csrf" in validCSRFToken cookie && String.eqb cookie (header r "X-CSRF-Token").

(** [parse] gives the scheme and host of a URL. *)
Definition sameOrigin (r : request) : bool :=
  let source := if String.eqb (header r "Origin") "" then header r "Referer" else header r "Origin" in
  match parse source with
  | None => false
  | Some (scheme, host) =>
      if negb (String.eqb scheme "http") && negb (String.eqb scheme "https") then false
      else if negb (String.eqb (sc_publicOrigin cfg) "") then
        match parse (sc_publicOrigin cfg) with
        | None => false
        | Some (s, h) => negb (String.eqb s "") && negb (String.eqb h "") && EqualFold scheme s && EqualFold host h
        end
      else if negb (EqualFold host (r_Host r)) then false
      else negb (r_tls r) || String.eqb scheme "https"
  end.

Definition loopback_host (host : string) : bool := any (String.eqb host) ["localhost"; "127.0.0.1"; "::1"]%string.

Definition cookieSecure (r : request) : bool :=
  negb (String.eqb (sc_publicOrigin cfg) "") || r_tls r || String.eqb (r_scheme r) "https" || negb (loopback_host (hostOnly (r_Host r))).

(** Either the response, or the handler runs; and the CSRF cookie, if it is set. *)
Definition securityMiddleware (random : string) (r : request) : option response * option string :=
  let mutation := any (String.eqb (r_Path r)) mutationPaths in
  if negb (methodAllowed (r_Method r) mutation (any (String.eqb (r_Path r)) readWritePaths)) then (Some (error 405 ""), None)
  else
    let set := if String.eqb (r_Method r) "GET" && negb (validCSRFToken (cookieValue r "wanctl_csrf")) then Some (rawurl_encode random) else None in
    if mutation && String.eqb (r_Method r) "POST" then
      if negb (sameOrigin r) || negb (validDoubleSubmit r) then (Some (error 403 "forbidden"), set)
      else if maxPortalBodyBytes <? r_bodySize r then (Some (error 413 ""), set)
      else (None, set)
    else (None, set).

(** A fixed path and an escaped parameter. *)
Lemma local_with q n : sforall plain_char q = true → has_prefix q "/" = false → q ≠ ""%string → local_path (String "/" (q ++ QueryEscape n)).
Proof.
  intros P N Ne. exists (q ++ QueryEscape n)%string. split; [done|]. split; [cbn [sforall]; by rewrite sforall_app, P, escape_plain|].
  destruct q as [|c q]; [done|]. exact N.
Qed.

Lemma emailNext_local n : local_path (emailNext n).
Proof. by apply (local_with "auth/email?next="). Qed.

Lemma pendingNext_local n : local_path (pendingNext n).
Proof. unfold pendingNext. cbv zeta. destruct (String.eqb _ _); [by exists "pending"%string|]. by apply (local_with "pending?next="). Qed.

Lemma loginNext_local n : local_path ("/auth/login?next=" ++ QueryEscape n).
Proof. by apply (local_with "auth/login?next="). Qed.

Definition stays (p : response) : Prop := ∀ l, p_location p = Some l → local_path l.

Lemma handlers_stay now r a c next :
  stays (handleAuthLogin now r) ∧ (∀ e, pageAuth now r a next = inr e → stays e) ∧ stays (handlePending now r a c) ∧ stays (handleEmailPage now r c).
Proof.
  pose proof safeNext_local as L1. pose proof emailNext_local as L2. pose proof pendingNext_local as L3. pose proof loginNext_local as L4.
  split; [|split; [|split]].
  - unfold handleAuthLogin, stays. repeat case_match; cbn [p_location redirect error page]; intros l El; try discriminate El; injection El as <-; first [simple apply L1|simple apply L2|simple apply L3|simple apply L4|exact (L4 (safeNext _))|exact (L4 (pendingNext _))|exact (L4 (emailNext _))].
  - unfold pageAuth. intros e. repeat case_match; intros E; try discriminate E; injection E as <-; unfold stays; cbn [p_location redirect error page]; intros l El; try discriminate El; injection El as <-; first [simple apply L1|simple apply L2|simple apply L3|simple apply L4|exact (L4 (safeNext _))|exact (L4 (pendingNext _))|exact (L4 (emailNext _))].
  - unfold handlePending, stays. cbv zeta. repeat case_match; cbn [p_location redirect error page]; intros l El; try discriminate El; injection El as <-; first [simple apply L1|simple apply L2|simple apply L3|simple apply L4|exact (L4 (safeNext _))|exact (L4 (pendingNext _))|exact (L4 (emailNext _))].
  - unfold handleEmailPage, stays. cbv zeta. repeat case_match; cbn [p_location redirect error page]; intros l El; try discriminate El; injection El as <-; first [simple apply L1|simple apply L2|simple apply L3|simple apply L4|exact (L4 (safeNext _))|exact (L4 (pendingNext _))|exact (L4 (emailNext _))].
Qed.

(** ** What the portal signs *)

(** The logins begun and the callbacks answered, in order. *)
Inductive deed :=
| Started (now : Z) (random : string) (r : request)
| Called (now : Z) (r : request) (user : option githubUser) (a : relay_answer).

Definition session_of (now : Z) (gh : githubUser) : principal :=
  Principal "github" (gh_subject gh) (gh_login gh) (gh_name gh) ((now + sessionTTL) / second) (now / second).

Definition sets_session (p : response) : bool := any (λ c, String.eqb c.1.1 "wanctl_session") (p_cookies p).

Definition signed_by (x : deed) : list string :=
  match x with
  | Started now random r => if oauthEnabled then [marshal_s (state_of now (rawurl_encode random) r)] else []
  | Called now r user a =>
      if sets_session (handleAuthCallback now r user a) then match user with Some gh => [marshal_p (session_of now gh)] | None => [] end else []
  end.

Definition signed (ds : list deed) : list string := ds ≫= signed_by.

(** Nobody else has the key: a payload that verifies is one the portal signed. *)
Definition unforged (ds : list deed) (payload signature : string) : Prop := ∀ raw, verified payload signature = Some raw → raw ∈ signed ds.

Definition state_cookie_unforged (ds : list deed) (r : request) : Prop :=
  ∀ payload signature, split_on "." (cookieValue r "wanctl_oauth_state") = [payload; signature] → unforged ds payload signature.

Fixpoint honest (before ds : list deed) : Prop :=
  match ds with
  | [] => True
  | x :: ds => match x with Called _ r _ _ => state_cookie_unforged before r | Started _ _ _ => True end ∧ honest (before ++ [x]) ds
  end.

(** JSON as the portal relies on it: both records are read back as they were
    written, but for the bytes that are not UTF-8, and where one is read as the
    other the missing fields are empty. *)
Record json_laws : Prop := {
  jl_p : ∀ p, unmarshal_p (marshal_p p) = Some (json_principal p); jl_s : ∀ s, unmarshal_s (marshal_s s) = Some (json_state s);
  jl_sp : ∀ s p, unmarshal_p (marshal_s s) = Some p → pr_Provider p = ""%string; jl_ps : ∀ p s, unmarshal_s (marshal_p p) = Some s → st_Nonce s = ""%string }.

(** A callback that signs somebody in. *)
Lemma callback_signs now r user a : sets_session (handleAuthCallback now r user a) = true → ∃ gh st,
  user = Some gh ∧ readStateCookie now r = Some st ∧ param r "state" = st_Nonce st ∧ st_Nonce st ≠ ""%string ∧
  p_location (handleAuthCallback now r user a) ∈ [Some (pendingNext (st_Next st)); Some (emailNext (st_Next st)); Some (st_Next st)].
Proof.
  unfold handleAuthCallback. destruct oauthEnabled; [cbn [negb]|done]. destruct (readStateCookie now r) as [st|]; [|done]. cbv zeta.
  destruct (String.eqb_spec (param r "state") ""); [done|]. destruct (String.eqb_spec (param r "state") (st_Nonce st)) as [E|]; [cbn [negb orb]|done].
  destruct (String.eqb _ _); [done|]. destruct user as [gh|]; [|done]. destruct (encodeSession _); [|done]. intros _. exists gh, st.
  split; [done|]. split; [done|]. split; [done|]. split; [congruence|]. destruct (resolveNamespace a).2; simpl; set_solver.
Qed.

Lemma signed_elem ds raw : raw ∈ signed ds ↔ ∃ x, x ∈ ds ∧ raw ∈ signed_by x.
Proof. unfold signed. rewrite list_elem_of_bind. naive_solver. Qed.

(** The state a callback accepts is one that was begun, in time. *)
Lemma state_was_begun ds now r st : json_laws → state_cookie_unforged ds r → readStateCookie now r = Some st → st_Nonce st ≠ ""%string →
  ∃ t0 random r0, Started t0 random r0 ∈ ds ∧ st = json_state (state_of t0 (rawurl_encode random) r0) ∧ now / second < (t0 + stateTTL) / second.
Proof.
  intros J U. unfold readStateCookie. destruct (split_on _ _) as [|p [|sg [|? ?]]] eqn:Sp; try done. destruct (verified p sg) as [raw|] eqn:V; [|done].
  destruct (unmarshal_s raw) as [s|] eqn:M; [|done]. destruct (Z.leb_spec (st_Expires s) (now / second)) as [|Lt]; [done|]. intros [= ->] Ne.
  specialize (U p sg Sp raw V). apply signed_elem in U as ([t0 random r0|t r1 user a] & Hx & Hr); simpl in Hr.
  - destruct oauthEnabled; [|by apply elem_of_nil in Hr]. apply list_elem_of_singleton in Hr as ->. rewrite (jl_s J) in M. injection M as <-.
    exists t0, random, r0. done.
  - destruct (sets_session _); [|by apply elem_of_nil in Hr]. destruct user as [gh|]; [|by apply elem_of_nil in Hr]. apply list_elem_of_singleton in Hr as ->.
    by apply (jl_ps J) in M.
Qed.

Lemma honest_at before ds l1 x l2 : honest before ds → ds = l1 ++ x :: l2 →
  match x with Called _ r _ _ => state_cookie_unforged (before ++ l1) r | Started _ _ _ => True end.
Proof.
  revert before l1. induction ds as [|y ds IH]; intros before l1 Ho E; [by destruct l1|]. destruct Ho as [Hy Ho]. destruct l1 as [|z l1]; injection E as -> E.
  - destruct x; [done|]. by rewrite app_nil_r.
  - specialize (IH _ _ Ho E). by rewrite <- app_assoc in IH.
Qed.

(** C20: only GitHub signs anyone in.  In any history of logins, if a request's
    session cookie is accepted, then its identity is what GitHub answered, as far
    as it is UTF-8, at a callback less than two weeks before.  That callback carried the state of a
    login that was begun here less than ten minutes earlier, both in its own
    cookie and in its URL, and it led to a path of this portal.  In particular
    the cookie of a login that has only begun signs nobody in. *)
Theorem only_github_signs_in ds now r p :
  json_laws → honest [] ds → oauthEnabled = true →
  (∀ v payload signature, split_on "." (cookieValue r "wanctl_session") = [v; payload; signature] → unforged ds payload signature) →
  principalFrom now r = Some p →
  ∃ l1 t r1 gh a l2 t0 random r0, ds = l1 ++ Called t r1 (Some gh) a :: l2 ∧ p = json_principal (session_of t gh) ∧ now / second < (t + sessionTTL) / second ∧
    Started t0 random r0 ∈ l1 ∧ param r1 "state" = rawurl_encode random ∧ t / second < (t0 + stateTTL) / second ∧
    stays (handleAuthCallback t r1 (Some gh) a).
Proof.
  intros J Ho On U. unfold principalFrom. rewrite On. unfold decodeSession. destruct (_ || _); [done|].
  destruct (split_on _ _) as [|v [|payload [|sg [|? ?]]]] eqn:Sp; try done. destruct (negb _); [done|]. destruct (verified payload sg) as [raw|] eqn:V; [|done].
  destruct (unmarshal_p raw) as [q|] eqn:M; [|done]. destruct (Z.leb_spec (pr_Expires q) (now / second)) as [|Lt]; [done|].
  destruct (String.eqb_spec (pr_Provider q) "github") as [G|]; [cbn [negb orb]|done]. destruct (_ || _); [done|]. intros [= ->].
  specialize (U v payload sg eq_refl raw V). apply signed_elem in U as (x & Hx & Hr). destruct x as [t0 random r0|t r1 user a]; simpl in Hr.
  { exfalso. destruct oauthEnabled; [|by apply elem_of_nil in Hr]. apply list_elem_of_singleton in Hr as ->. apply (jl_sp J) in M. rewrite M in G. done. }
  destruct (sets_session _) eqn:Ss; [|by apply elem_of_nil in Hr]. destruct (callback_signs _ _ _ _ Ss) as (gh & st & -> & Rs & Ps & Ne & Loc).
  apply list_elem_of_singleton in Hr as ->. rewrite (jl_p J) in M. injection M as <-. apply list_elem_of_split in Hx as (l1 & l2 & ->).
  pose proof (honest_at [] _ l1 _ l2 Ho eq_refl) as Uc. simpl in Uc. destruct (state_was_begun l1 t r1 st J Uc Rs Ne) as (t0 & random & r0 & H0 & -> & L0).
  unfold json_state, state_of in Loc, Ps. cbn [st_Next st_Nonce] in Loc, Ps. rewrite (json_graphic _ (rawurl_printable random)) in Ps.
  exists l1, t, r1, gh, a, l2, t0, random, r0. split_and!; try done. intros l El. rewrite El in Loc.
  set (next := json_text (safeNext (param r0 "next"))) in *.
  assert (l = pendingNext next ∨ l = emailNext next ∨ l = next) as [->|[->| ->]] by set_solver.
  - apply pendingNext_local. - apply emailNext_local. - apply json_local, safeNext_local.
Qed.

(** What passes the middleware. *)
Lemma mutations_are_own random r set : securityMiddleware random r = (None, set) → r_Method r ≠ "GET"%string →
  r_Method r = "POST"%string ∧ r_Path r ∈ mutationPaths ∧ sameOrigin r = true ∧ r_bodySize r ≤ maxPortalBodyBytes ∧
  header r "X-CSRF-Token" = cookieValue r "wanctl_csrf" ∧ validCSRFToken (cookieValue r "wanctl_csrf") = true.
Proof.
  unfold securityMiddleware. cbv zeta. intros E N. destruct (negb (methodAllowed _ _ _)) eqn:A; [done|]. apply negb_false_iff in A.
  destruct (any (String.eqb (r_Path r)) mutationPaths) eqn:P.
  2: { exfalso. unfold methodAllowed in A. by apply String.eqb_eq in A. }
  assert (r_Method r = "POST"%string) as Em.
  { unfold methodAllowed in A. destruct (String.eqb_spec (r_Method r) "POST"); [done|]. simpl in A. by apply andb_true_iff in A as [_ A%String.eqb_eq]. }
  rewrite Em in E. cbn [String.eqb andb] in E. simpl in E. destruct (sameOrigin r); [simpl in E|done]. destruct (validDoubleSubmit r) eqn:D; [simpl in E|done].
  destruct (Z.ltb_spec maxPortalBodyBytes (r_bodySize r)); [done|]. unfold validDoubleSubmit in D. apply andb_true_iff in D as [D1 D2%String.eqb_eq].
  apply any_true in P as (x & Hx & ->%String.eqb_eq). done.
Qed.
End portal.

(** ** Witness: a login, its callback, and a request with the session *)

Module Demo.

(** A JSON to run with: the fields as one number in base two, behind a letter. *)
Fixpoint bits (p : positive) : string := match p with xH => "" | xO p => String "0" (bits p) | xI p => String "1" (bits p) end.
Fixpoint of_bits (s : string) : option positive :=
  match s with
  | EmptyString => Some xH
  | String c s => match of_bits s with Some p => if Ascii.eqb c "0" then Some (xO p) else if Ascii.eqb c "1" then Some (xI p) else None | None => None end
  end.

Lemma of_bits_bits p : of_bits (bits p) = Some p.
Proof. induction p; simpl; [by rewrite IHp|by rewrite IHp|done]. Qed.

Definition marshal_p (p : principal) : string :=
  String "P" (bits (encode (pr_Provider p, pr_Subject p, pr_Login p, pr_Name p, pr_Expires p, pr_Issued p))).
Definition marshal_s (s : oauthState) : string := String "S" (bits (encode (st_Nonce s, st_Next s, st_Expires s))).

Definition unmarshal_p (raw : string) : option principal :=
  match raw with
  | String c s =>
      match of_bits s with
      | None => None
      | Some n =>
          if Ascii.eqb c "P" then match decode n with Some (a, b, c, d, e, f) => Some (json_principal (Principal a b c d e f)) | None => None end
          else match decode n with Some (a, b, e) => let '(_, _) := (a : string, b : string) in Some (Principal "" "" "" "" e 0) | None => None end
      end
  | EmptyString => None
  end.
Definition unmarshal_s (raw : string) : option oauthState :=
  match raw with
  | String c s =>
      match of_bits s with
      | None => None
      | Some n =>
          if Ascii.eqb c "S" then match decode n with Some (a, b, e) => Some (json_state (OAuthState a b e)) | None => None end
          else Some (OAuthState "" "" 0)
      end
  | EmptyString => None
  end.

Lemma laws : json_laws marshal_p unmarshal_p marshal_s unmarshal_s.
Proof.
  split.
  - intros []. unfold unmarshal_p, marshal_p. cbn [Ascii.eqb Bool.eqb]. rewrite of_bits_bits. simpl. by rewrite decode_encode.
  - intros []. unfold unmarshal_s, marshal_s. rewrite of_bits_bits. simpl. by rewrite decode_encode.
  - intros s p. unfold unmarshal_p, marshal_s. rewrite of_bits_bits. simpl. destruct (decode _) as [[[a b] e]|]; [by intros [= <-]|done].
  - intros p s. unfold unmarshal_s, marshal_p. rewrite of_bits_bits. simpl. by intros [= <-].
Qed.

Definition cfg : config := Config "id" "key" "" "https://p" "https://github.com" false "https://relay" "secret".
Definition bare (query cookies : gmap string string) : request := Request "GET" "/" "p" true "https" query cookies ∅ 0.
(** A path that is not UTF-8, which JSON changes. *)
Definition begun : request := bare {["next" := String "/" (String "255" "")]}%string ∅.
Definition cookie_set (p : response) (name : string) : string :=
  match find_first (λ c, String.eqb c.1.1 name && negb (String.eqb c.1.2 "")) (p_cookies p) with Some c => c.1.2 | None => "" end.
Definition returned : request :=
  bare {["state" := rawurl_encode "n"; "code" := "c"]}%string
    {["wanctl_oauth_state" := cookie_set (@handleAuthStart ascii_libraries cfg marshal_s second "n" begun) "wanctl_oauth_state"]}%string.
Definition ada : githubUser := GithubUser "7" "ada" "".
Definition admitted : relay_answer := RelayAnswer 200 "" "ada" "user" true.
Definition history : list deed := [Started second "n" begun; Called (2 * second) returned (Some ada) admitted].
Definition visit : request :=
  bare ∅ {["wanctl_session" := cookie_set (@handleAuthCallback cfg marshal_p unmarshal_s (2 * second) returned (Some ada) admitted) "wanctl_session"]}%string.


(** The two conditions on signatures, as tests. *)
Definition unforged_test (ds : list deed) (payload signature : string) : bool :=
  match verified cfg payload signature with
  | Some raw => any (String.eqb raw) (signed cfg marshal_p marshal_s unmarshal_s ds)
  | None => true
  end.
Definition state_test (ds : list deed) (r : request) : bool :=
  match split_on "." (cookieValue r "wanctl_oauth_state") with [p; s] => unforged_test ds p s | _ => true end.
Definition session_test (ds : list deed) (r : request) : bool :=
  match split_on "." (cookieValue r "wanctl_session") with [_; p; s] => unforged_test ds p s | _ => true end.

Lemma unforged_ok ds p s : unforged_test ds p s = true → unforged cfg marshal_p marshal_s unmarshal_s ds p s.
Proof. intros T raw V. unfold unforged_test in T. rewrite V in T. apply any_true in T as (x & Hx & ->%String.eqb_eq). done. Qed.
Lemma state_ok ds r : state_test ds r = true → state_cookie_unforged cfg marshal_p marshal_s unmarshal_s ds r.
Proof. intros T p s E. unfold state_test in T. rewrite E in T. by apply unforged_ok. Qed.
Lemma session_ok ds r : session_test ds r = true → ∀ v p s, split_on "." (cookieValue r "wanctl_session") = [v; p; s] → unforged cfg marshal_p marshal_s unmarshal_s ds p s.
Proof. intros T v p s E. unfold session_test in T. rewrite E in T. by apply unforged_ok. Qed.

Lemma only_github_signs_in_witness :
  ∃ l1 t r1 gh a l2 t0 random r0, history = l1 ++ Called t r1 (Some gh) a :: l2 ∧ session_of (2 * second) ada = json_principal (session_of t gh) ∧ 3 * second / second < (t + sessionTTL) / second ∧
    Started t0 random r0 ∈ l1 ∧ param r1 "state" = rawurl_encode random ∧ t / second < (t0 + stateTTL) / second ∧
    stays (handleAuthCallback cfg marshal_p unmarshal_s t r1 (Some gh) a).
Proof.
  apply (only_github_signs_in cfg (λ _, None) marshal_p unmarshal_p marshal_s unmarshal_s history (3 * second) visit _ laws).
  - split; [done|]. split; [|done]. apply state_ok. vm_compute. reflexivity.
  - reflexivity.
  - apply session_ok. vm_compute. reflexivity.
  - vm_compute. reflexivity.
Defined.

End Demo.
