(* ===== verification/DeviceConn.v ===== *)
(** [internal/portal/deviceconn.go]: the connection the portal keeps to a
    device's console, and [deviceConnFor], the pool of [portal.go].

    One connection serves many requests of the portal: callers take turns with
    [rpcMu], a read loop sorts what the device sends into answers, approval
    notifications and replies of the approval phone, and anyone may close it.
    All of this runs concurrently, so the connection is a transition system: a
    step is one critical section or one channel operation of the code. *)

From S2P Require Import Prelude.

Definition maxUnclaimedReplies : nat := 16.
Definition notifBuffer : nat := 8.

(** ** Channels with subscribers *)

Record channel (A : Type) := Channel { c_buf : list A; c_open : bool }.
Arguments Channel {A} c_buf c_open.
Arguments c_buf {A} _.
Arguments c_open {A} _.

(** [select { case ch <- v: default: }] *)
Definition try_send {A} (cap : nat) (v : A) (c : channel A) : channel A :=
  if (length (c_buf c) <? cap)%nat then Channel (c_buf c ++ [v]) (c_open c) else c.

Definition close_chan {A} (c : channel A) : channel A := Channel (c_buf c) false.

(** The channels ever made, the ones in the map, and whether a send on a closed
    channel or a second close has panicked. *)
Record hub (A : Type) := Hub { h_chans : gmap nat (channel A); h_map : gset nat; h_panicked : bool }.
Arguments Hub {A} h_chans h_map h_panicked.
Arguments h_chans {A} _.
Arguments h_map {A} _.
Arguments h_panicked {A} _.

Definition open_at {A} (h : hub A) (i : nat) : bool := match h_chans h !! i with Some c => c_open c | None => false end.
Definition some_closed {A} (h : hub A) (l : list nat) : bool := any (λ i, negb (open_at h i)) l.
Definition at_each {A} (f : channel A → channel A) (s : gset nat) (m : gmap nat (channel A)) : gmap nat (channel A) :=
  map_imap (λ i c, Some (if decide (i ∈ s) then f c else c)) m.

(** [for ch := range d.notifs { select … }] *)
Definition publish {A} (cap : nat) (v : A) (h : hub A) : hub A :=
  Hub (at_each (try_send cap v) (h_map h) (h_chans h)) (h_map h) (h_panicked h || some_closed h (elements (h_map h))).

(** A new channel, with what it begins with; registered while the connection is
    open, closed at birth afterwards. *)
Definition register {A} (closed : bool) (i : nat) (first : list A) (h : hub A) : hub A :=
  Hub (<[i := Channel (if closed then [] else first) (negb closed)]> (h_chans h)) (if closed then h_map h else {[i]} ∪ h_map h) (h_panicked h).

(** The cancel function: only the holder of the map entry closes. *)
Definition unregister {A} (i : nat) (h : hub A) : hub A :=
  if decide (i ∈ h_map h) then Hub (at_each close_chan {[i]} (h_chans h)) (h_map h ∖ {[i]}) (h_panicked h || negb (open_at h i)) else h.

(** The end of [close]: every subscriber is woken. *)
Definition wake_all {A} (h : hub A) : hub A :=
  Hub (at_each close_chan (h_map h) (h_chans h)) ∅ (h_panicked h || some_closed h (elements (h_map h))).

Definition receive {A} (i : nat) (h : hub A) : hub A :=
  Hub (at_each (λ c, Channel (drop 1 (c_buf c)) (c_open c)) {[i]} (h_chans h)) (h_map h) (h_panicked h).

(** What holds of a hub at all times: the registered channels are the open ones,
    and nothing panicked. *)
Record hub_ok {A} (cap : nat) (h : hub A) : Prop := {
  ho_open : ∀ i, i ∈ h_map h ↔ open_at h i = true;
  ho_cap : ∀ i c, h_chans h !! i = Some c → length (c_buf c) ≤ cap;
  ho_calm : h_panicked h = false }.

Section hubs.
Context {A : Type}.
Implicit Types (h : hub A) (cap : nat).

Lemma lookup_at_each (f : channel A → channel A) (s : gset nat) m i :
  at_each f s m !! i = match m !! i with Some c => Some (if decide (i ∈ s) then f c else c) | None => None end.
Proof. unfold at_each. rewrite map_lookup_imap. by destruct (m !! i). Qed.

Lemma open_at_each f s h l p i :
  (∀ c, c_open (f c) = c_open c) → open_at (Hub (at_each f s (h_chans h)) l p) i = open_at h i.
Proof. intros F. unfold open_at. simpl. rewrite lookup_at_each. destruct (h_chans h !! i); [|done]. destruct (decide _); [by rewrite F|done]. Qed.

Lemma open_closed s h l p i : open_at (Hub (at_each close_chan s (h_chans h)) l p) i = open_at h i && negb (bool_decide (i ∈ s)).
Proof.
  unfold open_at. simpl. rewrite lookup_at_each. destruct (h_chans h !! i); [|done]. case_bool_decide; destruct (decide _); try done; simpl.
  - by rewrite andb_false_r.
  - by rewrite andb_true_r.
Qed.

Lemma all_open cap h : hub_ok cap h → some_closed h (elements (h_map h)) = false.
Proof. intros [O _ _]. apply any_false. intros i Hi%elem_of_elements%O. by rewrite Hi. Qed.

Lemma length_try_send cap (v : A) c : length (c_buf c) ≤ cap → length (c_buf (try_send cap v c)) ≤ cap.
Proof. intros L. unfold try_send. destruct (Nat.ltb_spec (length (c_buf c)) cap); [simpl; rewrite length_app; simpl; lia|done]. Qed.

Lemma publish_ok cap v h : hub_ok cap h → hub_ok cap (publish cap v h).
Proof.
  intros O. pose proof (all_open _ _ O) as Al. destruct O as [O1 O2 O3]. split; unfold publish; simpl.
  - intros i. rewrite open_at_each; [apply O1|]. intros c. unfold try_send. by destruct (_ <? _)%nat.
  - intros i c. rewrite lookup_at_each. destruct (h_chans h !! i) eqn:E; [|done]. intros [= <-]. destruct (decide _); [|eauto]. apply length_try_send. eauto.
  - by rewrite O3, Al.
Qed.

Lemma register_ok cap closed i first h : hub_ok cap h → h_chans h !! i = None → length first ≤ cap → hub_ok cap (register closed i first h).
Proof.
  intros [O1 O2 O3] F L. assert (i ∉ h_map h) as N. { intros Hi%O1. unfold open_at in Hi. by rewrite F in Hi. }
  split; unfold register; simpl; [| |done].
  - intros j. unfold open_at in *. simpl. destruct (decide (j = i)) as [->|D].
    + rewrite lookup_insert_eq. destruct closed; simpl; set_solver.
    + rewrite lookup_insert_ne by done. rewrite <- O1. destruct closed; set_solver.
  - intros j c. destruct (decide (j = i)) as [->|D]; [rewrite lookup_insert_eq|rewrite lookup_insert_ne by done; eauto].
    intros [= <-]. destruct closed; simpl; [lia|done].
Qed.

Lemma unregister_ok cap i h : hub_ok cap h → hub_ok cap (unregister i h).
Proof.
  intros [O1 O2 O3]. unfold unregister. destruct (decide _) as [Hi|]; [|done]. split; simpl.
  - intros j. rewrite open_closed. rewrite andb_true_iff, negb_true_iff, bool_decide_eq_false, <- O1. set_solver.
  - intros j c. rewrite lookup_at_each. destruct (h_chans h !! j) eqn:E; [|done]. intros [= <-]. destruct (decide _); [|eauto]. simpl. eauto.
  - rewrite O3. by rewrite (proj1 (O1 i) Hi).
Qed.

Lemma wake_ok cap h : hub_ok cap h → hub_ok cap (wake_all h).
Proof.
  intros O. pose proof (all_open _ _ O) as Al. destruct O as [O1 O2 O3]. split; unfold wake_all; simpl.
  - intros i. rewrite open_closed, andb_true_iff, negb_true_iff, bool_decide_eq_false, <- O1. set_solver.
  - intros j c. rewrite lookup_at_each. destruct (h_chans h !! j) eqn:E; [|done]. intros [= <-]. destruct (decide _); [|eauto]. simpl. eauto.
  - by rewrite O3, Al.
Qed.

Lemma receive_ok cap i h : hub_ok cap h → hub_ok cap (receive i h).
Proof.
  intros [O1 O2 O3]. split; unfold receive; simpl; [|..|done].
  - intros j. by rewrite open_at_each.
  - intros j c. rewrite lookup_at_each. destruct (h_chans h !! j) eqn:E; [|done]. intros [= <-]. specialize (O2 _ _ E). destruct (decide _); [simpl; rewrite length_drop; lia|done].
Qed.
End hubs.

(** ** One connection *)

Section connection.
Context {A St R : Type}.

(** An answer carries the number of the request it answers: the device does not
    send it, the model remembers it. *)
Inductive message := Answer (c : nat) (a : A) | ApprovalNotif (st : St) | ApprovalReply (m : R) | InstallProgress.

Inductive phase := Writing | Waiting | Failing | TimingOut.
Inductive loop := Reading | Holding (c : nat) (a : A) | Ending | Ended.
Inductive outcome := Replied (c : nat) (a : A) | WriteFailed | ConnectionClosed | TimedOut.

(** [d_stage]: how far [close] came: not begun, [closed] closed, the connection
    closed, the subscribers woken.  [d_mu]: who holds [rpcMu], what it is doing,
    and whether the connection was open when its request was written. *)
Record dconn := DConn {
  d_calls : nat; d_asked : list nat; d_wire : list message; d_resp : option (nat * A); d_loop : loop; d_stage : nat;
  d_mu : option (nat * phase * bool); d_notifs : hub St; d_replies : hub R; d_unclaimed : list R; d_results : list (nat * outcome * bool) }.

Definition newDeviceConn : dconn := DConn 0 [] [] None Reading 0 None (Hub ∅ ∅ false) (Hub ∅ ∅ false) [] [].

Inductive event :=
| Lock | Written | WriteError (heard : bool) | TakeReply | SeeClosed | TimeUp | GiveUp
| CloseSignal | CloseConn | CloseWake
| DeviceAnswers (a : A) | DeviceSays (m : message) | Read | HandOver | ReadError | LoopEnds
| Subscribe (i : nat) | Unsubscribe (i : nat) | Receive (i : nat) | Replies (i : nat) | Unreply (i : nat) | ReceiveReply (i : nat).

Definition with_mu (mu : option (nat * phase * bool)) (d : dconn) : dconn :=
  DConn (d_calls d) (d_asked d) (d_wire d) (d_resp d) (d_loop d) (d_stage d) mu (d_notifs d) (d_replies d) (d_unclaimed d) (d_results d).
Definition asking (l : list nat) (d : dconn) : dconn :=
  DConn (d_calls d) l (d_wire d) (d_resp d) (d_loop d) (d_stage d) (d_mu d) (d_notifs d) (d_replies d) (d_unclaimed d) (d_results d).
Definition with_wire (l : list message) (d : dconn) : dconn :=
  DConn (d_calls d) (d_asked d) l (d_resp d) (d_loop d) (d_stage d) (d_mu d) (d_notifs d) (d_replies d) (d_unclaimed d) (d_results d).
Definition with_loop (l : loop) (r : option (nat * A)) (d : dconn) : dconn :=
  DConn (d_calls d) (d_asked d) (d_wire d) r l (d_stage d) (d_mu d) (d_notifs d) (d_replies d) (d_unclaimed d) (d_results d).
Definition with_stage (n : nat) (d : dconn) : dconn :=
  DConn (d_calls d) (d_asked d) (d_wire d) (d_resp d) (d_loop d) n (d_mu d) (d_notifs d) (d_replies d) (d_unclaimed d) (d_results d).
Definition with_hubs (n : hub St) (r : hub R) (u : list R) (d : dconn) : dconn :=
  DConn (d_calls d) (d_asked d) (d_wire d) (d_resp d) (d_loop d) (d_stage d) (d_mu d) n r u (d_results d).

(** The deferred unlock: the call returns. *)
Definition returns (c : nat) (o : outcome) (b : bool) (resp : option (nat * A)) (d : dconn) : dconn :=
  DConn (d_calls d) (d_asked d) (d_wire d) resp (d_loop d) (d_stage d) None (d_notifs d) (d_replies d) (d_unclaimed d) (d_results d ++ [(c, o, b)]).

Definition is_open (d : dconn) : bool := (d_stage d =? 0)%nat.
Definition alive (d : dconn) : bool := is_open d.

(** Kept for a listener that has not subscribed yet: the newest ones. *)
Definition keep_unclaimed (m : R) (l : list R) : list R :=
  (if (length l =? maxUnclaimedReplies)%nat then drop 1 l else l) ++ [m].

(** One turn of [readLoop], once a message is read. *)
Definition readLoop (m : message) (d : dconn) : dconn :=
  match m with
  | Answer c a => with_loop (Holding c a) (d_resp d) d
  | ApprovalNotif st => with_hubs (publish notifBuffer st (d_notifs d)) (d_replies d) (d_unclaimed d) d
  | ApprovalReply m =>
      with_hubs (d_notifs d) (publish maxUnclaimedReplies m (d_replies d))
        (if bool_decide (h_map (d_replies d) = ∅) then keep_unclaimed m (d_unclaimed d) else d_unclaimed d) d
  | InstallProgress => d
  end.

Definition subscribe (i : nat) (d : dconn) : dconn :=
  with_hubs (register (negb (is_open d)) i [] (d_notifs d)) (d_replies d) (d_unclaimed d) d.
Definition replies (i : nat) (d : dconn) : dconn :=
  with_hubs (d_notifs d) (register (negb (is_open d)) i (d_unclaimed d) (d_replies d)) (if is_open d then [] else d_unclaimed d) d.

Definition fresh_chan {X} (i : nat) (h : hub X) : bool := match h_chans h !! i with None => true | Some _ => false end.

(** What can happen next; [None] when it cannot. *)
Definition happen (e : event) (d : dconn) : option dconn :=
  match e, d_mu d, d_loop d with
  | Lock, None, _ =>
      Some (DConn (S (d_calls d)) (d_asked d) (d_wire d) (d_resp d) (d_loop d) (d_stage d) (Some (d_calls d, Writing, false)) (d_notifs d) (d_replies d) (d_unclaimed d) (d_results d))
  | Written, Some (c, Writing, _), _ => if (d_stage d <? 2)%nat then Some (with_mu (Some (c, Waiting, is_open d)) (asking (d_asked d ++ [c]) d)) else None
  | WriteError heard, Some (c, Writing, b), _ => Some (with_mu (Some (c, Failing, b)) (if heard then asking (d_asked d ++ [c]) d else d))
  | TakeReply, Some (c, Waiting, b), _ => match d_resp d with Some (c', a) => Some (returns c (Replied c' a) b None d) | None => None end
  | SeeClosed, Some (c, Waiting, b), _ => if is_open d then None else Some (returns c ConnectionClosed b (d_resp d) d)
  | TimeUp, Some (c, Waiting, b), _ => Some (with_mu (Some (c, TimingOut, b)) d)
  | GiveUp, Some (c, Failing, b), _ => if (d_stage d =? 3)%nat then Some (returns c WriteFailed b None d) else None
  | GiveUp, Some (c, TimingOut, b), _ => if (d_stage d =? 3)%nat then Some (returns c TimedOut b (d_resp d) d) else None
  | CloseSignal, _, _ => if (d_stage d =? 0)%nat then Some (with_stage 1 d) else None
  | CloseConn, _, _ => if (d_stage d =? 1)%nat then Some (with_stage 2 d) else None
  | CloseWake, _, _ => if (d_stage d =? 2)%nat then Some (with_stage 3 (with_hubs (wake_all (d_notifs d)) (wake_all (d_replies d)) (d_unclaimed d) d)) else None
  | DeviceAnswers a, _, _ => match d_asked d with c :: l => Some (with_wire (d_wire d ++ [Answer c a]) (asking l d)) | [] => None end
  | DeviceSays m, _, _ => match m with Answer _ _ => None | _ => Some (with_wire (d_wire d ++ [m]) d) end
  | Read, _, Reading => if (d_stage d <? 2)%nat then match d_wire d with m :: l => Some (readLoop m (with_wire l d)) | [] => None end else None
  | HandOver, _, Holding c a => match d_resp d with None => Some (with_loop Reading (Some (c, a)) d) | Some _ => None end
  | ReadError, _, Reading => Some (with_loop Ending (d_resp d) d)
  | ReadError, _, Holding _ _ => if is_open d then None else Some (with_loop Ending (d_resp d) d)
  | LoopEnds, _, Ending => if (d_stage d =? 3)%nat then Some (with_loop Ended (d_resp d) d) else None
  | Subscribe i, _, _ => if fresh_chan i (d_notifs d) then Some (subscribe i d) else None
  | Unsubscribe i, _, _ => Some (with_hubs (unregister i (d_notifs d)) (d_replies d) (d_unclaimed d) d)
  | Receive i, _, _ => Some (with_hubs (receive i (d_notifs d)) (d_replies d) (d_unclaimed d) d)
  | Replies i, _, _ => if fresh_chan i (d_replies d) then Some (replies i d) else None
  | Unreply i, _, _ => Some (with_hubs (d_notifs d) (unregister i (d_replies d)) (d_unclaimed d) d)
  | ReceiveReply i, _, _ => Some (with_hubs (d_notifs d) (receive i (d_replies d)) (d_unclaimed d) d)
  | _, _, _ => None
  end.

Fixpoint happen_all (es : list event) (d : dconn) : option dconn :=
  match es with [] => Some d | e :: es => match happen e d with Some d => happen_all es d | None => None end end.

Definition dstep (d d' : dconn) : Prop := ∃ e, happen e d = Some d'.

(** ** Whose answers are about *)

Definition answer_of (m : message) : option nat := match m with Answer c _ => Some c | _ => None end.
Definition held (l : loop) : list nat := match l with Holding c _ => [c] | _ => [] end.
Definition outstanding (d : dconn) : list nat :=
  d_asked d ++ omap answer_of (d_wire d) ++ held (d_loop d) ++ match d_resp d with Some (c, _) => [c] | None => [] end.

Record conn_ok (d : dconn) : Prop := {
  co_notifs : hub_ok notifBuffer (d_notifs d);
  co_replies : hub_ok maxUnclaimedReplies (d_replies d);
  co_unclaimed : length (d_unclaimed d) ≤ maxUnclaimedReplies;
  co_woken : d_stage d = 3 → h_map (d_notifs d) = ∅ ∧ h_map (d_replies d) = ∅;
  co_idle : d_stage d = 0 → match d_mu d with None | Some (_, Writing, _) => length (outstanding d) = 0 | Some (_, Waiting, b) => b = true | _ => True end;
  co_turn : ∀ c, d_mu d = Some (c, Waiting, true) → length (outstanding d) ≤ 1 ∧ ∀ x, x ∈ outstanding d → x = c;
  co_own : ∀ c c' a, (c, Replied c' a, true) ∈ d_results d → c' = c }.

(** Steps of the device, of the read loop and of subscribers: an answer moves
    along, or is lost. *)
Lemma conn_ok_moved d d' :
  conn_ok d → length (outstanding d') ≤ length (outstanding d) → (∀ x, x ∈ outstanding d' → x ∈ outstanding d) →
  d_stage d' = d_stage d → d_mu d' = d_mu d → d_results d' = d_results d →
  hub_ok notifBuffer (d_notifs d') → hub_ok maxUnclaimedReplies (d_replies d') → length (d_unclaimed d') ≤ maxUnclaimedReplies →
  (d_stage d = 3 → h_map (d_notifs d') = ∅ ∧ h_map (d_replies d') = ∅) → conn_ok d'.
Proof.
  intros [C1 C2 C3 C5 C6 C7 C8] L P Es Em Er H1 H2 H3 H4. split; rewrite ?Es, ?Em, ?Er; try done.
  - intros Z. specialize (C6 Z). destruct (d_mu d) as [[[c []] b]|]; try done; lia.
  - intros c E. destruct (C7 c E) as [K1 K2]. split; [lia|auto].
Qed.

Lemma fresh_chan_None {X} i (h : hub X) : fresh_chan i h = true → h_chans h !! i = None.
Proof. unfold fresh_chan. by destruct (_ !! i). Qed.

Lemma keep_unclaimed_length m l : length l ≤ maxUnclaimedReplies → length (keep_unclaimed m l) ≤ maxUnclaimedReplies.
Proof. intros L. unfold keep_unclaimed. rewrite length_app. simpl. destruct (Nat.eqb_spec (length l) maxUnclaimedReplies); [rewrite length_drop|]; unfold maxUnclaimedReplies in *; lia. Qed.

Lemma conn_fresh_ok : conn_ok newDeviceConn.
Proof.
  assert (∀ X cap, hub_ok cap (Hub ∅ ∅ false : hub X)) as Hh.
  { intros X cap. split; [|by intros i c|done]. intros i. unfold open_at. simpl. rewrite lookup_empty. split; [set_solver|done]. }
  split; simpl; try done; try lia. by intros c c' a E%elem_of_nil.
Qed.

(** Steps of the callers. *)
Lemma caller_step e d d' : e ∈ [Lock; Written; WriteError true; WriteError false; TakeReply; SeeClosed; TimeUp; GiveUp] →
  conn_ok d → happen e d = Some d' → conn_ok d'.
Proof.
  intros He [C1 C2 C3 C5 C6 C7 C8] E. destruct d as [calls asked wire resp loop stage mu ns rs un res]. unfold outstanding in *. simpl in *.
  repeat (apply elem_of_cons in He as [->|He]); [..|by apply elem_of_nil in He]; simpl in E; destruct mu as [[[c []] b]|]; try discriminate E.
  - injection E as <-. by split.
  - destruct (Nat.ltb_spec stage 2); [|done]. injection E as <-. split; try done; unfold outstanding, is_open; simpl; [by intros ->|]. intros c' [= <- Hs%Nat.eqb_eq].
    specialize (C6 Hs). rewrite !length_app in *. simpl. split; [lia|]. destruct asked; [|simpl in C6; lia]. destruct (omap _ _); [|simpl in C6; lia].
    destruct (held loop); [|simpl in C6; lia]. destruct resp as [[]|]; simpl in *; [lia|]. by intros x ->%list_elem_of_singleton.
  - injection E as <-. by split.
  - injection E as <-. by split.
  - destruct resp as [[c' a]|]; [|done]. injection E as <-. rewrite !length_app in *. simpl in *. split; try done; simpl; unfold outstanding; simpl.
    + intros Z. rewrite (C6 Z) in C7. destruct (C7 c eq_refl) as [L _]. rewrite !length_app in *. simpl in *. lia.
    + intros x y z. rewrite elem_of_app, list_elem_of_singleton. intros [Hx|Hx]; [eauto|]. injection Hx as -> -> -> <-. apply (proj2 (C7 c eq_refl)). set_solver.
  - unfold is_open in E. simpl in E. destruct (Nat.eqb_spec stage 0) as [|N]; [done|]. injection E as <-. split; try done. simpl. intros x y z. rewrite elem_of_app, list_elem_of_singleton. intros [Hx|Hx]; [eauto|done].
  - injection E as <-. by split.
  - destruct (Nat.eqb_spec stage 3); [|done]. injection E as <-. subst. split; try done. simpl. intros x y z. rewrite elem_of_app, list_elem_of_singleton. intros [Hx|Hx]; [eauto|done].
  - destruct (Nat.eqb_spec stage 3); [|done]. injection E as <-. subst. split; try done. simpl. intros x y z. rewrite elem_of_app, list_elem_of_singleton. intros [Hx|Hx]; [eauto|done].
Qed.

(** The steps of [close]. *)
Lemma close_step e d d' : e ∈ [CloseSignal; CloseConn; CloseWake] → conn_ok d → happen e d = Some d' → conn_ok d'.
Proof.
  intros He [C1 C2 C3 C5 C6 C7 C8] E. destruct d as [calls asked wire resp loop stage mu ns rs un res]. unfold outstanding in *. simpl in *.
  repeat (apply elem_of_cons in He as [->|He]); [..|by apply elem_of_nil in He]; simpl in E;
    (destruct stage as [|[|[|stage]]]; try discriminate E; injection E as <-; split; try done; simpl; eauto using wake_ok).
Qed.

Lemma register_map {X} i l (h : hub X) : h_map (register true i l h) = h_map h.
Proof. done. Qed.

Lemma unregister_map {X} i (h : hub X) : h_map (unregister i h) ⊆ h_map h.
Proof. unfold unregister. destruct (decide _); simpl; set_solver. Qed.

(** All others. *)
Definition by_caller (e : event) : bool :=
  match e with Lock | Written | WriteError _ | TakeReply | SeeClosed | TimeUp | GiveUp | CloseSignal | CloseConn | CloseWake => true | _ => false end.

Ltac moved I :=
  apply (conn_ok_moved _ _ I); unfold outstanding; simpl in *; rewrite ?omap_app, ?length_app in *; simpl;
  eauto using publish_ok, register_ok, unregister_ok, receive_ok, fresh_chan_None, keep_unclaimed_length;
  try lia; try (intros x; rewrite ?elem_of_app; set_solver).

Lemma no_maps d : conn_ok d → d_stage d = 3 → h_map (d_notifs d) = ∅ ∧ h_map (d_replies d) = ∅.
Proof. by intros []. Qed.

Lemma other_step e d d' : by_caller e = false → conn_ok d → happen e d = Some d' → conn_ok d'.
Proof.
  intros N I E. pose proof I as [C1 C2 C3 C5 _ _ _]. destruct d as [calls asked wire resp loop stage mu ns rs un res].
  destruct e; try discriminate N; clear N; simpl in *.
  - destruct asked as [|c asked]; [done|]. injection E as <-. moved I.
  - destruct mu as [[[? []] ?]|], m; try discriminate E; injection E as <-; moved I.
  - assert (E' : loop = Reading ∧ ∃ m l, wire = m :: l ∧ readLoop m (DConn calls asked l resp loop stage mu ns rs un res) = d').
    { destruct mu as [[[? []] ?]|], loop; try discriminate E; (destruct (stage <? 2)%nat; [|done]); destruct wire as [|m l]; try discriminate E; injection E as E; eauto. }
    clear E. destruct E' as (-> & m & l & -> & <-). destruct m; simpl; moved I; try (case_bool_decide; by eauto using keep_unclaimed_length). apply Nat.eq_le_incl. by rewrite length_app, Nat.add_succ_r.
  - assert (E' : ∃ c a, loop = Holding c a ∧ resp = None ∧ DConn calls asked wire (Some (c, a)) Reading stage mu ns rs un res = d').
    { destruct mu as [[[? []] ?]|], loop as [|c a| |]; try discriminate E; (destruct resp; [done|]); injection E as E; eauto. }
    destruct E' as (c & a & -> & -> & <-). moved I.
  - assert (E' : DConn calls asked wire resp Ending stage mu ns rs un res = d').
    { destruct mu as [[[? []] ?]|], loop as [|c a| |]; try discriminate E; try (by injection E); unfold is_open in E; simpl in E; (destruct (stage =? 0)%nat; [done|]); by injection E. }
    subst d'. moved I.
  - assert (E' : loop = Ending ∧ DConn calls asked wire resp Ended stage mu ns rs un res = d').
    { destruct mu as [[[? []] ?]|], loop as [|c a| |]; try discriminate E; (destruct (stage =? 3)%nat; [|done]); by injection E. }
    destruct E' as [-> <-]. moved I.
  - assert (E' : h_chans ns !! i = None ∧ subscribe i (DConn calls asked wire resp loop stage mu ns rs un res) = d').
    { destruct mu as [[[? []] ?]|]; (destruct (fresh_chan i ns) eqn:F; [|done]); injection E as E; eauto using fresh_chan_None. }
    destruct E' as [F <-]. moved I. apply register_ok; simpl; eauto; lia.
  - assert (E' : with_hubs (unregister i ns) rs un (DConn calls asked wire resp loop stage mu ns rs un res) = d') by (by destruct mu as [[[? []] ?]|]; injection E).
    subst d'. moved I. intros Z. destruct (C5 Z) as [Z1 Z2]. split; [|done]. pose proof (unregister_map i ns). set_solver.
  - assert (E' : with_hubs (receive i ns) rs un (DConn calls asked wire resp loop stage mu ns rs un res) = d') by (by destruct mu as [[[? []] ?]|]; injection E).
    subst d'. moved I.
  - assert (E' : h_chans rs !! i = None ∧ replies i (DConn calls asked wire resp loop stage mu ns rs un res) = d').
    { destruct mu as [[[? []] ?]|]; (destruct (fresh_chan i rs) eqn:F; [|done]); injection E as E; eauto using fresh_chan_None. }
    destruct E' as [F <-]. moved I. destruct (is_open _); simpl; lia.
  - assert (E' : with_hubs ns (unregister i rs) un (DConn calls asked wire resp loop stage mu ns rs un res) = d') by (by destruct mu as [[[? []] ?]|]; injection E).
    subst d'. moved I. intros Z. destruct (C5 Z) as [Z1 Z2]. split; [done|]. pose proof (unregister_map i rs). set_solver.
  - assert (E' : with_hubs ns (receive i rs) un (DConn calls asked wire resp loop stage mu ns rs un res) = d') by (by destruct mu as [[[? []] ?]|]; injection E).
    subst d'. moved I.
Qed.

Lemma conn_step d d' : conn_ok d → dstep d d' → conn_ok d'.
Proof.
  intros I [e E]. destruct (by_caller e) eqn:B; [|by eapply other_step].
  destruct e as [| |[]| | | | | | | | | | | | | |i|i|i|i|i|i]; try discriminate B; first [eapply caller_step; [|exact I|exact E]; set_solver|eapply close_step; [|exact I|exact E]; set_solver].
Qed.
(** C29: an answer is the answer to one's own request.  However the callers of a
    connection, its read loop, its subscribers, timeouts and closes interleave, a
    request that was written while the connection was open is answered with what
    the device answered to it, or not at all; no channel is closed twice or sent on
    after its close; and once [close] returned, every channel a subscriber ever
    got is closed, so that nobody waits on a dead connection. *)
Theorem answers_are_own d : reachable (λ d, d = newDeviceConn) dstep d →
  (∀ c c' a, (c, Replied c' a, true) ∈ d_results d → c' = c) ∧
  h_panicked (d_notifs d) = false ∧ h_panicked (d_replies d) = false ∧
  (d_stage d = 3 → ∀ i, open_at (d_notifs d) i = false ∧ open_at (d_replies d) i = false).
Proof.
  intros Rd. assert (conn_ok d) as [C1 C2 C3 C5 C6 C7 C8].
  { revert d Rd. apply invariant_reachable; [intros d ->; apply conn_fresh_ok|apply conn_step]. }
  split; [done|]. split; [apply C1|]. split; [apply C2|]. intros Z i. destruct (C5 Z) as [Z1 Z2].
  split; apply not_true_iff_false; intros O; [apply (ho_open _ _ C1) in O|apply (ho_open _ _ C2) in O]; set_solver.
Qed.

(** Replies of the phone that come before anyone listens wait for the first
    listener, who begins with the newest of them, in order. *)
Lemma unclaimed_newest ms : fold_left (λ l m, keep_unclaimed m l) ms [] = drop (length ms - maxUnclaimedReplies) ms.
Proof.
  induction ms as [|m ms IH] using rev_ind; [done|]. rewrite fold_left_app, IH. simpl. unfold keep_unclaimed. rewrite length_drop, length_app. simpl.
  unfold maxUnclaimedReplies. destruct (Nat.eqb_spec (length ms - (length ms - 16)) 16) as [Eq|Ne].
  - rewrite drop_drop. replace (length ms + 1 - 16) with (length ms - 16 + 1) by lia. rewrite drop_app_le by lia. done.
  - rewrite !(proj2 (Nat.sub_0_le _ _)) by lia. done.
Qed.

Lemma first_listener i d : d_stage d = 0 → fresh_chan i (d_replies d) = true →
  ∃ d', happen (Replies i) d = Some d' ∧ h_chans (d_replies d') !! i = Some (Channel (d_unclaimed d) true) ∧ d_unclaimed d' = [].
Proof.
  intros Z F. assert (is_open d = true) as O by (unfold is_open; by rewrite Z). exists (replies i d). split; [destruct d as [calls asked wire resp loop stage [[[? []] ?]|] ns rs un res]; simpl in *; by rewrite F|].
  unfold replies. rewrite O. simpl. by rewrite lookup_insert_eq.
Qed.
End connection.

(** ** The pool of connections *)

Module Pool.

(** [Server.conns], the connections that are alive, what each was dialled for,
    and the dialled ones that are not in the pool yet. *)
Record pool := Pool { p_conns : gmap string nat; p_alive : gset nat; p_for : gmap nat string; p_fresh : gset nat; p_given : list (string * nat) }.

Definition empty : pool := Pool ∅ ∅ ∅ ∅ [].

Definition live_at (key : string) (p : pool) : option nat :=
  match p_conns p !! key with Some i => if decide (i ∈ p_alive p) then Some i else None | None => None end.

Definition give (key : string) (i : nat) (p : pool) : pool := Pool (p_conns p) (p_alive p) (p_for p) (p_fresh p) (p_given p ++ [(key, i)]).

(** The first critical section of [deviceConnFor]: a live connection, or the
    place is made free. *)
Definition take (key : string) (p : pool) : option nat * pool :=
  match live_at key p with
  | Some i => (Some i, give key i p)
  | None => (None, Pool (delete key (p_conns p)) (p_alive p) (p_for p) (p_fresh p) (p_given p))
  end.

(** [dialDeviceConn] succeeds. *)
Definition dial (key : string) (i : nat) (p : pool) : pool :=
  Pool (p_conns p) ({[i]} ∪ p_alive p) (<[i := key]> (p_for p)) ({[i]} ∪ p_fresh p) (p_given p).

Definition hang_up (i : nat) (p : pool) : pool := Pool (p_conns p) (p_alive p ∖ {[i]}) (p_for p) (p_fresh p) (p_given p).
Definition settled (i : nat) (p : pool) : pool := Pool (p_conns p) (p_alive p) (p_for p) (p_fresh p ∖ {[i]}) (p_given p).

(** The second critical section, and the close of a connection that lost. *)
Definition insert (key : string) (i : nat) (p : pool) : pool :=
  match live_at key p with
  | Some j => give key j (hang_up i (settled i p))
  | None => give key i (Pool (<[key := i]> (p_conns p)) (p_alive p) (p_for p) (p_fresh p ∖ {[i]}) (p_given p))
  end.

Definition dropConn (key : string) (p : pool) : pool :=
  match p_conns p !! key with
  | Some i => let p := hang_up i p in Pool (delete key (p_conns p)) (p_alive p) (p_for p) (p_fresh p) (p_given p)
  | None => p
  end.

Inductive pstep : pool → pool → Prop :=
| Take key p : pstep p (take key p).2
| Dial key i p : p_for p !! i = None → pstep p (dial key i p)
| Insert key i p : i ∈ p_fresh p → p_for p !! i = Some key → pstep p (insert key i p)
| Drop key p : pstep p (dropConn key p)
| Dies i p : pstep p (hang_up i p).

Record pool_ok (p : pool) : Prop := {
  po_alive : ∀ i, i ∈ p_alive p → i ∈ p_fresh p ∨ ∃ key, p_conns p !! key = Some i;
  po_for : ∀ key i, p_conns p !! key = Some i → p_for p !! i = Some key;
  po_fresh : ∀ i, i ∈ p_fresh p → ∃ key, p_for p !! i = Some key;
  po_given : ∀ key i, (key, i) ∈ p_given p → p_for p !! i = Some key }.

Lemma live_at_Some key p i : live_at key p = Some i → p_conns p !! key = Some i ∧ i ∈ p_alive p.
Proof. unfold live_at. destruct (p_conns p !! key); [|done]. destruct (decide _); [by intros [= <-]|done]. Qed.

Lemma live_at_None key p i : live_at key p = None → p_conns p !! key = Some i → i ∉ p_alive p.
Proof. unfold live_at. intros L E. rewrite E in L. by destruct (decide _). Qed.

Lemma pool_step p p' : pool_ok p → pstep p p' → pool_ok p'.
Proof.
  intros [P1 P2 P3 P4] S. destruct S as [key p|key i p N|key i p Hi Hf|key p|i p].
  - unfold take. destruct (live_at key p) as [i|] eqn:L; simpl.
    + apply live_at_Some in L as [L _]. split; simpl; try done. intros k j. rewrite elem_of_app, list_elem_of_singleton. intros [Hj|[= -> ->]]; eauto.
    + split; simpl; try done.
      * intros i Hi. destruct (P1 i Hi) as [?|[k E]]; [by left|right]. exists k. rewrite lookup_delete_ne; [done|]. intros <-. by apply (live_at_None _ _ _ L E).
      * intros k i [_ E]%lookup_delete_Some. eauto.
  - assert (∀ j, is_Some (p_for p !! j) → j ≠ i) as Ne by (intros j [k E] ->; congruence). split; simpl.
    + intros j. rewrite elem_of_union, elem_of_singleton. intros [->|Hj]; [left; set_solver|]. destruct (P1 j Hj) as [?|?]; [left; set_solver|by right].
    + intros k j E. rewrite lookup_insert_ne; [eauto|]. intros <-. specialize (P2 _ _ E). congruence.
    + intros j. rewrite elem_of_union, elem_of_singleton. intros [->|Hj]; [exists key; by rewrite lookup_insert_eq|]. destruct (P3 j Hj) as [k E]. exists k. rewrite lookup_insert_ne; [done|]. congruence.
    + intros k j E. rewrite lookup_insert_ne; [eauto|]. intros <-. specialize (P4 _ _ E). congruence.
  - unfold insert. destruct (live_at key p) as [j|] eqn:L; split; simpl; try done; eauto.
    + intros k Hk. destruct (P1 k ltac:(set_solver)) as [?|?]; [left; set_solver|by right].
    + intros k Hk. apply P3. set_solver.
    + intros k x. rewrite elem_of_app, list_elem_of_singleton. apply live_at_Some in L as [L _]. intros [Hx|[= -> ->]]; eauto.
    + intros k Hk. destruct (decide (k = i)) as [->|D]; [right; exists key; by rewrite lookup_insert_eq|]. destruct (P1 k Hk) as [?|[x E]]; [left; set_solver|right].
      exists x. rewrite lookup_insert_ne; [done|]. intros <-. by apply (live_at_None _ _ _ L E).
    + intros k x. rewrite lookup_insert_Some. intros [[<- <-]|[_ E]]; eauto.
    + intros k Hk. apply P3. set_solver.
    + intros k x. rewrite elem_of_app, list_elem_of_singleton. intros [Hx|[= -> ->]]; eauto.
  - unfold dropConn. destruct (p_conns p !! key) as [i|] eqn:E; [|done]. split; simpl; try done.
    + intros j Hj. destruct (P1 j ltac:(set_solver)) as [?|[k Ek]]; [by left|right]. exists k. rewrite lookup_delete_ne; [done|]. intros <-. set_solver.
    + intros k j [_ Ej]%lookup_delete_Some. eauto.
  - split; simpl; try done. intros j Hj. apply P1. set_solver.
Qed.

(** No connection leaks: one that is alive is in the pool, or in the hands of the
    caller that has just dialled it; and what a caller gets for a device was
    dialled for that device. *)
Lemma no_connection_leaks p : reachable (λ p, p = empty) pstep p →
  (∀ i, i ∈ p_alive p → i ∈ p_fresh p ∨ ∃ key, p_conns p !! key = Some i) ∧ (∀ key i, (key, i) ∈ p_given p → p_for p !! i = Some key).
Proof.
  intros Rp. assert (pool_ok p) as [P1 _ _ P4]; [|done]. revert p Rp. apply invariant_reachable; [intros p ->|apply pool_step].
  split; simpl; [set_solver|done|set_solver|by intros key i E%elem_of_nil].
Qed.

End Pool.

(** ** Evaluations *)

Module Demo.

Abbreviation conn := (@dconn string string string).

(** A reply of the phone that comes before anyone listens, a subscriber, a request
    with its answer, another that times out, and the close. *)
Definition visit : list event :=
  [DeviceSays (ApprovalReply "y"%string); Read; Replies 0; Subscribe 0; Lock; Written; DeviceSays (ApprovalNotif "pending"%string); DeviceAnswers "state"%string;
   Read; Read; HandOver; TakeReply; Lock; Written; TimeUp; CloseSignal; CloseConn; CloseWake; GiveUp; ReadError; LoopEnds; Subscribe 1].
Definition visited : conn := default newDeviceConn (happen_all visit newDeviceConn).

Lemma happen_all_steps (es : list event) (d d' : conn) : happen_all es d = Some d' → rtc dstep d d'.
Proof.
  revert d. induction es as [|e es IH]; intros d; simpl; [intros [= <-]; apply rtc_refl|]. destruct (happen e d) as [d1|] eqn:E; [|done].
  intros H. eapply rtc_l; [by exists e|by apply IH].
Qed.

Lemma visited_reachable : reachable (λ d, d = newDeviceConn) dstep visited.
Proof. exists newDeviceConn. split; [done|]. apply (happen_all_steps visit). vm_compute. reflexivity. Qed.

Lemma answers_are_own_witness :
  d_results visited = [(0, Replied 0 "state"%string, true); (1, TimedOut, true)] ∧ h_panicked (d_notifs visited) = false ∧
  h_chans (d_replies visited) !! 0 = Some (Channel ["y"%string] false) ∧ (∀ i, open_at (d_notifs visited) i = false).
Proof.
  destruct (answers_are_own visited visited_reachable) as (_ & P & _ & C). split; [vm_compute; reflexivity|]. split; [exact P|].
  split; [vm_compute; reflexivity|]. intros i. exact (proj1 (C eq_refl i)).
Defined.

(** Between the moment [close] says that it is closed and the moment it closes the
    socket, a request can still be written; and the answer to the one before,
    whose caller has left, is still there. *)
Definition stale_run : list (@event string string string) := [Lock; Written; DeviceAnswers "ok"%string; Read; HandOver; CloseSignal; SeeClosed; Lock; Written; TakeReply].
Definition stale : conn := default newDeviceConn (happen_all stale_run newDeviceConn).
Lemma stale_answer : reachable (λ d, d = newDeviceConn) dstep stale ∧ d_results stale = [(0, ConnectionClosed, true); (1, Replied 0 "ok"%string, false)].
Proof. split; [|vm_compute; reflexivity]. exists newDeviceConn. split; [done|]. apply (happen_all_steps stale_run). vm_compute. reflexivity. Qed.

End Demo.
