(* ===== verification/ConsoleRpc.v ===== *)
(** [handleConsoleRPC] of [internal/agent/agent.go] with [grantOnce] of
    [approvals.go] and [internal/config/portal_admins.go]: what a device does for
    the portal over a console session; and the calls of [deviceconn.go] that ask
    for it, with what each of them makes of the reply. *)

From S2P Require Import Prelude GoStrings GoUtf8 GoCodec Policy Trust Approvals Console Gate.

Local Open Scope Z_scope.

(** ** The fingerprints that may open a console *)

Module PortalAdmins.

Inductive admin_error := EmptyFingerprint | NotAFingerprint | NotOne | ErrLastPortalAdmin | CannotSave.

Fixpoint parse_parts (parts out : list string) : result admin_error (list string) :=
  match parts with
  | [] => Ok out
  | part :: parts =>
      let fp := trim_space part in
      if String.eqb fp "" then Err EmptyFingerprint
      else if negb (ValidFingerprint fp) then Err NotAFingerprint
      else parse_parts parts (if any (String.eqb fp) out then out else out ++ [fp])
  end.

Definition ParsePortalFingerprints (raw : string) : result admin_error (list string) :=
  let raw := trim_space raw in if String.eqb raw "" then Ok [] else parse_parts (split_on "," raw) [].

(** The set is read from its file each time and is always what the file holds;
    [writable] is whether the file can be replaced. *)
Definition Contains (fp : string) (s : list string) : bool := any (String.eqb fp) s.

Definition saveLocked (writable : bool) (next s : list string) : result admin_error () * list string :=
  if writable then (Ok (), next) else (Err CannotSave, s).

Definition Add (writable : bool) (fingerprints : list string) (s : list string) : result admin_error () * list string :=
  match ParsePortalFingerprints (join "," fingerprints) with
  | Err e => (Err e, s)
  | Ok parsed => saveLocked writable (fold_left (λ s fp, if Contains fp s then s else s ++ [fp]) parsed s) s
  end.

Definition Remove (writable : bool) (fp : string) (s : list string) : result admin_error () * list string :=
  match ParsePortalFingerprints fp with
  | Err e => (Err e, s)
  | Ok parsed =>
      if negb (length parsed =? 1)%nat then (Err NotOne, s)
      else if negb (Contains fp s) then (Ok (), s)
      else if (length s =? 1)%nat then (Err ErrLastPortalAdmin, s)
      else saveLocked writable (delete_func (String.eqb fp) s) s
  end.

Lemma Contains_elem fp s : Contains fp s = true ↔ fp ∈ s.
Proof. unfold Contains. rewrite any_true. setoid_rewrite String.eqb_eq. naive_solver. Qed.

Lemma Remove_Ok w fp s s' : Remove w fp s = (Ok (), s') → s' = delete_func (String.eqb fp) s.
Proof.
  unfold Remove. destruct (ParsePortalFingerprints fp) as [l|]; [|done]. destruct (negb _); [done|]. destruct (Contains fp s) eqn:C; simpl.
  - destruct (_ =? 1)%nat; [done|]. unfold saveLocked. destruct w; [|done]. by intros [= <-].
  - intros [= <-]. symmetry. apply delete_func_id. intros x Hx. apply not_true_iff_false. intros ->%String.eqb_eq. apply not_true_iff_false in C. apply C. by apply Contains_elem.
Qed.

Lemma Remove_Err w fp s e s' : Remove w fp s = (Err e, s') → s' = s.
Proof.
  unfold Remove. destruct (ParsePortalFingerprints fp) as [l|]; [|by intros [= _ <-]]. destruct (negb _); [by intros [= _ <-]|]. destruct (negb _); [done|].
  destruct (_ =? 1)%nat; [by intros [= _ <-]|]. unfold saveLocked. destruct w; [done|]. by intros [= _ <-].
Qed.

(** Someone can always open a console, once somebody could. *)
Lemma Remove_leaves_one w fp s : NoDup s → s ≠ [] → (Remove w fp s).2 ≠ [].
Proof.
  intros N Ne. destruct (Remove w fp s) as [[[]|e] s'] eqn:E; [|by rewrite (Remove_Err _ _ _ _ _ E)].
  pose proof (Remove_Ok _ _ _ _ E) as ->. unfold Remove in E. destruct (ParsePortalFingerprints fp) as [l|]; [|done]. destruct (negb _); [done|].
  destruct (Contains fp s) eqn:C; simpl in E.
  - destruct (Nat.eqb_spec (length s) 1) as [|L]; [done|]. clear E. destruct s as [|x [|y s]]; [done|done|]. simpl.
    apply NoDup_cons in N as [Nx _]. unfold delete_func. simpl. destruct (String.eqb_spec fp x), (String.eqb_spec fp y); simpl; try done. subst. set_solver.
  - injection E as E. simpl. congruence.
Qed.

(** What a list of portals is: distinct fingerprints, written as they are. *)
Definition admins_ok (l : list string) : Prop := NoDup l ∧ ∀ fp, fp ∈ l → trim_space fp = fp ∧ ValidFingerprint fp = true.

Lemma split_on_whole c s : sforall (λ d, negb (Ascii.eqb d c)) s = true → split_on c s = [s].
Proof. induction s as [|d s IH]; [done|]. cbn [sforall split_on]. destruct (Ascii.eqb d c); [done|]. intros H. by rewrite IH. Qed.

Lemma admins_snoc l fp : admins_ok l → (fp ∉ l) → trim_space fp = fp → ValidFingerprint fp = true → admins_ok (l ++ [fp]).
Proof.
  intros [N F] Nf T V. split; [apply NoDup_app; split; [done|]; split; [set_solver|apply NoDup_singleton]|].
  intros g [Hg| ->%list_elem_of_singleton]%elem_of_app; auto.
Qed.

Lemma parse_parts_ok parts out l : admins_ok out → parse_parts parts out = Ok l → admins_ok l.
Proof.
  revert out. induction parts as [|part parts IH]; intros out O; simpl; [by intros [= <-]|]. destruct (String.eqb _ _); [done|].
  destruct (ValidFingerprint (trim_space part)) eqn:V; [simpl|done]. apply IH. destruct (any _ out) eqn:A; [done|].
  apply admins_snoc; [done| |apply trim_space_idem|done]. intros H. pose proof (proj1 (any_false _ _) A _ H) as B. simpl in B. by rewrite String.eqb_refl in B.
Qed.

Lemma parse_ok raw l : ParsePortalFingerprints raw = Ok l → admins_ok l.
Proof.
  assert (admins_ok []) as Nil by (split; [by apply NoDup_nil_2|by intros fp ?%elem_of_nil]).
  unfold ParsePortalFingerprints. destruct (String.eqb _ _); [by intros [= <-]|]. by apply parse_parts_ok.
Qed.

(** A fingerprint of the list is parsed to itself. *)
Lemma parse_own fp : trim_space fp = fp → ValidFingerprint fp = true → ParsePortalFingerprints fp = Ok [fp].
Proof.
  intros T V. unfold ParsePortalFingerprints. rewrite T. destruct (String.eqb_spec fp "") as [->|N]; [done|].
  rewrite split_on_whole by by apply ValidFingerprint_without. simpl. rewrite T, (proj2 (String.eqb_neq _ _) N), V. done.
Qed.

Lemma Add_ok w fps s : admins_ok s → admins_ok (Add w fps s).2 ∧ s ⊆ (Add w fps s).2.
Proof.
  intros O. unfold Add, saveLocked. destruct (ParsePortalFingerprints _) as [parsed|e] eqn:P; [|done]. apply parse_ok in P as [_ F].
  destruct w; [simpl|done]. revert s O. induction parsed as [|fp parsed IH]; intros s O; simpl; [done|].
  destruct (Contains fp s) eqn:C; [apply IH; [set_solver|done]|]. destruct (IH ltac:(set_solver) (s ++ [fp])) as [O' S].
  - apply admins_snoc; [done| |apply F; left|apply F; left]. intros H%Contains_elem. congruence.
  - split; [done|]. etrans; [|exact S]. set_solver.
Qed.

Lemma Remove_admins w fp s : admins_ok s → admins_ok (Remove w fp s).2.
Proof.
  intros [N F]. destruct (Remove w fp s) as [[[]|e] s'] eqn:E; simpl; [|by rewrite (Remove_Err _ _ _ _ _ E)].
  rewrite (Remove_Ok _ _ _ _ E). split; [by eapply sublist_NoDup, delete_func_sublist|]. intros g [Hg _]%elem_of_delete_func. auto.
Qed.

(** A removal undone. *)
Lemma Add_back w fp s s' : admins_ok s → fp ∈ s → Remove w fp s = (Ok (), s') → ∀ g, g ∈ (Add true [fp] s').2 ↔ g ∈ s.
Proof.
  intros [N F] Hf ->%Remove_Ok g. destruct (F fp Hf) as [T V]. unfold Add. cbn [join]. rewrite (parse_own fp T V). simpl.
  assert (Contains fp (delete_func (String.eqb fp) s) = false) as ->.
  { apply not_true_iff_false. intros [_ B]%Contains_elem%elem_of_delete_func. by rewrite String.eqb_refl in B. }
  rewrite elem_of_app, elem_of_delete_func, list_elem_of_singleton. destruct (String.eqb_spec fp g) as [->|Ne]; [tauto|].
  split; [intros [[]| ->]; done|]. auto.
Qed.

End PortalAdmins.

(** ** Requests and replies *)

Inductive rpc :=
| ConsoleState | DecideRequest (id verdict approver : string) | RuleAdd (r : rule) | RuleRm (index : Z) | ModeSet (m : mode)
| PairDecide (fp verdict : string) | TrustRevoke (fp : string) | TimeoutSet (sec : Z)
| Logs (logType grep since : string) (limit : Z) | ApprovalPush (size : Z) (decoded : option card)
| GrantOnce (k : kind) (pattern fp cwd : string) (sec : Z) (approver : string) | ADBPair (port : Z) (code : string) | PackageInstall (pkg version : string)
| UnknownRPC.

(** [KindError] with its reason, or the kind of the request with what it carries:
    [RuleReply] and its like carry the error text in [Data], empty when there is
    none. *)
Inductive rpc_reply :=
| KindError (reason : string)
| StateReply (asks : list pendingView) (pairs : list pairView)
| DecideReply (verdict : string) | DataReply (data : string) | TimeoutReply (sec : Z) | LogsReply (data : string) | DoneReply.

(** [int64] arithmetic of [time.Duration(sec) * time.Second]. *)
Definition int64 (x : Z) : Z := (x + Z.shiftl 1 63) mod Z.shiftl 1 64 - Z.shiftl 1 63.

Definition digit (c : ascii) : bool := (48 <=? byte_val c) && (byte_val c <=? 57).
Definition valid_pairing (port : Z) (code : string) : bool := (1 <=? port) && (port <=? 65535) && (slen code =? 6)%nat && sforall digit code.

(** What the rest of the machine did: whether the files can be written (that of
    the portals also when a removal is undone), what the event log and [adb]
    answered. *)
Record host := Host { h_known_writable : bool; h_admins_writable : bool; h_admins_again : bool; h_log : option (result string string); h_adb : result string () }.

Section rpc.
Context {A : Type}.
Implicit Types a : agent A.

Definition set_admins (l : list string) a : agent A :=
  Agent (a_engine a) (a_disk a) (a_known a) (a_grants a) (a_appr a) (a_console a) l (a_elevator a) (a_AutoYes a) (a_DeviceID a) (a_android a).

(** [Store.Remove]: in memory in any case, on disk if that can be written. *)
Definition remove_known (writable : bool) (fp : string) (s : store) : result () () * store :=
  if persistent s && negb writable
  then (Err (), with_peers (filter (λ kp : string * peer, Fingerprint kp.2 ≠ fp) (peers s)) s)
  else (Ok (), Trust.Remove fp s).

Definition error_text {X E} (r : result E X) : string := match r with Ok _ => "" | Err _ => "error" end.

(** [KindTrustRevoke] *)
Definition trust_revoke (h : host) (fp : string) a : rpc_reply * agent A :=
  let admin := PortalAdmins.Contains fp (a_admins a) in
  match (if admin then PortalAdmins.Remove (h_admins_writable h) fp (a_admins a) else (Ok (), a_admins a)) with
  | (Err _, l) => (DataReply "error", set_admins l a)
  | (Ok _, l) =>
      let a := set_admins l a in
      match remove_known (h_known_writable h) fp (a_known a) with
      | (Ok _, k) => (DataReply "", set_known k a)
      | (Err _, k) =>
          let a := set_known k a in
          (DataReply "error", if admin then set_admins (PortalAdmins.Add (h_admins_again h) [fp] (a_admins a)).2 a else a)
      end
  end.

Definition grantOnce (now : Z) (k : kind) (pattern fp cwd : string) (sec : Z) (approver : string) a : rpc_reply * agent A :=
  match install now k pattern fp approver cwd (lateGrantWindow sec) (a_grants a) with
  | (Err _, g) => (KindError "late approval refused", set_grants g a)
  | (Ok _, g) => (DoneReply, set_grants g a)
  end.

(** [phone] is the link to the Android app, if this agent has one. *)
Definition handleConsoleRPC (now : Z) (h : host) (msg : rpc) (phone : option approvalPhone) a : rpc_reply * option approvalPhone * agent A :=
  match msg with
  | ADBPair port code =>
      if negb (valid_pairing port code) then (KindError "invalid pairing port or six-digit code", phone, a)
      else (match h_adb h with Ok _ => DoneReply | Err e => KindError e end, phone, a)
  | ConsoleState => let '(asks, pairs, s) := State now (a_console a) in (StateReply asks pairs, phone, set_console s a)
  | DecideRequest id verdict _ =>
      let '(ok, s) := Decide id verdict (a_console a) in (DecideReply (if ok then "ok" else "not-found"), phone, set_console s a)
  | RuleAdd r => let '(e, (res, d)) := Policy.Add r now (a_engine a) (a_disk a) in (DataReply (error_text res), phone, set_engine (e, d) a)
  | RuleRm i => let '(e, (res, d)) := Policy.Remove i (a_engine a) (a_disk a) in (DataReply (error_text res), phone, set_engine (e, d) a)
  | ModeSet m => (DoneReply, phone, set_engine (SetMode m (a_engine a) (a_disk a)) a)
  | PairDecide fp verdict =>
      let '(ok, s) := DecidePair now fp (String.eqb verdict "y") (a_console a) in
      (DataReply (if ok then "" else "no such pending pairing"), phone, set_console s a)
  | TrustRevoke fp => let '(r, a) := trust_revoke h fp a in (r, phone, a)
  | TimeoutSet sec =>
      let '(applied, s) := SetTimeout (int64 (sec * second)) (a_console a) in (TimeoutReply (Z.quot applied second), phone, set_console s a)
  | Logs _ _ _ _ => (match h_log h with None => LogsReply "[]" | Some (Ok data) => LogsReply data | Some (Err e) => KindError e end, phone, a)
  | ApprovalPush size decoded =>
      let '(r, phone) := approvalPush size decoded phone in (match r with Ok _ => DoneReply | Err _ => KindError "approval card refused" end, phone, a)
  | GrantOnce k pattern fp cwd sec approver => let '(r, a) := grantOnce now k pattern fp cwd sec approver a in (r, phone, a)
  | PackageInstall _ _ | UnknownRPC => (KindError "unknown RPC kind", phone, a)
  end.

(** ** Calls of the portal *)

(** A reply, or none: the connection failed. *)
Definition rpc_result := option rpc_reply.

Inductive call_error := Refused (reason : string) | NoConnection.

(** [rpcLocked] after a reply. *)
Definition accepted_reply (r : rpc_result) : result call_error rpc_reply :=
  match r with None => Err NoConnection | Some (KindError reason) => Err (Refused reason) | Some m => Ok m end.

Definition done (r : rpc_result) : result call_error () := match accepted_reply r with Ok _ => Ok () | Err e => Err e end.

Definition decideFound (r : rpc_result) : result call_error bool :=
  match accepted_reply r with Ok m => Ok (match m with DecideReply v => String.eqb v "ok" | _ => false end) | Err e => Err e end.

(** [None] is [errPairingGone]. *)
Definition pairDecide (r : rpc_result) : result (option call_error) () :=
  match accepted_reply r with
  | Err e => Err (Some e)
  | Ok m => match m with DataReply d => if String.eqb d "" then Ok () else Err None | _ => Ok () end
  end.

Definition untrust := done.
Definition addRule := done.
Definition removeRule := done.
Definition setMode := done.

Definition setApprovalTimeout (r : rpc_result) : result call_error Z :=
  match accepted_reply r with Ok m => Ok (match m with TimeoutReply s => s | _ => 0 end) | Err e => Err e end.

Definition logs (r : rpc_result) : result call_error string :=
  match accepted_reply r with Ok m => Ok (match m with LogsReply d => d | DataReply d => if String.eqb d "" then "[]" else d | _ => "[]" end)%string | Err e => Err e end.

Definition pairADB (r : rpc_result) : result call_error () :=
  match accepted_reply r with Ok DoneReply => Ok () | Ok _ => Err (Refused "device does not support ADB pairing") | Err e => Err e end.

(** ** A revocation *)

Lemma of_list_elem l k p : of_list l !! k = Some p → p ∈ l.
Proof.
  unfold of_list. induction l as [|x l IH] using rev_ind; [done|]. rewrite foldl_app. simpl. rewrite lookup_insert_Some.
  intros [[_ <-]|[_ E]]; apply elem_of_app; [right; by apply list_elem_of_singleton|left; eauto].
Qed.

Lemma remove_known_has w fp s s' : remove_known w fp s = (Ok (), s') → (Has fp s').1 = false.
Proof.
  unfold remove_known. destruct (persistent s && negb w); [done|]. intros [= <-]. unfold Has, Get, Trust.Remove, save, with_peers. simpl.
  set (m := filter _ (peers s)).
  assert (∀ k p, m !! k = Some p → Fingerprint p ≠ fp) as No by (intros k p [_ N]%map_lookup_filter_Some; done).
  set (s' := if persistent s then _ else _).
  assert (∀ k p, peers (if persistent s' then load s' else s') !! k = Some p → Fingerprint p ≠ fp) as No'.
  { subst s'. destruct (persistent s) eqn:Ps; simpl; [|rewrite ?Ps; simpl; exact No]. intros k p E%of_list_elem. apply list_elem_of_fmap in E as ([k' p'] & -> & E%elem_of_map_to_list). eauto. }
  destruct (find_first _ _) as [[k p]|] eqn:F; simpl; [|done].
  apply find_first_Some in F as [F1%elem_of_map_to_list F2%String.eqb_eq]. by destruct (No' k p F1).
Qed.

Lemma set_admins_id a : set_admins (a_admins a) a = a.
Proof. by destruct a. Qed.

Lemma remove_known_Err w fp s k : remove_known w fp s = (Err (), k) → w = false.
Proof. unfold remove_known. destruct w; [by rewrite andb_false_r|done]. Qed.

(** Whatever a device is asked, its portals stay a list of portals, and no
    request takes the last one away. *)
Lemma portals_stay now h msg phone a r phone' a' : handleConsoleRPC now h msg phone a = (r, phone', a') → PortalAdmins.admins_ok (a_admins a) →
  PortalAdmins.admins_ok (a_admins a') ∧ (a_admins a ≠ [] → a_admins a' ≠ []).
Proof.
  intros E O. destruct msg; simpl in E; try (unfold grantOnce in E; repeat case_match; simplify_eq; done).
  unfold trust_revoke in E. pose proof (PortalAdmins.Remove_admins (h_admins_writable h) fp _ O) as O1.
  pose proof (PortalAdmins.Remove_leaves_one (h_admins_writable h) fp _ (proj1 O)) as One.
  destruct (PortalAdmins.Contains fp (a_admins a)); [destruct (PortalAdmins.Remove _ _ _) as [[[]|e] l]|];
    try destruct (remove_known _ _ _) as [[[]|] k]; injection E as <- <- <-; simpl in *; try done.
  destruct (PortalAdmins.Add_ok (h_admins_again h) [fp] l O1) as [O2 S]. split; [done|]. intros Ne. specialize (One Ne).
  destruct l as [|g l]; [done|]. intros Nil. rewrite Nil in S. specialize (S g ltac:(left)). by apply elem_of_nil in S.
Qed.

(** C39: a revocation is done, or nothing is.  When a device answers a revocation
    without an error, the controller is no longer known to it and no longer one of
    its portals, and no other portal lost its place.  When it answers with one,
    nothing changed; if it is that the file of known peers could not be written,
    the portals are still as they were (unless theirs could then not be written
    either), and the peer is forgotten in memory.  And whatever it is asked and
    whichever files it can write, a device's portals stay a list of distinct
    fingerprints, and if it had a portal it keeps one. *)
Theorem revoked_or_unchanged now h msg phone a r phone' a' :
  handleConsoleRPC now h msg phone a = (r, phone', a') → PortalAdmins.admins_ok (a_admins a) →
  (∀ fp, msg = TrustRevoke fp →
    (r = DataReply "" → (Has fp (a_known a')).1 = false ∧ (fp ∉ a_admins a') ∧ (∀ g, g ≠ fp → (g ∈ a_admins a' ↔ g ∈ a_admins a))) ∧
    (r ≠ DataReply "" → (h_known_writable h = true → a' = a) ∧
       (h_admins_again h = true → ∀ g, g ∈ a_admins a' ↔ g ∈ a_admins a) ∧
       (a_known a' = a_known a ∨ a_known a' = with_peers (filter (λ kp : string * peer, Fingerprint kp.2 ≠ fp) (peers (a_known a))) (a_known a)))) ∧
  PortalAdmins.admins_ok (a_admins a') ∧ (a_admins a ≠ [] → a_admins a' ≠ []).
Proof.
  intros E O. split; [|by eapply portals_stay]. intros fp ->. revert E. simpl. unfold trust_revoke.
  destruct (PortalAdmins.Contains fp (a_admins a)) eqn:C; [|rewrite set_admins_id].
  - destruct (PortalAdmins.Remove _ _ _) as [[[]|e] l] eqn:R; [|intros [= <- <- <-]; rewrite (PortalAdmins.Remove_Err _ _ _ _ _ R), set_admins_id; split; [done|]; intros _; split_and!; auto].
    pose proof (λ Hf, PortalAdmins.Add_back _ _ _ _ O Hf R) as Back. apply PortalAdmins.Contains_elem in C. specialize (Back C).
    apply PortalAdmins.Remove_Ok in R as ->. destruct (remove_known _ _ _) as [[[]|[]] k] eqn:K; intros [= <- <- <-].
    + split; [|done]. intros _. split; [by eapply remove_known_has|]. simpl. split; [intros [Hx N]%elem_of_delete_func; by rewrite String.eqb_refl in N|].
      intros g N. rewrite elem_of_delete_func. rewrite (proj2 (String.eqb_neq fp g)) by congruence. tauto.
    + split; [done|]. intros _. pose proof (remove_known_Err _ _ _ _ K) as W. rewrite W. split_and!; [done|by intros ->|right].
      unfold remove_known in K. destruct (_ && _); [|done]. by injection K as <-.
  - destruct (remove_known _ _ _) as [[[]|[]] k] eqn:K; intros [= <- <- <-].
    + split; [|done]. intros _. split; [by eapply remove_known_has|]. split; [|done]. simpl. by intros Hf%PortalAdmins.Contains_elem%(eq_trans (eq_sym C)).
    + split; [done|]. intros _. pose proof (remove_known_Err _ _ _ _ K) as W. rewrite W. split_and!; [done|done|right].
      unfold remove_known in K. destruct (_ && _); [|done]. by injection K as <-.
Qed.

(** The portal does not look at [Data] in the replies to rules and revocations:
    what the device refused there is reported as done. *)
Lemma refusals_unseen d : done (Some (DataReply d)) = Ok ().
Proof. done. Qed.
End rpc.

(** ** Evaluations *)

Module Demo.

Definition portal_a : string := fp_of "a".
Definition portal_b : string := fp_of "b".

Definition device (admins : list string) : agent () :=
  Agent (Engine [] ModeNormal false) (Disk None RulesAbsent true) (Trust.Add 0 portal_a "web" NewMemStore) no_grants () (New false) admins false false "" false.

Definition kept_device (admins : list string) : agent () := set_known (Trust.Add 0 portal_a "web" (OpenStore None)) (device admins).

Definition writable : host := Host true true true None (Ok ()).

(** One of two portals is revoked: the other stays. *)
Lemma two_portals_ok : PortalAdmins.admins_ok [portal_a; portal_b].
Proof.
  split; [apply NoDup_cons; split; [intros H%list_elem_of_singleton; discriminate H|apply NoDup_singleton]|].
  intros fp [->|[->|[]%elem_of_nil]%elem_of_cons]%elem_of_cons; split; vm_compute; reflexivity.
Qed.

Lemma revoked_or_unchanged_witness : ∃ a',
  handleConsoleRPC 0 writable (TrustRevoke portal_a) None (device [portal_a; portal_b]) = (DataReply "", None, a') ∧
  (Has portal_a (a_known a')).1 = false ∧ (portal_a ∉ a_admins a') ∧ (portal_b ∈ a_admins a') ∧ a_admins a' ≠ [].
Proof.
  eexists. split; [vm_compute; reflexivity|].
  match goal with |- (Has _ (a_known ?a')).1 = _ ∧ _ =>
    destruct (revoked_or_unchanged 0 writable (TrustRevoke portal_a) None (device [portal_a; portal_b]) (DataReply "") None a' ltac:(vm_compute; reflexivity)
                two_portals_ok) as (Rev & _ & Keep) end.
  destruct (proj1 (Rev portal_a eq_refl) eq_refl) as (K & N & Same).
  split; [exact K|]. split; [exact N|]. split; [apply Same; [discriminate|]; right; left|]. apply Keep. discriminate.
Defined.

(** The file of known peers cannot be written: the portal gets its place back. *)
Example revocation_undone :
  let '(r, _, a') := handleConsoleRPC 0 (Host false true true None (Ok ())) (TrustRevoke portal_a) None (kept_device [portal_a; portal_b]) in
  r = DataReply "error" ∧ a_admins a' = [portal_b; portal_a].
Proof. vm_compute. split; reflexivity. Qed.

End Demo.
