(* ===== verification/PortalDevices.v ===== *)
(** The handlers of [internal/portal/portal.go] that reach a device, with
    [adb_pair.go], [install.go], [activity.go] and the write of
    [approvalphone_api.go]: who may do what to which device through the portal.

    A handler is a function of the request's fields and of a [world], what the
    account check, the relay, the pool and the device answered, to its effects,
    in order, and the response. *)

From S2P Require Import Prelude GoStrings GoUtf8 Utf8Facts Release Policy Trust Approvals Console Gate Tables Friends Portal ConsoleRpc.

Local Open Scope Z_scope.

(** ** What the relay lists *)

(** A row of [/admin/devices]. *)
Record row := Row { dr_Name : string; dr_Owner : string; dr_Shared : bool; dr_Manage : bool; dr_Online : bool; dr_Version : string; dr_Fingerprint : string }.

(** [ListDevices] and [adminDevices] of the relay: a namespace's own devices, and
    those shared with it; [live] is the registry, [version] what a device last
    reported.  The order of the rows is left out: no handler below depends on it. *)
Definition ListDevices (live : string → string → bool) (version : string → string → string) (ns : string) (d : db) : list row :=
  let row_of (shared manage : bool) (x : device) :=
    Row (d_id x) (d_owner x) shared manage (live (d_owner x) (d_id x)) (version (d_owner x) (d_id x)) (default "" (d_fp x))%string in
  map (row_of false false) (List.filter (λ x, String.eqb (d_owner x) ns) (devices d)) ++
  (List.filter (λ s, String.eqb (a_grantee s) ns && share_live s) (acl d) ≫= λ s,
     map (row_of true (a_manage s)) (List.filter (λ x, String.eqb (d_owner x) (a_owner s) && String.eqb (d_id x) (a_device s)) (devices d))).

(** ** The gates *)

Record deviceAccess := DeviceAccess { Online : bool; WanctlVersion : string; Owner : string; Shared : bool; Manage : bool }.

Definition listing := string → option (Z * list row).

Definition owner_of (ns : string) (d : row) : string := if String.eqb (dr_Owner d) "" then ns else dr_Owner d.

Definition matches (ns device : string) (rows : list row) : list deviceAccess :=
  omap (λ d, if String.eqb (dr_Name d) device
             then Some (DeviceAccess (dr_Online d) (dr_Version d) (owner_of ns d) (dr_Shared d || negb (String.eqb (owner_of ns d) ns)) (dr_Manage d)) else None) rows.

(** The only one, or the first that is not shared. *)
Definition pick (ds : list deviceAccess) : option deviceAccess := match ds with [d] => Some d | _ => find_first (λ d, negb (Shared d)) ds end.

Definition requireDevice (auth : string + response) (relay : listing) (device : string) : deviceAccess + response :=
  match auth with
  | inr p => inr p
  | inl ns =>
      if String.eqb device "" then inr (error 400 "missing device")
      else match relay ns with
      | None => inr (error 502 "relay unreachable")
      | Some (status, rows) =>
          if negb (status =? 200) then inr (error status "relay admin error")
          else let ds := matches ns device rows in
               match pick ds with
               | Some d => inl d
               | None => inr (match ds with [] => error 403 "device not in your namespace" | _ => error 409 "ambiguous device name" end)
               end
      end
  end.

Definition requireDeviceConsole (auth : string + response) (relay : listing) (device : string) : string + response :=
  match requireDevice auth relay device with
  | inr p => inr p
  | inl d => if Shared d && negb (Manage d) then inr (error 403 "management not granted") else inl (Owner d)
  end.

Definition requireDeviceUse (auth : string + response) (relay : listing) (device : string) : string + response :=
  match requireDevice auth relay device with inr p => inr p | inl d => inl (Owner d) end.

Definition requireDeviceOwner (auth : string + response) (relay : listing) (device : string) : string + response :=
  match requireDevice auth relay device with
  | inr p => inr p
  | inl d => if Shared d then inr (error 403 "owner only") else inl (Owner d)
  end.

(** ** Installations *)

Module Install.

Record progress := Progress { pg_Package : string; pg_Version : string; pg_Stage : string; pg_Reason : string }.
Record install := DeviceInstall { i_progress : progress; i_Started : Z; i_Accepted : bool }.

Definition installDeadline : Z := 10 * minute.

Definition Stage (i : install) : string := pg_Stage (i_progress i).
Definition Package (i : install) : string := pg_Package (i_progress i).
Definition Version (i : install) : string := pg_Version (i_progress i).

Definition active (i : install) : bool := String.eqb (Stage i) "downloading" || String.eqb (Stage i) "installing".

Definition at_stage (s reason : string) (i : install) : install :=
  DeviceInstall (Progress (Package i) (Version i) s reason) (i_Started i) (i_Accepted i).

Definition expire (now : Z) (i : install) : install :=
  if active i && (installDeadline <=? now - i_Started i) then at_stage "failed" "installation did not finish within 10 minutes" i else i.

(** The current install of each device, and all of them: a progress report keeps
    the one it was made for. *)
Record installs := Installs { n_current : gmap string nat; n_all : gmap nat install }.

Definition set_install (id : nat) (i : install) (s : installs) : installs := Installs (n_current s) (<[id := i]> (n_all s)).
Definition current (key : string) (s : installs) : option (nat * install) :=
  match n_current s !! key with Some id => match n_all s !! id with Some i => Some (id, i) | None => None end | None => None end.

(** The beginning of [handleDeviceInstall]: only a registration of the target
    proves that the new binary took over. *)
Definition refresh (now : Z) (access : deviceAccess) (i : install) : install :=
  let i := expire now i in
  if i_Accepted i && active i && String.eqb (Package i) "wanctl" && Online access && String.eqb (WanctlVersion access) (Version i)
  then at_stage "done" (pg_Reason (i_progress i)) i else i.

Definition look (now : Z) (access : deviceAccess) (key : string) (s : installs) : installs :=
  match current key s with Some (id, i) => set_install id (refresh now access i) s | None => s end.

(** A request is well-formed; [valid] is [release.ValidateVersion]. *)
Definition valid_request (valid : string → bool) (pkg version : string) : bool :=
  if String.eqb pkg "opencu" then String.eqb version "latest"
  else String.eqb pkg "wanctl" && (slen version <=? 128)%nat && valid version.

(** The rest of the critical section of a POST. *)
Definition begin_install (valid : string → bool) (now : Z) (access : deviceAccess) (key : string) (id : nat) (pkg version : string) (s : installs) : result (Z * string) installs :=
  if (match current key s with Some (_, i) => active i | None => false end) then Err (409, "an install is already running"%string)
  else if negb (Online access) then Err (409, "device is offline"%string)
  else if negb (valid_request valid pkg version) then Err (400, "choose wanctl with a version, or opencu with latest"%string)
  else Ok (Installs (<[key := id]> (n_current s)) (<[id := DeviceInstall (Progress pkg version "downloading" "") now false]> (n_all s))).

(** [cleanInstallProgress]: of the reason, at most 400 runes that print. *)
Definition format (r : Z) : bool :=
  any (λ p : Z * Z, in_range p.1 p.2 r)
    [(173, 173); (1536, 1541); (1564, 1564); (1757, 1757); (1807, 1807); (2192, 2193); (2274, 2274); (6158, 6158); (8203, 8207); (8234, 8238); (8288, 8292);
     (8294, 8303); (65279, 65279); (65529, 65531); (69821, 69821); (69837, 69837); (78896, 78911); (113824, 113827); (119155, 119162); (917505, 917505); (917536, 917631)].

Fixpoint clean_runes (fuel left : nat) (s : string) : string :=
  match fuel, left, s with
  | S fuel, S more, String _ _ =>
      let '(r, k) := decode_rune s in
      if is_control r || format r then clean_runes fuel left (sdrop k s)
      else ((if bad_head s then replacement else stake k s) ++ clean_runes fuel more (sdrop k s))%string
  | _, _, _ => ""%string
  end.

Definition cleanInstallProgress (p : progress) : progress :=
  Progress (pg_Package p) (Clean (pg_Version p)) (pg_Stage p) (trim_space (clean_runes (slen (pg_Reason p)) 400 (pg_Reason p))).

(** A report of the device, or of the handler when its request failed. *)
Definition update (now : Z) (key : string) (id : nat) (p : progress) (s : installs) : installs :=
  match n_all s !! id with
  | None => s
  | Some i =>
      if negb (bool_decide (n_current s !! key = Some id)) || negb (active i) || negb (String.eqb (pg_Package p) (Package i)) then s
      else
        let i := expire now i in
        let s := set_install id i s in
        if negb (active i) then s
        else if negb (any (String.eqb (pg_Stage p)) ["downloading"; "installing"; "done"; "failed"]%string) then s
        else if String.eqb (pg_Package p) "wanctl" then
          if negb (String.eqb (pg_Version p) (Version i)) then s
          else let stage := if String.eqb (pg_Stage p) "done" then "installing"%string else pg_Stage p in
               set_install id (DeviceInstall (Progress (pg_Package p) (pg_Version p) stage (pg_Reason p)) (i_Started i) (i_Accepted i)) s
        else set_install id (DeviceInstall p (i_Started i) (i_Accepted i)) s
  end.

Definition report (now : Z) (key : string) (id : nat) (p : progress) (s : installs) : installs := update now key id (cleanInstallProgress p) s.

Definition accept (id : nat) (s : installs) : installs :=
  match n_all s !! id with Some i => set_install id (DeviceInstall (i_progress i) (i_Started i) true) s | None => s end.

(** The steps, and whether one is a look at a listing that shows the target of
    [i] online with its version. *)
Inductive istep := Look (now : Z) (access : deviceAccess) (key : string) | Begin (now : Z) (access : deviceAccess) (key : string) (id : nat) (pkg version : string)
  | Report (now : Z) (key : string) (id : nat) (p : progress) | Accept (id : nat).

Definition run_step (valid : string → bool) (x : istep) (s : installs) : installs :=
  match x with
  | Look now access key => look now access key s
  | Begin now access key id pkg version =>
      match n_all s !! id with Some _ => s | None => match begin_install valid now access key id pkg version s with Ok s => s | Err _ => s end end
  | Report now key id p => report now key id p s
  | Accept id => accept id s
  end.

Definition shown (x : istep) (i : install) : Prop := ∃ now access key, x = Look now access key ∧ Online access = true ∧ WanctlVersion access = Version i.

Lemma pending_expire_same now i : Package (expire now i) = Package i ∧ Version (expire now i) = Version i ∧ i_Accepted (expire now i) = i_Accepted i ∧
  (active i = false → expire now i = i) ∧ (Stage (expire now i) = "done"%string → Stage i = "done"%string).
Proof. unfold expire. destruct (active i) eqn:A; simpl; [|done]. destruct (_ <=? _); [|done]. split_and!; done. Qed.

Lemma begin_all valid now access key id pkg version s s' : begin_install valid now access key id pkg version s = Ok s' → ∃ i, n_all s' = <[id := i]> (n_all s).
Proof. unfold begin_install. destruct (match current key s with Some _ => _ | None => _ end); [done|]. destruct (negb _); [done|]. destruct (negb _); [done|]. intros [= <-]. simpl. eauto. Qed.

(** One install, one step: it stays the package and version it was, a finished one
    stays as it is, and one of wanctl is done only when the device registered
    online with the version, after it had accepted the request. *)
Lemma install_settles valid x s id i i' : n_all s !! id = Some i → n_all (run_step valid x s) !! id = Some i' →
  Package i' = Package i ∧ (Package i = "wanctl"%string → Version i' = Version i) ∧ (active i = false → i_progress i' = i_progress i) ∧
  (Package i = "wanctl"%string → Stage i' = "done"%string → Stage i = "done"%string ∨ (i_Accepted i = true ∧ shown x i)).
Proof.
  intros E E'. assert (n_all (run_step valid x s) !! id = Some i → Package i' = Package i ∧ (Package i = "wanctl"%string → Version i' = Version i) ∧ (active i = false → i_progress i' = i_progress i) ∧
    (Package i = "wanctl"%string → Stage i' = "done"%string → Stage i = "done"%string ∨ (i_Accepted i = true ∧ shown x i))) as Same.
  { intros E2. rewrite E2 in E'. injection E' as <-. auto. }
  destruct x as [now access key|now access key n pkg version|now key n p|n]; simpl in *.
  - unfold look, current in *. destruct (n_current s !! key) as [n|]; [|auto]. destruct (n_all s !! n) as [j|] eqn:En; [|auto]. simpl in *.
    destruct (decide (n = id)) as [->|N]; [|rewrite lookup_insert_ne in * by done; auto]. rewrite lookup_insert_eq in *. clear Same. rewrite E in En. injection En as <-. injection E' as <-.
    unfold refresh. destruct (pending_expire_same now i) as (P & V & A & Q & D). rewrite A. destruct (i_Accepted i) eqn:Acc; simpl; [|rewrite P, V; split_and!; auto; by intros ->%Q].
    destruct (active (expire now i)) eqn:Ac; simpl; [|rewrite P, V; split_and!; auto; by intros ->%Q].
    rewrite P, V. destruct (String.eqb (Package i) "wanctl"), (Online access) eqn:O, (String.eqb_spec (WanctlVersion access) (Version i)); simpl; rewrite ?P, ?V; split_and!; auto; try (by intros ->%Q).
    + intros F. rewrite (Q F) in Ac. by rewrite F in Ac.
    + intros _ _. right. split; [done|]. by exists now, access, key.
  - destruct (n_all s !! n) as [j|] eqn:En; [auto|]. destruct (begin_install _ _ _ _ _ _ _ _) as [s'|e] eqn:B; [|auto].
    apply begin_all in B as [j B]. rewrite B, lookup_insert_ne in * by congruence. auto.
  - unfold report in *. set (q := cleanInstallProgress p) in *. clearbody q. rename p into p0. rename q into p. unfold update in *. destruct (n_all s !! n) as [j|] eqn:En; [|auto]. destruct (_ || _) eqn:G; [auto|]. rewrite !orb_false_iff, !negb_false_iff in G. destruct G as [[_ Ac] Pk%String.eqb_eq].
    destruct (decide (n = id)) as [->|N]; [|cbv zeta in *; repeat case_match; simpl in *; rewrite ?lookup_insert_ne in * by done; auto].
    rewrite E in En. injection En as <-. clear Same. destruct (pending_expire_same now i) as (P & V & A & Q & D). rewrite V in E'.
    assert (∀ q, Package i = "wanctl"%string → Stage (expire now i) = q → q = "done"%string → Stage i = "done"%string) as Dn by (intros q _ <-; auto).
    destruct (active (expire now i)) eqn:Ae; cbn [negb] in E'; [|simpl in E'; rewrite lookup_insert_eq in E'; injection E' as <-; rewrite P, V; split_and!; auto; by rewrite Ac].
    destruct (any _ _); cbn [negb] in E'; [|simpl in E'; rewrite lookup_insert_eq in E'; injection E' as <-; rewrite P, V; split_and!; auto; by rewrite Ac].
    rewrite Pk in E'. destruct (String.eqb_spec (Package i) "wanctl") as [W|W].
    + destruct (String.eqb_spec (pg_Version p) (Version i)) as [Vp|]; cbn [negb] in E'; [|simpl in E'; rewrite lookup_insert_eq in E'; injection E' as <-; rewrite P, V; split_and!; auto; by rewrite Ac].
      simpl in E'. rewrite lookup_insert_eq in E'. injection E' as <-. unfold Package, Version, Stage. simpl. split_and!; auto; [by rewrite Ac|].
      destruct (String.eqb_spec (pg_Stage p) "done") as [|Nd]; [done|]. by intros _ ?.
    + simpl in E'. rewrite lookup_insert_eq in E'. injection E' as <-. unfold Package, Version, Stage in *. simpl. split_and!; auto; [done|by rewrite Ac|done].
  - unfold accept in *. destruct (n_all s !! n) as [j|] eqn:En; [|auto]. simpl in *. destruct (decide (n = id)) as [->|N]; [|rewrite lookup_insert_ne in * by done; auto].
    rewrite lookup_insert_eq in E'. rewrite E in En. injection En as <-. injection E' as <-. unfold Package, Version, Stage. simpl. auto.
Qed.

End Install.

(** ** Reaching a device *)

Inductive effect :=
| Asked (owner device : string) (m : rpc)
| Pinned (owner device fp : string) (replace : bool)
| Dropped (owner device : string)
| Forgot (owner device : string)
| Told (path owner device : string)
(** A step of the portal's record of installations. *)
| Noted (owner device : string) (x : Install.istep).


Inductive conn_error := NotWired | NoIdentity | IdentityChanged (pinned offered : string) | PinRefused | DialFailed | RpcFailed (e : call_error).

(** The rest of the system, as the handler met it. *)
Record world := World {
  w_auth : string + response; w_relay : listing; w_dialer : bool; w_pooled : string → string → bool;
  w_pin : string → string → string → bool → result pin_error (); w_open : string → string → bool;
  w_answer : string → string → rpc → rpc_result; w_told : string → string → string → option Z; w_identity : string; w_known : bool;
  w_now : Z; w_later : Z; w_installs : Install.installs; w_text : conn_error → string }.

Definition registeredFingerprint (w : world) (ns device : string) : result conn_error string :=
  match w_relay w ns with
  | None => Err NoIdentity
  | Some (status, rows) =>
      if negb (status =? 200) then Err NoIdentity
      else match find_first (λ d, String.eqb (owner_of ns d) ns && String.eqb (dr_Name d) device) rows with
      | None => Err NoIdentity
      | Some d => if ValidFingerprint (dr_Fingerprint d) then Ok (dr_Fingerprint d) else Err NoIdentity
      end
  end.

Definition pin_failed (e : pin_error) : conn_error := match e with Mismatch stored offered => IdentityChanged stored offered | _ => PinRefused end.

Definition dialDeviceConn (w : world) (ns device : string) : list effect * result conn_error () :=
  if negb (w_dialer w) then ([], Err NotWired)
  else match registeredFingerprint w ns device with
  | Err e => ([], Err e)
  | Ok fp =>
      match w_pin w ns device fp false with
      | Err e => ([], Err (pin_failed e))
      | Ok _ => ([Pinned ns device fp false], if w_open w ns device then Ok () else Err DialFailed)
      end
  end.

(** What the pool answers; the pool itself is in DeviceConn.v. *)
Definition deviceConnFor (w : world) (ns device : string) : list effect * result conn_error () :=
  if negb (w_dialer w) then ([], Err NotWired) else if w_pooled w ns device then ([], Ok ()) else dialDeviceConn w ns device.

Definition connError (e : conn_error) : response :=
  match e with IdentityChanged _ _ => error 409 "device_identity_changed" | _ => error 502 "device unreachable" end.

(** The handlers share their beginning: the gate, then a connection. *)
Definition on_device (w : world) (gate : string + response) (device : string) (k : string → list effect * response) : list effect * response :=
  match gate with
  | inr p => ([], p)
  | inl ns => match deviceConnFor w ns device with
              | (fx, Err e) => (fx, connError e)
              | (fx, Ok _) => let '(fx', p) := k ns in (fx ++ fx', p)
              end
  end.

Definition done_response (r : result call_error ()) : response := match r with Ok _ => error 200 "" | Err _ => error 502 "device error" end.

Definition console_gate (w : world) (device : string) : string + response := requireDeviceConsole (w_auth w) (w_relay w) device.
Definition owner_gate (w : world) (device : string) : string + response := requireDeviceOwner (w_auth w) (w_relay w) device.

Definition handleDeviceConsole (w : world) (device : string) : list effect * response :=
  on_device w (console_gate w device) device (λ ns,
    match accepted_reply (w_answer w ns device ConsoleState) with
    | Ok _ => ([Asked ns device ConsoleState], page "state")
    | Err _ => ([Asked ns device ConsoleState; Dropped ns device], error 502 "device error")
    end).

Definition handleDeviceDecide (w : world) (device id verdict : string) : list effect * response :=
  on_device w (console_gate w device) device (λ ns,
    let m := DecideRequest id verdict ("portal:" ++ w_identity w) in
    ([Asked ns device m], match decideFound (w_answer w ns device m) with Err _ => error 502 "device error" | Ok false => error 404 "request_gone" | Ok true => error 200 "" end)).

Definition handleDevicePair (w : world) (device fp verdict : string) : list effect * response :=
  on_device w (console_gate w device) device (λ ns,
    let m := PairDecide fp verdict in
    ([Asked ns device m], match pairDecide (w_answer w ns device m) with Ok _ => error 200 "" | Err None => error 404 "pairing_gone" | Err (Some _) => error 502 "device error" end)).

Definition handleDeviceUntrust (w : world) (device fp : string) : list effect * response :=
  on_device w (console_gate w device) device (λ ns, ([Asked ns device (TrustRevoke fp)], done_response (untrust (w_answer w ns device (TrustRevoke fp))))).

Definition handleDeviceRules (w : world) (device op : string) (r : rule) (index : Z) : list effect * response :=
  on_device w (console_gate w device) device (λ ns,
    let m := if String.eqb op "rm" then RuleRm index else RuleAdd r in
    ([Asked ns device m], done_response (if String.eqb op "rm" then removeRule (w_answer w ns device m) else addRule (w_answer w ns device m)))).

Definition handleDeviceMode (w : world) (device : string) (m : mode) : list effect * response :=
  on_device w (console_gate w device) device (λ ns, ([Asked ns device (ModeSet m)], done_response (setMode (w_answer w ns device (ModeSet m))))).

Definition handleDeviceLogs (w : world) (device logType grep since : string) : list effect * response :=
  on_device w (requireDeviceUse (w_auth w) (w_relay w) device) device (λ ns,
    let m := Logs logType grep since 200 in
    match logs (w_answer w ns device m) with
    | Err _ => ([Asked ns device m; Dropped ns device], error 502 "device error")
    | Ok _ => ([Asked ns device m], page "logs")
    end).

Definition handleDeviceIdentityAccept (w : world) (device fingerprint : string) : list effect * response :=
  match console_gate w device with
  | inr p => ([], p)
  | inl ns =>
      if negb (w_dialer w) then ([], error 503 "portal console not wired")
      else match registeredFingerprint w ns device with
      | Err _ => ([], error 502 "no registered identity")
      | Ok current =>
          if negb (String.eqb fingerprint current) then ([], error 409 "fingerprint changed again")
          else match w_pin w ns device current true with
          | Err _ => ([], error 502 "pin refused")
          | Ok _ => ([Pinned ns device current true; Dropped ns device], error 200 "")
          end
      end
  end.

(** A forward to the relay, and its answer copied. *)
Definition tell (w : world) (path ns device : string) : list effect * response :=
  ([Told path ns device], match w_told w path ns device with None => error 502 "relay unreachable" | Some status => error status "" end).

Definition handleDeviceRemove (w : world) (device : string) : list effect * response :=
  match requireDevice (w_auth w) (w_relay w) device with
  | inr p => ([], p)
  | inl d =>
      if Shared d then ([], error 403 "owner only")
      else
        let ns := Owner d in
        ([Dropped ns device] ++ (if w_known w then [Forgot ns device] else []) ++ [Told "/admin/devices/remove" ns device],
         match w_told w "/admin/devices/remove" ns device with Some 200 => error 200 "" | _ => error 502 "remove failed" end)
  end.

Definition handleDeviceAlias (w : world) (device : string) : list effect * response :=
  match requireDevice (w_auth w) (w_relay w) device with
  | inr p => ([], p)
  | inl d => if Shared d then ([], error 403 "owner only") else tell w "/admin/devices/alias" (Owner d) device
  end.

(** The owner's notification settings, read and written. *)
Definition handleDeviceNotify (w : world) (device : string) : list effect * response :=
  match owner_gate w device with inr p => ([], p) | inl ns => tell w "/admin/devices/notify" ns device end.
Definition handleDeviceLark (w : world) (device : string) : list effect * response :=
  match owner_gate w device with inr p => ([], p) | inl ns => tell w "/admin/devices/lark" ns device end.

Definition handleDeviceADBPair (w : world) (device : string) (port : Z) (code : string) (capable : bool) : list effect * response :=
  match owner_gate w device with
  | inr p => ([], p)
  | inl ns =>
      if negb (valid_pairing port code) then ([], error 400 "enter the pairing port and six-digit code")
      else on_device w (inl ns) device (λ ns,
        match accepted_reply (w_answer w ns device ConsoleState) with
        | Err e => ([Asked ns device ConsoleState], connError (RpcFailed e))
        | Ok _ =>
            if negb capable then ([Asked ns device ConsoleState], error 409 "ADB pairing requires a newer app")
            else ([Asked ns device ConsoleState; Asked ns device (ADBPair port code)],
                  match pairADB (w_answer w ns device (ADBPair port code)) with Ok _ => page "paired" | Err _ => error 502 "device error" end)
        end)
  end.

(** [post]: what a POST asks to install, empty names for a body that does not
    decode; [None] is a GET.  The handler notes its steps in the portal's record,
    the last one at [w_later], when the device answered or failed; the device's
    own reports come in between ([Install.Report]). *)
Definition oldInstallAgent : string :=
  "This device's wanctl is too old to be upgraded from the web. Run `wanctl update` on the device; if auto-update is on, it will also update itself.".

Definition install_failure (w : world) (e : conn_error) : string :=
  match e with
  | RpcFailed (Refused reason) => if String.eqb reason "unknown RPC kind" then oldInstallAgent else w_text w e
  | _ => w_text w e
  end.

Definition handleDeviceInstall (w : world) (device : string) (post : option (string * string)) : list effect * response :=
  match requireDevice (w_auth w) (w_relay w) device with
  | inr p => ([], p)
  | inl access =>
      if Shared access then ([], error 403 "only the device owner can install packages")
      else
        let ns := Owner access in
        let key := (ns ++ "/" ++ device)%string in
        let looked := Install.look (w_now w) access key (w_installs w) in
        let seen := Noted ns device (Install.Look (w_now w) access key) in
        match post with
        | None => ([seen], page "install")
        | Some (pkg, version) =>
            let id := fresh (dom (Install.n_all looked)) in
            match Install.begin_install ValidateVersion (w_now w) access key id pkg version looked with
            | Err (status, text) => ([seen], error status text)
            | Ok _ =>
                let m := PackageInstall pkg version in
                let '(dialled, conn) := deviceConnFor w ns device in
                let '(asked, failed) :=
                  match conn with
                  | Err e => ([], Some e)
                  | Ok _ => ([Asked ns device m], match accepted_reply (w_answer w ns device m) with Ok _ => None | Err e => Some (RpcFailed e) end)
                  end in
                let last :=
                  match failed with
                  | None => Install.Accept id
                  | Some e => Install.Report (w_later w) key id (Install.Progress pkg version "failed" (install_failure w e))
                  end in
                ([seen; Noted ns device (Install.Begin (w_now w) access key id pkg version)] ++ dialled ++ asked ++ [Noted ns device last], page "install")
            end
        end
  end.

(** The owner's approval phone: withdrawing it needs an account, choosing a device
    also its ownership and a test card it took.  [tested] is what [testPush]
    found: the device refused, could not be reached, or showed the card. *)
Inductive tested := TookCard | Incapable | Unreached.

Definition handleApprovalPhoneWrite (w : world) (phone : option tested) (device : string) : list effect * response :=
  if String.eqb device "" then
    match w_auth w with inr p => ([], p) | inl ns => tell w "/admin/approval-phone" ns "" end
  else match owner_gate w device with
  | inr p => ([], p)
  | inl ns => match phone with
              | None => ([], error 503 "portal console not wired")
              | Some Incapable => ([], error 422 "approval_phone_incapable")
              | Some Unreached => ([], error 409 "approval_phone_unreachable")
              | Some TookCard => tell w "/admin/approval-phone" ns device
              end
  end.

(** ** Who may do it *)

Inductive action :=
| DoConsole | DoDecide (id verdict : string) | DoPair (fp verdict : string) | DoUntrust (fp : string) | DoRules (op : string) (r : rule) (index : Z)
| DoMode (m : mode) | DoLogs (logType grep since : string) | DoAccept (fingerprint : string) | DoRemove | DoAlias | DoNotify | DoLark
| DoADBPair (port : Z) (code : string) (capable : bool) | DoInstall (post : option (string * string)) | DoPhone (phone : option tested).

Definition serve (w : world) (device : string) (x : action) : list effect * response :=
  match x with
  | DoConsole => handleDeviceConsole w device
  | DoDecide id verdict => handleDeviceDecide w device id verdict
  | DoPair fp verdict => handleDevicePair w device fp verdict
  | DoUntrust fp => handleDeviceUntrust w device fp
  | DoRules op r index => handleDeviceRules w device op r index
  | DoMode m => handleDeviceMode w device m
  | DoLogs logType grep since => handleDeviceLogs w device logType grep since
  | DoAccept fp => handleDeviceIdentityAccept w device fp
  | DoRemove => handleDeviceRemove w device
  | DoAlias => handleDeviceAlias w device
  | DoNotify => handleDeviceNotify w device
  | DoLark => handleDeviceLark w device
  | DoADBPair port code capable => handleDeviceADBPair w device port code capable
  | DoInstall post => handleDeviceInstall w device post
  | DoPhone phone => handleApprovalPhoneWrite w phone device
  end.

Inductive right := UseDevice | ManageDevice | OwnDevice.




Section administered.
Context (live : string → string → bool) (version : string → string → string) (d : db).



(** *** Effects come after the gate *)










End administered.

(** ** The activity log *)

Section activity.
(** A field's JSON as text, and a count's. *)
Context (unquote : string → string) (quote : nat → string).

Abbreviation event := (gmap string string).

Definition str (e : event) (k : string) : string := match e !! k with Some raw => unquote raw | None => "" end.
Definition is_connect (e : event) : bool := String.eqb (str e "type") "connect".
Definition source (e : event) : list string := [str e "peer_fp"; str e "peer_name"; str e "decision"; str e "grant_id"; str e "credential_id"]%string.
Definition ts (e : event) : string := default "null" (e !! "ts")%string.

Definition mark (count : nat) (first : string) (e : event) : event := <["first_ts" := first]> (<["count" := quote count]> e)%string.

(** The loop: what is written, and the run at its end, with its source, length and
    first time. *)
Fixpoint merge_loop (events out : list event) (run : option (list string * nat * string)) : list event :=
  match events with
  | [] => out
  | e :: events =>
      if negb (is_connect e) then merge_loop events (out ++ [e]) None
      else
        let fresh := merge_loop events (out ++ [e]) (Some (source e, 1%nat, ts e)) in
        match run with
        | Some (src, n, first) =>
            if bool_decide (source e = src) then merge_loop events (removelast out ++ [mark (S n) first e]) (Some (src, S n, first)) else fresh
        | None => fresh
        end
  end.

Definition mergeConnectRuns (events : list event) : list event := merge_loop events [] None.

(** A group as one line: its newest event, marked if there are several. *)
Definition line_of (g : list event) : event :=
  match g, last g with [e], _ => e | e :: _, Some l => mark (length g) (ts e) l | _, _ => ∅ end.

Lemma line_of_snoc e1 g e : line_of ((e1 :: g) ++ [e]) = mark (Datatypes.S (length (e1 :: g))) (ts e1) e.
Proof.
  unfold line_of. cbn [app]. destruct (g ++ [e]) as [|x l] eqn:G; [by destruct g|]. rewrite <- G. change (e1 :: g ++ [e]) with ((e1 :: g) ++ [e]).
  by rewrite last_snoc, length_app, Nat.add_1_r.
Qed.

Definition one_source (src : list string) (g : list event) : Prop := ∀ e, e ∈ g → is_connect e = true ∧ source e = src.

Definition group_ok (g : list event) : Prop := (∃ e, g = [e]) ∨ ∃ src, g ≠ [] ∧ one_source src g.

Definition run_ok (run : option (list string * nat * string)) (gs : list (list event)) : Prop :=
  match run with
  | None => True
  | Some (src, n, first) => ∃ gs' e g, gs = gs' ++ [e :: g] ∧ one_source src (e :: g) ∧ n = length (e :: g) ∧ first = ts e
  end.

Lemma merge_loop_groups events gs run : Forall group_ok gs → run_ok run gs →
  ∃ gs', merge_loop events (map line_of gs) run = map line_of gs' ∧ concat gs' = concat gs ++ events ∧ Forall group_ok gs'.
Proof.
  revert gs run. induction events as [|e events IH]; intros gs run F R; [exists gs; by rewrite app_nil_r|].
  assert (∀ run', run_ok run' (gs ++ [[e]]) → ∃ gs', merge_loop events (map line_of gs ++ [e]) run' = map line_of gs' ∧ concat gs' = concat gs ++ e :: events ∧ Forall group_ok gs') as New.
  { intros run' R'. destruct (IH (gs ++ [[e]]) run') as (gs' & E1 & E2 & E3); [apply Forall_app; split; [done|repeat constructor; by exists e]|done|].
    exists gs'. rewrite map_app in E1. split; [exact E1|]. split; [|done]. rewrite E2, concat_app. simpl. by rewrite <- app_assoc. }
  simpl. destruct (is_connect e) eqn:C; simpl; [|by apply New].
  assert (run_ok (Some (source e, 1%nat, ts e)) (gs ++ [[e]])) as One by (exists gs, e, []; split_and!; try done; by intros x ->%list_elem_of_singleton).
  destruct run as [[[src n] first]|]; [|by apply New]. case_bool_decide as S; [|by apply New].
  destruct R as (gs' & e1 & g & -> & Os & -> & ->). apply Forall_app in F as [F _].
  assert (one_source src ((e1 :: g) ++ [e])) as Os' by (intros x; rewrite elem_of_app, list_elem_of_singleton; intros [Hx| ->]; [by apply Os|done]).
  destruct (IH (gs' ++ [(e1 :: g) ++ [e]]) (Some (src, Datatypes.S (length (e1 :: g)), ts e1))) as (gs2 & E1 & E2 & E3).
  - apply Forall_app. split; [done|]. constructor; [right; by exists src|constructor].
  - exists gs', e1, (g ++ [e]). split_and!; try done. simpl. by rewrite length_app, Nat.add_1_r.
  - exists gs2. rewrite !map_app in *. simpl map in *. rewrite removelast_last. split; [|split; [|done]].
    + rewrite <- E1. f_equal. f_equal. f_equal. symmetry. apply (line_of_snoc e1 g e).
    + rewrite E2, !concat_app. cbn [concat]. rewrite !app_nil_r, <- !app_assoc. done.
Qed.

(** Nothing is lost in the table: its lines are the events in groups, in order,
    each a single event or a run of connects of one source. *)
Lemma merge_groups events : ∃ gs, mergeConnectRuns events = map line_of gs ∧ concat gs = events ∧ Forall group_ok gs.
Proof. apply (merge_loop_groups events [] None); [by constructor|done]. Qed.
End activity.

(** ** Evaluations *)

Module Demo.

Definition sample_fp : string := fp_of "a".

(** Alice owns a box and shares it with Bob, who may manage it, and with Eve. *)
Definition tables : db :=
  on_acl (λ _, [Share 1 "alice" "box" "bob" true None; Share 2 "alice" "box" "eve" false None])
    (on_devices (λ _, [Device "alice" "box" "Box" None None (Some sample_fp) true 0]) empty_db).

Definition visitor (ns : string) : world :=
  World (inl ns) (λ n, Some (200, ListDevices (λ _ _, true) (λ _ _, "v1.0.0"%string) n tables)) true (λ _ _, false)
    (λ _ _ _ _, Ok ()) (λ _ _, true) (λ _ _ _, Some (DataReply "refused")) (λ _ _ _, Some 200) ns true
    0 1 (Install.Installs ∅ ∅) (λ _, "unreachable"%string).


(** Only the owner installs, and only one thing at a time. *)
Example owner_installs :
  serve (visitor "bob") "box" (DoInstall (Some ("opencu", "latest")%string)) = ([], error 403 "only the device owner can install packages") ∧
  match (serve (visitor "alice") "box" (DoInstall (Some ("opencu", "latest")%string))).1 with
  | [_; Noted _ _ (Install.Begin _ _ key id _ _); Pinned _ _ _ _; Asked owner _ m; Noted _ _ (Install.Accept id')] =>
      key = "alice/box"%string ∧ owner = "alice"%string ∧ m = PackageInstall "opencu" "latest" ∧ id = id'
  | _ => False
  end.
Proof. vm_compute. auto. Qed.

(** A grantee with management pins a new identity of the owner's device. *)
Lemma grantee_repins : serve (visitor "bob") "box" (DoAccept sample_fp) = ([Pinned "alice" "box" sample_fp true; Dropped "alice" "box"], error 200 "").
Proof. vm_compute. reflexivity. Qed.

(** A device refuses to forget its last portal, and the visitor is told it did. *)
Definition last_portal : agent () :=
  Agent (Engine [] ModeNormal false) (Disk None RulesAbsent true) NewMemStore no_grants () (New false) [sample_fp] false false "" false.

Lemma refusal_reported_done :
  handleConsoleRPC 0 (Host true true true None (Ok ())) (TrustRevoke sample_fp) None last_portal = (DataReply "error", None, last_portal) ∧
  (serve (visitor "bob") "box" (DoUntrust sample_fp)).2 = error 200 "".
Proof. split; vm_compute; reflexivity. Qed.

Lemma bad_index_reported_done :
  (handleConsoleRPC 0 (Host true true true None (Ok ())) (RuleRm 7) None last_portal).1.1 = DataReply "error" ∧
  (serve (visitor "bob") "box" (DoRules "rm" (Rule KindRead "" "" ScopeGlobal 0) 7)).2 = error 200 "".
Proof. split; vm_compute; reflexivity. Qed.

End Demo.
