(* ===== verification/PhoneWatch.v ===== *)
(** [internal/portal/phonewatch.go], with [approvalwatch.go] and
    [protocol/approval.go]: the approval phone.  The portal watches the devices of
    an owner whose phone is online, shows each request to the phone as a card, and
    carries the owner's decision back to the device, as an answer while the
    request waits and as a grant for one retry once it has run out.

    Watches, the listener for the phone's decisions and the reconciler run
    concurrently and share the supervisor's maps under [p.mu], so the supervisor
    is a transition system: an event is one critical section, or one exchange with
    a device between two of them. *)

From stdpp Require Import sorting.
From S2P Require Import Prelude GoStrings Policy Console ConsoleRpc.

Local Open Scope Z_scope.

Definition phoneApprovalWait : Z := 180 * second.
Definition phonePairingWindow : Z := 5 * minute.
Definition phoneCardRetention : Z := 24 * hour.
Definition phoneMaxCards : nat := 256.
Definition phoneExpirySlack : Z := 5 * second.
Definition LateGrantWindow : Z := 30 * minute.

(** ** Cards *)

Inductive card_state := ApprovalPending | ApprovalExpired | ApprovalDone | ApprovalTest.
Inductive card_result := ResultAllowed | ResultDenied | ResultGranted | ResultHandled | ResultGone.

#[export] Instance card_state_eq_dec : EqDecision card_state.
Proof. solve_decision. Defined.

(** [protocol.ApprovalCard]; a pairing's kind is [KindOther "pair"]. *)
Record card := ApprovalCard {
  c_ID : string; c_State : card_state; c_Kind : kind; c_Device : string; c_Peer : string; c_PeerFP : string;
  c_Cmd : string; c_Path : string; c_Cwd : string; c_Created : Z; c_Expires : Z; c_Result : option card_result }.

Definition set_state (st : card_state) (r : option card_result) (c : card) : card :=
  ApprovalCard (c_ID c) st (c_Kind c) (c_Device c) (c_Peer c) (c_PeerFP c) (c_Cmd c) (c_Path c) (c_Cwd c) (c_Created c) (c_Expires c) r.

(** A connection is named by a number, and its generation is the connection. *)
Record phoneCard := PhoneCard {
  pc_card : card; pc_ns : string; pc_device : string; pc_phone : string; pc_pendingID : string; pc_pairFP : string;
  pc_seenAt : Z; pc_answered : bool; pc_disappearedAt : Z; pc_disappearanceUnknown : bool; pc_generation : option nat }.

Definition pc_ID (pc : phoneCard) : string := c_ID (pc_card pc).

Definition with_card (f : card → card) (pc : phoneCard) : phoneCard :=
  PhoneCard (f (pc_card pc)) (pc_ns pc) (pc_device pc) (pc_phone pc) (pc_pendingID pc) (pc_pairFP pc) (pc_seenAt pc) (pc_answered pc) (pc_disappearedAt pc) (pc_disappearanceUnknown pc) (pc_generation pc).
Definition with_answered (pc : phoneCard) : phoneCard :=
  PhoneCard (pc_card pc) (pc_ns pc) (pc_device pc) (pc_phone pc) (pc_pendingID pc) (pc_pairFP pc) (pc_seenAt pc) true (pc_disappearedAt pc) (pc_disappearanceUnknown pc) (pc_generation pc).
Definition with_vanished (t : Z) (unknown : bool) (pc : phoneCard) : phoneCard :=
  PhoneCard (pc_card pc) (pc_ns pc) (pc_device pc) (pc_phone pc) (pc_pendingID pc) (pc_pairFP pc) (pc_seenAt pc) (pc_answered pc) t unknown (pc_generation pc).
Definition with_target (pend fp : string) (g : option nat) (pc : phoneCard) : phoneCard :=
  PhoneCard (pc_card pc) (pc_ns pc) (pc_device pc) (pc_phone pc) pend fp (pc_seenAt pc) (pc_answered pc) (pc_disappearedAt pc) (pc_disappearanceUnknown pc) g.

(** [closed]: the connections that were closed. *)
Definition observationCurrent (closed : gset nat) (pc : phoneCard) (generation : option nat) : bool :=
  match pc_generation pc with
  | None => false
  | Some g => bool_decide (generation = Some g) && negb (bool_decide (g ∈ closed))
  end.

Definition answeredElsewhere (pc : phoneCard) : bool :=
  pc_disappearanceUnknown pc || is_zero (pc_disappearedAt pc) || (pc_disappearedAt pc <? c_Expires (pc_card pc) - phoneExpirySlack).

(** ** The supervisor *)

(** [sp_session] is the link's own console session, which [sp_link] closes. *)
Record phoneSpace := PhoneSpace {
  sp_phone : string; sp_phoneName : string; sp_online : bool; sp_session : option nat; sp_link : option nat;
  sp_names : gmap string string; sp_targets : gset string }.

(** What a goroutine of the portal is in the middle of: filling in a new card, or
    carrying out a decision on the card it took. *)
Inductive proc :=
| Identifying (id pend fp : string) (g : option nat)
| Applying (pc : phoneCard) (verdict approver : string)
| Missed (pc : phoneCard) (verdict approver : string) (g : option nat)
| Late (pc : phoneCard) (verdict approver : string) (g : option nat)
| Finishing (id : string) (r : card_result).

(** What happened, for the record: a card was made for a request, a decision was
    taken, a device was asked something on a card's account, and a request was
    found gone on a live connection. *)
Inductive act :=
| Made (pc : phoneCard) (pend fp : string) (g : option nat)
| Took (id ns phone verdict : string) (t : Z)
| Asked (id ns device : string) (r : rpc) (reply : rpc_result)
| Vanished (id : string) (g : nat) (t : Z).

Record supervisor := Supervisor {
  spaces : gmap string phoneSpace; cards : gmap string phoneCard; closed : gset nat; procs : list proc; history : list act }.

Definition newPhoneSupervisor : supervisor := Supervisor ∅ ∅ ∅ [] [].

Definition set_spaces (m : gmap string phoneSpace) (s : supervisor) : supervisor := Supervisor m (cards s) (closed s) (procs s) (history s).
Definition set_cards (m : gmap string phoneCard) (s : supervisor) : supervisor := Supervisor (spaces s) m (closed s) (procs s) (history s).
Definition set_procs (l : list proc) (s : supervisor) : supervisor := Supervisor (spaces s) (cards s) (closed s) l (history s).
Definition close_session (o : option nat) (s : supervisor) : supervisor :=
  Supervisor (spaces s) (cards s) (match o with Some g => {[g]} ∪ closed s | None => closed s end) (procs s) (history s).
Definition record (l : list act) (s : supervisor) : supervisor := Supervisor (spaces s) (cards s) (closed s) (procs s) (history s ++ l).

Definition displayName (sp : phoneSpace) (device : string) : string :=
  match sp_names sp !! device with Some n => if String.eqb n "" then device else n | None => device end.

(** [push]: the session a card would go out on, [None] when it has nowhere to go. *)
Definition push (ns phone : string) (s : supervisor) : option nat :=
  match spaces s !! ns with
  | Some sp => if String.eqb (sp_phone sp) phone && sp_online sp then sp_session sp else None
  | None => None
  end.

(** [status] *)
Definition status (ns : string) (s : supervisor) : string * bool :=
  match spaces s !! ns with Some sp => (sp_phone sp, sp_online sp) | None => (""%string, false) end.

(** ** New cards *)

(** [newCard]; the caller's next critical section fills in what the card is for,
    with [Identifying]. *)
Definition newCard (id ns device : string) (c : card) (window now : Z) (s : supervisor) : option phoneCard * supervisor :=
  match spaces s !! ns with
  | None => (None, s)
  | Some sp =>
      let c := ApprovalCard id ApprovalPending (c_Kind c) (displayName sp device) (c_Peer c) (c_PeerFP c) (c_Cmd c) (c_Path c) (c_Cwd c)
                 (if is_zero (c_Created c) then now else c_Created c) (now + window) (c_Result c) in
      let pc := PhoneCard c ns device (sp_phone sp) "" "" now false 0 false None in
      (Some pc, set_cards (<[id := pc]> (cards s)) s)
  end.

Definition identify (id pend fp : string) (g : option nat) (s : supervisor) : supervisor :=
  set_cards (alter (with_target pend fp g) id (cards s)) s.

(** ** Requests that go away *)

(** [settle]: the card to update on the phone, if any. *)
Definition settle (id : string) (generation : option nat) (now : Z) (s : supervisor) : option phoneCard * supervisor :=
  match cards s !! id with
  | None => (None, s)
  | Some pc =>
      if pc_answered pc || negb (bool_decide (c_State (pc_card pc) = ApprovalPending)) then (None, s)
      else
        let live := observationCurrent (closed s) pc generation in
        let pc := if live then with_vanished now (pc_disappearanceUnknown pc) pc else with_vanished (pc_disappearedAt pc) true pc in
        let pc := if answeredElsewhere pc then with_answered (with_card (set_state ApprovalDone (Some ResultHandled)) pc)
                  else with_card (set_state ApprovalExpired (c_Result (pc_card pc))) pc in
        let s := set_cards (<[id := pc]> (cards s)) s in
        (Some pc, match generation with Some g => if live then record [Vanished id g now] s else s | None => s end)
  end.

(** [markDisappearanceUnknownLocked] *)
Definition unobserved (ns device : string) (pc : phoneCard) : phoneCard :=
  if String.eqb (pc_ns pc) ns && (String.eqb device "" || String.eqb (pc_device pc) device) && bool_decide (c_State (pc_card pc) = ApprovalPending)
  then with_vanished (pc_disappearedAt pc) true pc else pc.
Definition markDisappearanceUnknown (ns device : string) (s : supervisor) : supervisor := set_cards (unobserved ns device <$> cards s) s.

(** ** Decisions *)

Inductive heard := Ignored | AnsweredGone | Repeated (c : card) | Taken.

(** The first critical section of [handleReply]. *)
Definition handleReply (ns phone id verdict : string) (now : Z) (s : supervisor) : heard * supervisor :=
  if negb (String.eqb verdict "y" || String.eqb verdict "n") then (Ignored, s)
  else
    match spaces s !! ns, cards s !! id with
    | Some sp, Some pc =>
        if negb (String.eqb (sp_phone sp) phone && String.eqb (pc_ns pc) ns && String.eqb (pc_phone pc) phone && (now - pc_seenAt pc <? phoneCardRetention))
        then (AnsweredGone, s)
        else if pc_answered pc then (Repeated (pc_card pc), s)
        else
          let pc := with_answered pc in
          (Taken, record [Took id ns phone verdict now]
                    (set_procs (procs s ++ [Applying pc verdict ("phone:" ++ sp_phoneName sp)%string]) (set_cards (<[id := pc]> (cards s)) s)))
    | _, _ => (AnsweredGone, s)
    end.

(** The device's answer and the time, for an exchange with it; [x_session] is
    [None] when it cannot be reached. *)
Record exchange := Exchange { x_session : option (option nat); x_reply : rpc_result; x_now : Z }.

Definition decided (verdict : string) : card_result := if String.eqb verdict "y" then ResultAllowed else ResultDenied.

(** [apply], up to the request it makes of the device. *)
Definition apply_first (x : exchange) (pc : phoneCard) (verdict approver : string) : list act * proc :=
  let ends r := Finishing (pc_ID pc) r in
  let asked r := [Asked (pc_ID pc) (pc_ns pc) (pc_device pc) r (x_reply x)] in
  match x_session x with
  | None => ([], ends ResultGone)
  | Some g =>
      if negb (String.eqb (pc_pairFP pc) "") then
        if negb (bool_decide (c_State (pc_card pc) = ApprovalPending)) then ([], ends ResultGone)
        else (asked (PairDecide (pc_pairFP pc) verdict),
              ends (match pairDecide (x_reply x) with
                    | Err None =>
                        let pc := with_vanished (if is_zero (pc_disappearedAt pc) then x_now x else pc_disappearedAt pc) (pc_disappearanceUnknown pc) pc in
                        if answeredElsewhere pc then ResultHandled else ResultGone
                    | Err (Some _) => ResultGone
                    | Ok _ => decided verdict
                    end))
      else if bool_decide (c_State (pc_card pc) = ApprovalPending) then
        (asked (DecideRequest (pc_pendingID pc) verdict approver),
         match decideFound (x_reply x) with
         | Err _ => ends ResultGone
         | Ok true => ends (decided verdict)
         | Ok false => Missed pc verdict approver g
         end)
      else ([], Late pc verdict approver g)
  end.

(** The critical section after a decision found nothing waiting: what the portal
    knows of the disappearance, and the card [apply] goes on with. *)
Definition apply_missed (now : Z) (pc : phoneCard) (g : option nat) (s : supervisor) : phoneCard * supervisor :=
  match cards s !! pc_ID pc with
  | None => (pc, s)
  | Some current =>
      let live := observationCurrent (closed s) current g in
      let unknown := pc_disappearanceUnknown current || negb live in
      let fresh := negb unknown && is_zero (pc_disappearedAt current) in
      let t := if fresh then now else pc_disappearedAt current in
      let s := set_cards (<[pc_ID pc := with_vanished t unknown current]> (cards s)) s in
      (with_vanished t unknown pc, match g with Some g => if fresh then record [Vanished (pc_ID pc) g now] s else s | None => s end)
  end.

Definition late_label (c : card) : string := match c_Kind c with KindExec | KindExecElevated => c_Cmd c | _ => c_Path c end.

Definition late_grant (pc : phoneCard) (approver : string) : rpc :=
  GrantOnce (c_Kind (pc_card pc)) (late_label (pc_card pc)) (c_PeerFP (pc_card pc)) (c_Cwd (pc_card pc)) (Z.quot LateGrantWindow second) approver.

(** The rest of [apply]. *)
Definition apply_late (closed : gset nat) (x : exchange) (pc : phoneCard) (verdict approver : string) (g : option nat) : list act * card_result :=
  if negb (String.eqb verdict "y") then ([], ResultDenied)
  else if answeredElsewhere pc || (negb (bool_decide (c_State (pc_card pc) = ApprovalExpired)) && negb (observationCurrent closed pc g)) then ([], ResultHandled)
  else ([Asked (pc_ID pc) (pc_ns pc) (pc_device pc) (late_grant pc approver) (x_reply x)],
        match done (x_reply x) with Ok _ => ResultGranted | Err _ => ResultGone end).

(** One move of a goroutine; [None] when it has finished. *)
Definition advance (x : exchange) (p : proc) (s : supervisor) : option proc * supervisor :=
  match p with
  | Identifying id pend fp g => (None, identify id pend fp g s)
  | Applying pc v a => let '(l, p) := apply_first x pc v a in (Some p, record l s)
  | Missed pc v a g =>
      let '(pc, s) := apply_missed (x_now x) pc g s in
      (Some (if answeredElsewhere pc then Finishing (pc_ID pc) ResultHandled else Late pc v a g), s)
  | Late pc v a g => let '(l, r) := apply_late (closed s) x pc v a g in (Some (Finishing (pc_ID pc) r), record l s)
  | Finishing id r => (None, set_cards (alter (with_card (set_state ApprovalDone (Some r))) id (cards s)) s)
  end.

(** The [n]th goroutine moves. *)
Definition run_proc (n : nat) (x : exchange) (s : supervisor) : supervisor :=
  match procs s !! n with
  | None => s
  | Some p =>
      let '(next, s') := advance x p s in
      set_procs (match next with Some p => <[n := p]> (procs s) | None => delete n (procs s) end) s'
  end.

Definition made_id (a : act) : option string := match a with Made pc _ _ _ => Some (pc_ID pc) | _ => None end.

(** [newCard], with what the goroutine does next noted.  The 128 random bits of an
    id do not come up twice: an id already used is taken as the failure of the
    random source that [newCard] returns [nil] for. *)
Definition begin_card (id ns device : string) (c : card) (window now : Z) (pend fp : string) (g : option nat) (s : supervisor) : option phoneCard * supervisor :=
  if decide (id ∈ omap made_id (history s)) then (None, s)
  else
    match newCard id ns device c window now s with
    | (None, s) => (None, s)
    | (Some pc, s) => (Some pc, record [Made pc pend fp g] (set_procs (procs s ++ [Identifying id pend fp g]) s))
    end.

(** ** Watches *)

(** What a connection to a device was last seen with: [console.State] as far as
    the phone goes. *)
Record console_state := ConsoleStateOf { cs_Trusted : list (string * string); cs_Pending : list pendingView; cs_PendingPairings : list pairView }.

(** [random] gives the ids of new cards and [acked] says which pushes the phone
    acknowledged. *)
Record watch_world := WatchWorld { random : string → option string; acked : string → bool }.

Definition push_ok (w : watch_world) (pc : phoneCard) (s : supervisor) : bool :=
  match push (pc_ns pc) (pc_phone pc) s with Some _ => acked w (pc_ID pc) | None => false end.

Definition no_exchange : exchange := Exchange None None 0.

(** One new request: a card, and the push of it; whether the phone took it,
    [None] if there is no card. *)
Definition show_request (w : watch_world) (ns device : string) (c : card) (window now : Z) (key pend fp : string) (g : option nat) (s : supervisor)
  : option (string * bool) * supervisor :=
  match random w key with
  | None => (None, s)
  | Some id =>
      match begin_card id ns device c window now pend fp g s with
      | (None, s) => (None, s)
      | (Some pc, s') => let s' := run_proc (length (procs s)) no_exchange s' in (Some (id, push_ok w pc s'), s')
      end
  end.

Definition blank_card (k : kind) (peer fp cmd path cwd : string) (created : Z) : card :=
  ApprovalCard "" ApprovalPending k "" peer fp cmd path cwd created 0 None.

Definition name_of (l : list (string * string)) (fp : string) : string :=
  fold_left (λ acc p, if String.eqb p.1 fp then p.2 else acc) l ""%string.

Definition pair_peer (p : pairView) : string :=
  if String.eqb (pv_Label p) "" || String.eqb (pv_Label p) (pv_Name p) then pv_Name p else (pv_Name p ++ "（" ++ pv_Label p ++ "）")%string.

(** What a turn of the watch leaves: its two maps from requests to cards, the
    requests it refused because nobody will see them, and whether it found the
    phone gone. *)
Record watch_turn := WatchTurn { seenPending : gmap string string; seenPairing : gmap string string; refused : list string; lost : bool }.

Definition push_pending (w : watch_world) (ns device : string) (g : option nat) (names : list (string * string)) (wait now : Z)
    (st : watch_turn * supervisor) (v : pendingView) : watch_turn * supervisor :=
  let '(t, s) := st in
  match seenPending t !! v_ID v with
  | Some _ => st
  | None =>
      match show_request w ns device (blank_card (v_Kind v) (name_of names (v_Peer v)) (v_Peer v) (v_Cmd v) (v_Path v) (v_Cwd v) (v_Created v)) wait now (v_ID v) (v_ID v) "" g s with
      | (None, s) => (t, s)
      | (Some (id, ok), s) =>
          (WatchTurn (<[v_ID v := id]> (seenPending t)) (seenPairing t) (if ok then refused t else refused t ++ [v_ID v]) (lost t || negb ok), s)
      end
  end.

Definition push_pairing (w : watch_world) (ns device : string) (g : option nat) (now : Z) (st : watch_turn * supervisor) (v : pairView) : watch_turn * supervisor :=
  let '(t, s) := st in
  match seenPairing t !! pv_FP v with
  | Some _ => st
  | None =>
      match show_request w ns device (blank_card (KindOther "pair") (pair_peer v) (pv_FP v) "" "" "" (pv_Created v)) phonePairingWindow now (pv_FP v) "" (pv_FP v) g s with
      | (None, s) => (t, s)
      | (Some (id, ok), s) => (WatchTurn (seenPending t) (<[pv_FP v := id]> (seenPairing t)) (refused t) (lost t || negb ok), s)
      end
  end.

Definition settle_all (ids : list string) (g : option nat) (now : Z) (s : supervisor) : supervisor :=
  fold_left (λ s id, (settle id g now s).2) ids s.

Definition gone_of (seen : gmap string string) (current : list string) : gmap string string := filter (λ kv : string * string, kv.1 ∉ current) seen.

(** [onTargetState] *)
Definition onTargetState (w : watch_world) (ns device : string) (g : option nat) (state : console_state) (wait now : Z) (seenP seenF : gmap string string) (s : supervisor)
  : watch_turn * supervisor :=
  let pending := v_ID <$> cs_Pending state in
  let pairing := pv_FP <$> cs_PendingPairings state in
  let '(t, s) := fold_left (push_pending w ns device g (cs_Trusted state) wait now) (cs_Pending state) (WatchTurn seenP seenF [] false, s) in
  let gone := gone_of (seenPending t) pending in
  let s := settle_all (snd <$> map_to_list gone) g now s in
  let t := WatchTurn (seenPending t ∖ gone) (seenPairing t) (refused t) (lost t) in
  let '(t, s) := fold_left (push_pairing w ns device g now) (cs_PendingPairings state) (t, s) in
  let gone := gone_of (seenPairing t) pairing in
  let s := settle_all (snd <$> map_to_list gone) g now s in
  (WatchTurn (seenPending t) (seenPairing t ∖ gone) (refused t) (lost t), s).

(** ** Phones that come and go *)

Record phoneDeviceRow := PhoneDeviceRow { r_Name : string; r_DisplayName : string; r_Owner : string; r_Shared : bool; r_Online : bool }.

(** The filter of [ownedDevices]. *)
Definition ownedDevices (ns : string) (l : list phoneDeviceRow) : list phoneDeviceRow :=
  List.filter (λ d, negb (r_Shared d) && (String.eqb (r_Owner d) "" || String.eqb (r_Owner d) ns) && negb (String.eqb (r_Name d) "")) l.

(** [loadPhones], of the rows the relay answered. *)
Definition loadPhones (l : list (string * string)) : gmap string string :=
  fold_left (λ m p, if String.eqb p.1 "" || String.eqb p.2 "" then m else <[p.1 := p.2]> m) l ∅.

(** [teardown]: the devices whose pooled connection it drops. *)
Definition teardown (ns : string) (forget : bool) (s : supervisor) : list string * supervisor :=
  match spaces s !! ns with
  | None => ([], s)
  | Some sp =>
      let s := markDisappearanceUnknown ns "" s in
      let idle := PhoneSpace (sp_phone sp) (sp_phoneName sp) false None None (sp_names sp) ∅ in
      (elements (sp_targets sp), close_session (sp_link sp) (set_spaces (if forget then delete ns (spaces s) else <[ns := idle]> (spaces s)) s))
  end.

(** [phoneLost]: whether it launches [teardown ns false]. *)
Definition phoneLost (ns phone : string) (s : supervisor) : bool :=
  match spaces s !! ns with Some sp => String.eqb (sp_phone sp) phone && sp_online sp | None => false end.

Definition stopAll (s : supervisor) : supervisor := fold_left (λ s ns, (teardown ns true s).2) (fst <$> map_to_list (spaces s)) s.

(** The critical sections of [reconcileSpace]: what the relay said of the
    devices, *)
Definition space_seen (ns phone : string) (devices : list phoneDeviceRow) (s : supervisor) : bool * supervisor :=
  let sp := default (PhoneSpace phone "" false None None ∅ ∅) (spaces s !! ns) in
  let names := fold_left (λ m d, if String.eqb (r_DisplayName d) "" then m else <[r_Name d := r_DisplayName d]> m) devices ∅ in
  let sp' := PhoneSpace (sp_phone sp) (sp_phoneName sp) (sp_online sp) (sp_session sp) (sp_link sp) names (sp_targets sp) in
  let sp' := if any (λ d, String.eqb (r_Name d) phone) devices
             then PhoneSpace (sp_phone sp') (displayName sp' phone) (sp_online sp') (sp_session sp') (sp_link sp') (sp_names sp') (sp_targets sp') else sp' in
  (sp_online sp, set_spaces (<[ns := sp']> (spaces s)) s).

(** the link to a phone that answers ([bringUp]), *)
Definition bring_up (ns phone : string) (session : nat) (s : supervisor) : supervisor :=
  match spaces s !! ns with
  | Some sp =>
      if String.eqb (sp_phone sp) phone
      then set_spaces (<[ns := PhoneSpace (sp_phone sp) (sp_phoneName sp) true (Some session) (Some session) (sp_names sp) (sp_targets sp)]> (spaces s)) s
      else close_session (Some session) s
  | None => close_session (Some session) s
  end.

(** and the watches. *)
Definition update_targets (ns : string) (online : gset string) (s : supervisor) : supervisor :=
  match spaces s !! ns with
  | Some sp =>
      if sp_online sp
      then
        let s := fold_left (λ s device, markDisappearanceUnknown ns device s) (elements (sp_targets sp ∖ online)) s in
        set_spaces (<[ns := PhoneSpace (sp_phone sp) (sp_phoneName sp) (sp_online sp) (sp_session sp) (sp_link sp) (sp_names sp) online]> (spaces s)) s
      else s
  | None => s
  end.

(** The phone's own row: the last one of its name. *)
Definition phone_online (phone : string) (devices : list phoneDeviceRow) : bool :=
  match last (List.filter (λ d, String.eqb (r_Name d) phone) devices) with Some d => r_Online d | None => false end.

(** [reconcileSpace]: [rows] is what the relay answered, [link] the session of a
    phone that could be dialled and answered. *)
Definition reconcileSpace (rows : string → option (list phoneDeviceRow)) (link : string → option nat) (s : supervisor) (np : string * string) : supervisor :=
  let '(ns, phone) := np in
  match rows ns with
  | None => s
  | Some all =>
      let devices := ownedDevices ns all in
      let '(wasOnline, s) := space_seen ns phone devices s in
      let online := list_to_set (r_Name <$> List.filter r_Online devices) in
      if negb (phone_online phone devices) then if wasOnline then (teardown ns false s).2 else s
      else if wasOnline then update_targets ns online s
      else match link ns with None => s | Some session => update_targets ns online (bring_up ns phone session s) end
  end.

(** ** Old cards *)

Definition older (x y : string * phoneCard) : Prop := pc_seenAt x.2 ≤ pc_seenAt y.2.
#[export] Instance older_dec : RelDecision older := λ x y, decide (pc_seenAt x.2 ≤ pc_seenAt y.2).

Definition cards_of (ns : string) (m : gmap string phoneCard) : list (string * phoneCard) := List.filter (λ kv, String.eqb (pc_ns kv.2) ns) (map_to_list m).

(** The oldest beyond [phoneMaxCards]. *)
Definition surplus (ns : string) (m : gmap string phoneCard) : list (string * phoneCard) :=
  let l := merge_sort older (cards_of ns m) in take (length l - phoneMaxCards)%nat l.

Definition pruneCards (now : Z) (s : supervisor) : supervisor :=
  let kept := filter (λ kv : string * phoneCard, now - pc_seenAt kv.2 < phoneCardRetention) (cards s) in
  set_cards (filter (λ kv : string * phoneCard, kv.1 ∉ (surplus (pc_ns kv.2) kept).*1) kept) s.

(** [reconcile], [None] when the relay could not be asked.  Namespaces share
    nothing, so the order they are taken in does not matter. *)
Definition reconcile (phones : option (list (string * string))) (rows : string → option (list phoneDeviceRow)) (link : string → option nat) (now : Z) (s : supervisor) : supervisor :=
  match phones with
  | None => s
  | Some l =>
      let phones := loadPhones l in
      let gone := fst <$> map_to_list (filter (λ kv : string * phoneSpace, default ""%string (phones !! kv.1) ≠ sp_phone kv.2) (spaces s)) in
      let s := fold_left (λ s ns, (teardown ns true s).2) gone s in
      pruneCards now (fold_left (reconcileSpace rows link) (map_to_list phones) s)
  end.

(** ** Runs *)

Inductive event :=
| Card (id ns device : string) (c : card) (window now : Z) (pend fp : string) (g : option nat)
| Move (n : nat) (x : exchange)
| Settle (id : string) (g : option nat) (now : Z)
| Unobserved (ns device : string)
| Reply (ns phone id verdict : string) (now : Z)
| TearDown (ns : string) (forget : bool)
| SpaceSeen (ns phone : string) (devices : list phoneDeviceRow)
| BringUp (ns phone : string) (session : nat)
| Targets (ns : string) (online : gset string)
| Prune (now : Z)
| Close (g : nat).

Definition happen (e : event) (s : supervisor) : supervisor :=
  match e with
  | Card id ns device c window now pend fp g => (begin_card id ns device c window now pend fp g s).2
  | Move n x => run_proc n x s
  | Settle id g now => (settle id g now s).2
  | Unobserved ns device => markDisappearanceUnknown ns device s
  | Reply ns phone id verdict now => (handleReply ns phone id verdict now s).2
  | TearDown ns forget => (teardown ns forget s).2
  | SpaceSeen ns phone devices => (space_seen ns phone devices s).2
  | BringUp ns phone session => bring_up ns phone session s
  | Targets ns online => update_targets ns online s
  | Prune now => pruneCards now s
  | Close g => close_session (Some g) s
  end.

Definition happen_all (es : list event) (s : supervisor) : supervisor := fold_left (λ s e, happen e s) es s.

Definition sstep (s s' : supervisor) : Prop := ∃ e, s' = happen e s.
Definition supervised : supervisor → Prop := reachable (λ s, s = newPhoneSupervisor) sstep.

(** ** What the record shows *)

Definition took_id (a : act) : option string := match a with Took id _ _ _ _ => Some id | _ => None end.

(** Whether a request to a device may have had an effect there: all may, but a
    decision the device answered with "not found". *)
Definition may_take_effect (r : rpc) (reply : rpc_result) : bool :=
  match r with DecideRequest _ _ _ => match decideFound reply with Ok false => false | _ => true end | _ => true end.

Definition effective (a : act) : option string :=
  match a with Asked id _ _ r reply => if may_take_effect r reply then Some id else None | _ => None end.

(** A grant is for a request that was found gone, on the connection it had been
    seen on, once its wait was as good as over. *)
Definition ran_out (h : list act) (pc : phoneCard) (g : option nat) : Prop :=
  ∃ n u, g = Some n ∧ Vanished (pc_ID pc) n u ∈ h ∧ c_Expires (pc_card pc) - phoneExpirySlack ≤ u.

(** What a device may be asked on account of a card, on verdict [v]. *)
Definition warranted (h : list act) (pc : phoneCard) (pend fp : string) (g : option nat) (v : string) (r : rpc) : Prop :=
  ∃ approver,
    (∃ p, (p = pend ∨ p = ""%string) ∧ r = DecideRequest p v approver) ∨ r = PairDecide fp v ∨
    (r = late_grant pc approver ∧ v = "y"%string ∧ ran_out h pc g).

Definition justified (h : list act) (id ns device : string) (r : rpc) : Prop :=
  ∃ pc pend fp g v t,
    Made pc pend fp g ∈ h ∧ pc_ID pc = id ∧ pc_ns pc = ns ∧ pc_device pc = device ∧
    Took id ns (pc_phone pc) v t ∈ h ∧ t - pc_seenAt pc < phoneCardRetention ∧ warranted h pc pend fp g v r.

(** What a card is about, which never changes. *)
Definition core (pc : phoneCard) : phoneCard :=
  PhoneCard (set_state ApprovalPending None (pc_card pc)) (pc_ns pc) (pc_device pc) (pc_phone pc) "" "" (pc_seenAt pc) false 0 false None.

Definition card_ok (h : list act) (pc : phoneCard) : Prop :=
  ∃ pc0 pend fp g, Made pc0 pend fp g ∈ h ∧ core pc = core pc0 ∧
    (pc_pendingID pc = pend ∨ pc_pendingID pc = ""%string) ∧ (pc_pairFP pc = ""%string ∨ pc_pairFP pc = fp) ∧ (pc_generation pc = None ∨ pc_generation pc = g) ∧
    (pc_disappearedAt pc ≠ 0 → ∃ n, g = Some n ∧ Vanished (pc_ID pc) n (pc_disappearedAt pc) ∈ h).

Definition taken (h : list act) (pc : phoneCard) (v : string) : Prop :=
  ∃ t, Took (pc_ID pc) (pc_ns pc) (pc_phone pc) v t ∈ h ∧ t - pc_seenAt pc < phoneCardRetention.

Definition proc_ok (h : list act) (p : proc) : Prop :=
  match p with
  | Identifying id pend fp g => ∃ pc, Made pc pend fp g ∈ h ∧ pc_ID pc = id
  | Applying pc v _ | Missed pc v _ _ | Late pc v _ _ => card_ok h pc ∧ taken h pc v
  | Finishing _ _ => True
  end.

(** The card whose decision is still being carried out. *)
Definition active (p : proc) : option string :=
  match p with Applying pc _ _ | Missed pc _ _ _ | Late pc _ _ _ => Some (pc_ID pc) | _ => None end.

Definition card_at_ok (h : list act) (id : string) (pc : phoneCard) : Prop :=
  pc_ID pc = id ∧ card_ok h pc ∧ (id ∈ omap took_id h → pc_answered pc = true).

Record watch_ok (s : supervisor) : Prop := {
  wo_cards : ∀ id pc, cards s !! id = Some pc → card_at_ok (history s) id pc;
  wo_procs : ∀ p, p ∈ procs s → proc_ok (history s) p;
  wo_made : NoDup (omap made_id (history s));
  wo_took : NoDup (omap took_id (history s));
  wo_took_made : ∀ id, id ∈ omap took_id (history s) → id ∈ omap made_id (history s);
  wo_active : NoDup (omap active (procs s));
  wo_effects : NoDup (omap effective (history s));
  wo_effect_took : ∀ id, id ∈ omap effective (history s) → id ∈ omap took_id (history s);
  wo_quiet : ∀ id, id ∈ omap active (procs s) → id ∉ omap effective (history s);
  wo_asked : ∀ id ns device r reply, Asked id ns device r reply ∈ history s → justified (history s) id ns device r }.

Lemma card_ok_app h l pc : card_ok h pc → card_ok (h ++ l) pc.
Proof.
  intros (pc0 & pend & fp & g & M & C & P & F & G & D). exists pc0, pend, fp, g. split_and!; try done; [set_solver|].
  intros Z. destruct (D Z) as (n & -> & V). exists n. split; [done|set_solver].
Qed.

Lemma taken_app h l pc v : taken h pc v → taken (h ++ l) pc v.
Proof. intros (t & T & B). exists t. split; [set_solver|done]. Qed.

Lemma proc_ok_app h l p : proc_ok h p → proc_ok (h ++ l) p.
Proof.
  destruct p; simpl; try done.
  - intros (pc & M & E). exists pc. split; [set_solver|done].
  - intros [? ?]. split; [by apply card_ok_app|by apply taken_app].
  - intros [? ?]. split; [by apply card_ok_app|by apply taken_app].
  - intros [? ?]. split; [by apply card_ok_app|by apply taken_app].
Qed.

Lemma justified_app h l id ns device r : justified h id ns device r → justified (h ++ l) id ns device r.
Proof.
  intros (pc & pend & fp & g & v & t & M & E1 & E2 & E3 & T & B & a & W). exists pc, pend, fp, g, v, t. split_and!; try done; try set_solver.
  exists a. destruct W as [W|[W|(W & -> & n & u & -> & V & L)]]; [by left|by right; left|]. right. right. split_and!; try done. exists n, u. split_and!; try done. set_solver.
Qed.

Lemma made_unique h pc pc' pend pend' fp fp' g g' :
  NoDup (omap made_id h) → Made pc pend fp g ∈ h → Made pc' pend' fp' g' ∈ h → pc_ID pc = pc_ID pc' →
  pc = pc' ∧ pend = pend' ∧ fp = fp' ∧ g = g'.
Proof.
  intros N M M' E. induction h as [|a h IH]; [by apply elem_of_nil in M|]. 
  assert (∀ q w e f, Made q w e f ∈ h → pc_ID q ∈ omap made_id h) as Hin by (intros q w e f Hq; apply list_elem_of_omap; by exists (Made q w e f)).
  apply elem_of_cons in M as [M|M], M' as [M'|M']; simpl in N.
  - rewrite <- M in M'. by injection M' as -> -> -> ->.
  - rewrite <- M in N. simpl in N. apply NoDup_cons in N as [N _]. destruct N. rewrite E. eauto.
  - rewrite <- M' in N. simpl in N. apply NoDup_cons in N as [N _]. destruct N. rewrite <- E. eauto.
  - apply IH; [|done|done]. destruct (made_id a); [by apply NoDup_cons in N as [_ N]|done].
Qed.

(** Nothing but cards changes, and at most a disappearance is noted. *)
Definition sightings (l : list act) : Prop := ∀ a, a ∈ l → ∃ id g t, a = Vanished id g t.

Lemma sightings_omap {B} (f : act → option B) h l : (∀ id g t, f (Vanished id g t) = None) → sightings l → omap f (h ++ l) = omap f h.
Proof.
  intros F S. rewrite omap_app. assert (omap f l = []) as ->; [|by rewrite app_nil_r].
  induction l as [|a l IH]; [done|]. simpl. destruct (S a ltac:(left)) as (id & g & t & ->). rewrite F. apply IH. intros b Hb. apply S. by right.
Qed.

Lemma watch_ok_cards s s' l :
  watch_ok s → procs s' = procs s → history s' = history s ++ l → sightings l →
  (∀ id pc', cards s' !! id = Some pc' → ∃ pc, cards s !! id = Some pc ∧ pc_ID pc' = id ∧ card_ok (history s') pc' ∧ (pc_answered pc = true → pc_answered pc' = true)) →
  watch_ok s'.
Proof.
  intros [W1 W2 W3 W4 W5 W6 W7 W8 W9 W10] P H S C.
  assert (∀ B (f : act → option B), (∀ id g t, f (Vanished id g t) = None) → omap f (history s') = omap f (history s)) as O by (intros B f F; rewrite H; by apply sightings_omap).
  split; rewrite ?(O _ made_id), ?(O _ took_id), ?(O _ effective), ?P by done; try done.
  - intros id pc' E. destruct (C id pc' E) as (pc & E0 & I & K & A). destruct (W1 _ _ E0) as (_ & _ & T). unfold card_at_ok. rewrite (O _ took_id) by done. auto.
  - intros p Hp. rewrite H. apply proc_ok_app. auto.
  - intros id ns device r reply. rewrite H. intros [Ha|Ha]%elem_of_app; [apply justified_app; eauto|]. by destruct (S _ Ha) as (? & ? & ? & [=]).
Qed.

(** Changes of a card that leave its account alone. *)
Definition same_account (pc pc' : phoneCard) : Prop :=
  core pc' = core pc ∧ pc_pendingID pc' = pc_pendingID pc ∧ pc_pairFP pc' = pc_pairFP pc ∧ pc_generation pc' = pc_generation pc ∧
  pc_disappearedAt pc' = pc_disappearedAt pc ∧ (pc_answered pc = true → pc_answered pc' = true).

Lemma core_ID pc pc' : core pc = core pc' → pc_ID pc = pc_ID pc'.
Proof. unfold core, pc_ID. by intros [= ->]. Qed.

Lemma same_account_ok h pc pc' : same_account pc pc' → card_ok h pc → card_ok h pc'.
Proof.
  intros (E & E1 & E2 & E3 & E4 & _) (pc0 & pend & fp & g & M & C & P & F & G & D). exists pc0, pend, fp, g.
  rewrite E, E1, E2, E3, E4, (core_ID _ _ E). by split_and!.
Qed.

Lemma same_account_refl pc : same_account pc pc.
Proof. by split_and!. Qed.

Lemma watch_ok_account s s' :
  watch_ok s → procs s' = procs s → history s' = history s →
  (∀ id pc', cards s' !! id = Some pc' → ∃ pc, cards s !! id = Some pc ∧ same_account pc pc') → watch_ok s'.
Proof.
  intros W P H C. apply (watch_ok_cards s s' []); [done|done|by rewrite app_nil_r|by intros a Ha%elem_of_nil|].
  intros id pc' E. destruct (C _ _ E) as (pc & E0 & S). destruct (wo_cards _ W _ _ E0) as (I & K & _). exists pc. rewrite H.
  split_and!; [done| |by eapply same_account_ok|apply S]. rewrite <- I. apply core_ID, S.
Qed.

Lemma mark_ok ns device s : watch_ok s → watch_ok (markDisappearanceUnknown ns device s).
Proof.
  intros W. apply (watch_ok_account s); [done..|]. intros id pc'. simpl. rewrite lookup_fmap. destruct (cards s !! id) as [pc|] eqn:E; [|done]. intros [= <-].
  exists pc. split; [done|]. unfold unobserved. destruct (_ && _); [by split_and!|apply same_account_refl].
Qed.

Lemma same_cards_ok s s' : watch_ok s → procs s' = procs s → history s' = history s → cards s' = cards s → watch_ok s'.
Proof. intros W P H C. apply (watch_ok_account s); try done. intros id pc'. rewrite C. exists pc'. split; [done|apply same_account_refl]. Qed.

Lemma teardown_ok ns forget s : watch_ok s → watch_ok (teardown ns forget s).2.
Proof.
  intros W. unfold teardown. destruct (spaces s !! ns) as [sp|]; [|done]. simpl. apply (same_cards_ok (markDisappearanceUnknown ns "" s)); [by apply mark_ok|done..].
Qed.

Lemma bring_up_ok ns phone session s : watch_ok s → watch_ok (bring_up ns phone session s).
Proof. intros W. unfold bring_up. destruct (spaces s !! ns); [destruct (String.eqb _ _)|]; by apply (same_cards_ok s). Qed.

Lemma update_targets_ok ns online s : watch_ok s → watch_ok (update_targets ns online s).
Proof.
  intros W. unfold update_targets. destruct (spaces s !! ns) as [sp|]; [|done]. destruct (sp_online sp); [|done].
  set (s1 := fold_left _ _ _). apply (same_cards_ok s1); [|done..]. subst s1. generalize (elements (sp_targets sp ∖ online)). intros l.
  revert s W. induction l as [|d l IH]; intros s W; [done|]. simpl. apply IH. by apply mark_ok.
Qed.

Lemma prune_ok now s : watch_ok s → watch_ok (pruneCards now s).
Proof.
  intros W. apply (watch_ok_account s); [done..|]. intros id pc' [[E _]%map_lookup_filter_Some _]%map_lookup_filter_Some. exists pc'. split; [done|apply same_account_refl].
Qed.

Lemma space_seen_ok ns phone devices s : watch_ok s → watch_ok (space_seen ns phone devices s).2.
Proof. intros W. by apply (same_cards_ok s). Qed.

(** A request that was still seen on its connection: the time it went is noted. *)
Lemma vanished_ok h l pc g n now unknown :
  card_ok h pc → pc_generation pc = Some n → g = Some n → Vanished (pc_ID pc) n now ∈ l → card_ok (h ++ l) (with_vanished now unknown pc).
Proof.
  intros (pc0 & pend & fp & g0 & M & C & P & F & G & D) Gn -> V. exists pc0, pend, fp, g0. split_and!; try done; [set_solver|].
  intros _. exists n. split; [|set_solver]. destruct G as [G|G]; congruence.
Qed.

Lemma observed closed pc g : observationCurrent closed pc g = true → ∃ n, pc_generation pc = Some n ∧ g = Some n ∧ n ∉ closed.
Proof. unfold observationCurrent. destruct (pc_generation pc) as [n|]; [|done]. intros H. bsplit. eauto. Qed.

Lemma settle_ok id g now s : watch_ok s → watch_ok (settle id g now s).2.
Proof.
  intros W. unfold settle. destruct (cards s !! id) as [pc|] eqn:E; [|done]. destruct (_ || _); [done|].
  destruct (wo_cards _ W _ _ E) as (I & K & _). destruct (observationCurrent _ _ _) eqn:O; simpl.
  - destruct (observed _ _ _ O) as (n & Gn & -> & _). apply (watch_ok_cards s _ [Vanished id n now]); [done|done|done|intros a ->%list_elem_of_singleton; eauto|].
    intros j pc'. simpl. rewrite lookup_insert_Some. intros [[<- <-]|[Nj Ej]].
    + exists pc. split; [done|]. pose proof (vanished_ok _ [Vanished id n now] _ (Some n) n now (pc_disappearanceUnknown pc) K Gn eq_refl ltac:(rewrite I; left)) as K'.
      destruct (answeredElsewhere _); (split_and!; [done|exact K'|done]).
    + exists pc'. destruct (wo_cards _ W _ _ Ej) as (I' & K' & _). split_and!; [done|done|by apply card_ok_app|done].
  - destruct g; (apply (watch_ok_account s); [done..|]; intros j pc'; simpl; rewrite lookup_insert_Some; intros [[<- <-]|[Nj Ej]];
      [exists pc; by split_and!|exists pc'; split; [done|apply same_account_refl]]).
Qed.

(** A new card. *)
Lemma begin_card_ok id ns device c window now pend fp g s : watch_ok s → watch_ok (begin_card id ns device c window now pend fp g s).2.
Proof.
  intros W. unfold begin_card. destruct (decide _) as [|N]; [done|]. unfold newCard. destruct (spaces s !! ns) as [sp|]; [|done]. simpl.
  set (c' := ApprovalCard _ _ _ _ _ _ _ _ _ _ _ _). set (pc := PhoneCard _ _ _ _ _ _ _ _ _ _ _).
  destruct W as [W1 W2 W3 W4 W5 W6 W7 W8 W9 W10].
  assert (id ∉ omap took_id (history s)) as Nt by (intros H; by apply N, W5).
  assert (∀ B (f : act → option B), f (Made pc pend fp g) = None → omap f (history s ++ [Made pc pend fp g]) = omap f (history s)) as O by (intros B f F; rewrite omap_app; simpl; by rewrite F, app_nil_r).
  split; simpl; rewrite ?(O _ took_id), ?(O _ effective) by done; try done.
  - intros j pc'. rewrite lookup_insert_Some. intros [[<- <-]|[Nj Ej]]; unfold card_at_ok; rewrite (O _ took_id) by done.
    + split; [done|]. split; [|done]. exists pc, pend, fp, g. split_and!; auto; set_solver.
    + destruct (W1 _ _ Ej) as (I & K & A). split_and!; [done|by apply card_ok_app|done].
  - intros p [Hp|Hp]%elem_of_app; [apply proc_ok_app; auto|]. apply list_elem_of_singleton in Hp as ->. exists pc. split; [set_solver|done].
  - rewrite omap_app. simpl. apply NoDup_app. split; [done|]. split; [|apply NoDup_singleton]. intros x Hx Hx'%list_elem_of_singleton. by subst.
  - intros x Hx. rewrite omap_app. apply elem_of_app. left. auto.
  - rewrite omap_app. simpl. by rewrite app_nil_r.
  - intros x. rewrite omap_app. simpl. rewrite app_nil_r. apply W9.
  - intros i n d r rep [Ha|Ha]%elem_of_app; [apply justified_app; eauto|]. apply list_elem_of_singleton in Ha. done.
Qed.

Lemma active_taken h p id : proc_ok h p → active p = Some id → id ∈ omap took_id h.
Proof.
  assert (∀ pc v, taken h pc v → pc_ID pc ∈ omap took_id h) as T.
  { intros pc v (t & T & _). apply list_elem_of_omap. by exists (Took (pc_ID pc) (pc_ns pc) (pc_phone pc) v t). }
  destruct p; simpl; try done; intros [_ K] [= <-]; eauto.
Qed.

(** A decision is taken. *)
Lemma handleReply_ok ns phone id verdict now s : watch_ok s → watch_ok (handleReply ns phone id verdict now s).2.
Proof.
  intros W. unfold handleReply. destruct (negb _); [done|]. destruct (spaces s !! ns) as [sp|]; [|done]. destruct (cards s !! id) as [pc|] eqn:E; [|done].
  destruct (negb _) eqn:V; [done|]. destruct (pc_answered pc) eqn:A; [done|]. bsplit. repeat match goal with H : String.eqb _ _ = true |- _ => apply String.eqb_eq in H end. simpl.
  pose proof (wo_cards _ W _ _ E) as (I & K & T).
  destruct W as [W1 W2 W3 W4 W5 W6 W7 W8 W9 W10].
  assert (id ∉ omap took_id (history s)) as Nt by (intros Hx; specialize (T Hx); congruence).
  set (a := Took _ _ _ _ _). assert (∀ B (f : act → option B), f a = None → omap f (history s ++ [a]) = omap f (history s)) as O by (intros B f F; rewrite omap_app; simpl; by rewrite F, app_nil_r).
  assert (omap took_id (history s ++ [a]) = omap took_id (history s) ++ [id]) as Ot by (by rewrite omap_app).
  assert (id ∉ omap active (procs s)) as Na by (intros (p & Hp & Ep)%list_elem_of_omap; apply Nt; eauto using active_taken).
  split; simpl; rewrite ?(O _ made_id), ?(O _ effective), ?Ot by done; try done.
  - intros j pc'. unfold card_at_ok. rewrite Ot, lookup_insert_Some, elem_of_app, list_elem_of_singleton. intros [[<- <-]|[Nj Ej]].
    + split; [done|]. split; [|done]. apply card_ok_app. by apply (same_account_ok _ pc); [split_and!|].
    + destruct (W1 _ _ Ej) as (I' & K' & T'). split; [done|]. split; [by apply card_ok_app|]. intros [Hj|Hj]; [auto|congruence].
  - intros p [Hp|Hp]%elem_of_app; [apply proc_ok_app; auto|]. apply list_elem_of_singleton in Hp as ->. simpl. split; [apply card_ok_app; by apply (same_account_ok _ pc); [split_and!|]|].
    exists now. split; [|done]. apply elem_of_app. right. unfold a, pc_ID, with_answered. simpl. apply list_elem_of_singleton. unfold pc_ID in *. congruence.
  - apply NoDup_app. split; [done|]. split; [|apply NoDup_singleton]. intros x Hx ->%list_elem_of_singleton. done.
  - intros x [Hx|Hx]%elem_of_app; [auto|]. apply list_elem_of_singleton in Hx as ->. destruct K as (pc0 & pend & fp & g & M & C & _). apply list_elem_of_omap.
    exists (Made pc0 pend fp g). split; [done|]. simpl. by rewrite <- (core_ID _ _ C), I.
  - rewrite omap_app. simpl. unfold pc_ID in *. simpl. rewrite I. apply NoDup_app. split; [done|]. split; [|apply NoDup_singleton]. intros x Hx ->%list_elem_of_singleton. done.
  - intros x Hx. apply elem_of_app. left. auto.
  - intros x. rewrite omap_app. simpl. unfold pc_ID in *. simpl. rewrite I. intros [Hx|Hx]%elem_of_app; [auto|]. apply list_elem_of_singleton in Hx as ->. intros Hx. by apply Nt, W8.
  - intros i n d r rep [Ha|Ha]%elem_of_app; [apply justified_app; eauto|]. apply list_elem_of_singleton in Ha. done.
Qed.

(** A goroutine moves: it adds at most one entry to the record, which a request
    to a device may only be if its decision has had no effect yet. *)
Definition next_act (h : list act) (p : proc) (next : option proc) (l : list act) : Prop :=
  match l with
  | [] | [Vanished _ _ _] => True
  | [Asked id ns device r reply] =>
      active p = Some id ∧ justified h id ns device r ∧ (may_take_effect r reply = true → ∀ q, next = Some q → active q = None)
  | _ => False
  end.

Lemma next_act_same h p next l B (f : act → option B) :
  next_act h p next l → (∀ id g t, f (Vanished id g t) = None) → (∀ id ns d r rep, f (Asked id ns d r rep) = None) → omap f (h ++ l) = omap f h.
Proof.
  intros N V A. rewrite omap_app. destruct l as [|[] [|]]; simpl in *; try done; rewrite ?V, ?A; by rewrite app_nil_r.
Qed.

Lemma next_act_effective h p next l :
  next_act h p next l → omap effective (h ++ l) = omap effective h ∨ (∃ id, active p = Some id ∧ omap effective (h ++ l) = omap effective h ++ [id] ∧ ∀ q, next = Some q → active q = None).
Proof.
  intros N. rewrite omap_app. destruct l as [|[| |id ns d r rep|] [|]]; simpl in *; try done; rewrite ?app_nil_r; auto.
  destruct N as (A & _ & E). destruct (may_take_effect r rep); rewrite ?app_nil_r; [right; eauto|by left].
Qed.

Lemma watch_ok_move s s' l1 p l2 next l :
  watch_ok s → procs s = l1 ++ p :: l2 → procs s' = l1 ++ olist next ++ l2 → history s' = history s ++ l →
  (∀ q, next = Some q → proc_ok (history s') q ∧ (active q = None ∨ active q = active p)) → next_act (history s) p next l →
  (∀ id pc', cards s' !! id = Some pc' → ∃ pc, cards s !! id = Some pc ∧ pc_ID pc' = id ∧ card_ok (history s') pc' ∧ (pc_answered pc = true → pc_answered pc' = true)) →
  watch_ok s'.
Proof.
  intros [W1 W2 W3 W4 W5 W6 W7 W8 W9 W10] P P' H Q N C. rewrite P in *.
  assert (∀ q, next = Some q → active q = None ∨ active q = active p) as A by (intros q E; by apply Q).
  pose proof (next_act_same _ _ _ _ _ made_id N ltac:(done) ltac:(done)) as Om. pose proof (next_act_same _ _ _ _ _ took_id N ltac:(done) ltac:(done)) as Ot. rewrite <- H in Om, Ot.
  pose proof (next_act_effective _ _ _ _ N) as Oe. rewrite <- H in Oe.
  assert (∀ x, x ∈ omap active (procs s') → x ∈ omap active (l1 ++ p :: l2)) as Ai by (intros x; rewrite P'; by apply omap_next).
  assert (∀ id, active p = Some id → id ∈ omap active (l1 ++ p :: l2)) as Ap by (intros id E; rewrite omap_app; simpl; rewrite E; set_solver).
  assert (∀ id, active p = Some id → id ∈ omap took_id (history s)) as At by (intros id E; apply (active_taken _ p); [apply W2; set_solver|done]).
  split; rewrite ?Om, ?Ot; try done.
  - intros id pc' E. destruct (C _ _ E) as (pc & E0 & I & K & Aa). destruct (W1 _ _ E0) as (_ & _ & T). unfold card_at_ok. rewrite Ot. auto.
  - intros q. rewrite P', !elem_of_app. intros Hq.
    assert (q ∈ l1 ++ p :: l2 ∨ next = Some q) as [Hq'|Hq'] by (destruct next; simpl in Hq; set_solver); [rewrite H; apply proc_ok_app; auto|by apply Q].
  - rewrite P'. by apply (omap_next_NoDup _ _ p).
  - destruct Oe as [->|(id & E & -> & _)]; [done|]. apply NoDup_app. split; [done|]. split; [|apply NoDup_singleton]. intros x Hx ->%list_elem_of_singleton. apply (W9 id); auto.
  - intros x. destruct Oe as [->|(id & E & -> & _)]; [auto|]. intros [Hx|Hx]%elem_of_app; [auto|]. apply list_elem_of_singleton in Hx as ->. auto.
  - intros x Hx. destruct Oe as [->|(id & E & -> & F)]; [auto|]. intros [Hx'|Hx']%elem_of_app; [by apply (W9 x); auto|]. apply list_elem_of_singleton in Hx' as ->.
    rewrite P' in Hx. by apply (omap_next_free active l1 p l2 next id W6 E F) in Hx.
  - intros i n d r rep. rewrite H. intros [Ha|Ha]%elem_of_app; [apply justified_app; eauto|]. apply justified_app.
    destruct l as [|a [|]]; [by apply elem_of_nil in Ha| |by destruct a]. apply list_elem_of_singleton in Ha as <-. apply N.
Qed.

Lemma card_ok_same_cards s l j pc' : watch_ok s → cards s !! j = Some pc' →
  ∃ pc, cards s !! j = Some pc ∧ pc_ID pc' = j ∧ card_ok (history s ++ l) pc' ∧ (pc_answered pc = true → pc_answered pc' = true).
Proof. intros W E. exists pc'. destruct (wo_cards _ W _ _ E) as (I & K & _). split_and!; [done|done|by apply card_ok_app|done]. Qed.

(** The account a decision's request rests on. *)
Lemma first_justified x pc v a s l p' id ns d r rep :
  watch_ok s → card_ok (history s) pc → taken (history s) pc v → apply_first x pc v a = (l, p') → Asked id ns d r rep ∈ l → justified (history s) id ns d r.
Proof.
  intros W (pc0 & pend & fp & g & M & C & P & F & G & D) (t & T & B) E Ha.
  assert (pc_ID pc = pc_ID pc0 ∧ pc_ns pc = pc_ns pc0 ∧ pc_device pc = pc_device pc0 ∧ pc_phone pc = pc_phone pc0 ∧ pc_seenAt pc = pc_seenAt pc0) as (Ei & En & Ed & Ep & Es).
  { split; [by apply core_ID|]. unfold core in C. by injection C. }
  assert (∀ r, warranted (history s) pc0 pend fp g v r → justified (history s) (pc_ID pc) (pc_ns pc) (pc_device pc) r) as J.
  { intros r' Wr. exists pc0, pend, fp, g, v, t. rewrite <- Ep, <- Es. split_and!; try done; congruence. }
  unfold apply_first in E. destruct (x_session x) as [g'|]; [|injection E as <- <-; by apply elem_of_nil in Ha].
  destruct (String.eqb_spec (pc_pairFP pc) "") as [Z|Z]; simpl in E.
  - destruct (bool_decide _); injection E as <- <-; [|by apply elem_of_nil in Ha]. apply list_elem_of_singleton in Ha as [= -> -> -> -> ->].
    apply J. exists a. left. by exists (pc_pendingID pc).
  - destruct (negb _); injection E as <- <-; [by apply elem_of_nil in Ha|]. apply list_elem_of_singleton in Ha as [= -> -> -> -> ->].
    apply J. exists a. right. left. destruct F as [F|F]; congruence.
Qed.

Lemma late_justified x pc v a g0 s l r0 id ns d r rep :
  watch_ok s → card_ok (history s) pc → taken (history s) pc v → apply_late (closed s) x pc v a g0 = (l, r0) → Asked id ns d r rep ∈ l → justified (history s) id ns d r.
Proof.
  intros W (pc0 & pend & fp & g & M & C & P & F & G & D) (t & T & B) E Ha.
  assert (pc_ID pc = pc_ID pc0 ∧ pc_ns pc = pc_ns pc0 ∧ pc_device pc = pc_device pc0 ∧ pc_phone pc = pc_phone pc0 ∧ pc_seenAt pc = pc_seenAt pc0) as (Ei & En & Ed & Ep & Es).
  { split; [by apply core_ID|]. unfold core in C. by injection C. }
  unfold apply_late in E. destruct (String.eqb_spec v "y") as [->|]; simpl in E; [|injection E as <- <-; by apply elem_of_nil in Ha].
  destruct (answeredElsewhere pc) eqn:L; simpl in E; [injection E as <- <-; by apply elem_of_nil in Ha|]. destruct (_ && _); [injection E as <- <-; by apply elem_of_nil in Ha|].
  injection E as <- <-. apply list_elem_of_singleton in Ha as [= -> -> -> -> ->].
  exists pc0, pend, fp, g, "y"%string, t. rewrite <- Ep, <- Es. split_and!; try done; try congruence. exists a. right. right.
  split; [change (late_grant (core pc) a = late_grant (core pc0) a); by rewrite C|]. split; [done|].
  unfold answeredElsewhere, is_zero in L. bsplit. destruct (D ltac:(lia)) as (n & Hn & V). exists n, (pc_disappearedAt pc). split; [done|]. split; [congruence|].
  assert (c_Expires (pc_card pc) = c_Expires (pc_card pc0)) as <- by (unfold core in C; by injection C). lia.
Qed.

Lemma identify_card_ok h pc pc' pend fp g :
  NoDup (omap made_id h) → Made pc' pend fp g ∈ h → pc_ID pc' = pc_ID pc → card_ok h pc → card_ok h (with_target pend fp g pc).
Proof.
  intros N M' I (pc0 & pend0 & fp0 & g0 & M & C & P & F & G & D).
  destruct (made_unique _ _ _ _ _ _ _ _ _ N M M') as (-> & -> & -> & ->); [by rewrite I, (core_ID _ _ C)|].
  exists pc', pend, fp, g. split_and!; auto.
Qed.

Lemma apply_first_shape x pc v a l q : apply_first x pc v a = (l, q) →
  ((∃ r, q = Finishing (pc_ID pc) r) ∨ (∃ g, q = Missed pc v a g) ∨ (∃ g, q = Late pc v a g)) ∧
  (l = [] ∨ ∃ r, l = [Asked (pc_ID pc) (pc_ns pc) (pc_device pc) r (x_reply x)] ∧ (may_take_effect r (x_reply x) = true → active q = None)).
Proof.
  unfold apply_first. destruct (x_session x) as [g|]; [|intros [= <- <-]; split; [left; eauto|by left]].
  destruct (negb _).
  - destruct (negb _); intros [= <- <-]; (split; [left; eauto|]); [by left|]. right. eauto.
  - destruct (bool_decide _); [|intros [= <- <-]; split; [right; right; eauto|by left]].
    intros [= <- <-]. split; [destruct (decideFound _) as [[]|]; eauto|]. right. eexists. split; [done|]. simpl. by destruct (decideFound _) as [[]|].
Qed.

Lemma apply_late_shape cl x pc v a g l r : apply_late cl x pc v a g = (l, r) → l = [] ∨ l = [Asked (pc_ID pc) (pc_ns pc) (pc_device pc) (late_grant pc a) (x_reply x)].
Proof. unfold apply_late. destruct (negb _); [intros [= <- _]; by left|]. destruct (_ || _); intros [= <- _]; auto. Qed.

Lemma share_vanished h pc cur u :
  NoDup (omap made_id h) → card_ok h pc → card_ok h cur → pc_ID cur = pc_ID pc → card_ok h (with_vanished (pc_disappearedAt cur) u pc).
Proof.
  intros N (pc0 & pend & fp & g & M & C & P & F & G & _) (pc1 & pend1 & fp1 & g1 & M1 & C1 & _ & _ & _ & D1) I.
  destruct (made_unique _ _ _ _ _ _ _ _ _ N M M1) as (<- & <- & <- & <-); [by rewrite <- (core_ID _ _ C), <- (core_ID _ _ C1)|].
  exists pc0, pend, fp, g. split_and!; try done. simpl. intros Z. destruct (D1 Z) as (n & -> & V). exists n. split; [done|]. unfold pc_ID in *. simpl. by rewrite <- I.
Qed.

(** [apply]'s second look at a card. *)
Lemma apply_missed_ok now pc g s pc1 s1 : watch_ok s → card_ok (history s) pc → apply_missed now pc g s = (pc1, s1) →
  ∃ l, history s1 = history s ++ l ∧ procs s1 = procs s ∧ (l = [] ∨ ∃ n, l = [Vanished (pc_ID pc) n now]) ∧ card_ok (history s1) pc1 ∧
    (∃ t u, pc1 = with_vanished t u pc) ∧
    (∀ j pc', cards s1 !! j = Some pc' → ∃ pc0, cards s !! j = Some pc0 ∧ pc_ID pc' = j ∧ card_ok (history s1) pc' ∧ (pc_answered pc0 = true → pc_answered pc' = true)).
Proof.
  intros W K F. unfold apply_missed in F. destruct (cards s !! pc_ID pc) as [cur|] eqn:E.
  - destruct (wo_cards _ W _ _ E) as (I & K' & _). set (u := _ || _) in F.
    assert (∃ l, (l = [] ∨ ∃ n, l = [Vanished (pc_ID pc) n now]) ∧ history s1 = history s ++ l ∧ procs s1 = procs s ∧
      ∃ t, pc1 = with_vanished t u pc ∧ cards s1 = <[pc_ID pc := with_vanished t u cur]> (cards s) ∧ card_ok (history s ++ l) (with_vanished t u cur)) as (l & L & H & P & t & -> & C & Kc).
    { destruct (negb u && is_zero (pc_disappearedAt cur)) eqn:Fr; [destruct g as [n|]|].
      - injection F as <- <-. exists [Vanished (pc_ID pc) n now]. split; [eauto|]. do 2 (split; [done|]). exists now. do 2 (split; [done|]).
        subst u. bsplit. match goal with O : observationCurrent _ _ _ = true |- _ => destruct (observed _ _ _ O) as (m & Gm & [= <-] & _) end.
        eapply vanished_ok; [done|exact Gm|done|]. rewrite I. by left.
      - exfalso. subst u. bsplit. match goal with O : observationCurrent _ _ _ = true |- _ => by destruct (observed _ _ _ O) as (m & _ & [=] & _) end.
      - exists []. split; [by left|]. rewrite app_nil_r. destruct g; injection F as <- <-; (do 2 (split; [done|]); eexists; do 2 (split; [done|])); by apply (same_account_ok _ cur); [split_and!|]. }
    exists l. split; [done|]. split; [done|]. split; [done|]. split; [|split; [eauto|]].
    + rewrite H. apply (share_vanished (history s ++ l) pc (with_vanished t u cur) u); [|by apply card_ok_app|done|done].
      destruct L as [->|(n & ->)]; [rewrite app_nil_r; apply W|]. rewrite omap_app. simpl. rewrite app_nil_r. apply W.
    + intros j pc'. rewrite C, H, lookup_insert_Some. intros [[<- <-]|[Nj Ej]]; [exists cur; by split_and!|by apply card_ok_same_cards].
  - injection F as <- <-. exists []. rewrite app_nil_r. split_and!; try done; [by left|exists (pc_disappearedAt pc), (pc_disappearanceUnknown pc); by destruct pc|].
    intros j pc' Ej. rewrite <- (app_nil_r (history s)). by apply card_ok_same_cards.
Qed.

(** One move. *)
Lemma advance_ok s l1 p l2 x next s' :
  watch_ok s → procs s = l1 ++ p :: l2 → advance x p s = (next, s') → watch_ok (set_procs (l1 ++ olist next ++ l2) s').
Proof.
  intros W P A. pose proof (wo_procs _ W p ltac:(rewrite P; set_solver)) as K.
  destruct p as [id pend fp g|pc v a|pc v a g|pc v a g|id r]; simpl in A.
  - injection A as <- <-. destruct K as (pc0 & M & I). apply (watch_ok_move s _ l1 _ l2 None [] W P); simpl; rewrite ?app_nil_r; try done.
    intros j pc'. unfold identify. simpl. rewrite lookup_alter_Some. intros [(-> & pc & E & ->)|[Nj Ej]].
    + exists pc. destruct (wo_cards _ W _ _ E) as (I' & K' & _). split_and!; [done|done| |done]. eapply identify_card_ok; eauto using wo_made. congruence.
    + exists pc'. destruct (wo_cards _ W _ _ Ej) as (I' & K' & _). by split_and!.
  - destruct (apply_first x pc v a) as [l q] eqn:F. injection A as <- <-. destruct K as [K T]. destruct (apply_first_shape _ _ _ _ _ _ F) as [Q L].
    apply (watch_ok_move s _ l1 _ l2 (Some q) l W P); simpl; [done|done| | |intros j pc'; by apply card_ok_same_cards].
    + intros ? [= <-]. destruct Q as [(r & ->)|[(g & ->)|(g & ->)]]; simpl; (split; [|auto]); try done; (split; [by apply card_ok_app|by apply taken_app]).
    + destruct L as [->|(r & -> & E)]; simpl; [done|]. split; [done|]. split; [|intros He ? [= <-]; auto].
      eapply (first_justified x pc v a); eauto. by left.
  - destruct (apply_missed (x_now x) pc g s) as [pc1 s1] eqn:F. injection A as <- <-. destruct K as [K T].
    destruct (apply_missed_ok _ _ _ _ _ _ W K F) as (l & H & Ps & L & K1 & (t & u & ->) & C).
    eapply (watch_ok_move s _ l1 _ l2 (Some _) l W P); simpl; [done|done| | |exact C].
    + intros ? [= <-]. destruct (answeredElsewhere _); simpl; (split; [|auto]); try done. split; [done|]. rewrite H. by apply taken_app.
    + by destruct L as [->|(n & ->)].
  - destruct (apply_late (closed s) x pc v a g) as [l r] eqn:F. injection A as <- <-. destruct K as [K T].
    apply (watch_ok_move s _ l1 _ l2 (Some (Finishing (pc_ID pc) r)) l W P); simpl; [done|done| | |intros j pc'; by apply card_ok_same_cards].
    + intros ? [= <-]. split; [done|by left].
    + destruct (apply_late_shape _ _ _ _ _ _ _ _ F) as [->|L]; [done|]. pose proof (λ id ns d q rep, late_justified x pc v a g s l r id ns d q rep W K T F) as J.
      rewrite L in *. simpl. split; [done|]. split; [eapply J; left|]. by intros _ ? [= <-].
  - injection A as <- <-. apply (watch_ok_move s _ l1 _ l2 None [] W P); simpl; rewrite ?app_nil_r; try done.
    intros j pc'. rewrite lookup_alter_Some. intros [(-> & pc & E & ->)|[Nj Ej]].
    + exists pc. destruct (wo_cards _ W _ _ E) as (I' & K' & _). split_and!; [done|done| |done]. by apply (same_account_ok _ pc); [split_and!|].
    + exists pc'. destruct (wo_cards _ W _ _ Ej) as (I' & K' & _). by split_and!.
Qed.

Lemma run_proc_ok n x s : watch_ok s → watch_ok (run_proc n x s).
Proof.
  intros W. unfold run_proc. destruct (procs s !! n) as [p|] eqn:E; [|done]. destruct (advance x p s) as [next s'] eqn:A.
  destruct (list_elem_of_split_length _ _ _ E) as (l1 & l2 & P & ->). pose proof (advance_ok _ _ _ _ _ _ _ W P A) as K.
  by rewrite P, replace_nth.
Qed.

Lemma happen_ok e s : watch_ok s → watch_ok (happen e s).
Proof.
  intros W. destruct e; [by apply begin_card_ok|by apply run_proc_ok|by apply settle_ok|by apply mark_ok|by apply handleReply_ok|by apply teardown_ok|
    by apply space_seen_ok|by apply bring_up_ok|by apply update_targets_ok|by apply prune_ok|by apply (same_cards_ok s)].
Qed.

Lemma supervised_ok s : supervised s → watch_ok s.
Proof.
  revert s. apply invariant_reachable.
  - intros s ->. split; simpl; try done; try constructor; try (intros; set_solver).
  - intros s s' W (e & ->). by apply happen_ok.
Qed.

(** ** The watches and the reconciler are runs *)

Abbreviation runs := (rtc sstep).

Lemma run_one e s : runs s (happen e s).
Proof. apply rtc_once. by exists e. Qed.

Lemma runs_fold {A} (f : supervisor → A → supervisor) l s : (∀ s x, runs s (f s x)) → runs s (fold_left f l s).
Proof. intros F. revert s. induction l as [|x l IH]; intros s; simpl; [apply rtc_refl|]. etrans; [apply F|apply IH]. Qed.

Lemma runs_fold_pair {A B} (f : B * supervisor → A → B * supervisor) l b s : (∀ b s x, runs s (f (b, s) x).2) → runs s (fold_left f l (b, s)).2.
Proof.
  intros F. revert b s. induction l as [|x l IH]; intros b s; simpl; [apply rtc_refl|]. pose proof (F b s x) as R. destruct (f (b, s) x) as [b' s']. etrans; [exact R|apply IH].
Qed.

Lemma settle_all_runs ids g now s : runs s (settle_all ids g now s).
Proof. apply runs_fold. intros s' id. apply (run_one (Settle id g now)). Qed.

Lemma show_request_runs w ns device c window now key pend fp g s : runs s (show_request w ns device c window now key pend fp g s).2.
Proof.
  unfold show_request. destruct (random w key) as [id|]; [|apply rtc_refl].
  pose proof (run_one (Card id ns device c window now pend fp g) s) as R. unfold happen in R. destruct (begin_card _ _ _ _ _ _ _ _ _ s) as [[pc|] s']; [|exact R].
  etrans; [exact R|]. apply (run_one (Move (length (procs s)) no_exchange)).
Qed.

Lemma push_pending_runs w ns device g names wait now t s v : runs s (push_pending w ns device g names wait now (t, s) v).2.
Proof.
  unfold push_pending. destruct (_ !! v_ID v); [apply rtc_refl|].
  match goal with |- context [show_request ?a ?b ?c ?d ?e ?f ?g ?h ?i ?j ?k] => pose proof (show_request_runs a b c d e f g h i j k) as R; destruct (show_request a b c d e f g h i j k) as [[[id ok]|] s'] end; exact R.
Qed.

Lemma push_pairing_runs w ns device g now t s v : runs s (push_pairing w ns device g now (t, s) v).2.
Proof.
  unfold push_pairing. destruct (_ !! pv_FP v); [apply rtc_refl|].
  match goal with |- context [show_request ?a ?b ?c ?d ?e ?f ?g ?h ?i ?j ?k] => pose proof (show_request_runs a b c d e f g h i j k) as R; destruct (show_request a b c d e f g h i j k) as [[[id ok]|] s'] end; exact R.
Qed.

Lemma onTargetState_runs w ns device g state wait now sp sf s : runs s (onTargetState w ns device g state wait now sp sf s).2.
Proof.
  unfold onTargetState.
  pose proof (runs_fold_pair _ (cs_Pending state) (WatchTurn sp sf [] false) s (λ b s x, push_pending_runs w ns device g (cs_Trusted state) wait now b s x)) as R1.
  destruct (fold_left (push_pending _ _ _ _ _ _ _) _ _) as [t1 s1]. etrans; [exact R1|]. cbn zeta.
  match goal with |- context [fold_left _ _ (?t2, settle_all ?l ?g ?now ?s)] =>
    etrans; [exact (settle_all_runs l g now s)|];
    pose proof (runs_fold_pair _ (cs_PendingPairings state) t2 (settle_all l g now s) (λ b s x, push_pairing_runs w ns device g now b s x)) as R2 end.
  destruct (fold_left (push_pairing _ _ _ _ _) _ _) as [t3 s3]. etrans; [exact R2|apply settle_all_runs].
Qed.

Lemma reconcileSpace_runs rows link s np : runs s (reconcileSpace rows link s np).
Proof.
  unfold reconcileSpace. destruct np as [ns phone]. destruct (rows ns) as [all|]; [|apply rtc_refl].
  pose proof (run_one (SpaceSeen ns phone (ownedDevices ns all)) s) as R. unfold happen in R. destruct (space_seen _ _ _ s) as [was s1]. change (runs s s1) in R.
  destruct (negb _); [destruct was; [|exact R]; etrans; [exact R|apply (run_one (TearDown ns false))]|].
  destruct was; [etrans; [exact R|apply (run_one (Targets ns _))]|]. destruct (link ns) as [session|]; [|exact R].
  etrans; [exact R|]. etrans; [apply (run_one (BringUp ns phone session))|apply (run_one (Targets ns _))].
Qed.

Lemma reconcile_runs phones rows link now s : runs s (reconcile phones rows link now s).
Proof.
  unfold reconcile. destruct phones as [l|]; [|apply rtc_refl].
  etrans; [|apply (run_one (Prune now))]. etrans; [|apply runs_fold; apply reconcileSpace_runs]. apply runs_fold. intros s' ns. apply (run_one (TearDown ns true)).
Qed.

(** ** Without a phone nothing is watched *)

(** While a namespace's phone is not linked, no device is watched on its behalf,
    and no card has anywhere to go. *)
Definition idle_offline (s : supervisor) : Prop :=
  ∀ ns sp, spaces s !! ns = Some sp → sp_online sp = false → sp_targets sp = ∅ ∧ sp_session sp = None ∧ sp_link sp = None.

Lemma run_proc_spaces n x s : spaces (run_proc n x s) = spaces s.
Proof.
  unfold run_proc. destruct (procs s !! n) as [p|]; [|done]. destruct (advance x p s) as [next s'] eqn:A. simpl.
  destruct p as [id pend fp g|pc v a|pc v a g|pc v a g|id r]; simpl in A.
  - by injection A as <- <-.
  - destruct (apply_first _ _ _ _). by injection A as <- <-.
  - unfold apply_missed in A. destruct (cards s !! pc_ID pc); [|by injection A as <- <-].
    destruct g; simpl in A; [destruct (_ && _)|]; by injection A as <- <-.
  - destruct (apply_late _ _ _ _ _ _). by injection A as <- <-.
  - by injection A as <- <-.
Qed.

Lemma mark_all_spaces l ns s : spaces (fold_left (λ s device, markDisappearanceUnknown ns device s) l s) = spaces s.
Proof. revert s. induction l as [|d l IH]; intros s; [done|]. simpl. by rewrite IH. Qed.

Lemma idle_happen e s : idle_offline s → idle_offline (happen e s).
Proof.
  intros I. unfold idle_offline. destruct e; simpl.
  - unfold begin_card, newCard. destruct (decide _); [done|]. by destruct (spaces s !! ns).
  - rewrite run_proc_spaces. done.
  - unfold settle. destruct (cards s !! id); [|done]. destruct (_ || _); [done|]. simpl. destruct g; [|done]. by destruct (observationCurrent _ _ _).
  - done.
  - unfold handleReply. destruct (negb _); [done|]. destruct (spaces s !! ns) eqn:?, (cards s !! id); try done. destruct (negb _); [done|]. by destruct (pc_answered _).
  - unfold teardown. destruct (spaces s !! ns) as [sp|] eqn:E; [|done]. simpl. intros n sp'. destruct forget.
    + rewrite lookup_delete_Some. intros [_ E']. eauto.
    + rewrite lookup_insert_Some. intros [[<- <-]|[_ E']]; [done|eauto].
  - intros n sp'. rewrite lookup_insert_Some. intros [[<- <-]|[_ E']]; [|eauto]. destruct (spaces s !! ns) as [sp|] eqn:E; [|by destruct (any _ _)].
    specialize (I ns sp E). destruct (any _ _); done.
  - unfold bring_up. destruct (spaces s !! ns) as [sp|] eqn:E; [|done]. destruct (String.eqb _ _); [|done]. simpl. intros n sp'.
    rewrite lookup_insert_Some. intros [[<- <-]|[_ E']]; [done|eauto].
  - unfold update_targets. destruct (spaces s !! ns) as [sp|] eqn:E; [|done]. destruct (sp_online sp) eqn:O; [|done]. simpl. intros n sp'.
    rewrite mark_all_spaces, lookup_insert_Some. intros [[<- <-]|[_ E']]; [simpl; congruence|eauto].
  - done.
  - done.
Qed.

Lemma unlinked_phone_watches_nothing s : supervised s → idle_offline s.
Proof. revert s. apply invariant_reachable; [by intros s -> ns sp|]. intros s s' I (e & ->). by apply idle_happen. Qed.

(** ** Cards do not pile up *)

Lemma cards_of_spec ns m kv : kv ∈ cards_of ns m ↔ m !! kv.1 = Some kv.2 ∧ pc_ns kv.2 = ns.
Proof. unfold cards_of. rewrite elem_of_filter_b, String.eqb_eq. destruct kv. by rewrite elem_of_map_to_list. Qed.

Lemma cards_of_NoDup ns m : NoDup (cards_of ns m).
Proof. apply NoDup_ListNoDup, List.NoDup_filter, NoDup_ListNoDup, NoDup_map_to_list. Qed.

(** After a prune a namespace has at most [phoneMaxCards] cards, all less than
    [phoneCardRetention] old. *)
Lemma prune_bounds now s ns :
  (length (cards_of ns (cards (pruneCards now s))) ≤ phoneMaxCards)%nat ∧
  ∀ id pc, cards (pruneCards now s) !! id = Some pc → now - pc_seenAt pc < phoneCardRetention.
Proof.
  split; [|by intros id pc [[_ H]%map_lookup_filter_Some _]%map_lookup_filter_Some].
  unfold pruneCards. simpl. set (kept := filter _ (cards s)).
  assert (cards_of ns (filter (λ kv : string * phoneCard, kv.1 ∉ (surplus (pc_ns kv.2) kept).*1) kept) ⊆+
          drop (length (merge_sort older (cards_of ns kept)) - phoneMaxCards) (merge_sort older (cards_of ns kept))) as L.
  { apply NoDup_submseteq; [apply cards_of_NoDup|]. intros [id pc] [[E N]%map_lookup_filter_Some Ens]%cards_of_spec. simpl in *. subst ns.
    assert ((id, pc) ∈ merge_sort older (cards_of (pc_ns pc) kept)) as M by (rewrite merge_sort_Permutation; by apply cards_of_spec).
    rewrite <- (take_drop (length (merge_sort older (cards_of (pc_ns pc) kept)) - phoneMaxCards) (merge_sort older _)) in M.
    apply elem_of_app in M as [M|M]; [|done]. destruct N. apply list_elem_of_fmap. by exists (id, pc). }
  apply submseteq_length in L. rewrite length_drop in L. unfold phoneMaxCards in *. lia.
Qed.

(** ** The resident watch *)

Module Resident.

Definition larkRetryMin : Z := second.
Definition larkRetryMax : Z := 30 * second.

Definition nextBackoff (current maximum : Z) : Z := if Z.quot maximum 2 <=? current then maximum else current * 2.

(** One turn of the loop as the rest of the world decides it: the dial, whether
    [onDial] ends the watch, the answer to the wait it asks for, the states that
    come, and whether the session closed or the context was cancelled; [t_again]
    is [waitRetry]. *)
Record turn (S : Type) := Turn { t_session : option rpc_result; t_stop : bool; t_states : list S; t_closed : bool; t_again : bool }.
Arguments Turn {S} t_session t_stop t_states t_closed t_again.
Arguments t_session {S} _.
Arguments t_stop {S} _.
Arguments t_states {S} _.
Arguments t_closed {S} _.
Arguments t_again {S} _.

Inductive effect (S : Type) := SetApprovalTimeout (sec : Z) | OnState (s : S) (wait : Z) | OnDisconnect | WaitRetry (d : Z).
Arguments SetApprovalTimeout {S} sec.
Arguments OnState {S} s wait.
Arguments OnDisconnect {S}.
Arguments WaitRetry {S} d.

(** How long the device waits, as far as the watch knows. *)
Definition applied_wait (wait : Z) (r : rpc_result) : Z :=
  match setApprovalTimeout r with Err _ => DefaultTimeout | Ok applied => if 0 <? applied then applied * second else wait end.

Section run.
Context {S : Type} (wait retryMin retryMax : Z).

(** The deferred restore of the device's own wait. *)
Definition restore (last : bool) : list (effect S) := if last then [SetApprovalTimeout 0] else [].

(** [residentWatch.run]: what it does, and whether it has returned when the turns
    end. *)
Fixpoint run (turns : list (turn S)) (backoff : Z) (last : bool) : list (effect S) * bool :=
  match turns with
  | [] => ([], false)
  | t :: turns =>
      match t_session t with
      | None =>
          if t_stop t then (restore last, true)
          else if negb (t_again t) then (WaitRetry backoff :: restore last, true)
          else let '(l, b) := run turns (nextBackoff backoff retryMax) last in (WaitRetry backoff :: l, b)
      | Some reply =>
          if t_stop t then (restore last, true)
          else
            let seen := SetApprovalTimeout (Z.quot wait second) :: ((λ s, OnState s (applied_wait wait reply)) <$> t_states t) in
            if negb (t_closed t) then (seen ++ restore true, true)
            else if negb (t_again t) then (seen ++ OnDisconnect :: WaitRetry retryMin :: restore true, true)
            else let '(l, b) := run turns (nextBackoff retryMin retryMax) true in (seen ++ OnDisconnect :: WaitRetry retryMin :: l, b)
      end
  end.

Definition asks (e : effect S) : bool := match e with SetApprovalTimeout _ => true | _ => false end.
Definition waits_within (lo hi : Z) (e : effect S) : Prop := match e with WaitRetry d => lo ≤ d ≤ hi | _ => True end.

Lemma nextBackoff_within b : 0 < retryMin ≤ retryMax → retryMin ≤ b ≤ retryMax → retryMin ≤ nextBackoff b retryMax ≤ retryMax.
Proof. unfold nextBackoff. intros R B. pose proof (Z.quot_div_nonneg retryMax 2 ltac:(lia) ltac:(lia)). destruct (Z.leb_spec (Z.quot retryMax 2) b); [lia|]. pose proof (Z.mul_div_le retryMax 2 ltac:(lia)). lia. Qed.

(** The watch waits no longer than [retryMax] before it dials again. *)
Lemma run_backoff turns b last : 0 < retryMin ≤ retryMax → retryMin ≤ b ≤ retryMax → Forall (waits_within retryMin retryMax) (run turns b last).1.
Proof.
  intros R. revert b last. induction turns as [|t turns IH]; intros b last B; simpl; [constructor|].
  assert (∀ l, Forall (waits_within retryMin retryMax) (restore l)) as Fr by (intros []; repeat constructor).
  pose proof (nextBackoff_within b R B) as N. pose proof (nextBackoff_within retryMin R ltac:(lia)) as Nm.
  destruct (t_session t) as [reply|], (t_stop t); simpl; try done.
  - assert (∀ w, Forall (waits_within retryMin retryMax) ((λ s, OnState s w) <$> t_states t)) as Fs by (intros w; apply Forall_fmap, Forall_forall; done).
    specialize (IH (nextBackoff retryMin retryMax) true Nm). destruct (t_closed t), (t_again t), (run turns _ true) as [l b']; simpl in *;
      constructor; try done; apply Forall_app; (split; [done|]); repeat constructor; simpl; try lia; done.
  - specialize (IH (nextBackoff b retryMax) last N). destruct (t_again t), (run turns _ last) as [l b']; simpl in *; constructor; simpl; try lia; done.
Qed.

(** A watch that returns leaves a device it reached with its own wait: that is
    the last thing it asks of it. *)
Lemma run_restores turns b last l : run turns b last = (l, true) → (∃ e, e ∈ l ∧ asks e = true) ∨ last = true → ∃ l', l = l' ++ [SetApprovalTimeout 0].
Proof.
  revert b last l. induction turns as [|t turns IH]; intros b last l; simpl; [done|].
  destruct (t_session t) as [reply|], (t_stop t); simpl.
  - intros [= <-] H. destruct last; [by exists []|]. destruct H as [(e & He & _)|]; [by apply elem_of_nil in He|done].
  - destruct (t_closed t); simpl; [destruct (t_again t); simpl|].
    + destruct (run turns _ true) as [l1 b1] eqn:E. intros [= <- ->] _. destruct (IH _ _ _ E ltac:(by right)) as (l' & ->).
      eexists (SetApprovalTimeout _ :: _ ++ OnDisconnect :: WaitRetry retryMin :: l'). simpl. by rewrite <- app_assoc.
    + intros [= <-] _. eexists (SetApprovalTimeout _ :: _ ++ [OnDisconnect; WaitRetry retryMin]). simpl. by rewrite <- app_assoc.
    + intros [= <-] _. by eexists (SetApprovalTimeout _ :: _).
  - intros [= <-] H. destruct last; [by exists []|]. destruct H as [(e & He & _)|]; [by apply elem_of_nil in He|done].
  - destruct (t_again t); simpl.
    + destruct (run turns _ last) as [l1 b1] eqn:E. intros [= <- ->] H. destruct (IH _ _ _ E) as (l' & ->).
      { destruct H as [(e & [->|He]%elem_of_cons & A)|]; [done|left; eauto|by right]. }
      by exists (WaitRetry b :: l').
    + intros [= <-] H. destruct last; [by exists [WaitRetry b]|]. destruct H as [(e & He & A)|]; [|done]. apply list_elem_of_singleton in He as ->. done.
Qed.
End run.
End Resident.

(** [testPush]: a device that refuses the card cannot be an approval phone, one
    that cannot be reached may be. *)
Inductive test_error := PhoneIncapable (reason : string) | PhoneUnreachable.

Definition testPush (reached : bool) (r : rpc_result) : result test_error () :=
  if negb reached then Err PhoneUnreachable
  else match done r with Ok _ => Ok () | Err (Refused reason) => Err (PhoneIncapable reason) | Err NoConnection => Err PhoneUnreachable end.

(** C24: a decision made on the approval phone is carried out once, on the request it
    was made for.  However watches, dropped connections, resends and reconciliations
    interleave: at most one of the requests the portal makes of devices on account
    of a card can have an effect; each goes to the device the card is for and
    carries the verdict of a decision that came from the phone the card was
    addressed to, within a day of the card; and a late grant is only made on "y",
    for a request that was found gone no sooner than five seconds before the end
    of its wait, on the very connection it had been seen on.  (The request named
    may also be none, for a phone that guessed the id of a card being made.) *)
Theorem phone_decides_once s :
  supervised s →
  NoDup (omap effective (history s)) ∧
  ∀ id ns device r reply, Asked id ns device r reply ∈ history s → justified (history s) id ns device r.
Proof. intros W%supervised_ok. split; apply W. Qed.

Lemma happen_all_supervised es : supervised (happen_all es newPhoneSupervisor).
Proof.
  unfold happen_all. rewrite <- (rev_involutive es). induction (rev es) as [|e l IH]; simpl; [by apply reachable_init|].
  rewrite fold_left_app. simpl. eapply reachable_step; [exact IH|]. by exists e.
Qed.

(** ** Evaluations *)

Module Demo.

Definition at_time (sec : Z) : Z := sec * second.
Definition linked : list event :=
  [SpaceSeen "alice" "pixel" [PhoneDeviceRow "pixel" "Pixel" "alice" false true; PhoneDeviceRow "box" "Box" "alice" false true]; BringUp "alice" "pixel" 1].

Definition uptime : card := blank_card KindExec "laptop" "fp" "uptime" "" "/home" 0.
Definition asked_uptime (id : string) : list event := [Card id "alice" "box" uptime phoneApprovalWait (at_time 1000) "p1" "" (Some 7%nat); Move 0 no_exchange].

(** A request that ran out while it was watched, allowed from the phone afterwards
    over a new connection, and allowed again: one grant. *)
Definition late_yes : list event :=
  linked ++ asked_uptime "c1" ++ [Settle "c1" (Some 7%nat) (at_time 1180); Close 7; Reply "alice" "pixel" "c1" "y" (at_time 1200);
    Move 0 (Exchange (Some (Some 9%nat)) None (at_time 1201)); Move 0 (Exchange None (Some DoneReply) (at_time 1202)); Move 0 no_exchange;
    Reply "alice" "pixel" "c1" "y" (at_time 1203)].

(** The same, but the connection broke before the request went away. *)
Definition unseen_yes : list event :=
  linked ++ asked_uptime "c1" ++ [Close 7; Unobserved "alice" "box"; Settle "c1" (Some 9%nat) (at_time 1180); Reply "alice" "pixel" "c1" "y" (at_time 1200)].

Definition uptime_grant : rpc := GrantOnce KindExec "uptime" "fp" "/home" 1800 "phone:Pixel".

Lemma phone_decides_once_witness :
  (∃ s, happen_all late_yes newPhoneSupervisor = s ∧ NoDup (omap effective (history s)) ∧ omap effective (history s) = ["c1"%string] ∧
    justified (history s) "c1" "alice" "box" uptime_grant) ∧
  omap effective (history (happen_all unseen_yes newPhoneSupervisor)) = [].
Proof.
  split; [|vm_compute; reflexivity]. eexists. split; [reflexivity|].
  destruct (phone_decides_once _ (happen_all_supervised late_yes)) as [N J]. split; [exact N|]. split; [vm_compute; reflexivity|].
  apply (J "c1"%string "alice"%string "box"%string uptime_grant (Some DoneReply)).
  vm_compute. do 3 right. left.
Defined.

End Demo.
