(* ===== verification/Lark.v ===== *)
(** Approvals over Feishu: [internal/lark/grants.go] and [action.go] as Module
    [CardGrants], the workflow of cards and callbacks in
    [internal/portal/larkwatch.go] as a transition system, and its choice of
    watchers as Module [Watchers].

    A card carries the nonce of a grant.  Pressing a button sends the nonce back
    with the chat the card is in; spending the grant starts a decision on the
    device.  Every watcher, callback and decision is a goroutine, so a step is
    one critical section or one exchange with Feishu or a device. *)

From S2P Require Import Prelude GoStrings GoUtf8 Policy Console ConsoleRpc.

Local Open Scope Z_scope.

(** ** Grants *)

Module CardGrants.

Definition expiredGrantRetention : Z := 5 * minute.

Inductive grant_error := ErrInvalidGrant | ErrGrantNotFound | ErrChatMismatch | ErrNonceConsumed | ErrGrantExpired | ErrGrantUnbound | ErrEventDuplicate.

Record grant := Grant { Nonce : string; NS : string; Device : string; PendingID : string; PairingFP : string; ChatID : string; ExpiresAt : Z }.

Record grants := Grants { active : gmap string grant; consumed : gmap string Z; expired : gmap string Z; events : gmap string Z }.

Definition NewGrants : grants := Grants ∅ ∅ ∅ ∅.

Definition is_live (now : Z) (t : Z) : Prop := now < t.

Definition cleanupLocked (now : Z) (g : grants) : grants :=
  let over := filter (λ kv : string * grant, ¬ (now < ExpiresAt kv.2)) (active g) in
  Grants (filter (λ kv : string * grant, now < ExpiresAt kv.2) (active g))
    (filter (λ kv : string * Z, now < kv.2) (consumed g))
    (filter (λ kv : string * Z, now < kv.2) (((λ _, now + expiredGrantRetention) <$> over) ∪ expired g))
    (filter (λ kv : string * Z, now < kv.2) (events g)).

(** [nonce] is what the random source gave, [None] when it failed. *)
Definition Issue (now : Z) (nonce : option string) (ns device pendingID pairingFP chatID : string) (ttl : Z) (g : grants) : result (option grant_error) grant * grants :=
  if String.eqb ns "" || String.eqb device "" || (ttl <=? 0) || Bool.eqb (String.eqb pendingID "") (String.eqb pairingFP "") then (Err (Some ErrInvalidGrant), g)
  else
    match nonce with
    | None => (Err None, g)
    | Some nonce =>
        let record := Grant nonce ns device pendingID pairingFP chatID (now + ttl) in
        let g := cleanupLocked now g in
        (Ok record, Grants (<[nonce := record]> (active g)) (consumed g) (expired g) (events g))
    end.

(** Why a nonce is not among the active ones, after the cleanup. *)
Definition not_active (nonce : string) (g : grants) : grant_error :=
  match consumed g !! nonce, expired g !! nonce with Some _, _ => ErrNonceConsumed | None, Some _ => ErrGrantExpired | None, None => ErrGrantNotFound end.

Definition with_chat (chat : string) (r : grant) : grant := Grant (Nonce r) (NS r) (Device r) (PendingID r) (PairingFP r) chat (ExpiresAt r).

Definition BindChat (now : Z) (nonce chatID : string) (g : grants) : result grant_error grant * grants :=
  if String.eqb nonce "" || String.eqb chatID "" then (Err ErrInvalidGrant, g)
  else
    let g' := cleanupLocked now g in
    match active g !! nonce with
    | None => (Err (not_active nonce g'), g')
    | Some record =>
        if negb (now <? ExpiresAt record) then (Err ErrGrantExpired, g')
        else if negb (String.eqb (ChatID record) "") && negb (String.eqb (ChatID record) chatID) then (Err ErrChatMismatch, g')
        else (Ok (with_chat chatID record), Grants (<[nonce := with_chat chatID record]> (active g')) (consumed g') (expired g') (events g'))
    end.

Definition Consume (now : Z) (nonce chatID eventID : string) (g : grants) : result grant_error grant * grants :=
  if String.eqb nonce "" || String.eqb chatID "" || String.eqb eventID "" then (Err ErrInvalidGrant, g)
  else
    let g' := cleanupLocked now g in
    match events g' !! eventID with
    | Some _ => (Err ErrEventDuplicate, g')
    | None =>
        match active g !! nonce with
        | None => (Err (not_active nonce g'), g')
        | Some record =>
            if negb (now <? ExpiresAt record) then (Err ErrGrantExpired, Grants (delete nonce (active g')) (consumed g') (expired g') (events g'))
            else if String.eqb (ChatID record) "" then (Err ErrGrantUnbound, g')
            else
              let events' := <[eventID := ExpiresAt record]> (events g') in
              if negb (String.eqb (ChatID record) chatID) then (Err ErrChatMismatch, Grants (active g') (consumed g') (expired g') events')
              else (Ok record, Grants (delete nonce (active g')) (<[nonce := ExpiresAt record]> (consumed g')) (expired g') events')
        end
    end.

Lemma active_cleanup now g n r : active (cleanupLocked now g) !! n = Some r → active g !! n = Some r.
Proof. unfold cleanupLocked. simpl. by intros [E _]%map_lookup_filter_Some. Qed.

Lemma Consume_Ok now nonce chat ev g r g' : Consume now nonce chat ev g = (Ok r, g') →
  active g !! nonce = Some r ∧ ChatID r = chat ∧ chat ≠ ""%string ∧ now < ExpiresAt r ∧ (∀ n x, active g' !! n = Some x → n ≠ nonce ∧ active g !! n = Some x).
Proof.
  unfold Consume. destruct (_ || _) eqn:V; [done|]. destruct (events _ !! ev); [done|]. destruct (active g !! nonce) as [r'|] eqn:E; [|done].
  destruct (negb (now <? _)) eqn:T; [done|]. destruct (String.eqb_spec (ChatID r') ""); [done|]. destruct (negb (String.eqb _ _)) eqn:C; [done|].
  intros [= <- <-]. ssplit. subst. split_and!; try done. intros n' x. simpl. rewrite lookup_delete_Some.
  intros [N E'%active_cleanup]. split; [congruence|done].
Qed.

Lemma Consume_active now nonce chat ev g n x : active (Consume now nonce chat ev g).2 !! n = Some x → active g !! n = Some x.
Proof.
  unfold Consume. destruct (_ || _); [done|]. destruct (events _ !! ev); [apply active_cleanup|]. destruct (active g !! nonce) as [r|]; [|apply active_cleanup].
  destruct (negb _); simpl; [rewrite lookup_delete_Some; intros [_ E]; revert E; apply active_cleanup|]. destruct (String.eqb _ ""); [apply active_cleanup|].
  destruct (negb _); simpl; [apply active_cleanup|]. rewrite lookup_delete_Some. intros [_ E]. revert E. apply active_cleanup.
Qed.

Lemma BindChat_active now nonce chat g n x : active (BindChat now nonce chat g).2 !! n = Some x →
  active g !! n = Some x ∨ (n = nonce ∧ ∃ r, active g !! nonce = Some r ∧ x = with_chat chat r ∧ BindChat now nonce chat g = (Ok x, (BindChat now nonce chat g).2)).
Proof.
  unfold BindChat. destruct (_ || _); [by left|]. destruct (active g !! nonce) as [r|] eqn:E; [|intros H; left; revert H; apply active_cleanup].
  destruct (negb _); [intros H; left; revert H; apply active_cleanup|]. destruct (_ && _); [intros H; left; revert H; apply active_cleanup|]. simpl.
  rewrite lookup_insert_Some. intros [[<- <-]|[_ H]]; [right; eauto|left; revert H; apply active_cleanup].
Qed.

Lemma Issue_active now nonce ns device pid fp chat ttl g r g' : Issue now nonce ns device pid fp chat ttl g = (r, g') →
  ∀ n x, active g' !! n = Some x → active g !! n = Some x ∨ (r = Ok x ∧ nonce = Some n ∧ x = Grant n ns device pid fp chat (now + ttl)).
Proof.
  unfold Issue. destruct (_ || _); [intros [= <- <-]; by left|]. destruct nonce as [nonce|]; [|intros [= <- <-]; by left]. intros [= <- <-] n x. simpl.
  rewrite lookup_insert_Some. intros [[<- <-]|[_ H]]; [by right|left; revert H; apply active_cleanup].
Qed.

(** [ParseAction]; a field of the payload is [None] when it is absent or not a
    string. *)
Record cardAction := CardAction { a_Verdict : string; a_Nonce : string; a_Operator : string; a_ChatID : string; a_MessageID : string; a_EventID : string }.

Definition Verdicts (v : string) : bool := any (String.eqb v) ["y"; "a"; "g"; "n"]%string.

Definition ParseAction (verdict nonce : option string) (operator chat message event : string) : option cardAction :=
  let str o := match o with Some s => if String.eqb s "" then None else Some s | None => None end in
  match str verdict with
  | None => None
  | Some v =>
      if negb (Verdicts v) then None
      else match str nonce with
           | None => None
           | Some n => if any (String.eqb "") [operator; chat; message; event] then None else Some (CardAction v n operator chat message event)
           end
  end.

Lemma ParseAction_fields v n o c m e a : ParseAction v n o c m e = Some a →
  Verdicts (a_Verdict a) = true ∧ a_Nonce a ≠ ""%string ∧ a_ChatID a ≠ ""%string ∧ a_MessageID a ≠ ""%string ∧ a_EventID a ≠ ""%string.
Proof.
  unfold ParseAction. destruct v as [v|]; [|done]. destruct (String.eqb_spec v ""); [done|]. destruct (negb _) eqn:V; [done|].
  destruct n as [n|]; [|done]. destruct (String.eqb_spec n ""); [done|]. destruct (any _ _) eqn:A; [done|]. intros [= <-]. simpl. bsplit.
  rewrite any_false in A. split_and!; try done; intros ->; by specialize (A ""%string ltac:(set_solver)).
Qed.

End CardGrants.

Import CardGrants.

(** ** Cards and callbacks *)

Definition larkApprovalWait : Z := 180 * second.
Definition larkPairingWait : Z := 5 * minute.
Definition larkHealthErrorRunes : nat := 512.
Definition larkDialLogInterval : Z := hour.

(** What a card shows. *)
Inductive target := OfPending (p : pendingView) | OfPairing (p : pairView).

Definition target_key (t : target) : string * string := match t with OfPending p => (v_ID p, ""%string) | OfPairing p => (""%string, pv_FP p) end.

(** [larkActionRecord].  The channel [naturalDone] of a record is named by its
    nonce; [la_naturalDone] is whether the record still holds it. *)
Record action_record := ActionRecord {
  la_ns : string; la_device : string; la_email : string; la_messageID : string; la_expiresAt : Z; la_target : target;
  la_inFlight : bool; la_naturalClaimed : bool; la_naturalDone : bool; la_waitNatural : bool }.

Inductive outcome := OutcomeAllowed | OutcomeDenied | OutcomeTrusted | OutcomeLapsed.
Inductive wording := CardEnded | CardBindFailed | CardSettled (o : outcome) (actor : string).

(** Goroutines: one posting the card of a new grant, one writing that a request
    has ended, and one carrying out a callback. *)
Inductive proc :=
| Sending (g : grant) (email : string) (t : target)
| Binding (g : grant) (email : string) (t : target) (messageID chatID : string)
| Spoiling (nonce messageID : string)
| Storing (g : grant) (email : string) (t : target) (messageID : string)
| Ending (nonce messageID : string)
| Ended (nonce : string)
| Claiming (a : cardAction) (g : grant)
| Launching (a : cardAction) (g : grant) (r : action_record)
| Deciding (a : cardAction) (g : grant) (r : action_record)
| Awaiting (a : cardAction) (g : grant) (r : action_record) (w : wording)
| Forgetting (nonce : string).

(** For the record: a grant issued, the message its card went out as, a grant
    spent, a device asked on its account, a message rewritten. *)
Inductive act :=
| Issued (g : grant)
| Posted (nonce messageID chatID : string)
| Spent (nonce chatID verdict : string) (t : Z)
| Told (nonce ns device : string) (r : rpc)
| Updated (nonce messageID : string) (w : wording).

Record lark_state := LarkState {
  lk_grants : grants; lk_actions : gmap string action_record; lk_closed : gset string; lk_closing : bool;
  lk_seen : gmap string string; lk_procs : list proc; lk_history : list act }.

Definition newLark : lark_state := LarkState NewGrants ∅ ∅ false ∅ [] [].

Definition set_grants (g : grants) (s : lark_state) : lark_state := LarkState g (lk_actions s) (lk_closed s) (lk_closing s) (lk_seen s) (lk_procs s) (lk_history s).
Definition set_actions (m : gmap string action_record) (s : lark_state) : lark_state := LarkState (lk_grants s) m (lk_closed s) (lk_closing s) (lk_seen s) (lk_procs s) (lk_history s).
Definition set_seen (m : gmap string string) (s : lark_state) : lark_state := LarkState (lk_grants s) (lk_actions s) (lk_closed s) (lk_closing s) m (lk_procs s) (lk_history s).
Definition set_procs (l : list proc) (s : lark_state) : lark_state := LarkState (lk_grants s) (lk_actions s) (lk_closed s) (lk_closing s) (lk_seen s) l (lk_history s).
Definition close_done (nonce : string) (s : lark_state) : lark_state := LarkState (lk_grants s) (lk_actions s) ({[nonce]} ∪ lk_closed s) (lk_closing s) (lk_seen s) (lk_procs s) (lk_history s).
Definition stop (s : lark_state) : lark_state := LarkState (lk_grants s) (lk_actions s) (lk_closed s) true (lk_seen s) (lk_procs s) (lk_history s).
Definition record (l : list act) (s : lark_state) : lark_state := LarkState (lk_grants s) (lk_actions s) (lk_closed s) (lk_closing s) (lk_seen s) (lk_procs s) (lk_history s ++ l).
Definition spawn (p : proc) (s : lark_state) : lark_state := set_procs (lk_procs s ++ [p]) s.

(** [storeAction] *)
Definition storeAction (nonce : string) (r : action_record) (s : lark_state) : lark_state :=
  set_actions (<[nonce := ActionRecord (la_ns r) (la_device r) (la_email r) (la_messageID r) (la_expiresAt r) (la_target r) (la_inFlight r) (la_naturalClaimed r) true (la_waitNatural r)]> (lk_actions s)) s.

Definition in_flight (r : action_record) : action_record :=
  ActionRecord (la_ns r) (la_device r) (la_email r) (la_messageID r) (la_expiresAt r) (la_target r) true (la_naturalClaimed r) (la_naturalDone r) (la_naturalClaimed r && la_naturalDone r || la_waitNatural r).
Definition claimed (r : action_record) : action_record :=
  ActionRecord (la_ns r) (la_device r) (la_email r) (la_messageID r) (la_expiresAt r) (la_target r) (la_inFlight r) true (la_naturalDone r) (la_waitNatural r).
Definition natural_over (r : action_record) : action_record :=
  ActionRecord (la_ns r) (la_device r) (la_email r) (la_messageID r) (la_expiresAt r) (la_target r) (la_inFlight r) (la_naturalClaimed r) false (la_waitNatural r).

(** [claimNaturalUpdate] *)
Definition claimNaturalUpdate (nonce : string) (s : lark_state) : bool * lark_state :=
  match lk_actions s !! nonce with
  | None => (true, s)
  | Some r => if la_inFlight r then (false, s) else (true, set_actions (<[nonce := claimed r]> (lk_actions s)) s)
  end.

(** [finishNaturalUpdate] *)
Definition finishNaturalUpdate (nonce : string) (s : lark_state) : lark_state :=
  match lk_actions s !! nonce with
  | Some r => if la_naturalClaimed r && la_naturalDone r then close_done nonce (set_actions (<[nonce := natural_over r]> (lk_actions s)) s) else s
  | None => s
  end.

Definition forgetAction (nonce : string) (s : lark_state) : lark_state := set_actions (delete nonce (lk_actions s)) s.

Definition pruneActions (now : Z) (s : lark_state) : lark_state := set_actions (filter (λ kv : string * action_record, now < la_expiresAt kv.2) (lk_actions s)) s.

(** The start of a turn of [reconcileState] for a request that is new: the grant.
    The nonces are 32 random bytes and never come up twice: one already used is
    taken as a failure of the source. *)
Definition issued_nonce (a : act) : option string := match a with Issued g => Some (Nonce g) | _ => None end.

Definition issue (now : Z) (nonce : option string) (ns device email : string) (t : target) (ttl : Z) (s : lark_state) : lark_state :=
  let nonce := match nonce with Some n => if decide (n ∈ omap issued_nonce (lk_history s)) then None else Some n | None => None end in
  let '(pid, fp) := target_key t in
  match Issue now nonce ns device pid fp "" ttl (lk_grants s) with
  | (Err _, g) => set_grants g s
  | (Ok r, g) => record [Issued r] (spawn (Sending r email t) (set_grants g s))
  end.

(** The end of a request a card was sent for. *)
Definition vanish (nonce : string) (s : lark_state) : lark_state :=
  match lk_seen s !! nonce with
  | None => s
  | Some messageID =>
      let s := set_seen (delete nonce (lk_seen s)) s in
      let '(claim, s) := claimNaturalUpdate nonce s in
      if claim then spawn (Ending nonce messageID) s else s
  end.

(** The first critical section of [actionHandler]. *)
Definition callback (now : Z) (a : cardAction) (s : lark_state) : result grant_error () * lark_state :=
  match Consume now (a_Nonce a) (a_ChatID a) (a_EventID a) (lk_grants s) with
  | (Err e, g) => (Err e, set_grants g s)
  | (Ok r, g) => (Ok (), record [Spent (a_Nonce a) (a_ChatID a) (a_Verdict a) now] (spawn (Claiming a r) (set_grants g s)))
  end.

(** The world's side of a move: what [SendCard] answered, the device's answer if it
    could be reached, the time. *)
Record world := World { w_sent : option (string * string); w_reach : bool; w_reply : rpc_result; w_now : Z }.

(** The request [resolveAction] makes, and the word for it if it is taken. *)
Definition resolution (a : cardAction) (g : grant) (email : string) : option (rpc * outcome) :=
  if negb (String.eqb (PendingID g) "")
  then Some (DecideRequest (PendingID g) (a_Verdict a) ("lark:" ++ email), if String.eqb (a_Verdict a) "n" then OutcomeDenied else OutcomeAllowed)
  else if negb (String.eqb (PairingFP g) "")
  then Some (PairDecide (PairingFP g) (a_Verdict a), if String.eqb (a_Verdict a) "y" then OutcomeTrusted else OutcomeDenied)
  else None.

(** [session.decide] or [session.pairDecide]: whether it returned an error. *)
Definition refused (r : rpc) (reply : rpc_result) : bool :=
  match r with
  | PairDecide _ _ => match pairDecide reply with Ok _ => false | Err _ => true end
  | _ => match done reply with Ok _ => false | Err _ => true end
  end.

Definition resolve (w : world) (a : cardAction) (g : grant) (email : string) : list act * wording :=
  let lapsed := CardSettled OutcomeLapsed "系统" in
  match resolution a g email with
  | Some (r, o) =>
      if w_reach w then ([Told (Nonce g) (NS g) (Device g) r], if refused r (w_reply w) then lapsed else CardSettled o ("lark:" ++ email)) else ([], lapsed)
  | None => ([], lapsed)
  end.

(** One move; [None] for the goroutine when it has ended, the same goroutine when
    it cannot go on yet. *)
Definition advance (w : world) (p : proc) (s : lark_state) : option proc * lark_state :=
  match p with
  | Sending g email t =>
      match w_sent w with
      | None => (None, s)
      | Some (messageID, chatID) => (Some (Binding g email t messageID chatID), record [Posted (Nonce g) messageID chatID] (set_seen (<[Nonce g := messageID]> (lk_seen s)) s))
      end
  | Binding g email t messageID chatID =>
      match BindChat (w_now w) (Nonce g) chatID (lk_grants s) with
      | (Err _, gs) => (Some (Spoiling (Nonce g) messageID), set_grants gs s)
      | (Ok _, gs) => (Some (Storing g email t messageID), set_grants gs s)
      end
  | Spoiling nonce messageID => (None, record [Updated nonce messageID CardBindFailed] s)
  | Storing g email t messageID => (None, storeAction (Nonce g) (ActionRecord (NS g) (Device g) email messageID (ExpiresAt g) t false false false false) s)
  | Ending nonce messageID => (Some (Ended nonce), record [Updated nonce messageID CardEnded] s)
  | Ended nonce => (None, finishNaturalUpdate nonce s)
  | Claiming a g =>
      match lk_actions s !! a_Nonce a with
      | None => (None, s)
      | Some r => (Some (Launching a g (in_flight r)), set_actions (<[a_Nonce a := in_flight r]> (lk_actions s)) s)
      end
  | Launching a g r => if lk_closing s then (None, s) else (Some (Deciding a g r), s)
  | Deciding a g r => let '(l, word) := resolve w a g (la_email r) in (Some (Awaiting a g r word), record l s)
  | Awaiting a g r word =>
      if la_waitNatural r && negb (bool_decide (a_Nonce a ∈ lk_closed s)) then ((if lk_closing s then None else Some p), s)
      else (Some (Forgetting (a_Nonce a)), record [Updated (a_Nonce a) (la_messageID r) word] s)
  | Forgetting nonce => (None, forgetAction nonce s)
  end.

Definition run_proc (n : nat) (w : world) (s : lark_state) : lark_state :=
  match lk_procs s !! n with
  | None => s
  | Some p =>
      let '(next, s') := advance w p s in
      set_procs (match next with Some p => <[n := p]> (lk_procs s) | None => delete n (lk_procs s) end) s'
  end.

Inductive event :=
| Arrive (now : Z) (nonce : option string) (ns device email : string) (t : target) (ttl : Z)
| Move (n : nat) (w : world)
| Vanish (nonce : string)
| Press (now : Z) (a : cardAction)
| Prune (now : Z)
| Stop.

Definition happen (e : event) (s : lark_state) : lark_state :=
  match e with
  | Arrive now nonce ns device email t ttl => issue now nonce ns device email t ttl s
  | Move n w => run_proc n w s
  | Vanish nonce => vanish nonce s
  | Press now a => (callback now a s).2
  | Prune now => pruneActions now s
  | Stop => stop s
  end.

Definition happen_all (es : list event) (s : lark_state) : lark_state := fold_left (λ s e, happen e s) es s.
Definition lstep (s s' : lark_state) : Prop := ∃ e, s' = happen e s.
Definition at_work : lark_state → Prop := reachable (λ s, s = newLark) lstep.

(** ** What the record shows *)

Definition spent_nonce (a : act) : option string := match a with Spent n _ _ _ => Some n | _ => None end.
Definition told_nonce (a : act) : option string := match a with Told n _ _ _ => Some n | _ => None end.

(** A grant as it was issued, whatever chat it was bound to since. *)
Definition was_issued (h : list act) (g : grant) : Prop := Issued (with_chat "" g) ∈ h.
Definition was_posted (h : list act) (nonce messageID : string) : Prop := ∃ chat, Posted nonce messageID chat ∈ h.

(** The callback that spent a grant: in time, and from the chat its card went to. *)
Definition was_spent (h : list act) (g : grant) (verdict : string) : Prop :=
  was_issued h g ∧ ∃ t messageID, Spent (Nonce g) (ChatID g) verdict t ∈ h ∧ t < ExpiresAt g ∧ Posted (Nonce g) messageID (ChatID g) ∈ h.

(** What a device may be told on account of a grant. *)
Definition warranted (h : list act) (nonce ns device : string) (r : rpc) : Prop :=
  ∃ g verdict, Nonce g = nonce ∧ NS g = ns ∧ Device g = device ∧ was_spent h g verdict ∧
    ((PendingID g ≠ ""%string ∧ ∃ actor, r = DecideRequest (PendingID g) verdict actor) ∨ (PendingID g = ""%string ∧ r = PairDecide (PairingFP g) verdict)).

(** The grant whose decision is not made yet. *)
Definition carrying (p : proc) : option string :=
  match p with Claiming _ g | Launching _ g _ | Deciding _ g _ => Some (Nonce g) | _ => None end.

Definition carry_ok (h : list act) (a : cardAction) (g : grant) : Prop := a_Nonce a = Nonce g ∧ was_spent h g (a_Verdict a).

Definition proc_ok (h : list act) (p : proc) : Prop :=
  match p with
  | Sending g _ _ => was_issued h g
  | Binding g _ _ m chat => Posted (Nonce g) m chat ∈ h
  | Storing g _ _ m => was_posted h (Nonce g) m
  | Spoiling n m | Ending n m => was_posted h n m
  | Claiming a g => carry_ok h a g
  | Launching a g r | Deciding a g r => carry_ok h a g ∧ was_posted h (a_Nonce a) (la_messageID r)
  | Awaiting a _ r _ => was_posted h (a_Nonce a) (la_messageID r)
  | Ended _ | Forgetting _ => True
  end.

Definition active_ok (h : list act) (n : string) (r : grant) : Prop :=
  Nonce r = n ∧ was_issued h r ∧ (n ∉ omap spent_nonce h) ∧ (ChatID r ≠ ""%string → ∃ m, Posted n m (ChatID r) ∈ h).

Record lark_ok (s : lark_state) : Prop := {
  lo_active : ∀ n r, active (lk_grants s) !! n = Some r → active_ok (lk_history s) n r;
  lo_actions : ∀ n r, lk_actions s !! n = Some r → was_posted (lk_history s) n (la_messageID r);
  lo_seen : ∀ n m, lk_seen s !! n = Some m → was_posted (lk_history s) n m;
  lo_procs : ∀ p, p ∈ lk_procs s → proc_ok (lk_history s) p;
  lo_spent_issued : ∀ n, n ∈ omap spent_nonce (lk_history s) → n ∈ omap issued_nonce (lk_history s);
  lo_spent : NoDup (omap spent_nonce (lk_history s));
  lo_carrying : NoDup (omap carrying (lk_procs s));
  lo_told : NoDup (omap told_nonce (lk_history s));
  lo_told_spent : ∀ n, n ∈ omap told_nonce (lk_history s) → n ∈ omap spent_nonce (lk_history s);
  lo_quiet : ∀ n, n ∈ omap carrying (lk_procs s) → n ∉ omap told_nonce (lk_history s);
  lo_warrant : ∀ n ns d r, Told n ns d r ∈ lk_history s → warranted (lk_history s) n ns d r;
  lo_updates : ∀ n m w, Updated n m w ∈ lk_history s → was_posted (lk_history s) n m }.

Section growth.
Context (h l : list act).
Implicit Types (g : grant) (p : proc).

Lemma was_issued_app g : was_issued h g → was_issued (h ++ l) g.
Proof. unfold was_issued. set_solver. Qed.
Lemma was_posted_app n m : was_posted h n m → was_posted (h ++ l) n m.
Proof. intros (c & P). exists c. set_solver. Qed.
Lemma was_spent_app g v : was_spent h g v → was_spent (h ++ l) g v.
Proof. intros (I & t & m & S & T & P). split; [by apply was_issued_app|]. exists t, m. split_and!; try done; set_solver. Qed.
Lemma warranted_app n ns d r : warranted h n ns d r → warranted (h ++ l) n ns d r.
Proof. intros (g & v & E1 & E2 & E3 & S & W). exists g, v. split_and!; try done. by apply was_spent_app. Qed.
Lemma carry_ok_app a g : carry_ok h a g → carry_ok (h ++ l) a g.
Proof. intros [E S]. split; [done|by apply was_spent_app]. Qed.
Lemma lark_proc_ok_app p : proc_ok h p → proc_ok (h ++ l) p.
Proof. destruct p; simpl; intuition eauto using was_issued_app, was_posted_app, carry_ok_app. set_solver. Qed.
End growth.

Lemma active_ok_app h l n r : omap spent_nonce l = [] ∨ (∀ x, x ∈ omap spent_nonce l → x ≠ n) → active_ok h n r → active_ok (h ++ l) n r.
Proof.
  intros S (N & I & A & C). split_and!; [done|by apply was_issued_app| |intros Z; destruct (C Z) as (m & P); exists m; set_solver].
  rewrite omap_app, elem_of_app. intros [?|Hx]; [done|]. destruct S as [S|S]; [rewrite S in Hx; by apply elem_of_nil in Hx|by apply (S n Hx)].
Qed.

Lemma carrying_spent h p n : proc_ok h p → carrying p = Some n → n ∈ omap spent_nonce h.
Proof.
  assert (∀ a g, carry_ok h a g → Nonce g ∈ omap spent_nonce h) as T.
  { intros a g (_ & _ & t & m & S & _). apply list_elem_of_omap. by exists (Spent (Nonce g) (ChatID g) (a_Verdict a) t). }
  destruct p; simpl; try done; intros K [= <-]; intuition eauto.
Qed.

(** A step that adds nothing to the record, and at most goroutines that carry
    no decision. *)
Lemma lark_ok_quiet s s' new :
  lark_ok s → lk_history s' = lk_history s → lk_procs s' = lk_procs s ++ new → omap carrying new = [] → (∀ p, p ∈ new → proc_ok (lk_history s) p) →
  (∀ n r, active (lk_grants s') !! n = Some r → active_ok (lk_history s) n r) →
  (∀ n r, lk_actions s' !! n = Some r → was_posted (lk_history s) n (la_messageID r)) →
  (∀ n m, lk_seen s' !! n = Some m → was_posted (lk_history s) n m) → lark_ok s'.
Proof.
  intros [L1 L2 L3 L4 L5 L6 L7 L8 L9 L10 L11 L12] H P N K A Ac Se. split; rewrite ?H, ?P; try done.
  - intros p [Hp|Hp]%elem_of_app; auto.
  - by rewrite omap_app, N, app_nil_r.
  - by rewrite omap_app, N, app_nil_r.
Qed.

(** A goroutine moves.  Only one that carries a decision tells a device, and then
    carries it no longer. *)
Definition next_acts (h : list act) (p : proc) (next : option proc) (l : list act) : Prop :=
  match l with
  | [] => True
  | [Posted _ _ _] => True
  | [Updated n m _] => was_posted h n m
  | [Told n ns d r] => carrying p = Some n ∧ warranted h n ns d r ∧ ∀ q, next = Some q → carrying q = None
  | _ => False
  end.

Lemma next_acts_same h p next l B (f : act → option B) :
  next_acts h p next l → (∀ n m c, f (Posted n m c) = None) → (∀ n m w, f (Updated n m w) = None) → (∀ n ns d r, f (Told n ns d r) = None) → omap f l = [].
Proof. intros N F1 F2 F3. destruct l as [|[] [|]]; simpl in *; try done; by rewrite ?F1, ?F2, ?F3. Qed.

Lemma lark_ok_move s s' l1 p l2 next l :
  lark_ok s → lk_procs s = l1 ++ p :: l2 → lk_procs s' = l1 ++ olist next ++ l2 → lk_history s' = lk_history s ++ l →
  (∀ q, next = Some q → proc_ok (lk_history s') q ∧ (carrying q = None ∨ carrying q = carrying p)) → next_acts (lk_history s) p next l →
  (∀ n r, active (lk_grants s') !! n = Some r → active_ok (lk_history s) n r) →
  (∀ n r, lk_actions s' !! n = Some r → was_posted (lk_history s) n (la_messageID r)) →
  (∀ n m, lk_seen s' !! n = Some m → was_posted (lk_history s') n m) → lark_ok s'.
Proof.
  intros [L1 L2 L3 L4 L5 L6 L7 L8 L9 L10 L11 L12] P P' H Q N A Ac Se. rewrite P in *.
  assert (∀ q, next = Some q → carrying q = None ∨ carrying q = carrying p) as C by (intros q E; by apply Q).
  assert (omap spent_nonce l = []) as Ns by (by eapply next_acts_same). assert (omap issued_nonce l = []) as Ni by (by eapply next_acts_same).
  assert (∀ x, x ∈ omap carrying (lk_procs s') → x ∈ omap carrying (l1 ++ p :: l2)) as Ai by (intros x; rewrite P'; by apply omap_next).
  assert (∀ n, carrying p = Some n → n ∈ omap carrying (l1 ++ p :: l2)) as Cp by (intros n E; rewrite omap_app; simpl; rewrite E; set_solver).
  assert (omap told_nonce l = [] ∨ ∃ n, omap told_nonce l = [n] ∧ carrying p = Some n ∧ ∀ q, next = Some q → carrying q = None) as T.
  { destruct l as [|[] [|]]; simpl in *; try done; auto. right. eexists. split; [done|]. tauto. }
  split; rewrite ?H, ?omap_app, ?Ns, ?Ni, ?app_nil_r; try done.
  - intros n r E. apply active_ok_app; [by left|auto].
  - intros n r E. apply was_posted_app. auto.
  - intros n m E. rewrite <- H. auto.
  - intros q. rewrite P', <- H, !elem_of_app. intros Hq.
    assert (q ∈ l1 ++ p :: l2 ∨ next = Some q) as [Hq'|Hq'] by (destruct next; simpl in Hq; set_solver); [rewrite H; apply lark_proc_ok_app; auto|by apply Q].
  - rewrite P'. by apply (omap_next_NoDup _ _ p).
  - destruct T as [->|(n & -> & E & _)]; [by rewrite app_nil_r|]. apply NoDup_app. split; [done|]. split; [|apply NoDup_singleton]. intros x Hx ->%list_elem_of_singleton. apply (L10 n); auto.
  - intros n [Hn|Hn]%elem_of_app; [auto|]. destruct T as [T|(m & T & E & _)]; rewrite T in Hn; [by apply elem_of_nil in Hn|]. apply list_elem_of_singleton in Hn as ->. eapply carrying_spent; [|exact E]. apply L4. set_solver.
  - intros n Hn [Hn'|Hn']%elem_of_app; [by apply (L10 n); auto|]. destruct T as [T|(m & T & E & F)]; rewrite T in Hn'; [by apply elem_of_nil in Hn'|]. apply list_elem_of_singleton in Hn' as ->.
    rewrite P' in Hn. by apply (omap_next_free carrying l1 p l2 next m L7 E F) in Hn.
  - intros n ns d r [Ht|Ht]%elem_of_app; [apply warranted_app; eauto|]. apply warranted_app. destruct l as [|a [|]]; [by apply elem_of_nil in Ht| |by destruct a]. apply list_elem_of_singleton in Ht as <-. apply N.
  - intros n m w [Hu|Hu]%elem_of_app; apply was_posted_app; [eauto|]. destruct l as [|a [|]]; [by apply elem_of_nil in Hu| |by destruct a]. apply list_elem_of_singleton in Hu as <-. apply N.
Qed.

Lemma active_bound h now n c gs : (∀ n r, active gs !! n = Some r → active_ok h n r) → (∃ m, Posted n m c ∈ h) →
  ∀ k r, active (BindChat now n c gs).2 !! k = Some r → active_ok h k r.
Proof.
  intros A (m & P) k r [H|(-> & r0 & E & -> & _)]%BindChat_active; [by apply A|]. destruct (A n r0 E) as (N & I & S & _).
  split_and!; [done|exact I|done|]. intros _. by exists m.
Qed.

Ltac moved L P l :=
  eapply (lark_ok_move _ _ _ _ _ _ l L P); [reflexivity|simpl; rewrite ?app_nil_r; reflexivity| | | | |]; simpl; rewrite ?app_nil_r; try done; try apply L.

(** One move. *)
Lemma lark_advance_ok s l1 p l2 w next s' :
  lark_ok s → lk_procs s = l1 ++ p :: l2 → advance w p s = (next, s') → lark_ok (set_procs (l1 ++ olist next ++ l2) s').
Proof.
  intros L P A. pose proof (lo_procs _ L p ltac:(rewrite P; set_solver)) as K.
  assert (∀ n m, lk_seen s !! n = Some m → ∀ l, was_posted (lk_history s ++ l) n m) as Sn by (intros n m E l; apply was_posted_app; by apply (lo_seen _ L)).
  destruct p as [g email t|g email t m c|n m|g email t m|n m|n|a g|a g r|a g r|a g r o|n]; simpl in A.
  - destruct (w_sent w) as [[m c]|]; injection A as <- <-.
    + moved L P [Posted (Nonce g) m c].
      * intros ? [= <-]. split; [set_solver|by left].
      * intros n m'. rewrite lookup_insert_Some. intros [[<- <-]|[_ E]]; [exists c; set_solver|auto].
    + moved L P (@nil act).
  - pose proof (active_bound _ (w_now w) (Nonce g) c _ (lo_active _ L) ltac:(by exists m)) as Ab.
    destruct (BindChat _ _ _ _) as [[r|e] gs]; injection A as <- <-; simpl in Ab;
      (moved L P (@nil act); intros ? [= <-]; split; [by exists c|by left]).
  - injection A as <- <-. moved L P [Updated n m CardBindFailed]. intros k m' E. by apply Sn.
  - injection A as <- <-. moved L P (@nil act).
    intros n r. rewrite lookup_insert_Some. intros [[<- <-]|[_ E]]; [done|by apply (lo_actions _ L)].
  - injection A as <- <-. moved L P [Updated n m CardEnded]; [|intros k m' E; by apply Sn].
    intros ? [= <-]. split; [done|by left].
  - injection A as <- <-. unfold finishNaturalUpdate. destruct (lk_actions s !! n) as [r|] eqn:E; [destruct (_ && _)|]; moved L P (@nil act).
    intros k r'. rewrite lookup_insert_Some. intros [[<- <-]|[_ E']]; [|by apply (lo_actions _ L)]. by apply (lo_actions _ L) in E.
  - destruct K as [Kn K]. destruct (lk_actions s !! a_Nonce a) as [r|] eqn:E; injection A as <- <-.
    + pose proof (lo_actions _ L _ _ E) as Pr. moved L P (@nil act).
      * intros ? [= <-]. split; [done|by right].
      * intros k r'. rewrite lookup_insert_Some. intros [[<- <-]|[_ E']]; [done|by apply (lo_actions _ L)].
    + moved L P (@nil act).
  - destruct (lk_closing s); injection A as <- <-.
    + moved L P (@nil act).
    + moved L P (@nil act). intros ? [= <-]. split; [done|by right].
  - destruct (resolve w a g (la_email r)) as [l o] eqn:R. injection A as <- <-. destruct K as [[Kn K] Pr].
    moved L P l; [| |intros k m' E; by apply Sn].
    + intros ? [= <-]. split; [by apply was_posted_app|by left].
    + unfold resolve in R. destruct (resolution a g (la_email r)) as [[q o']|] eqn:Q; [|by injection R as <- _].
      destruct (w_reach w); [|by injection R as <- _]. injection R as <- _. simpl. split; [done|]. split; [|by intros ? [= <-]].
      exists g, (a_Verdict a). split_and!; try done. unfold resolution in Q.
      destruct (String.eqb_spec (PendingID g) "") as [Z|Z]; simpl in Q; [|injection Q as <- _; left; eauto].
      destruct (String.eqb (PairingFP g) ""); [done|]. injection Q as <- _. by right.
  - assert (∀ next', (next' = None ∨ next' = Some (Awaiting a g r o)) → lark_ok (set_procs (l1 ++ olist next' ++ l2) s)) as Stay.
    { intros next' N. apply (lark_ok_move s _ l1 _ l2 next' [] L P); simpl; rewrite ?app_nil_r; try done; try apply L. intros q ->. destruct N as [|N]; [done|]. injection N as ->. split; [done|by left]. }
    destruct (_ && _); [destruct (lk_closing s); injection A as <- <-; auto|]. injection A as <- <-.
    moved L P [Updated (a_Nonce a) (la_messageID r) o]; [|intros k m' E; by apply Sn].
    intros ? [= <-]. split; [done|by left].
  - injection A as <- <-. moved L P (@nil act).
    intros k r. rewrite lookup_delete_Some. intros [_ E]. by apply (lo_actions _ L).
Qed.

Lemma lark_run_proc_ok n w s : lark_ok s → lark_ok (run_proc n w s).
Proof.
  intros L. unfold run_proc. destruct (lk_procs s !! n) as [p|] eqn:E; [|done]. destruct (advance w p s) as [next s'] eqn:A.
  destruct (list_elem_of_split_length _ _ _ E) as (l1 & l2 & P & ->). rewrite P, replace_nth. exact (lark_advance_ok _ _ _ _ _ _ _ L P A).
Qed.

(** The nonce of a new grant has not been seen before. *)
Lemma issue_ok now nonce ns device email t ttl s : lark_ok s → lark_ok (issue now nonce ns device email t ttl s).
Proof.
  intros L. unfold issue. set (nonce' := match nonce with Some _ => _ | None => _ end). destruct (target_key t) as [pid fp].
  destruct (Issue now nonce' ns device pid fp "" ttl (lk_grants s)) as [[r|e] g] eqn:I; pose proof (Issue_active _ _ _ _ _ _ _ _ _ _ _ I) as A.
  - assert (∃ n, nonce' = Some n ∧ r = Grant n ns device pid fp "" (now + ttl) ∧ n ∉ omap issued_nonce (lk_history s)) as (n & Hn & -> & Fn).
    { unfold Issue in I. destruct (_ || _); [done|]. destruct nonce' as [n|] eqn:Hn; [|done]. injection I as <- _. exists n. split_and!; try done.
      subst nonce'. destruct nonce as [n'|]; [|done]. destruct (decide _); [done|]. congruence. }
    clearbody nonce'. subst nonce'. destruct L as [L1 L2 L3 L4 L5 L6 L7 L8 L9 L10 L11 L12]. set (r := Grant n ns device pid fp "" (now + ttl)) in *.
    assert (n ∉ omap spent_nonce (lk_history s)) as Fs by (intros H; by apply Fn, L5).
    split; simpl; rewrite ?omap_app; simpl; rewrite ?app_nil_r; try done.
    + intros k x E. destruct (A k x E) as [E'|(Er & [= ->] & ->)]; [apply active_ok_app; [by left|auto]|].
      split; [done|]. split; [unfold was_issued; simpl; set_solver|]. split; [|done]. rewrite omap_app. simpl. by rewrite app_nil_r.
    + intros k x E. apply was_posted_app. auto.
    + intros k x E. apply was_posted_app. auto.
    + intros p [Hp|Hp]%elem_of_app; [apply lark_proc_ok_app; auto|]. apply list_elem_of_singleton in Hp as ->. simpl. unfold was_issued. simpl. set_solver.
    + intros k Hk. apply elem_of_app. left. auto.
    + intros k a d q [Hq|Hq]%elem_of_app; [apply warranted_app; eauto|]. by apply list_elem_of_singleton in Hq.
    + intros k m' w [Hq|Hq]%elem_of_app; [apply was_posted_app; eauto|]. by apply list_elem_of_singleton in Hq.
  - apply (lark_ok_quiet s _ []); simpl; rewrite ?app_nil_r; try done; try apply L; [intros p Hp; by apply elem_of_nil in Hp|].
    intros n x E. destruct (A n x E) as [E'|(Er & _)]; [by apply (lo_active _ L)|done].
Qed.

(** Spending a grant: it is no longer active. *)
Lemma callback_ok now a s : lark_ok s → lark_ok (callback now a s).2.
Proof.
  intros L. unfold callback. destruct (Consume _ _ _ _ _) as [[r|e] g] eqn:C.
  - destruct (Consume_Ok _ _ _ _ _ _ _ C) as (E & Ch & Cn & T & A). destruct (lo_active _ L _ _ E) as (Nr & I & Fs & P). simpl.
    destruct L as [L1 L2 L3 L4 L5 L6 L7 L8 L9 L10 L11 L12].
    split; simpl; rewrite ?omap_app; simpl; rewrite ?app_nil_r; try done.
    + intros n x Ex. destruct (A n x Ex) as [N Ex']. apply active_ok_app; [|auto]. right. simpl. intros y ->%list_elem_of_singleton. congruence.
    + intros n x Ex. apply was_posted_app. auto.
    + intros n x Ex. apply was_posted_app. auto.
    + intros p [Hp|Hp]%elem_of_app; [apply lark_proc_ok_app; auto|]. apply list_elem_of_singleton in Hp as ->. simpl. split; [done|]. split; [by apply was_issued_app|].
      destruct (P ltac:(congruence)) as (m & Pm). exists now, m. rewrite Nr, Ch in *. split_and!; try done; set_solver.
    + intros n [Hn|Hn]%elem_of_app; [auto|]. apply list_elem_of_singleton in Hn as ->. apply list_elem_of_omap. exists (Issued (with_chat "" r)). split; [exact I|]. simpl. by rewrite Nr.
    + apply NoDup_app. split; [done|]. split; [|apply NoDup_singleton]. intros x Hx ->%list_elem_of_singleton. done.
    + rewrite Nr. apply NoDup_app. split; [done|]. split; [|apply NoDup_singleton]. intros x Hx ->%list_elem_of_singleton. apply Fs. apply list_elem_of_omap in Hx as (p & Hp & Ep). eapply carrying_spent; eauto.
    + intros n Hn. apply elem_of_app. left. auto.
    + rewrite Nr. intros n [Hn|Hn]%elem_of_app; [auto|]. apply list_elem_of_singleton in Hn as ->. intros Hx. by apply Fs, L9.
    + intros k ns d q [Hq|Hq]%elem_of_app; [apply warranted_app; eauto|]. by apply list_elem_of_singleton in Hq.
    + intros k m' w [Hq|Hq]%elem_of_app; [apply was_posted_app; eauto|]. by apply list_elem_of_singleton in Hq.
  - pose proof (Consume_active now (a_Nonce a) (a_ChatID a) (a_EventID a) (lk_grants s)) as A. rewrite C in A.
    apply (lark_ok_quiet s _ []); simpl; rewrite ?app_nil_r; try done; try apply L; [intros p Hp; by apply elem_of_nil in Hp|].
    intros n x E. apply (lo_active _ L). by apply A.
Qed.

Lemma vanish_ok nonce s : lark_ok s → lark_ok (vanish nonce s).
Proof.
  intros L. unfold vanish. destruct (lk_seen s !! nonce) as [m|] eqn:E; [|done]. pose proof (lo_seen _ L _ _ E) as Pm.
  assert (∀ n m', delete nonce (lk_seen s) !! n = Some m' → was_posted (lk_history s) n m') as Sn by (intros n m'; rewrite lookup_delete_Some; intros [_ E']; by apply (lo_seen _ L)).
  unfold claimNaturalUpdate. simpl. destruct (lk_actions s !! nonce) as [r|] eqn:A; [destruct (la_inFlight r)|]; simpl.
  - apply (lark_ok_quiet s _ []); simpl; rewrite ?app_nil_r; try done; try apply L. intros p Hp. by apply elem_of_nil in Hp.
  - apply (lark_ok_quiet s _ [Ending nonce m]); simpl; try done; try apply L; [intros p ->%list_elem_of_singleton; done|].
    intros n r'. rewrite lookup_insert_Some. intros [[<- <-]|[_ E']]; [by apply (lo_actions _ L) in A|by apply (lo_actions _ L)].
  - apply (lark_ok_quiet s _ [Ending nonce m]); simpl; try done; try apply L. by intros p ->%list_elem_of_singleton.
Qed.

Lemma at_work_ok s : at_work s → lark_ok s.
Proof.
  revert s. apply invariant_reachable.
  - intros s ->. split; simpl; try done; try constructor; intros; set_solver.
  - intros s s' L (e & ->). destruct e; [by apply issue_ok|by apply lark_run_proc_ok|by apply vanish_ok|by apply callback_ok| |].
    + apply (lark_ok_quiet s _ []); simpl; rewrite ?app_nil_r; try done; try apply L; [intros p Hp; by apply elem_of_nil in Hp|].
      intros n r [E _]%map_lookup_filter_Some. by apply (lo_actions _ L).
    + apply (lark_ok_quiet s _ []); simpl; rewrite ?app_nil_r; try done; try apply L. intros p Hp. by apply elem_of_nil in Hp.
Qed.

(** C25: a button pressed in Feishu decides one request, once.  Whatever callbacks
    arrive, repeated or forged, and however posting, expiry and decisions
    interleave: a device is told something at most once per card; what it is told
    is the decision on the request that card's grant was issued for, with the
    verdict of the callback that spent the grant, which came in time and from the
    chat the card was sent to; and no message is ever rewritten but those sent for
    that very grant. *)
Theorem callback_decides_once s :
  at_work s →
  NoDup (omap told_nonce (lk_history s)) ∧
  (∀ nonce ns device r, Told nonce ns device r ∈ lk_history s → warranted (lk_history s) nonce ns device r) ∧
  (∀ nonce m w, Updated nonce m w ∈ lk_history s → was_posted (lk_history s) nonce m).
Proof. intros L%at_work_ok. split_and!; apply L. Qed.

Lemma happen_all_at_work es : at_work (happen_all es newLark).
Proof.
  unfold happen_all. rewrite <- (rev_involutive es). induction (rev es) as [|e l IH]; simpl; [by apply reachable_init|].
  rewrite fold_left_app. simpl. eapply reachable_step; [exact IH|]. by exists e.
Qed.

(** ** Which devices are watched *)

Module Watchers.

(** [deviceLarkApproval], as far as it is compared. *)
Record config := Config { c_Namespace : string; c_Device : string; c_Enabled : bool; c_PairingFromCard : bool; c_NotifyEmail : string; c_UpdatedAt : string; c_Fingerprint : string }.
#[export] Instance config_eq_dec : EqDecision config.
Proof. solve_decision. Defined.

Definition larkDeviceKey (ns device : string) : string := (ns ++ "/" ++ device)%string.

(** A watcher is named by a number; [w_live] are those whose goroutine has not
    been cancelled. *)
Record watcher := Watcher { w_id : nat; w_config : config }.

Record health := Health { h_success : bool; h_kind : string; h_error : string; h_failures : nat }.

Record supervisor := Supervisor {
  watchers : gmap string watcher; stopped : gmap string config; healths : gmap string health; dialLogs : gmap string Z; next_id : nat }.

Definition new : supervisor := Supervisor ∅ ∅ ∅ ∅ 0.

Definition truncateLarkHealthError (message : string) : list Z :=
  let r := runes message in if (length r <=? larkHealthErrorRunes)%nat then r else take larkHealthErrorRunes r ++ [46; 46; 46].

(** [recordHealth]; [error] is [None] for success, else the message as
    [truncateLarkHealthError] cuts it. *)
Definition recordHealth (ns device kind : string) (error : option string) (s : supervisor) : supervisor :=
  let key := larkDeviceKey ns device in
  let old := default (Health false "" "" 0) (healths s !! key) in
  if String.eqb kind "dial" && (match error with None => true | _ => false end) && negb (String.eqb (h_kind old) "") && negb (String.eqb (h_kind old) "dial") then s
  else
    let h := match error with None => Health true kind "" 0 | Some e => Health false kind e (S (h_failures old)) end in
    Supervisor (watchers s) (stopped s) (<[key := h]> (healths s)) (dialLogs s) (next_id s).

Definition deliveryHealth (ns device : string) (s : supervisor) : option health := healths s !! larkDeviceKey ns device.
Definition clearHealth (key : string) (s : supervisor) : supervisor := Supervisor (watchers s) (stopped s) (delete key (healths s)) (dialLogs s) (next_id s).

(** [hasStoppedWatcher]: whether any device of the namespace has a record. *)
Definition hasStoppedWatcher (ns : string) (s : supervisor) : bool := any (λ kv, has_prefix kv.1 (ns ++ "/")) (map_to_list (healths s)).

(** [shouldLogDial] *)
Definition shouldLogDial (key : string) (now : Z) (s : supervisor) : bool * supervisor :=
  match dialLogs s !! key with
  | Some last => if negb (is_zero last) && (now - last <? larkDialLogInterval) then (false, s)
                 else (true, Supervisor (watchers s) (stopped s) (healths s) (<[key := now]> (dialLogs s)) (next_id s))
  | None => (true, Supervisor (watchers s) (stopped s) (healths s) (<[key := now]> (dialLogs s)) (next_id s))
  end.

(** What [applyConfigs] wants watched. *)
Definition wanted (configs : list config) : gmap string config :=
  fold_left (λ m c, if String.eqb (c_Namespace c) "" || String.eqb (c_Device c) "" || String.eqb (c_NotifyEmail c) "" || negb (c_Enabled c) then m
                    else <[larkDeviceKey (c_Namespace c) (c_Device c) := c]> m) configs ∅.

Definition startWatcherLocked (key : string) (c : config) (s : supervisor) : supervisor :=
  Supervisor (<[key := Watcher (next_id s) c]> (watchers s)) (stopped s) (healths s) (dialLogs s) (S (next_id s)).

Definition start_all (l : list (string * config)) (s : supervisor) : supervisor := fold_left (λ s kc, startWatcherLocked kc.1 kc.2 s) l s.

(** [applyConfigs], under its lock: the watchers it cancels, by key. *)
Definition apply_locked (configs : list config) (s : supervisor) : list string * supervisor :=
  let desired := wanted configs in
  let kept := filter (λ kc : string * config, desired !! kc.1 = Some kc.2) (stopped s) in
  let desired := filter (λ kc : string * config, kept !! kc.1 = None) desired in
  let stopping := filter (λ kw : string * watcher, desired !! kw.1 = None) (watchers s) in
  let running := map_imap (λ k w, match desired !! k with Some c => Some (Watcher (w_id w) c) | None => None end) (watchers s) in
  let fresh := filter (λ kc : string * config, watchers s !! kc.1 = None) desired in
  (fst <$> map_to_list stopping, start_all (map_to_list fresh) (Supervisor running kept (healths s) (dialLogs s) (next_id s))).

(** And after it, when the cancelled watchers are done. *)
Definition applyConfigs (configs : list config) (s : supervisor) : supervisor :=
  let '(keys, s) := apply_locked configs s in fold_left (λ s key, clearHealth key s) keys s.

(** [watcherDone]: the watcher [id] ended; [stop] is the configuration and message
    of a permanent error. *)
Definition watcherDone (key : string) (id : nat) (stop : option (config * string)) (s : supervisor) : supervisor :=
  match watchers s !! key with
  | Some w =>
      if negb (w_id w =? id)%nat then s
      else
        let s := Supervisor (delete key (watchers s)) (stopped s) (healths s) (dialLogs s) (next_id s) in
        match stop with
        | None => s
        | Some (c, message) =>
            if negb (bool_decide (w_config w = c)) then startWatcherLocked key (w_config w) s
            else recordHealth (c_Namespace c) (c_Device c) "dial" (Some message) (Supervisor (watchers s) (<[key := c]> (stopped s)) (healths s) (dialLogs s) (next_id s))
        end
  | None => s
  end.

Lemma start_all_spec l s : NoDup l.*1 → (∀ k, k ∈ l.*1 → watchers s !! k = None) → ∀ k,
  w_config <$> watchers (start_all l s) !! k = match (list_to_map l : gmap string config) !! k with Some c => Some c | None => w_config <$> watchers s !! k end.
Proof.
  revert s. induction l as [|[k0 c0] l IH]; intros s N F k; [done|]. simpl in N. apply NoDup_cons in N as [N0 N].
  change (start_all ((k0, c0) :: l) s) with (start_all l (startWatcherLocked k0 c0 s)).
  assert (watchers (startWatcherLocked k0 c0 s) = <[k0 := Watcher (next_id s) c0]> (watchers s)) as W by done.
  rewrite IH; [|done|].
  - rewrite list_to_map_cons, W. destruct (decide (k = k0)) as [->|D].
    + rewrite !lookup_insert_eq. rewrite not_elem_of_list_to_map_1 by done. done.
    + by rewrite !lookup_insert_ne by done.
  - intros k' Hk. rewrite W, lookup_insert_ne by (intros ->; done). apply F. by right.
Qed.

Lemma start_all_stopped l s : stopped (start_all l s) = stopped s.
Proof. revert s. induction l as [|x l IH]; intros s; [done|]. simpl. by rewrite IH. Qed.

Lemma clear_all l s : watchers (fold_left (λ s key, clearHealth key s) l s) = watchers s ∧ stopped (fold_left (λ s key, clearHealth key s) l s) = stopped s.
Proof. revert s. induction l as [|k l IH]; intros s; [done|]. simpl. by destruct (IH (clearHealth k s)) as [-> ->]. Qed.

(** After a reconciliation exactly the wanted devices are watched, each with its
    newest configuration, but for those whose watcher gave up on this very
    configuration: a timer does not start these again. *)
Lemma applyConfigs_watches configs s k :
  let gave_up := stopped (applyConfigs configs s) !! k in
  gave_up = (if decide (wanted configs !! k = stopped s !! k) then stopped s !! k else None) ∧
  w_config <$> watchers (applyConfigs configs s) !! k = match gave_up with Some _ => None | None => wanted configs !! k end.
Proof.
  unfold applyConfigs, apply_locked. set (desired := wanted configs). set (kept := filter _ (stopped s)). set (d2 := filter _ desired).
  set (fresh := filter _ d2). set (s0 := Supervisor _ _ _ _ _).
  match goal with |- context [fold_left _ ?l ?x] => destruct (clear_all l x) as [-> ->] end. rewrite start_all_stopped. simpl.
  assert (kept !! k = (if decide (desired !! k = stopped s !! k) then stopped s !! k else None)) as Kk.
  { subst kept. destruct (stopped s !! k) as [c|] eqn:E.
    - destruct (decide _) as [D|D]; [by apply map_lookup_filter_Some_2|]. apply map_lookup_filter_None. right. intros x E' P. simpl in P. congruence.
    - destruct (decide _); apply map_lookup_filter_None; by left. }
  split; [done|]. rewrite start_all_spec.
  - rewrite list_to_map_to_list. subst s0. simpl.
    assert (d2 !! k = match kept !! k with Some _ => None | None => desired !! k end) as Dk.
    { subst d2. destruct (kept !! k) eqn:E; [apply map_lookup_filter_None; right; intros x _ P; simpl in P; congruence|].
      destruct (desired !! k) eqn:E'; [by apply map_lookup_filter_Some_2|apply map_lookup_filter_None; by left]. }
    destruct (fresh !! k) as [c|] eqn:F.
    + subst fresh. apply map_lookup_filter_Some in F as [F _]. rewrite Dk in F. by destruct (kept !! k).
    + rewrite map_lookup_imap. destruct (watchers s !! k) as [w|] eqn:W; simpl.
      * rewrite Dk. destruct (kept !! k); [done|]. by destruct (desired !! k).
      * destruct (match kept !! k with Some _ => None | None => desired !! k end) as [c|] eqn:M; [|by destruct (kept !! k)].
        apply map_lookup_filter_None in F as [F|F]; [rewrite Dk in F; congruence|]. by destruct (F c Dk).
  - apply NoDup_fst_map_to_list.
  - intros k' Hk. apply list_elem_of_fmap in Hk as ([k2 c] & -> & Hk%elem_of_map_to_list). subst fresh s0. simpl. apply map_lookup_filter_Some in Hk as [_ Hk]. simpl in *.
    by rewrite map_lookup_imap, Hk.
Qed.

(** No device is both watched and given up on. *)
Definition either (s : supervisor) : Prop := ∀ k, watchers s !! k = None ∨ stopped s !! k = None.

Lemma recordHealth_either ns device kind e s : either s → either (recordHealth ns device kind e s).
Proof. intros E. unfold recordHealth. by destruct (_ && _). Qed.

Lemma applyConfigs_either configs s : either (applyConfigs configs s).
Proof.
  intros k. destruct (applyConfigs_watches configs s k) as [_ W]. destruct (stopped (applyConfigs configs s) !! k); [|by right]. left.
  by destruct (watchers (applyConfigs configs s) !! k).
Qed.

Lemma watcherDone_either key id stop s : either s → either (watcherDone key id stop s).
Proof.
  intros E. unfold watcherDone. destruct (watchers s !! key) as [w|] eqn:W; [|done]. destruct (negb _); [done|].
  assert (stopped s !! key = None) as St by (destruct (E key); [congruence|done]).
  destruct stop as [[c m]|].
  - destruct (negb _); [|apply recordHealth_either]; intros k; simpl; (destruct (decide (k = key)) as [->|D]; [rewrite ?lookup_delete_eq; auto|rewrite ?lookup_insert_ne, ?lookup_delete_ne by done; apply E]).
  - intros k. simpl. destruct (decide (k = key)) as [->|D]; [rewrite lookup_delete_eq; by left|rewrite lookup_delete_ne by done; apply E].
Qed.

End Watchers.

(** ** Evaluations *)

Module Demo.

Definition view : pendingView := PendingView "p1" KindExec "uptime" "" "/home" "fp" 0.
Definition card_sent : list event :=
  [Arrive 0 (Some "n1"%string) "alice" "box" "a@x" (OfPending view) larkApprovalWait; Move 0 (World (Some ("m1"%string, "chat"%string)) false None second);
   Move 0 (World None false None second); Move 0 (World None false None second)].
Definition press (event : string) (chat : string) : cardAction := CardAction "y" "n1" "ou_1" chat "m1" event.
Definition answered (reply : rpc_reply) : list event :=
  [Press (2 * second) (press "e1" "chat"); Move 0 (World None false None 0); Move 0 (World None false None 0); Move 0 (World None true (Some reply) (3 * second)); Move 0 (World None false None 0); Move 0 (World None false None 0)].

(** Pressed from another chat, then twice from its own. *)
Lemma callback_decides_once_witness :
  (∃ s, happen_all (card_sent ++ [Press second (press "e0" "elsewhere")] ++ answered (DecideReply "ok") ++ [Press (4 * second) (press "e2" "chat")]) newLark = s ∧
    omap told_nonce (lk_history s) = ["n1"%string] ∧ NoDup (omap told_nonce (lk_history s)) ∧
    warranted (lk_history s) "n1" "alice" "box" (DecideRequest "p1" "y" "lark:a@x")).
Proof.
  eexists. split; [reflexivity|]. split; [vm_compute; reflexivity|].
  match goal with |- NoDup (omap told_nonce (lk_history (happen_all ?es newLark))) ∧ _ => destruct (callback_decides_once _ (happen_all_at_work es)) as (N & W & _) end.
  split; [exact N|]. apply W. vm_compute. do 3 right. left.
Defined.

Definition words (s : lark_state) : list wording := omap (λ a, match a with Updated _ _ w => Some w | _ => None end) (lk_history s).

(** [decide] does not look at the device's verdict: a request that was already
    gone is reported as allowed. *)
Lemma gone_reported_allowed :
  words (happen_all (card_sent ++ answered (DecideReply "not-found")) newLark) = [CardSettled OutcomeAllowed "lark:a@x"].
Proof. vm_compute. reflexivity. Qed.

(** A watcher that learns of the end of a request after the callback has forgotten
    its record overwrites the result with the generic text. *)
Lemma result_overwritten :
  words (happen_all (card_sent ++ answered (DecideReply "ok") ++ [Vanish "n1"; Move 0 (World None false None 0)]) newLark) =
  [CardSettled OutcomeAllowed "lark:a@x"; CardEnded].
Proof. vm_compute. reflexivity. Qed.

End Demo.
