(* ===== verification/Logs.v ===== *)
(** What the program writes down, and how much of it: the event log of a device
    ([internal/eventlog/eventlog.go]) as Module [EventLog], the log a server
    keeps in memory ([internal/serverlog/serverlog.go]) as [ServerLog], and the
    output of a command kept in a file beside it ([internal/server/spill.go]) as
    [Spill].  JSON and the regular expressions that redact are parameters; every
    file operation that writes may fail. *)

From stdpp Require Import sorting.
From S2P Require Import Prelude GoStrings GoUtf8 Gate.

Local Open Scope Z_scope.

(** ** Files that rotate *)

Module EventLog.

Definition defaultMaxBytes : Z := Z.shiftl 1 20.
Definition defaultBackupCount : nat := 3.
Definition maxDetailBytes : nat := 64 * 1024.
Definition maxContextBytes : nat := 8 * 1024.
Definition truncatedMarker : string := "...[TRUNCATED]".
Definition maxLine : Z := 4 * Z.shiftl 1 20.

Definition truncateText (s : string) (max : nat) : string :=
  if (slen s <=? max)%nat then s
  else let cut := stake (max - slen truncatedMarker) s in (valid_utf8_fuel (slen cut) cut ++ truncatedMarker)%string.

(** [Event], without the fields only other programs read. *)
Record event := Event { e_Ts : Z; e_Type : string; e_PeerFP : string; e_PeerName : string; e_Detail : string; e_Cwd : string; e_Decision : string }.

Record filter := Filter { f_Since : Z; f_Type : string; f_Grep : string; f_Limit : Z }.

(** A segment is the list of its lines, without their newlines; segment 0 is the
    file itself and segment [i] its [i]th backup. *)
Abbreviation files := (gmap nat (list string)).

Definition size (l : list string) : Z := sum_Z (λ line, zlen line + 1) l.
Definition at_path (i : nat) (fs : files) : list string := default [] (fs !! i).

(** What the operating system does not do. *)
Inductive op := OpStat | OpRemove (i : nat) | OpRename (i : nat) | OpOpen | OpWrite.
#[export] Instance op_eq_dec : EqDecision op.
Proof. solve_decision. Defined.

Section log.
Context (maxBytes : Z) (backupCount : nat) (RedactText : string → string) (marshal : event → string) (unmarshal : string → option event).

Definition redactEvent (e : event) : event :=
  Event (e_Ts e) (e_Type e) (e_PeerFP e) (truncateText (RedactText (e_PeerName e)) maxContextBytes)
    (truncateText (RedactText (e_Detail e)) maxDetailBytes) (truncateText (RedactText (e_Cwd e)) maxContextBytes) (e_Decision e).

(** [os.Rename] onto a name replaces what is there. *)
Definition rename (i j : nat) (fs : files) : files := match fs !! i with Some l => <[j := l]> (delete i fs) | None => fs end.

(** The loop of [rotateIfNeeded], from segment [i] down. *)
Fixpoint shift (fails : op → bool) (i : nat) (fs : files) : result op () * files :=
  match i with
  | O => (Ok (), fs)
  | S k =>
      if fails (OpRemove (S i)) then (Err (OpRemove (S i)), fs)
      else
        let fs := delete (S i) fs in
        if fails (OpRename i) then (Err (OpRename i), fs) else shift fails k (rename i (S i) fs)
  end.

Definition rotateIfNeeded (fails : op → bool) (incoming : Z) (fs : files) : result op () * files :=
  if maxBytes <=? 0 then (Ok (), fs)
  else if fails OpStat then (Err OpStat, fs)
  else
    match fs !! 0%nat with
    | None => (Ok (), fs)
    | Some l =>
        if (size l =? 0) || (size l + incoming <=? maxBytes) then (Ok (), fs)
        else if (backupCount =? 0)%nat then (if fails (OpRemove 0) then (Err (OpRemove 0), fs) else (Ok (), delete 0%nat fs))
        else if fails (OpRemove backupCount) then (Err (OpRemove backupCount), fs)
        else
          match shift fails (backupCount - 1) (delete backupCount fs) with
          | (Err e, fs) => (Err e, fs)
          | (Ok _, fs) => if fails (OpRename 0) then (Err (OpRename 0), fs) else (Ok (), rename 0 1 fs)
          end
    end.

(** [Append], of an event that has its time; a write that fails writes nothing. *)
Definition Append (fails : op → bool) (now : Z) (e : event) (fs : files) : result op () * files :=
  let e := if is_zero (e_Ts e) then Event now (e_Type e) (e_PeerFP e) (e_PeerName e) (e_Detail e) (e_Cwd e) (e_Decision e) else e in
  let line := marshal (redactEvent e) in
  match rotateIfNeeded fails (zlen line + 1) fs with
  | (Err x, fs) => (Err x, fs)
  | (Ok _, fs) =>
      if fails OpOpen then (Err OpOpen, fs)
      else if fails OpWrite then (Err OpWrite, <[0%nat := at_path 0 fs]> fs)
      else (Ok (), <[0%nat := at_path 0 fs ++ [line]]> fs)
  end.

Definition line_of (now : Z) (e : event) : string :=
  marshal (redactEvent (if is_zero (e_Ts e) then Event now (e_Type e) (e_PeerFP e) (e_PeerName e) (e_Detail e) (e_Cwd e) (e_Decision e) else e)).

(** Every segment up to [n], oldest first: the order [Read] takes. *)
Fixpoint contents (n : nat) (fs : files) : list string := match n with O => at_path 0 fs | S k => at_path n fs ++ contents k fs end.

Definition keep (f : filter) (e : event) : bool :=
  (is_zero (f_Since f) || negb (e_Ts e <? f_Since f)) && (String.eqb (f_Type f) "" || String.eqb (e_Type e) (f_Type f)) &&
  (String.eqb (f_Grep f) "" || contains (e_Detail e) (f_Grep f)).

Definition last_n {A} (n : Z) (l : list A) : list A := if (0 <? n) && (n <? Z.of_nat (length l)) then drop (length l - Z.to_nat n) l else l.

(** The scanner: lines as far as they fit its buffer. *)
Fixpoint scan (f : filter) (lines : list string) : list event * bool :=
  match lines with
  | [] => ([], true)
  | line :: lines =>
      if maxLine <=? zlen line then ([], false)
      else let '(l, ok) := scan f lines in (match unmarshal line with Some e => if keep f e then e :: l else l | None => l end, ok)
  end.

(** [Read], of segments that open: what it returns, and whether without an error. *)
Definition Read (f : filter) (fs : files) : list event * bool :=
  let '(l, ok) := scan f (contents backupCount fs) in if ok then (last_n (f_Limit f) l, true) else (l, false).

(** *** What rotation keeps *)

Lemma contents_ext n fs fs' : (∀ i, (i ≤ n)%nat → at_path i fs = at_path i fs') → contents n fs = contents n fs'.
Proof. induction n as [|n IH]; intros E; simpl; [by apply E|]. rewrite (E (S n)) by lia. f_equal. apply IH. intros i L. apply E. lia. Qed.

Lemma rename_at i j fs k : i ≠ j → fs !! j = None → at_path k (rename i j fs) = (if decide (k = i) then [] else if decide (k = j) then at_path i fs else at_path k fs).
Proof.
  intros N E. unfold rename, at_path. destruct (fs !! i) as [l|] eqn:Ei.
  - destruct (decide (k = j)) as [->|Dj]; [rewrite lookup_insert_eq, decide_False by congruence; done|]. rewrite lookup_insert_ne by congruence.
    destruct (decide (k = i)) as [->|Di]; [by rewrite lookup_delete_eq|by rewrite lookup_delete_ne by congruence].
  - repeat destruct (decide _); subst; rewrite ?Ei, ?E; done.
Qed.

(** Moving a segment to the free place above it moves no line. *)
Lemma contents_rename i fs : fs !! (S i) = None → ∀ n, (i < n)%nat → contents n (rename i (S i) fs) = contents n fs.
Proof.
  intros E. induction n as [|n IH]; intros L; [lia|]. destruct (decide (i = n)) as [->|D].
  - simpl. rewrite rename_at by (done || lia). destruct (decide (S n = n)); [lia|]. rewrite decide_True by done.
    assert (at_path (S n) fs = []) as -> by (unfold at_path; by rewrite E). simpl. destruct n as [|m]; simpl; rewrite !rename_at by (done || lia).
    + rewrite decide_True by done. by rewrite app_nil_r.
    + rewrite decide_True by done. simpl. f_equal. apply contents_ext. intros k K. rewrite rename_at by (done || lia). by rewrite !decide_False by lia.
  - simpl. rewrite rename_at by (done || lia). rewrite !decide_False by lia. f_equal. apply IH. lia.
Qed.

Lemma rename_free i j fs : i ≠ j → rename i j fs !! i = None.
Proof. intros N. unfold rename. destruct (fs !! i) eqn:E; [by rewrite lookup_insert_ne, lookup_delete_eq by congruence|done]. Qed.

Lemma shift_contents fails n i fs r fs' : (S i ≤ n)%nat → fs !! (S i) = None → shift fails i fs = (r, fs') →
  contents n fs' = contents n fs ∧ (r = Ok () → fs' !! 1%nat = None).
Proof.
  revert fs. induction i as [|i IH]; intros fs L E; [simpl; by intros [= <- <-]|]. simpl.
  assert (delete (S (S i)) fs = fs) as -> by (by apply delete_id).
  destruct (fails _); [by intros [= <- <-]|]. destruct (fails _); [by intros [= <- <-]|].
  intros H. destruct (IH _ ltac:(lia) (rename_free (S i) (S (S i)) fs ltac:(lia)) H) as [C F]. split; [|done].
  rewrite C. apply contents_rename; [done|lia].
Qed.

Lemma suffix_delete n fs : contents n (delete n fs) `suffix_of` contents n fs.
Proof.
  destruct n as [|n]; simpl; [exists (at_path 0 fs); unfold at_path; by rewrite lookup_delete_eq, app_nil_r|].
  exists (at_path (S n) fs). f_equal. unfold at_path at 1. rewrite lookup_delete_eq. simpl. apply contents_ext. intros i L. unfold at_path. by rewrite lookup_delete_ne by lia.
Qed.

Lemma rotate_suffix fails incoming fs : contents backupCount (rotateIfNeeded fails incoming fs).2 `suffix_of` contents backupCount fs.
Proof.
  unfold rotateIfNeeded. destruct (_ <=? 0); [done|]. destruct (fails OpStat); [done|]. destruct (fs !! 0%nat) as [l|] eqn:E; [|done]. destruct (_ || _); [done|].
  destruct (Nat.eqb_spec backupCount 0) as [Z|Z]; [destruct (fails _); [done|]; rewrite Z; apply suffix_delete|]. destruct (fails _); [done|].
  pose proof (suffix_delete backupCount fs) as Sf. destruct (shift _ _ _) as [r fs'] eqn:Sh.
  assert (delete backupCount fs !! S (backupCount - 1) = None) as Fr by (replace (S (backupCount - 1)) with backupCount by lia; apply lookup_delete_eq).
  destruct (shift_contents fails backupCount (backupCount - 1) _ _ _ ltac:(lia) Fr Sh) as [C F]. destruct r as [[]|]; simpl; [|by rewrite C].
  destruct (fails _); simpl; [by rewrite C|]. rewrite contents_rename, C by (auto; lia). done.
Qed.

Lemma contents_append line fs n : contents n (<[0%nat := at_path 0 fs ++ [line]]> fs) = contents n fs ++ [line].
Proof.
  induction n as [|n IH]; simpl; [unfold at_path; by rewrite lookup_insert_eq|]. rewrite IH, app_assoc. f_equal. f_equal. unfold at_path. by rewrite lookup_insert_ne.
Qed.

(** An append loses lines only from the old end, and one that succeeds puts its
    line at the new end. *)
Lemma Append_contents fails now e fs :
  contents backupCount (Append fails now e fs).2 `suffix_of` contents backupCount fs ++ (if is_ok (Append fails now e fs).1 then [line_of now e] else []).
Proof.
  unfold Append. fold (line_of now e). pose proof (rotate_suffix fails (zlen (line_of now e) + 1) fs) as R.
  destruct (rotateIfNeeded _ _ _) as [[[]|x] fs']; simpl in *; [|by rewrite app_nil_r].
  destruct (fails OpOpen); simpl; [by rewrite app_nil_r|]. destruct (fails OpWrite); simpl.
  - rewrite app_nil_r. etrans; [|exact R]. exists []. simpl. apply contents_ext. intros i _. unfold at_path. destruct (decide (i = 0%nat)) as [->|]; [by rewrite lookup_insert_eq|by rewrite lookup_insert_ne].
  - rewrite contents_append. destruct R as [k ->]. exists k. by rewrite app_assoc.
Qed.

(** A log as it grows: appends, whatever fails in them. *)
Fixpoint appends (l : list ((op → bool) * Z * event)) (fs : files) : list string * files :=
  match l with
  | [] => ([], fs)
  | (fails, now, e) :: l =>
      let '(r, fs) := Append fails now e fs in
      let '(lines, fs) := appends l fs in ((if is_ok r then [line_of now e] else []) ++ lines, fs)
  end.

Lemma log_keeps_newest l fs : contents backupCount (appends l fs).2 `suffix_of` contents backupCount fs ++ (appends l fs).1.
Proof.
  revert fs. induction l as [|[[fails now] e] l IH]; intros fs; simpl; [by rewrite app_nil_r|].
  pose proof (Append_contents fails now e fs) as A. destruct (Append fails now e fs) as [r fs1]. specialize (IH fs1). destruct (appends l fs1) as [lines fs2]. simpl in *.
  etrans; [exact IH|]. destruct A as [k A]. exists k. by rewrite app_assoc, A, <- app_assoc.
Qed.

(** No segment outgrows the limit by more than the one line it began with. *)
Definition fits (l : list string) : Prop := size l ≤ maxBytes ∨ (length l ≤ 1)%nat.
Definition all_fit (fs : files) : Prop := ∀ i, fits (at_path i fs).

Lemma rename_fits i j fs : all_fit fs → all_fit (rename i j fs).
Proof.
  intros A k. unfold rename, at_path. destruct (fs !! i) as [l|] eqn:E; [|apply A]. specialize (A i) as Ai. unfold at_path in Ai. rewrite E in Ai.
  destruct (decide (k = j)) as [->|]; [by rewrite lookup_insert_eq|]. rewrite lookup_insert_ne by done.
  destruct (decide (k = i)) as [->|]; [rewrite lookup_delete_eq; right; simpl; lia|rewrite lookup_delete_ne by done; apply A].
Qed.

Lemma delete_fits i fs : all_fit fs → all_fit (delete i fs).
Proof. intros A k. unfold at_path. destruct (decide (k = i)) as [->|]; [rewrite lookup_delete_eq; right; simpl; lia|rewrite lookup_delete_ne by done; apply A]. Qed.

Lemma shift_fits fails i fs : all_fit fs → all_fit (shift fails i fs).2.
Proof.
  revert fs. induction i as [|i IH]; intros fs A; [done|]. simpl. destruct (fails _); [done|]. destruct (fails _); [by apply delete_fits|]. apply IH, rename_fits, delete_fits, A.
Qed.

Lemma rotate_fits fails incoming fs : 0 < maxBytes → all_fit fs →
  all_fit (rotateIfNeeded fails incoming fs).2 ∧
  ((rotateIfNeeded fails incoming fs).1 = Ok () → size (at_path 0 (rotateIfNeeded fails incoming fs).2) = 0 ∨ size (at_path 0 (rotateIfNeeded fails incoming fs).2) + incoming ≤ maxBytes).
Proof.
  intros P A. unfold rotateIfNeeded. destruct (Z.leb_spec maxBytes 0); [lia|]. destruct (fails OpStat); [done|]. destruct (fs !! 0%nat) as [l|] eqn:E.
  - destruct (_ || _) eqn:F; [split; [done|]; intros _; unfold at_path; simpl; rewrite E; simpl; apply orb_true_iff in F as [F|F]; bsplit; auto|].
    destruct (_ =? 0)%nat; [destruct (fails _); [done|]; split; [by apply delete_fits|]; intros _; left; unfold at_path; simpl; by rewrite lookup_delete_eq|].
    destruct (fails _); [done|]. pose proof (shift_fits fails (backupCount - 1) _ (delete_fits backupCount _ A)) as As. destruct (shift _ _ _) as [[[]|x] fs']; simpl in *; [|done].
    destruct (fails _); simpl; [done|]. split; [by apply rename_fits|]. intros _. left. unfold at_path. by rewrite rename_free.
  - split; [done|]. intros _. left. unfold at_path. simpl. by rewrite E.
Qed.

Lemma size_nil l : size l = 0 → l = [].
Proof. destruct l as [|x l]; [done|]. unfold size. simpl. pose proof (zlen_nonneg x). pose proof (sum_Z_nonneg (λ line, zlen line + 1) l (λ y, ltac:(pose proof (zlen_nonneg y); lia))). lia. Qed.

(** Nor do the segments together: [Append] keeps every one of them within the
    limit. *)
Lemma Append_fits fails now e fs : 0 < maxBytes → all_fit fs → all_fit (Append fails now e fs).2.
Proof.
  intros P A. unfold Append. fold (line_of now e). destruct (rotate_fits fails (zlen (line_of now e) + 1) fs P A) as [R Rs].
  destruct (rotateIfNeeded _ _ _) as [[[]|x] fs']; simpl in *; [|done]. destruct (fails OpOpen); [done|]. destruct (fails OpWrite); simpl.
  - intros k. unfold at_path. destruct (decide (k = 0%nat)) as [->|]; [rewrite lookup_insert_eq; apply (R 0%nat)|rewrite lookup_insert_ne by done; apply R].
  - intros k. unfold at_path at 1. destruct (decide (k = 0%nat)) as [->|]; [rewrite lookup_insert_eq|rewrite lookup_insert_ne by done; apply R]. simpl.
    destruct (Rs eq_refl) as [Z|Z]; [right; rewrite (size_nil _ Z); simpl; lia|]. left. unfold size in *. rewrite sum_Z_app. simpl. lia.
Qed.

(** Reading: without a line too long for the scanner, the newest events that
    match. *)
Lemma scan_all f lines : (∀ line, line ∈ lines → zlen line < maxLine) → scan f lines = (List.filter (keep f) (omap unmarshal lines), true).
Proof.
  induction lines as [|x lines IH]; intros B; [done|]. simpl. specialize (B x ltac:(left)) as Bx. destruct (Z.leb_spec maxLine (zlen x)); [lia|].
  rewrite IH by (intros y Hy; apply B; by right). destruct (unmarshal x); done.
Qed.

Lemma Read_newest f fs : (∀ line, line ∈ contents backupCount fs → zlen line < maxLine) →
  Read f fs = (last_n (f_Limit f) (List.filter (keep f) (omap unmarshal (contents backupCount fs))), true).
Proof. intros B. unfold Read. by rewrite scan_all. Qed.
End log.
End EventLog.

(** ** The log in memory *)

Module ServerLog.

Definition DefaultMaxLines : Z := 2000.
Definition DefaultMaxBytes : Z := 2 * Z.shiftl 1 20.
Definition DefaultLimit : Z := 200.
Definition MaxLimit : Z := 2000.
Definition DefaultSince : Z := 15 * minute.

Record entry := Entry { at_ : Z; line : string }.

Record buffer := Buffer { entries : list entry; bytes : Z; maxLines : Z; maxBytes : Z; pending : string; droppedThrough : Z }.

Definition New (maxLines maxBytes : Z) : buffer := Buffer [] 0 maxLines maxBytes "" 0.
Definition NewDefault : buffer := New DefaultMaxLines DefaultMaxBytes.

(** The last [n] bytes. *)
Definition tail_bytes (n : Z) (s : string) : string := if n <? zlen s then sdrop (slen s - Z.to_nat n) s else s.

(** The loop of [appendLocked]. *)
Fixpoint drop_front (maxLines maxBytes : Z) (l : list entry) (bytes dropped : Z) : list entry * Z * Z :=
  match l with
  | [] => ([], bytes, dropped)
  | e :: rest =>
      if (maxLines <? Z.of_nat (length l)) || (maxBytes <? bytes) then drop_front maxLines maxBytes rest (bytes - zlen (line e)) (at_ e) else (l, bytes, dropped)
  end.

Definition appendLocked (t : Z) (text : string) (b : buffer) : buffer :=
  if (maxLines b <=? 0) || (maxBytes b <=? 0) then b
  else
    let text := tail_bytes (maxBytes b) text in
    let '(l, n, d) := drop_front (maxLines b) (maxBytes b) (entries b ++ [Entry t text]) (bytes b + zlen text) (droppedThrough b) in
    Buffer l n (maxLines b) (maxBytes b) (pending b) d.

Definition with_pending (s : string) (b : buffer) : buffer := Buffer (entries b) (bytes b) (maxLines b) (maxBytes b) s (droppedThrough b).

Definition return_char : ascii := "013".
Definition newline_char : ascii := "010".

(** [strings.TrimSuffix(s, "\r")] and [strings.TrimRight(s, "\r\n")]. *)
Definition trim_return (s : string) : string := if has_suffix s (String return_char "") then stake (slen s - 1) s else s.
Fixpoint trim_line_end (s : string) : string :=
  match s with
  | EmptyString => ""
  | String c s => match trim_line_end s with
                  | EmptyString => if Ascii.eqb c return_char || Ascii.eqb c newline_char then EmptyString else String c EmptyString
                  | s => String c s
                  end
  end.

(** The loop of [Write]: one turn per newline, of which there are at most as many
    as bytes; [now k] is the clock at the [k]th line. *)
Fixpoint take_lines (fuel : nat) (now : nat → Z) (b : buffer) : buffer :=
  match fuel with
  | O => b
  | S fuel =>
      match cut_at newline_char (pending b) with
      | None => b
      | Some (l, rest) => take_lines fuel (λ k, now (S k)) (appendLocked (now 0%nat) (trim_return l) (with_pending rest b))
      end
  end.

Definition Write (now : nat → Z) (p : string) (b : buffer) : buffer :=
  let s := tail_bytes (maxBytes b) (pending b ++ p) in take_lines (slen s) now (with_pending s b).

Definition AppendAt (t : Z) (text : string) (b : buffer) : buffer := appendLocked t (trim_line_end text) b.

Record query := Query { q_Since : Z; q_Limit : Z; q_Grep : string }.

(** [ParseQuery]: what the parameters [since] and [limit] parse to, [None] when
    they are absent, [Some None] when they do not. *)
Definition ParseQuery (since limit : option (option Z)) (grep : string) : option query :=
  match since, limit with
  | Some None, _ | _, Some None => None
  | _, _ =>
      let d := match since with Some (Some d) => d | _ => DefaultSince end in
      let n := match limit with Some (Some n) => n | _ => DefaultLimit end in
      if (d <? 0) || (n <? 1) then None else Some (Query d (if MaxLimit <? n then MaxLimit else n) grep)
  end.

Section read.
Context (Redact : string → string).

Definition limit_of (q : query) : Z := let n := if q_Limit q <? 1 then DefaultLimit else q_Limit q in if MaxLimit <? n then MaxLimit else n.

(** The lines a query is about. *)
Definition matching (now : Z) (q : query) (l : list entry) : list string :=
  omap (λ e, if at_ e <? now - q_Since q then None
             else let s := Redact (line e) in if negb (String.eqb (q_Grep q) "") && negb (contains s (q_Grep q)) then None else Some s) l.

Definition Read (now : Z) (q : query) (b : buffer) : list string * bool :=
  let l := matching now q (entries b) in
  let truncated := negb (is_zero (droppedThrough b)) && negb (droppedThrough b <? now - q_Since q) in
  if limit_of q <? Z.of_nat (length l) then (drop (length l - Z.to_nat (limit_of q)) l, true) else (l, truncated).
End read.

(** *** Its bounds, and what it says it left out *)

(** [h] is every line the buffer was given, as it keeps it. *)
Record buffer_ok (h : list entry) (b : buffer) : Prop := {
  bo_bytes : bytes b = sum_Z (λ e, zlen (line e)) (entries b);
  bo_lines : Z.of_nat (length (entries b)) ≤ Z.max 0 (maxLines b);
  bo_size : bytes b ≤ Z.max 0 (maxBytes b);
  bo_suffix : ∃ gone, h = gone ++ entries b ∧ droppedThrough b = match last gone with Some e => at_ e | None => 0 end }.

Lemma tail_bytes_size n s : 0 ≤ n → zlen (tail_bytes n s) ≤ n.
Proof. intros P. unfold tail_bytes. destruct (Z.ltb_spec n (zlen s)); unfold zlen in *; [rewrite slen_sdrop|]; lia. Qed.

Lemma drop_front_spec mL mB l n d h :
  0 ≤ mL → 0 ≤ mB → n = sum_Z (λ e, zlen (line e)) l → (∃ gone, h = gone ++ l ∧ d = match last gone with Some e => at_ e | None => 0 end) →
  let '(l', n', d') := drop_front mL mB l n d in
  n' = sum_Z (λ e, zlen (line e)) l' ∧ Z.of_nat (length l') ≤ mL ∧ n' ≤ mB ∧ ∃ gone, h = gone ++ l' ∧ d' = match last gone with Some e => at_ e | None => 0 end.
Proof.
  intros PL PB. revert n d. induction l as [|e l IH]; intros n d N G; simpl; [subst; simpl; split_and!; done|].
  destruct (_ || _) eqn:C.
  - apply IH; [subst; simpl; lia|]. destruct G as (gone & -> & _). exists (gone ++ [e]). split; [by rewrite <- app_assoc|]. by rewrite last_snoc.
  - bsplit. simpl length in *. split_and!; try done; lia.
Qed.

Definition given (b : buffer) (t : Z) (text : string) : list entry :=
  if (maxLines b <=? 0) || (maxBytes b <=? 0) then [] else [Entry t (tail_bytes (maxBytes b) text)].

Lemma appendLocked_ok h b t text : buffer_ok h b → buffer_ok (h ++ given b t text) (appendLocked t text b).
Proof.
  intros [B1 B2 B3 (gone & B4 & B5)]. unfold appendLocked, given. destruct (_ || _) eqn:C; [rewrite app_nil_r; split; eauto|]. bsplit.
  pose proof (drop_front_spec (maxLines b) (maxBytes b) (entries b ++ [Entry t (tail_bytes (maxBytes b) text)]) (bytes b + zlen (tail_bytes (maxBytes b) text)) (droppedThrough b)
    (h ++ [Entry t (tail_bytes (maxBytes b) text)]) ltac:(lia) ltac:(lia)) as D.
  destruct (drop_front _ _ _ _ _) as [[l n] d]. destruct D as (D1 & D2 & D3 & D4).
  - rewrite sum_Z_app, B1. simpl. lia.
  - exists gone. split; [by rewrite B4, app_assoc|done].
  - split; simpl; try done; lia.
Qed.

Lemma appendLocked_limits t text b : maxLines (appendLocked t text b) = maxLines b ∧ maxBytes (appendLocked t text b) = maxBytes b ∧ pending (appendLocked t text b) = pending b.
Proof. unfold appendLocked. destruct (_ || _); [done|]. by destruct (drop_front _ _ _ _ _) as [[l n] d]. Qed.

(** What waits for its newline is bounded like the lines. *)
Lemma take_lines_ok fuel now h b : buffer_ok h b → zlen (pending b) ≤ Z.max 0 (maxBytes b) →
  ∃ more, buffer_ok (h ++ more) (take_lines fuel now b) ∧ zlen (pending (take_lines fuel now b)) ≤ Z.max 0 (maxBytes (take_lines fuel now b)).
Proof.
  revert now h b. induction fuel as [|fuel IH]; intros now h b B P; simpl; [exists []; by rewrite app_nil_r|].
  destruct (cut_at _ _) as [[l rest]|] eqn:C; [|exists []; by rewrite app_nil_r].
  set (b1 := appendLocked _ _ _). assert (buffer_ok (h ++ given (with_pending rest b) (now 0%nat) (trim_return l)) b1) as B1 by (apply appendLocked_ok; by destruct B).
  destruct (appendLocked_limits (now 0%nat) (trim_return l) (with_pending rest b)) as (_ & L2 & L3).
  destruct (IH (λ k, now (S k)) _ b1 B1) as (more & K1 & K2).
  - subst b1. rewrite L2, L3. simpl. apply cut_at_Some in C. rewrite C, zlen_app, zlen_cons in P. pose proof (zlen_nonneg l). lia.
  - exists (given (with_pending rest b) (now 0%nat) (trim_return l) ++ more). by rewrite app_assoc.
Qed.

Lemma Write_ok now p h b : buffer_ok h b → ∃ more, buffer_ok (h ++ more) (Write now p b) ∧ zlen (pending (Write now p b)) ≤ Z.max 0 (maxBytes (Write now p b)).
Proof.
  intros B. unfold Write. apply take_lines_ok; [by destruct B|]. simpl. destruct (Z.leb_spec 0 (maxBytes b)).
  - pose proof (tail_bytes_size (maxBytes b) (pending b ++ p)). lia.
  - unfold tail_bytes. pose proof (zlen_nonneg (pending b ++ p)). destruct (Z.ltb_spec (maxBytes b) (zlen (pending b ++ p))); [|lia].
    unfold zlen. rewrite slen_sdrop. replace (Z.to_nat (maxBytes b)) with 0%nat by lia. lia.
Qed.

(** The fuel of [Write] takes every line there is. *)
Lemma take_lines_drains fuel now b : (slen (pending b) ≤ fuel)%nat → cut_at newline_char (pending (take_lines fuel now b)) = None.
Proof.
  revert now b. induction fuel as [|fuel IH]; intros now b L; simpl.
  - rewrite (slen_nil (pending b)) by lia. done.
  - destruct (cut_at newline_char (pending b)) as [[l rest]|] eqn:C; [|done]. apply IH. destruct (appendLocked_limits (now 0%nat) (trim_return l) (with_pending rest b)) as (_ & _ & ->). simpl.
    apply cut_at_Some in C. apply (f_equal slen) in C. rewrite slen_app in C. simpl in C. lia.
Qed.

Lemma Write_drains now p b : cut_at newline_char (pending (Write now p b)) = None.
Proof. unfold Write. by apply take_lines_drains. Qed.

(** When a reader is told that nothing was left out, nothing was: it has every
    line of its period that the buffer was ever given, in order, as long as the
    clock did not run backwards. *)
Lemma untruncated_is_complete Redact now q h b lines :
  buffer_ok h b → (∀ e, e ∈ h → 0 < at_ e) → (∀ i j e e', (i ≤ j)%nat → h !! i = Some e → h !! j = Some e' → at_ e ≤ at_ e') →
  Read Redact now q b = (lines, false) → lines = matching Redact now q h.
Proof.
  intros [_ _ _ (gone & -> & D)] P M. unfold Read. destruct (_ <? _); [done|]. intros [= <- T].
  unfold matching. rewrite omap_app. replace (omap _ gone) with (@nil string); [done|]. symmetry.
  assert (∀ e, e ∈ gone → at_ e < now - q_Since q) as Old.
  { intros e He. destruct (last gone) as [z|] eqn:L; [|apply last_None in L; subst; by apply elem_of_nil in He].
    assert (at_ e ≤ at_ z).
    { apply list_elem_of_lookup in He as [i Hi]. rewrite last_lookup in L. pose proof (lookup_lt_Some _ _ _ Hi).
      apply (M i (Init.Nat.pred (length gone))); [lia| |]; rewrite lookup_app_l by lia; done. }
    assert (0 < at_ z) by (apply P; apply elem_of_app; left; rewrite last_lookup in L; by eapply list_elem_of_lookup_2).
    rewrite D in T. unfold is_zero in T. destruct (Z.eqb_spec (at_ z) 0); [lia|]. simpl in T. apply negb_false_iff, Z.ltb_lt in T. lia. }
  clear -Old. induction gone as [|e gone IH]; [done|]. simpl. specialize (Old e ltac:(left)) as Oe. destruct (Z.ltb_spec (at_ e) (now - q_Since q)); [|lia].
  apply IH. intros x Hx. apply Old. by right.
Qed.

End ServerLog.

(** ** The output of a command, kept beside it *)

Module Spill.

Definition SpillRetention : Z := hour.
Definition MaxSpillBytes : Z := Z.shiftl 8 20.
Definition MaxSpillFiles : nat := 32.

(** [SpillWriter].  [s_file]: whether it holds the file open; [s_disk]: what is in
    the file at [s_path]. *)
Record spill := SpillWriter {
  s_threshold : Z; s_total : Z; s_kept : Z; s_held : string; s_file : bool; s_path : option string; s_failed : bool; s_full : bool; s_disk : string }.

Definition NewSpill (threshold : Z) : spill := SpillWriter threshold 0 0 "" false None false false "".

(** [abandon] *)
Definition abandon (s : spill) : spill := SpillWriter (s_threshold s) (s_total s) 0 "" false None true (s_full s) "".

(** [append]; [ok] is whether the file takes the bytes, which it does not when it
    was abandoned. *)
Definition append (ok : bool) (p : string) (s : spill) : spill :=
  let room := MaxSpillBytes - s_kept s in
  let full := room <? zlen p in
  let p := if full then stake (Z.to_nat (Z.max room 0)) p else p in
  let s := SpillWriter (s_threshold s) (s_total s) (s_kept s) (s_held s) (s_file s) (s_path s) (s_failed s) (s_full s || full) (s_disk s) in
  if String.eqb p "" then s
  else if ok && s_file s
  then SpillWriter (s_threshold s) (s_total s) (s_kept s + zlen p) (s_held s) (s_file s) (s_path s) (s_failed s) (s_full s) (s_disk s ++ p)
  else abandon s.

(** [open]: the name of the file, if it could be made. *)
Definition open (path : option string) (s : spill) : spill :=
  match path with
  | None => SpillWriter (s_threshold s) (s_total s) (s_kept s) (s_held s) (s_file s) (s_path s) true (s_full s) (s_disk s)
  | Some p => SpillWriter (s_threshold s) (s_total s) (s_kept s) (s_held s) true (Some p) (s_failed s) (s_full s) ""
  end.

Definition with_held (h : string) (s : spill) : spill := SpillWriter (s_threshold s) (s_total s) (s_kept s) h (s_file s) (s_path s) (s_failed s) (s_full s) (s_disk s).

(** What the file system does during a write. *)
Record disk := Disk { d_open : option string; d_first : bool; d_second : bool }.

(** [Write], after the bytes went on to the controller. *)
Definition Write (d : disk) (p : string) (s : spill) : spill :=
  if s_threshold s <=? 0 then s
  else
    let s := SpillWriter (s_threshold s) (s_total s + zlen p) (s_kept s) (s_held s) (s_file s) (s_path s) (s_failed s) (s_full s) (s_disk s) in
    if s_failed s || s_full s then s
    else if s_file s then append (d_first d) p s
    else if s_threshold s <? s_total s then
      let s := open (d_open d) s in
      let s := if s_file s then append (d_second d) p (append (d_first d) (s_held s) s) else s in
      with_held "" s
    else with_held (s_held s ++ p) s.

(** [Close] *)
Definition Close (s : spill) : option string * Z * Z := if s_failed s then (None, s_total s, 0) else (s_path s, s_total s, s_kept s).

Fixpoint writes (l : list (disk * string)) (s : spill) : spill := match l with [] => s | (d, p) :: l => writes l (Write d p s) end.
Definition output (l : list (disk * string)) : string := join "" (snd <$> l).

(** *** What it advertises *)

(** [out]: all the output so far. *)
Definition spill_ok (out : string) (s : spill) : Prop :=
  s_total s = zlen out ∧
  (s_failed s = true ∨
   s_failed s = false ∧ s_file s = false ∧ s_full s = false ∧ s_path s = None ∧ s_kept s = 0 ∧ s_held s = out ∧ s_total s ≤ s_threshold s ∨
   s_failed s = false ∧ s_file s = true ∧ is_Some (s_path s) ∧ s_threshold s < s_total s ∧ s_held s = ""%string ∧
     s_disk s = stake (Z.to_nat (s_kept s)) out ∧ s_kept s = Z.min (s_total s) MaxSpillBytes ∧ (s_full s = true → s_kept s = MaxSpillBytes)).

(** The bytes on disk are the first [kept] of [out], and [append] adds what fits. *)
Definition prefix_on_disk (out : string) (s : spill) : Prop :=
  s_failed s = false ∧ s_file s = true ∧ s_disk s = stake (Z.to_nat (s_kept s)) out ∧ s_kept s = Z.min (zlen out) MaxSpillBytes ∧ (s_full s = true → s_kept s = MaxSpillBytes).

Lemma MaxSpillBytes_pos : 0 < MaxSpillBytes.
Proof. reflexivity. Qed.

Lemma stake_slen n p : stake (slen (stake n p)) p = stake n p.
Proof. rewrite slen_stake. destruct (Nat.le_gt_cases n (slen p)); [by rewrite Nat.min_l|]. by rewrite Nat.min_r, !stake_all by lia. Qed.

Lemma append_prefix ok out p s : prefix_on_disk out s →
  s_failed (append ok p s) = true ∨ prefix_on_disk (out ++ p) (append ok p s).
Proof.
  intros (F & Fi & D & K & U). pose proof MaxSpillBytes_pos as Mp. pose proof (zlen_nonneg out) as Po. pose proof (zlen_nonneg p) as Pp.
  unfold append. set (q := if MaxSpillBytes - s_kept s <? zlen p then stake _ p else p).
  assert (q = stake (Z.to_nat (MaxSpillBytes - s_kept s)) p) as Q.
  { subst q. destruct (Z.ltb_spec (MaxSpillBytes - s_kept s) (zlen p)); [by rewrite Z.max_l by lia|]. symmetry. apply stake_all. unfold zlen in *. lia. }
  assert (zlen q = Z.min (zlen p) (MaxSpillBytes - s_kept s)) as Lq by (rewrite Q; unfold zlen; rewrite slen_stake; lia).
  assert (s_kept s + zlen q = Z.min (zlen (out ++ p)) MaxSpillBytes) as Kq by (rewrite Lq, zlen_app; lia).
  assert (s_disk s ++ q = stake (Z.to_nat (s_kept s + zlen q)) (out ++ p))%string as Dq.
  { destruct (Z.le_gt_cases MaxSpillBytes (zlen out)).
    - assert (zlen q = 0) as Z0 by lia. rewrite (slen_nil q) by (unfold zlen in Z0; lia). rewrite app_nil_s. change (zlen "") with 0. rewrite Z.add_0_r, stake_app_le by (unfold zlen in *; lia). done.
    - assert (s_kept s = zlen out) as Ke by lia. rewrite D, Ke, stake_all by (unfold zlen; lia).
      replace (Z.to_nat (zlen out + zlen q)) with (slen out + slen q)%nat by (unfold zlen; lia). rewrite stake_app_add. f_equal. rewrite Q. by rewrite stake_slen. }
  clearbody q. destruct (String.eqb_spec q "") as [->|Nq].
  - right. change (zlen "") with 0 in *. rewrite Z.add_0_r in Kq, Dq. rewrite app_nil_s in Dq. split_and!; simpl; try done. intros [U'|Fu%Z.ltb_lt]%orb_true_iff; [auto|lia].
  - rewrite Fi. destruct ok; simpl; [right|by left]. split_and!; simpl; try done. intros [U'|Fu%Z.ltb_lt]%orb_true_iff; [specialize (U U'); lia|lia].
Qed.

Lemma append_shape ok p s : s_total (append ok p s) = s_total s ∧ s_threshold (append ok p s) = s_threshold s ∧
  (s_failed (append ok p s) = false → s_path (append ok p s) = s_path s ∧ s_held (append ok p s) = s_held s ∧ s_failed s = false).
Proof. unfold append. cbv zeta. simpl. destruct (String.eqb _ _); simpl; [done|]. by destruct (ok && s_file s). Qed.

Lemma append_failed ok p s : s_failed s = true → s_failed (append ok p s) = true.
Proof. intros F. unfold append. cbv zeta. simpl. destruct (String.eqb _ _); simpl; [done|]. by destruct (ok && s_file s). Qed.

Lemma spill_Write_ok d p out s : 0 < s_threshold s → spill_ok out s → spill_ok (out ++ p) (Write d p s) ∧ s_threshold (Write d p s) = s_threshold s.
Proof.
  intros Pt [T C]. unfold Write. destruct (Z.leb_spec (s_threshold s) 0); [lia|]. pose proof (zlen_nonneg p) as Pp.
  set (s1 := SpillWriter (s_threshold s) (s_total s + zlen p) _ _ _ _ _ _ _). assert (s_total s1 = zlen (out ++ p)) as T1 by (simpl; rewrite zlen_app; lia).
  destruct (s_failed s1) eqn:F1; [simpl; split; [split; [done|by left]|done]|]. simpl in F1.
  destruct C as [C|[(_ & Fi & Fu & Pa & Ke & He & Th)|(_ & Fi & Pa & Th & He & D & Ke & Fu)]]; [congruence| |].
  - subst s1. simpl in *. rewrite Fi, Fu. simpl. destruct (Z.ltb_spec (s_threshold s) (s_total s + zlen p)); [|split; [split; [done|]|done]].
    + unfold open. destruct (d_open d) as [path|]; simpl; [|split; [split; [done|by left]|done]]. set (s2 := SpillWriter _ _ _ _ _ _ _ _ _).
      assert (prefix_on_disk "" s2) as P0 by (split_and!; simpl; rewrite ?Ke, ?Fu; done).
      destruct (append_shape (d_first d) (s_held s) s2) as (A1 & A2 & A3). set (s3 := append (d_first d) (s_held s) s2) in *.
      destruct (append_shape (d_second d) p s3) as (B1 & B2 & B3). set (s4 := append (d_second d) p s3) in *.
      assert (s_failed s4 = true ∨ prefix_on_disk (out ++ p) s4) as K.
      { destruct (append_prefix (d_first d) "" (s_held s) s2 P0) as [X|X]; [left; by apply append_failed|]. apply append_prefix. change ("" ++ s_held s)%string with (s_held s) in X. unfold s3. rewrite He in *. exact X. }
      split; [split; [simpl; rewrite B1, A1; done|]|simpl; by rewrite B2, A2]. simpl. destruct K as [K|(K1 & K2 & K3 & K4 & K5)]; [by left|]. right. right.
      destruct (B3 K1) as (E1 & _ & F3). destruct (A3 F3) as (E2 & _ & _). rewrite E1, E2, B1, A1, B2, A2. simpl. split_and!; try done. by rewrite T1.
    + right. left. simpl. rewrite He. split_and!; done.
  - destruct (s_full s1) eqn:F2; simpl in F2.
    + rewrite orb_true_r. split; [|done]. split; [done|]. right. right. subst s1. simpl. specialize (Fu F2). pose proof MaxSpillBytes_pos.
      split_and!; try done; [lia| |lia]. rewrite stake_app_le; [done|]. unfold zlen in *. lia.
    + subst s1. simpl in T1. simpl. rewrite F1, F2, Fi. simpl. set (s2 := SpillWriter _ _ _ _ _ _ _ _ _).
      assert (prefix_on_disk out s2) as P0 by (split_and!; simpl; rewrite <- ?T; done). destruct (append_shape (d_first d) p s2) as (A1 & A2 & A3).
      split; [split; [by rewrite A1|]|by rewrite A2]. destruct (append_prefix (d_first d) out p s2 P0) as [K|(K1 & K2 & K3 & K4 & K5)]; [by left|]. right. right.
      destruct (A3 K1) as (E1 & E2 & _). rewrite E1, E2, A1, A2. simpl. split_and!; try done; [lia|by rewrite T1].
Qed.

Lemma join_nil_cons p l : join "" (p :: l) = (p ++ join "" l)%string.
Proof. destruct l; simpl; [by rewrite app_nil_s|done]. Qed.

Lemma writes_ok l out s : 0 < s_threshold s → spill_ok out s →
  spill_ok (out ++ output l) (writes l s) ∧ s_threshold (writes l s) = s_threshold s.
Proof.
  revert out s. induction l as [|[d p] l IH]; intros out s P K; [simpl; by rewrite app_nil_s|]. simpl. destruct (spill_Write_ok d p out s P K) as [K' T].
  unfold output. rewrite fmap_cons, join_nil_cons. rewrite app_assoc_s, <- T. apply IH; [by rewrite T|done].
Qed.

(** C33: what is advertised as the output of a command is its output.  However the
    output arrives in pieces, and whatever the file system refuses: the length
    reported is that of all of it; a path is only reported if the output was longer
    than asked to be shown, and then the file at that path holds exactly the first
    [kept] bytes of it, which is all of it up to [MaxSpillBytes]; and without a path
    nothing counts as kept. *)
Theorem spill_is_prefix threshold l path total kept :
  0 < threshold → Close (writes l (NewSpill threshold)) = (path, total, kept) →
  total = zlen (output l) ∧
  match path with
  | Some _ => threshold < total ∧ kept = Z.min total MaxSpillBytes ∧ s_disk (writes l (NewSpill threshold)) = stake (Z.to_nat kept) (output l)
  | None => kept = 0
  end.
Proof.
  intros P E. assert (spill_ok "" (NewSpill threshold)) as K0 by (split; [done|]; right; left; split_and!; simpl; try done; lia).
  destruct (writes_ok l "" (NewSpill threshold) P K0) as [[T K] Th]. change (s_threshold (NewSpill threshold)) with threshold in Th.
  change ("" ++ output l)%string with (output l) in T, K. unfold Close in E.
  destruct K as [F|[(F & _ & _ & Pa & Ke & _)|(F & _ & [q Pa] & Lt & _ & D & Ke & _)]]; rewrite F in E; injection E as <- <- <-; (split; [exact T|]).
  - done.
  - by rewrite Pa.
  - rewrite Th in Lt. by rewrite Pa.
Qed.

(** [sweepSpills]: the files it removes, of those it could look at, given with
    the times they were written. *)
Definition older (x y : string * Z) : Prop := x.2 ≤ y.2.
#[export] Instance older_dec : RelDecision older := λ x y, decide (x.2 ≤ y.2).

Definition sweepSpills (now : Z) (l : list (string * Z)) : list string :=
  let stale := List.filter (λ f, SpillRetention <? now - f.2) l in
  let live := List.filter (λ f, negb (SpillRetention <? now - f.2)) l in
  (stale ++ (if (length live <? MaxSpillFiles)%nat then [] else take (S (length live - MaxSpillFiles)) (merge_sort older live))).*1.

(** Room is made for one more. *)
Lemma sweep_leaves_room now l : (length l - length (sweepSpills now l) < MaxSpillFiles)%nat.
Proof.
  unfold sweepSpills. rewrite length_fmap, length_app. set (live := List.filter (λ f, negb _) l). set (stale := List.filter _ l).
  assert (length l = length stale + length live)%nat as E.
  { subst stale live. clear. induction l as [|x l IH]; [done|]. simpl. destruct (SpillRetention <? _); simpl; lia. }
  destruct (Nat.ltb_spec (length live) MaxSpillFiles); [simpl; lia|]. rewrite length_take, (Permutation_length (merge_sort_Permutation older live)). unfold MaxSpillFiles in *. lia.
Qed.

(** Output of six bytes, of which two may be shown; and a disk that fills up. *)
Definition good : disk := Disk (Some "/tmp/wanctl-exec-1.log"%string) true true.
Definition pieces (d : disk) : list (disk * string) := [(d, "a"); (d, "bcd"); (d, "ef")]%string.

Lemma spill_is_prefix_witness :
  Close (writes (pieces good) (NewSpill 2)) = (Some "/tmp/wanctl-exec-1.log"%string, 6, 6) ∧
  (6 = zlen "abcdef" ∧ 2 < 6 ∧ s_disk (writes (pieces good) (NewSpill 2)) = "abcdef"%string) ∧
  Close (writes (pieces (Disk (Some "/tmp/wanctl-exec-1.log"%string) true false)) (NewSpill 2)) = (None, 6, 0).
Proof.
  split; [vm_compute; reflexivity|]. split; [|vm_compute; reflexivity].
  destruct (spill_is_prefix 2 (pieces good) (Some "/tmp/wanctl-exec-1.log"%string) 6 6 ltac:(lia) ltac:(vm_compute; reflexivity)) as (T & Lt & _ & D).
  split; [reflexivity|]. split; [exact Lt|]. rewrite D. vm_compute. reflexivity.
Defined.

End Spill.
