(* ===== verification/WebFetchRuns.v ===== *)
(** [internal/webfetch/handler.go]: what the adapter does with its stores.

    A request is a program: a tree of the calls it makes to the clock, the rate
    windows, the slots, the relay's database and the device, each with a
    continuation for every answer.  Requests, the goroutines they start and the
    relay's other queries interleave call by call; a call to the database may
    also fail, with or without its effect, and the process may start again.  The
    database is that of Grants.v. *)

From stdpp Require Import pretty.
From S2P Require Import Prelude GoStrings GoUtf8 GoCodec Session Trust Tables Accounts Grants StoreOps TokenInv CredInv GrantInv LedgerInv FileEdit FileRead WebFetch.
Import Delegation.

Local Open Scope Z_scope.

(** ** Slots *)

Definition maxOperationsPerGrant : Z := 4.
Definition maxOperations : Z := 64.

Record slots := Slots { s_running : gmap string Z; s_total : Z }.

Definition reserve (grant : string) (s : slots) : bool * slots :=
  let n := default 0 (s_running s !! grant) in
  if (maxOperations <=? s_total s) || (maxOperationsPerGrant <=? n) then (false, s)
  else (true, Slots (<[grant := n + 1]> (s_running s)) (s_total s + 1)).

Definition release (grant : string) (s : slots) : slots :=
  let n := default 0 (s_running s !! grant) - 1 in
  Slots (if n <=? 0 then delete grant (s_running s) else <[grant := n]> (s_running s)) (s_total s - 1).

(** ** Answers *)

(** [ja_next]: the seconds to wait before asking again, and the deadline. *)
Record job_answer := JobAnswer {
  ja_id : string; ja_rid : string; ja_status : string; ja_duplicate : bool; ja_result : option string; ja_next : option (Z * Z) }.

Inductive answer :=
| MethodNotAllowed | URITooLong | CrossOrigin | Discovery | BadNonce | NotFound | BadEncoding | DuplicateParameter
| RateExceeded | TooManyRequests | BadLabel | Failed (e : db_error) | Pending (r : delegation) | AccessDenied (status : string)
| Manifest (a : access) | InvalidParameters (e : operation_error) | TargetNotAllowed | RidConflict | AdapterBusy
| Job (j : job_answer).

(** [fail] *)
Definition fail (e : db_error) : Z :=
  match e with
  | ErrNotFound => 404 | ErrForbidden | ErrExpired => 403 | ErrConflict => 409 | ErrInvalid => 400 | ErrLimit => 429 | _ => 500
  end.

Definition status (a : answer) : Z :=
  match a with
  | MethodNotAllowed => 405 | URITooLong => 414 | CrossOrigin | AccessDenied _ | TargetNotAllowed => 403
  | Discovery | Pending _ | Manifest _ | Job _ => 200
  | BadNonce | BadEncoding | DuplicateParameter | BadLabel | InvalidParameters _ => 400
  | NotFound => 404 | RateExceeded | TooManyRequests | AdapterBusy => 429 | RidConflict => 409
  | Failed e => fail e
  end.

(** What [respond] writes: a page of a GET keeps 200 for the errors of the client. *)
Definition respond (json get_without_origin : bool) (status : Z) : Z :=
  if json then status
  else if get_without_origin && (400 <=? status) && (status <? 500) then 200 else status.

Definition jobResponse (now : Z) (job : delegation_job) (duplicate : bool) (op : Operation) (grantExpiry : Z) : answer :=
  let deadline := effectiveDeadline (j_created job) (timeout op) grantExpiry in
  let state := jobState (j_state job) now deadline in
  Job (JobAnswer (j_id job) (j_request job) state duplicate (j_result job)
         (if String.eqb state "running" || String.eqb state "queued"
          then Some (if minute <? now - j_created job then 30 else 5, deadline) else None)).

(** ** Programs *)

Record work := Work { w_job : delegation_job; w_request : delegation; w_token : string; w_operation : Operation }.

(** What is handed to the client: the operation, the key it speaks with, the
    devices it knows, and until when. *)
Record sent := Sent { sn_work : work; sn_identity : string; sn_known : Trust.store; sn_deadline : Z }.

(** What the client gives back.  A command's output comes as writes to
    standard output or (true) standard error. *)
Inductive client_answer :=
| Executed (writes : list (bool * string)) (code : Z) (err : option client_error)
| Wrote | ReadLines (r : fileLines) | Edited (replaced : Z) (sha : string) (size : Z)
| ClientFailed (e : client_error) | ClientPanicked.

(** What a worker records.  It is encoded as JSON by [encode]. *)
Inductive outcome :=
| NotValid | ExpiredBefore | NoIdentity | IdentityChanged | BadDevice | AdapterFailure
| RanCommand (out err : boundedOutput) (code : Z) (failed : option failure)
| RanWrite (bytes : nat) (sha : string) (failed : option failure)
| RanRead (f : fitted) | RanEdit (replaced : Z) (sha : string) (size : Z)
| RanFailed (f : failure).

Inductive call : Type → Type :=
| Clock : call Z
| RateAllowed (key : string) (limit : Z) : call bool
| GetDelegationByTicket (id hash : string) : call (result db_error delegation)
| CreateDelegation (q : new_request) : call (result db_error delegation)
| ResolveAccess (token : string) : call (option access)
| FindJob (grant rid : string) : call (result db_error delegation_job)
| BeginJob (grant rid hash payload : string) : call (result db_error (delegation_job * bool))
| GetJob (grant id : string) : call (result db_error delegation_job)
| FinishJob (grant id state result : string) : call unit
| Reserve (grant : string) : call bool
| Release (grant : string) : call unit
| Dispatch (task : work) : call unit
| Device (s : sent) : call client_answer.

(** A handler returns an answer, a worker nothing. *)
Inductive prog :=
| Ret (a : option answer)
| Do {X} (c : call X) (k : X → prog).

Record http_request := HttpRequest {
  r_Method : string; r_URILength : Z; r_Origin : string; r_Path : string;
  r_Query : option (gmap string (list string)); r_client : string }.

(** [strings.Trim(s, c)] *)
Fixpoint trim_front (c : ascii) (s : string) : string :=
  match s with String d s' => if Ascii.eqb d c then trim_front c s' else s | EmptyString => s end.
Fixpoint trim_back (c : ascii) (s : string) : string :=
  match s with
  | String d s' => match trim_back c s' with "" => if Ascii.eqb d c then "" else String d "" | t => String d t end
  | EmptyString => s
  end%string.

Section adapter.
(** The seed of the configuration; the fingerprint of the identity made from 32
    bytes; JSON. *)
Context (seed : string) (identity : string → option string).
Context (marshal : Operation → string) (unmarshal : string → option Operation) (encode : string → string → outcome → string).

(** ** The worker *)

Definition finish (task : work) (state : string) (o : outcome) : prog :=
  let grant := j_grant (w_job task) in
  Do (FinishJob grant (j_id (w_job task)) state (encode (o_Tool (w_operation task)) (o_Target (w_operation task)) o)) (λ _,
  Do (Release grant) (λ _, Ret None)).

(** The devices of the grant, pinned in a store in memory. *)
Fixpoint pin_all (now : Z) (l : list device) (s : Trust.store) : option Trust.store :=
  match l with
  | [] => Some s
  | x :: l => match Trust.Pin now (Target x) (d_Fingerprint x) false (map fst (map_to_list (Trust.peers s))) s with
              | Ok s => pin_all now l s
              | Err _ => None
              end
  end.

(** The two buffers of a command. *)
Definition collect (which : bool) (writes : list (bool * string)) : boundedOutput :=
  fold_left (λ b w, if Bool.eqb w.1 which then output_write (MaxOutputBytes / 2) w.2 b else b) writes (BoundedOutput "" false).

Definition record (ownerLink : string → bool) (task : work) (r : client_answer) : string * outcome :=
  let tool := o_Tool (w_operation task) in
  let classify e := recordFailure ownerLink tool e in
  let content := o_Content (w_operation task) in
  match r with
  | Executed writes code err =>
      let f := classify <$> err in
      (match f with Some f => x_state f | None => "done"%string end, RanCommand (collect false writes) (collect true writes) code f)
  | Wrote => ("done"%string, RanWrite (slen content) (digest content) None)
  | ReadLines l => ("done"%string, RanRead (fitRead l))
  | Edited n sha size => ("done"%string, RanEdit n sha size)
  | ClientFailed e => let f := classify e in
      (x_state f, if String.eqb tool "write_text" then RanWrite (slen content) (digest content) (Some f) else RanFailed f)
  | ClientPanicked => ("unknown"%string, AdapterFailure)
  end.

Definition execute (ownerLink : string → bool) (task : work) : prog :=
  let grant := j_grant (w_job task) in
  Do (ResolveAccess (w_token task)) (λ access,
  match access with
  | None => finish task "failed" NotValid
  | Some a =>
      if negb (Delegated a) || negb (String.eqb (ac_GrantID a) grant) then finish task "failed" NotValid
      else Do Clock (λ now,
        if negb (Allows now a (o_Target (w_operation task))) then finish task "failed" NotValid
        else
          let deadline := effectiveDeadline (j_created (w_job task)) (timeout (w_operation task)) (ac_ExpiresAt a) in
          Do Clock (λ now,
            if negb (now <? deadline) then finish task "failed" ExpiredBefore
            else match identity (derive seed "wanctl-webfetch-identity-v1" grant) with
            | None => finish task "failed" NoIdentity
            | Some fp =>
                if negb (String.eqb fp (ac_ControllerFingerprint a)) then finish task "failed" IdentityChanged
                else match pin_all now (Devices a) Trust.NewMemStore with
                | None => finish task "failed" BadDevice
                | Some known =>
                    Do (Device (Sent task fp known deadline)) (λ r,
                      let '(state, o) := record ownerLink task r in finish task state o)
                end
            end))
  end).

(** ** The handler *)

(** A call of a tool, once the access is known.  The slot is given back on every
    way out but the one that hands it to the worker. *)
Definition call_tool (q : query) (grant token : string) (request : delegation) (a : access) : prog :=
  match parseOperation q with
  | Err e => Ret (Some (InvalidParameters e))
  | Ok op =>
  Do Clock (λ now,
  if negb (Allows now a (o_Target op)) then Ret (Some TargetNotAllowed)
  else
    let payload := marshal op in
    let rid := get q "rid" in
    let hash := digest payload in
    let job_response (job : delegation_job) duplicate k := Do Clock (λ now, k (Ret (Some (jobResponse now job duplicate op (ac_ExpiresAt a))))) in
    Do (FindJob grant rid) (λ found,
    match found with
    | Ok existing => if negb (String.eqb (j_hash existing) hash) then Ret (Some RidConflict) else job_response existing true id
    | Err ErrNotFound =>
        Do (Reserve grant) (λ ok,
        if negb ok then Ret (Some AdapterBusy)
        else Do (BeginJob grant rid hash payload) (λ begun,
          match begun with
          | Err e => Do (Release grant) (λ _, Ret (Some (if decide (e = ErrConflict) then RidConflict else Failed e)))
          | Ok (job, true) => Do (Dispatch (Work job request token op)) (λ _, job_response job false id)
          | Ok (job, false) => job_response job true (λ p, Do (Release grant) (λ _, p))
          end))
    | Err e => Ret (Some (Failed e))
    end))
  end.

(** [/jobs/<id>]: its access is checked again, against the recorded target. *)
Definition read_job (grant id : string) (a : access) : prog :=
  Do (GetJob grant id) (λ r,
  match r with
  | Err e => Ret (Some (Failed e))
  | Ok job =>
      match unmarshal (j_payload job) with
      | None => Ret (Some (Failed ErrForbidden))
      | Some op => Do Clock (λ now,
          if negb (Allows now a (o_Target op)) then Ret (Some (Failed ErrForbidden))
          else Do Clock (λ now, Ret (Some (jobResponse now job false op (ac_ExpiresAt a)))))
      end
  end).

(** From the row of the request on. *)
Definition with_request (rest : list string) (q : query) (c : credentials) (r : result db_error delegation) : prog :=
  match r with
  | Err e => Ret (Some (Failed e))
  | Ok request =>
      if bool_decide (rest = []) && String.eqb (q_Status request) "pending" then Ret (Some (Pending request))
      else Do (ResolveAccess (cr_token c)) (λ access,
        match access with
        | None => Ret (Some (AccessDenied (q_Status request)))
        | Some a =>
            if negb (Delegated a) || negb (String.eqb (ac_GrantID a) (cr_id c)) || negb (String.eqb (q_Status request) "approved")
               || negb (String.eqb (ac_ControllerFingerprint a) (cr_fingerprint c)) then Ret (Some (AccessDenied (q_Status request)))
            else match rest with
            | [] => Ret (Some (Manifest a))
            | [x] => if String.eqb x "call" then call_tool q (cr_id c) (cr_token c) request a else Ret (Some NotFound)
            | [x; id] => if String.eqb x "jobs" then read_job (cr_id c) id a else Ret (Some NotFound)
            | _ => Ret (Some NotFound)
            end
        end)
  end.

Definition label_of (q : query) : string := let l := get q "label" in if String.eqb l "" then "WebFetch AI"%string else l.

(** The first fetch of a ticket makes the request. *)
Definition ask (issued : Z) (client ticket : string) (q : query) (c : credentials) : prog :=
  Do Clock (λ now,
  if negb (now <? issued + RequestWindow) then Ret (Some (Failed ErrExpired))
  else Do (RateAllowed ("new:" ++ client) 10) (λ ok,
    if negb ok then Ret (Some TooManyRequests)
    else
      let label := label_of q in
      if (120 <? slen label)%nat || contains_any label breaks || negb (valid_string label) then Ret (Some BadLabel)
      else Do (CreateDelegation (NewRequest (cr_id c) (digest ticket) (digest (cr_token c)) label (cr_fingerprint c) (issued + RequestWindow)))
             (with_request [] q c))).

Definition serve_session (r : http_request) (ticket : string) (rest : list string) : prog :=
  let issued := default 0 (Atoi (default "" (head (split_on "-" ticket))))%string * second in
  Do Clock (λ now,
  if negb (ticketFresh issued now) then Ret (Some (Failed ErrExpired))
  else match r_Query r with
  | None => Ret (Some BadEncoding)
  | Some values =>
      if any (λ kv : string * list string, negb (length kv.2 =? 1)%nat) (map_to_list values) then Ret (Some DuplicateParameter)
      else
        let q : query := (λ l, default ""%string (head l)) <$> values in
        match credentials_of seed identity ticket with
        | None => Ret (Some (Failed ErrScan))
        | Some c =>
            Do (RateAllowed ("grant:" ++ cr_id c) 120) (λ ok,
            if negb ok then Ret (Some RateExceeded)
            else Do (GetDelegationByTicket (cr_id c) (digest ticket)) (λ found,
              match found, rest with
              | Err ErrNotFound, [] => ask issued (r_client r) ticket q c
              | _, _ => with_request rest q c found
              end))
        end
  end).

Definition route (r : http_request) (path : string) : prog :=
  match split_on "/" (trim_front "/" (trim_back "/" path)) with
  | a :: b :: ticket :: rest =>
      if String.eqb a "webfetch" && String.eqb b "s" && ticketPattern ticket then serve_session r ticket rest else Ret (Some NotFound)
  | _ => Ret (Some NotFound)
  end.

(** [random]: what [rand.Read] filled in, or its error. *)
Definition ServeHTTP (random : option string) (r : http_request) : prog :=
  if negb (String.eqb (r_Method r) "GET") then Ret (Some MethodNotAllowed)
  else if MaxURLBytes <? r_URILength r then Ret (Some URITooLong)
  else if negb (String.eqb (r_Origin r) "") then Ret (Some CrossOrigin)
  else if any (String.eqb (r_Path r)) ["/webfetch"; "/webfetch/"; "/webfetch/v1"]%string then Ret (Some Discovery)
  else match cut_prefix (r_Path r) "/webfetch/new/" with
  | Some nonce =>
      if negb (clientNoncePattern nonce) then Ret (Some BadNonce)
      else match random with
      | None => Ret (Some (Failed ErrScan))
      | Some bytes => Do Clock (λ now, route r ("/webfetch/s/" ++ pretty (now / second) ++ "-" ++ hex_encode bytes))
      end
  | None => route r (r_Path r)
  end.

End adapter.

(** ** Worlds *)

(** The adapter and the relay's database, every handler and worker, and, to
    state the theorems, all that was ever handed to the client. *)
Record world := World { now_ : Z; db_ : db; slots_ : slots; rates_ : rates; threads : list prog; log : list sent }.

Definition fresh_slots : slots := Slots ∅ 0.

Section runs.
Context `{Libraries} (json_valid : string → bool).
Context (seed : string) (identity : string → option string).
Context (marshal : Operation → string) (unmarshal : string → option Operation) (encode : string → string → outcome → string).
Context (ownerLink : string → bool).

Abbreviation execute' := (execute seed identity encode ownerLink).
Abbreviation ServeHTTP' := (ServeHTTP seed identity marshal unmarshal).

Definition at_time (t : Z) (w : world) : world := World t (db_ w) (slots_ w) (rates_ w) (threads w) (log w).
Definition with_db (d : db) (w : world) : world := World (now_ w) d (slots_ w) (rates_ w) (threads w) (log w).
Definition with_slots (s : slots) (w : world) : world := World (now_ w) (db_ w) s (rates_ w) (threads w) (log w).
Definition with_rates (m : rates) (w : world) : world := World (now_ w) (db_ w) (slots_ w) m (threads w) (log w).
Definition with_threads (l : list prog) (w : world) : world := World (now_ w) (db_ w) (slots_ w) (rates_ w) l (log w).
Definition with_log (l : list sent) (w : world) : world := World (now_ w) (db_ w) (slots_ w) (rates_ w) (threads w) l.

(** A statement of the database answers, or fails: it was not run, or its answer
    was lost. *)
Definition queried {X} (d : db) (r : X * db) (lost : X → Prop) (x : X) (d' : db) : Prop :=
  (x, d') = r ∨ lost x ∧ (d' = d ∨ d' = r.2).

Definition broken {A} (r : result db_error A) : Prop := r = Err ErrScan.

(** What a call answers, and the world after it. *)
Definition answers {X} (c : call X) (w : world) : X → world → Prop :=
  let d := db_ w in let now := now_ w in
  match c in call X return X → world → Prop with
  | Clock => λ x w', x = now ∧ w' = w
  | RateAllowed key limit => λ x w', x = (rateAllowed now key limit (rates_ w)).1 ∧ w' = with_rates (rateAllowed now key limit (rates_ w)).2 w
  | GetDelegationByTicket id hash => λ x w', (x = Grants.GetDelegationByTicket now id hash d ∨ broken x) ∧ w' = w
  | CreateDelegation q => λ x w', ∃ d', queried d (Grants.CreateDelegation now q d) broken x d' ∧ w' = with_db d' w
  | ResolveAccess token => λ x w', (x = resolveAccess now token d ∨ x = None) ∧ w' = w
  | FindJob grant rid => λ x w', (x = Grants.FindJob grant rid d ∨ broken x) ∧ w' = w
  | BeginJob grant rid hash payload => λ x w', ∃ rnd d', queried d (Grants.BeginJob json_valid now rnd grant rid hash payload d) broken x d' ∧ w' = with_db d' w
  | GetJob grant id => λ x w', (x = Grants.GetJob grant id d ∨ broken x) ∧ w' = w
  | FinishJob grant id state result => λ _ w', ∃ d', (d' = d ∨ d' = (Grants.FinishJob json_valid grant id state result d).2) ∧ w' = with_db d' w
  | Reserve grant => λ x w', x = (reserve grant (slots_ w)).1 ∧ w' = with_slots (reserve grant (slots_ w)).2 w
  | Release grant => λ _ w', w' = with_slots (release grant (slots_ w)) w
  | Dispatch task => λ _ w', w' = with_threads (threads w ++ [execute' task]) w
  | Device s => λ _ w', w' = with_log (log w ++ [s]) w
  end.

(** One call of thread [i]. *)
Definition turn (i : nat) (w w' : world) : Prop :=
  match threads w !! i with
  | Some (Do c k) => ∃ x w1, answers c w x w1 ∧ w' = with_threads (<[i := k x]> (threads w1)) w1
  | _ => False
  end.

(** [env] says which queries of others there are. *)
Section steps.
Context (env : relation (Z * db)).

Inductive wstep : relation world :=
| WTurn t i w w' : now_ w ≤ t → turn i (at_time t w) w' → wstep w w'
| WRequest w random r : wstep w (with_threads (threads w ++ [ServeHTTP' random r]) w)
| WQuery w t d : env (now_ w, db_ w) (t, d) → wstep w (with_db d (at_time t w))
| WRestart w : wstep w (World (now_ w) (db_ w) fresh_slots ∅ [] (log w)).

Definition wstart (w : world) : Prop :=
  stored json_valid (now_ w, db_ w) ∧ slots_ w = fresh_slots ∧ threads w = [] ∧ log w = [].

Definition running : world → Prop := reachable wstart wstep.

(** A run with its states, first to last. *)
Inductive run : list world → world → Prop :=
| RunStart w : wstart w → run [w] w
| RunStep ws w w' : run ws w → wstep w w' → run (ws ++ [w']) w'.

Lemma run_is_running ws w : run ws w → running w.
Proof. induction 1 as [w S|ws w w' _ IH S]; [by apply reachable_init|by eapply reachable_step]. Qed.
End steps.

(** Selecting from a permutation. *)
Lemma filter_perm {A} (f : A → bool) l l' : l ≡ₚ l' → List.filter f l ≡ₚ List.filter f l'.
Proof. induction 1; simpl; repeat case_match; eauto using perm_skip, perm_swap, Permutation_trans. Qed.

(** ** Disciplines *)

(** A discipline is what a thread may call in a state of its own, which its
    calls' answers change: the theorems below are three of them. *)
Record discipline (S : Type) := Discipline {
  may : ∀ X, call X → S → Prop; next : ∀ X, call X → X → S → S; over : S → Prop }.
Arguments may {S} _ {X} _ _.
Arguments next {S} _ {X} _ _ _.
Arguments over {S} _ _.
Arguments Discipline {S} _ _ _.

(** What every answer satisfies: the row [BeginJob] returns is the one asked for. *)
Definition sound {X} (c : call X) : X → Prop :=
  match c in call X return X → Prop with
  | BeginJob grant rid hash _ => λ x, match x with Ok (j, _) => j_grant j = grant ∧ j_request j = rid ∧ j_hash j = hash | Err _ => True end
  | _ => λ _, True
  end.

Lemma answers_sound {X} (c : call X) w x w1 : answers c w x w1 → sound c x.
Proof.
  destruct c; try done. intros (rnd & d' & [E|[-> _]] & _); [|done]. simpl. destruct x as [[j fresh]|e]; [|done].
  symmetry in E. apply BeginJob_Ok in E as (? & ? & ? & _). done.
Qed.

Fixpoint obeys {S} (D : discipline S) (s : S) (p : prog) : Prop :=
  match p with
  | Ret _ => over D s
  | Do c k => may D c s ∧ ∀ x, sound c x → obeys D (next D c x s) (k x)
  end.

Definition spawned {S} (born : work → S) {X} (c : call X) : list S := match c with Dispatch task => [born task] | _ => [] end.

Lemma answers_threads {X} (c : call X) w x w1 : answers c w x w1 →
  threads w1 = threads w ++ (match c with Dispatch task => [execute' task] | _ => [] end).
Proof. destruct c; simpl; intros A; rewrite ?app_nil_r; naive_solver. Qed.

(** Threads that obey a discipline go on obeying it, each from its own state. *)
Lemma obeys_turn {S} (D : discipline S) (born : work → S) ss i w w' :
  (∀ s task, may D (Dispatch task) s → obeys D (born task) (execute' task)) →
  Forall2 (obeys D) ss (threads w) → turn i w w' →
  ∃ s X (c : call X) x w1 l, ss !! i = Some s ∧ may D c s ∧ answers c w x w1 ∧ w' = with_threads l w1 ∧
    Forall2 (obeys D) (<[i := next D c x s]> ss ++ spawned born c) l.
Proof.
  intros B F T. unfold turn in T. destruct (threads w !! i) as [p|] eqn:P; [|done].
  destruct (Forall2_lookup_r _ _ _ _ _ F P) as (s & Hs & O). destruct p as [|X c k]; [done|].
  destruct T as (x & w1 & A & ->). destruct O as [M O]. exists s, X, c, x, w1, (<[i:=k x]> (threads w1)).
  split_and!; [done..|]. rewrite (answers_threads _ _ _ _ A), insert_app_l by by eapply lookup_lt_Some.
  apply Forall2_app; [apply Forall2_insert; [done|by eapply O, answers_sound]|]. destruct c; simpl; try done. constructor; [by eapply B|constructor].
Qed.

(** The calls without an effect on jobs or slots. *)
Definition plain {X} (c : call X) : bool :=
  match c with Reserve _ | Release _ | BeginJob _ _ _ _ | Dispatch _ | Device _ => false | _ => true end.

Definition unaffected {S} (D : discipline S) (calm : S → Prop) : Prop :=
  (∀ s, calm s → over D s) ∧ ∀ X (c : call X) s, plain c = true → calm s → may D c s ∧ ∀ x, calm (next D c x s).

Section handlers.
Context {S} (D : discipline S) (calm : S → Prop) (U : unaffected D calm).
Context (tool_calm : ∀ s q grant token request a, calm s → obeys D s (call_tool marshal q grant token request a)).

Lemma obeys_ret s a : calm s → obeys D s (Ret a).
Proof using U. intros. by apply U. Qed.

Lemma obeys_do {X} (c : call X) k s : plain c = true → calm s → (∀ x s', calm s' → obeys D s' (k x)) → obeys D s (Do c k).
Proof using U. intros P C K. destruct U as [_ U2]. destruct (U2 _ c s P C) as [M N]. split; [done|]. intros x _. by apply K. Qed.

Hint Resolve obeys_ret : core.

Lemma obeys_read_job s grant id a : calm s → obeys D s (read_job unmarshal grant id a).
Proof using U.
  intros C. unfold read_job. apply obeys_do; [done..|]. intros [job|e] s1 C1; [|auto]. destruct (unmarshal _); [|auto].
  apply obeys_do; [done..|]. intros now s2 C2. destruct (negb _); [auto|]. apply obeys_do; [done..|]. auto.
Qed.

Lemma obeys_with_request s rest q c r : calm s → obeys D s (with_request marshal unmarshal rest q c r).
Proof using U tool_calm.
  intros C. unfold with_request. destruct r as [request|e]; [|auto]. destruct (_ && _); [auto|].
  apply obeys_do; [done..|]. intros [a|] s1 C1; [|auto]. destruct (_ || _); [auto|]. destruct rest as [|x [|y [|z rest]]]; [auto|..]; try (destruct (String.eqb x _); [|auto]).
  - auto. - by apply obeys_read_job. - auto.
Qed.

Lemma obeys_ask s issued client ticket q c : calm s → obeys D s (ask marshal unmarshal issued client ticket q c).
Proof using U tool_calm.
  intros C. unfold ask. apply obeys_do; [done..|]. intros now s1 C1. destruct (negb _); [auto|]. apply obeys_do; [done..|]. intros ok s2 C2.
  destruct (negb ok); [auto|]. cbv zeta. destruct (_ || _); [auto|]. apply obeys_do; [done..|]. intros r s3 C3. by apply obeys_with_request.
Qed.

Lemma obeys_session s r ticket rest : calm s → obeys D s (serve_session seed identity marshal unmarshal r ticket rest).
Proof using U tool_calm.
  intros C. unfold serve_session. cbv zeta. apply obeys_do; [done..|]. intros now s1 C1. destruct (negb _); [auto|]. destruct (r_Query r); [|auto].
  destruct (any _ _); [auto|]. destruct (credentials_of _ _ _) as [c|]; [|auto]. apply obeys_do; [done..|]. intros ok s2 C2. destruct (negb ok); [auto|].
  apply obeys_do; [done..|]. intros found s3 C3.
  assert (obeys D s3 (with_request marshal unmarshal rest ((λ l, default ""%string (head l)) <$> g) c found)) as W by by apply obeys_with_request.
  destruct found as [?|[]]; try exact W. destruct rest; [by apply obeys_ask|exact W].
Qed.

Lemma obeys_route s r path : calm s → obeys D s (route seed identity marshal unmarshal r path).
Proof using U tool_calm.
  intros C. unfold route. destruct (split_on _ _) as [|a [|b [|ticket rest]]]; [auto..|]. destruct (_ && _); [by apply obeys_session|auto].
Qed.

Lemma obeys_ServeHTTP s random r : calm s → obeys D s (ServeHTTP' random r).
Proof using U tool_calm.
  intros C. unfold ServeHTTP. destruct (negb _); [auto|]. destruct (_ <? _); [auto|]. destruct (negb _); [auto|]. destruct (any _ _); [auto|].
  destruct (cut_prefix _ _); [|by apply obeys_route]. destruct (negb _); [auto|]. destruct random; [|auto].
  apply obeys_do; [done..|]. intros. by apply obeys_route.
Qed.
End handlers.

(** ** Slots are returned *)

(** A thread holds a slot for a grant, or none. *)
Definition slot_discipline : discipline (option string) := Discipline
  (λ X (c : call X) s, match c with
     | Reserve _ => s = None | Release g => s = Some g | Dispatch task => s = Some (j_grant (w_job task)) | _ => True end)
  (λ X (c : call X), match c in call X return X → option string → option string with
     | Reserve g => λ ok s, if ok then Some g else s | Release _ | Dispatch _ => λ _ _, None | _ => λ _ s, s end)
  (λ s, s = None).

Lemma slots_calm : unaffected slot_discipline (λ s, s = None).
Proof. split; [done|]. intros X c s P ->. by destruct c. Qed.

Lemma finish_slot task st o : obeys slot_discipline (Some (j_grant (w_job task))) (finish encode task st o).
Proof. done. Qed.

Lemma tool_slot s q grant token request a : s = None → obeys slot_discipline s (call_tool marshal q grant token request a).
Proof.
  intros ->. unfold call_tool. destruct (parseOperation q) as [op|e]; [|done]. cbv zeta. split; [done|]. intros now _. cbn [next slot_discipline].
  destruct (negb _); [done|]. split; [done|]. intros [existing|e] _; cbn [next slot_discipline].
  - destruct (negb _); [done|]. split; [done|]. by intros.
  - destruct e; try done. split; [done|]. intros [] _; cbn [next slot_discipline negb]; [|done]. split; [done|]. intros [[job []]|e]; cbn [next slot_discipline].
    + intros (E & _). split; [simpl; congruence|]. by intros.
    + intros _. split; [done|]. intros. split; [done|]. by intros.
    + intros _. split; [done|]. by intros.
Qed.

Lemma execute_slot task : obeys slot_discipline (Some (j_grant (w_job task))) (execute' task).
Proof.
  unfold execute. cbv zeta. split; [done|]. intros [a|] _; cbn [next slot_discipline]; [|apply finish_slot].
  destruct (_ || _); [apply finish_slot|]. split; [done|]. intros now _. cbn [next slot_discipline]. destruct (negb _); [apply finish_slot|].
  split; [done|]. intros now' _. cbn [next slot_discipline]. destruct (negb _); [apply finish_slot|]. destruct (identity _) as [fp|]; [|apply finish_slot].
  destruct (negb _); [apply finish_slot|]. destruct (pin_all _ _ _) as [known|]; [|apply finish_slot]. split; [done|]. intros r _. cbn [next slot_discipline].
  destruct (record _ _ _). apply finish_slot.
Qed.

(** The slots agree with a list of the grants they are held for. *)
Definition account (s : slots) (held : list string) : Prop :=
  s_total s = Z.of_nat (length held) ∧ s_total s <= maxOperations ∧
  ∀ g, let n := Z.of_nat (count_where (String.eqb g) held) in n <= maxOperationsPerGrant ∧ s_running s !! g = if n =? 0 then None else Some n.

Lemma account_perm s l l' : l ≡ₚ l' → account s l → account s l'.
Proof.
  intros P (A & B & C). split; [by rewrite <- P|]. split; [done|]. intros g. replace (count_where (String.eqb g) l') with (count_where (String.eqb g) l); [apply C|].
  unfold count_where. by apply Permutation_length, filter_perm.
Qed.

Lemma count_held g h held : Z.of_nat (count_where (String.eqb g) (h :: held)) = (if String.eqb g h then 1 else 0) + Z.of_nat (count_where (String.eqb g) held).
Proof. unfold count_where. simpl. destruct (String.eqb g h); simpl; lia. Qed.

Lemma account_running s held g : account s held → default 0 (s_running s !! g) = Z.of_nat (count_where (String.eqb g) held).
Proof. intros (_ & _ & C). destruct (C g) as [_ ->]. by destruct (Z.eqb_spec (Z.of_nat (count_where (String.eqb g) held)) 0) as [->|]. Qed.

Lemma reserve_account s held g : account s held → account (reserve g s).2 (if (reserve g s).1 then g :: held else held).
Proof.
  intros A. pose proof (account_running s held g A) as R. unfold reserve. cbv zeta. rewrite R. destruct A as (A & B & C).
  destruct (Z.leb_spec maxOperations (s_total s)); [done|]. destruct (Z.leb_spec maxOperationsPerGrant (Z.of_nat (count_where (String.eqb g) held))); [done|].
  simpl. split; [simpl; lia|]. split; [simpl; lia|]. intros h. cbv zeta. rewrite count_held. destruct (C h) as [Ch Eh]. simpl. destruct (String.eqb_spec h g) as [->|N].
  - rewrite lookup_insert_eq. split; [lia|]. destruct (Z.eqb_spec (1 + Z.of_nat (count_where (String.eqb g) held)) 0); [lia|]. f_equal. lia.
  - rewrite lookup_insert_ne by done. simpl. done.
Qed.

Lemma release_account s held g : account s (g :: held) → account (release g s) held.
Proof.
  intros A. pose proof (account_running s _ g A) as R. unfold release. cbv zeta. rewrite R, count_held, String.eqb_refl.
  destruct A as (A & B & C). simpl in A. split; [simpl; lia|]. split; [simpl; lia|]. intros h. cbv zeta. destruct (C h) as [Ch Eh]. cbv zeta in *. rewrite count_held in *. simpl.
  destruct (String.eqb_spec h g) as [E|N].
  - subst h. split; [lia|]. destruct (Z.leb_spec (1 + Z.of_nat (count_where (String.eqb g) held) - 1) 0) as [L|L].
    + rewrite lookup_delete_eq. destruct (Z.eqb_spec (Z.of_nat (count_where (String.eqb g) held)) 0); [done|lia].
    + rewrite lookup_insert_eq. destruct (Z.eqb_spec (Z.of_nat (count_where (String.eqb g) held)) 0); [lia|]. f_equal. lia.
  - split; [lia|]. rewrite Z.add_0_l in Eh. destruct (_ <=? 0); [rewrite lookup_delete_ne by done|rewrite lookup_insert_ne by done]; done.
Qed.

Definition held_by (ss : list (option string)) : list string := omap id ss.

Lemma held_split ss i s : ss !! i = Some s → ∃ l, held_by ss ≡ₚ option_list s ++ l ∧ ∀ s', held_by (<[i := s']> ss) ≡ₚ option_list s' ++ l.
Proof.
  intros L. exists (held_by (take i ss) ++ held_by (drop (S i) ss)).
  assert (∀ x, held_by (take i ss ++ x :: drop (S i) ss) ≡ₚ option_list x ++ held_by (take i ss) ++ held_by (drop (S i) ss)) as P.
  { intros x. unfold held_by. rewrite omap_app. destruct x; simpl; [by rewrite <- Permutation_middle|done]. }
  split; [by rewrite <- P, take_drop_middle|]. intros s'. rewrite insert_take_drop by by eapply lookup_lt_Some. apply P.
Qed.

Definition slots_inv (w : world) : Prop := ∃ ss, Forall2 (obeys slot_discipline) ss (threads w) ∧ account (slots_ w) (held_by ss).

Lemma answers_slots {X} (c : call X) w x w1 : answers c w x w1 → slots_ w1 =
  match c in call X return X → slots with Reserve g => λ _, (reserve g (slots_ w)).2 | Release g => λ _, release g (slots_ w) | _ => λ _, slots_ w end x.
Proof. destruct c; simpl; intros A; naive_solver. Qed.

Lemma slots_turn w i w' : slots_inv w → turn i w w' → slots_inv w'.
Proof.
  intros (ss & F & A) T. destruct (obeys_turn slot_discipline (λ task, Some (j_grant (w_job task))) ss i w w') as (s & X & c & x & w1 & l & Hs & M & An & -> & F'); [|done..|].
  { intros s task _. apply execute_slot. }
  exists (<[i:=next slot_discipline c x s]> ss ++ spawned (λ task, Some (j_grant (w_job task))) c). split; [exact F'|].
  change (slots_ (with_threads l w1)) with (slots_ w1). rewrite (answers_slots _ _ _ _ An). destruct (held_split _ _ _ Hs) as (h & P & Q).
  assert (∀ s' t, held_by (<[i:=s']> ss ++ t) ≡ₚ option_list s' ++ h ++ held_by t) as R.
  { intros s' t. unfold held_by at 1. rewrite omap_app. change (held_by (<[i:=s']> ss) ++ held_by t ≡ₚ option_list s' ++ h ++ held_by t). by rewrite Q, app_assoc. }
  eapply account_perm; [symmetry; apply R|]. apply (account_perm _ _ _ P) in A. clear F F' P Q R Hs.
  destruct c; cbn [next slot_discipline spawned held_by omap list_omap] in *; rewrite ?app_nil_r; try exact A.
  - simpl in M, An. subst s. destruct An as [-> _]. pose proof (reserve_account _ _ grant A) as B. by destruct (reserve grant (slots_ w)) as [[] ?].
  - simpl in M. subst s. by apply release_account.
  - simpl in M. subst s. simpl in *. eapply account_perm; [|exact A]. by rewrite Permutation_app_comm.
Qed.

Lemma slots_step env w w' : slots_inv w → wstep env w w' → slots_inv w'.
Proof.
  intros I S. destruct S as [t i w w' _ T|w random r|w t d _|w].
  - eapply slots_turn; [|exact T]. exact I.
  - destruct I as (ss & F & A). exists (ss ++ [None]). split.
    + apply Forall2_app; [done|]. constructor; [|constructor]. apply (obeys_ServeHTTP _ (λ s, s = None) slots_calm); [|done]. apply tool_slot.
    + unfold held_by. rewrite omap_app. simpl. rewrite app_nil_r. exact A.
  - exact I.
  - exists []. split; [constructor|]. split; [done|]. split; [done|]. intros g. by cbv.
Qed.

Definition unfinished (p : prog) : bool := match p with Ret _ => false | Do _ _ => true end.

Lemma held_unfinished ss l : Forall2 (obeys slot_discipline) ss l → (length (held_by ss) ≤ count_where unfinished l)%nat.
Proof.
  induction 1 as [|s p ss l O _ IH]; [done|]. unfold count_where in *. destruct p as [a|X c k]; simpl in *.
  - cbv in O. subst s. exact IH.
  - destruct s; simpl; lia.
Qed.

(** C38: every slot is given back.  Whatever requests arrive and however they
    interleave, whichever queries fail and whenever the process starts again,
    the slots in use are those of operations still in flight: at most 64, at most
    four of one grant, each held by a handler or a worker that has not finished
    and will release it; when nothing is in flight, none is in use. *)
Theorem slots_returned env w : running env w → ∃ held, account (slots_ w) held ∧
  (length held ≤ count_where unfinished (threads w))%nat ∧ (count_where unfinished (threads w) = 0%nat → slots_ w = fresh_slots).
Proof.
  intros R. assert (slots_inv w) as (ss & F & A).
  { revert w R. apply invariant_reachable; [|apply slots_step]. intros w (_ & Es & Et & _). exists []. rewrite Et, Es. split; [constructor|].
    split; [done|]. split; [done|]. intros g. by cbv. }
  pose proof (held_unfinished _ _ F) as L. exists (held_by ss). split; [done|]. split; [done|]. intros Z0.
  assert (held_by ss = []) as E by (apply length_zero_iff_nil; lia). rewrite E in A. destruct A as (A & _ & C). destruct (slots_ w) as [m n]. simpl in *. subst n.
  unfold fresh_slots. f_equal. apply map_eq. intros g. destruct (C g) as [_ ->]. by rewrite lookup_empty.
Qed.

(** ** A request is run once *)

(** A thread owes the device nothing, the dispatch of a job it began, or the run
    of a task. *)
Inductive stage := Idle | Begun (j : delegation_job) | Running (task : work).

Definition recorded (task : work) : Prop := digest (marshal (w_operation task)) = j_hash (w_job task).

Definition job_discipline : discipline stage := Discipline
  (λ X (c : call X) s, match c with
     | BeginJob _ _ _ _ => s = Idle | Dispatch task => s = Begun (w_job task) ∧ recorded task | Device t => s = Running (sn_work t) | _ => True end)
  (λ X (c : call X), match c in call X return X → stage → stage with
     | BeginJob _ _ _ _ => λ r s, match r with Ok (j, true) => Begun j | _ => s end | Dispatch _ | Device _ => λ _ _, Idle | _ => λ _ s, s end)
  (λ _, True).

Lemma jobs_calm : unaffected job_discipline (λ s, s = Idle).
Proof. split; [done|]. intros X c s P ->. by destruct c. Qed.

Lemma finish_job_stage s task st o : obeys job_discipline s (finish encode task st o).
Proof. done. Qed.

Lemma tool_stage s q grant token request a : s = Idle → obeys job_discipline s (call_tool marshal q grant token request a).
Proof.
  intros ->. unfold call_tool. destruct (parseOperation q) as [op|e]; [|done]. cbv zeta. split; [done|]. intros now _. cbn [next job_discipline].
  destruct (negb _); [done|]. split; [done|]. intros [existing|e] _; cbn [next job_discipline].
  - destruct (negb _); [done|]. split; [done|]. by intros.
  - destruct e; try done. split; [done|]. intros [] _; cbn [next job_discipline negb]; [|done]. split; [done|]. intros [[job []]|e]; cbn [next job_discipline].
    + intros (_ & _ & E). split; [by unfold may, recorded; simpl|]. by intros.
    + intros _. split; [done|]. intros. split; [done|]. by intros.
    + intros _. split; [done|]. by intros.
Qed.

Lemma execute_stage task : obeys job_discipline (Running task) (execute' task).
Proof.
  unfold execute. cbv zeta. split; [done|]. intros [a|] _; cbn [next job_discipline]; [|apply finish_job_stage].
  destruct (_ || _); [apply finish_job_stage|]. split; [done|]. intros now _. cbn [next job_discipline]. destruct (negb _); [apply finish_job_stage|].
  split; [done|]. intros now' _. cbn [next job_discipline]. destruct (negb _); [apply finish_job_stage|]. destruct (identity _) as [fp|]; [|apply finish_job_stage].
  destruct (negb _); [apply finish_job_stage|]. destruct (pin_all _ _ _) as [known|]; [|apply finish_job_stage]. split; [done|]. intros r _. cbn [next job_discipline].
  destruct (record _ _ _). apply finish_job_stage.
Qed.

Section one_grant.
Context (g : string).

(** What this process does to the database never cleans. *)
Lemma keeps_time t t' d : t ≤ t' → keeps json_valid g (t, d) (t', d).
Proof. intros L. split; [done|]. by exists (QFinishJob "" "" "" ""). Qed.

Lemma keeps_op t d o : cleans o g = false → keeps json_valid g (t, d) (t, apply_op json_valid t o d).
Proof. intros C. split; [reflexivity|]. by exists o. Qed.

Lemma answers_keep {X} (c : call X) w x w1 : answers c w x w1 → rtc (keeps json_valid g) (now_ w, db_ w) (now_ w1, db_ w1).
Proof.
  assert (∀ o d', (d' = db_ w ∨ d' = apply_op json_valid (now_ w) o (db_ w)) → cleans o g = false → rtc (keeps json_valid g) (now_ w, db_ w) (now_ w, d')) as K.
  { intros o d' [->| ->] C; [apply rtc_refl|]. apply rtc_once. by apply keeps_op. }
  destruct c; simpl; try (by intros; destruct_and?; subst; apply rtc_refl).
  - intros (d' & Q & ->). apply (K (QCreateDelegation q)); [|done]. simpl. destruct Q as [E|[_ [->| ->]]]; [right; by rewrite <- E|by left|by right].
  - intros (rnd & d' & Q & ->). apply (K (QBeginJob rnd grant rid hash payload)); [|done]. simpl. destruct Q as [E|[_ [->| ->]]]; [right; by rewrite <- E|by left|by right].
  - intros (d' & Q & ->). by apply (K (QFinishJob grant id state result)).
Qed.

Definition owed (s : stage) : list delegation_job := match s with Idle => [] | Begun j => [j] | Running task => [w_job task] end.
Definition sent_jobs (l : list sent) : list delegation_job := map (λ s, w_job (sn_work s)) l.
Definition of_grant (l : list delegation_job) : list delegation_job := List.filter (λ j, String.eqb (j_grant j) g) l.

Record jobs_inv (w : world) (ss : list stage) : Prop := {
  ji_stored : stored json_valid (now_ w, db_ w);
  ji_obeys : Forall2 (obeys job_discipline) ss (threads w);
  ji_once : NoDup (map job_key (of_grant ((ss ≫= owed) ++ sent_jobs (log w))));
  ji_row : ∀ j, j ∈ of_grant ((ss ≫= owed) ++ sent_jobs (log w)) → ∃ k, k ∈ jobs (db_ w) ∧ same_job j k;
  ji_running : ∀ task, Running task ∈ ss → recorded task;
  ji_sent : ∀ s, s ∈ log w → recorded (sn_work s) }.

(** The invariant depends on the jobs owed or sent only up to their order. *)
Lemma once_perm l l' : l ≡ₚ l' → NoDup (map job_key (of_grant l)) → NoDup (map job_key (of_grant l')).
Proof. intros P N. unfold of_grant in *. by rewrite <- (Permutation_map job_key (filter_perm (λ j, String.eqb (j_grant j) g) _ _ P)). Qed.

Lemma of_grant_elem j l : j ∈ of_grant l ↔ j ∈ l ∧ j_grant j = g.
Proof. unfold of_grant. rewrite elem_of_filter_b, String.eqb_eq. done. Qed.

Lemma rows_kept l s s' : rtc (keeps json_valid g) s s' → (∀ j, j ∈ of_grant l → ∃ k, k ∈ jobs s.2 ∧ same_job j k) →
  ∀ j, j ∈ of_grant l → ∃ k, k ∈ jobs s'.2 ∧ same_job j k.
Proof.
  intros K R j Hj. destruct (R j Hj) as (k & Hk & S). apply of_grant_elem in Hj as [_ E].
  assert (j_grant k = g) as Ek by (destruct S as (_ & Sk & _); unfold job_key in Sk; congruence).
  rewrite <- Ek in K. destruct (job_kept_steps json_valid k s s' K Hk) as (m & Hm & Sm). exists m. split; [done|by eapply same_job_trans].
Qed.

Lemma owed_split ss i s : ss !! i = Some s → ∃ l, (ss ≫= owed) ≡ₚ owed s ++ l ∧ ∀ s', (<[i := s']> ss ≫= owed) ≡ₚ owed s' ++ l.
Proof.
  intros L. exists ((take i ss ≫= owed) ++ (drop (S i) ss ≫= owed)).
  assert (∀ x, ((take i ss ++ x :: drop (S i) ss) ≫= owed) ≡ₚ owed x ++ (take i ss ≫= owed) ++ (drop (S i) ss ≫= owed)) as P.
  { intros x. rewrite bind_app. simpl. rewrite !app_assoc. by rewrite (Permutation_app_comm (take i ss ≫= owed)). }
  split; [by rewrite <- P, take_drop_middle|]. intros s'. rewrite insert_take_drop by by eapply lookup_lt_Some. apply P.
Qed.

(** A call either leaves what is owed and sent, but for its order, or begins a
    job whose row is new. *)
Lemma answers_jobs {X} (c : call X) w x w1 ss i s : answers c w x w1 → ss !! i = Some s → may job_discipline c s →
  let L w ss := (ss ≫= owed) ++ sent_jobs (log w) in
  let ss' := <[i := next job_discipline c x s]> ss ++ spawned Running c in
  L w1 ss' ≡ₚ L w ss ∨
  ∃ j, L w1 ss' ≡ₚ j :: L w ss ∧ j ∈ jobs (db_ w1) ∧ job_of (j_grant j) (j_request j) (db_ w) = None.
Proof.
  intros A Hs M. cbv zeta. destruct (owed_split _ _ _ Hs) as (h & P & Q).
  assert (∀ s' t, (<[i:=s']> ss ++ t) ≫= owed ≡ₚ owed s' ++ h ++ (t ≫= owed)) as R by (intros; rewrite bind_app, Q; by rewrite app_assoc).
  assert (∀ w2, log w2 = log w → ((<[i:=s]> ss ++ []) ≫= owed) ++ sent_jobs (log w2) ≡ₚ (ss ≫= owed) ++ sent_jobs (log w)) as Same.
  { intros w2 ->. by rewrite R, P, app_nil_r. }
  destruct c; cbn [next job_discipline spawned] in *; try (left; apply Same; simpl in A; naive_solver).
  - simpl in M. subst s. destruct A as (rnd & d' & [E|[-> _]] & ->); [|left; by apply Same]. destruct x as [[j []]|e]; [|left; by apply Same..].
    right. exists j. symmetry in E. apply BeginJob_Ok in E as (Eg & Er & _ & _ & _ & [[[=] _]|(_ & _ & -> & N & _)]). split; [|split].
    + simpl. rewrite R, P. simpl. by rewrite app_nil_r.
    + simpl. apply elem_of_app. right. by apply list_elem_of_singleton.
    + by rewrite Eg, Er.
  - simpl in M, A. destruct M as [-> _]. subst w1. left. rewrite R, P. simpl. rewrite (Permutation_app_comm h). done.
  - simpl in M, A. subst s w1. left. rewrite R, P. simpl. unfold sent_jobs. rewrite map_app. simpl. rewrite app_nil_r, app_assoc. by rewrite <- Permutation_cons_append.
Qed.

Lemma running_turn {X} (c : call X) x (ss : list stage) i s task : ss !! i = Some s → may job_discipline c s → (∀ t, Running t ∈ ss → recorded t) →
  Running task ∈ <[i := next job_discipline c x s]> ss ++ spawned Running c → recorded task.
Proof.
  intros Hs M I Hr. apply elem_of_app in Hr as [Hr|Hr].
  - apply list_elem_of_lookup in Hr as (k & Hk). apply list_lookup_insert_Some in Hk as [(-> & E & _)|[_ Hk]]; [|by apply I; eapply list_elem_of_lookup_2].
    assert (s = Running task) as ->; [|by apply I; eapply list_elem_of_lookup_2]. destruct c; simpl in E; try done. destruct x as [[j []]|e]; done.
  - destruct c; simpl in Hr; try (by apply elem_of_nil in Hr). apply list_elem_of_singleton in Hr. injection Hr as ->. apply M.
Qed.

Lemma sent_turn {X} (c : call X) w x w1 (ss : list stage) i s t : answers c w x w1 → ss !! i = Some s → may job_discipline c s → (∀ t, Running t ∈ ss → recorded t) →
  (∀ t, t ∈ log w → recorded (sn_work t)) → t ∈ log w1 → recorded (sn_work t).
Proof.
  intros A Hs M I J Ht. destruct c; simpl in A, M; try (apply J; naive_solver). subst w1 s. apply elem_of_app in Ht as [Ht| ->%list_elem_of_singleton]; [by apply J|].
  apply I. by eapply list_elem_of_lookup_2.
Qed.

Lemma jobs_turn w ss i w' : jobs_inv w ss → turn i w w' → ∃ ss', jobs_inv w' ss'.
Proof.
  intros [I1 I2 I3 I4 I5 I6] T. destruct (obeys_turn job_discipline Running ss i w w') as (s & X & c & x & w1 & l & Hs & M & An & -> & F'); [|done..|].
  { intros s task _. apply execute_stage. }
  exists (<[i:=next job_discipline c x s]> ss ++ spawned Running c). pose proof (answers_keep _ _ _ _ An) as K.
  pose proof (answers_jobs _ _ _ _ _ _ _ An Hs M) as J. cbv zeta in J. set (ss' := _ ++ spawned Running c) in *.
  pose proof (rows_kept _ _ _ K I4) as Rows. simpl in Rows. split; simpl.
  - by eapply keeps_stored.
  - exact F'.
  - destruct J as [P|(j & P & Hj & N)]; [by apply (once_perm _ _ (symmetry P))|]. apply (once_perm _ _ (symmetry P)). unfold of_grant. simpl.
    destruct (String.eqb_spec (j_grant j) g) as [E|]; [|done]. simpl. apply NoDup_cons. split; [|done]. intros (y & Ey & Hy)%list_elem_of_fmap.
    destruct (I4 y Hy) as (k & Hk & (_ & Sk & _)). unfold job_of in N. rewrite find_first_None in N. specialize (N k Hk).
    assert (job_key k = job_key j) as Ek by congruence. unfold job_key in Ek. injection Ek as E1 E2. by rewrite E1, E2, !String.eqb_refl in N.
  - intros j Hj. destruct J as [P|(j0 & P & Hj0 & N)].
    + apply Rows. apply of_grant_elem in Hj as [Hj E]. apply of_grant_elem. by rewrite <- P.
    + apply of_grant_elem in Hj as [Hj E]. rewrite P in Hj. apply elem_of_cons in Hj as [->|Hj]; [by exists j0|]. apply Rows. by apply of_grant_elem.
  - intros task. by eapply running_turn.
  - intros t. by eapply sent_turn.
Qed.

Lemma jobs_step w w' : (∃ ss, jobs_inv w ss) → wstep (keeps json_valid g) w w' → ∃ ss, jobs_inv w' ss.
Proof.
  intros [ss [I1 I2 I3 I4 I5 I6]] S. destruct S as [t i w w' L T|w random r|w t d E|w].
  - eapply (jobs_turn (at_time t w) ss); [|exact T]. split; simpl; try done.
    + eapply keeps_stored; [exact I1|]. by apply rtc_once, keeps_time.
  - exists (ss ++ [Idle]). assert ((ss ++ [Idle]) ≫= owed = ss ≫= owed) as Eo by (rewrite bind_app; simpl; by rewrite app_nil_r).
    split; simpl; rewrite ?Eo; try done.
    + apply Forall2_app; [done|]. constructor; [|constructor]. apply (obeys_ServeHTTP _ (λ s, s = Idle) jobs_calm); [|done]. apply tool_stage.
    + intros task [Ht|Ht%list_elem_of_singleton]%elem_of_app; [by apply I5|done].
  - exists ss. split; simpl; try done.
    + eapply keeps_stored; [exact I1|]. by apply rtc_once.
    + apply (rows_kept _ (now_ w, db_ w) (t, d)); [by apply rtc_once|exact I4].
  - exists []. split; simpl; try done.
    + unfold of_grant in *. rewrite List.filter_app, map_app in I3. by apply NoDup_app in I3 as (_ & _ & ?).
    + intros j Hj. apply I4. apply of_grant_elem in Hj as [Hj E]. apply of_grant_elem. split; [apply elem_of_app; by right|done].
    + by intros task Hr%elem_of_nil.
Qed.

(** C17: an operation asked for by URL runs at most once.  However often a URL is
    fetched, however its requests interleave with each other, with other grants'
    and with the relay's own queries, and although statements fail, their answers
    are lost and the process starts again: as long as the grant is not cleaned
    away, at most one operation was ever handed to a device under each request id
    of the grant.  It is the one whose digest the ledger recorded, and its row is
    still there. *)
Theorem operations_run_once w : running (keeps json_valid g) w →
  NoDup (map job_key (of_grant (sent_jobs (log w)))) ∧
  ∀ s, s ∈ log w → recorded (sn_work s) ∧
    (j_grant (w_job (sn_work s)) = g → ∃ k, k ∈ jobs (db_ w) ∧ same_job (w_job (sn_work s)) k).
Proof.
  intros R. assert (∃ ss, jobs_inv w ss) as [ss [I1 I2 I3 I4 I5 I6]].
  { revert w R. apply invariant_reachable; [|apply jobs_step]. intros w (S & _ & Et & El). exists []. split; rewrite ?Et, ?El; simpl; try done.
    - by apply NoDup_nil_2. - by intros j Hj%elem_of_nil. - by intros t Ht%elem_of_nil. - by intros t Ht%elem_of_nil. }
  split; [|split; [by apply I6|]].
  - unfold of_grant in *. rewrite List.filter_app, map_app in I3. by apply NoDup_app in I3 as (_ & _ & ?).
  - intros E. apply I4, of_grant_elem. split; [|done]. apply elem_of_app. right. unfold sent_jobs. by apply (list_elem_of_fmap_2 (λ s, w_job (sn_work s))).
Qed.
End one_grant.

(** ** An operation is one a grant allows *)

(** What a thread knows: the row it added to the ledger, or was started for; the
    access it resolved since, and what the clock said then. *)
Record knowledge := Knows { k_made : option delegation_job; k_access : option (string * access * list Z) }.
Definition nothing : knowledge := Knows None None.
Definition started (task : work) : knowledge := Knows (Some (w_job task)) None.

Definition justified (k : knowledge) (s : sent) : Prop :=
  let task := sn_work s in let op := w_operation task in
  ∃ a t1 t2, k = Knows (Some (w_job task)) (Some (w_token task, a, [t1; t2])) ∧
    Delegated a = true ∧ ac_GrantID a = j_grant (w_job task) ∧ Allows t1 a (o_Target op) = true ∧
    t2 < sn_deadline s ∧ sn_deadline s = effectiveDeadline (j_created (w_job task)) (timeout op) (ac_ExpiresAt a) ∧
    identity (derive seed "wanctl-webfetch-identity-v1" (j_grant (w_job task))) = Some (sn_identity s) ∧
    sn_identity s = ac_ControllerFingerprint a ∧ pin_all t2 (Devices a) Trust.NewMemStore = Some (sn_known s).

Definition grant_discipline : discipline knowledge := Discipline
  (λ X (c : call X) k, match c with Device s => justified k s | Dispatch task => k_made k = Some (w_job task) | _ => True end)
  (λ X (c : call X), match c in call X return X → knowledge → knowledge with
     | BeginJob _ _ _ _ => λ r k, match r with Ok (j, true) => Knows (Some j) None | _ => k end
     | ResolveAccess token => λ r k, match r with Some a => Knows (k_made k) (Some (token, a, [])) | None => k end
     | Clock => λ t k, Knows (k_made k) (match k_access k with Some (token, a, ts) => Some (token, a, ts ++ [t]) | None => None end)
     | _ => λ _ k, k end)
  (λ _, True).

Lemma grants_calm : unaffected grant_discipline (λ _, True).
Proof. split; [done|]. intros X c s P _. by destruct c. Qed.

Lemma tool_grant k q grant token request a : obeys grant_discipline k (call_tool marshal q grant token request a).
Proof.
  unfold call_tool. destruct (parseOperation q) as [op|e]; [|done]. cbv zeta. split; [done|]. intros now _.
  destruct (negb _); [done|]. split; [done|]. intros [existing|e] _.
  - destruct (negb _); [done|]. split; [done|]. by intros.
  - destruct e; try done. split; [done|]. intros [] _; cbn [negb]; [|done]. split; [done|]. intros [[job []]|e] _; (split; [done|]); intros; try done; (split; [done|]); by intros.
Qed.

Lemma execute_grant task : obeys grant_discipline (started task) (execute' task).
Proof.
  unfold execute. cbv zeta. split; [done|]. intros [a|] _; cbn [next grant_discipline]; [|done].
  destruct (negb (Delegated a)) eqn:D; [done|]. destruct (String.eqb_spec (ac_GrantID a) (j_grant (w_job task))) as [G|]; [|done]. cbn [orb negb].
  split; [done|]. intros t1 _. cbn [next grant_discipline app k_made k_access started]. destruct (Allows t1 a _) eqn:Al; [cbn [negb]|done].
  split; [done|]. intros t2 _. cbn [next grant_discipline app k_made k_access]. destruct (Z.ltb_spec t2 (effectiveDeadline (j_created (w_job task)) (timeout (w_operation task)) (ac_ExpiresAt a))) as [Lt|]; [cbn [negb]|done].
  destruct (identity _) as [fp|] eqn:If; [|done]. destruct (String.eqb_spec fp (ac_ControllerFingerprint a)) as [Ef|]; [cbn [negb]|done].
  destruct (pin_all _ _ _) as [known|] eqn:Pk; [|done]. apply negb_false_iff in D. split; [by exists a, t1, t2|]. intros r _. by destruct (record _ _ _).
Qed.

Fixpoint in_order (t : Z) (ts : list Z) (now : Z) : Prop := match ts with [] => t ≤ now | u :: ts => t ≤ u ∧ in_order u ts now end.

Lemma in_order_later t ts now now' : in_order t ts now → now ≤ now' → in_order t ts now'.
Proof. revert t. induction ts as [|u ts IH]; simpl; [lia|]. intros t [L O] N. split; [done|by apply IH]. Qed.

Lemma in_order_snoc t ts now : in_order t ts now → in_order t (ts ++ [now]) now.
Proof. revert t. induction ts as [|u ts IH]; simpl; [by intros; split; [|reflexivity]|]. intros t [L O]. split; [done|by apply IH]. Qed.

(** The row was added by now; the access was resolved from the database this
    very run held in one of the states [ws], when [l] or less had been handed
    over and the row was there, and what the clock said came after. *)
Definition known_true (ws : list world) (l : list sent) (now : Z) (k : knowledge) : Prop :=
  (∀ j, k_made k = Some j → j_created j ≤ now) ∧
  ∀ token a ts, k_access k = Some (token, a, ts) →
    ∃ v, v ∈ ws ∧ log v `prefix_of` l ∧ (∀ j, k_made k = Some j → j_created j ≤ now_ v) ∧
      resolveAccess (now_ v) token (db_ v) = Some a ∧ in_order (now_ v) ts now.

Lemma sub_snoc {A} (l : list A) x : l ⊆ l ++ [x].
Proof. intros y Hy. apply elem_of_app. by left. Qed.

Lemma known_later ws ws' l l' now now' k : known_true ws l now k → ws ⊆ ws' → l `prefix_of` l' → now ≤ now' → known_true ws' l' now' k.
Proof.
  intros [M R] W P L. split; [intros j Hj; specialize (M j Hj); lia|]. intros token a ts E. destruct (R token a ts E) as (v & Hv & Pv & Mv & Rv & O).
  exists v. split_and!; [by apply W|by etrans|done|done|by eapply in_order_later].
Qed.

Record grants_inv (ws : list world) (w : world) (ks : list knowledge) : Prop := {
  gi_obeys : Forall2 (obeys grant_discipline) ks (threads w);
  gi_known : ∀ k, k ∈ ks → known_true ws (log w) (now_ w) k;
  gi_sent : ∀ l1 s l2, log w = l1 ++ s :: l2 → ∃ k, justified k s ∧ known_true ws l1 (now_ w) k }.

Lemma grants_weaken ws ws' w w' ks : grants_inv ws w ks → ws ⊆ ws' → now_ w ≤ now_ w' → log w' = log w →
  Forall2 (obeys grant_discipline) ks (threads w') → grants_inv ws' w' ks.
Proof.
  intros [_ I2 I3] W L E O. split; [done|..]; rewrite E.
  - intros k Hk. by eapply known_later; [apply I2| |reflexivity|].
  - intros l1 s l2 Es. destruct (I3 l1 s l2 Es) as (k & J & K). exists k. split; [done|]. by eapply known_later; [exact K| |reflexivity|].
Qed.

Lemma answers_now {X} (c : call X) w x w1 : answers c w x w1 → now_ w1 = now_ w.
Proof. destruct c; simpl; naive_solver. Qed.

Lemma answers_log {X} (c : call X) w x w1 : answers c w x w1 → log w1 = log w ++ (match c with Device s => [s] | _ => [] end).
Proof. destruct c; simpl; intros A; rewrite ?app_nil_r; naive_solver. Qed.

Lemma begun_now now rnd grant rid hash payload d j : (Grants.BeginJob json_valid now rnd grant rid hash payload d).1 = Ok (j, true) → j_created j = now.
Proof. unfold Grants.BeginJob. cbv zeta. outcomes; simpl; intros [=]; by subst. Qed.

(** [v], the state the call leaves, has the clock and, of an access resolved in
    it, the database and what was handed over before. *)
Lemma next_known {X} (c : call X) ws w x w1 v k : answers c w x w1 → known_true ws (log w) (now_ w) k →
  now_ v = now_ w1 → db_ v = db_ w1 → log v = log w1 → known_true (ws ++ [v]) (log w1) (now_ w) (next grant_discipline c x k).
Proof.
  intros A K Nv Dv Lv. pose proof (answers_now _ _ _ _ A) as En.
  assert (known_true (ws ++ [v]) (log w1) (now_ w) k) as K'.
  { eapply known_later; [exact K|apply sub_snoc| |done]. rewrite (answers_log _ _ _ _ A). by apply prefix_app_r. }
  destruct c; try exact K'; simpl in A; cbn [next grant_discipline].
  - destruct A as [-> _]. destruct K' as [M R]. split; [exact M|]. simpl. destruct (k_access k) as [[[token a] ts]|]; [|done].
    intros ? ? ? [= <- <- <-]. destruct (R _ _ _ eq_refl) as (u & Hu & Pu & Mu & Ru & O). exists u. split_and!; try done. by apply in_order_snoc.
  - destruct x as [a|]; [|exact K']. destruct A as [[E|E] ->]; [|done]. destruct K' as [M _]. split; [exact M|]. simpl. intros ? ? ? [= <- <- <-].
    exists v. split_and!; [apply elem_of_app; right; by apply list_elem_of_singleton|by rewrite Lv|by rewrite Nv|by rewrite Nv, Dv|rewrite Nv; simpl; lia].
  - destruct x as [[j []]|e]; try exact K'. destruct A as (rnd & d' & [E|[? _]] & ->); [|done]. split; [|done].
    simpl. intros j0 [= <-]. rewrite (begun_now (now_ w) rnd grant rid hash payload (db_ w) j); [lia|by rewrite <- E].
Qed.

Lemma grants_turn ws w ks i w' : grants_inv ws w ks → turn i w w' → ∃ ks', grants_inv (ws ++ [w']) w' ks'.
Proof.
  intros [I2 I3 I4] T. destruct (obeys_turn grant_discipline started ks i w w') as (k & X & c & x & w1 & l & Hk & M & An & -> & F'); [|done..|].
  { intros s task _. apply execute_grant. }
  set (v := with_threads l w1). exists (<[i:=next grant_discipline c x k]> ks ++ spawned started c).
  pose proof (answers_now _ _ _ _ An) as En. pose proof (answers_log _ _ _ _ An) as El.
  assert (known_true ws (log w) (now_ w) k) as Kk by by eapply I3, list_elem_of_lookup_2.
  assert (∀ y, known_true ws (log w) (now_ w) y → known_true (ws ++ [v]) (log w1) (now_ w) y) as Later.
  { intros y Ky. eapply known_later; [exact Ky|apply sub_snoc| |done]. rewrite El. by apply prefix_app_r. }
  split; simpl; rewrite ?En.
  - exact F'.
  - intros y [Hy|Hy]%elem_of_app.
    + apply list_elem_of_lookup in Hy as (j & Hj). apply list_lookup_insert_Some in Hj as [(-> & <- & _)|[_ Hj]]; [by eapply next_known|].
      by eapply Later, I3, list_elem_of_lookup_2.
    + destruct c; simpl in Hy; try (by apply elem_of_nil in Hy). apply list_elem_of_singleton in Hy as ->. split; [|done].
      simpl. intros j [= <-]. destruct (Later k Kk) as [Mk _]. by apply Mk.
  - intros l1 s l2 Es. rewrite El in Es. induction l2 as [|s2 l2 _] using rev_ind.
    + destruct c; rewrite ?app_nil_r in Es; try by (destruct (I4 l1 s [] Es) as (k0 & J & K); exists k0; split; [done|]; eapply known_later; [exact K|apply sub_snoc|done|done]).
      apply app_inj_tail in Es as [<- <-]. exists k. split; [exact M|]. eapply known_later; [exact Kk|apply sub_snoc|done|done].
    + assert (∃ l3, log w = l1 ++ s :: l3) as [l3 E3].
      { destruct c; rewrite ?app_nil_r in Es; try by eexists. rewrite app_comm_cons, app_assoc in Es. apply app_inj_tail in Es as [-> _]. by eexists. }
      destruct (I4 l1 s l3 E3) as (k0 & J & K). exists k0. split; [done|]. eapply known_later; [exact K|apply sub_snoc|done|done].
Qed.

Lemma grants_run ws w : run (dstep json_valid) ws w → ∃ ks, grants_inv ws w ks.
Proof.
  induction 1 as [w S|ws w w' R [ks I] S].
  - destruct S as (_ & _ & Et & El). exists []. split; rewrite ?Et, ?El; [done|by intros k Hk%elem_of_nil|]. intros l0 s0 l2 E; by destruct l0.
  - destruct S as [t i w w' L T|w random r|w t d E|w].
    + eapply (grants_turn ws (at_time t w) ks); [|exact T]. eapply grants_weaken; [exact I|done|done|done|apply I].
    + exists (ks ++ [nothing]). assert (grants_inv (ws ++ [with_threads (threads w ++ [ServeHTTP' random r]) w]) w ks) as I'.
      { eapply grants_weaken; [exact I|apply sub_snoc|lia|done|apply I]. }
      destruct I' as [O K J]. split; simpl; [|intros k [Hk| ->%list_elem_of_singleton]%elem_of_app; [by apply K|split; [done|by intros ???]]|exact J].
      apply Forall2_app; [exact O|]. constructor; [|constructor]. apply (obeys_ServeHTTP _ (λ _, True) grants_calm); [|done]. intros. apply tool_grant.
    + exists ks. eapply grants_weaken; [exact I|apply sub_snoc|apply E|done|apply I].
    + exists []. assert (grants_inv (ws ++ [World (now_ w) (db_ w) fresh_slots ∅ [] (log w)]) w ks) as [_ _ J].
      { eapply grants_weaken; [exact I|apply sub_snoc|lia|done|apply I]. }
      split; simpl; [done|by intros k Hk%elem_of_nil|exact J].
Qed.

(** The client knows the devices of the grant, under the names and with the
    certificates it was given for, and no others. *)
Lemma pin_loop_kept now name fp ks m r : Trust.pin_loop now name fp false ks m = Ok r →
  ∀ k p, r.2 !! k = Some p → (∃ q, m !! k = Some q ∧ Trust.Name q = Trust.Name p ∧ Trust.Fingerprint q = Trust.Fingerprint p).
Proof.
  induction ks as [|k0 ks IH]; simpl; [intros [= <-]; naive_solver|]. destruct (m !! k0) as [q|] eqn:Q; [|exact IH].
  destruct (negb (String.eqb (Trust.Name q) name)); [exact IH|]. destruct (String.eqb_spec (Trust.Fingerprint q) fp); [|done]. intros [= <-] k p. simpl.
  intros [[<- <-]|[_ H0]]%lookup_insert_Some; [by exists q|by exists p].
Qed.

Lemma pin_all_peers now l : ∀ s s', pin_all now l s = Some s' → ∀ k p, Trust.peers s' !! k = Some p →
  (∃ q, Trust.peers s !! k = Some q ∧ Trust.Name q = Trust.Name p ∧ Trust.Fingerprint q = Trust.Fingerprint p) ∨
  ∃ x, x ∈ l ∧ Trust.Name p = Target x ∧ Trust.Fingerprint p = d_Fingerprint x.
Proof.
  induction l as [|x l IH]; intros s s'; simpl; [intros [= ->]; naive_solver|]. destruct (Trust.Pin _ _ _ _ _ _) as [s1|] eqn:P; [|done].
  intros E k p Hp. destruct (IH s1 s' E k p Hp) as [(q & Hq & Nq & Fq)|(y & Hy & ?)]; [|right; exists y; split; [by right|done]].
  unfold Trust.Pin in P. destruct (String.eqb _ _); [done|]. destruct (negb _); [done|]. destruct (Trust.pin_loop _ _ _ _ _ _) as [[b m]|] eqn:Lp; [|done].
  pose proof (pin_loop_kept _ _ _ _ _ _ Lp) as Kept. simpl in Kept.
  assert (∀ st, Trust.peers (Trust.save st) = Trust.peers st) as Sv by (intros [[] ? ?]; done).
  destruct b; injection P as <-; rewrite Sv in Hq; simpl in Hq.
  - left. destruct (Kept k q Hq) as (q0 & ? & ? & ?). exists q0. split_and!; congruence.
  - apply lookup_insert_Some in Hq as [[_ <-]|[_ Hq]]; [right; exists x; split; [by left|done]|].
    left. destruct (Kept k q Hq) as (q0 & ? & ? & ?). exists q0. split_and!; congruence.
Qed.

(** A delegated access bound to a controller is an approved grant. *)
Lemma access_grant now token d a : resolveAccess now token d = Some a → Delegated a = true → ac_ControllerFingerprint a ≠ ""%string →
  ∃ r, readDelegation now (ac_GrantID a) "" d = Some r ∧ q_Status r = "approved"%string ∧ q_Fingerprint r = ac_ControllerFingerprint a ∧
    q_ExpiresAt r = Some (ac_ExpiresAt a) ∧ q_Devices r = Devices a.
Proof.
  unfold resolveAccess. destruct (find_first _ (tokens d)) as [t|]; [|done]. destruct (has_scope d t).
  { unfold resolveScoped. destruct (find_first _ _) as [s|]; [|done]. destruct (_ || _); [done|]. by intros [= <-] _ []. }
  destruct (negb (String.eqb (t_kind t) "delegated")); [by intros [= <-]|]. destruct (readDelegation _ _ _ _) as [r|] eqn:Rd; [|done].
  destruct (q_ExpiresAt r) as [e|] eqn:Qe; [|done]. destruct (_ || _) eqn:B; [done|]. rewrite !orb_false_iff in B. destruct B as [[St _] _].
  apply negb_false_iff, String.eqb_eq in St. intros [= <-] _ _. simpl. exists r. split_and!; try done. rewrite <- Rd.
  assert (q_ID r = match grant_named (t_id t) d with Some g => g_id g | None => "" end)%string as ->; [|done].
  revert Rd. unfold readDelegation, delegation_of. destruct (find_first _ _) as [g|] eqn:G; [|done]. apply find_first_Some in G as [_ G%String.eqb_eq].
  destruct (_ || _); [|done]. by intros [= <-].
Qed.

(** What an owner's grant in the database of [v] says of an operation that was
    handed to a device. *)
Definition granted (v : world) (s : sent) : Prop :=
  let job := w_job (sn_work s) in let op := w_operation (sn_work s) in let d := db_ v in
  ∃ r e x,
    readDelegation (now_ v) (j_grant job) "" d = Some r ∧ q_Status r = "approved"%string ∧ q_Fingerprint r = sn_identity s ∧ q_ExpiresAt r = Some e ∧
    sn_deadline s ≤ e ∧ sn_deadline s ≤ j_created job + timeout op * second ∧
    x ∈ q_Devices r ∧ Target x = o_Target op ∧ same_device d (d_Namespace x) (d_ID x) (d_Fingerprint x) = true ∧
    ∀ k p, Trust.peers (sn_known s) !! k = Some p → ∃ y, y ∈ q_Devices r ∧ Trust.Name p = Target y ∧ Trust.Fingerprint p = d_Fingerprint y.

(** C18: what is handed to a device is what a live grant allows.  Take any run,
    with all the states it went through, and any operation it handed to a
    device.  The run was, before the operation was handed over and, by its clock,
    not before it was recorded in the ledger and before its deadline, in a state
    whose database held an approved, unrevoked and unexpired grant of this id to
    the adapter's own controller key, naming the target, a device that still had
    the certificate it was granted with.  The deadline is within the grant and the
    operation's own timeout, and the client accepts no certificate but those of
    the grant's devices. *)
Theorem operations_are_granted ws w l1 s l2 : (∀ b, identity b ≠ Some ""%string) → run (dstep json_valid) ws w →
  log w = l1 ++ s :: l2 →
  ∃ v, v ∈ ws ∧ log v `prefix_of` l1 ∧ j_created (w_job (sn_work s)) ≤ now_ v < sn_deadline s ∧ granted v s.
Proof.
  intros Ne R Hs. destruct (grants_run _ _ R) as [ks [_ _ I4]].
  destruct (I4 l1 s l2 Hs) as (k & (a & t1 & t2 & -> & D & G & Al & Lt & Dl & If & Ef & Pk) & [_ K]).
  destruct (K _ _ _ eq_refl) as (v & Hv & Pv & Mv & Ra & L1 & L2 & L3). specialize (Mv _ eq_refl).
  assert (ac_ControllerFingerprint a ≠ ""%string) as Nf by (rewrite <- Ef; intros E; rewrite E in If; by apply Ne in If).
  destruct (access_grant _ _ _ _ Ra D Nf) as (r & Rd & St & Fp & Qe & Dv). destruct (approved_grant _ _ _ _ Rd St) as [Same _].
  unfold Allows in Al. rewrite D in Al. cbn [negb] in Al. destruct (is_zero (ac_ExpiresAt a)) eqn:Iz; [done|]. destruct (negb (t1 <? ac_ExpiresAt a)); [done|].
  cbn [orb] in Al. apply any_true in Al as (x & Hx & Tx%String.eqb_eq). exists v. split_and!; [done|done|done|lia|]. unfold granted. cbv zeta.
  exists r, (ac_ExpiresAt a), x. rewrite <- G, Dv. unfold effectiveDeadline in Dl. rewrite Iz in Dl. cbn [negb andb] in Dl.
  split_and!; try done; try congruence.
  - destruct (Z.ltb_spec (ac_ExpiresAt a) (j_created (w_job (sn_work s)) + timeout (w_operation (sn_work s)) * second)); lia.
  - destruct (Z.ltb_spec (ac_ExpiresAt a) (j_created (w_job (sn_work s)) + timeout (w_operation (sn_work s)) * second)); lia.
  - apply Same. by rewrite Dv.
  - intros k p Hp. destruct (pin_all_peers _ _ _ _ Pk k p Hp) as [(q & Hq & _)|Y]; [|exact Y]. simpl in Hq. by rewrite lookup_empty in Hq.
Qed.

(** ** Executable runs, in which no call to the database fails *)

Definition reply (rnd : string) (r : client_answer) {X} (c : call X) (w : world) : X * world :=
  let d := db_ w in let now := now_ w in
  match c in call X return X * world with
  | Clock => (now, w)
  | RateAllowed key limit => let '(b, m) := rateAllowed now key limit (rates_ w) in (b, with_rates m w)
  | GetDelegationByTicket id hash => (Grants.GetDelegationByTicket now id hash d, w)
  | CreateDelegation q => let '(x, d) := Grants.CreateDelegation now q d in (x, with_db d w)
  | ResolveAccess token => (resolveAccess now token d, w)
  | FindJob grant rid => (Grants.FindJob grant rid d, w)
  | BeginJob grant rid hash payload => let '(x, d) := Grants.BeginJob json_valid now rnd grant rid hash payload d in (x, with_db d w)
  | GetJob grant id => (Grants.GetJob grant id d, w)
  | FinishJob grant id state result => (tt, with_db (Grants.FinishJob json_valid grant id state result d).2 w)
  | Reserve grant => let '(b, s) := reserve grant (slots_ w) in (b, with_slots s w)
  | Release grant => (tt, with_slots (release grant (slots_ w)) w)
  | Dispatch task => (tt, with_threads (threads w ++ [execute' task]) w)
  | Device s => (r, with_log (log w ++ [s]) w)
  end.

Lemma reply_answers rnd r {X} (c : call X) w : answers c w (reply rnd r c w).1 (reply rnd r c w).2.
Proof.
  destruct c; simpl; try by eauto.
  - by destruct (rateAllowed _ _ _ _).
  - destruct (Grants.CreateDelegation _ _ _) as [x d] eqn:E. simpl. exists d. split; [by left|done].
  - destruct (Grants.BeginJob _ _ _ _ _ _ _ _) as [x d] eqn:E. simpl. exists rnd, d. rewrite E. split; [by left|done].
  - by destruct (reserve _ _).
Qed.

Inductive event := Turn (i : nat) (t : Z) (rnd : string) (r : client_answer) | Arrive (random : option string) (r : http_request) | Asked (t : Z) (o : op) | Again.

Definition happens (g : string) (w : world) (e : event) : option world :=
  match e with
  | Turn i t rnd r =>
      if t <? now_ w then None
      else match threads w !! i with
           | Some (Do c k) => let '(x, w1) := reply rnd r c (at_time t w) in Some (with_threads (<[i := k x]> (threads w1)) w1)
           | _ => None
           end
  | Arrive random r => Some (with_threads (threads w ++ [ServeHTTP' random r]) w)
  | Asked t o => if (t <? now_ w) || cleans o g then None else Some (with_db (apply_op json_valid t o (db_ w)) (at_time t w))
  | Again => Some (World (now_ w) (db_ w) fresh_slots ∅ [] (log w))
  end.

Lemma happens_step g w e w' : happens g w e = Some w' → wstep (keeps json_valid g) w w' ∧ wstep (dstep json_valid) w w'.
Proof.
  destruct e as [i t rnd r|random r|t o|]; simpl.
  - destruct (Z.ltb_spec t (now_ w)); [done|]. destruct (threads w !! i) as [[|X c k]|] eqn:T; [done| |done].
    destruct (reply rnd r c (at_time t w)) as [x w1] eqn:E. intros [= <-].
    assert (turn i (at_time t w) (with_threads (<[i:=k x]> (threads w1)) w1)) as U.
    { unfold turn. simpl. rewrite T. exists x, w1. split; [|done]. pose proof (reply_answers rnd r c (at_time t w)) as A. by rewrite E in A. }
    split; by eapply WTurn.
  - intros [= <-]. split; constructor.
  - destruct (Z.ltb_spec t (now_ w)); [done|]. destruct (cleans o g) eqn:C; [done|]. intros [= <-].
    split; (apply (WQuery _ w t); split; [done|]; eauto).
  - intros [= <-]. split; constructor.
Qed.

Fixpoint happen (g : string) (w : world) (l : list event) : option world :=
  match l with [] => Some w | e :: l => match happens g w e with Some w => happen g w l | None => None end end.

Lemma happen_run g w l w' ws : run (dstep json_valid) ws w → happen g w l = Some w' → ∃ ws', run (dstep json_valid) (ws ++ ws') w'.
Proof.
  revert w ws. induction l as [|e l IH]; simpl; [intros w ws R [= <-]; exists []; by rewrite app_nil_r|].
  intros w ws R. destruct (happens g w e) as [w1|] eqn:E; [|done]. apply happens_step in E as [_ E]. intros H1.
  destruct (IH w1 (ws ++ [w1]) (RunStep _ _ _ _ R E) H1) as [ws' R']. exists (w1 :: ws'). by rewrite <- app_assoc in R'.
Qed.

Lemma happen_running g w l w' : wstart w → happen g w l = Some w' → running (keeps json_valid g) w' ∧ running (dstep json_valid) w'.
Proof.
  intros S. assert (running (keeps json_valid g) w ∧ running (dstep json_valid) w) as R by by split; apply reachable_init.
  clear S. revert w R. induction l as [|e l IH]; simpl; [by intros w R [= <-]|]. intros w [R1 R2]. destruct (happens g w e) as [w1|] eqn:E; [|done].
  apply happens_step in E as [E1 E2]. apply IH. split; by eapply reachable_step.
Qed.
End runs.

(** ** A run: a request, its approval, a command, and the same URL again *)

Module Demo.

Definition start_time : Z := 1000000000 * second.
Definition device_db : db := @run_ops ascii_libraries (λ _, true) [(1, QRegisterDevice "u1" sample_id "box" sample_fp)] empty_db.
Definition start : world := World start_time device_db fresh_slots ∅ [] [].

Definition ticket : string := "1000000000-aaaaaaaaaaaaaaaaaaaaaaaaaaaaaaaaaaaaaaaaaaaaaaaa".
Definition identity (b : string) : option string := Some sample_fp.
Definition plain_json (op : Operation) : string := o_Command op.
Definition no_json (s : string) : option Operation := None.
Definition grant : string := "d_" ++ stake 32 (digest ticket).
Definition fetch (path : string) (q : gmap string (list string)) : http_request := HttpRequest "GET" 100 "" path (Some q) "203.0.113.9".
Definition command_url : http_request :=
  fetch ("/webfetch/s/" ++ ticket ++ "/call")
    {["rid" := ["q1"]; "tool" := ["exec"]; "target" := ["u1/" ++ sample_id]; "command" := ["uptime"]]}%string.
Definition turns (i n : nat) (t : Z) (rnd : string) : list event := repeat (Turn i t rnd (Executed [(false, "up 3 days")] 0 None)) n.

Definition story : list event :=
  [Arrive None (fetch ("/webfetch/s/" ++ ticket) ∅)] ++ turns 0 6 (start_time + 1) ""
  ++ [Asked (start_time + 2) (QApproveDelegation (Approval grant "u1" [sample_id] 60 sample_fp {[sample_id := sample_fp]}))]
  ++ [Arrive None command_url] ++ turns 1 9 (start_time + 3) "a1".
Definition retry : list event := turns 1 1 (start_time + 3) "" ++ turns 2 6 (start_time + 4) "" ++ [Again; Arrive None command_url] ++ turns 0 7 (start_time + 5) "b2".

Abbreviation happen' := (@happen ascii_libraries (λ _, true) "seed" identity plain_json no_json (λ _ _ _, "{}"%string) (λ _, true) grant).

Definition after (l : list event) : option world := happen' start l.

(** The command runs while its slot is held, once, and the process that starts
    again answers the same URL from the ledger. *)
Definition busy_world : world := default start (after story).
Definition end_world : world := default start (after (story ++ retry)).

Lemma fresh_ok : @wstart ascii_libraries (λ _, true) start.
Proof.
  split; [|done]. apply (@keeps_stored ascii_libraries (λ _, true) "" (1, device_db)).
  - exact (@stored_run ascii_libraries (λ _, true) 0 [(1, QRegisterDevice "u1" sample_id "box" sample_fp)] eq_refl).
  - apply rtc_once. by apply keeps_time.
Qed.

Lemma after_running l w : after l = Some w →
  @running ascii_libraries (λ _, true) "seed" identity plain_json no_json (λ _ _ _, "{}"%string) (λ _, true) (@keeps ascii_libraries (λ _, true) grant) w
  ∧ @running ascii_libraries (λ _, true) "seed" identity plain_json no_json (λ _ _ _, "{}"%string) (λ _, true) (@dstep ascii_libraries (λ _, true)) w.
Proof.
  exact (@happen_running ascii_libraries (λ _, true) "seed" identity plain_json no_json (λ _ _ _, "{}"%string) (λ _, true) grant start l w fresh_ok).
Qed.

Lemma some_default (o : option world) : match o with Some _ => true | None => false end = true → o = Some (default start o).
Proof. by destruct o. Qed.

Lemma busy_ran : after story = Some busy_world.
Proof. apply some_default. vm_compute. reflexivity. Qed.

Lemma end_ran : after (story ++ retry) = Some end_world.
Proof. apply some_default. vm_compute. reflexivity. Qed.

Lemma answered_once : map (λ p, match p with Ret (Some (Job j)) => Some (ja_status j, ja_duplicate j) | _ => None end) (threads end_world) = [Some ("done"%string, true)]
  ∧ length (log end_world) = 1%nat ∧ s_total (slots_ busy_world) = 1.
Proof. vm_compute. done. Qed.

Lemma slots_returned_witness : ∃ held, account (slots_ busy_world) held ∧ (length held ≤ 2)%nat.
Proof.
  destruct (@slots_returned ascii_libraries (λ _, true) "seed" identity plain_json no_json (λ _ _ _, "{}"%string) (λ _, true) _ busy_world
              (proj2 (after_running story busy_world busy_ran))) as (held & A & L & _).
  exists held. split; [exact A|]. etrans; [exact L|]. vm_compute. lia.
Defined.

Lemma operations_run_once_witness : NoDup (map job_key (of_grant grant (sent_jobs (log end_world)))) ∧ length (sent_jobs (log end_world)) = 1%nat.
Proof.
  split; [|vm_compute; reflexivity].
  exact (proj1 (@operations_run_once ascii_libraries (λ _, true) "seed" identity plain_json no_json (λ _ _ _, "{}"%string) (λ _, true) grant end_world
           (proj1 (after_running (story ++ retry) end_world end_ran)))).
Defined.

Lemma sent_once : ∃ s, log end_world = [s] ∧ j_created (w_job (sn_work s)) = start_time + 3.
Proof.
  assert (match log end_world with [s] => Z.eqb (j_created (w_job (sn_work s))) (start_time + 3) | _ => false end = true) as B by (vm_compute; reflexivity).
  destruct (log end_world) as [|s [|? ?]]; [done| |done]. exists s. split; [done|by apply Z.eqb_eq].
Qed.

Lemma operations_are_granted_witness : ∃ ws s v, log end_world = [s] ∧
  @run ascii_libraries (λ _, true) "seed" identity plain_json no_json (λ _ _ _, "{}"%string) (λ _, true) (@dstep ascii_libraries (λ _, true)) ws end_world ∧
  v ∈ ws ∧ log v = [] ∧ start_time + 3 ≤ now_ v ∧ granted v s.
Proof.
  destruct sent_once as (s & E & C).
  destruct (@happen_run ascii_libraries (λ _, true) "seed" identity plain_json no_json (λ _ _ _, "{}"%string) (λ _, true) grant start (story ++ retry) end_world [start]
              (@RunStart _ _ _ _ _ _ _ _ (@dstep ascii_libraries (λ _, true)) start fresh_ok) end_ran) as [ws R].
  destruct (@operations_are_granted ascii_libraries (λ _, true) "seed" identity plain_json no_json (λ _ _ _, "{}"%string) (λ _, true) _ end_world [] s []
              ltac:(intros b [=]) R E) as (v & Hv & Pv & [Cv _] & G).
  exists ([start] ++ ws), s, v. rewrite C in Cv. apply prefix_nil_inv in Pv. split_and!; [exact E|exact R|exact Hv|exact Pv|exact Cv|exact G].
Defined.

End Demo.
