(* ===== verification/DeviceInv.v ===== *)
(** Devices of a namespace: one row per id, names that never stand for two of
    them, and what an installation keeps when it gets an id of its own. *)

From S2P Require Import Prelude GoStrings GoUtf8 Trust Tables Accounts Friends StoreOps.

Local Open Scope Z_scope.

Definition device_key (v : device) : string * string := (d_owner v, d_id v).

Definition devices_ok (d : db) : Prop := NoDup (map device_key (devices d)).

Lemma device_is_spec ns id v : device_is ns id v = true ↔ device_key v = (ns, id).
Proof.
  unfold device_is, device_key. rewrite andb_true_iff, !String.eqb_eq. split; [by intros [-> ->]|by intros [= -> ->]].
Qed.

Section devices_inv.
Context `{Libraries} (json_valid : string → bool).

Lemma device_of_Some ns id d v : device_of ns id d = Some v → v ∈ devices d ∧ device_key v = (ns, id).
Proof. intros [? ?%device_is_spec]%find_first_Some. done. Qed.

Lemma device_of_None ns id d v : device_of ns id d = None → v ∈ devices d → device_key v ≠ (ns, id).
Proof. unfold device_of. rewrite find_first_None. intros N Hv E%device_is_spec. by rewrite N in E. Qed.

Lemma device_of_elem d v : devices_ok d → v ∈ devices d → device_of (d_owner v) (d_id v) d = Some v.
Proof.
  intros N Hv. apply (find_first_unique device_key); [done|done|by apply device_is_spec|]. by intros y ->%device_is_spec.
Qed.

(** ** One row per id *)

Lemma devices_snoc l v : NoDup (map device_key l) → (∀ y, y ∈ l → device_key y ≠ device_key v) → NoDup (map device_key (l ++ [v])).
Proof. apply NoDup_snoc. Qed.

Lemma least_id_spec l v : least_id l = Some v → v ∈ l.
Proof.
  unfold least_id. assert (∀ o, (∀ w, o = Some w → w ∈ l) → ∀ l', (∀ w, w ∈ l' → w ∈ l) →
    fold_left (λ best v, match best with Some b => if String.ltb (d_id v) (d_id b) then Some v else best | None => Some v end) l' o = Some v → v ∈ l) as A.
  { intros o Ho l'. revert o Ho. induction l' as [|w l' IH]; intros o Ho Sub; simpl; [by apply Ho|]. apply IH.
    - intros x E. destruct o as [b|]; [destruct (String.ltb _ _)|]; simplify_eq; [apply Sub; by left|by apply Ho|apply Sub; by left].
    - intros x Hx. apply Sub. by right. }
  by apply A.
Qed.

Lemma legacy_of_spec ns name fp d v : legacy_of ns name fp d = Some v →
  v ∈ devices d ∧ d_owner v = ns ∧ d_fp v = Some fp ∧ d_usesID v = false.
Proof.
  unfold legacy_of. destruct (find_first _ _) as [w|] eqn:F.
  - intros [= ->]. apply find_first_Some in F as [Hv E]. by ssplit.
  - intros [Hv E]%least_id_spec%elem_of_filter_b. by ssplit.
Qed.

(** Renaming one row to an id nobody has keeps the ids apart. *)
Lemma promote_keys ns old id l (f : device → device) : NoDup (map device_key l) → (∀ v, device_key (f v) = (ns, id)) →
  (∀ v, v ∈ l → device_key v ≠ (ns, id)) → NoDup (map device_key (update_where (device_is ns old) f l)).
Proof.
  intros N F Fresh. unfold update_where. induction l as [|v l IH]; simpl; [done|]. simpl in N. apply NoDup_cons in N as [Nv N].
  assert (∀ w, w ∈ l → device_key w ≠ (ns, id)) as Fresh' by (intros w Hw; apply Fresh; by right).
  specialize (IH N Fresh'). apply NoDup_cons. split; [|done]. intros (w & Ew & (x & -> & Hx)%list_elem_of_fmap)%list_elem_of_fmap.
  destruct (device_is ns old v) eqn:Dv, (device_is ns old x) eqn:Dx; rewrite ?F in Ew.
  - apply device_is_spec in Dv, Dx. apply Nv. rewrite Dv, <- Dx. by apply list_elem_of_fmap_2.
  - by apply (Fresh' x).
  - apply (Fresh v); [by left|done].
  - apply Nv. rewrite Ew. by apply list_elem_of_fmap_2.
Qed.

Lemma update_keys p f l : (∀ v, device_key (f v) = device_key v) → NoDup (map device_key l) → NoDup (map device_key (update_where p f l)).
Proof. intros F N. by rewrite map_update_where. Qed.

Lemma registered now ns id name fp d : devices_ok d → devices_ok (RegisterDevice now ns id name fp d).2.
Proof.
  intros N. unfold RegisterDevice.
  assert (∀ k d', devices_ok d' →
    devices_ok (match device_of ns id d' with
                | None => (Ok (negb k), on_devices (λ l, l ++ [Device ns id name None None (Some fp) true now]) d')
                | Some v => if d_usesID v then (Ok (negb k), on_devices (update_where (device_is ns id) (renew_device now name fp)) d') else (Err ErrRegistration, d)
                end : result db_error bool * db).2) as Fin.
  { intros k d' N'. destruct (device_of ns id d') as [v|] eqn:D.
    - destruct (d_usesID v); [|done]. by apply update_keys.
    - apply devices_snoc; [done|]. intros y Hy. by eapply device_of_None. }
  destruct (bool_decide_reflect (is_Some (device_of ns id d))) as [_|Nk]; [by apply Fin|].
  destruct (legacy_of ns name fp d) as [v|] eqn:L; apply Fin; [|done]. unfold promote, devices_ok. simpl.
  apply legacy_of_spec in L as (Hv & Ow & _). assert (device_of ns id d = None) as D by (apply eq_None_not_Some; done).
  subst ns. unfold update_where.
  rewrite (map_ext_in _ (λ w, if device_is (d_owner v) (d_id v) w then Device (d_owner v) id (d_display w) (Some (d_id v)) (d_alias w) (d_fp w) true (d_seen w) else w)).
  2: { intros w _. destruct (device_is (d_owner v) (d_id v) w) eqn:Dw; [|done]. apply device_is_spec in Dw. unfold device_key in Dw. by injection Dw as -> _. }
  apply (promote_keys (d_owner v) (d_id v) id _ (λ w, Device (d_owner v) id (d_display w) (Some (d_id v)) (d_alias w) (d_fp w) true (d_seen w))); [done|done|].
  intros w Hw. by eapply device_of_None.
Qed.

Lemma devices_op now o d : devices_ok d → devices_ok (apply_op json_valid now o d).
Proof.
  intros N. destruct (writes_devices o) eqn:W; [|unfold devices_ok; by rewrite (devices_frame json_valid now o d W)].
  destruct o; try done; cbn [apply_op]; clear W.
  - unfold UpsertDevice. destruct (device_of _ _ _) eqn:D; [by apply update_keys|]. apply devices_snoc; [done|]. intros y Hy. by eapply device_of_None.
  - unfold registerDeviceID. destruct (_ || _ || _); [done|]. by apply registered.
  - by apply NoDup_delete.
  - unfold SetDeviceAlias. destruct (normalizeDeviceAlias _); [|done]. destruct (device_of _ _ _); [|done]. by apply update_keys.
Qed.

Lemma stored_devices t d : stored json_valid (t, d) → devices_ok d.
Proof.
  assert (∀ s, stored json_valid s → devices_ok s.2) as A; [|apply (A (t, d))].
  apply (invariant_reachable fresh_db (dstep json_valid)).
  - intros [t0 d0] E. unfold fresh_db in E. simpl in *. subst d0. apply NoDup_nil_2.
  - intros [t1 d1] [t' d'] I [_ [o E]]. simpl in *. subst d'. by apply devices_op.
Qed.

(** ** What a name stands for *)

(** A device answers to a name by its id, its own name or its alias. *)
Definition answers_to (ns target : string) (v : device) : Prop :=
  d_owner v = ns ∧ (d_id v = target ∨ d_display v = target ∨ option_map sql_lower (d_alias v) = Some (sql_lower target)).

Definition answers (ns target : string) (v : device) : bool :=
  String.eqb (d_owner v) ns && (String.eqb (d_id v) target || String.eqb (d_display v) target
    || bool_decide (option_map sql_lower (d_alias v) = Some (sql_lower target))).

Lemma answers_spec ns target v : answers ns target v = true ↔ answers_to ns target v.
Proof. unfold answers, answers_to. rewrite andb_true_iff, !orb_true_iff, !String.eqb_eq, bool_decide_eq_true. tauto. Qed.

(** A name never quietly means another device.  A target resolves to a device
    only if it is that device's own id, or no other device of the namespace
    answers to it by id, name or alias; if two answer it is refused as ambiguous,
    and if none does as not found; there is no other error. *)
Lemma device_target_verdict t d ns target :
  stored json_valid (t, d) →
  match ResolveDeviceTargetStrict ns target d with
  | Ok id => ∃ v, device_of ns id d = Some v ∧ answers_to ns target v ∧
      (ValidDeviceID target = true ∧ id = target ∨ ∀ w, w ∈ devices d → answers_to ns target w → w = v)
  | Err ErrAmbiguous => ∃ v w, v ∈ devices d ∧ w ∈ devices d ∧ v ≠ w ∧ answers_to ns target v ∧ answers_to ns target w ∧
      (ValidDeviceID target = true → device_of ns target d = None)
  | Err ErrDeviceNotFound => ∀ w, w ∈ devices d → ¬ answers_to ns target w
  | Err _ => False
  end.
Proof.
  intros R. pose proof (stored_devices t d R) as N. unfold ResolveDeviceTargetStrict. cbv zeta. unfold target_matches.
  change (List.filter _ (devices d)) with (List.filter (answers ns target) (devices d)). set (l := List.filter (answers ns target) (devices d)).
  assert (∀ v, v ∈ l ↔ v ∈ devices d ∧ answers_to ns target v) as Hl by (intros v; unfold l; by rewrite elem_of_filter_b, answers_spec).
  destruct (bool_decide (target ∈ map d_id l) && ValidDeviceID target) eqn:B.
  { bsplit. match goal with K : target ∈ _ |- _ => apply list_elem_of_fmap in K as (v & Ev & Hv%Hl) end. destruct Hv as [Hv Av].
    exists v. split; [|split; [done|by left]]. destruct Av as [<- _]. rewrite Ev. by apply device_of_elem. }
  destruct l as [|v [|w r]] eqn:El; simpl.
  - intros w Hw A. assert (w ∈ []) as K by by apply Hl. by apply elem_of_nil in K.
  - assert (v ∈ devices d ∧ answers_to ns target v) as [Hv Av] by (apply Hl, list_elem_of_here). exists v. split; [|split; [done|right]].
    + destruct Av as [<- _]. by apply device_of_elem.
    + intros w Hw A. assert (w ∈ [v]) as K by by apply Hl. by apply list_elem_of_singleton in K.
  - assert (v ∈ devices d ∧ answers_to ns target v) as [Hv Av] by (apply Hl, list_elem_of_here).
    assert (w ∈ devices d ∧ answers_to ns target w) as [Hw Aw] by (apply Hl; right; apply list_elem_of_here).
    exists v, w. split_and!; try done.
    + assert (NoDup (map device_key l)) as Nl.
      { unfold l. pose proof (NoDup_delete device_key (λ x, negb (answers ns target x)) (devices d) N) as K. unfold delete_func in K.
        erewrite List.filter_ext in K; [exact K|]. intros x. apply negb_involutive. }
      rewrite El in Nl. simpl in Nl. intros ->. apply NoDup_cons in Nl as [Nl _]. apply Nl. left.
    + intros V. rewrite V, andb_true_r in B. apply bool_decide_eq_false_1 in B. destruct (device_of ns target d) as [x|] eqn:D; [|done].
      exfalso. apply device_of_Some in D as [Hx Kx]. unfold device_key in Kx. injection Kx as Ox Ix. apply B.
      apply list_elem_of_fmap. exists x. split; [done|]. apply Hl. split; [done|]. split; [done|by left].
Qed.

(** ** What an installation keeps *)

Lemma any_update_ext {A} (q r : A → bool) (p : A → bool) (f : A → A) (l : list A) :
  (∀ x, x ∈ l → q (if p x then f x else x) = r x) → any q (update_where p f l) = any r l.
Proof.
  unfold any, update_where. induction l as [|x l IH]; intros E; simpl; [done|].
  rewrite (E x) by left. rewrite IH; [done|]. intros y Hy. apply E. by right.
Qed.

Lemma ACLGrant_update d d' p f g o i o' i' : acl d' = update_where p f (acl d) → (∀ x, a_manage (f x) = a_manage x) →
  (∀ x, x ∈ acl d → grant_of o i g (if p x then f x else x) = grant_of o' i' g x) → ACLGrant g o i d' = ACLGrant g o' i' d.
Proof.
  intros E K G. unfold ACLGrant. rewrite E. rewrite (any_update_ext _ (λ s, grant_of o' i' g s && a_manage s)).
  - by rewrite (any_update_ext _ (grant_of o' i' g)).
  - intros x Hx. rewrite G by done. f_equal. by destruct (p x).
Qed.

Lemma ACLGrant_None d g o i : ACLGrant g o i d = None ↔ ∀ x, x ∈ acl d → grant_of o i g x = false.
Proof.
  rewrite <- any_false. unfold ACLGrant. destruct (any (grant_of o i g) (acl d)) eqn:E; [destruct (any (λ s, grant_of o i g s && a_manage s) (acl d)); split; done|].
  rewrite any_false in E. rewrite (proj2 (any_false _ _)); [done|]. intros x Hx. by rewrite (E x Hx).
Qed.

(** The shares of a device that got an id. *)
Lemma promoted_shares ns old id d g : old ≠ id →
  ACLGrant g ns old (promote ns old id d) = None ∧
  (ACLGrant g ns id d = None → ACLGrant g ns id (promote ns old id d) = ACLGrant g ns old d) ∧
  ∀ o i, (o, i) ≠ (ns, old) → (o, i) ≠ (ns, id) → ACLGrant g o i (promote ns old id d) = ACLGrant g o i d.
Proof.
  intros Ne. set (p := λ a : share, String.eqb (a_owner a) ns && String.eqb (a_device a) old). split_and!.
  - apply ACLGrant_None. intros x (y & _ & ->)%elem_of_update_where. unfold grant_of.
    destruct (String.eqb (a_owner y) ns) eqn:E, (String.eqb (a_device y) old) eqn:E'; simpl; rewrite ?E, ?E', ?andb_false_r; try done.
    rewrite (proj2 (String.eqb_neq id old)) by congruence. by rewrite andb_false_r.
  - intros N. rewrite ACLGrant_None in N. apply (ACLGrant_update d _ p (set_share_device id)); [done|done|].
    intros x Hx. specialize (N x Hx). unfold p, grant_of in *.
    destruct (String.eqb (a_owner x) ns) eqn:Eo, (String.eqb (a_device x) old) eqn:Ed; simpl in *; rewrite ?Eo, ?Ed, ?String.eqb_refl; simpl; try done.
  - intros o i N1 N2. apply (ACLGrant_update d _ p (set_share_device id)); [done|done|].
    intros x _. unfold p, grant_of. destruct (String.eqb_spec (a_owner x) ns) as [E|E], (String.eqb_spec (a_device x) old) as [E'|E']; simpl; try done.
    destruct (String.eqb_spec (a_owner x) o) as [Eo|]; simpl; [|done].
    rewrite (proj2 (String.eqb_neq id i)), (proj2 (String.eqb_neq (a_device x) i)); [done|congruence..].
Qed.

(** What a registration starts from: the installation's row under the id, or its
    legacy row, or nothing. *)
Inductive origin := Known | Promoted (old : string) | Fresh.

Definition origin_of (ns id name fp : string) (d : db) : origin :=
  match device_of ns id d with
  | Some _ => Known
  | None => match legacy_of ns name fp d with Some v => Promoted (d_id v) | None => Fresh end
  end.

Definition moved (ns id name fp : string) (d : db) : db :=
  match origin_of ns id name fp d with Promoted old => promote ns old id d | _ => d end.

Lemma RegisterDevice_origin now ns id name fp d :
  RegisterDevice now ns id name fp d =
  match device_of ns id (moved ns id name fp d) with
  | None => (Ok true, on_devices (λ l, l ++ [Device ns id name None None (Some fp) true now]) d)
  | Some v => if d_usesID v then (Ok false, on_devices (update_where (device_is ns id) (renew_device now name fp)) (moved ns id name fp d))
              else (Err ErrRegistration, d)
  end.
Proof.
  unfold RegisterDevice, moved, origin_of. destruct (device_of ns id d) as [v|] eqn:D; simpl.
  - by rewrite D.
  - destruct (legacy_of ns name fp d) as [v|] eqn:L; simpl; [|by rewrite D].
    destruct (device_of ns id (promote ns (d_id v) id d)) as [w|] eqn:P; [done|]. exfalso.
    apply legacy_of_spec in L as (Hv & Ow & _). eapply (device_of_None _ _ _ _ P).
    + apply elem_of_update_where. exists v. split; [exact Hv|reflexivity].
    + rewrite (proj2 (device_is_spec ns (d_id v) v)) by (unfold device_key; by rewrite Ow). unfold device_key. simpl. by rewrite Ow.
Qed.

(** An installation that gets an id keeps its shares, and nobody else gets
    them.  A registration that succeeds leaves one row for the id, with the
    presented certificate and name.  Shares move only from a row of the same
    namespace that carried the same certificate and had no id yet, never from
    one that merely has the same name; then the grantees of the old name have the
    id instead, at the same level, and the old name gives nothing any more.  No
    other device's shares change, and a registration that fails changes nothing. *)
Lemma registration_keeps_shares t d now ns id name fp r d' :
  stored json_valid (t, d) → registerDeviceID now ns id name fp d = (r, d') →
  match r with
  | Err _ => d' = d
  | Ok created =>
      (∃ v, device_of ns id d' = Some v ∧ d_fp v = Some fp ∧ d_display v = name ∧ d_usesID v = true) ∧
      match origin_of ns id name fp d with
      | Known => created = false ∧ acl d' = acl d
      | Fresh => created = true ∧ acl d' = acl d
      | Promoted old => created = false ∧ device_of ns old d' = None ∧
          (∃ v, device_of ns old d = Some v ∧ d_fp v = Some fp ∧ d_usesID v = false) ∧
          ∀ g, ACLGrant g ns old d' = None ∧ (ACLGrant g ns id d = None → ACLGrant g ns id d' = ACLGrant g ns old d) ∧
            ∀ o i, (o, i) ≠ (ns, old) → (o, i) ≠ (ns, id) → ACLGrant g o i d' = ACLGrant g o i d
      end
  end.
Proof.
  intros R. pose proof (stored_devices t d R) as N. unfold registerDeviceID. destruct (_ || _ || _); [by intros [= <- <-]|].
  intros E. pose proof (registered now ns id name fp d N) as N'. rewrite E in N'. simpl in N'. rewrite RegisterDevice_origin in E.
  destruct (device_of ns id (moved ns id name fp d)) as [v|] eqn:D.
  2: { injection E as <- <-. split.
       - eexists (Device ns id name None None (Some fp) true now). split; [|done].
         apply (device_of_elem _ (Device ns id name None None (Some fp) true now) N'). apply elem_of_app. right. by apply list_elem_of_singleton.
       - unfold moved in D. destruct (origin_of ns id name fp d) as [|old|] eqn:O; [|exfalso|done].
         + unfold origin_of in O. rewrite D in O. by destruct (legacy_of ns name fp d).
         + unfold origin_of in O. destruct (device_of ns id d); [done|]. destruct (legacy_of ns name fp d) as [v|] eqn:L; [|done]. injection O as <-.
           apply legacy_of_spec in L as (Hv & Ow & _). eapply (device_of_None _ _ _ _ D).
           * apply elem_of_update_where. exists v. split; [exact Hv|reflexivity].
           * rewrite (proj2 (device_is_spec ns (d_id v) v)) by (unfold device_key; by rewrite Ow). unfold device_key. simpl. by rewrite Ow. }
  destruct (d_usesID v) eqn:U; [|by injection E as <- <-]. injection E as <- <-.
  apply device_of_Some in D as [Hv Kv]. assert (device_is ns id v = true) as Iv by by apply device_is_spec.
  assert (device_of ns id (on_devices (update_where (device_is ns id) (renew_device now name fp)) (moved ns id name fp d)) = Some (renew_device now name fp v)) as D'.
  { pose proof (device_of_elem _ (renew_device now name fp v) N') as K. unfold device_key in Kv. injection Kv as Ov Idv. simpl in K. rewrite Ov, Idv in K.
    apply K. apply elem_of_update_where. exists v. by rewrite Iv. }
  split; [by eexists|]. clear D'. remember (moved ns id name fp d) as m eqn:Em. unfold moved in Em.
  destruct (origin_of ns id name fp d) as [|old|] eqn:O; subst m; [done| |].
  - unfold origin_of in O. destruct (device_of ns id d) eqn:Di; [done|]. destruct (legacy_of ns name fp d) as [w|] eqn:L; [|done]. injection O as <-.
    apply legacy_of_spec in L as (Hw & Ow & Fw & Uw). assert (device_of ns (d_id w) d = Some w) as Dw by (rewrite <- Ow; by apply device_of_elem).
    assert (d_id w ≠ id) as Ne by congruence. split_and!; [done| |by eexists|].
    + destruct (device_of ns (d_id w) (on_devices _ _)) as [x|] eqn:Dx; [|done]. exfalso. apply device_of_Some in Dx as [Hx Kx].
      apply elem_of_update_where in Hx as (y & Hy & ->). apply elem_of_update_where in Hy as (z & Hz & ->).
      destruct (device_is ns (d_id w) z) eqn:Iz.
      * unfold device_is in Kx. simpl in Kx. rewrite (proj2 (String.eqb_eq id id)) in Kx by done. destruct (String.eqb (d_owner z) ns); unfold device_key in Kx; simpl in Kx; congruence.
      * assert (device_key z = (ns, d_id w)) as Kz by (destruct (device_is ns id z); done). apply device_is_spec in Kz. congruence.
    + intros g. apply promoted_shares. done.
  - unfold origin_of in O. exfalso. eapply (device_of_None ns id d v); [|done|done]. by destruct (device_of ns id d).
Qed.
End devices_inv.

(** ** Witnesses *)

Definition new_id : string := "01234567-89ab-4def-8123-456789abcdef".
Definition fp_one : string := "SHA256:AAAAAAAAAAAAAAAAAAAAAAAAAAAAAAAAAAAAAAAAAAA=".

(** A legacy device shared with a friend. *)
Definition legacy_run : list (Z * op) :=
  [(1, QResolveIdentity "header" "alice@x" "" "" "portal"); (2, QResolveIdentity "header" "bob" "" "" "portal");
   (3, QFriendRequest "alice" "bob" "portal"); (4, QFriendAccept "bob" "alice"); (5, QUpsertDevice "alice" "mac" fp_one);
   (6, QGrantACL "alice" "mac" "bob" true)].
Definition legacy_db : db := @run_ops ascii_libraries (λ _, true) legacy_run empty_db.
Definition upgraded_db : db := (@registerDeviceID ascii_libraries 7 "alice" new_id "localhost" fp_one legacy_db).2.

Lemma legacy_stored : @stored ascii_libraries (λ _, true) (6, legacy_db).
Proof. exact (@stored_run ascii_libraries (λ _, true) 0 legacy_run eq_refl). Qed.

Lemma registration_keeps_shares_witness :
  ACLGrant "bob" "alice" new_id upgraded_db = ACLGrant "bob" "alice" "mac" legacy_db ∧ ACLGrant "bob" "alice" "mac" legacy_db = Some true.
Proof.
  assert (@registerDeviceID ascii_libraries 7 "alice" new_id "localhost" fp_one legacy_db = (Ok false, upgraded_db)) as E by (vm_compute; reflexivity).
  assert (origin_of "alice" new_id "localhost" fp_one legacy_db = Promoted "mac") as O by (vm_compute; reflexivity).
  pose proof (@registration_keeps_shares ascii_libraries (λ _, true) 6 legacy_db 7 "alice" new_id "localhost" fp_one _ _ legacy_stored E) as K.
  cbv beta iota in K. rewrite O in K. destruct K as (_ & _ & _ & _ & K). destruct (K "bob"%string) as (_ & A & _).
  split; [apply A; vm_compute; reflexivity|vm_compute; reflexivity].
Defined.

Lemma device_target_verdict_witness :
  @ResolveDeviceTargetStrict ascii_libraries "alice" "mac" legacy_db = Ok "mac"%string ∧
  ∃ v, device_of "alice" "mac" legacy_db = Some v ∧ @answers_to ascii_libraries "alice" "mac" v.
Proof.
  pose proof (@device_target_verdict ascii_libraries (λ _, true) 6 legacy_db "alice" "mac" legacy_stored) as K.
  assert (@ResolveDeviceTargetStrict ascii_libraries "alice" "mac" legacy_db = Ok "mac"%string) as E by (vm_compute; reflexivity).
  rewrite E in K. split; [exact E|]. destruct K as (v & D & A & _). exists v. split; [exact D|exact A].
Defined.

(** ** A designation that outlives its device

    Removing a device clears its designation as the approval phone, so that no
    later device of that name can approve.  The promotion of a legacy row moves
    its shares to the new id but not its designation, so the later removal of the
    device does not find it: a legacy device that then enrolls under the old name,
    with another certificate, holds the designation. *)

Definition designation_run : list (Z * op) :=
  [(1, QUpsertDevice "alice" "phone" "SHA256:old"); (2, QSetApprovalPhone "alice" "phone");
   (3, QRemoveDevice "alice" "phone")].

Definition stale_run : list (Z * op) :=
  [(1, QUpsertDevice "alice" "phone" fp_one); (2, QSetApprovalPhone "alice" "phone");
   (3, QRegisterDevice "alice" new_id "phone" fp_one); (4, QRemoveDevice "alice" new_id); (5, QUpsertDevice "alice" "phone" "SHA256:other")].
Definition stale_db : db := @run_ops ascii_libraries (λ _, true) stale_run empty_db.

(** The removal without a promotion clears it; after one it does not. *)
Lemma designation_outlives_promotion :
  phones (@run_ops ascii_libraries (λ _, true) designation_run empty_db) !! "alice"%string = None ∧
  phones stale_db !! "alice"%string = Some "phone"%string ∧
  option_map d_fp (device_of "alice" "phone" stale_db) = Some (Some "SHA256:other"%string) ∧
  @allowLegacyRegistration ascii_libraries "alice" "phone"
    (@run_ops ascii_libraries (λ _, true) (removelast stale_run) empty_db) = true.
Proof. vm_compute. done. Qed.
