(* ===== verification/Leases.v ===== *)
(** [accessLease] of [internal/relay/delegation_auth.go] and [disconnectNamespace]
    of [disable.go], with the registration of devices in [http.go] and [relay.go]:
    what the relay holds open, and how it ends when the right to it does.

    A lease ties the connections of a session to the credential it was dialed
    with.  Dials, registrations, the operator's switch, withdrawals of shares and
    the rechecks of grants run concurrently, over a database that other queries
    change meanwhile.  So a handler is a list of acts ([act]), each one query or
    one critical section, and the relay is a transition system whose steps let one
    handler perform its next act.  [Close] is [sync.Once]: who comes second waits
    for the first. *)

From S2P Require Import Prelude GoStrings GoUtf8 Session Tables Accounts Friends Grants StoreOps AccountInv TokenInv DeviceInv Dial.

Local Open Scope Z_scope.

Import Delegation.

(** ** Data *)

Inductive phase := Open | Closing | Closed.
#[export] Instance phase_eq_dec : EqDecision phase.
Proof. solve_decision. Defined.

(** A closer is a number; what it closes, the leg of a connection, is outside.
    [l_legs]: all the lease was ever given. *)
Record accessLease := AccessLease {
  l_sid : string; l_target : string; l_token : string; l_access : access; l_caps : Z;
  l_phase : phase; l_closers : list nat; l_legs : list nat }.

(** [owner, _, _ := strings.Cut(l.target, "/")] *)
Definition owner_of (target : string) : string := match cut_slash target with Some (owner, _) => owner | None => target end.

(** The namespaces [accountsEnabled] looks up, each once. *)
Definition parties (l : accessLease) : list string :=
  let caller := ac_Namespace (l_access l) in let owner := owner_of (l_target l) in
  if String.eqb owner caller then [caller] else [caller; owner].

Definition party (ns : string) (l : accessLease) : bool := String.eqb (ac_Namespace (l_access l)) ns || String.eqb (owner_of (l_target l)) ns.

Lemma party_parties ns l : party ns l = true ↔ ns ∈ parties l.
Proof.
  unfold party, parties. rewrite orb_true_iff, !String.eqb_eq. destruct (String.eqb_spec (owner_of (l_target l)) (ac_Namespace (l_access l))); set_solver.
Qed.

(** A registration of a device: its namespace, and which of the agents that
    registered it holds it. *)
Record agent := Agent { ag_ns : string; ag_id : nat }.

Inductive act :=
(* [beginAccessLease] and [newHTTPSession] after the lease is published *)
| Check (i : nat) (nss : list string) | Serve (i : nat)
(* [accessLease.valid] and [credentialValid] *)
| Recheck (i : nat) (nss : list string) | Resolved (i : nat)
(* [accessLease.close] and [addCloser] *)
| Close (i : nat) | Forget (i : nat) | Run (c : nat) | Finish (i : nat) | AddCloser (i c : nat)
(* [adminAccountDisable] and [disconnectNamespace] *)
| SetDisabled (ns : string) | Enable (ns : string) | Snapshot (ns : string) | KickWS (ns : string) | DropHTTP (ns : string)
(* the handlers that take a share away, and [closeRevokedShares] *)
| Withdraw (o : op) (owners : list string) | CloseShares (owners : list string) | ShareCheck (i : nat)
(* [registrationMu] *)
| Lock | Unlock
(* [handleAgent] and [handleHPoll] *)
| Register (http : bool) (key ns : string) (id : nat) | CheckAgent (http : bool) (key ns : string) (id : nat) | Evict (http : bool) (key : string) (id : nat).

Record relay := Relay {
  s_now : Z; s_db : db; s_leases : list accessLease; s_live : gmap string nat;
  s_ws : gmap string agent; s_http : gmap string agent; s_reg : bool;
  s_answered : list nat; s_shut : list nat; s_kicked : list nat; s_procs : list (list act) }.

Definition set_db (now : Z) (d : db) (s : relay) : relay :=
  Relay now d (s_leases s) (s_live s) (s_ws s) (s_http s) (s_reg s) (s_answered s) (s_shut s) (s_kicked s) (s_procs s).
Definition set_leases (l : list accessLease) (m : gmap string nat) (s : relay) : relay :=
  Relay (s_now s) (s_db s) l m (s_ws s) (s_http s) (s_reg s) (s_answered s) (s_shut s) (s_kicked s) (s_procs s).
Definition set_agents (ws http : gmap string agent) (s : relay) : relay :=
  Relay (s_now s) (s_db s) (s_leases s) (s_live s) ws http (s_reg s) (s_answered s) (s_shut s) (s_kicked s) (s_procs s).
Definition set_reg (b : bool) (s : relay) : relay :=
  Relay (s_now s) (s_db s) (s_leases s) (s_live s) (s_ws s) (s_http s) b (s_answered s) (s_shut s) (s_kicked s) (s_procs s).
Definition set_ends (answered shut kicked : list nat) (s : relay) : relay :=
  Relay (s_now s) (s_db s) (s_leases s) (s_live s) (s_ws s) (s_http s) (s_reg s) answered shut kicked (s_procs s).
Definition set_procs (l : list (list act)) (s : relay) : relay :=
  Relay (s_now s) (s_db s) (s_leases s) (s_live s) (s_ws s) (s_http s) (s_reg s) (s_answered s) (s_shut s) (s_kicked s) l.

Definition set_lease (p : phase) (closers legs : list nat) (l : accessLease) : accessLease :=
  AccessLease (l_sid l) (l_target l) (l_token l) (l_access l) (l_caps l) p closers legs.

Definition is_open (i : nat) (s : relay) : bool :=
  match s_leases s !! i with Some l => bool_decide (l_phase l = Open) | None => false end.

(** ** Questions about a lease *)

(** [AccountDisabled] and its use in [accountsEnabled]. *)
Definition is_disabled (ns : string) (d : db) : bool := match AccountDisabled ns d with Some (Some _) => true | _ => false end.

(** The leases [disconnectNamespace] and [closeRevokedShares] find, in the
    order of the model. *)
Definition held (p : accessLease → bool) (s : relay) : list nat :=
  List.filter (λ i, match s_leases s !! i with Some l => p l | None => false end) (map_to_list (s_live s)).*2.

Section relay.
Context `{Libraries} (json_valid : string → bool) (portalNS : string).

(** What [closeRevokedShares] looks at, and what it closes; no grant is also what
    a query that failed answers. *)
Definition on_share (owners : list string) (l : accessLease) : bool :=
  let owner := owner_of (l_target l) in let caller := ac_Namespace (l_access l) in
  negb (String.eqb caller owner) && (String.eqb portalNS "" || negb (String.eqb caller portalNS)) && any (String.eqb owner) owners.

Definition share_lost (l : accessLease) (grant : option bool) : bool :=
  match grant with None => true | Some manage => negb manage && Auth.Has (l_caps l) Auth.Console end.

Definition share_of (l : accessLease) (d : db) : option bool :=
  match cut_slash (l_target l) with
  | Some (owner, device) => ACLGrant (ac_Namespace (l_access l)) owner device d
  | None => ACLGrant (ac_Namespace (l_access l)) (l_target l) "" d
  end.

(** [credentialValid], after the accounts. *)
Definition same_credential (now : Z) (l : accessLease) (answer : option access) : bool :=
  match answer with
  | None => false
  | Some a => Delegated a && String.eqb (ac_GrantID a) (ac_GrantID (l_access l)) && String.eqb (ac_CredentialID a) (ac_CredentialID (l_access l))
              && String.eqb (ac_ControllerFingerprint a) (ac_ControllerFingerprint (l_access l)) && Allows now a (l_target l)
  end.

Definition resolve (now : Z) (raw : string) (d : db) : option access := ResolveAccess now (AccessStore (λ raw, resolveAccess now raw d)) raw.

(** ** What each act does *)

(** [w_fails]: the query this act makes, if it makes one, fails. *)
Record world := World { w_now : Z; w_fails : bool }.

Definition drop_ns (ns : string) (m : gmap string agent) : gmap string agent := filter (λ kv, ag_ns kv.2 ≠ ns) m.
Definition ids_of (ns : string) (m : gmap string agent) : list nat := (λ kv : string * agent, ag_id kv.2) <$> List.filter (λ kv, String.eqb (ag_ns kv.2) ns) (map_to_list m).

(** The acts a handler has left after its act [a], of which [rest] followed, and the
    relay.  A handler that waits keeps [a]. *)
Definition advance (w : world) (a : act) (rest : list act) (s : relay) : list act * relay :=
  match a with
  | Check i [] => (rest, s)
  | Check i (ns :: nss) => if w_fails w || is_disabled ns (s_db s) then (Close i :: rest, s) else (Check i nss :: rest, s)
  | Serve i => (rest, if is_open i s then set_ends (s_answered s ++ [i]) (s_shut s) (s_kicked s) s else s)
  | Recheck i (ns :: nss) => if w_fails w || is_disabled ns (s_db s) then ([Close i], s) else (Recheck i nss :: rest, s)
  | Recheck i [] => (match s_leases s !! i with Some l => if Delegated (l_access l) then Resolved i :: rest else rest | None => rest end, s)
  | Resolved i =>
      match s_leases s !! i with
      | Some l => if negb (w_fails w) && same_credential (w_now w) l (resolve (w_now w) (l_token l) (s_db s)) then (rest, s) else ([Close i], s)
      | None => (rest, s)
      end
  | Close i =>
      match s_leases s !! i with
      | None => (rest, s)
      | Some l =>
          match l_phase l with
          | Open => (Forget i :: (Run <$> l_closers l) ++ Finish i :: rest, set_leases (<[i := set_lease Closing [] (l_legs l) l]> (s_leases s)) (s_live s) s)
          | Closing => (a :: rest, s)
          | Closed => (rest, s)
          end
      end
  | Forget i =>
      match s_leases s !! i with
      | Some l => (rest, set_leases (s_leases s) (if bool_decide (s_live s !! l_sid l = Some i) then delete (l_sid l) (s_live s) else s_live s) s)
      | None => (rest, s)
      end
  | Run c => (rest, set_ends (s_answered s) (s_shut s ++ [c]) (s_kicked s) s)
  | Finish i => (rest, set_leases (alter (λ l, set_lease Closed (l_closers l) (l_legs l) l) i (s_leases s)) (s_live s) s)
  | AddCloser i c =>
      match s_leases s !! i with
      | None => (rest, s)
      | Some l =>
          let opened := bool_decide (l_phase l = Open) in
          (if opened then rest else Run c :: rest,
           set_leases (<[i := set_lease (l_phase l) (if opened then l_closers l ++ [c] else l_closers l) (l_legs l ++ [c]) l]> (s_leases s)) (s_live s) s)
      end
  | SetDisabled ns =>
      if w_fails w then ([], s)
      else match SetAccountDisabled (w_now w) ns true (s_db s) with (None, _) => ([], s) | (Some _, d) => (rest, set_db (w_now w) d s) end
  | Enable ns => (rest, if w_fails w then s else set_db (w_now w) (apply_op json_valid (w_now w) (QSetAccountDisabled ns false) (s_db s)) s)
  | Snapshot ns => ((Close <$> held (party ns) s) ++ rest, s)
  | KickWS ns => (rest, set_ends (s_answered s) (s_shut s) (s_kicked s ++ ids_of ns (s_ws s)) (set_agents (drop_ns ns (s_ws s)) (s_http s) s))
  | DropHTTP ns => (rest, set_agents (s_ws s) (drop_ns ns (s_http s)) s)
  | Withdraw o owners => if w_fails w then ([], s) else (rest, set_db (w_now w) (apply_op json_valid (w_now w) o (s_db s)) s)
  | CloseShares owners => ((ShareCheck <$> held (on_share owners) s) ++ rest, s)
  | ShareCheck i =>
      match s_leases s !! i with
      | Some l => (if share_lost l (if w_fails w then None else share_of l (s_db s)) then Close i :: rest else rest, s)
      | None => (rest, s)
      end
  | Lock => if s_reg s then (a :: rest, s) else (rest, set_reg true s)
  | Unlock => (rest, set_reg false s)
  | Register http key ns id =>
      (CheckAgent http key ns id :: rest,
       if http then set_agents (s_ws s) (<[key := Agent ns id]> (s_http s)) s else set_agents (<[key := Agent ns id]> (s_ws s)) (s_http s) s)
  | CheckAgent http key ns id => (if w_fails w || is_disabled ns (s_db s) then Evict http key id :: rest else rest, s)
  | Evict true key _ => (rest, set_agents (s_ws s) (delete key (s_http s)) s)
  | Evict false key id => (rest, if bool_decide (ag_id <$> s_ws s !! key = Some id) then set_agents (delete key (s_ws s)) (s_http s) s else s)
  end.

Definition run_proc (n : nat) (w : world) (s : relay) : relay :=
  match s_procs s !! n with
  | Some (a :: rest) => let '(p, s') := advance w a rest s in set_procs (<[n := p]> (s_procs s)) s'
  | _ => s
  end.

(** ** The handlers *)

(** [adminAccountDisable], of a request that is well formed: [None] is a refusal.
    The query that sets the flag takes effect and answers, or neither. *)
Definition disable_program (ns : string) : list act := [SetDisabled ns; Snapshot ns; Lock; KickWS ns; DropHTTP ns; Unlock].

Definition adminAccountDisable (ns : string) (disabled : bool) : option (list act) :=
  let ns := trim_space ns in
  if String.eqb ns "" || (negb (String.eqb portalNS "") && String.eqb ns portalNS) then None
  else Some (if disabled then disable_program ns else [Enable ns]).

(** The handlers of admin.go and user.go that take a share away, or its management:
    whose devices they end sessions on. *)
Definition withdrawal (o : op) : option (list string) :=
  match o with
  | QRemoveDevice ns _ | QSetACLManage ns _ _ false | QRevokeACL ns _ | QRevokeACLMatch ns _ _ _ => Some [ns]
  | QFriendRemove ns other => Some [ns; other]
  | _ => None
  end.

Definition by_handler (o : op) : bool := match o with QSetAccountDisabled _ _ => true | _ => match withdrawal o with Some _ => true | None => false end end.

(** A dial that resolved its credential and its target publishes a lease, has
    both accounts looked up, and adds [legs]. *)
Definition begin_program (i : nat) (l : accessLease) (legs : list nat) : list act :=
  Check i (parties l) :: (AddCloser i <$> legs) ++ [Serve i].

Definition register_program (http : bool) (key ns : string) (id : nat) : list act := [Lock; Register http key ns id; Unlock].

Inductive event :=
| Query (now : Z) (o : op)
| Dial (sid target token : string) (a : access) (caps : Z) (legs : list nat)
| Leg (i c : nat)
| End (i : nat)
| Tick (i : nat)
| Disable (ns : string) (disabled : bool)
| Unshare (o : op)
| Agent_ (http : bool) (key ns : string) (id : nat)
| Gone (http : bool) (key : string)
| Move (n : nat) (w : world).

Definition spawn (p : list act) (s : relay) : relay := set_procs (s_procs s ++ [p]) s.

(** A session's id is 16 random bytes: it names no other lease.  [End] is any reason
    to end a session: its peers are done, it expired, it was swept.  [Tick] is a
    look at its credential, by the ticker of a delegated lease or by a request
    ([valid], which asks nothing about a lease that has ended, makes no
    difference to one).  [Gone] is any reason for a registration to go. *)
Definition happen (e : event) (s : relay) : relay :=
  match e with
  | Query now o => if (now <? s_now s) || by_handler o then s else set_db now (apply_op json_valid now o (s_db s)) s
  | Dial sid target token a caps legs =>
      if any (λ l, String.eqb (l_sid l) sid) (s_leases s) then s
      else
        let i := length (s_leases s) in let l := AccessLease sid target token a caps Open [] [] in
        spawn (begin_program i l legs) (set_leases (s_leases s ++ [l]) (<[sid := i]> (s_live s)) s)
  | Leg i c => spawn [AddCloser i c] s
  | End i => spawn [Close i] s
  | Tick i => match s_leases s !! i with Some l => spawn [Recheck i (parties l)] s | None => s end
  | Disable ns disabled => match adminAccountDisable ns disabled with Some p => spawn p s | None => s end
  | Unshare o => match withdrawal o with Some owners => spawn [Withdraw o owners; CloseShares owners] s | None => s end
  | Agent_ http key ns id => spawn (register_program http key ns id) s
  | Gone http key => if http then set_agents (s_ws s) (delete key (s_http s)) s else set_agents (delete key (s_ws s)) (s_http s) s
  | Move n w => if w_now w <? s_now s then s else run_proc n w (set_db (w_now w) (s_db s) s)
  end.

Definition start (now : Z) (d : db) : relay := Relay now d [] ∅ ∅ ∅ false [] [] [] [].
Definition happen_all (es : list event) (s : relay) : relay := fold_left (λ s e, happen e s) es s.
Definition lstep (s s' : relay) : Prop := ∃ e, s' = happen e s.
Definition relaying : relay → Prop := reachable (λ s, ∃ now d, s = start now d) lstep.

(** ** The checks of an agent *)

Definition accountsEnabled (nss : list string) (d : db) : bool := forallb (λ ns, negb (is_disabled ns d)) nss.

Definition credentialValid (now : Z) (l : accessLease) (d : db) : bool :=
  accountsEnabled (parties l) d && (negb (Delegated (l_access l)) || same_credential now l (resolve now (l_token l) d)).

Definition lease_of (session : string) (s : relay) : option accessLease := match s_live s !! session with Some i => s_leases s !! i | None => None end.

Definition handleAgentWorkspaceCheck (now : Z) (dir : directory) (labels : string → gmap string string) (session ns device : string) (s : relay) : bool :=
  match lease_of session s with
  | None => false
  | Some l =>
      if negb (String.eqb (l_target l) (ns ++ "/" ++ device)) || Delegated (l_access l) then false
      else if negb (bool_decide (l_phase l = Open)) then false
      else match resolve now (l_token l) (s_db s) with
           | None => false
           | Some a =>
               if Delegated a || negb (String.eqb (ac_Namespace a) (ac_Namespace (l_access l))) then false
               else match dialAccessAllowed now dir labels a (l_target l) with
                    | inl (key, o) => String.eqb key (l_target l) && Auth.Has (Auth.Capabilities o) Auth.UseCapabilities
                    | inr _ => false
                    end
           end
  end.

Definition handleAgentDelegationCheck (now : Z) (session ns device grant controller : string) (s : relay) : bool :=
  match lease_of session s with
  | None => false
  | Some l =>
      let a := l_access l in
      if negb (Delegated a) || negb (String.eqb (l_target l) (ns ++ "/" ++ device)) || negb (String.eqb (ac_GrantID a) grant)
         || (negb (String.eqb (ac_ControllerFingerprint a) controller) && String.eqb (ac_ExecOnly a) "") then false
      else bool_decide (l_phase l = Open) && credentialValid now l (s_db s)
  end.

(** ** What the flag does *)

Lemma resolve_appends now p s l n r d : ∃ ext, users (ResolveIdentity now p s l n r d).2 = users d ++ ext ∧ ∀ u, u ∈ ext → u_disabled u = None.
Proof.
  assert (∀ l : list user, ∃ ext, l = l ++ ext ∧ ∀ u, u ∈ ext → u_disabled u = None) as Nil by (intros l0; exists []; rewrite app_nil_r; split; [done|by intros u ?%elem_of_nil]).
  unfold ResolveIdentity, resolveGitHubIdentity, insertIdentity, mark_used. cbv zeta.
  outcomes; simplify_eq; simpl; try apply Nil; eexists; (split; [reflexivity|by intros u ->%list_elem_of_singleton]).
Qed.

Lemma find_first_app {A} (f : A → bool) l1 l2 : find_first f (l1 ++ l2) = match find_first f l1 with Some x => Some x | None => find_first f l2 end.
Proof. induction l1 as [|x l1 IH]; simpl; [done|]. by destruct (f x). Qed.

Lemma is_disabled_users ns d d' : users d' = users d → is_disabled ns d' = is_disabled ns d.
Proof. unfold is_disabled, AccountDisabled, user_of. by intros ->. Qed.

Lemma is_disabled_set now ns b ns' d : ns' ≠ ns → is_disabled ns' (SetAccountDisabled now ns b d).2 = is_disabled ns' d.
Proof.
  intros N. unfold is_disabled, AccountDisabled, user_of. simpl. f_equal. unfold update_where. generalize (users d) as l.
  induction l as [|u l IH]; [done|]. simpl. destruct (String.eqb_spec (u_ns u) ns) as [E|E]; simpl.
  - rewrite E, (proj2 (String.eqb_neq ns ns')) by congruence. done.
  - by destruct (String.eqb (u_ns u) ns').
Qed.

(** Only the switch disables an account. *)
Lemma disabled_op now o ns d : o ≠ QSetAccountDisabled ns true → is_disabled ns (apply_op json_valid now o d) = true → is_disabled ns d = true.
Proof.
  intros No. destruct (writes_accounts o) eqn:W; [|destruct (accounts_frame json_valid now o d W) as [F _]; by rewrite (is_disabled_users _ _ _ F)].
  destruct o; try done; cbn [apply_op]; clear W.
  - destruct (resolve_appends now provider subject login name reserved d) as (ext & F & N). unfold is_disabled, AccountDisabled, user_of. rewrite F, find_first_app.
    destruct (find_first _ (users d)); [done|]. destruct (find_first _ ext) as [u|] eqn:Fu; [|done]. apply find_first_Some in Fu as [Hu _]. simpl. by rewrite (N u Hu).
  - rewrite (is_disabled_users _ d); [done|]. unfold CreateInvite, insert_invite, next_serial. outcomes; simplify_eq; done.
  - rewrite (is_disabled_users _ d); [done|]. unfold DecideAccessRequest, insert_invite, next_serial. cbv zeta. outcomes; simplify_eq; done.
  - destruct (decide (ns = ns0)) as [->|N]; [|by rewrite is_disabled_set by done]. destruct disabled; [done|].
    unfold is_disabled, AccountDisabled, user_of. simpl. destruct (find_first _ (update_where _ _ _)) as [u|] eqn:Fu; [|done].
    apply find_first_Some in Fu as [Hu Eu]. apply elem_of_update_where in Hu as (v & Hv & ->). destruct (String.eqb (u_ns v) ns0) eqn:Ev; simpl; [done|]. by rewrite Ev in Eu.
Qed.

Lemma disabled_set now ns d : AccountDisabled ns (SetAccountDisabled now ns true d).2 ≠ None → is_disabled ns (SetAccountDisabled now ns true d).2 = true.
Proof.
  unfold is_disabled, AccountDisabled, user_of. simpl. destruct (find_first _ (update_where _ _ _)) as [u|] eqn:Fu; [|done]. intros _. simpl.
  apply find_first_Some in Fu as [Hu Eu]. apply elem_of_update_where in Hu as (v & Hv & ->). destruct (String.eqb (u_ns v) ns) eqn:Ev; simpl; [done|]. by rewrite Ev in Eu.
Qed.

(** ** The shape of what a handler has left *)

Definition closing (a : act) : bool := match a with Close _ | Forget _ | Run _ | Finish _ => true | _ => false end.
Definition beginning (a : act) : bool := closing a || match a with Check _ _ | AddCloser _ _ => true | _ => false end.
Definition cleaning (a : act) : bool := closing a || match a with AddCloser _ _ | CloseShares _ | ShareCheck _ => true | _ => false end.
Definition disconnecting (ns : string) (a : act) : bool := closing a || match a with Snapshot n => String.eqb n ns | _ => false end.
Definition disconnect (ns : string) : list act := [Lock; KickWS ns; DropHTTP ns; Unlock].

Inductive program : list act → Prop :=
| of_begin i pre : forallb beginning pre = true → program (pre ++ [Serve i])
| of_clean p : forallb cleaning p = true → program p
| of_disable ns : program (disable_program ns)
| of_disconnect ns pre : forallb (disconnecting ns) pre = true → program (pre ++ disconnect ns)
| of_kick ns : program [KickWS ns; DropHTTP ns; Unlock]
| of_drop ns : program [DropHTTP ns; Unlock]
| of_unlock : program [Unlock]
| of_lock http key ns id : program (register_program http key ns id)
| of_register http key ns id : program [Register http key ns id; Unlock]
| of_check http key ns id : program [CheckAgent http key ns id; Unlock]
| of_evict http key id : program [Evict http key id; Unlock]
| of_recheck i nss : program [Recheck i nss]
| of_resolved i : program [Resolved i]
| of_withdraw o owners : withdrawal o = Some owners → program [Withdraw o owners; CloseShares owners]
| of_enable ns : program [Enable ns].

#[local] Hint Constructors program : core.

Lemma forallb_fmap {A B} (f : A → B) (p : B → bool) l : (∀ x, p (f x) = true) → forallb p (f <$> l) = true.
Proof. intros E. induction l as [|x l IH]; [done|]. simpl. by rewrite E. Qed.

Lemma of_nil : program [].
Proof. by apply of_clean. Qed.

(** Closing comes in front of anything that may still be closing something. *)
Inductive opened : (act → bool) → list act → Prop :=
| in_begin i : opened beginning [Serve i]
| in_clean : opened cleaning []
| in_disconnect ns : opened (disconnecting ns) (disconnect ns).

Lemma opened_program p tl pre : opened p tl → forallb p pre = true → program (pre ++ tl).
Proof. intros [i| |ns] F; [by apply of_begin|rewrite app_nil_r; by apply of_clean|by apply of_disconnect]. Qed.

Lemma opened_closing p tl a : opened p tl → closing a = true → p a = true.
Proof. intros [i| |ns] E; [unfold beginning|unfold cleaning|unfold disconnecting]; by rewrite E. Qed.

Lemma closings i l : forallb closing (Forget i :: (Run <$> l) ++ [Finish i]) = true.
Proof. simpl. rewrite forallb_app, forallb_fmap by done. done. Qed.

Lemma forallb_weaken {A} (p q : A → bool) l : (∀ x, p x = true → q x = true) → forallb p l = true → forallb q l = true.
Proof. intros W. induction l as [|x l IH]; [done|]. simpl. intros [X L]%andb_true_iff. by rewrite W, IH. Qed.

(** Such acts put others of their kind in front of what is left. *)
Lemma advance_adds w p tl a rest s q s' : opened p tl → p a = true → advance w a rest s = (q, s') → ∃ new, q = new ++ rest ∧ forallb p new = true.
Proof.
  intros O Pa E. assert (∀ i, p (Close i) = true) as Pc by (intros i; by eapply opened_closing).
  assert (∀ i l, forallb p (Forget i :: (Run <$> l) ++ [Finish i]) = true) as Pl.
  { intros i l. eapply forallb_weaken; [|apply closings]. intros x. by apply (opened_closing p tl). }
  destruct a; try (destruct O; discriminate); simpl in E;
    repeat match type of E with
    | match ?x with _ => _ end = _ => destruct x
    | (match ?x with _ => _ end, _) = _ => destruct x
    end; injection E as <- <-;
    first [ exists []; by split
          | eexists [Close _]; split; [reflexivity|]; simpl; by rewrite Pc
          | eexists [Check _ _]; split; [reflexivity|]; simpl; rewrite andb_true_r; by destruct O
          | eexists [Run _]; split; [reflexivity|]; simpl; rewrite andb_true_r; by apply (opened_closing p tl)
          | eexists (Forget _ :: (Run <$> _) ++ [Finish _]); split; [simpl; by rewrite <- app_assoc|apply Pl]
          | idtac ].
  - eexists. split; [reflexivity|]. apply forallb_fmap. done.
  - eexists. split; [reflexivity|]. apply forallb_fmap. destruct O; try discriminate. done.
Qed.

Lemma advance_program w a rest s q s' : program (a :: rest) → advance w a rest s = (q, s') → program q.
Proof.
  intros P E. assert (∀ p tl pre, opened p tl → a :: rest = pre ++ tl → pre ≠ [] → forallb p pre = true → program q) as O.
  { intros p tl [|b pre] Op Eq N F; [done|]. injection Eq as -> ->. simpl in F. apply andb_true_iff in F as [Pb Pp].
    destruct (advance_adds w p tl b _ s q s' Op Pb E) as (new & -> & Pn). rewrite app_assoc. eapply opened_program; [done|]. by rewrite forallb_app, Pn. }
  inversion P as [i pre F Eq|p F Eq|ns Eq|ns pre F Eq|ns Eq|ns Eq|Eq|http key ns id Eq|http key ns id Eq|http key ns id Eq|http key id Eq|i nss Eq|i Eq|o owners W Eq|ns Eq]; subst; clear P.
  - destruct pre as [|b pre]; [|apply (O beginning [Serve i] (b :: pre)); [constructor|done..]]. injection Eq as <- <-. injection E as <- <-. apply of_nil.
  - apply (O cleaning [] (a :: rest)); [constructor|by rewrite app_nil_r|done|done].
  - simpl in E. destruct (w_fails w); [injection E as <- <-; apply of_nil|]. destruct (AccountDisabled _ _); injection E as <- <-; [|apply of_nil].
    apply (of_disconnect ns [Snapshot ns]). simpl. unfold disconnecting. simpl. by rewrite String.eqb_refl.
  - destruct pre as [|b pre]; [|apply (O (disconnecting ns) (disconnect ns) (b :: pre)); [constructor|done..]]. injection Eq as <- <-. simpl in E.
    destruct (s_reg s); injection E as <- <-; [|done]. by apply (of_disconnect ns []).
  - injection E as <- <-. done.
  - injection E as <- <-. done.
  - injection E as <- <-. apply of_nil.
  - simpl in E. destruct (s_reg s); injection E as <- <-; [|done]. apply (of_lock http key ns id).
  - injection E as <- <-. done.
  - simpl in E. injection E as <- <-. by destruct (_ || _).
  - destruct http; simpl in E; injection E as <- <-; done.
  - simpl in E. destruct nss as [|ns nss]; [|destruct (_ || _); injection E as <- <-; [by apply of_clean|done]].
    injection E as <- <-. destruct (s_leases s !! i) as [l|]; [|apply of_nil]. destruct (Delegated _); [done|apply of_nil].
  - simpl in E. destruct (s_leases s !! i); [|injection E as <- <-; apply of_nil]. destruct (_ && _); injection E as <- <-; [apply of_nil|by apply of_clean].
  - simpl in E. destruct (w_fails w); injection E as <- <-; [apply of_nil|by apply of_clean].
  - simpl in E. injection E as <- <-. apply of_nil.
Qed.

(** ** The invariant *)

Definition serves (p : list act) : list nat := omap (λ a, match a with Serve i => Some i | _ => None end) p.

(** The next thing the goroutine does about a leg is to shut it. *)
Fixpoint soon (c : nat) (p : list act) : bool :=
  match p with Run c' :: p => (c' =? c)%nat || soon c p | Forget _ :: p => soon c p | _ => false end.

(** Acts that will find lease [i] a party of which, [ns], is disabled. *)
Definition counts (ns : string) (i : nat) (a : act) : Prop :=
  match a with Snapshot n => n = ns | Close j => j = i | Check j nss => j = i ∧ ns ∈ nss | _ => False end.

Inductive minding (ns : string) (i : nat) : (act → bool) → list act → Prop :=
| by_dial : minding ns i beginning [Serve i]
| by_switch : minding ns i (disconnecting ns) (disconnect ns).

Definition minds (ns : string) (i : nat) (x : list act) : Prop :=
  ∃ p tl pre, minding ns i p tl ∧ x = pre ++ tl ∧ forallb p pre = true ∧ ∃ a, a ∈ pre ∧ counts ns i a.

(** Goroutines that will remove, or look at, a registration. *)
Definition dropping (ns : string) (http : bool) (x : list act) : Prop :=
  (∃ pre, x = pre ++ disconnect ns ∧ forallb (disconnecting ns) pre = true) ∨ x = [KickWS ns; DropHTTP ns; Unlock] ∨
  http = true ∧ x = [DropHTTP ns; Unlock].

Definition registering (http : bool) (key ns : string) (id : nat) (x : list act) : Prop :=
  x = [CheckAgent http key ns id; Unlock] ∨ x = [Evict http key id; Unlock].

Definition some (P : list act → Prop) (l : list (list act)) : Prop := ∃ x, x ∈ l ∧ P x.
Definition agents_of (http : bool) (s : relay) : gmap string agent := if http then s_http s else s_ws s.

Record relay_ok (s : relay) : Prop := {
  ro_programs : ∀ x, x ∈ s_procs s → program x;
  ro_sids : NoDup (l_sid <$> s_leases s);
  ro_live : ∀ i l, s_leases s !! i = Some l → l_phase l = Open → s_live s !! l_sid l = Some i;
  ro_ending : ∀ x i, x ∈ s_procs s → Forget i ∈ x ∨ Finish i ∈ x → ∃ l, s_leases s !! i = Some l ∧ l_phase l ≠ Open;
  ro_served : NoDup (s_answered s ++ (s_procs s ≫= serves));
  ro_range : ∀ i, i ∈ s_answered s ++ (s_procs s ≫= serves) → (i < length (s_leases s))%nat;
  ro_accounts : ∀ i l ns, s_leases s !! i = Some l → l_phase l = Open → ns ∈ parties l → is_disabled ns (s_db s) = true → some (minds ns i) (s_procs s);
  ro_legs : ∀ i l c, s_leases s !! i = Some l → c ∈ l_legs l →
    (l_phase l = Open ∧ c ∈ l_closers l) ∨ c ∈ s_shut s ∨ some (λ x, soon c x = true) (s_procs s);
  ro_agents : ∀ http key a, agents_of http s !! key = Some a → is_disabled (ag_ns a) (s_db s) = true →
    some (dropping (ag_ns a) http) (s_procs s) ∨ some (registering http key (ag_ns a) (ag_id a)) (s_procs s) }.

Lemma some_mono (P : list act → Prop) l l' : (∀ x, x ∈ l → x ∈ l') → some P l → some P l'.
Proof. intros M (x & Hx & Px). exists x. auto. Qed.

Lemma some_moves (P : list act → Prop) l1 x q l2 : (P x → P q) → some P (l1 ++ x :: l2) → some P (l1 ++ q :: l2).
Proof.
  intros M (y & Hy & Py). rewrite elem_of_app, elem_of_cons in Hy. destruct Hy as [Hy|[->|Hy]].
  - exists y. split; [|done]. apply elem_of_app. by left.
  - exists q. split; [|auto]. apply elem_of_app. right. left.
  - exists y. split; [|done]. apply elem_of_app. right. by right.
Qed.

Lemma some_here (P : list act → Prop) l1 q l2 : P q → some P (l1 ++ q :: l2).
Proof. intros Q. exists q. split; [|done]. apply elem_of_app. right. left. Qed.

(** *** What an act changes *)

Ltac acts E := simpl in E;
  repeat match type of E with
  | match ?x with _ => _ end = _ => let X := fresh "X" in destruct x eqn:X
  | (match ?x with _ => _ end, _) = _ => let X := fresh "X" in destruct x eqn:X
  | (_, match ?x with _ => _ end) = _ => let X := fresh "X" in destruct x eqn:X
  end; injection E as <- <-.

Lemma advance_procs w a rest s q s' : advance w a rest s = (q, s') → s_procs s' = s_procs s.
Proof. intros E. destruct a; acts E; done. Qed.

Lemma advance_leases w a rest s q s' j l' : advance w a rest s = (q, s') → s_leases s' !! j = Some l' →
  ∃ l, s_leases s !! j = Some l ∧ l_sid l' = l_sid l ∧ l_target l' = l_target l ∧ l_access l' = l_access l ∧
       (l_phase l' = Open → l_phase l = Open ∧ a ≠ Close j).
Proof.
  intros E L. destruct a; acts E; simpl in L;
    try (exists l'; split_and!; try done; (intros Op; split; [done|]; intros ?; simplify_eq; congruence)).
  - destruct (decide (i = j)) as [->|N]; [rewrite list_lookup_insert_eq in L by (by eapply lookup_lt_Some)|rewrite list_lookup_insert_ne in L by done].
    + injection L as <-. exists a. by split_and!.
    + exists l'. split_and!; try done. intros Op. split; [done|]. congruence.
  - destruct (decide (i = j)) as [->|N].
    + rewrite list_lookup_alter_eq in L. apply fmap_Some in L as (l & Hl & ->). exists l. by split_and!.
    + rewrite list_lookup_alter_ne in L by done. exists l'. by split_and!.
  - destruct (decide (i = j)) as [->|N]; [rewrite list_lookup_insert_eq in L by (by eapply lookup_lt_Some)|rewrite list_lookup_insert_ne in L by done].
    + injection L as <-. exists a. by split_and!.
    + exists l'. by split_and!.
  - destruct (decide (i = j)) as [->|N]; [rewrite list_lookup_insert_eq in L by (by eapply lookup_lt_Some)|rewrite list_lookup_insert_ne in L by done].
    + injection L as <-. exists a. by split_and!.
    + exists l'. by split_and!.
Qed.

Lemma advance_sids w a rest s q s' : advance w a rest s = (q, s') → l_sid <$> s_leases s' = l_sid <$> s_leases s.
Proof.
  intros E. apply list_eq. intros j. rewrite !list_lookup_fmap. assert (length (s_leases s') = length (s_leases s)) as Len.
  { destruct a; acts E; simpl; rewrite ?length_insert, ?length_alter; done. }
  destruct (s_leases s' !! j) as [l'|] eqn:L.
  - destruct (advance_leases _ _ _ _ _ _ _ _ E L) as (l & -> & S & _). simpl. by rewrite S.
  - apply lookup_ge_None_1 in L. rewrite Len in L. by rewrite (lookup_ge_None_2 _ _ L).
Qed.

Lemma advance_live w a rest s q s' j l : advance w a rest s = (q, s') → NoDup (l_sid <$> s_leases s) → s_leases s !! j = Some l → a ≠ Forget j →
  s_live s !! l_sid l = Some j → s_live s' !! l_sid l = Some j.
Proof.
  intros E N L F V. destruct a; acts E; try done. simpl. destruct (bool_decide _); [|done]. rewrite lookup_delete_ne; [done|]. intros S.
  match goal with X : s_leases s !! i = Some ?a |- _ => assert (i = j) as ->; [|done]; eapply (NoDup_lookup _ i j (l_sid l) N); rewrite list_lookup_fmap, ?X, ?L; simpl; by rewrite ?S end.
Qed.

(** Only closing a lease leads to forgetting it. *)
Lemma advance_ending w a rest s q s' i : advance w a rest s = (q, s') → Forget i ∈ q ∨ Finish i ∈ q →
  (Forget i ∈ rest ∨ Finish i ∈ rest) ∨ a = Close i ∧ ∃ l, s_leases s' !! i = Some l ∧ l_phase l ≠ Open.
Proof.
  intros E F. destruct a; acts E; simpl; rewrite ?elem_of_cons, ?elem_of_app, ?list_elem_of_fmap, ?elem_of_cons, ?elem_of_nil in F; try (left; naive_solver).
  assert (i = i0 ∨ Forget i ∈ rest ∨ Finish i ∈ rest) as [->|] by naive_solver; [right|by left].
  split; [done|]. eexists. split; [apply list_lookup_insert_eq; by eapply lookup_lt_Some|done].
Qed.

Lemma serves_app l1 l2 : serves (l1 ++ l2) = serves l1 ++ serves l2.
Proof. apply omap_app. Qed.

Lemma serves_fmap {A} (f : A → act) l r : (∀ x i, f x ≠ Serve i) → serves ((f <$> l) ++ r) = serves r.
Proof.
  intros N. rewrite serves_app. assert (serves (f <$> l) = []) as ->; [|done].
  induction l as [|x l IH]; [done|]. rewrite fmap_cons. change (f x :: (f <$> l)) with ([f x] ++ (f <$> l)). rewrite serves_app, IH, app_nil_r.
  specialize (N x). destruct (f x); try done. by destruct (N i).
Qed.

Lemma advance_serves w a rest s q s' : advance w a rest s = (q, s') → sublist (s_answered s' ++ serves q) (s_answered s ++ serves (a :: rest)).
Proof.
  intros E. destruct a; acts E;
    try match goal with
    | |- context [serves (?x :: (Run <$> ?l) ++ ?r)] => change (serves (x :: (Run <$> l) ++ r)) with (serves ((Run <$> l) ++ r)); rewrite serves_fmap by done
    | |- context [serves ((_ <$> _) ++ _)] => rewrite serves_fmap by done
    end; try done; try (apply sublist_app; [done|apply sublist_nil_l]).
  - simpl. rewrite <- app_assoc. done.
  - apply sublist_app; [done|]. simpl. by apply sublist_cons.
Qed.

(** The program an act is the first of, where only one has it. *)
Ltac heads P :=
  inversion P; subst; clear P; try discriminate;
  repeat match goal with
  | Eq : ?pre ++ _ = _ :: _ |- _ => destruct pre; simplify_eq/=; try discriminate
  end.

Lemma SetDisabled_rest ns rest : program (SetDisabled ns :: rest) → rest = Snapshot ns :: disconnect ns.
Proof. intros P. heads P. done. Qed.

Lemma Withdraw_rest o owners rest : program (Withdraw o owners :: rest) → withdrawal o = Some owners ∧ rest = [CloseShares owners].
Proof. intros P. heads P. done. Qed.

(** Only the switch makes an account disabled. *)
Lemma advance_disabled w a rest s q s' ns : program (a :: rest) → advance w a rest s = (q, s') → is_disabled ns (s_db s') = true →
  is_disabled ns (s_db s) = true ∨ a = SetDisabled ns ∧ q = rest.
Proof.
  intros P E D. destruct a; acts E; try (by left); simpl in D.
  - destruct (decide (ns = ns0)) as [->|N]; [by right|left]. by rewrite <- (is_disabled_set (w_now w) ns0 true).
  - left. destruct (w_fails w); [done|]. by apply (disabled_op (w_now w) (QSetAccountDisabled ns0 false)).
  - left. apply Withdraw_rest in P as [W _]. eapply disabled_op; [|exact D]. by intros ->.
Qed.

(** *** What others wait for stays promised *)

(** Lease [i] is open, and after an act still is: who was going to find out that
    [ns] is disabled still is. *)
Lemma minds_moves w a rest s q s' ns i l l' : relay_ok s → advance w a rest s = (q, s') → s_leases s !! i = Some l → l_phase l = Open →
  ns ∈ parties l → is_disabled ns (s_db s) = true → s_leases s' !! i = Some l' → l_phase l' = Open →
  minds ns i (a :: rest) → minds ns i q.
Proof.
  intros I E L Op Pa D L' Op' (p & tl & pre & M & Eq & F & b & Hb & C). destruct pre as [|a' pre]; [by apply elem_of_nil in Hb|].
  injection Eq as <- ->. simpl in F. apply andb_true_iff in F as [Fa Fp].
  destruct (advance_leases _ _ _ _ _ _ _ _ E L') as (l0 & L0 & _ & _ & _ & NC). rewrite L in L0. injection L0 as <-. destruct (NC Op') as [_ Nc].
  assert (opened p tl) as O by (destruct M; constructor).
  destruct (advance_adds w p tl a _ s q s' O Fa E) as (new & -> & Pn). exists p, tl, (new ++ pre). rewrite <- app_assoc, forallb_app, Pn, Fp. split_and!; try done.
  apply elem_of_cons in Hb as [->|Hb]; [|exists b; split; [apply elem_of_app; by right|done]].
  assert (∃ b, b ∈ new ∧ counts ns i b) as (b & Hb & Cb); [|exists b; split; [apply elem_of_app; by left|done]].
  destruct a; simpl in C; try done.
  - destruct C as [-> Hn]. destruct nss as [|n nss]; [by apply elem_of_nil in Hn|]. simpl in E. destruct (w_fails w || is_disabled n (s_db s)) eqn:X; injection E as E _; apply (app_inv_tail (pre ++ tl) [_]) in E as <-.
    + exists (Close i). split; [left|done].
    + exists (Check i nss). split; [left|]. split; [done|]. apply elem_of_cons in Hn as [<-|]; [|done]. rewrite D, orb_true_r in X. done.
  - by destruct Nc; f_equal.
  - subst ns0. simpl in E. injection E as E _. apply app_inv_tail in E as <-. exists (Close i). split; [|done]. apply list_elem_of_fmap. exists i. split; [done|].
    unfold held. apply list_elem_of_In, List.filter_In. rewrite L. split; [|by apply party_parties].
    apply list_elem_of_In, list_elem_of_fmap. exists (l_sid l, i). split; [done|]. apply elem_of_map_to_list. by apply (ro_live s I).
Qed.

Lemma dropping_moves w a rest s q s' http key ns ag : advance w a rest s = (q, s') → agents_of http s' !! key = Some ag → ag_ns ag = ns →
  dropping ns http (a :: rest) → dropping ns http q.
Proof.
  intros E A Na [(pre & Eq & F)|[Eq|[-> Eq]]].
  - destruct pre as [|b pre]; simpl in Eq; injection Eq as -> ->.
    + simpl in E. destruct (s_reg s); injection E as <- <-; [left; by exists []|right; by left].
    + simpl in F. apply andb_true_iff in F as [Fb Fp]. destruct (advance_adds w _ _ b _ s q s' (in_disconnect ns) Fb E) as (new & -> & Pn).
      left. exists (new ++ pre). by rewrite <- app_assoc, forallb_app, Pn, Fp.
  - injection Eq as -> ->. simpl in E. injection E as <- <-. destruct http; [right; right; done|]. simpl in A. apply map_lookup_filter_Some in A as [_ A]. done.
  - injection Eq as -> ->. simpl in E. injection E as <- <-. simpl in A. apply map_lookup_filter_Some in A as [_ A]. done.
Qed.

Lemma registering_moves w a rest s q s' http key ns ag : advance w a rest s = (q, s') → agents_of http s' !! key = Some ag → ag_ns ag = ns →
  is_disabled ns (s_db s) = true → registering http key ns (ag_id ag) (a :: rest) → registering http key ns (ag_id ag) q.
Proof.
  intros E A Na D [Eq|Eq]; injection Eq as -> ->.
  - simpl in E. rewrite D, orb_true_r in E. injection E as <- <-. by right.
  - destruct http; simpl in E; injection E as <- <-; simpl in A; [by rewrite lookup_delete_eq in A|].
    destruct (bool_decide_reflect (ag_id <$> s_ws s !! key = Some (ag_id ag))) as [X|X]; simpl in A; [by rewrite lookup_delete_eq in A|]. by rewrite A in X.
Qed.

Lemma soon_moves w a rest s q s' c : advance w a rest s = (q, s') → soon c (a :: rest) = true → c ∈ s_shut s' ∨ soon c q = true.
Proof.
  intros E S. destruct a; try done; simpl in E.
  - destruct (s_leases s !! i); injection E as <- <-; by right.
  - injection E as <- <-. simpl in S. apply orb_true_iff in S as [->%Nat.eqb_eq|S]; [left; simpl; apply elem_of_app; right; by apply list_elem_of_singleton|by right].
Qed.

(** *** The invariant holds *)

(** A leg of a lease: waiting for its end, shut, or about to be. *)
Definition leg_ok (s : relay) (l : accessLease) (c : nat) (q : list act) : Prop := (l_phase l = Open ∧ c ∈ l_closers l) ∨ c ∈ s_shut s ∨ soon c q = true.

Lemma soon_closers c i l rest : c ∈ l → soon c (Forget i :: (Run <$> l) ++ rest) = true.
Proof.
  change (soon c (Forget i :: (Run <$> l) ++ rest)) with (soon c ((Run <$> l) ++ rest)). induction l as [|x l IH]; [by intros ?%elem_of_nil|].
  change (soon c ((Run <$> (x :: l)) ++ rest)) with ((x =? c)%nat || soon c ((Run <$> l) ++ rest)).
  intros [->|H']%elem_of_cons; [by rewrite Nat.eqb_refl|]. by rewrite IH, orb_true_r.
Qed.

Lemma advance_shut w a rest s q s' c : advance w a rest s = (q, s') → c ∈ s_shut s → c ∈ s_shut s'.
Proof. intros E Hc. destruct a; acts E; try done. simpl. apply elem_of_app. by left. Qed.

(** An act that is not the end of lease [j] leaves its legs as they were, or adds
    one. *)
Lemma advance_legs w a rest s q s' j l' c : advance w a rest s = (q, s') → (∀ l, a = Finish j → s_leases s !! j = Some l → l_phase l ≠ Open) →
  s_leases s' !! j = Some l' → c ∈ l_legs l' →
  leg_ok s' l' c q ∨ ∃ l, s_leases s !! j = Some l ∧ c ∈ l_legs l ∧ (l_phase l = Open → c ∈ l_closers l → leg_ok s' l' c q).
Proof.
  intros E NF L Hc. destruct a; acts E; simpl in L; try (right; exists l'; split_and!; try done; by left).
  - destruct (decide (i = j)) as [->|N]; [rewrite list_lookup_insert_eq in L by (by eapply lookup_lt_Some)|rewrite list_lookup_insert_ne in L by done].
    + injection L as <-. right. exists a. split_and!; [done|done|]. intros _ Hl. right. right. by apply soon_closers.
    + right. exists l'. split_and!; try done. by left.
  - right. destruct (decide (i = j)) as [->|N]; [rewrite list_lookup_alter_eq in L|rewrite list_lookup_alter_ne in L by done; exists l'; split_and!; try done; by left].
    apply fmap_Some in L as (l & Hl & ->). exists l. split_and!; [done|done|]. intros Op. by destruct (NF l eq_refl Hl).
  - destruct (decide (i = j)) as [->|N]; [rewrite list_lookup_insert_eq in L by (by eapply lookup_lt_Some)|rewrite list_lookup_insert_ne in L by done; right; exists l'; split_and!; try done; by left].
    injection L as <-. simpl in Hc. apply bool_decide_eq_true_1 in X0. apply elem_of_app in Hc as [Hc| ->%list_elem_of_singleton].
    + right. exists a. split_and!; [done|done|]. intros Op Hl. left. split; [done|]. simpl. apply elem_of_app. by left.
    + left. left. split; [done|]. simpl. apply elem_of_app. right. left.
  - destruct (decide (i = j)) as [->|N]; [rewrite list_lookup_insert_eq in L by (by eapply lookup_lt_Some)|rewrite list_lookup_insert_ne in L by done; right; exists l'; split_and!; try done; by left].
    injection L as <-. simpl in Hc. apply elem_of_app in Hc as [Hc| ->%list_elem_of_singleton].
    + right. exists a. split_and!; [done|done|]. intros Op Hl. left. by split.
    + left. right. right. simpl. by rewrite Nat.eqb_refl.
Qed.

(** A registration is new, or was there. *)
Lemma advance_agents w a rest s q s' http key ag : advance w a rest s = (q, s') → agents_of http s' !! key = Some ag →
  agents_of http s !! key = Some ag ∨ a = Register http key (ag_ns ag) (ag_id ag) ∧ q = CheckAgent http key (ag_ns ag) (ag_id ag) :: rest.
Proof.
  intros E A. destruct a; acts E; try (by left); destruct http; simpl in *; try (by left);
    repeat match goal with
    | A : drop_ns _ _ !! _ = Some _ |- _ => apply map_lookup_filter_Some in A as [A _]
    | A : delete _ _ !! _ = Some _ |- _ => apply lookup_delete_Some in A as [_ A]
    | A : <[_ := _]> _ !! _ = Some _ |- _ => apply lookup_insert_Some in A as [ [? A]|[? A] ]; subst
    | A : s_ws (if ?b then _ else _) !! _ = _ |- _ => destruct b; simpl in A
    | A : s_http (if ?b then _ else _) !! _ = _ |- _ => destruct b; simpl in A
    end; try (by left); by right.
Qed.

Lemma bind_middle l1 (x : list act) l2 : (l1 ++ x :: l2) ≫= serves ≡ₚ serves x ++ ((l1 ++ l2) ≫= serves).
Proof. rewrite !bind_app, bind_cons, !app_assoc. apply Permutation_app_tail, Permutation_app_comm. Qed.

Lemma relay_ok_now t s : relay_ok s → relay_ok (set_db t (s_db s) s).
Proof. intros []. by split. Qed.

Section move.
Context (w : world) (a : act) (rest q : list act) (s s' : relay) (l1 l2 : list (list act)).
Hypothesis I : relay_ok s.
Hypothesis E : advance w a rest s = (q, s').
Hypothesis Ps : s_procs s = l1 ++ (a :: rest) :: l2.

Lemma mover : a :: rest ∈ s_procs s.
Proof. rewrite Ps. apply elem_of_app. right. left. Qed.

Lemma bystander x : x ∈ l1 ++ q :: l2 → x = q ∨ x ∈ s_procs s.
Proof. rewrite Ps, !elem_of_app, !elem_of_cons. tauto. Qed.

Lemma was_open i l : s_leases s' !! i = Some l → l_phase l = Open →
  ∃ l0, s_leases s !! i = Some l0 ∧ l_phase l0 = Open ∧ l_sid l = l_sid l0 ∧ parties l = parties l0.
Proof.
  intros L Op. destruct (advance_leases _ _ _ _ _ _ _ _ E L) as (l0 & L0 & S & T & A & O). exists l0. unfold parties. rewrite T, A. by destruct (O Op).
Qed.

Lemma not_ending x i : x ∈ s_procs s → Forget i ∈ x ∨ Finish i ∈ x → ∃ l, s_leases s' !! i = Some l ∧ l_phase l ≠ Open.
Proof.
  intros Hx F. destruct (ro_ending s I x i Hx F) as (l0 & L0 & N). assert (is_Some (s_leases s' !! i)) as [l L].
  { apply lookup_lt_is_Some. rewrite <- (length_fmap l_sid), (advance_sids _ _ _ _ _ _ E), length_fmap. by eapply lookup_lt_Some. }
  exists l. split; [done|]. intros Op. destruct (was_open _ _ L Op) as (l1' & L1 & O1 & _). congruence.
Qed.

Lemma move_ending x i : x ∈ l1 ++ q :: l2 → Forget i ∈ x ∨ Finish i ∈ x → ∃ l, s_leases s' !! i = Some l ∧ l_phase l ≠ Open.
Proof.
  intros [->|Hx]%bystander F; [|by eapply not_ending].
  apply (advance_ending _ _ _ _ _ _ _ E) in F as [F|[_ F]]; [|done]. eapply not_ending; [apply mover|]. rewrite !elem_of_cons. tauto.
Qed.

Lemma move_live i l : s_leases s' !! i = Some l → l_phase l = Open → s_live s' !! l_sid l = Some i.
Proof.
  intros L Op. destruct (was_open _ _ L Op) as (l0 & L0 & O0 & -> & _).
  eapply advance_live; [exact E|apply (ro_sids s I)|done| |by apply (ro_live s I)]. intros Ea.
  destruct (not_ending _ i mover) as (l' & L' & N); [left; rewrite Ea; left|congruence].
Qed.

Lemma move_served : NoDup (s_answered s' ++ ((l1 ++ q :: l2) ≫= serves)) ∧
  ∀ i, i ∈ s_answered s' ++ ((l1 ++ q :: l2) ≫= serves) → (i < length (s_leases s'))%nat.
Proof.
  pose proof (advance_serves _ _ _ _ _ _ E) as Sv. assert (length (s_leases s') = length (s_leases s)) as Len.
  { rewrite <- (length_fmap l_sid), (advance_sids _ _ _ _ _ _ E). apply length_fmap. }
  pose proof (ro_served s I) as N. rewrite Ps, bind_middle, app_assoc in N. split.
  - rewrite bind_middle, app_assoc. eapply sublist_NoDup; [exact N|]. by apply sublist_app.
  - intros i. rewrite bind_middle, app_assoc, elem_of_app, Len. intros Hi. apply (ro_range s I). rewrite Ps, bind_middle, app_assoc, elem_of_app.
    destruct Hi as [Hi|Hi]; [left|by right]. by eapply elem_of_sublist.
Qed.

Lemma move_accounts i l ns : s_leases s' !! i = Some l → l_phase l = Open → ns ∈ parties l → is_disabled ns (s_db s') = true →
  some (minds ns i) (l1 ++ q :: l2).
Proof.
  intros L Op Pa D. destruct (was_open _ _ L Op) as (l0 & L0 & O0 & _ & Pp). rewrite Pp in Pa.
  pose proof (ro_programs s I _ mover) as P. apply (advance_disabled _ _ _ _ _ _ _ P E) in D as [D|[Ea Eq]].
  - pose proof (ro_accounts s I i l0 ns L0 O0 Pa D) as M. rewrite Ps in M. eapply some_moves; [|exact M]. eapply minds_moves; eassumption.
  - apply some_here. rewrite Ea in P. rewrite Eq, (SetDisabled_rest _ _ P). exists (disconnecting ns), (disconnect ns), [Snapshot ns]. split_and!; [constructor|done| |].
    + simpl. unfold disconnecting. simpl. by rewrite String.eqb_refl.
    + exists (Snapshot ns). split; [left|done].
Qed.

Lemma move_legs i l c : s_leases s' !! i = Some l → c ∈ l_legs l →
  (l_phase l = Open ∧ c ∈ l_closers l) ∨ c ∈ s_shut s' ∨ some (λ x, soon c x = true) (l1 ++ q :: l2).
Proof.
  intros L Hc. assert (leg_ok s' l c q → (l_phase l = Open ∧ c ∈ l_closers l) ∨ c ∈ s_shut s' ∨ some (λ x, soon c x = true) (l1 ++ q :: l2)) as K.
  { intros [O|[O|O]]; [by left|right; by left|right; right; by apply some_here]. }
  assert (∀ l0, a = Finish i → s_leases s !! i = Some l0 → l_phase l0 ≠ Open) as NF.
  { intros l0 Ea L0. destruct (ro_ending s I _ i mover) as (l' & L' & N); [right; rewrite Ea; left|congruence]. }
  destruct (advance_legs _ _ _ _ _ _ _ _ _ E NF L Hc) as [O|(l0 & L0 & Hc0 & O)]; [auto|].
  destruct (ro_legs s I i l0 c L0 Hc0) as [[Op Cl]|[Sh|So]]; [auto|right; left; by eapply advance_shut|]. right. rewrite Ps in So.
  destruct So as (x & Hx & Sx). rewrite elem_of_app, elem_of_cons in Hx. destruct Hx as [Hx|[->|Hx]].
  - right. exists x. split; [|done]. apply elem_of_app. by left.
  - destruct (soon_moves _ _ _ _ _ _ _ E Sx) as [?|?]; [by left|right; by apply some_here].
  - right. exists x. split; [|done]. apply elem_of_app. right. by right.
Qed.

Lemma move_agents http key ag : agents_of http s' !! key = Some ag → is_disabled (ag_ns ag) (s_db s') = true →
  some (dropping (ag_ns ag) http) (l1 ++ q :: l2) ∨ some (registering http key (ag_ns ag) (ag_id ag)) (l1 ++ q :: l2).
Proof.
  intros A D. pose proof (ro_programs s I _ mover) as P. apply (advance_disabled _ _ _ _ _ _ _ P E) in D as [D|[Ea Eq]].
  - destruct (advance_agents _ _ _ _ _ _ _ _ _ E A) as [A0|[Ea Eq]].
    + destruct (ro_agents s I http key ag A0 D) as [M|M]; rewrite Ps in M; [left|right]; (eapply some_moves; [|exact M]).
      * eapply dropping_moves; done.
      * eapply registering_moves; done.
    + right. apply some_here. rewrite Ea in P. rewrite Eq. left. heads P. done.
  - left. apply some_here. rewrite Ea in P. rewrite Eq, (SetDisabled_rest _ _ P). left. exists [Snapshot (ag_ns ag)]. split; [done|].
    simpl. unfold disconnecting. simpl. by rewrite String.eqb_refl.
Qed.

Lemma move_ok : relay_ok (set_procs (l1 ++ q :: l2) s').
Proof.
  destruct move_served as [Sv Ra]. split; simpl; [| |exact move_live|exact move_ending|exact Sv|exact Ra|exact move_accounts|exact move_legs|exact move_agents].
  - intros x [->|Hx]%bystander; [eapply advance_program; [apply (ro_programs s I _ mover)|exact E]|by apply (ro_programs s I)].
  - rewrite (advance_sids _ _ _ _ _ _ E). apply (ro_sids s I).
Qed.
End move.

Lemma relay_run_proc_ok n w s : relay_ok s → relay_ok (run_proc n w s).
Proof.
  intros I. unfold run_proc. destruct (s_procs s !! n) as [[|a rest]|] eqn:Pn; [done| |done].
  destruct (advance w a rest s) as [q s'] eqn:E. apply list_elem_of_split_length in Pn as (l1 & l2 & Ps & ->). rewrite Ps, insert_middle.
  by eapply move_ok.
Qed.

Lemma some_more (P : list act → Prop) l x : some P l → some P (l ++ [x]).
Proof. apply some_mono. intros y Hy. apply elem_of_app. by left. Qed.

Lemma some_last (P : list act → Prop) l x : P x → some P (l ++ [x]).
Proof. intros Px. exists x. split; [|done]. apply elem_of_app. right. left. Qed.

Definition ends (a : act) : bool := match a with Forget _ | Finish _ => true | _ => false end.

Lemma no_ends x i : forallb (λ a, negb (ends a)) x = true → ¬ (Forget i ∈ x ∨ Finish i ∈ x).
Proof. intros F. rewrite forallb_forall in F. intros [Hi|Hi]; apply list_elem_of_In in Hi; by apply F in Hi. Qed.

(** What a handler starts with, apart from a dial's. *)
Lemma spawn_ok x s : program x → serves x = [] → forallb (λ a, negb (ends a)) x = true → relay_ok s → relay_ok (spawn x s).
Proof.
  intros P Sx F [R1 R2 R3 R4 R5 R6 R7 R8 R9]. assert ((s_procs s ++ [x]) ≫= serves = s_procs s ≫= serves) as Es by (rewrite bind_app; simpl; by rewrite Sx, !app_nil_r).
  split; simpl; rewrite ?Es; try done.
  - intros y [Hy| ->%list_elem_of_singleton]%elem_of_app; auto.
  - intros y i [Hy| ->%list_elem_of_singleton]%elem_of_app Hi; [by eapply R4|by apply no_ends in Hi].
  - intros i l ns L O Pa D. apply some_more. eauto.
  - intros i l c L Hc. destruct (R8 i l c L Hc) as [?|[?|?]]; [by left|right; by left|right; right; by apply some_more].
  - intros http key ag A D. destruct (R9 http key ag A D); [left|right]; by apply some_more.
Qed.

Lemma query_ok now d s : (∀ ns, is_disabled ns d = true → is_disabled ns (s_db s) = true) → relay_ok s → relay_ok (set_db now d s).
Proof. intros M []. split; simpl; eauto. Qed.

Lemma gone_ok ws http s : (∀ key ag, ws !! key = Some ag → s_ws s !! key = Some ag) → (∀ key ag, http !! key = Some ag → s_http s !! key = Some ag) →
  relay_ok s → relay_ok (set_agents ws http s).
Proof.
  intros W H' []. split; simpl; try done. intros h key ag A D. apply (ro_agents0 h key ag); [|done]. destruct h; simpl in *; auto.
Qed.

Lemma begin_begins i l legs : forallb beginning (Check i (parties l) :: (AddCloser i <$> legs)) = true.
Proof. simpl. by apply forallb_fmap. Qed.

Lemma lease_dial_ok sid target token a caps legs s : any (λ l, String.eqb (l_sid l) sid) (s_leases s) = false → relay_ok s →
  let i := length (s_leases s) in let l := AccessLease sid target token a caps Open [] [] in
  relay_ok (spawn (begin_program i l legs) (set_leases (s_leases s ++ [l]) (<[sid := i]> (s_live s)) s)).
Proof.
  intros N [R1 R2 R3 R4 R5 R6 R7 R8 R9] i l.
  assert (∀ j l', (s_leases s ++ [l]) !! j = Some l' → s_leases s !! j = Some l' ∨ j = i ∧ l' = l) as Look.
  { intros j l' [L|[Ge L]]%lookup_app_Some; [by left|right]. apply list_lookup_singleton_Some in L as [E <-]. split; [lia|done]. }
  assert (serves (begin_program i l legs) = [i]) as Sx.
  { unfold begin_program. change (serves (Check i (parties l) :: (AddCloser i <$> legs) ++ [Serve i])) with (serves ((AddCloser i <$> legs) ++ [Serve i])). by rewrite serves_fmap. }
  assert (∀ j, j ∈ s_answered s ++ (s_procs s ≫= serves) → j ≠ i) as Fresh by (intros j Hj ->; by apply R6, Nat.lt_irrefl in Hj).
  assert (∀ l', l' ∈ s_leases s → l_sid l' ≠ sid) as Ns by (intros l' Hl; rewrite any_false in N; specialize (N l' Hl); by apply String.eqb_neq in N).
  assert ((s_procs s ++ [begin_program i l legs]) ≫= serves = (s_procs s ≫= serves) ++ [i]) as Es by (rewrite bind_app, bind_cons, Sx; done).
  split; unfold spawn, set_procs, set_leases, agents_of; cbn [s_now s_db s_leases s_live s_ws s_http s_reg s_answered s_shut s_kicked s_procs]; rewrite ?Es.
  - intros y [Hy| ->%list_elem_of_singleton]%elem_of_app; [by apply R1|]. apply (of_begin i (Check i (parties l) :: (AddCloser i <$> legs))), begin_begins.
  - rewrite fmap_app. apply NoDup_app. split_and!; [done| |apply NoDup_singleton]. intros x (l' & -> & Hl)%list_elem_of_fmap E%list_elem_of_singleton. by apply (Ns l').
  - intros j l' [L|[-> ->]]%Look Op; [|apply lookup_insert_eq]. rewrite lookup_insert_ne; [by apply R3|]. intros E. eapply Ns; [by eapply list_elem_of_lookup_2|done].
  - intros y j [Hy| ->%list_elem_of_singleton]%elem_of_app Hj.
    + destruct (R4 y j Hy Hj) as (l' & L & O). exists l'. split; [by apply lookup_app_l_Some|done].
    + exfalso. revert Hj. apply no_ends. unfold begin_program. simpl. rewrite forallb_app, forallb_fmap by done. done.
  - rewrite app_assoc. apply NoDup_app. split_and!; [done| |apply NoDup_singleton]. intros j Hj ->%list_elem_of_singleton. by apply (Fresh i).
  - intros j. rewrite app_assoc, length_app. simpl. intros [Hj| ->%list_elem_of_singleton]%elem_of_app; [apply R6 in Hj; lia|subst i; lia].
  - intros j l' ns [L|[-> ->]]%Look O Pa D; [apply some_more; eauto|]. apply some_last. exists beginning, [Serve i], (Check i (parties l) :: (AddCloser i <$> legs)).
    split_and!; [constructor|done|apply begin_begins|]. exists (Check i (parties l)). split; [left|done].
  - intros j l' c [L|[-> ->]]%Look Hc; [|by apply elem_of_nil in Hc]. destruct (R8 j l' c L Hc) as [?|[?|?]]; [by left|right; by left|right; right; by apply some_more].
  - intros http key ag A D. destruct (R9 http key ag A D); [left|right]; by apply some_more.
Qed.

Lemma relay_happen_ok e s : relay_ok s → relay_ok (happen e s).
Proof.
  intros I. destruct e; simpl.
  - destruct (_ || by_handler o) eqn:B; [done|]. apply query_ok; [|done]. intros ns. apply disabled_op. intros ->. by rewrite orb_true_r in B.
  - destruct (any _ _) eqn:N; [done|]. by apply lease_dial_ok.
  - apply spawn_ok; [by apply of_clean|done..].
  - apply spawn_ok; [by apply of_clean|done..].
  - destruct (s_leases s !! i) as [l|]; [|done]. apply spawn_ok; [apply of_recheck|done..].
  - unfold adminAccountDisable. destruct (_ || _); [done|]. destruct disabled; (apply spawn_ok; [apply of_disable || apply of_enable|done..]).
  - destruct (withdrawal o) as [owners|] eqn:W; [|done]. apply spawn_ok; [by apply of_withdraw|done..].
  - apply spawn_ok; [apply of_lock|done..].
  - destruct http; apply gone_ok; try done; intros k ag A; by apply lookup_delete_Some in A as [_ A].
  - destruct (_ <? _); [done|]. apply relay_run_proc_ok. by apply relay_ok_now.
Qed.

Lemma relay_start_ok now d : relay_ok (start now d).
Proof.
  split; unfold start, agents_of; cbn [s_now s_db s_leases s_live s_ws s_http s_reg s_answered s_shut s_kicked s_procs]; try (by intros ? ? ?%elem_of_nil || intros ? ?%elem_of_nil);
    try (by intros ? ? ? || intros ? ? ? ?); try apply NoDup_nil_2.
  intros [] key ag A; by rewrite lookup_empty in A.
Qed.

Lemma relaying_ok s : relaying s → relay_ok s.
Proof. revert s. apply invariant_reachable; [by intros ? (now & d & ->); apply relay_start_ok|]. intros s1 s2 I [e ->]. by apply relay_happen_ok. Qed.

(** C13: a disabled account has nothing open.  However dials, registrations,
    rechecks, withdrawals, the ends of sessions and the operator's switches
    interleave, and whichever queries fail: once the handler that disabled an
    account has returned, no session that was handed out is open that the account
    dialed or that reaches one of its devices, and every leg of each is shut, or
    the very next thing some goroutine does is shutting it; and a device of the
    account is only registered as long as the request that registers it has yet to
    look at the account. *)
Theorem disabled_account_is_offline s ns :
  relaying s → is_disabled ns (s_db s) = true → (∀ x, x ∈ s_procs s → DropHTTP ns ∈ x → SetDisabled ns ∈ x) →
  (∀ i l, i ∈ s_answered s → s_leases s !! i = Some l → party ns l = true →
     l_phase l ≠ Open ∧ ∀ c, c ∈ l_legs l → c ∈ s_shut s ∨ some (λ x, soon c x = true) (s_procs s)) ∧
  (∀ http key a, agents_of http s !! key = Some a → ag_ns a = ns → some (registering http key ns (ag_id a)) (s_procs s)).
Proof.
  intros R D Returned. pose proof (relaying_ok s R) as I.
  assert (∀ pre, pre ++ disconnect ns ∈ s_procs s → forallb (disconnecting ns) pre = true → False) as Done.
  { intros pre Hx F. assert (SetDisabled ns ∈ pre ++ disconnect ns) as [S|S]%elem_of_app by (apply Returned; [done|set_solver]); [|set_solver].
    rewrite forallb_forall in F. apply list_elem_of_In, F in S. done. }
  split.
  - intros i l A L Pa%party_parties. assert (l_phase l ≠ Open) as N.
    { intros Op. destruct (ro_accounts s I i l ns L Op Pa D) as (x & Hx & p & tl & pre & M & -> & F & _).
      destruct M; [|by eapply Done]. pose proof (ro_served s I) as (_ & Nd & _)%NoDup_app. apply (Nd i A).
      apply list_elem_of_bind. exists (pre ++ [Serve i]). split; [|done]. rewrite serves_app. apply elem_of_app. right. left. }
    split; [done|]. intros c Hc. destruct (ro_legs s I i l c L Hc) as [[Op _]|O]; done.
  - intros http key a A <-. destruct (ro_agents s I http key a A D) as [(x & Hx & Dr)|Re]; [|done]. exfalso.
    destruct Dr as [(pre & -> & F)|[->|[_ ->]]]; [by eapply Done| |];
      (match type of Hx with ?x ∈ _ => assert (SetDisabled (ag_ns a) ∈ x) as K by (apply Returned; [done|set_solver]) end; set_solver).
Qed.

(** A goroutine that is about to shut a leg waits for nothing. *)
Lemma soon_shuts c x : soon c x = true → ∀ s n, s_procs s !! n = Some x → ∃ es s', s' = happen_all es s ∧ c ∈ s_shut s'.
Proof.
  intros S s n Hn. revert s S Hn. induction x as [|a x IH]; intros s S Hn; [done|].
  destruct (advance (World (s_now s) false) a x (set_db (s_now s) (s_db s) s)) as [q s1] eqn:E.
  assert (happen (Move n (World (s_now s) false)) s = set_procs (<[n := q]> (s_procs s)) s1) as Hs.
  { simpl. rewrite Z.ltb_irrefl. unfold run_proc. simpl. rewrite Hn. by rewrite E. }
  destruct (soon_moves _ _ _ _ _ _ _ E S) as [Sh|So].
  - exists [Move n (World (s_now s) false)]. eexists. split; [reflexivity|]. unfold happen_all. cbn [fold_left]. by rewrite Hs.
  - assert (q = x) as ->. { destruct a; try done; simpl in E; [destruct (s_leases s !! i)|]; by injection E as <- <-. }
    destruct (IH (set_procs (<[n := x]> (s_procs s)) s1) So) as (es & s' & -> & Hc); [simpl; by apply list_lookup_insert_eq, lookup_lt_Some with (a :: x)|].
    exists (Move n (World (s_now s) false) :: es). eexists. split; [reflexivity|]. unfold happen_all. cbn [fold_left]. by rewrite Hs.
Qed.

(** ** Grants and shares *)

(** A grant that was revoked or ran out fails every later look at its credential,
    and the device's own question. *)
Lemma dead_credential_refused t d t' d' s session l :
  stored json_valid (t, d) → (∃ row, row ∈ tokens d ∧ t_hash row = HashToken (l_token l) ∧ dead_row t row = true) →
  rtc (quiet json_valid (HashToken (l_token l))) (t, d) (t', d') → s_db s = d' → lease_of session s = Some l → Delegated (l_access l) = true →
  credentialValid t' l d' = false ∧ (∀ ns device grant fp, handleAgentDelegationCheck t' session ns device grant fp s = false) ∧
  (∀ w rest i, w_now w = t' → s_leases s !! i = Some l → (advance w (Resolved i) rest s).1 = [Close i]).
Proof.
  intros R (row & Hr & Er & Dr) Steps Ed L De. pose proof (stored_tokens json_valid t d R) as I.
  assert (gone t (HashToken (l_token l)) d) as G.
  { intros x Hx Ex. assert (x = row) as ->; [|done]. eapply (unique_row t_hash); [apply I|done|done|]. congruence. }
  destruct (gone_steps _ _ _ _ Steps I G) as [_ G']. simpl in G'. destruct (gone_refused _ _ _ G') as [_ N].
  assert (same_credential t' l (resolve t' (l_token l) d') = false) as Sc by (unfold resolve, ResolveAccess; by rewrite N).
  assert (credentialValid t' l d' = false) as Cv by (unfold credentialValid; rewrite De, Sc; apply andb_false_r).
  split_and!; [done| |].
  - intros ns device grant fp. unfold handleAgentDelegationCheck. rewrite L. destruct (_ || _); [done|]. by rewrite Ed, Cv, andb_false_r.
  - intros w rest i <- Li. simpl. rewrite Li, Ed, Sc. by rewrite andb_false_r.
Qed.

(** The handler that took a share away looks at every session it found on it, and
    ends those the share no longer allows. *)
Lemma shares_looked_at owners rest w s i l : relaying s → s_leases s !! i = Some l → l_phase l = Open → on_share owners l = true →
  ShareCheck i ∈ (advance w (CloseShares owners) rest s).1 ∧
  (share_lost l (share_of l (s_db s)) = true → (advance w (ShareCheck i) rest s).1 = Close i :: rest).
Proof.
  intros R L Op On. split.
  - simpl. apply elem_of_app. left. apply list_elem_of_fmap. exists i. split; [done|]. unfold held. apply list_elem_of_In, List.filter_In. rewrite L. split; [|done].
    apply list_elem_of_In, list_elem_of_fmap. exists (l_sid l, i). split; [done|]. apply elem_of_map_to_list. by apply (ro_live s (relaying_ok s R)).
  - intros Lost. simpl. rewrite L. destruct (w_fails w); [done|]. by rewrite Lost.
Qed.
End relay.

(** ** Examples *)

Module Demo.

#[local] Existing Instance ascii_libraries.

Definition json (s : string) : bool := true.
Definition go (n k : nat) : list event := repeat (Move n (World 9 false)) k.
Definition caller (ns : string) : access := Access ns "1" false "" 0 [] "" 0 "".

(** The guest's device polls, the guest dials it, and the operator disables the
    account. *)
Definition switched : list event :=
  [Agent_ true "guest/mac" "guest" 7; Dial "a1" "guest/mac" "wanctl_1" (caller "guest") Auth.FullCapabilities [1%nat]]
  ++ go 0 4 ++ go 1 4 ++ [Disable "guest" true] ++ go 2 12.

Definition offline : relay := happen_all json "portal" switched (start 4 admitted_db).

Lemma happen_all_relaying es s : relaying json "portal" s → relaying json "portal" (happen_all json "portal" es s).
Proof.
  revert s. induction es as [|e es IH]; intros s R; [done|]. apply IH. eapply reachable_step; [exact R|]. by exists e.
Qed.

Lemma start_relaying now d : relaying json "portal" (start now d).
Proof. apply reachable_init. by exists now, d. Qed.

Lemma at_rest (l : list (list act)) x a : forallb (λ x, (length x =? 0)%nat) l = true → x ∈ l → a ∈ x → False.
Proof.
  intros F Hx Ha. rewrite forallb_forall in F. apply list_elem_of_In, F, Nat.eqb_eq, nil_length_inv in Hx. subst. by apply elem_of_nil in Ha.
Qed.

Lemma disabled_account_is_offline_witness :
  is_disabled "guest" (s_db offline) = true ∧ s_answered offline = [0%nat] ∧ s_shut offline = [1%nat] ∧ s_http offline = ∅ ∧
  ∃ l, s_leases offline !! 0%nat = Some l ∧ l_phase l ≠ Open ∧ ∀ c, c ∈ l_legs l → c ∈ s_shut offline ∨ some (λ x, soon c x = true) (s_procs offline).
Proof.
  assert (is_disabled "guest" (s_db offline) = true) as D by (vm_compute; reflexivity).
  split; [exact D|]. split; [vm_compute; reflexivity|]. split; [vm_compute; reflexivity|]. split; [vm_compute; reflexivity|].
  assert (∀ x, x ∈ s_procs offline → DropHTTP "guest" ∈ x → SetDisabled "guest" ∈ x) as Ret.
  { intros x Hx F. exfalso. eapply at_rest; [|exact Hx|exact F]. vm_compute. reflexivity. }
  destruct (disabled_account_is_offline json "portal" offline "guest" (happen_all_relaying switched _ (start_relaying 4 admitted_db)) D Ret) as [S _].
  eexists. split; [vm_compute; reflexivity|]. apply (S 0%nat); [|vm_compute; reflexivity|vm_compute; reflexivity].
  assert (s_answered offline = [0%nat]) as -> by (vm_compute; reflexivity). left.
Defined.

(** A share is checked before the lease is published, and not again.  Bob's dial is
    allowed; alice takes the share back, and the handler finds no session; then
    bob's lease begins.  Nobody is left to end it. *)
Definition overtaken : list event :=
  [Unshare (QRevokeACLMatch "alice" 0 "mac" "bob")] ++ go 0 2 ++
  [Dial "b1" "alice/mac" "wanctl_2" (caller "bob") Auth.FullCapabilities [1%nat]] ++ go 1 5.

Lemma dial_outlives_share :
  ACLGrant "bob" "alice" "mac" legacy_db = Some true ∧
  let s := happen_all json "portal" overtaken (start 6 legacy_db) in
  s_procs s = [[]; []] ∧ s_answered s = [0%nat] ∧ s_shut s = [] ∧
  (match s_leases s !! 0%nat with Some l => bool_decide (l_phase l = Open) && share_lost l (share_of l (s_db s)) && credentialValid 10 l (s_db s) | None => false end) = true.
Proof. vm_compute. repeat split; reflexivity. Qed.
End Demo.
